(* ===== verification/_CoqProject ===== *)
-Q . S2P
Prelude.v
Ber.v
BerDecoder.v
Float.v
BerPrim.v
TimeUtil.v
Utf8.v
Text.v
Errors.v
MmsValue.v
MmsCodec.v
BerFields.v
GooseMessage.v
Ethernet.v
GooseSubscriber.v
GoosePublisher.v
Replay.v
Keys.v
Spdu.v
Rsession.v
Tpkt.v
Cotp.v
OsiSession.v
Presentation.v
Acse.v
MmsPdu.v
Association.v
Oneshot.v
TypeSpec.v
ObjRef.v
Quality.v
BTree.v
Nodes.v
Blocks.v
Access.v
Tx.v
Handler.v
BlockStore.v
Selections.v
SettingGroup.v
Termination.v
InfoReport.v
Services.v
ClientConn.v
ServerConn.v
Wire.v
NameList.v
Control.v
ControlReports.v
Rcb.v
ControlBlocks.v
Svcb.v
ReportPdu.v
ReadService.v
Journal.v
JournalRead.v
Tracking.v
DataSets.v
Sampled.v
Pipe.v
SvStream.v
FileStore.v
FileService.v
SetFile.v
Reporting.v
ReportBuffer.v
ReportOwner.v
ClientReport.v
ReportSafe.v
ModelSafe.v
ServerState.v
RequestSafe.v
ServerSafe.v
ServerNew.v
ServerLife.v
