(* ===== verification/Prelude.v ===== *)
(** * A verification of rs-iec61850

    The crate (src/) implements IEC 61850 in Rust: MMS over the OSI upper stack on TCP, GOOSE
    and sampled values on Ethernet, their routable variants over UDP with the
    IEC 61850-90-5 session protocol, a data model, a server and a client. This library is a
    shallow embedding of the parts named below and proves them correct.

    ** Conventions

    A Rust function becomes a function in the outcome monad of this file: [Ok] and [Err] are
    those of [Result], [Panic] stands for every way Rust code panics (an index or slice out of
    range, a subtraction of unsigned integers below zero, an overflowing shift, a failed
    [expect]), and [NoFuel] for a loop of the model that used up its bound. Loops that are not
    structural take a bound, always one more than the octets (or messages) left to
    consume, and the safety theorems show that neither [Panic] nor [NoFuel] is reached, so
    the bounds are enough. Integers are [Z] with the width written out ([wrap], [swrap],
    [in_u], [in_i]); octets are [Z] with [octets] saying they are below 256; a [String] is the
    list of its UTF-8 octets; floating-point numbers are their bit patterns; instants and
    durations are nanoseconds; a [HashMap] is a finite map. Lengths of [usize] are not
    bounded by the address space.

    ** Files, in order

    - [Prelude]: outcomes, machine integers, octet strings, indexing and slicing, and the
      lemmas and tactics all files share.
    - [Ber], [BerDecoder], [Float], [BerPrim]: asn1/mod.rs, element.rs, decoder.rs,
      primitives.rs, oid.rs. Tags, lengths, the element tree, the decoder with
      indefinite lengths and its nesting limit, integers, bit strings, floating point and
      object identifiers. Shown: the decoder never panics, always returns and stays in its
      input; what is written is read back; integers take the fewest octets.
    - [TimeUtil], [Utf8], [Text], [Errors]: time_util.rs (civil dates), the standard library's
      lossy UTF-8 decoding and operations on text, and the error types of the crate.
    - [MmsValue], [MmsCodec]: mms/value.rs and value_codec.rs. The MMS value with its
      accessors and timestamps, and its encoding. Shown: values round trip up to the crate's
      own equality, decoding is safe and what it yields is well-formed, and how far
      timestamps are rounded.
    - [GooseMessage], [Ethernet]: goose/message.rs and ethernet/frame.rs, the message and
      frame codecs, with safety and round trips.
    - [GooseSubscriber]: goose/subscriber.rs. The sequence tracker is exact, and the
      supervision of the time allowed to live reports every silence, once.
    - [GoosePublisher]: goose/publisher.rs, as a step relation whose steps are the sections
      under the publisher's locks, so that publish, refresh, close and the retransmission
      tasks interleave. Shown by rule induction: the order of the frames on the wire, that
      they fit, and that a subscriber of [GooseSubscriber] finds them in sequence.
    - [Replay], [Keys], [Spdu], [Rsession]: rsession/. The anti-replay window refines an
      abstract window over unbounded numbers ([represents]); the key store only hands out
      usable keys; an SPDU is accepted only for a reason that authenticates it, and whatever can
      be sent is received; a session refuses replays, also when it drops the state of silent
      senders, and delivers GOOSE and SV frames. AES-GCM and HMAC are packages: they are
      the class [Crypto] with the laws [CryptoLaws], which a checksum model satisfies.
    - [Tpkt], [Cotp], [OsiSession]: osi/tpkt.rs, cotp.rs, session.rs. A stream is a pair of octet
      strings. The handshake agrees, segmentation is undone by reassembly, and a
      connection is an instance of the interface [Transport] (the traits SendTsdu and
      RecvTsdu) with the laws [TransportLaws], which the session theorems are proved against.
    - [Presentation], [Acse]: osi/presentation.rs and acse.rs over [BerDecoder]: the connect,
      accept and refuse PPDUs with their contexts, and the association APDUs.
    - [MmsPdu], [Association]: mms/pdu.rs, the handshakes of conn.rs and server_conn.rs, and
      transport.rs. The two ends of an association agree on everything they negotiate, and a
      PDU one sends is the PDU the other gets.
    - [Oneshot], [ClientConn], [ServerConn]: conn.rs and server_conn.rs as step relations whose
      steps are the sections between awaits and under locks, so that the reader, the callers,
      timeouts, cancels, held reports, deferred requests and close interleave. Shown by rule
      induction: answers match requests, requests are answered once and in order, a
      connection ends once; and the interleavings in which a request hangs or leaks.
    - [TypeSpec]: mms/typespec.rs. Type specifications round trip, and decoding one is safe
      and bounded in the size of the values it stands for.
    - [ObjRef], [Quality], [Nodes]: model/fc.rs, reference.rs, quality.rs, nodes.rs. References
      and their MMS names, the bit-string types, and the tree of devices, nodes, objects and
      attributes. A mutable borrow is the value with the function that puts a new one back;
      the frame lemmas say what a write through it leaves alone.
    - [Access]: server/access.rs. Names, reads, writes and types of items. Shown: what is written
      is read back and nothing else changes, a read has the structure the type declares, and
      every listed name can be read.
    - [Tx]: server/tx.rs. A transaction sets the leaves it says and its change set is exact.
    - [Handler]: the store of server/handler.rs. An accepted write of a leaf keeps every leaf of
      the model in its declared type.
    - [BTree], [Blocks], [BlockStore]: the ordered maps of the standard library; the attributes of
      control blocks in the model, how the managers read and set them, and what that leaves alone.
    - [SettingGroup]: server/settinggroup.rs. An abstract service of setting groups (activate,
      edit, confirm, write the draft) and that the SGCB with its settings refines it.
    - [Selections]: server/select.rs. The reservation table, against the history of what was
      done to it: an operate needs a live select of its own connection, which excludes others.
    - [Termination]: the CommandTermination of server/control.rs as a step relation over its
      lock, with the request, the application and the timer racing: sent at most once, and
      in the end once, in a bounded number of steps.
    - [InfoReport]: mms/report.rs and the object names of mms/services.rs: information reports
      as they are built and read.
    - [Services]: mms/services.rs. Every confirmed service of a client: a [Call] is a function of the
      state of the connection, a request built and a response read. [Wire]: the class
      [Serves], which says that a call is answered by a handler of a server, and that a client
      and a server connection joined by an association implement it; the theorems about
      services are proved against the class.
    - [NameList], [ReadService], [DataSets]: the name lists, reads, types and data sets of
      server/handler.rs. Shown end to end: a client gets every name once and in order, the
      values and types the server holds, and the data sets it defined; a data set is deleted
      exactly when it may be.
    - [Control]: server/control.rs and the control write of server/handler.rs. The application's
      handler is a parameter that may change the server it returns to, since it runs without
      the server's locks. Shown: an accepted operate was authorised in the history of the
      reservation table, and a refusal changes nothing and is explained to the client.
    - [ControlReports]: client/controlreports.rs, and with the server's half that the cause an
      operate ends with is the cause the client that waits for it is told.
    - [Rcb], [ReportPdu], [Reporting]: server/rcb.rs and reporting.rs. Report control blocks and
      their materialised objects; data sets, the PDUs of a report and its segmentation; and the
      engine, as the operations on one block. A [World] is the model, the runtime state of the
      block, the EntryID counter, the open associations and a log of what happened; the answers
      of the clock and of the queues to come are part of it, and a timer is an operation that
      may come at any time. The bounds of the sending and segmenting loops are the length
      of the buffer and the number of members, which [ReportOwner.engine_terminates]
      shows to be enough. Segments of a report carry its members once, in order, and fit.
    - [ControlBlocks], [Svcb]: server/cb.rs and svcb.rs. The objects control blocks are served as;
      sampled-value control blocks: the events to the application follow the state, and a
      reservation excludes other clients.
    - [Journal], [JournalRead]: server/journal.rs and the log services. Logs keep the latest entries,
      and a client that reads one gets every entry it asked for, page by page.
    - [Tracking]: server/tracking.rs. A tracked service is recorded, and nothing else changes.
    - [ReportBuffer]: what a buffered block promises, as a machine over the unbounded history of
      its entries, and that the bounded buffer of [Reporting] refines it in every run; what
      the promise means to a client; EntryIDs; and two runs that lose or misattribute events.
      Every operation is a sequence of a few kinds of change ([Reporting.micro]), which the
      invariants are proved for.
    - [ReportOwner]: a reservation is exclusive, and every operation of the engine ends.
    - [ClientReport]: client/report.rs. The decoding of reports, and with the server's half that
      the PDUs of an entry are read as the entry.
    - [ReportSafe]: no operation of the engine panics, from a model whose values have an encoding
      and for any value a client writes; the model the server materialises its blocks in is one.
    - [Sampled], [Pipe], [SvStream]: sv/ and ethernet/pipe.rs. The APDU of sampled values and the
      9-2LE sample; the in-memory segment; and a publisher and a subscriber at its ends, either
      of which may go first at any time. Shown: parsing is safe, APDUs round trip, and a stream
      is delivered in order and unchanged but for the frames a full segment drops.
    - [FileStore], [FileService], [SetFile]: server/file.rs, the file services of
      server/handler.rs and services_ext.rs, client/file.rs and the file server of a client in
      mms/client_ext.rs. The operating system is the class [FileSystem], with an in-memory
      [Disk] as an instance. Shown: no name leads outside the store, a file is read whole at
      any chunk size, and SetFile, for which the server reads the file from its client,
      stores it whole or not at all. The bound of its loop is one more than the octets.
    - [ModelSafe], [ServerState], [RequestSafe], [ServerSafe], [ServerNew], [ServerLife]:
      server/server.rs and handler.rs. [Inner] is the state the associations share; [handle]
      dispatches a request to the services of the files above, on that state; [Server_new]
      makes it from a model and options; and a [Hub] adds the slots and the tasks of the
      connections, whose steps are what a task does between the locks it takes. A SetFile,
      which waits for its client, is one step. Relied on are that file operations return
      ([FilesReturn]) and that a client called back answers with octets ([calls]). Shown by
      induction over the steps: the server never panics, slots stay below the maximum,
      only associations being served hold control blocks, and one that has ended holds
      nothing ever after.

    ** Defects

    Some theorems state that the code does not do what it means to: a version 1 SPDU that
    names an encrypting key panics the receiver ([Spdu.version1_encrypted_panics]), packets
    above 65535 octets are written with a wrong length ([Tpkt.oversized_packet_corrupts]),
    [tag_size] is short for tag numbers from 2^28 ([Ber.tag_size_exact_iff]), a timestamp loses
    a unit of its fraction when it is decoded and encoded again ([MmsValue.utc_time_reencode]), a
    GOOSE refresh is flagged as a gap ([GoosePublisher.refresh_is_a_gap]), one failed
    send ends a publisher's retransmissions ([GoosePublisher.send_error_stops_heartbeat]), an
    object is read without a sub-object its type declares
    ([Access.unproducible_member_dropped]), an operate with a slow handler clears another
    client's reservation ([Control.operate_clears_other_selection]), the elements of an array
    are not checked when it is written ([Handler.array_write_unchecked]), the events of an open
    buffer-time window are lost with the association of the subscriber
    ([ReportBuffer.window_lost_on_loss]), a change of the data set does not void them
    ([ReportBuffer.window_survives_purge]), a request made as the connection fails hangs
    ([ClientConn.late_request_hangs]) and one that times out stays in the table
    ([ClientConn.timeouts_leak]), a deferred request can deadlock a connection
    ([ServerConn.deferred_deadlock]), a name list can repeat names
    ([NameList.name_list_repeats]), deleting a data set that is not there is reported as one that
    exists ([DataSets.missing_set_said_to_exist]), a cleared log keeps its entry range
    ([JournalRead.cleared_log_range_stale]), reading on after an entry that is gone
    skips those of the same millisecond ([JournalRead.resume_skips_same_time]), two clients that
    store a file under one name can lose the file of the first
    ([SetFile.obtain_race_loses_file]), sample counts wrap early at rates above 65536
    ([SvStream.fast_count_wraps_early]), and the event of a new association counts other
    connections than its documentation says ([ServerLife.opened_leaves_out_setup]).

    ** Not modelled

    Sockets, threads, channels and timers (a theorem quantifies over the order of events
    instead); the RFC 3339 and ISO 8601 text formats; the common data classes; TLS, the
    authenticator and the initiate parameters a server is configured with; alternate access; the
    client's layer above the MMS services, but for reports and files; GDOI; SCL; certificates;
    the command line tools. *)

From stdpp Require Export base numbers list strings gmap.
From Stdlib Require Export ZArith Lia.

#[global] Set Default Proof Using "Type".
Open Scope Z_scope.

(** ** Outcomes of Rust code

    A Rust function that returns [Result<A, E>] has four outcomes here: the two
    of [Result], a panic (index out of range, subtraction below zero, a failed
    [expect]), and [NoFuel], which no Rust code has: it marks a loop of the model
    that used up its bound, and every theorem that a loop returns says that it is
    not the outcome. *)
Inductive outcome (E A : Type) : Type :=
| Ok (a : A)
| Err (e : E)
| Panic
| NoFuel.
Arguments Ok {E A} a.
Arguments Err {E A} e.
Arguments Panic {E A}.
Arguments NoFuel {E A}.

#[export] Instance outcome_ret {E} : MRet (outcome E) := λ A a, Ok a.
#[export] Instance outcome_bind {E} : MBind (outcome E) := λ A B f m,
  match m with
  | Ok a => f a
  | Err e => Err e
  | Panic => Panic
  | NoFuel => NoFuel
  end.

(** [Result::map_err]. *)
Definition map_err {E F A} (f : E → F) (m : outcome E A) : outcome F A :=
  match m with
  | Ok a => Ok a
  | Err e => Err (f e)
  | Panic => Panic
  | NoFuel => NoFuel
  end.

(** Neither a panic nor a loop of the model cut short. *)
Definition settled {E A} (m : outcome E A) : Prop :=
  match m with
  | Ok _ | Err _ => True
  | Panic | NoFuel => False
  end.

Definition is_ok {E A} (m : outcome E A) : Prop :=
  match m with Ok _ => True | _ => False end.

Lemma settled_bind {E A B} (m : outcome E A) (f : A → outcome E B) :
  settled m → (∀ a, m = Ok a → settled (f a)) → settled (m ≫= f).
Proof. destruct m; simpl; eauto. Qed.

Lemma settled_map_err {E F A} (f : E → F) (m : outcome E A) :
  settled (map_err f m) ↔ settled m.
Proof. by destruct m. Qed.

Lemma bind_Ok_inv {E A B} (m : outcome E A) (f : A → outcome E B) b :
  m ≫= f = Ok b → ∃ a, m = Ok a ∧ f a = Ok b.
Proof. destruct m; simpl; naive_solver. Qed.

Lemma Ok_inj {E A} (a b : A) : Ok (E:=E) a = Ok b → a = b.
Proof. congruence. Qed.

(** Running a step by rewriting, which keeps what follows as it is. *)
Lemma map_err_Ok {E F A} (f : E → F) (a : A) : map_err f (Ok a) = Ok a.
Proof. done. Qed.

Lemma bind_Ok {E A B} (a : A) (k : A → outcome E B) : Ok a ≫= k = k a.
Proof. done. Qed.

Lemma map_err_Ok_inv {E F A} (f : E → F) (m : outcome E A) a :
  map_err f m = Ok a ↔ m = Ok a.
Proof. destruct m; simpl; naive_solver. Qed.

(** [m] neither panics nor is cut short, and what it returns satisfies [P]. *)
Definition returns {E A} (P : A → Prop) (m : outcome E A) : Prop :=
  match m with
  | Ok a => P a
  | Err _ => True
  | Panic | NoFuel => False
  end.

Lemma returns_settled {E A} (P : A → Prop) (m : outcome E A) : returns P m → settled m.
Proof. by destruct m. Qed.

Lemma returns_Ok {E A} (P : A → Prop) (m : outcome E A) a : returns P m → m = Ok a → P a.
Proof. by intros H ->. Qed.

Lemma returns_bind {E A B} (P : A → Prop) (Q : B → Prop) (m : outcome E A) (f : A → outcome E B) :
  returns P m → (∀ a, P a → returns Q (f a)) → returns Q (m ≫= f).
Proof. destruct m; simpl; auto. Qed.

Lemma returns_map_err {E F A} (P : A → Prop) (f : E → F) (m : outcome E A) :
  returns P m → returns P (map_err f m).
Proof. by destruct m. Qed.

Lemma returns_weaken {E A} (P Q : A → Prop) (m : outcome E A) :
  returns P m → (∀ a, P a → Q a) → returns Q m.
Proof. destruct m; simpl; auto. Qed.

Lemma returns_intro {E A} (P : A → Prop) (m : outcome E A) :
  settled m → (∀ a, m = Ok a → P a) → returns P m.
Proof. destruct m; simpl; auto. Qed.

(** ** Machine integers

    Integers are [Z]; [wrap w] is the value kept by a [w]-bit unsigned cast or
    wrapping operation, [swrap w] the one kept by a signed cast. *)
Definition wrap (w z : Z) : Z := z mod 2 ^ w.
Definition swrap (w z : Z) : Z := (z + 2 ^ (w - 1)) mod 2 ^ w - 2 ^ (w - 1).
Definition u8 (z : Z) : Z := wrap 8 z.
Definition u16 (z : Z) : Z := wrap 16 z.
Definition u32 (z : Z) : Z := wrap 32 z.
Definition u64 (z : Z) : Z := wrap 64 z.
Definition U32_MAX : Z := 4294967295.

Definition in_u (w z : Z) : Prop := 0 ≤ z < 2 ^ w.
Definition in_i (w z : Z) : Prop := - 2 ^ (w - 1) ≤ z < 2 ^ (w - 1).

#[export] Instance in_u_dec w z : Decision (in_u w z).
Proof. unfold in_u. apply _. Defined.
#[export] Instance in_i_dec w z : Decision (in_i w z).
Proof. unfold in_i. apply _. Defined.

(** ** Slices

    A [&[u8]] is a [list Z] whose elements are octets; [zlen] is its [len()]. *)
Definition zlen {A} (l : list A) : Z := Z.of_nat (length l).

Definition octet (b : Z) : Prop := 0 ≤ b < 256.
Definition octets (l : list Z) : Prop := Forall octet l.

#[export] Instance octet_dec b : Decision (octet b).
Proof. unfold octet. apply _. Defined.
#[export] Instance octets_dec l : Decision (octets l).
Proof. unfold octets. apply _. Defined.

(** [l[i]], which panics out of range. *)
Definition idx {E A} (l : list A) (i : Z) : outcome E A :=
  if decide (i < 0) then Panic
  else match l !! Z.to_nat i with Some a => Ok a | None => Panic end.

(** [&l[a..b]], which panics unless [a <= b <= l.len()]. *)
Definition slice {E A} (l : list A) (a b : Z) : outcome E (list A) :=
  if decide (0 ≤ a ∧ a ≤ b ∧ b ≤ zlen l)
  then Ok (take (Z.to_nat (b - a)) (drop (Z.to_nat a) l))
  else Panic.

(** [&l[a..]]. *)
Definition slice_from {E A} (l : list A) (a : Z) : outcome E (list A) :=
  slice l a (zlen l).

(** Subtraction of [usize]s, which panics below zero. *)
Definition usub {E} (a b : Z) : outcome E Z :=
  if decide (b ≤ a) then Ok (a - b) else Panic.

(** [uN::from_be_bytes] and [uN::to_be_bytes] for [N = 8 * n]. *)
Fixpoint from_be_acc (acc : Z) (l : list Z) : Z :=
  match l with [] => acc | b :: l => from_be_acc (acc * 256 + b) l end.
Definition from_be (l : list Z) : Z := from_be_acc 0 l.

Fixpoint to_be (n : nat) (z : Z) : list Z :=
  match n with
  | O => []
  | S n => u8 (z / 256 ^ Z.of_nat n) :: to_be n z
  end.

(** [lia] with the equations of [/] and [mod]. *)
Ltac dlia := Z.to_euclidean_division_equations; lia.

(** ** Lemmas on lengths and slices *)

Lemma zlen_nil {A} : zlen (@nil A) = 0.
Proof. done. Qed.
Lemma zlen_cons {A} (a : A) l : zlen (a :: l) = 1 + zlen l.
Proof. unfold zlen. simpl. lia. Qed.
Lemma zlen_app {A} (l k : list A) : zlen (l ++ k) = zlen l + zlen k.
Proof. unfold zlen. rewrite length_app. lia. Qed.
Lemma zlen_nonneg {A} (l : list A) : 0 ≤ zlen l.
Proof. unfold zlen. lia. Qed.
Lemma zlen_take {A} (l : list A) n : 0 ≤ n ≤ zlen l → zlen (take (Z.to_nat n) l) = n.
Proof. unfold zlen. rewrite length_take. lia. Qed.
Lemma zlen_drop {A} (l : list A) n : 0 ≤ n ≤ zlen l → zlen (drop (Z.to_nat n) l) = zlen l - n.
Proof. unfold zlen. rewrite length_drop. lia. Qed.
Lemma zlen_map {A B} (f : A → B) l : zlen (map f l) = zlen l.
Proof. unfold zlen. by rewrite length_map. Qed.
Lemma zlen_0_nil {A} (l : list A) : zlen l = 0 → l = [].
Proof. unfold zlen. destruct l; simpl; [done|lia]. Qed.

Create Rewrite HintDb zlen.
#[export] Hint Rewrite @zlen_nil @zlen_cons @zlen_app @zlen_map : zlen.

(** Lengths of concatenations, then linear arithmetic. *)
Ltac zlen :=
  autorewrite with zlen in *;
  repeat match goal with
  | |- context [zlen ?l] => lazymatch goal with
      | _ : 0 ≤ zlen l |- _ => fail
      | _ => pose proof (zlen_nonneg l) end
  | _ : context [zlen ?l] |- _ => lazymatch goal with
      | _ : 0 ≤ zlen l |- _ => fail
      | _ => pose proof (zlen_nonneg l) end
  end; lia.

Lemma idx_app_mid {E A} (l k : list A) a i :
  i = zlen l → idx (E:=E) (l ++ a :: k) i = Ok a.
Proof.
  intros ->. unfold idx. case_decide; [zlen|].
  unfold zlen. rewrite Nat2Z.id, list_lookup_middle by done. done.
Qed.

Lemma idx_Ok {E A} (l : list A) i :
  0 ≤ i < zlen l → ∃ a, idx (E:=E) l i = Ok a ∧ a ∈ l.
Proof.
  intros Hi. unfold idx. case_decide; [lia|].
  destruct (l !! Z.to_nat i) eqn:Hl.
  - eexists; split; [done|]. by eapply list_elem_of_lookup_2.
  - apply lookup_ge_None_1 in Hl. unfold zlen in Hi. lia.
Qed.

Lemma idx_inv {E A} (l : list A) i a : idx (E:=E) l i = Ok a → 0 ≤ i < zlen l ∧ a ∈ l.
Proof.
  unfold idx. case_decide; [done|]. destruct (l !! Z.to_nat i) eqn:Hl; [|done].
  intros [= ->]. split; [|by eapply list_elem_of_lookup_2].
  apply lookup_lt_Some in Hl. unfold zlen. lia.
Qed.

(** Evaluates indexing at a known position of a list whose first elements are
    known. *)
Ltac idx_known :=
  repeat match goal with
  | |- context [@idx ?E ?A (?x :: ?l) ?i] =>
      let t := constr:(@idx E A (x :: l) i) in
      let v := eval hnf in t in
      change t with v
  end; cbn [mbind outcome_bind].

Lemma slice_app_mid {E A} (l m k : list A) a b :
  a = zlen l → b = zlen l + zlen m → slice (E:=E) (l ++ m ++ k) a b = Ok m.
Proof.
  intros -> ->. unfold slice. rewrite decide_True by zlen.
  f_equal. unfold zlen. rewrite Nat2Z.id, drop_app_length.
  replace (Z.to_nat _) with (length m) by lia. apply take_app_length.
Qed.

Lemma slice_Ok {E A} (l : list A) a b :
  0 ≤ a ≤ b → b ≤ zlen l →
  slice (E:=E) l a b = Ok (take (Z.to_nat (b - a)) (drop (Z.to_nat a) l)).
Proof. intros ? ?. unfold slice. by rewrite decide_True by lia. Qed.

Lemma slice_zlen {E A} (l : list A) a b m :
  slice (E:=E) l a b = Ok m → 0 ≤ a ≤ b ∧ b ≤ zlen l ∧ zlen m = b - a.
Proof.
  unfold slice. case_decide; [|done]. intros [= <-].
  split_and!; [lia..|]. apply zlen_take. rewrite zlen_drop; lia.
Qed.

Lemma slice_all {E A} (l : list A) : slice (E:=E) l 0 (zlen l) = Ok l.
Proof.
  rewrite slice_Ok by zlen. f_equal. rewrite Z.sub_0_r. unfold zlen.
  rewrite Nat2Z.id. apply firstn_all.
Qed.

Lemma slice_from_app {E A} (l k : list A) a :
  a = zlen l → slice_from (E:=E) (l ++ k) a = Ok k.
Proof.
  intros ->. unfold slice_from. rewrite <-(app_nil_r (l ++ k)), <-app_assoc.
  apply slice_app_mid; zlen.
Qed.

Lemma slice_from_Ok {E A} (l : list A) a :
  0 ≤ a ≤ zlen l → slice_from (E:=E) l a = Ok (drop (Z.to_nat a) l).
Proof.
  intros Ha. unfold slice_from. rewrite slice_Ok by lia. f_equal.
  apply firstn_all2. rewrite length_drop. unfold zlen. lia.
Qed.

Lemma usub_Ok {E} a b : b ≤ a → usub (E:=E) a b = Ok (a - b).
Proof. intros. unfold usub. by rewrite decide_True. Qed.

(** The part of a list before and after an offset inside it. *)
Lemma split_at {A} (l : list A) n :
  0 ≤ n ≤ zlen l →
  ∃ p r, l = p ++ r ∧ zlen p = n.
Proof.
  intros Hn. exists (take (Z.to_nat n) l), (drop (Z.to_nat n) l).
  split; [by rewrite take_drop|]. by apply zlen_take.
Qed.

Lemma octets_app l k : octets (l ++ k) ↔ octets l ∧ octets k.
Proof. apply Forall_app. Qed.
Lemma octets_cons b l : octets (b :: l) ↔ octet b ∧ octets l.
Proof. apply Forall_cons. Qed.
Lemma octets_nil : octets [].
Proof. constructor. Qed.

(** An explicit list of octets. *)
Ltac solve_octets :=
  repeat (apply octets_cons; split; [first [done|unfold octet in *; lia]|]); apply octets_nil.

Lemma octets_take n l : octets l → octets (take n l).
Proof. apply Forall_take. Qed.
Lemma octets_drop n l : octets l → octets (drop n l).
Proof. apply Forall_drop. Qed.
Lemma octets_slice {E} l a b m : slice (E:=E) l a b = Ok m → octets l → octets m.
Proof.
  unfold slice. case_decide; [|done]. intros [= <-] ?.
  by apply octets_take, octets_drop.
Qed.
Lemma idx_octet {E} l i b : idx (E:=E) l i = Ok b → octets l → octet b.
Proof.
  intros [_ Hb]%idx_inv Hl. unfold octets in Hl. rewrite Forall_forall in Hl. auto.
Qed.

(** ** Bits and octets *)

Lemma u8_octet z : octet (u8 z).
Proof. by apply Z.mod_pos_bound. Qed.
Lemma u8_id z : octet z → u8 z = z.
Proof. unfold u8, wrap, octet. change (2 ^ 8) with 256. intros. apply Z.mod_small. lia. Qed.
Lemma wrap_id w z : in_u w z → wrap w z = z.
Proof. intros. by apply Z.mod_small. Qed.
Lemma wrap_range w z : 0 ≤ w → in_u w (wrap w z).
Proof. intros. apply Z.mod_pos_bound. by apply Z.pow_pos_nonneg. Qed.

Lemma swrap_id w z : 0 < w → in_i w z → swrap w z = z.
Proof.
  intros Hw. unfold swrap, in_i. intros Hz. rewrite Z.mod_small; [lia|].
  replace (2 ^ w) with (2 * 2 ^ (w - 1)); [lia|].
  rewrite <-Z.pow_succ_r by lia. f_equal. lia.
Qed.

Lemma swrap_range w z : 0 < w → in_i w (swrap w z).
Proof.
  intros Hw. unfold swrap, in_i.
  assert (2 ^ w = 2 * 2 ^ (w - 1)) as E
    by (rewrite <-Z.pow_succ_r by lia; f_equal; lia).
  pose proof (Z.mod_pos_bound (z + 2 ^ (w - 1)) (2 ^ w)).
  assert (0 < 2 ^ w) by (by apply Z.pow_pos_nonneg; lia). lia.
Qed.

Lemma swrap_mod w z : 0 < w → (swrap w z) mod 2 ^ w = z mod 2 ^ w.
Proof.
  intros Hw. unfold swrap. rewrite Zminus_mod_idemp_l. f_equal. lia.
Qed.

(** A value in range is determined by its residue. *)
Lemma in_i_mod_eq w a b :
  0 < w → in_i w a → in_i w b → a mod 2 ^ w = b mod 2 ^ w → a = b.
Proof.
  intros Hw Ha Hb E. rewrite <-(swrap_id w a), <-(swrap_id w b) by done.
  unfold swrap. f_equal. by rewrite <-Zplus_mod_idemp_l, E, Zplus_mod_idemp_l.
Qed.

Lemma pow256 n : 0 ≤ n → 256 ^ n = 2 ^ (8 * n).
Proof. intros. change 256 with (2 ^ 8). by rewrite <-Z.pow_mul_r. Qed.

Lemma in_i_mono k k' v : 0 < k ≤ k' → in_i k v → in_i k' v.
Proof.
  unfold in_i. intros Hk Hv. pose proof (Z.pow_le_mono_r 2 (k - 1) (k' - 1)). lia.
Qed.

(** A property of every number below [n], decided by evaluating it on each. *)
Lemma range_forall (n : nat) (P : Z → bool) :
  forallb P (map Z.of_nat (seq 0 n)) = true → ∀ b, 0 ≤ b < Z.of_nat n → P b = true.
Proof.
  rewrite forallb_forall. intros H b Hb. apply H.
  apply in_map_iff. exists (Z.to_nat b). split; [lia|]. apply in_seq. lia.
Qed.

(** Proves [f b = g b] for an octet (or a number below [n]) by evaluation. *)
Ltac by_range n b :=
  let H := fresh in
  match goal with
  | |- ?P =>
    let P' := eval pattern b in P in
    lazymatch P' with
    | (fun x => @?l x = @?r x) b =>
        assert (H : ∀ x, 0 ≤ x < Z.of_nat n → bool_decide (l x = r x) = true);
        [apply range_forall; vm_compute; reflexivity
        |refine (bool_decide_eq_true_1 _ (H b _)); simpl; lia]
    end
  end.
Ltac by_octets b := by_range 256%nat b.

Lemma land_ones_mod x k n : 0 ≤ k → n = 2 ^ k - 1 → Z.land x n = x mod 2 ^ k.
Proof.
  intros Hk ->. rewrite <-Z.land_ones by done. f_equal. rewrite Z.ones_equiv. lia.
Qed.

Lemma lor_shiftl_add a b k :
  0 ≤ k → 0 ≤ b < 2 ^ k → Z.lor (Z.shiftl a k) b = a * 2 ^ k + b.
Proof.
  intros Hk Hb.
  assert (Hdis : Z.land (Z.shiftl a k) b = 0).
  { apply Z.bits_inj'. intros n Hn. rewrite Z.land_spec, Z.bits_0.
    destruct (decide (n < k)).
    - by rewrite Z.shiftl_spec_low.
    - rewrite <-(Z.mod_small b (2 ^ k)), Z.mod_pow2_bits_high by lia.
      apply andb_false_r. }
  rewrite <-Z.shiftl_mul_pow2 by done.
  by rewrite Z.add_nocarry_lxor, Z.lxor_lor.
Qed.

Lemma shiftr_div z k n : 0 ≤ k → n = 2 ^ k → Z.shiftr z k = z / n.
Proof. intros ? ->. by rewrite Z.shiftr_div_pow2. Qed.

(** ** Big-endian octets *)

Lemma from_be_acc_eq acc l :
  from_be_acc acc l = acc * 256 ^ zlen l + from_be l.
Proof.
  unfold from_be. revert acc. induction l as [|b l IH]; intros acc; simpl.
  - rewrite zlen_nil. lia.
  - rewrite IH, (IH (0 * 256 + b)), zlen_cons, Z.pow_add_r by zlen. lia.
Qed.

Lemma from_be_cons b l : from_be (b :: l) = b * 256 ^ zlen l + from_be l.
Proof. unfold from_be at 1. simpl. by rewrite from_be_acc_eq. Qed.

Lemma from_be_app l k : from_be (l ++ k) = from_be l * 256 ^ zlen k + from_be k.
Proof.
  induction l as [|b l IH]; simpl; [done|].
  rewrite !from_be_cons, IH, zlen_app, Z.pow_add_r by zlen. lia.
Qed.

Lemma from_be_range l : octets l → 0 ≤ from_be l < 256 ^ zlen l.
Proof.
  induction 1 as [|b l Hb Hl IH]; [done|].
  rewrite from_be_cons, zlen_cons, Z.pow_add_r by zlen.
  unfold octet in Hb. nia.
Qed.

Lemma zlen_to_be n z : zlen (to_be n z) = Z.of_nat n.
Proof. induction n; simpl; [done|]. rewrite zlen_cons, IHn. lia. Qed.

Lemma octets_to_be n z : octets (to_be n z).
Proof. induction n; simpl; constructor; [apply u8_octet|done]. Qed.

Lemma from_to_be n z : from_be (to_be n z) = z mod 256 ^ Z.of_nat n.
Proof.
  induction n as [|n IH]; simpl to_be; [symmetry; apply Z.mod_1_r|].
  rewrite from_be_cons, zlen_to_be, IH.
  unfold u8, wrap. change (2 ^ 8) with 256.
  rewrite Nat2Z.inj_succ, Z.pow_succ_r by lia.
  rewrite (Z.mul_comm 256), Z.rem_mul_r by lia. lia.
Qed.

Lemma to_be_app n m z :
  to_be (n + m) z = to_be n (z / 256 ^ Z.of_nat m) ++ to_be m z.
Proof.
  induction n as [|n IH]; simpl; [done|]. rewrite IH. do 2 f_equal.
  rewrite Nat2Z.inj_add, Z.div_div, <-Z.pow_add_r by lia.
  do 2 f_equal. lia.
Qed.

Lemma to_be_high n m z c :
  (n ≤ m)%nat → to_be n (c * 256 ^ Z.of_nat m + z) = to_be n z.
Proof.
  induction n as [|n IH]; intros Hn; simpl; [done|].
  rewrite IH by lia. f_equal. unfold u8, wrap. change (2 ^ 8) with 256.
  replace (Z.of_nat m) with (1 + Z.of_nat (m - n - 1) + Z.of_nat n) by lia.
  rewrite !Z.pow_add_r, !Z.mul_assoc, Z.add_comm, Z.div_add by lia.
  rewrite <-Z.mul_assoc, (Z.mul_comm (256 ^ 1)), Z.mul_assoc.
  by rewrite Z.mod_add.
Qed.

Lemma to_from_be l n : octets l → n = length l → to_be n (from_be l) = l.
Proof.
  intros Hl ->. induction Hl as [|b l Hb Hl IH]; [done|]. simpl.
  pose proof (from_be_range l Hl) as Hr. unfold zlen in Hr.
  rewrite from_be_cons. unfold zlen. f_equal.
  - rewrite Z.add_comm, Z.div_add, Z.div_small by lia. by apply u8_id.
  - by rewrite to_be_high.
Qed.
