(* ===== verification/Ber.v ===== *)
(** The encoding half of the BER runtime: tags, lengths and the [Element]
    builders of src/src/asn1/mod.rs and src/src/asn1/element.rs.

    A [Vec<u8>] a function appends to is its first argument and its result. *)

From S2P Require Import Prelude.

(** ** Tags *)

Inductive TagClass :=
| Universal
| Application
| ContextSpecific
| Private.

#[export] Instance TagClass_eq_dec : EqDecision TagClass.
Proof. solve_decision. Defined.

(** [class as u8]. *)
Definition class_code (c : TagClass) : Z :=
  match c with
  | Universal => 0
  | Application => 1
  | ContextSpecific => 2
  | Private => 3
  end.

Definition Class_from_bits (b : Z) : TagClass :=
  match Z.land b 3 with
  | 0 => Universal
  | 1 => Application
  | 2 => ContextSpecific
  | _ => Private
  end.

Record Tag := Tag_new {
  tag_class : TagClass;
  tag_constructed : bool;
  tag_number : Z;
}.

#[export] Instance Tag_eq_dec : EqDecision Tag.
Proof. solve_decision. Defined.

(** The number of a [Tag] is a [u32]. *)
Definition tag_wf (t : Tag) : Prop := in_u 32 (tag_number t).

Definition TAG_BOOLEAN : Tag := Tag_new Universal false 1.
Definition TAG_INTEGER : Tag := Tag_new Universal false 2.
Definition TAG_BIT_STRING : Tag := Tag_new Universal false 3.
Definition TAG_OCTET_STRING : Tag := Tag_new Universal false 4.
Definition TAG_NULL : Tag := Tag_new Universal false 5.
Definition TAG_OID : Tag := Tag_new Universal false 6.
Definition TAG_UTF8_STRING : Tag := Tag_new Universal false 12.
Definition TAG_SEQUENCE : Tag := Tag_new Universal true 16.
Definition TAG_SET : Tag := Tag_new Universal true 17.
Definition TAG_GENERAL_TIME : Tag := Tag_new Universal false 24.
Definition TAG_GRAPHIC_STRING : Tag := Tag_new Universal false 25.
Definition TAG_VISIBLE_STRING : Tag := Tag_new Universal false 26.

Definition context_primitive (n : Z) : Tag := Tag_new ContextSpecific false n.
Definition context_constructed (n : Z) : Tag := Tag_new ContextSpecific true n.
Definition application_constructed (n : Z) : Tag := Tag_new Application true n.
Definition application_primitive (n : Z) : Tag := Tag_new Application false n.

Definition MAX_DEPTH : Z := 64.

(** ** Identifier and length octets *)

(** The loop that fills the five-octet buffer from its end with the septets of
    [n]: [acc] is the filled part, and [room] counts the slots left after the
    next one. [septets_digits] shows that a [u32] never needs a sixth slot. *)
Fixpoint septets (room : nat) (n : Z) (acc : list Z) : list Z :=
  let acc := Z.land n 0x7f :: acc in
  let n := Z.shiftr n 7 in
  if decide (n = 0) then acc
  else match room with
       | O => acc
       | S room => septets room n acc
       end.

(** The high bit set on all but the last octet. *)
Fixpoint mark_more (l : list Z) : list Z :=
  match l with
  | [] => []
  | [b] => [b]
  | b :: l => Z.lor b 0x80 :: mark_more l
  end.

Definition base128 (n : Z) : list Z := mark_more (septets 4 n []).

Definition append_tag (dst : list Z) (t : Tag) : list Z :=
  let b := u8 (Z.shiftl (class_code (tag_class t)) 6) in
  let b := if tag_constructed t then Z.lor b 0x20 else b in
  if decide (tag_number t < 31) then dst ++ [Z.lor b (u8 (tag_number t))]
  else dst ++ [Z.lor b 0x1f] ++ base128 (tag_number t).

Definition append_length (dst : list Z) (n : Z) : list Z :=
  if decide (n < 0x80) then dst ++ [u8 n]
  else if decide (n ≤ 0xff) then dst ++ [0x81; u8 n]
  else if decide (n ≤ 0xffff) then dst ++ [0x82; u8 (Z.shiftr n 8); u8 n]
  else if decide (n ≤ 0xffffff) then
    dst ++ [0x83; u8 (Z.shiftr n 16); u8 (Z.shiftr n 8); u8 n]
  else
    dst ++ [0x84; u8 (Z.shiftr n 24); u8 (Z.shiftr n 16); u8 (Z.shiftr n 8); u8 n].

Definition tag_size (t : Tag) : Z :=
  let n := tag_number t in
  if decide (n ≤ 30) then 1
  else if decide (n < Z.shiftl 1 7) then 2
  else if decide (n < Z.shiftl 1 14) then 3
  else if decide (n < Z.shiftl 1 21) then 4
  else 5.

Definition length_size (n : Z) : Z :=
  if decide (n ≤ 0x7f) then 1
  else if decide (n ≤ 0xff) then 2
  else if decide (n ≤ 0xffff) then 3
  else if decide (n ≤ 0xffffff) then 4
  else 5.

Definition tlv_size (t : Tag) (n : Z) : Z := tag_size t + length_size n + n.

Definition append_tlv (dst : list Z) (t : Tag) (content : list Z) : list Z :=
  append_length (append_tag dst t) (zlen content) ++ content.

(** ** Elements *)

Inductive Element :=
| Primitive (tag : Tag) (value : list Z)
| Constructed (tag : Tag) (children : list Element)
| Raw (tag : Tag) (content : list Z)
| Verbatim (tlv : list Z).

Definition set_constructed (t : Tag) : Tag :=
  Tag_new (tag_class t) true (tag_number t).

Definition prim (tag : Tag) (value : list Z) : Element := Primitive tag value.
Definition cons_elem (tag : Tag) (children : list Element) : Element :=
  Constructed (set_constructed tag) children.
Definition raw_content (tag : Tag) (content : list Z) : Element :=
  Raw (set_constructed tag) content.
Definition raw_tlv (tlv : list Z) : Element := Verbatim tlv.

Definition Element_seq (tag : Tag) : Element := cons_elem tag [].

Definition Element_push (e child : Element) : Element :=
  match e with
  | Constructed tag children => Constructed tag (children ++ [child])
  | _ => e
  end.

Definition Element_add (e child : Element) : Element := Element_push e child.

Definition Element_add_opt (e : Element) (child : option Element) : Element :=
  match child with
  | Some c => Element_push e c
  | None => e
  end.

Definition Element_add_all (e : Element) (children : list Element) : Element :=
  fold_left Element_push children e.

Definition Element_tag (e : Element) : option Tag :=
  match e with
  | Primitive tag _ | Constructed tag _ | Raw tag _ => Some tag
  | Verbatim _ => None
  end.

Definition Zsum (l : list Z) : Z := fold_right Z.add 0 l.

(** [Element::size]; [content_size] and [size] call each other in the source. *)
Fixpoint Element_size (e : Element) : Z :=
  match e with
  | Verbatim v => zlen v
  | Primitive tag value => tag_size tag + length_size (zlen value) + zlen value
  | Raw tag content => tag_size tag + length_size (zlen content) + zlen content
  | Constructed tag children =>
      let n := Zsum (map Element_size children) in
      tag_size tag + length_size n + n
  end.

Definition Element_content_size (e : Element) : Z :=
  match e with
  | Primitive _ value => zlen value
  | Constructed _ children => Zsum (map Element_size children)
  | Raw _ content => zlen content
  | Verbatim v => zlen v
  end.

Fixpoint Element_append (dst : list Z) (e : Element) : list Z :=
  match e with
  | Verbatim v => dst ++ v
  | Primitive tag value =>
      append_length (append_tag dst tag) (zlen value) ++ value
  | Raw tag content =>
      append_length (append_tag dst tag) (zlen content) ++ content
  | Constructed tag children =>
      let n := Zsum (map Element_size children) in
      fold_left Element_append children (append_length (append_tag dst tag) n)
  end.

Definition Element_encode (e : Element) : list Z := Element_append [] e.

(** ** Appending is concatenation *)

(** The octets each function appends, as functions of their own. *)
Definition tag_octets (t : Tag) : list Z := append_tag [] t.
Definition length_octets (n : Z) : list Z := append_length [] n.

Lemma append_tag_app dst t : append_tag dst t = dst ++ tag_octets t.
Proof. unfold tag_octets, append_tag. by repeat case_decide. Qed.

Lemma append_length_app dst n : append_length dst n = dst ++ length_octets n.
Proof. unfold length_octets, append_length. by repeat case_decide. Qed.

Lemma append_tlv_app dst t c :
  append_tlv dst t c = dst ++ tag_octets t ++ length_octets (zlen c) ++ c.
Proof.
  unfold append_tlv. by rewrite append_length_app, append_tag_app, <-!app_assoc.
Qed.

(** Induction over an element and its children. *)
Lemma Element_ind' (P : Element → Prop) :
  (∀ tag value, P (Primitive tag value)) →
  (∀ tag children, Forall P children → P (Constructed tag children)) →
  (∀ tag content, P (Raw tag content)) →
  (∀ tlv, P (Verbatim tlv)) →
  ∀ e, P e.
Proof.
  intros HP HC HR HV. fix IH 1. intros [tag value|tag children|tag content|tlv];
    [apply HP|apply HC|apply HR|apply HV].
  induction children; constructor; auto.
Qed.

Lemma fold_append_app es dst :
  Forall (λ e, ∀ dst, Element_append dst e = dst ++ Element_encode e) es →
  fold_left Element_append es dst = dst ++ concat (map Element_encode es).
Proof.
  intros H. revert dst. induction H as [|e es He Hes IH]; intros dst; simpl.
  - by rewrite app_nil_r.
  - by rewrite IH, He, app_assoc.
Qed.

Lemma Element_append_app e dst : Element_append dst e = dst ++ Element_encode e.
Proof.
  revert dst. induction e as [tag value|tag children IH|tag content|tlv] using Element_ind';
    intros dst; unfold Element_encode; simpl;
    rewrite ?append_length_app, ?append_tag_app, <-?app_assoc; try done.
  rewrite !fold_append_app by done. simpl. by rewrite <-!app_assoc.
Qed.

Lemma Element_encode_constructed tag children :
  Element_encode (Constructed tag children) =
  tag_octets tag ++ length_octets (Zsum (map Element_size children)) ++
    concat (map Element_encode children).
Proof.
  unfold Element_encode at 1. simpl. rewrite fold_append_app.
  - by rewrite append_length_app, append_tag_app, <-!app_assoc.
  - apply Forall_true. intros. apply Element_append_app.
Qed.

Lemma Element_encode_primitive tag value :
  Element_encode (Primitive tag value) = append_tlv [] tag value.
Proof. done. Qed.

Lemma Element_encode_raw tag content :
  Element_encode (Raw tag content) = append_tlv [] tag content.
Proof. done. Qed.

(** ** The base-128 digits of a tag number or OID arc *)

(** The number a list of septets stands for, continuing from [acc]. *)
Fixpoint base128_value (acc : Z) (ds : list Z) : Z :=
  match ds with [] => acc | d :: ds => base128_value (acc * 128 + d) ds end.

Definition septet (d : Z) : Prop := 0 ≤ d < 128.

Lemma base128_value_app acc ds es :
  base128_value acc (ds ++ es) = base128_value (base128_value acc ds) es.
Proof. revert acc. induction ds; simpl; auto. Qed.

Lemma septets_digits room n acc :
  0 ≤ n < 128 ^ (Z.of_nat room + 1) →
  ∃ ds, septets room n acc = ds ++ acc ∧ base128_value 0 ds = n ∧
    Forall septet ds ∧ ds ≠ [] ∧
    ∀ k, (k ≤ room)%nat → (length ds ≤ k + 1)%nat ↔ n < 128 ^ (Z.of_nat k + 1).
Proof.
  revert n acc. induction room as [|room IH]; intros n acc Hn; simpl septets;
    rewrite (land_ones_mod n 7), (shiftr_div n 7 128) by done;
    change (2 ^ 7) with 128.
  - change (128 ^ (Z.of_nat 0 + 1)) with 128 in Hn.
    assert (n / 128 = 0) as -> by (apply Z.div_small; lia).
    rewrite decide_True by done. exists [n mod 128]. simpl. rewrite Z.mod_small by lia.
    split_and!; [done|lia|repeat constructor; unfold septet; lia|done|].
    intros k Hk. assert (k = 0)%nat as -> by lia. simpl length.
    change (128 ^ (Z.of_nat 0 + 1)) with 128. lia.
  - case_decide as Hz.
    + assert (n < 128) by dlia. exists [n mod 128]. simpl. rewrite Z.mod_small by lia.
      split_and!; [done|lia|repeat constructor; unfold septet; lia|done|].
      intros k _. split; [|lia]. intros _.
      apply Z.lt_le_trans with (128 ^ 1); [lia|]. apply Z.pow_le_mono_r; lia.
    + destruct (IH (n / 128) (n mod 128 :: acc)) as (ds & -> & Hval & Hds & Hne & Hlen).
      { split; [dlia|]. apply Z.div_lt_upper_bound; [lia|].
        rewrite <-Z.pow_succ_r by lia.
        replace (Z.succ _) with (Z.of_nat (S room) + 1) by lia. lia. }
      exists (ds ++ [n mod 128]). rewrite <-app_assoc. split_and!; [done|..].
      * rewrite base128_value_app, Hval. simpl. dlia.
      * apply Forall_app. split; [done|]. repeat constructor; dlia.
      * by destruct ds.
      * intros [|k] Hk; rewrite length_app; simpl length.
        { change (128 ^ (Z.of_nat 0 + 1)) with 128. split; [|dlia].
          destruct ds; simpl in *; [done|lia]. }
        rewrite Nat2Z.inj_succ.
        replace (Z.succ _ + 1) with (Z.succ (Z.of_nat k + 1)) by lia.
        rewrite Z.pow_succ_r by lia.
        destruct (Hlen k) as [H1 H2]; [lia|]. split; intros H.
        { specialize (H1 ltac:(lia)). dlia. }
        { enough (length ds ≤ k + 1)%nat by lia. apply H2.
          apply Z.div_lt_upper_bound; lia. }
Qed.

Lemma base128_digits n :
  in_u 32 n →
  ∃ ds, base128 n = mark_more ds ∧ base128_value 0 ds = n ∧
    Forall septet ds ∧ ds ≠ [] ∧ (length ds ≤ 5)%nat ∧
    ∀ k, (k ≤ 4)%nat → (length ds ≤ k + 1)%nat ↔ n < 128 ^ (Z.of_nat k + 1).
Proof.
  intros Hn. unfold in_u in Hn.
  destruct (septets_digits 4 n []) as (ds & Heq & ? & ? & ? & Hlen); [simpl; lia|].
  rewrite app_nil_r in Heq. exists ds. unfold base128. rewrite Heq.
  split_and!; try done. apply (Hlen 4%nat); [done|]. simpl. lia.
Qed.

Lemma length_mark_more ds : length (mark_more ds) = length ds.
Proof. induction ds as [|d [|e ds] IH]; simpl in *; congruence. Qed.

Lemma octets_mark_more ds : Forall septet ds → octets (mark_more ds).
Proof.
  intros H. induction H as [|d [|e ds] Hd Hds IH]; [constructor|..].
  - repeat constructor; unfold septet in Hd; lia.
  - constructor; [|done]. change (Z.lor d 0x80) with (Z.lor d (Z.shiftl 1 7)).
    rewrite Z.lor_comm, lor_shiftl_add by (unfold septet in Hd; lia).
    unfold septet in Hd. unfold octet. lia.
Qed.

(** ** Sizes *)

Lemma zlen_length_octets n : zlen (length_octets n) = length_size n.
Proof.
  unfold length_octets, append_length, length_size.
  repeat case_decide; simpl; try reflexivity; lia.
Qed.

(** [tag_size] is the length of what [append_tag] writes, below [2 ^ 28]. *)
Lemma zlen_tag_octets t :
  0 ≤ tag_number t < 2 ^ 28 → zlen (tag_octets t) = tag_size t.
Proof.
  intros Hn. unfold tag_octets, append_tag, tag_size.
  change (Z.shiftl 1 7) with (128 ^ 1). change (Z.shiftl 1 14) with (128 ^ 2).
  change (Z.shiftl 1 21) with (128 ^ 3).
  destruct (base128_digits (tag_number t)) as (ds & -> & _ & _ & Hne & _ & Hlen).
  { split; [lia|]. lia. }
  unfold zlen. case_decide as H1; [by rewrite decide_True by lia|].
  rewrite decide_False by lia. simpl. rewrite length_mark_more.
  pose proof (Hlen 0%nat) as L0. pose proof (Hlen 1%nat) as L1.
  pose proof (Hlen 2%nat) as L2. pose proof (Hlen 3%nat) as L3. simpl in L0, L1, L2, L3.
  destruct ds as [|d ds]; [done|]. simpl length in *.
  repeat case_decide; lia.
Qed.

Lemma octets_tag_octets t : tag_wf t → octets (tag_octets t).
Proof.
  intros Hwf. unfold tag_octets, append_tag.
  destruct (base128_digits _ Hwf) as (ds & -> & _ & Hds & _).
  unfold tag_wf, in_u in Hwf.
  assert (Hlow : ∀ k, 0 ≤ k < 32 → octet (Z.lor (if tag_constructed t
      then Z.lor (u8 (Z.shiftl (class_code (tag_class t)) 6)) 0x20
      else u8 (Z.shiftl (class_code (tag_class t)) 6)) k)).
  { intros k Hk.
    assert (Hb : ∃ c, (if tag_constructed t
      then Z.lor (u8 (Z.shiftl (class_code (tag_class t)) 6)) 0x20
      else u8 (Z.shiftl (class_code (tag_class t)) 6)) = Z.shiftl c 5 ∧ 0 ≤ c < 8).
    { destruct (tag_class t), (tag_constructed t);
        [exists 1|exists 0|exists 3|exists 2|exists 5|exists 4|exists 7|exists 6]; done. }
    destruct Hb as (c & -> & Hc). rewrite lor_shiftl_add by lia. unfold octet. lia. }
  case_decide; simpl; constructor.
  - apply Hlow. rewrite u8_id by (unfold octet; lia). lia.
  - constructor.
  - by apply Hlow.
  - by apply octets_mark_more.
Qed.

Lemma octets_length_octets n : octets (length_octets n).
Proof.
  unfold length_octets, append_length.
  repeat case_decide; repeat (constructor; [first [apply u8_octet|done]|]); constructor.
Qed.

(** ** Theorems *)

(** Every tag of an element satisfies [P]. *)
Fixpoint Element_tags (P : Tag → Prop) (e : Element) : Prop :=
  match e with
  | Verbatim _ => True
  | Primitive tag _ | Raw tag _ => P tag
  | Constructed tag children => P tag ∧ fold_right and True (map (Element_tags P) children)
  end.

Lemma Element_tags_children P tag children :
  Element_tags P (Constructed tag children) ↔ P tag ∧ Forall (Element_tags P) children.
Proof.
  simpl. apply and_iff_compat_l. induction children as [|e es IH]; simpl.
  - split; [constructor|done].
  - by rewrite Forall_cons, IH.
Qed.

(** The tag numbers for which [tag_size] is right. *)
Definition tag_sized (t : Tag) : Prop := 0 ≤ tag_number t < 2 ^ 28.

Lemma concat_sizes es :
  Forall (λ e, Element_size e = zlen (Element_encode e)) es →
  Zsum (map Element_size es) = zlen (concat (map Element_encode es)).
Proof. induction 1 as [|e es He Hes IH]; simpl; [done|]. rewrite zlen_app. lia. Qed.

Lemma Element_size_encode e :
  Element_tags tag_sized e → Element_size e = zlen (Element_encode e).
Proof.
  induction e as [tag value|tag children IH|tag content|tlv] using Element_ind'; intros Ht.
  - rewrite Element_encode_primitive, append_tlv_app. simpl. autorewrite with zlen.
    rewrite zlen_length_octets, zlen_tag_octets by done. lia.
  - apply Element_tags_children in Ht as [Ht Hc].
    rewrite Element_encode_constructed. autorewrite with zlen.
    rewrite zlen_length_octets, zlen_tag_octets by done. simpl.
    rewrite concat_sizes; [lia|].
    revert IH Hc. rewrite !Forall_forall. auto.
  - rewrite Element_encode_raw, append_tlv_app. simpl. autorewrite with zlen.
    rewrite zlen_length_octets, zlen_tag_octets by done. lia.
  - done.
Qed.

Lemma Element_encode_cons tag children :
  Forall (Element_tags tag_sized) children →
  Element_encode (Constructed tag children) =
  append_tlv [] tag (concat (map Element_encode children)).
Proof.
  intros H. rewrite Element_encode_constructed, append_tlv_app, concat_sizes; [done|].
  revert H. rewrite !Forall_forall. auto using Element_size_encode.
Qed.

(** [Element::size] is the number of octets [Element::encode] produces, for
    every element whose tag numbers are below 2^28; so the length octets of a
    constructed element count exactly its children. *)
Theorem Element_size_exact (e : Element) :
  Element_tags tag_sized e →
  zlen (Element_encode e) = Element_size e ∧
  match e with
  | Constructed tag children =>
      Element_encode e = append_tlv [] tag (concat (map Element_encode children))
  | _ => True
  end.
Proof.
  intros H. split; [by rewrite Element_size_encode|].
  destruct e as [| tag children | |]; try done.
  apply Element_tags_children in H as [_ H]. by apply Element_encode_cons.
Qed.

Lemma Element_size_exact_witness :
  let e := cons_elem TAG_SEQUENCE
    [prim TAG_INTEGER [42]; cons_elem (context_primitive 72) [raw_tlv [1; 1; 255]]] in
  Element_size e = 11 ∧ zlen (Element_encode e) = 11.
Proof.
  intros e. split; [reflexivity|].
  apply (Element_size_exact e). vm_compute. repeat split; discriminate.
Defined.

(** [tag_size] agrees with what [append_tag] writes exactly when the tag
    number is below 2^28: above, [append_tag] writes five base-128 octets after
    the leading one and [tag_size] still answers 5. *)
Theorem tag_size_exact_iff (t : Tag) :
  tag_wf t → zlen (append_tag [] t) = tag_size t ↔ tag_number t < 2 ^ 28.
Proof.
  intros Hwf. pose proof Hwf as Hr. unfold tag_wf, in_u in Hr.
  split; [|intros; apply zlen_tag_octets; lia].
  intros Heq. destruct (decide (tag_number t < 2 ^ 28)) as [|Hge]; [done|exfalso].
  revert Heq. unfold append_tag, tag_size.
  destruct (base128_digits _ Hwf) as (ds & -> & _ & _ & _ & H5 & Hlen).
  change (Z.shiftl 1 7) with 128. change (Z.shiftl 1 14) with 16384.
  change (Z.shiftl 1 21) with 2097152.
  rewrite !decide_False by lia. unfold zlen. simpl. rewrite length_mark_more.
  pose proof (Hlen 3%nat) as L3. simpl in L3. lia.
Qed.

Lemma tag_size_exact_iff_witness :
  tag_size (Tag_new Private false (2 ^ 28)) = 5 ∧
  zlen (append_tag [] (Tag_new Private false (2 ^ 28))) = 6 ∧
  ¬ 2 ^ 28 < 2 ^ 28.
Proof.
  split; [reflexivity|]. split; [reflexivity|].
  intros H. pose proof (tag_size_exact_iff (Tag_new Private false (2 ^ 28))) as [_ Hr].
  - vm_compute. split; [discriminate|reflexivity].
  - apply Hr in H. vm_compute in H. discriminate.
Defined.
