(* ===== verification/BerDecoder.v ===== *)
(** The decoding half of the BER runtime: the [Decoder] of
    src/src/asn1/decoder.rs and the errors of src/src/asn1/mod.rs.

    A method that takes [&mut self] returns the decoder after it; on an error
    the decoder is dropped, as every caller in the crate drops it. *)

From S2P Require Import Prelude Ber.
Local Open Scope string_scope.
Local Open Scope list_scope.
Local Open Scope Z_scope.

(** ** Definitions *)

Inductive Asn1Error :=
| Truncated (what : string) (offset : Z)
| BadTag (what : string) (offset : Z)
| BadLength (what : string) (offset : Z)
| TooDeep (offset : Z)
| Unexpected (expected got : Tag) (offset : Z)
| BadValue (what : string).

Record Decoder := mkDecoder {
  data : list Z;
  off : Z;
}.

Definition Decoder_new (data : list Z) : Decoder := mkDecoder data 0.

Definition more (d : Decoder) : bool := bool_decide (off d < zlen (data d)).

Definition offset (d : Decoder) : Z := off d.

Definition rest (d : Decoder) : outcome Asn1Error (list Z) :=
  slice_from (data d) (off d).

(** [self.off += n]. *)
Definition advance (d : Decoder) (n : Z) : Decoder :=
  mkDecoder (data d) (off d + n).

(** The loop of the high tag number form. Its bound of six rounds is the bound
    [i >= 5] of the source. *)
Fixpoint read_tag_loop (fuel : nat) (i number : Z) (d : Decoder)
    : outcome Asn1Error (Z * Decoder) :=
  match fuel with
  | O => NoFuel
  | S fuel =>
      if decide (zlen (data d) ≤ off d) then Err (Truncated "reading tag" (off d))
      else if decide (5 ≤ i) then Err (BadTag "tag number too large" (off d))
      else
        c ← idx (data d) (off d);
        let d := advance d 1 in
        let number := Z.lor (u32 (Z.shiftl number 7)) (Z.land c 0x7f) in
        if decide (Z.land c 0x80 = 0) then Ok (number, d)
        else read_tag_loop fuel (i + 1) number d
  end.

Definition read_tag (d : Decoder) : outcome Asn1Error (Tag * Decoder) :=
  if decide (zlen (data d) ≤ off d) then Err (Truncated "reading tag" (off d))
  else
    b ← idx (data d) (off d);
    let d := advance d 1 in
    let class := Class_from_bits (Z.shiftr b 6) in
    let constructed := negb (bool_decide (Z.land b 0x20 = 0)) in
    let number := Z.land b 0x1f in
    if decide (number ≠ 0x1f) then Ok (Tag_new class constructed number, d)
    else
      '(number, d) ← read_tag_loop 6 0 0 d;
      Ok (Tag_new class constructed number, d).

Fixpoint read_length_loop (num_octets : nat) (n : Z) (d : Decoder)
    : outcome Asn1Error (Z * Decoder) :=
  match num_octets with
  | O => Ok (n, d)
  | S k =>
      b ← idx (data d) (off d);
      read_length_loop k (Z.lor (Z.shiftl n 8) b) (advance d 1)
  end.

Definition read_length (d : Decoder) : outcome Asn1Error ((Z * bool) * Decoder) :=
  if decide (zlen (data d) ≤ off d) then Err (Truncated "reading length" (off d))
  else
    b ← idx (data d) (off d);
    let d := advance d 1 in
    if decide (b < 0x80) then Ok ((b, false), d)
    else if decide (b = 0x80) then Ok ((0, true), d)
    else
      let num_octets := Z.land b 0x7f in
      if decide (num_octets > 4) then Err (BadLength "length overflows" (off d))
      else if decide (off d + num_octets > zlen (data d)) then
        Err (Truncated "reading length" (off d))
      else
        '(n, d) ← read_length_loop (Z.to_nat num_octets) 0 d;
        Ok ((n, false), d).

(** The scan of an indefinite-length element: children are read with [read]
    until the end-of-contents octets. *)
Fixpoint scan_children (read : Decoder → outcome Asn1Error ((Tag * list Z) * Decoder))
    (t : Tag) (start : Z) (fuel : nat) (d : Decoder)
    : outcome Asn1Error ((Tag * list Z) * Decoder) :=
  match fuel with
  | O => NoFuel
  | S fuel =>
      eoc ← (if decide (off d + 2 ≤ zlen (data d)) then
               b0 ← idx (data d) (off d);
               if decide (b0 = 0) then
                 b1 ← idx (data d) (off d + 1);
                 Ok (bool_decide (b1 = 0))
               else Ok false
             else Ok false);
      if (eoc : bool) then
        content ← slice (data d) start (off d);
        Ok ((t, content), advance d 2)
      else
        '(_, d) ← read d;
        scan_children read t start fuel d
  end.

(** [read_tlv_at], with [levels] the nesting still allowed: the source's [depth]
    is [MAX_DEPTH + 1 - levels]. *)
Fixpoint read_tlv_at (levels : nat) (d : Decoder)
    : outcome Asn1Error ((Tag * list Z) * Decoder) :=
  match levels with
  | O => Err (TooDeep (off d))
  | S levels =>
      '(t, d) ← read_tag d;
      '((n, indefinite), d) ← read_length d;
      if negb indefinite then
        remaining ← usub (zlen (data d)) (off d);
        if decide (n > remaining) then Err (Truncated "reading content" (off d))
        else
          content ← slice (data d) (off d) (off d + n);
          Ok ((t, content), advance d n)
      else if negb (tag_constructed t) then
        Err (BadLength "indefinite length on primitive" (off d))
      else scan_children (read_tlv_at levels) t (off d) (S (length (data d))) d
  end.

Definition read_tlv (d : Decoder) : outcome Asn1Error ((Tag * list Z) * Decoder) :=
  read_tlv_at (S (Z.to_nat MAX_DEPTH)) d.

Definition peek (d : Decoder) : outcome Asn1Error Tag :=
  '(t, _) ← read_tag (mkDecoder (data d) (off d)); Ok t.

Definition peek_is (d : Decoder) (t : Tag) : bool :=
  match peek d with Ok got => bool_decide (got = t) | _ => false end.

Definition expect (d : Decoder) (t : Tag) : outcome Asn1Error (list Z * Decoder) :=
  let offset := off d in
  '((got, content), d) ← read_tlv d;
  if decide (got ≠ t) then Err (Unexpected t got offset)
  else Ok (content, d).

Definition optional (d : Decoder) (t : Tag) : outcome Asn1Error (option (list Z) * Decoder) :=
  if negb (more d) then Ok (None, d)
  else
    got ← peek d;
    if decide (got ≠ t) then Ok (None, d)
    else
      '((_, content), d) ← read_tlv d;
      Ok (Some content, d).

Definition skip (d : Decoder) : outcome Asn1Error Decoder :=
  '(_, d) ← read_tlv d; Ok d.

(** ** No panic, progress and bounds *)

(** The type invariant of a decoder: octets, and an offset inside them. *)
Definition dec_wf (d : Decoder) : Prop :=
  octets (data d) ∧ 0 ≤ off d ≤ zlen (data d).

(** [m] neither panics nor runs out of fuel, and if it succeeds it leaves the
    decoder on the same octets, at least [k] further and inside them. *)
Definition advances {E A} (k : Z) (d : Decoder) (m : outcome E (A * Decoder)) : Prop :=
  match m with
  | Ok (_, d') => data d' = data d ∧ off d + k ≤ off d' ≤ zlen (data d)
  | Err _ => True
  | Panic | NoFuel => False
  end.

Lemma advances_settled {E A} k d (m : outcome E (A * Decoder)) : advances k d m → settled m.
Proof. by destruct m as [[]| | |]. Qed.

Lemma advances_Ok {E A} k d (m : outcome E (A * Decoder)) a d' :
  advances k d m → m = Ok (a, d') →
  data d' = data d ∧ off d + k ≤ off d' ≤ zlen (data d).
Proof. by intros H ->. Qed.

Lemma advances_bind {E A B} j k d (m : outcome E (A * Decoder))
    (f : A * Decoder → outcome E (B * Decoder)) :
  dec_wf d → 0 ≤ j → advances j d m →
  (∀ a d', data d' = data d → off d + j ≤ off d' ≤ zlen (data d) → dec_wf d' →
     advances (k - (off d' - off d)) d' (f (a, d'))) →
  advances k d (m ≫= f).
Proof.
  intros [Hoct Ho] Hj Hm Hf. destruct m as [[a d']| | |]; simpl in *; try done.
  destruct Hm as [Hd Hb].
  specialize (Hf a d' Hd Hb). unfold dec_wf in Hf. rewrite Hd in Hf.
  specialize (Hf ltac:(naive_solver lia)). destruct (f (a, d')) as [[b d'']| | |]; simpl in *; try done.
  rewrite Hd in Hf. split; [|lia]. naive_solver.
Qed.

Lemma advances_weaken {E A} j k d (m : outcome E (A * Decoder)) :
  k ≤ j → advances j d m → advances k d m.
Proof. destruct m as [[]| | |]; simpl; naive_solver lia. Qed.

(** Closes a goal about offsets. *)
Ltac offsets :=
  unfold dec_wf in *; simpl in *; destruct_and?; repeat split; first [done|lia].

(** Reading the next octet of a decoder that has one. *)
Ltac read_octet :=
  match goal with
  | |- context [idx (data ?d) (off ?d)] =>
      let b := fresh "b" in let Hb := fresh "Hb" in
      destruct (idx_Ok (E:=Asn1Error) (data d) (off d)) as (b & Hb & _);
      [offsets|rewrite Hb; cbn [mbind outcome_bind]]
  end.

Lemma advances_step {E A} k d (m : outcome E (A * Decoder)) :
  advances (k - 1) (advance d 1) m → advances k d m.
Proof. destruct m as [[a d']| | |]; simpl; try done. intros [? ?]. split; [done|lia]. Qed.

Lemma advances_ret {E A} k d d' (a : A) :
  data d' = data d → off d + k ≤ off d' ≤ zlen (data d) →
  advances k d (Ok (E:=E) (a, d')).
Proof. done. Qed.

Lemma advances_fmap {E A B} k d (m : outcome E (A * Decoder)) (g : A → B) :
  advances k d m → advances k d ('(a, d') ← m; Ok (g a, d')).
Proof. by destruct m as [[a d']| | |]. Qed.

Lemma dec_wf_advance d n :
  dec_wf d → 0 ≤ n → off d + n ≤ zlen (data d) → dec_wf (advance d n).
Proof. intros. offsets. Qed.

Lemma read_tag_loop_advances fuel i number d :
  dec_wf d → 0 ≤ i ≤ 5 → Z.of_nat fuel = 6 - i →
  advances 1 d (read_tag_loop fuel i number d).
Proof.
  revert i number d. induction fuel as [|fuel IH]; intros i number d Hd Hi Hf; simpl.
  - lia.
  - repeat (case_decide; [done|]). read_octet. case_decide; [offsets|].
    apply advances_step. eapply advances_weaken, IH; [lia| |lia|lia].
    apply dec_wf_advance; [done|lia..].
Qed.

Lemma read_tag_advances d : dec_wf d → advances 1 d (read_tag d).
Proof.
  intros Hd. unfold read_tag. case_decide; [done|]. read_octet.
  case_decide; [offsets|]. apply advances_fmap, advances_step.
  eapply advances_weaken, read_tag_loop_advances; [lia| |lia|lia].
  apply dec_wf_advance; [done|lia..].
Qed.

Lemma read_length_loop_advances k n d :
  dec_wf d → off d + Z.of_nat k ≤ zlen (data d) →
  advances (Z.of_nat k) d (read_length_loop k n d).
Proof.
  revert n d. induction k as [|k IH]; intros n d Hd Hk; simpl read_length_loop.
  - offsets.
  - read_octet. apply advances_step.
    replace (Z.of_nat (S k) - 1) with (Z.of_nat k) by lia.
    apply IH; [apply dec_wf_advance; [done|lia..]|simpl; lia].
Qed.

Lemma read_length_advances d : dec_wf d → advances 1 d (read_length d).
Proof.
  intros Hd. unfold read_length. case_decide; [done|]. read_octet.
  case_decide; [offsets|]. case_decide; [offsets|].
  case_decide; [done|]. case_decide as Hlen; [done|]. simpl in Hlen.
  assert (0 ≤ Z.land b 127) by (apply Z.land_nonneg; lia).
  apply advances_fmap, advances_step.
  eapply advances_weaken, read_length_loop_advances; [lia| |simpl; lia].
  apply dec_wf_advance; [done|lia..].
Qed.

Lemma scan_children_advances read t start fuel d :
  (∀ d, dec_wf d → advances 1 d (read d)) →
  dec_wf d → 0 ≤ start ≤ off d → zlen (data d) - off d < Z.of_nat fuel →
  advances 0 d (scan_children read t start fuel d).
Proof.
  intros Hread. revert d. induction fuel as [|fuel IH]; intros d Hd Hs Hf; simpl.
  { unfold dec_wf in Hd. lia. }
  assert (Heoc : ∃ e : bool, (if decide (off d + 2 ≤ zlen (data d)) then
      b0 ← idx (data d) (off d);
      if decide (b0 = 0) then
        b1 ← idx (data d) (off d + 1); Ok (bool_decide (b1 = 0))
      else Ok false
    else Ok false) = Ok (E:=Asn1Error) e ∧ (e = true → off d + 2 ≤ zlen (data d))).
  { case_decide; [|by exists false]. read_octet. case_decide; [|by exists false].
    destruct (idx_Ok (E:=Asn1Error) (data d) (off d + 1)) as (b1 & -> & _);
      [offsets|]. simpl. eauto. }
  destruct Heoc as ([] & -> & He); simpl.
  - rewrite slice_Ok by (unfold dec_wf in *; lia). simpl. offsets.
  - specialize (Hread d Hd). destruct (read d) as [[? d']| | |]; simpl in *; try done.
    destruct Hread as [Hdata Hoff].
    assert (Hd' : dec_wf d') by (unfold dec_wf in *; rewrite Hdata; offsets).
    specialize (IH d' Hd' ltac:(lia)). rewrite Hdata in IH. specialize (IH ltac:(lia)).
    destruct (scan_children _ _ _ _ _) as [[? d'']| | |]; simpl in *; try done.
    rewrite Hdata in IH. split; [tauto|lia].
Qed.

Lemma read_length_loop_nonneg k n d m d' :
  octets (data d) → 0 ≤ n → read_length_loop k n d = Ok (m, d') → 0 ≤ m.
Proof.
  revert n d. induction k as [|k IH]; intros n d Hd Hn; simpl; [naive_solver|].
  intros (b & Hb & H)%bind_Ok_inv. apply IH in H; [done|done|].
  pose proof (idx_octet _ _ _ Hb Hd) as Hoct. unfold octet in Hoct.
  apply Z.lor_nonneg. split; [apply Z.shiftl_nonneg|]; lia.
Qed.

Lemma read_length_nonneg d n indef d' :
  octets (data d) → read_length d = Ok ((n, indef), d') → 0 ≤ n.
Proof.
  intros Hd. unfold read_length. case_decide as H0; [done|]. clear H0.
  intros (b & Hb & H)%bind_Ok_inv. pose proof (idx_octet _ _ _ Hb Hd) as Hoct.
  unfold octet in Hoct. do 2 (case_decide; [injection H as <- _ _; lia|]).
  do 2 (case_decide; [done|]).
  apply bind_Ok_inv in H as ([m d1] & Hloop & [= -> _ _]).
  by eapply read_length_loop_nonneg in Hloop.
Qed.

Lemma read_tlv_at_advances levels d : dec_wf d → advances 2 d (read_tlv_at levels d).
Proof.
  revert d. induction levels as [|levels IH]; intros d Hd; cbn [read_tlv_at]; [done|].
  apply (advances_bind 1); [done|lia|by apply read_tag_advances|].
  intros t d1 Hd1 Ho1 Hwf1.
  pose proof (read_length_advances d1 Hwf1) as Hadv.
  pose proof (read_length_nonneg d1) as Hpos. unfold dec_wf in *.
  destruct (read_length d1) as [[[n indef] d2]| | |]; cbn [mbind outcome_bind]; try done.
  specialize (Hpos n indef d2 ltac:(tauto) eq_refl).
  destruct Hadv as [Hd2 Ho2]. rewrite Hd1 in *.
  destruct indef; cbn [negb].
  - destruct (tag_constructed t); cbn [negb]; [|done].
    assert (Hs : advances 0 d2 (scan_children (read_tlv_at levels) t (off d2)
                                  (S (length (data d2))) d2)).
    { apply scan_children_advances; unfold dec_wf; rewrite ?Hd2.
      - intros d3 Hd3. eapply advances_weaken; [|by apply IH]. lia.
      - split; [tauto|lia].
      - lia.
      - unfold zlen in *. lia. }
    destruct (scan_children _ _ _ _ _) as [[? d3]| | |]; try done.
    simpl in *. rewrite Hd1, Hd2 in *. split; [tauto|lia].
  - rewrite Hd2, usub_Ok by lia. simpl. case_decide; [done|].
    rewrite slice_Ok by lia. simpl. rewrite Hd1, Hd2. split; [done|lia].
Qed.

Lemma read_tlv_advances d : dec_wf d → advances 2 d (read_tlv d).
Proof. apply read_tlv_at_advances. Qed.

(** ** Reading back what the encoder wrote *)

(** A decoder that has consumed [pre] and has [suf] to read. *)
Definition dec_at (pre suf : list Z) : Decoder := mkDecoder (pre ++ suf) (zlen pre).

#[global] Arguments dec_at : simpl never.

Lemma dec_at_nil l : Decoder_new l = dec_at [] l.
Proof. done. Qed.

Lemma dec_at_advance pre l suf : advance (dec_at pre (l ++ suf)) (zlen l) = dec_at (pre ++ l) suf.
Proof. unfold advance, dec_at. simpl. f_equal; [by rewrite app_assoc|zlen]. Qed.

Lemma dec_at_advance_1 pre b suf : advance (dec_at pre (b :: suf)) 1 = dec_at (pre ++ [b]) suf.
Proof. apply (dec_at_advance pre [b] suf). Qed.

Lemma dec_wf_split d : dec_wf d → ∃ pre suf, d = dec_at pre suf.
Proof.
  intros [_ Ho]. destruct (split_at (data d) (off d)) as (p & r & Hd & Hp); [lia|].
  exists p, r. destruct d. simpl in *. unfold dec_at. by subst.
Qed.

Lemma idx_dec_at {E} pre b suf :
  idx (E:=E) (data (dec_at pre (b :: suf))) (off (dec_at pre (b :: suf))) = Ok b.
Proof. by apply idx_app_mid. Qed.

Lemma zlen_dec_at pre suf : zlen (data (dec_at pre suf)) = zlen pre + zlen suf.
Proof. unfold dec_at. simpl. zlen. Qed.

Lemma off_dec_at pre suf : off (dec_at pre suf) = zlen pre.
Proof. done. Qed.

(** Reads the octet at the head of what is left. *)
Ltac read_head :=
  first [rewrite idx_dec_at|rewrite idx_app_mid by done];
  cbn [mbind outcome_bind]; rewrite ?dec_at_advance_1.

Lemma base128_value_ge acc ds : 0 ≤ acc → Forall septet ds → acc ≤ base128_value acc ds.
Proof.
  intros Ha H. revert acc Ha. induction H as [|d ds Hd Hds IH]; intros acc Ha; simpl; [lia|].
  unfold septet in Hd. etrans; [|apply IH]; lia.
Qed.

Lemma lead_octet c k low :
  0 ≤ low < 32 →
  let b := u8 (Z.shiftl (class_code c) 6) in
  let b := if (k : bool) then Z.lor b 0x20 else b in
  let b := Z.lor b low in
  Class_from_bits (Z.shiftr b 6) = c ∧
  negb (bool_decide (Z.land b 0x20 = 0)) = k ∧
  Z.land b 0x1f = low.
Proof. intros Hl. destruct c, k; cbv zeta; split_and!; by_range 32%nat low. Qed.

Lemma septet_last d : septet d → Z.land d 0x80 = 0 ∧ Z.land d 0x7f = d.
Proof. intros Hd. unfold septet in Hd. split; by_range 128%nat d. Qed.

Lemma septet_more d :
  septet d → bool_decide (Z.land (Z.lor d 0x80) 0x80 = 0) = false ∧
  Z.land (Z.lor d 0x80) 0x7f = d.
Proof. intros Hd. unfold septet in Hd. split; by_range 128%nat d. Qed.

Lemma septet_acc number d :
  0 ≤ number → septet d → number * 128 + d < 2 ^ 32 →
  Z.lor (u32 (Z.shiftl number 7)) d = number * 128 + d.
Proof.
  intros Hn Hd Hlt. unfold septet in Hd. unfold u32. rewrite wrap_id.
  - by rewrite lor_shiftl_add by lia.
  - unfold in_u. rewrite Z.shiftl_mul_pow2 by lia. lia.
Qed.

Lemma read_tag_loop_at fuel i number ds pre suf :
  Forall septet ds → ds ≠ [] → 0 ≤ number →
  base128_value number ds < 2 ^ 32 → zlen ds + i ≤ 5 → zlen ds ≤ Z.of_nat fuel →
  read_tag_loop fuel i number (dec_at pre (mark_more ds ++ suf)) =
  Ok (base128_value number ds, dec_at (pre ++ mark_more ds) suf).
Proof.
  intros Hds. revert fuel i number pre.
  induction Hds as [|d ds Hd Hds IH]; intros fuel i number pre Hne Hn Hv Hi Hf; [done|].
  destruct fuel as [|fuel]; [zlen|]. cbn [read_tag_loop].
  simpl in Hv. pose proof Hd as Hd'. unfold septet in Hd'.
  pose proof (base128_value_ge (number * 128 + d) ds ltac:(lia) Hds).
  rewrite zlen_dec_at, off_dec_at. destruct ds as [|e ds].
  - simpl mark_more. simpl app.
    rewrite decide_False, decide_False by zlen. read_head.
    destruct (septet_last d Hd) as [-> ->]. rewrite decide_True by done.
    simpl in *. by rewrite septet_acc by (done || lia).
  - change (mark_more (d :: e :: ds)) with (Z.lor d 0x80 :: mark_more (e :: ds)).
    simpl app. rewrite decide_False, decide_False by zlen. read_head.
    destruct (septet_more d Hd) as [Hb ->].
    rewrite decide_False by (by apply bool_decide_eq_false in Hb).
    rewrite septet_acc by (done || lia).
    rewrite (IH fuel (i + 1)); [|done|lia|done|zlen..].
    simpl. by rewrite <-app_assoc.
Qed.

Lemma read_tag_at t pre suf :
  tag_wf t →
  read_tag (dec_at pre (tag_octets t ++ suf)) = Ok (t, dec_at (pre ++ tag_octets t) suf).
Proof.
  intros Hwf. destruct t as [c k n]. unfold tag_octets, append_tag. simpl.
  unfold tag_wf, in_u in Hwf. simpl in Hwf.
  case_decide as Hlow; simpl app; unfold read_tag; rewrite zlen_dec_at, off_dec_at;
    rewrite decide_False by zlen; read_head.
  - rewrite (u8_id n) by (unfold octet; lia).
    destruct (lead_octet c k n) as (-> & -> & ->); [lia|].
    by rewrite decide_True by lia.
  - destruct (lead_octet c k 31) as (-> & -> & ->); [lia|].
    rewrite decide_False by lia.
    destruct (base128_digits n) as (ds & -> & Hv & Hds & Hne & H5 & _); [done|].
    rewrite read_tag_loop_at; [|done|done|lia|lia|unfold zlen; lia..].
    cbn [mbind outcome_bind]. by rewrite Hv, <-app_assoc.
Qed.

Lemma read_length_loop_at bs acc pre suf :
  octets bs →
  read_length_loop (length bs) acc (dec_at pre (bs ++ suf)) =
  Ok (from_be_acc acc bs, dec_at (pre ++ bs) suf).
Proof.
  intros H. revert acc pre. induction H as [|b bs Hb Hbs IH]; intros acc pre; simpl.
  - by rewrite app_nil_r.
  - read_head. rewrite lor_shiftl_add by (unfold octet in Hb; lia).
    rewrite IH. by rewrite <-app_assoc.
Qed.

Lemma read_length_long k n pre suf :
  (k ≤ 4)%nat → (0 < k)%nat → 0 ≤ n < 256 ^ Z.of_nat k →
  read_length (dec_at pre (0x80 + Z.of_nat k :: to_be k n ++ suf)) =
  Ok ((n, false), dec_at (pre ++ 0x80 + Z.of_nat k :: to_be k n) suf).
Proof.
  intros H4 H0 Hn. unfold read_length. rewrite zlen_dec_at, off_dec_at.
  rewrite decide_False by zlen. read_head. rewrite !decide_False by lia.
  assert (Hland : Z.land (128 + Z.of_nat k) 127 = Z.of_nat k).
  { destruct k as [|[|[|[|[|]]]]]; try done; lia. }
  rewrite Hland, zlen_dec_at, off_dec_at. rewrite !decide_False by (rewrite ?zlen_app, ?zlen_to_be; zlen).
  rewrite Nat2Z.id.
  pose proof (read_length_loop_at (to_be k n) 0 (pre ++ [128 + Z.of_nat k]) suf
    (octets_to_be _ _)) as HL.
  assert (length (to_be k n) = k) as Hk by (pose proof (zlen_to_be k n); unfold zlen in *; lia).
  rewrite Hk in HL. rewrite HL. cbn [mbind outcome_bind].
  change (from_be_acc 0 (to_be k n)) with (from_be (to_be k n)).
  rewrite from_to_be, Z.mod_small by lia. by rewrite <-app_assoc.
Qed.

Lemma read_length_at n pre suf :
  in_u 32 n →
  read_length (dec_at pre (length_octets n ++ suf)) =
  Ok ((n, false), dec_at (pre ++ length_octets n) suf).
Proof.
  intros Hn. unfold in_u in Hn. unfold length_octets, append_length.
  case_decide as H1; [|case_decide as H2; [|case_decide as H3; [|case_decide as H4]]];
    rewrite ?(shiftr_div n 8 256), ?(shiftr_div n 16 65536), ?(shiftr_div n 24 16777216) by done.
  - simpl app. rewrite u8_id by (unfold octet; lia).
    unfold read_length. rewrite zlen_dec_at, off_dec_at, decide_False by zlen. read_head.
    by rewrite decide_True by done.
  - pose proof (read_length_long 1 n pre suf) as HL. simpl in HL.
    rewrite Z.div_1_r in HL. apply HL; lia.
  - pose proof (read_length_long 2 n pre suf) as HL. simpl in HL.
    rewrite Z.div_1_r in HL. apply HL; lia.
  - pose proof (read_length_long 3 n pre suf) as HL. simpl in HL.
    rewrite Z.div_1_r in HL. apply HL; lia.
  - pose proof (read_length_long 4 n pre suf) as HL. simpl in HL.
    rewrite Z.div_1_r in HL. apply HL; lia.
Qed.

Lemma read_tlv_at_at levels t c pre suf :
  tag_wf t → zlen c < 2 ^ 32 →
  read_tlv_at (S levels) (dec_at pre (append_tlv [] t c ++ suf)) =
  Ok ((t, c), dec_at (pre ++ append_tlv [] t c) suf).
Proof.
  intros Ht Hc. rewrite append_tlv_app. simpl app. cbn [read_tlv_at].
  rewrite <-!app_assoc, read_tag_at by done. cbn [mbind outcome_bind].
  rewrite read_length_at by (unfold in_u; zlen). cbn [mbind outcome_bind negb].
  rewrite zlen_dec_at, off_dec_at, usub_Ok by zlen. cbn [mbind outcome_bind].
  rewrite decide_False by zlen.
  rewrite (slice_app_mid ((pre ++ tag_octets t) ++ length_octets (zlen c)) c suf)
    by done. cbn [mbind outcome_bind].
  rewrite dec_at_advance. by rewrite <-!app_assoc.
Qed.

Lemma read_tlv_dec_at t c pre suf :
  tag_wf t → zlen c < 2 ^ 32 →
  read_tlv (dec_at pre (append_tlv [] t c ++ suf)) =
  Ok ((t, c), dec_at (pre ++ append_tlv [] t c) suf).
Proof. apply read_tlv_at_at. Qed.

Lemma expect_at t c pre suf :
  tag_wf t → zlen c < 2 ^ 32 →
  expect (dec_at pre (append_tlv [] t c ++ suf)) t =
  Ok (c, dec_at (pre ++ append_tlv [] t c) suf).
Proof.
  intros. unfold expect. rewrite read_tlv_dec_at by done. cbn [mbind outcome_bind].
  by rewrite decide_False by auto.
Qed.

Lemma more_at pre suf : more (dec_at pre suf) = bool_decide (suf ≠ []).
Proof.
  unfold more. rewrite zlen_dec_at, off_dec_at. apply bool_decide_ext.
  destruct suf as [|b suf]; split; intros; try done; zlen.
Qed.

Lemma tag_octets_ne t suf : tag_octets t ++ suf ≠ [].
Proof. unfold tag_octets, append_tag. by case_decide. Qed.

Lemma append_tlv_ne t c suf : append_tlv [] t c ++ suf ≠ [].
Proof. rewrite append_tlv_app, <-!app_assoc. apply tag_octets_ne. Qed.

Lemma peek_at t c pre suf :
  tag_wf t → peek (dec_at pre (append_tlv [] t c ++ suf)) = Ok t.
Proof.
  intros. unfold peek. rewrite append_tlv_app. simpl app. rewrite <-!app_assoc.
  change (mkDecoder _ _) with (dec_at pre (tag_octets t ++ length_octets (zlen c) ++ c ++ suf)).
  by rewrite read_tag_at.
Qed.

Lemma optional_at t c pre suf :
  tag_wf t → zlen c < 2 ^ 32 →
  optional (dec_at pre (append_tlv [] t c ++ suf)) t =
  Ok (Some c, dec_at (pre ++ append_tlv [] t c) suf).
Proof.
  intros. unfold optional. rewrite more_at, bool_decide_eq_true_2 by apply append_tlv_ne.
  cbn [negb]. rewrite peek_at by done. cbn [mbind outcome_bind].
  rewrite decide_False by auto. by rewrite read_tlv_dec_at.
Qed.

(** [optional] leaves an element with another tag where it is. *)
Lemma optional_at_other t t' c pre suf :
  tag_wf t → t ≠ t' →
  optional (dec_at pre (append_tlv [] t c ++ suf)) t' =
  Ok (None, dec_at pre (append_tlv [] t c ++ suf)).
Proof.
  intros. unfold optional. rewrite more_at, bool_decide_eq_true_2 by apply append_tlv_ne.
  cbn [negb]. rewrite peek_at by done. cbn [mbind outcome_bind]. by rewrite decide_True.
Qed.

Lemma optional_at_end t pre : optional (dec_at pre []) t = Ok (None, dec_at pre []).
Proof. unfold optional. by rewrite more_at. Qed.

(** The content an element read leaves behind is a slice of the input between
    the two offsets. *)
Lemma scan_children_content read t start fuel d t' c d' :
  scan_children read t start fuel d = Ok ((t', c), d') →
  t' = t ∧ ∃ e, slice (E:=Asn1Error) (data d') start e = Ok c ∧ off d' = e + 2.
Proof.
  revert d. induction fuel as [|fuel IH]; intros d; [done|]. cbn [scan_children].
  intros (eoc & _ & H)%bind_Ok_inv. destruct eoc.
  - apply bind_Ok_inv in H as (content & Hs & [= -> -> <-]). eauto.
  - apply bind_Ok_inv in H as ([? d1] & _ & H). by apply IH in H.
Qed.

Lemma read_tlv_at_content levels d t c d' :
  dec_wf d → read_tlv_at levels d = Ok ((t, c), d') →
  ∃ a, off d + 2 ≤ a ∧ a + zlen c ≤ off d' ∧
       slice (E:=Asn1Error) (data d) a (a + zlen c) = Ok c.
Proof.
  intros Hd. destruct levels as [|levels]; [done|]. cbn [read_tlv_at]. intros H.
  apply bind_Ok_inv in H as ([t1 d1] & H1 & H).
  destruct (advances_Ok _ _ _ _ _ (read_tag_advances d Hd) H1) as [Hd1 Ho1].
  assert (Hwf1 : dec_wf d1) by (unfold dec_wf in *; rewrite Hd1; split; [tauto|lia]).
  apply bind_Ok_inv in H as ([[n indef] d2] & H2 & H).
  destruct (advances_Ok _ _ _ _ _ (read_length_advances d1 Hwf1) H2) as [Hd2 Ho2].
  rewrite Hd1 in Ho2. destruct indef; cbn [negb] in H.
  - destruct (tag_constructed t1); [|done]. cbn [negb] in H.
    assert (Hwf2 : dec_wf d2) by (unfold dec_wf in *; rewrite Hd2, Hd1; split; [tauto|lia]).
    assert (Hadv : advances 0 d2 (scan_children (read_tlv_at levels) t1 (off d2)
                                  (S (length (data d2))) d2)).
    { apply scan_children_advances; [|done|unfold dec_wf in *; lia|unfold zlen, dec_wf in *; lia].
      intros. eapply advances_weaken; [|by apply read_tlv_at_advances]. lia. }
    destruct (advances_Ok _ _ _ _ _ Hadv H) as [Hd' Ho'].
    apply scan_children_content in H as (-> & e & Hs & ->).
    pose proof (slice_zlen _ _ _ _ Hs) as (? & ? & Hlen).
    exists (off d2). rewrite Hlen. replace (off d2 + (e - off d2)) with e by lia.
    rewrite Hd', Hd2, Hd1 in Hs. split_and!; [lia|lia|done].
  - apply bind_Ok_inv in H as (r & _ & H). case_decide; [done|].
    apply bind_Ok_inv in H as (content & Hs & [= -> -> <-]).
    pose proof (slice_zlen _ _ _ _ Hs) as (? & ? & Hlen).
    exists (off d2). rewrite Hlen. replace (off d2 + _) with (off d2 + n) by lia.
    rewrite Hd2, Hd1 in Hs. simpl. split_and!; [lia|lia|done].
Qed.

(** ** Readers

    [m] reads something that satisfies [P] and leaves a decoder to go on with. *)
Definition reading {E A} (P : A → Prop) (m : outcome E (A * Decoder)) : Prop :=
  returns (λ r, P r.1 ∧ dec_wf r.2) m.

Lemma reading_bind {E A B} (P : A → Prop) (Q : B → Prop)
    (m : outcome E (A * Decoder)) (f : A * Decoder → outcome E B) :
  reading P m → (∀ a d, P a → dec_wf d → returns Q (f (a, d))) → returns Q (m ≫= f).
Proof. intros Hm Hf. eapply returns_bind; [exact Hm|]. intros [a d] [? ?]. auto. Qed.

Lemma reading_map_err {E F A} (P : A → Prop) (f : E → F) (m : outcome E (A * Decoder)) :
  reading P m → reading P (map_err f m).
Proof. apply returns_map_err. Qed.

Lemma reading_read_tlv d : dec_wf d → reading (λ r, octets r.2) (read_tlv d).
Proof.
  intros Hd. pose proof (read_tlv_advances d Hd) as Hadv.
  apply returns_intro; [by eapply advances_settled|]. intros [[t c] d'] H. simpl.
  destruct (advances_Ok _ _ _ _ _ Hadv H) as [E1 Ho].
  destruct (read_tlv_at_content _ _ _ _ _ Hd H) as (a & _ & _ & Hs).
  destruct Hd as [Hoct Hoff]. split; [by eapply octets_slice|].
  unfold dec_wf. rewrite E1. split; [done|lia].
Qed.

Lemma reading_expect d t : dec_wf d → reading octets (expect d t).
Proof.
  intros Hd. unfold expect. eapply reading_bind; [by apply reading_read_tlv|].
  intros [got c] d' Hc Hd'. simpl. by case_decide.
Qed.

Lemma peek_settled d : dec_wf d → settled (peek d).
Proof.
  intros Hd. unfold peek. replace (mkDecoder (data d) (off d)) with d by (by destruct d).
  pose proof (read_tag_advances d Hd) as H. by destruct (read_tag d) as [[]| | |].
Qed.

Lemma reading_optional d t : dec_wf d → reading (λ o, octets (default [] o)) (optional d t).
Proof.
  intros Hd. unfold optional. destruct (more d); cbn [negb].
  - pose proof (peek_settled d Hd) as Hp. destruct (peek d); try done. cbn [mbind outcome_bind].
    case_decide; [by split; [apply octets_nil|]|].
    eapply reading_bind; [by apply reading_read_tlv|]. by intros [got c] d' Hc Hd'.
  - by split; [apply octets_nil|].
Qed.

(** ** Theorems *)

(** On any octets, at any offset inside them, [Decoder::read_tlv] returns: it
    does not panic and its loops end. When it succeeds it has consumed at least
    two octets, stays inside the input, and the content it hands out is a slice
    of the input behind the old offset and before the new one. *)
Theorem read_tlv_safe (d : Decoder) :
  dec_wf d →
  settled (read_tlv d) ∧
  ∀ t c d', read_tlv d = Ok ((t, c), d') →
    data d' = data d ∧ off d + 2 ≤ off d' ≤ zlen (data d) ∧
    ∃ a, off d + 2 ≤ a ∧ a + zlen c ≤ off d' ∧
         slice (E:=Asn1Error) (data d) a (a + zlen c) = Ok c.
Proof.
  intros Hd. pose proof (read_tlv_advances d Hd) as Hadv.
  split; [by eapply advances_settled|]. intros t c d' H.
  destruct (advances_Ok _ _ _ _ _ Hadv H). split_and!; [done|lia..|].
  by eapply read_tlv_at_content.
Qed.

Lemma read_tlv_safe_witness :
  read_tlv (Decoder_new [0x30; 0x80; 0x02; 0x01; 0x01; 0x05; 0x00; 0x00; 0x00]) =
    Ok ((TAG_SEQUENCE, [0x02; 0x01; 0x01; 0x05; 0x00]),
        mkDecoder [0x30; 0x80; 0x02; 0x01; 0x01; 0x05; 0x00; 0x00; 0x00] 9) ∧
  settled (read_tlv (Decoder_new [0x3f; 0xff; 0xff; 0xff; 0xff; 0xff; 0x84; 0xff])).
Proof.
  split; [reflexivity|]. apply read_tlv_safe. split; [|by vm_compute].
  repeat constructor; vm_compute; congruence.
Defined.

(** Reading back an element returns its tag and content octets and consumes
    exactly its encoding, wherever it stands in the input and whatever follows
    it. [peek] sees the same tag, and [optional] passes over an element of
    another tag without consuming it. *)
Theorem tlv_roundtrip (t : Tag) (c pre suf : list Z) :
  tag_wf t → zlen c < 2 ^ 32 →
  let d := dec_at pre (append_tlv [] t c ++ suf) in
  let d' := dec_at (pre ++ append_tlv [] t c) suf in
  read_tlv d = Ok ((t, c), d') ∧
  peek d = Ok t ∧
  expect d t = Ok (c, d') ∧
  optional d t = Ok (Some c, d') ∧
  (∀ t', t' ≠ t → expect d t' = Err (Unexpected t' t (zlen pre)) ∧
                  optional d t' = Ok (None, d)).
Proof.
  intros Ht Hc d d'. subst d d'.
  split_and!; [by apply read_tlv_dec_at|by apply peek_at|by apply expect_at|by apply optional_at|].
  intros t' Hne. split; [|by apply optional_at_other].
  unfold expect. rewrite read_tlv_dec_at by done. cbn [mbind outcome_bind].
  by rewrite decide_True by auto.
Qed.

Lemma tlv_roundtrip_witness :
  append_tlv [] (context_constructed 72) [1; 2] = [0xbf; 0x48; 2; 1; 2] ∧
  read_tlv (dec_at [9] (append_tlv [] (context_constructed 72) [1; 2] ++ [7])) =
    Ok ((context_constructed 72, [1; 2]), dec_at [9; 0xbf; 0x48; 2; 1; 2] [7]).
Proof.
  split; [reflexivity|].
  apply (tlv_roundtrip (context_constructed 72) [1; 2] [9] [7]); by vm_compute.
Defined.

(** *** Indefinite lengths *)

(** The tag of the end-of-contents octets. *)
Definition TAG_EOC : Tag := Tag_new Universal false 0.

Lemma tag_octets_head t :
  tag_wf t → t ≠ TAG_EOC → ∃ b l, tag_octets t = b :: l ∧ b ≠ 0.
Proof.
  intros Hwf Hne. destruct t as [c k n]. unfold tag_wf, in_u in Hwf. simpl in Hwf.
  unfold tag_octets, append_tag. simpl.
  case_decide; simpl; (eexists _, _; split; [done|]); intros Hz.
  - rewrite (u8_id n) in Hz by (unfold octet; lia).
    pose proof (lead_octet c k n ltac:(lia)) as HL. cbv zeta in HL. rewrite Hz in HL.
    destruct HL as (<- & <- & <-). by apply Hne.
  - pose proof (lead_octet c k 31 ltac:(lia)) as HL. cbv zeta in HL. rewrite Hz in HL.
    by destruct HL as (_ & _ & ?).
Qed.

Lemma tag_octets_0 c k n : n < 31 → ∃ b, tag_octets (Tag_new c k n) = [b].
Proof. intros. unfold tag_octets, append_tag. simpl. rewrite decide_True by done. eauto. Qed.

(** At an element that is not end-of-contents the scan reads it. *)
Lemma scan_children_child read t start fuel pre b suf :
  b ≠ 0 →
  scan_children read t start (S fuel) (dec_at pre (b :: suf)) =
  '(_, d) ← read (dec_at pre (b :: suf)); scan_children read t start fuel d.
Proof.
  intros Hb. cbn [scan_children]. rewrite zlen_dec_at, off_dec_at.
  case_decide; [|done]. read_head. by rewrite decide_False.
Qed.

Lemma scan_children_eoc read t fuel pre mid suf :
  scan_children read t (zlen pre) (S fuel) (dec_at (pre ++ mid) (0 :: 0 :: suf)) =
  Ok ((t, mid), dec_at (pre ++ mid ++ [0; 0]) suf).
Proof.
  cbn [scan_children]. rewrite zlen_dec_at, off_dec_at.
  rewrite decide_True by zlen. read_head. rewrite decide_True by done.
  replace (data (dec_at (pre ++ mid) (0 :: 0 :: suf)))
    with (((pre ++ mid) ++ [0]) ++ 0 :: suf) by (unfold dec_at; simpl; by rewrite <-!app_assoc).
  rewrite idx_app_mid by zlen. cbn [mbind outcome_bind].
  rewrite bool_decide_eq_true_2 by done. rewrite <-!app_assoc.
  rewrite slice_app_mid by zlen. cbn [mbind outcome_bind].
  f_equal. f_equal. rewrite (app_assoc pre mid). apply (dec_at_advance (pre ++ mid) [0; 0] suf).
Qed.

Definition children_octets (cs : list (Tag * list Z)) : list Z :=
  concat (map (λ '(t, c), append_tlv [] t c) cs).

Definition child_ok (tc : Tag * list Z) : Prop :=
  tag_wf tc.1 ∧ tc.1 ≠ TAG_EOC ∧ zlen tc.2 < 2 ^ 32.

Lemma scan_children_all levels t cs fuel pre mid suf :
  Forall child_ok cs → (length cs < fuel)%nat →
  scan_children (read_tlv_at (S levels)) t (zlen pre) fuel
    (dec_at (pre ++ mid) (children_octets cs ++ 0 :: 0 :: suf)) =
  Ok ((t, mid ++ children_octets cs), dec_at (pre ++ (mid ++ children_octets cs) ++ [0; 0]) suf).
Proof.
  intros Hcs. revert fuel mid. induction Hcs as [|[t1 c1] cs Hc Hcs IH]; intros fuel mid Hf.
  - destruct fuel as [|fuel]; [simpl in Hf; lia|].
    change (children_octets []) with (@nil Z). rewrite !app_nil_r. simpl app at 2.
    apply scan_children_eoc.
  - destruct fuel as [|fuel]; [simpl in Hf; lia|]. destruct Hc as (Hwf & Hne & Hlen).
    simpl in Hwf, Hne, Hlen.
    change (children_octets ((t1, c1) :: cs)) with (append_tlv [] t1 c1 ++ children_octets cs).
    rewrite <-app_assoc.
    destruct (tag_octets_head t1 Hwf Hne) as (b & l & Hb & Hnz).
    assert (∃ r, append_tlv [] t1 c1 ++ children_octets cs ++ 0 :: 0 :: suf = b :: r) as [r Hr].
    { rewrite append_tlv_app, Hb. simpl. eauto. }
    rewrite Hr, scan_children_child, <-Hr, read_tlv_at_at by done.
    cbn [mbind outcome_bind]. rewrite <-(app_assoc pre mid).
    rewrite IH by (simpl in Hf; lia). by rewrite <-!app_assoc.
Qed.

Lemma read_length_indefinite pre suf :
  read_length (dec_at pre (0x80 :: suf)) = Ok ((0, true), dec_at (pre ++ [0x80]) suf).
Proof.
  unfold read_length. rewrite zlen_dec_at, off_dec_at, decide_False by zlen. read_head.
  by rewrite decide_False, decide_True by lia.
Qed.

Lemma length_children_octets cs : (length cs ≤ length (children_octets cs))%nat.
Proof.
  induction cs as [|[t c] cs IH]; [done|]. unfold children_octets in *. simpl.
  rewrite length_app. pose proof (append_tlv_ne t c []) as Hne. rewrite app_nil_r in Hne.
  destruct (append_tlv [] t c); [done|simpl; lia].
Qed.

Lemma read_indefinite levels t cs pre suf :
  tag_wf t → Forall child_ok cs →
  read_tlv_at (S (S levels))
    (dec_at pre (tag_octets t ++ 0x80 :: children_octets cs ++ 0 :: 0 :: suf)) =
  if tag_constructed t
  then Ok ((t, children_octets cs),
           dec_at (pre ++ tag_octets t ++ 0x80 :: children_octets cs ++ [0; 0]) suf)
  else Err (BadLength "indefinite length on primitive" (zlen pre + zlen (tag_octets t) + 1)).
Proof.
  intros Ht Hcs. remember (S levels) as l eqn:Hl. cbn [read_tlv_at].
  rewrite read_tag_at by done. cbn [mbind outcome_bind].
  rewrite read_length_indefinite. cbn [mbind outcome_bind negb].
  destruct (tag_constructed t); cbn [negb]; [|by rewrite off_dec_at; do 2 f_equal; zlen].
  rewrite off_dec_at, Hl.
  rewrite <-(app_nil_r ((pre ++ tag_octets t) ++ [128])) at 3.
  rewrite scan_children_all; [by rewrite <-!app_assoc|done|].
  pose proof (length_children_octets cs). unfold dec_at. simpl. rewrite !length_app. lia.
Qed.

(** An element of indefinite length reads as the concatenation of its
    children, the end-of-contents octets consumed and not part of the content,
    wherever the element stands; on a primitive tag the form is refused. *)
Theorem indefinite_length (t : Tag) (cs : list (Tag * list Z)) (pre suf : list Z) :
  tag_wf t → Forall child_ok cs →
  let enc := tag_octets t ++ [0x80] ++ children_octets cs ++ [0; 0] in
  read_tlv (dec_at pre (enc ++ suf)) =
  if tag_constructed t then Ok ((t, children_octets cs), dec_at (pre ++ enc) suf)
  else Err (BadLength "indefinite length on primitive" (zlen pre + zlen (tag_octets t) + 1)).
Proof.
  intros Ht Hcs enc. subst enc. rewrite <-!app_assoc. by apply (read_indefinite 63).
Qed.

Lemma indefinite_length_witness :
  read_tlv (dec_at [] (tag_octets TAG_SEQUENCE ++ [0x80] ++
    children_octets [(TAG_INTEGER, [1]); (TAG_NULL, [])] ++ [0; 0])) =
  Ok ((TAG_SEQUENCE, [0x02; 0x01; 0x01; 0x05; 0x00]),
      dec_at [0x30; 0x80; 0x02; 0x01; 0x01; 0x05; 0x00; 0; 0] []).
Proof.
  rewrite <-(app_nil_r (_ ++ _)).
  apply (indefinite_length TAG_SEQUENCE [(TAG_INTEGER, [1]); (TAG_NULL, [])] [] []);
    [by vm_compute|].
  repeat constructor; try (vm_compute; congruence); try discriminate.
Defined.

(** *** The nesting limit *)

(** [n] indefinite-length sequences, one inside the other. *)
Fixpoint nested (n : nat) : list Z :=
  match n with
  | O => []
  | S n => [0x30; 0x80] ++ nested n ++ [0; 0]
  end.

(** [n] of them opened and none closed. *)
Definition opened (n : nat) : list Z := concat (replicate n [0x30; 0x80]).

Lemma read_open pre suf levels :
  read_tlv_at (S levels) (dec_at pre (0x30 :: 0x80 :: suf)) =
  scan_children (read_tlv_at levels) TAG_SEQUENCE (zlen (pre ++ [0x30; 0x80]))
    (S (length (pre ++ 0x30 :: 0x80 :: suf)))
    (dec_at (pre ++ [0x30; 0x80]) suf).
Proof.
  cbn [read_tlv_at].
  change (0x30 :: 0x80 :: suf) with (tag_octets TAG_SEQUENCE ++ 0x80 :: suf).
  rewrite read_tag_at by by vm_compute. cbn [mbind outcome_bind].
  rewrite read_length_indefinite. cbn [mbind outcome_bind negb].
  change (tag_octets TAG_SEQUENCE) with [0x30].
  rewrite <-app_assoc. simpl app. rewrite off_dec_at.
  unfold dec_at at 1. simpl. by rewrite <-app_assoc.
Qed.

Lemma read_nested levels n pre suf :
  (n < levels)%nat →
  read_tlv_at levels (dec_at pre (nested (S n) ++ suf)) =
  Ok ((TAG_SEQUENCE, nested n), dec_at (pre ++ nested (S n)) suf).
Proof.
  revert levels pre suf. induction n as [|n IH]; intros [|levels] pre suf Hn; try lia.
  - simpl app. rewrite read_open.
    pose proof (scan_children_eoc (read_tlv_at levels) TAG_SEQUENCE
      (length (pre ++ 0x30 :: 0x80 :: 0 :: 0 :: suf)) (pre ++ [0x30; 0x80]) [] suf) as HS.
    rewrite app_nil_r in HS. rewrite HS. by rewrite <-app_assoc.
  - change (nested (S (S n)) ++ suf) with (0x30 :: 0x80 :: (nested (S n) ++ [0; 0]) ++ suf).
    rewrite read_open, <-app_assoc.
    change (nested (S n) ++ [0; 0] ++ suf)
      with (0x30 :: (0x80 :: nested n ++ [0; 0]) ++ [0; 0] ++ suf).
    rewrite scan_children_child by done.
    change (0x30 :: (0x80 :: nested n ++ [0; 0]) ++ [0; 0] ++ suf)
      with (nested (S n) ++ 0 :: 0 :: suf).
    rewrite IH by lia. cbn [mbind outcome_bind]. rewrite length_app. simpl length.
    rewrite <-plus_n_Sm, scan_children_eoc. by rewrite <-app_assoc.
Qed.

Lemma read_opened levels n pre suf :
  (levels < n)%nat →
  read_tlv_at levels (dec_at pre (opened n ++ suf)) = Err (TooDeep (zlen pre + 2 * Z.of_nat levels)).
Proof.
  revert levels pre suf. induction n as [|n IH]; intros [|levels] pre suf Hn; try lia.
  { cbn [read_tlv_at]. rewrite off_dec_at. do 2 f_equal. lia. }
  change (opened (S n) ++ suf) with (0x30 :: 0x80 :: opened n ++ suf). rewrite read_open.
  destruct n as [|n]; [lia|].
  change (opened (S n) ++ suf) with (0x30 :: 0x80 :: opened n ++ suf).
  rewrite scan_children_child by done.
  change (0x30 :: 0x80 :: opened n ++ suf) with (opened (S n) ++ suf).
  rewrite IH by lia. cbn [mbind outcome_bind]. do 2 f_equal. zlen.
Qed.

(** [read_tlv] follows at most [MAX_DEPTH + 1] indefinite-length elements
    inside one another: nested that deep they read back, and one opening more,
    whatever follows it, is refused as too deep at the offset it stands at. *)
Theorem nesting_limit (n : nat) (suf : list Z) :
  ((n < 65)%nat →
     read_tlv (Decoder_new (nested (S n) ++ suf)) =
     Ok ((TAG_SEQUENCE, nested n), dec_at (nested (S n)) suf)) ∧
  ((65 < n)%nat → read_tlv (Decoder_new (opened n ++ suf)) = Err (TooDeep 130)).
Proof.
  unfold read_tlv. split; intros Hn; rewrite dec_at_nil.
  - rewrite read_nested by (change (Z.to_nat MAX_DEPTH) with 64%nat; lia). done.
  - rewrite read_opened by (change (Z.to_nat MAX_DEPTH) with 64%nat; lia). done.
Qed.

Lemma nesting_limit_witness :
  (∃ r, read_tlv (Decoder_new (nested 65)) = Ok r) ∧
  read_tlv (Decoder_new (opened 66 ++ [0; 0])) = Err (TooDeep 130).
Proof.
  split; [|apply nesting_limit; lia].
  rewrite <-(app_nil_r (nested 65)). eexists. apply (nesting_limit 64 []). lia.
Defined.
