(* ===== verification/Float.v ===== *)
(** The IEEE 754 values of Rust's [f32] and [f64], as their bit patterns.

    MMS carries floats as bit patterns, and the crate converts between the two
    widths ([f64::from], [as f32]) and to integers ([as i64]); a value is the [Z]
    its [to_bits] returns, and the conversions below are the ones Rust's casts
    make (exact widening, narrowing rounded to nearest with ties to even,
    truncation with saturation to integers). *)

From S2P Require Import Prelude.

(** ** Definitions *)

Definition f32_sign (b : Z) : Z := b / 2 ^ 31.
Definition f32_exp (b : Z) : Z := (b / 2 ^ 23) mod 2 ^ 8.
Definition f32_man (b : Z) : Z := b mod 2 ^ 23.
Definition f32_make (s e m : Z) : Z := s * 2 ^ 31 + e * 2 ^ 23 + m.

Definition f64_sign (b : Z) : Z := b / 2 ^ 63.
Definition f64_exp (b : Z) : Z := (b / 2 ^ 52) mod 2 ^ 11.
Definition f64_man (b : Z) : Z := b mod 2 ^ 52.
Definition f64_make (s e m : Z) : Z := s * 2 ^ 63 + e * 2 ^ 52 + m.

Definition f32_is_nan (b : Z) : bool := (f32_exp b =? 255) && negb (f32_man b =? 0).
Definition f64_is_nan (b : Z) : bool := (f64_exp b =? 2047) && negb (f64_man b =? 0).

(** [==] on floats: NaN is unequal to itself, the two zeros are equal. *)
Definition f32_eq (a b : Z) : bool :=
  negb (f32_is_nan a) && negb (f32_is_nan b) &&
  ((a =? b) || ((a mod 2 ^ 31 =? 0) && (b mod 2 ^ 31 =? 0))).
Definition f64_eq (a b : Z) : bool :=
  negb (f64_is_nan a) && negb (f64_is_nan b) &&
  ((a =? b) || ((a mod 2 ^ 63 =? 0) && (b mod 2 ^ 63 =? 0))).

(** [f64::from(f32)]. *)
Definition f32_to_f64 (b : Z) : Z :=
  let s := f32_sign b in let e := f32_exp b in let m := f32_man b in
  if e =? 255 then
    if m =? 0 then f64_make s 2047 0
    else f64_make s 2047 (Z.lor (m * 2 ^ 29) (2 ^ 51))
  else if e =? 0 then
    if m =? 0 then f64_make s 0 0
    else let k := Z.log2 m in f64_make s (k + 874) ((m - 2 ^ k) * 2 ^ (52 - k))
  else f64_make s (e + 896) (m * 2 ^ 29).

(** [n / 2 ^ k] rounded to the nearest integer, ties to even. *)
Definition round_half_even (n k : Z) : Z :=
  let q := n / 2 ^ k in let r := n mod 2 ^ k in
  if 2 * r <? 2 ^ k then q
  else if 2 ^ k <? 2 * r then q + 1
  else if Z.even q then q else q + 1.

(** [f64 as f32]. *)
Definition f64_to_f32 (b : Z) : Z :=
  let s := f64_sign b in let e := f64_exp b in let m := f64_man b in
  if e =? 2047 then
    if m =? 0 then f32_make s 255 0
    else f32_make s 255 (Z.lor (m / 2 ^ 29) (2 ^ 22))
  else
    let '(M, E) := if e =? 0 then (m, -1074) else (m + 2 ^ 52, e - 1075) in
    if M =? 0 then f32_make s 0 0
    else
      let q := Z.max (Z.log2 M + E - 23) (-149) in
      let enc := (q + 149) * 2 ^ 23 + round_half_even M (q - E) in
      if 255 * 2 ^ 23 <=? enc then f32_make s 255 0 else f32_make s 0 enc.

(** [f64 as i64]: truncation towards zero, saturating, NaN to zero. *)
Definition f64_to_i64 (b : Z) : Z :=
  let s := f64_sign b in let e := f64_exp b in let m := f64_man b in
  if f64_is_nan b then 0
  else
    let mag :=
      if e =? 2047 then 2 ^ 64
      else
        let '(M, E) := if e =? 0 then (m, -1074) else (m + 2 ^ 52, e - 1075) in
        if 0 <=? E then M * 2 ^ Z.min E 64 else M / 2 ^ (- E) in
    if s =? 0 then Z.min mag (2 ^ 63 - 1) else Z.max (- mag) (- 2 ^ 63).

(** [f32 as i64]: widening is exact, so this is the truncation of the widened value. *)
Definition f32_to_i64 (b : Z) : Z := f64_to_i64 (f32_to_f64 b).

(** [i64 as f64] and [u64 as f64]: rounded to nearest, ties to even. A carry
    out of the mantissa moves to the next exponent. *)
Definition int_to_f64 (n : Z) : Z :=
  let s := if n <? 0 then 1 else 0 in
  let M := Z.abs n in
  if M =? 0 then 0
  else
    let k := Z.log2 M in
    if k <=? 52 then f64_make s (k + 1023) ((M - 2 ^ k) * 2 ^ (52 - k))
    else f64_make s 0 ((k + 1023) * 2 ^ 52 + (round_half_even M (k - 52) - 2 ^ 52)).

(** ** Lemmas *)

Lemma f32_make_fields s e m :
  0 ≤ s < 2 → 0 ≤ e < 256 → 0 ≤ m < 2 ^ 23 →
  f32_sign (f32_make s e m) = s ∧ f32_exp (f32_make s e m) = e ∧ f32_man (f32_make s e m) = m.
Proof. intros. unfold f32_sign, f32_exp, f32_man, f32_make. split_and!; dlia. Qed.

Lemma f64_make_fields s e m :
  0 ≤ s < 2 → 0 ≤ e < 2048 → 0 ≤ m < 2 ^ 52 →
  f64_sign (f64_make s e m) = s ∧ f64_exp (f64_make s e m) = e ∧ f64_man (f64_make s e m) = m.
Proof. intros. unfold f64_sign, f64_exp, f64_man, f64_make. split_and!; dlia. Qed.

Lemma f32_fields b :
  in_u 32 b →
  b = f32_make (f32_sign b) (f32_exp b) (f32_man b) ∧
  0 ≤ f32_sign b < 2 ∧ 0 ≤ f32_exp b < 256 ∧ 0 ≤ f32_man b < 2 ^ 23.
Proof. unfold in_u, f32_sign, f32_exp, f32_man, f32_make. intros. split_and!; dlia. Qed.

Lemma round_half_even_exact q k : 0 ≤ k → round_half_even (q * 2 ^ k) k = q.
Proof.
  intros Hk. assert (0 < 2 ^ k) by (by apply Z.pow_pos_nonneg).
  unfold round_half_even. rewrite Z.div_mul, Z.mod_mul by lia.
  by rewrite (proj2 (Z.ltb_lt _ _)) by lia.
Qed.

Lemma log2_shifted m k : 0 < m → Z.log2 m = k → 0 ≤ k ≤ 52 → Z.log2 (m * 2 ^ (52 - k)) = 52.
Proof.
  intros Hm <- Hk. rewrite Z.log2_mul_pow2 by lia. lia.
Qed.

(** Widening then narrowing a number gives it back. *)
Lemma f32_widen_narrow b : in_u 32 b → f32_is_nan b = false → f64_to_f32 (f32_to_f64 b) = b.
Proof.
  intros Hb Hnan. destruct (f32_fields b Hb) as (Heq & Hs & He & Hm).
  set (s := f32_sign b) in *. set (e := f32_exp b) in *. set (m := f32_man b) in *.
  unfold f32_is_nan in Hnan. fold e m in Hnan. unfold f32_to_f64. fold s e m.
  destruct (Z.eqb_spec e 255) as [He255|He255].
  { simpl in Hnan. apply negb_false_iff in Hnan. rewrite Hnan.
    apply Z.eqb_eq in Hnan. destruct (f64_make_fields s 2047 0) as (H1 & H2 & H3); [lia..|].
    unfold f64_to_f32. rewrite H1, H2, H3. simpl. congruence. }
  destruct (Z.eqb_spec e 0) as [He0|He0]; [destruct (Z.eqb_spec m 0) as [Hm0|Hm0]|].
  - destruct (f64_make_fields s 0 0) as (H1 & H2 & H3); [lia..|].
    unfold f64_to_f32. rewrite H1, H2, H3. simpl. congruence.
  - set (k := Z.log2 m).
    assert (Hk : 0 ≤ k < 23).
    { split; [apply Z.log2_nonneg|]. apply Z.log2_lt_pow2; lia. }
    pose proof (Z.log2_spec m ltac:(lia)) as Hlog. fold k in Hlog.
    assert (Hpow : 2 ^ k * 2 ^ (52 - k) = 2 ^ 52).
    { rewrite <-Z.pow_add_r by lia. f_equal. lia. }
    assert (0 < 2 ^ (52 - k)) by (apply Z.pow_pos_nonneg; lia).
    rewrite Z.pow_succ_r in Hlog by lia.
    destruct (f64_make_fields s (k + 874) ((m - 2 ^ k) * 2 ^ (52 - k))) as (H1 & H2 & H3);
      [lia|lia|nia|].
    unfold f64_to_f32. rewrite H1, H2, H3.
    rewrite (proj2 (Z.eqb_neq _ _)), (proj2 (Z.eqb_neq (k + 874) 0)) by lia.
    replace ((m - 2 ^ k) * 2 ^ (52 - k) + 2 ^ 52) with (m * 2 ^ (52 - k)) by lia.
    rewrite (proj2 (Z.eqb_neq _ _)) by nia.
    rewrite (log2_shifted m k) by lia.
    replace (Z.max (52 + (k + 874 - 1075) - 23) (-149)) with (-149) by lia.
    replace (-149 - (k + 874 - 1075)) with (52 - k) by lia.
    rewrite round_half_even_exact by lia.
    rewrite (proj2 (Z.leb_gt _ _)) by lia. rewrite Heq, He0. unfold f32_make. lia.
  - destruct (f64_make_fields s (e + 896) (m * 2 ^ 29)) as (H1 & H2 & H3); [lia..|].
    unfold f64_to_f32. rewrite H1, H2, H3.
    rewrite (proj2 (Z.eqb_neq _ _)), (proj2 (Z.eqb_neq (e + 896) 0)) by lia.
    replace (m * 2 ^ 29 + 2 ^ 52) with ((m + 2 ^ 23) * 2 ^ 29) by lia.
    rewrite (proj2 (Z.eqb_neq _ _)) by lia.
    assert (Hlog : Z.log2 ((m + 2 ^ 23) * 2 ^ 29) = 52).
    { rewrite Z.log2_mul_pow2 by lia. rewrite (Z.log2_unique (m + 2 ^ 23) 23); lia. }
    rewrite Hlog.
    replace (Z.max (52 + (e + 896 - 1075) - 23) (-149)) with (e - 150) by lia.
    replace (e - 150 - (e + 896 - 1075)) with 29 by lia.
    rewrite round_half_even_exact by lia.
    rewrite (proj2 (Z.leb_gt _ _)) by lia. rewrite Heq. unfold f32_make. lia.
Qed.

Example f32_to_f64_230_4 : f32_to_f64 0x43666666 = 0x406cccccc0000000.
Proof. reflexivity. Qed.
Example f64_to_f32_inexact : f64_to_f32 0x406cccccccd00000 = 0x43666666.
Proof. reflexivity. Qed.
Example f64_to_i64_truncates : f64_to_i64 0xc00e000000000000 = -3.
Proof. reflexivity. Qed.

Example int_to_f64_examples :
  int_to_f64 1 = 0x3ff0000000000000 ∧ int_to_f64 (-2) = 0xc000000000000000 ∧
  int_to_f64 (2 ^ 53 + 1) = int_to_f64 (2 ^ 53) ∧
  int_to_f64 (2 ^ 64 - 1) = 0x43f0000000000000.
Proof. repeat split; reflexivity. Qed.

(** ** NaN *)

Lemma lor_range a b k : 0 ≤ k → in_u k a → in_u k b → in_u k (Z.lor a b).
Proof.
  intros Hk Ha Hb. rewrite <-(wrap_id k a), <-(wrap_id k b) by done. unfold wrap.
  rewrite <-!Z.land_ones, <-Z.land_lor_distr_l, Z.land_ones by done. by apply wrap_range.
Qed.

(** Widening then narrowing a NaN sets its quiet bit and keeps the rest. *)
Lemma f32_nan_widen_narrow b :
  in_u 32 b → f32_is_nan b = true →
  f64_to_f32 (f32_to_f64 b) = f32_make (f32_sign b) 255 (Z.lor (f32_man b) (2 ^ 22)).
Proof.
  intros Hb Hnan. destruct (f32_fields b Hb) as (_ & Hs & _ & Hm).
  unfold f32_is_nan in Hnan. apply andb_true_iff in Hnan as [He Hm0].
  set (s := f32_sign b) in *. set (m := f32_man b) in *.
  unfold f32_to_f64. fold s m. rewrite He. apply negb_true_iff in Hm0. rewrite Hm0.
  assert (Z.lor (m * 2 ^ 29) (2 ^ 51) = Z.lor m (2 ^ 22) * 2 ^ 29) as ->.
  { rewrite <-!Z.shiftl_mul_pow2, Z.shiftl_lor by done. done. }
  assert (in_u 23 (Z.lor m (2 ^ 22))) as Hq by (apply lor_range; done).
  unfold in_u in Hq.
  destruct (f64_make_fields s 2047 (Z.lor m (2 ^ 22) * 2 ^ 29)) as (H1 & H2 & H3); [lia..|].
  unfold f64_to_f32. rewrite H1, H2, H3. simpl (2047 =? 2047).
  assert (Z.lor m (2 ^ 22) ≠ 0) by (by intros [_ ?]%Z.lor_eq_0_iff).
  rewrite (proj2 (Z.eqb_neq _ _)) by lia. rewrite Z.div_mul by done. f_equal.
  by rewrite <-Z.lor_assoc, Z.lor_diag.
Qed.

(** What a float is after being sent: a number is kept, a NaN stays a NaN. *)
Lemma f32_sent b :
  in_u 32 b →
  in_u 32 (f64_to_f32 (f32_to_f64 b)) ∧
  f32_eq b (f64_to_f32 (f32_to_f64 b)) ||
    (f32_is_nan b && f32_is_nan (f64_to_f32 (f32_to_f64 b))) = true.
Proof.
  intros Hb. destruct (f32_is_nan b) eqn:Hnan.
  - rewrite f32_nan_widen_narrow by done.
    destruct (f32_fields b Hb) as (_ & Hs & _ & Hm).
    assert (in_u 23 (Z.lor (f32_man b) (2 ^ 22))) as Hq by (apply lor_range; done).
    unfold in_u in Hq.
    destruct (f32_make_fields (f32_sign b) 255 (Z.lor (f32_man b) (2 ^ 22))) as (H1 & H2 & H3);
      [lia..|].
    split; [unfold in_u, f32_make; lia|].
    unfold f32_is_nan. rewrite H2, H3. simpl. apply orb_true_iff. right.
    apply negb_true_iff, Z.eqb_neq. by intros [_ ?]%Z.lor_eq_0_iff.
  - rewrite f32_widen_narrow by done. split; [done|].
    unfold f32_eq. by rewrite Hnan, Z.eqb_refl.
Qed.
