(* ===== verification/BerPrim.v ===== *)
(** Primitive BER contents: the integers, booleans, bit strings and floats of
    src/src/asn1/primitives.rs and the object identifiers of
    src/src/asn1/oid.rs. *)

From stdpp Require Import pretty.
From S2P Require Import Prelude Ber BerDecoder Float.
Local Open Scope string_scope.
Local Open Scope list_scope.
Local Open Scope Z_scope.

(** ** Integers *)

(** The loop of [int_size]; eight rounds are enough for an [i64]
    ([int_size_loop_spec]). *)
Fixpoint int_size_loop (fuel : nat) (n v : Z) : Z :=
  match fuel with
  | O => n
  | S fuel =>
      if decide (-0x80 ≤ v ∧ v ≤ 0x7f) then n
      else int_size_loop fuel (n + 1) (Z.shiftr v 8)
  end.
Definition int_size (v : Z) : Z := int_size_loop 8 1 v.

Definition append_int (dst : list Z) (v : Z) : list Z :=
  let n := int_size v in
  fold_left (λ dst i, dst ++ [u8 (Z.shiftr v (i * 8))]) (rev (seqZ 0 n)) dst.

Definition decode_int (content : list Z) : outcome Asn1Error Z :=
  match content with
  | [] => Err (BadValue ("integer of " +:+ pretty (zlen content) +:+ " octets"))
  | b0 :: tl =>
      if decide (zlen content > 8) then
        Err (BadValue ("integer of " +:+ pretty (zlen content) +:+ " octets"))
      else
        Ok (fold_left (λ v b, Z.lor (swrap 64 (Z.shiftl v 8)) b) tl (swrap 8 b0))
  end.

(** The loop of [uint_size]; nine rounds are enough for a [u64]. *)
Fixpoint uint_size_loop (fuel : nat) (n v : Z) : Z :=
  match fuel with
  | O => n
  | S fuel =>
      if decide (v > 0x7f) then uint_size_loop fuel (n + 1) (Z.shiftr v 8) else n
  end.
Definition uint_size (v : Z) : Z := uint_size_loop 9 1 v.

(** [v.checked_shr(k).unwrap_or(0)] on a [u64]. *)
Definition checked_shr_or_0 (v k : Z) : Z := if decide (k < 64) then Z.shiftr v k else 0.

Definition append_uint (dst : list Z) (v : Z) : list Z :=
  let n := uint_size v in
  fold_left (λ dst i, dst ++ [u8 (checked_shr_or_0 v (i * 8))]) (rev (seqZ 0 n)) dst.

Definition decode_uint (content : list Z) : outcome Asn1Error Z :=
  match content with
  | [] => Err (BadValue "empty unsigned")
  | b0 :: _ =>
      if decide (zlen content > 9 ∨ zlen content = 9 ∧ b0 ≠ 0) then
        Err (BadValue ("unsigned of " +:+ pretty (zlen content) +:+ " octets"))
      else
        Ok (fold_left (λ v b, Z.lor (u64 (Z.shiftl v 8)) b) content 0)
  end.

Definition int_elem (t : Tag) (v : Z) : Element := prim t (append_int [] v).
Definition uint_elem (t : Tag) (v : Z) : Element := prim t (append_uint [] v).

(** ** Booleans *)

Definition bool_elem (t : Tag) (v : bool) : Element := prim t (if v then [0xff] else [0x00]).

Definition decode_bool (content : list Z) : outcome Asn1Error bool :=
  if decide (zlen content ≠ 1) then
    Err (BadValue ("boolean of " +:+ pretty (zlen content) +:+ " octets"))
  else
    b ← idx content 0;
    Ok (bool_decide (b ≠ 0)).

(** ** Bit strings *)

Record BitString := mkBitString {
  bs_bits : list Z;
  bs_length : Z;
}.

#[export] Instance BitString_eq_dec : EqDecision BitString.
Proof. solve_decision. Defined.

Definition BitString_new (n : Z) : BitString :=
  mkBitString (replicate (Z.to_nat ((n + 7) / 8)) 0) n.

(** [0x80 >> (i % 8)]. *)
Definition bit_mask (i : Z) : Z := Z.shiftr 0x80 (i mod 8).

Definition BitString_bit {E} (bs : BitString) (i : Z) : outcome E bool :=
  if decide (bs_length bs ≤ i) then Ok false
  else
    b ← idx (bs_bits bs) (i / 8);
    Ok (bool_decide (Z.land b (bit_mask i) ≠ 0)).

Definition BitString_set_bit {E} (bs : BitString) (i : Z) (v : bool) : outcome E BitString :=
  if decide (bs_length bs ≤ i) then Ok bs
  else
    b ← idx (bs_bits bs) (i / 8);
    let b := if v then Z.lor b (bit_mask i) else Z.land b (u8 (Z.lnot (bit_mask i))) in
    Ok (mkBitString (<[Z.to_nat (i / 8) := b]> (bs_bits bs)) (bs_length bs)).

(** [for i in range { .. }] over a state, stopping at the first failure. *)
Fixpoint for_each {E A B} (l : list A) (f : B → A → outcome E B) (s : B) : outcome E B :=
  match l with
  | [] => Ok s
  | a :: l => s ← f s a; for_each l f s
  end.

Definition BitString_to_u32 {E} (bs : BitString) : outcome E Z :=
  for_each (seqZ 0 (Z.min (bs_length bs) 32))
    (λ v i, b ← BitString_bit bs i; Ok (if (b : bool) then Z.lor v (Z.shiftl 1 i) else v)) 0.

Definition BitString_from_u32 {E} (v n : Z) : outcome E BitString :=
  for_each (seqZ 0 (Z.min n 32))
    (λ bs i, BitString_set_bit bs i (bool_decide (Z.land v (Z.shiftl 1 i) ≠ 0)))
    (BitString_new n).

Definition append_bit_string {E} (dst : list Z) (bs : BitString) : outcome E (list Z) :=
  pad ← usub (zlen (bs_bits bs) * 8) (bs_length bs);
  Ok ((dst ++ [u8 pad]) ++ bs_bits bs).

Definition decode_bit_string (content : list Z) : outcome Asn1Error BitString :=
  match content with
  | [] => Err (BadValue "empty bit string")
  | pad :: bits =>
      if decide (pad > 7 ∨ bits = [] ∧ pad ≠ 0) then
        Err (BadValue ("bit string padding " +:+ pretty pad))
      else
        length ← usub (zlen bits * 8) pad;
        Ok (mkBitString bits length)
  end.

Definition bit_string_elem {E} (t : Tag) (bs : BitString) : outcome E Element :=
  buf ← append_bit_string [] bs;
  Ok (prim t buf).

(** ** Floats *)

Definition append_float32 (dst : list Z) (v : Z) : list Z := (dst ++ [8]) ++ to_be 4 v.
Definition append_float64 (dst : list Z) (v : Z) : list Z := (dst ++ [11]) ++ to_be 8 v.

(** The [f64] is its bit pattern. *)
Definition decode_float (content : list Z) : outcome Asn1Error Z :=
  if decide (zlen content = 5) then
    b1 ← idx content 1;
    b2 ← idx content 2;
    b3 ← idx content 3;
    b4 ← idx content 4;
    Ok (f32_to_f64 (from_be [b1; b2; b3; b4]))
  else if decide (zlen content = 9) then
    tl ← slice_from content 1;
    Ok (fold_left (λ bits b, Z.lor (u64 (Z.shiftl bits 8)) b) tl 0)
  else Err (BadValue ("floating point of " +:+ pretty (zlen content) +:+ " octets")).

(** ** Object identifiers *)

(** An [Oid] is its arcs. [append_oid] multiplies and adds [u32]s, which panics
    on overflow. *)
Definition append_oid {E} (dst : list Z) (o : list Z) : outcome E (list Z) :=
  match o with
  | a0 :: a1 :: arcs =>
      if decide (a0 * 40 + a1 ≤ U32_MAX) then
        Ok (fold_left (λ dst arc, dst ++ base128 arc) arcs (dst ++ base128 (a0 * 40 + a1)))
      else Panic
  | _ => Ok dst
  end.

(** The state of the loop of [decode_oid]: the arcs so far, the arc being
    read, and its octets so far. *)
Fixpoint decode_oid_loop (content : list Z) (arcs : list Z) (v n : Z)
    : outcome Asn1Error (list Z) :=
  match content with
  | [] => if decide (n ≠ 0) then Err (BadValue "truncated OID arc") else Ok arcs
  | b :: content =>
      if decide (5 ≤ n) then Err (BadValue "OID arc too large")
      else
        let v := Z.lor (u32 (Z.shiftl v 7)) (Z.land b 0x7f) in
        if decide (Z.land b 0x80 = 0) then
          match arcs with
          | [] =>
              let first := Z.min (v / 40) 2 in
              decode_oid_loop content [first; v - first * 40] 0 0
          | _ => decode_oid_loop content (arcs ++ [v]) 0 0
          end
        else decode_oid_loop content arcs v (n + 1)
  end.

Definition decode_oid (content : list Z) : outcome Asn1Error (list Z) :=
  match content with
  | [] => Err (BadValue "empty OID")
  | _ => decode_oid_loop content [] 0 0
  end.

Definition oid_elem {E} (t : Tag) (o : list Z) : outcome E Element :=
  buf ← append_oid [] o;
  Ok (prim t buf).

(** ** Lemmas on integers *)

Lemma fold_push {A B} (f : A → B) l dst :
  fold_left (λ dst i, dst ++ [f i]) l dst = dst ++ map f l.
Proof.
  revert dst. induction l as [|a l IH]; intros dst; simpl; [by rewrite app_nil_r|].
  by rewrite IH, <-app_assoc.
Qed.

Lemma to_be_shifts (v : Z) (n : nat) :
  map (λ i, u8 (Z.shiftr v (i * 8))) (rev (seqZ 0 (Z.of_nat n))) = to_be n v.
Proof.
  induction n as [|n IH]; [done|].
  rewrite seqZ_S, rev_app_distr. simpl. rewrite IH. f_equal. f_equal.
  rewrite Z.shiftr_div_pow2 by lia. f_equal.
  change 256 with (2 ^ 8). rewrite <-Z.pow_mul_r by lia. f_equal. lia.
Qed.

(** The sizes: the least number of octets that holds the value. *)
Lemma int_size_loop_spec fuel n v :
  0 ≤ n → in_i (8 * (Z.of_nat fuel + 1)) v →
  let m := int_size_loop fuel n v in
  n ≤ m ≤ n + Z.of_nat fuel ∧ in_i (8 * (m - n + 1)) v ∧
  (n < m → ¬ in_i (8 * (m - n)) v).
Proof.
  revert n v. induction fuel as [|fuel IH]; intros n v Hn Hv.
  - simpl. replace (n - n) with 0 by lia. split_and!; [lia..|done|lia].
  - simpl. case_decide as Hc.
    + replace (n - n) with 0 by lia. unfold in_i. simpl. lia.
    + rewrite (shiftr_div v 8 256) by done.
      destruct (IH (n + 1) (v / 256)) as (Hr & Hi & Hm); [lia|..].
      { revert Hv. unfold in_i.
        replace (8 * (Z.of_nat (S fuel) + 1) - 1) with (8 + (8 * (Z.of_nat fuel + 1) - 1)) by lia.
        rewrite Z.pow_add_r by lia. dlia. }
      set (m := int_size_loop fuel (n + 1) (v / 256)) in *. clearbody m.
      split_and!; [lia..| |].
      * revert Hi. unfold in_i.
        replace (8 * (m - n + 1) - 1) with (8 + (8 * (m - (n + 1) + 1) - 1)) by lia.
        rewrite Z.pow_add_r by lia. dlia.
      * intros _. destruct (decide (m = n + 1)) as [->|].
        { replace (n + 1 - n) with 1 by lia. unfold in_i. simpl. lia. }
        specialize (Hm ltac:(lia)). revert Hm. unfold in_i.
        replace (8 * (m - n) - 1) with (8 + (8 * (m - (n + 1)) - 1)) by lia.
        rewrite Z.pow_add_r by lia. dlia.
Qed.

Lemma int_size_spec v :
  in_i 64 v →
  1 ≤ int_size v ≤ 8 ∧ in_i (8 * int_size v) v ∧
  (1 < int_size v → ¬ in_i (8 * (int_size v - 1)) v).
Proof.
  intros Hv. destruct (int_size_loop_spec 7 1 v) as (Hr & Hi & Hm); [done..|].
  assert (Heq : int_size v = int_size_loop 7 1 v).
  { (* the eighth round leaves at once *)
    unfold int_size. clear Hr Hi Hm.
    assert (∀ k n v, in_i (8 * (Z.of_nat k + 1)) v →
      int_size_loop (S k) n v = int_size_loop k n v) as Hk; [|by apply Hk].
    clear v Hv. induction k as [|k IH]; intros n v Hv.
    - simpl. rewrite decide_True; [done|]. unfold in_i in Hv. simpl in Hv. lia.
    - remember (S k) as k' eqn:Ek. simpl. subst k'. simpl.
      case_decide; [done|]. apply IH.
      rewrite (shiftr_div v 8 256) by done. revert Hv. unfold in_i.
      replace (8 * (Z.of_nat (S k) + 1) - 1) with (8 + (8 * (Z.of_nat k + 1) - 1)) by lia.
      rewrite Z.pow_add_r by lia. dlia. }
  rewrite Heq. revert Hi Hm.
  generalize dependent (int_size_loop 7 1 v). intros m ? Hr Hi Hm.
  replace (m - 1 + 1) with m in Hi by lia. split_and!; [lia..|done|done].
Qed.

Lemma append_int_eq dst v : in_i 64 v → append_int dst v = dst ++ to_be (Z.to_nat (int_size v)) v.
Proof.
  intros Hv. destruct (int_size_spec v Hv) as [Hr _]. unfold append_int.
  rewrite fold_push. f_equal. rewrite <-to_be_shifts, Z2Nat.id by lia. done.
Qed.

Lemma in_i_step k v b : 0 < k → octet b → in_i k v → in_i (k + 8) (v * 256 + b).
Proof.
  unfold in_i, octet. intros. replace (k + 8 - 1) with (8 + (k - 1)) by lia.
  rewrite Z.pow_add_r by lia. lia.
Qed.

Lemma decode_int_fold l v k :
  octets l → 1 ≤ k → k + zlen l ≤ 8 → in_i (8 * k) v →
  fold_left (λ v b, Z.lor (swrap 64 (Z.shiftl v 8)) b) l v = v * 256 ^ zlen l + from_be l.
Proof.
  intros Hl. revert v k. induction Hl as [|b l Hb Hl IH]; intros v k Hk Hlen Hv.
  - simpl. rewrite zlen_nil. unfold from_be. simpl. lia.
  - rewrite zlen_cons in *. simpl.
    assert (in_i 64 (v * 256)) as Hv'.
    { apply (in_i_mono (8 * k + 8)); [zlen|]. rewrite <-(Z.add_0_r (v * 256)).
      apply in_i_step; [lia|done|done]. }
    rewrite swrap_id, (lor_shiftl_add v b 8);
      [|lia|done|lia|rewrite Z.shiftl_mul_pow2 by lia; done].
    rewrite (IH _ (k + 1)); [|lia..|].
    + rewrite from_be_cons, Z.pow_add_r by zlen. change (256 ^ 1) with 256. lia.
    + replace (8 * (k + 1)) with (8 * k + 8) by lia. apply in_i_step; [lia|done|done].
Qed.

(** The value of content octets, read as two's complement. *)
Lemma decode_int_eq l :
  octets l → 1 ≤ zlen l ≤ 8 → decode_int l = Ok (swrap (8 * zlen l) (from_be l)).
Proof.
  intros Hl Hn. destruct l as [|b l]; [rewrite zlen_nil in Hn; lia|].
  apply octets_cons in Hl as [Hb Hl]. unfold decode_int. rewrite decide_False by lia.
  rewrite zlen_cons in *. rewrite (decode_int_fold l _ 1);
    [|done|lia|lia|by apply swrap_range]. f_equal.
  pose proof (from_be_range l Hl) as Hr.
  apply (in_i_mod_eq (8 * (1 + zlen l))); [zlen|..|apply swrap_range; zlen|].
  - pose proof (swrap_range 8 b eq_refl) as H8. revert H8. unfold in_i.
    replace (8 * (1 + zlen l) - 1) with (7 + 8 * zlen l) by lia.
    rewrite Z.pow_add_r, <-pow256 by zlen. change (2 ^ (8 - 1)) with 128. nia.
  - rewrite swrap_mod by zlen. rewrite from_be_cons.
    replace (8 * (1 + zlen l)) with (8 + 8 * zlen l) by lia.
    rewrite Z.pow_add_r, <-pow256 by zlen.
    assert (∃ q, swrap 8 b = b + q * 2 ^ 8) as [q ->].
    { exists (- ((b + 2 ^ 7) / 2 ^ 8)). unfold swrap. change (2 ^ (8 - 1)) with (2 ^ 7).
      rewrite Z.mod_eq by done. lia. }
    replace ((b + q * 2 ^ 8) * 256 ^ zlen l + from_be l)
      with (b * 256 ^ zlen l + from_be l + q * (2 ^ 8 * 256 ^ zlen l)) by lia.
    apply Z.mod_add. lia.
Qed.

Lemma decode_int_to_be n v :
  (1 ≤ n ≤ 8)%nat → in_i (8 * Z.of_nat n) v → decode_int (to_be n v) = Ok v.
Proof.
  intros Hn Hv. rewrite decode_int_eq; [|apply octets_to_be|rewrite zlen_to_be; lia].
  rewrite zlen_to_be, from_to_be, pow256 by lia. f_equal.
  apply (in_i_mod_eq (8 * Z.of_nat n)); [lia|apply swrap_range; lia|done|].
  rewrite swrap_mod, Zmod_mod by lia. done.
Qed.

Lemma decode_int_inv l v :
  decode_int l = Ok v → octets l → 1 ≤ zlen l ≤ 8 ∧ in_i (8 * zlen l) v.
Proof.
  intros H Hl. assert (1 ≤ zlen l ≤ 8) as Hn.
  { destruct l; [done|]. unfold decode_int in H. case_decide; [done|]. zlen. }
  rewrite decode_int_eq in H by done. injection H as <-.
  split; [done|]. apply swrap_range. lia.
Qed.

Lemma decode_append_int v : in_i 64 v → decode_int (append_int [] v) = Ok v.
Proof.
  intros Hv. destruct (int_size_spec v Hv) as (Hr & Hi & _). rewrite append_int_eq by done.
  apply decode_int_to_be; [lia|]. by rewrite Z2Nat.id by lia.
Qed.

(** Integer contents are a minimal encoding. For every [i64],
    [decode_int] returns the value that [append_int] wrote, and no content octets
    that decode to the same value are shorter. *)
Theorem int_roundtrip_minimal (v : Z) (Hv : in_i 64 v) :
  decode_int (append_int [] v) = Ok v ∧
  zlen (append_int [] v) = int_size v ∧
  ∀ l, octets l → decode_int l = Ok v → int_size v ≤ zlen l.
Proof.
  destruct (int_size_spec v Hv) as (Hr & Hi & Hm). split; [by apply decode_append_int|].
  rewrite append_int_eq by done. simpl. split.
  - rewrite zlen_to_be. lia.
  - intros l Hl [Hn Hv']%decode_int_inv; [|done].
    destruct (decide (int_size v ≤ zlen l)) as [|Hlt]; [done|]. exfalso.
    apply Hm; [lia|]. apply (in_i_mono (8 * zlen l)); [lia|done].
Qed.
Lemma int_roundtrip_minimal_witness :
  in_i 64 (-129) ∧ append_int [] (-129) = [0xff; 0x7f] ∧
  decode_int (append_int [] (-129)) = Ok (-129).
Proof.
  assert (in_i 64 (-129)) as H by (vm_compute; split; congruence).
  split; [exact H|]. split; [reflexivity|]. exact (proj1 (int_roundtrip_minimal _ H)).
Defined.

Lemma uint_size_loop_spec fuel n v :
  0 ≤ v < 128 * 256 ^ (Z.of_nat fuel) →
  let m := uint_size_loop fuel n v in
  n ≤ m ≤ n + Z.of_nat fuel ∧ v < 128 * 256 ^ (m - n) ∧
  (n < m → 128 * 256 ^ (m - n - 1) ≤ v).
Proof.
  revert n v. induction fuel as [|fuel IH]; intros n v Hv.
  - simpl in *. replace (n - n) with 0 by lia. simpl. lia.
  - cbn [uint_size_loop]. case_decide as Hc.
    + rewrite (shiftr_div v 8 256) by done.
      destruct (IH (n + 1) (v / 256)) as (Hr & Hi & Hm).
      { rewrite Nat2Z.inj_succ, Z.pow_succ_r in Hv by lia. dlia. }
      set (m := uint_size_loop fuel (n + 1) (v / 256)) in *. clearbody m.
      split_and!; [lia..| |].
      * replace (m - n) with (1 + (m - (n + 1))) by lia. rewrite Z.pow_add_r by lia. dlia.
      * intros _. destruct (decide (m = n + 1)) as [->|].
        { replace (n + 1 - n - 1) with 0 by lia. simpl. lia. }
        replace (m - n - 1) with (1 + (m - (n + 1) - 1)) by lia.
        rewrite Z.pow_add_r by lia. specialize (Hm ltac:(lia)). dlia.
    + replace (n - n) with 0 by lia. simpl. lia.
Qed.

Lemma uint_size_spec v :
  in_u 64 v →
  1 ≤ uint_size v ≤ 9 ∧ v < 128 * 256 ^ (uint_size v - 1) ∧
  (1 < uint_size v → 128 * 256 ^ (uint_size v - 2) ≤ v).
Proof.
  intros Hv. destruct (uint_size_loop_spec 9 1 v) as (Hr & Hi & Hm).
  { unfold in_u in Hv. split; [lia|]. etransitivity; [apply Hv|done]. }
  fold (uint_size v) in *. split_and!; [lia| |done|].
  - destruct (decide (uint_size v ≤ 9)) as [|H9]; [done|]. exfalso.
    specialize (Hm ltac:(lia)). unfold in_u in Hv.
    assert (uint_size v = 10) as E by lia. rewrite E in Hm. simpl in *. lia.
  - intros. replace (uint_size v - 2) with (uint_size v - 1 - 1) by lia. auto.
Qed.

Lemma append_uint_eq dst v :
  in_u 64 v → append_uint dst v = dst ++ to_be (Z.to_nat (uint_size v)) v.
Proof.
  intros Hv. destruct (uint_size_spec v Hv) as [Hr _]. unfold append_uint.
  rewrite fold_push. f_equal. rewrite <-to_be_shifts, Z2Nat.id by lia.
  apply map_ext_in. intros i _. f_equal. unfold checked_shr_or_0. case_decide as Hi; [done|].
  symmetry. unfold in_u in Hv. rewrite Z.shiftr_div_pow2 by lia. apply Z.div_small.
  pose proof (Z.pow_le_mono_r 2 64 (i * 8)). lia.
Qed.

Lemma fold_u64_be l v :
  octets l → 0 ≤ v → v * 256 ^ zlen l + from_be l < 2 ^ 64 →
  fold_left (λ v b, Z.lor (u64 (Z.shiftl v 8)) b) l v = v * 256 ^ zlen l + from_be l.
Proof.
  intros Hl. revert v. induction Hl as [|b l Hb Hl IH]; intros v Hv Hlt.
  - simpl. rewrite zlen_nil. unfold from_be. simpl. lia.
  - pose proof (from_be_range l Hl) as Hr. unfold octet in Hb.
    rewrite from_be_cons, zlen_cons, Z.pow_add_r in * by zlen.
    change (256 ^ 1) with 256 in *. cbn [fold_left].
    assert (0 < 256 ^ zlen l) by (apply Z.pow_pos_nonneg; zlen).
    assert (v * 256 + b < 2 ^ 64) by nia.
    unfold u64. rewrite wrap_id, (lor_shiftl_add v b 8);
      [|lia|lia|rewrite Z.shiftl_mul_pow2 by lia; unfold in_u; lia].
    change (2 ^ 8) with 256. rewrite IH; [lia|lia|]. lia.
Qed.

Lemma decode_uint_eq l :
  octets l → 1 ≤ zlen l → from_be l < 2 ^ 64 → zlen l ≤ 9 → decode_uint l = Ok (from_be l).
Proof.
  intros Hl Hn Hv H9. destruct l as [|b l]; [rewrite zlen_nil in Hn; lia|].
  unfold decode_uint. rewrite decide_False.
  - f_equal. rewrite fold_u64_be; [lia|done|lia|lia].
  - intros [?|[E Hb]]; [lia|]. apply octets_cons in Hl as [Hb' Hl].
    pose proof (from_be_range l Hl). rewrite zlen_cons in *.
    rewrite from_be_cons in Hv. replace (zlen l) with 8 in * by lia.
    unfold octet in Hb'. simpl in *. lia.
Qed.

Lemma decode_append_uint v : in_u 64 v → decode_uint (append_uint [] v) = Ok v.
Proof.
  intros Hv. destruct (uint_size_spec v Hv) as (Hr & Hi & Hm). unfold in_u in Hv.
  rewrite append_uint_eq by done. simpl.
  assert (from_be (to_be (Z.to_nat (uint_size v)) v) = v) as Eb.
  { rewrite from_to_be. apply Z.mod_small. rewrite Z2Nat.id by lia. split; [lia|].
    etrans; [done|]. replace (uint_size v) with (1 + (uint_size v - 1)) at 2 by lia.
    rewrite (Z.pow_add_r 256 1) by lia. lia. }
  rewrite decode_uint_eq; rewrite ?Eb, ?zlen_to_be; [done|apply octets_to_be|lia..].
Qed.

(** Unsigned contents round trip. For every [u64], [decode_uint] returns
    the value that [append_uint] wrote into [uint_size] octets, the ninth octet of
    a value with the top bit set included; and a value below [2^63] is never read
    as a negative number by [decode_int]. *)
Theorem uint_roundtrip (v : Z) (Hv : in_u 64 v) :
  decode_uint (append_uint [] v) = Ok v ∧
  zlen (append_uint [] v) = uint_size v ∧
  (v < 2 ^ 63 → decode_int (append_uint [] v) = Ok v).
Proof.
  destruct (uint_size_spec v Hv) as (Hr & Hi & Hm). unfold in_u in Hv.
  split; [by apply decode_append_uint|].
  rewrite append_uint_eq by done. simpl. split; [rewrite zlen_to_be; lia|].
  set (n := Z.to_nat (uint_size v)). assert (uint_size v = Z.of_nat n) as En by lia.
  rewrite En in *. intros Hlt. apply decode_int_to_be.
  - split; [lia|]. destruct (decide (n ≤ 8)%nat) as [|H9]; [done|]. exfalso.
    assert (n = 9%nat) as E9 by lia. rewrite E9 in Hm. specialize (Hm ltac:(lia)).
    simpl in Hm. lia.
  - unfold in_i. replace (8 * Z.of_nat n - 1) with (7 + 8 * (Z.of_nat n - 1)) by lia.
    rewrite Z.pow_add_r, <-pow256 by lia. change (2 ^ 7) with 128. lia.
Qed.
Lemma uint_roundtrip_witness :
  in_u 64 (2 ^ 64 - 1) ∧ decode_uint (append_uint [] (2 ^ 64 - 1)) = Ok (2 ^ 64 - 1) ∧
  decode_int (append_uint [] 128) = Ok 128.
Proof.
  assert (in_u 64 (2 ^ 64 - 1)) as H by (vm_compute; split; congruence).
  assert (in_u 64 128) as H' by (vm_compute; split; congruence).
  split; [exact H|]. split; [exact (proj1 (uint_roundtrip _ H))|].
  apply (proj2 (proj2 (uint_roundtrip _ H'))). reflexivity.
Defined.

(** ** Lemmas on bit strings *)

Lemma land_pow2 x k : 0 ≤ k → bool_decide (Z.land x (2 ^ k) ≠ 0) = Z.testbit x k.
Proof.
  intros Hk. destruct (Z.testbit x k) eqn:Hb.
  - apply bool_decide_eq_true. intros H.
    assert (Z.testbit (Z.land x (2 ^ k)) k = true) as Ht
      by by rewrite Z.land_spec, Hb, Z.pow2_bits_true.
    by rewrite H, Z.bits_0 in Ht.
  - apply bool_decide_eq_false. intros []. apply Z.bits_inj'. intros n Hn.
    rewrite Z.land_spec, Z.bits_0, Z.pow2_bits_eqb by done.
    destruct (Z.eqb_spec k n) as [<-|]; [by rewrite Hb|apply andb_false_r].
Qed.

Lemma bit_mask_pow i : bit_mask i = 2 ^ (7 - i mod 8).
Proof.
  unfold bit_mask. assert (0 ≤ i mod 8 < 8) as H by (apply Z.mod_pos_bound; done).
  revert H. generalize (i mod 8). intros r Hr. by_range 8%nat r.
Qed.

(** The octets of a bit string are exactly those its length needs. *)
Definition bs_wf (bs : BitString) : Prop :=
  octets (bs_bits bs) ∧ 0 ≤ bs_length bs ∧ zlen (bs_bits bs) = (bs_length bs + 7) / 8.

Lemma BitString_new_wf n : 0 ≤ n → bs_wf (BitString_new n).
Proof.
  intros Hn. unfold bs_wf, BitString_new, zlen. simpl. split_and!; [|done|].
  - by apply Forall_replicate.
  - rewrite length_replicate. dlia.
Qed.

Lemma bs_lookup bs i :
  bs_wf bs → 0 ≤ i < bs_length bs →
  ∃ b, bs_bits bs !! Z.to_nat (i / 8) = Some b ∧ octet b.
Proof.
  intros (Ho & Hl & Hz) Hi.
  destruct (lookup_lt_is_Some_2 (bs_bits bs) (Z.to_nat (i / 8))) as [b Hb].
  { unfold zlen in Hz. dlia. }
  exists b. split; [done|]. by eapply Forall_lookup_1 in Hb.
Qed.

Lemma idx_lookup {E A} (l : list A) i a :
  0 ≤ i → l !! Z.to_nat i = Some a → idx (E:=E) l i = Ok a.
Proof. intros Hi Hl. unfold idx. rewrite decide_False by lia. by rewrite Hl. Qed.

Lemma BitString_bit_eq {E} bs i b :
  0 ≤ i < bs_length bs → bs_bits bs !! Z.to_nat (i / 8) = Some b →
  BitString_bit (E:=E) bs i = Ok (Z.testbit b (7 - i mod 8)).
Proof.
  intros Hi Hb. unfold BitString_bit. rewrite decide_False by lia.
  rewrite (idx_lookup _ _ b) by (done || dlia). simpl.
  rewrite bit_mask_pow, land_pow2; [done|]. pose proof (Z.mod_pos_bound i 8). lia.
Qed.

Lemma bit_total {E} bs i : bs_wf bs → 0 ≤ i → ∃ b, BitString_bit (E:=E) bs i = Ok b.
Proof.
  intros Hw Hi. destruct (decide (i < bs_length bs)).
  - destruct (bs_lookup bs i Hw) as (b & Hb & _); [done|]. eexists.
    by apply BitString_bit_eq.
  - exists false. unfold BitString_bit. by rewrite decide_True by lia.
Qed.

(** The octet that [set_bit] writes. *)
Definition put_bit (b k : Z) (v : bool) : Z :=
  if v then Z.lor b (2 ^ k) else Z.land b (u8 (Z.lnot (2 ^ k))).

Lemma put_bit_spec b k v j :
  octet b → 0 ≤ k < 8 → 0 ≤ j < 8 →
  Z.testbit (put_bit b k v) j = if decide (k = j) then v else Z.testbit b j.
Proof.
  intros Hb Hk Hj. unfold put_bit. destruct v.
  - rewrite Z.lor_spec, Z.pow2_bits_eqb by lia.
    destruct (Z.eqb_spec k j); case_decide; try done; by rewrite ?orb_true_r, ?orb_false_r.
  - rewrite Z.land_spec. unfold u8, wrap.
    rewrite Z.mod_pow2_bits_low, Z.lnot_spec, Z.pow2_bits_eqb by lia.
    destruct (Z.eqb_spec k j); case_decide; try done; by rewrite ?andb_true_r, ?andb_false_r.
Qed.

Lemma put_bit_octet b k v : octet b → 0 ≤ k < 8 → octet (put_bit b k v).
Proof.
  intros Hb Hk. assert (put_bit b k v = put_bit b k v mod 2 ^ 8) as ->; [|by apply Z.mod_pos_bound].
  apply Z.bits_inj'. intros n Hn. destruct (decide (n < 8)).
  { by rewrite Z.mod_pow2_bits_low by lia. }
  rewrite Z.mod_pow2_bits_high by lia.
  assert (Z.testbit b n = false) as Hf.
  { rewrite <-(u8_id b Hb). unfold u8, wrap. apply Z.mod_pow2_bits_high. lia. }
  unfold put_bit. destruct v.
  - rewrite Z.lor_spec, Hf, Z.pow2_bits_eqb by lia. destruct (Z.eqb_spec k n); [lia|done].
  - by rewrite Z.land_spec, Hf.
Qed.

Lemma set_bit_spec {E} bs i v :
  bs_wf bs → 0 ≤ i →
  ∃ bs', BitString_set_bit (E:=E) bs i v = Ok bs' ∧ bs_wf bs' ∧
    bs_length bs' = bs_length bs ∧
    ∀ F j, 0 ≤ j < bs_length bs →
      BitString_bit (E:=F) bs' j = if decide (i = j) then Ok v else BitString_bit bs j.
Proof.
  intros Hw Hi. unfold BitString_set_bit. case_decide as Hc.
  - exists bs. split_and!; try done. intros F j Hj. by rewrite decide_False by lia.
  - destruct (bs_lookup bs i Hw) as (b & Hb & Hbo); [lia|].
    rewrite (idx_lookup _ _ b) by (done || dlia). simpl. rewrite bit_mask_pow.
    fold (put_bit b (7 - i mod 8) v).
    assert (0 ≤ 7 - i mod 8 < 8) as Hk by (pose proof (Z.mod_pos_bound i 8); lia).
    eexists. split; [done|]. destruct Hw as (Ho & Hl & Hz). unfold bs_wf. split_and!; simpl.
    + by apply Forall_insert; [|apply put_bit_octet].
    + done.
    + unfold zlen. simpl. by rewrite length_insert.
    + done.
    + intros F j Hj. destruct (decide (i / 8 = j / 8)) as [E8|N8].
      * erewrite (BitString_bit_eq _ j); [|done|simpl; rewrite <-E8; apply list_lookup_insert_eq;
          by eapply lookup_lt_Some].
        pose proof (Z.mod_pos_bound j 8). rewrite put_bit_spec by (done || lia).
        destruct (decide (i = j)) as [->|Hne]; [by rewrite decide_True|].
        rewrite decide_False by dlia. symmetry. apply BitString_bit_eq; [done|by rewrite <-E8].
      * rewrite decide_False by congruence. unfold BitString_bit. simpl.
        case_decide; [done|]. unfold idx. case_decide; [done|].
        rewrite list_lookup_insert_ne by dlia. done.
Qed.

(** A loop over [a..a + n] that keeps an invariant indexed by the counter. *)
Lemma for_each_inv {E B} (P : Z → B → Prop) (f : B → Z → outcome E B) a n s :
  0 ≤ n → P a s →
  (∀ i s, a ≤ i < a + n → P i s → ∃ s', f s i = Ok s' ∧ P (i + 1) s') →
  ∃ s', for_each (seqZ a n) f s = Ok s' ∧ P (a + n) s'.
Proof.
  intros Hn. revert a s. pattern n. apply natlike_ind; [..|done]; clear n Hn.
  - intros a s Hs _. exists s. by rewrite Z.add_0_r.
  - intros n Hn IH a s Hs Hf. rewrite seqZ_cons, Z.pred_succ by lia. simpl.
    destruct (Hf a s) as (s1 & -> & H1); [lia|done|]. simpl.
    destruct (IH (Z.succ a) s1) as (s2 & -> & H2); [done| |].
    + intros i s' Hi. apply Hf. lia.
    + exists s2. split; [done|]. by replace (a + Z.succ n) with (Z.succ a + n) by lia.
Qed.

Lemma BitString_to_u32_spec {E} bs :
  bs_wf bs →
  ∃ r, BitString_to_u32 (E:=E) bs = Ok r ∧ 0 ≤ r ∧
    ∀ j, 0 ≤ j →
      if decide (j < 32) then BitString_bit (E:=E) bs j = Ok (Z.testbit r j)
      else Z.testbit r j = false.
Proof.
  intros Hw. pose proof Hw as (_ & Hl & _).
  destruct (for_each_inv (E:=E)
    (λ i r, 0 ≤ r ∧ ∀ j, 0 ≤ j →
      if decide (j < i) then BitString_bit (E:=E) bs j = Ok (Z.testbit r j)
      else Z.testbit r j = false)
    (λ v i, b ← BitString_bit bs i; Ok (if (b : bool) then Z.lor v (Z.shiftl 1 i) else v))
    0 (Z.min (bs_length bs) 32) 0) as (r & Hr & H0 & Hb); [lia|..].
  - split; [done|]. intros j Hj. rewrite decide_False by lia. apply Z.bits_0.
  - intros i r Hi [H0 Hr]. destruct (bit_total (E:=E) bs i Hw) as (b & Hb); [lia|].
    rewrite Hb. simpl. eexists. split; [done|]. split.
    { destruct b; [|done]. apply Z.lor_nonneg. split; [done|]. apply Z.shiftl_nonneg. lia. }
    intros j Hj. specialize (Hr j Hj).
    assert (Z.testbit (if b then Z.lor r (Z.shiftl 1 i) else r) j =
            orb (Z.testbit r j) (b && bool_decide (i = j))) as Ht.
    { destruct b; [|by rewrite orb_false_r]. rewrite Z.lor_spec, Z.shiftl_1_l, Z.pow2_bits_eqb by lia.
      f_equal. simpl. destruct (Z.eqb_spec i j); case_bool_decide; done. }
    destruct (decide (j < i + 1)); rewrite Ht.
    + destruct (decide (j < i)).
      * rewrite bool_decide_eq_false_2, andb_false_r, orb_false_r by lia. done.
      * assert (j = i) as -> by lia. rewrite Hr, bool_decide_eq_true_2, andb_true_r by done. done.
    + rewrite decide_False in Hr by lia. rewrite Hr, bool_decide_eq_false_2 by lia.
      apply andb_false_r.
  - exists r. split; [done|]. split; [done|]. intros j Hj. specialize (Hb j Hj).
    repeat case_decide; try done; try lia.
    rewrite Hb. unfold BitString_bit. by rewrite decide_True by lia.
Qed.

(** The fixed-width bit strings of IEC 61850 and their integers. For
    every [u32] and every length, [from_u32] succeeds with a well-formed bit
    string of that length, and [to_u32] of it is the integer cut to the length. *)
Theorem bit_string_u32_roundtrip {E} (v n : Z) (Hv : in_u 32 v) (Hn : 0 ≤ n) :
  ∃ bs, BitString_from_u32 (E:=E) v n = Ok bs ∧ bs_wf bs ∧ bs_length bs = n ∧
    BitString_to_u32 (E:=E) bs = Ok (v mod 2 ^ Z.min n 32).
Proof.
  destruct (for_each_inv (E:=E)
    (λ i bs, bs_wf bs ∧ bs_length bs = n ∧
      ∀ j, 0 ≤ j < i → BitString_bit (E:=E) bs j = Ok (Z.testbit v j))
    (λ bs i, BitString_set_bit bs i (bool_decide (Z.land v (Z.shiftl 1 i) ≠ 0)))
    0 (Z.min n 32) (BitString_new n)) as (bs & Hbs & Hw & Hl & Hb); [lia|..].
  - split_and!; [by apply BitString_new_wf|done|lia].
  - intros i bs Hi (Hw & Hl & Hb).
    destruct (set_bit_spec (E:=E) bs i (bool_decide (Z.land v (Z.shiftl 1 i) ≠ 0)) Hw)
      as (bs' & Hs & Hw' & Hl' & Hb'); [lia|].
    exists bs'. split; [done|]. split_and!; [done|congruence|]. intros j Hj.
    rewrite Hb' by lia. destruct (decide (i = j)) as [<-|]; [|apply Hb; lia].
    by rewrite Z.shiftl_1_l, land_pow2 by lia.
  - exists bs. split_and!; [done..|].
    destruct (BitString_to_u32_spec (E:=E) bs Hw) as (r & -> & Hr0 & Hr). f_equal.
    apply Z.bits_inj'. intros j Hj. specialize (Hr j Hj). destruct (decide (j < Z.min n 32)).
    + rewrite Z.mod_pow2_bits_low by lia. rewrite decide_True, Hb in Hr by lia. congruence.
    + rewrite Z.mod_pow2_bits_high by lia. case_decide; [|done].
      unfold BitString_bit in Hr. rewrite decide_True in Hr by lia. congruence.
Qed.
Lemma bit_string_u32_roundtrip_witness :
  in_u 32 0x15 ∧ 0 ≤ 10 ∧
  (∃ bs, BitString_from_u32 (E:=unit) 0x15 10 = Ok bs ∧ bs_wf bs ∧ bs_length bs = 10 ∧
    BitString_to_u32 (E:=unit) bs = Ok (0x15 mod 2 ^ Z.min 10 32)) ∧
  BitString_from_u32 (E:=unit) 0x15 10 = Ok (mkBitString [0xa8; 0x00] 10).
Proof.
  assert (in_u 32 0x15) as H by (vm_compute; split; congruence).
  assert (0 ≤ 10) as H' by lia.
  split; [exact H|]. split; [exact H'|]. split; [|reflexivity].
  exact (bit_string_u32_roundtrip 0x15 10 H H').
Defined.

Lemma append_decode_bit_string {E} bs :
  bs_wf bs → ∃ c, append_bit_string (E:=E) [] bs = Ok c ∧ octets c ∧ decode_bit_string c = Ok bs.
Proof.
  intros (Ho & Hl & Hz). destruct bs as [bits n]. simpl in *. unfold append_bit_string. simpl.
  rewrite usub_Ok by dlia. simpl. eexists. split; [done|]. simpl.
  split; [by apply octets_cons; split; [apply u8_octet|]|].
  rewrite u8_id by (unfold octet; dlia).
  rewrite decide_False.
  + rewrite usub_Ok by dlia. simpl. do 2 f_equal. lia.
  + intros [?|[-> ?]]; [dlia|]. rewrite zlen_nil in *. dlia.
Qed.

Lemma decode_bit_string_inv {E} bs content :
  octets content → decode_bit_string content = Ok bs →
  bs_wf bs ∧ append_bit_string (E:=E) [] bs = Ok content.
Proof.
  intros Ho. destruct content as [|pad bits]; [done|]. simpl.
  apply octets_cons in Ho as [Hp Ho]. case_decide as Hc; [done|].
  unfold octet in Hp.
  assert (pad ≤ zlen bits * 8) as Hle.
  { destruct bits as [|b bits]; [|zlen]. destruct (decide (pad = 0)); [zlen|].
    destruct Hc. by right. }
  rewrite usub_Ok by done. intros [= <-]. split.
  - unfold bs_wf. simpl. split_and!; [done|lia|dlia].
  - unfold append_bit_string. simpl. rewrite usub_Ok by lia. simpl.
    rewrite u8_id by (unfold octet; lia). do 2 f_equal. lia.
Qed.

(** Bit string contents. Every well-formed bit string is written without
    panicking and read back; and whatever octets [decode_bit_string] accepts give
    a well-formed bit string that is written as the same octets, so that reading
    bits of it never panics. *)
Theorem bit_string_roundtrip {E} (bs : BitString) (content : list Z) :
  (bs_wf bs → ∃ c, append_bit_string (E:=E) [] bs = Ok c ∧ decode_bit_string c = Ok bs) ∧
  (octets content → decode_bit_string content = Ok bs →
    bs_wf bs ∧ append_bit_string (E:=E) [] bs = Ok content ∧
    ∀ i, 0 ≤ i → settled (BitString_bit (E:=E) bs i)).
Proof.
  split.
  - intros Hw. destruct (append_decode_bit_string (E:=E) bs Hw) as (c & ? & _ & ?). eauto.
  - intros Ho H. destruct (decode_bit_string_inv (E:=E) bs content Ho H) as [Hw Ha].
    split_and!; [done..|]. intros i Hi. by destruct (bit_total (E:=E) bs i Hw Hi) as [b ->].
Qed.
Lemma bit_string_roundtrip_witness :
  bs_wf (mkBitString [0xa8; 0x00] 10) ∧
  (∃ c, append_bit_string (E:=unit) [] (mkBitString [0xa8; 0x00] 10) = Ok c ∧
        decode_bit_string c = Ok (mkBitString [0xa8; 0x00] 10)) ∧
  append_bit_string (E:=unit) [] (mkBitString [0xff] 5) = Ok [3; 0xff].
Proof.
  assert (bs_wf (mkBitString [0xa8; 0x00] 10)) as H.
  { split; [|split; [discriminate|reflexivity]]. repeat constructor; lia. }
  split; [exact H|]. split.
  - exact (proj1 (bit_string_roundtrip _ []) H).
  - apply (proj2 (bit_string_roundtrip (mkBitString [0xff] 5) [3; 0xff])); [|reflexivity].
    repeat constructor; lia.
Defined.

(** ** Object identifiers round trip *)

(** Arcs that X.660 allows and [u32] holds. *)
Definition oid_wf (o : list Z) : Prop :=
  match o with
  | a0 :: a1 :: arcs =>
      0 ≤ a0 ≤ 2 ∧ 0 ≤ a1 ∧ (a0 < 2 → a1 < 40) ∧ in_u 32 (a0 * 40 + a1) ∧ Forall (in_u 32) arcs
  | _ => False
  end.

(** One arc, read back from its base-128 octets. *)
Definition finish_arc (arcs : list Z) (v : Z) : list Z :=
  match arcs with
  | [] => [Z.min (v / 40) 2; v - Z.min (v / 40) 2 * 40]
  | _ => arcs ++ [v]
  end.

Lemma decode_oid_loop_digits ds rest arcs v n :
  Forall septet ds → ds ≠ [] → 0 ≤ v → base128_value v ds < 2 ^ 32 → zlen ds + n ≤ 5 →
  decode_oid_loop (mark_more ds ++ rest) arcs v n =
  decode_oid_loop rest (finish_arc arcs (base128_value v ds)) 0 0.
Proof.
  intros Hds. revert v n. induction Hds as [|d ds Hd Hds IH]; intros v n Hne Hv Hlt Hn; [done|].
  simpl in Hlt. pose proof Hd as Hd'. unfold septet in Hd'.
  pose proof (base128_value_ge (v * 128 + d) ds ltac:(lia) Hds). destruct ds as [|e ds].
  - simpl. rewrite decide_False by zlen. destruct (septet_last d Hd) as [-> ->].
    rewrite decide_True by done. simpl in *. rewrite septet_acc by (done || lia).
    by destruct arcs.
  - change (mark_more (d :: e :: ds)) with (Z.lor d 0x80 :: mark_more (e :: ds)).
    cbn [app decode_oid_loop]. rewrite decide_False by zlen.
    destruct (septet_more d Hd) as [Hb ->].
    rewrite decide_False by (by apply bool_decide_eq_false in Hb).
    rewrite septet_acc by (done || lia). rewrite IH; [done|done|lia|done|zlen].
Qed.

Lemma decode_oid_loop_arc arc rest arcs :
  in_u 32 arc →
  decode_oid_loop (base128 arc ++ rest) arcs 0 0 =
  decode_oid_loop rest (finish_arc arcs arc) 0 0.
Proof.
  intros Ha. destruct (base128_digits arc Ha) as (ds & -> & Hv & Hds & Hne & H5 & _).
  unfold in_u in Ha. rewrite decode_oid_loop_digits; [by rewrite Hv|done..|lia|unfold zlen; lia].
Qed.

Lemma decode_oid_loop_arcs l arcs :
  arcs ≠ [] → Forall (in_u 32) l →
  decode_oid_loop (concat (map base128 l)) arcs 0 0 = Ok (arcs ++ l).
Proof.
  intros Hne Hl. revert arcs Hne. induction Hl as [|a l Ha Hl IH]; intros arcs Hne; simpl.
  - by rewrite app_nil_r.
  - rewrite decode_oid_loop_arc by done. destruct arcs as [|x arcs]; [done|].
    change (finish_arc (x :: arcs) a) with ((x :: arcs) ++ [a]).
    rewrite IH by done. by rewrite <-app_assoc.
Qed.

Lemma fold_append {A B} (f : A → list B) l dst :
  fold_left (λ dst a, dst ++ f a) l dst = dst ++ concat (map f l).
Proof.
  revert dst. induction l as [|a l IH]; intros dst; simpl; [by rewrite app_nil_r|].
  by rewrite IH, <-app_assoc.
Qed.

Lemma base128_not_nil n : in_u 32 n → base128 n ≠ [].
Proof.
  intros Hn. destruct (base128_digits n Hn) as (ds & -> & _ & _ & Hne & _).
  destruct ds as [|d [|e ds]]; done.
Qed.

(** Object identifiers round trip. Every identifier whose arcs X.660
    allows (the first at most 2, the second below 40 under arcs 0 and 1) is written
    without panicking and read back. *)
Theorem oid_roundtrip {E} (o : list Z) (Ho : oid_wf o) :
  ∃ c, append_oid (E:=E) [] o = Ok c ∧ decode_oid c = Ok o.
Proof.
  destruct o as [|a0 [|a1 arcs]]; [done..|]. destruct Ho as (H0 & H1 & H40 & Hr & Hl).
  unfold append_oid. pose proof Hr as Hr'. unfold in_u in Hr'.
  rewrite decide_True by (unfold U32_MAX; lia). eexists. split; [done|].
  rewrite fold_append. simpl app.
  unfold decode_oid. destruct (base128 (a0 * 40 + a1) ++ _) eqn:E1.
  { apply app_eq_nil in E1 as [E1 _]. by apply base128_not_nil in E1. }
  rewrite <-E1, decode_oid_loop_arc by done. simpl finish_arc.
  assert (Z.min ((a0 * 40 + a1) / 40) 2 = a0) as -> by dlia.
  replace (a0 * 40 + a1 - a0 * 40) with a1 by lia.
  by rewrite decode_oid_loop_arcs.
Qed.
Lemma oid_roundtrip_witness :
  oid_wf [1; 0; 9506; 2; 1] ∧
  (∃ c, append_oid (E:=unit) [] [1; 0; 9506; 2; 1] = Ok c ∧
        decode_oid c = Ok [1; 0; 9506; 2; 1]).
Proof.
  assert (oid_wf [1; 0; 9506; 2; 1]) as H.
  { repeat (split || constructor); unfold in_u; try lia; vm_compute; congruence. }
  split; [exact H|]. exact (oid_roundtrip _ H).
Defined.

(** ** Floats round trip *)

Lemma slice_from_1 {E A} (a : A) l : slice_from (E:=E) (a :: l) 1 = Ok l.
Proof. by apply (slice_from_app [a] l). Qed.

Lemma decode_float_5 w b1 b2 b3 b4 :
  decode_float [w; b1; b2; b3; b4] = Ok (f32_to_f64 (from_be [b1; b2; b3; b4])).
Proof. done. Qed.

Lemma decode_float_9 w l :
  octets l → zlen l = 8 → decode_float (w :: l) = Ok (from_be l).
Proof.
  intros Hl H8. unfold decode_float. rewrite zlen_cons, H8.
  rewrite decide_False, decide_True by lia. rewrite slice_from_1. simpl.
  pose proof (from_be_range l Hl) as Hr. rewrite H8 in Hr. rewrite fold_u64_be; [f_equal; lia|done|lia|].
  change (256 ^ 8) with (2 ^ 64) in Hr. lia.
Qed.

Lemma decode_float_inv content f :
  octets content → decode_float content = Ok f →
  (zlen content = 5 ∧ ∃ b, in_u 32 b ∧ f = f32_to_f64 b) ∨ (zlen content = 9 ∧ in_u 64 f).
Proof.
  intros Ho. destruct (decide (zlen content = 5)) as [H5|H5].
  - destruct content as [|w [|b1 [|b2 [|b3 [|b4 [|b5 l]]]]]]; try (exfalso; zlen).
    rewrite decode_float_5. intros [= <-]. left. split; [done|]. eexists. split; [|done].
    apply octets_cons in Ho as [_ Ho]. apply (from_be_range _ Ho).
  - destruct (decide (zlen content = 9)) as [H9|H9].
    + destruct content as [|w l]; [done|]. apply octets_cons in Ho as [_ Ho].
      rewrite zlen_cons in H9. rewrite decode_float_9 by (done || lia). intros [= <-].
      right. split; [rewrite zlen_cons; lia|]. pose proof (from_be_range l Ho) as Hr.
      replace (zlen l) with 8 in Hr by lia. apply Hr.
    + unfold decode_float. by rewrite !decide_False.
Qed.

Lemma decode_float_settled content : settled (decode_float content).
Proof.
  unfold decode_float. case_decide as H5; [|case_decide as H9; [|done]].
  - by destruct content as [|w [|b1 [|b2 [|b3 [|b4 l]]]]].
  - destruct content as [|w l]; [done|]. by rewrite slice_from_1.
Qed.
