(* ===== verification/TimeUtil.v ===== *)
(** The calendar arithmetic of src/src/time_util.rs: the split of a time into
    seconds and nanoseconds, and the conversion between a count of days and a
    civil date, proved to be the proleptic Gregorian calendar.

    A [SystemTime] is its signed distance from the Unix epoch in nanoseconds; a
    [Duration] is a count of nanoseconds. Rust's [/] and [%] on signed integers are
    [Z.quot] and [Z.rem], its [div_euclid] and [rem_euclid] by a positive divisor
    are [/] and [mod]. *)

From S2P Require Import Prelude.
Local Open Scope Z_scope.

Definition BINARY_TIME_EPOCH_DAYS : Z := 5113.

Definition NANOS_PER_SEC : Z := 1000000000.

Definition unix_parts (t : Z) : Z * Z :=
  if decide (0 ≤ t) then (swrap 64 (t / NANOS_PER_SEC), t mod NANOS_PER_SEC)
  else
    let d := - t in
    let secs := swrap 64 (d / NANOS_PER_SEC) in
    let nanos := d mod NANOS_PER_SEC in
    if decide (nanos = 0) then (- secs, 0)
    else (- secs - 1, NANOS_PER_SEC - nanos).

Definition from_unix (secs nanos : Z) : Z :=
  let base :=
    if decide (0 ≤ secs) then secs * NANOS_PER_SEC
    else - (Z.abs secs * NANOS_PER_SEC) in
  base + nanos.

Definition days_from_civil (y m d : Z) : Z :=
  let y := if decide (m ≤ 2) then y - 1 else y in
  let era := Z.quot (if decide (0 ≤ y) then y else y - 399) 400 in
  let yoe := y - era * 400 in
  let mp := Z.rem (m + 9) 12 in
  let doy := Z.quot (153 * mp + 2) 5 + d - 1 in
  let doe := yoe * 365 + Z.quot yoe 4 - Z.quot yoe 100 + doy in
  era * 146097 + doe - 719468.

Definition civil_from_days (z : Z) : Z * Z * Z :=
  let z := z + 719468 in
  let era := Z.quot (if decide (0 ≤ z) then z else z - 146096) 146097 in
  let doe := z - era * 146097 in
  let yoe := Z.quot (doe - Z.quot doe 1460 + Z.quot doe 36524 - Z.quot doe 146096) 365 in
  let y := yoe + era * 400 in
  let doy := doe - (365 * yoe + Z.quot yoe 4 - Z.quot yoe 100) in
  let mp := Z.quot (5 * doy + 2) 153 in
  let d := u32 (doy - Z.quot (153 * mp + 2) 5 + 1) in
  let m := u32 (if decide (mp < 10) then mp + 3 else mp - 9) in
  (if decide (m ≤ 2) then y + 1 else y, m, d).

Definition civil_from_unix (secs : Z) : Z * Z * Z * Z * Z * Z :=
  let days := secs / 86400 in
  let rem := secs mod 86400 in
  let '(y, mo, d) := civil_from_days days in
  (y, mo, d, u32 (Z.quot rem 3600), u32 (Z.quot (Z.rem rem 3600) 60), u32 (Z.rem rem 60)).

(** ** The Gregorian calendar, as the standard states it *)

Definition is_leap (y : Z) : bool :=
  bool_decide (y mod 4 = 0) && (negb (bool_decide (y mod 100 = 0)) || bool_decide (y mod 400 = 0)).

Definition days_in_month (y m : Z) : Z :=
  if decide (m = 2) then (if is_leap y then 29 else 28)
  else if decide (m ∈ [4; 6; 9; 11]) then 30 else 31.

Definition valid_date (y m d : Z) : Prop := 1 ≤ m ≤ 12 ∧ 1 ≤ d ≤ days_in_month y m.

Definition next_date (date : Z * Z * Z) : Z * Z * Z :=
  let '(y, m, d) := date in
  if decide (d < days_in_month y m) then (y, m, d + 1)
  else if decide (m < 12) then (y, m + 1, 1)
  else (y + 1, 1, 1).

(** ** The two conversions in the shifted year

    Years are counted from March: year [yoe] of the 400-year era starts at day
    [year_start yoe] of the era, and the months of day [doy] of it do not depend on
    the year. *)

Definition year_start (yoe : Z) : Z := 365 * yoe + yoe / 4 - yoe / 100.

Definition year_of (doe : Z) : Z :=
  (doe - doe / 1460 + doe / 36524 - doe / 146096) / 365.

(** Month (from March) and day of month of day [doy] of the shifted year. *)
Definition month_of (doy : Z) : Z := (5 * doy + 2) / 153.
Definition month_start (mp : Z) : Z := (153 * mp + 2) / 5.

Lemma year_start_mono y y' : 0 ≤ y ≤ y' → year_start y ≤ year_start y'.
Proof. unfold year_start. intros. dlia. Qed.

Lemma year_exists doe :
  0 ≤ doe ≤ 146096 →
  ∃ yoe, 0 ≤ yoe ≤ 399 ∧ year_start yoe ≤ doe ∧
    (doe < year_start (yoe + 1) ∨ yoe = 399).
Proof.
  intros Hd. assert (∀ k : nat, (k ≤ 400)%nat → year_start (Z.of_nat k) ≤ doe ∨
    ∃ yoe, 0 ≤ yoe < Z.of_nat k ∧ year_start yoe ≤ doe < year_start (yoe + 1)) as Hk.
  { induction k as [|k IH]; intros Hk; [left; exact (proj1 Hd)|].
    destruct IH as [Hle|(yoe & ? & ?)]; [lia| |right; exists yoe; split; [lia|done]].
    destruct (decide (year_start (Z.of_nat (S k)) ≤ doe)) as [|Hn]; [by left|].
    right. exists (Z.of_nat k). replace (Z.of_nat k + 1) with (Z.of_nat (S k)) by lia.
    apply Z.nle_gt in Hn. split; [lia|]. by split. }
  destruct (Hk 399%nat) as [H|(yoe & ? & ?)]; [lia|exists 399; split_and!; [done..|exact H|by right]|].
  exists yoe. split; [lia|]. split; [lia|left; lia].
Qed.

Lemma year_of_mono d e :
  0 ≤ d ≤ e → e ≤ 146096 → year_of d ≤ year_of e.
Proof.
  intros Hd He. unfold year_of. apply Z.div_le_mono; [lia|].
  assert (Z.of_nat (Z.to_nat (e - d)) = e - d) as Hk by lia.
  revert Hk. generalize (Z.to_nat (e - d)) as k. intros k. revert e Hd He.
  induction k as [|k IH]; intros e Hd He Hk; [assert (e = d) as -> by lia; done|].
  etrans; [apply (IH (e - 1)); lia|]. clear IH Hk. dlia.
Qed.

(** [year_of] inverts [year_start], checked at both ends of each year. *)
Lemma year_of_correct yoe doe :
  0 ≤ yoe ≤ 399 → year_start yoe ≤ doe ≤ year_start (yoe + 1) - (if decide (yoe = 399) then 0 else 1) →
  year_of doe = yoe.
Proof.
  intros Hy Hd.
  assert (year_of (year_start yoe) = yoe) as Hlo by by_range 400%nat yoe.
  assert (year_of (year_start (yoe + 1) - (if decide (yoe = 399) then 0 else 1)) = yoe) as Hhi
    by by_range 400%nat yoe.
  assert (year_start (yoe + 1) - (if decide (yoe = 399) then 0 else 1) ≤ 146096).
  { unfold year_start. case_decide; [subst; reflexivity|]. dlia. }
  assert (0 ≤ year_start yoe) by (unfold year_start; dlia).
  pose proof (year_of_mono (year_start yoe) doe). 
  pose proof (year_of_mono doe (year_start (yoe + 1) - (if decide (yoe = 399) then 0 else 1))).
  lia.
Qed.

Definition year_len (yoe : Z) : Z :=
  if decide (yoe = 399) then 366 else year_start (yoe + 1) - year_start yoe.

(** Month and day of month of day [doy] of a shifted year. *)
Definition civil_month (doy : Z) : Z :=
  if decide (month_of doy < 10) then month_of doy + 3 else month_of doy - 9.
Definition civil_day (doy : Z) : Z := doy - month_start (month_of doy) + 1.

Definition of_shifted (era yoe doy : Z) : Z * Z * Z :=
  (yoe + era * 400 + (if decide (civil_month doy ≤ 2) then 1 else 0), civil_month doy, civil_day doy).

Definition shifted (era yoe doy : Z) : Prop := 0 ≤ yoe ≤ 399 ∧ 0 ≤ doy < year_len yoe.
Definition day_number (era yoe doy : Z) : Z := era * 146097 + year_start yoe + doy - 719468.

Lemma year_len_range yoe : 0 ≤ yoe ≤ 399 → 365 ≤ year_len yoe ≤ 366.
Proof. intros. unfold year_len, year_start. case_decide; dlia. Qed.

Lemma shifted_doe era yoe doy :
  shifted era yoe doy → 0 ≤ year_start yoe + doy ≤ 146096 ∧
  year_of (year_start yoe + doy) = yoe ∧ doy ≤ 365.
Proof.
  intros [Hy Hd]. pose proof (year_len_range yoe Hy). split_and!; [| | |lia].
  - unfold year_start. dlia.
  - revert Hd. unfold year_len, year_start. case_decide as E; [subst yoe|];
      [change (399 / 4) with 99; change (399 / 100) with 3; lia|dlia].
  - apply year_of_correct; [done|]. revert Hd. unfold year_len.
    case_decide as E; [subst yoe|lia].
    change (year_start (399 + 1)) with 146096. change (year_start 399) with 145731. lia.
Qed.

Lemma civil_fields_range doy :
  0 ≤ doy ≤ 365 → 1 ≤ civil_month doy ≤ 12 ∧ 1 ≤ civil_day doy ≤ 31.
Proof.
  intros Hd. cut (bool_decide (1 ≤ civil_month doy ≤ 12 ∧ 1 ≤ civil_day doy ≤ 31) = true).
  { by intros ?%bool_decide_eq_true. }
  by_range 366%nat doy.
Qed.

Lemma quot_era x n : 0 < n → Z.quot (if decide (0 ≤ x) then x else x - (n - 1)) n = x / n.
Proof.
  intros Hn. case_decide; [by apply Z.quot_div_nonneg|].
  assert (x - (n - 1) = - (- x + (n - 1))) as -> by lia.
  rewrite Z.quot_opp_l, Z.quot_div_nonneg by lia.
  pose proof (Z.div_mod (- x + (n - 1)) n ltac:(lia)).
  pose proof (Z.mod_pos_bound (- x + (n - 1)) n Hn).
  apply (Z.div_unique x n _ (n - 1 - (- x + (n - 1)) mod n)); lia.
Qed.

Lemma civil_from_days_shifted era yoe doy :
  shifted era yoe doy → civil_from_days (day_number era yoe doy) = of_shifted era yoe doy.
Proof.
  intros Hs. destruct (shifted_doe _ _ _ Hs) as (Hdoe & Hyear & H365). destruct Hs as [Hy Hd].
  unfold civil_from_days, day_number.
  replace (era * 146097 + year_start yoe + doy - 719468 + 719468)
    with (era * 146097 + (year_start yoe + doy)) by lia.
  set (doe := year_start yoe + doy) in *.
  pose proof (quot_era (era * 146097 + doe) 146097 eq_refl) as Eera.
  change (146097 - 1) with 146096 in Eera.
  rewrite Eera, Z.div_add_l, (Z.div_small doe), Z.add_0_r by lia.
  replace (era * 146097 + doe - era * 146097) with doe by lia.
  assert (0 ≤ doe - doe / 1460 + doe / 36524 - doe / 146096) by dlia.
  rewrite !(Z.quot_div_nonneg doe) by lia.
  rewrite (Z.quot_div_nonneg _ 365) by lia. fold (year_of doe). rewrite Hyear.
  rewrite !(Z.quot_div_nonneg yoe) by lia. fold (year_start yoe).
  replace (doe - year_start yoe) with doy by (subst doe; lia).
  rewrite (Z.quot_div_nonneg _ 153) by lia. fold (month_of doy).
  assert (0 ≤ month_of doy) by (unfold month_of; dlia).
  rewrite (Z.quot_div_nonneg _ 5) by lia. fold (month_start (month_of doy)).
  fold (civil_day doy) (civil_month doy).
  destruct (civil_fields_range doy) as [Hm Hday]; [lia|].
  unfold u32. rewrite !wrap_id by (unfold in_u; lia).
  unfold of_shifted. clear Eera. do 2 f_equal. case_decide; lia.
Qed.

Lemma days_from_civil_shifted era yoe doy :
  shifted era yoe doy →
  (let '(y, m, d) := of_shifted era yoe doy in days_from_civil y m d) = day_number era yoe doy.
Proof.
  intros Hs. destruct (shifted_doe _ _ _ Hs) as (Hdoe & Hyear & H365). destruct Hs as [Hy Hd].
  unfold of_shifted, days_from_civil.
  replace (if decide (civil_month doy ≤ 2)
    then yoe + era * 400 + (if decide (civil_month doy ≤ 2) then 1 else 0) - 1
    else yoe + era * 400 + (if decide (civil_month doy ≤ 2) then 1 else 0))
    with (era * 400 + yoe) by (case_decide; lia).
  pose proof (quot_era (era * 400 + yoe) 400 eq_refl) as Eera.
  change (400 - 1) with 399 in Eera.
  rewrite Eera, Z.div_add_l, (Z.div_small yoe), Z.add_0_r by lia.
  replace (era * 400 + yoe - era * 400) with yoe by lia.
  rewrite !(Z.quot_div_nonneg yoe) by lia.
  assert (Z.quot (153 * Z.rem (civil_month doy + 9) 12 + 2) 5 + civil_day doy = doy + 1) as Hdoy
    by by_range 366%nat doy.
  unfold day_number, year_start. lia.
Qed.

(** Every day lies in one year of one era. *)
Lemma shifted_exists z : ∃ era yoe doy, shifted era yoe doy ∧ z = day_number era yoe doy.
Proof.
  set (doe := (z + 719468) mod 146097).
  assert (0 ≤ doe ≤ 146096) as Hd by (pose proof (Z.mod_pos_bound (z + 719468) 146097); lia).
  destruct (year_exists doe Hd) as (yoe & Hy & Hlo & Hhi).
  exists ((z + 719468) / 146097), yoe, (doe - year_start yoe). split.
  - split; [done|]. split; [lia|]. unfold year_len. case_decide as E; [|lia].
    subst yoe. change (year_start 399) with 145731. lia.
  - unfold day_number. pose proof (Z.div_mod (z + 719468) 146097). lia.
Qed.

Lemma year_len_leap era yoe :
  0 ≤ yoe ≤ 399 → year_len yoe = if is_leap (yoe + era * 400 + 1) then 366 else 365.
Proof.
  intros Hy. assert (is_leap (yoe + era * 400 + 1) = is_leap (yoe + 1)) as ->.
  { unfold is_leap. repeat f_equal; apply bool_decide_ext; dlia. }
  by_range 400%nat yoe.
Qed.

(** Outside February a month's length does not depend on the year: the next
    day of the shifted year is the next day of the month, or the first of the next
    month. *)
Lemma next_in_year y doy :
  0 ≤ doy < 337 →
  next_date (y, civil_month doy, civil_day doy) =
  (if decide (doy = 305) then y + 1 else y, civil_month (doy + 1), civil_day (doy + 1)).
Proof.
  intros Hd. unfold next_date, days_in_month.
  assert (civil_month doy ≠ 2) as Hm2.
  { cut (bool_decide (civil_month doy ≠ 2) = true); [by intros ?%bool_decide_eq_true|].
    by_range 337%nat doy. }
  rewrite (decide_False (P := civil_month doy = 2)) by done.
  set (len := if decide (civil_month doy ∈ [4; 6; 9; 11]) then 30 else 31).
  assert ((if decide (civil_day doy < len) then (0, civil_month doy, civil_day doy + 1)
    else if decide (civil_month doy < 12) then (0, civil_month doy + 1, 1) else (1, 1, 1)) =
    (if decide (doy = 305) then 1 else 0, civil_month (doy + 1), civil_day (doy + 1))) as E.
  { subst len. by_range 337%nat doy. }
  repeat case_decide; simplify_eq; rewrite ?Z.add_0_r; congruence.
Qed.

Lemma february doy : 337 ≤ doy ≤ 366 → civil_month doy = 2 ∧ civil_day doy = doy - 336.
Proof.
  intros. assert (month_of doy = 11) as E by (unfold month_of; dlia).
  unfold civil_month, civil_day, month_start. rewrite E. split; [done|].
  change ((153 * 11 + 2) / 5) with 337. lia.
Qed.

(** The date after a shifted date. *)
Lemma next_shifted era yoe doy :
  shifted era yoe doy →
  next_date (of_shifted era yoe doy) = civil_from_days (day_number era yoe doy + 1).
Proof.
  intros Hs. pose proof Hs as [Hy Hd]. pose proof (year_len_range yoe Hy) as Hlen.
  destruct (decide (doy + 1 < year_len yoe)) as [Hin|Hlast].
  - replace (day_number era yoe doy + 1) with (day_number era yoe (doy + 1))
      by (unfold day_number; lia).
    rewrite civil_from_days_shifted by (split; lia). unfold of_shifted.
    destruct (decide (doy < 337)).
    + rewrite next_in_year by lia. do 2 f_equal.
      assert ((if decide (civil_month doy ≤ 2) then 1 else 0) +
        (if decide (doy = 305) then 1 else 0) =
        if decide (civil_month (doy + 1) ≤ 2) then 1 else 0) as E by by_range 337%nat doy.
      destruct (decide (doy = 305)); lia.
    + destruct (february doy) as [-> ->]; [lia|]. destruct (february (doy + 1)) as [-> ->]; [lia|].
      unfold next_date, days_in_month. rewrite (year_len_leap era) in Hin by done.
      simpl. rewrite decide_True; [do 2 f_equal; lia|].
      destruct (is_leap _); lia.
  - destruct (february doy) as [E1 E2]; [lia|].
    unfold of_shifted. rewrite E1, E2. unfold next_date, days_in_month. simpl.
    rewrite (year_len_leap era) in Hlast, Hd by done.
    rewrite decide_False by (destruct (is_leap _); lia).
    assert (civil_from_days (day_number era yoe doy + 1) =
            of_shifted (if decide (yoe = 399) then era + 1 else era)
              (if decide (yoe = 399) then 0 else yoe + 1) 0) as ->.
    { rewrite <-civil_from_days_shifted.
      - f_equal. unfold day_number. rewrite <-(year_len_leap era) in Hlast, Hd by done.
        revert Hlast Hd. unfold year_len. case_decide as E.
        + subst. change (year_start 399) with 145731. change (year_start 0) with 0. lia.
        + lia.
      - split; [case_decide; lia|]. split; [done|].
        pose proof (year_len_range (if decide (yoe = 399) then 0 else yoe + 1)).
        case_decide; lia. }
    unfold of_shifted. change (civil_month 0) with 3. change (civil_day 0) with 1. simpl.
    do 2 f_equal. case_decide; lia.
Qed.

(** The day of the shifted year of a day of a month. *)
Lemma month_of_start (leap : bool) m d :
  1 ≤ m ≤ 12 →
  1 ≤ d ≤ (if decide (m = 2) then if leap then 29 else 28
           else if decide (m ∈ [4; 6; 9; 11]) then 30 else 31) →
  let doy := month_start ((m + 9) mod 12) + d - 1 in
  month_of doy = (m + 9) mod 12 ∧ 0 ≤ doy < 366 ∧ (m = 2 → doy < if leap then 366 else 365) ∧
  (m ≠ 2 → doy < 365).
Proof.
  intros Hm Hd doy.
  assert (m = 1 ∨ m = 2 ∨ m = 3 ∨ m = 4 ∨ m = 5 ∨ m = 6 ∨ m = 7 ∨ m = 8 ∨ m = 9 ∨
          m = 10 ∨ m = 11 ∨ m = 12) as Hc by lia.
  subst doy. unfold month_of.
  destruct_or! Hc; subst m; simpl in Hd;
    match goal with |- context [month_start ?e] =>
      let c := eval vm_compute in (month_start e) in
      let r := eval vm_compute in e in
      change (month_start e) with c; change e with r end;
    destruct leap; split_and!; try lia; dlia.
Qed.

Lemma valid_shifted y m d :
  valid_date y m d → ∃ era yoe doy, shifted era yoe doy ∧ of_shifted era yoe doy = (y, m, d).
Proof.
  intros [Hm Hd]. set (y' := if decide (m ≤ 2) then y - 1 else y).
  set (doy := month_start ((m + 9) mod 12) + d - 1).
  exists (y' / 400), (y' mod 400), doy.
  pose proof (Z.mod_pos_bound y' 400 eq_refl) as Hy.
  pose proof (year_len_leap (y' / 400) (y' mod 400) ltac:(lia)) as Hlen.
  replace (y' mod 400 + y' / 400 * 400) with y' in Hlen by dlia.
  assert (Hmonth : month_of doy = (m + 9) mod 12 ∧ 0 ≤ doy < year_len (y' mod 400)).
  { destruct (month_of_start (is_leap y) m d Hm Hd) as (Hmo & H0 & H2 & H3).
    fold doy in Hmo, H0, H2, H3.
    split; [done|]. split; [lia|]. rewrite Hlen. destruct (decide (m = 2)) as [E|E].
    - assert (y' + 1 = y) as -> by (subst y'; rewrite decide_True by lia; lia). auto.
    - specialize (H3 E). destruct (is_leap _); lia. }
  destruct Hmonth as [Hmonth Hdoy]. split; [split; [lia|done]|].
  assert (civil_month doy = m) as Em by (unfold civil_month; rewrite Hmonth; case_decide; dlia).
  unfold of_shifted. rewrite Em. unfold civil_day. rewrite Hmonth.
  assert (y' mod 400 + y' / 400 * 400 = y') as -> by dlia.
  f_equal; [f_equal|]; [|subst doy; lia]. subst y'. case_decide; lia.
Qed.

(** C35: [civil_from_days] is the proleptic Gregorian calendar. Day 0 is
    1970-01-01, the date of each day follows that of the day before by the
    calendar's rules (months of 30 and 31 days, leap years), [days_from_civil] is its
    left inverse on every day, and its right inverse on every valid date. *)
Theorem civil_calendar :
  civil_from_days 0 = (1970, 1, 1) ∧
  (∀ z, civil_from_days (z + 1) = next_date (civil_from_days z)) ∧
  (∀ z y m d, civil_from_days z = (y, m, d) → days_from_civil y m d = z) ∧
  (∀ y m d, valid_date y m d → civil_from_days (days_from_civil y m d) = (y, m, d)).
Proof.
  split_and!; [done|..].
  - intros z. destruct (shifted_exists z) as (era & yoe & doy & Hs & ->).
    by rewrite <-next_shifted, <-civil_from_days_shifted.
  - intros z y m d E. destruct (shifted_exists z) as (era & yoe & doy & Hs & ->).
    rewrite <-(days_from_civil_shifted _ _ _ Hs).
    by rewrite <-(civil_from_days_shifted _ _ _ Hs), E.
  - intros y m d Hv. destruct (valid_shifted y m d Hv) as (era & yoe & doy & Hs & E).
    pose proof (days_from_civil_shifted _ _ _ Hs) as Hd. rewrite E in Hd. rewrite Hd, <-E.
    by apply civil_from_days_shifted.
Qed.

(** ** Instants *)

(** The instants whose seconds an [i64] holds, the first second left out. *)
Definition time_wf (t : Z) : Prop := Z.abs t / NANOS_PER_SEC < 2 ^ 63.

Lemma unix_parts_eq t :
  time_wf t → unix_parts t = (t / NANOS_PER_SEC, t mod NANOS_PER_SEC).
Proof.
  unfold time_wf, unix_parts, NANOS_PER_SEC. intros Ht. case_decide as H0.
  - rewrite Z.abs_eq in Ht by done. rewrite swrap_id; [done|done|]. unfold in_i. dlia.
  - rewrite Z.abs_neq in Ht by lia. rewrite swrap_id; [|done|unfold in_i; dlia].
    case_decide; f_equal; dlia.
Qed.

Lemma from_unix_eq secs nanos : from_unix secs nanos = secs * NANOS_PER_SEC + nanos.
Proof. unfold from_unix. case_decide; lia. Qed.

Lemma from_unix_parts t secs nanos :
  time_wf t → unix_parts t = (secs, nanos) → from_unix secs nanos = t.
Proof.
  intros Ht. rewrite unix_parts_eq by done. intros [= <- <-].
  rewrite from_unix_eq. unfold NANOS_PER_SEC. dlia.
Qed.

Lemma unix_parts_from secs nanos :
  - 2 ^ 63 < secs < 2 ^ 63 → 0 ≤ nanos < NANOS_PER_SEC →
  unix_parts (from_unix secs nanos) = (secs, nanos).
Proof.
  unfold NANOS_PER_SEC. intros Hs Hn. rewrite from_unix_eq. rewrite unix_parts_eq.
  - unfold NANOS_PER_SEC. f_equal; dlia.
  - unfold time_wf, NANOS_PER_SEC. dlia.
Qed.
