(* ===== verification/Utf8.v ===== *)
(** Rust strings as UTF-8 octets.

    A [String] or [&str] is the list of its octets; [String::from_utf8_lossy],
    through which every string received from the network passes, keeps valid
    sequences and replaces each maximal invalid prefix by U+FFFD, as Rust's
    standard library documents. *)

From S2P Require Import Prelude.
Local Open Scope Z_scope.

(** ** Definitions *)

(** U+FFFD, the replacement character. *)
Definition replacement : list Z := [0xef; 0xbf; 0xbd].

Definition cont (b : Z) : bool := (0x80 <=? b) && (b <=? 0xbf).

(** The second octets a first octet of a three- or four-octet sequence allows. *)
Definition second3 (b0 b1 : Z) : bool :=
  if b0 =? 0xe0 then (0xa0 <=? b1) && (b1 <=? 0xbf)
  else if b0 =? 0xed then (0x80 <=? b1) && (b1 <=? 0x9f)
  else cont b1.
Definition second4 (b0 b1 : Z) : bool :=
  if b0 =? 0xf0 then (0x90 <=? b1) && (b1 <=? 0xbf)
  else if b0 =? 0xf4 then (0x80 <=? b1) && (b1 <=? 0x8f)
  else cont b1.

Definition lead2 (b : Z) : bool := (0xc2 <=? b) && (b <=? 0xdf).
Definition lead3 (b : Z) : bool := (0xe0 <=? b) && (b <=? 0xef).
Definition lead4 (b : Z) : bool := (0xf0 <=? b) && (b <=? 0xf4).

Fixpoint from_utf8_lossy (l : list Z) : list Z :=
  match l with
  | [] => []
  | b0 :: l0 =>
      if b0 <? 0x80 then b0 :: from_utf8_lossy l0
      else if lead2 b0 then
        match l0 with
        | b1 :: l1 =>
            if cont b1 then b0 :: b1 :: from_utf8_lossy l1
            else replacement ++ from_utf8_lossy l0
        | [] => replacement
        end
      else if lead3 b0 then
        match l0 with
        | b1 :: l1 =>
            if second3 b0 b1 then
              match l1 with
              | b2 :: l2 =>
                  if cont b2 then b0 :: b1 :: b2 :: from_utf8_lossy l2
                  else replacement ++ from_utf8_lossy l1
              | [] => replacement
              end
            else replacement ++ from_utf8_lossy l0
        | [] => replacement
        end
      else if lead4 b0 then
        match l0 with
        | b1 :: l1 =>
            if second4 b0 b1 then
              match l1 with
              | b2 :: l2 =>
                  if cont b2 then
                    match l2 with
                    | b3 :: l3 =>
                        if cont b3 then b0 :: b1 :: b2 :: b3 :: from_utf8_lossy l3
                        else replacement ++ from_utf8_lossy l2
                    | [] => replacement
                    end
                  else replacement ++ from_utf8_lossy l1
              | [] => replacement
              end
            else replacement ++ from_utf8_lossy l0
        | [] => replacement
        end
      else replacement ++ from_utf8_lossy l0
  end.

(** Well-formed UTF-8: what a [String] holds. *)
Fixpoint utf8 (l : list Z) : bool :=
  match l with
  | [] => true
  | b0 :: l0 =>
      if b0 <? 0x80 then (0 <=? b0) && utf8 l0
      else if lead2 b0 then
        match l0 with b1 :: l1 => cont b1 && utf8 l1 | [] => false end
      else if lead3 b0 then
        match l0 with b1 :: b2 :: l2 => second3 b0 b1 && cont b2 && utf8 l2 | _ => false end
      else if lead4 b0 then
        match l0 with
        | b1 :: b2 :: b3 :: l3 => second4 b0 b1 && cont b2 && cont b3 && utf8 l3
        | _ => false
        end
      else false
  end.

(** ** Lemmas *)

(** Induction on the length of a list. *)
Lemma list_length_ind {A} (P : list A → Prop) :
  (∀ l, (∀ k, (length k < length l)%nat → P k) → P l) → ∀ l, P l.
Proof.
  intros H l. assert (∀ n (k : list A), (length k < n)%nat → P k) as Hn.
  { induction n as [|n IH]; intros k Hk; [lia|]. apply H. intros k' Hk'. apply IH. lia. }
  apply (Hn (S (length l))). lia.
Qed.

Ltac utf8_cases :=
  repeat first
    [match goal with
     | H : context [match ?l with [] => _ | _ :: _ => _ end] |- _ => is_var l; destruct l
     | |- context [match ?l with [] => _ | _ :: _ => _ end] => is_var l; destruct l
     end
    |match goal with
     | H : context [if ?b then _ else _] |- _ => destruct b eqn:?
     | |- context [if ?b then _ else _] => destruct b eqn:?
     end].

(** A valid string is received as it was sent. *)
Lemma from_utf8_lossy_valid l : utf8 l = true → from_utf8_lossy l = l.
Proof.
  induction l as [l IH] using list_length_ind. intros H.
  destruct l as [|b0 l0]; [done|]. simpl in H |- *.
  utf8_cases; try done; simpl in H; rewrite ?andb_true_iff in H; destruct_and?; try congruence;
    repeat f_equal; apply IH; simpl; try lia; done.
Qed.

Lemma utf8_replacement l : utf8 (replacement ++ l) = utf8 l.
Proof. done. Qed.

Lemma octets_utf8 l : utf8 l = true → octets l.
Proof.
  induction l as [l IH] using list_length_ind. intros H.
  destruct l as [|b0 l0]; [constructor|]. simpl in H.
  unfold lead2, lead3, lead4, second3, second4, cont in *.
  utf8_cases; try done; rewrite ?andb_true_iff, ?Z.leb_le, ?Z.ltb_lt, ?Z.eqb_eq in *;
    destruct_and?; repeat (constructor; [unfold octet; lia|]); apply IH; simpl; try lia; done.
Qed.

(** One step of [from_utf8_lossy], the rest left to [rec]. *)
Definition lossy_step (rec : list Z → list Z) (l : list Z) : list Z :=
  match l with
  | [] => []
  | b0 :: l0 =>
      if b0 <? 0x80 then b0 :: rec l0
      else if lead2 b0 then
        match l0 with
        | b1 :: l1 =>
            if cont b1 then b0 :: b1 :: rec l1
            else replacement ++ rec l0
        | [] => replacement
        end
      else if lead3 b0 then
        match l0 with
        | b1 :: l1 =>
            if second3 b0 b1 then
              match l1 with
              | b2 :: l2 =>
                  if cont b2 then b0 :: b1 :: b2 :: rec l2
                  else replacement ++ rec l1
              | [] => replacement
              end
            else replacement ++ rec l0
        | [] => replacement
        end
      else if lead4 b0 then
        match l0 with
        | b1 :: l1 =>
            if second4 b0 b1 then
              match l1 with
              | b2 :: l2 =>
                  if cont b2 then
                    match l2 with
                    | b3 :: l3 =>
                        if cont b3 then b0 :: b1 :: b2 :: b3 :: rec l3
                        else replacement ++ rec l2
                    | [] => replacement
                    end
                  else replacement ++ rec l1
              | [] => replacement
              end
            else replacement ++ rec l0
        | [] => replacement
        end
      else replacement ++ rec l0
  end.

Lemma from_utf8_lossy_eq l : from_utf8_lossy l = lossy_step from_utf8_lossy l.
Proof. by destruct l. Qed.

(** Whatever was received, the string is valid. *)
Lemma from_utf8_lossy_utf8 l : octets l → utf8 (from_utf8_lossy l) = true.
Proof.
  induction l as [l IH] using list_length_ind. intros Ho.
  destruct l as [|b0 l0]; [done|]. pose proof Ho as [Hb _]%octets_cons. unfold octet in Hb.
  assert (∀ pre k, b0 :: l0 = pre ++ k → pre ≠ [] → utf8 (from_utf8_lossy k) = true) as IH'.
  { intros pre k E Hne. rewrite E in *. apply octets_app in Ho as [_ Ho].
    apply IH; [|done]. rewrite length_app. destruct pre; [done|]. simpl. lia. }
  clear IH. rewrite from_utf8_lossy_eq. unfold lossy_step.
  destruct (b0 <? 0x80) eqn:E0.
  { simpl. rewrite E0, (proj2 (Z.leb_le 0 b0)) by lia. by apply (IH' [b0]). }
  destruct (lead2 b0) eqn:E2; [|destruct (lead3 b0) eqn:E3; [|destruct (lead4 b0) eqn:E4;
    [|rewrite utf8_replacement; by apply (IH' [b0])]]].
  - destruct l0 as [|b1 l1]; [done|]. destruct (cont b1) eqn:C1.
    + simpl. rewrite E0, E2, C1. by apply (IH' [b0; b1]).
    + rewrite utf8_replacement. by apply (IH' [b0]).
  - destruct l0 as [|b1 l1]; [done|]. destruct (second3 b0 b1) eqn:C1;
      [|rewrite utf8_replacement; by apply (IH' [b0])].
    destruct l1 as [|b2 l2]; [done|]. destruct (cont b2) eqn:C2.
    + simpl. rewrite E0, E2, E3, C1, C2. by apply (IH' [b0; b1; b2]).
    + rewrite utf8_replacement. by apply (IH' [b0; b1]).
  - destruct l0 as [|b1 l1]; [done|]. destruct (second4 b0 b1) eqn:C1;
      [|rewrite utf8_replacement; by apply (IH' [b0])].
    destruct l1 as [|b2 l2]; [done|]. destruct (cont b2) eqn:C2;
      [|rewrite utf8_replacement; by apply (IH' [b0; b1])].
    destruct l2 as [|b3 l3]; [done|]. destruct (cont b3) eqn:C3.
    + simpl. rewrite E0, E2, E3, E4, C1, C2, C3. by apply (IH' [b0; b1; b2; b3]).
    + rewrite utf8_replacement. by apply (IH' [b0; b1; b2]).
Qed.
