(* ===== verification/Text.v ===== *)
(** Text as the octets of its UTF-8 form: the operations of Rust's [str] the
    object references, item identifiers and configuration names are taken apart
    and put together with. *)

From Stdlib Require Import Ascii.
From stdpp Require Import strings.
From S2P Require Import Prelude.
Local Open Scope Z_scope.

(** The octets of an ASCII literal. *)
Definition txt (s : string) : list Z :=
  map (λ a, Z.of_nat (nat_of_ascii a)) (String.list_ascii_of_string s).

Abbreviation DOLLAR := 36.
Abbreviation DOT := 46.
Abbreviation SLASH := 47.

(** [s.split(c)] for a one-octet separator: never empty, [""] gives [[""]]. *)
Fixpoint split (c : Z) (s : list Z) : list (list Z) :=
  match s with
  | [] => [[]]
  | a :: s =>
      if decide (a = c) then [] :: split c s
      else match split c s with
        | [] => [[a]]
        | w :: ws => (a :: w) :: ws
        end
  end.

(** [parts.join(sep)]. *)
Fixpoint join (sep : list Z) (parts : list (list Z)) : list Z :=
  match parts with
  | [] => []
  | [w] => w
  | w :: ws => w ++ sep ++ join sep ws
  end.

(** [s.split_once(c)]. *)
Fixpoint split_once (c : Z) (s : list Z) : option (list Z * list Z) :=
  match s with
  | [] => None
  | a :: s =>
      if decide (a = c) then Some ([], s)
      else match split_once c s with
        | Some (l, r) => Some (a :: l, r)
        | None => None
        end
  end.

(** [s.rfind(c)] and the text before it. *)
Fixpoint before_last (c : Z) (s : list Z) : option (list Z) :=
  match s with
  | [] => None
  | a :: s =>
      match before_last c s with
      | Some l => Some (a :: l)
      | None => if decide (a = c) then Some [] else None
      end
  end.

Definition starts_with (p s : list Z) : bool := bool_decide (take (length p) s = p).
Definition ends_with (p s : list Z) : bool := bool_decide (drop (length s - length p) s = p).
Definition contains (c : Z) (s : list Z) : bool := bool_decide (c ∈ s).

Definition to_upper (a : Z) : Z := if decide (97 ≤ a ≤ 122) then a - 32 else a.
Definition to_ascii_uppercase (s : list Z) : list Z := map to_upper s.
Definition eq_ignore_ascii_case (s t : list Z) : bool :=
  bool_decide (to_ascii_uppercase s = to_ascii_uppercase t).

(** The characters of Unicode's White_Space, in UTF-8. *)
Definition white_space : list (list Z) :=
  [[9]; [10]; [11]; [12]; [13]; [32]; [0xc2; 0x85]; [0xc2; 0xa0]; [0xe1; 0x9a; 0x80];
   [0xe2; 0x80; 0x80]; [0xe2; 0x80; 0x81]; [0xe2; 0x80; 0x82]; [0xe2; 0x80; 0x83];
   [0xe2; 0x80; 0x84]; [0xe2; 0x80; 0x85]; [0xe2; 0x80; 0x86]; [0xe2; 0x80; 0x87];
   [0xe2; 0x80; 0x88]; [0xe2; 0x80; 0x89]; [0xe2; 0x80; 0x8a]; [0xe2; 0x80; 0xa8];
   [0xe2; 0x80; 0xa9]; [0xe2; 0x80; 0xaf]; [0xe2; 0x81; 0x9f]; [0xe3; 0x80; 0x80]].

(** Strips leading occurrences of the given prefixes, at most [fuel] of them. *)
Fixpoint strip (fuel : nat) (ws : list (list Z)) (s : list Z) : list Z :=
  match fuel with
  | O => s
  | S fuel =>
      match list_find (λ w, starts_with w s = true) ws with
      | Some (_, w) => strip fuel ws (drop (length w) s)
      | None => s
      end
  end.

(** [s.trim()]: a text has at most as many characters as octets. *)
Definition trim (s : list Z) : list Z :=
  let s := strip (length s) white_space s in
  reverse (strip (length s) (map reverse white_space) (reverse s)).

(** ** Splitting and joining *)

Lemma split_not_nil c s : split c s ≠ [].
Proof. destruct s as [|a s]; simpl; [done|]. case_decide; [done|]. by destruct (split c s). Qed.

Lemma split_no_sep c s : c ∉ s → split c s = [s].
Proof.
  induction s as [|a s IH]; [done|]. intros Ha. apply not_elem_of_cons in Ha as [Hc Hs]. simpl.
  rewrite decide_False by done. by rewrite IH.
Qed.

Lemma split_app c w s : c ∉ w → split c (w ++ c :: s) = w :: split c s.
Proof.
  induction w as [|a w IH]; intros Hw; simpl; [by rewrite decide_True|].
  apply not_elem_of_cons in Hw as [Hc Hw].
  rewrite decide_False by done. by rewrite IH.
Qed.

Lemma split_join c ws : ws ≠ [] → Forall (λ w, c ∉ w) ws → split c (join [c] ws) = ws.
Proof.
  intros Hne Hws. induction Hws as [|w ws Hw Hws IH]; [done|].
  destruct ws as [|w' ws]; [by apply split_no_sep|].
  change (join [c] (w :: w' :: ws)) with (w ++ c :: join [c] (w' :: ws)).
  by rewrite split_app, IH.
Qed.

Lemma join_split c s : join [c] (split c s) = s.
Proof.
  induction s as [|a s IH]; [done|]. simpl. pose proof (split_not_nil c s) as Hne.
  destruct (split c s) as [|w ws]; [done|]. case_decide as Hc.
  - rewrite Hc. change (join [c] ([] :: w :: ws)) with (c :: join [c] (w :: ws)). by rewrite IH.
  - destruct ws; simpl in *; by rewrite <-IH.
Qed.

Lemma split_parts c s : Forall (λ w, c ∉ w) (split c s).
Proof.
  induction s as [|a s IH]; simpl; [repeat constructor; set_solver|].
  case_decide; [constructor; [set_solver|done]|].
  destruct IH as [|w ws Hw Hws]; constructor; [set_solver|constructor|set_solver|done].
Qed.

Lemma split_subset c s w : w ∈ split c s → ∀ a, a ∈ w → a ∈ s.
Proof.
  revert w. induction s as [|b s IH]; simpl; intros w Hw a Ha.
  { apply list_elem_of_singleton in Hw as ->. by apply not_elem_of_nil in Ha. }
  case_decide.
  - apply elem_of_cons in Hw as [->|Hw]; [by apply not_elem_of_nil in Ha|]. right. by eapply IH.
  - pose proof (split_not_nil c s) as Hne. destruct (split c s) as [|w' ws]; [done|].
    apply elem_of_cons in Hw as [->|Hw].
    + apply elem_of_cons in Ha as [->|Ha]; [by left|]. right. eapply IH; [by left|done].
    + right. eapply IH; [by right|done].
Qed.

Lemma split_once_app c l r : c ∉ l → split_once c (l ++ c :: r) = Some (l, r).
Proof.
  induction l as [|a l IH]; intros Hl; simpl; [by rewrite decide_True|].
  apply not_elem_of_cons in Hl as [? ?]. rewrite decide_False by done. by rewrite IH.
Qed.

Lemma split_once_Some c s l r : split_once c s = Some (l, r) → s = l ++ c :: r ∧ c ∉ l.
Proof.
  revert l r. induction s as [|a s IH]; intros l r; simpl; [done|].
  case_decide as Hc; [intros [= <- <-]; subst; set_solver|].
  destruct (split_once c s) as [[l' r']|]; [|done]. intros [= <- <-].
  destruct (IH l' r') as [-> ?]; [done|]. set_solver.
Qed.

Lemma split_once_None c s : split_once c s = None ↔ c ∉ s.
Proof.
  split.
  - intros H Hin. apply list_elem_of_split in Hin as (l & r & ->). revert H.
    induction l as [|a l IH]; simpl; [by rewrite decide_True|].
    case_decide; [done|]. destruct (split_once c (l ++ c :: r)) as [[]|]; [done|by intros ?%IH].
  - induction s as [|a s IH]; [done|]. intros [? ?]%not_elem_of_cons. simpl.
    rewrite decide_False by done. by rewrite IH.
Qed.

Lemma starts_with_iff p s : starts_with p s = true ↔ p `prefix_of` s.
Proof.
  unfold starts_with. rewrite bool_decide_eq_true. split.
  - intros H. exists (drop (length p) s). by rewrite <-H at 1; rewrite take_drop.
  - intros [k ->]. apply take_app_length.
Qed.

Lemma before_last_app c l r : c ∉ r → before_last c (l ++ c :: r) = Some l.
Proof.
  intros Hr. assert (before_last c r = None) as Hn.
  { induction r as [|a r IH]; [done|]. apply not_elem_of_cons in Hr as [? ?]. simpl.
    rewrite IH by done. by rewrite decide_False. }
  induction l as [|a l IH]; simpl; [by rewrite Hn, decide_True|]. by rewrite IH.
Qed.
