(* ===== verification/Errors.v ===== *)
(** The error types of the OSI stack and the MMS layer
    (src/src/osi/mod.rs, src/src/mms/errors.rs). *)

From stdpp Require Import pretty.
From Stdlib Require Import Ascii.
From S2P Require Import Prelude Ber BerDecoder.
Local Open Scope string_scope.
Local Open Scope list_scope.
Local Open Scope Z_scope.

(** Lower-case hexadecimal: [{:02x}] of a [u8] and [{:#06x}] of a [u16]. *)
Definition hex_digit (d : Z) : string :=
  if decide (d < 10) then String (ascii_of_nat (Z.to_nat (48 + d))) ""
  else String (ascii_of_nat (Z.to_nat (87 + d))) "".
Definition hex8 (n : Z) : string := hex_digit (n / 16 mod 16) +:+ hex_digit (n mod 16).
Definition hex16 (n : Z) : string := "0x" +:+ hex8 (n / 256) +:+ hex8 n.

(** What the code distinguishes of a [std::io::Error]: the end of the stream
    inside a [read_exact], and anything else, with its message. *)
Inductive IoError :=
| UnexpectedEof
| OtherIo (msg : string).

Inductive OsiError :=
| OsiIo (e : IoError)
| OsiAsn1 (e : Asn1Error)
| OsiTpkt (msg : string)
| OsiCotp (msg : string)
| OsiSession (msg : string)
| OsiPresentation (msg : string)
| OsiAcse (msg : string)
| OsiClosed
| OsiRefused (reason : Z) (user_data : list Z)
| OsiAborted (user_data : list Z).

Inductive DataAccessError :=
| ObjectInvalidated
| HardwareFault
| TemporarilyUnavailable
| ObjectAccessDenied
| ObjectUndefined
| InvalidAddress
| TypeUnsupported
| TypeInconsistent
| ObjectAttributeInconsistent
| ObjectAccessUnsupported
| ObjectNonExistent
| ObjectValueInvalid
| Other (n : Z).

#[export] Instance DataAccessError_eq_dec : EqDecision DataAccessError.
Proof. solve_decision. Defined.

Definition DataAccessError_code (e : DataAccessError) : Z :=
  match e with
  | ObjectInvalidated => 0
  | HardwareFault => 1
  | TemporarilyUnavailable => 2
  | ObjectAccessDenied => 3
  | ObjectUndefined => 4
  | InvalidAddress => 5
  | TypeUnsupported => 6
  | TypeInconsistent => 7
  | ObjectAttributeInconsistent => 8
  | ObjectAccessUnsupported => 9
  | ObjectNonExistent => 10
  | ObjectValueInvalid => 11
  | Other n => n
  end.

Definition DataAccessError_from_code (code : Z) : DataAccessError :=
  match code with
  | 0 => ObjectInvalidated
  | 1 => HardwareFault
  | 2 => TemporarilyUnavailable
  | 3 => ObjectAccessDenied
  | 4 => ObjectUndefined
  | 5 => InvalidAddress
  | 6 => TypeUnsupported
  | 7 => TypeInconsistent
  | 8 => ObjectAttributeInconsistent
  | 9 => ObjectAccessUnsupported
  | 10 => ObjectNonExistent
  | 11 => ObjectValueInvalid
  | n => Other n
  end.

(** [ErrorClass] is its number. *)
Record ServiceError := mkServiceError {
  se_class : Z;
  se_code : Z;
  se_rejected : bool;
  se_detail : string;
}.

Inductive MmsError :=
| MmsService (e : ServiceError)
| MmsAccess (e : DataAccessError)
| MmsAsn1 (e : Asn1Error)
| MmsOsi (e : OsiError)
| MmsIo (e : IoError)
| MmsProtocol (msg : string)
| MmsRejected (diagnostic : Z)
| MmsAborted (msg : string)
| MmsAssociationRejected (msg : string)
| MmsAuthenticationRequired
| MmsNotDeleted
| MmsClosed
| MmsTimeout
| MmsReportQueueFull.

(** ** The messages ([Display]) *)

Definition Tag_display (t : Tag) : string :=
  let class := match tag_class t with
    | Universal => "UNIVERSAL"
    | Application => "APPLICATION"
    | ContextSpecific => "CONTEXT"
    | Private => "PRIVATE"
    end in
  let pc := if tag_constructed t then "constructed" else "primitive" in
  "[" +:+ class +:+ " " +:+ pretty (tag_number t) +:+ " " +:+ pc +:+ "]".

Definition Asn1Error_display (e : Asn1Error) : string :=
  match e with
  | Truncated what offset =>
      "asn1: truncated element while " +:+ what +:+ " at offset " +:+ pretty offset
  | BadTag what offset => "asn1: malformed tag (" +:+ what +:+ ") at offset " +:+ pretty offset
  | BadLength what offset => "asn1: malformed length (" +:+ what +:+ ") at offset " +:+ pretty offset
  | TooDeep offset => "asn1: nesting too deep at offset " +:+ pretty offset
  | Unexpected expected got offset =>
      "asn1: expected " +:+ Tag_display expected +:+ ", got " +:+ Tag_display got +:+
      " at offset " +:+ pretty offset
  | BadValue what => "asn1: malformed value (" +:+ what +:+ ")"
  end.

Definition IoError_display (e : IoError) : string :=
  match e with UnexpectedEof => "early eof" | OtherIo msg => msg end.

Definition OsiError_display (e : OsiError) : string :=
  match e with
  | OsiIo e => "io: " +:+ IoError_display e
  | OsiAsn1 e => "asn1: " +:+ Asn1Error_display e
  | OsiTpkt msg => "tpkt: " +:+ msg
  | OsiCotp msg => "cotp: " +:+ msg
  | OsiSession msg => "session: " +:+ msg
  | OsiPresentation msg => "presentation: " +:+ msg
  | OsiAcse msg => "acse: " +:+ msg
  | OsiClosed => "association closed by peer"
  | OsiRefused reason _ => "session: connection refused (reason " +:+ pretty reason +:+ ")"
  | OsiAborted _ => "session: connection aborted by the peer"
  end.

Definition DataAccessError_display (e : DataAccessError) : string :=
  match e with
  | ObjectInvalidated => "object-invalidated"
  | HardwareFault => "hardware-fault"
  | TemporarilyUnavailable => "temporarily-unavailable"
  | ObjectAccessDenied => "object-access-denied"
  | ObjectUndefined => "object-undefined"
  | InvalidAddress => "invalid-address"
  | TypeUnsupported => "type-unsupported"
  | TypeInconsistent => "type-inconsistent"
  | ObjectAttributeInconsistent => "object-attribute-inconsistent"
  | ObjectAccessUnsupported => "object-access-unsupported"
  | ObjectNonExistent => "object-non-existent"
  | ObjectValueInvalid => "object-value-invalid"
  | Other n => "data-access-error(" +:+ pretty n +:+ ")"
  end.

Definition ErrorClass_names : list string :=
  ["vmd-state"; "application-reference"; "definition"; "resource"; "service"; "service-preempt";
   "time-resolution"; "access"; "initiate"; "conclude"; "cancel"; "file"; "others"].

Definition ErrorClass_display (class : Z) : string :=
  default "unknown" (ErrorClass_names !! Z.to_nat class).

Definition reject_category (category : Z) : string :=
  match category with
  | 1 => "confirmed-requestPDU"
  | 2 => "confirmed-responsePDU"
  | 3 => "confirmed-errorPDU"
  | 4 => "unconfirmedPDU"
  | 5 => "pdu-error"
  | 6 => "cancel-requestPDU"
  | 7 => "cancel-responsePDU"
  | 8 => "cancel-errorPDU"
  | 9 => "conclude-requestPDU"
  | 10 => "conclude-responsePDU"
  | 11 => "conclude-errorPDU"
  | _ => "unknown"
  end.

Definition ServiceError_display (e : ServiceError) : string :=
  (if se_rejected e then
     "mms: service reject: " +:+ reject_category (se_class e) +:+ "(" +:+ pretty (se_code e) +:+ ")"
   else
     "mms: service error: " +:+ ErrorClass_display (se_class e) +:+ "(" +:+ pretty (se_code e) +:+ ")")
  +:+ (if decide (se_detail e = "") then "" else ": " +:+ se_detail e).

(** The ACSE diagnostics of src/src/osi/acse.rs. *)
Definition DIAG_AUTHENTICATION_FAILURE : Z := 13.
Definition DIAG_AUTHENTICATION_REQUIRED : Z := 14.

Definition rejected_reason (diagnostic : Z) : string :=
  if decide (diagnostic = DIAG_AUTHENTICATION_FAILURE) then ": authentication failure"
  else if decide (diagnostic = DIAG_AUTHENTICATION_REQUIRED) then ": authentication required"
  else " (diagnostic " +:+ pretty diagnostic +:+ ")".

Definition MmsError_display (e : MmsError) : string :=
  match e with
  | MmsService e => ServiceError_display e
  | MmsAccess e => "mms: " +:+ DataAccessError_display e
  | MmsAsn1 e => Asn1Error_display e
  | MmsOsi e => OsiError_display e
  | MmsIo e => "io: " +:+ IoError_display e
  | MmsProtocol msg => "mms: " +:+ msg
  | MmsRejected d => "mms: association rejected" +:+ rejected_reason d
  | MmsAborted msg => "mms: association aborted" +:+ msg
  | MmsAssociationRejected msg => "mms: association rejected: " +:+ msg
  | MmsAuthenticationRequired => "mms: authentication required"
  | MmsNotDeleted => "mms: named variable list exists but was not deleted"
  | MmsClosed => "mms: connection closed"
  | MmsTimeout => "mms: request timed out"
  | MmsReportQueueFull => "mms: unconfirmed queue full"
  end.

(** A code outside the named ones is [Other], and only then. *)
Definition dae_wf (e : DataAccessError) : Prop :=
  match e with Other n => 12 ≤ n < 256 | _ => True end.

#[export] Instance dae_wf_dec e : Decision (dae_wf e).
Proof. destruct e; apply _. Defined.

Lemma dae_code_octet e : dae_wf e → octet (DataAccessError_code e).
Proof. unfold octet. destruct e; simpl; lia. Qed.

Lemma dae_from_code_code e : dae_wf e → DataAccessError_from_code (DataAccessError_code e) = e.
Proof.
  destruct e as [| | | | | | | | | | | |n]; try done. simpl. intros Hn.
  cut (bool_decide (DataAccessError_from_code n = Other n) || bool_decide (n < 12) = true).
  { intros [?%bool_decide_eq_true|?%bool_decide_eq_true]%orb_prop; [done|lia]. }
  by_range 256%nat n.
Qed.

Lemma dae_code_from_code n : octet n → DataAccessError_code (DataAccessError_from_code n) = n.
Proof. unfold octet. intros. by_range 256%nat n. Qed.
