(* ===== verification/MmsValue.v ===== *)
(** MMS data values: the [Value] of src/src/mms/value.rs with its
    constructors, accessors, time conversions and equality. *)

From stdpp Require Import pretty.
From S2P Require Import Prelude Ber BerDecoder Float BerPrim TimeUtil Errors.
Local Open Scope string_scope.
Local Open Scope list_scope.
Local Open Scope Z_scope.

(** ** Definitions *)

Inductive Type_ :=
| TNone
| TArray
| TStructure
| TBoolean
| TBitString
| TInteger
| TUnsigned
| TFloat32
| TFloat64
| TOctetString
| TVisibleString
| TGeneralizedTime
| TBinaryTime
| TMmsString
| TUtcTime
| TDataAccessError.

#[export] Instance Type__eq_dec : EqDecision Type_.
Proof. solve_decision. Defined.

(** [TimeQuality] is its octet. *)
Definition LEAP_SECONDS_KNOWN : Z := 0x80.
Definition CLOCK_FAILURE : Z := 0x40.
Definition CLOCK_NOT_SYNCHRONIZED : Z := 0x20.
Definition ACCURACY_UNSPECIFIED : Z := 0x1f.
Definition TimeQuality_DEFAULT : Z := Z.lor 0x80 10.
Definition TimeQuality_accuracy (n : Z) : Z := Z.lor LEAP_SECONDS_KNOWN (Z.min n 24).
Definition TimeQuality_accuracy_bits (q : Z) : Z := Z.land q 0x1f.
Definition TimeQuality_has (q flag : Z) : bool := bool_decide (Z.land q flag ≠ 0).

(** Floats are their bit patterns, strings their octets. *)
Inductive Value :=
| VNone
| VArray (elements : list Value)
| VStructure (members : list Value)
| VBoolean (b : bool)
| VBitString (bs : BitString)
| VInteger (n : Z)
| VUnsigned (n : Z)
| VFloat32 (f : Z)
| VFloat64 (f : Z)
| VOctetString (b : list Z)
| VVisibleString (b : list Z)
| VGeneralizedTime (b : list Z)
| VBinaryTime (b : list Z)
| VMmsString (b : list Z)
| VUtcTime (b : list Z)
| VDataAccessError (e : DataAccessError).

(** *** Constructors *)

Definition Value_bit_string (length : Z) : Value := VBitString (BitString_new length).
Definition Value_bit_string_bits (bits : list Z) (length : Z) : Value :=
  VBitString (mkBitString bits length).

Definition utc_time_parts (secs nanos q : Z) : Value :=
  let frac := u32 (Z.shiftl nanos 24 / 1000000000) in
  let s := u32 secs in
  VUtcTime
    [u8 (Z.shiftr s 24); u8 (Z.shiftr s 16); u8 (Z.shiftr s 8); u8 s;
     u8 (Z.shiftr frac 16); u8 (Z.shiftr frac 8); u8 frac; q].

Definition utc_time (t q : Z) : Value :=
  let '(secs, nanos) := unix_parts t in
  utc_time_parts secs nanos q.

Definition utc_time_raw (b : list Z) : outcome MmsError Value :=
  if decide (zlen b = 8) then Ok (VUtcTime b)
  else Err (MmsProtocol ("UtcTime needs 8 octets, got " +:+ pretty (zlen b))).

Definition binary_time (t : Z) : Value :=
  let '(secs, nanos) := unix_parts t in
  let days_since_epoch := secs / 86400 in
  let ms := u32 (secs mod 86400 * 1000 + nanos / 1000000) in
  let days := u16 (Z.max (days_since_epoch - BINARY_TIME_EPOCH_DAYS) 0) in
  VBinaryTime
    [u8 (Z.shiftr ms 24); u8 (Z.shiftr ms 16); u8 (Z.shiftr ms 8); u8 ms;
     u8 (Z.shiftr days 8); u8 days].

Definition binary_time_raw (b : list Z) : outcome MmsError Value :=
  if decide (zlen b ≠ 4 ∧ zlen b ≠ 6) then
    Err (MmsProtocol ("TimeOfDay of " +:+ pretty (zlen b) +:+ " octets, want 4 or 6"))
  else Ok (VBinaryTime b).

Definition access_error (code : DataAccessError) : Value := VDataAccessError code.

(** *** Accessors *)

Definition type_of (v : Value) : Type_ :=
  match v with
  | VNone => TNone
  | VArray _ => TArray
  | VStructure _ => TStructure
  | VBoolean _ => TBoolean
  | VBitString _ => TBitString
  | VInteger _ => TInteger
  | VUnsigned _ => TUnsigned
  | VFloat32 _ => TFloat32
  | VFloat64 _ => TFloat64
  | VOctetString _ => TOctetString
  | VVisibleString _ => TVisibleString
  | VGeneralizedTime _ => TGeneralizedTime
  | VBinaryTime _ => TBinaryTime
  | VMmsString _ => TMmsString
  | VUtcTime _ => TUtcTime
  | VDataAccessError _ => TDataAccessError
  end.

Definition as_bool (v : Value) : bool :=
  match v with VBoolean true => true | _ => false end.

Definition as_i64 (v : Value) : Z :=
  match v with
  | VInteger n => n
  | VUnsigned n => swrap 64 n
  | VBoolean b => Z.b2z b
  | VFloat32 f => f32_to_i64 f
  | VFloat64 f => f64_to_i64 f
  | _ => 0
  end.

Definition as_i32 (v : Value) : Z := swrap 32 (as_i64 v).

Definition as_u64 (v : Value) : Z :=
  match v with
  | VUnsigned n => n
  | _ => u64 (as_i64 v)
  end.

Definition as_u32 (v : Value) : Z := u32 (as_u64 v).

Definition as_f64 (v : Value) : Z :=
  match v with
  | VFloat32 f => f32_to_f64 f
  | VFloat64 f => f
  | VInteger n => int_to_f64 n
  | VUnsigned n => int_to_f64 n
  | _ => 0
  end.

Definition as_f32 (v : Value) : Z := f64_to_f32 (as_f64 v).

Definition Value_bytes (v : Value) : list Z :=
  match v with
  | VBitString bs => bs_bits bs
  | VOctetString b | VVisibleString b | VGeneralizedTime b | VBinaryTime b | VMmsString b => b
  | VUtcTime b => b
  | _ => []
  end.

Definition bit_len (v : Value) : Z :=
  match v with VBitString bs => bs_length bs | _ => 0 end.

Definition Value_bit {E} (v : Value) (i : Z) : outcome E bool :=
  match v with VBitString bs => BitString_bit bs i | _ => Ok false end.

Definition Value_set_bit {E} (v : Value) (i : Z) (on : bool) : outcome E Value :=
  match v with
  | VBitString bs => bs ← BitString_set_bit bs i on; Ok (VBitString bs)
  | _ => Ok v
  end.

Definition children (v : Value) : list Value :=
  match v with VArray c | VStructure c => c | _ => [] end.

Definition Value_len (v : Value) : Z := zlen (children v).
Definition Value_is_empty (v : Value) : bool := bool_decide (Value_len v = 0).
Definition Value_index (v : Value) (i : Z) : option Value := children v !! Z.to_nat i.

(** [set_index]: [index_mut] and the assignment; [list_insert] leaves the list
    as it is out of range, as the source does. *)
Definition set_index (v : Value) (i : Z) (c : Value) : Value :=
  match v with
  | VArray cs => VArray (<[Z.to_nat i := c]> cs)
  | VStructure cs => VStructure (<[Z.to_nat i := c]> cs)
  | _ => v
  end.

Definition as_access_error (v : Value) : option DataAccessError :=
  match v with VDataAccessError e => Some e | _ => None end.

(** [Value::time]. The octets of a [UtcTime] are an array of eight in the
    source; a list of another length, which [utc_time_raw] refuses, has no time. *)
Definition Value_time (v : Value) : option Z :=
  match v with
  | VUtcTime [b0; b1; b2; b3; b4; b5; b6; _] =>
      let secs := from_be [b0; b1; b2; b3] in
      let frac := Z.lor (Z.lor (Z.shiftl b4 16) (Z.shiftl b5 8)) b6 in
      let nanos := u32 (Z.shiftr (frac * 1000000000) 24) in
      Some (from_unix secs nanos)
  | VBinaryTime [b0; b1; b2; b3] =>
      let ms := from_be [b0; b1; b2; b3] in
      Some (from_unix ((BINARY_TIME_EPOCH_DAYS + 0) * 86400 + ms / 1000) (ms mod 1000 * 1000000))
  | VBinaryTime [b0; b1; b2; b3; b4; b5] =>
      let ms := from_be [b0; b1; b2; b3] in
      let days := from_be [b4; b5] in
      Some (from_unix ((BINARY_TIME_EPOCH_DAYS + days) * 86400 + ms / 1000) (ms mod 1000 * 1000000))
  | _ => None
  end.

Definition time_quality (v : Value) : Z :=
  match v with VUtcTime b => default 0 (b !! 7%nat) | _ => 0 end.

(** *** Equality ([PartialEq]) *)

Fixpoint Value_eq (v w : Value) : bool :=
  match v, w with
  | VNone, VNone => true
  | VArray a, VArray b | VStructure a, VStructure b =>
      (fix go (a b : list Value) : bool :=
         match a, b with
         | [], [] => true
         | x :: a, y :: b => Value_eq x y && go a b
         | _, _ => false
         end) a b
  | VBoolean a, VBoolean b => bool_decide (a = b)
  | VBitString a, VBitString b => bool_decide (a = b)
  | VInteger a, VInteger b => bool_decide (a = b)
  | VUnsigned a, VUnsigned b => bool_decide (a = b)
  | VFloat32 a, VFloat32 b => f32_eq a b || (f32_is_nan a && f32_is_nan b)
  | VFloat64 a, VFloat64 b => f64_eq a b || (f64_is_nan a && f64_is_nan b)
  | VOctetString a, VOctetString b
  | VVisibleString a, VVisibleString b
  | VGeneralizedTime a, VGeneralizedTime b
  | VBinaryTime a, VBinaryTime b
  | VMmsString a, VMmsString b
  | VUtcTime a, VUtcTime b => bool_decide (a = b)
  | VDataAccessError a, VDataAccessError b => bool_decide (a = b)
  | _, _ => false
  end.

(** The comparison of the elements, as [Vec]'s [PartialEq] does it. *)
Fixpoint Values_eq (a b : list Value) : bool :=
  match a, b with
  | [], [] => true
  | x :: a, y :: b => Value_eq x y && Values_eq a b
  | _, _ => false
  end.

(** ** Equality *)

Lemma Value_eq_array a b : Value_eq (VArray a) (VArray b) = Values_eq a b.
Proof. done. Qed.

Lemma Value_eq_structure a b : Value_eq (VStructure a) (VStructure b) = Values_eq a b.
Proof. done. Qed.

Definition scalar (v : Value) : Prop :=
  match v with VArray _ | VStructure _ => False | _ => True end.

(** Induction over a value and its children. *)
Lemma Value_ind' (P : Value → Prop) :
  (∀ cs, Forall P cs → P (VArray cs)) →
  (∀ cs, Forall P cs → P (VStructure cs)) →
  (∀ v, scalar v → P v) →
  ∀ v, P v.
Proof.
  intros HA HS H0. fix IH 1. intros v. destruct v as [|cs|cs| | | | | | | | | | | | |];
    try (apply H0; exact I); [apply HA|apply HS]; induction cs; constructor; auto.
Qed.

Lemma Values_eq_Forall2 a b : Values_eq a b = true ↔ Forall2 (λ x y, Value_eq x y = true) a b.
Proof.
  revert b. induction a as [|x a IH]; intros [|y b]; simpl.
  - by split.
  - split; [done|by inversion 1].
  - split; [done|by inversion 1].
  - rewrite andb_true_iff, IH, Forall2_cons. done.
Qed.

Lemma f32_eq_refl_nan a : f32_eq a a || (f32_is_nan a && f32_is_nan a) = true.
Proof. unfold f32_eq. rewrite Z.eqb_refl. by destruct (f32_is_nan a). Qed.

Lemma f64_eq_refl_nan a : f64_eq a a || (f64_is_nan a && f64_is_nan a) = true.
Proof. unfold f64_eq. rewrite Z.eqb_refl. by destruct (f64_is_nan a). Qed.

Lemma Value_eq_refl v : Value_eq v v = true.
Proof.
  induction v as [cs IH|cs IH|v Hv] using Value_ind'.
  - rewrite Value_eq_array, Values_eq_Forall2. by induction IH; constructor.
  - rewrite Value_eq_structure, Values_eq_Forall2. by induction IH; constructor.
  - destruct v; simpl in *; try done; try apply bool_decide_eq_true_2; try done.
    + apply f32_eq_refl_nan.
    + apply f64_eq_refl_nan.
Qed.

(** Equality on a family that the comparison below treats as one class. *)
Lemma f32_eq_or_nan_trans a b c :
  f32_eq a b || (f32_is_nan a && f32_is_nan b) = true →
  f32_eq b c || (f32_is_nan b && f32_is_nan c) = true →
  f32_eq a c || (f32_is_nan a && f32_is_nan c) = true.
Proof.
  unfold f32_eq. destruct (f32_is_nan a), (f32_is_nan b), (f32_is_nan c); simpl; try done.
  rewrite !orb_false_r, !orb_true_iff, !andb_true_iff, !Z.eqb_eq. intuition congruence.
Qed.

Lemma f64_eq_or_nan_trans a b c :
  f64_eq a b || (f64_is_nan a && f64_is_nan b) = true →
  f64_eq b c || (f64_is_nan b && f64_is_nan c) = true →
  f64_eq a c || (f64_is_nan a && f64_is_nan c) = true.
Proof.
  unfold f64_eq. destruct (f64_is_nan a), (f64_is_nan b), (f64_is_nan c); simpl; try done.
  rewrite !orb_false_r, !orb_true_iff, !andb_true_iff, !Z.eqb_eq. intuition congruence.
Qed.

Lemma f32_eq_or_nan_sym a b :
  f32_eq a b || (f32_is_nan a && f32_is_nan b) = f32_eq b a || (f32_is_nan b && f32_is_nan a).
Proof.
  unfold f32_eq. rewrite (Z.eqb_sym b a).
  destruct (f32_is_nan a), (f32_is_nan b); simpl; try done.
  f_equal. f_equal. apply andb_comm.
Qed.

Lemma f64_eq_or_nan_sym a b :
  f64_eq a b || (f64_is_nan a && f64_is_nan b) = f64_eq b a || (f64_is_nan b && f64_is_nan a).
Proof.
  unfold f64_eq. rewrite (Z.eqb_sym b a).
  destruct (f64_is_nan a), (f64_is_nan b); simpl; try done.
  f_equal. f_equal. apply andb_comm.
Qed.

Lemma Values_eq_sym cs ds :
  Forall (λ v, ∀ w, Value_eq v w = true → Value_eq w v = true) cs →
  Values_eq cs ds = true → Values_eq ds cs = true.
Proof.
  rewrite !Values_eq_Forall2. intros H. revert ds.
  induction H as [|v cs Hv Hcs IH]; intros ds Hd; inversion Hd; subst; constructor; auto.
Qed.

Lemma Values_eq_trans cs ds es :
  Forall (λ v, ∀ w x, Value_eq v w = true → Value_eq w x = true → Value_eq v x = true) cs →
  Values_eq cs ds = true → Values_eq ds es = true → Values_eq cs es = true.
Proof.
  rewrite !Values_eq_Forall2. intros H. revert ds es.
  induction H as [|v cs Hv Hcs IH]; intros ds es Hd He; inversion Hd; subst;
    inversion He; subst; constructor; eauto.
Qed.

Lemma Value_eq_sym v w : Value_eq v w = true → Value_eq w v = true.
Proof.
  revert w. induction v as [cs IH|cs IH|v Hv] using Value_ind'; intros w.
  - destruct w; try done. rewrite !Value_eq_array. by apply Values_eq_sym.
  - destruct w; try done. rewrite !Value_eq_structure. by apply Values_eq_sym.
  - destruct v, w; simpl in Hv; try done; simpl;
      rewrite ?bool_decide_eq_true; try done;
      try (by rewrite f32_eq_or_nan_sym); try (by rewrite f64_eq_or_nan_sym).
Qed.

Lemma Value_eq_trans v w x : Value_eq v w = true → Value_eq w x = true → Value_eq v x = true.
Proof.
  revert w x. induction v as [cs IH|cs IH|v Hv] using Value_ind'; intros w x.
  - destruct w; try done. destruct x; try done. rewrite !Value_eq_array. by apply Values_eq_trans.
  - destruct w; try done. destruct x; try done. rewrite !Value_eq_structure. by apply Values_eq_trans.
  - destruct v, w; simpl in Hv; try done; destruct x; try done; simpl;
      rewrite ?bool_decide_eq_true; try congruence;
      try apply f32_eq_or_nan_trans; try apply f64_eq_or_nan_trans.
Qed.

#[export] Instance Value_eq_equivalence : Equivalence (λ v w, Value_eq v w = true).
Proof.
  split; [exact Value_eq_refl|exact Value_eq_sym|exact Value_eq_trans].
Qed.

(** ** Times *)

Lemma be_octets_24 n :
  0 ≤ n < 2 ^ 24 →
  Z.lor (Z.lor (Z.shiftl (u8 (Z.shiftr n 16)) 16) (Z.shiftl (u8 (Z.shiftr n 8)) 8)) (u8 n) = n.
Proof.
  intros Hn. rewrite (shiftr_div n 16 65536), (shiftr_div n 8 256) by done.
  unfold u8, wrap. change (2 ^ 8) with 256.
  change 16 with (8 + 8). rewrite <-Z.shiftl_shiftl, <-Z.shiftl_lor by lia.
  rewrite lor_shiftl_add by dlia. rewrite lor_shiftl_add by dlia. dlia.
Qed.

Lemma be_octets_32 n :
  0 ≤ n < 2 ^ 32 →
  from_be [u8 (Z.shiftr n 24); u8 (Z.shiftr n 16); u8 (Z.shiftr n 8); u8 n] = n.
Proof.
  intros Hn. rewrite (shiftr_div n 24 16777216), (shiftr_div n 16 65536), (shiftr_div n 8 256) by done.
  unfold from_be, u8, wrap. simpl. dlia.
Qed.

Lemma be_octets_16 n : 0 ≤ n < 2 ^ 16 → from_be [u8 (Z.shiftr n 8); u8 n] = n.
Proof.
  intros Hn. rewrite (shiftr_div n 8 256) by done. unfold from_be, u8, wrap. simpl. dlia.
Qed.

(** The fraction written for a nanosecond count, and the count read from it. *)
Definition frac_of_nanos (nanos : Z) : Z := nanos * 2 ^ 24 / 1000000000.
Definition nanos_of_frac (frac : Z) : Z := frac * 1000000000 / 2 ^ 24.

Lemma utc_time_parts_fields secs nanos q :
  0 ≤ secs < 2 ^ 32 → 0 ≤ nanos < NANOS_PER_SEC →
  Value_time (utc_time_parts secs nanos q) =
    Some (secs * NANOS_PER_SEC + nanos_of_frac (frac_of_nanos nanos)) ∧
  time_quality (utc_time_parts secs nanos q) = q.
Proof.
  unfold NANOS_PER_SEC. intros Hs Hn. split; [|done]. unfold utc_time_parts, Value_time.
  unfold u32. rewrite (wrap_id 32 secs) by done.
  rewrite (Z.shiftl_mul_pow2 nanos) by lia. fold (frac_of_nanos nanos).
  assert (0 ≤ frac_of_nanos nanos < 2 ^ 24) as Hf by (unfold frac_of_nanos; dlia).
  rewrite (wrap_id 32 (frac_of_nanos nanos)) by (unfold in_u; lia).
  rewrite be_octets_32, be_octets_24 by done.
  rewrite Z.shiftr_div_pow2 by lia. fold (nanos_of_frac (frac_of_nanos nanos)).
  rewrite wrap_id.
  - f_equal. rewrite from_unix_eq. unfold NANOS_PER_SEC. lia.
  - unfold in_u, nanos_of_frac. dlia.
Qed.

Lemma utc_time_close t q :
  0 ≤ t < 2 ^ 32 * NANOS_PER_SEC →
  ∃ t', Value_time (utc_time t q) = Some t' ∧ t - 60 ≤ t' ≤ t ∧
    t' / NANOS_PER_SEC = t / NANOS_PER_SEC ∧ time_quality (utc_time t q) = q.
Proof.
  intros Ht. unfold utc_time. rewrite unix_parts_eq.
  2: { unfold time_wf, NANOS_PER_SEC in *. dlia. }
  unfold NANOS_PER_SEC in *.
  destruct (utc_time_parts_fields (t / 1000000000) (t mod 1000000000) q) as [-> ->];
    [dlia|unfold NANOS_PER_SEC; dlia|].
  eexists. split; [done|]. unfold nanos_of_frac, frac_of_nanos, NANOS_PER_SEC.
  set (n := t mod 1000000000). assert (0 ≤ n < 1000000000) as Hn by (apply Z.mod_pos_bound; done).
  assert (t = t / 1000000000 * 1000000000 + n) as Et by (subst n; dlia).
  set (n' := n * 2 ^ 24 / 1000000000 * 1000000000 / 2 ^ 24).
  assert (n - 60 ≤ n' ≤ n ∧ 0 ≤ n') as Hn' by (subst n'; clear Et; clearbody n; dlia).
  clearbody n n'. split_and!; [lia..| |done].
  rewrite Z.div_add_l, (Z.div_small n') by lia. lia.
Qed.

(** A time read back from a [UtcTime] value is the time it was made of, to
    the resolution of the 24-bit fraction. For every instant from 1970 to the end
    of the 32-bit seconds (2106) the value's time is at most 60 ns before the
    instant and never after it, in the same second, and the quality octet is kept. *)
Theorem utc_time_resolution (t q : Z) :
  0 ≤ t < 2 ^ 32 * NANOS_PER_SEC →
  ∃ t', Value_time (utc_time t q) = Some t' ∧ t - 60 ≤ t' ≤ t ∧
    t' / NANOS_PER_SEC = t / NANOS_PER_SEC ∧ time_quality (utc_time t q) = q.
Proof. apply utc_time_close. Qed.
Lemma utc_time_resolution_witness :
  0 ≤ 1786838400123456789 < 2 ^ 32 * NANOS_PER_SEC ∧
  (∃ t', Value_time (utc_time 1786838400123456789 0x8a) = Some t' ∧
    1786838400123456789 - 60 ≤ t' ≤ 1786838400123456789 ∧
    t' / NANOS_PER_SEC = 1786838400123456789 / NANOS_PER_SEC ∧
    time_quality (utc_time 1786838400123456789 0x8a) = 0x8a).
Proof.
  assert (0 ≤ 1786838400123456789 < 2 ^ 32 * NANOS_PER_SEC) as H by (split; reflexivity || discriminate).
  split; [exact H|]. exact (utc_time_resolution _ 0x8a H).
Defined.

(** Re-encoding a received [UtcTime] moves it. Reading the time of eight
    received octets and writing it again gives the same octets only when the
    24-bit fraction is a multiple of [2^15]; for every other fraction it gives the
    fraction below. *)
Theorem utc_time_reencode (secs frac q : Z) :
  0 ≤ secs < 2 ^ 32 → 0 ≤ frac < 2 ^ 24 →
  ∀ t, Value_time (VUtcTime (to_be 4 secs ++ to_be 3 frac ++ [q])) = Some t →
  utc_time t q =
    VUtcTime (to_be 4 secs ++
      to_be 3 (if decide (frac mod 2 ^ 15 = 0) then frac else frac - 1) ++ [q]).
Proof.
  intros Hs Hf t. assert (∀ n, to_be 3 n = [u8 (Z.shiftr n 16); u8 (Z.shiftr n 8); u8 n]) as E3.
  { intros n. simpl. rewrite Z.div_1_r, (shiftr_div n 16 65536), (shiftr_div n 8 256) by done. done. }
  assert (∀ n, to_be 4 n = u8 (Z.shiftr n 24) :: to_be 3 n) as E4.
  { intros n. simpl. rewrite (shiftr_div n 24 16777216) by done. done. }
  rewrite !E4, !E3. simpl app. unfold Value_time.
  rewrite be_octets_32, be_octets_24 by done.
  rewrite Z.shiftr_div_pow2 by lia. unfold u32 at 1. rewrite wrap_id by (unfold in_u; dlia).
  intros [= <-]. unfold utc_time. rewrite unix_parts_from by (unfold NANOS_PER_SEC; dlia).
  unfold utc_time_parts. rewrite (Z.shiftl_mul_pow2 (_ / _)) by lia.
  assert (frac * 1000000000 / 2 ^ 24 * 2 ^ 24 / 1000000000 =
    if decide (frac mod 2 ^ 15 = 0) then frac else frac - 1) as ->.
  { case_decide as E; [|change (2 ^ 15) with 32768 in E; dlia].
    assert (frac = frac / 2 ^ 15 * 2 ^ 15) as Ef by dlia.
    set (k := frac / 2 ^ 15) in *. clearbody k. subst frac.
    replace (k * 2 ^ 15 * 1000000000) with (k * 1953125 * 2 ^ 24) by lia.
    rewrite Z.div_mul by done. replace (k * 1953125 * 2 ^ 24) with (k * 2 ^ 15 * 1000000000) by lia.
    by rewrite Z.div_mul. }
  unfold u32. rewrite (wrap_id 32 secs) by done.
  rewrite wrap_id; [done|]. unfold in_u. change (2 ^ 15) with 32768. case_decide; dlia.
Qed.
Lemma utc_time_reencode_witness :
  Value_time (VUtcTime [0; 0; 0; 1; 0; 0; 1; 0x8a]) = Some 1000000059 ∧
  utc_time 1000000059 0x8a = VUtcTime [0; 0; 0; 1; 0; 0; 0; 0x8a].
Proof.
  split; [reflexivity|].
  rewrite (utc_time_reencode 1 1 0x8a ltac:(lia) ltac:(lia) 1000000059 eq_refl). reflexivity.
Defined.

(** A [BinaryTime] keeps an instant to the millisecond. For every
    instant from 1984-01-01 on whose day fits the 16-bit day count (to 2163), the
    six-octet value reads back as the instant cut to a millisecond. *)
Theorem binary_time_milliseconds (t : Z) :
  BINARY_TIME_EPOCH_DAYS ≤ t / (86400 * NANOS_PER_SEC) < BINARY_TIME_EPOCH_DAYS + 2 ^ 16 →
  Value_time (binary_time t) = Some (t - t mod 1000000).
Proof.
  unfold BINARY_TIME_EPOCH_DAYS. intros Ht. unfold binary_time. rewrite unix_parts_eq.
  2: { unfold time_wf, NANOS_PER_SEC in *. dlia. }
  unfold NANOS_PER_SEC, BINARY_TIME_EPOCH_DAYS in *.
  rewrite Z.div_div by done. change (1000000000 * 86400) with (86400 * 1000000000).
  set (d := t / (86400 * 1000000000)) in *.
  set (ms := t / 1000000000 mod 86400 * 1000 + t mod 1000000000 / 1000000).
  assert (0 ≤ ms < 2 ^ 32) as Hms by (subst ms; clear Ht d; dlia).
  assert (t - t mod 1000000 = d * 86400 * 1000000000 + ms * 1000000) as ->.
  { subst d ms. clear. dlia. }
  clearbody d ms. unfold u32, u16. rewrite (wrap_id 32) by done. rewrite Z.max_l by lia.
  rewrite wrap_id by (unfold in_u; lia). unfold Value_time.
  rewrite be_octets_32, be_octets_16 by lia.
  f_equal. rewrite from_unix_eq. unfold NANOS_PER_SEC, BINARY_TIME_EPOCH_DAYS. dlia.
Qed.
Lemma binary_time_milliseconds_witness :
  BINARY_TIME_EPOCH_DAYS ≤ 1786838400250999999 / (86400 * NANOS_PER_SEC) <
    BINARY_TIME_EPOCH_DAYS + 2 ^ 16 ∧
  Value_time (binary_time 1786838400250999999) = Some 1786838400250000000.
Proof.
  assert (BINARY_TIME_EPOCH_DAYS ≤ 1786838400250999999 / (86400 * NANOS_PER_SEC) <
    BINARY_TIME_EPOCH_DAYS + 2 ^ 16) as H by (split; [discriminate|reflexivity]).
  split; [exact H|]. exact (binary_time_milliseconds _ H).
Defined.
