(* ===== verification/MmsCodec.v ===== *)
(** The MMS [Data] codec of src/src/mms/value_codec.rs: values to BER
    elements and back, with the nesting limit. *)

From stdpp Require Import pretty.
From S2P Require Import Prelude Ber BerDecoder Float BerPrim TimeUtil Errors MmsValue.
Local Open Scope string_scope.
Local Open Scope list_scope.
Local Open Scope Z_scope.

(** ** Definitions *)

Definition TAG_DATA_ARRAY : Z := 1.
Definition TAG_DATA_STRUCTURE : Z := 2.
Definition TAG_DATA_BOOLEAN : Z := 3.
Definition TAG_DATA_BIT_STRING : Z := 4.
Definition TAG_DATA_INTEGER : Z := 5.
Definition TAG_DATA_UNSIGNED : Z := 6.
Definition TAG_DATA_FLOAT : Z := 7.
Definition TAG_DATA_OCTET_STRING : Z := 9.
Definition TAG_DATA_VIS_STRING : Z := 10.
Definition TAG_DATA_GEN_TIME : Z := 11.
Definition TAG_DATA_BIN_TIME : Z := 12.
Definition TAG_DATA_MMS_STRING : Z := 16.
Definition TAG_DATA_UTC_TIME : Z := 17.

Definition MAX_VALUE_DEPTH : Z := 32.

(** [iter().filter_map(f)], stopping at a panic of [f]. *)
Definition filter_map_outcome {E A B} (f : A → outcome E (option B)) : list A → outcome E (list B) :=
  fix go (l : list A) :=
    match l with
    | [] => Ok []
    | a :: l =>
        b ← f a;
        bs ← go l;
        Ok (match b with Some b => b :: bs | None => bs end)
    end.

Fixpoint data_element {E} (v : Value) : outcome E (option Element) :=
  match v with
  | VNone => Ok None
  | VArray children =>
      es ← filter_map_outcome data_element children;
      Ok (Some (cons_elem (context_constructed TAG_DATA_ARRAY) es))
  | VStructure children =>
      es ← filter_map_outcome data_element children;
      Ok (Some (cons_elem (context_constructed TAG_DATA_STRUCTURE) es))
  | VBoolean b => Ok (Some (bool_elem (context_primitive TAG_DATA_BOOLEAN) b))
  | VBitString bs =>
      e ← bit_string_elem (context_primitive TAG_DATA_BIT_STRING) bs;
      Ok (Some e)
  | VInteger n => Ok (Some (int_elem (context_primitive TAG_DATA_INTEGER) n))
  | VUnsigned n => Ok (Some (uint_elem (context_primitive TAG_DATA_UNSIGNED) n))
  | VFloat32 f => Ok (Some (prim (context_primitive TAG_DATA_FLOAT) (append_float32 [] f)))
  | VFloat64 f => Ok (Some (prim (context_primitive TAG_DATA_FLOAT) (append_float64 [] f)))
  | VOctetString b => Ok (Some (prim (context_primitive TAG_DATA_OCTET_STRING) b))
  | VVisibleString b => Ok (Some (prim (context_primitive TAG_DATA_VIS_STRING) b))
  | VGeneralizedTime b => Ok (Some (prim (context_primitive TAG_DATA_GEN_TIME) b))
  | VBinaryTime b => Ok (Some (prim (context_primitive TAG_DATA_BIN_TIME) b))
  | VMmsString b => Ok (Some (prim (context_primitive TAG_DATA_MMS_STRING) b))
  | VUtcTime b => Ok (Some (prim (context_primitive TAG_DATA_UTC_TIME) b))
  | VDataAccessError e =>
      Ok (Some (uint_elem (context_primitive 0) (DataAccessError_code e)))
  end.

Definition append_data {E} (dst : list Z) (v : Value) : outcome E (list Z) :=
  el ← data_element v;
  Ok (match el with Some el => Element_append dst el | None => dst end).

Definition encode_data {E} (v : Value) : outcome E (list Z) := append_data [] v.

(** [while inner.more() { children.push(child(inner)?) }]. *)
Fixpoint decode_children {A E} (child : Decoder → outcome E (A * Decoder))
    (fuel : nat) (inner : Decoder) : outcome E (list A) :=
  match fuel with
  | O => NoFuel
  | S fuel =>
      if more inner then
        '(v, inner) ← child inner;
        vs ← decode_children child fuel inner;
        Ok (v :: vs)
      else Ok []
  end.

(** [decode_data_tlv]; [child] is [decode_data_at] one level down. *)
Definition decode_data_tlv (child : Decoder → outcome MmsError (Value * Decoder))
    (tag : Tag) (content : list Z) : outcome MmsError Value :=
  if decide (tag_class tag ≠ ContextSpecific) then
    Err (MmsProtocol ("data with tag " +:+ Tag_display tag))
  else
    let n := tag_number tag in
    if decide (n = TAG_DATA_ARRAY ∨ n = TAG_DATA_STRUCTURE) then
      children ← decode_children child (S (length content)) (Decoder_new content);
      Ok (if decide (n = TAG_DATA_ARRAY) then VArray children else VStructure children)
    else if decide (n = TAG_DATA_BOOLEAN) then
      b ← map_err MmsAsn1 (decode_bool content); Ok (VBoolean b)
    else if decide (n = TAG_DATA_BIT_STRING) then
      bs ← map_err MmsAsn1 (decode_bit_string content); Ok (VBitString bs)
    else if decide (n = TAG_DATA_INTEGER) then
      i ← map_err MmsAsn1 (decode_int content); Ok (VInteger i)
    else if decide (n = TAG_DATA_UNSIGNED) then
      u ← map_err MmsAsn1 (decode_uint content); Ok (VUnsigned u)
    else if decide (n = TAG_DATA_FLOAT) then
      f ← map_err MmsAsn1 (decode_float content);
      Ok (if decide (zlen content = 5) then VFloat32 (f64_to_f32 f) else VFloat64 f)
    else if decide (n = TAG_DATA_OCTET_STRING) then Ok (VOctetString content)
    else if decide (n = TAG_DATA_VIS_STRING) then Ok (VVisibleString content)
    else if decide (n = TAG_DATA_GEN_TIME) then Ok (VGeneralizedTime content)
    else if decide (n = TAG_DATA_BIN_TIME) then
      if decide (zlen content ≠ 4 ∧ zlen content ≠ 6) then
        Err (MmsProtocol ("binary-time of " +:+ pretty (zlen content) +:+ " octets"))
      else Ok (VBinaryTime content)
    else if decide (n = TAG_DATA_MMS_STRING) then Ok (VMmsString content)
    else if decide (n = TAG_DATA_UTC_TIME) then utc_time_raw content
    else if decide (n = 0 ∧ tag_constructed tag = false) then
      code ← map_err MmsAsn1 (decode_uint content);
      Ok (access_error (DataAccessError_from_code (u8 code)))
    else Err (MmsProtocol ("unsupported data tag [" +:+ pretty n +:+ "]")).

(** [decode_data_at], with [levels] the nesting still allowed: the source's
    [depth] is [MAX_VALUE_DEPTH + 1 - levels]. *)
Fixpoint decode_data_at (levels : nat) (dec : Decoder) : outcome MmsError (Value * Decoder) :=
  match levels with
  | O => Err (MmsProtocol ("data nesting exceeds " +:+ pretty MAX_VALUE_DEPTH))
  | S levels =>
      '((tag, content), dec) ← map_err MmsAsn1 (read_tlv dec);
      v ← decode_data_tlv (decode_data_at levels) tag content;
      Ok (v, dec)
  end.

Definition decode_data (dec : Decoder) : outcome MmsError (Value * Decoder) :=
  decode_data_at (S (Z.to_nat MAX_VALUE_DEPTH)) dec.

Definition decode_access_result (dec : Decoder) : outcome MmsError (Value * Decoder) :=
  tag ← map_err MmsAsn1 (peek dec);
  if decide (tag_class tag = ContextSpecific ∧ tag_number tag = 0 ∧ tag_constructed tag = false)
  then
    '((_, content), dec) ← map_err MmsAsn1 (read_tlv dec);
    code ← map_err MmsAsn1 (decode_uint content);
    Ok (access_error (DataAccessError_from_code (u8 code)), dec)
  else decode_data dec.

(** ** Well-formed values *)

(** The ranges a [Value]'s Rust types give it, the consistency of its bit
    strings, and the shapes that have a wire form: no [None] and a named access
    error under its own name. *)
Fixpoint value_wf (v : Value) : Prop :=
  match v with
  | VNone => False
  | VArray cs | VStructure cs => fold_right (λ v P, value_wf v ∧ P) True cs
  | VBoolean _ => True
  | VBitString bs => bs_wf bs
  | VInteger n => in_i 64 n
  | VUnsigned n => in_u 64 n
  | VFloat32 f => in_u 32 f
  | VFloat64 f => in_u 64 f
  | VOctetString b | VVisibleString b | VGeneralizedTime b | VMmsString b => octets b
  | VBinaryTime b => octets b ∧ (zlen b = 4 ∨ zlen b = 6)
  | VUtcTime b => octets b ∧ zlen b = 8
  | VDataAccessError e => dae_wf e
  end.

Lemma value_wf_Forall cs : fold_right (λ v P, value_wf v ∧ P) True cs ↔ Forall value_wf cs.
Proof.
  induction cs as [|c cs IH]; simpl; [split; constructor|]. by rewrite IH, Forall_cons.
Qed.

(** The nesting of a value: 0 for a scalar and for a container of nothing. *)
Fixpoint value_depth (v : Value) : nat :=
  match v with
  | VArray cs | VStructure cs => fold_right (λ v n, S (value_depth v) `max` n)%nat 0%nat cs
  | _ => 0%nat
  end.

Lemma value_depth_children cs n :
  (fold_right (λ v n, S (value_depth v) `max` n) 0 cs ≤ n)%nat ↔
  Forall (λ v, (value_depth v < n)%nat) cs.
Proof.
  induction cs as [|c cs IH]; simpl; [split; [constructor|lia]|].
  rewrite Forall_cons, <-IH. lia.
Qed.

(** ** Decoding is safe and gives well-formed values *)

Lemma read_tlv_octets d t c d' :
  dec_wf d → read_tlv d = Ok ((t, c), d') → octets c.
Proof.
  intros Hd H. destruct (read_tlv_at_content _ _ _ _ _ Hd H) as (a & _ & _ & Hs).
  destruct Hd as [Ho _]. by eapply octets_slice.
Qed.

Lemma decode_children_settled {A E} (child : Decoder → outcome E (A * Decoder)) fuel d :
  (∀ d, dec_wf d → advances 1 d (child d)) → dec_wf d →
  zlen (data d) - off d < Z.of_nat fuel →
  settled (decode_children child fuel d).
Proof.
  intros Hchild. revert d. induction fuel as [|fuel IH]; intros d Hd Hfuel.
  { unfold dec_wf in Hd. lia. }
  simpl. destruct (more d); [|done]. specialize (Hchild d Hd).
  destruct (child d) as [[v d1]| | |]; simpl in *; try done. destruct Hchild as [E1 Ho].
  apply settled_bind; [|done]. apply IH.
  - unfold dec_wf in *. rewrite E1. split; [tauto|lia].
  - rewrite E1. lia.
Qed.

Lemma decode_children_Forall {A E} (P : A → Prop) (child : Decoder → outcome E (A * Decoder)) fuel d vs :
  (∀ d v d', dec_wf d → child d = Ok (v, d') → dec_wf d' ∧ P v) → dec_wf d →
  decode_children child fuel d = Ok vs → Forall P vs.
Proof.
  intros Hchild. revert d vs. induction fuel as [|fuel IH]; intros d vs Hd; [done|].
  simpl. destruct (more d); [|intros [= <-]; constructor].
  intros ([v d1] & Hc & H)%bind_Ok_inv. apply bind_Ok_inv in H as (vs' & Hv & [= <-]).
  destruct (Hchild _ _ _ Hd Hc). constructor; eauto.
Qed.

Lemma Decoder_new_wf content : octets content → dec_wf (Decoder_new content).
Proof. intros. unfold dec_wf, Decoder_new. simpl. split; [done|]. zlen. Qed.

Lemma decode_prims_settled content :
  octets content →
  settled (decode_bool content) ∧ settled (decode_bit_string content) ∧
  settled (decode_int content) ∧ settled (decode_uint content) ∧ settled (decode_float content).
Proof.
  intros Ho. split_and!.
  - unfold decode_bool. case_decide; [done|].
    destruct (idx_Ok (E:=Asn1Error) content 0) as (b & -> & _); [lia|done].
  - destruct content as [|pad bits]; [done|]. simpl. case_decide as Hc; [done|].
    rewrite usub_Ok; [done|]. destruct bits as [|b bits]; [|zlen].
    destruct (decide (pad = 0)); [zlen|]. destruct Hc. by right.
  - destruct content; [done|]. unfold decode_int. by case_decide.
  - destruct content; [done|]. unfold decode_uint. by case_decide.
  - apply decode_float_settled.
Qed.

Lemma decode_data_tlv_settled child tag content :
  (∀ d, dec_wf d → advances 1 d (child d)) → octets content →
  settled (decode_data_tlv child tag content).
Proof.
  intros Hchild Ho. destruct (decode_prims_settled content Ho) as (H1 & H2 & H3 & H4 & H5).
  unfold decode_data_tlv, utc_time_raw.
  repeat case_decide; try done; apply settled_bind; try done; rewrite ?settled_map_err; try done.
  all: apply decode_children_settled; [done|by apply Decoder_new_wf|].
  all: simpl; unfold zlen; lia.
Qed.

Lemma decode_data_at_advances levels d :
  dec_wf d → advances 2 d (decode_data_at levels d).
Proof.
  revert d. induction levels as [|levels IH]; intros d Hd; [done|]. cbn [decode_data_at].
  pose proof (read_tlv_advances d Hd) as Hr.
  destruct (read_tlv d) as [[[t c] d1]| | |] eqn:Er; try done.
  pose proof (read_tlv_octets _ _ _ _ Hd Er) as Hc.
  cbn [map_err mbind outcome_bind].
  assert (settled (decode_data_tlv (decode_data_at levels) t c)) as Hs.
  { apply decode_data_tlv_settled; [|done]. intros d2 Hd2.
    eapply advances_weaken; [|by apply IH]. lia. }
  by destruct (decode_data_tlv _ _ _).
Qed.

Lemma decode_uint_range content u : octets content → decode_uint content = Ok u → in_u 64 u.
Proof.
  intros Ho H. assert (from_be content < 2 ^ 64 ∧ 1 ≤ zlen content ≤ 9) as (Hlt & Hn).
  { destruct content as [|b l]; [done|]. unfold decode_uint in H. case_decide as Hc; [done|].
    apply octets_cons in Ho as [Hb Hl]. pose proof (from_be_range l Hl) as Hr.
    rewrite from_be_cons. rewrite zlen_cons in *. unfold octet in Hb.
    pose proof (zlen_nonneg l). destruct (decide (zlen l = 8)) as [E|E].
    - rewrite E in *. destruct (decide (b = 0)) as [->|]; [simpl in *; lia|].
      destruct Hc. right. lia.
    - pose proof (Z.pow_le_mono_r 256 (zlen l) 7 ltac:(lia) ltac:(lia)).
      change (256 ^ 7) with (2 ^ 56) in *. nia. }
  rewrite decode_uint_eq in H by (done || lia). injection H as <-.
  pose proof (from_be_range content Ho). unfold in_u. lia.
Qed.

Lemma dae_from_code_wf n : octet n → dae_wf (DataAccessError_from_code n).
Proof.
  intros Hn. unfold octet in Hn.
  cut (bool_decide (dae_wf (DataAccessError_from_code n)) = true); [by intros ?%bool_decide_eq_true|].
  by_range 256%nat n.
Qed.

(** [decode_data_tlv] keeps values well-formed and one level deeper than its
    children. *)
Lemma decode_data_tlv_wf child tag content v n :
  (∀ d v d', dec_wf d → child d = Ok (v, d') → dec_wf d' ∧ value_wf v ∧ (value_depth v < n)%nat) →
  octets content → decode_data_tlv child tag content = Ok v →
  value_wf v ∧ (value_depth v ≤ n)%nat.
Proof.
  intros Hchild Ho. unfold decode_data_tlv, utc_time_raw.
  repeat case_decide; try done; intros Heq;
    try (apply bind_Ok_inv in Heq as (x & Hx & [= <-]); rewrite ?map_err_Ok_inv in Hx);
    try (injection Heq as <-); simpl; try (split; [|lia]; done).
  1,2: rewrite value_wf_Forall, value_depth_children, <-Forall_and;
    eapply (decode_children_Forall (λ v, value_wf v ∧ (value_depth v < n)%nat)) in Hx;
    [done|done|by apply Decoder_new_wf].
  - split; [|lia]. by destruct (decode_bit_string_inv (E:=unit) x content Ho Hx).
  - split; [|lia]. destruct (decode_int_inv _ _ Hx Ho) as [Hn Hi].
    apply (in_i_mono (8 * zlen content)); [lia|done].
  - split; [|lia]. by eapply decode_uint_range.
  - apply decode_float_inv in Hx as [[_ (b & Hb & ->)]|[? _]]; [|lia|done].
    split; [|lia]. by apply f32_sent.
  - apply decode_float_inv in Hx as [[? _]|[_ ?]]; [done| |done]. by split; [|lia].
  - split; [|lia]. split; [done|]. lia.
  - split; [|lia]. by apply dae_from_code_wf, u8_octet.
Qed.

Lemma decode_data_at_wf levels d v d' :
  dec_wf d → decode_data_at levels d = Ok (v, d') →
  dec_wf d' ∧ value_wf v ∧ (value_depth v < levels)%nat.
Proof.
  revert d v d'. induction levels as [|levels IH]; intros d v d' Hd; [done|].
  pose proof (decode_data_at_advances (S levels) d Hd) as Hadv. intros H.
  destruct (advances_Ok _ _ _ _ _ Hadv H) as [E1 Ho1].
  assert (dec_wf d') by (unfold dec_wf in *; rewrite E1; split; [tauto|lia]).
  split; [done|]. cbn [decode_data_at] in H. apply bind_Ok_inv in H as ([[t c] d1] & Hr & H).
  rewrite map_err_Ok_inv in Hr. apply bind_Ok_inv in H as (v1 & Hv & [= <- _]).
  apply (decode_data_tlv_wf _ _ _ _ levels) in Hv;
    [|exact IH|exact (read_tlv_octets _ _ _ _ Hd Hr)].
  split; [tauto|lia].
Qed.

(** ** Encoding, and reading back *)

(** A value as the peer reads it: a 32-bit NaN has its quiet bit set by the
    trip through [f64], anything else is unchanged. *)
Fixpoint sent (v : Value) : Value :=
  match v with
  | VArray cs => VArray (map sent cs)
  | VStructure cs => VStructure (map sent cs)
  | VFloat32 f => VFloat32 (f64_to_f32 (f32_to_f64 f))
  | _ => v
  end.

Lemma Value_eq_sent v : value_wf v → Value_eq v (sent v) = true.
Proof.
  induction v as [cs IH|cs IH|v Hv] using Value_ind'; intros Hw.
  1,2: simpl in Hw; rewrite value_wf_Forall in Hw; simpl sent;
    rewrite ?Value_eq_array, ?Value_eq_structure, Values_eq_Forall2, Forall2_fmap_r;
    apply Forall_Forall2_diag; revert IH Hw; rewrite !Forall_forall; auto.
  destruct v; try done; try apply Value_eq_refl. simpl in *. by apply f32_sent.
Qed.

Lemma sent_no_nan v :
  value_wf v → (∀ f, v = VFloat32 f → f32_is_nan f = false) → scalar v → sent v = v.
Proof.
  intros Hw Hn Hs. destruct v; try done. simpl. f_equal.
  apply f32_widen_narrow; [done|]. by apply Hn.
Qed.

Lemma scalar_element {E} v :
  value_wf v → scalar v →
  ∃ n c, data_element (E:=E) v = Ok (Some (prim (context_primitive n) c)) ∧ 0 ≤ n < 31 ∧
    ∀ child, decode_data_tlv child (context_primitive n) c = Ok (sent v).
Proof.
  intros Hw Hs.
  destruct v as [| | |b|bs|n|n|f|f|b|b|b|b|b|b|e]; try done; simpl in Hw; simpl data_element.
  - do 2 eexists. split; [done|]. split; [done|]. intros child. by destruct b.
  - destruct (append_decode_bit_string (E:=E) bs Hw) as (c & Hc & _ & Hd).
    unfold bit_string_elem. rewrite Hc. do 2 eexists. split; [done|]. split; [done|].
    intros child. change (decode_data_tlv child (context_primitive TAG_DATA_BIT_STRING) c)
      with (bs ← map_err MmsAsn1 (decode_bit_string c); Ok (VBitString bs)). by rewrite Hd.
  - do 2 eexists. split; [done|]. split; [done|]. intros child.
    change (decode_data_tlv child (context_primitive TAG_DATA_INTEGER) (append_int [] n))
      with (i ← map_err MmsAsn1 (decode_int (append_int [] n)); Ok (VInteger i)).
    destruct (int_size_spec n Hw) as (? & ? & _). rewrite append_int_eq by done. simpl app.
    rewrite decode_int_to_be; [done|lia|]. by rewrite Z2Nat.id by lia.
  - do 2 eexists. split; [done|]. split; [done|]. intros child.
    change (decode_data_tlv child (context_primitive TAG_DATA_UNSIGNED) (append_uint [] n))
      with (i ← map_err MmsAsn1 (decode_uint (append_uint [] n)); Ok (VUnsigned i)).
    by rewrite decode_append_uint.
  - do 2 eexists. split; [done|]. split; [done|]. intros child.
    change (decode_data_tlv child (context_primitive TAG_DATA_FLOAT) (append_float32 [] f))
      with (Ok (E:=MmsError) (VFloat32 (f64_to_f32 (f32_to_f64 (from_be (to_be 4 f)))))).
    rewrite from_to_be, Z.mod_small by done. done.
  - do 2 eexists. split; [done|]. split; [done|]. intros child.
    change (decode_data_tlv child (context_primitive TAG_DATA_FLOAT) (append_float64 [] f))
      with (f ← map_err MmsAsn1 (decode_float (11 :: to_be 8 f)); Ok (E:=MmsError) (VFloat64 f)).
    rewrite decode_float_9 by (apply octets_to_be || done).
    rewrite from_to_be, Z.mod_small by done. done.
  - do 2 eexists. split; [done|]. split; done.
  - do 2 eexists. split; [done|]. split; done.
  - do 2 eexists. split; [done|]. split; done.
  - do 2 eexists. split; [done|]. split; [done|]. intros child.
    change (decode_data_tlv child (context_primitive TAG_DATA_BIN_TIME) b) with
      (if decide (zlen b ≠ 4 ∧ zlen b ≠ 6) then
        Err (MmsProtocol ("binary-time of " +:+ pretty (zlen b) +:+ " octets"))
       else Ok (VBinaryTime b)).
    rewrite decide_False; [done|]. lia.
  - do 2 eexists. split; [done|]. split; done.
  - do 2 eexists. split; [done|]. split; [done|]. intros child.
    change (decode_data_tlv child (context_primitive TAG_DATA_UTC_TIME) b) with (utc_time_raw b).
    unfold utc_time_raw. rewrite decide_True; [done|]. tauto.
  - do 2 eexists. split; [done|]. split; [done|]. intros child.
    change (decode_data_tlv child (context_primitive 0) (append_uint [] (DataAccessError_code e)))
      with (code ← map_err MmsAsn1 (decode_uint (append_uint [] (DataAccessError_code e)));
            Ok (access_error (DataAccessError_from_code (u8 code)))).
    pose proof (dae_code_octet e Hw) as Ho.
    rewrite decode_append_uint by (unfold in_u, octet in *; lia). simpl.
    rewrite u8_id, dae_from_code_code by done. done.
Qed.

(** [child] reads [a] from [enc], wherever it stands. *)
Definition reads {A E} (child : Decoder → outcome E (A * Decoder)) (a : A) (enc : list Z) : Prop :=
  enc ≠ [] ∧ ∀ pre suf, child (dec_at pre (enc ++ suf)) = Ok (a, dec_at (pre ++ enc) suf).

Lemma decode_children_concat {A E} (child : Decoder → outcome E (A * Decoder)) vs encs fuel pre :
  Forall2 (reads child) vs encs → (length vs < fuel)%nat →
  decode_children child fuel (dec_at pre (concat encs)) = Ok vs.
Proof.
  intros H. revert fuel pre. induction H as [|v enc vs encs [Hne Hr] H IH]; intros fuel pre Hf;
    (destruct fuel as [|fuel]; [simpl in Hf; lia|]); simpl; rewrite more_at.
  - done.
  - rewrite bool_decide_eq_true_2 by (destruct enc; done).
    rewrite Hr. simpl. rewrite IH by (simpl in Hf; lia). done.
Qed.

Lemma reads_length {A E} (child : Decoder → outcome E (A * Decoder)) vs encs :
  Forall2 (reads child) vs encs → (length vs ≤ length (concat encs))%nat.
Proof.
  induction 1 as [|v enc vs encs [Hne _] H IH]; simpl; [lia|].
  rewrite length_app. destruct enc; [done|]. simpl. lia.
Qed.

Lemma zlen_concat_le {A} (l : list A) ls : l ∈ ls → zlen l ≤ zlen (concat ls).
Proof.
  induction ls as [|k ls IH]; [by intros ?%not_elem_of_nil|].
  intros [->|H]%elem_of_cons; simpl; rewrite zlen_app.
  - pose proof (zlen_nonneg (concat ls)). lia.
  - pose proof (zlen_nonneg k). specialize (IH H). lia.
Qed.

Lemma append_tlv_longer t c : zlen c < zlen (append_tlv [] t c).
Proof.
  rewrite append_tlv_app. simpl app. autorewrite with zlen. rewrite zlen_length_octets.
  pose proof (zlen_nonneg (tag_octets t)). unfold length_size. repeat case_decide; lia.
Qed.

(** What the proofs below say of a value at nesting below [levels]. *)
Definition encodes {E} (levels : nat) (v : Value) (e : Element) : Prop :=
  data_element (E:=E) v = Ok (Some e) ∧ Element_tags tag_sized e ∧
  (zlen (Element_encode e) < 2 ^ 32 → reads (decode_data_at levels) (sent v) (Element_encode e)).

Lemma elements_of {E} levels cs :
  Forall (λ v, ∃ e, encodes (E:=E) levels v e) cs →
  ∃ es, filter_map_outcome (data_element (E:=E)) cs = Ok es ∧
    Forall (Element_tags tag_sized) es ∧
    (Forall (λ e, zlen (Element_encode e) < 2 ^ 32) es →
     Forall2 (reads (decode_data_at levels)) (map sent cs) (map Element_encode es)).
Proof.
  induction 1 as [|v cs (e & He & Ht & Hr) _ (es & Hes & Hts & Hrs)].
  { exists []. split; [done|]. split; constructor. }
  exists (e :: es). simpl. rewrite He. simpl. rewrite Hes. split; [done|]. split.
  - by constructor.
  - intros [? ?]%Forall_cons. constructor; auto.
Qed.

Lemma decode_data_tlv_array child c :
  decode_data_tlv child (context_constructed TAG_DATA_ARRAY) c =
  (children ← decode_children child (S (length c)) (Decoder_new c); Ok (VArray children)).
Proof. done. Qed.

Lemma decode_data_tlv_structure child c :
  decode_data_tlv child (context_constructed TAG_DATA_STRUCTURE) c =
  (children ← decode_children child (S (length c)) (Decoder_new c); Ok (VStructure children)).
Proof. done. Qed.

Lemma container_encodes {E} levels n mk cs :
  (mk = VArray ∧ n = TAG_DATA_ARRAY ∨ mk = VStructure ∧ n = TAG_DATA_STRUCTURE) →
  Forall (λ v, ∃ e, encodes (E:=E) levels v e) cs →
  ∃ e, encodes (E:=E) (S levels) (mk cs) e.
Proof.
  intros Hmk Hcs. destruct (elements_of levels cs Hcs) as (es & Hes & Hts & Hr).
  exists (cons_elem (context_constructed n) es). split; [|split].
  - destruct Hmk as [[-> ->]|[-> ->]]; simpl; by rewrite Hes.
  - unfold cons_elem. apply Element_tags_children. split; [|done].
    destruct Hmk as [[-> ->]|[-> ->]]; done.
  - unfold cons_elem. rewrite Element_encode_cons by done.
    set (c := concat (map Element_encode es)). intros Hlen.
    assert (zlen c < 2 ^ 32) as Hc by (pose proof (append_tlv_longer (set_constructed (context_constructed n)) c); lia).
    assert (Forall (λ e, zlen (Element_encode e) < 2 ^ 32) es) as Hes32.
    { apply Forall_forall. intros e He.
      pose proof (zlen_concat_le (Element_encode e) (map Element_encode es)) as Hle.
      fold c in Hle. assert (Element_encode e ∈ map Element_encode es) by (by apply list_elem_of_fmap_2).
      specialize (Hle H). lia. }
    specialize (Hr Hes32).
    split; [apply (append_tlv_ne _ _ []) || (rewrite <-(app_nil_r (append_tlv _ _ _)); apply append_tlv_ne)|].
    intros pre suf. cbn [decode_data_at]. rewrite read_tlv_dec_at; [|destruct Hmk as [[-> ->]|[-> ->]]; done|done].
    cbn [map_err mbind outcome_bind].
    assert (decode_children (decode_data_at levels) (S (length c)) (Decoder_new c) = Ok (map sent cs)) as Hd.
    { rewrite dec_at_nil. apply decode_children_concat; [done|].
      pose proof (reads_length _ _ _ Hr). unfold c. lia. }
    change (set_constructed (context_constructed n)) with (context_constructed n).
    by destruct Hmk as [[-> ->]|[-> ->]];
      rewrite ?decode_data_tlv_array, ?decode_data_tlv_structure, Hd.
Qed.

Lemma value_encodes {E} v levels :
  value_wf v → (value_depth v < levels)%nat → ∃ e, encodes (E:=E) levels v e.
Proof.
  revert levels. induction v as [cs IH|cs IH|v Hs] using Value_ind'; intros levels Hw Hd;
    (destruct levels as [|levels]; [lia|]).
  1,2: simpl in Hw, Hd; rewrite value_wf_Forall in Hw;
    assert (Forall (λ v, value_depth v < levels)%nat cs) as Hds
      by (apply value_depth_children; lia);
    eapply container_encodes; [eauto|];
    revert IH Hw Hds; rewrite !Forall_forall; intros IH Hw Hds v Hv; auto.
  destruct (scalar_element (E:=E) v Hw Hs) as (n & c & He & Hn & Hdec).
  exists (prim (context_primitive n) c). split; [done|]. split; [simpl; unfold tag_sized; simpl; lia|].
  unfold prim. rewrite Element_encode_primitive. intros Hlen.
  pose proof (append_tlv_longer (context_primitive n) c).
  split; [rewrite <-(app_nil_r (append_tlv _ _ _)); apply append_tlv_ne|].
  intros pre suf. cbn [decode_data_at]. rewrite read_tlv_dec_at.
  - cbn [map_err mbind outcome_bind]. by rewrite Hdec.
  - unfold tag_wf, in_u. simpl. lia.
  - lia.
Qed.

(** ** Theorems *)

(** Decoding MMS data is safe. On any octets, at any offset inside them,
    [decode_data] returns without panicking (the recursion and the loops end), and
    a value it returns is well-formed, nested at most [MAX_VALUE_DEPTH] deep, and
    was read from at least two octets of the input; so encoding it again cannot
    panic either. *)
Theorem decode_data_safe {E} (d : Decoder) :
  dec_wf d →
  settled (decode_data d) ∧
  ∀ v d', decode_data d = Ok (v, d') →
    value_wf v ∧ (value_depth v ≤ Z.to_nat MAX_VALUE_DEPTH)%nat ∧
    data d' = data d ∧ off d + 2 ≤ off d' ≤ zlen (data d) ∧
    is_ok (encode_data (E:=E) v).
Proof.
  intros Hd. pose proof (decode_data_at_advances (S (Z.to_nat MAX_VALUE_DEPTH)) d Hd) as Hadv.
  split; [by eapply advances_settled|]. intros v d' H.
  destruct (advances_Ok _ _ _ _ _ Hadv H) as [E1 Ho].
  destruct (decode_data_at_wf _ _ _ _ Hd H) as (_ & Hw & Hdepth).
  split_and!; [done|lia|done|lia|lia|].
  destruct (value_encodes (E:=E) v _ Hw Hdepth) as (e & He & _).
  unfold encode_data, append_data. by rewrite He.
Qed.
Lemma decode_data_safe_witness :
  dec_wf (Decoder_new [0xa2; 3; 0x85; 1; 7]) ∧
  decode_data (Decoder_new [0xa2; 3; 0x85; 1; 7]) =
    Ok (VStructure [VInteger 7], mkDecoder [0xa2; 3; 0x85; 1; 7] 5) ∧
  value_wf (VStructure [VInteger 7]).
Proof.
  assert (dec_wf (Decoder_new [0xa2; 3; 0x85; 1; 7])) as H.
  { split; [repeat constructor; lia|]. vm_compute. split; discriminate. }
  split; [exact H|]. split; [reflexivity|].
  apply (proj2 (decode_data_safe (E:=unit) _ H) (VStructure [VInteger 7])
    (mkDecoder [0xa2; 3; 0x85; 1; 7] 5)). reflexivity.
Defined.

(** C21: MMS data round trips. A well-formed value nested at most
    [MAX_VALUE_DEPTH] deep whose encoding is below 2^32 octets is encoded, and
    [decode_data] at the start of that encoding, whatever stands before and after
    it, consumes exactly the encoding and returns a value that the crate's own
    equality calls equal (the same value, but for the quiet bit of a 32-bit NaN). *)
Theorem data_roundtrip {E} (v : Value) (pre suf : list Z) :
  value_wf v → (value_depth v ≤ Z.to_nat MAX_VALUE_DEPTH)%nat →
  ∃ enc, encode_data (E:=E) v = Ok enc ∧
    (zlen enc < 2 ^ 32 →
     decode_data (dec_at pre (enc ++ suf)) = Ok (sent v, dec_at (pre ++ enc) suf)) ∧
    Value_eq v (sent v) = true.
Proof.
  intros Hw Hd.
  destruct (value_encodes (E:=E) v (S (Z.to_nat MAX_VALUE_DEPTH)) Hw) as (e & He & _ & Hr); [lia|].
  exists (Element_encode e). split_and!.
  - unfold encode_data, append_data. by rewrite He.
  - intros Hlen. by apply Hr.
  - by apply Value_eq_sent.
Qed.
Definition sample_value : Value :=
  VStructure [VStructure [VFloat32 0x43666666]; VBitString (mkBitString [0; 0] 13);
              VArray [VInteger (-1); VUnsigned 300]; VDataAccessError TemporarilyUnavailable].
Lemma data_roundtrip_witness :
  value_wf sample_value ∧
  ∃ enc, encode_data (E:=unit) sample_value = Ok enc ∧
    (zlen enc < 2 ^ 32 →
     decode_data (dec_at [] (enc ++ [1])) = Ok (sent sample_value, dec_at ([] ++ enc) [1])) ∧
    Value_eq sample_value (sent sample_value) = true.
Proof.
  assert (value_wf sample_value) as H.
  { repeat (split || constructor); unfold in_u, in_i; try lia; vm_compute; discriminate. }
  split; [exact H|]. apply (data_roundtrip sample_value [] [1] H). vm_compute. lia.
Defined.
