(* ===== verification/BerFields.v ===== *)
(** Elements as fields: the loops the decoders of src/src/osi and src/src/mms
    run over the elements of a content, and what they do on the octets of
    elements that were built. *)

From S2P Require Import Prelude Ber BerDecoder BerPrim MmsCodec.
Local Open Scope list_scope.
Local Open Scope Z_scope.

(** ** Loops over elements

    [while dec.more() { let (tag, c) = dec.read_tlv()..; body }]. A round ends with
    [inl s] when the loop goes on with [s] and [inr r] when the function returns
    [r]; [bad] is what a malformed element comes to, where [inl s] is [break]. *)
Section each.
Context {E S R : Type} (bad : S → Asn1Error → outcome E (S + R)) (body : S → Tag → list Z → outcome E (S + R)).

Fixpoint each_tlv (fuel : nat) (d : Decoder) (s : S) : outcome E (S + R) :=
  match fuel with
  | O => NoFuel
  | Datatypes.S fuel =>
      if more d then
        match read_tlv d with
        | Ok ((t, c), d) =>
            r ← body s t c;
            match r with
            | inl s => each_tlv fuel d s
            | inr r => Ok (inr r)
            end
        | Err e => bad s e
        | Panic => Panic
        | NoFuel => NoFuel
        end
      else Ok (inl s)
  end.

(** The loop over the elements of [content]. *)
Definition each_field (content : list Z) (s : S) : outcome E (S + R) :=
  each_tlv (Datatypes.S (length content)) (Decoder_new content) s.

(** The same over elements already taken apart. *)
Fixpoint fold_fields (cs : list (Tag * list Z)) (s : S) : outcome E (S + R) :=
  match cs with
  | [] => Ok (inl s)
  | (t, c) :: cs =>
      r ← body s t c;
      match r with
      | inl s => fold_fields cs s
      | inr r => Ok (inr r)
      end
  end.
End each.

(** [?] on a malformed element. *)
Definition raise {E S R} (f : Asn1Error → E) (s : S) (e : Asn1Error) : outcome E (S + R) := Err (f e).
(** [else { break }]. *)
Definition leave {E S R} (s : S) (e : Asn1Error) : outcome E (S + R) := Ok (inl s).

(** What a loop that only falls through leaves. *)
Definition fell {E S R} (r : outcome E (S + R)) (k : S → outcome E R) : outcome E R :=
  x ← r; match x with inl s => k s | inr r => Ok r end.

(** A loop without [return]. *)
Definition whole {E S} (r : outcome E (S + Empty_set)) : outcome E S :=
  r ≫= (λ x : S + Empty_set, match x with inl s => Ok s | inr e => match e with end end).

(** [m.ok()]. *)
Definition ok {E F A} (m : outcome E A) : outcome F (option A) :=
  match m with
  | Ok a => Ok (Some a)
  | Err _ => Ok None
  | Panic => Panic
  | NoFuel => NoFuel
  end.

(** [m.unwrap_or(a)]. *)
Definition unwrap_or {E F A} (m : outcome E A) (a : A) : outcome F A :=
  o ← ok m; Ok (default a o).

(** ** Fields that were built *)

Definition field_ok (f : Tag * list Z) : Prop := tag_wf f.1 ∧ zlen f.2 < 2 ^ 32.

Lemma children_octets_cons t c cs : children_octets ((t, c) :: cs) = append_tlv [] t c ++ children_octets cs.
Proof. done. Qed.

Lemma children_octets_app cs ds : children_octets (cs ++ ds) = children_octets cs ++ children_octets ds.
Proof. unfold children_octets. by rewrite map_app, concat_app. Qed.

Lemma zlen_tlv_le t c : tag_sized t → zlen (append_tlv [] t c) ≤ zlen c + 10.
Proof.
  intros Ht. rewrite append_tlv_app. simpl. autorewrite with zlen. rewrite zlen_length_octets, zlen_tag_octets by done.
  unfold tag_size, length_size. repeat case_decide; lia.
Qed.

Lemma zlen_field_le t c n : tag_sized t → zlen c ≤ n → zlen (children_octets [(t, c)]) ≤ n + 10.
Proof. intros Ht Hc. rewrite children_octets_cons, app_nil_r. pose proof (zlen_tlv_le t c Ht). lia. Qed.

(** Each field takes at most ten octets more than its content. *)
Lemma fields_size cs : Forall (λ f, tag_sized f.1) cs → zlen (children_octets cs) ≤ foldr (λ f n, zlen f.2 + 10 + n) 0 cs.
Proof.
  induction 1 as [|[t c] cs Ht _ IH]; [done|]. rewrite children_octets_cons, zlen_app. cbn [foldr].
  pose proof (zlen_tlv_le t c Ht). simpl in *. lia.
Qed.

Lemma append_int_short v : in_i 64 v → zlen (append_int [] v) ≤ 8.
Proof.
  intros Hv. destruct (int_size_spec v Hv) as [Hr _]. rewrite append_int_eq by done. simpl. rewrite zlen_to_be. lia.
Qed.

Lemma append_uint_short v : in_u 64 v → zlen (append_uint [] v) ≤ 9.
Proof.
  intros Hv. destruct (uint_size_spec v Hv) as [Hr _]. rewrite append_uint_eq by done. simpl. rewrite zlen_to_be. lia.
Qed.

Lemma children_octets_tail f cs : zlen (children_octets cs) ≤ zlen (children_octets (f :: cs)).
Proof. destruct f as [t c]. rewrite children_octets_cons, zlen_app. pose proof (zlen_nonneg (append_tlv [] t c)). lia. Qed.

Lemma field_smaller t c cs : (t, c) ∈ cs → zlen c < zlen (children_octets cs).
Proof.
  intros Hin. eapply Z.lt_le_trans; [apply (append_tlv_longer t c)|]. apply zlen_concat_le.
  apply list_elem_of_In, in_map_iff. exists (t, c). split; [done|]. by apply list_elem_of_In.
Qed.

(** Fields of a content that fits have contents that fit. *)
Lemma fields_ok cs : Forall (λ f, tag_wf f.1) cs → zlen (children_octets cs) ≤ 2 ^ 32 → Forall field_ok cs.
Proof.
  intros Ht Hl. rewrite Forall_forall in *. intros [t c] Hin. split; [by apply (Ht (t, c))|].
  pose proof (field_smaller t c cs Hin). simpl. lia.
Qed.

Lemma fields_fit cs n : zlen (children_octets cs) ≤ n → Forall (λ f, zlen f.2 < n) cs.
Proof.
  intros Hn. apply Forall_forall. intros [t c] Hin. pose proof (field_smaller t c cs Hin). simpl. lia.
Qed.

(** Fields whose tags are known and whose octets fit. *)
Ltac fields_ok := apply fields_ok; [repeat (apply Forall_cons_2; [done|]); first [apply Forall_nil_2|done]|lia].

Ltac field_ok := split; [done|cbn [snd]; lia].

(** From the size of known fields to the sizes of their contents. *)
Ltac fields_fit_by t :=
  let H' := fresh "Hfit" in
  pose proof t as H'; rewrite ?Forall_cons in H'; cbn [fst snd] in H'; destruct_and? H'.
Ltac fields_fit H := fields_fit_by constr:(fields_fit _ _ H).
Ltac fields_in H := fields_fit_by constr:(fields_fit _ _ (Z.lt_le_incl _ _ H)).

(** Runs a step of the monad. *)
Ltac run := cbn [mbind outcome_bind map_err ok].

(** Evaluates comparisons of known tags. *)
Ltac tags :=
  repeat first
    [ rewrite decide_True by discriminate
    | rewrite decide_True by reflexivity
    | rewrite decide_False by discriminate
    | rewrite decide_False by (let H := fresh in intros H; apply H; reflexivity)
    | rewrite decide_False by (let H := fresh in intros [? H]; apply H; reflexivity)
    | rewrite decide_False by (let H := fresh in intros [H ?]; apply H; reflexivity) ].

Lemma fold_fields_nil {E S R} (body : S → Tag → list Z → outcome E (S + R)) s : fold_fields body [] s = Ok (inl s).
Proof. done. Qed.

Lemma fold_fields_cons {E S R} (body : S → Tag → list Z → outcome E (S + R)) t c cs s :
  fold_fields body ((t, c) :: cs) s =
  (r ← body s t c; match r with inl s => fold_fields body cs s | inr r => Ok (inr r) end).
Proof. done. Qed.

(** One round over a known field. *)
Ltac round := first [rewrite fold_fields_cons; cbv beta | rewrite fold_fields_nil]; tags; run.

Lemma each_tlv_fields {E S R} bad (body : S → Tag → list Z → outcome E (S + R)) cs :
  Forall field_ok cs → ∀ fuel pre s, (length cs < fuel)%nat →
  each_tlv bad body fuel (dec_at pre (children_octets cs)) s = fold_fields body cs s.
Proof.
  induction 1 as [|[t c] cs [Ht Hc] _ IH]; intros fuel pre s Hf.
  - destruct fuel as [|fuel]; [simpl in Hf; lia|]. cbn [each_tlv]. by rewrite more_at.
  - destruct fuel as [|fuel]; [simpl in Hf; lia|]. cbn [each_tlv]. rewrite children_octets_cons, more_at.
    rewrite bool_decide_eq_true_2 by apply append_tlv_ne. rewrite read_tlv_dec_at by done. cbn [fold_fields].
    destruct (body s t c) as [[s'|r]|?| |]; try done. cbn [mbind outcome_bind]. apply IH. simpl in Hf. lia.
Qed.

Lemma each_field_fields {E S R} bad (body : S → Tag → list Z → outcome E (S + R)) cs s :
  Forall field_ok cs → each_field bad body (children_octets cs) s = fold_fields body cs s.
Proof.
  intros Hcs. unfold each_field. rewrite dec_at_nil. apply each_tlv_fields; [done|].
  pose proof (length_children_octets cs). lia.
Qed.

(** *** Fields in sequence *)

Lemma read_field t c cs pre :
  field_ok (t, c) →
  read_tlv (dec_at pre (children_octets ((t, c) :: cs))) =
  Ok ((t, c), dec_at (pre ++ append_tlv [] t c) (children_octets cs)).
Proof. intros [? ?]. rewrite children_octets_cons. by apply read_tlv_dec_at. Qed.

Lemma expect_field t c cs pre :
  field_ok (t, c) →
  expect (dec_at pre (children_octets ((t, c) :: cs))) t =
  Ok (c, dec_at (pre ++ append_tlv [] t c) (children_octets cs)).
Proof. intros [? ?]. rewrite children_octets_cons. by apply expect_at. Qed.

Lemma optional_field t c cs pre :
  field_ok (t, c) →
  optional (dec_at pre (children_octets ((t, c) :: cs))) t =
  Ok (Some c, dec_at (pre ++ append_tlv [] t c) (children_octets cs)).
Proof. intros [? ?]. rewrite children_octets_cons. by apply optional_at. Qed.

Lemma optional_field_other t t' c cs pre :
  tag_wf t → t ≠ t' →
  optional (dec_at pre (children_octets ((t, c) :: cs))) t' =
  Ok (None, dec_at pre (children_octets ((t, c) :: cs))).
Proof. intros ? ?. rewrite children_octets_cons. by apply optional_at_other. Qed.

Lemma optional_field_end t pre :
  optional (dec_at pre (children_octets [])) t = Ok (None, dec_at pre (children_octets [])).
Proof. apply optional_at_end. Qed.

Lemma peek_field t c cs pre : tag_wf t → peek (dec_at pre (children_octets ((t, c) :: cs))) = Ok t.
Proof. intros ?. rewrite children_octets_cons. by apply peek_at. Qed.

Lemma peek_is_field t t' c cs pre :
  tag_wf t → peek_is (dec_at pre (children_octets ((t, c) :: cs))) t' = bool_decide (t = t').
Proof. intros ?. unfold peek_is. by rewrite peek_field. Qed.

Lemma more_fields pre cs : more (dec_at pre (children_octets cs)) = bool_decide (cs ≠ []).
Proof.
  rewrite more_at. destruct cs as [|[t c] cs]; [done|]. rewrite children_octets_cons.
  rewrite !bool_decide_eq_true_2; [done|done|apply append_tlv_ne].
Qed.

Lemma rest_fields pre suf : rest (dec_at pre suf) = Ok suf.
Proof. unfold rest. unfold dec_at. simpl. by apply slice_from_app. Qed.

(** *** Elements as fields *)

(** [e] is written as the field [f]. *)
Definition writes (e : Element) (f : Tag * list Z) : Prop :=
  Element_tags tag_sized e ∧ Element_encode e = append_tlv [] f.1 f.2.

Lemma writes_prim t v : tag_sized t → writes (prim t v) (t, v).
Proof. intros Ht. split; [done|]. apply Element_encode_primitive. Qed.

Lemma writes_raw t v : tag_sized t → tag_constructed t = true → writes (raw_content t v) (t, v).
Proof.
  intros Ht Hc. destruct t as [c k n]. simpl in Hc. subst. split; [done|]. apply Element_encode_raw.
Qed.

Lemma writes_cons t es fs :
  tag_sized t → tag_constructed t = true → Forall2 writes es fs → writes (cons_elem t es) (t, children_octets fs).
Proof.
  intros Ht Hc H. destruct t as [c k n]. simpl in Hc. subst k. unfold cons_elem, set_constructed. simpl.
  assert (Forall (Element_tags tag_sized) es) as Hes by (induction H as [|e f es fs [He _] _ IH]; by constructor).
  split; [by apply Element_tags_children|]. rewrite Element_encode_cons by done. simpl. f_equal.
  unfold children_octets. f_equal. clear Hes.
  induction H as [|e [t c'] es fs [_ He] _ IH]; [done|]. simpl. rewrite He. by f_equal.
Qed.

Lemma writes_fields es fs : Forall2 writes es fs → concat (map Element_encode es) = children_octets fs.
Proof.
  induction 1 as [|e [t c] es fs [_ He] _ IH]; [done|]. simpl. rewrite He, IH. by rewrite children_octets_cons.
Qed.

Lemma writes_size e t c : writes e (t, c) → zlen c < Element_size e.
Proof. intros [Ht He]. rewrite Element_size_encode, He by done. apply append_tlv_longer. Qed.

(** An element on its own. *)
Lemma writes_encode e f : writes e f → Element_encode e = children_octets [f].
Proof. intros [_ ->]. destruct f. by rewrite children_octets_cons, app_nil_r. Qed.

Lemma expect_element e t c :
  writes e (t, c) → field_ok (t, c) →
  expect (Decoder_new (Element_encode e)) t = Ok (c, dec_at (append_tlv [] t c) []).
Proof. intros He Hf. rewrite (writes_encode _ _ He), dec_at_nil. by rewrite expect_field. Qed.

Lemma read_element e t c :
  writes e (t, c) → field_ok (t, c) →
  read_tlv (Decoder_new (Element_encode e)) = Ok ((t, c), dec_at (append_tlv [] t c) []).
Proof. intros He Hf. rewrite (writes_encode _ _ He), dec_at_nil. by rewrite read_field. Qed.

(** *** Pushing *)

Lemma push_cons t es e : Element_push (cons_elem t es) e = cons_elem t (es ++ [e]).
Proof. done. Qed.

(** ** No loop panics, and every loop ends *)

Definition either {S R} (P : S → Prop) (Q : R → Prop) (r : S + R) : Prop :=
  match r with inl s => P s | inr r => Q r end.

Lemma each_tlv_returns {E S R} (P : S → Prop) (Q : R → Prop) bad (body : S → Tag → list Z → outcome E (S + R)) :
  (∀ s e, P s → returns (either P Q) (bad s e)) →
  (∀ s t c, P s → octets c → returns (either P Q) (body s t c)) →
  ∀ fuel d s, dec_wf d → zlen (data d) - off d < Z.of_nat fuel → P s →
  returns (either P Q) (each_tlv bad body fuel d s).
Proof.
  intros Hbad Hbody. induction fuel as [|fuel IH]; intros d s Hd Hf Hs.
  { destruct Hd. lia. }
  cbn [each_tlv]. destruct (more d) eqn:Hm; [|done].
  pose proof (read_tlv_advances d Hd) as Ha. pose proof (reading_read_tlv d Hd) as Hr.
  destruct (read_tlv d) as [[[t c] d']|e| |] eqn:Hread; simpl in Ha, Hr; [|by apply Hbad|done..].
  apply (returns_bind (either P Q)).
  - apply Hbody; [done|]. apply Hr.
  - intros [s'|r] Hs'; [|done]. apply IH; [by destruct Hr| |done].
    destruct Ha as [Hdata ?]. rewrite Hdata. lia.
Qed.

Lemma each_field_returns {E S R} (P : S → Prop) (Q : R → Prop) bad (body : S → Tag → list Z → outcome E (S + R))
    content s :
  (∀ s e, P s → returns (either P Q) (bad s e)) →
  (∀ s t c, P s → octets c → returns (either P Q) (body s t c)) →
  octets content → P s → returns (either P Q) (each_field bad body content s).
Proof.
  intros Hbad Hbody Ho Hs. apply each_tlv_returns; [done|done|by apply Decoder_new_wf| |done].
  unfold Decoder_new. simpl. unfold zlen. lia.
Qed.

Lemma ok_returns {E F A} (P : A → Prop) (m : outcome E A) : returns P m → returns (from_option P True) (ok (F:=F) m).
Proof. by destruct m. Qed.

Lemma ok_settled {E F A} (m : outcome E A) : settled m → settled (ok (F:=F) m).
Proof. by destruct m. Qed.

(** ** Object identifiers as fields *)

Definition oid_octets (o : list Z) : list Z :=
  match append_oid (E:=Empty_set) [] o with Ok c => c | _ => [] end.

Lemma oid_elem_prim {E} t o : oid_wf o → oid_elem (E:=E) t o = Ok (prim t (oid_octets o)).
Proof.
  intros Ho. unfold oid_elem, oid_octets, append_oid. destruct o as [|a0 [|a1 arcs]]; [done..|].
  destruct Ho as (_ & _ & _ & Hr & _). unfold in_u in Hr. rewrite !decide_True by (unfold U32_MAX; lia). done.
Qed.

Lemma decode_oid_octets o : oid_wf o → decode_oid (oid_octets o) = Ok o.
Proof.
  intros Ho. unfold oid_octets. destruct (oid_roundtrip (E:=Empty_set) o Ho) as (c & -> & Hd). done.
Qed.

(** An element there only when its content is not empty. *)
Definition opt_field (t : Tag) (v : list Z) : list (Tag * list Z) := if decide (v = []) then [] else [(t, v)].

Create HintDb writes.

(** Proves that an element is written as given fields, down to the parts the hint
    database knows. *)
Ltac writes :=
  repeat first
    [ apply Forall2_nil_2
    | apply Forall2_cons_2
    | solve [eauto with writes nocore]
    | apply writes_prim; done
    | apply writes_raw; done
    | apply writes_cons; [done|done|] ].

(** ** Steps that return *)

Lemma either_inl {E S R} (P : S → Prop) (Q : R → Prop) (s : S) : P s → returns (E:=E) (either P Q) (Ok (inl s)).
Proof. done. Qed.

Lemma either_inr {E S R} (P : S → Prop) (Q : R → Prop) (r : R) : Q r → returns (E:=E) (either P Q) (Ok (inr r)).
Proof. done. Qed.

Lemma raise_returns {E S R} (P : S → Prop) (Q : R → Prop) (f : Asn1Error → E) s e :
  returns (either P Q) (raise (S:=S) (R:=R) f s e).
Proof. done. Qed.

Lemma leave_returns {E S R} (P : S → Prop) (Q : R → Prop) s e :
  P s → returns (E:=E) (either P Q) (leave (S:=S) (R:=R) s e).
Proof. done. Qed.

Lemma fell_returns {E S R} (P : S → Prop) (Q : R → Prop) (r : outcome E (S + R)) k :
  returns (either P Q) r → (∀ s, P s → returns Q (k s)) → returns Q (fell r k).
Proof. intros Hr Hk. eapply returns_bind; [exact Hr|]. intros [s|x] H; [by apply Hk|done]. Qed.

Lemma whole_returns {E S} (P : S → Prop) (Q : Empty_set → Prop) (r : outcome E (S + Empty_set)) :
  returns (either P Q) r → returns P (whole r).
Proof. intros Hr. eapply returns_bind; [exact Hr|]. by intros [s|[]]. Qed.

Lemma returns_option {E F A} (P : A → Prop) (m : outcome E A) :
  returns P m → returns (λ o, ∀ a, o = Some a → P a) (ok (F:=F) m).
Proof. destruct m; simpl; [|done..]. by intros ? ? [= <-]. Qed.

Lemma decode_int_returns content : octets content → returns (in_i 64) (decode_int content).
Proof.
  intros Ho. apply returns_intro; [by apply decode_prims_settled|]. intros n Hn.
  apply decode_int_inv in Hn as [Hl Hr]; [|done]. apply (in_i_mono (8 * zlen content)); [lia|done].
Qed.

Lemma decode_uint_returns content : octets content → returns (in_u 64) (decode_uint content).
Proof.
  intros Ho. apply returns_intro; [by apply decode_prims_settled|]. intros n Hn. by eapply decode_uint_range.
Qed.

Lemma decode_oid_loop_settled content : ∀ arcs v n, settled (decode_oid_loop content arcs v n).
Proof.
  induction content as [|b content IH]; intros arcs v n; simpl; [by case_decide|].
  case_decide; [done|]. case_decide; [|apply IH]. destruct arcs; apply IH.
Qed.

Lemma decode_oid_settled content : settled (decode_oid content).
Proof. destruct content; [done|]. apply decode_oid_loop_settled. Qed.

Lemma reading_err {E A} (P : A → Prop) (f : Asn1Error → E) (m : outcome Asn1Error (A * Decoder)) :
  reading P m → reading P (map_err f m).
Proof. apply reading_map_err. Qed.
