(* ===== verification/GooseMessage.v ===== *)
(** The GOOSE message and its codec (src/src/goose/message.rs), with the
    errors of src/src/goose/mod.rs. *)

From stdpp Require Import pretty.
From S2P Require Import Prelude Ber BerDecoder Float BerPrim TimeUtil Utf8 Errors MmsValue MmsCodec.
Local Open Scope string_scope.
Local Open Scope list_scope.
Local Open Scope Z_scope.

(** ** Definitions *)

(** [EthernetError] is the message of an error of the interface. *)
Inductive GooseError :=
| GooseCodec (msg : string)
| GooseConfig (msg : string)
| GooseEthernet (msg : string)
| GooseClosed
| GooseFrameTooLarge (msg : string).

(** [From<asn1::Error>]. *)
Definition GooseError_from_asn1 (e : Asn1Error) : GooseError := GooseCodec (Asn1Error_display e).

Record Anomalies := mkAnomalies {
  st_num_regressed : bool;
  sq_num_gap : bool;
  stale : bool;
  entries_mismatch : bool;
}.

Definition Anomalies_default : Anomalies := mkAnomalies false false false false.

Definition Anomalies_any (a : Anomalies) : bool :=
  st_num_regressed a || sq_num_gap a || stale a || entries_mismatch a.

Definition HEADER_LEN : Z := 8.

Definition pdu_tag : Tag := application_constructed 1.

(** Strings are their octets; [m_t] is an instant. *)
Record Message := mkMessage {
  m_go_cb_ref : list Z;
  m_dat_set : list Z;
  m_go_id : list Z;
  m_time_allowed_to_live : Z;
  m_t : option Z;
  m_st_num : Z;
  m_sq_num : Z;
  m_conf_rev : Z;
  m_test : bool;
  m_nds_com : bool;
  m_num_dat_set_entries : Z;
  m_values : list Value;
  m_app_id : Z;
  m_time_quality : option Z;
  m_anomalies : Anomalies;
}.

(** The timestamp [marshal] writes. *)
Definition m_stamp (m : Message) : Value :=
  match m_t m with
  | Some t => utc_time t (default TimeQuality_DEFAULT (m_time_quality m))
  | None => VUtcTime [0; 0; 0; 0; 0; 0; 0; 0]
  end.

Definition marshal {E} (m : Message) : outcome E (list Z) :=
  es ← filter_map_outcome data_element (m_values m);
  let all_data := cons_elem (context_constructed 11) es in
  let t := m_stamp m in
  let fields :=
    [prim (context_primitive 0) (m_go_cb_ref m);
     uint_elem (context_primitive 1) (m_time_allowed_to_live m);
     prim (context_primitive 2) (m_dat_set m);
     prim (context_primitive 3) (m_go_id m);
     prim (context_primitive 4) (Value_bytes t);
     uint_elem (context_primitive 5) (m_st_num m);
     uint_elem (context_primitive 6) (m_sq_num m);
     bool_elem (context_primitive 7) (m_test m);
     uint_elem (context_primitive 8) (m_conf_rev m);
     bool_elem (context_primitive 9) (m_nds_com m);
     uint_elem (context_primitive 10) (m_num_dat_set_entries m);
     all_data] in
  let pdu := cons_elem pdu_tag fields in
  let length := HEADER_LEN + Element_size pdu in
  let buf := to_be 2 (m_app_id m) ++ to_be 2 (u16 length) ++ [0; 0; 0; 0] in
  Ok (Element_append buf pdu).

(** [map_err(|e| Error::Codec(format!("{name}: {e}")))]. *)
Definition in_field (name : string) (e : Asn1Error) : GooseError :=
  GooseCodec (name +:+ ": " +:+ Asn1Error_display e).

Definition string_field (d : Decoder) (tag : Z) (name : string)
    : outcome GooseError (list Z * Decoder) :=
  '(b, d) ← map_err (in_field name) (expect d (context_primitive tag));
  Ok (from_utf8_lossy b, d).

Definition uint32_field (d : Decoder) (tag : Z) (name : string)
    : outcome GooseError (Z * Decoder) :=
  '(b, d) ← map_err (in_field name) (expect d (context_primitive tag));
  v ← map_err (in_field name) (decode_uint b);
  if decide (v > U32_MAX) then Err (GooseCodec (name +:+ " out of range"))
  else Ok (u32 v, d).

(** An optional boolean field, [dflt] when absent. *)
Definition bool_field (d : Decoder) (tag : Z) (name : string) (dflt : bool)
    : outcome GooseError (bool * Decoder) :=
  '(b, d) ← map_err GooseError_from_asn1 (optional d (context_primitive tag));
  match b with
  | Some b => v ← map_err (in_field name) (decode_bool b); Ok (v, d)
  | None => Ok (dflt, d)
  end.

(** The loop over allData; [n] is [m.values.len()]. *)
Fixpoint decode_values (fuel : nat) (n : Z) (inner : Decoder) : outcome GooseError (list Value) :=
  match fuel with
  | O => NoFuel
  | S fuel =>
      if more inner then
        '(v, inner) ← map_err (λ e, GooseCodec
            ("allData member " +:+ pretty n +:+ ": " +:+ MmsError_display e)) (decode_data inner);
        vs ← decode_values fuel (n + 1) inner;
        Ok (v :: vs)
      else Ok []
  end.

(** The fields of the PDU, in their order on the wire. *)
Definition parse_fields (app_id : Z) (content : list Z) : outcome GooseError Message :=
  let d := Decoder_new content in
  '(go_cb_ref, d) ← string_field d 0 "gocbRef";
  '(tatl, d) ← uint32_field d 1 "timeAllowedToLive";
  '(dat_set, d) ← string_field d 2 "datSet";
  '(go_id, d) ← map_err GooseError_from_asn1 (optional d (context_primitive 3));
  let go_id := match go_id with Some b => from_utf8_lossy b | None => [] end in
  '(b, d) ← map_err (in_field "t") (expect d (context_primitive 4));
  tv ← map_err (λ e, GooseCodec ("t: " +:+ MmsError_display e)) (utc_time_raw b);
  '(st_num, d) ← uint32_field d 5 "stNum";
  '(sq_num, d) ← uint32_field d 6 "sqNum";
  '(test, d) ← bool_field d 7 "test" false;
  '(conf_rev, d) ← uint32_field d 8 "confRev";
  '(nds_com, d) ← bool_field d 9 "ndsCom" false;
  '(entries, d) ← uint32_field d 10 "numDatSetEntries";
  '(content, d) ← map_err (in_field "allData") (expect d (context_constructed 11));
  values ← decode_values (S (List.length content)) 0 (Decoder_new content);
  Ok (mkMessage go_cb_ref dat_set go_id tatl (Value_time tv) st_num sq_num conf_rev test
        nds_com entries values app_id (Some (time_quality tv)) Anomalies_default).

Definition parse (apdu : list Z) : outcome GooseError Message :=
  if decide (zlen apdu < HEADER_LEN) then
    Err (GooseCodec ("apdu of " +:+ pretty (zlen apdu) +:+ " octets is truncated"))
  else
    b0 ← idx apdu 0;
    b1 ← idx apdu 1;
    let app_id := from_be [b0; b1] in
    b2 ← idx apdu 2;
    b3 ← idx apdu 3;
    let length := from_be [b2; b3] in
    if decide (length < HEADER_LEN ∨ length > zlen apdu) then
      Err (GooseCodec ("length field " +:+ pretty length +:+ " in an apdu of " +:+
        pretty (zlen apdu) +:+ " octets"))
    else
      pdu ← slice apdu HEADER_LEN length;
      '(content, _) ← map_err GooseError_from_asn1 (expect (Decoder_new pdu) pdu_tag);
      parse_fields app_id content.

(** ** Received messages are well-formed *)

(** The ranges and encodings the Rust types give a message. *)
Definition message_wf (m : Message) : Prop :=
  utf8 (m_go_cb_ref m) = true ∧ utf8 (m_dat_set m) = true ∧ utf8 (m_go_id m) = true ∧
  in_u 32 (m_time_allowed_to_live m) ∧ in_u 32 (m_st_num m) ∧ in_u 32 (m_sq_num m) ∧
  in_u 32 (m_conf_rev m) ∧ in_u 32 (m_num_dat_set_entries m) ∧ in_u 16 (m_app_id m) ∧
  Forall value_wf (m_values m) ∧
  Forall (λ v, (value_depth v ≤ Z.to_nat MAX_VALUE_DEPTH)%nat) (m_values m) ∧
  (∀ t, m_t m = Some t → 0 ≤ t < 2 ^ 32 * NANOS_PER_SEC) ∧
  (∀ q, m_time_quality m = Some q → octet q).

Lemma reading_string_field d tag name :
  dec_wf d → reading (λ s, utf8 s = true) (string_field d tag name).
Proof.
  intros Hd. unfold string_field.
  eapply reading_bind; [by apply reading_map_err, reading_expect|].
  intros b d' Hb Hd'. split; [by apply from_utf8_lossy_utf8|done].
Qed.

Lemma returns_decode_uint b : octets b → returns (in_u 64) (decode_uint b).
Proof.
  intros Hb. apply returns_intro; [by apply decode_prims_settled|]. intros u. by apply decode_uint_range.
Qed.

Lemma reading_uint32_field d tag name :
  dec_wf d → reading (in_u 32) (uint32_field d tag name).
Proof.
  intros Hd. unfold uint32_field.
  eapply reading_bind; [by apply reading_map_err, reading_expect|].
  intros b d' Hb Hd'. eapply returns_bind; [by apply returns_map_err, returns_decode_uint|].
  intros v Hv. case_decide; [done|]. split; [by apply wrap_range|done].
Qed.

Lemma reading_bool_field d tag name dflt :
  dec_wf d → reading (λ _, True) (bool_field d tag name dflt).
Proof.
  intros Hd. unfold bool_field.
  eapply reading_bind; [by apply reading_map_err, reading_optional|].
  intros [b|] d' Hb Hd'; [|done].
  eapply (returns_bind (λ _, True)); [|done].
  destruct (decode_prims_settled b Hb) as [Hs _]. by destruct (decode_bool b).
Qed.

Definition values_ok (vs : list Value) : Prop :=
  Forall value_wf vs ∧ Forall (λ v, (value_depth v ≤ Z.to_nat MAX_VALUE_DEPTH)%nat) vs.

Lemma reading_decode_data d :
  dec_wf d →
  reading (λ v, value_wf v ∧ (value_depth v ≤ Z.to_nat MAX_VALUE_DEPTH)%nat) (decode_data d).
Proof.
  intros Hd. pose proof (decode_data_at_advances (S (Z.to_nat MAX_VALUE_DEPTH)) d Hd) as Hadv.
  apply returns_intro; [by eapply advances_settled|]. intros [v d'] H.
  destruct (decode_data_at_wf _ _ _ _ Hd H) as (? & ? & ?). simpl. split_and!; [done|lia|done].
Qed.

Lemma decode_values_returns fuel n d :
  dec_wf d → zlen (data d) - off d < Z.of_nat fuel → returns values_ok (decode_values fuel n d).
Proof.
  revert n d. induction fuel as [|fuel IH]; intros n d Hd Hf; [unfold dec_wf in Hd; lia|].
  cbn [decode_values]. destruct (more d); [|by split; constructor].
  pose proof (decode_data_at_advances (S (Z.to_nat MAX_VALUE_DEPTH)) d Hd) as Hadv.
  fold (decode_data d) in Hadv. pose proof (reading_decode_data d Hd) as Hr.
  destruct (decode_data d) as [[v d']| | |]; try done. simpl in Hadv, Hr.
  cbn [map_err mbind outcome_bind]. destruct Hadv as [E1 Ho]. destruct Hr as [[Hw Hdep] Hd'].
  eapply returns_bind; [apply IH; [done|rewrite E1; lia]|].
  intros vs [? ?]. split; by constructor.
Qed.

Lemma utc_time_raw_fields b tv :
  octets b → utc_time_raw b = Ok tv →
  (∀ t, Value_time tv = Some t → 0 ≤ t < 2 ^ 32 * NANOS_PER_SEC) ∧ octet (time_quality tv).
Proof.
  intros Hb. unfold utc_time_raw. case_decide as H8; [|done]. intros [= <-].
  destruct b as [|b0 [|b1 [|b2 [|b3 [|b4 [|b5 [|b6 [|b7 [|b8 l]]]]]]]]]; try (exfalso; zlen).
  unfold octets in Hb. rewrite !Forall_cons in Hb. destruct Hb as (H0 & H1 & H2 & H3 & H4 & H5 & H6 & H7 & _).
  split; [|done]. intros t [= <-].
  pose proof (from_be_range [b0; b1; b2; b3]) as Hs.
  assert (in_u 24 (Z.lor (Z.lor (Z.shiftl b4 16) (Z.shiftl b5 8)) b6)) as Hf.
  { unfold octet in *. apply lor_range; [lia|apply lor_range; [lia|..]|unfold in_u; lia];
      unfold in_u; rewrite Z.shiftl_mul_pow2 by lia; lia. }
  set (f := Z.lor _ b6) in *. clearbody f. unfold in_u in Hf.
  rewrite Z.shiftr_div_pow2 by lia. unfold u32. rewrite wrap_id by (unfold in_u; dlia).
  rewrite from_unix_eq. unfold NANOS_PER_SEC.
  assert (0 ≤ from_be [b0; b1; b2; b3] < 2 ^ 32) as Hs' 
    by (apply Hs; solve_octets).
  clear Hs. set (s := from_be _) in *. clearbody s. dlia.
Qed.

Lemma parse_fields_wf app_id content :
  in_u 16 app_id → octets content → returns message_wf (parse_fields app_id content).
Proof.
  intros Happ Hc. unfold parse_fields. pose proof (Decoder_new_wf content Hc) as Hd. revert Hd.
  generalize (Decoder_new content). clear Hc content. intros d Hd.
  eapply reading_bind; [by apply reading_string_field|]. intros go_cb_ref d1 Hgo Hd1.
  eapply reading_bind; [by apply reading_uint32_field|]. intros tatl d2 Htatl Hd2.
  eapply reading_bind; [by apply reading_string_field|]. intros dat_set d3 Hds Hd3.
  eapply reading_bind; [by apply reading_map_err, reading_optional|]. intros go_id d4 Hid Hd4.
  eapply reading_bind; [by apply reading_map_err, reading_expect|]. intros b d5 Hb Hd5.
  destruct (utc_time_raw b) as [tv| | |] eqn:Htv; try done;
    [|unfold utc_time_raw in Htv; by case_decide..].
  apply utc_time_raw_fields in Htv as [Ht Hq]; [|done]. cbn [map_err mbind outcome_bind].
  eapply reading_bind; [by apply reading_uint32_field|]. intros st_num d6 Hst Hd6.
  eapply reading_bind; [by apply reading_uint32_field|]. intros sq_num d7 Hsq Hd7.
  eapply reading_bind; [by apply reading_bool_field|]. intros test d8 _ Hd8.
  eapply reading_bind; [by apply reading_uint32_field|]. intros conf_rev d9 Hcr Hd9.
  eapply reading_bind; [by apply reading_bool_field|]. intros nds d10 _ Hd10.
  eapply reading_bind; [by apply reading_uint32_field|]. intros entries d11 Hen Hd11.
  eapply reading_bind; [by apply reading_map_err, reading_expect|]. intros c d12 Hc _.
  eapply returns_bind.
  { apply decode_values_returns; [by apply Decoder_new_wf|]. simpl. unfold zlen. lia. }
  intros vs [Hvw Hvd]. unfold message_wf. simpl. split_and!; try done.
  - destruct go_id as [g|]; [by apply from_utf8_lossy_utf8|done].
  - intros q [= <-]. done.
Qed.

(** Receiving GOOSE is safe. Whatever octets arrive after the EtherType,
    [parse] returns without panicking, and a message it returns has valid UTF-8
    strings, counters in their ranges, and well-formed values nested at most
    [MAX_VALUE_DEPTH] deep. *)
Theorem parse_safe (apdu : list Z) :
  octets apdu → settled (parse apdu) ∧ ∀ m, parse apdu = Ok m → message_wf m.
Proof.
  intros Ho. cut (returns message_wf (parse apdu)).
  { intros H. split; [by eapply returns_settled|]. intros m. by apply returns_Ok. }
  unfold parse, HEADER_LEN. case_decide as Hlen; [done|].
  destruct (idx_Ok (E:=GooseError) apdu 0) as (b0 & H0 & _); [lia|].
  destruct (idx_Ok (E:=GooseError) apdu 1) as (b1 & H1 & _); [lia|].
  destruct (idx_Ok (E:=GooseError) apdu 2) as (b2 & H2 & _); [lia|].
  destruct (idx_Ok (E:=GooseError) apdu 3) as (b3 & H3 & _); [lia|].
  rewrite H0, H1, H2, H3. cbn [mbind outcome_bind].
  apply idx_octet in H0, H1; [|done..].
  case_decide as Hl; [done|].
  destruct (slice apdu 8 (from_be [b2; b3])) as [pdu| | |] eqn:Hs; try done.
  2: { rewrite slice_Ok in Hs by lia. done. }
  2: { rewrite slice_Ok in Hs by lia. done. }
  apply octets_slice in Hs; [|done]. cbn [mbind outcome_bind].
  eapply reading_bind; [by apply reading_map_err, reading_expect, Decoder_new_wf|].
  intros content d0 Hc _. apply parse_fields_wf; [|done].
  apply (from_be_range [b0; b1]). solve_octets.
Qed.
Lemma parse_safe_witness :
  octets [0x10; 0; 0; 9; 0; 0; 0; 0; 0x61] ∧
  settled (parse [0x10; 0; 0; 9; 0; 0; 0; 0; 0x61]) ∧
  parse [0x10; 0; 0; 9; 0; 0; 0; 0; 0x61] =
    Err (GooseCodec "asn1: truncated element while reading length at offset 1").
Proof.
  assert (octets [0x10; 0; 0; 9; 0; 0; 0; 0; 0x61]) as H by (repeat constructor; lia).
  split; [exact H|]. split; [|vm_compute; reflexivity]. exact (proj1 (parse_safe _ H)).
Defined.

(** ** Round trip *)

(** A message as the subscriber gets it: the timestamp at the resolution of its
    24-bit fraction, values as MMS data are sent, nothing flagged yet. *)
Definition received (m : Message) : Message :=
  mkMessage (m_go_cb_ref m) (m_dat_set m) (m_go_id m) (m_time_allowed_to_live m)
    (Value_time (m_stamp m)) (m_st_num m) (m_sq_num m) (m_conf_rev m) (m_test m) (m_nds_com m)
    (m_num_dat_set_entries m) (map sent (m_values m)) (m_app_id m)
    (Some (time_quality (m_stamp m))) Anomalies_default.

(** The content octets of the twelve fields, allData as [all]. *)
Definition field_octets (m : Message) (all : list Z) : list (list Z) :=
  [append_tlv [] (context_primitive 0) (m_go_cb_ref m);
   append_tlv [] (context_primitive 1) (append_uint [] (m_time_allowed_to_live m));
   append_tlv [] (context_primitive 2) (m_dat_set m);
   append_tlv [] (context_primitive 3) (m_go_id m);
   append_tlv [] (context_primitive 4) (Value_bytes (m_stamp m));
   append_tlv [] (context_primitive 5) (append_uint [] (m_st_num m));
   append_tlv [] (context_primitive 6) (append_uint [] (m_sq_num m));
   append_tlv [] (context_primitive 7) (if m_test m then [0xff] else [0x00]);
   append_tlv [] (context_primitive 8) (append_uint [] (m_conf_rev m));
   append_tlv [] (context_primitive 9) (if m_nds_com m then [0xff] else [0x00]);
   append_tlv [] (context_primitive 10) (append_uint [] (m_num_dat_set_entries m));
   append_tlv [] (context_constructed 11) all].

Definition pdu_octets (m : Message) (all : list Z) : list Z :=
  append_tlv [] pdu_tag (concat (field_octets m all)).

Lemma marshal_eq {E} m :
  message_wf m →
  ∃ encs,
    marshal (E:=E) m =
      Ok ((to_be 2 (m_app_id m) ++ to_be 2 (u16 (8 + zlen (pdu_octets m (concat encs)))) ++
            [0; 0; 0; 0]) ++ pdu_octets m (concat encs)) ∧
    (Forall (λ e, zlen e < 2 ^ 32) encs → Forall2 (reads decode_data) (map sent (m_values m)) encs).
Proof.
  intros (_ & _ & _ & _ & _ & _ & _ & _ & _ & Hw & Hdep & _).
  destruct (elements_of (E:=E) (S (Z.to_nat MAX_VALUE_DEPTH)) (m_values m)) as (es & Hes & Hts & Hr).
  { revert Hw Hdep. rewrite !Forall_forall. intros Hw Hdep v Hv.
    apply value_encodes; [by apply Hw|]. specialize (Hdep v Hv). lia. }
  exists (map Element_encode es). split; [|by rewrite Forall_map].
  unfold marshal. rewrite Hes. cbn [mbind outcome_bind]. set (fields := _ :: _).
  assert (Forall (Element_tags tag_sized) fields) as Hf.
  { unfold fields, prim, uint_elem, bool_elem, cons_elem, prim.
    repeat (apply Forall_cons; split;
      [first [apply Element_tags_children; split; [|done]|idtac]; unfold Element_tags, tag_sized; simpl; lia|]).
    constructor. }
  assert (Element_encode (cons_elem pdu_tag fields) = pdu_octets m (concat (map Element_encode es))) as He.
  { unfold cons_elem. rewrite Element_encode_cons by done. unfold pdu_octets.
    f_equal. unfold fields, field_octets. simpl map. repeat f_equal.
    unfold cons_elem. by rewrite Element_encode_cons. }
  rewrite Element_append_app, Element_size_encode, He; [done|].
  unfold cons_elem. apply Element_tags_children. by split; [unfold tag_sized; simpl|].
Qed.

Lemma tag_wf_context n c : 0 ≤ n < 31 → tag_wf (Tag_new ContextSpecific c n).
Proof. intros. unfold tag_wf, in_u. simpl. lia. Qed.

Lemma string_field_at tag name s pre suf :
  0 ≤ tag < 31 → utf8 s = true → zlen s < 2 ^ 32 →
  string_field (dec_at pre (append_tlv [] (context_primitive tag) s ++ suf)) tag name =
  Ok (s, dec_at (pre ++ append_tlv [] (context_primitive tag) s) suf).
Proof.
  intros Ht Hs Hl. unfold string_field.
  rewrite expect_at by (done || by apply tag_wf_context). cbn [map_err mbind outcome_bind].
  by rewrite from_utf8_lossy_valid.
Qed.

Lemma uint_octets_short v : in_u 64 v → zlen (append_uint [] v) < 2 ^ 32.
Proof.
  intros Hv. destruct (uint_size_spec v Hv) as [Hr _].
  rewrite append_uint_eq by done. simpl. rewrite zlen_to_be. lia.
Qed.

Lemma uint32_field_at tag name v pre suf :
  0 ≤ tag < 31 → in_u 32 v →
  uint32_field (dec_at pre (append_tlv [] (context_primitive tag) (append_uint [] v) ++ suf)) tag name =
  Ok (v, dec_at (pre ++ append_tlv [] (context_primitive tag) (append_uint [] v)) suf).
Proof.
  intros Ht Hv. assert (in_u 64 v) by (unfold in_u in *; lia). unfold uint32_field.
  rewrite expect_at by (by apply tag_wf_context || by apply uint_octets_short).
  cbn [map_err mbind outcome_bind]. rewrite decode_append_uint by done.
  cbn [map_err mbind outcome_bind]. rewrite decide_False by (unfold in_u, U32_MAX in *; lia).
  unfold u32. by rewrite wrap_id.
Qed.

Lemma bool_field_at tag name (b dflt : bool) pre suf :
  0 ≤ tag < 31 →
  bool_field (dec_at pre (append_tlv [] (context_primitive tag) (if b then [0xff] else [0x00]) ++ suf))
    tag name dflt =
  Ok (b, dec_at (pre ++ append_tlv [] (context_primitive tag) (if b then [0xff] else [0x00])) suf).
Proof.
  intros Ht. unfold bool_field.
  rewrite optional_at by (by apply tag_wf_context || by destruct b).
  cbn [map_err mbind outcome_bind]. by destruct b.
Qed.

Lemma decode_values_concat vs encs fuel n pre :
  Forall2 (reads decode_data) vs encs → (length vs < fuel)%nat →
  decode_values fuel n (dec_at pre (concat encs)) = Ok vs.
Proof.
  intros H. revert fuel n pre. induction H as [|v enc vs encs [Hne Hr] H IH]; intros fuel n pre Hf;
    (destruct fuel as [|fuel]; [simpl in Hf; lia|]); cbn [decode_values concat]; rewrite more_at.
  - done.
  - rewrite bool_decide_eq_true_2 by (destruct enc; done).
    rewrite Hr. cbn [map_err mbind outcome_bind]. rewrite IH by (simpl in Hf; lia). done.
Qed.

(** The fields after the header, read in order from the content of the PDU. *)
Lemma stamp_bytes m :
  message_wf m →
  octets (Value_bytes (m_stamp m)) ∧ zlen (Value_bytes (m_stamp m)) = 8 ∧
  utc_time_raw (Value_bytes (m_stamp m)) = Ok (m_stamp m).
Proof.
  intros Hm. assert (∀ q, m_time_quality m = Some q → octet q) as Hq by apply Hm.
  unfold m_stamp. destruct (m_t m) as [t|].
  - unfold utc_time. destruct (unix_parts t) as [secs nanos]. unfold utc_time_parts, Value_bytes.
    split_and!; [|done..].
    do 7 (apply octets_cons; split; [apply u8_octet|]).
    apply octets_cons. split; [|apply octets_nil].
    destruct (m_time_quality m) as [q|]; [by apply Hq|done].
  - split_and!; [|done..]. simpl. solve_octets.
Qed.

(** Removes the leading field of what is left to read. *)
Ltac next_field lem := rewrite <-?app_assoc; rewrite lem; cbn [map_err mbind outcome_bind].

Lemma parse_fields_marshal m encs :
  message_wf m → zlen (concat (field_octets m (concat encs))) < 65535 →
  (Forall (λ e, zlen e < 2 ^ 32) encs → Forall2 (reads decode_data) (map sent (m_values m)) encs) →
  parse_fields (m_app_id m) (concat (field_octets m (concat encs))) = Ok (received m).
Proof.
  intros Hm Hcont Hr.
  pose proof Hm as (Hcb & Hds & Hid & Htatl & Hst & Hsq & Hcr & Hen & Happ & _).
  destruct (stamp_bytes m Hm) as (Hso & Hs8 & Hsraw).
  assert (∀ t c, append_tlv [] t c ∈ field_octets m (concat encs) → zlen c < 2 ^ 32) as Hshort.
  { intros t c Hf. apply zlen_concat_le in Hf. pose proof (append_tlv_longer t c). lia. }
  assert (zlen (m_go_cb_ref m) < 2 ^ 32 ∧ zlen (m_dat_set m) < 2 ^ 32 ∧
          zlen (m_go_id m) < 2 ^ 32 ∧ zlen (concat encs) < 2 ^ 32) as (L0 & L2 & L3 & L11).
  { split_and!; [apply (Hshort (context_primitive 0))|apply (Hshort (context_primitive 2))
      |apply (Hshort (context_primitive 3))|apply (Hshort (context_constructed 11))];
      unfold field_octets; rewrite !elem_of_cons; tauto. }
  clear Hshort. assert (Forall (λ e, zlen e < 2 ^ 32) encs) as Hencs.
  { apply Forall_forall. intros e He. apply zlen_concat_le in He. lia. }
  specialize (Hr Hencs). unfold parse_fields. rewrite dec_at_nil. unfold field_octets. cbn [concat].
  rewrite string_field_at by done.
  cbn [map_err mbind outcome_bind]. rewrite uint32_field_at by done.
  cbn [map_err mbind outcome_bind].
  rewrite string_field_at by done.
  cbn [map_err mbind outcome_bind].
  rewrite optional_at by (by apply tag_wf_context || done).
  cbn [map_err mbind outcome_bind]. rewrite from_utf8_lossy_valid by done.
  rewrite expect_at by (by apply tag_wf_context || lia).
  cbn [map_err mbind outcome_bind]. rewrite Hsraw.
  cbn [map_err mbind outcome_bind]. rewrite uint32_field_at by done.
  cbn [map_err mbind outcome_bind]. rewrite uint32_field_at by done.
  cbn [map_err mbind outcome_bind]. rewrite bool_field_at by done.
  cbn [map_err mbind outcome_bind]. rewrite uint32_field_at by done.
  cbn [map_err mbind outcome_bind]. rewrite bool_field_at by done.
  cbn [map_err mbind outcome_bind]. rewrite uint32_field_at by done.
  cbn [map_err mbind outcome_bind].
  rewrite expect_at by (by apply tag_wf_context || done).
  cbn [map_err mbind outcome_bind]. rewrite (dec_at_nil (concat encs)), decode_values_concat with (vs := map sent (m_values m)).
  - done.
  - done.
  - pose proof (reads_length _ _ _ Hr). lia.
Qed.

Lemma parse_header_pdu app pdu pad :
  in_u 16 app → zlen pdu + 8 ≤ 65535 →
  parse (((to_be 2 app ++ to_be 2 (8 + zlen pdu) ++ [0; 0; 0; 0]) ++ pdu) ++ pad) =
  ('(content, _) ← map_err GooseError_from_asn1 (expect (Decoder_new pdu) pdu_tag);
   parse_fields app content).
Proof.
  intros Happ Hp. pose proof (zlen_nonneg pdu) as Hp0. pose proof (zlen_nonneg pad) as Hpad.
  unfold parse, HEADER_LEN. set (hdr := to_be 2 app ++ to_be 2 (8 + zlen pdu) ++ [0; 0; 0; 0]).
  assert (zlen hdr = 8) as H8 by done.
  assert (zlen ((hdr ++ pdu) ++ pad) = 8 + zlen pdu + zlen pad) as Hz by (rewrite !zlen_app; lia).
  rewrite Hz, decide_False by lia.
  assert (∀ i a, hdr !! Z.to_nat i = Some a → 0 ≤ i → idx (E:=GooseError) ((hdr ++ pdu) ++ pad) i = Ok a) as Hi.
  { intros i a Ha Hi. apply idx_lookup; [done|]. rewrite <-app_assoc.
    by apply lookup_app_l_Some. }
  rewrite !(Hi 0 _ eq_refl), !(Hi 1 _ eq_refl), !(Hi 2 _ eq_refl), !(Hi 3 _ eq_refl) by done.
  cbn [mbind outcome_bind].
  change [u8 (app / 256 ^ Z.of_nat 1); u8 (app / 256 ^ Z.of_nat 0)] with (to_be 2 app).
  change [u8 ((8 + zlen pdu) / 256 ^ Z.of_nat 1); u8 ((8 + zlen pdu) / 256 ^ Z.of_nat 0)]
    with (to_be 2 (8 + zlen pdu)).
  rewrite !from_to_be, !Z.mod_small by (unfold in_u in Happ; change (256 ^ Z.of_nat 2) with 65536; lia).
  rewrite decide_False by lia. rewrite <-app_assoc, slice_app_mid by lia. done.
Qed.

(** GOOSE messages round trip. A well-formed message is marshalled, and if
    the APDU fits its 16-bit length field, [parse] of it, with any padding behind
    it, returns the message with every string, counter and flag as published, the
    values as MMS data are sent and the timestamp at the resolution of its
    fraction, in the same second and at most 60 ns early. *)
Theorem message_roundtrip {E} (m : Message) (pad : list Z) :
  message_wf m →
  ∃ buf, marshal (E:=E) m = Ok buf ∧
    (zlen buf ≤ 65535 → parse (buf ++ pad) = Ok (received m)) ∧
    ∀ t, m_t m = Some t → ∃ t', m_t (received m) = Some t' ∧ t - 60 ≤ t' ≤ t.
Proof.
  intros Hm. destruct (marshal_eq (E:=E) m Hm) as (encs & Hbuf & Hr).
  eexists. split; [exact Hbuf|]. split.
  - set (pdu := pdu_octets m (concat encs)). rewrite !zlen_app, !zlen_to_be.
    change (zlen [0; 0; 0; 0]) with 4. intros Hlen.
    assert (u16 (8 + zlen pdu) = 8 + zlen pdu) as ->.
    { apply wrap_id. unfold in_u. pose proof (zlen_nonneg pdu). lia. }
    rewrite parse_header_pdu; [|by apply Hm|lia].
    pose proof (append_tlv_longer pdu_tag (concat (field_octets m (concat encs)))) as Hl.
    fold (pdu_octets m (concat encs)) in Hl. fold pdu in Hl.
    unfold pdu, pdu_octets. rewrite dec_at_nil, <-(app_nil_r (append_tlv _ _ _)), expect_at by (done || lia).
    cbn [map_err mbind outcome_bind]. apply parse_fields_marshal; [done|lia|done].
  - intros t Ht. simpl. unfold m_stamp. rewrite Ht.
    destruct (utc_time_close t (default TimeQuality_DEFAULT (m_time_quality m))) as (t' & -> & Hc & _).
    { by apply Hm. }
    eauto.
Qed.
Definition sample_message : Message :=
  mkMessage [73; 69; 68; 49] [76; 68; 48] [] 2000 (Some 1786838400000000000) 7 3 1 false true 2
    [VBoolean true; VBitString (mkBitString [0; 0] 13)] 0x1000 None Anomalies_default.
Lemma message_roundtrip_witness :
  message_wf sample_message ∧
  ∃ buf, marshal (E:=unit) sample_message = Ok buf ∧
    (zlen buf ≤ 65535 → parse (buf ++ [0; 0; 0]) = Ok (received sample_message)) ∧
    ∀ t, m_t sample_message = Some t →
      ∃ t', m_t (received sample_message) = Some t' ∧ t - 60 ≤ t' ≤ t.
Proof.
  assert (message_wf sample_message) as H.
  { unfold message_wf, in_u. simpl. split_and!; try reflexivity; try lia.
    - repeat constructor; simpl; lia.
    - repeat constructor; simpl; lia.
    - intros t [= <-]. unfold NANOS_PER_SEC. lia.
    - intros q [=]. }
  split; [exact H|]. exact (message_roundtrip sample_message [0; 0; 0] H).
Defined.
