(* ===== verification/Ethernet.v ===== *)
(** Ethernet II frames with an optional 802.1Q tag
    (src/src/ethernet/frame.rs, src/src/ethernet/mod.rs). *)

From stdpp Require Import pretty.
From S2P Require Import Prelude BerPrim.
Local Open Scope string_scope.
Local Open Scope list_scope.
Local Open Scope Z_scope.

(** ** Definitions *)

Definition ETHER_TYPE_GOOSE : Z := 0x88b8.
Definition ETHER_TYPE_SV : Z := 0x88ba.
Definition MAX_PAYLOAD : Z := 1500.
Definition ETHER_TYPE_VLAN : Z := 0x8100.

Inductive EthernetError :=
| EthFrame (msg : string)
| EthIo (msg : string)
| EthClosed
| EthUnsupported.

Record VlanTag := mkVlanTag {
  vt_priority : Z;
  vt_dei : bool;
  vt_vid : Z;
}.

Definition VlanTag_priority (priority : Z) : VlanTag := mkVlanTag (Z.land priority 7) false 0.

Definition tci (v : VlanTag) : Z :=
  let tci := u16 (Z.shiftl (Z.land (vt_priority v) 7) 13) in
  let tci := if vt_dei v then Z.lor tci (Z.shiftl 1 12) else tci in
  Z.lor tci (Z.land (vt_vid v) 0x0fff).

Definition from_tci (tci : Z) : VlanTag :=
  mkVlanTag (u8 (Z.shiftr tci 13)) (bool_decide (Z.land tci (Z.shiftl 1 12) ≠ 0))
    (Z.land tci 0x0fff).

(** The addresses are six octets. *)
Record Frame := mkFrame {
  fr_src : list Z;
  fr_dst : list Z;
  fr_ether_type : Z;
  fr_vlan : option VlanTag;
  fr_payload : list Z;
}.

Definition HEADER_LEN : Z := 14.
Definition VLAN_LEN : Z := 4.

Definition encoded_len (f : Frame) : Z :=
  HEADER_LEN + zlen (fr_payload f) + (if fr_vlan f then VLAN_LEN else 0).

Definition Frame_marshal (f : Frame) : list Z :=
  fr_dst f ++ fr_src f ++
  (match fr_vlan f with
   | Some v => to_be 2 ETHER_TYPE_VLAN ++ to_be 2 (tci v)
   | None => []
   end) ++
  to_be 2 (fr_ether_type f) ++ fr_payload f.

Definition parse_frame (b : list Z) : outcome EthernetError Frame :=
  if decide (zlen b < HEADER_LEN) then
    Err (EthFrame ("frame of " +:+ pretty (zlen b) +:+ " octets is too short"))
  else
    dst ← slice b 0 6;
    src ← slice b 6 12;
    b12 ← idx b 12;
    b13 ← idx b 13;
    let et := from_be [b12; b13] in
    if decide (et = ETHER_TYPE_VLAN) then
      if decide (zlen b < HEADER_LEN + VLAN_LEN) then
        Err (EthFrame ("802.1Q frame of " +:+ pretty (zlen b) +:+ " octets is too short"))
      else
        b14 ← idx b 14;
        b15 ← idx b 15;
        b16 ← idx b 16;
        b17 ← idx b 17;
        payload ← slice_from b (HEADER_LEN + VLAN_LEN);
        Ok (mkFrame src dst (from_be [b16; b17]) (Some (from_tci (from_be [b14; b15]))) payload)
    else
      payload ← slice_from b HEADER_LEN;
      Ok (mkFrame src dst et None payload).

(** ** Round trip *)

Definition vlan_wf (v : VlanTag) : Prop := 0 ≤ vt_priority v < 8 ∧ 0 ≤ vt_vid v < 4096.

Definition frame_wf (f : Frame) : Prop :=
  zlen (fr_src f) = 6 ∧ zlen (fr_dst f) = 6 ∧ in_u 16 (fr_ether_type f) ∧
  (∀ v, fr_vlan f = Some v → vlan_wf v) ∧ (fr_vlan f = None → fr_ether_type f ≠ ETHER_TYPE_VLAN).

Lemma tci_eq v :
  vlan_wf v → tci v = vt_priority v * 8192 + Z.b2z (vt_dei v) * 4096 + vt_vid v.
Proof.
  intros [Hp Hv]. unfold tci. rewrite !(land_ones_mod _ 3) by done.
  rewrite (land_ones_mod _ 12) by done. rewrite !Z.mod_small by lia.
  unfold u16. rewrite wrap_id by (unfold in_u; rewrite Z.shiftl_mul_pow2 by lia; lia).
  destruct (vt_dei v); simpl Z.b2z.
  - change (Z.shiftl 1 12) with 4096. rewrite (lor_shiftl_add _ 4096 13) by lia.
    replace (vt_priority v * 2 ^ 13 + 4096) with (Z.shiftl (vt_priority v * 2 + 1) 12)
      by (rewrite Z.shiftl_mul_pow2 by lia; lia).
    rewrite lor_shiftl_add by lia. lia.
  - replace (Z.shiftl (vt_priority v) 13) with (Z.shiftl (vt_priority v * 2) 12)
      by (rewrite !Z.shiftl_mul_pow2 by lia; lia).
    rewrite lor_shiftl_add by lia. lia.
Qed.

Lemma from_tci_tci v : vlan_wf v → from_tci (tci v) = v ∧ in_u 16 (tci v).
Proof.
  intros Hw. rewrite tci_eq by done. destruct v as [p dei vid], Hw as [Hp Hv]. simpl in *.
  set (n := p * 8192 + Z.b2z dei * 4096 + vid).
  assert (0 ≤ Z.b2z dei ≤ 1) by (by destruct dei).
  split; [|unfold in_u; subst n; lia].
  unfold from_tci. f_equal.
  - rewrite (shiftr_div _ 13 8192) by done. rewrite u8_id; unfold octet; subst n; dlia.
  - change (Z.shiftl 1 12) with (2 ^ 12). rewrite land_pow2 by lia.
    rewrite Z.testbit_odd, Z.shiftr_div_pow2 by lia.
    assert (n / 2 ^ 12 = 2 * p + Z.b2z dei) as -> by (subst n; change (2 ^ 12) with 4096; dlia).
    rewrite Z.add_comm, Z.odd_add_mul_2. by destruct dei.
  - rewrite (land_ones_mod _ 12) by done. subst n. change (2 ^ 12) with 4096. dlia.
Qed.

Lemma six_octets (l : list Z) : zlen l = 6 → ∃ a b c d e f, l = [a; b; c; d; e; f].
Proof.
  intros H. destruct l as [|a [|b [|c [|d [|e [|f [|g l]]]]]]]; try (exfalso; zlen). by repeat eexists.
Qed.

(** Ethernet frames round trip. A frame with six-octet addresses and, when
    tagged, a priority and VLAN identifier in their ranges, is parsed back from
    its octets with its tag, EtherType and payload; an untagged frame must not
    carry the tag's own EtherType. The octets are [encoded_len] many. *)
Theorem frame_roundtrip (f : Frame) :
  frame_wf f → parse_frame (Frame_marshal f) = Ok f ∧ zlen (Frame_marshal f) = encoded_len f.
Proof.
  destruct f as [src dst et vlan payload]. intros (Hs & Hd & He & Hv & Hne). simpl in *.
  destruct (six_octets src Hs) as (s0 & s1 & s2 & s3 & s4 & s5 & ->).
  destruct (six_octets dst Hd) as (d0 & d1 & d2 & d3 & d4 & d5 & ->).
  pose proof (zlen_nonneg payload).
  unfold Frame_marshal, parse_frame, encoded_len, HEADER_LEN, VLAN_LEN, slice_from.
  cbn [fr_src fr_dst fr_ether_type fr_vlan fr_payload].
  destruct vlan as [v|].
  - destruct (from_tci_tci v) as [Ht Hr]; [by apply Hv|].
    set (b14 := u8 (tci v / 256 ^ Z.of_nat 1)). set (b15 := u8 (tci v / 256 ^ Z.of_nat 0)).
    change (to_be 2 ETHER_TYPE_VLAN) with [129; 0]. change (to_be 2 (tci v)) with [b14; b15].
    change (to_be 2 et) with [u8 (et / 256 ^ Z.of_nat 1); u8 (et / 256 ^ Z.of_nat 0)].
    cbn [app]. split; [|zlen]. rewrite !decide_False by zlen. rewrite !slice_Ok by zlen.
    cbn [mbind outcome_bind]. set (b := d0 :: _).
    rewrite (idx_lookup b 12 129 ltac:(lia) eq_refl), (idx_lookup b 13 0 ltac:(lia) eq_refl).
    rewrite (idx_lookup b 14 b14 ltac:(lia) eq_refl), (idx_lookup b 15 b15 ltac:(lia) eq_refl).
    rewrite (idx_lookup b 16 (u8 (et / 256 ^ Z.of_nat 1)) ltac:(lia) eq_refl),
      (idx_lookup b 17 (u8 (et / 256 ^ Z.of_nat 0)) ltac:(lia) eq_refl).
    cbn [mbind outcome_bind]. rewrite decide_True by done.
    change [b14; b15] with (to_be 2 (tci v)).
    change [u8 (et / 256 ^ Z.of_nat 1); u8 (et / 256 ^ Z.of_nat 0)] with (to_be 2 et).
    rewrite !from_to_be, !Z.mod_small, Ht by done. rewrite decide_False by (subst b; zlen). do 2 f_equal.
    change (drop (Z.to_nat (14 + 4)) b) with payload. subst b.
    rewrite firstn_all2; [done|]. rewrite !zlen_cons. unfold zlen. lia.
  - change (to_be 2 et) with [u8 (et / 256 ^ Z.of_nat 1); u8 (et / 256 ^ Z.of_nat 0)].
    cbn [app]. split; [|zlen]. rewrite decide_False by zlen.
    rewrite (slice_Ok _ 0 6), (slice_Ok _ 6 12) by zlen.
    cbn [mbind outcome_bind]. set (b := d0 :: _).
    rewrite (idx_lookup b 12 (u8 (et / 256 ^ Z.of_nat 1)) ltac:(lia) eq_refl),
      (idx_lookup b 13 (u8 (et / 256 ^ Z.of_nat 0)) ltac:(lia) eq_refl).
    cbn [mbind outcome_bind].
    change [u8 (et / 256 ^ Z.of_nat 1); u8 (et / 256 ^ Z.of_nat 0)] with (to_be 2 et).
    rewrite !from_to_be, !Z.mod_small by done. rewrite decide_False by auto.
    rewrite slice_Ok by (subst b; zlen). cbn [mbind outcome_bind]. do 2 f_equal.
    change (drop (Z.to_nat 14) b) with payload. subst b.
    rewrite firstn_all2; [done|]. rewrite !zlen_cons. unfold zlen. lia.
Qed.
Lemma frame_roundtrip_witness :
  frame_wf (mkFrame [0; 17; 34; 51; 68; 85] [1; 12; 205; 1; 0; 1] ETHER_TYPE_GOOSE
    (Some (mkVlanTag 4 false 10)) [0x61; 3; 0x80; 1; 0]) ∧
  parse_frame (Frame_marshal (mkFrame [0; 17; 34; 51; 68; 85] [1; 12; 205; 1; 0; 1] ETHER_TYPE_GOOSE
    (Some (mkVlanTag 4 false 10)) [0x61; 3; 0x80; 1; 0])) =
  Ok (mkFrame [0; 17; 34; 51; 68; 85] [1; 12; 205; 1; 0; 1] ETHER_TYPE_GOOSE
    (Some (mkVlanTag 4 false 10)) [0x61; 3; 0x80; 1; 0]).
Proof.
  set (f := mkFrame _ _ _ _ _). assert (frame_wf f) as H.
  { split; [reflexivity|]. split; [reflexivity|]. split; [vm_compute; split; congruence|].
    split; [intros v [= <-]; vm_compute; repeat split; congruence|intros [=]]. }
  split; [exact H|]. exact (proj1 (frame_roundtrip f H)).
Defined.
