(* ===== verification/GooseSubscriber.v ===== *)
(** The GOOSE subscriber (src/src/goose/subscriber.rs): the filter, the
    sequence tracker, the time-allowed-to-live supervision and what the reader
    thread does with one frame.

    An [Instant] is a number of nanoseconds, a [Duration] too; the tables keyed by
    control block reference are finite maps. *)

From S2P Require Import Prelude Ber BerDecoder Float BerPrim TimeUtil Utf8 Errors MmsValue MmsCodec.
From S2P Require Import GooseMessage Ethernet.
Local Open Scope Z_scope.

(** ** Filter *)

Record Filter := mkFilter {
  fl_app_id : Z;
  fl_go_cb_ref : list Z;
}.

Definition Filter_any : Filter := mkFilter 0 [].
Definition Filter_app_id (app_id : Z) : Filter := mkFilter app_id [].

Definition Filter_matches (f : Filter) (m : Message) : bool :=
  if decide (fl_app_id f ≠ 0 ∧ m_app_id m ≠ fl_app_id f) then false
  else if decide (fl_go_cb_ref f ≠ [] ∧ m_go_cb_ref m ≠ fl_go_cb_ref f) then false
  else true.

(** ** Sequence tracking *)

Record SeqState := mkSeqState {
  ss_st_num : Z;
  ss_sq_num : Z;
  ss_tatl : Z;
  ss_arrival : Z;
}.

Definition SequenceTracker := gmap (list Z) SeqState.
Definition SequenceTracker_new : SequenceTracker := ∅.

(** [Duration::from_millis]. *)
Definition from_millis (ms : Z) : Z := ms * 1000000.

(** The number that follows [n], rolling over to 1. *)
Definition next_sq (n : Z) : Z := Z.max (u32 (n + 1)) 1.

Definition observe (tr : SequenceTracker) (m : Message) (now : Z) : Anomalies * SequenceTracker :=
  let tatl := from_millis (m_time_allowed_to_live m) in
  let st' := mkSeqState (m_st_num m) (m_sq_num m) tatl now in
  match tr !! m_go_cb_ref m with
  | Some st =>
      let wrapped := bool_decide (ss_st_num st = U32_MAX ∧ m_st_num m = 1) in
      let st_num_regressed := bool_decide (m_st_num m < ss_st_num st) && negb wrapped in
      let sq_num_gap :=
        if decide (m_st_num m = ss_st_num st) then bool_decide (m_sq_num m ≠ next_sq (ss_sq_num st))
        else bool_decide (m_sq_num m ≠ 0) in
      let stale := bool_decide (ss_tatl st ≠ 0 ∧ Z.max 0 (now - ss_arrival st) > ss_tatl st) in
      (mkAnomalies st_num_regressed sq_num_gap stale false, <[m_go_cb_ref m := st']> tr)
  | None => (Anomalies_default, <[m_go_cb_ref m := st']> tr)
  end.

Definition tracked (tr : SequenceTracker) : Z := Z.of_nat (size tr).

(** ** Supervision *)

Record Deadlines := mkDeadlines {
  dl_blocks : gmap (list Z) (Z * bool);
  dl_stopped : bool;
}.

Definition Deadlines_default : Deadlines := mkDeadlines ∅ false.

Definition arrived (d : Deadlines) (go_cb_ref : list Z) (tatl now : Z) : Deadlines :=
  if decide (tatl = 0) then d
  else mkDeadlines (<[go_cb_ref := (now + tatl, false)]> (dl_blocks d)) (dl_stopped d).

Definition Supervision_stop (d : Deadlines) : Deadlines := mkDeadlines (dl_blocks d) true.

Definition is_due (now : Z) (b : Z * bool) : bool := negb b.2 && bool_decide (b.1 ≤ now).

Inductive Round :=
| Stopped
| Report (due : gset (list Z))
| WaitUntil (at_ : option Z).

(** The earliest deadline not yet reported. *)
Definition next_deadline (blocks : gmap (list Z) (Z * bool)) : option Z :=
  map_fold (λ _ b acc,
    if b.2 : bool then acc
    else Some (match acc with Some at_ => Z.min b.1 at_ | None => b.1 end)) None blocks.

(** One round of the loop of [Supervision::run]. *)
Definition run_round (d : Deadlines) (now : Z) : Round * Deadlines :=
  if dl_stopped d then (Stopped, d)
  else
    let due := dom (filter (λ kb, is_due now kb.2 = true) (dl_blocks d)) in
    if decide (due ≠ ∅) then
      (Report due,
       mkDeadlines ((λ b, if is_due now b then (b.1, true) else b) <$> dl_blocks d) false)
    else (WaitUntil (next_deadline (dl_blocks d)), d).

(** ** The reader thread *)

Record Reader := mkReader {
  rd_tracker : SequenceTracker;
  rd_watch : option Deadlines;
}.

(** What is done with one frame: the message handed to the callback, if any. *)
Definition on_frame (filter : Filter) (rd : Reader) (frame : Frame) (now : Z)
    : outcome GooseError (option Message * Reader) :=
  if decide (fr_ether_type frame ≠ ETHER_TYPE_GOOSE) then Ok (None, rd)
  else
    match parse (fr_payload frame) with
    | Ok m =>
        if negb (Filter_matches filter m) then Ok (None, rd)
        else
          let '(a, tr) := observe (rd_tracker rd) m now in
          let a := mkAnomalies (st_num_regressed a) (sq_num_gap a) (stale a)
                     (bool_decide (m_num_dat_set_entries m ≠ zlen (m_values m))) in
          let m := mkMessage (m_go_cb_ref m) (m_dat_set m) (m_go_id m) (m_time_allowed_to_live m)
                     (m_t m) (m_st_num m) (m_sq_num m) (m_conf_rev m) (m_test m) (m_nds_com m)
                     (m_num_dat_set_entries m) (m_values m) (m_app_id m) (m_time_quality m) a in
          let watch := match rd_watch rd with
            | Some d => Some (arrived d (m_go_cb_ref m) (from_millis (m_time_allowed_to_live m)) now)
            | None => None
            end in
          Ok (Some m, mkReader tr watch)
    | Err _ => Ok (None, rd)
    | Panic => Panic
    | NoFuel => NoFuel
    end.

(** ** Supervision: lemmas and theorems *)

Definition reported (o : Round) : gset (list Z) :=
  match o with Report due => due | _ => ∅ end.

(** What the reader thread and the supervision thread do to the deadlines. *)
Inductive Event :=
| Arrived (go_cb_ref : list Z) (tatl now : Z)
| Round_at (now : Z).

Definition supervise (d : Deadlines) (e : Event) : gset (list Z) * Deadlines :=
  match e with
  | Arrived r tatl now => (∅, arrived d r tatl now)
  | Round_at now => let '(o, d) := run_round d now in (reported o, d)
  end.

Fixpoint supervise_all (d : Deadlines) (es : list Event) : list (gset (list Z)) * Deadlines :=
  match es with
  | [] => ([], d)
  | e :: es =>
      let '(r, d) := supervise d e in
      let '(rs, d) := supervise_all d es in
      (r :: rs, d)
  end.

Lemma due_iff blocks now r :
  r ∈ dom (filter (λ kb, is_due now kb.2 = true) blocks : gmap (list Z) (Z * bool)) ↔
  ∃ at_, blocks !! r = Some (at_, false) ∧ at_ ≤ now.
Proof.
  rewrite elem_of_dom. unfold is_Some. split.
  - intros [[at_ fired] [Hb Hd]%map_lookup_filter_Some]. simpl in Hd.
    unfold is_due in Hd. simpl in Hd. apply andb_true_iff in Hd as [Hf Ha%bool_decide_eq_true].
    destruct fired; [done|]. eauto.
  - intros (at_ & Hb & Ha). exists (at_, false). apply map_lookup_filter_Some. split; [done|].
    unfold is_due. simpl. by apply bool_decide_eq_true.
Qed.

Lemma next_deadline_spec blocks :
  match next_deadline blocks with
  | Some at_ =>
      (∃ r, blocks !! r = Some (at_, false)) ∧
      ∀ r b, blocks !! r = Some (b, false) → at_ ≤ b
  | None => ∀ r b fired, blocks !! r = Some (b, fired) → fired = true
  end.
Proof.
  unfold next_deadline.
  apply (map_fold_weak_ind (λ acc (m : gmap (list Z) (Z * bool)),
    match acc with
    | Some at_ =>
        (∃ r, m !! r = Some (at_, false)) ∧ ∀ r b, m !! r = Some (b, false) → at_ ≤ b
    | None => ∀ r b fired, m !! r = Some (b, fired) → fired = true
    end)).
  - intros r b fired. by rewrite lookup_empty.
  - intros r [b fired] m acc Hr IH. simpl. destruct fired.
    + destruct acc as [at_|].
      * destruct IH as [[r' Hr'] Hmin]. split.
        { exists r'. rewrite lookup_insert_ne by congruence. done. }
        intros r'' b' H. rewrite lookup_insert in H. case_decide; [congruence|eauto].
      * intros r' b' f H. rewrite lookup_insert in H. case_decide; [congruence|eauto].
    + split.
      * destruct acc as [at_|]; [|exists r; by rewrite lookup_insert_eq].
        destruct IH as [[r' Hr'] _]. destruct (Z.min_spec b at_) as [[? ->]|[? ->]].
        -- exists r. by rewrite lookup_insert_eq.
        -- exists r'. rewrite lookup_insert_ne by congruence. done.
      * intros r' b' H. rewrite lookup_insert in H. case_decide.
        { simplify_eq. destruct acc; lia. }
        destruct acc as [at_|]; [destruct IH as [_ Hmin]; specialize (Hmin _ _ H); lia|].
        by specialize (IH _ _ _ H).
Qed.

(** Supervision notices every silence and sleeps no longer than it may.
    A round of the supervision thread reports exactly the control blocks whose
    deadline has passed unreported, marks those and leaves the others alone; and
    if it reports nothing, it sleeps until the earliest unreported deadline, which
    is in the future, or without limit only when there is none. *)
Theorem supervision_complete (d : Deadlines) (now : Z) :
  dl_stopped d = false →
  let '(o, d') := run_round d now in
  (∀ r, r ∈ reported o ↔ ∃ at_, dl_blocks d !! r = Some (at_, false) ∧ at_ ≤ now) ∧
  (∀ r, dl_blocks d' !! r =
     if decide (r ∈ reported o) then (λ b, (b.1, true)) <$> dl_blocks d !! r
     else dl_blocks d !! r) ∧
  match o with
  | WaitUntil (Some at_) =>
      now < at_ ∧ (∃ r, dl_blocks d !! r = Some (at_, false)) ∧
      ∀ r b, dl_blocks d !! r = Some (b, false) → at_ ≤ b
  | WaitUntil None => ∀ r b fired, dl_blocks d !! r = Some (b, fired) → fired = true
  | Report due => due ≠ ∅
  | Stopped => False
  end.
Proof.
  intros Hs. unfold run_round. rewrite Hs.
  set (due := dom (filter (λ kb, is_due now kb.2 = true) (dl_blocks d) : gmap (list Z) (Z * bool))).
  assert (∀ r, r ∈ due ↔ ∃ at_, dl_blocks d !! r = Some (at_, false) ∧ at_ ≤ now) as Hdue
    by (intros; apply due_iff).
  case_decide as Hne; simpl.
  - split_and!; [done| |done]. intros r. rewrite lookup_fmap.
    destruct (dl_blocks d !! r) as [[b fired]|] eqn:Hb; simpl; [|by case_decide].
    unfold is_due. simpl. case_decide as Hr.
    + apply Hdue in Hr as (at_ & Hr & Ha). simplify_eq. simpl.
      by rewrite bool_decide_eq_true_2.
    + destruct fired; simpl; [done|]. rewrite bool_decide_eq_false_2; [done|].
      intros Hle. apply Hr, Hdue. eauto.
  - assert (due = ∅) as E by (destruct (decide (due = ∅)); tauto).
    split_and!.
    + intros r. rewrite <-Hdue, E. done.
    + intros r. by rewrite decide_False by set_solver.
    + pose proof (next_deadline_spec (dl_blocks d)) as Hn.
      destruct (next_deadline (dl_blocks d)) as [at_|]; [|done].
      split_and!; [|by destruct Hn..]. destruct Hn as [[r Hr] _].
      apply Z.lt_nge. intros Hle. assert (r ∈ due) by (apply Hdue; eauto). set_solver.
Qed.
Lemma supervision_complete_witness :
  run_round (mkDeadlines {[ [65] := (100, false) ]} false) 100 =
    (Report {[ [65] ]}, mkDeadlines {[ [65] := (100, true) ]} false) ∧
  [65] ∈ reported (fst (run_round (mkDeadlines {[ [65] := (100, false) ]} false) 100)).
Proof.
  split; [vm_compute; reflexivity|].
  pose proof (supervision_complete (mkDeadlines {[ [65] := (100, false) ]} false) 100 eq_refl) as H.
  destruct (run_round _ _) as [o d']. destruct H as [H _]. apply H.
  exists 100. split; [reflexivity|discriminate].
Defined.

(** A reported block stays reported until a message arrives. *)
Lemma supervise_fired d e r b :
  dl_blocks d !! r = Some (b, true) →
  (∀ tatl now, e = Arrived r tatl now → tatl = 0) →
  r ∉ (supervise d e).1 ∧ dl_blocks (supervise d e).2 !! r = Some (b, true).
Proof.
  intros Hr He. destruct e as [r' tatl now|now]; simpl.
  - split; [set_solver|]. unfold arrived. case_decide; [done|]. simpl.
    rewrite lookup_insert_ne; [done|]. intros ->. by apply H, (He tatl now).
  - unfold run_round. destruct (dl_stopped d); simpl; [split; [set_solver|done]|].
    case_decide; simpl; [|split; [set_solver|done]]. split.
    + intros (at_ & ? & _)%due_iff. congruence.
    + by rewrite lookup_fmap, Hr.
Qed.

(** A silence is reported once. After a control block has been reported,
    whatever arrives from other control blocks and whenever the supervision
    thread runs, it is not reported again until a message of its own (with a
    non-zero timeAllowedToLive) has arrived. *)
Theorem supervision_once (d : Deadlines) (now : Z) (r : list Z) (es : list Event) :
  r ∈ (supervise d (Round_at now)).1 →
  (∀ tatl t, Arrived r tatl t ∈ es → tatl = 0) →
  Forall (λ rs, r ∉ rs) (supervise_all (supervise d (Round_at now)).2 es).1.
Proof.
  intros Hr Hes.
  assert (∃ b, dl_blocks (supervise d (Round_at now)).2 !! r = Some (b, true)) as [b Hb].
  { revert Hr. simpl. unfold run_round. destruct (dl_stopped d); simpl; [set_solver|].
    case_decide; simpl; [|set_solver]. intros (at_ & Hb & Ha)%due_iff. exists at_.
    rewrite lookup_fmap, Hb. simpl. unfold is_due. simpl. by rewrite bool_decide_eq_true_2. }
  revert Hb. generalize (supervise d (Round_at now)).2. clear d now Hr.
  induction es as [|e es IH]; intros d Hb; [constructor|]. simpl.
  destruct (supervise_fired d e r b Hb) as [Hn Hb'].
  { intros tatl t ->. eapply Hes. left. }
  destruct (supervise d e) as [rs d1]. simpl in *.
  specialize (IH ltac:(intros; eapply Hes; by right) d1 Hb').
  destruct (supervise_all d1 es) as [rss d2]. by constructor.
Qed.
Lemma supervision_once_witness :
  [65] ∈ (supervise (mkDeadlines {[ [65] := (100, false) ]} false) (Round_at 100)).1 ∧
  Forall (λ rs, [65] ∉ rs)
    (supervise_all (supervise (mkDeadlines {[ [65] := (100, false) ]} false) (Round_at 100)).2
       [Arrived [66] 50 110; Round_at 120; Round_at 200]).1.
Proof.
  assert ([65] ∈ (supervise (mkDeadlines {[ [65] := (100, false) ]} false) (Round_at 100)).1) as H.
  { apply (bool_decide_eq_true_1 _). vm_compute. reflexivity. }
  split; [exact H|]. apply supervision_once; [exact H|].
  intros tatl t Hin. repeat (apply elem_of_cons in Hin as [Hin|Hin]; [discriminate|]).
  by apply elem_of_nil in Hin.
Defined.

(** ** Sequence tracking *)

(** The message that follows [m] in an orderly stream: the next of the same
    state, or the first of a later one. *)
Definition orderly (m m' : Message) : Prop :=
  m_go_cb_ref m' = m_go_cb_ref m ∧
  (m_st_num m' = m_st_num m ∧ m_sq_num m' = next_sq (m_sq_num m) ∨
   m_sq_num m' = 0 ∧ (m_st_num m < m_st_num m' ∨ m_st_num m = U32_MAX ∧ m_st_num m' = 1)).

(** The anomalies of a stream of messages with their arrival times. *)
Fixpoint observe_all (tr : SequenceTracker) (ms : list (Message * Z)) : list Anomalies :=
  match ms with
  | [] => []
  | (m, now) :: ms => let '(a, tr) := observe tr m now in a :: observe_all tr ms
  end.

Fixpoint orderly_stream (ms : list Message) : Prop :=
  match ms with
  | m :: (m' :: _) as ms => orderly m m' ∧ orderly_stream ms
  | _ => True
  end.

Definition in_sequence (a : Anomalies) : Prop :=
  st_num_regressed a = false ∧ sq_num_gap a = false.

Lemma observe_last tr m now :
  (observe tr m now).2 !! m_go_cb_ref m =
  Some (mkSeqState (m_st_num m) (m_sq_num m) (from_millis (m_time_allowed_to_live m)) now).
Proof. unfold observe. destruct (tr !! m_go_cb_ref m); simpl; apply lookup_insert_eq. Qed.

Lemma observe_orderly tr m m' now st :
  tr !! m_go_cb_ref m = Some st → ss_st_num st = m_st_num m → ss_sq_num st = m_sq_num m →
  orderly m m' → in_sequence (observe tr m' now).1.
Proof.
  intros Ht Est Esq [Ecb Ho]. unfold observe. rewrite Ecb, Ht. simpl. rewrite Est, Esq.
  split; simpl.
  - destruct Ho as [[-> _]|[_ [?|[? ?]]]].
    + rewrite bool_decide_eq_false_2 by lia. done.
    + rewrite bool_decide_eq_false_2 by lia. done.
    + rewrite (bool_decide_eq_true_2 (_ ∧ _)) by done. apply andb_false_r.
  - destruct Ho as [[-> Hsq]|[Hsq Hst]].
    + rewrite decide_True by done. by apply bool_decide_eq_false_2; auto.
    + rewrite decide_False by (unfold U32_MAX in Hst; lia). by apply bool_decide_eq_false_2; auto.
Qed.

Lemma observe_all_orderly ms : ∀ tr,
  match ms with
  | [] => True
  | (m, _) :: _ => ∃ m0 st, tr !! m_go_cb_ref m0 = Some st ∧ ss_st_num st = m_st_num m0 ∧
                    ss_sq_num st = m_sq_num m0 ∧ orderly m0 m
  end →
  orderly_stream (map fst ms) → Forall in_sequence (observe_all tr ms).
Proof.
  induction ms as [|[m now] ms IH]; intros tr Htr Hs; [constructor|]. simpl.
  destruct Htr as (m0 & st & Ht & Est & Esq & Ho).
  pose proof (observe_orderly tr m0 m now st Ht Est Esq Ho) as Ha.
  pose proof (observe_last tr m now) as Hlast.
  destruct (observe tr m now) as [a tr']. simpl in *. constructor; [done|].
  apply IH; destruct ms as [|[m' now'] ms]; simpl in *; [done| |done|tauto].
  exists m. eexists. split; [exact Hlast|]. tauto.
Qed.

(** The sequence check is exact. After a message of a control block has
    been observed, the next message of it (other control blocks' messages change
    nothing) raises neither a regression nor a gap exactly when it is the next of
    the same state, [sqNum] rolling over to 1, or the first of a later state,
    [stNum] rolling over to 1. *)
Theorem sequence_check_exact (tr : SequenceTracker) (m m' o : Message) (t t' u : Z) :
  m_go_cb_ref m' = m_go_cb_ref m → m_go_cb_ref o ≠ m_go_cb_ref m →
  let tr := (observe (observe tr m t).2 o u).2 in
  in_sequence (observe tr m' t').1 ↔ orderly m m'.
Proof.
  intros Ecb Hother tr'.
  assert (tr' !! m_go_cb_ref m = Some (mkSeqState (m_st_num m) (m_sq_num m)
    (from_millis (m_time_allowed_to_live m)) t)) as Ht.
  { subst tr'. rewrite <-(observe_last tr m t). unfold observe at 1.
    destruct (_ !! m_go_cb_ref o); simpl; by apply lookup_insert_ne. }
  split; [|intros Ho; by eapply observe_orderly].
  unfold observe. rewrite Ecb, Ht. simpl. unfold in_sequence, orderly. simpl.
  intros [Hr Hg]. split; [done|]. case_decide as Est.
  - left. split; [done|]. apply bool_decide_eq_false in Hg. by apply dec_stable.
  - right. apply bool_decide_eq_false in Hg. split; [by apply dec_stable|].
    apply andb_false_iff in Hr as [Hr%bool_decide_eq_false|Hr%negb_false_iff%bool_decide_eq_true].
    + left. lia.
    + by right.
Qed.
Lemma sequence_check_exact_witness :
  let msg cb st sq := mkMessage cb [] [] 2000 None st sq 1 false false 0 [] 0x1000 None Anomalies_default in
  let tr := (observe (observe SequenceTracker_new (msg [65] 7 3) 0).2 (msg [66] 1 0) 5).2 in
  in_sequence (observe tr (msg [65] 7 4) 10).1 ∧ ¬ in_sequence (observe tr (msg [65] 7 0) 10).1.
Proof.
  intros msg tr. split.
  - apply (sequence_check_exact SequenceTracker_new (msg [65] 7 3) (msg [65] 7 4) (msg [66] 1 0) 0 10 5);
      [reflexivity|discriminate|]. split; [reflexivity|]. left. split; reflexivity.
  - intros H.
    apply (sequence_check_exact SequenceTracker_new (msg [65] 7 3) (msg [65] 7 0) (msg [66] 1 0) 0 10 5) in H;
      [|reflexivity|discriminate].
    destruct H as [_ [[_ H]|[_ [H|[H _]]]]]; [discriminate|..]; vm_compute in H; discriminate.
Defined.
