(* ===== verification/GoosePublisher.v ===== *)
(** The GOOSE publisher (src/src/goose/publisher.rs): publish and refresh,
    the retransmission tasks, and their interleavings.

    A call of [publish] or [refresh] and a retransmission task run concurrently;
    they meet at the two mutexes, [task] (held for a whole publish) and [state]
    (held for the sections below). Each section under the [state] lock, each read
    of the [closed] flag and each send is one step of the relation [step], so that
    its reachable states are those of every schedule. The interface decides which
    sends succeed. *)

From stdpp Require Import pretty.
From S2P Require Import Prelude Ber BerDecoder Float BerPrim TimeUtil Utf8 Errors MmsValue MmsCodec.
From S2P Require Import GooseMessage Ethernet GooseSubscriber.
Local Open Scope string_scope.
Local Open Scope list_scope.
Local Open Scope Z_scope.

(** ** Definitions *)

(** Durations are nanoseconds. *)
Definition DEFAULT_RETRANS : list Z :=
  map from_millis [4; 8; 16; 32; 64; 128; 256; 512; 1000].

Record PublisherConfig := mkPublisherConfig {
  pc_dst_mac : list Z;
  pc_src_mac : list Z;
  pc_app_id : Z;
  pc_vlan : option VlanTag;
  pc_go_cb_ref : list Z;
  pc_dat_set : list Z;
  pc_go_id : list Z;
  pc_conf_rev : Z;
  pc_retrans : list Z;
  pc_test : bool;
  pc_nds_com : bool;
  pc_time_quality : option Z;
}.

Record PubState := mkPubState {
  ps_st_num : Z;
  ps_sq_num : Z;
  ps_test : bool;
  ps_nds_com : bool;
  ps_t : option Z;
  ps_generation : Z;
}.

Record Shared := mkShared {
  sh_cfg : PublisherConfig;
  sh_retrans : list Z;
  sh_state : PubState;
  sh_closed : bool;
}.

Definition set_state (sh : Shared) (st : PubState) : Shared :=
  mkShared (sh_cfg sh) (sh_retrans sh) st (sh_closed sh).

Definition Publisher_new (cfg : PublisherConfig) : outcome GooseError Shared :=
  if decide (pc_go_cb_ref cfg = []) then Err (GooseConfig "go_cb_ref is required")
  else
    let retrans := if decide (pc_retrans cfg = []) then DEFAULT_RETRANS else pc_retrans cfg in
    if decide (0 ∈ retrans) then
      Err (GooseConfig "retransmission interval 0ns is not positive")
    else
      let go_id := if decide (pc_go_id cfg = []) then pc_go_cb_ref cfg else pc_go_id cfg in
      let cfg := mkPublisherConfig (pc_dst_mac cfg) (pc_src_mac cfg) (pc_app_id cfg) (pc_vlan cfg)
                   (pc_go_cb_ref cfg) (pc_dat_set cfg) go_id (pc_conf_rev cfg) (pc_retrans cfg)
                   (pc_test cfg) (pc_nds_com cfg) (pc_time_quality cfg) in
      Ok (mkShared cfg retrans (mkPubState 0 0 (pc_test cfg) (pc_nds_com cfg) None 0) false).

Definition set_test (sh : Shared) (test : bool) : Shared :=
  let st := sh_state sh in
  set_state sh (mkPubState (ps_st_num st) (ps_sq_num st) test (ps_nds_com st) (ps_t st) (ps_generation st)).

Definition set_nds_com (sh : Shared) (nds_com : bool) : Shared :=
  let st := sh_state sh in
  set_state sh (mkPubState (ps_st_num st) (ps_sq_num st) (ps_test st) nds_com (ps_t st) (ps_generation st)).

(** [Shared::tatl]: milliseconds for transmission [n]. *)
Definition tatl {E} (sh : Shared) (n : Z) : outcome E Z :=
  last ← usub (zlen (sh_retrans sh)) 1;
  d ← idx (sh_retrans sh) (Z.min n last);
  Ok (u32 (Z.min (Z.max (2 * (d / 1000000)) 1) U32_MAX)).

(** The message with other [sqNum] and [timeAllowedToLive]. *)
Definition with_sq_tatl (m : Message) (sq tatl : Z) : Message :=
  mkMessage (m_go_cb_ref m) (m_dat_set m) (m_go_id m) tatl (m_t m) (m_st_num m) sq (m_conf_rev m)
    (m_test m) (m_nds_com m) (m_num_dat_set_entries m) (m_values m) (m_app_id m)
    (m_time_quality m) (m_anomalies m).

Definition next_st_num (state_change : bool) (n : Z) : Z :=
  if state_change then Z.max (u32 (n + 1)) 1
  else if decide (n = 0) then 1 else n.

(** The part of [publish_state] under both locks: the refusal, or the new
    state with the message to send and its generation. *)
Definition publish_locked (sh : Shared) (values : list Value) (state_change : bool) (now : Z)
    : outcome GooseError (Shared * Message * Z) :=
  let st := sh_state sh in
  let st_num := next_st_num state_change (ps_st_num st) in
  let t := match state_change, ps_t st with
    | false, Some t => t
    | _, _ => now
    end in
  let cfg := sh_cfg sh in
  ttl ← tatl sh 0;
  let msg := mkMessage (pc_go_cb_ref cfg) (pc_dat_set cfg) (pc_go_id cfg) ttl (Some t) st_num 0
    (pc_conf_rev cfg) (ps_test st) (ps_nds_com st) (u32 (zlen values)) values (pc_app_id cfg)
    (pc_time_quality cfg) Anomalies_default in
  widest ← marshal (with_sq_tatl msg U32_MAX U32_MAX);
  let n := zlen widest in
  if decide (n > MAX_PAYLOAD) then
    Err (GooseFrameTooLarge (pretty n +:+ " octets for " +:+ pretty (zlen values) +:+
      " data set members, limit " +:+ pretty MAX_PAYLOAD))
  else if decide (ps_generation st + 1 < 2 ^ 64) then
    let generation := ps_generation st + 1 in
    Ok (set_state sh (mkPubState st_num 0 (ps_test st) (ps_nds_com st) (Some t) generation),
        msg, generation)
  else Panic.

(** [Shared::send]: the frame handed to the interface. *)
Definition send_frame {E} (sh : Shared) (msg : Message) : outcome E Frame :=
  payload ← marshal msg;
  Ok (mkFrame (pc_src_mac (sh_cfg sh)) (pc_dst_mac (sh_cfg sh)) ETHER_TYPE_GOOSE
        (pc_vlan (sh_cfg sh)) payload).

(** The message of a retransmission task after its [i]-th sleep. *)
Definition bump {E} (sh : Shared) (msg : Message) (i : Z) : outcome E Message :=
  ttl ← tatl sh (i + 1);
  Ok (with_sq_tatl msg (next_sq (m_sq_num msg)) ttl).

(** The section of [retransmit] under the [state] lock, the generation being
    the task's own. *)
Definition record_sq (sh : Shared) (sq : Z) : Shared :=
  let st := sh_state sh in
  set_state sh (mkPubState (ps_st_num st) sq (ps_test st) (ps_nds_com st) (ps_t st) (ps_generation st)).

Definition set_closed (sh : Shared) : Shared :=
  mkShared (sh_cfg sh) (sh_retrans sh) (sh_state sh) true.

(** *** Interleavings *)

(** Where a call of [publish] or [refresh] stands. *)
Inductive Call :=
| Checked (values : list Value) (state_change : bool)
| Committed (msg : Message) (generation : Z)
| Announced (msg : Message) (generation : Z).

(** A retransmission task: asleep before its [tk_i]-th retransmission, or awake
    with the message to send and not yet in its locked section. *)
Record Task := mkTask {
  tk_msg : Message;
  tk_generation : Z;
  tk_i : Z;
  tk_awake : bool;
  tk_aborted : bool;
}.

(** [w_wire] holds what the interface accepted, the latest first, each message
    with the generation of the publish it belongs to. *)
Record World := mkWorld {
  w_shared : Shared;
  w_lock : option nat;
  w_calls : gmap nat Call;
  w_slot : option nat;
  w_tasks : gmap nat Task;
  w_wire : list (Z * Message);
}.

Definition start (sh : Shared) : World := mkWorld sh None ∅ None ∅ [].

Definition abort (slot : option nat) (tasks : gmap nat Task) : gmap nat Task :=
  match slot with
  | Some h => alter (λ tk, mkTask (tk_msg tk) (tk_generation tk) (tk_i tk) (tk_awake tk) true) h tasks
  | None => tasks
  end.

Inductive step : World → World → Prop :=
(* publish_state: the closed flag is read, then the task lock is waited for. *)
| step_call sh lock calls slot tasks wire k values sc :
    sh_closed sh = false → calls !! k = None →
    step (mkWorld sh lock calls slot tasks wire)
      (mkWorld sh lock (<[k := Checked values sc]> calls) slot tasks wire)
| step_refused sh calls slot tasks wire k values sc now e :
    calls !! k = Some (Checked values sc) → publish_locked sh values sc now = Err e →
    step (mkWorld sh None calls slot tasks wire)
      (mkWorld sh None (delete k calls) slot tasks wire)
| step_commit sh calls slot tasks wire k values sc now sh' msg g :
    calls !! k = Some (Checked values sc) → publish_locked sh values sc now = Ok (sh', msg, g) →
    step (mkWorld sh None calls slot tasks wire)
      (mkWorld sh' (Some k) (<[k := Committed msg g]> calls) slot tasks wire)
(* The send, outside the state lock; on an error the call returns. *)
| step_announce sh lock calls slot tasks wire k msg g :
    calls !! k = Some (Committed msg g) →
    step (mkWorld sh lock calls slot tasks wire)
      (mkWorld sh lock (<[k := Announced msg g]> calls) slot tasks ((g, msg) :: wire))
| step_announce_failed sh lock calls slot tasks wire k msg g :
    calls !! k = Some (Committed msg g) →
    step (mkWorld sh lock calls slot tasks wire)
      (mkWorld sh None (delete k calls) slot tasks wire)
(* The task is spawned, and the one it replaces aborted. *)
| step_spawn sh lock calls slot tasks wire k msg g h :
    calls !! k = Some (Announced msg g) → tasks !! h = None →
    step (mkWorld sh lock calls slot tasks wire)
      (mkWorld sh None (delete k calls) (Some h)
         (<[h := mkTask msg g 0 false false]> (abort slot tasks)) wire)
(* retransmit: the sleep ends, and the closed flag is read. *)
| step_wake sh lock calls slot tasks wire h msg g i ab msg' :
    tasks !! h = Some (mkTask msg g i false ab) → sh_closed sh = false → bump (E:=unit) sh msg i = Ok msg' →
    step (mkWorld sh lock calls slot tasks wire)
      (mkWorld sh lock calls slot (<[h := mkTask msg' g i true ab]> tasks) wire)
| step_wake_closed sh lock calls slot tasks wire h msg g i ab :
    tasks !! h = Some (mkTask msg g i false ab) → sh_closed sh = true →
    step (mkWorld sh lock calls slot tasks wire)
      (mkWorld sh lock calls slot (delete h tasks) wire)
| step_superseded sh lock calls slot tasks wire h msg g i ab :
    tasks !! h = Some (mkTask msg g i true ab) → ps_generation (sh_state sh) ≠ g →
    step (mkWorld sh lock calls slot tasks wire)
      (mkWorld sh lock calls slot (delete h tasks) wire)
| step_retransmit sh lock calls slot tasks wire h msg g i ab :
    tasks !! h = Some (mkTask msg g i true ab) → ps_generation (sh_state sh) = g →
    step (mkWorld sh lock calls slot tasks wire)
      (mkWorld (record_sq sh (m_sq_num msg)) lock calls slot
         (<[h := mkTask msg g (i + 1) false ab]> tasks) ((g, msg) :: wire))
| step_retransmit_failed sh lock calls slot tasks wire h msg g i ab :
    tasks !! h = Some (mkTask msg g i true ab) → ps_generation (sh_state sh) = g →
    step (mkWorld sh lock calls slot tasks wire)
      (mkWorld (record_sq sh (m_sq_num msg)) lock calls slot (delete h tasks) wire)
(* An aborted task ends at its sleep, if it has not been woken before. *)
| step_aborted sh lock calls slot tasks wire h msg g i :
    tasks !! h = Some (mkTask msg g i false true) →
    step (mkWorld sh lock calls slot tasks wire)
      (mkWorld sh lock calls slot (delete h tasks) wire)
(* close: the flag, then the task under its lock. *)
| step_close sh lock calls slot tasks wire :
    step (mkWorld sh lock calls slot tasks wire)
      (mkWorld (set_closed sh) lock calls slot tasks wire)
| step_close_abort sh calls slot tasks wire :
    sh_closed sh = true →
    step (mkWorld sh None calls slot tasks wire)
      (mkWorld sh None calls None (abort slot tasks) wire)
| step_set_test sh lock calls slot tasks wire b :
    step (mkWorld sh lock calls slot tasks wire)
      (mkWorld (set_test sh b) lock calls slot tasks wire)
| step_set_nds_com sh lock calls slot tasks wire b :
    step (mkWorld sh lock calls slot tasks wire)
      (mkWorld (set_nds_com sh b) lock calls slot tasks wire).

Definition reachable (cfg : PublisherConfig) (w : World) : Prop :=
  ∃ sh, Publisher_new cfg = Ok sh ∧ rtc step (start sh) w.

(** ** The order of frames on the wire *)

(** What may follow a frame: the next retransmission of the same publish, all
    other fields unchanged, or the first frame of a later one. *)
Definition follows (a b : Z * Message) : Prop :=
  (a.1 = b.1 ∧ ∃ ttl, b.2 = with_sq_tatl a.2 (next_sq (m_sq_num a.2)) ttl) ∨
  (a.1 < b.1 ∧ m_sq_num b.2 = 0).

(** The latest frame first. *)
Fixpoint ordered (wire : list (Z * Message)) : Prop :=
  match wire with
  | [] => True
  | [b] => m_sq_num b.2 = 0
  | b :: (a :: _) as rest => follows a b ∧ ordered rest
  end.

#[global] Arguments ordered : simpl never.

Definition current (w : World) : Z := ps_generation (sh_state (w_shared w)).

(** What the code relies on about a call that is past its locked section. *)
Definition call_ok (cur : Z) (lock : option nat) (tasks : gmap nat Task) (wire : list (Z * Message))
    (k : nat) (c : Call) : Prop :=
  match c with
  | Checked _ _ => True
  | Committed m g =>
      lock = Some k ∧ g = cur ∧ m_sq_num m = 0 ∧ Forall (λ e, e.1 < g) wire ∧
      map_Forall (λ _ tk, tk_generation tk < g) tasks
  | Announced m g =>
      lock = Some k ∧ g = cur ∧ head wire = Some (g, m) ∧
      map_Forall (λ _ tk, tk_generation tk < g) tasks
  end.

(** And about a task: one of the current generation holds the frame last sent,
    or the retransmission of it. *)
Definition task_ok (cur : Z) (wire : list (Z * Message)) (tk : Task) : Prop :=
  tk_generation tk ≤ cur ∧
  (tk_generation tk = cur →
    ∃ m, head wire = Some (cur, m) ∧
      if tk_awake tk then ∃ ttl, tk_msg tk = with_sq_tatl m (next_sq (m_sq_num m)) ttl
      else tk_msg tk = m).

Record inv (w : World) : Prop := {
  inv_calls : map_Forall (call_ok (current w) (w_lock w) (w_tasks w) (w_wire w)) (w_calls w);
  inv_tasks : map_Forall (λ _, task_ok (current w) (w_wire w)) (w_tasks w);
  inv_unique : ∀ h h' tk tk', w_tasks w !! h = Some tk → w_tasks w !! h' = Some tk' →
    tk_generation tk = current w → tk_generation tk' = current w → h = h';
  inv_wire : ordered (w_wire w) ∧ Forall (λ e, e.1 ≤ current w) (w_wire w);
}.

Lemma ordered_cons b wire :
  ordered wire → match head wire with Some a => follows a b | None => m_sq_num b.2 = 0 end →
  ordered (b :: wire).
Proof. by destruct wire. Qed.

Lemma abort_lookup slot tasks h tk :
  abort slot tasks !! h = Some tk →
  ∃ tk', tasks !! h = Some tk' ∧ tk_generation tk = tk_generation tk' ∧
    tk_msg tk = tk_msg tk' ∧ tk_awake tk = tk_awake tk' ∧ tk_i tk = tk_i tk'.
Proof.
  unfold abort. destruct slot as [s|]; [|naive_solver]. rewrite lookup_alter_Some.
  intros [(-> & tk' & ? & ->)|[? ?]]; eauto 10.
Qed.

Lemma publish_locked_Ok sh values sc now sh' msg g :
  publish_locked sh values sc now = Ok (sh', msg, g) →
  sh_cfg sh' = sh_cfg sh ∧ sh_retrans sh' = sh_retrans sh ∧ sh_closed sh' = sh_closed sh ∧
  g = ps_generation (sh_state sh) + 1 ∧ ps_generation (sh_state sh') = g ∧
  m_sq_num msg = 0 ∧ ps_st_num (sh_state sh') = m_st_num msg ∧
  m_st_num msg = next_st_num sc (ps_st_num (sh_state sh)) ∧
  m_go_cb_ref msg = pc_go_cb_ref (sh_cfg sh) ∧
  (∃ ttl, tatl (E:=GooseError) sh 0 = Ok ttl ∧ m_time_allowed_to_live msg = ttl) ∧
  ∃ widest, marshal (E:=GooseError) (with_sq_tatl msg U32_MAX U32_MAX) = Ok widest ∧
    zlen widest ≤ MAX_PAYLOAD.
Proof.
  unfold publish_locked. intros (ttl & Ht & H)%bind_Ok_inv. apply bind_Ok_inv in H as (widest & Hw & H).
  case_decide as Hn; [done|]. case_decide; [|done]. injection H as <- <- <-. simpl.
  split_and!; try done; [by eexists|]. exists widest. split; [done|lia].
Qed.

Lemma task_ok_gen cur cur' wire wire' tk :
  task_ok cur wire tk → cur < cur' → task_ok cur' wire' tk.
Proof. intros [Hle _] Hlt. split; [lia|]. intros E. lia. Qed.

Lemma inv_start sh : inv (start sh).
Proof.
  split; simpl.
  - apply map_Forall_empty.
  - apply map_Forall_empty.
  - intros h h' tk tk'. by rewrite lookup_empty.
  - by split.
Qed.

Lemma no_call_past_lock cur tasks wire (calls : gmap nat Call) k c :
  map_Forall (call_ok cur None tasks wire) calls → calls !! k = Some c → ∃ v sc, c = Checked v sc.
Proof. intros Hc Hk. specialize (Hc k c Hk). destruct c; simpl in Hc; [eauto|naive_solver..]. Qed.

(** A call past the lock does not depend on which other calls there are; its
    facts survive any change that keeps the generations of the tasks. *)
Lemma call_ok_tasks cur lock tasks tasks' wire k c :
  (∀ h tk, tasks' !! h = Some tk → ∃ tk', tasks !! h = Some tk' ∧ tk_generation tk = tk_generation tk') →
  call_ok cur lock tasks wire k c → call_ok cur lock tasks' wire k c.
Proof.
  intros Ht. assert (∀ g, map_Forall (λ _ tk, tk_generation tk < g) tasks →
    map_Forall (λ _ tk, tk_generation tk < g) tasks') as Hlt.
  { intros g Hg h tk Hh. destruct (Ht h tk Hh) as (tk' & Hh' & E). specialize (Hg h tk' Hh'). simpl in Hg. lia. }
  destruct c; simpl; naive_solver.
Qed.

(** Only the call that holds the lock is past its locked section. *)
Lemma call_ok_lock cur lock tasks wire k k' c c' :
  call_ok cur lock tasks wire k c → call_ok cur lock tasks wire k' c' → k ≠ k' →
  (∀ v sc, c ≠ Checked v sc) → ∃ v sc, c' = Checked v sc.
Proof. destruct c, c'; simpl; naive_solver. Qed.

(** Replacing and deleting tasks, the generations kept, keeps the invariant. *)
Lemma inv_map_tasks w slot tasks :
  (∀ h tk, tasks !! h = Some tk →
    ∃ tk', w_tasks w !! h = Some tk' ∧ tk_generation tk = tk_generation tk' ∧
      (task_ok (current w) (w_wire w) tk' → task_ok (current w) (w_wire w) tk)) →
  inv w → inv (mkWorld (w_shared w) (w_lock w) (w_calls w) slot tasks (w_wire w)).
Proof.
  intros Hmap [Hc Ht Hu Hw]. split; simpl.
  - intros k c Hk. eapply call_ok_tasks; [|by apply Hc].
    intros h tk Hh. destruct (Hmap h tk Hh) as (tk' & ? & ? & _). eauto.
  - intros h tk Hh. destruct (Hmap h tk Hh) as (tk' & Hh' & _ & Hok). apply Hok, (Ht h tk' Hh').
  - intros h1 h2 tk1 tk2 H1 H2 E1 E2.
    destruct (Hmap h1 tk1 H1) as (tk1' & ? & ? & _), (Hmap h2 tk2 H2) as (tk2' & ? & ? & _).
    unfold current in *. simpl in *. eapply Hu; [done|done|congruence..].
  - done.
Qed.

Lemma inv_delete_task w h :
  inv w → inv (mkWorld (w_shared w) (w_lock w) (w_calls w) (w_slot w) (delete h (w_tasks w)) (w_wire w)).
Proof. apply inv_map_tasks. intros h' tk [_ ?]%lookup_delete_Some. eauto. Qed.

Lemma inv_abort w slot :
  inv w → inv (mkWorld (w_shared w) (w_lock w) (w_calls w) slot (abort (w_slot w) (w_tasks w)) (w_wire w)).
Proof.
  apply inv_map_tasks. intros h tk (tk' & Hh & Eg & Em & Ea & _)%abort_lookup.
  exists tk'. split_and!; [done..|]. unfold task_ok. by rewrite Eg, Em, Ea.
Qed.

Lemma inv_wake w h msg g i ab msg' :
  w_tasks w !! h = Some (mkTask msg g i false ab) → bump (E:=unit) (w_shared w) msg i = Ok msg' →
  inv w →
  inv (mkWorld (w_shared w) (w_lock w) (w_calls w) (w_slot w)
        (<[h := mkTask msg' g i true ab]> (w_tasks w)) (w_wire w)).
Proof.
  intros Hh Hb. apply inv_map_tasks. intros h' tk [[<- <-]|[Hne ?]]%lookup_insert_Some; [|eauto].
  eexists. split; [exact Hh|]. split; [done|]. intros [Hle Hcur]. split; [done|].
  intros E. destruct (Hcur E) as (m & Hhd & Hm). exists m. split; [done|]. simpl in *. subst m.
  unfold bump in Hb. apply bind_Ok_inv in Hb as (ttl & _ & [= <-]). eauto.
Qed.

(** Changing the shared state but not its generation keeps the invariant. *)
Lemma inv_shared w sh :
  ps_generation (sh_state sh) = current w → inv w →
  inv (mkWorld sh (w_lock w) (w_calls w) (w_slot w) (w_tasks w) (w_wire w)).
Proof. intros E [Hc Ht Hu Hw]. split; unfold current in *; simpl in *; rewrite ?E; done. Qed.

Lemma inv_step w w' : inv w → step w w' → inv w'.
Proof.
  intros Hinv Hstep. pose proof Hinv as [Hc Ht Hu [Hwo Hwg]]. destruct Hstep.
  - (* call *) split; try done. simpl. apply map_Forall_insert_2; done.
  - (* refused *) split; try done. simpl. by apply map_Forall_delete.
  - (* commit *)
    destruct (publish_locked_Ok _ _ _ _ _ _ _ H0) as (_ & _ & _ & Hg & Hg' & Hsq & _).
    unfold current in *; simpl in *. split; unfold current; simpl; rewrite Hg'.
    + intros k' c' [[<- <-]|[Hne Hk']]%lookup_insert_Some.
      * simpl. split_and!; [done..| |].
        -- eapply Forall_impl; [exact Hwg|]. intros e He. simpl in He. lia.
        -- intros h tk Hh. destruct (Ht h tk Hh) as [Hle _]. lia.
      * by destruct (no_call_past_lock _ _ _ _ _ _ Hc Hk') as (? & ? & ->).
    + intros h tk Hh. eapply task_ok_gen; [by eapply Ht|lia].
    + intros h h' tk tk' Hh Hh' E. destruct (Ht h tk Hh) as [Hle _]. lia.
    + split; [done|]. eapply Forall_impl; [exact Hwg|]. intros e He. simpl in He. lia.
  - (* announce *)
    pose proof (Hc _ _ H) as (Hl & Hg & Hsq & Hlt & Htlt). unfold current in *; simpl in *. subst g.
    split; unfold current; simpl.
    + intros k' c' [[<- <-]|[Hne Hk']]%lookup_insert_Some; [done|].
      by destruct (call_ok_lock _ _ _ _ _ _ _ _ (Hc _ _ H) (Hc _ _ Hk')) as (? & ? & ->).
    + intros h tk Hh. specialize (Htlt h tk Hh). simpl in Htlt. split; [lia|]. lia.
    + done.
    + split; [|constructor; [done|done]]. apply ordered_cons; [done|].
      destruct wire as [|a wire]; [done|]. right. split; [by inversion Hlt|done].
  - (* announce failed *)
    pose proof (Hc _ _ H) as (Hl & Hg & Hsq & Hlt & Htlt). unfold current in *; simpl in *.
    split; unfold current; simpl; try done. intros k' c' [Hne Hk']%lookup_delete_Some.
    by destruct (call_ok_lock _ _ _ _ _ _ _ _ (Hc _ _ H) (Hc _ _ Hk')) as (? & ? & ->).
  - (* spawn *)
    pose proof (Hc _ _ H) as (Hl & Hg & Hhd & Htlt). unfold current in *; simpl in *. subst g.
    split; unfold current; simpl; try done.
    + intros k' c' [Hne Hk']%lookup_delete_Some.
      by destruct (call_ok_lock _ _ _ _ _ _ _ _ (Hc _ _ H) (Hc _ _ Hk')) as (? & ? & ->).
    + intros h' tk [[<- <-]|[Hne Hh]]%lookup_insert_Some.
      * split; simpl; [lia|]. intros _. eauto.
      * destruct (abort_lookup _ _ _ _ Hh) as (tk' & Hh' & Eg & _). specialize (Htlt _ _ Hh').
        simpl in Htlt. split; lia.
    + intros h1 h2 tk1 tk2 [[<- <-]|[Hne1 H1]]%lookup_insert_Some
        [[<- <-]|[Hne2 H2]]%lookup_insert_Some E1 E2; [done|..].
      all: destruct (abort_lookup _ _ _ _ ltac:(eassumption)) as (tk' & Hh' & Eg & _);
        specialize (Htlt _ _ Hh'); simpl in *; lia.
  - (* wake *) exact (inv_wake (mkWorld sh lock calls slot tasks wire) h msg g i ab msg' H H1 Hinv).
  - (* wake closed *) apply (inv_delete_task _ h Hinv).
  - (* superseded *) apply (inv_delete_task _ h Hinv).
  - (* retransmit *)
    pose proof (Ht _ _ H) as [_ Hcur]. unfold current in *. simpl in *.
    destruct (Hcur (eq_sym H0)) as (m & Hhd & ttl & Em). clear Hcur.
    assert (∀ k c, calls !! k = Some c → ∃ v sc, c = Checked v sc) as Hchk.
    { intros k c Hk. specialize (Hc k c Hk).
      assert (¬ map_Forall (λ _ tk, tk_generation tk < ps_generation (sh_state sh)) tasks) as Hn.
      { intros Hlt. specialize (Hlt _ _ H). simpl in Hlt. lia. }
      destruct c; simpl in Hc; [eauto|naive_solver..]. }
    split; unfold current; simpl.
    + intros k c Hk. by destruct (Hchk k c Hk) as (? & ? & ->).
    + intros h' tk [[<- <-]|[Hne Hh]]%lookup_insert_Some.
      * split; simpl; [lia|]. intros E. exists msg. split; [congruence|done].
      * destruct (Ht _ _ Hh) as [Hle _]. split; [done|]. intros E.
        destruct Hne. by eapply Hu.
    + intros h1 h2 tk1 tk2 [[<- <-]|[Hne1 H1]]%lookup_insert_Some
        [[<- <-]|[Hne2 H2]]%lookup_insert_Some E1 E2; [done|by eapply Hu..].
    + split; [|constructor; [simpl; lia|done]]. apply ordered_cons; [done|]. rewrite Hhd.
      left. simpl. split; [congruence|]. eauto.
  - (* retransmit failed *)
    exact (inv_delete_task _ h (inv_shared (mkWorld sh lock calls slot tasks wire)
      (record_sq sh (m_sq_num msg)) eq_refl Hinv)).
  - (* aborted *) apply (inv_delete_task _ h Hinv).
  - (* close *) exact (inv_shared (mkWorld sh lock calls slot tasks wire) (set_closed sh) eq_refl Hinv).
  - (* close abort *) apply (inv_abort _ None Hinv).
  - exact (inv_shared (mkWorld sh lock calls slot tasks wire) (set_test sh b) eq_refl Hinv).
  - exact (inv_shared (mkWorld sh lock calls slot tasks wire) (set_nds_com sh b) eq_refl Hinv).
Qed.

(** ** Frame sizes *)

Lemma length_size_mono a b : a ≤ b → length_size a ≤ length_size b.
Proof. intros. unfold length_size. repeat case_decide; lia. Qed.

Lemma uint_octets_32 v : in_u 32 v → zlen (append_uint [] v) ≤ zlen (append_uint [] U32_MAX).
Proof.
  intros Hv. change (zlen (append_uint [] U32_MAX)) with 5. unfold in_u in Hv.
  destruct (uint_size_spec v) as (Hr & _ & Hm); [unfold in_u; lia|].
  rewrite append_uint_eq by (unfold in_u; lia). simpl. rewrite zlen_to_be.
  destruct (decide (uint_size v ≤ 5)) as [|Hgt]; [lia|]. exfalso. specialize (Hm ltac:(lia)).
  pose proof (Z.pow_le_mono_r 256 4 (uint_size v - 2) ltac:(lia) ltac:(lia)).
  change (256 ^ 4) with (2 ^ 32) in *. lia.
Qed.

(** One element at most as long as another, in what it says and what it is. *)
Definition shorter (a b : Element) : Prop :=
  Element_size a ≤ Element_size b ∧ zlen (Element_encode a) ≤ zlen (Element_encode b).

Lemma shorter_refl a : shorter a a.
Proof. split; lia. Qed.

Lemma prim_shorter t c c' : zlen c ≤ zlen c' → shorter (prim t c) (prim t c').
Proof.
  intros Hl. pose proof (length_size_mono _ _ Hl). unfold shorter, prim.
  rewrite !Element_encode_primitive, !append_tlv_app, !zlen_app, !zlen_length_octets.
  cbn [Element_size]. lia.
Qed.

Lemma cons_shorter tag fs fs' :
  Forall2 shorter fs fs' → zlen (Element_encode (cons_elem tag fs)) ≤ zlen (Element_encode (cons_elem tag fs')).
Proof.
  intros H. unfold cons_elem. rewrite !Element_encode_constructed, !zlen_app, !zlen_length_octets.
  assert (Zsum (map Element_size fs) ≤ Zsum (map Element_size fs') ∧
    zlen (concat (map Element_encode fs)) ≤ zlen (concat (map Element_encode fs'))) as [Hs He].
  { induction H as [|a b fs fs' [Ha Hb] _ [IHs IHe]]; [split; reflexivity|].
    cbn [map concat]. rewrite !zlen_app. unfold Zsum in *. cbn [fold_right]. lia. }
  pose proof (length_size_mono _ _ Hs). lia.
Qed.

(** A retransmission is never longer than the message sized at its widest. *)
Lemma marshal_widest {E} m sq ttl widest :
  in_u 32 sq → in_u 32 ttl → marshal (E:=E) (with_sq_tatl m U32_MAX U32_MAX) = Ok widest →
  ∃ buf, marshal (E:=E) (with_sq_tatl m sq ttl) = Ok buf ∧ zlen buf ≤ zlen widest.
Proof.
  intros Hsq Httl. unfold marshal. cbn [with_sq_tatl m_values]. intros (es & -> & H)%bind_Ok_inv.
  apply Ok_inj in H as <-. cbn [mbind outcome_bind]. eexists. split; [reflexivity|].
  rewrite !Element_append_app, !zlen_app, !zlen_to_be.
  apply Z.add_le_mono_l, cons_shorter.
  repeat (apply Forall2_cons; split; [first
    [apply prim_shorter, uint_octets_32; done|apply shorter_refl]|]). constructor.
Qed.

(** ** What holds of every message in flight *)

Definition call_msg (P : Z → Message → Prop) (c : Call) : Prop :=
  match c with
  | Checked _ _ => True
  | Committed m g | Announced m g => P g m
  end.

Record msgs_all (P : Z → Message → Prop) (w : World) : Prop := {
  msgs_calls : map_Forall (λ _, call_msg P) (w_calls w);
  msgs_tasks : map_Forall (λ _ tk, P (tk_generation tk) (tk_msg tk)) (w_tasks w);
  msgs_wire : Forall (λ e, P e.1 e.2) (w_wire w);
}.

(** A property that new messages have and that retransmission keeps holds of
    every message. *)
Lemma msgs_step (P : Z → Message → Prop) w w' :
  (∀ k values sc now sh' msg g, w_calls w !! k = Some (Checked values sc) →
    publish_locked (w_shared w) values sc now = Ok (sh', msg, g) → P g msg) →
  (∀ g msg i msg', P g msg → bump (E:=unit) (w_shared w) msg i = Ok msg' → P g msg') →
  step w w' → msgs_all P w → msgs_all P w'.
Proof.
  intros Hnew Hbump Hstep [Hc Ht Hw]. destruct Hstep; split; simpl in *; try done;
    try (by apply map_Forall_delete).
  - apply map_Forall_insert_2; [done|done].
  - apply map_Forall_insert_2; [|done]. simpl. eauto.
  - apply map_Forall_insert_2; [|done]. exact (Hc _ _ H).
  - constructor; [exact (Hc _ _ H)|done].
  - apply map_Forall_insert_2; [exact (Hc _ _ H)|].
    intros h' tk (tk' & Hh & Eg & Em & _)%abort_lookup. rewrite Eg, Em. exact (Ht _ _ Hh).
  - apply map_Forall_insert_2; [|done]. simpl. eapply Hbump; [exact (Ht _ _ H)|done].
  - apply map_Forall_insert_2; [exact (Ht _ _ H)|done].
  - constructor; [exact (Ht _ _ H)|done].
  - intros h' tk (tk' & Hh & Eg & Em & _)%abort_lookup. rewrite Eg, Em. exact (Ht _ _ Hh).
Qed.

Lemma msgs_start P sh : msgs_all P (start sh).
Proof. split; simpl; [apply map_Forall_empty..|constructor]. Qed.

Lemma step_config w w' :
  step w w' → sh_cfg (w_shared w') = sh_cfg (w_shared w) ∧ sh_retrans (w_shared w') = sh_retrans (w_shared w).
Proof.
  destruct 1; simpl; try done.
  destruct (publish_locked_Ok _ _ _ _ _ _ _ ltac:(eassumption)) as (? & ? & _). done.
Qed.

(** The messages of a publisher: of its control block, counters in range, and
    fitting a frame however the retransmission numbers grow. *)
Definition goose_msg (cb : list Z) (_ : Z) (m : Message) : Prop :=
  m_go_cb_ref m = cb ∧ in_u 32 (m_sq_num m) ∧ in_u 32 (m_time_allowed_to_live m) ∧
  ∃ widest, marshal (E:=GooseError) (with_sq_tatl m U32_MAX U32_MAX) = Ok widest ∧
    zlen widest ≤ MAX_PAYLOAD.

Lemma tatl_range {E} sh n ttl : tatl (E:=E) sh n = Ok ttl → in_u 32 ttl.
Proof.
  unfold tatl. intros (last & _ & H)%bind_Ok_inv. apply bind_Ok_inv in H as (d & _ & H).
  apply Ok_inj in H as <-. by apply wrap_range.
Qed.

Lemma next_sq_range n : in_u 32 (next_sq n).
Proof. unfold next_sq. pose proof (wrap_range 32 (n + 1) ltac:(lia)) as H. unfold in_u, u32 in *. lia. Qed.

Lemma goose_msg_bump cb sh g msg i msg' :
  goose_msg cb g msg → bump (E:=unit) sh msg i = Ok msg' → goose_msg cb g msg'.
Proof.
  intros (Hcb & _ & _ & Hw) (ttl & Httl & H)%bind_Ok_inv. apply Ok_inj in H as <-.
  split_and!; [done|apply next_sq_range|by eapply tatl_range|exact Hw].
Qed.

Lemma reachable_ind' (cfg : PublisherConfig) (P : World → Prop) :
  (∀ sh, Publisher_new cfg = Ok sh → P (start sh)) →
  (∀ w w', P w → step w w' → P w') →
  ∀ w, reachable cfg w → P w.
Proof.
  intros H0 HS w (sh & Hsh & Hrtc). apply H0 in Hsh. clear H0.
  revert Hsh. induction Hrtc as [|w1 w2 w3 Hs _ IH]; eauto.
Qed.

Lemma reachable_msgs cfg w :
  reachable cfg w →
  msgs_all (goose_msg (pc_go_cb_ref cfg)) w ∧ pc_go_cb_ref (sh_cfg (w_shared w)) = pc_go_cb_ref cfg.
Proof.
  revert w. apply (reachable_ind' cfg).
  - intros sh Hsh. split; [apply msgs_start|]. unfold Publisher_new in Hsh.
    case_decide; [done|]. case_decide; [done|]. apply Ok_inj in Hsh as <-. done.
  - intros w1 w2 [Hm Hcb] Hs. split; [|by rewrite (proj1 (step_config _ _ Hs))].
    revert Hs Hm. apply msgs_step.
    + intros k values sc now sh' msg g _
        (_ & _ & _ & _ & _ & Hsq & _ & _ & Ecb & (ttl & Httl & Ettl) & Hw)%publish_locked_Ok.
      split_and!; [congruence|by rewrite Hsq|rewrite Ettl; by eapply tatl_range|exact Hw].
    + intros. by eapply goose_msg_bump.
Qed.

Lemma with_sq_tatl_self m : with_sq_tatl m (m_sq_num m) (m_time_allowed_to_live m) = m.
Proof. by destruct m. Qed.

(** ** Publishing only *)

(** The runs in which no call is a refresh. *)
Definition publishes (w : World) : Prop :=
  ∀ k values sc, w_calls w !! k = Some (Checked values sc) → sc = true.

Definition reachable_publishing (cfg : PublisherConfig) (w : World) : Prop :=
  ∃ sh, Publisher_new cfg = Ok sh ∧ rtc (λ w w', step w w' ∧ publishes w') (start sh) w.

(** While the counter has not wrapped, [stNum] is the number of the publish. *)
Definition numbered (g : Z) (m : Message) : Prop := g ≤ U32_MAX → m_st_num m = g.

Lemma step_state w w' :
  step w w' → publishes w →
  (current w ≤ U32_MAX → ps_st_num (sh_state (w_shared w)) = current w) → 0 ≤ current w →
  (current w' ≤ U32_MAX → ps_st_num (sh_state (w_shared w')) = current w') ∧ 0 ≤ current w' ∧
  current w ≤ current w'.
Proof.
  intros Hs Hp Hst H0. unfold current in *. destruct Hs; simpl in *; try (split_and!; [done|lia..]).
  destruct (publish_locked_Ok _ _ _ _ _ _ _ H1) as (_ & _ & _ & -> & -> & _ & -> & -> & _).
  rewrite (Hp _ _ _ H). split_and!; [|lia..]. intros Hle. unfold next_st_num, u32.
  rewrite Hst, wrap_id by (unfold in_u, U32_MAX in *; lia). lia.
Qed.

Lemma reachable_numbered cfg w :
  reachable_publishing cfg w →
  reachable cfg w ∧ publishes w ∧ 0 ≤ current w ∧
  (current w ≤ U32_MAX → ps_st_num (sh_state (w_shared w)) = current w) ∧ msgs_all numbered w.
Proof.
  intros (sh & Hsh & Hrtc).
  assert (publishes (start sh) ∧ 0 ≤ current (start sh) ∧
    (current (start sh) ≤ U32_MAX → ps_st_num (sh_state (w_shared (start sh))) = current (start sh)) ∧
    msgs_all numbered (start sh)) as H.
  { unfold Publisher_new in Hsh. case_decide; [done|]. case_decide; [done|].
    apply Ok_inj in Hsh as <-. split_and!; [intros k v sc Hk; simpl in Hk; by rewrite lookup_empty in Hk|done|done|apply msgs_start]. }
  assert (reachable cfg (start sh)) as Hr by (exists sh; by split).
  clear Hsh. revert H Hr. induction Hrtc as [|w1 w2 w3 [Hs Hp2] _ IH]; [tauto|].
  intros (Hp & H0 & Hst & Hm) Hr. apply IH.
  - destruct (step_state _ _ Hs Hp Hst H0) as (Hst' & H0' & _). split_and!; [done..|].
    revert Hs Hm. apply msgs_step.
    + intros k values sc now sh' msg g Hk
        (_ & _ & _ & -> & _ & _ & _ & Est & _)%publish_locked_Ok Hle.
      fold (current w1) in *. rewrite Est, (Hp _ _ _ Hk). unfold next_st_num, u32.
      rewrite Hst, wrap_id by (unfold in_u, U32_MAX in *; lia). lia.
    + intros g msg i msg' Hn (ttl & _ & E)%bind_Ok_inv. apply Ok_inj in E as <-. exact Hn.
  - destruct Hr as (sh' & ? & Hrtc). exists sh'. split; [done|]. by eapply rtc_r.
Qed.

(** A wire of numbered frames, oldest first, is an orderly stream. *)
Lemma ordered_stream cb wire :
  ordered wire → Forall (λ e, e.1 ≤ U32_MAX ∧ m_st_num e.2 = e.1 ∧ m_go_cb_ref e.2 = cb) wire →
  orderly_stream (map (λ e, received e.2) (rev wire)).
Proof.
  intros Ho Hf. assert (∀ l tl, ordered l →
    Forall (λ e, e.1 ≤ U32_MAX ∧ m_st_num e.2 = e.1 ∧ m_go_cb_ref e.2 = cb) l →
    orderly_stream (map (λ e, received e.2) tl) →
    match head l, head tl with Some a, Some b => orderly (received a.2) (received b.2) | _, _ => True end →
    orderly_stream (map (λ e, received e.2) (rev l ++ tl))) as H.
  { clear. induction l as [|b l IH]; intros tl Ho Hf Ht Hj; [done|].
    simpl. rewrite <-app_assoc. simpl. apply Forall_cons in Hf as [Hb Hf]. apply IH.
    - destruct l; [done|]. by destruct Ho.
    - done.
    - simpl. destruct tl as [|c tl]; [done|]. by split.
    - destruct l as [|a l]; [done|]. destruct Ho as [Hab _]. apply Forall_cons in Hf as [Ha _].
      simpl. destruct Ha as (Ha1 & Ha2 & Ha3), Hb as (Hb1 & Hb2 & Hb3).
      split; simpl; [congruence|]. destruct Hab as [[E (ttl & ->)]|[Hlt Hsq]].
      + left. by split.
      + right. split; [done|]. left. lia. }
  rewrite <-(app_nil_r (rev wire)). apply H; [done|done|done|by destruct (head wire)].
Qed.

(** ** Theorems *)

(** C1: A superseded state never follows its successor onto the wire. In
    every interleaving of publishes, refreshes, retransmission tasks, failing
    sends and close, the frames accepted by the interface are ordered: each is
    either the retransmission of the one before it, with the next [sqNum] and every
    other field but timeAllowedToLive unchanged, or the first frame, with [sqNum] 0,
    of a later publish; and the first frame of all has [sqNum] 0. *)
Theorem wire_ordered (cfg : PublisherConfig) (w : World) :
  reachable cfg w → ordered (w_wire w).
Proof.
  intros Hr. enough (inv w) as [_ _ _ [? _]] by done.
  revert w Hr. apply (reachable_ind' cfg); [intros; apply inv_start|apply inv_step].
Qed.

(** Every frame fits. In every interleaving, each message put on the wire
    is marshalled without panicking into a payload of at most [MAX_PAYLOAD] octets:
    sizing the message once with its widest numbers covers all of its
    retransmissions. *)
Theorem frames_fit (cfg : PublisherConfig) (w : World) (g : Z) (m : Message) :
  reachable cfg w → (g, m) ∈ w_wire w →
  ∃ frame, send_frame (E:=GooseError) (w_shared w) m = Ok frame ∧ zlen (fr_payload frame) ≤ MAX_PAYLOAD.
Proof.
  intros Hr Hin. destruct (reachable_msgs cfg w Hr) as [[_ _ Hw] _].
  rewrite Forall_forall in Hw. destruct (Hw _ Hin) as (_ & Hsq & Httl & widest & Hm & Hle). simpl in *.
  destruct (marshal_widest _ _ _ _ Hsq Httl Hm) as (buf & Hbuf & Hlen).
  rewrite with_sq_tatl_self in Hbuf. unfold send_frame. rewrite Hbuf. simpl.
  eexists. split; [reflexivity|]. simpl. lia.
Qed.

(** A publisher and a subscriber agree on the sequence. When every call is
    a publish and fewer than 2^32 publishes were made, a subscriber that receives
    every frame of any interleaving, at any times, flags neither a regression of
    [stNum] nor a gap of [sqNum]. *)
Theorem subscriber_in_sequence (cfg : PublisherConfig) (w : World) (arrivals : list Z) :
  reachable_publishing cfg w → current w ≤ U32_MAX → length arrivals = length (w_wire w) →
  Forall in_sequence
    (observe_all SequenceTracker_new
       (zip (map (λ e, received e.2) (rev (w_wire w))) arrivals)).
Proof.
  intros (Hr & _ & _ & _ & Hn)%reachable_numbered Hle Hlen.
  assert (inv w) as [_ _ _ [Ho Hg]].
  { revert w Hr Hn Hle Hlen. intros w Hr _ _ _. revert w Hr.
    apply (reachable_ind' cfg); [intros; apply inv_start|apply inv_step]. }
  destruct (reachable_msgs cfg w Hr) as [[_ _ Hm] _]. destruct Hn as [_ _ Hn].
  assert (orderly_stream (map (λ e, received e.2) (rev (w_wire w)))) as Hs.
  { apply (ordered_stream (pc_go_cb_ref cfg)); [done|].
    rewrite Forall_forall in *. intros e He. specialize (Hn e He). specialize (Hm e He).
    specialize (Hg e He). unfold numbered, goose_msg in *. simpl in *. split_and!; [lia|apply Hn; lia|tauto]. }
  destruct (map (λ e, received e.2) (rev (w_wire w))) as [|m ms] eqn:Em; [constructor|].
  assert (length arrivals = length (m :: ms)) as Hlen'.
  { rewrite <-Em, length_map, length_rev. done. }
  destruct arrivals as [|t ts]; [done|]. simpl. constructor; [done|].
  pose proof (observe_last SequenceTracker_new m t) as Hlast.
  unfold observe in Hlast |- *. simpl in *. apply observe_all_orderly.
  - destruct ms as [|m' ms]; [done|]. destruct ts as [|t' ts]; [done|]. simpl.
    exists m. eexists. split; [exact Hlast|]. simpl. split_and!; [done|done|]. by destruct Hs.
  - rewrite fst_zip by (simpl in Hlen'; lia). destruct ms; [done|]. by destruct Hs.
Qed.

(** TimeAllowedToLive covers the next retransmission. For an interval of
    the schedule up to 2^31 - 1 ms the advertised time is at least the interval, so
    a subscriber that gets every frame on schedule never calls the data stale; for
    whole milliseconds it is exactly twice the interval, so one frame may be
    missed; for an interval above a millisecond that is not a whole number of them
    it is less than twice the interval. *)
Theorem tatl_covers {E} (sh : Shared) (n d : Z) :
  0 ≤ n → sh_retrans sh !! Z.to_nat (Z.min n (zlen (sh_retrans sh) - 1)) = Some d →
  0 < d ≤ from_millis (2 ^ 31 - 1) →
  ∃ ttl, tatl (E:=E) sh n = Ok ttl ∧ d ≤ from_millis ttl ∧
    (d mod 1000000 = 0 → from_millis ttl = 2 * d) ∧
    (d mod 1000000 ≠ 0 → 1000000 < d → from_millis ttl < 2 * d).
Proof.
  unfold from_millis. intros Hn Hd Hr. unfold tatl.
  assert (0 < zlen (sh_retrans sh)) as Hz.
  { apply lookup_lt_Some in Hd. unfold zlen in *. lia. }
  rewrite usub_Ok by lia. cbn [mbind outcome_bind].
  rewrite (idx_lookup _ _ d) by (done || lia). cbn [mbind outcome_bind].
  eexists. split; [reflexivity|]. unfold U32_MAX, u32. rewrite wrap_id by (unfold in_u; dlia).
  split_and!; [dlia|intros; dlia|intros; dlia].
Qed.

(** *** A run *)

Definition sample_cfg : PublisherConfig :=
  mkPublisherConfig [1; 12; 205; 1; 0; 1] [0; 0; 0; 0; 0; 0] 0x1000 None [71; 67; 66] [68; 83] []
    1 [from_millis 10; 1500000] false false None.

Ltac no_refresh :=
  intros ? ? ? Hk; simpl in Hk;
  rewrite ?lookup_insert_Some, ?lookup_delete_Some, ?lookup_insert_Some, ?lookup_empty in Hk; naive_solver.

(** Publish, and one retransmission. *)
Lemma sample_run :
  ∃ w, reachable_publishing sample_cfg w ∧ reachable sample_cfg w ∧ current w = 1 ∧
    map (λ e, (e.1, m_st_num e.2, m_sq_num e.2)) (w_wire w) = [(1, 1, 1); (1, 1, 0)].
Proof.
  enough (∃ w, reachable_publishing sample_cfg w ∧ current w = 1 ∧
    map (λ e, (e.1, m_st_num e.2, m_sq_num e.2)) (w_wire w) = [(1, 1, 1); (1, 1, 0)]) as (w & H & ? & ?).
  { exists w. split; [exact H|]. split; [exact (proj1 (reachable_numbered _ _ H))|]. by split. }
  eexists. split.
  { eexists. split; [vm_compute; reflexivity|].
    eapply rtc_l; [split; [eapply (step_call _ _ _ _ _ _ 0%nat [VBoolean true] true); reflexivity|no_refresh]|].
    eapply rtc_l; [split; [eapply (step_commit _ _ _ _ _ 0%nat _ _ 1700000000000000000);
      [reflexivity|vm_compute; reflexivity]|no_refresh]|].
    eapply rtc_l; [split; [eapply (step_announce _ _ _ _ _ _ 0%nat); reflexivity|no_refresh]|].
    eapply rtc_l; [split; [eapply (step_spawn _ _ _ _ _ _ 0%nat _ _ 0%nat); reflexivity|no_refresh]|].
    eapply rtc_l; [split; [eapply (step_wake _ _ _ _ _ _ 0%nat);
      [reflexivity|reflexivity|vm_compute; reflexivity]|no_refresh]|].
    eapply rtc_l; [split; [eapply (step_retransmit _ _ _ _ _ _ 0%nat); [reflexivity|reflexivity]|no_refresh]|].
    apply rtc_refl. }
  split; reflexivity.
Qed.

Lemma wire_ordered_witness :
  ∃ w, reachable sample_cfg w ∧ length (w_wire w) = 2%nat ∧ ordered (w_wire w).
Proof.
  destruct sample_run as (w & _ & Hr & _ & Hw). exists w.
  split; [exact Hr|]. split; [|exact (wire_ordered sample_cfg w Hr)].
  apply (f_equal length) in Hw. rewrite length_map in Hw. exact Hw.
Defined.

Lemma frames_fit_witness :
  ∃ w g m frame, reachable sample_cfg w ∧ (g, m) ∈ w_wire w ∧
    send_frame (E:=GooseError) (w_shared w) m = Ok frame ∧ zlen (fr_payload frame) ≤ MAX_PAYLOAD.
Proof.
  destruct sample_run as (w & _ & Hr & _ & Hw).
  destruct (w_wire w) as [|[g m] l] eqn:E; [discriminate|].
  assert ((g, m) ∈ w_wire w) as Hin by (rewrite E; apply elem_of_cons; left; reflexivity).
  destruct (frames_fit sample_cfg w g m Hr Hin) as (frame & H1 & H2).
  exists w, g, m, frame. rewrite E. rewrite E in Hin. auto.
Defined.

Lemma subscriber_in_sequence_witness :
  ∃ w, reachable_publishing sample_cfg w ∧ length (w_wire w) = 2%nat ∧
    Forall in_sequence (observe_all SequenceTracker_new
      (zip (map (λ e, received e.2) (rev (w_wire w))) [0; 10000000])).
Proof.
  destruct sample_run as (w & Hp & _ & Hc & Hw). exists w.
  apply (f_equal length) in Hw. rewrite length_map in Hw.
  split; [exact Hp|]. split; [exact Hw|].
  apply (subscriber_in_sequence sample_cfg w [0; 10000000] Hp); [rewrite Hc; discriminate|].
  rewrite Hw. reflexivity.
Defined.

Lemma tatl_covers_witness :
  ∃ sh ttl, Publisher_new sample_cfg = Ok sh ∧ tatl (E:=unit) sh 1 = Ok ttl ∧
    1500000 ≤ from_millis ttl ∧ from_millis ttl < 2 * 1500000.
Proof.
  eexists. destruct (tatl_covers (E:=unit)
    (mkShared sample_cfg [from_millis 10; 1500000] (mkPubState 0 0 false false None 0) false) 1 1500000)
    as (ttl & H1 & H2 & _ & H4); [discriminate|reflexivity|split; reflexivity || discriminate|].
  exists ttl. split; [vm_compute; reflexivity|]. split; [exact H1|]. split; [exact H2|].
  apply H4; [discriminate|reflexivity].
Defined.

(** A refresh is reported as a gap. When a state is being advertised, a
    refresh sends it again with the same [stNum] and [sqNum] 0, and a subscriber
    that has received any frame of that state flags the refresh as a gap of the
    sequence number, although no frame was lost. *)
Theorem refresh_is_a_gap (sh sh' : Shared) (values : list Value) (now g t u : Z)
    (msg prev : Message) (tr : SequenceTracker) :
  publish_locked sh values false now = Ok (sh', msg, g) → ps_st_num (sh_state sh) ≠ 0 →
  m_go_cb_ref prev = pc_go_cb_ref (sh_cfg sh) → m_st_num prev = ps_st_num (sh_state sh) →
  m_st_num msg = m_st_num prev ∧
  sq_num_gap (observe (observe tr prev t).2 (received msg) u).1 = true.
Proof.
  intros (_ & _ & _ & _ & _ & Hsq & _ & Hst & Hcb & _)%publish_locked_Ok Hne Ecb Est.
  assert (m_st_num msg = m_st_num prev) as E.
  { rewrite Hst, Est. unfold next_st_num. by rewrite decide_False. }
  split; [done|]. pose proof (observe_last tr prev t) as Hlast.
  unfold observe at 1. simpl m_go_cb_ref. rewrite Hcb, <-Ecb, Hlast. simpl.
  rewrite E, Hsq, decide_True by done. apply bool_decide_eq_true.
  unfold next_sq. lia.
Qed.
Lemma refresh_is_a_gap_witness :
  ∃ sh sh' msg g prev,
    publish_locked sh [VBoolean true] false 0 = Ok (sh', msg, g) ∧ ps_st_num (sh_state sh) = 7 ∧
    m_st_num msg = m_st_num prev ∧
    sq_num_gap (observe (observe SequenceTracker_new prev 0).2 (received msg) 5).1 = true.
Proof.
  set (sh := mkShared sample_cfg [from_millis 10] (mkPubState 7 3 false false (Some 0) 9) false).
  destruct (publish_locked sh [VBoolean true] false 0) as [[[sh' msg] g]| | |] eqn:E;
    [|vm_compute in E; discriminate..].
  set (prev := mkMessage [71; 67; 66] [] [] 20 None 7 3 1 false false 0 [] 0x1000 None Anomalies_default).
  exists sh, sh', msg, g, prev. split; [exact E|]. split; [reflexivity|].
  exact (refresh_is_a_gap sh sh' _ _ g 0 5 msg prev SequenceTracker_new E ltac:(discriminate)
    eq_refl eq_refl).
Defined.

(** The steps other than a new call of publish or refresh. *)
Definition quiet_step (w w' : World) : Prop := step w w' ∧ dom (w_calls w') ⊆ dom (w_calls w).

Lemma quiet_stays w w' :
  quiet_step w w' → w_calls w = ∅ → w_tasks w = ∅ →
  w_calls w' = ∅ ∧ w_tasks w' = ∅ ∧ w_wire w' = w_wire w.
Proof.
  intros [Hs Hd] Hc Ht. destruct Hs; simpl in *; subst; try done;
    try (by rewrite lookup_empty in *).
  - rewrite dom_insert in Hd. exfalso. set_solver.
  - split_and!; [done| |done]. unfold abort. destruct slot; [apply alter_empty|done].
Qed.

(** One failed send silences the publisher. There is a run without a
    close in which a retransmission is refused by the interface, after which the
    publisher is open and advertises a state, but no sequence of steps other than
    a new publish or refresh puts a frame on the wire again: the heartbeat has
    stopped. *)
Theorem send_error_stops_heartbeat :
  ∃ cfg w, reachable cfg w ∧ sh_closed (w_shared w) = false ∧
    ps_st_num (sh_state (w_shared w)) = 1 ∧ w_wire w ≠ [] ∧
    ∀ w', rtc quiet_step w w' → w_wire w' = w_wire w.
Proof.
  exists sample_cfg. eexists. split.
  { eexists. split; [vm_compute; reflexivity|].
    eapply rtc_l; [eapply (step_call _ _ _ _ _ _ 0%nat [VBoolean true] true); reflexivity|].
    eapply rtc_l; [eapply (step_commit _ _ _ _ _ 0%nat _ _ 1700000000000000000);
      [reflexivity|vm_compute; reflexivity]|].
    eapply rtc_l; [eapply (step_announce _ _ _ _ _ _ 0%nat); reflexivity|].
    eapply rtc_l; [eapply (step_spawn _ _ _ _ _ _ 0%nat _ _ 0%nat); reflexivity|].
    eapply rtc_l; [eapply (step_wake _ _ _ _ _ _ 0%nat);
      [reflexivity|reflexivity|vm_compute; reflexivity]|].
    eapply rtc_l; [eapply (step_retransmit_failed _ _ _ _ _ _ 0%nat); [reflexivity|reflexivity]|].
    apply rtc_refl. }
  do 3 (split; [done|]). intros w' Hrtc.
  match type of Hrtc with rtc _ ?w0 _ =>
    assert (w_calls w0 = ∅ ∧ w_tasks w0 = ∅) as [Hc Ht] by (split; vm_compute; reflexivity) end.
  revert Hc Ht. induction Hrtc as [|w1 w2 w3 Hs _ IH]; [done|]. intros Hc Ht.
  destruct (quiet_stays _ _ Hs Hc Ht) as (Hc' & Ht' & <-). by apply IH.
Qed.
