(* ===== verification/Replay.v ===== *)
(** The anti-replay window of the routable session protocol
    (src/src/rsession/replay.rs), and its refinement of an abstract window over
    unbounded sequence numbers. *)

From S2P Require Import Prelude.
Local Open Scope Z_scope.

Record ReplayWindow := mkReplayWindow {
  rw_top : Z;
  (** Bit i: top-i has been accepted. *)
  rw_seen : Z;
  rw_last : option Z;
}.

(** [ReplayWindow::default]. *)
Definition ReplayWindow_default : ReplayWindow := mkReplayWindow 0 0 None.

(** [now.saturating_duration_since(last)]. *)
Definition since (now last : Z) : Z := Z.max 0 (now - last).

Definition expired (w : ReplayWindow) (now : Z) (reset : option Z) : bool :=
  match rw_last w, reset with
  | None, _ => true
  | Some last, Some reset => bool_decide (reset < since now last)
  | Some _, None => false
  end.

(** [1u64 << off]: a shift by the width or more overflows. *)
Definition bit64 {E} (off : Z) : outcome E Z :=
  if decide (off < 64) then Ok (Z.shiftl 1 off) else Panic.

Definition accept {E} (w : ReplayWindow) (n now size : Z) (reset : option Z)
    : outcome E (bool * ReplayWindow) :=
  if expired w now reset then Ok (true, mkReplayWindow n 1 (Some now))
  else
    let diff := swrap 32 (u32 (n - rw_top w)) in
    if decide (0 < diff) then
      let seen := if decide (64 ≤ diff) then 1 else Z.lor (u64 (Z.shiftl (rw_seen w) diff)) 1 in
      Ok (true, mkReplayWindow n seen (Some now))
    else
      let off := - diff in
      if decide (size ≤ off) then Ok (false, w)
      else
        bit ← bit64 off;
        if decide (Z.land (rw_seen w) bit ≠ 0) then Ok (false, w)
        else Ok (true, mkReplayWindow (rw_top w) (Z.lor (rw_seen w) bit) (Some now)).

(** ** The abstract window

    A sender's SPDUs are numbered without bound; the wire carries each number
    modulo 2^32. The abstract window is the set of numbers accepted since the
    window opened and the highest of them. *)

Definition fresh_number (size : Z) (accepted : gset Z) (T N : Z) : Prop :=
  T < N ∨ (T - N < size ∧ N ∉ accepted).

#[export] Instance fresh_number_dec size A T N : Decision (fresh_number size A T N).
Proof. unfold fresh_number. apply _. Defined.

(** The window [w] holds the abstract state: its top is the highest number
    accepted, and its bits say which of the 64 numbers from there down have been
    accepted. *)
Record represents (w : ReplayWindow) (T : Z) (A : gset Z) : Prop := {
  rep_top : rw_top w = u32 T;
  rep_seen : in_u 64 (rw_seen w);
  rep_bits : ∀ i, 0 ≤ i < 64 → Z.testbit (rw_seen w) i = bool_decide (T - i ∈ A);
  rep_top_in : T ∈ A;
  rep_max : ∀ x, x ∈ A → x ≤ T;
  rep_last : is_Some (rw_last w);
}.

Lemma in_u_lor w a b : 0 ≤ w → in_u w a → in_u w b → in_u w (Z.lor a b).
Proof.
  intros Hw [Ha Ha'] [Hb Hb'].
  assert (0 ≤ Z.lor a b) as H0 by (by apply Z.lor_nonneg). split; [done|].
  rewrite <- (Z.mod_small a (2 ^ w)), <- (Z.mod_small b (2 ^ w)) by done.
  rewrite <- !Z.land_ones, <- Z.land_lor_distr_l, Z.land_ones by done.
  apply Z.mod_pos_bound. lia.
Qed.

Lemma represents_open N now :
  represents (mkReplayWindow (u32 N) 1 (Some now)) N {[ N ]}.
Proof.
  split; simpl; [done | unfold in_u; lia | | set_solver | set_solver | eauto].
  intros i Hi. destruct (decide (i = 0)) as [->|Hne].
  - rewrite bool_decide_true; [done | set_solver by lia].
  - rewrite bool_decide_false; [| rewrite elem_of_singleton; lia].
    destruct i; done.
Qed.

(** Serial number arithmetic recovers the distance of two numbers less than half
    the number space apart. *)
Lemma serial_diff N T :
  in_i 32 (N - T) → swrap 32 (u32 (u32 N - u32 T)) = N - T.
Proof.
  intros H. unfold u32. rewrite <- (swrap_id 32 (N - T)) by (lia || done).
  unfold swrap, wrap. f_equal.
  rewrite Zplus_mod_idemp_l.
  replace (N mod 2 ^ 32 - T mod 2 ^ 32 + 2 ^ (32 - 1))
    with ((N mod 2 ^ 32 - T mod 2 ^ 32) + 2 ^ (32 - 1)) by lia.
  rewrite <- Zplus_mod_idemp_l, <- Zminus_mod, Zplus_mod_idemp_l. done.
Qed.

Lemma represents_advance w T A N now :
  represents w T A → T < N → 64 ≤ N - T →
  represents (mkReplayWindow (u32 N) 1 (Some now)) N ({[ N ]} ∪ A).
Proof.
  intros [Ht Hs Hb Hin Hmax _] HN H64. split; simpl; [done | unfold in_u; lia | | set_solver | | eauto].
  - intros i Hi. destruct (decide (i = 0)) as [->|Hne].
    + rewrite bool_decide_true; [done | set_solver by lia].
    + rewrite bool_decide_false; [destruct i; done|].
      rewrite elem_of_union, elem_of_singleton. intros [?|Hx%Hmax]; lia.
  - intros x. rewrite elem_of_union, elem_of_singleton. intros [->|Hx%Hmax]; lia.
Qed.

Lemma represents_shift w T A N now :
  represents w T A → T < N → N - T < 64 →
  represents (mkReplayWindow (u32 N) (Z.lor (u64 (Z.shiftl (rw_seen w) (N - T))) 1) (Some now)) N
    ({[ N ]} ∪ A).
Proof.
  intros [Ht Hs Hb Hin Hmax _] HN H64. split; simpl; [done | | | set_solver | | eauto].
  - apply in_u_lor; [lia | apply wrap_range; lia | unfold in_u; lia].
  - intros i Hi. rewrite Z.lor_spec. unfold u64, wrap.
    rewrite Z.mod_pow2_bits_low, Z.shiftl_spec by lia.
    destruct (decide (i = 0)) as [->|Hne].
    + rewrite orb_true_r, bool_decide_true; [done | set_solver by lia].
    + replace (Z.testbit 1 i) with false by (destruct i; done). rewrite orb_false_r.
      destruct (decide (i < N - T)).
      * rewrite Z.testbit_neg_r by lia. rewrite bool_decide_false; [done|].
        rewrite elem_of_union, elem_of_singleton. intros [?|Hx%Hmax]; lia.
      * rewrite Hb by lia. apply bool_decide_ext.
        replace (T - (i - (N - T))) with (N - i) by lia.
        rewrite elem_of_union, elem_of_singleton. split; [tauto|]. intros [?|?]; [lia|done].
  - intros x. rewrite elem_of_union, elem_of_singleton. intros [->|Hx%Hmax]; lia.
Qed.

Lemma represents_fill w T A N now :
  represents w T A → 0 ≤ T - N < 64 →
  represents (mkReplayWindow (rw_top w) (Z.lor (rw_seen w) (Z.shiftl 1 (T - N))) (Some now)) T
    ({[ N ]} ∪ A).
Proof.
  intros [Ht Hs Hb Hin Hmax _] HN. split; simpl; [done | | | set_solver | | eauto].
  - apply in_u_lor; [lia | done |]. rewrite Z.shiftl_1_l.
    split; [lia | apply Z.pow_lt_mono_r; lia].
  - intros i Hi. rewrite Z.lor_spec, Hb, Z.shiftl_1_l, Z.pow2_bits_eqb by lia.
    destruct (Z.eqb_spec (T - N) i).
    + rewrite orb_true_r, bool_decide_true; [done | set_solver by lia].
    + rewrite orb_false_r. apply bool_decide_ext.
      rewrite elem_of_union, elem_of_singleton. split; [tauto|]. intros [?|?]; [lia|done].
  - intros x. rewrite elem_of_union, elem_of_singleton. intros [->|Hx%Hmax]; lia.
Qed.

Lemma land_bit_ne_0 x i : 0 ≤ i → Z.land x (Z.shiftl 1 i) ≠ 0 ↔ Z.testbit x i = true.
Proof.
  intros Hi. rewrite Z.shiftl_1_l. split.
  - intros H. destruct (Z.testbit x i) eqn:E; [done|]. contradict H. apply Z.bits_inj'. intros j Hj.
    rewrite Z.land_spec, Z.bits_0, Z.pow2_bits_eqb by done.
    destruct (Z.eqb_spec i j) as [<-|]; [by rewrite E | apply andb_false_r].
  - intros H H0. assert (Z.testbit (Z.land x (2 ^ i)) i = false) as H1 by (by rewrite H0, Z.bits_0).
    rewrite Z.land_spec, H, Z.pow2_bits_true in H1 by done. done.
Qed.

(** One step of the window against the abstract one: an arrival within half the
    number space of the top is decided as the abstract window decides it, and the
    state after it again represents the abstract state. *)
Lemma accept_simulates {E} w T A N now size reset :
  represents w T A → expired w now reset = false → size ≤ 64 → in_i 32 (N - T) →
  if decide (fresh_number size A T N) then
    ∃ w', accept (E:=E) w (u32 N) now size reset = Ok (true, w') ∧
          represents w' (Z.max T N) ({[ N ]} ∪ A) ∧ rw_last w' = Some now
  else accept (E:=E) w (u32 N) now size reset = Ok (false, w).
Proof.
  intros Hrep Hexp Hsize Hdiff. unfold accept. rewrite Hexp.
  rewrite (rep_top _ _ _ Hrep), serial_diff by done. cbv zeta.
  destruct (decide (0 < N - T)) as [Hpos|Hneg].
  { rewrite decide_True by (left; lia). eexists. split; [done|]. split; [|done].
    rewrite Z.max_r by lia. destruct (decide (64 ≤ N - T)).
    - apply (represents_advance _ _ _ _ _ Hrep); lia.
    - apply (represents_shift _ _ _ _ _ Hrep); lia. }
  destruct (decide (size ≤ - (N - T))) as [Hold|Hwin].
  { rewrite (decide_False (P := fresh_number _ _ _ _)); [done | intros [?|[? ?]]; lia]. }
  unfold bit64. rewrite (decide_True (P := - (N - T) < 64)) by lia. cbn [mbind outcome_bind].
  replace (- (N - T)) with (T - N) by lia.
  pose proof (rep_bits _ _ _ Hrep (T - N) ltac:(lia)) as Hbit.
  replace (T - (T - N)) with N in Hbit by lia.
  destruct (decide (N ∈ A)) as [Hin|Hout].
  - rewrite (decide_False (P := fresh_number _ _ _ _)) by (intros [?|[? ?]]; [lia | done]).
    rewrite decide_True; [done|]. apply land_bit_ne_0; [lia|]. by rewrite Hbit, bool_decide_true.
  - rewrite (decide_True (P := fresh_number _ _ _ _)) by (right; split; [lia | done]).
    rewrite decide_False.
    2: { rewrite land_bit_ne_0 by lia. by rewrite Hbit, bool_decide_false. }
    eexists. split; [done|]. split; [|done]. rewrite Z.max_l by lia.
    rewrite <- (rep_top _ _ _ Hrep). apply (represents_fill _ _ _ _ _ Hrep); lia.
Qed.

(** ** Runs *)

(** The decisions on a sequence of arrivals, each a number and the time it
    arrived at. *)
Fixpoint accepts {E} (w : ReplayWindow) (size : Z) (reset : option Z) (arrivals : list (Z * Z))
    : outcome E (list bool) :=
  match arrivals with
  | [] => Ok []
  | (N, now) :: rest =>
      '(b, w') ← accept w (u32 N) now size reset;
      bs ← accepts w' size reset rest;
      Ok (b :: bs)
  end.

(** The decisions of the abstract window, open at [T] with [A] accepted. *)
Fixpoint spec_accepts (size : Z) (A : gset Z) (T : Z) (Ns : list Z) : list bool :=
  match Ns with
  | [] => []
  | N :: rest =>
      if decide (fresh_number size A T N) then true :: spec_accepts size ({[ N ]} ∪ A) (Z.max T N) rest
      else false :: spec_accepts size A T rest
  end.

(** No two of the times are further apart than the reset time. *)
Definition no_silence (reset : option Z) (times : list Z) : Prop :=
  ∀ r, reset = Some r → ∀ t t', t ∈ times → t' ∈ times → t' - t ≤ r.

(** All the numbers lie in one half of the number space. *)
Definition half_space (B : Z) (Ns : list Z) : Prop := Forall (λ N, B ≤ N < B + 2 ^ 31) Ns.

Lemma not_expired w last now reset times :
  no_silence reset times → (∀ r, reset = Some r → 0 ≤ r) → rw_last w = Some last →
  last ∈ times → now ∈ times → expired w now reset = false.
Proof.
  intros Hq Hr Hl Hlast Hnow. unfold expired. rewrite Hl. destruct reset as [r|]; [|done].
  apply bool_decide_false. unfold since.
  pose proof (Hq r eq_refl last now Hlast Hnow). specialize (Hr r eq_refl). lia.
Qed.

Lemma accepts_simulates {E} size reset B times arrivals :
  size ≤ 64 → (∀ r, reset = Some r → 0 ≤ r) → no_silence reset times →
  half_space B arrivals.*1 → (∀ t, t ∈ arrivals.*2 → t ∈ times) →
  ∀ w T A last, represents w T A → B ≤ T < B + 2 ^ 31 → rw_last w = Some last → last ∈ times →
  accepts (E:=E) w size reset arrivals = Ok (spec_accepts size A T arrivals.*1).
Proof.
  intros Hsize Hr Hq. induction arrivals as [|[N now] rest IH]; [done|].
  intros Hhalf Htimes w T A last Hrep HT Hl Hlast.
  apply Forall_cons in Hhalf as [HN Hhalf]. simpl in HN. cbn [fmap list_fmap] in *.
  assert (now ∈ times) as Hnow by (apply Htimes; left).
  pose proof (accept_simulates (E:=E) w T A N now size reset Hrep
    (not_expired _ _ _ _ _ Hq Hr Hl Hlast Hnow) Hsize ltac:(unfold in_i; simpl; lia)) as Hstep.
  cbn [accepts spec_accepts fst snd].
  assert (∀ t, t ∈ rest.*2 → t ∈ times) as Hrest by (intros t Ht; apply Htimes; by right).
  destruct (decide (fresh_number size A T N)).
  - destruct Hstep as (w' & -> & Hrep' & Hl'). cbn [mbind outcome_bind].
    rewrite (IH Hhalf Hrest _ _ _ now Hrep' ltac:(lia) Hl' Hnow). done.
  - rewrite Hstep. cbn [mbind outcome_bind].
    rewrite (IH Hhalf Hrest _ _ _ last Hrep HT Hl Hlast). done.
Qed.

Lemma accepts_open {E} size reset B N0 t0 arrivals :
  size ≤ 64 → (∀ r, reset = Some r → 0 ≤ r) → no_silence reset (t0 :: arrivals.*2) →
  half_space B (N0 :: arrivals.*1) →
  accepts (E:=E) ReplayWindow_default size reset ((N0, t0) :: arrivals) =
  Ok (true :: spec_accepts size {[ N0 ]} N0 arrivals.*1).
Proof.
  intros Hsize Hr Hq [HN0 Hhalf]%Forall_cons. cbn [accepts].
  change (accept (E:=E) ReplayWindow_default (u32 N0) t0 size reset)
    with (Ok (E:=E) (true, mkReplayWindow (u32 N0) 1 (Some t0))). cbn [mbind outcome_bind].
  rewrite (accepts_simulates size reset B (t0 :: arrivals.*2) arrivals Hsize Hr Hq Hhalf
    ltac:(intros; by right) _ N0 {[ N0 ]} t0 (represents_open _ _)); [done..|].
  left.
Qed.

(** The numbers a sequence of decisions accepted. *)
Definition accepted_of (Ns : list Z) (bs : list bool) : list Z :=
  (filter (λ p, Is_true p.2) (zip Ns bs)).*1.

Lemma accepted_of_cons N Ns b bs :
  accepted_of (N :: Ns) (b :: bs) = (if b then [N] else []) ++ accepted_of Ns bs.
Proof. unfold accepted_of. cbn [zip_with]. rewrite filter_cons. by destruct b. Qed.

Lemma spec_accepts_once size Ns A T :
  (∀ x, x ∈ A → x ≤ T) →
  NoDup (accepted_of Ns (spec_accepts size A T Ns)) ∧
  ∀ x, x ∈ accepted_of Ns (spec_accepts size A T Ns) → x ∉ A.
Proof.
  revert A T. induction Ns as [|N Ns IH]; intros A T Hmax.
  { split; [constructor | intros x Hx; inversion Hx]. }
  cbn [spec_accepts]. destruct (decide (fresh_number size A T N)) as [Hf|Hf]; rewrite accepted_of_cons.
  - assert (N ∉ A) by (destruct Hf as [?|[_ ?]]; [intros Hin%Hmax; lia | done]).
    destruct (IH ({[ N ]} ∪ A) (Z.max T N)) as [Hnd Hnew].
    { intros x. rewrite elem_of_union, elem_of_singleton. intros [->|Hx%Hmax]; lia. }
    split.
    + constructor; [|done]. intros Hin%Hnew. set_solver.
    + intros x [->|Hx]%elem_of_cons; [done|]. apply Hnew in Hx. set_solver.
  - apply (IH _ _ Hmax).
Qed.

(** C37: Within a reset period the 64-bit window with 32-bit serial numbers decides
    every arrival exactly as the abstract window over unbounded numbers does: newer
    than the highest accepted, or inside the window and not accepted before. The
    numbers may wrap; they only have to lie in one half of the number space. *)
Theorem window_refines {E} size reset B N0 t0 arrivals :
  size ≤ 64 → (∀ r, reset = Some r → 0 ≤ r) → no_silence reset (t0 :: arrivals.*2) →
  half_space B (N0 :: arrivals.*1) →
  accepts (E:=E) ReplayWindow_default size reset ((N0, t0) :: arrivals) =
  Ok (true :: spec_accepts size {[ N0 ]} N0 arrivals.*1).
Proof. apply accepts_open. Qed.

Lemma window_refines_witness :
  accepts (E:=Empty_set) ReplayWindow_default 64 None
    ((4294967295, 0) :: [(4294967297, 1); (4294967296, 2); (4294967297, 3); (4294967200, 4)]) =
  Ok [true; true; true; false; false].
Proof.
  apply (window_refines 64 None 4294967200 4294967295 0
    [(4294967297, 1); (4294967296, 2); (4294967297, 3); (4294967200, 4)]); [lia | done | done |].
  unfold half_space. repeat (apply Forall_cons; split; [simpl; lia|]). by apply Forall_nil.
Defined.

(** Within a reset period no SPDU number is accepted twice, in whatever order
    and however often the SPDUs arrive. *)
Theorem accepted_once {E} size reset B N0 t0 arrivals :
  size ≤ 64 → (∀ r, reset = Some r → 0 ≤ r) → no_silence reset (t0 :: arrivals.*2) →
  half_space B (N0 :: arrivals.*1) →
  ∃ bs, accepts (E:=E) ReplayWindow_default size reset ((N0, t0) :: arrivals) = Ok bs ∧
        NoDup (accepted_of (N0 :: arrivals.*1) bs).
Proof.
  intros Hsize Hr Hq Hhalf. eexists. split; [by apply (accepts_open _ _ B)|].
  rewrite accepted_of_cons. simpl.
  destruct (spec_accepts_once size arrivals.*1 {[ N0 ]} N0) as [Hnd Hnew]; [set_solver|].
  constructor; [|done]. intros Hin%Hnew. set_solver.
Qed.

Lemma accepted_once_witness :
  ∃ bs, accepts (E:=Empty_set) ReplayWindow_default 64 (Some 10)
          ((7, 0) :: [(8, 1); (8, 2); (7, 3); (9, 10)]) = Ok bs ∧
        NoDup (accepted_of (7 :: [8; 8; 7; 9]) bs).
Proof.
  apply (accepted_once 64 (Some 10) 0 7 0 [(8, 1); (8, 2); (7, 3); (9, 10)]).
  - lia.
  - intros r [= <-]. lia.
  - intros r [= <-] t t' Ht Ht'. simpl in Ht, Ht'.
    assert (∀ x, x ∈ [0; 1; 2; 3; 10] → 0 ≤ x ≤ 10) as H.
    { apply Forall_forall. repeat (apply Forall_cons; split; [lia|]). by apply Forall_nil. }
    pose proof (H t Ht). pose proof (H t' Ht'). lia.
  - unfold half_space. repeat (apply Forall_cons; split; [simpl; lia|]). by apply Forall_nil.
Defined.
