(* ===== verification/Keys.v ===== *)
(** Keys and key stores of the routable session protocol
    (src/src/rsession/keys.rs), and the errors of the session layer
    (src/src/rsession/mod.rs). The maps of the store are finite maps; a [u8] newtype
    such as [SecAlgorithm] is its number. *)

From stdpp Require Import pretty sorting.
From S2P Require Import Prelude Errors.
Local Open Scope string_scope.
Local Open Scope list_scope.
Local Open Scope Z_scope.

Inductive RsError :=
| Malformed (msg : string)
| RsVersion (v : Z)
| UnknownKey (id : Z)
| Algorithm (msg : string)
| Authentication (msg : string)
| Unsecured
| Replay (msg : string)
| NoActiveKey
| Version1Encrypt
| KeyId
| KeyAlgorithm
| KeyUnsupported (msg : string)
| KeyLength (msg : string)
| KeyCombination
| NoSuchKey (id : Z)
| NotListening
| NoRemote
| RsClosed
| Address (msg : string)
| Random (msg : string)
| RsIo (e : IoError).

Definition RsError_display (e : RsError) : string :=
  match e with
  | Malformed m => "rsession: malformed SPDU: " +:+ m
  | RsVersion v => "rsession: unsupported protocol version " +:+ pretty v
  | UnknownKey id => "rsession: unknown key " +:+ pretty id
  | Algorithm m => "rsession: security algorithms do not match the key: " +:+ m
  | Authentication m => "rsession: authentication failed: " +:+ m
  | Unsecured => "rsession: unsecured SPDU"
  | Replay m => "rsession: replayed SPDU: " +:+ m
  | NoActiveKey => "rsession: no active key"
  | Version1Encrypt => "rsession: protocol version 1 carries no encryption"
  | KeyId => "rsession: key ID 0 is reserved"
  | KeyAlgorithm => "rsession: key has no algorithm"
  | KeyUnsupported m => "rsession: algorithm not supported: " +:+ m
  | KeyLength m => "rsession: key length does not suit the algorithm: " +:+ m
  | KeyCombination => "rsession: a key either encrypts or signs"
  | NoSuchKey id => "rsession: no key " +:+ pretty id
  | NotListening => "rsession: session does not receive"
  | NoRemote => "rsession: session has no remote address"
  | RsClosed => "rsession: session closed"
  | Address m => "rsession: " +:+ m
  | Random m => "rsession: random source: " +:+ m
  | RsIo e => "rsession: " +:+ IoError_display e
  end.

(** ** Algorithms *)

Definition SEC_NONE : Z := 0.
Definition AES_128_GCM : Z := 1.
Definition AES_256_GCM : Z := 2.

Definition key_len (sec : Z) : Z :=
  if decide (sec = AES_128_GCM) then 16
  else if decide (sec = AES_256_GCM) then 32
  else 0.

Definition sec_display (sec : Z) : string :=
  if decide (sec = SEC_NONE) then "none"
  else if decide (sec = AES_128_GCM) then "AES-128-GCM"
  else if decide (sec = AES_256_GCM) then "AES-256-GCM"
  else "SecAlgorithm(" +:+ pretty sec +:+ ")".

Definition SIG_NONE : Z := 0.
Definition HMAC_SHA256_80 : Z := 1.
Definition HMAC_SHA256_128 : Z := 2.
Definition HMAC_SHA256_256 : Z := 3.
Definition AES_GMAC_64 : Z := 4.
Definition AES_GMAC_128 : Z := 5.
Definition HMAC_SHA3_80 : Z := 6.
Definition HMAC_SHA3_128 : Z := 7.
Definition HMAC_SHA3_256 : Z := 8.

Definition mac_len (sig : Z) : Z :=
  if decide (sig = HMAC_SHA256_80 ∨ sig = HMAC_SHA3_80) then 10
  else if decide (sig = HMAC_SHA256_128 ∨ sig = HMAC_SHA3_128) then 16
  else if decide (sig = HMAC_SHA256_256 ∨ sig = HMAC_SHA3_256) then 32
  else 0.

Definition is_sha3 (sig : Z) : bool :=
  bool_decide (sig = HMAC_SHA3_80 ∨ sig = HMAC_SHA3_128 ∨ sig = HMAC_SHA3_256).

Definition sig_display (sig : Z) : string :=
  if decide (sig = SIG_NONE) then "none"
  else if decide (sig = HMAC_SHA256_80) then "HMAC-SHA256-80"
  else if decide (sig = HMAC_SHA256_128) then "HMAC-SHA256-128"
  else if decide (sig = HMAC_SHA256_256) then "HMAC-SHA256-256"
  else if decide (sig = AES_GMAC_64) then "AES-GMAC-64"
  else if decide (sig = AES_GMAC_128) then "AES-GMAC-128"
  else if decide (sig = HMAC_SHA3_80) then "HMAC-SHA3-80"
  else if decide (sig = HMAC_SHA3_128) then "HMAC-SHA3-128"
  else if decide (sig = HMAC_SHA3_256) then "HMAC-SHA3-256"
  else "SigAlgorithm(" +:+ pretty sig +:+ ")".

(** ** Keys *)

Definition MIN_HMAC_KEY : Z := 16.

Record Key := mkKey {
  k_id : Z;
  k_material : list Z;
  k_sec : Z;
  k_sig : Z;
  k_time_of_current_key : Z;
  k_time_to_next_key : Z;
}.

#[export] Instance Key_eq_dec : EqDecision Key.
Proof. solve_decision. Defined.

Definition validate (k : Key) : outcome RsError unit :=
  if decide (k_id k = 0) then Err KeyId
  else if decide (k_sec k = SEC_NONE ∧ k_sig k = SIG_NONE) then Err KeyAlgorithm
  else if decide (k_sec k ≠ SEC_NONE ∧ k_sig k ≠ SIG_NONE) then Err KeyCombination
  else if decide (k_sec k ≠ SEC_NONE) then
    let n := key_len (k_sec k) in
    if decide (n = 0) then Err (KeyUnsupported (sec_display (k_sec k)))
    else if decide (zlen (k_material k) ≠ n) then
      Err (KeyLength (sec_display (k_sec k) +:+ " needs " +:+ pretty n +:+ " octets, have "
                      +:+ pretty (zlen (k_material k))))
    else Ok ()
  else if decide (mac_len (k_sig k) = 0) then Err (KeyUnsupported (sig_display (k_sig k)))
  else if decide (zlen (k_material k) < MIN_HMAC_KEY) then
    Err (KeyLength (sig_display (k_sig k) +:+ " needs at least " +:+ pretty MIN_HMAC_KEY
                    +:+ " octets, have " +:+ pretty (zlen (k_material k))))
  else Ok ().

(** ** The store *)

Record KeyStore := mkKeyStore {
  ks_keys : gmap Z Key;
  ks_active : Z;
}.

Definition KeyStore_new : KeyStore := mkKeyStore ∅ 0.

Definition KeyStore_add (s : KeyStore) (k : Key) : outcome RsError KeyStore :=
  _ ← validate k;
  Ok (mkKeyStore (<[k_id k := k]> (ks_keys s)) (ks_active s)).

(** The loop of [with_keys] from index [i]. *)
Fixpoint with_keys_from (s : KeyStore) (i : nat) (keys : list Key) : outcome RsError KeyStore :=
  match keys with
  | [] => Ok s
  | k :: rest =>
      s' ← KeyStore_add s k;
      let s'' := match i with O => mkKeyStore (ks_keys s') (k_id k) | _ => s' end in
      with_keys_from s'' (S i) rest
  end.

Definition with_keys (keys : list Key) : outcome RsError KeyStore :=
  with_keys_from KeyStore_new 0 keys.

Definition KeyStore_remove (s : KeyStore) (id : Z) : KeyStore :=
  mkKeyStore (delete id (ks_keys s)) (if decide (ks_active s = id) then 0 else ks_active s).

Definition set_active (s : KeyStore) (id : Z) : outcome RsError KeyStore :=
  if decide (ks_keys s !! id = None) then Err (NoSuchKey id)
  else Ok (mkKeyStore (ks_keys s) id).

Definition active (s : KeyStore) : Z :=
  if decide (ks_keys s !! ks_active s = None) then 0 else ks_active s.

Definition active_key (s : KeyStore) : option Key := ks_keys s !! ks_active s.

Definition KeyStore_lookup (s : KeyStore) (id : Z) : option Key := ks_keys s !! id.

Definition ids (s : KeyStore) : list Z :=
  merge_sort Z.le (map fst (map_to_list (ks_keys s))).

(** ** What a store promises *)

(** What a key must be to be used: named, and either an AES key of its
    algorithm's length that only encrypts, or an HMAC key long enough that only
    signs. *)
Definition usable (k : Key) : Prop :=
  k_id k ≠ 0 ∧
  ((k_sig k = SIG_NONE ∧
    ((k_sec k = AES_128_GCM ∧ zlen (k_material k) = 16) ∨
     (k_sec k = AES_256_GCM ∧ zlen (k_material k) = 32))) ∨
   (k_sec k = SEC_NONE ∧ k_sig k ∈ [1; 2; 3; 6; 7; 8] ∧ MIN_HMAC_KEY ≤ zlen (k_material k))).

Lemma key_len_cases sec :
  (sec = AES_128_GCM ∧ key_len sec = 16) ∨ (sec = AES_256_GCM ∧ key_len sec = 32) ∨
  (sec ≠ AES_128_GCM ∧ sec ≠ AES_256_GCM ∧ key_len sec = 0).
Proof. unfold key_len. repeat case_decide; tauto. Qed.

Lemma mac_len_supported sig :
  mac_len sig ≠ 0 ↔ sig ∈ [1; 2; 3; 6; 7; 8].
Proof.
  rewrite !elem_of_cons, elem_of_nil. unfold mac_len, HMAC_SHA256_80, HMAC_SHA3_80, HMAC_SHA256_128,
    HMAC_SHA3_128, HMAC_SHA256_256, HMAC_SHA3_256.
  repeat case_decide; lia.
Qed.

Lemma validate_usable k : validate k = Ok () ↔ usable k.
Proof.
  unfold validate, usable. rewrite <- mac_len_supported.
  assert (mac_len SIG_NONE = 0) as Hn by done.
  destruct (key_len_cases (k_sec k)) as [[Hs ->]|[[Hs ->]|(Hs & Hs' & ->)]];
    unfold AES_128_GCM, AES_256_GCM, SEC_NONE, SIG_NONE in *;
    destruct (decide (k_sig k = 0)) as [Hg|Hg]; rewrite ?Hg, ?Hn;
    repeat case_decide; split; intros; try done; try lia; naive_solver lia.
Qed.

Inductive StoreOp :=
| OpAdd (k : Key)
| OpRemove (id : Z)
| OpSetActive (id : Z).

(** A failed operation leaves the store as it was. *)
Definition apply_op (s : KeyStore) (op : StoreOp) : KeyStore :=
  let keep m := match m with Ok s' => s' | _ => s end in
  match op with
  | OpAdd k => keep (KeyStore_add s k)
  | OpRemove id => KeyStore_remove s id
  | OpSetActive id => keep (set_active s id)
  end.

Record store_wf (s : KeyStore) : Prop := {
  wf_keys : ∀ id k, ks_keys s !! id = Some k → k_id k = id ∧ usable k;
  wf_active : ks_active s = 0 ∨ is_Some (ks_keys s !! ks_active s);
}.

Lemma store_wf_no_zero s : store_wf s → ks_keys s !! 0 = None.
Proof.
  intros [Hk _]. destruct (ks_keys s !! 0) as [k|] eqn:E; [|done].
  apply Hk in E as [? [? _]]. done.
Qed.

Lemma add_inv s k s' :
  KeyStore_add s k = Ok s' →
  usable k ∧ s' = mkKeyStore (<[k_id k := k]> (ks_keys s)) (ks_active s).
Proof.
  unfold KeyStore_add. intros ([] & Hv & [= <-])%bind_Ok_inv. by apply validate_usable in Hv.
Qed.

Lemma add_wf s k s' : store_wf s → KeyStore_add s k = Ok s' → store_wf s'.
Proof.
  intros [Hk Ha] [Hu ->]%add_inv. split; simpl.
  - intros id k' [[<- <-]|[_ ?]]%lookup_insert_Some; [done | by apply Hk].
  - destruct Ha as [?|Ha]; [by left|]. right. destruct (decide (k_id k = ks_active s)) as [->|].
    + by rewrite lookup_insert_eq.
    + by rewrite lookup_insert_ne.
Qed.

Lemma with_keys_from_wf keys s i s' :
  store_wf s → with_keys_from s i keys = Ok s' → store_wf s'.
Proof.
  revert s i. induction keys as [|k keys IH]; intros s i Hwf; [by intros [= <-]|].
  cbn [with_keys_from]. intros (s1 & Hadd & H)%bind_Ok_inv.
  refine (IH _ _ _ H). destruct i; [|by eapply add_wf].
  pose proof (add_wf _ _ _ Hwf Hadd) as [Hk _]. split; simpl; [done|].
  apply add_inv in Hadd as [_ ->]. simpl. right. by rewrite lookup_insert_eq.
Qed.

Lemma apply_op_wf s op : store_wf s → store_wf (apply_op s op).
Proof.
  intros Hwf. destruct op as [k|id|id]; simpl.
  - destruct (KeyStore_add s k) eqn:E; try done. by eapply add_wf.
  - destruct Hwf as [Hk Ha]. split; simpl.
    + intros id' k' [_ ?]%lookup_delete_Some. by apply Hk.
    + case_decide; [by left|]. rewrite lookup_delete_ne by done. done.
  - unfold set_active. case_decide as Hd; [done|]. destruct Hwf as [Hk Ha]. split; simpl; [done|].
    right. by apply not_eq_None_Some.
Qed.

Lemma KeyStore_new_wf : store_wf KeyStore_new.
Proof. split; [done | by left]. Qed.

Lemma foldl_wf s ops : store_wf s → store_wf (foldl apply_op s ops).
Proof. revert s. induction ops as [|op ops IH]; intros s Hs; [done|]. by apply IH, apply_op_wf. Qed.

(** Whatever is done to a key store, every key it hands out, by identifier or
    as the sender's, has the identifier asked for, is named, and either encrypts
    with an AES key of the right length or signs with an HMAC key of at least 16
    octets; and [active] is 0 exactly when there is no sender's key. *)
Theorem store_keys_usable keys s0 ops :
  with_keys keys = Ok s0 →
  let s := foldl apply_op s0 ops in
  (∀ id k, KeyStore_lookup s id = Some k → k_id k = id ∧ usable k) ∧
  (∀ k, active_key s = Some k → active s = k_id k ∧ usable k) ∧
  (active_key s = None ↔ active s = 0).
Proof.
  intros H s.
  assert (store_wf s) as Hwf by (apply foldl_wf; by eapply with_keys_from_wf, H; apply KeyStore_new_wf).
  pose proof (store_wf_no_zero _ Hwf) as H0. destruct Hwf as [Hk Ha].
  unfold KeyStore_lookup, active_key, active. split; [done|]. split.
  - intros k E. rewrite E. destruct (Hk _ _ E) as [-> ?]. done.
  - destruct (ks_keys s !! ks_active s) eqn:E; [|done]. simpl. split; [done|].
    intros H1. rewrite H1 in E. congruence.
Qed.

(** Removing the active key leaves the sender without a key until another is
    made active: no further adding or removing brings one back, not even adding the
    removed key again. *)
Theorem removed_active_key_stays_out keys s0 ops ops' :
  with_keys keys = Ok s0 → Forall (λ op, ∀ id, op ≠ OpSetActive id) ops' →
  let s := foldl apply_op s0 ops in
  active_key (foldl apply_op (KeyStore_remove s (ks_active s)) ops') = None.
Proof.
  intros H Hops s.
  assert (store_wf s) as Hwf by (apply foldl_wf; by eapply with_keys_from_wf, H; apply KeyStore_new_wf).
  apply (apply_op_wf _ (OpRemove (ks_active s))) in Hwf. simpl in Hwf.
  assert (ks_active (KeyStore_remove s (ks_active s)) = 0) as H0.
  { unfold KeyStore_remove. simpl. by rewrite decide_True. }
  revert Hwf H0. generalize (KeyStore_remove s (ks_active s)). clear -Hops.
  induction Hops as [|op ops' Hop _ IH]; intros s Hwf H0; simpl.
  - unfold active_key. rewrite H0. by apply store_wf_no_zero.
  - apply IH; [by apply apply_op_wf|]. destruct op as [k|id|id]; simpl.
    + destruct (KeyStore_add s k) as [s'| | |] eqn:E; try done. by apply add_inv in E as [_ ->].
    + rewrite H0. by case_decide.
    + by destruct (Hop id).
Qed.

Definition hmac_key : Key := mkKey 1 (replicate 16 170) SEC_NONE HMAC_SHA256_128 0 0.
Definition aes_key : Key := mkKey 2 (replicate 32 85) AES_256_GCM SIG_NONE 0 0.

Lemma store_keys_usable_witness :
  let s := foldl apply_op (mkKeyStore {[ 1 := hmac_key ]} 1) [OpAdd aes_key; OpSetActive 2] in
  active_key s = Some aes_key ∧ (active s = 2 ∧ usable aes_key).
Proof.
  split; [by vm_compute|].
  refine (proj1 (proj2 (store_keys_usable [hmac_key] (mkKeyStore {[ 1 := hmac_key ]} 1)
    [OpAdd aes_key; OpSetActive 2] _)) aes_key _); by vm_compute.
Defined.

Lemma removed_active_key_stays_out_witness :
  active_key (foldl apply_op (KeyStore_remove (mkKeyStore {[ 1 := hmac_key ]} 1) 1)
                [OpAdd hmac_key; OpAdd aes_key]) = None.
Proof.
  apply (removed_active_key_stays_out [hmac_key] (mkKeyStore {[ 1 := hmac_key ]} 1) []).
  - by vm_compute.
  - repeat (apply Forall_cons; split; [done|]). by apply Forall_nil.
Defined.
