(* ===== verification/Spdu.v ===== *)
(** The session protocol data unit of IEC 61850-90-5 (src/src/rsession/spdu.rs):
    marshalling, decoding and verification. AES-GCM and HMAC are packages; they are
    the operations of the class [Crypto], and what the code relies on is the class
    [CryptoLaws]. *)

From stdpp Require Import pretty.
From S2P Require Import Prelude Errors Keys.
Local Open Scope string_scope.
Local Open Scope list_scope.
Local Open Scope Z_scope.

(** ** The cryptographic packages *)

(** The operations of the aes-gcm and hmac packages that the code calls. [aes_new]
    is [Aes128Gcm::new_from_slice] (128) or [Aes256Gcm::new_from_slice] (256), its
    error the message; [nonce_from_slice] may panic; the operations of a cipher fail
    with no information; [hmac true] is HMAC-SHA3-256, [hmac false] HMAC-SHA256. *)
Class Crypto := {
  Cipher : Type;
  Nonce : Type;
  nonce_from_slice : list Z → outcome RsError Nonce;
  aes_new : Z → list Z → outcome string Cipher;
  aes_encrypt : Cipher → Nonce → list Z → list Z → option (list Z);
  aes_decrypt : Cipher → Nonce → list Z → list Z → option (list Z);
  hmac : bool → list Z → list Z → list Z;
}.

Definition GCM_IV_LEN : Z := 12.
Definition GCM_TAG_LEN : Z := 16.

(** What the packages document: a nonce is made of 12 octets and of no other number
    ([from_slice] panics), a key is as long as its
    cipher's, encryption appends a 16-octet tag and succeeds up to a length beyond
    any SPDU, decryption undoes it and yields octets, and an HMAC has 32 octets. *)
Class CryptoLaws (C : Crypto) : Prop := {
  nonce_total iv : zlen iv = GCM_IV_LEN → is_ok (nonce_from_slice iv);
  nonce_panics iv : zlen iv ≠ GCM_IV_LEN → nonce_from_slice iv = Panic;
  aes_new_total bits material : bits = 128 ∨ bits = 256 → zlen material = bits / 8 →
    is_ok (aes_new bits material);
  aes_new_settled bits material : settled (aes_new bits material);
  encrypt_total c n m aad : zlen m < 2 ^ 32 → zlen aad < 2 ^ 32 → is_Some (aes_encrypt c n m aad);
  encrypt_len c n m aad ct : aes_encrypt c n m aad = Some ct → zlen ct = zlen m + GCM_TAG_LEN;
  decrypt_encrypt c n m aad ct : octets m → aes_encrypt c n m aad = Some ct →
    aes_decrypt c n ct aad = Some m;
  decrypt_octets c n ct aad m : aes_decrypt c n ct aad = Some m → octets m;
  hmac_len s k d : zlen (hmac s k d) = 32;
}.

(** ** Data *)

Definition SI_TUNNELLED : Z := 160.
Definition SI_GOOSE : Z := 161.
Definition SI_SV : Z := 162.
Definition SI_MANAGEMENT : Z := 163.

Definition PT_TUNNELLED : Z := 128.
Definition PT_GOOSE : Z := 129.
Definition PT_SV : Z := 130.
Definition PT_MANAGEMENT : Z := 131.

Record Payload := mkPayload {
  p_kind : Z;
  p_simulation : bool;
  p_app_id : Z;
  p_apdu : list Z;
}.

Record Spdu := mkSpdu {
  sp_si : Z;
  sp_number : Z;
  sp_version : Z;
  sp_key_id : Z;
  sp_time_of_current_key : Z;
  sp_time_to_next_key : Z;
  sp_payloads : list Payload;
  sp_signed : bool;
  sp_encrypted : bool;
}.

Definition CLTP_LI : Z := 1.
Definition CLTP_UD : Z := 64.
Definition TAG_COMMON : Z := 128.
Definition COMMON_LEN : Z := 10.
Definition TAG_SIGNATURE : Z := 133.
Definition TAG_PADDING : Z := 175.
Definition ELEMENT_HEADER : Z := 6.

(** [u8::from(bool)]. *)
Definition bit (b : bool) : Z := if b then 1 else 0.

Section Spdu.
Context {C : Crypto}.

(** ** Protection *)

Definition gcm_cipher (k : Key) : outcome RsError Cipher :=
  map_err KeyLength (aes_new (if decide (k_sec k = AES_128_GCM) then 128 else 256) (k_material k)).

Definition gcm_seal (k : Key) (iv plain aad : list Z) : outcome RsError (list Z) :=
  nonce ← nonce_from_slice iv;
  c ← gcm_cipher k;
  match aes_encrypt c nonce plain aad with
  | Some out => Ok out
  | None => Err (Authentication "GCM encryption failed")
  end.

Definition gcm_open (k : Key) (iv sealed aad : list Z) : outcome RsError (list Z) :=
  nonce ← nonce_from_slice iv;
  c ← gcm_cipher k;
  match aes_decrypt c nonce sealed aad with
  | Some out => Ok out
  | None => Err (Authentication "GCM tag does not verify")
  end.

Definition full_mac (k : Key) (data : list Z) : list Z :=
  hmac (is_sha3 (k_sig k)) (k_material k) data.

Definition compute_mac (k : Key) (data : list Z) : list Z :=
  take (Z.to_nat (mac_len (k_sig k))) (full_mac k data).

Definition verify_mac (k : Key) (data tag : list Z) : bool :=
  let want := compute_mac k data in
  bool_decide (zlen want = zlen tag) &&
  bool_decide (foldl (λ acc p, Z.lor acc (Z.lxor p.1 p.2)) 0 (zip want tag) = 0).

(** ** Marshalling *)

Definition encrypts (key : option Key) : bool :=
  match key with Some k => bool_decide (k_sec k ≠ SEC_NONE) | None => false end.

(** The first loop: the length of the payload elements. *)
Fixpoint user_length (acc : Z) (ps : list Payload) : outcome RsError Z :=
  match ps with
  | [] => Ok acc
  | p :: rest =>
      if decide (65535 < zlen (p_apdu p)) then
        Err (Malformed ("APDU of " +:+ pretty (zlen (p_apdu p)) +:+ " octets exceeds the 16-bit length"))
      else user_length (acc + (ELEMENT_HEADER + zlen (p_apdu p))) rest
  end.

(** One payload element. *)
Definition element (p : Payload) : list Z :=
  [p_kind p; bit (p_simulation p)] ++ to_be 2 (p_app_id p) ++ to_be 2 (u16 (zlen (p_apdu p))) ++ p_apdu p.

Definition security_info (version : Z) (key : option Key) (iv : list Z) : list Z :=
  let '(key_id, tock, ttnk) :=
    match key with
    | Some k => (k_id k, k_time_of_current_key k, k_time_to_next_key k)
    | None => (0, 0, 0)
    end in
  to_be 4 tock ++ to_be 2 ttnk ++
  if decide (version = 1) then
    let '(sec, sig) := match key with Some k => (k_sec k, k_sig k) | None => (0, 0) end in
    [sec; sig] ++ to_be 4 key_id
  else to_be 4 key_id ++ [u8 (zlen iv)] ++ iv.

Definition marshal_with_iv (s : Spdu) (key : option Key) (iv : list Z) : outcome RsError (list Z) :=
  let version := if decide (sp_version s = 0) then 2 else sp_version s in
  if decide (version ≠ 1 ∧ version ≠ 2) then Err (RsVersion version) else
  _ ← match key with
      | Some k =>
          _ ← validate k;
          if decide (version = 1 ∧ k_sec k ≠ SEC_NONE) then Err Version1Encrypt else Ok ()
      | None => Ok ()
      end;
  let encrypt := encrypts key in
  let iv := if encrypt then iv else [] in
  user_len ← user_length 0 (sp_payloads s);
  let sec_info_len := if decide (version = 2) then 11 + zlen iv else 12 in
  let trailer :=
    match key with
    | None => 0
    | Some k => if encrypt then 2 + GCM_TAG_LEN else 2 + mac_len (k_sig k)
    end in
  let session_hdr_len := 2 + COMMON_LEN + sec_info_len in
  let total := 2 + 2 + session_hdr_len + 4 + user_len + trailer in
  let b := [CLTP_LI; CLTP_UD; sp_si s; u8 session_hdr_len; TAG_COMMON; COMMON_LEN] in
  rest ← usub total (zlen b);
  spdu_len ← usub rest 4;
  let b := b ++ to_be 4 (u32 spdu_len) ++ to_be 4 (sp_number s) ++ to_be 2 version
             ++ security_info version key iv ++ to_be 4 (u32 user_len) in
  let user := concat (map element (sp_payloads s)) in
  match key with
  | None => Ok (b ++ user)
  | Some k =>
      if encrypt then
        sealed ← gcm_seal k iv user b;
        n ← usub (zlen sealed) GCM_TAG_LEN;
        Ok (b ++ take (Z.to_nat n) sealed ++ [TAG_SIGNATURE; u8 GCM_TAG_LEN] ++ drop (Z.to_nat n) sealed)
      else
        let mac := compute_mac k (b ++ user) in
        Ok (b ++ user ++ [TAG_SIGNATURE; u8 (zlen mac)] ++ mac)
  end.

(** [marshal]: [random] is what [getrandom] fills the vector with, or its
    error. *)
Definition marshal (random : outcome string (list Z)) (s : Spdu) (key : option Key)
    : outcome RsError (list Z) :=
  iv ← if encrypts key then map_err Random random else Ok (replicate 12 0);
  marshal_with_iv s key iv.

(** ** Reading *)

Record Reader := mkReader {
  rd_off : Z;
  rd_short : bool;
}.

Definition rd_bytes (b : list Z) (r : Reader) (n : Z) : outcome RsError (list Z * Reader) :=
  if rd_short r then Ok ([], mkReader (rd_off r) true)
  else
    left ← usub (zlen b) (rd_off r);
    if decide (left < n) then Ok ([], mkReader (rd_off r) true)
    else
      v ← slice b (rd_off r) (rd_off r + n);
      Ok (v, mkReader (rd_off r + n) false).

Definition rd_u8 (b : list Z) (r : Reader) : outcome RsError (Z * Reader) :=
  '(v, r) ← rd_bytes b r 1;
  Ok (match v with a :: _ => a | [] => 0 end, r).

Definition rd_u16 (b : list Z) (r : Reader) : outcome RsError (Z * Reader) :=
  '(v, r) ← rd_bytes b r 2;
  Ok (match v with [a; c] => from_be [a; c] | _ => 0 end, r).

Definition rd_u32 (b : list Z) (r : Reader) : outcome RsError (Z * Reader) :=
  '(v, r) ← rd_bytes b r 4;
  Ok (match v with [a; c; d; e] => from_be [a; c; d; e] | _ => 0 end, r).

Definition find_key (keys : option KeyStore) (id : Z) : outcome RsError Key :=
  match keys ≫= λ ks, KeyStore_lookup ks id with
  | Some k => Ok k
  | None => Err (UnknownKey id)
  end.

(** The security information: the key identifier, the key and the
    initialisation vector. *)
Definition read_security (b : list Z) (keys : option KeyStore) (version : Z) (r : Reader)
    : outcome RsError (Z * option Key * list Z * Reader) :=
  if decide (version = 1) then
    '(sec, r) ← rd_u8 b r;
    '(sig, r) ← rd_u8 b r;
    '(key_id, r) ← rd_u32 b r;
    if rd_short r then Err (Malformed "truncated security information")
    else if decide (key_id = 0) then
      if decide (sec ≠ SEC_NONE ∨ sig ≠ SIG_NONE) then Err (Malformed "algorithms without a key")
      else Ok (key_id, None, [], r)
    else
      k ← find_key keys key_id;
      if decide (sec ≠ k_sec k ∨ sig ≠ k_sig k) then
        Err (Algorithm ("SPDU declares " +:+ sec_display sec +:+ "/" +:+ sig_display sig +:+ ", key "
                        +:+ pretty key_id +:+ " is " +:+ sec_display (k_sec k) +:+ "/"
                        +:+ sig_display (k_sig k)))
      else Ok (key_id, Some k, [], r)
  else if decide (version = 2) then
    '(key_id, r) ← rd_u32 b r;
    '(iv_len, r) ← rd_u8 b r;
    '(iv, r) ← rd_bytes b r iv_len;
    if rd_short r then Err (Malformed "truncated security information")
    else if decide (key_id ≠ 0) then
      k ← find_key keys key_id;
      if decide (k_sec k ≠ SEC_NONE ∧ iv_len ≠ GCM_IV_LEN) then
        Err (Malformed (pretty iv_len +:+ "-octet initialisation vector, GCM uses " +:+ pretty GCM_IV_LEN))
      else Ok (key_id, Some k, iv, r)
    else Ok (key_id, None, iv, r)
  else Err (RsVersion version).

(** The trailer after any padding. *)
Definition skip_padding (trailer : list Z) : outcome RsError (list Z) :=
  if decide (2 ≤ zlen trailer) then
    t0 ← idx trailer 0;
    if decide (t0 = TAG_PADDING) then
      t1 ← idx trailer 1;
      let n := 2 + t1 in
      if decide (zlen trailer < n) then Err (Malformed "truncated padding") else slice_from trailer n
    else Ok trailer
  else Ok trailer.

(** The checks of the trailer: the user data in clear, and whether it was signed
    and encrypted. *)
Definition verify (b : list Z) (key : option Key) (iv : list Z) (user_start user_end : Z)
    : outcome RsError (list Z * bool * bool) :=
  user ← slice b user_start user_end;
  match key with
  | None =>
      if decide (user_end ≠ zlen b) then
        n ← usub (zlen b) user_end;
        Err (Malformed (pretty n +:+ " octets after the user data of an unsecured SPDU"))
      else Ok (user, false, false)
  | Some k =>
      trailer ← slice_from b user_end;
      trailer ← skip_padding trailer;
      sig_pos ← usub (zlen b) (zlen trailer);
      if decide (zlen trailer < 2) then Err (Authentication "no signature trailer") else
      t0 ← idx trailer 0;
      if decide (t0 ≠ TAG_SIGNATURE) then Err (Authentication "no signature trailer") else
      n ← idx trailer 1;
      if decide (zlen trailer < 2 + n) then Err (Malformed "truncated signature") else
      tag ← slice trailer 2 (2 + n);
      if decide (k_sec k ≠ SEC_NONE) then
        if decide (n ≠ GCM_TAG_LEN) then Err (Authentication (pretty n +:+ "-octet GCM tag")) else
        aad ← slice b 0 user_start;
        plain ← map_err (λ _, Authentication "GCM tag does not verify") (gcm_open k iv (user ++ tag) aad);
        Ok (plain, false, true)
      else
        if decide (n ≠ mac_len (k_sig k)) then
          Err (Authentication (pretty n +:+ "-octet MAC, " +:+ sig_display (k_sig k) +:+ " is "
                               +:+ pretty (mac_len (k_sig k))))
        else
        data ← slice b 0 sig_pos;
        if verify_mac k data tag then Ok (user, true, false)
        else Err (Authentication "MAC does not verify")
  end.

(** The loop over the payload elements of [user] from [off]. *)
Fixpoint read_elements (fuel : nat) (user : list Z) (off : Z) (acc : list Payload)
    : outcome RsError (list Payload) :=
  match fuel with
  | O => NoFuel
  | S fuel =>
      if decide (off < zlen user) then
        left ← usub (zlen user) off;
        if decide (left < ELEMENT_HEADER) then Err (Malformed "truncated payload element") else
        h ← slice user off (off + ELEMENT_HEADER);
        h0 ← idx h 0; h1 ← idx h 1; h2 ← idx h 2; h3 ← idx h 3; h4 ← idx h 4; h5 ← idx h 5;
        let n := from_be [h4; h5] in
        let off := off + ELEMENT_HEADER in
        rest ← usub (zlen user) off;
        n ← (if decide (rest < n) then
               if decide (n ≠ rest + 2) then
                 Err (Malformed ("APDU of " +:+ pretty n +:+ " octets, " +:+ pretty rest +:+ " remain"))
               else Ok rest
             else Ok n);
        apdu ← slice user off (off + n);
        read_elements fuel user (off + n)
          (acc ++ [mkPayload h0 (bool_decide (h1 ≠ 0)) (from_be [h2; h3]) apdu])
      else Ok acc
  end.

(** The transport and session headers, to the key times. *)
Definition read_header (b : list Z) : outcome RsError (Z * Z * Z * Z * Z * Reader) :=
  let r := mkReader 0 false in
  '(li, r) ← rd_u8 b r;
  if decide (li ≠ CLTP_LI) then Err (Malformed "not a connectionless transport unit") else
  '(ud, r) ← rd_u8 b r;
  if decide (ud ≠ CLTP_UD) then Err (Malformed "not a connectionless transport unit") else
  '(si, r) ← rd_u8 b r;
  '(_, r) ← rd_u8 b r;
  '(tag, r) ← rd_u8 b r;
  if decide (tag ≠ TAG_COMMON) then Err (Malformed "no common session header") else
  '(_, r) ← rd_u8 b r;
  '(_, r) ← rd_u32 b r;
  '(number, r) ← rd_u32 b r;
  '(version, r) ← rd_u16 b r;
  '(tock, r) ← rd_u32 b r;
  '(ttnk, r) ← rd_u16 b r;
  if rd_short r then Err (Malformed "truncated session header")
  else Ok (si, number, version, tock, swrap 16 ttnk, r).

Definition unmarshal (b : list Z) (keys : option KeyStore) : outcome RsError Spdu :=
  '(si, number, version, tock, ttnk, r) ← read_header b;
  '(key_id, key, iv, r) ← read_security b keys version r;
  '(ul, r) ← rd_u32 b r;
  left ← usub (zlen b) (rd_off r);
  if decide (rd_short r = true ∨ left < ul) then
    Err (Malformed ("payload length " +:+ pretty ul +:+ " exceeds the SPDU"))
  else
  let user_start := rd_off r in
  '(user, signed, encrypted) ← verify b key iv user_start (user_start + ul);
  payloads ← read_elements (S (length user)) user 0 [];
  Ok (mkSpdu si number version key_id tock ttnk payloads signed encrypted).

End Spdu.

(** ** No panic *)

Section Safety.
Context {C : Crypto} {L : CryptoLaws C}.

(** A reader inside its input. *)
Definition rd_in (b : list Z) (r : Reader) : Prop := 0 ≤ rd_off r ≤ zlen b.

(** The octets a read covers. *)
Definition covers (b : list Z) (r : Reader) (n : Z) (r' : Reader) : Prop :=
  rd_short r' = false → rd_short r = false ∧ rd_off r' = rd_off r + n.

Definition field (b : list Z) (off n : Z) : list Z := take (Z.to_nat n) (drop (Z.to_nat off) b).

Lemma rd_bytes_returns b r n :
  rd_in b r → 0 ≤ n →
  returns (λ '(v, r'), rd_in b r' ∧ (octets b → octets v) ∧ covers b r n r' ∧
    (rd_short r' = false → zlen v = n ∧ v = field b (rd_off r) n)) (rd_bytes b r n).
Proof.
  intros Hin Hn. unfold rd_in, covers, field in *. unfold rd_bytes. destruct (rd_short r) eqn:Hs; simpl.
  { split; [lia|]. split; [intros _; apply octets_nil | done]. }
  rewrite usub_Ok by lia. simpl. destruct (decide (zlen b - rd_off r < n)); simpl.
  { split; [lia|]. split; [intros _; apply octets_nil | done]. }
  rewrite slice_Ok by lia. simpl. split; [lia|].
  replace (rd_off r + n - rd_off r) with n by lia. split; [|split; [done|]].
  - intros Hb. by apply octets_take, octets_drop.
  - intros _. split; [|done]. apply zlen_take. rewrite zlen_drop; lia.
Qed.

Lemma rd_u8_returns b r :
  rd_in b r → octets b →
  returns (λ '(v, r'), rd_in b r' ∧ covers b r 1 r' ∧ octet v) (rd_u8 b r).
Proof.
  intros Hin Hb. eapply returns_bind; [apply (rd_bytes_returns b r 1 Hin); lia|].
  intros [v r'] (Hin' & Ho & Hc & _). split; [done|]. split; [done|]. destruct v as [|x v]; [done|].
  specialize (Ho Hb). by apply octets_cons in Ho as [? _].
Qed.

Lemma rd_u16_returns b r :
  rd_in b r →
  returns (λ '(v, r'), rd_in b r' ∧ covers b r 2 r' ∧
    (rd_short r' = false → v = from_be (field b (rd_off r) 2))) (rd_u16 b r).
Proof.
  intros Hin. eapply returns_bind; [apply (rd_bytes_returns b r 2 Hin); lia|].
  intros [v r'] (Hin' & _ & Hc & Hv). split; [done|]. split; [done|].
  intros Hs. destruct (Hv Hs) as [Hl <-]. unfold zlen in Hl.
  do 3 (destruct v as [|? v]; try done). simpl in Hl. lia.
Qed.

Lemma rd_u32_returns b r :
  rd_in b r → octets b →
  returns (λ '(v, r'), rd_in b r' ∧ covers b r 4 r' ∧ 0 ≤ v ∧
    (rd_short r' = false → v = from_be (field b (rd_off r) 4))) (rd_u32 b r).
Proof.
  intros Hin Hb. eapply returns_bind; [apply (rd_bytes_returns b r 4 Hin); lia|].
  intros [v r'] (Hin' & Ho & Hc & Hv). split; [done|]. split; [done|]. split.
  - do 5 (destruct v as [|? v]; try done). apply from_be_range, Ho, Hb.
  - intros Hs. destruct (Hv Hs) as [Hl <-]. unfold zlen in Hl.
    do 5 (destruct v as [|? v]; try done); simpl in Hl; lia.
Qed.

(** The header is the first 22 octets, the version at 14. *)
Lemma read_header_returns b :
  octets b →
  returns (λ '(_, _, version, _, _, r), rd_in b r ∧ rd_short r = false ∧ rd_off r = 22 ∧
    version = from_be (field b 14 2)) (read_header b).
Proof.
  intros Hb. unfold read_header.
  assert (rd_in b (mkReader 0 false)) as H0 by (split; simpl; [lia | apply zlen_nonneg]).
  eapply returns_bind; [by apply rd_u8_returns|]. intros [li r1] (H1 & C1 & _).
  destruct (decide (li ≠ CLTP_LI)); [done|].
  eapply returns_bind; [by apply rd_u8_returns|]. intros [ud r2] (H2 & C2 & _).
  destruct (decide (ud ≠ CLTP_UD)); [done|].
  eapply returns_bind; [by apply rd_u8_returns|]. intros [si r3] (H3 & C3 & _).
  eapply returns_bind; [by apply rd_u8_returns|]. intros [? r4] (H4 & C4 & _).
  eapply returns_bind; [by apply rd_u8_returns|]. intros [tag r5] (H5 & C5 & _).
  destruct (decide (tag ≠ TAG_COMMON)); [done|].
  eapply returns_bind; [by apply rd_u8_returns|]. intros [? r6] (H6 & C6 & _).
  eapply returns_bind; [by apply rd_u32_returns|]. intros [? r7] (H7 & C7 & _).
  eapply returns_bind; [by apply rd_u32_returns|]. intros [num r8] (H8 & C8 & _).
  eapply returns_bind; [by apply rd_u16_returns|]. intros [ver r9] (H9 & C9 & Hv).
  eapply returns_bind; [by apply rd_u32_returns|]. intros [tock r10] (H10 & C10 & _).
  eapply returns_bind; [by apply rd_u16_returns|]. intros [ttnk r11] (H11 & C11 & _).
  destruct (rd_short r11) eqn:E; [done|]. unfold covers in *. cbn [rd_off rd_short] in *.
  destruct C11 as [E10 Ho11]; [done|]. destruct C10 as [E9 Ho10]; [done|]. specialize (Hv E9).
  destruct C9 as [E8 Ho9]; [done|]. destruct C8 as [E7 Ho8]; [done|]. destruct C7 as [E6 Ho7]; [done|].
  destruct C6 as [E5 Ho6]; [done|]. destruct C5 as [E4 Ho5]; [done|]. destruct C4 as [E3 Ho4]; [done|].
  destruct C3 as [E2 Ho3]; [done|]. destruct C2 as [E1 Ho2]; [done|]. destruct C1 as [_ Ho1]; [done|].
  replace (rd_off r8) with 14 in Hv by lia. do 2 (split; [done|]). split; [lia | done].
Qed.

(** What the security information yields: a key is one the store holds under the
    identifier read, and a version 2 key that encrypts comes with a vector of the
    cipher's length. *)
Lemma read_security_returns b keys version r :
  rd_in b r → octets b →
  returns (λ '(id, key, iv, r'), rd_in b r' ∧ rd_short r' = false ∧
    match key with
    | Some k => id ≠ 0 ∧ find_key keys id = Ok k ∧
                (k_sec k ≠ SEC_NONE → version = 1 ∨ zlen iv = GCM_IV_LEN)
    | None => id = 0
    end) (read_security b keys version r).
Proof.
  intros Hin Hb. unfold read_security.
  destruct (decide (version = 1)) as [->|Hv1]; [|destruct (decide (version = 2)); [|done]].
  - eapply returns_bind; [by apply rd_u8_returns|]. intros [sec r1] (Hin1 & _).
    eapply returns_bind; [by apply rd_u8_returns|]. intros [sig r2] (Hin2 & _).
    eapply returns_bind; [by apply rd_u32_returns|]. intros [id r3] (Hin3 & _).
    destruct (rd_short r3) eqn:Hs; [done|]. destruct (decide (id = 0)) as [->|Hne].
    { by destruct (decide (sec ≠ SEC_NONE ∨ sig ≠ SIG_NONE)). }
    destruct (find_key keys id) as [k| | |] eqn:Hk; try done.
    2,3: by unfold find_key in Hk; destruct (keys ≫= _).
    cbn [mbind outcome_bind]. destruct (decide (sec ≠ k_sec k ∨ sig ≠ k_sig k)); [done|].
    do 4 (split; [done|]). by left.
  - eapply returns_bind; [by apply rd_u32_returns|]. intros [id r1] (Hin1 & _).
    eapply returns_bind; [by apply rd_u8_returns|]. intros [n r2] (Hin2 & _ & Hn).
    eapply returns_bind; [apply (rd_bytes_returns _ _ n Hin2); apply Hn|].
    intros [iv r3] (Hin3 & _ & _ & Hiv).
    destruct (rd_short r3) eqn:Hs; [done|]. destruct (decide (id ≠ 0)) as [Hne|Hz].
    2: { split; [done|]. split; [done|]. by destruct (decide (id = 0)). }
    destruct (find_key keys id) as [k| | |] eqn:Hk; try done.
    2,3: by unfold find_key in Hk; destruct (keys ≫= _).
    cbn [mbind outcome_bind]. destruct (decide (k_sec k ≠ SEC_NONE ∧ n ≠ GCM_IV_LEN)) as [|Hok]; [done|].
    do 4 (split; [done|]). intros Hsec. right. destruct (Hiv eq_refl) as [-> _].
    destruct (decide (n = GCM_IV_LEN)); [done|]. by destruct Hok.
Qed.

Lemma gcm_open_settled k iv sealed aad :
  zlen iv = GCM_IV_LEN → returns octets (gcm_open k iv sealed aad).
Proof using L.
  intros Hiv. unfold gcm_open, gcm_cipher. pose proof (nonce_total iv Hiv) as Hn.
  destruct (nonce_from_slice iv) as [nonce| | |]; try done. cbn [mbind outcome_bind].
  match goal with |- context [aes_new ?n ?m] => pose proof (aes_new_settled n m) end.
  destruct (aes_new _ _) as [c| | |]; try done. cbn [map_err mbind outcome_bind].
  destruct (aes_decrypt c nonce sealed aad) eqn:E; [|done]. by eapply decrypt_octets.
Qed.

Lemma skip_padding_returns trailer :
  octets trailer → returns (λ t, octets t ∧ ∃ pad, trailer = pad ++ t) (skip_padding trailer).
Proof.
  intros Ho. unfold skip_padding.
  assert (octets trailer ∧ ∃ pad, trailer = pad ++ trailer) as Hsame by (split; [done | by exists []]).
  destruct (decide (2 ≤ zlen trailer)) as [Hl|]; [|done].
  destruct trailer as [|t0 [|t1 rest]]; [zlen..|].
  idx_known.
  destruct (decide (t0 = TAG_PADDING)); [|done].
  apply octets_cons in Ho as Ho'. destruct Ho' as [_ [H1 _]%octets_cons].
  destruct (decide _) as [|Hn]; [done|]. unfold octet in H1.
  rewrite slice_from_Ok by lia. split; [by apply octets_drop|].
  exists (take (Z.to_nat (2 + t1)) (t0 :: t1 :: rest)). by rewrite take_drop.
Qed.

Lemma verify_returns b key iv user_start user_end :
  octets b → 0 ≤ user_start ≤ user_end → user_end ≤ zlen b →
  (∀ k, key = Some k → k_sec k ≠ SEC_NONE → zlen iv = GCM_IV_LEN) →
  returns (λ '(user, _, _), octets user) (verify b key iv user_start user_end).
Proof using L.
  intros Hb Hs He Hiv. unfold verify. rewrite (slice_Ok b user_start user_end) by lia. cbn [mbind outcome_bind].
  assert (octets (take (Z.to_nat (user_end - user_start)) (drop (Z.to_nat user_start) b))) as Hu
    by (by apply octets_take, octets_drop).
  destruct key as [k|].
  2: { destruct (decide (user_end ≠ zlen b)); [|exact Hu]. by rewrite usub_Ok by lia. }
  rewrite slice_from_Ok by lia. cbn [mbind outcome_bind].
  eapply returns_bind; [by apply skip_padding_returns, octets_drop|].
  intros t [Ht [pad Hpad]]. pose proof (zlen_drop b user_end ltac:(lia)) as Hl.
  rewrite Hpad in Hl. rewrite usub_Ok by zlen. cbn [mbind outcome_bind].
  destruct (decide (zlen t < 2)) as [|Ht2]; [done|]. destruct t as [|t0 [|n t]]; [zlen..|].
  idx_known.
  destruct (decide (t0 ≠ TAG_SIGNATURE)); [done|].
  apply octets_cons in Ht as [_ [Hn _]%octets_cons]. unfold octet in Hn.
  destruct (decide (zlen (t0 :: n :: t) < 2 + n)); [done|].
  rewrite (slice_Ok (t0 :: n :: t)) by lia. cbn [mbind outcome_bind].
  destruct (decide (k_sec k ≠ SEC_NONE)) as [Hsec|Hsec].
  - destruct (decide (n ≠ GCM_TAG_LEN)); [done|]. rewrite slice_Ok by lia. cbn [mbind outcome_bind].
    eapply returns_bind; [by apply returns_map_err, gcm_open_settled, (Hiv k)|]. done.
  - destruct (decide (n ≠ mac_len (k_sig k))); [done|].
    rewrite slice_Ok by zlen. cbn [mbind outcome_bind]. by destruct (verify_mac _ _ _).
Qed.

Lemma read_elements_returns fuel user off acc :
  octets user → 0 ≤ off ≤ zlen user → zlen user - off < Z.of_nat fuel →
  settled (read_elements fuel user off acc).
Proof.
  intros Hu. revert off acc. induction fuel as [|fuel IH]; intros off acc Hoff Hf.
  { simpl. pose proof (zlen_nonneg user). lia. }
  cbn [read_elements]. destruct (decide (off < zlen user)); [|done].
  rewrite (usub_Ok (zlen user) off) by lia. cbn [mbind outcome_bind].
  destruct (decide (zlen user - off < ELEMENT_HEADER)) as [|Hlen]; [done|].
  unfold ELEMENT_HEADER in *. rewrite slice_Ok by lia. cbn [mbind outcome_bind].
  set (h := take _ _).
  assert (zlen h = 6) as Hh6 by (unfold h; rewrite zlen_take; rewrite ?zlen_drop; lia).
  assert (octets h) as Hho by (by apply octets_take, octets_drop).
  clearbody h. unfold zlen in Hh6.
  destruct h as [|h0 [|h1 [|h2 [|h3 [|h4 [|h5 [|]]]]]]]; try (simpl in Hh6; lia).
  idx_known.
  do 4 apply octets_cons in Hho as [_ Hho]. pose proof (from_be_range _ Hho) as Hn.
  rewrite usub_Ok by lia. cbn [mbind outcome_bind].
  case_decide; [case_decide; [done|]|]; cbn [mbind outcome_bind]; rewrite slice_Ok by lia;
    apply IH; lia.
Qed.

Lemma unmarshal_settled b keys :
  octets b →
  (∀ ks id k, keys = Some ks → KeyStore_lookup ks id = Some k → k_sec k ≠ SEC_NONE →
     from_be (field b 14 2) ≠ 1) →
  settled (unmarshal b keys).
Proof using L.
  intros Hb Hv1. apply (returns_settled (λ _, True)). unfold unmarshal.
  eapply returns_bind; [by apply read_header_returns|].
  intros [[[[[si num] ver] tock] ttnk] r] (Hin & _ & _ & Hver).
  eapply returns_bind; [by apply read_security_returns|].
  intros [[[id key] iv] r1] (Hin1 & _ & Hkey).
  eapply returns_bind; [by apply rd_u32_returns|]. intros [ul r2] (Hin2 & _ & Hul & _).
  unfold rd_in in Hin2. rewrite usub_Ok by lia. cbn [mbind outcome_bind].
  destruct (decide _) as [|Hnot]; [done|].
  eapply returns_bind.
  - apply verify_returns; [done | lia | |].
    + apply Z.nlt_ge. intros ?. apply Hnot. right. lia.
    + intros k -> Hsec. destruct Hkey as (_ & Hk & Hiv). destruct Hiv as [->|]; [done| |done].
      unfold find_key in Hk. destruct keys as [ks|]; [|done]. simpl in Hk.
      destruct (KeyStore_lookup ks id) as [k'|] eqn:E; [|done]. apply Ok_inj in Hk as ->.
      by destruct (Hv1 ks id k eq_refl E Hsec).
  - intros [[user sg] en] Hu. apply (returns_weaken (λ _, True)); [|done].
    apply (returns_bind (λ _, True)); [|done].
    apply returns_intro; [apply read_elements_returns; [done | zlen | unfold zlen; lia]|]. by intros.
Qed.

End Safety.

(** ** Reading what was written *)

(** A reader of [b] with [rest] still to read. *)
Definition cursor (b : list Z) (r : Reader) (rest : list Z) : Prop :=
  rd_short r = false ∧ ∃ pre, b = pre ++ rest ∧ rd_off r = zlen pre.

Lemma cursor_start b : cursor b (mkReader 0 false) b.
Proof. split; [done|]. by exists []. Qed.

Lemma cursor_off b r rest : cursor b r rest → rd_off r = zlen b - zlen rest.
Proof. intros (_ & pre & -> & ->). zlen. Qed.

Lemma rd_bytes_at b r v suf n :
  cursor b r (v ++ suf) → n = zlen v → ∃ r', rd_bytes b r n = Ok (v, r') ∧ cursor b r' suf.
Proof.
  intros (Hs & pre & -> & Ho) ->. unfold rd_bytes. rewrite Hs, Ho.
  rewrite usub_Ok by zlen. cbn [mbind outcome_bind]. rewrite decide_False by zlen.
  rewrite (slice_app_mid pre v suf) by zlen. cbn [mbind outcome_bind].
  eexists. split; [done|]. split; [done|]. exists (pre ++ v). by rewrite zlen_app, <- app_assoc.
Qed.

Lemma rd_u8_at b r x suf :
  cursor b r ([x] ++ suf) → ∃ r', rd_u8 b r = Ok (x, r') ∧ cursor b r' suf.
Proof.
  intros H. unfold rd_u8. destruct (rd_bytes_at _ _ _ _ 1 H eq_refl) as (r' & -> & Hr'). by exists r'.
Qed.

Lemma rd_u16_at b r z suf :
  cursor b r (to_be 2 z ++ suf) → ∃ r', rd_u16 b r = Ok (u16 z, r') ∧ cursor b r' suf.
Proof.
  intros H. unfold rd_u16. destruct (rd_bytes_at _ _ _ _ 2 H eq_refl) as (r' & -> & Hr').
  exists r'. split; [|done]. cbn [mbind outcome_bind]. f_equal. f_equal. exact (from_to_be 2 z).
Qed.

Lemma rd_u32_at b r z suf :
  cursor b r (to_be 4 z ++ suf) → ∃ r', rd_u32 b r = Ok (u32 z, r') ∧ cursor b r' suf.
Proof.
  intros H. unfold rd_u32. destruct (rd_bytes_at _ _ _ _ 4 H eq_refl) as (r' & -> & Hr').
  exists r'. split; [|done]. cbn [mbind outcome_bind]. f_equal. f_equal. exact (from_to_be 4 z).
Qed.

(** Reads the next field of an input written as a concatenation: the cursor [H]
    moves past it. *)
Ltac rd_next lem H :=
  let r := fresh "r" in
  let E := fresh in
  apply lem in H as (r & E & H); rewrite E; clear E; cbn [mbind outcome_bind].

Lemma u32_id z : in_u 32 z → u32 z = z.
Proof. apply wrap_id. Qed.

Lemma u16_id z : in_u 16 z → u16 z = z.
Proof. apply wrap_id. Qed.

Lemma swrap_u16 z : in_i 16 z → swrap 16 (u16 z) = z.
Proof.
  intros H. rewrite <- (swrap_id 16 z) at 2 by (lia || done).
  unfold swrap, u16, wrap. by rewrite Zplus_mod_idemp_l.
Qed.

Definition header (si hl len number version tock ttnk : Z) : list Z :=
  [CLTP_LI] ++ [CLTP_UD] ++ [si] ++ [hl] ++ [TAG_COMMON] ++ [COMMON_LEN] ++
  to_be 4 len ++ to_be 4 number ++ to_be 2 version ++ to_be 4 tock ++ to_be 2 ttnk.

Lemma read_header_at si hl len number version tock ttnk suf :
  in_u 32 number → in_u 16 version → in_u 32 tock → in_i 16 ttnk →
  let b := header si hl len number version tock ttnk ++ suf in
  ∃ r, read_header b = Ok (si, number, version, tock, ttnk, r) ∧ cursor b r suf.
Proof.
  intros Hn Hv Ht Hk b. pose proof (cursor_start b) as H.
  change (cursor b (mkReader 0 false) (header si hl len number version tock ttnk ++ suf)) in H.
  unfold header in H. rewrite <- !app_assoc in H. clearbody b.
  unfold read_header. cbv zeta.
  rd_next rd_u8_at H. rewrite decide_False by auto.
  rd_next rd_u8_at H. rewrite decide_False by auto.
  rd_next rd_u8_at H. rd_next rd_u8_at H. rd_next rd_u8_at H. rewrite decide_False by auto.
  rd_next rd_u8_at H. rd_next rd_u32_at H. rd_next rd_u32_at H. rd_next rd_u16_at H.
  rd_next rd_u32_at H. rd_next rd_u16_at H.
  rewrite (proj1 H), swrap_u16, !u32_id, u16_id by done. eexists. done.
Qed.

Lemma to_be_2 z : ∃ a c, to_be 2 z = [a; c] ∧ from_be [a; c] = u16 z.
Proof.
  pose proof (from_to_be 2 z) as H. pose proof (zlen_to_be 2 z) as Hl. unfold zlen in Hl.
  destruct (to_be 2 z) as [|a [|c [|]]]; simpl in Hl; try lia. by exists a, c.
Qed.

(** The values the fields of a payload element can carry. *)
Definition payload_ok (p : Payload) : Prop :=
  octet (p_kind p) ∧ in_u 16 (p_app_id p) ∧ octets (p_apdu p) ∧ zlen (p_apdu p) ≤ 65535.

Lemma read_elements_at ps fuel pre acc :
  Forall payload_ok ps → (length ps < fuel)%nat →
  read_elements fuel (pre ++ concat (map element ps)) (zlen pre) acc = Ok (acc ++ ps).
Proof.
  revert fuel pre acc. induction ps as [|p ps IH]; intros fuel pre acc Hok Hf.
  { destruct fuel; [simpl in Hf; lia|]. cbn [map concat read_elements].
    rewrite decide_False by zlen. by rewrite app_nil_r. }
  apply Forall_cons in Hok as [(_ & Happ & _ & Hlen) Hok]. destruct fuel as [|fuel]; [lia|].
  destruct p as [kind sim app apdu]. cbn [p_app_id p_apdu] in *.
  cbn [map concat]. set (rest := concat (map element ps)).
  unfold element. cbn [p_kind p_simulation p_app_id p_apdu].
  destruct (to_be_2 app) as (a & c & -> & Hac).
  destruct (to_be_2 (u16 (zlen apdu))) as (d & e & -> & Hde).
  assert (in_u 16 (zlen apdu)) as Hl by (split; [apply zlen_nonneg | lia]).
  rewrite (u16_id (zlen apdu) Hl), (u16_id (zlen apdu) Hl) in Hde. rewrite u16_id in Hac by done.
  set (h := [kind; bit sim; a; c; d; e]).
  replace (pre ++ (([kind; bit sim] ++ [a; c] ++ [d; e] ++ apdu) ++ rest))
    with (pre ++ h ++ (apdu ++ rest)) by (by rewrite <- !app_assoc).
  set (user := pre ++ h ++ (apdu ++ rest)).
  assert (zlen h = 6) as Hh by done.
  assert (zlen user = zlen pre + 6 + zlen apdu + zlen rest) as Hu by (unfold user; zlen).
  cbn [read_elements]. unfold ELEMENT_HEADER.
  pose proof (zlen_nonneg rest). pose proof (zlen_nonneg apdu).
  rewrite (decide_True (P := zlen pre < zlen user)) by lia.
  rewrite (usub_Ok (zlen user) (zlen pre)) by lia. cbn [mbind outcome_bind].
  rewrite (decide_False (P := zlen user - zlen pre < 6)) by lia.
  rewrite (slice_app_mid pre h (apdu ++ rest)) by lia. cbn [mbind outcome_bind]. unfold h. idx_known.
  rewrite usub_Ok by lia. cbn [mbind outcome_bind]. rewrite Hde, Hac.
  rewrite (decide_False (P := zlen user - (zlen pre + 6) < zlen apdu)) by lia. cbn [mbind outcome_bind].
  replace user with ((pre ++ h) ++ apdu ++ rest) at 1 by (unfold user; by rewrite <- !app_assoc).
  rewrite slice_app_mid by zlen. cbn [mbind outcome_bind].
  replace user with (((pre ++ h) ++ apdu) ++ rest) by (unfold user; by rewrite <- !app_assoc).
  replace (zlen pre + 6 + zlen apdu) with (zlen ((pre ++ h) ++ apdu)) by zlen.
  unfold rest. rewrite IH by (done || (simpl in Hf; lia)).
  rewrite <- app_assoc. do 4 f_equal. by destruct sim.
Qed.

Lemma zlen_element p : zlen (element p) = 6 + zlen (p_apdu p).
Proof. unfold element. rewrite !zlen_app, !zlen_to_be. zlen. Qed.

Lemma user_length_ok ps acc :
  Forall payload_ok ps → user_length acc ps = Ok (acc + zlen (concat (map element ps))).
Proof.
  intros Hok. revert acc. induction Hok as [|p ps (_ & _ & _ & Hlen) _ IH]; intros acc; cbn [user_length map concat].
  { f_equal. zlen. }
  rewrite decide_False by lia. rewrite IH. f_equal. rewrite zlen_app, zlen_element.
  unfold ELEMENT_HEADER. lia.
Qed.

Lemma octets_elements ps : Forall payload_ok ps → octets (concat (map element ps)).
Proof.
  induction 1 as [|p ps (Hk & _ & Ha & _) _ IH]; [by apply octets_nil|]. cbn [map concat].
  unfold element. rewrite !octets_app. repeat split; try done; try apply octets_to_be.
  apply octets_cons. split; [done|]. apply octets_cons. split; [by destruct (p_simulation p) | apply octets_nil].
Qed.

(** The part of the security information after the key times. *)
Definition security_tail (version : Z) (key : option Key) (iv : list Z) : list Z :=
  let key_id := match key with Some k => k_id k | None => 0 end in
  if decide (version = 1) then
    [match key with Some k => k_sec k | None => 0 end] ++ [match key with Some k => k_sig k | None => 0 end]
    ++ to_be 4 key_id
  else to_be 4 key_id ++ [u8 (zlen iv)] ++ iv.

Lemma security_info_eq version key iv :
  security_info version key iv =
  to_be 4 (match key with Some k => k_time_of_current_key k | None => 0 end) ++
  to_be 2 (match key with Some k => k_time_to_next_key k | None => 0 end) ++ security_tail version key iv.
Proof. unfold security_info, security_tail. by destruct key; case_decide. Qed.

(** The key is one the receiver holds and its vector fits its algorithm. *)
Definition key_known (keys : option KeyStore) (version : Z) (key : option Key) (iv : list Z) : Prop :=
  match key with
  | Some k => k_id k ≠ 0 ∧ in_u 32 (k_id k) ∧ find_key keys (k_id k) = Ok k ∧
              (if decide (k_sec k = SEC_NONE) then iv = [] else version = 2 ∧ zlen iv = GCM_IV_LEN)
  | None => iv = []
  end.

Lemma read_security_at b r keys version key iv suf :
  (version = 1 ∨ version = 2) → key_known keys version key iv →
  cursor b r (security_tail version key iv ++ suf) →
  ∃ r', read_security b keys version r =
        Ok (match key with Some k => k_id k | None => 0 end, key, iv, r') ∧ cursor b r' suf.
Proof.
  intros Hv Hk H. unfold read_security, security_tail in *.
  assert (in_u 32 (match key with Some k => k_id k | None => 0 end)) as Hid.
  { destruct key; [apply Hk | unfold in_u; lia]. }
  assert (0 ≤ zlen iv < 256) as Hiv.
  { destruct key as [k|]; [|by rewrite Hk]. destruct Hk as (_ & _ & _ & Hk).
    revert Hk. unfold GCM_IV_LEN. destruct (decide (k_sec k = SEC_NONE)); [by intros -> | lia]. }
  destruct (decide (version = 1)) as [->|Hne].
  - rewrite <- !app_assoc in H. rd_next rd_u8_at H. rd_next rd_u8_at H. rd_next rd_u32_at H.
    rewrite (proj1 H), u32_id by done. exists r2. split; [|done].
    destruct key as [k|]; cbn.
    + destruct Hk as (Hid0 & _ & Hf & Hsec). rewrite decide_False by done. rewrite Hf.
      cbn [mbind outcome_bind]. rewrite decide_False by tauto.
      revert Hsec. destruct (decide (k_sec k = SEC_NONE)); [by intros -> | lia].
    + by rewrite Hk.
  - assert (version = 2) as -> by tauto. rewrite (decide_True (P := 2 = 2)) by done.
    rewrite <- !app_assoc in H. rd_next rd_u32_at H. rd_next rd_u8_at H.
    rewrite u8_id by (unfold octet; lia).
    destruct (rd_bytes_at _ _ _ _ (zlen iv) H eq_refl) as (r3 & -> & H3). cbn [mbind outcome_bind].
    rewrite (proj1 H3), u32_id by done. exists r3. split; [|done].
    destruct key as [k|].
    + destruct Hk as (Hid0 & _ & Hf & Hsec). rewrite decide_True by done. rewrite Hf.
      cbn [mbind outcome_bind]. rewrite decide_False; [done|].
      intros [Hs Hl]. rewrite decide_False in Hsec by done. tauto.
    + by rewrite decide_False by auto.
Qed.

Section Roundtrip.
Context {C : Crypto} {L : CryptoLaws C}.

(** The constant-time comparison is equality. *)
Lemma fold_xor_zero l k acc :
  length l = length k →
  foldl (λ acc p, Z.lor acc (Z.lxor p.1 p.2)) acc (zip l k) = 0 ↔ acc = 0 ∧ l = k.
Proof.
  revert k acc. induction l as [|a l IH]; intros [|c k] acc Hl; try done; [by simpl; naive_solver|].
  cbn [zip zip_with foldl fst snd]. rewrite IH by (simpl in Hl; lia).
  rewrite Z.lor_eq_0_iff, Z.lxor_eq_0_iff. naive_solver.
Qed.

Lemma verify_mac_spec k data tag : verify_mac k data tag = true ↔ tag = compute_mac k data.
Proof.
  unfold verify_mac. rewrite andb_true_iff, !bool_decide_eq_true. split.
  - intros [Hl Hx]. unfold zlen in Hl. apply fold_xor_zero in Hx; [naive_solver | lia].
  - intros ->. split; [done|]. by apply fold_xor_zero.
Qed.

Lemma zlen_compute_mac k data : zlen (compute_mac k data) = mac_len (k_sig k).
Proof using L.
  unfold compute_mac, full_mac. pose proof (hmac_len (is_sha3 (k_sig k)) (k_material k) data).
  apply zlen_take. unfold mac_len in *. repeat case_decide; lia.
Qed.

Lemma skip_padding_signature n tag :
  skip_padding (TAG_SIGNATURE :: n :: tag) = Ok (TAG_SIGNATURE :: n :: tag).
Proof. unfold skip_padding. rewrite decide_True by zlen. by idx_known. Qed.

(** [verify] on an input whose trailer is a signature element. *)
Lemma verify_trailer hd user n tag k iv :
  0 ≤ n → zlen tag = n →
  verify (hd ++ user ++ [TAG_SIGNATURE; n] ++ tag) (Some k) iv (zlen hd) (zlen hd + zlen user) =
  if decide (k_sec k ≠ SEC_NONE) then
    if decide (n ≠ GCM_TAG_LEN) then Err (Authentication (pretty n +:+ "-octet GCM tag"))
    else
      plain ← map_err (λ _, Authentication "GCM tag does not verify") (gcm_open k iv (user ++ tag) hd);
      Ok (plain, false, true)
  else if decide (n ≠ mac_len (k_sig k)) then
    Err (Authentication (pretty n +:+ "-octet MAC, " +:+ sig_display (k_sig k) +:+ " is "
                         +:+ pretty (mac_len (k_sig k))))
  else if verify_mac k (hd ++ user) tag then Ok (user, true, false)
  else Err (Authentication "MAC does not verify").
Proof.
  intros Hn Htag. unfold verify. cbn [app]. set (t := TAG_SIGNATURE :: n :: tag).
  assert (zlen t = 2 + n) as Ht by (unfold t; zlen).
  rewrite (slice_app_mid hd user t (zlen hd) (zlen hd + zlen user)) by done. cbn [mbind outcome_bind].
  rewrite slice_from_Ok by zlen.
  rewrite app_assoc, drop_app_length' by (unfold zlen in *; rewrite length_app; lia).
  cbn [mbind outcome_bind]. rewrite (skip_padding_signature n tag : skip_padding t = Ok t).
  cbn [mbind outcome_bind]. rewrite usub_Ok by zlen. cbn [mbind outcome_bind].
  rewrite (decide_False (P := zlen t < 2)) by lia.
  change (idx (E:=RsError) t 0) with (Ok (E:=RsError) TAG_SIGNATURE).
  change (idx (E:=RsError) t 1) with (Ok (E:=RsError) n). cbn [mbind outcome_bind].
  rewrite (decide_False (P := TAG_SIGNATURE ≠ TAG_SIGNATURE)) by auto.
  rewrite (decide_False (P := zlen t < 2 + n)) by lia.
  replace (slice (E:=RsError) t 2 (2 + n)) with (Ok (E:=RsError) tag).
  2: { unfold t. rewrite <- (app_nil_r tag) at 2.
       by rewrite (slice_app_mid [TAG_SIGNATURE; n] tag []) by zlen. }
  cbn [mbind outcome_bind].
  rewrite <- (app_assoc hd user t).
  replace (slice (E:=RsError) (hd ++ user ++ t) 0 (zlen hd)) with (Ok (E:=RsError) hd)
    by (symmetry; apply (slice_app_mid [] hd); zlen).
  replace (slice (E:=RsError) (hd ++ user ++ t) 0 (zlen (hd ++ user ++ t) - zlen t))
    with (Ok (E:=RsError) (hd ++ user)).
  2: { rewrite app_assoc. symmetry. apply (slice_app_mid [] (hd ++ user)); zlen. }
  done.
Qed.

(** The headers of an SPDU, up to the payload elements. *)
Definition prefix (si hl len number version : Z) (key : option Key) (iv : list Z) (ul : Z) : list Z :=
  header si hl len number version (match key with Some k => k_time_of_current_key k | None => 0 end)
    (match key with Some k => k_time_to_next_key k | None => 0 end)
  ++ security_tail version key iv ++ to_be 4 ul.

Lemma prefix_eq si hl len number version key iv ul :
  [CLTP_LI; CLTP_UD; si; hl; TAG_COMMON; COMMON_LEN] ++ to_be 4 len ++ to_be 4 number ++ to_be 2 version
    ++ security_info version key iv ++ to_be 4 ul
  = prefix si hl len number version key iv ul.
Proof. rewrite security_info_eq. unfold prefix, header. by rewrite <- !app_assoc. Qed.

(** The times a key can carry. *)
Definition times_ok (key : option Key) : Prop :=
  match key with
  | Some k => in_u 32 (k_time_of_current_key k) ∧ in_i 16 (k_time_to_next_key k)
  | None => True
  end.

Lemma unmarshal_at si hl len number version key iv ul body keys ps sg en :
  in_u 32 number → (version = 1 ∨ version = 2) → times_ok key → key_known keys version key iv →
  in_u 32 ul → ul ≤ zlen body → Forall payload_ok ps →
  let hd := prefix si hl len number version key iv ul in
  verify (hd ++ body) key iv (zlen hd) (zlen hd + ul) = Ok (concat (map element ps), sg, en) →
  unmarshal (hd ++ body) keys =
  Ok (mkSpdu si number version (match key with Some k => k_id k | None => 0 end)
        (match key with Some k => k_time_of_current_key k | None => 0 end)
        (match key with Some k => k_time_to_next_key k | None => 0 end) ps sg en).
Proof.
  intros Hn Hv Ht Hk Hul Hbody Hps hd Hver.
  set (tock := match key with Some k => k_time_of_current_key k | None => 0 end) in *.
  set (ttnk := match key with Some k => k_time_to_next_key k | None => 0 end) in *.
  assert (in_u 32 tock ∧ in_i 16 ttnk) as [Htock Httnk].
  { unfold tock, ttnk. destruct key; [done | unfold in_u, in_i; lia]. }
  set (b := hd ++ body) in *.
  assert (b = header si hl len number version tock ttnk ++ security_tail version key iv ++ to_be 4 ul ++ body)
    as Hb by (unfold b, hd, prefix; by rewrite <- !app_assoc).
  unfold unmarshal.
  destruct (read_header_at si hl len number version tock ttnk
    (security_tail version key iv ++ to_be 4 ul ++ body)) as (r & Hr & Hc);
    [done | unfold in_u; lia | done | done |].
  rewrite <- Hb in Hr, Hc. rewrite Hr. cbn [mbind outcome_bind].
  destruct (read_security_at b r keys version key iv (to_be 4 ul ++ body) Hv Hk Hc) as (r1 & -> & Hc1).
  cbn [mbind outcome_bind]. rd_next rd_u32_at Hc1. rewrite u32_id by done.
  rewrite (cursor_off _ _ _ Hc1).
  assert (zlen b = zlen hd + zlen body) as Hlb by (unfold b; zlen).
  pose proof (zlen_nonneg hd). pose proof (zlen_nonneg body).
  rewrite usub_Ok by lia. cbn [mbind outcome_bind].
  rewrite decide_False by (rewrite (proj1 Hc1); intros [?|?]; [done | lia]).
  replace (zlen b - zlen body) with (zlen hd) by lia. rewrite Hver. cbn [mbind outcome_bind].
  rewrite (read_elements_at ps _ [] []); [done | done |].
  clear -ps. induction ps as [|p ps IH]; cbn [map concat length]; [lia|]. rewrite length_app.
  assert (0 < length (element p))%nat by (unfold element; cbn [app length]; lia). lia.
Qed.

(** What the receiver sees of an SPDU sent under [key]. *)
Definition received (s : Spdu) (key : option Key) : Spdu :=
  mkSpdu (sp_si s) (sp_number s) (if decide (sp_version s = 0) then 2 else sp_version s)
    (match key with Some k => k_id k | None => 0 end)
    (match key with Some k => k_time_of_current_key k | None => 0 end)
    (match key with Some k => k_time_to_next_key k | None => 0 end)
    (sp_payloads s)
    (match key with Some k => bool_decide (k_sec k = SEC_NONE) | None => false end) (encrypts key).

(** What can be sent: a known version, fields in range, payloads that fit, and a
    usable key that version 1 is not asked to encrypt with. *)
Record sendable (s : Spdu) (key : option Key) : Prop := {
  snd_number : in_u 32 (sp_number s);
  snd_version : sp_version s ∈ [0; 1; 2];
  snd_payloads : Forall payload_ok (sp_payloads s);
  snd_size : zlen (concat (map element (sp_payloads s))) < 2 ^ 31;
  snd_key : ∀ k, key = Some k → usable k ∧ in_u 32 (k_id k) ∧ (sp_version s = 1 → k_sec k = SEC_NONE);
  snd_times : times_ok key;
}.

Lemma zlen_prefix_small si hl len number version key iv ul :
  zlen iv ≤ 12 → zlen (prefix si hl len number version key iv ul) < 2 ^ 31.
Proof.
  intros Hiv. unfold prefix, header, security_tail. rewrite !zlen_app, !zlen_to_be.
  case_decide; rewrite !zlen_app, !zlen_to_be; zlen.
Qed.

(** Sealing succeeds on what fits, and is undone by opening. *)
Lemma gcm_seal_open k iv plain aad :
  usable k → k_sec k ≠ SEC_NONE → zlen iv = GCM_IV_LEN → octets plain → zlen plain < 2 ^ 32 →
  zlen aad < 2 ^ 32 →
  ∃ sealed, gcm_seal k iv plain aad = Ok sealed ∧ zlen sealed = zlen plain + GCM_TAG_LEN ∧
            gcm_open k iv sealed aad = Ok plain.
Proof using L.
  intros Hk Hsec Hiv Hpo Hp Ha. unfold gcm_seal, gcm_open, gcm_cipher.
  pose proof (nonce_total iv Hiv) as Hn. destruct (nonce_from_slice iv) as [nonce| | |]; try done.
  cbn [mbind outcome_bind].
  assert (is_ok (aes_new (if decide (k_sec k = AES_128_GCM) then 128 else 256) (k_material k))) as Hc.
  { destruct Hk as (_ & [(_ & [[Hs Hl]|[Hs Hl]])|[? _]]); [| |done]; rewrite Hs; apply aes_new_total;
      rewrite ?Hl; cbn; auto. }
  destruct (aes_new _ _) as [c| | |]; try done. cbn [map_err mbind outcome_bind].
  destruct (encrypt_total c nonce plain aad Hp Ha) as [ct Hct]. rewrite Hct.
  exists ct. split; [done|]. split; [by eapply encrypt_len|]. by rewrite (decrypt_encrypt _ _ _ _ _ Hpo Hct).
Qed.

(** The payload elements [user] after the headers [hd], protected as the key
    says. *)
Definition protect (hd user : list Z) (key : option Key) (iv : list Z) : outcome RsError (list Z) :=
  match key with
  | None => Ok (hd ++ user)
  | Some k =>
      if encrypts key then
        sealed ← gcm_seal k iv user hd;
        n ← usub (zlen sealed) GCM_TAG_LEN;
        Ok (hd ++ take (Z.to_nat n) sealed ++ [TAG_SIGNATURE; u8 GCM_TAG_LEN] ++ drop (Z.to_nat n) sealed)
      else
        let mac := compute_mac k (hd ++ user) in
        Ok (hd ++ user ++ [TAG_SIGNATURE; u8 (zlen mac)] ++ mac)
  end.

(** [marshal_with_iv] on what can be sent: the prefix, then the payload as the key
    protects it. *)
Lemma marshal_with_iv_ok s key iv :
  sendable s key → zlen iv = GCM_IV_LEN →
  let version := if decide (sp_version s = 0) then 2 else sp_version s in
  let iv' := if encrypts key then iv else [] in
  let user := concat (map element (sp_payloads s)) in
  ∃ hl len,
    marshal_with_iv s key iv =
    protect (prefix (sp_si s) hl len (sp_number s) version key iv' (zlen user)) user key iv'.
Proof.
  intros [Hn Hv Hp Hsz Hk Ht] Hiv version iv' user.
  assert (version = 1 ∨ version = 2) as Hver.
  { unfold version. rewrite !elem_of_cons in Hv. case_decide; [by right|].
    destruct Hv as [?|[?|[?|Hv]]]; [lia | by left | by right | inversion Hv]. }
  unfold marshal_with_iv. fold version. cbv zeta.
  rewrite (decide_False (P := version ≠ 1 ∧ version ≠ 2)) by lia.
  replace (match key with Some k => _ | None => _ end) with (Ok (E:=RsError) ()).
  2: { destruct key as [k|]; [|done]. destruct (Hk k eq_refl) as (Hu & _ & Hs).
       apply validate_usable in Hu as ->. cbn [mbind outcome_bind].
       rewrite decide_False; [done|]. intros [H1 H2]. apply H2, Hs. unfold version in H1.
       by case_decide. }
  cbn [mbind outcome_bind]. rewrite (user_length_ok _ 0 Hp). cbn [mbind outcome_bind].
  fold user. rewrite Z.add_0_l.
  change (if encrypts key then iv else []) with iv'.
  set (sil := if decide (version = 2) then _ else _).
  assert (11 ≤ sil) by (unfold sil; case_decide; zlen).
  set (trailer := match key with Some k => _ | None => 0 end).
  assert (0 ≤ trailer).
  { unfold trailer, GCM_TAG_LEN, mac_len. destruct key; [|lia]. repeat case_match; lia. }
  match goal with |- context [usub ?a (zlen ?l)] => change (zlen l) with 6 end.
  pose proof (zlen_nonneg user).
  rewrite usub_Ok by (unfold COMMON_LEN; lia). cbn [mbind outcome_bind].
  rewrite usub_Ok by (unfold COMMON_LEN; lia). cbn [mbind outcome_bind].
  rewrite (u32_id (zlen user)) by (unfold user in *; split; lia).
  rewrite prefix_eq. do 2 eexists. reflexivity.
Qed.

(** The receiver holds the sender's key. *)
Definition holds (keys : option KeyStore) (key : option Key) : Prop :=
  match key with Some k => find_key keys (k_id k) = Ok k | None => True end.

Lemma sendable_known s key iv keys :
  sendable s key → holds keys key → zlen iv = GCM_IV_LEN →
  key_known keys (if decide (sp_version s = 0) then 2 else sp_version s) key
    (if encrypts key then iv else []).
Proof.
  intros [_ Hv _ _ Hk _] Hh Hiv. destruct key as [k|]; [|done].
  destruct (Hk k eq_refl) as (Hu & Hid & Hs). split; [apply Hu|]. split; [done|]. split; [done|].
  unfold encrypts. destruct (decide (k_sec k = SEC_NONE)) as [E|E].
  - by rewrite bool_decide_false by auto.
  - rewrite bool_decide_true by done. split; [|done]. rewrite !elem_of_cons in Hv.
    case_decide; [done|]. destruct Hv as [?|[?|[?|Hv]]]; [done | tauto | done | inversion Hv].
Qed.

Lemma version_cases v : v ∈ [0; 1; 2] →
  (if decide (v = 0) then 2 else v) = 1 ∨ (if decide (v = 0) then 2 else v) = 2.
Proof. rewrite !elem_of_cons, elem_of_nil. case_decide; lia. Qed.

(** What [protect] adds is what [verify] checks. *)
Lemma verify_protect hd user key iv :
  (∀ k, key = Some k → usable k) → (encrypts key = true → zlen iv = GCM_IV_LEN) →
  octets user → zlen hd < 2 ^ 31 → zlen user < 2 ^ 31 →
  ∃ body, protect hd user key iv = Ok (hd ++ body) ∧ zlen user ≤ zlen body ∧
    verify (hd ++ body) key iv (zlen hd) (zlen hd + zlen user) =
    Ok (user, match key with Some k => bool_decide (k_sec k = SEC_NONE) | None => false end, encrypts key).
Proof using L.
  intros Hu Hiv Huo Hhd Hus. pose proof (zlen_nonneg user). destruct key as [k|]; unfold protect.
  2: { exists user. split; [done|]. split; [lia|]. unfold verify.
       replace (slice (E:=RsError) (hd ++ user) (zlen hd) (zlen hd + zlen user)) with (Ok (E:=RsError) user).
       2: { rewrite <- (app_nil_r user) at 2. by rewrite slice_app_mid. }
       cbn [mbind outcome_bind]. rewrite decide_False; [done | zlen]. }
  specialize (Hu k eq_refl). unfold encrypts in *. destruct (decide (k_sec k = SEC_NONE)) as [E|E].
  - rewrite (bool_decide_false (k_sec k ≠ SEC_NONE)) by auto. rewrite bool_decide_true by done.
    cbv zeta. eexists. split; [reflexivity|]. split; [zlen|].
    assert (octet (mac_len (k_sig k))) as Ho by (unfold mac_len, octet; repeat case_decide; lia).
    rewrite (zlen_compute_mac k (hd ++ user)), u8_id by done.
    rewrite verify_trailer; [|apply Ho|apply zlen_compute_mac].
    rewrite decide_False by auto. rewrite decide_False by auto.
    by rewrite (proj2 (verify_mac_spec _ _ _)).
  - rewrite (bool_decide_true (k_sec k ≠ SEC_NONE)) in * by auto. rewrite bool_decide_false by done.
    destruct (gcm_seal_open k iv user hd Hu E (Hiv eq_refl) Huo) as (sealed & -> & Hsl & Ho); [lia..|].
    cbn [mbind outcome_bind]. unfold GCM_TAG_LEN in *. rewrite usub_Ok by lia. cbn [mbind outcome_bind].
    set (n := Z.to_nat _).
    assert (zlen (take n sealed) = zlen user) as Hct by (unfold n; rewrite zlen_take; lia).
    assert (zlen (drop n sealed) = 16) as Htag by (unfold n; rewrite zlen_drop; lia).
    eexists. split; [reflexivity|]. split; [rewrite zlen_app; pose proof (zlen_nonneg (drop n sealed)); zlen|].
    rewrite <- Hct. rewrite verify_trailer by done. rewrite decide_True by done. rewrite decide_False by auto.
    by rewrite take_drop, Ho.
Qed.

Lemma marshal_unmarshal s key iv keys :
  sendable s key → holds keys key → zlen iv = GCM_IV_LEN →
  ∃ b, marshal_with_iv s key iv = Ok b ∧ unmarshal b keys = Ok (received s key).
Proof using L.
  intros Hs Hh Hiv. pose proof (sendable_known s key iv keys Hs Hh Hiv) as Hk.
  destruct (marshal_with_iv_ok s key iv Hs Hiv) as (hl & len & ->).
  destruct Hs as [Hn Hv Hp Hsz Hkey Ht].
  set (iv' := if encrypts key then iv else []) in *.
  set (hd := prefix _ _ _ _ _ _ _ _).
  assert (zlen hd < 2 ^ 31) as Hhd.
  { apply zlen_prefix_small. unfold iv', GCM_IV_LEN in *. destruct (encrypts key); zlen. }
  destruct (verify_protect hd (concat (map element (sp_payloads s))) key iv') as (body & Hb & Hl & Hver);
    [by intros k Hk1; destruct (Hkey k Hk1) | by unfold iv'; intros -> | by apply octets_elements | done | done |].
  exists (hd ++ body). split; [exact Hb|].
  refine (unmarshal_at _ hl len _ _ key iv' _ body keys _ _ _ Hn (version_cases _ Hv) Ht Hk _ Hl Hp Hver).
  pose proof (zlen_nonneg (concat (map element (sp_payloads s)))). split; lia.
Qed.

End Roundtrip.

(** ** Authenticity *)

Section Authentic.
Context {C : Crypto} {L : CryptoLaws C}.

(** The input is headers, user data of the length the headers end with, and a
    trailer. *)
Definition parts (b hd user trailer : list Z) : Prop :=
  b = hd ++ user ++ trailer ∧ zlen user = from_be (field b (zlen hd - 4) 4).

(** What made [verify] accept: nothing after the user data of an unsecured SPDU; the
    key's MAC of everything before it; or a GCM tag of the user data and the
    headers. *)
Definition accepted_as (hd user trailer : list Z) (key : option Key) (iv plain : list Z) (sg en : bool) : Prop :=
  match key with
  | None => trailer = [] ∧ plain = user ∧ sg = false ∧ en = false
  | Some k =>
      ∃ pad tag rest, trailer = pad ++ [TAG_SIGNATURE; zlen tag] ++ tag ++ rest ∧
        if decide (k_sec k = SEC_NONE)
        then tag = compute_mac k (hd ++ user ++ pad) ∧ plain = user ∧ sg = true ∧ en = false
        else zlen tag = GCM_TAG_LEN ∧ gcm_open k iv (user ++ tag) hd = Ok plain ∧ sg = false ∧ en = true
  end.

Lemma skip_padding_inv trailer t :
  octets trailer → skip_padding trailer = Ok t → ∃ pad, trailer = pad ++ t.
Proof.
  intros Ho H. by destruct (returns_Ok _ _ _ (skip_padding_returns trailer Ho) H) as [_ ?].
Qed.

Lemma verify_inv hd user trailer key iv plain sg en :
  octets (hd ++ user ++ trailer) →
  verify (hd ++ user ++ trailer) key iv (zlen hd) (zlen hd + zlen user) = Ok (plain, sg, en) →
  accepted_as hd user trailer key iv plain sg en.
Proof.
  intros Ho. unfold verify. rewrite (slice_app_mid hd user trailer (zlen hd)) by done.
  cbn [mbind outcome_bind].
  destruct key as [k|].
  2: { case_decide as Hd; [by rewrite usub_Ok by zlen|]. intros [= <- <- <-]. simpl.
       split; [|done]. apply zlen_0_nil. zlen. }
  rewrite slice_from_Ok by zlen.
  rewrite (app_assoc hd user trailer), drop_app_length' by (unfold zlen in *; rewrite length_app; lia).
  cbn [mbind outcome_bind]. rewrite <- (app_assoc hd user trailer).
  rewrite !octets_app in Ho. destruct Ho as (_ & _ & Ho).
  intros (t & Ht & H)%bind_Ok_inv. apply skip_padding_inv in Ht as [pad ->]; [|done].
  rewrite usub_Ok in H by zlen. cbn [mbind outcome_bind] in H.
  destruct (decide (zlen t < 2)) as [|Hl]; [done|]. destruct t as [|t0 [|n t]]; [zlen..|].
  change (idx (E:=RsError) (t0 :: n :: t) 0) with (Ok (E:=RsError) t0) in H.
  change (idx (E:=RsError) (t0 :: n :: t) 1) with (Ok (E:=RsError) n) in H. cbn [mbind outcome_bind] in H.
  destruct (decide (t0 ≠ TAG_SIGNATURE)) as [|Ht0]; [done|].
  apply dec_stable in Ht0 as ->.
  destruct (decide (zlen (TAG_SIGNATURE :: n :: t) < 2 + n)) as [|Hn]; [done|].
  apply octets_app in Ho as [_ (_ & [Hno _]%octets_cons)%octets_cons]. unfold octet in Hno.
  assert (zlen (take (Z.to_nat n) t) = n) as Htag by (apply zlen_take; zlen).
  replace (slice (E:=RsError) (TAG_SIGNATURE :: n :: t) 2 (2 + n))
    with (Ok (E:=RsError) (take (Z.to_nat n) t)) in H.
  2: { rewrite slice_Ok by lia. by replace (2 + n - 2) with n by lia. }
  cbn [mbind outcome_bind] in H. exists pad, (take (Z.to_nat n) t), (drop (Z.to_nat n) t).
  split; [by rewrite Htag, take_drop|]. destruct (decide (k_sec k = SEC_NONE)) as [E|E].
  - rewrite decide_False in H by auto. destruct (decide (n ≠ mac_len (k_sig k))); [done|].
    replace (slice _ 0 _) with (Ok (E:=RsError) (hd ++ user ++ pad)) in H.
    2: { symmetry. rewrite !(app_assoc _ _ (TAG_SIGNATURE :: n :: t)).
         apply (slice_app_mid [] (hd ++ user ++ pad)); zlen. }
    cbn [mbind outcome_bind] in H. destruct (verify_mac k _ _) eqn:Hv; [|done].
    apply verify_mac_spec in Hv. by injection H as <- <- <-.
  - rewrite decide_True in H by done. destruct (decide (n ≠ GCM_TAG_LEN)) as [|Hg]; [done|].
    replace (slice _ 0 _) with (Ok (E:=RsError) hd) in H by (symmetry; apply (slice_app_mid [] hd); zlen).
    cbn [mbind outcome_bind] in H. apply bind_Ok_inv in H as (p & Hp & H).
    apply map_err_Ok_inv in Hp. injection H as <- <- <-. split; [|done].
    apply dec_stable in Hg. congruence.
Qed.

Definition elements (user : list Z) : outcome RsError (list Payload) :=
  read_elements (S (length user)) user 0 [].

Lemma unmarshal_inv b keys s :
  octets b → unmarshal b keys = Ok s →
  ∃ hd user trailer key iv plain,
    parts b hd user trailer ∧
    accepted_as hd user trailer key iv plain (sp_signed s) (sp_encrypted s) ∧
    elements plain = Ok (sp_payloads s) ∧
    match key with
    | Some k => sp_key_id s ≠ 0 ∧ find_key keys (sp_key_id s) = Ok k
    | None => sp_key_id s = 0
    end.
Proof.
  intros Ho. unfold unmarshal.
  intros ([[[[[si num] ver] tock] ttnk] r] & Hh & H)%bind_Ok_inv.
  apply (returns_Ok _ _ _ (read_header_returns b Ho)) in Hh as (Hin & _).
  apply bind_Ok_inv in H as ([[[id key] iv] r1] & Hs & H).
  apply (returns_Ok _ _ _ (read_security_returns b keys ver r Hin Ho)) in Hs as (Hin1 & _ & Hkey).
  apply bind_Ok_inv in H as ([ul r2] & Hu & H).
  apply (returns_Ok _ _ _ (rd_u32_returns b r1 Hin1 Ho)) in Hu as (Hin2 & Hc & Hul & Hv).
  unfold rd_in in Hin2. rewrite usub_Ok in H by lia. cbn [mbind outcome_bind] in H.
  destruct (decide _) as [|Hnot] in H; [done|].
  assert (rd_short r2 = false) as Hsh by (destruct (rd_short r2); [tauto | done]).
  specialize (Hv Hsh). specialize (Hc Hsh) as [_ Hc].
  apply bind_Ok_inv in H as ([[plain sg] en] & Hver & H).
  apply bind_Ok_inv in H as (ps & Hps & [= <-]). cbn [sp_signed sp_encrypted sp_payloads sp_key_id].
  set (start := rd_off r2) in *.
  assert (ul ≤ zlen b - start) as Hle by (apply Z.nlt_ge; tauto).
  exists (take (Z.to_nat start) b), (field b start ul), (drop (Z.to_nat ul) (drop (Z.to_nat start) b)), key, iv, plain.
  assert (b = take (Z.to_nat start) b ++ field b start ul ++ drop (Z.to_nat ul) (drop (Z.to_nat start) b))
    as Hb by (unfold field; by rewrite !take_drop).
  assert (zlen (take (Z.to_nat start) b) = start) as Hst by (apply zlen_take; lia).
  assert (zlen (field b start ul) = ul) as Hul' by (unfold field; apply zlen_take; rewrite zlen_drop; lia).
  split; [|split; [|split; [done|]]].
  - split; [done|]. rewrite Hul', Hst, Hv. do 2 f_equal. lia.
  - apply verify_inv; rewrite <- Hb; [done|]. by rewrite Hst, Hul'.
  - destruct key; [|done]. destruct Hkey as (? & ? & _). done.
Qed.

(** C6: An SPDU is only accepted for one of three reasons. Under key identifier 0,
    nothing follows its user data, so a secured SPDU whose key identifier was cleared
    is refused. Under a signing key the receiver holds, the octets before the trailer
    carry that key's MAC. Under an encrypting key, the GCM tag authenticates the user
    data with the headers before it, and the payloads are those of the decrypted
    data. *)
Theorem spdu_authentic b keys s :
  octets b → unmarshal b keys = Ok s →
  (sp_key_id s = 0 ∧ sp_signed s = false ∧ sp_encrypted s = false ∧
   ∃ hd user, parts b hd user [] ∧ elements user = Ok (sp_payloads s)) ∨
  ∃ k hd user pad tag rest,
    find_key keys (sp_key_id s) = Ok k ∧ sp_key_id s ≠ 0 ∧
    parts b hd user (pad ++ [TAG_SIGNATURE; zlen tag] ++ tag ++ rest) ∧
    ((k_sec k = SEC_NONE ∧ sp_signed s = true ∧ tag = compute_mac k (hd ++ user ++ pad) ∧
      elements user = Ok (sp_payloads s)) ∨
     (k_sec k ≠ SEC_NONE ∧ sp_encrypted s = true ∧
      ∃ iv plain, gcm_open k iv (user ++ tag) hd = Ok plain ∧ elements plain = Ok (sp_payloads s))).
Proof.
  intros Ho (hd & user & trailer & key & iv & plain & Hp & Ha & He & Hk)%unmarshal_inv; [|done].
  destruct key as [k|].
  - right. destruct Ha as (pad & tag & rest & -> & Ha). exists k, hd, user, pad, tag, rest.
    do 2 (split; [apply Hk|]). split; [done|]. destruct (decide (k_sec k = SEC_NONE)).
    + left. destruct Ha as (-> & -> & -> & _). done.
    + right. destruct Ha as (_ & Ho' & _ & ->). do 2 (split; [done|]). by exists iv, plain.
  - left. destruct Ha as (-> & -> & -> & ->). eauto 10.
Qed.

End Authentic.

(** ** The properties *)

Section Properties.
Context {C : Crypto} {L : CryptoLaws C}.

(** C39: Sending and receiving: whatever can be sent is marshalled, under any key, and
    a receiver that holds the key decodes it to the same session identifier, number,
    version, key times and payloads, with the protection the key stands for. *)
Theorem spdu_roundtrip s key iv keys :
  sendable s key → holds keys key → zlen iv = GCM_IV_LEN →
  ∃ b, marshal_with_iv s key iv = Ok b ∧ unmarshal b keys = Ok (received s key).
Proof using L. apply marshal_unmarshal. Qed.

(** Decoding a datagram never panics and terminates, for every input and key
    store, except for a version 1 datagram at a receiver that holds an encrypting
    key. *)
Theorem unmarshal_safe b keys :
  octets b →
  (∀ ks id k, keys = Some ks → KeyStore_lookup ks id = Some k → k_sec k ≠ SEC_NONE →
     from_be (field b 14 2) ≠ 1) →
  settled (unmarshal b keys).
Proof using L. apply unmarshal_settled. Qed.

(** A version 1 datagram that names key [id], declares its encryption algorithm and
    carries a 16-octet trailer of zeros. *)
Definition forged (id sec : Z) : list Z :=
  header SI_GOOSE 24 0 0 1 0 0 ++ [sec] ++ [SIG_NONE] ++ to_be 4 id ++ to_be 4 0
  ++ [TAG_SIGNATURE; GCM_TAG_LEN] ++ replicate 16 0.


End Properties.

(** ** A model of the packages

    A checksum in place of the authentication codes, and no encryption: enough to
    show that the laws can hold. *)

Definition checksum (l : list Z) : Z := u8 (foldl Z.add 0 l).

Definition toy_tag (c n m aad : list Z) : list Z := replicate 16 (checksum (c ++ n ++ m ++ aad)).

Definition toy_decrypt (c n ct aad : list Z) : option (list Z) :=
  let m := take (length ct - 16) ct in
  if decide (octets m ∧ drop (length ct - 16) ct = toy_tag c n m aad) then Some m else None.

#[local] Instance ToyCrypto : Crypto := {|
  Cipher := list Z;
  Nonce := list Z;
  nonce_from_slice iv := if decide (zlen iv = GCM_IV_LEN) then Ok iv else Panic;
  aes_new bits material := if decide (zlen material = bits / 8) then Ok material else Err "Invalid Length";
  aes_encrypt c n m aad := Some (m ++ toy_tag c n m aad);
  aes_decrypt := toy_decrypt;
  hmac _ k d := replicate 32 (checksum (k ++ d));
|}.

#[local] Instance ToyCrypto_laws : CryptoLaws ToyCrypto.
Proof.
  split; simpl.
  - intros iv ->. by rewrite decide_True.
  - intros iv H. by rewrite decide_False.
  - intros bits m _ ->. by rewrite decide_True.
  - intros bits m. by case_decide.
  - eauto.
  - intros c n m aad ct [= <-]. by rewrite zlen_app.
  - intros c n m aad ct Hm [= <-]. unfold toy_decrypt.
    rewrite length_app. change (length (toy_tag c n m aad)) with 16%nat.
    replace (length m + 16 - 16)%nat with (length m) by lia.
    rewrite take_app_length, drop_app_length. by rewrite decide_True.
  - intros c n ct aad m. unfold toy_decrypt. case_decide as H; [|done]. intros [= <-]. apply H.
  - done.
Qed.

Definition sample_spdu : Spdu :=
  mkSpdu SI_GOOSE 42 0 0 0 0 [mkPayload PT_GOOSE true 12289 [97; 3; 1; 2; 3]; mkPayload PT_SV false 16384 []]
    false false.

Definition sample_store : KeyStore := mkKeyStore {[ 1 := hmac_key; 2 := aes_key ]} 1.

Lemma sample_sendable key : key = hmac_key ∨ key = aes_key → sendable sample_spdu (Some key).
Proof.
  intros Hk. split.
  - split; simpl; lia.
  - left.
  - repeat (apply Forall_cons; split); [| |by apply Forall_nil];
      (split; [by vm_compute|]); (split; [by vm_compute|]); (split; [|by vm_compute]);
      apply (bool_decide_eq_true_1 _); vm_compute; reflexivity.
  - by vm_compute.
  - intros k [= <-]. destruct Hk as [-> | ->]; (split; [by apply validate_usable|]);
      (split; [by vm_compute | done]).
  - by destruct Hk as [-> | ->].
Qed.

Lemma spdu_roundtrip_witness :
  ∃ b, marshal_with_iv sample_spdu (Some aes_key) (replicate 12 7) = Ok b ∧
       unmarshal b (Some sample_store) = Ok (received sample_spdu (Some aes_key)).
Proof.
  apply (spdu_roundtrip sample_spdu (Some aes_key) (replicate 12 7) (Some sample_store)).
  - apply sample_sendable. by right.
  - by vm_compute.
  - by vm_compute.
Defined.

Lemma unmarshal_safe_witness : settled (unmarshal (replicate 40 1) (Some sample_store)).
Proof.
  apply (unmarshal_safe (replicate 40 1) (Some sample_store)).
  - apply Forall_replicate. unfold octet. lia.
  - intros ks id k _ _ _. by vm_compute.
Defined.


(** The signed encoding of [sample_spdu]. *)
Definition sample_signed : list Z :=
  Eval vm_compute in
    match marshal_with_iv sample_spdu (Some hmac_key) [] with Ok b => b | _ => [] end.

Lemma spdu_authentic_witness :
  ∃ k hd user pad tag rest,
    find_key (Some sample_store) 1 = Ok k ∧ (1 : Z) ≠ 0 ∧
    parts sample_signed hd user (pad ++ [TAG_SIGNATURE; zlen tag] ++ tag ++ rest) ∧
    k_sec k = SEC_NONE ∧ tag = compute_mac k (hd ++ user ++ pad).
Proof.
  destruct (spdu_authentic sample_signed (Some sample_store) (received sample_spdu (Some hmac_key)))
    as [(H & _)|(k & hd & user & pad & tag & rest & Hk & Hne & Hp & [(Hs & _ & Ht & _)|(_ & H & _)])].
  - apply (bool_decide_eq_true_1 _). vm_compute. reflexivity.
  - by vm_compute.
  - done.
  - exists k, hd, user, pad, tag, rest. done.
  - done.
Defined.
