(* ===== verification/Rsession.v ===== *)
(** The routable session (src/src/rsession/session.rs): sending, the checks on a
    datagram received, and the Ethernet interface a session offers to the GOOSE and
    sampled value publishers and subscribers.

    The sockets and the reader threads are not modelled: a datagram is handed to
    [check] with its sender and the time, and [send] yields the datagram. The key store
    is shared and may change between two calls, so it is an argument of each. *)

From stdpp Require Import pretty.
From S2P Require Import Prelude Ber Errors Ethernet Replay Keys Spdu.
Local Open Scope string_scope.
Local Open Scope list_scope.
Local Open Scope Z_scope.

Definition MAX_STREAMS : Z := 4096.
Definition L2_HEADER : Z := 8.
Definition SIM_BIT : Z := 32768.

(** The part of the configuration the checks use, as [open] leaves it. *)
Record Config := mkConfig {
  cfg_version : Z;
  cfg_allow_unsecured : bool;
  cfg_replay_window : Z;
  cfg_replay_reset : option Z;
}.

(** The defaults [open] fills in. *)
Definition open_config (version : Z) (allow_unsecured : bool) (replay_window : Z) (replay_reset : option Z)
    : outcome RsError Config :=
  let version := if decide (version = 0) then 2 else version in
  if decide (version ≠ 1 ∧ version ≠ 2) then Err (RsVersion version)
  else
    let window := if decide (replay_window = 0) then 64 else replay_window in
    let reset := match replay_reset with
                 | None => Some 10000000000
                 | Some d => if decide (d = 0) then None else Some d
                 end in
    Ok (mkConfig version allow_unsecured (Z.min window 64) reset).

Record Stats := mkStats {
  st_accepted : Z;
  st_malformed : Z;
  st_unknown_key : Z;
  st_unauthentic : Z;
  st_unsecured : Z;
  st_replayed : Z;
}.

Definition Stats_default : Stats := mkStats 0 0 0 0 0 0.

(** [fetch_add(1)] on an [AtomicU64]. *)
Definition incr (n : Z) : Z := u64 (n + 1).

Definition count_accepted (s : Stats) : Stats :=
  mkStats (incr (st_accepted s)) (st_malformed s) (st_unknown_key s) (st_unauthentic s) (st_unsecured s)
    (st_replayed s).
Definition count_error (e : RsError) (s : Stats) : Stats :=
  match e with
  | UnknownKey _ =>
      mkStats (st_accepted s) (st_malformed s) (incr (st_unknown_key s)) (st_unauthentic s) (st_unsecured s)
        (st_replayed s)
  | Authentication _ | Algorithm _ =>
      mkStats (st_accepted s) (st_malformed s) (st_unknown_key s) (incr (st_unauthentic s)) (st_unsecured s)
        (st_replayed s)
  | _ =>
      mkStats (st_accepted s) (incr (st_malformed s)) (st_unknown_key s) (st_unauthentic s) (st_unsecured s)
        (st_replayed s)
  end.
Definition count_unsecured (s : Stats) : Stats :=
  mkStats (st_accepted s) (st_malformed s) (st_unknown_key s) (st_unauthentic s) (incr (st_unsecured s))
    (st_replayed s).
Definition count_replayed (s : Stats) : Stats :=
  mkStats (st_accepted s) (st_malformed s) (st_unknown_key s) (st_unauthentic s) (st_unsecured s)
    (incr (st_replayed s)).

Section Session.
Context {C : Crypto}.
(** Socket addresses, and how one is displayed. *)
Context {Addr : Type} `{Countable Addr} (addr_display : Addr → string).

Definition StreamKey : Type := Addr * Z * Z.

Record Session := mkSession {
  sn_number : Z;
  sn_replay : gmap StreamKey ReplayWindow;
  sn_pending : list Frame;
  sn_stats : Stats;
}.

(** The state a session opens with. *)
Definition Session_new : Session := mkSession 0 ∅ [] Stats_default.

(** ** Sending *)

(** The datagram to send. [has_remote] says whether the session has a remote
    address; [random] is what [getrandom] yields. *)
Definition send (cfg : Config) (has_remote : bool) (keys : option KeyStore) (random : outcome string (list Z))
    (s : Session) (si : Z) (payloads : list Payload) : outcome RsError (list Z * Session) :=
  if negb has_remote then Err NoRemote
  else
    key ← match keys with
          | Some ks => match active_key ks with Some k => Ok (Some k) | None => Err NoActiveKey end
          | None => Ok None
          end;
    let spdu := mkSpdu si (sn_number s) (cfg_version cfg) 0 0 0 payloads false false in
    b ← marshal random spdu key;
    Ok (b, mkSession (u32 (sn_number s + 1)) (sn_replay s) (sn_pending s) (sn_stats s)).

(** ** Receiving *)

(** The streams kept when the table is full: those not silent beyond the reset
    time. *)
Definition recent (now reset : Z) (w : ReplayWindow) : Prop :=
  match rw_last w with Some l => since now l ≤ reset | None => False end.

#[global] Instance recent_dec now reset w : Decision (recent now reset w).
Proof. unfold recent. destruct (rw_last w); apply _. Defined.

Definition prune (cfg : Config) (now : Z) (k : StreamKey) (m : gmap StreamKey ReplayWindow)
    : gmap StreamKey ReplayWindow :=
  if decide (m !! k = None ∧ MAX_STREAMS ≤ Z.of_nat (size m)) then
    match cfg_replay_reset cfg with
    | Some reset => filter (λ p, recent now reset p.2) m
    | None => m
    end
  else m.

Definition fresh (cfg : Config) (s : Session) (from : Addr) (spdu : Spdu) (now : Z)
    : outcome RsError (bool * Session) :=
  let k := (from, sp_si spdu, sp_key_id spdu) in
  let m := prune cfg now k (sn_replay s) in
  let w := default ReplayWindow_default (m !! k) in
  '(ok, w') ← accept w (sp_number spdu) now (u32 (cfg_replay_window cfg)) (cfg_replay_reset cfg);
  Ok (ok, mkSession (sn_number s) (<[k := w']> m) (sn_pending s) (sn_stats s)).

Definition with_stats (s : Session) (f : Stats → Stats) : Session :=
  mkSession (sn_number s) (sn_replay s) (sn_pending s) (f (sn_stats s)).

(** [check]: the result, and the state it leaves. *)
Definition check (cfg : Config) (keys : option KeyStore) (s : Session) (b : list Z) (from : Addr) (now : Z)
    : outcome RsError Spdu * Session :=
  match unmarshal b keys with
  | Err e => (Err e, with_stats s (count_error e))
  | Panic => (Panic, s)
  | NoFuel => (NoFuel, s)
  | Ok spdu =>
      if decide (sp_key_id spdu = 0) then
        if cfg_allow_unsecured cfg then (Ok spdu, s) else (Err Unsecured, with_stats s count_unsecured)
      else if decide (0 < cfg_replay_window cfg) then
        match fresh cfg s from spdu now with
        | Ok (true, s') => (Ok spdu, s')
        | Ok (false, s') =>
            (Err (Replay ("number " +:+ pretty (sp_number spdu) +:+ " from " +:+ addr_display from)),
             with_stats s' count_replayed)
        | Err e => (Err e, s)
        | Panic => (Panic, s)
        | NoFuel => (NoFuel, s)
        end
      else (Ok spdu, s)
  end.

(** The loop of [receive_until] over the datagrams that arrive, each with its sender
    and the time: the first SPDU that passes, what the reject handler is told of the
    others, and the datagrams left. [None] when all were refused. *)
Fixpoint receive (cfg : Config) (keys : option KeyStore) (s : Session) (queue : list (list Z * Addr * Z))
    : outcome RsError (option (Spdu * Addr) * list (Addr * RsError) * list (list Z * Addr * Z) * Session) :=
  match queue with
  | [] => Ok (None, [], [], s)
  | (b, from, now) :: rest =>
      match check cfg keys s b from now with
      | (Ok spdu, s') => Ok (Some (spdu, from), [], rest, with_stats s' count_accepted)
      | (Err e, s') =>
          '(got, rejects, pending, s'') ← receive cfg keys s' rest;
          Ok (got, (from, e) :: rejects, pending, s'')
      | (Panic, _) => Panic
      | (NoFuel, _) => NoFuel
      end
  end.

(** ** The Ethernet interface *)

(** The session and payload types of an EtherType. *)
Definition session_of (ether_type : Z) : option (Z * Z) :=
  if decide (ether_type = ETHER_TYPE_GOOSE) then Some (SI_GOOSE, PT_GOOSE)
  else if decide (ether_type = ETHER_TYPE_SV) then Some (SI_SV, PT_SV)
  else None.

(** The payload element of a frame's payload. *)
Definition payload_of (kind : Z) (p : list Z) : outcome EthernetError Payload :=
  if decide (zlen p < L2_HEADER) then
    Err (EthFrame ("frame payload of " +:+ pretty (zlen p) +:+ " octets"))
  else
    p0 ← idx p 0; p1 ← idx p 1; p2 ← idx p 2; p3 ← idx p 3; p4 ← idx p 4; p5 ← idx p 5;
    let length := from_be [p2; p3] in
    let length := if decide (length < L2_HEADER ∨ zlen p < length) then zlen p else length in
    apdu ← slice p L2_HEADER length;
    Ok (mkPayload kind (bool_decide (Z.land (from_be [p4; p5]) SIM_BIT ≠ 0)) (from_be [p0; p1]) apdu).

(** What [write_frame] makes of an error of [send]. *)
Definition ethernet_error (e : RsError) : EthernetError :=
  match e with
  | RsIo io => EthIo (IoError_display io)
  | other => EthFrame (RsError_display other)
  end.

Definition write_frame (cfg : Config) (has_remote : bool) (keys : option KeyStore)
    (random : outcome string (list Z)) (s : Session) (f : Frame) : outcome EthernetError (list Z * Session) :=
  match session_of (fr_ether_type f) with
  | None => Err (EthFrame ("EtherType " +:+ hex16 (fr_ether_type f) +:+ " is neither GOOSE nor SV"))
  | Some (si, kind) =>
      p ← payload_of kind (fr_payload f);
      map_err ethernet_error (send cfg has_remote keys random s si [p])
  end.

(** The frame rebuilt from a payload element, [None] for a payload that is neither
    GOOSE nor SV or too long for the 16-bit length. *)
Definition frame_of (p : Payload) : option Frame :=
  let ether_type :=
    if decide (p_kind p = PT_GOOSE) then Some ETHER_TYPE_GOOSE
    else if decide (p_kind p = PT_SV) then Some ETHER_TYPE_SV
    else None in
  ether_type ← ether_type;
  let length := L2_HEADER + zlen (p_apdu p) in
  if decide (65535 < length) then None
  else
    let r1 := if p_simulation p then SIM_BIT else 0 in
    Some (mkFrame (replicate 6 0) (replicate 6 0) ether_type None
            (to_be 2 (p_app_id p) ++ to_be 2 length ++ to_be 2 r1 ++ [0; 0] ++ p_apdu p)).

(** [read_frame] on the datagrams that arrive: the next frame and the datagrams
    left; [None] while no frame has come. *)
Fixpoint read_frame (fuel : nat) (cfg : Config) (keys : option KeyStore) (s : Session)
    (queue : list (list Z * Addr * Z)) : outcome RsError (option Frame * list (list Z * Addr * Z) * Session) :=
  match fuel with
  | O => NoFuel
  | S fuel =>
      match sn_pending s with
      | f :: rest => Ok (Some f, queue, mkSession (sn_number s) (sn_replay s) rest (sn_stats s))
      | [] =>
          '(got, _, queue, s) ← receive cfg keys s queue;
          match got with
          | None => Ok (None, queue, s)
          | Some (spdu, _) =>
              match omap frame_of (sp_payloads spdu) with
              | [] => read_frame fuel cfg keys s queue
              | first :: frames =>
                  Ok (Some first, queue,
                      mkSession (sn_number s) (sn_replay s) (sn_pending s ++ frames) (sn_stats s))
              end
          end
      end
  end.

End Session.

(** ** What a session carries *)

(** A layer-2 payload: APPID, length, the two reserved words, the APDU, and padding
    behind it. *)
Record L2 := mkL2 {
  l2_app : Z;
  l2_r1 : Z;
  l2_r2 : Z;
  l2_apdu : list Z;
  l2_pad : list Z;
}.

Definition l2_octets (x : L2) : list Z :=
  to_be 2 (l2_app x) ++ to_be 2 (8 + zlen (l2_apdu x)) ++ to_be 2 (l2_r1 x) ++ to_be 2 (l2_r2 x)
  ++ l2_apdu x ++ l2_pad x.

Definition l2_ok (x : L2) : Prop :=
  in_u 16 (l2_app x) ∧ in_u 16 (l2_r1 x) ∧ octets (l2_apdu x) ∧ 8 + zlen (l2_apdu x) ≤ 65535.

(** The simulation bit. *)
Definition l2_sim (x : L2) : bool := Z.testbit (l2_r1 x) 15.

(** What is left of it after the session: the APPID, the simulation bit and the
    APDU. *)
Definition l2_carried (x : L2) : L2 :=
  mkL2 (l2_app x) (if l2_sim x then SIM_BIT else 0) 0 (l2_apdu x) [].

Lemma sim_bit r1 : bool_decide (Z.land r1 SIM_BIT ≠ 0) = Z.testbit r1 15.
Proof.
  change SIM_BIT with (Z.shiftl 1 15). destruct (Z.testbit r1 15) eqn:E.
  - apply bool_decide_true. by apply land_bit_ne_0.
  - apply bool_decide_false. rewrite land_bit_ne_0 by lia. by rewrite E.
Qed.

Lemma payload_of_l2 kind x :
  l2_ok x → payload_of kind (l2_octets x) = Ok (mkPayload kind (l2_sim x) (l2_app x) (l2_apdu x)).
Proof.
  intros (Happ & Hr1 & _ & Hlen). pose proof (zlen_nonneg (l2_apdu x)).
  unfold payload_of, l2_octets, L2_HEADER.
  destruct (to_be_2 (l2_app x)) as (a & c & -> & Ha).
  destruct (to_be_2 (8 + zlen (l2_apdu x))) as (d & e & -> & Hd).
  destruct (to_be_2 (l2_r1 x)) as (g & h & -> & Hg).
  destruct (to_be_2 (l2_r2 x)) as (i & j & -> & _).
  rewrite u16_id in Ha, Hd, Hg by (done || (split; lia)).
  rewrite decide_False by zlen. cbn [app]. idx_known. rewrite Ha, Hd, Hg, sim_bit.
  rewrite decide_False by zlen. cbv zeta.
  replace (slice _ 8 _) with (Ok (E:=EthernetError) (l2_apdu x)); [done|].
  symmetry. apply (slice_app_mid [a; c; d; e; g; h; i; j]); zlen.
Qed.

Lemma frame_of_l2 et si kind x :
  session_of et = Some (si, kind) → l2_ok x →
  frame_of (mkPayload kind (l2_sim x) (l2_app x) (l2_apdu x)) =
  Some (mkFrame (replicate 6 0) (replicate 6 0) et None (l2_octets (l2_carried x))).
Proof.
  intros Hs (_ & _ & _ & Hlen). unfold session_of in Hs.
  assert ((et = ETHER_TYPE_GOOSE ∧ kind = PT_GOOSE) ∨ (et = ETHER_TYPE_SV ∧ kind = PT_SV)) as Hk.
  { repeat case_decide; naive_solver. }
  unfold frame_of, L2_HEADER. cbn [p_kind p_simulation p_app_id p_apdu].
  replace (if decide (kind = PT_GOOSE) then _ else _) with (Some et)
    by (destruct Hk as [[-> ->]|[-> ->]]; done).
  cbn [mbind option_bind]. rewrite decide_False by lia.
  unfold l2_octets, l2_carried. cbn [l2_app l2_r1 l2_r2 l2_apdu l2_pad]. by rewrite app_nil_r.
Qed.

Section Delivery.
Context {C : Crypto} {L : CryptoLaws C}.
Context {Addr : Type} `{Countable Addr} (addr_display : Addr → string).

(** The sender's key under a key store, and the conditions under which a receiver
    takes what the sender sends: keys in range, no encryption in version 1, a
    receiver that holds the key or allows unsecured SPDUs. *)
Record paired (cfg rcfg : Config) (keys rkeys : option KeyStore) (key : option Key) : Prop := {
  pr_version : cfg_version cfg = 1 ∨ cfg_version cfg = 2;
  pr_key : match keys with Some ks => active_key ks = key ∧ is_Some key | None => key = None end;
  pr_usable : ∀ k, key = Some k → usable k ∧ in_u 32 (k_id k) ∧ (cfg_version cfg = 1 → k_sec k = SEC_NONE);
  pr_times : times_ok key;
  pr_holds : holds rkeys key;
  pr_policy : key = None → cfg_allow_unsecured rcfg = true;
}.

(** The randomness is 12 octets where it is drawn. *)
Definition random_ok (random : outcome string (list Z)) : Prop := ∃ iv, random = Ok iv ∧ zlen iv = GCM_IV_LEN.

Lemma send_delivers cfg rcfg keys rkeys key random (s : Session (Addr := Addr)) si p :
  paired cfg rcfg keys rkeys key → random_ok random → in_u 32 (sn_number s) → payload_ok p →
  ∃ b spdu,
    send cfg true keys random s si [p] =
      Ok (b, mkSession (u32 (sn_number s + 1)) (sn_replay s) (sn_pending s) (sn_stats s)) ∧
    unmarshal b rkeys = Ok spdu ∧ sp_si spdu = si ∧ sp_number spdu = sn_number s ∧
    sp_key_id spdu = match key with Some k => k_id k | None => 0 end ∧ sp_payloads spdu = [p].
Proof using L.
  intros [Hv Hk Hu Ht Hh Hpol] (iv & -> & Hiv) Hn Hp. unfold send. cbn [negb].
  replace (match keys with Some ks => _ | None => _ end) with (Ok (E:=RsError) key).
  2: { destruct keys as [ks|]; [|by rewrite Hk]. destruct Hk as [-> [k ->]]. done. }
  cbn [mbind outcome_bind]. set (spdu := mkSpdu _ _ _ _ _ _ _ _ _).
  assert (sendable spdu key) as Hs.
  { split; [done | | | | done | done]; unfold spdu; cbn [sp_version sp_payloads map concat].
    - rewrite !elem_of_cons. lia.
    - by apply Forall_singleton.
    - destruct Hp as (_ & _ & _ & Hl). rewrite app_nil_r, zlen_element. lia. }
  unfold marshal.
  set (iv' := if encrypts key then _ else _).
  assert (∃ i, iv' = Ok i ∧ zlen i = GCM_IV_LEN) as (i & -> & Hi).
  { unfold iv'. destruct (encrypts key); eauto. }
  destruct (marshal_unmarshal spdu key i rkeys Hs Hh Hi) as (b & Hm & Hun).
  cbn [mbind outcome_bind]. rewrite Hm. cbn [mbind outcome_bind].
  exists b, (Spdu.received spdu key). done.
Qed.

(** The last number the receiver has taken from the stream, where it keeps one, is
    the last the sender sent. *)
Definition in_step (rcfg : Config) (s r : Session (Addr := Addr)) (k : StreamKey) : Prop :=
  in_u 32 (sn_number s) ∧ sn_pending r = [] ∧
  (k.2 ≠ 0 → 0 < cfg_replay_window rcfg →
   ∀ w, sn_replay r !! k = Some w → rw_last w ≠ None → rw_top w = u32 (sn_number s - 1)).

Lemma accept_next {E} w n now size reset :
  in_u 32 n → (rw_last w ≠ None → rw_top w = u32 (n - 1)) →
  ∃ w', accept (E:=E) w n now size reset = Ok (true, w') ∧ rw_top w' = n.
Proof.
  intros Hn Htop. unfold accept. destruct (expired w now reset) eqn:He; [eauto|].
  assert (rw_last w ≠ None) as Hl by (unfold expired in He; by destruct (rw_last w)).
  rewrite (Htop Hl). replace (n - u32 (n - 1)) with (u32 n - u32 (n - 1)) by (by rewrite (u32_id n)).
  rewrite serial_diff by (unfold in_i; lia). cbv zeta. rewrite decide_True by lia. eauto.
Qed.

Lemma prune_lookup cfg now (k k' : StreamKey (Addr := Addr)) m w :
  prune cfg now k m !! k' = Some w → m !! k' = Some w.
Proof.
  unfold prune. repeat case_match; try done. intros [? _]%map_lookup_filter_Some. done.
Qed.

Lemma fresh_next cfg (s r : Session (Addr := Addr)) from spdu now :
  in_step cfg s r (from, sp_si spdu, sp_key_id spdu) → sp_number spdu = sn_number s →
  sp_key_id spdu ≠ 0 → 0 < cfg_replay_window cfg →
  ∃ r', fresh cfg r from spdu now = Ok (true, r') ∧ sn_pending r' = [] ∧
    ∀ w, sn_replay r' !! (from, sp_si spdu, sp_key_id spdu) = Some w → rw_top w = sn_number s.
Proof.
  intros (Hn & Hp & Hw) Hnum Hid Hwin. unfold fresh. set (k := (from, sp_si spdu, sp_key_id spdu)) in *.
  set (m := prune cfg now k (sn_replay r)).
  destruct (accept_next (E:=RsError) (default ReplayWindow_default (m !! k)) (sp_number spdu) now
    (u32 (cfg_replay_window cfg)) (cfg_replay_reset cfg)) as (w' & -> & Htop).
  - by rewrite Hnum.
  - rewrite Hnum. intros Hl. destruct (m !! k) as [w|] eqn:E; [|done]. simpl in *.
    apply Hw; [done | done | by apply prune_lookup in E | done].
  - cbn [mbind outcome_bind]. eexists. split; [done|]. split; [done|].
    simpl. rewrite lookup_insert_eq. intros w [= <-]. by rewrite Htop.
Qed.

Lemma check_next cfg keys (s r : Session (Addr := Addr)) b from spdu now :
  unmarshal b keys = Ok spdu → (sp_key_id spdu = 0 → cfg_allow_unsecured cfg = true) →
  in_step cfg s r (from, sp_si spdu, sp_key_id spdu) → sp_number spdu = sn_number s →
  ∃ r', check addr_display cfg keys r b from now = (Ok spdu, r') ∧
    ∀ s', sn_number s' = u32 (sn_number s + 1) → in_step cfg s' r' (from, sp_si spdu, sp_key_id spdu).
Proof.
  intros Hun Hpol Hst Hnum. unfold check. rewrite Hun.
  assert (∀ s' : Session (Addr := Addr), sn_number s' = u32 (sn_number s + 1) →
    in_u 32 (sn_number s') ∧ u32 (sn_number s' - 1) = sn_number s) as Hnext.
  { intros s' ->. split; [apply wrap_range; lia|]. unfold u32, wrap. rewrite Zminus_mod_idemp_l.
    replace (sn_number s + 1 - 1) with (sn_number s) by lia. apply wrap_id, Hst. }
  case_decide as Hid.
  { rewrite Hpol by done. exists r. split; [done|]. intros s' [Hs' _]%Hnext.
    split; [done|]. split; [apply Hst|]. simpl. lia. }
  case_decide.
  - destruct (fresh_next cfg s r from spdu now Hst Hnum) as (r' & -> & Hp & Hw); [done..|].
    exists r'. split; [done|]. intros s' [Hs' Hm]%Hnext. split; [done|]. split; [done|]. intros _ _ w Hl _.
    rewrite Hm. by apply Hw.
  - exists r. split; [done|]. intros s' [Hs' _]%Hnext. split; [done|]. split; [apply Hst|]. lia.
Qed.

(** One frame through both sessions. *)
Lemma write_read cfg rcfg keys rkeys key random (s r : Session (Addr := Addr)) from now f si kind x :
  paired cfg rcfg keys rkeys key → random_ok random →
  session_of (fr_ether_type f) = Some (si, kind) → fr_payload f = l2_octets x → l2_ok x →
  let k := (from, si, match key with Some k => k_id k | None => 0 end) in
  in_step rcfg s r k →
  ∃ b s' r', write_frame cfg true keys random s f = Ok (b, s') ∧
    read_frame addr_display 1 rcfg rkeys r [(b, from, now)] =
      Ok (Some (mkFrame (replicate 6 0) (replicate 6 0) (fr_ether_type f) None (l2_octets (l2_carried x))),
          [], r') ∧
    in_step rcfg s' r' k.
Proof using L.
  intros Hpr Hrnd Hsess Hpay Hx k Hst.
  assert (payload_ok (mkPayload kind (l2_sim x) (l2_app x) (l2_apdu x))) as Hpo.
  { destruct Hx as (Ha & _ & Ho & Hl). split; [|split; [done|split; [done|simpl; lia]]].
    unfold session_of in Hsess. simpl. repeat case_decide; simplify_eq; done. }
  destruct (send_delivers cfg rcfg keys rkeys key random s si _ Hpr Hrnd (proj1 Hst) Hpo)
    as (b & spdu & Hsend & Hun & Hsi & Hnum & Hid & Hps).
  exists b. eexists. unfold write_frame. rewrite Hsess, Hpay, payload_of_l2 by done.
  cbn [mbind outcome_bind]. rewrite Hsend.
  subst k. rewrite <- Hsi, <- Hid in *.
  destruct (check_next rcfg rkeys s r b from spdu now) as (r' & Hck & Hnext); [done | | done | done |].
  { rewrite Hid. intros H0. apply (pr_policy _ _ _ _ _ Hpr). destruct key as [k|]; [|done].
    destruct (pr_usable _ _ _ _ _ Hpr k eq_refl) as [[? _] _]. done. }
  eexists. split; [done|]. cbn [read_frame]. rewrite (proj1 (proj2 Hst)).
  cbn [receive]. rewrite Hck. cbn [mbind outcome_bind]. rewrite Hps.
  cbn [omap list_omap]. rewrite (frame_of_l2 (fr_ether_type f) (sp_si spdu) kind x) by done.
  split; [reflexivity|]. destruct (Hnext (mkSession (u32 (sn_number s + 1)) ∅ [] Stats_default) eq_refl)
    as (Hn' & Hp' & Hw'). split; [done|]. split; [|done]. cbn [sn_pending with_stats]. by rewrite Hp'.
Qed.

(** Frames written to one session and read, each as its datagram arrives, from
    another. *)
Fixpoint relay (cfg rcfg : Config) (keys rkeys : option KeyStore) (random : outcome string (list Z))
    (from : Addr) (frames : list (Frame * Z)) (s r : Session (Addr := Addr))
    : outcome EthernetError (list (option Frame)) :=
  match frames with
  | [] => Ok []
  | (f, now) :: rest =>
      '(b, s) ← write_frame cfg true keys random s f;
      '(g, _, r) ← map_err ethernet_error (read_frame addr_display 1 rcfg rkeys r [(b, from, now)]);
      gs ← relay cfg rcfg keys rkeys random from rest s r;
      Ok (g :: gs)
  end.

(** The frame a session makes of [x]. *)
Definition carried (et : Z) (x : L2) : Frame :=
  mkFrame (replicate 6 0) (replicate 6 0) et None (l2_octets (l2_carried x)).

Lemma relay_in_step cfg rcfg keys rkeys key random from et si kind frames xs (s r : Session (Addr := Addr)) :
  paired cfg rcfg keys rkeys key → random_ok random → session_of et = Some (si, kind) →
  Forall2 (λ f x, fr_ether_type f.1 = et ∧ fr_payload f.1 = l2_octets x ∧ l2_ok x) frames xs →
  in_step rcfg s r (from, si, match key with Some k => k_id k | None => 0 end) →
  relay cfg rcfg keys rkeys random from frames s r = Ok (map (λ x, Some (carried et x)) xs).
Proof using L.
  intros Hpr Hrnd Hs Hfs. revert s r.
  induction Hfs as [|[f now] x frames xs (Het & Hpay & Hx) _ IH]; intros s r Hst; [done|].
  simpl in Het, Hpay. rewrite <- Het in Hs.
  destruct (write_read cfg rcfg keys rkeys key random s r from now f si kind x)
    as (b & s' & r' & Hw & Hr & Hst'); [done..|].
  cbn [relay]. rewrite Hw. cbn [mbind outcome_bind]. rewrite Hr. cbn [map_err mbind outcome_bind].
  rewrite IH by done. unfold carried at 2. by rewrite <- Het.
Qed.

(** A session carries GOOSE and sampled value frames: every frame written to one
    session, whatever its addresses, VLAN tag and padding, is read from a session that
    holds the key (or allows unsecured SPDUs) with its EtherType, APPID, simulation bit
    and APDU, in order, and none is taken for a replay, however many there are. *)
Theorem session_delivers cfg rcfg keys rkeys key random from et frames xs :
  paired cfg rcfg keys rkeys key → random_ok random → is_Some (session_of et) →
  Forall2 (λ f x, fr_ether_type f.1 = et ∧ fr_payload f.1 = l2_octets x ∧ l2_ok x) frames xs →
  relay cfg rcfg keys rkeys random from frames Session_new Session_new =
  Ok (map (λ x, Some (carried et x)) xs).
Proof using L.
  intros Hpr Hrnd [[si kind] Hs] Hfs. by apply (relay_in_step _ _ _ _ key _ _ _ si kind).
Qed.

End Delivery.

Section DeliveryWitness.
#[local] Existing Instance ToyCrypto.
#[local] Existing Instance ToyCrypto_laws.

Definition toy_config : Config := mkConfig 2 false 64 (Some 10000000000).

(** A GOOSE frame with a VLAN tag, padding and the simulation bit. *)
Definition toy_l2 : L2 := mkL2 12289 32768 0 [97; 3; 1; 2; 3] [0; 0; 0].
Definition toy_frame : Frame :=
  mkFrame [0; 1; 2; 3; 4; 5] [1; 12; 205; 1; 0; 1] ETHER_TYPE_GOOSE None (l2_octets toy_l2).

Lemma session_delivers_witness :
  relay (Addr := Z) (λ _, "") toy_config toy_config (Some (mkKeyStore {[ 2 := aes_key ]} 2)) (Some sample_store)
    (Ok (replicate 12 7)) 5 [(toy_frame, 1); (toy_frame, 2)] Session_new Session_new =
  Ok [Some (carried ETHER_TYPE_GOOSE toy_l2); Some (carried ETHER_TYPE_GOOSE toy_l2)].
Proof.
  apply (session_delivers (λ _ : Z, "") toy_config toy_config (Some (mkKeyStore {[ 2 := aes_key ]} 2))
    (Some sample_store) (Some aes_key) (Ok (replicate 12 7)) 5 ETHER_TYPE_GOOSE
    [(toy_frame, 1); (toy_frame, 2)] [toy_l2; toy_l2]).
  - split.
    + by right.
    + split; [by vm_compute | by eexists].
    + intros k [= <-]. split; [by apply validate_usable|]. split; [by vm_compute | done].
    + by vm_compute.
    + by vm_compute.
    + done.
  - by exists (replicate 12 7).
  - by eexists.
  - assert (l2_ok toy_l2) as Hx.
    { split; [by vm_compute|]. split; [by vm_compute|]. split; [|by vm_compute].
      apply (bool_decide_eq_true_1 _). vm_compute. reflexivity. }
    repeat (apply Forall2_cons; split; [done|]). by apply Forall2_nil.
Defined.

End DeliveryWitness.

(** ** Replays *)

Section Replays.
Context {C : Crypto}.
Context {Addr : Type} `{Countable Addr} (addr_display : Addr → string).
Context (cfg : Config) (Hwin : 0 < cfg_replay_window cfg ≤ 64)
  (Hreset : ∀ r, cfg_replay_reset cfg = Some r → 0 ≤ r).

(** A datagram as it arrives, with the keys held at that time. *)
Definition Arrival : Type := option KeyStore * list Z * Addr * Z.

Definition check_arrival (s : Session (Addr := Addr)) (a : Arrival) : outcome RsError Spdu * Session :=
  let '(keys, b, from, now) := a in check addr_display cfg keys s b from now.

(** The state after a sequence of datagrams. *)
Definition after_arrivals (s : Session (Addr := Addr)) (l : list Arrival) : Session :=
  foldl (λ s a, (check_arrival s a).2) s l.

(** The stream and number of a secured SPDU. *)
Definition stream (a : Arrival) (k : StreamKey (Addr := Addr)) (n : Z) : Prop :=
  let '(keys, b, from, _) := a in
  ∃ spdu, unmarshal b keys = Ok spdu ∧ (from, sp_si spdu, sp_key_id spdu) = k ∧ sp_number spdu = n.

Definition arrival_time (a : Arrival) : Z := a.2.

(** The numbers of the stream [k] lie in the half of the number space from [B]. *)
Definition numbers_from (B : Z) (k : StreamKey) (l : list Arrival) : Prop :=
  Forall (λ a, ∀ n, stream a k n → in_u 32 n ∧ u32 (n - B) < 2 ^ 31) l.

(** The unbounded number of [n] in that half. *)
Definition lift (B n : Z) : Z := B + u32 (n - B).

Lemma u32_lift B n : in_u 32 n → u32 (lift B n) = n.
Proof.
  intros Hn. unfold lift, u32, wrap. rewrite Zplus_mod_idemp_r.
  replace (B + (n - B)) with n by lia. by apply wrap_id.
Qed.

(** The window of a stream, in the half from [B]. *)
Definition window_in (B : Z) (w : ReplayWindow) (T : Z) (A : gset Z) : Prop :=
  represents w T A ∧ B ≤ T < B + 2 ^ 31.

Lemma accept_window {E} B w T A n now :
  window_in B w T A → in_u 32 n → u32 (n - B) < 2 ^ 31 → expired w now (cfg_replay_reset cfg) = false →
  ∃ ok w' T' A',
    accept (E:=E) w n now (u32 (cfg_replay_window cfg)) (cfg_replay_reset cfg) = Ok (ok, w') ∧
    window_in B w' T' A' ∧ A ⊆ A' ∧ (rw_last w' = rw_last w ∨ rw_last w' = Some now) ∧
    (ok = true → lift B n ∈ A') ∧ (lift B n ∈ A → ok = false).
Proof using Hwin Hreset.
  intros [Hrep HT] Hn Hhalf Hexp.
  assert (B ≤ lift B n < B + 2 ^ 31) as Hl.
  { unfold lift. pose proof (wrap_range 32 (n - B) ltac:(lia)) as [? _]. unfold u32 in *. lia. }
  pose proof (accept_simulates (E:=E) w T A (lift B n) now (u32 (cfg_replay_window cfg)) (cfg_replay_reset cfg)
    Hrep Hexp) as Hs.
  rewrite u32_lift in Hs by done. rewrite (u32_id (cfg_replay_window cfg)) in * by (split; lia).
  specialize (Hs ltac:(lia) ltac:(unfold in_i; lia)).
  case_decide as Hf.
  - destruct Hs as (w' & -> & Hrep' & Hl'). exists true, w', (Z.max T (lift B n)), ({[ lift B n ]} ∪ A).
    split; [done|]. split; [split; [done | lia]|]. split; [set_solver|]. split; [by right|].
    split; [set_solver|]. intros Hin. destruct Hf as [Hf|[_ Hf]]; [|done].
    apply (rep_max _ _ _ Hrep) in Hin. lia.
  - exists false, w, T, A. rewrite Hs. split; [done|]. split; [done|]. split; [done|].
    split; [by left|]. done.
Qed.

(** Every window of the stream lies in the half from [B]. *)
Definition bounded (B : Z) (k : StreamKey) (s : Session (Addr := Addr)) : Prop :=
  ∀ w, sn_replay s !! k = Some w → ∃ T A, window_in B w T A.

(** The stream has a window, used at [t] or later, that holds the number [N]. *)
Definition remembers (B : Z) (k : StreamKey) (N t : Z) (s : Session (Addr := Addr)) : Prop :=
  ∃ w T A last, sn_replay s !! k = Some w ∧ window_in B w T A ∧ N ∈ A ∧ rw_last w = Some last ∧ t ≤ last.

Lemma accept_open {E} B w n now :
  in_u 32 n → u32 (n - B) < 2 ^ 31 → expired w now (cfg_replay_reset cfg) = true →
  ∃ w', accept (E:=E) w n now (u32 (cfg_replay_window cfg)) (cfg_replay_reset cfg) = Ok (true, w') ∧
    window_in B w' (lift B n) {[ lift B n ]} ∧ rw_last w' = Some now.
Proof.
  intros Hn Hh He. unfold accept. rewrite He. eexists. split; [done|]. split; [|done].
  rewrite <- (u32_lift B n) at 1 by done. split; [apply represents_open|].
  unfold lift. pose proof (wrap_range 32 (n - B) ltac:(lia)) as [? _]. unfold u32 in *. lia.
Qed.

(** What [fresh] leaves of a stream's window in the half from [B], and what it
    remembers of a number it accepts. *)
Lemma fresh_bounded B (s : Session (Addr := Addr)) from spdu now ok s' :
  let k := (from, sp_si spdu, sp_key_id spdu) in
  bounded B k s → in_u 32 (sp_number spdu) → u32 (sp_number spdu - B) < 2 ^ 31 →
  fresh cfg s from spdu now = Ok (ok, s') →
  bounded B k s' ∧ (ok = true → remembers B k (lift B (sp_number spdu)) now s').
Proof using Hwin Hreset.
  intros k Hb Hn Hh. unfold fresh. fold k. set (m := prune cfg now k (sn_replay s)).
  set (w := default ReplayWindow_default (m !! k)).
  destruct (expired w now (cfg_replay_reset cfg)) eqn:He.
  - destruct (accept_open (E:=RsError) B w _ now Hn Hh He) as (w' & -> & Hw & Hl).
    cbn [mbind outcome_bind]. intros [= <- <-]. split.
    + intros w0. simpl. rewrite lookup_insert_eq. intros [= <-]. eauto.
    + intros _. exists w', (lift B (sp_number spdu)), {[ lift B (sp_number spdu) ]}, now. simpl.
      rewrite lookup_insert_eq. split; [done|]. split; [done|]. split; [set_solver|]. split; [done | lia].
  - assert (∃ T A, window_in B w T A) as (T & A & Hw).
    { destruct (m !! k) as [w0|] eqn:E; [|done]. apply prune_lookup in E. by apply Hb. }
    destruct (accept_window (E:=RsError) B w T A _ now Hw Hn Hh He)
      as (ok' & w' & T' & A' & Ha & Hw' & _ & Hlast & Hin & _).
    rewrite Ha. cbn [mbind outcome_bind]. intros [= <- <-]. split.
    + intros w0. simpl. rewrite lookup_insert_eq. intros [= <-]. eauto.
    + intros ->. unfold accept in Ha. rewrite He in Ha.
      exists w', T', A', now. simpl. rewrite lookup_insert_eq. split; [done|]. split; [done|].
      split; [by apply Hin|]. split; [|lia]. cbv zeta in Ha. case_decide; [by injection Ha as <-|].
      case_decide; [done|]. apply bind_Ok_inv in Ha as (bit & _ & Ha). case_decide; [done|].
      by injection Ha as <-.
Qed.

Lemma prune_keeps now (k k' : StreamKey (Addr := Addr)) m w last :
  m !! k = Some w → rw_last w = Some last → expired w now (cfg_replay_reset cfg) = false →
  prune cfg now k' m !! k = Some w.
Proof using Hreset.
  intros Hm Hl He. unfold prune. case_decide; [|done]. unfold expired in He. rewrite Hl in He.
  destruct (cfg_replay_reset cfg) as [r|]; [|done]. apply map_lookup_filter_Some. split; [done|].
  unfold recent. simpl. rewrite Hl. apply bool_decide_eq_false in He. lia.
Qed.

Lemma accept_total {E} w n now :
  ∃ ok w', accept (E:=E) w n now (u32 (cfg_replay_window cfg)) (cfg_replay_reset cfg) = Ok (ok, w').
Proof using Hwin Hreset.
  unfold accept. destruct (expired _ _ _); [eauto|]. cbv zeta. case_decide; [eauto|].
  rewrite (u32_id (cfg_replay_window cfg)) by (split; lia).
  case_decide; [eauto|]. unfold bit64. rewrite decide_True by lia. cbn [mbind outcome_bind].
  case_decide; eauto.
Qed.

(** While the reset time has not passed since a number was accepted, it is
    remembered, and refused. *)
Lemma fresh_remembers B (s : Session (Addr := Addr)) k N t from spdu now :
  remembers B k N t s → (∀ r, cfg_replay_reset cfg = Some r → now - t ≤ r) →
  ((from, sp_si spdu, sp_key_id spdu) = k → in_u 32 (sp_number spdu) ∧ u32 (sp_number spdu - B) < 2 ^ 31) →
  t ≤ now →
  ∃ ok s', fresh cfg s from spdu now = Ok (ok, s') ∧ remembers B k N t s' ∧
    ((from, sp_si spdu, sp_key_id spdu) = k → lift B (sp_number spdu) = N → ok = false).
Proof using Hwin Hreset addr_display.
  intros (w & T & A & last & Hm & Hw & HN & Hl & Hlt) Hr Hk Hnow.
  assert (expired w now (cfg_replay_reset cfg) = false) as He.
  { unfold expired. rewrite Hl. destruct (cfg_replay_reset cfg) as [r|] eqn:Er; [|done].
    apply bool_decide_false. unfold since. specialize (Hr r eq_refl). specialize (Hreset r eq_refl). lia. }
  unfold fresh. set (k' := (from, sp_si spdu, sp_key_id spdu)) in *.
  pose proof (prune_keeps now k k' _ _ _ Hm Hl He) as Hp.
  set (m := prune cfg now k' (sn_replay s)) in *. clearbody m k'.
  destruct (decide (k' = k)) as [Hkk|Hne].
  - destruct (Hk Hkk) as [Hn Hh]. subst k'.
    replace (default ReplayWindow_default _) with w
      by (symmetry; exact (f_equal (default ReplayWindow_default) Hp)).
    destruct (accept_window (E:=RsError) B w T A _ now Hw Hn Hh He)
      as (ok & w' & T' & A' & -> & Hw' & Hsub & Hlast & _ & Hin).
    cbn [mbind outcome_bind]. do 2 eexists. split; [done|]. split.
    + exists w', T', A'. simpl. rewrite lookup_insert_eq.
      destruct Hlast as [Hlast|Hlast]; eexists; (do 2 (split; [done|])); (split; [set_solver|]);
        rewrite Hlast; (split; [done | lia]).
    + intros _ HNn. apply Hin. by rewrite HNn.
  - destruct (accept_total (E:=RsError) (default ReplayWindow_default (m !! k')) (sp_number spdu) now)
      as (ok & w' & ->).
    cbn [mbind outcome_bind]. do 2 eexists. split; [done|]. split; [|done].
    exists w, T, A, last. simpl. rewrite lookup_insert_ne by done. done.
Qed.

Lemma fresh_other (s : Session (Addr := Addr)) from spdu now ok s' k w :
  (from, sp_si spdu, sp_key_id spdu) ≠ k → fresh cfg s from spdu now = Ok (ok, s') →
  sn_replay s' !! k = Some w → sn_replay s !! k = Some w.
Proof.
  intros Hne. unfold fresh. intros ([ok' w'] & _ & [= <- <-])%bind_Ok_inv. simpl.
  rewrite lookup_insert_ne by done. apply prune_lookup.
Qed.

(** What [check] does to the windows: nothing, or what [fresh] does for a secured
    SPDU. *)
Lemma check_cases s keys b from now :
  let '(res, s') := check addr_display cfg keys s b from now in
  (sn_replay s' = sn_replay s ∧ ∀ spdu, res = Ok spdu → sp_key_id spdu = 0) ∨
  ∃ spdu ok s1, unmarshal b keys = Ok spdu ∧ sp_key_id spdu ≠ 0 ∧
    fresh cfg s from spdu now = Ok (ok, s1) ∧ sn_replay s' = sn_replay s1 ∧
    match ok with true => res = Ok spdu | false => ∃ msg, res = Err (Replay msg) end.
Proof using Hwin Hreset.
  unfold check. destruct (unmarshal b keys) as [spdu| | |] eqn:Hu; cbn iota beta; [|left; by split..].
  case_decide as Hid; [destruct (cfg_allow_unsecured cfg); left; split; naive_solver|].
  rewrite decide_True by lia.
  destruct (fresh cfg s from spdu now) as [[[] s1]| | |] eqn:Hf; cbn iota beta;
    [right; eauto 10..|left; by split|left; by split|left; by split].
Qed.

Lemma check_bounded B k s a :
  bounded B k s → (∀ n, stream a k n → in_u 32 n ∧ u32 (n - B) < 2 ^ 31) →
  bounded B k (check_arrival s a).2.
Proof using Hwin Hreset.
  intros Hb Hn. destruct a as [[[keys b] from] now]. unfold check_arrival.
  pose proof (check_cases s keys b from now) as Hc. destruct (check _ _ _ _ _ _ _) as [res s'].
  destruct Hc as [[Hsame _]|(spdu & ok & s1 & Hu & _ & Hf & Hsame & _)];
    simpl; unfold bounded; rewrite Hsame; [done|].
  destruct (decide ((from, sp_si spdu, sp_key_id spdu) = k)) as [<-|Hne].
  - destruct (Hn (sp_number spdu)) as [? ?]; [by exists spdu|].
    by destruct (fresh_bounded B s from spdu now ok s1 Hb) as [? _].
  - intros w Hw. by apply Hb, (fresh_other _ _ _ _ _ _ _ _ Hne Hf).
Qed.

Lemma check_remembers B k N t s a :
  remembers B k N t s → (∀ n, stream a k n → in_u 32 n ∧ u32 (n - B) < 2 ^ 31) →
  t ≤ arrival_time a → (∀ r, cfg_replay_reset cfg = Some r → arrival_time a - t ≤ r) →
  remembers B k N t (check_arrival s a).2.
Proof using Hwin Hreset.
  intros Hb Hn Ht Hr. destruct a as [[[keys b] from] now]. unfold check_arrival.
  pose proof (check_cases s keys b from now) as Hc. destruct (check _ _ _ _ _ _ _) as [res s'].
  destruct Hc as [[Hsame _]|(spdu & ok & s1 & Hu & _ & Hf & Hsame & _)];
    simpl; unfold remembers; rewrite Hsame; [done|].
  destruct (fresh_remembers B s k N t from spdu now Hb Hr) as (ok' & s1' & Hf' & Hrem & _); [|done|].
  - intros Hk. apply Hn. by exists spdu.
  - rewrite Hf in Hf'. by injection Hf' as <- <-.
Qed.

Lemma accepted_remembers B s a spdu s1 :
  let k := (a.1.2, sp_si spdu, sp_key_id spdu) in
  bounded B k s → (∀ n, stream a k n → in_u 32 n ∧ u32 (n - B) < 2 ^ 31) →
  check_arrival s a = (Ok spdu, s1) → sp_key_id spdu ≠ 0 →
  in_u 32 (sp_number spdu) ∧ u32 (sp_number spdu - B) < 2 ^ 31 ∧
  remembers B k (lift B (sp_number spdu)) (arrival_time a) s1.
Proof using Hwin Hreset.
  intros k Hb Hn Hc Hid. destruct a as [[[keys b] from] now]. simpl in *.
  pose proof (check_cases s keys b from now) as Hcases. rewrite Hc in Hcases.
  destruct Hcases as [[_ Hz]|(spdu' & ok & s' & Hu & _ & Hf & Hsame & Hok)]; [by destruct Hid; apply Hz|].
  destruct ok; [|by destruct Hok]. injection Hok as <-.
  destruct (Hn (sp_number spdu)) as [Hin Hh]; [by exists spdu|]. split; [done|]. split; [done|].
  destruct (fresh_bounded B s from spdu now true s' Hb Hin Hh Hf) as [_ Hrem].
  unfold remembers. rewrite Hsame. by apply Hrem.
Qed.

Lemma after_bounded B k s l :
  bounded B k s → numbers_from B k l → bounded B k (after_arrivals s l).
Proof using Hwin Hreset.
  intros Hb Hn. revert s Hb. induction Hn as [|a l Ha _ IH]; intros s Hb; [done|].
  by apply IH, check_bounded.
Qed.

Lemma after_remembers B k N t s l :
  remembers B k N t s → numbers_from B k l →
  Forall (λ a, t ≤ arrival_time a ∧ ∀ r, cfg_replay_reset cfg = Some r → arrival_time a - t ≤ r) l →
  remembers B k N t (after_arrivals s l).
Proof using Hwin Hreset.
  intros Hb Hn. revert s Hb. induction Hn as [|a l Ha _ IH]; intros s Hb Ht; [done|].
  apply Forall_cons in Ht as [[Ht Hr] Htl]. apply IH; [|done]. by apply check_remembers.
Qed.


End Replays.

Section ReplayWitness.
#[local] Existing Instance ToyCrypto.

Definition toy_arrival (t : Z) : Arrival (Addr := Z) := (Some sample_store, sample_signed, 5, t).


End ReplayWitness.
