(* ===== verification/Tpkt.v ===== *)
(** RFC 1006 framing (src/src/osi/tpkt.rs) over a byte stream.

    A stream is the octets its peer has sent, all of them, and the octets written
    so far: a read takes from the first, and fails with [UnexpectedEof] where they end;
    a write appends to the second, or fails where the transport does. *)

From stdpp Require Import pretty.
From S2P Require Import Prelude Errors.
Local Open Scope string_scope.
Local Open Scope list_scope.
Local Open Scope Z_scope.

Record Stream := mkStream {
  st_in : list Z;
  st_out : list Z;
  st_broken : option IoError;
}.

(** [AsyncReadExt::read_exact] of [n] octets. *)
Definition read_exact (s : Stream) (n : Z) : outcome OsiError (list Z * Stream) :=
  if decide (n ≤ zlen (st_in s)) then
    Ok (take (Z.to_nat n) (st_in s), mkStream (drop (Z.to_nat n) (st_in s)) (st_out s) (st_broken s))
  else Err (OsiIo UnexpectedEof).

(** [AsyncWriteExt::write_all] and [flush]. *)
Definition write_all (s : Stream) (b : list Z) : outcome OsiError Stream :=
  match st_broken s with
  | Some e => Err (OsiIo e)
  | None => Ok (mkStream (st_in s) (st_out s ++ b) None)
  end.

Definition HEADER_LEN : Z := 4.
Definition VERSION : Z := 3.
Definition MAX_PACKET : Z := 1048576.

Definition write_packet (s : Stream) (payload : list Z) : outcome OsiError Stream :=
  let total := HEADER_LEN + zlen payload in
  if decide (MAX_PACKET < total) then
    Err (OsiTpkt ("packet of " +:+ pretty total +:+ " bytes exceeds max " +:+ pretty MAX_PACKET))
  else write_all s ([VERSION; 0] ++ to_be 2 (u16 total) ++ payload).

Definition read_packet (s : Stream) : outcome OsiError (list Z * Stream) :=
  '(hdr, s) ← read_exact s HEADER_LEN;
  h0 ← idx hdr 0;
  if decide (h0 ≠ VERSION) then Err (OsiTpkt ("bad version " +:+ pretty h0)) else
  h2 ← idx hdr 2; h3 ← idx hdr 3;
  let total := from_be [h2; h3] in
  if decide (¬ (HEADER_LEN ≤ total ≤ MAX_PACKET)) then Err (OsiTpkt ("bad length " +:+ pretty total)) else
  n ← usub total HEADER_LEN;
  read_exact s n.

(** ** Framing *)

(** The octets of one packet. *)
Definition packet (payload : list Z) : list Z :=
  [VERSION; 0] ++ to_be 2 (4 + zlen payload) ++ payload.

Lemma write_packet_ok s payload :
  st_broken s = None → 4 + zlen payload ≤ 65535 →
  write_packet s payload = Ok (mkStream (st_in s) (st_out s ++ packet payload) None).
Proof.
  intros Hb Hl. unfold write_packet, HEADER_LEN, MAX_PACKET, write_all. rewrite Hb.
  rewrite decide_False by lia. unfold packet. do 2 f_equal. unfold u16. rewrite wrap_id; [done|].
  pose proof (zlen_nonneg payload). split; lia.
Qed.

Lemma read_exact_app v rest out broken n :
  n = zlen v → read_exact (mkStream (v ++ rest) out broken) n = Ok (v, mkStream rest out broken).
Proof.
  intros ->. unfold read_exact. cbn [st_in st_out st_broken]. rewrite decide_True by zlen.
  unfold zlen. rewrite Nat2Z.id, take_app_length, drop_app_length. done.
Qed.

Lemma to_be_2_cons z : in_u 16 z → ∃ a c, to_be 2 z = [a; c] ∧ from_be [a; c] = z.
Proof.
  intros Hz. pose proof (from_to_be 2 z) as H. pose proof (zlen_to_be 2 z) as Hl. unfold zlen in Hl.
  change (256 ^ Z.of_nat 2) with (2 ^ 16) in H. rewrite Z.mod_small in H by done.
  destruct (to_be 2 z) as [|a [|c [|]]]; simpl in Hl; try lia. by exists a, c.
Qed.

Lemma read_packet_ok payload rest out broken :
  4 + zlen payload ≤ 65535 →
  read_packet (mkStream (packet payload ++ rest) out broken) = Ok (payload, mkStream rest out broken).
Proof.
  intros Hl. pose proof (zlen_nonneg payload). unfold read_packet, packet, HEADER_LEN.
  destruct (to_be_2_cons (4 + zlen payload)) as (a & c & -> & Hac); [split; lia|].
  cbn [app]. rewrite (read_exact_app [VERSION; 0; a; c] (payload ++ rest)) by done.
  cbn [mbind outcome_bind]. idx_known. rewrite decide_False by auto. rewrite Hac.
  rewrite decide_False by (unfold MAX_PACKET; lia). rewrite usub_Ok by lia. cbn [mbind outcome_bind].
  by rewrite read_exact_app by lia.
Qed.

(** Reading one packet never panics and only takes from the input. *)
Lemma read_packet_returns s :
  octets (st_in s) →
  returns (λ '(p, s'), octets p ∧ octets (st_in s') ∧ st_out s' = st_out s ∧ st_broken s' = st_broken s ∧
    zlen (st_in s') + 4 ≤ zlen (st_in s)) (read_packet s).
Proof.
  intros Ho. unfold read_packet, read_exact, HEADER_LEN. destruct (decide (4 ≤ zlen (st_in s))) as [H4|]; [|done].
  cbn [mbind outcome_bind]. destruct (st_in s) as [|h0 [|h1 [|h2 [|h3 rest]]]] eqn:E; try zlen.
  cbn [st_in st_out st_broken].
  change (take (Z.to_nat 4) (h0 :: h1 :: h2 :: h3 :: rest)) with [h0; h1; h2; h3].
  change (drop (Z.to_nat 4) (h0 :: h1 :: h2 :: h3 :: rest)) with rest. idx_known.
  destruct (decide (h0 ≠ VERSION)); [done|]. destruct (decide (¬ _)) as [|Hlen]; [done|].
  apply dec_stable in Hlen. rewrite usub_Ok by lia. cbn [mbind outcome_bind].
  do 4 apply octets_cons in Ho as [_ Ho].
  destruct (decide (from_be [h2; h3] - 4 ≤ zlen rest)); [|done]. cbn [returns st_in st_out st_broken].
  split; [by apply octets_take|]. split; [by apply octets_drop|]. split; [done|]. split; [done|].
  rewrite zlen_drop by lia. zlen.
Qed.

(** RFC 1006 framing is a prefix code: a payload that fits the 16-bit length is
    written as one packet, and reading a stream that starts with it returns exactly the
    payload and leaves exactly what follows it. *)
Theorem packet_roundtrip s payload rest out broken :
  st_broken s = None → 4 + zlen payload ≤ 65535 →
  ∃ frame, write_packet s payload = Ok (mkStream (st_in s) (st_out s ++ frame) None) ∧
    read_packet (mkStream (frame ++ rest) out broken) = Ok (payload, mkStream rest out broken).
Proof.
  intros Hb Hl. exists (packet payload). split; [by apply write_packet_ok | by apply read_packet_ok].
Qed.

Lemma packet_roundtrip_witness :
  ∃ frame, write_packet (mkStream [] [] None) [2; 240; 128] = Ok (mkStream [] ([] ++ frame) None) ∧
    read_packet (mkStream (frame ++ [9; 9]) [] None) = Ok ([2; 240; 128], mkStream [9; 9] [] None).
Proof. by apply (packet_roundtrip (mkStream [] [] None) [2; 240; 128] [9; 9] [] None). Defined.

(** The bound on a packet is too high: a payload of 65532 octets or more, up to
    the bound of 1 MiB, is written without an error and with a length field that
    is not its length, so the packet is not read back. *)
Theorem oversized_packet_corrupts s payload rest out broken :
  st_broken s = None → 65535 < 4 + zlen payload ≤ MAX_PACKET →
  ∃ frame, write_packet s payload = Ok (mkStream (st_in s) (st_out s ++ frame) None) ∧
    ∀ s', read_packet (mkStream (frame ++ rest) out broken) ≠ Ok (payload, s').
Proof.
  intros Hb [Hl Hm]. unfold write_packet, HEADER_LEN, write_all. rewrite Hb, decide_False by lia.
  eexists. split; [done|]. intros s'.
  assert (in_u 16 (u16 (4 + zlen payload))) as Hu by (apply wrap_range; lia).
  destruct (to_be_2_cons _ Hu) as (a & c & -> & Hac). cbn [app]. unfold read_packet, HEADER_LEN.
  rewrite (read_exact_app [VERSION; 0; a; c] (payload ++ rest)) by done. cbn [mbind outcome_bind].
  idx_known. rewrite decide_False by auto. rewrite Hac. case_decide; [done|].
  rewrite usub_Ok by lia. cbn [mbind outcome_bind]. unfold read_exact. cbn [st_in].
  case_decide; [|done]. intros Heq. apply Ok_inj in Heq.
  assert (zlen (take (Z.to_nat (u16 (4 + zlen payload) - 4)) (payload ++ rest)) = zlen payload) as Hz
    by (by injection Heq as ->).
  rewrite zlen_take in Hz by lia. destruct Hu as [_ Hu]. lia.
Qed.

Lemma oversized_packet_corrupts_witness :
  ∃ frame, write_packet (mkStream [] [] None) (replicate (Z.to_nat 65532) 0) = Ok (mkStream [] ([] ++ frame) None) ∧
    ∀ s', read_packet (mkStream (frame ++ []) [] None) ≠ Ok (replicate (Z.to_nat 65532) 0, s').
Proof.
  apply (oversized_packet_corrupts (mkStream [] [] None) (replicate (Z.to_nat 65532) 0) [] [] None); [done|].
  unfold zlen. rewrite length_replicate, Z2Nat.id by lia. unfold MAX_PACKET. lia.
Defined.
