(* ===== verification/Cotp.v ===== *)
(** The class 0 transport protocol (src/src/osi/cotp.rs) over the packets of
    [Tpkt]: the connection handshake, segmentation and reassembly, and the interface
    [SendTsdu]/[RecvTsdu] the session layer is written against. *)

From stdpp Require Import pretty.
From S2P Require Import Prelude Errors Tpkt.
Local Open Scope string_scope.
Local Open Scope list_scope.
Local Open Scope Z_scope.

Definition TPDU_CR : Z := 0xe0.
Definition TPDU_CC : Z := 0xd0.
Definition TPDU_DR : Z := 0x80.
Definition TPDU_DT : Z := 0xf0.
Definition TPDU_ER : Z := 0x70.

Definition PARAM_TPDU_SIZE : Z := 0xc0.
Definition PARAM_SRC_TSAP : Z := 0xc1.
Definition PARAM_DST_TSAP : Z := 0xc2.

Definition EOT : Z := 0x80.

Definition DEFAULT_TSAP : list Z := [0; 1].

Record Options := mkOptions {
  o_src_tsap : list Z;
  o_dst_tsap : list Z;
  o_tpdu_size_code : Z;
}.

Definition Options_default : Options := mkOptions DEFAULT_TSAP DEFAULT_TSAP 10.

Record Conn := mkConn {
  c_stream : Stream;
  c_max_tpdu : Z;
  c_src_ref : Z;
  c_dst_ref : Z;
  c_src_tsap : list Z;
  c_dst_tsap : list Z;
}.

(** [1usize << n], which overflows from 64. *)
Definition shl1 {E} (n : Z) : outcome E Z := if decide (n < 64) then Ok (2 ^ n) else Panic.

Definition write_param (code : Z) (val : list Z) : list Z := [code; u8 (zlen val)] ++ val.

(** The length indicator, the type and the header body. *)
Definition parse_header (tpdu : list Z) : outcome OsiError (Z * Z * list Z) :=
  if decide (zlen tpdu < 2) then Err (OsiCotp "truncated TPDU") else
  li ← idx tpdu 0;
  if decide (li = 0 ∨ zlen tpdu < 1 + li) then
    Err (OsiCotp ("bad LI " +:+ pretty li +:+ " (len " +:+ pretty (zlen tpdu) +:+ ")"))
  else
  t ← idx tpdu 1;
  body ← slice tpdu 2 (1 + li);
  Ok (li, Z.land t 0xf0, body).

(** ** The handshake *)

Definition with_stream (c : Conn) (s : Stream) : Conn :=
  mkConn s (c_max_tpdu c) (c_src_ref c) (c_dst_ref c) (c_src_tsap c) (c_dst_tsap c).

(** A TPDU whose length indicator covers all of it, written as a packet. *)
Definition write_tpdu (c : Conn) (rest : list Z) : outcome OsiError Conn :=
  s ← write_packet (c_stream c) (u8 (zlen rest) :: rest);
  Ok (with_stream c s).

Definition send_cr (c : Conn) (size_code : Z) : outcome OsiError Conn :=
  write_tpdu c ([TPDU_CR] ++ to_be 2 0 ++ to_be 2 (c_src_ref c) ++ [0]
    ++ write_param PARAM_TPDU_SIZE [size_code] ++ write_param PARAM_SRC_TSAP (c_src_tsap c)
    ++ write_param PARAM_DST_TSAP (c_dst_tsap c)).

Definition send_cc (c : Conn) (size_code : Z) : outcome OsiError Conn :=
  write_tpdu c ([TPDU_CC] ++ to_be 2 (c_dst_ref c) ++ to_be 2 (c_src_ref c) ++ [0]
    ++ write_param PARAM_TPDU_SIZE [size_code]
    ++ (if decide (c_src_tsap c = []) then [] else write_param PARAM_SRC_TSAP (c_src_tsap c))
    ++ (if decide (c_dst_tsap c = []) then [] else write_param PARAM_DST_TSAP (c_dst_tsap c))).

(** The loop of [parse_params]: only ever downwards. *)
Fixpoint parse_params (fuel : nat) (params : list Z) (max_tpdu : Z) : outcome OsiError Z :=
  match fuel with
  | O => NoFuel
  | S fuel =>
      if decide (2 ≤ zlen params) then
        code ← idx params 0;
        plen ← idx params 1;
        if decide (zlen params < 2 + plen) then Ok max_tpdu else
        val ← slice params 2 (2 + plen);
        max_tpdu ← (if decide (code = PARAM_TPDU_SIZE ∧ plen = 1) then
                      v ← idx val 0;
                      sz ← shl1 (Z.min v 24);
                      Ok (if decide (0 < sz ∧ sz < max_tpdu) then sz else max_tpdu)
                    else Ok max_tpdu);
        rest ← slice_from params (2 + plen);
        parse_params fuel rest max_tpdu
      else Ok max_tpdu
  end.

Definition recv_cc (c : Conn) : outcome OsiError Conn :=
  '(tpdu, s) ← read_packet (c_stream c);
  '(_, typ, body) ← parse_header tpdu;
  if decide (typ ≠ TPDU_CC) then
    if decide (typ = TPDU_DR) then Err (OsiCotp "connection refused (DR)")
    else Err (OsiCotp ("expected CC, got type 0x" +:+ hex8 typ))
  else if decide (zlen body < 5) then Err (OsiCotp "short CC")
  else
    b2 ← idx body 2;
    b3 ← idx body 3;
    let c := mkConn s (c_max_tpdu c) (c_src_ref c) (from_be [b2; b3]) (c_src_tsap c) (c_dst_tsap c) in
    if decide (5 < zlen body) then
      params ← slice_from body 5;
      max ← parse_params (S (length params)) params (c_max_tpdu c);
      Ok (mkConn s max (c_src_ref c) (c_dst_ref c) (c_src_tsap c) (c_dst_tsap c))
    else Ok c.

Definition connect (stream : Stream) (opts : Options) : outcome OsiError Conn :=
  let size_code := if decide (o_tpdu_size_code opts = 0) then 10 else o_tpdu_size_code opts in
  max ← shl1 size_code;
  let c := mkConn stream max 1 0 (o_src_tsap opts) (o_dst_tsap opts) in
  c ← send_cr c size_code;
  recv_cc c.

(** The loop over the parameters of a CR. *)
Fixpoint accept_params (fuel : nat) (params : list Z) (size_code : Z) (c : Conn)
    : outcome OsiError (Z * Conn) :=
  match fuel with
  | O => NoFuel
  | S fuel =>
      if decide (2 ≤ zlen params) then
        code ← idx params 0;
        plen ← idx params 1;
        if decide (zlen params < 2 + plen) then Ok (size_code, c) else
        val ← slice params 2 (2 + plen);
        '(size_code, c) ←
          (if decide (code = PARAM_TPDU_SIZE ∧ plen = 1) then
             size_code ← idx val 0;
             max ← shl1 (Z.min size_code 24);
             Ok (size_code, mkConn (c_stream c) max (c_src_ref c) (c_dst_ref c) (c_src_tsap c) (c_dst_tsap c))
           else if decide (code = PARAM_SRC_TSAP) then
             Ok (size_code, mkConn (c_stream c) (c_max_tpdu c) (c_src_ref c) (c_dst_ref c) (c_src_tsap c) val)
           else if decide (code = PARAM_DST_TSAP) then
             Ok (size_code, mkConn (c_stream c) (c_max_tpdu c) (c_src_ref c) (c_dst_ref c) val (c_dst_tsap c))
           else Ok (size_code, c));
        rest ← slice_from params (2 + plen);
        accept_params fuel rest size_code c
      else Ok (size_code, c)
  end.

Definition accept (stream : Stream) : outcome OsiError Conn :=
  let c := mkConn stream 1024 1 0 [] [] in
  '(tpdu, s) ← read_packet (c_stream c);
  let c := with_stream c s in
  '(_, typ, body) ← parse_header tpdu;
  if decide (typ ≠ TPDU_CR) then Err (OsiCotp ("expected CR, got type 0x" +:+ hex8 typ))
  else
    c ← (if decide (4 ≤ zlen body) then
           b2 ← idx body 2;
           b3 ← idx body 3;
           Ok (mkConn s (c_max_tpdu c) (c_src_ref c) (from_be [b2; b3]) (c_src_tsap c) (c_dst_tsap c))
         else Ok c);
    '(size_code, c) ←
      (if decide (5 < zlen body) then
         params ← slice_from body 5;
         accept_params (S (length params)) params 10 c
       else Ok (10, c));
    send_cc c size_code.

(** ** Data transfer *)

(** The loop of [send] from [off]. *)
Fixpoint send_from (fuel : nat) (s : Stream) (max_data : Z) (tsdu : list Z) (off : Z)
    : outcome OsiError Stream :=
  match fuel with
  | O => NoFuel
  | S fuel =>
      let e := Z.min (off + max_data) (zlen tsdu) in
      let last := bool_decide (zlen tsdu ≤ e) in
      data ← slice tsdu off e;
      s ← write_packet s ([2; TPDU_DT; if last then EOT else 0] ++ data);
      if last then Ok s else send_from fuel s max_data tsdu e
  end.

(** [max_tpdu.saturating_sub(3).max(1)]. *)
Definition max_data (max_tpdu : Z) : Z := Z.max (Z.max 0 (max_tpdu - 3)) 1.

Definition send (c : Conn) (tsdu : list Z) : outcome OsiError Conn :=
  s ← send_from (S (length tsdu)) (c_stream c) (max_data (c_max_tpdu c)) tsdu 0;
  Ok (with_stream c s).

(** The loop of [receive] with [buf] received. *)
Fixpoint receive_into (fuel : nat) (s : Stream) (buf : list Z) : outcome OsiError (list Z * Stream) :=
  match fuel with
  | O => NoFuel
  | S fuel =>
      '(tpdu, s) ← read_packet s;
      '(li, typ, body) ← parse_header tpdu;
      if decide (typ = TPDU_DT) then
        if decide (body = []) then Err (OsiCotp "short DT")
        else
          num ← idx body 0;
          data ← slice_from tpdu (1 + li);
          if decide (Z.land num EOT ≠ 0) then Ok (buf ++ data, s)
          else receive_into fuel s (buf ++ data)
      else if decide (typ = TPDU_DR) then Err OsiClosed
      else if decide (typ = TPDU_ER) then Err (OsiCotp "received ER TPDU")
      else Err (OsiCotp ("unexpected TPDU type 0x" +:+ hex8 typ))
  end.

Definition receive (c : Conn) : outcome OsiError (list Z * Conn) :=
  '(buf, s) ← receive_into (S (length (st_in (c_stream c)))) (c_stream c) [];
  Ok (buf, with_stream c s).

(** The halves of a split connection. *)
Record Writer := mkWriter { wr_stream : Stream; wr_max_tpdu : Z }.

Definition Writer_send (w : Writer) (tsdu : list Z) : outcome OsiError Writer :=
  s ← send_from (S (length tsdu)) (wr_stream w) (max_data (wr_max_tpdu w)) tsdu 0;
  Ok (mkWriter s (wr_max_tpdu w)).

Definition Reader_receive (r : Stream) : outcome OsiError (list Z * Stream) :=
  receive_into (S (length (st_in r))) r [].

(** [into_split]: the reader has the input, the writer the output and the negotiated
    size. *)
Definition into_split (c : Conn) : Stream * Writer :=
  (c_stream c, mkWriter (c_stream c) (c_max_tpdu c)).

(** ** Segmentation and reassembly *)

Lemma parse_dt n data :
  parse_header ([2; TPDU_DT; n] ++ data) = Ok (2, TPDU_DT, [n]).
Proof.
  unfold parse_header. rewrite decide_False by zlen. cbn [app]. idx_known.
  rewrite decide_False by zlen. rewrite (slice_app_mid [2; TPDU_DT] [n] data) by done. done.
Qed.

Lemma land_eot (last : bool) : Z.land (if last then EOT else 0) EOT ≠ 0 ↔ last = true.
Proof. destruct last; by vm_compute. Qed.

(** One DT TPDU. *)
Lemma receive_dt fuel (last : bool) data rest out broken buf :
  4 + (3 + zlen data) ≤ 65535 →
  receive_into (S fuel)
    (mkStream (packet ([2; TPDU_DT; if last then EOT else 0] ++ data) ++ rest) out broken) buf =
  if last then Ok (buf ++ data, mkStream rest out broken)
  else receive_into fuel (mkStream rest out broken) (buf ++ data).
Proof.
  intros Hl. cbn [receive_into]. rewrite read_packet_ok by zlen. cbn [mbind outcome_bind].
  rewrite parse_dt. cbn [mbind outcome_bind]. rewrite decide_True by done. rewrite decide_False by done.
  idx_known. rewrite slice_from_app by done. cbn [mbind outcome_bind].
  destruct last; [rewrite decide_True by done | rewrite decide_False by auto]; done.
Qed.

(** What [send] writes is what [receive] reads. *)
Lemma send_receive_from fuel s md tsdu off :
  st_broken s = None → 1 ≤ md ≤ 65528 → 0 ≤ off ≤ zlen tsdu → zlen tsdu - off < Z.of_nat fuel →
  ∃ frames,
    send_from fuel s md tsdu off = Ok (mkStream (st_in s) (st_out s ++ frames) None) ∧
    ∀ fuel' rest out broken buf, (length frames < fuel')%nat →
      receive_into fuel' (mkStream (frames ++ rest) out broken) buf =
      Ok (buf ++ drop (Z.to_nat off) tsdu, mkStream rest out broken).
Proof.
  revert s off. induction fuel as [|fuel IH]; intros s off Hb Hmd Hoff Hf; [lia|].
  cbn [send_from]. set (e := Z.min (off + md) (zlen tsdu)).
  rewrite slice_Ok by lia. cbn [mbind outcome_bind]. set (data := take _ _).
  assert (zlen data = e - off) as Hd by (unfold data; rewrite zlen_take; rewrite ?zlen_drop; lia).
  set (last := bool_decide (zlen tsdu ≤ e)).
  rewrite write_packet_ok by (done || zlen). cbn [mbind outcome_bind].
  set (p := packet _).
  assert (0 < length p)%nat as Hp by (unfold p, packet; simpl; lia).
  destruct last eqn:Hlast; unfold last in Hlast.
  - apply bool_decide_eq_true in Hlast. exists p. split; [done|]. intros [|fuel'] rest out broken buf Hf'; [lia|].
    unfold p. rewrite (receive_dt fuel' true) by lia. do 3 f_equal. unfold data.
    apply firstn_all2. rewrite length_drop. unfold zlen in *. lia.
  - apply bool_decide_eq_false in Hlast.
    destruct (IH (mkStream (st_in s) (st_out s ++ p) None) e) as (frames & Hs & Hr); [done | done | lia | lia |].
    exists (p ++ frames). split; [rewrite Hs; cbn [st_in st_out]; by rewrite <- app_assoc|].
    intros [|fuel'] rest out broken buf Hf'; [lia|]. rewrite length_app in Hf'.
    rewrite <- app_assoc. unfold p. rewrite (receive_dt fuel' false) by lia. rewrite Hr by lia.
    do 2 f_equal. rewrite <- app_assoc. f_equal. unfold data.
    replace (Z.to_nat e) with (Z.to_nat (e - off) + Z.to_nat off)%nat by lia.
    rewrite Nat.add_comm, <- drop_drop. apply take_drop.
Qed.

Lemma send_receive c tsdu :
  st_broken (c_stream c) = None → c_max_tpdu c ≤ 65531 →
  ∃ frames,
    send c tsdu = Ok (with_stream c (mkStream (st_in (c_stream c)) (st_out (c_stream c) ++ frames) None)) ∧
    ∀ d rest out broken,
      receive (with_stream d (mkStream (frames ++ rest) out broken)) =
      Ok (tsdu, with_stream d (mkStream rest out broken)).
Proof.
  intros Hb Hm. pose proof (zlen_nonneg tsdu).
  destruct (send_receive_from (S (length tsdu)) (c_stream c) (max_data (c_max_tpdu c)) tsdu 0)
    as (frames & Hs & Hr); [done | unfold max_data; lia | lia | unfold zlen; lia |].
  exists frames. split; [unfold send; by rewrite Hs|].
  intros d rest out broken. unfold receive. cbn [c_stream with_stream st_in].
  rewrite Hr; [done|]. rewrite length_app. lia.
Qed.

(** Transport service data units survive segmentation: whatever the negotiated
    TPDU size, as long as a TPDU fits the 16-bit packet length, [send] writes a TSDU of
    any length, empty included, as a sequence of DT TPDUs from which [receive] at the
    other end returns the TSDU, consuming exactly those. *)
Theorem tsdu_roundtrip c tsdu :
  st_broken (c_stream c) = None → c_max_tpdu c ≤ 65531 →
  ∃ frames,
    send c tsdu = Ok (with_stream c (mkStream (st_in (c_stream c)) (st_out (c_stream c) ++ frames) None)) ∧
    ∀ d rest out broken,
      receive (with_stream d (mkStream (frames ++ rest) out broken)) =
      Ok (tsdu, with_stream d (mkStream rest out broken)).
Proof. apply send_receive. Qed.

Definition idle_conn (max : Z) : Conn := mkConn (mkStream [] [] None) max 1 1 [] [].

Lemma tsdu_roundtrip_witness :
  ∃ frames,
    send (idle_conn 5) [1; 2; 3; 4; 5] =
      Ok (with_stream (idle_conn 5) (mkStream [] ([] ++ frames) None)) ∧
    ∀ d rest out broken,
      receive (with_stream d (mkStream (frames ++ rest) out broken)) =
      Ok ([1; 2; 3; 4; 5], with_stream d (mkStream rest out broken)).
Proof. by apply (tsdu_roundtrip (idle_conn 5) [1; 2; 3; 4; 5]). Defined.

(** ** The handshake agrees *)

(** What one parameter of a CR does. *)
Definition cr_param (code : Z) (val : list Z) (size_code : Z) (c : Conn) : outcome OsiError (Z * Conn) :=
  if decide (code = PARAM_TPDU_SIZE ∧ zlen val = 1) then
    size_code ← idx val 0;
    max ← shl1 (Z.min size_code 24);
    Ok (size_code, mkConn (c_stream c) max (c_src_ref c) (c_dst_ref c) (c_src_tsap c) (c_dst_tsap c))
  else if decide (code = PARAM_SRC_TSAP) then
    Ok (size_code, mkConn (c_stream c) (c_max_tpdu c) (c_src_ref c) (c_dst_ref c) (c_src_tsap c) val)
  else if decide (code = PARAM_DST_TSAP) then
    Ok (size_code, mkConn (c_stream c) (c_max_tpdu c) (c_src_ref c) (c_dst_ref c) val (c_dst_tsap c))
  else Ok (size_code, c).

Lemma accept_params_at fuel code val rest size_code c :
  zlen val ≤ 255 →
  accept_params (S fuel) (write_param code val ++ rest) size_code c =
  ('(size_code, c) ← cr_param code val size_code c; accept_params fuel rest size_code c).
Proof.
  intros Hl. unfold write_param. rewrite u8_id by (pose proof (zlen_nonneg val); unfold octet; lia).
  cbn [accept_params]. rewrite <- app_assoc. rewrite decide_True by zlen. cbn [app]. idx_known.
  rewrite decide_False by zlen. rewrite (slice_app_mid [code; zlen val] val rest) by done.
  cbn [mbind outcome_bind]. unfold cr_param.
  destruct (if decide (code = PARAM_TPDU_SIZE ∧ zlen val = 1) then _ else _) as [[sc c']| | |]; try done.
  cbn [mbind outcome_bind].
  rewrite (slice_from_app ([code; zlen val] ++ val) rest) by zlen. done.
Qed.

Lemma accept_params_nil fuel size_code c : accept_params (S fuel) [] size_code c = Ok (size_code, c).
Proof. done. Qed.

Lemma parse_params_at fuel code val rest max :
  zlen val ≤ 255 →
  parse_params (S fuel) (write_param code val ++ rest) max =
  (max ← (if decide (code = PARAM_TPDU_SIZE ∧ zlen val = 1) then
            v ← idx val 0;
            sz ← shl1 (Z.min v 24);
            Ok (if decide (0 < sz ∧ sz < max) then sz else max)
          else Ok max);
   parse_params fuel rest max).
Proof.
  intros Hl. unfold write_param. rewrite u8_id by (pose proof (zlen_nonneg val); unfold octet; lia).
  cbn [parse_params]. rewrite <- app_assoc. rewrite decide_True by zlen. cbn [app]. idx_known.
  rewrite decide_False by zlen. rewrite (slice_app_mid [code; zlen val] val rest) by done.
  cbn [mbind outcome_bind].
  destruct (if decide (code = PARAM_TPDU_SIZE ∧ zlen val = 1) then _ else _) as [m| | |]; try done.
  cbn [mbind outcome_bind].
  rewrite (slice_from_app ([code; zlen val] ++ val) rest) by zlen. done.
Qed.

Lemma zlen_write_param code val : zlen (write_param code val) = 2 + zlen val.
Proof. unfold write_param. zlen. Qed.

(** The header of a TPDU whose length indicator covers all of it. *)
Lemma parse_whole t rest :
  1 + zlen rest ≤ 255 →
  parse_header (u8 (zlen (t :: rest)) :: t :: rest) = Ok (1 + zlen rest, Z.land t 0xf0, rest).
Proof.
  intros Hl. pose proof (zlen_nonneg rest). rewrite zlen_cons, u8_id by (unfold octet; lia).
  unfold parse_header. rewrite decide_False by zlen. idx_known. rewrite decide_False by zlen.
  replace (slice _ 2 _) with (Ok (E:=OsiError) rest); [done|].
  pose proof (slice_app_mid (E:=OsiError) [1 + zlen rest; t] rest [] 2 (1 + (1 + zlen rest))) as Hs.
  rewrite app_nil_r in Hs. symmetry. apply Hs; zlen.
Qed.

(** The TPDUs of the handshake, after the length indicator. *)
Definition cr_tpdu (size_code : Z) (src dst : list Z) : list Z :=
  TPDU_CR :: to_be 2 0 ++ to_be 2 1 ++ [0] ++ write_param PARAM_TPDU_SIZE [size_code]
    ++ write_param PARAM_SRC_TSAP src ++ write_param PARAM_DST_TSAP dst.

Definition cc_params (size_code : Z) (src dst : list Z) : list Z :=
  write_param PARAM_TPDU_SIZE [size_code]
    ++ (if decide (src = []) then [] else write_param PARAM_SRC_TSAP src)
    ++ (if decide (dst = []) then [] else write_param PARAM_DST_TSAP dst).

Lemma zlen_cc_params size_code src dst :
  3 ≤ zlen (cc_params size_code src dst) ≤ 7 + zlen src + zlen dst.
Proof.
  unfold cc_params. pose proof (zlen_nonneg src). pose proof (zlen_nonneg dst).
  rewrite !zlen_app, zlen_write_param. repeat case_decide; rewrite ?zlen_write_param; zlen.
Qed.

Definition cc_tpdu (size_code : Z) (src dst : list Z) : list Z :=
  TPDU_CC :: to_be 2 1 ++ to_be 2 1 ++ [0] ++ cc_params size_code src dst.

Definition tpdu_packet (rest : list Z) : list Z := packet (u8 (zlen rest) :: rest).

Lemma write_tpdu_ok c rest :
  st_broken (c_stream c) = None → zlen rest ≤ 255 →
  write_tpdu c rest =
  Ok (with_stream c (mkStream (st_in (c_stream c)) (st_out (c_stream c) ++ tpdu_packet rest) None)).
Proof. intros Hb Hl. unfold write_tpdu. by rewrite write_packet_ok by (done || zlen). Qed.

Lemma accept_cr size_code src dst rest out :
  0 ≤ size_code ≤ 255 → zlen src + zlen dst ≤ 242 →
  accept (mkStream (tpdu_packet (cr_tpdu size_code src dst) ++ rest) out None) =
  Ok (mkConn (mkStream rest (out ++ tpdu_packet (cc_tpdu size_code dst src)) None)
        (2 ^ Z.min size_code 24) 1 1 dst src).
Proof.
  intros Hs Hl. pose proof (zlen_nonneg src). pose proof (zlen_nonneg dst).
  unfold accept. cbn [c_stream with_stream]. set (body := to_be 2 0 ++ to_be 2 1 ++ [0] ++ write_param PARAM_TPDU_SIZE [size_code]
    ++ write_param PARAM_SRC_TSAP src ++ write_param PARAM_DST_TSAP dst).
  assert (zlen body = 12 + zlen src + zlen dst) as Hbl.
  { unfold body. rewrite !zlen_app, !zlen_write_param, !zlen_to_be. zlen. }
  change (tpdu_packet (cr_tpdu size_code src dst)) with (packet (u8 (zlen (TPDU_CR :: body)) :: TPDU_CR :: body)).
  rewrite read_packet_ok by zlen. cbn [mbind outcome_bind].
  rewrite parse_whole by lia. cbn [mbind outcome_bind].
  rewrite (decide_False (P := Z.land TPDU_CR 240 ≠ TPDU_CR)) by auto. rewrite decide_True by lia.
  set (params := write_param PARAM_TPDU_SIZE [size_code] ++ write_param PARAM_SRC_TSAP src
    ++ write_param PARAM_DST_TSAP dst).
  change body with ([0; 0; 0; 1; 0] ++ params). cbn [app]. idx_known.
  rewrite decide_True by (change (0 :: 0 :: 0 :: 1 :: 0 :: params) with body; lia).
  rewrite (slice_from_app [0; 0; 0; 1; 0] params) by done. cbn [mbind outcome_bind].
  assert (∃ n, length params = S (S (S n))) as [n ->].
  { exists (length params - 3)%nat. unfold params, write_param. simpl. lia. }
  unfold params. rewrite (accept_params_at _ PARAM_TPDU_SIZE [size_code]) by done.
  unfold cr_param at 1. rewrite decide_True by done. idx_known. unfold shl1. rewrite decide_True by lia.
  cbn [mbind outcome_bind]. rewrite (accept_params_at _ PARAM_SRC_TSAP src) by lia.
  cbn [mbind outcome_bind cr_param]. unfold cr_param at 1.
  rewrite decide_False by (intros [? _]; done). rewrite decide_True by done. cbn [mbind outcome_bind].
  rewrite <- (app_nil_r (write_param PARAM_DST_TSAP dst)).
  rewrite (accept_params_at _ PARAM_DST_TSAP dst) by lia. unfold cr_param at 1.
  rewrite decide_False by (intros [? _]; done). rewrite decide_False by done. rewrite decide_True by done.
  cbn [mbind outcome_bind]. rewrite accept_params_nil. cbn [mbind outcome_bind].
  unfold send_cc. cbn [c_stream with_stream c_max_tpdu c_src_ref c_dst_ref c_src_tsap c_dst_tsap].
  rewrite (write_tpdu_ok _ (cc_tpdu size_code dst src)); [done | done |].
  pose proof (zlen_cc_params size_code dst src). unfold cc_tpdu.
  rewrite zlen_cons, !zlen_app, !zlen_to_be. zlen.
Qed.

(** The parameters after the size leave the size alone. *)
Lemma parse_params_tail fuel src dst max :
  zlen src ≤ 255 → zlen dst ≤ 255 → (3 ≤ fuel)%nat →
  parse_params fuel ((if decide (src = []) then [] else write_param PARAM_SRC_TSAP src)
    ++ (if decide (dst = []) then [] else write_param PARAM_DST_TSAP dst)) max = Ok max.
Proof.
  intros Hs Hd Hf. destruct fuel as [|[|[|fuel]]]; [lia..|].
  assert (∀ f, parse_params (S f) [] max = Ok max) as Hnil by done.
  assert (∀ f, parse_params (S (S f)) (if decide (dst = []) then [] else write_param PARAM_DST_TSAP dst) max
    = Ok max) as Hdst.
  { intros f. case_decide; [done|]. rewrite <- (app_nil_r (write_param _ _)).
    rewrite parse_params_at by done. rewrite (decide_False (P := _ ∧ _)) by (intros [? _]; done). done. }
  destruct (decide (src = [])); [apply Hdst|].
  rewrite parse_params_at by done. rewrite (decide_False (P := _ ∧ _)) by (intros [? _]; done). apply Hdst.
Qed.

Lemma connect_cc opts size_code rest out :
  size_code = (if decide (o_tpdu_size_code opts = 0) then 10 else o_tpdu_size_code opts) →
  0 ≤ size_code < 64 → zlen (o_src_tsap opts) + zlen (o_dst_tsap opts) ≤ 242 →
  connect (mkStream (tpdu_packet (cc_tpdu size_code (o_dst_tsap opts) (o_src_tsap opts)) ++ rest) out None) opts =
  Ok (mkConn (mkStream rest (out ++ tpdu_packet (cr_tpdu size_code (o_src_tsap opts) (o_dst_tsap opts))) None)
        (2 ^ Z.min size_code 24) 1 1 (o_src_tsap opts) (o_dst_tsap opts)).
Proof.
  intros Hsc Hs Hl. unfold connect. rewrite <- Hsc. set (src := o_src_tsap opts) in *.
  set (dst := o_dst_tsap opts) in *. pose proof (zlen_nonneg src). pose proof (zlen_nonneg dst).
  unfold shl1. rewrite decide_True by lia. cbn [mbind outcome_bind].
  unfold send_cr. cbn [c_stream c_max_tpdu c_src_ref c_dst_ref c_src_tsap c_dst_tsap].
  rewrite (write_tpdu_ok _ (cr_tpdu size_code src dst)); [|done|].
  2: { unfold cr_tpdu. rewrite zlen_cons, !zlen_app, !zlen_write_param, !zlen_to_be. zlen. }
  cbn [mbind outcome_bind c_stream with_stream st_in st_out]. unfold recv_cc.
  cbn [c_stream with_stream c_max_tpdu c_src_ref c_dst_ref c_src_tsap c_dst_tsap].
  pose proof (zlen_cc_params size_code dst src) as Hcc.
  set (body := to_be 2 1 ++ to_be 2 1 ++ [0] ++ cc_params size_code dst src).
  assert (zlen body = 5 + zlen (cc_params size_code dst src)) as Hbl by (unfold body; rewrite !zlen_app, !zlen_to_be; zlen).
  change (tpdu_packet (cc_tpdu size_code dst src)) with (packet (u8 (zlen (TPDU_CC :: body)) :: TPDU_CC :: body)).
  rewrite read_packet_ok by zlen. cbn [mbind outcome_bind]. rewrite parse_whole by lia. cbn [mbind outcome_bind].
  rewrite (decide_False (P := Z.land TPDU_CC 240 ≠ TPDU_CC)) by auto.
  rewrite (decide_False (P := zlen body < 5)) by lia.
  change body with ([0; 1; 0; 1; 0] ++ cc_params size_code dst src). cbn [app]. idx_known.
  rewrite decide_True by zlen.
  rewrite (slice_from_app [0; 1; 0; 1; 0] (cc_params size_code dst src)) by done. cbn [mbind outcome_bind].
  assert (∃ n, length (cc_params size_code dst src) = S (S (S n))) as [n ->].
  { exists (length (cc_params size_code dst src) - 3)%nat. unfold cc_params, write_param. simpl. lia. }
  unfold cc_params. rewrite parse_params_at by done. rewrite (decide_True (P := _ ∧ _)) by done. idx_known.
  unfold shl1. rewrite (decide_True (P := Z.min size_code 24 < 64)) by lia. cbn [mbind outcome_bind].
  rewrite parse_params_tail by lia. cbn [mbind outcome_bind]. do 2 f_equal.
  assert (0 < 2 ^ Z.min size_code 24) by (apply Z.pow_pos_nonneg; lia).
  destruct (decide (size_code ≤ 24)).
  - rewrite Z.min_l by lia. by rewrite decide_False by lia.
  - rewrite decide_True; [done|]. split; [done|]. apply Z.pow_lt_mono_r; lia.
Qed.

(** The handshake agrees: the CR of [connect], read by [accept], is answered by a
    CC from which [connect] returns. The two ends then have the same TPDU size, the
    client's limited to 2^24, each other's reference, and each other's selectors
    crosswise, and neither has taken an octet beyond the handshake. *)
Theorem handshake_agrees opts rest_c rest_s out_c out_s :
  0 ≤ o_tpdu_size_code opts < 64 → zlen (o_src_tsap opts) + zlen (o_dst_tsap opts) ≤ 242 →
  ∃ cr cc client server,
    accept (mkStream (cr ++ rest_s) out_s None) = Ok server ∧
    c_stream server = mkStream rest_s (out_s ++ cc) None ∧
    connect (mkStream (cc ++ rest_c) out_c None) opts = Ok client ∧
    c_stream client = mkStream rest_c (out_c ++ cr) None ∧
    c_max_tpdu client = c_max_tpdu server ∧ c_max_tpdu server ≤ 2 ^ 24 ∧
    c_dst_ref client = c_src_ref server ∧ c_dst_ref server = c_src_ref client ∧
    c_src_tsap server = o_dst_tsap opts ∧ c_dst_tsap server = o_src_tsap opts ∧
    c_src_tsap client = o_src_tsap opts ∧ c_dst_tsap client = o_dst_tsap opts.
Proof.
  intros Hs Hl.
  set (size_code := if decide (o_tpdu_size_code opts = 0) then 10 else o_tpdu_size_code opts).
  assert (0 ≤ size_code < 64) as Hsc by (unfold size_code; case_decide; lia).
  exists (tpdu_packet (cr_tpdu size_code (o_src_tsap opts) (o_dst_tsap opts))).
  exists (tpdu_packet (cc_tpdu size_code (o_dst_tsap opts) (o_src_tsap opts))).
  do 2 eexists. split; [apply accept_cr; lia|]. split; [done|].
  split; [by apply connect_cc|]. do 2 (split; [done|]).
  split; [apply Z.pow_le_mono_r; lia | done].
Qed.

Lemma handshake_agrees_witness :
  ∃ cr cc client server,
    accept (mkStream (cr ++ []) [] None) = Ok server ∧
    c_stream server = mkStream [] ([] ++ cc) None ∧
    connect (mkStream (cc ++ []) [] None) Options_default = Ok client ∧
    c_stream client = mkStream [] ([] ++ cr) None ∧
    c_max_tpdu client = c_max_tpdu server ∧ c_max_tpdu server ≤ 2 ^ 24 ∧
    c_dst_ref client = c_src_ref server ∧ c_dst_ref server = c_src_ref client ∧
    c_src_tsap server = DEFAULT_TSAP ∧ c_dst_tsap server = DEFAULT_TSAP ∧
    c_src_tsap client = DEFAULT_TSAP ∧ c_dst_tsap client = DEFAULT_TSAP.
Proof. apply (handshake_agrees Options_default [] [] [] []); simpl; [lia | by vm_compute]. Defined.

(** ** No panic *)

Lemma parse_header_returns tpdu :
  octets tpdu →
  returns (λ '(li, _, body), 0 ≤ li ∧ 1 + li ≤ zlen tpdu ∧ octets body) (parse_header tpdu).
Proof.
  intros Ho. unfold parse_header. destruct (decide (zlen tpdu < 2)) as [|H2]; [done|].
  destruct tpdu as [|li [|t rest]]; [zlen..|]. idx_known. apply octets_cons in Ho as Ho'.
  destruct Ho' as [[Hli _] _]. destruct (decide _) as [|Hn]; [done|].
  rewrite slice_Ok by lia. cbn [mbind outcome_bind returns]. split; [lia|]. split; [lia|].
  by apply octets_take, octets_drop.
Qed.

Lemma receive_into_settled fuel s buf :
  octets (st_in s) → zlen (st_in s) < Z.of_nat fuel → settled (receive_into fuel s buf).
Proof.
  revert s buf. induction fuel as [|fuel IH]; intros s buf Ho Hf; [zlen|].
  apply (returns_settled (λ _, True)). cbn [receive_into].
  eapply returns_bind; [by apply read_packet_returns|]. intros [tpdu s'] (Hp & Hs' & _ & _ & Hlen).
  eapply returns_bind; [by apply parse_header_returns|]. intros [[li typ] body] (Hli & Hle & Hb).
  repeat (destruct (decide _); [try done|]); try done.
  destruct body as [|num body]; [done|]. idx_known.
  rewrite slice_from_Ok by lia. cbn [mbind outcome_bind]. destruct (decide _); [done|].
  apply returns_intro; [|done]. apply IH; [done | lia].
Qed.

Lemma accept_params_returns fuel params size_code c :
  octets params → 0 ≤ size_code ≤ 255 → zlen params < Z.of_nat fuel →
  returns (λ '(sc, c'), 0 ≤ sc ≤ 255 ∧ c_stream c' = c_stream c) (accept_params fuel params size_code c).
Proof.
  revert params size_code c. induction fuel as [|fuel IH]; intros params sc c Ho Hsc Hf; [zlen|].
  cbn [accept_params]. destruct (decide (2 ≤ zlen params)) as [H2|]; [|done].
  destruct params as [|code [|plen rest]]; [zlen..|]. idx_known.
  apply octets_cons in Ho as Ho'. destruct Ho' as [_ [[Hpl _] _]%octets_cons].
  destruct (decide (zlen (code :: plen :: rest) < 2 + plen)) as [|Hlen]; [done|].
  rewrite slice_Ok by lia. cbn [mbind outcome_bind]. replace (2 + plen - 2) with plen by lia.
  set (val := take _ _). assert (octets val) as Hv by (by apply octets_take, octets_drop).
  assert (zlen val = plen) as Hvl by (unfold val; rewrite zlen_take; rewrite ?zlen_drop; lia).
  eapply (returns_bind (λ '(sc', c'), 0 ≤ sc' ≤ 255 ∧ c_stream c' = c_stream c)).
  - destruct (decide (code = PARAM_TPDU_SIZE ∧ plen = 1)) as [[_ H1]|]; [|by repeat case_decide].
    destruct val as [|v val]; [zlen|]. idx_known. apply octets_cons in Hv as [[Hv0 Hv1] _].
    unfold shl1. rewrite decide_True by lia. cbn. split; [lia | done].
  - intros [sc' c'] [Hsc' Hst]. rewrite slice_from_Ok by lia. cbn [mbind outcome_bind].
    eapply returns_weaken; [apply IH; [by apply octets_drop | done | rewrite zlen_drop; zlen]|].
    intros [sc'' c''] [? ->]. done.
Qed.

Lemma accept_settled s : octets (st_in s) → settled (accept s).
Proof.
  intros Ho. apply (returns_settled (λ _, True)). unfold accept.
  eapply returns_bind; [by apply read_packet_returns|]. intros [tpdu s'] (Hp & _).
  eapply returns_bind; [by apply parse_header_returns|]. intros [[li typ] body] (_ & _ & Hb).
  destruct (decide (typ ≠ TPDU_CR)); [done|]. eapply (returns_bind (λ _, True)).
  { destruct (decide (4 ≤ zlen body)) as [H4|]; [|done].
    destruct body as [|b0 [|b1 [|b2 [|b3 rest]]]]; [zlen..|]. by idx_known. }
  intros c _. eapply (returns_bind (λ _, True)).
  { destruct (decide (5 < zlen body)); [|done]. rewrite slice_from_Ok by lia. cbn [mbind outcome_bind].
    eapply returns_weaken; [apply accept_params_returns; [by apply octets_drop | lia | unfold zlen; lia]|done]. }
  intros [sc c'] _. unfold send_cc, write_tpdu, write_packet, write_all. case_decide; [done|].
  by destruct (st_broken _).
Qed.

(** No input makes the transport panic or loop: accepting a connection and
    receiving a TSDU return a value or an error on every stream of octets. *)
Theorem transport_safe s c :
  octets (st_in s) → octets (st_in (c_stream c)) → settled (accept s) ∧ settled (receive c).
Proof.
  intros Hs Hc. split; [by apply accept_settled|]. unfold receive. apply settled_bind; [|by intros []].
  apply receive_into_settled; [done | unfold zlen; lia].
Qed.

Lemma transport_safe_witness :
  settled (accept (mkStream [3; 0; 0; 6; 2; 240] [] None)) ∧
  settled (receive (mkConn (mkStream [3; 0; 0; 7; 2; 240; 128; 3; 0] [] None) 1024 1 1 [] [])).
Proof.
  apply (transport_safe (mkStream [3; 0; 0; 6; 2; 240] [] None)
    (mkConn (mkStream [3; 0; 0; 7; 2; 240; 128; 3; 0] [] None) 1024 1 1 [] []));
    apply (bool_decide_eq_true_1 _); vm_compute; reflexivity.
Defined.

(** ** The interface to the session layer

    The traits [SendTsdu] and [RecvTsdu], with what an implementation promises: the
    TSDUs an end has still to receive ([inbox]) and those it has sent ([outbox]) behave as
    queues, and a connected pair hands one end's [outbox] to the other's [inbox]. *)

Class Transport (T : Type) := {
  send_tsdu : T → list Z → outcome OsiError T;
  recv_tsdu : T → outcome OsiError (list Z * T);
  (** The transport can be written to. *)
  ready : T → Prop;
  inbox : T → list (list Z) → Prop;
  outbox : T → list (list Z) → Prop;
}.

Class TransportLaws (T : Type) {Tr : Transport T} : Prop := {
  send_law t x : ready t →
    ∃ t', send_tsdu t x = Ok t' ∧ ready t' ∧
      (∀ ys, outbox t ys → outbox t' (ys ++ [x])) ∧ (∀ xs, inbox t xs → inbox t' xs);
  recv_law t x xs : inbox t (x :: xs) →
    ∃ t', recv_tsdu t = Ok (x, t') ∧ inbox t' xs ∧ (ready t → ready t') ∧
      (∀ ys, outbox t ys → outbox t' ys);
}.

(** Octets from which [receive] returns exactly [x]. *)
Definition wire (x frames : list Z) : Prop :=
  ∀ d rest out broken,
    receive (with_stream d (mkStream (frames ++ rest) out broken)) =
    Ok (x, with_stream d (mkStream rest out broken)).

Definition carries (b : list Z) (xs : list (list Z)) : Prop :=
  ∃ fs, Forall2 wire xs fs ∧ b = concat fs.

#[export] Instance Conn_Transport : Transport Conn := {|
  send_tsdu := send;
  recv_tsdu := receive;
  ready c := st_broken (c_stream c) = None ∧ c_max_tpdu c ≤ 65531;
  inbox c := carries (st_in (c_stream c));
  outbox c := carries (st_out (c_stream c));
|}.

Lemma carries_snoc b xs x frames : carries b xs → wire x frames → carries (b ++ frames) (xs ++ [x]).
Proof.
  intros (fs & Hfs & ->) Hw. exists (fs ++ [frames]). split.
  - apply Forall2_app; [done|]. by apply Forall2_cons; split; [|apply Forall2_nil].
  - by rewrite concat_app, concat_cons, concat_nil, app_nil_r.
Qed.

(** A [Conn] is a transport: the refinement of the queues by segmented TPDUs in
    packets on two octet streams. *)
#[export] Instance Conn_TransportLaws : TransportLaws Conn.
Proof.
  split.
  - intros c x [Hb Hm]. destruct (send_receive c x Hb Hm) as (frames & Hs & Hr).
    eexists. split; [exact Hs|]. split; [done|]. split; [|done].
    intros ys Hys. by apply carries_snoc.
  - intros c x xs (fs & Hfs & Hin). simpl in Hin. apply Forall2_cons_inv_l in Hfs as (f & fs' & Hf & Hfs & ->).
    exists (with_stream c (mkStream (concat fs') (st_out (c_stream c)) (st_broken (c_stream c)))).
    split; [|split; [|done]].
    + specialize (Hf c (concat fs') (st_out (c_stream c)) (st_broken (c_stream c))).
      rewrite <- concat_cons, <- Hin in Hf. by destruct c as [[] ? ? ? ? ?].
    + by exists fs'.
Qed.

(** Two connections whose streams are joined. *)
Lemma joined_inbox a b xs :
  st_in (c_stream b) = st_out (c_stream a) → outbox a xs → inbox b xs.
Proof. intros Hj Ha. simpl in *. by rewrite Hj. Qed.
