(* ===== verification/OsiSession.v ===== *)
(** The session protocol of the MMS profile (src/src/osi/session.rs), written
    against the transport interface of [Cotp]. *)

From stdpp Require Import pretty.
From S2P Require Import Prelude Errors Tpkt Cotp.
Local Open Scope string_scope.
Local Open Scope list_scope.
Local Open Scope Z_scope.

Definition SI_GIVE_TOKENS : Z := 0x01.
Definition SI_DATA_TRANSFER : Z := 0x01.
Definition SI_CONNECT : Z := 0x0d.
Definition SI_ACCEPT : Z := 0x0e.
Definition SI_REFUSE : Z := 0x0c.
Definition SI_ABORT : Z := 0x19.

Definition PGI_CONNECT_ACCEPT : Z := 0x05.
Definition PI_PROTOCOL_OPTS : Z := 0x13.
Definition PI_VERSION_NUMBER : Z := 0x16.
Definition PI_SESSION_USER_REQ : Z := 0x14.
Definition PI_CALLING_SSEL : Z := 0x33.
Definition PI_CALLED_SSEL : Z := 0x34.
Definition PGI_USER_DATA : Z := 0xc1.
Definition PI_TRANSPORT_DISC : Z := 0x11.
Definition PI_REASON_CODE : Z := 0x32.

Definition REASON_USER_DATA : Z := 2.

Definition append_len (n : Z) : list Z :=
  if decide (n < 255) then [u8 n] else [0xff; u8 (Z.shiftr n 8); u8 n].

Definition read_len (b : list Z) : option (Z * Z) :=
  match b with
  | [] => None
  | n :: rest =>
      if decide (n = 0xff) then
        match rest with
        | hi :: lo :: _ => Some (Z.lor (Z.shiftl hi 8) lo, 3)
        | _ => None
        end
      else Some (n, 1)
  end.

Definition write_pi (code : Z) (val : list Z) : list Z := [code] ++ append_len (zlen val) ++ val.

Definition spdu (si : Z) (params : list Z) : list Z := [si] ++ append_len (zlen params) ++ params.

Definition build_connect (si : Z) (calling_ssel called_ssel user_data : list Z) : list Z :=
  let cai := write_pi PI_PROTOCOL_OPTS [0x00] ++ write_pi PI_VERSION_NUMBER [0x02] in
  let params :=
    write_pi PGI_CONNECT_ACCEPT cai
    ++ write_pi PI_SESSION_USER_REQ [0x00; 0x02]
    ++ (if decide (calling_ssel = []) then [] else write_pi PI_CALLING_SSEL calling_ssel)
    ++ (if decide (called_ssel = []) then [] else write_pi PI_CALLED_SSEL called_ssel)
    ++ write_pi PGI_USER_DATA user_data in
  spdu si params.

Definition spdu_params (spdu : list Z) : outcome OsiError (list Z) :=
  if decide (zlen spdu < 2) then Err (OsiSession "short SPDU") else
  rest ← slice_from spdu 1;
  match read_len rest with
  | None => Err (OsiSession "short long-form LI")
  | Some (li, n) =>
      if decide (zlen spdu < 1 + n + li) then
        Err (OsiSession ("SPDU LI " +:+ pretty li +:+ " exceeds buffer"))
      else slice spdu (1 + n) (1 + n + li)
  end.

(** [None] in the result is the [None] of the code. *)
Fixpoint find_param (fuel : nat) (params : list Z) (code : Z) : outcome OsiError (option (list Z)) :=
  match fuel with
  | O => NoFuel
  | S fuel =>
      if decide (2 ≤ zlen params) then
        rest ← slice_from params 1;
        match read_len rest with
        | None => Ok None
        | Some (plen, n) =>
            if decide (zlen params < 1 + n + plen) then Ok None
            else
              p0 ← idx params 0;
              if decide (p0 = code) then
                v ← slice params (1 + n) (1 + n + plen);
                Ok (Some v)
              else
                rest ← slice_from params (1 + n + plen);
                find_param fuel rest code
        end
      else Ok None
  end.

Fixpoint find_user_data (fuel : nat) (params : list Z) : outcome OsiError (option (list Z)) :=
  match fuel with
  | O => NoFuel
  | S fuel =>
      if decide (2 ≤ zlen params) then
        code ← idx params 0;
        rest ← slice_from params 1;
        match read_len rest with
        | None => Err (OsiSession "short parameter length")
        | Some (plen, n) =>
            if decide (zlen params < 1 + n + plen) then
              Err (OsiSession ("parameter length " +:+ pretty plen +:+ " overflows"))
            else if decide (code = PGI_USER_DATA) then
              v ← slice params (1 + n) (1 + n + plen);
              Ok (Some v)
            else
              rest ← slice_from params (1 + n + plen);
              find_user_data fuel rest
        end
      else Ok None
  end.

Record ConnectLike := mkConnectLike {
  cl_si : Z;
  cl_params : list Z;
  cl_user_data : list Z;
}.

Definition parse_connect_like (spdu : list Z) : outcome OsiError ConnectLike :=
  params ← spdu_params spdu;
  ud ← find_user_data (S (length params)) params;
  si ← idx spdu 0;
  Ok (mkConnectLike si params (default [] ud)).

Record AcceptResult := mkAcceptResult {
  ar_user_data : list Z;
  ar_calling_ssel : option (list Z);
  ar_called_ssel : option (list Z);
}.

(** The loop of [strip_data_prefix], at most [n] times. *)
Fixpoint strip_prefix (n : nat) (rest : list Z) : outcome OsiError (list Z) :=
  match n with
  | O => Ok rest
  | S n =>
      if decide (zlen rest < 2) then Ok rest
      else
        r0 ← idx rest 0;
        if decide (r0 ≠ SI_DATA_TRANSFER) then Ok rest
        else
          li ← idx rest 1;
          if decide (zlen rest < 2 + li) then Err (OsiSession ("bad SPDU LI " +:+ pretty li))
          else
            rest ← slice_from rest (2 + li);
            strip_prefix n rest
  end.

Definition strip_data_prefix (tsdu : list Z) : outcome OsiError (list Z) := strip_prefix 2 tsdu.

Section Session.
Context `{Tr : Transport T}.

Definition connect_client (t : T) (calling_ssel called_ssel user_data : list Z) : outcome OsiError (list Z * T) :=
  t ← send_tsdu t (build_connect SI_CONNECT calling_ssel called_ssel user_data);
  '(resp, t) ← recv_tsdu t;
  if decide (head resp = Some SI_REFUSE) then
    params ← spdu_params resp;
    rc ← find_param (S (length params)) params PI_REASON_CODE;
    match rc with
    | Some (r :: ud) => Err (OsiRefused r ud)
    | _ => Err (OsiRefused 0 [])
    end
  else
    parsed ← parse_connect_like resp;
    if decide (cl_si parsed ≠ SI_ACCEPT) then
      Err (OsiSession ("expected ACCEPT, got SI 0x" +:+ hex8 (cl_si parsed)))
    else Ok (cl_user_data parsed, t).

Definition accept_server (t : T) : outcome OsiError (AcceptResult * T) :=
  '(spdu, t) ← recv_tsdu t;
  parsed ← parse_connect_like spdu;
  if decide (cl_si parsed ≠ SI_CONNECT) then
    Err (OsiSession ("expected CONNECT, got SI 0x" +:+ hex8 (cl_si parsed)))
  else
    let params := cl_params parsed in
    calling ← find_param (S (length params)) params PI_CALLING_SSEL;
    called ← find_param (S (length params)) params PI_CALLED_SSEL;
    Ok (mkAcceptResult (cl_user_data parsed) calling called, t).

Definition reply (t : T) (called_ssel user_data : list Z) : outcome OsiError T :=
  send_tsdu t (build_connect SI_ACCEPT [] called_ssel user_data).

Definition refuse (t : T) (user_data : list Z) : outcome OsiError T :=
  send_tsdu t (spdu SI_REFUSE (write_pi PI_TRANSPORT_DISC [0x01]
    ++ write_pi PI_REASON_CODE (REASON_USER_DATA :: user_data))).

Definition abort (t : T) (user_data : list Z) : outcome OsiError T :=
  send_tsdu t (spdu SI_ABORT (write_pi PI_TRANSPORT_DISC [0x0b] ++ write_pi PGI_USER_DATA user_data)).

Definition send_data (t : T) (user_data : list Z) : outcome OsiError T :=
  send_tsdu t ([SI_GIVE_TOKENS; 0x00] ++ [SI_DATA_TRANSFER; 0x00] ++ user_data).

(** [spdu_params(..).ok().and_then(..find_user_data(..).ok().flatten()).unwrap_or_default()]. *)
Definition abort_user_data (tsdu : list Z) : outcome OsiError (list Z) :=
  match spdu_params tsdu with
  | Ok p =>
      match find_user_data (S (length p)) p with
      | Ok (Some ud) => Ok ud
      | Ok None | Err _ => Ok []
      | Panic => Panic
      | NoFuel => NoFuel
      end
  | Err _ => Ok []
  | Panic => Panic
  | NoFuel => NoFuel
  end.

Definition receive_data (t : T) : outcome OsiError (list Z * T) :=
  '(tsdu, t) ← recv_tsdu t;
  if decide (head tsdu = Some SI_ABORT) then
    ud ← abort_user_data tsdu;
    Err (OsiAborted ud)
  else
    v ← strip_data_prefix tsdu;
    Ok (v, t).

End Session.

(** ** Parameters *)

Lemma read_append_len n rest :
  0 ≤ n ≤ 65535 → read_len (append_len n ++ rest) = Some (n, zlen (append_len n)).
Proof.
  intros Hn. unfold append_len. destruct (decide (n < 255)).
  - rewrite u8_id by (unfold octet; lia). cbn [app read_len]. by rewrite decide_False by lia.
  - cbn [app read_len]. rewrite decide_True by done. do 2 f_equal.
    rewrite (shiftr_div n 8 256) by lia. rewrite (u8_id (n / 256)) by (unfold octet; dlia).
    rewrite lor_shiftl_add by (first [lia | apply u8_octet]). unfold u8, wrap. change (2 ^ 8) with 256. dlia.
Qed.

Lemma zlen_append_len n : zlen (append_len n) = if decide (n < 255) then 1 else 3.
Proof. unfold append_len. by case_decide. Qed.

(** What the parameter field of an SPDU is made of. *)
Definition pis (ps : list (Z * list Z)) : list Z := concat (map (λ p, write_pi p.1 p.2) ps).

Fixpoint first_param (ps : list (Z * list Z)) (code : Z) : option (list Z) :=
  match ps with
  | [] => None
  | (c, v) :: rest => if decide (c = code) then Some v else first_param rest code
  end.

(** A parameter at the front of a field: its length is read, and the value and what
    follows it are found. *)
Lemma write_pi_parts {E} c v rest :
  zlen v ≤ 65535 →
  let params := write_pi c v ++ rest in
  let n := zlen (append_len (zlen v)) in
  2 ≤ zlen params ∧ idx (E:=E) params 0 = Ok c ∧
  (r ← slice_from (E:=E) params 1; Ok (read_len r)) = Ok (Some (zlen v, n)) ∧
  ¬ zlen params < 1 + n + zlen v ∧
  slice (E:=E) params (1 + n) (1 + n + zlen v) = Ok v ∧
  slice_from (E:=E) params (1 + n + zlen v) = Ok rest.
Proof.
  intros Hv params n. pose proof (zlen_nonneg v). pose proof (zlen_nonneg rest).
  assert (1 ≤ n) by (unfold n; rewrite zlen_append_len; case_decide; lia).
  assert (params = [c] ++ append_len (zlen v) ++ v ++ rest) as Hp by (unfold params, write_pi; by rewrite <- !app_assoc).
  assert (zlen params = 1 + n + zlen v + zlen rest) as Hl by (rewrite Hp, !zlen_app; unfold n; zlen).
  split; [lia|]. split; [by rewrite Hp|]. split.
  { rewrite Hp, slice_from_app by done. cbn [mbind outcome_bind]. by rewrite read_append_len by lia. }
  split; [lia|]. split.
  - rewrite Hp, app_assoc. apply slice_app_mid; unfold n; zlen.
  - rewrite Hp, (app_assoc _ v rest), (app_assoc [c]). apply slice_from_app. unfold n. zlen.
Qed.

Definition pis_ok (ps : list (Z * list Z)) : Prop := Forall (λ p, zlen p.2 ≤ 65535) ps.

Lemma pis_cons c v ps : pis ((c, v) :: ps) = write_pi c v ++ pis ps.
Proof. done. Qed.

Lemma find_param_pis fuel ps code :
  pis_ok ps → (length ps < fuel)%nat → find_param fuel (pis ps) code = Ok (first_param ps code).
Proof.
  revert fuel. induction ps as [|[c v] ps IH]; intros fuel Hok Hf; (destruct fuel as [|fuel]; [simpl in Hf; lia|]).
  { done. }
  apply Forall_cons in Hok as [Hv Hok]. simpl in Hv. rewrite pis_cons. cbn [find_param first_param].
  destruct (write_pi_parts (E:=OsiError) c v (pis ps) Hv) as (H2 & H0 & Hr & Hlen & Hs & Hrest).
  rewrite decide_True by done. apply bind_Ok_inv in Hr as (r & -> & Hr%Ok_inj). cbn [mbind outcome_bind]. rewrite Hr.
  rewrite (decide_False (P := zlen _ < _)) by done. rewrite H0. cbn [mbind outcome_bind].
  destruct (decide (c = code)); [by rewrite Hs|]. rewrite Hrest. cbn [mbind outcome_bind].
  apply IH; [done | simpl in Hf; lia].
Qed.

Lemma find_user_data_pis fuel ps :
  pis_ok ps → (length ps < fuel)%nat → find_user_data fuel (pis ps) = Ok (first_param ps PGI_USER_DATA).
Proof.
  revert fuel. induction ps as [|[c v] ps IH]; intros fuel Hok Hf; (destruct fuel as [|fuel]; [simpl in Hf; lia|]).
  { done. }
  apply Forall_cons in Hok as [Hv Hok]. simpl in Hv. rewrite pis_cons. cbn [find_user_data first_param].
  destruct (write_pi_parts (E:=OsiError) c v (pis ps) Hv) as (H2 & H0 & Hr & Hlen & Hs & Hrest).
  rewrite decide_True by done. rewrite H0. cbn [mbind outcome_bind].
  apply bind_Ok_inv in Hr as (r & -> & Hr%Ok_inj). cbn [mbind outcome_bind]. rewrite Hr.
  rewrite (decide_False (P := zlen _ < _)) by done.
  destruct (decide (c = PGI_USER_DATA)); [by rewrite Hs|]. rewrite Hrest. cbn [mbind outcome_bind].
  apply IH; [done | simpl in Hf; lia].
Qed.

Lemma length_pis ps : (length ps ≤ length (pis ps))%nat.
Proof.
  induction ps as [|[c v] ps IH]; [done|]. rewrite pis_cons, length_app. unfold write_pi. simpl. lia.
Qed.

Lemma spdu_params_at si params : zlen params ≤ 65535 → spdu_params (spdu si params) = Ok params.
Proof.
  intros Hl. change (spdu si params) with (write_pi si params).
  destruct (write_pi_parts (E:=OsiError) si params [] Hl) as (H2 & _ & Hr & Hlen & Hs & _).
  rewrite app_nil_r in *. unfold spdu_params. rewrite decide_False by lia.
  apply bind_Ok_inv in Hr as (r & -> & Hr%Ok_inj). cbn [mbind outcome_bind]. rewrite Hr.
  by rewrite decide_False by done.
Qed.

(** The parameters of a CONNECT or ACCEPT. *)
Definition connect_pis (calling_ssel called_ssel user_data : list Z) : list (Z * list Z) :=
  [(PGI_CONNECT_ACCEPT, write_pi PI_PROTOCOL_OPTS [0x00] ++ write_pi PI_VERSION_NUMBER [0x02]);
   (PI_SESSION_USER_REQ, [0x00; 0x02])]
  ++ (if decide (calling_ssel = []) then [] else [(PI_CALLING_SSEL, calling_ssel)])
  ++ (if decide (called_ssel = []) then [] else [(PI_CALLED_SSEL, called_ssel)])
  ++ [(PGI_USER_DATA, user_data)].

Lemma build_connect_pis si a b ud : build_connect si a b ud = spdu si (pis (connect_pis a b ud)).
Proof.
  unfold build_connect, connect_pis. f_equal.
  destruct (decide (a = [])), (decide (b = [])); unfold pis; cbn [map concat app fst snd];
    rewrite ?app_nil_r, <- ?app_assoc; done.
Qed.

(** ** Associations *)

(** The parameters of a CONNECT or ACCEPT fit its length field. *)
Definition connect_fits (calling_ssel called_ssel user_data : list Z) : Prop :=
  zlen (pis (connect_pis calling_ssel called_ssel user_data)) ≤ 65535.

Lemma pis_ok_fits ps : zlen (pis ps) ≤ 65535 → pis_ok ps.
Proof.
  induction ps as [|[c v] ps IH]; intros Hl; [by apply Forall_nil|].
  rewrite pis_cons, zlen_app in Hl. pose proof (zlen_nonneg (pis ps)). pose proof (zlen_nonneg v).
  unfold write_pi in Hl. rewrite !zlen_app in Hl. pose proof (zlen_nonneg (append_len (zlen v))).
  apply Forall_cons. split; [simpl; zlen | apply IH; zlen].
Qed.

(** A selector as it arrives: an empty one is not sent. *)
Definition ssel (s : list Z) : option (list Z) := if decide (s = []) then None else Some s.

Lemma connect_pis_params a b ud :
  first_param (connect_pis a b ud) PGI_USER_DATA = Some ud ∧
  first_param (connect_pis a b ud) PI_CALLING_SSEL = ssel a ∧
  first_param (connect_pis a b ud) PI_CALLED_SSEL = ssel b.
Proof. unfold connect_pis, ssel. destruct (decide (a = [])), (decide (b = [])); done. Qed.

Lemma parse_connect si a b ud :
  connect_fits a b ud →
  parse_connect_like (build_connect si a b ud) = Ok (mkConnectLike si (pis (connect_pis a b ud)) ud).
Proof.
  intros Hf. rewrite build_connect_pis. unfold parse_connect_like. rewrite spdu_params_at by done.
  cbn [mbind outcome_bind].
  rewrite find_user_data_pis by (by apply pis_ok_fits || (pose proof (length_pis (connect_pis a b ud)); lia)).
  cbn [mbind outcome_bind]. by rewrite (proj1 (connect_pis_params a b ud)).
Qed.

Lemma find_connect_param a b ud code :
  connect_fits a b ud →
  find_param (S (length (pis (connect_pis a b ud)))) (pis (connect_pis a b ud)) code =
  Ok (first_param (connect_pis a b ud) code).
Proof.
  intros Hf. apply find_param_pis; [by apply pis_ok_fits|]. pose proof (length_pis (connect_pis a b ud)). lia.
Qed.

Section Associations.
Context {T : Type} {Tr : Transport T} {TL : TransportLaws T}.

(** A server reads the CONNECT of a client. *)
Lemma accept_server_law (server : T) calling called ud xs :
  connect_fits calling called ud → inbox server (build_connect SI_CONNECT calling called ud :: xs) →
  ∃ s1, accept_server server = Ok (mkAcceptResult ud (ssel calling) (ssel called), s1) ∧ inbox s1 xs ∧
    (ready server → ready s1) ∧ (∀ ys, outbox server ys → outbox s1 ys).
Proof using TL.
  intros Hf Hi. destruct (recv_law _ _ _ Hi) as (s1 & Hrecv & Hi1 & Hr1 & Ho1). exists s1. split; [|done].
  unfold accept_server. rewrite Hrecv. cbn [mbind outcome_bind]. rewrite parse_connect by done.
  cbn [mbind outcome_bind cl_si cl_params cl_user_data]. rewrite decide_False by auto.
  rewrite !find_connect_param by done. cbn [mbind outcome_bind].
  destruct (connect_pis_params calling called ud) as (_ & -> & ->). done.
Qed.

(** Associations open over any transport that keeps its promises: the CONNECT a
    client sends gives the server the user data and the selectors that were named, and
    the ACCEPT it replies with gives the client the server's user data. *)
Theorem association_opens (client server : T) calling called ud called' ud' :
  connect_fits calling called ud → connect_fits [] called' ud' →
  let req := build_connect SI_CONNECT calling called ud in
  let resp := build_connect SI_ACCEPT [] called' ud' in
  (∀ xs, ready server → inbox server (req :: xs) →
     ∃ s1 s2, accept_server server = Ok (mkAcceptResult ud (ssel calling) (ssel called), s1) ∧
       reply s1 called' ud' = Ok s2 ∧ ready s2 ∧ inbox s2 xs ∧
       ∀ ys, outbox server ys → outbox s2 (ys ++ [resp])) ∧
  (∀ xs, ready client → inbox client (resp :: xs) →
     ∃ c, connect_client client calling called ud = Ok (ud', c) ∧ ready c ∧ inbox c xs ∧
       ∀ ys, outbox client ys → outbox c (ys ++ [req])).
Proof using TL.
  intros Hf Hf' req resp. split.
  - intros xs Hr Hi. destruct (accept_server_law _ _ _ _ _ Hf Hi) as (s1 & Ha & Hi1 & Hr1 & Ho1).
    destruct (send_law s1 resp (Hr1 Hr)) as (s2 & Hsend & Hr2 & Ho2 & Hi2).
    exists s1, s2. split; [done|]. split; [done|]. split; [done|]. split; [by apply Hi2|]. auto.
  - intros xs Hr Hi. unfold connect_client. fold req.
    destruct (send_law client req Hr) as (c1 & -> & Hr1 & Ho1 & Hi1). cbn [mbind outcome_bind].
    destruct (recv_law _ _ _ (Hi1 _ Hi)) as (c2 & -> & Hi2 & Hr2 & Ho2). cbn [mbind outcome_bind].
    rewrite decide_False by done. unfold resp. rewrite parse_connect by done.
    cbn [mbind outcome_bind cl_si cl_user_data]. rewrite decide_False by auto.
    exists c2. split; [done|]. split; [auto|]. split; [done|]. auto.
Qed.

(** A server that refuses an association is understood: the client's connect fails
    with the refusal, reason 2 and the server's user data. *)
Theorem association_refused (client : T) calling called ud ud' :
  1 + 3 + (1 + zlen ud') + 3 ≤ 65535 →
  ∃ resp,
    (∀ server : T, ready server →
       ∃ s', refuse server ud' = Ok s' ∧ ∀ ys, outbox server ys → outbox s' (ys ++ [resp])) ∧
    (∀ xs, ready client → inbox client (resp :: xs) →
       connect_client client calling called ud = Err (OsiRefused REASON_USER_DATA ud')).
Proof using TL.
  intros Hl. pose proof (zlen_nonneg ud').
  set (ps := [(PI_TRANSPORT_DISC, [0x01]); (PI_REASON_CODE, REASON_USER_DATA :: ud')]).
  assert (zlen (pis ps) ≤ 65535) as Hfit.
  { unfold ps, pis. cbn [map concat fst snd]. unfold write_pi. rewrite !zlen_app, !zlen_append_len.
    repeat case_decide; zlen. }
  exists (spdu SI_REFUSE (pis ps)). split.
  - intros server Hr. unfold refuse.
    replace (write_pi PI_TRANSPORT_DISC [1] ++ write_pi PI_REASON_CODE (REASON_USER_DATA :: ud')) with (pis ps)
      by (unfold ps, pis; cbn [map concat fst snd]; by rewrite app_nil_r).
    destruct (send_law server (spdu SI_REFUSE (pis ps)) Hr) as (s' & -> & _ & Ho & _). eauto.
  - intros xs Hr Hi. unfold connect_client.
    destruct (send_law client (build_connect SI_CONNECT calling called ud) Hr) as (c1 & -> & _ & _ & Hi1).
    cbn [mbind outcome_bind]. destruct (recv_law _ _ _ (Hi1 _ Hi)) as (c2 & -> & _). cbn [mbind outcome_bind].
    rewrite decide_True by done. rewrite spdu_params_at by done. cbn [mbind outcome_bind].
    rewrite find_param_pis by (by apply pis_ok_fits || (pose proof (length_pis ps); lia)). done.
Qed.

(** The data-phase messages of a list, sent and received. *)
Fixpoint send_all (t : T) (us : list (list Z)) : outcome OsiError T :=
  match us with [] => Ok t | u :: us => t ← send_data t u; send_all t us end.

Fixpoint receive_all (n : nat) (t : T) : outcome OsiError (list (list Z) * T) :=
  match n with
  | O => Ok ([], t)
  | S n => '(u, t) ← receive_data t; '(us, t) ← receive_all n t; Ok (u :: us, t)
  end.

Definition data_tsdu (u : list Z) : list Z := [SI_GIVE_TOKENS; 0x00] ++ [SI_DATA_TRANSFER; 0x00] ++ u.

Lemma strip_data_tsdu u : strip_data_prefix (data_tsdu u) = Ok u.
Proof.
  unfold strip_data_prefix, data_tsdu. cbn [app strip_prefix].
  rewrite decide_False by zlen. idx_known. rewrite decide_False by auto. rewrite decide_False by zlen.
  rewrite (slice_from_app [1; 0] ([1; 0] ++ u)) by done. cbn [mbind outcome_bind app].
  rewrite decide_False by zlen. idx_known. rewrite decide_False by auto. rewrite decide_False by zlen.
  by rewrite (slice_from_app [1; 0] u) by done.
Qed.

Lemma send_all_outbox us t :
  ready t → ∃ t', send_all t us = Ok t' ∧ ready t' ∧
    ∀ ys, outbox t ys → outbox t' (ys ++ map data_tsdu us).
Proof using TL.
  revert t. induction us as [|u us IH]; intros t Hr.
  { exists t. split; [done|]. split; [done|]. intros ys. by rewrite app_nil_r. }
  cbn [send_all]. destruct (send_law t (data_tsdu u) Hr) as (t1 & Hs & Hr1 & Ho & _).
  unfold send_data. fold (data_tsdu u). rewrite Hs. cbn [mbind outcome_bind].
  destruct (IH t1 Hr1) as (t2 & -> & Hr2 & Ho2). exists t2. split; [done|]. split; [done|].
  intros ys Hys. apply Ho, Ho2 in Hys. by rewrite <- app_assoc in Hys.
Qed.

Lemma receive_all_inbox us t rest :
  inbox t (map data_tsdu us ++ rest) → ∃ t', receive_all (length us) t = Ok (us, t') ∧ inbox t' rest.
Proof using TL.
  revert t. induction us as [|u us IH]; intros t Hi; [by exists t|].
  cbn [map app length receive_all] in *. destruct (recv_law _ _ _ Hi) as (t1 & Hrecv & Hi1 & _).
  unfold receive_data. rewrite Hrecv. cbn [mbind outcome_bind]. rewrite decide_False by done.
  rewrite strip_data_tsdu. cbn [mbind outcome_bind].
  destruct (IH t1 Hi1) as (t2 & -> & Hi2). by exists t2.
Qed.

Lemma session_transparent (t : T) us ud :
  ready t → outbox t [] → zlen ud ≤ 60000 →
  ∃ t1 t2, send_all t us = Ok t1 ∧ abort t1 ud = Ok t2 ∧
    ∀ r, (∀ xs, outbox t2 xs → inbox r xs) →
      ∃ r1, receive_all (length us) r = Ok (us, r1) ∧ receive_data r1 = Err (OsiAborted ud).
Proof using TL.
  intros Hr Ho Hud. destruct (send_all_outbox us t Hr) as (t1 & Hs & Hr1 & Ho1).
  set (ps := [(PI_TRANSPORT_DISC, [0x0b]); (PGI_USER_DATA, ud)]).
  assert (pis ps = write_pi PI_TRANSPORT_DISC [0x0b] ++ write_pi PGI_USER_DATA ud) as Hps
    by (unfold ps, pis; cbn [map concat fst snd]; by rewrite app_nil_r).
  assert (zlen (pis ps) ≤ 65535) as Hfit.
  { rewrite Hps. unfold write_pi. rewrite !zlen_app, !zlen_append_len. repeat case_decide; zlen. }
  destruct (send_law t1 (spdu SI_ABORT (pis ps)) Hr1) as (t2 & Ha & _ & Ho2 & _).
  exists t1, t2. split; [done|]. split; [unfold abort; by rewrite <- Hps|].
  intros r Hlink. specialize (Hlink _ (Ho2 _ (Ho1 _ Ho))). simpl in Hlink.
  apply receive_all_inbox in Hlink as (r1 & -> & Hi). exists r1. split; [done|].
  destruct (recv_law _ _ _ Hi) as (r2 & Hrecv & _). unfold receive_data. rewrite Hrecv.
  cbn [mbind outcome_bind]. rewrite decide_True by done. unfold abort_user_data.
  rewrite spdu_params_at by done.
  rewrite find_user_data_pis by (by apply pis_ok_fits || (pose proof (length_pis ps); lia)). done.
Qed.

(** The data phase is transparent: messages of any content and length, sent in
    sequence over a transport, are received at the other end as they were sent, in
    order; and an abort after them is received as an abort with its user data. *)
Theorem data_phase (t : T) us ud :
  ready t → outbox t [] → zlen ud ≤ 60000 →
  ∃ t1 t2, send_all t us = Ok t1 ∧ abort t1 ud = Ok t2 ∧
    ∀ r, (∀ xs, outbox t2 xs → inbox r xs) →
      ∃ r1, receive_all (length us) r = Ok (us, r1) ∧ receive_data r1 = Err (OsiAborted ud).
Proof using TL. apply session_transparent. Qed.

End Associations.

Lemma association_opens_witness :
  let req := build_connect SI_CONNECT [0; 1] [0; 1] [49; 0] in
  let resp := build_connect SI_ACCEPT [] [0; 1] [49; 1] in
  (∀ xs, ready (idle_conn 1024) → inbox (idle_conn 1024) (req :: xs) →
     ∃ s1 s2, accept_server (idle_conn 1024) = Ok (mkAcceptResult [49; 0] (Some [0; 1]) (Some [0; 1]), s1) ∧
       reply s1 [0; 1] [49; 1] = Ok s2 ∧ ready s2 ∧ inbox s2 xs ∧
       ∀ ys, outbox (idle_conn 1024) ys → outbox s2 (ys ++ [resp])) ∧
  (∀ xs, ready (idle_conn 1024) → inbox (idle_conn 1024) (resp :: xs) →
     ∃ c, connect_client (idle_conn 1024) [0; 1] [0; 1] [49; 0] = Ok ([49; 1], c) ∧ ready c ∧ inbox c xs ∧
       ∀ ys, outbox (idle_conn 1024) ys → outbox c (ys ++ [req])).
Proof. by apply (association_opens (idle_conn 1024) (idle_conn 1024) [0; 1] [0; 1] [49; 0] [0; 1] [49; 1]). Defined.

Lemma association_refused_witness :
  ∃ resp,
    (∀ server : Conn, ready server →
       ∃ s', refuse server [1; 2] = Ok s' ∧ ∀ ys, outbox server ys → outbox s' (ys ++ [resp])) ∧
    (∀ xs, ready (idle_conn 1024) → inbox (idle_conn 1024) (resp :: xs) →
       connect_client (idle_conn 1024) [] [] [9] = Err (OsiRefused REASON_USER_DATA [1; 2])).
Proof. by apply (association_refused (idle_conn 1024) [] [] [9] [1; 2]). Defined.

Lemma data_phase_witness :
  ∃ t1 t2, send_all (idle_conn 7) [[97; 3; 1]; []; [1; 0; 1; 0; 5]] = Ok t1 ∧ abort t1 [100] = Ok t2 ∧
    ∀ r : Conn, (∀ xs, outbox t2 xs → inbox r xs) →
      ∃ r1, receive_all 3 r = Ok ([[97; 3; 1]; []; [1; 0; 1; 0; 5]], r1) ∧
            receive_data r1 = Err (OsiAborted [100]).
Proof.
  apply (data_phase (idle_conn 7) [[97; 3; 1]; []; [1; 0; 1; 0; 5]] [100]).
  - by split; vm_compute.
  - exists []. split; [by apply Forall2_nil | done].
  - by vm_compute.
Defined.

(** ** No panic *)

Lemma read_len_range b n k :
  octets b → read_len b = Some (n, k) → 0 ≤ n ∧ (k = 1 ∨ k = 3) ∧ k ≤ zlen b.
Proof.
  intros Ho. destruct b as [|n0 rest]; [done|]. apply octets_cons in Ho as [[H0 _] Ho]. cbn [read_len].
  case_decide.
  - destruct rest as [|hi [|lo rest]]; [done..|]. apply octets_cons in Ho as [[Hhi _] [[Hlo _] _]%octets_cons].
    intros [= <- <-]. split; [apply Z.lor_nonneg; split; [by apply Z.shiftl_nonneg | done]|]. split; [by right|zlen].
  - intros [= <- <-]. split; [done|]. split; [by left | zlen].
Qed.

Lemma find_param_settled fuel params code :
  octets params → zlen params < Z.of_nat fuel → settled (find_param fuel params code).
Proof.
  revert params. induction fuel as [|fuel IH]; intros params Ho Hf; [zlen|].
  cbn [find_param]. destruct (decide (2 ≤ zlen params)) as [H2|]; [|done].
  rewrite slice_from_Ok by lia. cbn [mbind outcome_bind].
  destruct (read_len _) as [[plen n]|] eqn:Hr; [|done].
  apply read_len_range in Hr as (Hp & Hn & _); [|by apply octets_drop].
  case_decide as Hlen; [done|]. destruct params as [|c rest]; [zlen|].
  change (idx (E:=OsiError) (c :: rest) 0) with (Ok (E:=OsiError) c). cbn [mbind outcome_bind].
  case_decide; [by rewrite slice_Ok by lia|].
  rewrite (slice_from_Ok _ (1 + n + plen)) by lia. cbn [mbind outcome_bind].
  apply IH; [by apply octets_drop | rewrite zlen_drop; lia].
Qed.

Lemma find_user_data_settled fuel params :
  octets params → zlen params < Z.of_nat fuel → settled (find_user_data fuel params).
Proof.
  revert params. induction fuel as [|fuel IH]; intros params Ho Hf; [zlen|].
  cbn [find_user_data]. destruct (decide (2 ≤ zlen params)) as [H2|]; [|done].
  destruct params as [|c rest]; [zlen|].
  change (idx (E:=OsiError) (c :: rest) 0) with (Ok (E:=OsiError) c). cbn [mbind outcome_bind].
  rewrite slice_from_Ok by lia. cbn [mbind outcome_bind].
  destruct (read_len _) as [[plen n]|] eqn:Hr; [|done].
  apply read_len_range in Hr as (Hp & Hn & _); [|by apply octets_drop].
  case_decide as Hlen; [done|]. case_decide; [by rewrite slice_Ok by lia|].
  rewrite (slice_from_Ok _ (1 + n + plen)) by lia. cbn [mbind outcome_bind].
  apply IH; [by apply octets_drop | rewrite zlen_drop; lia].
Qed.

Lemma spdu_params_returns tsdu : octets tsdu → returns octets (spdu_params tsdu).
Proof.
  intros Ho. unfold spdu_params. destruct (decide (zlen tsdu < 2)) as [|H2]; [done|].
  rewrite slice_from_Ok by lia. cbn [mbind outcome_bind].
  destruct (read_len _) as [[li n]|] eqn:Hr; [|done].
  apply read_len_range in Hr as (Hp & Hn & _); [|by apply octets_drop].
  case_decide; [done|]. rewrite slice_Ok by lia. by apply octets_take, octets_drop.
Qed.

Lemma strip_prefix_settled n tsdu : octets tsdu → settled (strip_prefix n tsdu).
Proof.
  revert tsdu. induction n as [|n IH]; intros tsdu Ho; [done|]. cbn [strip_prefix].
  destruct (decide (zlen tsdu < 2)); [done|]. destruct tsdu as [|r0 [|li rest]]; [zlen..|].
  change (idx (E:=OsiError) (r0 :: li :: rest) 0) with (Ok (E:=OsiError) r0).
  change (idx (E:=OsiError) (r0 :: li :: rest) 1) with (Ok (E:=OsiError) li). cbn [mbind outcome_bind].
  case_decide; [done|]. apply octets_cons in Ho as Ho'. destruct Ho' as [_ [[Hli _] _]%octets_cons].
  case_decide; [done|]. rewrite slice_from_Ok by lia. cbn [mbind outcome_bind]. by apply IH, octets_drop.
Qed.

(** No TSDU makes the session layer panic or loop: parsing a CONNECT or ACCEPT,
    looking up any parameter, reading an ABORT and stripping the data prefix return a
    value or an error on every sequence of octets. *)
Theorem session_safe tsdu code :
  octets tsdu →
  settled (parse_connect_like tsdu) ∧ settled (abort_user_data tsdu) ∧ settled (strip_data_prefix tsdu) ∧
  settled (p ← spdu_params tsdu; find_param (S (length p)) p code).
Proof.
  intros Ho. pose proof (spdu_params_returns tsdu Ho) as Hp.
  split; [|split; [|split; [by apply strip_prefix_settled|]]].
  - unfold parse_connect_like. destruct tsdu as [|x tsdu]; [done|].
    apply (returns_settled (λ _, True)). eapply returns_bind; [exact Hp|].
    intros p Hpo. eapply (returns_bind (λ _, True)).
    + apply returns_intro; [apply find_user_data_settled; [done | unfold zlen; lia] | done].
    + by intros ud _.
  - unfold abort_user_data. destruct (spdu_params tsdu) as [p| | |]; try done. simpl in Hp.
    pose proof (find_user_data_settled (S (length p)) p Hp ltac:(unfold zlen; lia)) as Hf.
    by destruct (find_user_data _ _) as [[]| | |].
  - apply settled_bind; [by apply returns_settled in Hp|]. intros p E. rewrite E in Hp. simpl in Hp.
    apply find_param_settled; [done | unfold zlen; lia].
Qed.

Lemma session_safe_witness :
  settled (parse_connect_like [13; 4; 193; 255; 1; 0]) ∧ settled (abort_user_data [13; 4; 193; 255; 1; 0]) ∧
  settled (strip_data_prefix [13; 4; 193; 255; 1; 0]) ∧
  settled (p ← spdu_params [13; 4; 193; 255; 1; 0]; find_param (S (length p)) p PI_CALLED_SSEL).
Proof.
  apply (session_safe [13; 4; 193; 255; 1; 0] PI_CALLED_SSEL). apply (bool_decide_eq_true_1 _).
  vm_compute. reflexivity.
Defined.
