(* ===== verification/Presentation.v ===== *)
(** The presentation protocol of the MMS profile (src/src/osi/presentation.rs):
    the CP, CPA, CPR and ARU PDUs, the negotiation of presentation contexts, and
    the wrapping of the data phase. *)

From stdpp Require Import pretty.
From S2P Require Import Prelude Ber BerDecoder BerPrim Errors MmsCodec BerFields.
Local Open Scope string_scope.
Local Open Scope list_scope.
Local Open Scope Z_scope.

Definition CONTEXT_ACSE : Z := 1.
Definition CONTEXT_MMS : Z := 3.

Definition oid_acse : list Z := [2; 2; 1; 0; 1].
Definition oid_mms : list Z := [1; 0; 9506; 2; 1].
Definition oid_ber : list Z := [2; 1; 1].

Record Context := mkContext {
  cx_id : Z;
  cx_abstract : option (list Z);
  cx_transfer : option (list Z);
}.

Definition Context_default : Context := mkContext 0 None None.

Definition is_acse (c : Context) : bool := bool_decide (cx_abstract c = Some oid_acse).
Definition is_mms (c : Context) : bool := bool_decide (cx_abstract c = Some oid_mms).
Definition ber (c : Context) : bool := bool_decide (cx_transfer c = Some oid_ber).
Definition acceptable (c : Context) : bool := (is_acse c || is_mms c) && ber c.

Record Negotiated := mkNeg {
  neg_acse : Z;
  neg_mms : Z;
}.

Definition has_acse (n : Negotiated) : bool := bool_decide (neg_acse n ≠ 0).
Definition has_mms (n : Negotiated) : bool := bool_decide (neg_mms n ≠ 0).

Definition negotiate (proposed : list Context) : Negotiated :=
  fold_left (λ neg c,
    if negb (acceptable c) then neg
    else if is_acse c then mkNeg (cx_id c) (neg_mms neg)
    else if is_mms c then mkNeg (neg_acse neg) (cx_id c)
    else neg) proposed (mkNeg 0 0).

Inductive ContextResult :=
| Acceptance
| ProviderRejection
| AbstractSyntaxNotSupported.

Definition ContextResult_code (r : ContextResult) : Z :=
  match r with Acceptance => 0 | ProviderRejection => 1 | AbstractSyntaxNotSupported => 2 end.

Definition DEFAULT_CALLING_PSEL : list Z := [0; 0; 0; 1].
Definition DEFAULT_CALLED_PSEL : list Z := [0; 0; 0; 1].

(** ** Building *)

Definition mode_selector : Element := cons_elem (context_constructed 0) [int_elem (context_primitive 0) 1].

Definition context_entry {E} (id : Z) (abstract_syntax : list Z) : outcome E Element :=
  a ← oid_elem TAG_OID abstract_syntax;
  t ← oid_elem TAG_OID oid_ber;
  Ok (cons_elem TAG_SEQUENCE [int_elem TAG_INTEGER id; a; cons_elem TAG_SEQUENCE [t]]).

Definition context_result {E} (result : ContextResult) : outcome E Element :=
  let e := cons_elem TAG_SEQUENCE [int_elem (context_primitive 0) (ContextResult_code result)] in
  match result with
  | Acceptance => t ← oid_elem (context_primitive 1) oid_ber; Ok (Element_push e t)
  | _ => Ok e
  end.

Fixpoint result_list_loop {E} (proposed : list Context) (results : Element) : outcome E Element :=
  match proposed with
  | [] => Ok results
  | c :: proposed =>
      r ← context_result (if acceptable c then Acceptance else ProviderRejection);
      result_list_loop proposed (Element_push results r)
  end.

Definition result_list {E} (proposed : list Context) : outcome E Element :=
  result_list_loop proposed (Element_seq (context_constructed 5)).

Definition user_data (context_id : Z) (payload : list Z) : Element :=
  let pdv :=
    cons_elem TAG_SEQUENCE
      [int_elem TAG_INTEGER context_id; raw_content (context_constructed 0) payload] in
  cons_elem (application_constructed 1) [pdv].

Definition build_cp {E} (calling_psel called_psel acse_data : list Z) : outcome E (list Z) :=
  let normal := Element_seq (context_constructed 2) in
  let normal :=
    if decide (calling_psel = []) then normal else Element_push normal (prim (context_primitive 1) calling_psel) in
  let normal :=
    if decide (called_psel = []) then normal else Element_push normal (prim (context_primitive 2) called_psel) in
  acse ← context_entry CONTEXT_ACSE oid_acse;
  mms ← context_entry CONTEXT_MMS oid_mms;
  let normal := Element_push normal (cons_elem (context_constructed 4) [acse; mms]) in
  let normal := Element_push normal (user_data CONTEXT_ACSE acse_data) in
  Ok (Element_encode (cons_elem TAG_SET [mode_selector; normal])).

Definition acse_context_or_default (neg : Negotiated) : Z :=
  if decide (neg_acse neg = 0) then CONTEXT_ACSE else neg_acse neg.

Definition build_cpa {E} (responding_psel : list Z) (proposed : list Context) (acse_data : list Z)
    : outcome E (Negotiated * list Z) :=
  let neg := negotiate proposed in
  let normal := Element_seq (context_constructed 2) in
  let normal :=
    if decide (responding_psel = []) then normal
    else Element_push normal (prim (context_primitive 3) responding_psel) in
  results ← result_list proposed;
  let normal := Element_push normal results in
  let normal := Element_push normal (user_data (acse_context_or_default neg) acse_data) in
  Ok (neg, Element_encode (cons_elem TAG_SET [mode_selector; normal])).

Definition build_cpr {E} (responding_psel : list Z) (proposed : list Context) (acse_data : list Z)
    : outcome E (list Z) :=
  let neg := negotiate proposed in
  let seq := Element_seq TAG_SEQUENCE in
  let seq :=
    if decide (responding_psel = []) then seq else Element_push seq (prim (context_primitive 3) responding_psel) in
  results ← result_list proposed;
  let seq := Element_push seq results in
  let seq := Element_push seq (user_data (acse_context_or_default neg) acse_data) in
  Ok (Element_encode seq).

Definition wrap_abort (acse_context_id : Z) (abrt : list Z) : list Z :=
  let id := if decide (acse_context_id = 0) then CONTEXT_ACSE else acse_context_id in
  Element_encode (cons_elem (context_constructed 0) [user_data id abrt]).

Definition wrap_data (context_id : Z) (mms_pdu : list Z) : list Z :=
  let id := if decide (context_id = 0) then CONTEXT_MMS else context_id in
  Element_encode (user_data id mms_pdu).

(** ** Parsing *)

Definition parse_pdv_list (content : list Z) : outcome OsiError (Z * list Z) :=
  '(seq, _) ← map_err OsiAsn1 (expect (Decoder_new content) TAG_SEQUENCE);
  fell
    (each_field (raise OsiAsn1) (λ (context_id : Z) tag c,
       if decide (tag = TAG_INTEGER) then n ← map_err OsiAsn1 (decode_int c); Ok (inl n)
       else if decide (tag = context_constructed 0) then Ok (inr (context_id, c))
       else if decide (tag = context_primitive 1) then Ok (inr (context_id, c))
       else Ok (inl context_id)) seq 0)
    (λ _, Err (OsiPresentation "no data values in PDV-list")).

Definition parse_user_data (pdu : list Z) : outcome OsiError (Z * list Z) :=
  '((tag, content), _) ← map_err OsiAsn1 (read_tlv (Decoder_new pdu));
  if decide (tag ≠ application_constructed 1) then
    Err (OsiPresentation ("expected fully-encoded-data, got " +:+ Tag_display tag))
  else parse_pdv_list content.

Definition unwrap_data (pdu : list Z) : outcome OsiError (list Z) :=
  '(_, d) ← parse_user_data pdu; Ok d.

Definition find_fully_encoded (content : list Z) : outcome OsiError (list Z) :=
  fell
    (each_field (raise OsiAsn1) (λ (s : unit) t c,
       if decide (t = application_constructed 1) then '(_, d) ← parse_pdv_list c; Ok (inr d) else Ok (inl s))
       content ())
    (λ _, Err (OsiPresentation "no user data")).

Definition parse_cpr_user_data (pdu : list Z) : outcome OsiError (list Z) :=
  '(seq, _) ← map_err (λ e, OsiPresentation ("CPR not a SEQUENCE: " +:+ Asn1Error_display e))
    (expect (Decoder_new pdu) TAG_SEQUENCE);
  find_fully_encoded seq.

Definition unwrap_abort (pdu : list Z) : outcome OsiError (list Z) :=
  '((tag, content), _) ← map_err OsiAsn1 (read_tlv (Decoder_new pdu));
  if decide (tag ≠ context_constructed 0 ∧ tag ≠ TAG_SEQUENCE) then
    Err (OsiPresentation ("ARU of tag " +:+ Tag_display tag))
  else find_fully_encoded content.

(** The transfer syntaxes of an entry: the last that decodes. *)
Definition transfer_names {E} (v : list Z) (c : Context) : outcome E Context :=
  whole
    (each_field leave (λ c ot ov,
       if decide (ot = TAG_OID) then
         o ← ok (decode_oid ov);
         Ok (inl (match o with Some oid => mkContext (cx_id c) (cx_abstract c) (Some oid) | None => c end))
       else Ok (inl c)) v c).

(** One entry; [None] ends the list. *)
Definition parse_context {E} (body : list Z) : outcome E (option Context) :=
  fell
    (each_field (λ _ _, Ok (inr None)) (λ (c : Context) t v,
       if decide (t = TAG_INTEGER) then
         n ← ok (decode_int v);
         Ok (inl (match n with Some n => mkContext n (cx_abstract c) (cx_transfer c) | None => c end))
       else if decide (t = TAG_OID) then
         o ← ok (decode_oid v);
         match o with
         | None => Ok (inr None)
         | Some oid =>
             Ok (inl (match cx_abstract c with
                      | None => mkContext (cx_id c) (Some oid) (cx_transfer c)
                      | Some _ => mkContext (cx_id c) (cx_abstract c) (Some oid)
                      end))
         end
       else if decide (t = TAG_SEQUENCE) then c ← transfer_names v c; Ok (inl c)
       else Ok (inl c)) body Context_default)
    (λ c, Ok (Some c)).

Definition parse_context_list {E} (content : list Z) : outcome E (list Context) :=
  fell
    (each_field (λ out _, Ok (inr out)) (λ (out : list Context) tag body,
       if decide (tag ≠ TAG_SEQUENCE) then Ok (inr out)
       else
         c ← parse_context body;
         match c with
         | None => Ok (inr out)
         | Some c => Ok (inl (out ++ [c]))
         end) content [])
    (λ out, Ok out).

Record Cp := mkCp {
  cp_calling_psel : list Z;
  cp_called_psel : list Z;
  cp_contexts : list Context;
  cp_user_data : list Z;
}.

Definition Cp_default : Cp := mkCp [] [] [] [].

(** The normal-mode parameters of a CP; the flag is [have_user_data]. *)
Definition parse_normal_mode (content : list Z) (cp : Cp * bool) : outcome OsiError (Cp * bool) :=
  whole
    (each_field (raise OsiAsn1) (λ '(cp, have) t c,
       let 'mkCp calling called contexts ud := cp in
       if decide (t = context_primitive 1) then Ok (inl (mkCp c called contexts ud, have))
       else if decide (t = context_primitive 2) then Ok (inl (mkCp calling c contexts ud, have))
       else if decide (t = context_constructed 4) then
         l ← parse_context_list c;
         Ok (inl (mkCp calling called l ud, have))
       else if decide (t = application_constructed 1) then
         '(_, d) ← parse_pdv_list c;
         Ok (inl (mkCp calling called contexts d, true))
       else Ok (inl (cp, have))) content cp).

Definition not_a_set (e : Asn1Error) : OsiError := OsiPresentation ("CP not a SET: " +:+ Asn1Error_display e).

Definition parse_cp (pdu : list Z) : outcome OsiError Cp :=
  '(set_content, _) ← map_err not_a_set (expect (Decoder_new pdu) TAG_SET);
  '(cp, have_user_data) ←
    whole
      (each_field (raise OsiAsn1) (λ s tag content,
         if decide (tag ≠ context_constructed 2) then Ok (inl s)
         else s ← parse_normal_mode content s; Ok (inl s)) set_content (Cp_default, false));
  if have_user_data : bool then Ok cp else Err (OsiPresentation "no user data in CP").

Definition parse_cp_user_data (pdu : list Z) : outcome OsiError (list Z) :=
  '(set_content, _) ← map_err not_a_set (expect (Decoder_new pdu) TAG_SET);
  fell
    (each_field (raise OsiAsn1) (λ (s : unit) tag content,
       if decide (tag ≠ context_constructed 2) then Ok (inl s)
       else
         each_field (raise OsiAsn1) (λ (s : unit) t c,
           if decide (t = application_constructed 1) then '(_, d) ← parse_pdv_list c; Ok (inr d)
           else Ok (inl s)) content s) set_content ())
    (λ _, Err (OsiPresentation "no user data in CP")).

(** ** What is built is read *)

Definition pdv (id : Z) (payload : list Z) : list Z :=
  children_octets [(TAG_SEQUENCE, children_octets [(TAG_INTEGER, append_int [] id); (context_constructed 0, payload)])].

Lemma user_data_writes id payload : writes (user_data id payload) (application_constructed 1, pdv id payload).
Proof. writes. Qed.
#[export] Hint Resolve user_data_writes : writes.

Lemma parse_pdv id payload :
  in_i 64 id → zlen (pdv id payload) ≤ 2 ^ 32 → parse_pdv_list (pdv id payload) = Ok (id, payload).
Proof.
  unfold parse_pdv_list, pdv. intros Hid Hl. fields_fit Hl. rewrite dec_at_nil, expect_field by field_ok.
  cbn [map_err mbind outcome_bind]. rewrite each_field_fields by fields_ok. cbn [fold_fields]. tags.
  by rewrite decode_append_int.
Qed.

(** The contexts of a CP, as fields. *)
Definition context_fields (id : Z) (abstract_oct transfer_oct : list Z) : list (Tag * list Z) :=
  [(TAG_INTEGER, append_int [] id); (TAG_OID, abstract_oct);
   (TAG_SEQUENCE, children_octets [(TAG_OID, transfer_oct)])].

Lemma parse_context_fields {E} id a ta oa ot :
  in_i 64 id → decode_oid a = Ok oa → decode_oid ta = Ok ot →
  zlen (children_octets (context_fields id a ta)) ≤ 2 ^ 32 →
  parse_context (E:=E) (children_octets (context_fields id a ta)) = Ok (Some (mkContext id (Some oa) (Some ot))).
Proof.
  intros Hid Ha Ht Hl. unfold parse_context. unfold context_fields in *. fields_fit Hl.
  rewrite each_field_fields by fields_ok. cbn [fold_fields]. tags. rewrite decode_append_int by done. run.
  cbn [fold_fields]. tags. rewrite Ha. run. cbn [fold_fields cx_abstract Context_default]. tags. unfold transfer_names.
  rewrite each_field_fields by fields_ok. cbn [fold_fields]. tags. by rewrite Ht.
Qed.

Lemma oid_acse_wf : oid_wf oid_acse.
Proof. by repeat (split || constructor). Qed.
Lemma oid_mms_wf : oid_wf oid_mms.
Proof. by repeat (split || constructor). Qed.
Lemma oid_ber_wf : oid_wf oid_ber.
Proof. by repeat (split || constructor). Qed.

Definition offer (id : Z) (o : list Z) : list (Tag * list Z) := context_fields id (oid_octets o) (oid_octets oid_ber).

Lemma context_entry_writes {E} id o :
  oid_wf o → ∃ e, context_entry (E:=E) id o = Ok e ∧ writes e (TAG_SEQUENCE, children_octets (offer id o)).
Proof.
  intros Ho. unfold context_entry. rewrite !oid_elem_prim by (done || apply oid_ber_wf). run.
  eexists. split; [done|]. writes.
Qed.

Definition offers : list Z :=
  children_octets [(TAG_SEQUENCE, children_octets (offer CONTEXT_ACSE oid_acse));
                   (TAG_SEQUENCE, children_octets (offer CONTEXT_MMS oid_mms))].

(** The parameters of a CP. *)
Definition cp_params (calling called data : list Z) : list (Tag * list Z) :=
  opt_field (context_primitive 1) calling ++ opt_field (context_primitive 2) called ++
  [(context_constructed 4, offers);
   (application_constructed 1, pdv CONTEXT_ACSE data)].

Definition mode_field : Tag * list Z := (context_constructed 0, children_octets [(context_primitive 0, append_int [] 1)]).

Lemma mode_writes : writes mode_selector mode_field.
Proof. writes. Qed.
#[export] Hint Resolve mode_writes : writes.

Lemma build_cp_eq {E} calling called data :
  build_cp (E:=E) calling called data =
  Ok (children_octets [(TAG_SET, children_octets [mode_field; (context_constructed 2, children_octets (cp_params calling called data))])]).
Proof.
  unfold build_cp, cp_params, opt_field, offers.
  destruct (context_entry_writes (E:=E) CONTEXT_ACSE oid_acse oid_acse_wf) as (ea & -> & Ha).
  destruct (context_entry_writes (E:=E) CONTEXT_MMS oid_mms oid_mms_wf) as (em & -> & Hm). run. f_equal.
  apply writes_encode. unfold Element_seq. destruct (decide (calling = [])), (decide (called = [])).
  all: rewrite ?push_cons; cbn [app]; writes.
Qed.

Definition CONTEXTS : list Context :=
  [mkContext CONTEXT_ACSE (Some oid_acse) (Some oid_ber); mkContext CONTEXT_MMS (Some oid_mms) (Some oid_ber)].

Lemma parse_offers {E} :
  parse_context_list (E:=E) offers = Ok CONTEXTS.
Proof. vm_compute. reflexivity. Qed.

#[local] Opaque children_octets each_field parse_pdv_list parse_context_list offers.

(** The PDU of parameters [ps] in normal mode. *)
Definition normal_pdu (ps : list (Tag * list Z)) : list Z :=
  children_octets [(TAG_SET, children_octets [mode_field; (context_constructed 2, children_octets ps)])].

(** The parameters in a PDU that fits fit. *)
Lemma normal_pdu_fits ps :
  zlen (normal_pdu ps) < 2 ^ 32 →
  zlen (children_octets [mode_field; (context_constructed 2, children_octets ps)]) < 2 ^ 32 ∧
  zlen (children_octets ps) < 2 ^ 32.
Proof. intros Hl. unfold normal_pdu in Hl. fields_in Hl. fields_in H. done. Qed.

Lemma parse_cp_built calling called data :
  zlen (normal_pdu (cp_params calling called data)) < 2 ^ 32 →
  parse_cp (normal_pdu (cp_params calling called data)) = Ok (mkCp calling called CONTEXTS data).
Proof.
  intros [Hs Hps]%normal_pdu_fits. unfold parse_cp, normal_pdu. rewrite dec_at_nil, expect_field by field_ok. run.
  rewrite each_field_fields by fields_ok. unfold mode_field. round. round.
  unfold parse_normal_mode, cp_params, opt_field in *. destruct (decide (calling = [])), (decide (called = [])).
  all: cbn [app] in *; fields_in Hps; rewrite each_field_fields by fields_ok; unfold Cp_default;
    repeat round; rewrite (parse_offers (E:=OsiError)); run; round;
    rewrite parse_pdv by (done || lia); run; by subst.
Qed.

(** The results, one for each proposal in order. *)
Definition result_field (c : Context) : Tag * list Z :=
  (TAG_SEQUENCE, children_octets
    (if acceptable c then [(context_primitive 0, append_int [] 0); (context_primitive 1, oid_octets oid_ber)]
     else [(context_primitive 0, append_int [] 1)])).

Lemma context_result_writes {E} c :
  ∃ e, context_result (E:=E) (if acceptable c then Acceptance else ProviderRejection) = Ok e ∧ writes e (result_field c).
Proof.
  unfold context_result, result_field. destruct (acceptable c).
  - rewrite oid_elem_prim by apply oid_ber_wf. run. eexists. split; [done|]. rewrite push_cons. cbn [app]. writes.
  - eexists. split; [done|]. writes.
Qed.

Lemma result_list_writes {E} proposed :
  ∃ e, result_list (E:=E) proposed = Ok e ∧ writes e (context_constructed 5, children_octets (map result_field proposed)).
Proof.
  unfold result_list, Element_seq.
  assert (∀ es fs, Forall2 writes es fs → ∃ e,
    result_list_loop (E:=E) proposed (cons_elem (context_constructed 5) es) = Ok e ∧
    writes e (context_constructed 5, children_octets (fs ++ map result_field proposed))) as H; [|apply (H [] []); constructor].
  induction proposed as [|c proposed IH]; intros es fs Hes; cbn [result_list_loop].
  - eexists. split; [done|]. rewrite app_nil_r. by apply writes_cons.
  - destruct (context_result_writes (E:=E) c) as (e & -> & He). run. rewrite push_cons.
    destruct (IH (es ++ [e]) (fs ++ [result_field c])) as (e' & -> & He').
    { apply Forall2_app; [done|]. by constructor. }
    exists e'. split; [done|]. cbn [map]. by rewrite <-app_assoc in He'.
Qed.

Definition answer_params (psel : list Z) (proposed : list Context) (data : list Z) : list (Tag * list Z) :=
  opt_field (context_primitive 3) psel ++
  [(context_constructed 5, children_octets (map result_field proposed));
   (application_constructed 1, pdv (acse_context_or_default (negotiate proposed)) data)].

Lemma build_cpa_eq {E} psel proposed data :
  build_cpa (E:=E) psel proposed data = Ok (negotiate proposed, normal_pdu (answer_params psel proposed data)).
Proof.
  unfold build_cpa, answer_params, opt_field. destruct (result_list_writes (E:=E) proposed) as (e & -> & He). run.
  do 2 f_equal. apply writes_encode. unfold Element_seq. destruct (decide (psel = [])).
  all: rewrite ?push_cons; cbn [app]; writes.
Qed.

Lemma build_cpr_eq {E} psel proposed data :
  build_cpr (E:=E) psel proposed data =
  Ok (children_octets [(TAG_SEQUENCE, children_octets (answer_params psel proposed data))]).
Proof.
  unfold build_cpr, answer_params, opt_field. destruct (result_list_writes (E:=E) proposed) as (e & -> & He). run.
  f_equal. apply writes_encode. unfold Element_seq. destruct (decide (psel = [])).
  all: rewrite ?push_cons; cbn [app]; writes.
Qed.

(** The identifiers come from the wire. *)
Definition contexts_wf (proposed : list Context) : Prop := Forall (λ c, in_i 64 (cx_id c)) proposed.

Lemma negotiate_range proposed :
  contexts_wf proposed → in_i 64 (neg_acse (negotiate proposed)) ∧ in_i 64 (neg_mms (negotiate proposed)).
Proof.
  unfold negotiate. assert (in_i 64 (neg_acse (mkNeg 0 0)) ∧ in_i 64 (neg_mms (mkNeg 0 0))) as H0 by done.
  revert H0. generalize (mkNeg 0 0). intros neg H0 H. revert neg H0.
  induction H as [|c proposed Hc _ IH]; intros neg H0; [done|]. cbn [fold_left]. apply IH.
  destruct (negb _), (is_acse c), (is_mms c); try done; by split; [|apply H0] || by split; [apply H0|].
Qed.

Lemma acse_default_range proposed : contexts_wf proposed → in_i 64 (acse_context_or_default (negotiate proposed)).
Proof. intros [H _]%negotiate_range. unfold acse_context_or_default. by case_decide. Qed.

Lemma parse_cpa_built psel proposed data :
  contexts_wf proposed → zlen (normal_pdu (answer_params psel proposed data)) < 2 ^ 32 →
  parse_cp_user_data (normal_pdu (answer_params psel proposed data)) = Ok data.
Proof.
  intros Hc [Hs Hps]%normal_pdu_fits. apply acse_default_range in Hc.
  unfold parse_cp_user_data, normal_pdu. rewrite dec_at_nil, expect_field by field_ok. run.
  rewrite each_field_fields by fields_ok. unfold mode_field. round. round.
  unfold answer_params, opt_field in *. destruct (decide (psel = [])).
  all: cbn [app] in *; fields_in Hps; rewrite each_field_fields by fields_ok.
  all: repeat round; by rewrite parse_pdv by (done || lia).
Qed.

Lemma find_answer psel proposed data :
  contexts_wf proposed → zlen (children_octets (answer_params psel proposed data)) < 2 ^ 32 →
  find_fully_encoded (children_octets (answer_params psel proposed data)) = Ok data.
Proof.
  intros Hc%acse_default_range Hps. unfold find_fully_encoded. unfold answer_params, opt_field in *.
  destruct (decide (psel = [])); cbn [app] in *; fields_in Hps; rewrite each_field_fields by fields_ok.
  all: repeat round; by rewrite parse_pdv by (done || lia).
Qed.

Lemma parse_cpr_built psel proposed data pdu :
  contexts_wf proposed → build_cpr (E:=Empty_set) psel proposed data = Ok pdu → zlen pdu < 2 ^ 32 →
  parse_cpr_user_data pdu = Ok data.
Proof.
  rewrite build_cpr_eq. intros Hc [= <-] Hl. fields_in Hl. unfold parse_cpr_user_data.
  rewrite dec_at_nil, expect_field by field_ok. run. by apply find_answer.
Qed.

Lemma unwrap_wrap_data id pdu :
  in_i 64 id → zlen (wrap_data id pdu) < 2 ^ 32 → unwrap_data (wrap_data id pdu) = Ok pdu.
Proof.
  intros Hid. unfold wrap_data, unwrap_data, parse_user_data.
  rewrite (writes_encode _ _ (user_data_writes _ _)). intros Hl. fields_in Hl.
  rewrite dec_at_nil, read_field by field_ok. run. tags. rewrite parse_pdv; [done| |lia]. by case_decide.
Qed.

Lemma unwrap_wrap_abort id abrt :
  in_i 64 id → zlen (wrap_abort id abrt) < 2 ^ 32 → unwrap_abort (wrap_abort id abrt) = Ok abrt.
Proof.
  intros Hid. unfold wrap_abort, unwrap_abort. set (i := if decide _ then _ else _).
  assert (in_i 64 i) by (unfold i; by case_decide).
  assert (writes (cons_elem (context_constructed 0) [user_data i abrt])
    (context_constructed 0, children_octets [(application_constructed 1, pdv i abrt)])) as Hw by writes.
  rewrite (writes_encode _ _ Hw). intros Hl. fields_in Hl. fields_in H0.
  rewrite dec_at_nil, read_field by field_ok. run. tags. unfold find_fully_encoded.
  rewrite each_field_fields by fields_ok. round. by rewrite parse_pdv by (done || lia).
Qed.

(** ** No input panics *)

#[local] Transparent parse_pdv_list parse_context_list.

Lemma parse_pdv_returns content :
  octets content → returns (λ r, in_i 64 r.1 ∧ octets r.2) (parse_pdv_list content).
Proof.
  intros Ho. unfold parse_pdv_list. eapply reading_bind.
  { apply reading_err, reading_expect. by apply Decoder_new_wf. }
  intros seq d Hseq _. eapply (fell_returns (in_i 64)); [|done].
  apply each_field_returns; [done| |done|done]. intros n t c Hn Hc.
  case_decide. { eapply returns_bind; [apply returns_map_err, decode_int_returns, Hc|]. done. }
  case_decide; [done|]. by case_decide.
Qed.

Lemma find_returns content : octets content → returns octets (find_fully_encoded content).
Proof.
  intros Ho. eapply (fell_returns (λ _, True)); [|done]. apply each_field_returns; [done| |done|done].
  intros s t c _ Hc. case_decide; [|done]. eapply returns_bind; [by apply parse_pdv_returns|]. by intros [n d] [_ ?].
Qed.

Lemma cpr_returns pdu : octets pdu → returns octets (parse_cpr_user_data pdu).
Proof.
  intros Ho. eapply reading_bind; [apply reading_err, reading_expect; by apply Decoder_new_wf|].
  intros seq d Hseq _. by apply find_returns.
Qed.

Lemma abort_returns pdu : octets pdu → returns octets (unwrap_abort pdu).
Proof.
  intros Ho. eapply reading_bind; [apply reading_err, reading_read_tlv; by apply Decoder_new_wf|].
  intros [t c] d Hc _. case_decide; [done|]. by apply find_returns.
Qed.

Lemma unwrap_returns pdu : octets pdu → returns octets (unwrap_data pdu).
Proof.
  intros Ho. eapply (returns_bind (λ r, in_i 64 r.1 ∧ octets r.2)); [|by intros [n d] [_ ?]].
  eapply reading_bind; [apply reading_err, reading_read_tlv; by apply Decoder_new_wf|].
  intros [t c] d Hc _. case_decide; [done|]. by apply parse_pdv_returns.
Qed.

Lemma parse_context_returns {E} body :
  octets body → returns (λ o, ∀ c, o = Some c → in_i 64 (cx_id c)) (parse_context (E:=E) body).
Proof.
  intros Ho. eapply (fell_returns (λ c, in_i 64 (cx_id c))); [|by intros c Hc ? [= <-]].
  apply each_field_returns; [done| |done|done]. intros c t v Hc Hv. case_decide.
  { eapply returns_bind; [apply returns_option, decode_int_returns, Hv|]. intros [n|] Hn; [|done]. by apply Hn. }
  case_decide.
  { eapply (returns_bind (λ _, True)).
    { eapply returns_intro; [apply ok_settled, decode_oid_settled|done]. }
    intros [oid|] _; [|done]. by destruct (cx_abstract c). }
  case_decide; [|done]. eapply (returns_bind (λ c, in_i 64 (cx_id c))); [|done].
  eapply (whole_returns _ (λ _, True)). apply each_field_returns; [done| |done|done].
  intros c' t' v' Hc' Hv'. case_decide; [|done]. eapply (returns_bind (λ _, True)).
  { eapply returns_intro; [apply ok_settled, decode_oid_settled|done]. }
  by intros [oid|] _.
Qed.

Lemma parse_contexts_returns {E} content : octets content → returns contexts_wf (parse_context_list (E:=E) content).
Proof.
  intros Ho. eapply (fell_returns contexts_wf); [|done]. apply each_field_returns; [done| |done|by constructor].
  intros out t body Hout Hb. case_decide; [done|]. eapply returns_bind; [by apply parse_context_returns|].
  intros [c|] Hc; [|done]. apply Forall_app_2; [done|]. constructor; [by apply Hc|constructor].
Qed.

(** What a CP a responder decoded is made of. *)
Definition cp_wf (cp : Cp) : Prop :=
  octets (cp_calling_psel cp) ∧ octets (cp_called_psel cp) ∧ contexts_wf (cp_contexts cp) ∧ octets (cp_user_data cp).

Lemma parse_cp_returns pdu : octets pdu → returns cp_wf (parse_cp pdu).
Proof.
  intros Ho. eapply reading_bind; [apply reading_err, reading_expect; by apply Decoder_new_wf|].
  intros set d Hset _. eapply (returns_bind (λ s, cp_wf s.1)); [|by intros [cp []] ?].
  eapply (whole_returns _ (λ _, True)). apply each_field_returns; [done| |done|by repeat split; constructor].
  intros s t c Hs Hc. case_decide; [done|]. eapply (returns_bind (λ s, cp_wf s.1)); [|done].
  eapply (whole_returns _ (λ _, True)). apply each_field_returns; [done| |done|done].
  intros [[calling called contexts ud] have] t' c' (H1 & H2 & H3 & H4) Hc'. simpl in *.
  case_decide; [done|]. case_decide; [done|]. case_decide.
  { eapply returns_bind; [by apply parse_contexts_returns|]. done. }
  case_decide; [|done]. eapply returns_bind; [by apply parse_pdv_returns|]. by intros [n x] [_ ?].
Qed.

Lemma parse_cpa_returns pdu : octets pdu → returns octets (parse_cp_user_data pdu).
Proof.
  intros Ho. eapply reading_bind; [apply reading_err, reading_expect; by apply Decoder_new_wf|].
  intros set d Hset _. eapply (fell_returns (λ _, True)); [|done]. apply each_field_returns; [done| |done|done].
  intros s t c _ Hc. case_decide; [done|]. apply each_field_returns; [done| |done|done].
  intros s' t' c' _ Hc'. case_decide; [|done]. eapply returns_bind; [by apply parse_pdv_returns|]. by intros [n x] [_ ?].
Qed.
