(* ===== verification/Acse.v ===== *)
(** The association control of the MMS profile (src/src/osi/acse.rs): the AARQ,
    AARE, RLRQ, RLRE and ABRT APDUs. *)

From S2P Require Import Prelude Ber BerDecoder BerPrim Utf8 Errors MmsCodec BerFields.
Local Open Scope string_scope.
Local Open Scope list_scope.
Local Open Scope Z_scope.

Definition tag_aarq : Tag := application_constructed 0.
Definition tag_aare : Tag := application_constructed 1.
Definition tag_rlrq : Tag := application_constructed 2.
Definition tag_rlre : Tag := application_constructed 3.
Definition tag_abrt : Tag := application_constructed 4.
Definition tag_external : Tag := Tag_new Universal true 8.

Definition oid_mms_context : list Z := [1; 0; 9506; 2; 3].
Definition oid_acsi_context : list Z := [1; 0; 61850; 4; 0; 2].

Inductive ApplicationContext :=
| Mms
| Acsi.

Definition ApplicationContext_oid (a : ApplicationContext) : list Z :=
  match a with Mms => oid_mms_context | Acsi => oid_acsi_context end.

Definition known_application_context (oid : option (list Z)) : bool :=
  match oid with
  | Some o => bool_decide (o = oid_mms_context) || bool_decide (o = oid_acsi_context)
  | None => false
  end.

Definition password_mechanism : list Z := [2; 2; 3; 1].

Definition DIAG_NO_REASON : Z := 1.
Definition DIAG_AUTH_MECHANISM_NOT_RECOGNISED : Z := 11.

Definition ABORT_SOURCE_USER : Z := 0.
Definition ABORT_SOURCE_PROVIDER : Z := 1.
Definition PRESENTATION_CONTEXT_MMS : Z := 3.

Record Identity := mkIdentity {
  id_ap_title : option (list Z);
  id_ae_qualifier : option Z;
  id_ap_invocation : option Z;
  id_ae_invocation : option Z;
}.

Definition Identity_default : Identity := mkIdentity None None None None.

Definition Identity_is_empty (i : Identity) : bool :=
  bool_decide (id_ap_title i = None) && bool_decide (id_ae_qualifier i = None) &&
  bool_decide (id_ap_invocation i = None) && bool_decide (id_ae_invocation i = None).

(** ** Building *)

Definition add_identity {E} (seq : Element) (base : Z) (i : Identity) : outcome E Element :=
  seq ←
    match id_ap_title i with
    | Some oid => e ← oid_elem TAG_OID oid; Ok (Element_push seq (cons_elem (context_constructed base) [e]))
    | None => Ok seq
    end;
  let add seq n (v : option Z) :=
    match v with
    | Some v => Element_push seq (cons_elem (context_constructed (base + n)) [int_elem TAG_INTEGER v])
    | None => seq
    end in
  Ok (add (add (add seq 1 (id_ae_qualifier i)) 2 (id_ap_invocation i)) 3 (id_ae_invocation i)).

Definition external (mms_pdu : list Z) (context_id : Z) : Element :=
  cons_elem tag_external [int_elem TAG_INTEGER context_id; raw_content (context_constructed 0) mms_pdu].

Definition aarq_for {E} (mms_initiate password : list Z) (called calling : Identity) (app_ctx : ApplicationContext)
    : outcome E (list Z) :=
  o ← oid_elem TAG_OID (ApplicationContext_oid app_ctx);
  let seq := cons_elem tag_aarq [cons_elem (context_constructed 1) [o]] in
  seq ← add_identity seq 2 called;
  seq ← add_identity seq 6 calling;
  seq ←
    (if decide (password = []) then Ok seq
     else
       bs ← BitString_set_bit (BitString_new 1) 0 true;
       b ← bit_string_elem (context_primitive 10) bs;
       m ← oid_elem (context_primitive 11) password_mechanism;
       Ok (Element_push (Element_push (Element_push seq b) m)
             (cons_elem (context_constructed 12) [prim (context_primitive 0) password])));
  Ok (Element_encode
        (Element_push seq (cons_elem (context_constructed 30) [external mms_initiate PRESENTATION_CONTEXT_MMS]))).

Definition aarq_with_identity {E} (mms_initiate password : list Z) (called calling : Identity) : outcome E (list Z) :=
  aarq_for mms_initiate password called calling Mms.

Definition aarq {E} (mms_initiate password : list Z) : outcome E (list Z) :=
  aarq_with_identity mms_initiate password Identity_default Identity_default.

(** The context an answer names. *)
Definition echoed (proposed : option (list Z)) : list Z :=
  match proposed with
  | Some o => if known_application_context (Some o) then o else oid_mms_context
  | None => oid_mms_context
  end.

(** The result and its diagnostic. *)
Definition result_of (result diagnostic : Z) : list Element :=
  [cons_elem (context_constructed 2) [int_elem TAG_INTEGER result];
   cons_elem (context_constructed 3) [cons_elem (context_constructed 1) [int_elem TAG_INTEGER diagnostic]]].

Definition aare_for {E} (mms_initiate_resp : list Z) (responding : Identity) (proposed : option (list Z))
    (mms_context_id : Z) : outcome E (list Z) :=
  let mms_context_id := if decide (mms_context_id = 0) then PRESENTATION_CONTEXT_MMS else mms_context_id in
  o ← oid_elem TAG_OID (echoed proposed);
  let seq := cons_elem tag_aare (cons_elem (context_constructed 1) [o] :: result_of 0 0) in
  seq ← add_identity seq 4 responding;
  Ok (Element_encode
        (Element_push seq (cons_elem (context_constructed 30) [external mms_initiate_resp mms_context_id]))).

Definition aare_with_identity {E} (mms_initiate_resp : list Z) (responding : Identity) : outcome E (list Z) :=
  aare_for mms_initiate_resp responding None 0.

Definition aare {E} (mms_initiate_resp : list Z) : outcome E (list Z) :=
  aare_with_identity mms_initiate_resp Identity_default.

Definition aare_reject_for {E} (proposed : option (list Z)) (diagnostic : Z) : outcome E (list Z) :=
  o ← oid_elem TAG_OID (echoed proposed);
  Ok (Element_encode (cons_elem tag_aare (cons_elem (context_constructed 1) [o] :: result_of 1 diagnostic))).

Definition aare_reject {E} (diagnostic : Z) : outcome E (list Z) := aare_reject_for None diagnostic.

Definition rlrq : list Z := Element_encode (cons_elem tag_rlrq []).
Definition rlre : list Z := Element_encode (cons_elem tag_rlre []).
Definition abrt (source : Z) : list Z := Element_encode (cons_elem tag_abrt [int_elem (context_primitive 0) source]).

(** ** Parsing *)

Definition parse_abrt (apdu : list Z) : outcome OsiError Z :=
  '(content, _) ← map_err (λ e, OsiAcse ("not an ABRT: " +:+ Asn1Error_display e)) (expect (Decoder_new apdu) tag_abrt);
  '(src, _) ← map_err OsiAsn1 (optional (Decoder_new content) (context_primitive 0));
  match src with
  | Some src => map_err OsiAsn1 (decode_int src)
  | None => Ok ABORT_SOURCE_USER
  end.

Definition first_oid {E} (content : list Z) : outcome E (option (list Z)) :=
  c ← ok (expect (Decoder_new content) TAG_OID);
  match c with
  | Some (c, _) => ok (decode_oid c)
  | None => Ok None
  end.

Definition first_int {E} (content : list Z) : outcome E (list Z) :=
  let dec := Decoder_new content in
  if peek_is dec TAG_INTEGER then
    c ← ok (expect dec TAG_INTEGER);
    Ok (match c with Some (c, _) => c | None => content end)
  else Ok content.

(** [decode_int(first_int(content)).ok()]. *)
Definition wrapped_int {E} (content : list Z) : outcome E (option Z) :=
  c ← first_int content; ok (decode_int c).

Definition i32 (n : Z) : Z := swrap 32 n.

(** Whether the tag belonged to the block, and the identity read so far. *)
Definition parse_identity {E} (tag : Tag) (content : list Z) (base : Z) (i : Identity) : outcome E (bool * Identity) :=
  let 'mkIdentity title qual ap ae := i in
  if decide (tag = context_constructed base) then
    o ← first_oid content;
    Ok (true, match o with Some oid => mkIdentity (Some oid) qual ap ae | None => i end)
  else if decide (tag = context_constructed (base + 1)) then
    n ← wrapped_int content;
    Ok (true, match n with Some n => mkIdentity title (Some (i32 n)) ap ae | None => i end)
  else if decide (tag = context_constructed (base + 2)) then
    n ← wrapped_int content;
    Ok (true, match n with Some n => mkIdentity title qual (Some (i32 n)) ae | None => i end)
  else if decide (tag = context_constructed (base + 3)) then
    n ← wrapped_int content;
    Ok (true, match n with Some n => mkIdentity title qual ap (Some (i32 n)) | None => i end)
  else Ok (false, i).

Definition parse_user_info (content : list Z) : outcome OsiError (list Z) :=
  '(ext, _) ← map_err (λ e, OsiAcse ("user-info not EXTERNAL: " +:+ Asn1Error_display e))
    (expect (Decoder_new content) tag_external);
  fell
    (each_field (raise OsiAsn1) (λ (s : unit) tag c,
       if decide (tag = context_constructed 0 ∨ tag = context_primitive 1) then Ok (inr c) else Ok (inl s)) ext ())
    (λ _, Err (OsiAcse "EXTERNAL has no encoding")).

Definition parse_diagnostic {E} (content : list Z) : outcome E Z :=
  fell
    (each_field (λ _ _, Ok (inr 0)) (λ (s : unit) _ c,
       n ← wrapped_int c;
       Ok (match n with Some n => inr n | None => inl s end)) content ())
    (λ _, Ok 0).

Record AareResult := mkAare {
  aare_accepted : bool;
  aare_diagnostic : Z;
  aare_user_data : list Z;
  aare_responding : Identity;
}.

(** One element of the APDU. *)
Definition aare_round (res : AareResult) (tag : Tag) (c : list Z) : outcome OsiError (AareResult + Empty_set) :=
  let 'mkAare accepted diagnostic ud responding := res in
  '(found, responding) ← parse_identity tag c 4 responding;
  let res := mkAare accepted diagnostic ud responding in
  if found : bool then Ok (inl res)
  else if decide (tag = context_constructed 2) then
    n ← wrapped_int c;
    Ok (inl (match n with
             | Some n => if decide (n ≠ 0) then mkAare false diagnostic ud responding else res
             | None => res
             end))
  else if decide (tag = context_constructed 3) then
    d ← parse_diagnostic c;
    Ok (inl (mkAare accepted d ud responding))
  else if decide (tag = context_constructed 30) then
    ud ← parse_user_info c;
    Ok (inl (mkAare accepted diagnostic ud responding))
  else Ok (inl res).

Definition parse_aare (apdu : list Z) : outcome OsiError AareResult :=
  '(content, _) ← map_err (λ e, OsiAcse ("not an AARE: " +:+ Asn1Error_display e)) (expect (Decoder_new apdu) tag_aare);
  whole (each_field (raise OsiAsn1) aare_round content (mkAare true 0 [] Identity_default)).

Record AarqRequest := mkAarq {
  aarq_context : option (list Z);
  aarq_user_data : list Z;
  aarq_password : option (list Z);
  aarq_called : Identity;
  aarq_calling : Identity;
}.

Definition AarqRequest_default : AarqRequest := mkAarq None [] None Identity_default Identity_default.

(** One element of the APDU. *)
Definition aarq_round (req : AarqRequest) (tag : Tag) (c : list Z) : outcome OsiError (AarqRequest + Empty_set) :=
  let 'mkAarq ctx ud pw called calling := req in
  '(found, called) ← parse_identity tag c 2 called;
  if found : bool then Ok (inl (mkAarq ctx ud pw called calling))
  else
    '(found, calling) ← parse_identity tag c 6 calling;
    let req := mkAarq ctx ud pw called calling in
    if found : bool then Ok (inl req)
    else if decide (tag = context_constructed 1) then
      o ← first_oid c;
      Ok (inl (mkAarq o ud pw called calling))
    else if decide (tag = context_constructed 12) then
      '(v, _) ← map_err OsiAsn1 (optional (Decoder_new c) (context_primitive 0));
      Ok (inl (match v with
               | Some v => mkAarq ctx ud (Some (from_utf8_lossy v)) called calling
               | None => req
               end))
    else if decide (tag = context_constructed 30) then
      ud ← parse_user_info c;
      Ok (inl (mkAarq ctx ud pw called calling))
    else Ok (inl req).

Definition parse_aarq (apdu : list Z) : outcome OsiError AarqRequest :=
  '(content, _) ← map_err (λ e, OsiAcse ("not an AARQ: " +:+ Asn1Error_display e)) (expect (Decoder_new apdu) tag_aarq);
  whole (each_field (raise OsiAsn1) aarq_round content AarqRequest_default).

Definition is_release (apdu : list Z) : bool := peek_is (Decoder_new apdu) tag_rlrq.
Definition is_release_response (apdu : list Z) : bool := peek_is (Decoder_new apdu) tag_rlre.

(** ** What is built is read *)

Definition in_opt {A} (P : A → Prop) (o : option A) : Prop := from_option P True o.

(** Identities with object identifiers that can be written. *)
Definition identity_wf (i : Identity) : Prop :=
  in_opt oid_wf (id_ap_title i) ∧ in_opt (in_i 32) (id_ae_qualifier i) ∧
  in_opt (in_i 32) (id_ap_invocation i) ∧ in_opt (in_i 32) (id_ae_invocation i).

Lemma identity_default_wf : identity_wf Identity_default.
Proof. done. Qed.

Definition explicit_int (v : Z) : list Z := children_octets [(TAG_INTEGER, append_int [] v)].
Definition explicit_oid (o : list Z) : list Z := children_octets [(TAG_OID, oid_octets o)].

Definition some_field {A} (t : Tag) (f : A → list Z) (o : option A) : list (Tag * list Z) :=
  match o with Some a => [(t, f a)] | None => [] end.

Definition identity_fields (base : Z) (i : Identity) : list (Tag * list Z) :=
  some_field (context_constructed base) explicit_oid (id_ap_title i) ++
  some_field (context_constructed (base + 1)) explicit_int (id_ae_qualifier i) ++
  some_field (context_constructed (base + 2)) explicit_int (id_ap_invocation i) ++
  some_field (context_constructed (base + 3)) explicit_int (id_ae_invocation i).

Lemma i32_id n : in_i 32 n → i32 n = n.
Proof. unfold in_i, i32, swrap. intros ?. rewrite Z.mod_small by lia. lia. Qed.

Lemma wrapped_explicit {E} v : in_i 64 v → zlen (explicit_int v) < 2 ^ 32 → wrapped_int (E:=E) (explicit_int v) = Ok (Some v).
Proof.
  unfold explicit_int. intros Hv Hl. fields_in Hl. unfold wrapped_int, first_int.
  rewrite dec_at_nil, peek_is_field by done. rewrite bool_decide_eq_true_2 by done.
  rewrite expect_field by field_ok. run. by rewrite decode_append_int.
Qed.

Lemma first_explicit {E} o : oid_wf o → zlen (explicit_oid o) < 2 ^ 32 → first_oid (E:=E) (explicit_oid o) = Ok (Some o).
Proof.
  unfold explicit_oid. intros Ho Hl. fields_in Hl. unfold first_oid.
  rewrite dec_at_nil, expect_field by field_ok. run. by rewrite decode_oid_octets.
Qed.

Lemma push_some {A} t tag (f : A → Element) (g : A → list Z) (o : option A) es fs :
  Forall2 writes es fs → (∀ a, o = Some a → writes (f a) (tag, g a)) →
  ∃ es', match o with Some a => Element_push (cons_elem t es) (f a) | None => cons_elem t es end = cons_elem t es' ∧
    Forall2 writes es' (fs ++ some_field tag g o).
Proof.
  intros Hes Ho. destruct o as [a|]; cbn [some_field].
  - rewrite push_cons. eexists. split; [done|]. apply Forall2_app; [done|]. constructor; [by apply Ho|constructor].
  - eexists. split; [done|]. by rewrite app_nil_r.
Qed.

Lemma add_identity_writes {E} t es fs base i :
  0 ≤ base < 20 → identity_wf i → Forall2 writes es fs →
  ∃ es', add_identity (E:=E) (cons_elem t es) base i = Ok (cons_elem t es') ∧
    Forall2 writes es' (fs ++ identity_fields base i).
Proof.
  intros Hb (Ho & _) Hes. unfold add_identity, identity_fields.
  assert (∀ k v, 0 ≤ k ≤ 3 → writes (cons_elem (context_constructed (base + k)) [int_elem TAG_INTEGER v])
    (context_constructed (base + k), explicit_int v)) as Hi.
  { intros k v Hk. apply writes_cons; [unfold tag_sized; simpl; lia|done|]. writes. }
  destruct (push_some t (context_constructed base)
    (λ o, cons_elem (context_constructed base) [prim TAG_OID (oid_octets o)]) explicit_oid
    (id_ap_title i) es fs Hes) as (es1 & H1 & Hw1).
  { intros o _. apply writes_cons; [unfold tag_sized; simpl; lia|done|]. writes. }
  assert (match id_ap_title i with
    | Some oid => e ← oid_elem TAG_OID oid; Ok (Element_push (cons_elem t es) (cons_elem (context_constructed base) [e]))
    | None => Ok (cons_elem t es)
    end = Ok (E:=E) (cons_elem t es1)) as ->.
  { rewrite <-H1. destruct (id_ap_title i); [|done]. by rewrite oid_elem_prim. }
  run. rewrite !app_assoc.
  assert (∀ k v es fs, 0 ≤ k ≤ 3 → Forall2 writes es fs → ∃ es',
    match v with
    | Some v => Element_push (cons_elem t es) (cons_elem (context_constructed (base + k)) [int_elem TAG_INTEGER v])
    | None => cons_elem t es
    end = cons_elem t es' ∧
    Forall2 writes es' (fs ++ some_field (context_constructed (base + k)) explicit_int v)) as Hadd.
  { intros k v es' fs' Hk Hes'. apply (push_some t _ (λ v, cons_elem _ [int_elem TAG_INTEGER v])); [done|].
    intros ? _. by apply Hi. }
  destruct (Hadd 1 (id_ae_qualifier i) _ _ ltac:(lia) Hw1) as (es2 & -> & Hw2).
  destruct (Hadd 2 (id_ap_invocation i) _ _ ltac:(lia) Hw2) as (es3 & -> & Hw3).
  destruct (Hadd 3 (id_ae_invocation i) _ _ ltac:(lia) Hw3) as (es4 & -> & Hw4).
  eauto.
Qed.

Lemma fold_some {E S R A} (body : S → Tag → list Z → outcome E (S + R)) t f (o : option A) (g : option A → S) rest :
  (∀ a, o = Some a → body (g None) t (f a) = Ok (inl (g (Some a)))) →
  fold_fields body (some_field t f o ++ rest) (g None) = fold_fields body rest (g o).
Proof. destruct o as [a|]; [|done]. intros H. cbn [some_field app]. rewrite fold_fields_cons. by rewrite H. Qed.

(** Reading the block of an identity, field by field. *)
Lemma parse_title {E} base o q a e :
  oid_wf o → zlen (explicit_oid o) < 2 ^ 32 →
  parse_identity (E:=E) (context_constructed base) (explicit_oid o) base (mkIdentity None q a e) =
  Ok (true, mkIdentity (Some o) q a e).
Proof. intros Ho Hl. unfold parse_identity. rewrite decide_True by done. by rewrite first_explicit. Qed.

Lemma parse_number {E} base k v i :
  1 ≤ k ≤ 3 → in_i 32 v → zlen (explicit_int v) < 2 ^ 32 →
  parse_identity (E:=E) (context_constructed (base + k)) (explicit_int v) base i =
  Ok (true, match i with
            | mkIdentity o q a e =>
                if decide (k = 1) then mkIdentity o (Some v) a e
                else if decide (k = 2) then mkIdentity o q (Some v) e else mkIdentity o q a (Some v)
            end).
Proof.
  intros Hk Hv Hl. unfold parse_identity. destruct i as [o q a e].
  assert (∀ l, context_constructed (base + k) = context_constructed (base + l) ↔ k = l) as Hinj.
  { intros l. split; [|by intros ->]. intros [= ?]. lia. }
  rewrite (decide_False (P:=_ = context_constructed base)) by (intros [= ?]; lia).
  rewrite wrapped_explicit by (done || unfold in_i in *; lia). run. rewrite i32_id by done.
  repeat (case_decide; rewrite ?Hinj in *; try done; try lia).
Qed.

Lemma some_field_fits {A} t f (o : option A) n :
  zlen (children_octets (some_field t f o)) < n → in_opt (λ a, zlen (f a) < n) o.
Proof. destruct o as [a|]; [|done]. cbn [some_field]. intros H. by fields_in H. Qed.

(** A loop whose state holds an identity reads it. *)
Lemma fold_identity {E S R} (body : S → Tag → list Z → outcome E (S + R)) base (put : Identity → S) i rest :
  identity_wf i → zlen (children_octets (identity_fields base i)) < 2 ^ 32 →
  (∀ k j c, 0 ≤ k ≤ 3 → body (put j) (context_constructed (base + k)) c =
    ('(_, j) ← parse_identity (context_constructed (base + k)) c base j; Ok (inl (put j)))) →
  fold_fields body (identity_fields base i ++ rest) (put Identity_default) = fold_fields body rest (put i).
Proof.
  intros (Ho & Hq & Ha & He) Hl Hbody. unfold identity_fields in *. rewrite !children_octets_app, !zlen_app in Hl.
  pose proof (λ cs, zlen_nonneg (children_octets cs)) as Hnn.
  destruct i as [o q a e]; cbn [id_ap_title id_ae_qualifier id_ap_invocation id_ae_invocation] in *.
  assert (in_opt (λ x, zlen (explicit_oid x) < 2 ^ 32) o ∧ in_opt (λ x, zlen (explicit_int x) < 2 ^ 32) q ∧
    in_opt (λ x, zlen (explicit_int x) < 2 ^ 32) a ∧ in_opt (λ x, zlen (explicit_int x) < 2 ^ 32) e) as (? & ? & ? & ?).
  { pose proof (Hnn (some_field (context_constructed base) explicit_oid o)).
    pose proof (Hnn (some_field (context_constructed (base + 1)) explicit_int q)).
    pose proof (Hnn (some_field (context_constructed (base + 2)) explicit_int a)).
    pose proof (Hnn (some_field (context_constructed (base + 3)) explicit_int e)).
    split_and!;
      [apply (some_field_fits (context_constructed base))|apply (some_field_fits (context_constructed (base + 1)))
      |apply (some_field_fits (context_constructed (base + 2)))|apply (some_field_fits (context_constructed (base + 3)))];
      lia. }
  rewrite <-!app_assoc. unfold Identity_default.
  rewrite (fold_some body _ _ o (λ o, put (mkIdentity o None None None))).
  2: { intros x ->. rewrite <-(Z.add_0_r base) at 1. rewrite (Hbody 0) by lia. rewrite Z.add_0_r.
       by rewrite parse_title by (done || lia). }
  rewrite (fold_some body _ _ q (λ q, put (mkIdentity o q None None))).
  2: { intros x ->. rewrite Hbody by lia. by rewrite parse_number by (done || lia). }
  rewrite (fold_some body _ _ a (λ a, put (mkIdentity o q a None))).
  2: { intros x ->. rewrite Hbody by lia. by rewrite parse_number by (done || lia). }
  rewrite (fold_some body _ _ e (λ e, put (mkIdentity o q a e))).
  2: { intros x ->. rewrite Hbody by lia. by rewrite parse_number by (done || lia). }
  done.
Qed.

Definition user_info (id : Z) (pdu : list Z) : list Z :=
  children_octets [(tag_external, children_octets [(TAG_INTEGER, append_int [] id); (context_constructed 0, pdu)])].

Lemma external_writes id pdu : writes (cons_elem (context_constructed 30) [external pdu id]) (context_constructed 30, user_info id pdu).
Proof. writes. Qed.
#[export] Hint Resolve external_writes : writes.

Lemma parse_user_info_built id pdu : zlen (user_info id pdu) < 2 ^ 32 → parse_user_info (user_info id pdu) = Ok pdu.
Proof.
  unfold parse_user_info, user_info. intros Hl. fields_in Hl. rewrite dec_at_nil, expect_field by field_ok. run.
  fields_in H. rewrite each_field_fields by fields_ok. rewrite fold_fields_cons. cbv beta.
  rewrite decide_False by naive_solver. run. rewrite fold_fields_cons. cbv beta. by rewrite decide_True by naive_solver.
Qed.

(** The password of a request. *)
Definition password_fields (password : list Z) : list (Tag * list Z) :=
  if decide (password = []) then []
  else [(context_primitive 10, [7; 128]); (context_primitive 11, oid_octets password_mechanism);
        (context_constructed 12, children_octets [(context_primitive 0, password)])].

Definition aarq_fields (ctx : ApplicationContext) (called calling : Identity) (password data : list Z)
    : list (Tag * list Z) :=
  (context_constructed 1, explicit_oid (ApplicationContext_oid ctx)) ::
  identity_fields 2 called ++ identity_fields 6 calling ++ password_fields password ++
  [(context_constructed 30, user_info PRESENTATION_CONTEXT_MMS data)].

Lemma context_oid_wf ctx : oid_wf (ApplicationContext_oid ctx).
Proof. destruct ctx; by repeat (split || constructor). Qed.

Lemma mechanism_wf : oid_wf password_mechanism.
Proof. by repeat (split || constructor). Qed.

Lemma aarq_for_eq {E} data password called calling ctx :
  identity_wf called → identity_wf calling →
  aarq_for (E:=E) data password called calling ctx =
  Ok (children_octets [(tag_aarq, children_octets (aarq_fields ctx called calling password data))]).
Proof.
  intros Hd Hg. unfold aarq_for, aarq_fields. rewrite (oid_elem_prim TAG_OID) by apply context_oid_wf. run.
  set (es := [cons_elem (context_constructed 1) _]).
  assert (Forall2 writes es [(context_constructed 1, explicit_oid (ApplicationContext_oid ctx))]) as Hes by writes.
  destruct (add_identity_writes (E:=E) tag_aarq es _ 2 called ltac:(lia) Hd Hes) as (es1 & -> & H1). run.
  destruct (add_identity_writes (E:=E) tag_aarq es1 _ 6 calling ltac:(lia) Hg H1) as (es2 & -> & H2). run.
  unfold password_fields. destruct (decide (password = [])) as [->|Hp].
  - run. f_equal. apply writes_encode. rewrite push_cons. apply writes_cons; [done..|].
    rewrite app_comm_cons, app_assoc. apply Forall2_app; [exact H2|]. writes.
  - rewrite oid_elem_prim by apply mechanism_wf.
    change (BitString_set_bit (BitString_new 1) 0 true) with (Ok (E:=E) (mkBitString [128] 1)). run.
    change (bit_string_elem (context_primitive 10) (mkBitString [128] 1)) with
      (Ok (E:=E) (prim (context_primitive 10) [7; 128])). run.
    f_equal. apply writes_encode. rewrite !push_cons. apply writes_cons; [done..|].
    rewrite app_comm_cons, (app_assoc _ (identity_fields 6 calling)), <-!(app_assoc es2).
    apply Forall2_app; [exact H2|]. cbn [app]. writes.
Qed.

#[local] Opaque children_octets each_field parse_user_info.

(** The steps of a loop that only looks for an identity. *)
Lemma parse_identity_other {E} n c base i :
  n < base ∨ base + 3 < n → parse_identity (E:=E) (context_constructed n) c base i = Ok (false, i).
Proof.
  intros Hn. unfold parse_identity. destruct i. by rewrite !decide_False by (intros [= ?]; lia).
Qed.

Lemma parse_identity_primitive {E} n c base i : parse_identity (E:=E) (context_primitive n) c base i = Ok (false, i).
Proof. unfold parse_identity. destruct i. by rewrite !decide_False by done. Qed.

Lemma parse_identity_found {E} k c base i :
  0 ≤ k ≤ 3 → ∀ r, parse_identity (E:=E) (context_constructed (base + k)) c base i = Ok r → r.1 = true.
Proof.
  intros Hk r. unfold parse_identity. destruct i.
  repeat case_decide; [..|exfalso; assert (k = 0 ∨ k = 1 ∨ k = 2 ∨ k = 3) as [->|[->|[->| ->]]] by lia;
    rewrite ?Z.add_0_r in *; by auto].
  all: intros (x & _ & [= <-])%bind_Ok_inv; done.
Qed.

Lemma identity_fields_tags base i : 0 ≤ base < 20 → Forall (λ f, tag_wf f.1) (identity_fields base i).
Proof.
  intros Hb. destruct i as [o q a e]. unfold identity_fields. destruct o, q, a, e; simpl.
  all: repeat constructor; simpl; lia.
Qed.

Lemma aarq_fields_tags ctx called calling password data :
  Forall (λ f, tag_wf f.1) (aarq_fields ctx called calling password data).
Proof.
  unfold aarq_fields, password_fields. constructor; [done|].
  apply Forall_app_2; [by apply identity_fields_tags|]. apply Forall_app_2; [by apply identity_fields_tags|].
  case_decide; by repeat constructor.
Qed.

(** What a request's loop does with an element outside the identities. *)
Lemma aarq_round_past t c ctx ud pw called calling :
  (∀ base i, base = 2 ∨ base = 6 → parse_identity (E:=OsiError) t c base i = Ok (false, i)) →
  aarq_round (mkAarq ctx ud pw called calling) t c =
    (if decide (t = context_constructed 1) then
       o ← first_oid c;
       Ok (inl (mkAarq o ud pw called calling))
     else if decide (t = context_constructed 12) then
       '(v, _) ← map_err OsiAsn1 (optional (Decoder_new c) (context_primitive 0));
       Ok (inl (match v with
                | Some v => mkAarq ctx ud (Some (from_utf8_lossy v)) called calling
                | None => mkAarq ctx ud pw called calling
                end))
     else if decide (t = context_constructed 30) then
       ud ← parse_user_info c;
       Ok (inl (mkAarq ctx ud pw called calling))
     else Ok (inl (mkAarq ctx ud pw called calling))).
Proof. intros H. unfold aarq_round. rewrite (H 2) by auto. run. rewrite (H 6) by auto. done. Qed.

Local Ltac past :=
  rewrite fold_fields_cons, aarq_round_past
    by (intros ? ? [-> | ->]; first [apply parse_identity_primitive | apply parse_identity_other; lia]); tags; run.

Lemma parse_aarq_built data password called calling ctx :
  identity_wf called → identity_wf calling → utf8 password = true →
  zlen (children_octets [(tag_aarq, children_octets (aarq_fields ctx called calling password data))]) < 2 ^ 32 →
  parse_aarq (children_octets [(tag_aarq, children_octets (aarq_fields ctx called calling password data))]) =
  Ok (mkAarq (Some (ApplicationContext_oid ctx)) data (if decide (password = []) then None else Some password) called calling).
Proof.
  intros Hd Hg Hp Hl. fields_in Hl. unfold parse_aarq. rewrite dec_at_nil, expect_field by field_ok. run.
  rewrite each_field_fields by (apply fields_ok; [apply aarq_fields_tags|lia]).
  unfold aarq_fields in *. rewrite children_octets_cons, !children_octets_app, !zlen_app in H.
  pose proof (append_tlv_longer (context_constructed 1) (explicit_oid (ApplicationContext_oid ctx))).
  pose proof (λ cs, zlen_nonneg (children_octets cs)) as Hnn.
  pose proof (Hnn (identity_fields 2 called)). pose proof (Hnn (identity_fields 6 calling)).
  pose proof (Hnn (password_fields password)).
  pose proof (Hnn [(context_constructed 30, user_info PRESENTATION_CONTEXT_MMS data)]).
  assert (zlen (user_info PRESENTATION_CONTEXT_MMS data) < 2 ^ 32).
  { eapply Z.lt_trans; [apply (field_smaller (context_constructed 30)), list_elem_of_singleton; done|]. 
    pose proof (zlen_nonneg (explicit_oid (ApplicationContext_oid ctx))). lia. }
  pose proof (zlen_nonneg (explicit_oid (ApplicationContext_oid ctx))).
  unfold AarqRequest_default. past. rewrite first_explicit by (apply context_oid_wf || lia). run.
  rewrite (fold_identity aarq_round 2 (λ i, mkAarq _ _ _ i _)); [|done|lia|].
  2: { intros k j c Hk. unfold aarq_round.
       destruct (parse_identity (context_constructed (2 + k)) c 2 j) as [[b i]|?| |] eqn:E; [|done..]. run.
       apply parse_identity_found in E; [|done]. simpl in E. by subst. }
  rewrite (fold_identity aarq_round 6 (λ i, mkAarq _ _ _ _ i)); [|done|lia|].
  2: { intros k j c Hk. unfold aarq_round. rewrite (parse_identity_other (6 + k) c 2) by lia. run.
       destruct (parse_identity (context_constructed (6 + k)) c 6 j) as [[b i]|?| |] eqn:E; [|done..]. run.
       apply parse_identity_found in E; [|done]. simpl in E. by subst. }
  unfold password_fields in *. destruct (decide (password = [])) as [->|Hne]; cbn [app].
  - past. by rewrite parse_user_info_built.
  - assert (zlen (children_octets [(context_primitive 0, password)]) < 2 ^ 32) as Hpw.
    { eapply Z.lt_trans; [apply (field_smaller (context_constructed 12) _ (password_fields password))|];
        unfold password_fields; rewrite decide_False by done; [set_solver|lia]. }
    fields_in Hpw. do 3 past. rewrite dec_at_nil, optional_field by field_ok. run. past.
    rewrite parse_user_info_built by done. run. by rewrite from_utf8_lossy_valid.
Qed.

(** The answers. *)
Definition aare_fields (proposed : option (list Z)) (result diagnostic : Z) (tail : list (Tag * list Z))
    : list (Tag * list Z) :=
  (context_constructed 1, explicit_oid (echoed proposed)) ::
  (context_constructed 2, explicit_int result) ::
  (context_constructed 3, children_octets [(context_constructed 1, explicit_int diagnostic)]) :: tail.

Definition acceptance_fields (responding : Identity) (id : Z) (data : list Z) : list (Tag * list Z) :=
  identity_fields 4 responding ++ [(context_constructed 30, user_info id data)].

Lemma echoed_wf proposed : oid_wf (echoed proposed).
Proof.
  assert (oid_wf oid_mms_context) by apply (context_oid_wf Mms).
  destruct proposed as [o|]; [|done]. simpl. destruct (bool_decide (o = oid_mms_context)) eqn:E1; simpl.
  - by apply bool_decide_eq_true in E1 as ->.
  - destruct (bool_decide (o = oid_acsi_context)) eqn:E2; [|done].
    apply bool_decide_eq_true in E2 as ->. apply (context_oid_wf Acsi).
Qed.

Lemma aare_head_writes proposed result diagnostic :
  Forall2 writes (cons_elem (context_constructed 1) [prim TAG_OID (oid_octets (echoed proposed))] :: result_of result diagnostic)
    (aare_fields proposed result diagnostic []).
Proof. unfold result_of, aare_fields. writes. Qed.

(** The presentation context an acceptance names. *)
Definition answer_context (id : Z) : Z := if decide (id = 0) then PRESENTATION_CONTEXT_MMS else id.

Lemma aare_for_eq {E} data responding proposed id :
  identity_wf responding →
  aare_for (E:=E) data responding proposed id =
  Ok (children_octets [(tag_aare, children_octets (aare_fields proposed 0 0 (acceptance_fields responding (answer_context id) data)))]).
Proof.
  intros Hr. unfold aare_for. rewrite oid_elem_prim by apply echoed_wf. run.
  destruct (add_identity_writes (E:=E) tag_aare _ _ 4 responding ltac:(lia) Hr (aare_head_writes proposed 0 0))
    as (es & -> & Hes). run.
  f_equal. apply writes_encode. rewrite push_cons. apply writes_cons; [done..|]. unfold acceptance_fields.
  change (aare_fields proposed 0 0 ?t) with (aare_fields proposed 0 0 [] ++ t). rewrite app_assoc.
  apply Forall2_app; [exact Hes|]. writes.
Qed.

Lemma aare_reject_for_eq {E} proposed diagnostic :
  aare_reject_for (E:=E) proposed diagnostic =
  Ok (children_octets [(tag_aare, children_octets (aare_fields proposed 1 diagnostic []))]).
Proof.
  unfold aare_reject_for. rewrite oid_elem_prim by apply echoed_wf. run. f_equal. apply writes_encode.
  apply writes_cons; [done..|]. apply aare_head_writes.
Qed.

Lemma parse_diagnostic_built {E} d :
  in_i 64 d → zlen (children_octets [(context_constructed 1, explicit_int d)]) < 2 ^ 32 →
  parse_diagnostic (E:=E) (children_octets [(context_constructed 1, explicit_int d)]) = Ok d.
Proof.
  intros Hd Hl. fields_in Hl. unfold parse_diagnostic. rewrite each_field_fields by fields_ok.
  rewrite fold_fields_cons. by rewrite wrapped_explicit.
Qed.

Lemma aare_round_past t c accepted diagnostic ud responding :
  parse_identity (E:=OsiError) t c 4 responding = Ok (false, responding) →
  aare_round (mkAare accepted diagnostic ud responding) t c =
    (if decide (t = context_constructed 2) then
       n ← wrapped_int c;
       Ok (inl (match n with
                | Some n => if decide (n ≠ 0) then mkAare false diagnostic ud responding
                            else mkAare accepted diagnostic ud responding
                | None => mkAare accepted diagnostic ud responding
                end))
     else if decide (t = context_constructed 3) then
       d ← parse_diagnostic c;
       Ok (inl (mkAare accepted d ud responding))
     else if decide (t = context_constructed 30) then
       ud ← parse_user_info c;
       Ok (inl (mkAare accepted diagnostic ud responding))
     else Ok (inl (mkAare accepted diagnostic ud responding))).
Proof. intros H. unfold aare_round. by rewrite H. Qed.

Local Ltac past_aare := rewrite fold_fields_cons, aare_round_past by (apply parse_identity_other; lia); tags; run.

(** The head of an answer, read. *)
Lemma fold_aare proposed result diagnostic tail :
  in_i 64 result → in_i 64 diagnostic →
  zlen (children_octets (aare_fields proposed result diagnostic tail)) < 2 ^ 32 →
  fold_fields aare_round (aare_fields proposed result diagnostic tail) (mkAare true 0 [] Identity_default) =
  fold_fields aare_round tail (mkAare (bool_decide (result = 0)) diagnostic [] Identity_default).
Proof.
  intros Hr Hd Hl. unfold aare_fields in *. fields_in Hl. past_aare. past_aare. rewrite wrapped_explicit by done. run.
  destruct (decide (result ≠ 0)) as [?|?%dec_stable].
  all: past_aare; rewrite parse_diagnostic_built by done; run.
  - by rewrite bool_decide_eq_false_2.
  - by rewrite bool_decide_eq_true_2.
Qed.

Lemma aare_fields_tags proposed result diagnostic tail :
  Forall (λ f, tag_wf f.1) tail → Forall (λ f, tag_wf f.1) (aare_fields proposed result diagnostic tail).
Proof. intros H. by repeat constructor. Qed.

Lemma parse_aare_accepted data responding proposed id :
  identity_wf responding →
  let content := children_octets (aare_fields proposed 0 0 (acceptance_fields responding id data)) in
  zlen (children_octets [(tag_aare, content)]) < 2 ^ 32 →
  parse_aare (children_octets [(tag_aare, content)]) = Ok (mkAare true 0 data responding).
Proof.
  intros Hr content Hl. fields_in Hl. unfold parse_aare. rewrite dec_at_nil, expect_field by field_ok. run.
  unfold content in *. rewrite each_field_fields.
  2: { apply fields_ok; [|lia]. apply aare_fields_tags, Forall_app_2; [by apply identity_fields_tags|by repeat constructor]. }
  rewrite fold_aare by done. rewrite bool_decide_eq_true_2 by done.
  assert (zlen (children_octets (acceptance_fields responding id data)) < 2 ^ 32) as Ht.
  { eapply Z.le_lt_trans; [|exact H]. unfold aare_fields. by rewrite <-!children_octets_tail. }
  unfold acceptance_fields in *. rewrite children_octets_app, zlen_app in Ht.
  pose proof (zlen_nonneg (children_octets (identity_fields 4 responding))).
  assert (zlen (children_octets [(context_constructed 30, user_info id data)]) < 2 ^ 32) as Hu by lia. fields_in Hu.
  pose proof (zlen_nonneg (children_octets [(context_constructed 30, user_info id data)])).
  rewrite (fold_identity aare_round 4 (λ i, mkAare _ _ _ i)); [|done|lia|].
  - past_aare. by rewrite parse_user_info_built.
  - intros k j c Hk. unfold aare_round.
    destruct (parse_identity (context_constructed (4 + k)) c 4 j) as [[b i]|?| |] eqn:E; [|done..]. run.
    apply parse_identity_found in E; [|done]. simpl in E. by subst.
Qed.

Lemma parse_aare_rejected proposed diagnostic :
  in_i 64 diagnostic →
  let content := children_octets (aare_fields proposed 1 diagnostic []) in
  zlen (children_octets [(tag_aare, content)]) < 2 ^ 32 →
  parse_aare (children_octets [(tag_aare, content)]) = Ok (mkAare false diagnostic [] Identity_default).
Proof.
  intros Hd content Hl. fields_in Hl. unfold parse_aare. rewrite dec_at_nil, expect_field by field_ok. run.
  unfold content in *. rewrite each_field_fields by (apply fields_ok; [by apply aare_fields_tags|lia]).
  by rewrite fold_aare.
Qed.

Lemma parse_abrt_built source : in_i 64 source → zlen (abrt source) < 2 ^ 32 → parse_abrt (abrt source) = Ok source.
Proof.
  intros Hs. unfold abrt, parse_abrt.
  assert (writes (cons_elem tag_abrt [int_elem (context_primitive 0) source])
    (tag_abrt, children_octets [(context_primitive 0, append_int [] source)])) as Hw by writes.
  rewrite (writes_encode _ _ Hw). intros Hl. fields_in Hl. fields_in H.
  rewrite dec_at_nil, expect_field by field_ok. run.
  rewrite (dec_at_nil (children_octets _)), optional_field by field_ok. run. by rewrite decode_append_int.
Qed.

(** ** No input panics *)

#[local] Transparent parse_user_info.

Lemma first_oid_settled {E} c : octets c → settled (first_oid (E:=E) c).
Proof.
  intros Hc. unfold first_oid. pose proof (reading_expect (Decoder_new c) TAG_OID (Decoder_new_wf _ Hc)) as Hr.
  destruct (expect _ _) as [[o d]|?| |]; try done. run. apply ok_settled, decode_oid_settled.
Qed.

Lemma wrapped_int_returns {E} c : octets c → returns (in_opt (in_i 64)) (wrapped_int (E:=E) c).
Proof.
  intros Hc. unfold wrapped_int, first_int.
  eapply (returns_bind octets); [|intros; by apply ok_returns, decode_int_returns].
  case_match; [|done]. pose proof (reading_expect (Decoder_new c) TAG_INTEGER (Decoder_new_wf _ Hc)) as Hr.
  destruct (expect _ _) as [[o d]|?| |]; try done. by destruct Hr.
Qed.

Definition identity_read (i : Identity) : Prop :=
  in_opt (in_i 32) (id_ae_qualifier i) ∧ in_opt (in_i 32) (id_ap_invocation i) ∧ in_opt (in_i 32) (id_ae_invocation i).

Lemma i32_range n : in_i 32 (i32 n).
Proof. unfold in_i, i32, swrap. pose proof (Z.mod_pos_bound (n + 2 ^ (32 - 1)) (2 ^ 32)). lia. Qed.

Lemma parse_identity_returns {E} t c base i :
  octets c → identity_read i → returns (λ r, identity_read r.2) (parse_identity (E:=E) t c base i).
Proof.
  intros Hc (H1 & H2 & H3). unfold parse_identity. destruct i as [o q a e]. pose proof i32_range.
  case_decide.
  { eapply (returns_bind (λ _, True)); [by apply returns_intro; [apply first_oid_settled|]|]. by intros [?|] _. }
  do 3 (case_decide; [eapply returns_bind; [by apply wrapped_int_returns|]; intros [?|] _; simpl; unfold identity_read; simpl; auto|]).
  done.
Qed.

Lemma parse_user_info_returns c : octets c → returns octets (parse_user_info c).
Proof.
  intros Hc. eapply reading_bind; [apply reading_err, reading_expect; by apply Decoder_new_wf|].
  intros ext d Hext _. eapply (fell_returns (λ _, True)); [|done]. apply each_field_returns; [done| |done|done].
  intros s t v _ Hv. by case_decide.
Qed.

Lemma parse_diagnostic_returns {E} c : octets c → returns (in_i 64) (parse_diagnostic (E:=E) c).
Proof.
  intros Hc. eapply (fell_returns (λ _, True)); [|done]. apply each_field_returns; [done| |done|done].
  intros s t v _ Hv. eapply returns_bind; [by apply wrapped_int_returns|]. by intros [?|] ?.
Qed.

Definition aare_wf (r : AareResult) : Prop :=
  in_i 64 (aare_diagnostic r) ∧ octets (aare_user_data r) ∧ identity_read (aare_responding r).

Lemma parse_aare_returns apdu : octets apdu → returns aare_wf (parse_aare apdu).
Proof.
  intros Ho. eapply reading_bind; [apply reading_err, reading_expect; by apply Decoder_new_wf|].
  intros content d Hc _. eapply (whole_returns _ (λ _, True)). apply each_field_returns; [done| |done|by split_and!; try apply Forall_nil_2].
  intros [acc dg ud rs] t c (H1 & H2 & H3) Hv. simpl in *. unfold aare_round.
  eapply returns_bind; [by apply parse_identity_returns|]. intros [[] rs'] Hrs; [done|]. simpl in Hrs.
  case_decide. { eapply returns_bind; [by apply wrapped_int_returns|]. intros [n|] _; [|done]. by case_decide. }
  case_decide. { eapply returns_bind; [by apply parse_diagnostic_returns|]. done. }
  case_decide; [|done]. eapply returns_bind; [by apply parse_user_info_returns|]. done.
Qed.

(** What a request a responder decoded is made of. *)
Definition aarq_wf (r : AarqRequest) : Prop :=
  octets (aarq_user_data r) ∧ in_opt (λ p, utf8 p = true) (aarq_password r) ∧
  identity_read (aarq_called r) ∧ identity_read (aarq_calling r).

Lemma parse_aarq_returns apdu : octets apdu → returns aarq_wf (parse_aarq apdu).
Proof.
  intros Ho. eapply reading_bind; [apply reading_err, reading_expect; by apply Decoder_new_wf|].
  intros content d Hc _. eapply (whole_returns _ (λ _, True)). apply each_field_returns; [done| |done|by split_and!; try apply Forall_nil_2].
  intros [ctx ud pw cd cg] t c (H1 & H2 & H3 & H4) Hv. simpl in *. unfold aarq_round.
  eapply returns_bind; [by apply parse_identity_returns|]. intros [[] cd'] Hcd; [done|]. simpl in Hcd.
  eapply returns_bind; [by apply parse_identity_returns|]. intros [[] cg'] Hcg; [done|]. simpl in Hcg.
  case_decide. { eapply (returns_bind (λ _, True)); [by apply returns_intro; [apply first_oid_settled|]|]. done. }
  case_decide.
  { eapply reading_bind; [apply reading_err, reading_optional; by apply Decoder_new_wf|]. intros [v|] d' Hv' _; [|done].
    split_and!; try done. simpl. by apply from_utf8_lossy_utf8. }
  case_decide; [|done]. eapply returns_bind; [by apply parse_user_info_returns|]. done.
Qed.

Lemma parse_abrt_returns apdu : octets apdu → returns (in_i 64) (parse_abrt apdu).
Proof.
  intros Ho. eapply reading_bind; [apply reading_err, reading_expect; by apply Decoder_new_wf|].
  intros content d Hc _. eapply reading_bind; [apply reading_err, reading_optional; by apply Decoder_new_wf|].
  intros [v|] d' Hv' _; [|done]. by apply returns_map_err, decode_int_returns.
Qed.
