(* ===== verification/MmsPdu.v ===== *)
(** The PDUs of the MMS layer (src/src/mms/pdu.rs), what the two ends of an
    association make of an Initiate exchange, and the error PDUs
    (src/src/mms/server_conn.rs, src/src/mms/conn.rs). *)

From stdpp Require Import pretty.
From S2P Require Import Prelude Ber BerDecoder BerPrim Utf8 Errors MmsCodec BerFields Acse.
Local Open Scope string_scope.
Local Open Scope list_scope.
Local Open Scope Z_scope.

Definition TAG_CONFIRMED_REQUEST : Tag := context_constructed 0.
Definition TAG_CONFIRMED_RESPONSE : Tag := context_constructed 1.
Definition TAG_CONFIRMED_ERROR : Tag := context_constructed 2.
Definition TAG_UNCONFIRMED : Tag := context_constructed 3.
Definition TAG_REJECT_PDU : Tag := context_constructed 4.
Definition TAG_CANCEL_REQUEST : Tag := context_primitive 5.
Definition TAG_CANCEL_RESPONSE : Tag := context_primitive 6.
Definition TAG_CANCEL_ERROR : Tag := context_constructed 7.
Definition TAG_INITIATE_REQUEST : Tag := context_constructed 8.
Definition TAG_INITIATE_RESPONSE : Tag := context_constructed 9.
Definition TAG_INITIATE_ERROR : Tag := context_constructed 10.
Definition TAG_CONCLUDE_REQUEST : Tag := context_primitive 11.
Definition TAG_CONCLUDE_RESPONSE : Tag := context_primitive 12.
Definition TAG_CONCLUDE_REQUEST_LEGACY : Tag := context_constructed 11.
Definition TAG_CONCLUDE_RESPONSE_LEGACY : Tag := context_constructed 12.

Definition MMS_MAX : Z := 65001.

Record ServiceSupport := mkSupport {
  ss_bits : BitString;
  ss_raw : option (list Z);
}.

Definition ServiceSupport_default : ServiceSupport := mkSupport (mkBitString [] 0) None.

Record InitiateRequest := mkInitiate {
  local_detail : Z;
  max_serv_outstanding : Z;
  nesting_level : Z;
  services : ServiceSupport;
  max_serv_outstanding_calling : Z;
  max_serv_outstanding_called : Z;
  parameter_cbb_raw : option (list Z);
}.

Module service.
Definition STATUS : Z := 0.
Definition GET_NAME_LIST : Z := 1.
Definition IDENTIFY : Z := 2.
Definition READ : Z := 4.
Definition WRITE : Z := 5.
Definition GET_VARIABLE_ACCESS_ATTRIBUTES : Z := 6.
Definition DEFINE_NAMED_VARIABLE_LIST : Z := 11.
Definition GET_NAMED_VARIABLE_LIST_ATTRIBUTES : Z := 12.
Definition DELETE_NAMED_VARIABLE_LIST : Z := 13.
Definition OBTAIN_FILE : Z := 46.
Definition READ_JOURNAL : Z := 65.
Definition INITIALIZE_JOURNAL : Z := 67.
Definition REPORT_JOURNAL_STATUS : Z := 68.
Definition FILE_OPEN : Z := 72.
Definition FILE_READ : Z := 73.
Definition FILE_CLOSE : Z := 74.
Definition FILE_RENAME : Z := 75.
Definition FILE_DELETE : Z := 76.
Definition FILE_DIRECTORY : Z := 77.
Definition INFORMATION_REPORT : Z := 79.
Definition CONCLUDE : Z := 83.
Definition CANCEL : Z := 84.
End service.

Definition SERVICE_SUPPORT_BITS : Z := 85.

Definition ServiceSupport_with {E} (services : list Z) : outcome E ServiceSupport :=
  bits ← for_each services (λ bs bit, BitString_set_bit bs bit true) (BitString_new SERVICE_SUPPORT_BITS);
  Ok (mkSupport bits None).

Definition ServiceSupport_has {E} (s : ServiceSupport) (svc : Z) : outcome E bool :=
  match ss_raw s with
  | Some raw =>
      if decide (bs_length (ss_bits s) = 0) then
        bs ← ok (decode_bit_string raw);
        match bs with
        | Some bs => BitString_bit bs svc
        | None => Ok false
        end
      else BitString_bit (ss_bits s) svc
  | None => BitString_bit (ss_bits s) svc
  end.

Definition default_service_support {E} : outcome E ServiceSupport :=
  ServiceSupport_with
    [service.GET_NAME_LIST; service.IDENTIFY; service.READ; service.WRITE; service.GET_VARIABLE_ACCESS_ATTRIBUTES;
     service.DEFINE_NAMED_VARIABLE_LIST; service.GET_NAMED_VARIABLE_LIST_ATTRIBUTES; service.DELETE_NAMED_VARIABLE_LIST;
     service.READ_JOURNAL; service.FILE_OPEN; service.FILE_READ; service.FILE_CLOSE; service.FILE_DELETE;
     service.FILE_DIRECTORY; service.INFORMATION_REPORT; service.CONCLUDE].

Definition InitiateRequest_default {E} : outcome E InitiateRequest :=
  s ← default_service_support;
  Ok (mkInitiate MMS_MAX 10 5 s 0 0 None).

Definition server_default {E} : outcome E InitiateRequest :=
  s ← ServiceSupport_with
    [service.GET_NAME_LIST; service.IDENTIFY; service.READ; service.WRITE; service.GET_VARIABLE_ACCESS_ATTRIBUTES;
     service.GET_NAMED_VARIABLE_LIST_ATTRIBUTES; service.INFORMATION_REPORT; service.CONCLUDE];
  Ok (mkInitiate MMS_MAX 10 10 s 0 0 None).

Definition CBB_STR1 : Z := 0.
Definition CBB_STR2 : Z := 1.
Definition CBB_VNAM : Z := 2.
Definition CBB_VALT : Z := 3.
Definition CBB_VLIS : Z := 7.
Definition PARAMETER_CBB_BITS : Z := 11.

Definition parameter_cbb {E} : outcome E BitString :=
  for_each [CBB_STR1; CBB_STR2; CBB_VNAM; CBB_VALT; CBB_VLIS] (λ bs bit, BitString_set_bit bs bit true)
    (BitString_new PARAMETER_CBB_BITS).

Definition intersect_parameter_cbb {E} (ours : BitString) (proposed_raw : list Z) : outcome E (list Z) :=
  proposed ← ok (decode_bit_string proposed_raw);
  out ←
    match proposed with
    | Some proposed =>
        for_each (seqZ 0 (bs_length ours)) (λ out i,
          b ← BitString_bit ours i;
          b ← (if b : bool then BitString_bit proposed i else Ok false);
          BitString_set_bit out i b) ours
    | None => Ok ours
    end;
  append_bit_string [] out.

(** ** The Initiate PDUs *)

(** A bit string, or the octets to send in its place. *)
Definition bits_or_raw {E} (t : Tag) (raw : option (list Z)) (bits : outcome E BitString) : outcome E Element :=
  match raw with
  | Some raw => Ok (prim t raw)
  | None => bs ← bits; bit_string_elem t bs
  end.

Definition calling_or_both (req : InitiateRequest) : Z :=
  if decide (max_serv_outstanding_calling req = 0) then max_serv_outstanding req else max_serv_outstanding_calling req.
Definition called_or_both (req : InitiateRequest) : Z :=
  if decide (max_serv_outstanding_called req = 0) then max_serv_outstanding req else max_serv_outstanding_called req.

Definition encode_initiate {E} (tag : Tag) (req : InitiateRequest) : outcome E (list Z) :=
  cbb ← bits_or_raw (context_primitive 1) (parameter_cbb_raw req) parameter_cbb;
  svc ← bits_or_raw (context_primitive 2) (ss_raw (services req)) (Ok (ss_bits (services req)));
  let detail := cons_elem (context_constructed 4) [int_elem (context_primitive 0) 1; cbb; svc] in
  Ok (Element_encode
        (cons_elem tag
           [int_elem (context_primitive 0) (local_detail req);
            int_elem (context_primitive 1) (calling_or_both req);
            int_elem (context_primitive 2) (called_or_both req);
            int_elem (context_primitive 3) (nesting_level req);
            detail])).

Definition encode_initiate_request {E} (req : InitiateRequest) : outcome E (list Z) :=
  encode_initiate TAG_INITIATE_REQUEST req.
Definition encode_initiate_response {E} (req : InitiateRequest) : outcome E (list Z) :=
  encode_initiate TAG_INITIATE_RESPONSE req.

(** [decode_int(c).unwrap_or(0) as i32]. *)
Definition int_or_zero {E} (c : list Z) : outcome E Z :=
  n ← unwrap_or (decode_int c) 0; Ok (i32 n).

(** An optional number, and whether it was there. *)
Definition optional_int (d : Decoder) (t : Tag) : outcome MmsError (option Z * Decoder) :=
  '(c, d) ← map_err MmsAsn1 (optional d t);
  match c with
  | Some c => n ← int_or_zero c; Ok (Some n, d)
  | None => Ok (None, d)
  end.

Definition detail_round {E} (s : option (list Z) * ServiceSupport) (tag : Tag) (dc : list Z)
    : outcome E ((option (list Z) * ServiceSupport) + Empty_set) :=
  if decide (tag = context_primitive 1) then Ok (inl (Some dc, s.2))
  else if decide (tag = context_primitive 2) then
    bits ← ok (decode_bit_string dc);
    Ok (inl (s.1, mkSupport (default (mkBitString [] 0) bits) (Some dc)))
  else Ok (inl s).

Definition parse_initiate_body (content : list Z) : outcome MmsError InitiateRequest :=
  '(ld, dec) ← optional_int (Decoder_new content) (context_primitive 0);
  let ld := default 0 ld in
  '(calling, dec) ← optional_int dec (context_primitive 1);
  let calling := default 0 calling in
  let both := calling in
  '(n, dec) ← optional_int dec (context_primitive 2);
  let called := default 0 n in
  let both :=
    match n with
    | Some n => if decide (n < both ∨ both = 0) then n else both
    | None => both
    end in
  '(nest, dec) ← optional_int dec (context_primitive 3);
  '(c, dec) ← map_err MmsAsn1 (optional dec (context_constructed 4));
  '(cbb, svc) ←
    match c with
    | Some c => whole (each_field leave detail_round c (None, ServiceSupport_default))
    | None => Ok (None, ServiceSupport_default)
    end;
  Ok (mkInitiate (if decide (ld = 0) then MMS_MAX else ld) (if decide (both = 0) then 1 else both)
        (default 0 nest) svc calling called cbb).

Definition parse_initiate_response (pdu : list Z) : outcome MmsError InitiateRequest :=
  match expect (Decoder_new pdu) TAG_INITIATE_RESPONSE with
  | Ok (content, _) => parse_initiate_body content
  | Err e =>
      if peek_is (Decoder_new pdu) TAG_INITIATE_ERROR then
        Err (MmsProtocol "the peer answered with an InitiateError")
      else Err (MmsAsn1 e)
  | Panic => Panic
  | NoFuel => NoFuel
  end.

Definition parse_initiate_request (pdu : list Z) : outcome MmsError InitiateRequest :=
  '(content, _) ← map_err MmsAsn1 (expect (Decoder_new pdu) TAG_INITIATE_REQUEST);
  parse_initiate_body content.

(** [clamp] of [clamp_initiate]. *)
Definition clamp (ours theirs : Z) : Z :=
  if decide (theirs > 0 ∧ (ours = 0 ∨ ours > theirs)) then theirs else ours.

Definition clamp_initiate {E} (want proposed : InitiateRequest) : outcome E InitiateRequest :=
  cbb ←
    match parameter_cbb_raw want, parameter_cbb_raw proposed with
    | None, Some raw => ours ← parameter_cbb; c ← intersect_parameter_cbb ours raw; Ok (Some c)
    | raw, _ => Ok raw
    end;
  Ok (mkInitiate
        (clamp (local_detail want) (local_detail proposed))
        (clamp (max_serv_outstanding want) (max_serv_outstanding proposed))
        (clamp (nesting_level want) (nesting_level proposed))
        (services want)
        (clamp (calling_or_both want) (max_serv_outstanding_calling proposed))
        (clamp (called_or_both want) (max_serv_outstanding_called proposed))
        cbb).

(** ** Confirmed PDUs *)

Definition split_invoke (content : list Z) : outcome MmsError (Z * list Z) :=
  '((tag, id_bytes), dec) ← map_err MmsAsn1 (read_tlv (Decoder_new content));
  if decide (tag ≠ TAG_INTEGER ∧ tag ≠ context_primitive 0) then
    Err (MmsProtocol ("unexpected invokeID tag " +:+ Tag_display tag))
  else
    id ← map_err MmsAsn1 (decode_uint id_bytes);
    body ← map_err MmsAsn1 (rest dec);
    Ok (u32 id, body).

Definition reject_reason_name (category code : Z) : string :=
  let name :=
    match category with
    | 1 =>
        match code with
        | 0 => Some "other"
        | 1 => Some "unrecognized-service"
        | 2 => Some "unrecognized-modifier"
        | 3 => Some "invalid-invokeID"
        | 4 => Some "invalid-argument"
        | 5 => Some "invalid-modifier"
        | 6 => Some "max-serv-outstanding-exceeded"
        | 8 => Some "max-recursion-exceeded"
        | 9 => Some "value-out-of-range"
        | _ => None
        end
    | 5 =>
        match code with
        | 0 => Some "unknown-pdu-type"
        | 1 => Some "invalid-pdu"
        | 2 => Some "illegal-acse-mapping"
        | _ => None
        end
    | _ => None
    end in
  default ("reject category " +:+ pretty category +:+ " code " +:+ pretty code) name.

(** [levels] is how many more levels are allowed, 9 at depth 0. *)
Fixpoint drill_error_class {E} (levels : nat) (body : list Z) : outcome E (option (Z * Z)) :=
  match levels with
  | O => Ok None
  | S levels =>
      fell
        (each_field (λ _ _, Ok (inr None)) (λ (s : unit) tag content,
           if decide (tag_class tag ≠ ContextSpecific) then Ok (inl s)
           else if tag_constructed tag then
             found ← drill_error_class levels content;
             Ok (match found with Some found => inr (Some found) | None => inl s end)
           else
             n ← unwrap_or (decode_int content) 0;
             Ok (inr (Some (u8 (tag_number tag), u8 n)))) body ())
        (λ _, Ok None)
  end.

Definition DRILL_LEVELS : nat := 9.

Definition ServiceError_new (class code : Z) : ServiceError := mkServiceError class code false "".

Definition decode_service_error {E} (body : list Z) : outcome E ServiceError :=
  found ← drill_error_class DRILL_LEVELS body;
  Ok (match found with
      | Some (class, code) => ServiceError_new class code
      | None => ServiceError_new 0 0
      end).

Definition error_class_choice (err : MmsError) : Z * Z :=
  match err with
  | MmsAccess ObjectAccessUnsupported => (7, 1)
  | MmsAccess ObjectNonExistent => (7, 2)
  | MmsAccess ObjectAccessDenied => (7, 3)
  | MmsAccess _ => (7, 2)
  | MmsService se => if decide (se_class se ≠ 0) then (se_class se, se_code se) else (4, 0)
  | _ => (4, 0)
  end.

Definition reject_pdu (invoke_id : Z) (se : ServiceError) : list Z :=
  Element_encode
    (cons_elem TAG_REJECT_PDU
       [uint_elem (context_primitive 0) invoke_id; int_elem (context_primitive (se_class se)) (se_code se)]).

Definition confirmed_error_pdu (invoke_id class_tag value : Z) : list Z :=
  Element_encode
    (cons_elem TAG_CONFIRMED_ERROR
       [prim (context_primitive 0) (append_uint [] invoke_id);
        cons_elem (context_constructed 2)
          [cons_elem (context_constructed 0) [int_elem (context_primitive class_tag) value]]]).

Definition encode_error_pdu (invoke_id : Z) (err : MmsError) : list Z :=
  let confirmed := let '(class_tag, value) := error_class_choice err in confirmed_error_pdu invoke_id class_tag value in
  match err with
  | MmsService se => if se_rejected se then reject_pdu invoke_id se else confirmed
  | _ => confirmed
  end.

Record Request := mkRequest {
  rq_invoke_id : Z;
  rq_service : Z;
  rq_content : list Z;
}.

Definition parse_confirmed_request {E} (content : list Z) : outcome E (option Request) :=
  r ← ok (expect (Decoder_new content) TAG_INTEGER);
  match r with
  | None => Ok None
  | Some (id_bytes, dec) =>
      n ← ok (decode_uint id_bytes);
      match n with
      | None => Ok None
      | Some n =>
          s ← ok (read_tlv dec);
          Ok (match s with
              | Some ((tag, content), _) => Some (mkRequest (u32 n) (tag_number tag) content)
              | None => None
              end)
      end
  end.

(** The request and the response of a confirmed service. *)
Definition confirmed_request_pdu (invoke_id : Z) (service : Element) : list Z :=
  Element_encode (cons_elem TAG_CONFIRMED_REQUEST [uint_elem TAG_INTEGER invoke_id; service]).
Definition confirmed_response_pdu (invoke_id : Z) (resp : Element) : list Z :=
  Element_encode (cons_elem TAG_CONFIRMED_RESPONSE [uint_elem TAG_INTEGER invoke_id; resp]).

(** The reject of [deliver_reject]: the request it answers and the error. *)
Definition parse_reject {E} (content : list Z) : outcome E (option (Z * ServiceError)) :=
  r ← ok (optional (Decoder_new content) (context_primitive 0));
  match r with
  | None => Ok None
  | Some (b, dec) =>
      id ←
        match b with
        | Some b => n ← unwrap_or (decode_uint b) 0; Ok (u32 n)
        | None => Ok 0
        end;
      let none := mkServiceError 0 0 true "" in
      se ←
        (if more dec then
           r ← ok (read_tlv dec);
           match r with
           | Some ((tag, rr), _) =>
               n ← ok (decode_int rr);
               let code := match n with Some n => u8 n | None => 0 end in
               Ok (mkServiceError (u8 (tag_number tag)) code true (reject_reason_name (tag_number tag) code))
           | None => Ok none
           end
         else Ok none);
      Ok (Some (id, se))
  end.

(** ** What is built is read *)

Definition raw_or (raw : option (list Z)) (bits : list Z) : list Z := default bits raw.

Definition bit_octets (bs : BitString) : list Z :=
  match append_bit_string (E:=Empty_set) [] bs with Ok c => c | _ => [] end.

Lemma bit_octets_spec {E} bs :
  bs_wf bs → append_bit_string (E:=E) [] bs = Ok (bit_octets bs) ∧ decode_bit_string (bit_octets bs) = Ok bs.
Proof.
  intros Hw. destruct (append_decode_bit_string (E:=Empty_set) bs Hw) as (c & Hc & _ & Hd).
  unfold bit_octets. rewrite Hc. split; [|done]. unfold append_bit_string in *.
  unfold usub in *. case_decide; [|done]. simpl in *. by simplify_eq.
Qed.

Definition MANDATORY_CBB : BitString := mkBitString [0xf1; 0x00] 11.

Lemma parameter_cbb_eq {E} : parameter_cbb (E:=E) = Ok MANDATORY_CBB.
Proof. done. Qed.

(** The parameters of an Initiate PDU as this crate keeps them. *)
Definition initiate_wf (req : InitiateRequest) : Prop :=
  in_i 32 (local_detail req) ∧ in_i 32 (max_serv_outstanding req) ∧ in_i 32 (nesting_level req) ∧
  in_i 32 (max_serv_outstanding_calling req) ∧ in_i 32 (max_serv_outstanding_called req) ∧
  bs_wf (ss_bits (services req)).

Definition cbb_octets (req : InitiateRequest) : list Z := default (bit_octets MANDATORY_CBB) (parameter_cbb_raw req).
Definition support_octets (s : ServiceSupport) : list Z := default (bit_octets (ss_bits s)) (ss_raw s).

Definition support_read (octs : list Z) : ServiceSupport :=
  mkSupport (match decode_bit_string octs with Ok bs => bs | _ => mkBitString [] 0 end) (Some octs).

(** What the peer of an Initiate takes from it. *)
Definition initiate_read (req : InitiateRequest) : InitiateRequest :=
  let both := if decide (called_or_both req < calling_or_both req ∨ calling_or_both req = 0)
              then called_or_both req else calling_or_both req in
  mkInitiate (if decide (local_detail req = 0) then MMS_MAX else local_detail req)
    (if decide (both = 0) then 1 else both) (nesting_level req) (support_read (support_octets (services req)))
    (calling_or_both req) (called_or_both req) (Some (cbb_octets req)).

Definition initiate_fields (req : InitiateRequest) : list (Tag * list Z) :=
  [(context_primitive 0, append_int [] (local_detail req));
   (context_primitive 1, append_int [] (calling_or_both req));
   (context_primitive 2, append_int [] (called_or_both req));
   (context_primitive 3, append_int [] (nesting_level req));
   (context_constructed 4,
    children_octets [(context_primitive 0, append_int [] 1); (context_primitive 1, cbb_octets req);
                     (context_primitive 2, support_octets (services req))])].

Lemma encode_initiate_eq {E} tag req :
  tag_sized tag → tag_constructed tag = true → bs_wf (ss_bits (services req)) →
  encode_initiate (E:=E) tag req = Ok (children_octets [(tag, children_octets (initiate_fields req))]).
Proof.
  intros Ht Hc Hb. unfold encode_initiate.
  assert (bits_or_raw (context_primitive 1) (parameter_cbb_raw req) parameter_cbb =
    Ok (E:=E) (prim (context_primitive 1) (cbb_octets req))) as ->.
  { unfold cbb_octets. by destruct (parameter_cbb_raw req). }
  assert (bits_or_raw (context_primitive 2) (ss_raw (services req)) (Ok (ss_bits (services req))) =
    Ok (E:=E) (prim (context_primitive 2) (support_octets (services req)))) as ->.
  { unfold support_octets. destruct (ss_raw (services req)); [done|]. simpl. unfold bit_string_elem.
    by rewrite (proj1 (bit_octets_spec _ Hb)). }
  run. f_equal. apply writes_encode. apply writes_cons; [done..|]. unfold initiate_fields. writes.
Qed.

Lemma in_i_32_64 n : in_i 32 n → in_i 64 n.
Proof. apply in_i_mono. lia. Qed.

Lemma optional_int_built t n cs pre :
  tag_wf t → in_i 32 n → zlen (append_int [] n) < 2 ^ 32 →
  optional_int (dec_at pre (children_octets ((t, append_int [] n) :: cs))) t =
  Ok (Some n, dec_at (pre ++ append_tlv [] t (append_int [] n)) (children_octets cs)).
Proof.
  intros Ht Hn Hl. unfold optional_int. rewrite optional_field by done. run. unfold int_or_zero, unwrap_or.
  rewrite decode_append_int by by apply in_i_32_64. run. simpl. by rewrite i32_id.
Qed.

Lemma decode_bit_string_settled content : octets content → settled (decode_bit_string content).
Proof.
  intros Ho. destruct content as [|pad bits]; [done|]. simpl. case_decide as H; [done|].
  apply octets_cons in Ho as [Hp _]. unfold octet in Hp. rewrite usub_Ok; [done|].
  destruct bits; [|zlen]. destruct (decide (pad = 0)) as [->|]; [zlen|]. destruct H. by right.
Qed.

#[local] Opaque children_octets each_field.

Lemma parse_detail {E} cbb svc :
  octets svc →
  zlen (children_octets [(context_primitive 0, append_int [] 1); (context_primitive 1, cbb); (context_primitive 2, svc)]) < 2 ^ 32 →
  whole (each_field leave (detail_round (E:=E))
    (children_octets [(context_primitive 0, append_int [] 1); (context_primitive 1, cbb); (context_primitive 2, svc)])
    (None, ServiceSupport_default)) = Ok (Some cbb, support_read svc).
Proof.
  intros Ho Hl. rewrite each_field_fields by fields_ok. unfold detail_round. do 3 round.
  unfold support_read. pose proof (decode_bit_string_settled _ Ho). by destruct (decode_bit_string svc).
Qed.

Lemma both_range req : initiate_wf req → in_i 32 (calling_or_both req) ∧ in_i 32 (called_or_both req).
Proof. intros (? & ? & ? & ? & ? & ?). unfold calling_or_both, called_or_both. split; by case_decide. Qed.

(** The raw octets an Initiate repeats are octets. *)
Definition raw_wf (req : InitiateRequest) : Prop :=
  in_opt octets (parameter_cbb_raw req) ∧ in_opt octets (ss_raw (services req)).

Lemma bit_octets_octets bs : bs_wf bs → octets (bit_octets bs).
Proof.
  intros Hw. destruct (append_decode_bit_string (E:=Empty_set) bs Hw) as (c & Hc & Ho & _). unfold bit_octets. by rewrite Hc.
Qed.

Lemma parse_initiate_body_built req :
  initiate_wf req → raw_wf req → zlen (children_octets (initiate_fields req)) < 2 ^ 32 →
  parse_initiate_body (children_octets (initiate_fields req)) = Ok (initiate_read req).
Proof.
  intros Hw [_ Hr] Hl. pose proof (both_range _ Hw) as [Hcg Hcd]. destruct Hw as (H1 & _ & H3 & _ & _ & Hb).
  assert (octets (support_octets (services req))) as Hs.
  { unfold support_octets. destruct (ss_raw _); [done|]. by apply bit_octets_octets. }
  unfold parse_initiate_body, initiate_fields in *. fields_in Hl. rewrite dec_at_nil.
  rewrite optional_int_built by done. run. rewrite optional_int_built by done. run.
  rewrite optional_int_built by done. run. rewrite optional_int_built by done. run.
  rewrite optional_field by field_ok. run. by rewrite parse_detail.
Qed.

Lemma parse_initiate_request_built req :
  initiate_wf req → raw_wf req →
  zlen (children_octets [(TAG_INITIATE_REQUEST, children_octets (initiate_fields req))]) < 2 ^ 32 →
  parse_initiate_request (children_octets [(TAG_INITIATE_REQUEST, children_octets (initiate_fields req))]) =
  Ok (initiate_read req).
Proof.
  intros Hw Hr Hl. fields_in Hl. unfold parse_initiate_request. rewrite dec_at_nil, expect_field by field_ok. run.
  by apply parse_initiate_body_built.
Qed.

Lemma parse_initiate_response_built req :
  initiate_wf req → raw_wf req →
  zlen (children_octets [(TAG_INITIATE_RESPONSE, children_octets (initiate_fields req))]) < 2 ^ 32 →
  parse_initiate_response (children_octets [(TAG_INITIATE_RESPONSE, children_octets (initiate_fields req))]) =
  Ok (initiate_read req).
Proof.
  intros Hw Hr Hl. fields_in Hl. unfold parse_initiate_response. rewrite dec_at_nil, expect_field by field_ok.
  by apply parse_initiate_body_built.
Qed.

(** ** The answer to an Initiate *)

Lemma clamp_le ours theirs : theirs > 0 → clamp ours theirs ≤ theirs.
Proof. intros H. unfold clamp. case_decide as Hc; [lia|]. destruct (decide (ours ≤ theirs)); [done|]. destruct Hc; lia. Qed.

Lemma clamp_ours ours theirs : ours > 0 → 0 < clamp ours theirs ≤ ours.
Proof. intros H. unfold clamp. case_decide; lia. Qed.

Lemma clamp_range ours theirs w : in_i w ours → in_i w theirs → in_i w (clamp ours theirs).
Proof. intros. unfold clamp. by case_decide. Qed.

(** The parameters both ends support. *)
Lemma intersect_spec {E} ours raw proposed :
  bs_wf ours → octets raw → decode_bit_string raw = Ok proposed →
  ∃ c out, intersect_parameter_cbb (E:=E) ours raw = Ok c ∧ decode_bit_string c = Ok out ∧ octets c ∧
    bs_length out = bs_length ours ∧
    ∀ F i, 0 ≤ i < bs_length ours → ∃ a b, BitString_bit (E:=F) ours i = Ok a ∧
      BitString_bit (E:=F) proposed i = Ok b ∧ BitString_bit (E:=F) out i = Ok (a && b).
Proof.
  intros Hw Ho Hd. destruct (decode_bit_string_inv (E:=E) _ _ Ho Hd) as [Hp _].
  pose proof Hw as (_ & Hl & _). unfold intersect_parameter_cbb. rewrite Hd. run.
  set (f := λ out i, _).
  destruct (for_each_inv (E:=E)
    (λ k out, bs_wf out ∧ bs_length out = bs_length ours ∧
      ∀ F i, 0 ≤ i < bs_length ours →
        if decide (i < k) then
          ∃ a b, BitString_bit (E:=F) ours i = Ok a ∧ BitString_bit (E:=F) proposed i = Ok b ∧
            BitString_bit (E:=F) out i = Ok (a && b)
        else BitString_bit (E:=F) out i = BitString_bit (E:=F) ours i)
    f 0 (bs_length ours) ours) as (out & -> & Hwo & Hlo & Hb); [done|..].
  - split_and!; [done..|]. intros F i Hi. by rewrite decide_False by lia.
  - intros k out Hk (Hwo & Hlo & Hb). unfold f.
    destruct (bit_total (E:=E) ours k Hw) as [a Ha]; [lia|].
    destruct (bit_total (E:=E) proposed k Hp) as [b Hbk]; [lia|]. rewrite Ha. run.
    assert ((if a then BitString_bit (E:=E) proposed k else Ok false) = Ok (a && b)) as -> by (destruct a; done).
    run. destruct (set_bit_spec (E:=E) out k (a && b) Hwo) as (out' & -> & Hw' & Hl' & Hb'); [lia|].
    exists out'. split; [done|]. split_and!; [done|congruence|]. intros F i Hi. rewrite Hb' by lia.
    destruct (decide (k = i)) as [->|Hne].
    + rewrite decide_True by lia. exists a, b. split_and!; [..|done].
      all: revert Ha Hbk; unfold BitString_bit, idx; repeat case_decide; simpl; try (by intros);
        repeat case_match; simpl; congruence.
    + specialize (Hb F i Hi). repeat case_decide; try lia; done.
  - run. destruct (append_decode_bit_string (E:=E) out Hwo) as (c & Hc & Hoc & Hdc). exists c, out.
    split_and!; [done..|]. intros F i Hi. specialize (Hb F i Hi). by rewrite decide_True in Hb by lia.
Qed.

Lemma intersect_malformed {E} ours raw e :
  decode_bit_string raw = Err e → intersect_parameter_cbb (E:=E) ours raw = append_bit_string [] ours.
Proof. intros H. unfold intersect_parameter_cbb. by rewrite H. Qed.

Lemma mandatory_wf : bs_wf MANDATORY_CBB.
Proof. split; [|done]. repeat constructor; lia. Qed.

Lemma intersect_returns {E} ours raw :
  bs_wf ours → octets raw → ∃ c, intersect_parameter_cbb (E:=E) ours raw = Ok c ∧ octets c.
Proof.
  intros Hw Ho. pose proof (decode_bit_string_settled _ Ho). destruct (decode_bit_string raw) as [p|e| |] eqn:Hd; [| |done..].
  - destruct (intersect_spec (E:=E) ours raw p Hw Ho Hd) as (c & _ & ? & _ & ? & _). eauto.
  - rewrite (intersect_malformed _ _ _ Hd). destruct (append_decode_bit_string (E:=E) ours Hw) as (c & ? & ? & _). eauto.
Qed.

(** A responder's answer exists, keeps its own services and stays within the
    proposal. *)
Lemma clamp_initiate_spec {E} want proposed :
  initiate_wf want → raw_wf want → initiate_wf proposed → raw_wf proposed →
  ∃ answer, clamp_initiate (E:=E) want proposed = Ok answer ∧ initiate_wf answer ∧ raw_wf answer ∧
    services answer = services want ∧
    local_detail answer = clamp (local_detail want) (local_detail proposed).
Proof.
  intros Hw Hr Hp [Hpr _]. pose proof (both_range _ Hw) as [Hcg Hcd].
  destruct Hw as (H1 & H2 & H3 & H4 & H5 & H6), Hp as (G1 & G2 & G3 & G4 & G5 & G6), Hr as [Hr1 Hr2].
  assert (∃ cbb, match parameter_cbb_raw want, parameter_cbb_raw proposed with
    | None, Some raw => ours ← parameter_cbb; c ← intersect_parameter_cbb ours raw; Ok (E:=E) (Some c)
    | raw, _ => Ok raw
    end = Ok cbb ∧ in_opt octets cbb) as (cbb & Hcbb & Hco).
  { destruct (parameter_cbb_raw want); [eauto|]. destruct (parameter_cbb_raw proposed) as [raw|]; [|eauto].
    rewrite parameter_cbb_eq. run. destruct (intersect_returns (E:=E) _ raw mandatory_wf Hpr) as (c & -> & Hc). eauto. }
  unfold clamp_initiate. rewrite Hcbb. run. eexists. split; [done|].
  split; [|split; [done|done]]. split_and!; simpl; try done; by apply clamp_range.
Qed.

(** ** Confirmed PDUs and errors *)

Lemma in_u_32_64 n : in_u 32 n → in_u 64 n.
Proof. unfold in_u. lia. Qed.

Lemma u32_of_u32 n : in_u 32 n → u32 n = n.
Proof. unfold in_u, u32, wrap. intros ?. by rewrite Z.mod_small. Qed.

Definition response_content (id : Z) (e : Element) : list Z := append_tlv [] TAG_INTEGER (append_uint [] id) ++ Element_encode e.

(** A field of which the loop needs only the head. *)
Lemma read_tlv_head t c tail :
  tag_wf t → zlen c < 2 ^ 32 → read_tlv (Decoder_new (append_tlv [] t c ++ tail)) = Ok ((t, c), dec_at (append_tlv [] t c) tail).
Proof. intros ? ?. rewrite dec_at_nil. by rewrite read_tlv_dec_at. Qed.

Lemma invoke_id_fits id : in_u 32 id → zlen (append_uint [] id) < 2 ^ 32.
Proof. intros H%in_u_32_64%append_uint_short. lia. Qed.

Lemma split_invoke_built t id body :
  in_u 32 id → t = TAG_INTEGER ∨ t = context_primitive 0 →
  split_invoke (append_tlv [] t (append_uint [] id) ++ body) = Ok (id, body).
Proof.
  intros Hid Ht. unfold split_invoke.
  rewrite read_tlv_head by first [solve [by destruct Ht as [-> | ->]] | by apply invoke_id_fits]. run.
  rewrite decide_False by naive_solver. rewrite decode_append_uint by by apply in_u_32_64. run.
  rewrite rest_fields. run. by rewrite u32_of_u32.
Qed.

Lemma parse_confirmed_request_built {E} id service t c :
  in_u 32 id → writes service (t, c) → field_ok (t, c) →
  parse_confirmed_request (E:=E) (append_tlv [] TAG_INTEGER (append_uint [] id) ++ Element_encode service) =
  Ok (Some (mkRequest id (tag_number t) c)).
Proof.
  intros Hid Hs Hf. unfold parse_confirmed_request.
  rewrite (writes_encode _ _ Hs), <-children_octets_cons, dec_at_nil.
  rewrite expect_field by (split; [done|]; by apply invoke_id_fits). run.
  rewrite decode_append_uint by by apply in_u_32_64. run. rewrite read_field by done. run. by rewrite u32_of_u32.
Qed.

(** The errors a server answers with: octets for their class and code. *)
Definition se_wf (se : ServiceError) : Prop := octet (se_class se) ∧ octet (se_code se).
Definition err_wf (err : MmsError) : Prop := match err with MmsService se => se_wf se | _ => True end.

Lemma error_class_octets err : err_wf err → octet (error_class_choice err).1 ∧ octet (error_class_choice err).2.
Proof.
  unfold octet. destruct err as [se|[]| | | | | | | | | | | |]; simpl; try lia. intros [Hc Hd]. unfold octet in *.
  case_decide; simpl; lia.
Qed.

(** The error of a confirmed error PDU. *)
Definition class_content (class code : Z) : list Z := children_octets [(context_primitive class, append_int [] code)].
Definition error_content (class code : Z) : list Z :=
  children_octets [(context_constructed 2, children_octets [(context_constructed 0, class_content class code)])].

Lemma confirmed_error_pdu_eq id class code :
  octet class →
  confirmed_error_pdu id class code =
  children_octets [(TAG_CONFIRMED_ERROR, append_tlv [] (context_primitive 0) (append_uint [] id) ++ error_content class code)].
Proof.
  intros Hc. unfold confirmed_error_pdu, error_content, class_content. rewrite <-children_octets_cons. apply writes_encode.
  apply writes_cons; [done..|]. constructor; [by apply writes_prim|]. constructor; [|constructor].
  apply writes_cons; [done..|]. constructor; [|constructor]. apply writes_cons; [done..|]. constructor; [|constructor].
  apply writes_prim. unfold octet in Hc. unfold tag_sized. simpl. lia.
Qed.

Lemma octet_i64 n : octet n → in_i 64 n.
Proof. unfold octet, in_i. lia. Qed.

Lemma drill_step {E} levels t c :
  field_ok (t, c) → tag_class t = ContextSpecific →
  drill_error_class (E:=E) (S levels) (children_octets [(t, c)]) =
    (if tag_constructed t then drill_error_class levels c
     else n ← unwrap_or (decode_int c) 0; Ok (Some (u8 (tag_number t), u8 n))).
Proof.
  intros Hf Hc. cbn [drill_error_class]. rewrite each_field_fields by by apply Forall_singleton.
  rewrite fold_fields_cons. cbv beta. rewrite decide_False by (intros H; by apply H). destruct (tag_constructed t).
  - by destruct (drill_error_class levels c) as [[?|]|?| |].
  - by destruct (unwrap_or (decode_int c) 0).
Qed.

Lemma error_content_size class code : octet class → octet code → zlen (error_content class code) ≤ 38.
Proof.
  intros Hc Hd. unfold octet in Hc. pose proof (append_int_short _ (octet_i64 _ Hd)) as Hs.
  apply (zlen_field_le (context_primitive class)) in Hs; [|unfold tag_sized; simpl; lia].
  apply (zlen_field_le (context_constructed 0)) in Hs; [|done].
  by apply (zlen_field_le (context_constructed 2)) in Hs.
Qed.

Lemma decode_service_error_built {E} class code :
  octet class → octet code → decode_service_error (E:=E) (error_content class code) = Ok (ServiceError_new class code).
Proof.
  intros Hc Hd. unfold decode_service_error, DRILL_LEVELS, error_content.
  pose proof (append_int_short _ (octet_i64 _ Hd)) as Hs. unfold octet in Hc.
  pose proof (zlen_field_le (context_primitive class) _ _ ltac:(unfold tag_sized; simpl; lia) Hs) as H1.
  fold (class_content class code) in H1.
  pose proof (zlen_field_le (context_constructed 0) _ _ ltac:(done) H1) as H2.
  rewrite drill_step by (done || field_ok). cbn [tag_constructed context_constructed].
  rewrite drill_step by (done || field_ok). cbn [tag_constructed context_constructed].
  unfold class_content. rewrite drill_step by (done || (split; [unfold tag_wf, in_u; simpl|cbn [snd]]; lia)).
  cbn [tag_constructed context_primitive]. unfold unwrap_or. rewrite decode_append_int by by apply octet_i64.
  run. simpl. unfold u8, wrap. rewrite !Z.mod_small by (unfold octet in *; lia). done.
Qed.

(** A client reads the error a server answered with. *)
Lemma confirmed_error_read {E} id err :
  in_u 32 id → err_wf err →
  let '(class, code) := error_class_choice err in
  ∃ content d body,
    read_tlv (Decoder_new (confirmed_error_pdu id class code)) = Ok ((TAG_CONFIRMED_ERROR, content), d) ∧
    split_invoke content = Ok (id, body) ∧ decode_service_error (E:=E) body = Ok (ServiceError_new class code).
Proof.
  intros Hid Hw. destruct (error_class_octets err Hw) as [Hc Hd].
  destruct (error_class_choice err) as [class code]. simpl in *. rewrite confirmed_error_pdu_eq by done.
  eexists _, _, _. split_and!.
  - rewrite children_octets_cons. apply read_tlv_head; [done|]. rewrite zlen_app.
    pose proof (zlen_tlv_le (context_primitive 0) (append_uint [] id) ltac:(done)).
    pose proof (append_uint_short id (in_u_32_64 _ Hid)). pose proof (error_content_size class code Hc Hd). lia.
  - apply split_invoke_built; auto.
  - by apply decode_service_error_built.
Qed.

Lemma reject_pdu_eq id se :
  octet (se_class se) →
  reject_pdu id se =
  children_octets [(TAG_REJECT_PDU, children_octets
    [(context_primitive 0, append_uint [] id); (context_primitive (se_class se), append_int [] (se_code se))])].
Proof.
  intros Hc. apply writes_encode. apply writes_cons; [done..|]. constructor; [by apply writes_prim|].
  constructor; [|constructor]. apply writes_prim. unfold octet in Hc. unfold tag_sized. simpl. lia.
Qed.

(** A client reads the reject a server answered with. *)
Lemma reject_read {E} id se :
  in_u 32 id → se_wf se →
  ∃ content d,
    read_tlv (Decoder_new (reject_pdu id se)) = Ok ((TAG_REJECT_PDU, content), d) ∧
    parse_reject (E:=E) content =
      Ok (Some (id, mkServiceError (se_class se) (se_code se) true (reject_reason_name (se_class se) (se_code se)))).
Proof.
  intros Hid [Hc Hd]. rewrite reject_pdu_eq by done. pose proof Hc as Hc'. unfold octet in Hc'.
  pose proof (append_int_short _ (octet_i64 _ Hd)). pose proof (append_uint_short id (in_u_32_64 _ Hid)).
  assert (tag_wf (context_primitive (se_class se))) by (unfold tag_wf, in_u; simpl; lia).
  eexists _, _. split.
  - rewrite children_octets_cons. apply read_tlv_head; [done|]. rewrite !children_octets_cons, !zlen_app.
    pose proof (zlen_tlv_le (context_primitive 0) (append_uint [] id) ltac:(done)).
    pose proof (zlen_tlv_le (context_primitive (se_class se)) (append_int [] (se_code se)) ltac:(unfold tag_sized; simpl; lia)).
    change (zlen (children_octets [])) with 0. lia.
  - unfold parse_reject. rewrite dec_at_nil, optional_field by (split; [done|]; cbn [snd]; lia). run.
    unfold unwrap_or. rewrite decode_append_uint by by apply in_u_32_64. run.
    rewrite more_fields. rewrite bool_decide_eq_true_2 by done.
    rewrite read_field by (split; [done|]; cbn [snd]; lia). run. rewrite decode_append_int by by apply octet_i64. run.
    simpl. rewrite u32_of_u32 by done. rewrite !(u8_id _) by done. done.
Qed.

(** ** No input panics *)

Lemma unwrap_or_returns {E F A} (P : A → Prop) (m : outcome E A) a :
  returns P m → P a → returns P (unwrap_or (F:=F) m a).
Proof. by destruct m. Qed.

Lemma int_or_zero_returns {E} c : octets c → returns (in_i 32) (int_or_zero (E:=E) c).
Proof.
  intros Hc. eapply (returns_bind (in_i 64)); [by apply unwrap_or_returns; [apply decode_int_returns|]|].
  intros n _. apply i32_range.
Qed.

Lemma optional_int_reads d t : dec_wf d → reading (in_opt (in_i 32)) (optional_int d t).
Proof.
  intros Hd. eapply reading_bind; [by apply reading_err, reading_optional|]. intros [c|] d' Hc Hd'; [|done].
  eapply returns_bind; [by apply int_or_zero_returns|]. done.
Qed.

Lemma decode_bit_string_returns c : octets c → returns bs_wf (decode_bit_string c).
Proof.
  intros Hc. apply returns_intro; [by apply decode_bit_string_settled|]. intros bs Hbs.
  by apply (decode_bit_string_inv (E:=Empty_set)) in Hbs as [? _].
Qed.

Lemma empty_bits_wf : bs_wf (mkBitString [] 0).
Proof. split; [constructor|done]. Qed.

Lemma parse_initiate_body_returns content :
  octets content → returns (λ r, initiate_wf r ∧ raw_wf r) (parse_initiate_body content).
Proof.
  intros Ho. pose proof empty_bits_wf as He. unfold parse_initiate_body.
  eapply reading_bind; [apply optional_int_reads; by apply Decoder_new_wf|]. intros ld d Hld Hd.
  eapply reading_bind; [by apply optional_int_reads|]. intros cg d1 Hcg Hd1.
  eapply reading_bind; [by apply optional_int_reads|]. intros cd d2 Hcd Hd2.
  eapply reading_bind; [by apply optional_int_reads|]. intros ns d3 Hns Hd3.
  eapply reading_bind; [by apply reading_err, reading_optional|]. intros c d4 Hc Hd4.
  eapply (returns_bind (λ s : option (list Z) * ServiceSupport,
    in_opt octets s.1 ∧ bs_wf (ss_bits s.2) ∧ in_opt octets (ss_raw s.2))).
  - destruct c as [c|]; [|done]. eapply (whole_returns _ (λ _, True)). apply each_field_returns; [done| |done|done].
    intros [cbb svc] t dc (H1 & H2 & H3) Hdc. unfold detail_round. case_decide; [done|]. case_decide; [|done].
    eapply returns_bind; [by apply ok_returns, decode_bit_string_returns|]. intros [bs|] Hbs; done.
  - intros [cbb svc] (H1 & H2 & H3). simpl in *.
    assert (∀ o, in_opt (in_i 32) o → in_i 32 (default 0 o)) as Hdef by by intros [?|].
    assert (in_i 32 MMS_MAX ∧ in_i 32 1) as [? ?] by done.
    assert (∀ n, in_i 32 n → in_i 32 (if decide (n = 0) then 1 else n)) as Hone by (intros; by case_decide).
    split; [|done]. split_and!; simpl; auto.
    + case_decide; auto.
    + apply Hone. destruct cd as [n|]; [|by apply Hdef]. case_decide; [done|by apply Hdef].
Qed.

Lemma parse_initiate_request_returns pdu :
  octets pdu → returns (λ r, initiate_wf r ∧ raw_wf r) (parse_initiate_request pdu).
Proof.
  intros Ho. eapply reading_bind; [apply reading_err, reading_expect; by apply Decoder_new_wf|].
  intros c d Hc _. by apply parse_initiate_body_returns.
Qed.

Lemma parse_initiate_response_returns pdu :
  octets pdu → returns (λ r, initiate_wf r ∧ raw_wf r) (parse_initiate_response pdu).
Proof.
  intros Ho. unfold parse_initiate_response.
  pose proof (reading_expect (Decoder_new pdu) TAG_INITIATE_RESPONSE (Decoder_new_wf _ Ho)) as Hr.
  destruct (expect _ _) as [[c d]|e| |]; [|by case_match|done..]. destruct Hr. by apply parse_initiate_body_returns.
Qed.

Lemma rest_returns d : dec_wf d → returns octets (rest d).
Proof. intros [Ho Hr]. unfold rest. rewrite slice_from_Ok by done. by apply Forall_drop. Qed.

Lemma u32_range n : in_u 32 (u32 n).
Proof. unfold in_u, u32, wrap. pose proof (Z.mod_pos_bound n (2 ^ 32)). lia. Qed.

Lemma split_invoke_returns content :
  octets content → returns (λ r, in_u 32 r.1 ∧ octets r.2) (split_invoke content).
Proof.
  intros Ho. eapply reading_bind; [apply reading_err, reading_read_tlv; by apply Decoder_new_wf|].
  intros [t c] d Hc Hd. case_decide; [done|].
  eapply returns_bind; [by apply returns_map_err, decode_uint_returns|]. intros n Hn.
  eapply returns_bind; [by apply returns_map_err, rest_returns|]. intros b Hb. split; [apply u32_range|done].
Qed.

Lemma drill_returns {E} levels : ∀ body,
  octets body → returns (in_opt (λ r, octet r.1 ∧ octet r.2)) (drill_error_class (E:=E) levels body).
Proof.
  induction levels as [|levels IH]; intros body Ho; [done|]. cbn [drill_error_class].
  eapply (fell_returns (λ _, True)); [|done]. apply each_field_returns; [done| |done|done].
  intros s t c _ Hc. case_decide; [done|]. destruct (tag_constructed t).
  - eapply returns_bind; [by apply IH|]. by intros [r|] Hr.
  - eapply (returns_bind (in_i 64)); [by apply unwrap_or_returns; [apply decode_int_returns|]|].
    intros n _. split; apply u8_octet.
Qed.

Lemma decode_service_error_returns {E} body : octets body → returns se_wf (decode_service_error (E:=E) body).
Proof.
  intros Ho. eapply returns_bind; [by apply drill_returns|]. intros [[c k]|] H; [done|]. split; done.
Qed.

(** A decoder whose failures are swallowed. *)
Lemma ok_reading_bind {E A B} (P : A → Prop) (Q : B → Prop) (m : outcome Asn1Error (A * Decoder)) k :
  reading P m → (∀ a d, P a → dec_wf d → returns Q (k (Some (a, d)))) → returns Q (k None) →
  returns Q (r ← ok (F:=E) m; k r).
Proof. intros Hm Hs Hn. destruct m as [[a d]|?| |]; try done. run. destruct Hm. by apply Hs. Qed.

Lemma parse_confirmed_request_returns {E} content :
  octets content →
  returns (in_opt (λ r, in_u 32 (rq_invoke_id r) ∧ octets (rq_content r))) (parse_confirmed_request (E:=E) content).
Proof.
  intros Ho. eapply ok_reading_bind; [apply reading_expect; by apply Decoder_new_wf| |done].
  intros c d Hc Hd. eapply returns_bind; [by apply ok_returns, decode_uint_returns|]. intros [n|] _; [|done].
  eapply ok_reading_bind; [by apply reading_read_tlv| |done]. intros [t c'] d' Hc' _. split; [apply u32_range|done].
Qed.

Lemma parse_reject_returns {E} content :
  octets content → returns (in_opt (λ r, in_u 32 r.1 ∧ se_wf r.2)) (parse_reject (E:=E) content).
Proof.
  intros Ho. eapply ok_reading_bind; [apply reading_optional; by apply Decoder_new_wf| |done].
  intros b d Hb Hd. eapply (returns_bind (in_u 32)).
  { destruct b as [b|]; [|done]. eapply (returns_bind (in_u 64)); [by apply unwrap_or_returns; [apply decode_uint_returns|]|].
    intros n _. apply u32_range. }
  intros id Hid. eapply (returns_bind se_wf); [|done]. destruct (more d); [|by split].
  eapply ok_reading_bind; [by apply reading_read_tlv| |by split]. intros [t c] d' Hc _.
  eapply returns_bind; [by apply ok_returns, decode_int_returns|]. intros n _. split; [apply u8_octet|].
  destruct n; [apply u8_octet|done].
Qed.
