(* ===== verification/Association.v ===== *)
(** Associations: the client's handshake (src/src/mms/conn.rs), the server's
    (src/src/mms/server_conn.rs) and the framing of the data phase
    (src/src/mms/transport.rs), over the transport interface of [Cotp]. *)

From stdpp Require Import pretty.
From S2P Require Import Prelude Ber BerDecoder BerPrim Utf8 Errors MmsCodec BerFields Tpkt Cotp OsiSession Presentation Acse MmsPdu.
Local Open Scope string_scope.
Local Open Scope list_scope.
Local Open Scope Z_scope.

(** ** The data phase *)

Section framing.
Context `{Tr : Transport T}.

(** A [FramingWriter] and a [FramingReader]; the two halves share the transport. *)
Record Framing := mkFraming {
  fr_transport : T;
  fr_mms_context : Z;
  fr_acse_context : Z;
}.

Definition with_transport (f : Framing) (t : T) : Framing := mkFraming t (fr_mms_context f) (fr_acse_context f).

Definition send_mms (f : Framing) (pdu : list Z) : outcome MmsError Framing :=
  t ← map_err MmsOsi (send_data (fr_transport f) (wrap_data (fr_mms_context f) pdu));
  Ok (with_transport f t).

Definition send_abort (f : Framing) : outcome MmsError Framing :=
  let aru := wrap_abort (fr_acse_context f) (abrt ABORT_SOURCE_USER) in
  t ← map_err MmsOsi (abort (fr_transport f) aru);
  Ok (with_transport f t).

(** Whether an ABORT names the peer's provider. *)
Definition by_provider {E} (user_data : list Z) : outcome E bool :=
  a ← ok (unwrap_abort user_data);
  match a with
  | Some a => s ← ok (parse_abrt a); Ok (bool_decide (s = Some ABORT_SOURCE_PROVIDER))
  | None => Ok false
  end.

Definition recv_mms (f : Framing) : outcome MmsError (list Z * Framing) :=
  match receive_data (fr_transport f) with
  | Ok (ud, t) =>
      pdu ← map_err MmsOsi (unwrap_data ud);
      Ok (pdu, with_transport f t)
  | Err (OsiAborted ud) =>
      p ← by_provider ud;
      Err (MmsAborted (if p : bool then " by the peer's provider" else " by the peer"))
  | Err e => Err (MmsOsi e)
  | Panic => Panic
  | NoFuel => NoFuel
  end.

(** ** The client *)

Record ClientOptions := mkClientOptions {
  co_password : option (list Z);
  co_initiate : option InitiateRequest;
  co_called : Identity;
  co_calling : Identity;
  co_application_context : ApplicationContext;
}.

Definition some_or {E A} (o : option A) (d : outcome E A) : outcome E A :=
  match o with Some a => Ok a | None => d end.

(** The presentation CP of the request. *)
Definition client_cp {E} (opts : ClientOptions) : outcome E (list Z) :=
  init ← some_or (co_initiate opts) InitiateRequest_default;
  pdu ← encode_initiate_request init;
  aarq ← aarq_for pdu (default [] (co_password opts)) (co_called opts) (co_calling opts) (co_application_context opts);
  build_cp DEFAULT_CALLING_PSEL DEFAULT_CALLED_PSEL aarq.

(** The error a refused client reports. *)
Definition refused_error {E} (reason : Z) (user_data : list Z) : outcome E MmsError :=
  let plain := MmsProtocol ("association refused at the session layer (reason " +:+ pretty reason +:+ ")") in
  aare ← ok (parse_cpr_user_data user_data);
  match aare with
  | Some aare =>
      res ← ok (parse_aare aare);
      Ok (match res with
          | Some res => if aare_accepted res then plain else MmsRejected (aare_diagnostic res)
          | None => plain
          end)
  | None => Ok plain
  end.

Record ClientAssociation := mkClient {
  cc_framing : Framing;
  cc_negotiated : InitiateRequest;
  cc_responding : Identity;
}.

(** [Conn::handshake] once the transport connection is up. *)
Definition associate (t : T) (opts : ClientOptions) : outcome MmsError ClientAssociation :=
  cp ← client_cp opts;
  match connect_client t [] [] cp with
  | Ok (cpa_user_data, t) =>
      aare ← map_err MmsOsi (parse_cp_user_data cpa_user_data);
      res ← map_err MmsOsi (parse_aare aare);
      if aare_accepted res then
        negotiated ← parse_initiate_response (aare_user_data res);
        Ok (mkClient (mkFraming t CONTEXT_MMS CONTEXT_ACSE) negotiated (aare_responding res))
      else Err (MmsRejected (aare_diagnostic res))
  | Err (OsiRefused reason user_data) => e ← refused_error reason user_data; Err e
  | Err e => Err (MmsOsi e)
  | Panic => Panic
  | NoFuel => NoFuel
  end.

(** ** The server *)

Context {SocketAddr : Type}.

Record AssociationRequest := mkAssociationRequest {
  ar_peer : option SocketAddr;
  ar_password : option (list Z);
  ar_called : Identity;
  ar_calling : Identity;
  ar_peer_certificates : list (list Z);
}.

(** An authenticator's answer: [None] accepts. *)
Definition Authenticator := AssociationRequest → option MmsError.

Record AcceptOptions := mkAcceptOptions {
  ao_initiate : option InitiateRequest;
  ao_responding : option Identity;
  ao_authenticate : option Authenticator;
  ao_peer_certificates : list (list Z);
}.

Record ServerAssociation := mkServer {
  sa_framing : Framing;
  sa_password : option (list Z);
  sa_peer : option SocketAddr;
  sa_called : Identity;
  sa_calling : Identity;
  sa_negotiated : InitiateRequest;
  sa_max_pdu : Z;
}.

(** What the server sends back to a CP: a refusal with the error it then returns, or
    an acceptance with the association but for its transport. *)
Inductive Answer :=
| Refuse (cpr : list Z) (e : MmsError)
| Accept (cpa : list Z) (mk : T → ServerAssociation).

Definition answer_accept (areq : AarqRequest) (cp : Cp) (psel : list Z) (peer : option SocketAddr)
    (opts : AcceptOptions) : outcome MmsError Answer :=
  proposed ← parse_initiate_request (aarq_user_data areq);
  want ← some_or (ao_initiate opts) server_default;
  answer ← clamp_initiate want proposed;
  init_resp ← encode_initiate_response answer;
  let responding := default Identity_default (ao_responding opts) in
  let neg := negotiate (cp_contexts cp) in
  if negb (has_mms neg) then
    Err (MmsProtocol ("peer proposed no usable MMS presentation context (" +:+ pretty (zlen (cp_contexts cp))
                      +:+ " contexts proposed)"))
  else
    aare ← aare_for init_resp responding (aarq_context areq) (neg_mms neg);
    '(_, cpa) ← build_cpa psel (cp_contexts cp) aare;
    Ok (Accept cpa (λ t,
      mkServer (mkFraming t (neg_mms neg) (neg_acse neg)) (aarq_password areq) peer (aarq_called areq)
        (aarq_calling areq) proposed (Z.max 0 (local_detail answer)))).

Definition answer_refuse (areq : AarqRequest) (cp : Cp) (psel : list Z) (e : MmsError) : outcome MmsError Answer :=
  let diag :=
    match e with
    | MmsAuthenticationRequired => DIAG_AUTHENTICATION_REQUIRED
    | _ => DIAG_AUTHENTICATION_FAILURE
    end in
  aare ← aare_reject_for (aarq_context areq) diag;
  cpr ← build_cpr psel (cp_contexts cp) aare;
  Ok (Refuse cpr (MmsAssociationRejected (MmsError_display e))).

(** What the server answers the user data of a session CONNECT. *)
Definition answer_cp (user_data : list Z) (peer : option SocketAddr) (opts : AcceptOptions)
    : outcome MmsError Answer :=
  cp ← map_err MmsOsi (parse_cp user_data);
  areq ← map_err MmsOsi (parse_aarq (cp_user_data cp));
  let psel := if decide (cp_called_psel cp = []) then DEFAULT_CALLED_PSEL else cp_called_psel cp in
  let refusal :=
    auth ← ao_authenticate opts;
    auth (mkAssociationRequest peer (aarq_password areq) (aarq_called areq) (aarq_calling areq)
            (ao_peer_certificates opts)) in
  match refusal with
  | Some e => answer_refuse areq cp psel e
  | None => answer_accept areq cp psel peer opts
  end.

(** [accept_conn_opts] once the transport connection is up. A refused association
    returns the error with the transport the refusal went out on. *)
Definition accept_conn_opts (t : T) (peer : option SocketAddr) (opts : AcceptOptions)
    : outcome MmsError ((MmsError * T) + ServerAssociation) :=
  '(res, t) ← map_err MmsOsi (accept_server t);
  a ← answer_cp (ar_user_data res) peer opts;
  match a with
  | Refuse cpr e =>
      sent ← ok (refuse t cpr);
      Ok (inl (e, default t sent))
  | Accept cpa mk =>
      t ← map_err MmsOsi (reply t (default [] (ar_called_ssel res)) cpa);
      Ok (inr (mk t))
  end.

End framing.

Arguments mkFraming {T} _ _ _.
Arguments fr_transport {T} _.
Arguments fr_mms_context {T} _.
Arguments fr_acse_context {T} _.

(** ** The two ends agree *)

Definition CLIENT_INITIATE : InitiateRequest :=
  Eval vm_compute in
    match InitiateRequest_default (E:=Empty_set) with
    | Ok i => i
    | _ => mkInitiate 0 0 0 ServiceSupport_default 0 0 None
    end.

Definition SERVER_INITIATE : InitiateRequest :=
  Eval vm_compute in
    match server_default (E:=Empty_set) with
    | Ok i => i
    | _ => mkInitiate 0 0 0 ServiceSupport_default 0 0 None
    end.

Lemma client_default {E} : InitiateRequest_default (E:=E) = Ok CLIENT_INITIATE.
Proof. reflexivity. Qed.

Lemma server_default_eq {E} : server_default (E:=E) = Ok SERVER_INITIATE.
Proof. reflexivity. Qed.

Lemma defaults_wf : (initiate_wf CLIENT_INITIATE ∧ raw_wf CLIENT_INITIATE) ∧ (initiate_wf SERVER_INITIATE ∧ raw_wf SERVER_INITIATE).
Proof.
  split; (split; [|done]); split_and!; try done; (split; [|done]); repeat constructor; lia.
Qed.

(** What an end proposes. *)
Definition client_init (opts : ClientOptions) : InitiateRequest := default CLIENT_INITIATE (co_initiate opts).
Definition server_init {A} (opts : AcceptOptions (SocketAddr:=A)) : InitiateRequest := default SERVER_INITIATE (ao_initiate opts).

Definition proposal_wf (o : option InitiateRequest) : Prop := in_opt (λ i, initiate_wf i ∧ raw_wf i) o.

Definition client_wf (opts : ClientOptions) : Prop :=
  in_opt (λ p, utf8 p = true) (co_password opts) ∧ proposal_wf (co_initiate opts) ∧
  identity_wf (co_called opts) ∧ identity_wf (co_calling opts).

Definition server_wf {A} (opts : AcceptOptions (SocketAddr:=A)) : Prop :=
  proposal_wf (ao_initiate opts) ∧ in_opt identity_wf (ao_responding opts).

Lemma client_init_wf opts : client_wf opts → initiate_wf (client_init opts) ∧ raw_wf (client_init opts).
Proof. intros (_ & H & _). unfold client_init. destruct (co_initiate opts); [done|]. apply defaults_wf. Qed.

Lemma server_init_wf {A} (opts : AcceptOptions (SocketAddr:=A)) :
  server_wf opts → initiate_wf (server_init opts) ∧ raw_wf (server_init opts).
Proof. intros (H & _). unfold server_init. destruct (ao_initiate opts); [done|]. apply defaults_wf. Qed.

(** The password a server sees: none for an empty one. *)
Definition sent_password (o : option (list Z)) : option (list Z) :=
  let p := default [] o in if decide (p = []) then None else Some p.

(** The PDUs of a request, innermost first. *)
Definition initiate_pdu (opts : ClientOptions) : list Z :=
  children_octets [(TAG_INITIATE_REQUEST, children_octets (initiate_fields (client_init opts)))].
Definition aarq_pdu (opts : ClientOptions) : list Z :=
  children_octets [(tag_aarq, children_octets
    (aarq_fields (co_application_context opts) (co_called opts) (co_calling opts) (default [] (co_password opts))
       (initiate_pdu opts)))].
Definition cp_pdu (opts : ClientOptions) : list Z :=
  normal_pdu (cp_params DEFAULT_CALLING_PSEL DEFAULT_CALLED_PSEL (aarq_pdu opts)).

Lemma client_cp_eq {E} opts : client_wf opts → client_cp (E:=E) opts = Ok (cp_pdu opts).
Proof.
  intros Hw. pose proof (client_init_wf opts Hw) as [[_ [_ [_ [_ [_ Hb]]]]] _]. destruct Hw as (_ & _ & Hd & Hg).
  unfold client_cp. replace (some_or (co_initiate opts) InitiateRequest_default) with (Ok (E:=E) (client_init opts))
    by (unfold client_init; by destruct (co_initiate opts)).
  run. unfold encode_initiate_request. rewrite encode_initiate_eq by done. run. rewrite aarq_for_eq by done. run.
  apply build_cp_eq.
Qed.

#[local] Opaque children_octets.

(** What is carried inside a PDU is shorter than it. *)
Lemma inside t c n : zlen (children_octets [(t, c)]) < n → zlen c < n.
Proof. intros H. by fields_in H. Qed.

Lemma inside_of t c (d : list Z) cs : (t, c) ∈ cs → zlen d ≤ zlen c → zlen d < zlen (children_octets cs).
Proof. intros Hin Hd. eapply Z.le_lt_trans; [exact Hd|]. by eapply field_smaller. Qed.

Local Ltac in_fields :=
  repeat first [apply list_elem_of_here | apply elem_of_app; right | apply list_elem_of_further].

(** [d] is inside the field [t] of the fields at hand. *)
Local Ltac inside t := first [apply Z.lt_le_incl | idtac]; eapply (inside_of t); [in_fields|].

Lemma pdv_inside id d : zlen d < zlen (pdv id d).
Proof. unfold pdv. inside TAG_SEQUENCE. by inside (context_constructed 0). Qed.

Lemma normal_inside ps t c : (t, c) ∈ ps → zlen c < zlen (normal_pdu ps).
Proof.
  intros Hin. unfold normal_pdu. inside TAG_SET. inside (context_constructed 2).
  apply Z.lt_le_incl. by eapply field_smaller.
Qed.

Lemma cp_inside calling called d : zlen d < zlen (normal_pdu (cp_params calling called d)).
Proof.
  eapply Z.lt_trans; [apply (pdv_inside CONTEXT_ACSE)|]. apply (normal_inside _ (application_constructed 1)).
  unfold cp_params. in_fields.
Qed.

Lemma answer_inside psel proposed d : zlen d < zlen (children_octets (answer_params psel proposed d)).
Proof. unfold answer_params. inside (application_constructed 1). apply Z.lt_le_incl, pdv_inside. Qed.

Lemma cpa_inside psel proposed d : zlen d < zlen (normal_pdu (answer_params psel proposed d)).
Proof.
  eapply Z.lt_trans; [apply (pdv_inside (acse_context_or_default (negotiate proposed)))|].
  apply (normal_inside _ (application_constructed 1)). unfold answer_params. in_fields.
Qed.

Lemma user_info_inside id d : zlen d < zlen (user_info id d).
Proof. unfold user_info. inside tag_external. by inside (context_constructed 0). Qed.

Lemma aarq_inside ctx called calling pw d :
  zlen d < zlen (children_octets [(tag_aarq, children_octets (aarq_fields ctx called calling pw d))]).
Proof.
  inside tag_aarq. unfold aarq_fields. apply Z.lt_le_incl, (inside_of (context_constructed 30) (user_info PRESENTATION_CONTEXT_MMS d)).
  - apply list_elem_of_further. in_fields.
  - apply Z.lt_le_incl, user_info_inside.
Qed.

Lemma aare_inside proposed responding id d :
  zlen d < zlen (children_octets [(tag_aare, children_octets (aare_fields proposed 0 0 (acceptance_fields responding id d)))]).
Proof.
  inside tag_aare. unfold aare_fields, acceptance_fields.
  apply Z.lt_le_incl, (inside_of (context_constructed 30) (user_info id d)).
  - do 3 apply list_elem_of_further. in_fields.
  - apply Z.lt_le_incl, user_info_inside.
Qed.

(** The request of a client, as its server reads it. *)
Definition client_aarq (opts : ClientOptions) : AarqRequest :=
  mkAarq (Some (ApplicationContext_oid (co_application_context opts))) (initiate_pdu opts)
    (sent_password (co_password opts)) (co_called opts) (co_calling opts).

Lemma server_reads opts :
  client_wf opts → zlen (cp_pdu opts) < 2 ^ 32 →
  parse_cp (cp_pdu opts) = Ok (mkCp DEFAULT_CALLING_PSEL DEFAULT_CALLED_PSEL CONTEXTS (aarq_pdu opts)) ∧
  parse_aarq (aarq_pdu opts) = Ok (client_aarq opts) ∧
  parse_initiate_request (initiate_pdu opts) = Ok (initiate_read (client_init opts)).
Proof.
  intros Hw Hl. pose proof (client_init_wf opts Hw) as [Hi Hr]. destruct Hw as (Hp & _ & Hd & Hg).
  assert (zlen (aarq_pdu opts) < zlen (cp_pdu opts)) as H1 by (unfold cp_pdu; apply cp_inside).
  assert (zlen (initiate_pdu opts) < zlen (aarq_pdu opts)) as H2 by (unfold aarq_pdu; apply aarq_inside).
  split_and!.
  - unfold cp_pdu in *. by apply parse_cp_built.
  - unfold client_aarq, sent_password. rewrite <-parse_aarq_built; [done|done|done| |].
    + by destruct (co_password opts).
    + eapply Z.lt_trans; [exact H1|exact Hl].
  - apply parse_initiate_request_built; [done..|]. eapply Z.lt_trans; [exact H2|]. eapply Z.lt_trans; [exact H1|exact Hl].
Qed.

Lemma support_octets_octets s : bs_wf (ss_bits s) → in_opt octets (ss_raw s) → octets (support_octets s).
Proof. intros Hb Hr. unfold support_octets. destruct (ss_raw s); [done|]. by apply bit_octets_octets. Qed.

Lemma support_read_wf octs : octets octs → bs_wf (ss_bits (support_read octs)).
Proof.
  intros Ho. unfold support_read. simpl. destruct (decode_bit_string octs) as [bs|?| |] eqn:E; try apply empty_bits_wf.
  by apply (decode_bit_string_inv (E:=Empty_set)) in E as [? _].
Qed.

(** What is read of an Initiate can be sent. *)
Lemma initiate_read_wf req : initiate_wf req → raw_wf req → initiate_wf (initiate_read req) ∧ raw_wf (initiate_read req).
Proof.
  intros Hw [Hr1 Hr2]. pose proof (both_range _ Hw) as [Hcg Hcd]. destruct Hw as (H1 & H2 & H3 & H4 & H5 & H6).
  assert (octets (support_octets (services req))) by by apply support_octets_octets.
  assert (octets (cbb_octets req)).
  { unfold cbb_octets. destruct (parameter_cbb_raw req); [done|]. apply bit_octets_octets, mandatory_wf. }
  split; [|done]. split_and!; simpl; try done; [..|by apply support_read_wf]; repeat case_decide; done.
Qed.

Lemma negotiate_contexts : negotiate CONTEXTS = mkNeg CONTEXT_ACSE CONTEXT_MMS.
Proof. reflexivity. Qed.

Lemma has_mms_contexts : has_mms (mkNeg CONTEXT_ACSE CONTEXT_MMS) = true.
Proof. reflexivity. Qed.

Lemma answer_context_mms : answer_context CONTEXT_MMS = CONTEXT_MMS.
Proof. reflexivity. Qed.

Section agreement.
Context {T : Type} {Tr : Transport T} {TL : TransportLaws T} {SocketAddr : Type}.
Context (copts : ClientOptions) (sopts : AcceptOptions (SocketAddr:=SocketAddr)) (peer : option SocketAddr).

(** What the server's authenticator is asked. *)
Definition presented : AssociationRequest :=
  mkAssociationRequest peer (sent_password (co_password copts)) (co_called copts) (co_calling copts)
    (ao_peer_certificates sopts).

Definition verdict : option MmsError := auth ← ao_authenticate sopts; auth presented.

Definition responding : Identity := default Identity_default (ao_responding sopts).

(** The PDUs of an acceptance, innermost first. *)
Definition initiate_response (answer : InitiateRequest) : list Z :=
  children_octets [(TAG_INITIATE_RESPONSE, children_octets (initiate_fields answer))].
Definition aare_pdu (answer : InitiateRequest) : list Z :=
  children_octets [(tag_aare, children_octets
    (aare_fields (Some (ApplicationContext_oid (co_application_context copts))) 0 0
       (acceptance_fields responding CONTEXT_MMS (initiate_response answer))))].
Definition cpa_pdu (answer : InitiateRequest) : list Z :=
  normal_pdu (answer_params DEFAULT_CALLED_PSEL CONTEXTS (aare_pdu answer)).

Definition server_association (answer : InitiateRequest) (t : T) : ServerAssociation :=
  mkServer (mkFraming t CONTEXT_MMS CONTEXT_ACSE) (sent_password (co_password copts)) peer (co_called copts)
    (co_calling copts) (initiate_read (client_init copts)) (Z.max 0 (local_detail answer)).

Lemma responding_wf : server_wf sopts → identity_wf responding.
Proof. intros [_ H]. unfold responding. by destruct (ao_responding sopts). Qed.

(** What the server has of the client's request. *)
Definition client_cp_read : Cp := mkCp DEFAULT_CALLING_PSEL DEFAULT_CALLED_PSEL CONTEXTS (aarq_pdu copts).

Lemma answer_cp_eq :
  client_wf copts → zlen (cp_pdu copts) < 2 ^ 32 →
  answer_cp (T:=T) (cp_pdu copts) peer sopts =
  match verdict with
  | Some e => answer_refuse (client_aarq copts) client_cp_read DEFAULT_CALLED_PSEL e
  | None => answer_accept (client_aarq copts) client_cp_read DEFAULT_CALLED_PSEL peer sopts
  end.
Proof.
  intros Hc Hl. destruct (server_reads copts Hc Hl) as (Hcp & Haarq & _).
  assert (parse_cp (cp_pdu copts) = Ok client_cp_read) as Hcp' by exact Hcp.
  assert (parse_aarq (cp_user_data client_cp_read) = Ok (client_aarq copts)) as Haarq' by exact Haarq.
  unfold answer_cp. rewrite Hcp', map_err_Ok, bind_Ok, Haarq', map_err_Ok, bind_Ok. reflexivity.
Qed.

(** The server's answer when the client may associate. *)
Lemma server_answers :
  client_wf copts → server_wf sopts → zlen (cp_pdu copts) < 2 ^ 32 →
  ∃ answer, clamp_initiate (E:=MmsError) (server_init sopts) (initiate_read (client_init copts)) = Ok answer ∧
    initiate_wf answer ∧ raw_wf answer ∧
    local_detail answer = clamp (local_detail (server_init sopts)) (local_detail (initiate_read (client_init copts))) ∧
    answer_accept (T:=T) (client_aarq copts) client_cp_read DEFAULT_CALLED_PSEL peer sopts =
      Ok (Accept (cpa_pdu answer) (server_association answer)).
Proof.
  intros Hc Hs Hl. destruct (server_reads copts Hc Hl) as (_ & _ & Hinit).
  destruct (client_init_wf copts Hc) as [Hci Hcr]. destruct (initiate_read_wf _ Hci Hcr) as [Hpi Hpr].
  destruct (server_init_wf sopts Hs) as [Hsi Hsr].
  destruct (clamp_initiate_spec (E:=MmsError) _ _ Hsi Hsr Hpi Hpr) as (answer & Hans & Hai & Har & _ & Hd).
  exists answer. split_and!; [done..|].
  unfold answer_accept. cbn [client_aarq aarq_user_data aarq_context aarq_password aarq_called aarq_calling].
  rewrite Hinit. run.
  replace (some_or (ao_initiate sopts) server_default) with (Ok (E:=MmsError) (server_init sopts))
    by (unfold server_init; by destruct (ao_initiate sopts)).
  run. rewrite Hans. run. unfold encode_initiate_response.
  rewrite encode_initiate_eq by (done || apply Hai). run.
  cbn [cp_contexts client_cp_read]. rewrite negotiate_contexts. cbn [neg_mms neg_acse]. rewrite has_mms_contexts. cbn [negb].
  rewrite aare_for_eq by by apply responding_wf. run. rewrite build_cpa_eq. run.
  rewrite answer_context_mms. reflexivity.
Qed.

(** What a client makes of an acceptance. *)
Lemma client_reads answer :
  server_wf sopts → initiate_wf answer → raw_wf answer → zlen (cpa_pdu answer) < 2 ^ 32 →
  parse_cp_user_data (cpa_pdu answer) = Ok (aare_pdu answer) ∧
  parse_aare (aare_pdu answer) = Ok (mkAare true 0 (initiate_response answer) responding) ∧
  parse_initiate_response (initiate_response answer) = Ok (initiate_read answer).
Proof.
  intros Hs Hi Hr Hl.
  assert (zlen (aare_pdu answer) < zlen (cpa_pdu answer)) as H1 by (unfold cpa_pdu; apply cpa_inside).
  assert (zlen (initiate_response answer) < zlen (aare_pdu answer)) as H2 by (unfold aare_pdu; apply aare_inside).
  split_and!.
  - unfold cpa_pdu in *. apply parse_cpa_built; [by repeat constructor|done].
  - apply parse_aare_accepted; [by apply responding_wf|]. eapply Z.lt_trans; [exact H1|exact Hl].
  - apply parse_initiate_response_built; [done..|]. eapply Z.lt_trans; [exact H2|]. eapply Z.lt_trans; [exact H1|exact Hl].
Qed.

Definition client_association (answer : InitiateRequest) (t : T) : ClientAssociation :=
  mkClient (mkFraming t CONTEXT_MMS CONTEXT_ACSE) (initiate_read answer) responding.

Lemma associate_accepted (client client' : T) answer :
  client_wf copts → server_wf sopts → initiate_wf answer → raw_wf answer → zlen (cpa_pdu answer) < 2 ^ 32 →
  connect_client client [] [] (cp_pdu copts) = Ok (cpa_pdu answer, client') →
  associate client copts = Ok (client_association answer client').
Proof.
  intros Hc Hs Hi Hr Hl Hconn. destruct (client_reads answer Hs Hi Hr Hl) as (H1 & H2 & H3).
  unfold associate. rewrite client_cp_eq by done. rewrite bind_Ok, Hconn, H1, map_err_Ok, bind_Ok, H2, map_err_Ok, bind_Ok.
  cbn [aare_accepted aare_user_data aare_responding]. rewrite H3. done.
Qed.

Lemma fits_u32 ud : connect_fits [] [] ud → zlen ud < 2 ^ 32.
Proof.
  intros H%pis_ok_fits. unfold pis_ok in H. rewrite Forall_forall in H.
  assert (zlen (PGI_USER_DATA, ud).2 ≤ 65535) as Hud; [|simpl in Hud; lia].
  apply H. unfold connect_pis. in_fields.
Qed.


(** The diagnostic of a refusal. *)
Definition refusal_diagnostic (e : MmsError) : Z :=
  match e with MmsAuthenticationRequired => 14 | _ => 13 end.

Definition reject_aare (e : MmsError) : list Z :=
  children_octets [(tag_aare, children_octets
    (aare_fields (Some (ApplicationContext_oid (co_application_context copts))) 1 (refusal_diagnostic e) []))].
Definition cpr_pdu (e : MmsError) : list Z :=
  children_octets [(TAG_SEQUENCE, children_octets (answer_params DEFAULT_CALLED_PSEL CONTEXTS (reject_aare e)))].

Lemma server_refuses e :
  answer_refuse (T:=T) (SocketAddr:=SocketAddr) (client_aarq copts) client_cp_read DEFAULT_CALLED_PSEL e =
  Ok (Refuse (cpr_pdu e) (MmsAssociationRejected (MmsError_display e))).
Proof.
  unfold answer_refuse. cbn [client_aarq aarq_context cp_contexts client_cp_read]. rewrite aare_reject_for_eq, bind_Ok.
  rewrite build_cpr_eq, bind_Ok. by destruct e.
Qed.

(** A refusal is short. *)
Lemma cpr_size e : zlen (cpr_pdu e) ≤ 200.
Proof.
  unfold cpr_pdu, reject_aare. assert (refusal_diagnostic e = 13 ∨ refusal_diagnostic e = 14) as [-> | ->] by (destruct e; auto);
    destruct (co_application_context copts); vm_compute; discriminate.
Qed.

Lemma client_reads_refusal {E} reason e : refused_error (E:=E) reason (cpr_pdu e) = Ok (MmsRejected (refusal_diagnostic e)).
Proof.
  unfold refused_error, cpr_pdu, reject_aare.
  assert (refusal_diagnostic e = 13 ∨ refusal_diagnostic e = 14) as [-> | ->] by (destruct e; auto);
    destruct (co_application_context copts); vm_compute; reflexivity.
Qed.

(** A client the authenticator turns away learns it. The server answers its
    CONNECT with a refusal and returns the error of the rejected association; from
    the refusal the client's [associate] fails with the diagnostic 14
    (authentication required) when that was the authenticator's error and 13
    (authentication failure) otherwise. No association is made at either end. *)
Theorem association_rejected (client server : T) (e : MmsError) :
  client_wf copts → verdict = Some e → connect_fits [] [] (cp_pdu copts) →
  ∃ resp,
    (∀ xs, ready server → inbox server (build_connect SI_CONNECT [] [] (cp_pdu copts) :: xs) →
       ∃ s', accept_conn_opts server peer sopts = Ok (inl (MmsAssociationRejected (MmsError_display e), s')) ∧
         ∀ ys, outbox server ys → outbox s' (ys ++ [resp])) ∧
    (∀ xs, ready client → inbox client (resp :: xs) →
       associate client copts =
       Err (MmsRejected (match e with MmsAuthenticationRequired => 14 | _ => 13 end))).
Proof using TL.
  intros Hc Hv Hf. pose proof (fits_u32 _ Hf) as Hl. pose proof (cpr_size e) as Hcpr.
  destruct (association_refused client [] [] (cp_pdu copts) (cpr_pdu e)) as (resp & Hserver & Hclient); [lia|].
  exists resp. split.
  - intros xs Hr Hi. destruct (accept_server_law server [] [] (cp_pdu copts) xs Hf Hi) as (s1 & Ha & _ & Hr1 & Ho1).
    destruct (Hserver s1 (Hr1 Hr)) as (s2 & Href & Ho2). exists s2. split; [|auto].
    unfold accept_conn_opts. rewrite Ha, map_err_Ok, bind_Ok. cbn [ar_user_data ar_called_ssel].
    rewrite answer_cp_eq by done. rewrite Hv, server_refuses, bind_Ok, Href. done.
  - intros xs Hr Hi. unfold associate. rewrite client_cp_eq by done. rewrite bind_Ok, (Hclient xs Hr Hi).
    rewrite client_reads_refusal. done.
Qed.
End agreement.

(** ** The data phase carries PDUs *)

Section data.
Context {T : Type} {Tr : Transport T} {TL : TransportLaws T}.

Fixpoint send_mms_all (f : Framing (T:=T)) (pdus : list (list Z)) : outcome MmsError Framing :=
  match pdus with
  | [] => Ok f
  | pdu :: pdus => f ← send_mms f pdu; send_mms_all f pdus
  end.

Fixpoint recv_mms_all (n : nat) (f : Framing (T:=T)) : outcome MmsError (list (list Z) * Framing) :=
  match n with
  | O => Ok ([], f)
  | S n => '(pdu, f) ← recv_mms f; '(pdus, f) ← recv_mms_all n f; Ok (pdu :: pdus, f)
  end.

Lemma send_mms_all_eq f pdus :
  send_mms_all f pdus =
  (t ← map_err MmsOsi (send_all (fr_transport f) (map (wrap_data (fr_mms_context f)) pdus)); Ok (with_transport f t)).
Proof.
  revert f. induction pdus as [|pdu pdus IH]; intros f; [by destruct f|]. cbn [send_mms_all map send_all].
  unfold send_mms. destruct (send_data _ _) as [t|?| |]; try done. cbn [map_err mbind outcome_bind]. by rewrite IH.
Qed.

Lemma recv_mms_all_eq ctx pdus f t :
  in_i 64 ctx → Forall (λ p, zlen (wrap_data ctx p) < 2 ^ 32) pdus →
  receive_all (length pdus) (fr_transport f) = Ok (map (wrap_data ctx) pdus, t) →
  recv_mms_all (length pdus) f = Ok (pdus, with_transport f t).
Proof.
  intros Hc. revert f t. induction pdus as [|pdu pdus IH]; intros f t Hp; cbn [length receive_all recv_mms_all map].
  { intros [= <-]. by destruct f. }
  apply Forall_cons in Hp as [Hp Hps]. intros ([u t1] & Hu & H)%bind_Ok_inv.
  apply bind_Ok_inv in H as ([us t2] & Hus & [= -> -> ->]). unfold recv_mms at 1. rewrite Hu.
  rewrite unwrap_wrap_data by done. rewrite map_err_Ok, !bind_Ok.
  rewrite (IH (with_transport f t1) t Hps); [done|]. exact Hus.
Qed.

Lemma abort_small ctx : in_i 64 ctx → zlen (wrap_abort ctx (abrt ABORT_SOURCE_USER)) ≤ 200.
Proof.
  intros Hc. unfold wrap_abort. set (i := if decide _ then _ else _).
  assert (in_i 64 i) as Hi%append_int_short by (unfold i; by case_decide).
  assert (writes (cons_elem (context_constructed 0) [user_data i (abrt ABORT_SOURCE_USER)])
    (context_constructed 0, children_octets [(application_constructed 1, pdv i (abrt ABORT_SOURCE_USER))])) as Hw by writes.
  rewrite (writes_encode _ _ Hw). unfold pdv.
  pose proof (zlen_tlv_le TAG_INTEGER (append_int [] i) ltac:(done)) as H1.
  pose proof (zlen_field_le (context_constructed 0) (abrt ABORT_SOURCE_USER) 10 ltac:(done) ltac:(done)) as H2.
  assert (zlen (children_octets [(TAG_INTEGER, append_int [] i); (context_constructed 0, abrt ABORT_SOURCE_USER)]) ≤ 40) as H3.
  { rewrite children_octets_cons, zlen_app. lia. }
  apply (zlen_field_le TAG_SEQUENCE) in H3; [|done]. apply (zlen_field_le (application_constructed 1)) in H3; [|done].
  apply (zlen_field_le (context_constructed 0)) in H3; [|done]. lia.
Qed.

Lemma by_provider_user {E} ctx : in_i 64 ctx → by_provider (E:=E) (wrap_abort ctx (abrt ABORT_SOURCE_USER)) = Ok false.
Proof.
  intros Hc. pose proof (abort_small ctx Hc). unfold by_provider. rewrite unwrap_wrap_abort by (done || lia).
  vm_compute. reflexivity.
Qed.

(** The MMS data phase is transparent: PDUs sent in sequence by either end of an
    association, whatever presentation contexts it negotiated, are received as they
    were sent and in order; and an abort after them is received as an abort by the
    peer's user. *)
Theorem mms_data_phase (f : Framing (T:=T)) (pdus : list (list Z)) :
  ready (fr_transport f) → outbox (fr_transport f) [] →
  in_i 64 (fr_mms_context f) → in_i 64 (fr_acse_context f) →
  Forall (λ p, zlen (wrap_data (fr_mms_context f) p) < 2 ^ 32) pdus →
  ∃ f1 f2, send_mms_all f pdus = Ok f1 ∧ send_abort f1 = Ok f2 ∧
    ∀ g : Framing, (∀ xs, outbox (fr_transport f2) xs → inbox (fr_transport g) xs) →
      ∃ g1, recv_mms_all (length pdus) g = Ok (pdus, g1) ∧ recv_mms g1 = Err (MmsAborted " by the peer").
Proof using TL.
  intros Hr Ho Hm Ha Hp. pose proof (abort_small _ Ha) as Hsmall.
  destruct (session_transparent (fr_transport f) (map (wrap_data (fr_mms_context f)) pdus)
    (wrap_abort (fr_acse_context f) (abrt ABORT_SOURCE_USER)) Hr Ho ltac:(lia)) as (t1 & t2 & H1 & H2 & Hrecv).
  exists (with_transport f t1), (with_transport f t2). rewrite send_mms_all_eq, H1. split; [done|].
  split. { unfold send_abort. cbn [fr_transport with_transport fr_acse_context]. by rewrite H2. }
  intros g Hlink. destruct (Hrecv (fr_transport g) Hlink) as (r1 & Hr1 & Hab). rewrite length_map in Hr1.
  exists (with_transport g r1). split; [by apply (recv_mms_all_eq (fr_mms_context f))|].
  unfold recv_mms. cbn [fr_transport with_transport]. rewrite Hab. by rewrite by_provider_user.
Qed.
End data.

(** ** No peer panics an end *)

(** What a transport may deliver: user data made of octets, or an error. *)
Definition delivers {A} (r : outcome OsiError (list Z * A)) : Prop :=
  match r with
  | Ok (ud, _) | Err (OsiRefused _ ud) | Err (OsiAborted ud) => octets ud
  | Err _ => True
  | Panic | NoFuel => False
  end.

Section safety.
Context {T : Type} {Tr : Transport T} {SocketAddr : Type}.

Lemma by_provider_settled {E} ud : octets ud → settled (by_provider (E:=E) ud).
Proof.
  intros Ho. apply (returns_settled (λ _, True)). eapply returns_bind; [by apply returns_option, abort_returns|].
  intros [a|] Ha; [|done]. eapply returns_bind; [apply ok_returns, parse_abrt_returns; by apply Ha|]. done.
Qed.

Lemma refused_error_settled {E} reason ud : octets ud → settled (refused_error (E:=E) reason ud).
Proof.
  intros Ho. apply (returns_settled (λ _, True)). eapply returns_bind; [by apply returns_option, cpr_returns|].
  intros [a|] Ha; [|done]. eapply returns_bind; [apply ok_returns, parse_aare_returns; by apply Ha|]. by intros [?|].
Qed.

Lemma answer_accept_settled areq cp psel (peer : option SocketAddr) opts :
  server_wf opts → aarq_wf areq → settled (answer_accept (T:=T) areq cp psel peer opts).
Proof.
  intros Hs [Hud _]. apply (returns_settled (λ _, True)). unfold answer_accept.
  eapply returns_bind; [by apply parse_initiate_request_returns|]. intros proposed [Hpi Hpr].
  destruct (server_init_wf opts Hs) as [Hsi Hsr].
  replace (some_or (ao_initiate opts) server_default) with (Ok (E:=MmsError) (server_init opts))
    by (unfold server_init; by destruct (ao_initiate opts)).
  rewrite bind_Ok. destruct (clamp_initiate_spec (E:=MmsError) _ _ Hsi Hsr Hpi Hpr) as (answer & -> & Hai & _).
  rewrite bind_Ok. unfold encode_initiate_response. rewrite encode_initiate_eq by (done || apply Hai). rewrite bind_Ok.
  destruct (negb _); [done|]. rewrite aare_for_eq by by apply (responding_wf opts). rewrite bind_Ok, build_cpa_eq, bind_Ok. done.
Qed.

Lemma answer_refuse_settled areq cp psel e :
  settled (answer_refuse (T:=T) (SocketAddr:=SocketAddr) areq cp psel e).
Proof. unfold answer_refuse. rewrite aare_reject_for_eq, bind_Ok, build_cpr_eq, bind_Ok. done. Qed.

(** No peer panics an end of an association. Whatever octets a client's CONNECT
    carries, the server's answer to them is computed or is an error; whatever a
    server answers a CONNECT with, [associate] returns or fails; and whatever arrives
    in the data phase, [recv_mms] returns a PDU or an error. *)
Theorem association_safe (ud : list Z) (peer : option SocketAddr) (opts : AcceptOptions) (copts : ClientOptions)
    (t : T) (f : Framing (T:=T)) :
  (octets ud → server_wf opts → settled (answer_cp (T:=T) ud peer opts)) ∧
  (client_wf copts → delivers (connect_client t [] [] (cp_pdu copts)) → settled (associate t copts)) ∧
  (delivers (receive_data (fr_transport f)) → settled (recv_mms f)).
Proof.
  split_and!.
  - intros Ho Hs. apply (returns_settled (λ _, True)). unfold answer_cp.
    eapply returns_bind; [by apply returns_map_err, parse_cp_returns|]. intros cp (_ & _ & _ & Hud).
    eapply returns_bind; [by apply returns_map_err, parse_aarq_returns|]. intros areq Ha. simpl.
    case_match; (apply returns_intro; [|done]); [apply answer_refuse_settled|by apply answer_accept_settled].
  - intros Hc Hd. unfold associate. rewrite client_cp_eq, bind_Ok by done.
    destruct (connect_client _ _ _ _) as [[d t']|[]| |]; try done.
    + apply (returns_settled (λ _, True)). eapply returns_bind; [by apply returns_map_err, parse_cpa_returns|]. intros a Ha.
      eapply returns_bind; [by apply returns_map_err, parse_aare_returns|]. intros res (_ & Hu & _).
      destruct (aare_accepted res); [|done]. eapply returns_bind; [by apply parse_initiate_response_returns|]. done.
    + simpl in Hd. pose proof (refused_error_settled (E:=MmsError) reason user_data Hd). by destruct (refused_error _ _).
  - intros Hd. unfold recv_mms. destruct (receive_data _) as [[d t']|[]| |]; try done.
    + apply (returns_settled (λ _, True)). eapply returns_bind; [by apply returns_map_err, unwrap_returns|]. done.
    + simpl in Hd. pose proof (by_provider_settled (E:=MmsError) user_data Hd). by destruct (by_provider _).
Qed.
End safety.

(** ** At concrete inputs *)

(** A client with a password and an identity, and servers that ask for them. *)
Definition a_client : ClientOptions :=
  mkClientOptions (Some [112; 119]) None (mkIdentity (Some [1; 1; 999; 1]) (Some 12) None None) Identity_default Acsi.

Definition password_server (pw : list Z) : AcceptOptions (SocketAddr:=unit) :=
  mkAcceptOptions None (Some (mkIdentity (Some [1; 1; 999; 1]) (Some 12) None None))
    (Some (λ r, if decide (ar_password r = Some pw) then None else Some MmsAuthenticationRequired)) [].

Lemma a_client_wf : client_wf a_client.
Proof. by repeat (split || constructor). Qed.

Lemma password_server_wf pw : server_wf (password_server pw).
Proof. by repeat (split || constructor). Qed.

Definition ANSWER : InitiateRequest :=
  Eval vm_compute in
    match clamp_initiate (E:=Empty_set) SERVER_INITIATE (initiate_read CLIENT_INITIATE) with
    | Ok a => a
    | _ => SERVER_INITIATE
    end.


Lemma association_rejected_witness :
  client_wf a_client ∧ verdict a_client (password_server []) None = Some MmsAuthenticationRequired ∧
  ∃ resp,
    (∀ xs, ready (idle_conn 1024) → inbox (idle_conn 1024) (build_connect SI_CONNECT [] [] (cp_pdu a_client) :: xs) →
       ∃ s', accept_conn_opts (idle_conn 1024) None (password_server []) =
               Ok (inl (MmsAssociationRejected "mms: authentication required", s'))) ∧
    (∀ xs, ready (idle_conn 1024) → inbox (idle_conn 1024) (resp :: xs) →
       associate (idle_conn 1024) a_client = Err (MmsRejected 14)).
Proof.
  split; [apply a_client_wf|]. split; [by vm_compute|].
  destruct (association_rejected (T:=Conn) a_client (password_server []) None (idle_conn 1024) (idle_conn 1024)
    MmsAuthenticationRequired a_client_wf ltac:(by vm_compute) ltac:(by vm_compute)) as (resp & Hs & Hc).
  exists resp. split; [|exact Hc]. intros xs Hr Hi. destruct (Hs xs Hr Hi) as (s' & H & _). by exists s'.
Defined.

Lemma mms_data_phase_witness :
  ∃ f1 f2, send_mms_all (mkFraming (idle_conn 1024) 3 1) [[160; 0]; []; [139; 0]] = Ok f1 ∧ send_abort f1 = Ok f2 ∧
    ∀ g : Framing (T:=Conn), (∀ xs, outbox (fr_transport f2) xs → inbox (fr_transport g) xs) →
      ∃ g1, recv_mms_all 3 g = Ok ([[160; 0]; []; [139; 0]], g1) ∧ recv_mms g1 = Err (MmsAborted " by the peer").
Proof.
  apply (mms_data_phase (mkFraming (idle_conn 1024) 3 1) [[160; 0]; []; [139; 0]]).
  - by split; vm_compute.
  - exists []. split; [by apply Forall2_nil | done].
  - done.
  - done.
  - repeat constructor.
Defined.

Lemma association_safe_witness :
  settled (answer_cp (T:=Conn) [49; 3; 162; 1; 255] None (password_server [])) ∧
  settled (associate (idle_conn 1024) a_client) ∧
  settled (recv_mms (mkFraming (idle_conn 1024) 3 1)).
Proof.
  destruct (association_safe [49; 3; 162; 1; 255] None (password_server []) a_client (idle_conn 1024)
    (mkFraming (idle_conn 1024) 3 1)) as (H1 & H2 & H3).
  split; [|split].
  - apply H1; [|apply password_server_wf]. apply (bool_decide_eq_true_1 _). by vm_compute.
  - apply H2; [apply a_client_wf|]. by vm_compute.
  - apply H3. by vm_compute.
Defined.
