(* ===== verification/Oneshot.v ===== *)
(** Tables of [tokio::sync::oneshot] senders, as src/src/mms/conn.rs and
    src/src/mms/server_conn.rs keep them: a map from identifiers to the senders of
    results somebody waits for.

    A channel is a number. Its receiver sees nothing while the sender is held, the
    value when one was sent, and an error when the sender was dropped without one. *)

From stdpp Require Import gmap.
From S2P Require Import Prelude.
Local Open Scope Z_scope.

Section table.
Context {R : Type}.

(** What the receivers see: [Some (Some r)] a value, [Some None] a dropped sender. *)
Record Table := mkTable {
  tb_senders : gmap Z nat;
  tb_results : gmap nat (option R);
  tb_next : nat;
}.

Definition Table_new : Table := mkTable ∅ ∅ 0.

(** The value is sent, or the sender dropped without one. *)
Definition resolve (results : gmap nat (option R)) (ch : nat) (r : option R) : gmap nat (option R) :=
  <[ch := r]> results.

(** [oneshot::channel()] and [insert(id, tx)]: a sender that was under [id] is
    dropped. The receiver's channel is returned. *)
Definition insert_sender (t : Table) (id : Z) : nat * Table :=
  let ch := tb_next t in
  let results :=
    match tb_senders t !! id with
    | Some old => resolve (tb_results t) old None
    | None => tb_results t
    end in
  (ch, mkTable (<[id := ch]> (tb_senders t)) results (S ch)).

(** [remove(&id)] whose sender then sends [r], or is dropped. *)
Definition take_sender (t : Table) (id : Z) (r : option R) : Table :=
  match tb_senders t !! id with
  | Some ch => mkTable (delete id (tb_senders t)) (resolve (tb_results t) ch r) (tb_next t)
  | None => t
  end.

(** [drain()], every sender sending [r]; or [clear()]. *)
Definition drain_senders (t : Table) (r : option R) : Table :=
  mkTable ∅ (map_fold (λ _ ch results, resolve results ch r) (tb_results t) (tb_senders t)) (tb_next t).

(** What the receiver of a channel sees. *)
Definition received (t : Table) (ch : nat) : option (option R) := tb_results t !! ch.

(** ** Invariant *)

(** A held sender's channel has no result, is held once, and is an existing one. *)
Record table_wf (t : Table) : Prop := mkTableWf {
  tw_waiting id ch : tb_senders t !! id = Some ch → tb_results t !! ch = None;
  tw_once id id' ch : tb_senders t !! id = Some ch → tb_senders t !! id' = Some ch → id = id';
  tw_fresh id ch : tb_senders t !! id = Some ch → (ch < tb_next t)%nat;
  tw_results ch r : tb_results t !! ch = Some r → (ch < tb_next t)%nat;
}.

Lemma Table_new_wf : table_wf Table_new.
Proof. split; set_solver. Qed.

Lemma insert_sender_wf t id : table_wf t → table_wf (insert_sender t id).2.
Proof.
  intros [Hw Ho Hf Hr]. unfold insert_sender, resolve. split; simpl.
  - intros id' ch. destruct (decide (id' = id)) as [->|Hne].
    + rewrite lookup_insert_eq. intros [= <-]. destruct (tb_senders t !! id) as [old|] eqn:E.
      * rewrite lookup_insert_ne by (pose proof (Hf _ _ E); lia). destruct (tb_results t !! _) eqn:E'; [|done].
        apply Hr in E'. lia.
      * destruct (tb_results t !! _) eqn:E'; [|done]. apply Hr in E'. lia.
    + rewrite lookup_insert_ne by done. intros Hch. destruct (tb_senders t !! id) as [old|] eqn:E; [|by eapply Hw].
      rewrite lookup_insert_ne; [by eapply Hw|]. intros <-. by destruct (Hne (Ho _ _ _ Hch E)).
  - intros i j ch. rewrite !lookup_insert_Some. intros [[<- <-]|[? Hi]] [[<- E]|[? Hj]]; try done.
    + apply Hf in Hj. lia.
    + subst. apply Hf in Hi. lia.
    + by eapply Ho.
  - intros i ch. rewrite lookup_insert_Some. intros [[<- <-]|[_ Hi]]; [lia|]. apply Hf in Hi. lia.
  - intros ch r. destruct (tb_senders t !! id) as [old|] eqn:E.
    + rewrite lookup_insert_Some. intros [[<- _]|[_ H]]; [apply Hf in E; lia|]. apply Hr in H. lia.
    + intros H%Hr. lia.
Qed.

Lemma take_sender_wf t id r : table_wf t → table_wf (take_sender t id r).
Proof.
  intros [Hw Ho Hf Hr]. unfold take_sender, resolve. destruct (tb_senders t !! id) as [ch|] eqn:E; [|by split].
  split; simpl.
  - intros id' ch'. rewrite lookup_delete_Some. intros [Hne H]. rewrite lookup_insert_ne; [by eapply Hw|].
    intros <-. by destruct (Hne (Ho _ _ _ E H)).
  - intros i j c. rewrite !lookup_delete_Some. intros [_ Hi] [_ Hj]. by eapply Ho.
  - intros i c. rewrite lookup_delete_Some. intros [_ H]. by eapply Hf.
  - intros c x. rewrite lookup_insert_Some. intros [[<- _]|[_ H]]; [by eapply Hf|by eapply Hr].
Qed.

(** Draining resolves exactly the channels that were held. *)
Lemma drain_spec t r ch :
  ((∃ id, tb_senders t !! id = Some ch) → received (drain_senders t r) ch = Some r) ∧
  ((∀ id, tb_senders t !! id ≠ Some ch) → received (drain_senders t r) ch = received t ch).
Proof.
  unfold received, drain_senders, resolve. simpl.
  apply (map_fold_weak_ind (λ res (m : gmap Z nat),
    ((∃ id, m !! id = Some ch) → res !! ch = Some r) ∧ ((∀ id, m !! id ≠ Some ch) → res !! ch = tb_results t !! ch))).
  - split; [|done]. intros (id & H). by rewrite lookup_empty in H.
  - intros id c m res Hid [IH1 IH2]. split.
    + intros (id' & H). destruct (decide (c = ch)) as [->|Hne]; [by rewrite lookup_insert_eq|].
      rewrite lookup_insert_ne by done. apply IH1. apply lookup_insert_Some in H as [[_ ?]|[_ H]]; [done|eauto].
    + intros H. assert (c ≠ ch) as Hne by (intros ->; apply (H id); apply lookup_insert_eq).
      rewrite lookup_insert_ne by done. apply IH2. intros id' H'. apply (H id').
      rewrite lookup_insert_ne; [done|]. by intros <-; rewrite Hid in H'.
Qed.

Lemma drain_wf t r : table_wf t → table_wf (drain_senders t r).
Proof.
  intros [Hw Ho Hf Hr]. split; try (simpl; by intros *; rewrite lookup_empty).
  intros ch x H. destruct (drain_spec t r ch) as [_ H2]. change (tb_next (drain_senders t r)) with (tb_next t).
  destruct (tb_results t !! ch) as [y|] eqn:E; [by eapply Hr|].
  destruct (decide (ch < tb_next t)%nat) as [|Hge]; [done|]. exfalso. unfold received in H2. rewrite H2 in H; [congruence|].
  intros id Hid. apply Hf in Hid. lia.
Qed.

Lemma drain_new t x ch r :
  received (drain_senders t x) ch = Some r →
  received t ch = Some r ∨ r = x ∧ ∃ id, tb_senders t !! id = Some ch.
Proof.
  destruct (drain_spec t x ch) as [H1 H2]. destruct (decide (map_Exists (λ _ c, c = ch) (tb_senders t))) as [He|Hn].
  - apply map_Exists_lookup in He as (id & c & Hid & ->). rewrite H1 by eauto. intros [= ->]. eauto.
  - rewrite H2; [by left|]. intros id Hid. apply Hn, map_Exists_lookup. eauto.
Qed.

(** ** A result stays *)

Lemma insert_keeps t id ch r :
  table_wf t → received t ch = Some r → received (insert_sender t id).2 ch = Some r.
Proof.
  intros [Hw _ _ _] H. unfold received, insert_sender, resolve in *. simpl. destruct (tb_senders t !! id) as [old|] eqn:E; [|done].
  rewrite lookup_insert_ne; [done|]. intros <-. by rewrite (Hw _ _ E) in H.
Qed.

Lemma take_keeps t id x ch r : table_wf t → received t ch = Some r → received (take_sender t id x) ch = Some r.
Proof.
  intros [Hw _ _ _] H. unfold received, take_sender, resolve in *. destruct (tb_senders t !! id) as [old|] eqn:E; [|done].
  simpl. rewrite lookup_insert_ne; [done|]. intros <-. by rewrite (Hw _ _ E) in H.
Qed.

Lemma drain_keeps t x ch r : table_wf t → received t ch = Some r → received (drain_senders t x) ch = Some r.
Proof.
  intros [Hw _ _ _] H. rewrite (proj2 (drain_spec t x ch)); [done|]. intros id Hid. unfold received in H. by rewrite (Hw _ _ Hid) in H.
Qed.

(** A request keeps its sender until it is resolved. *)
Lemma take_accounted t id x ch i :
  table_wf t → is_Some (received t ch) ∨ tb_senders t !! i = Some ch →
  is_Some (received (take_sender t id x) ch) ∨ tb_senders (take_sender t id x) !! i = Some ch.
Proof.
  intros Hw [[r Hr]|Hs]; [left; exists r; by apply take_keeps|].
  destruct (decide (i = id)) as [->|Hne].
  - left. exists x. unfold received, take_sender, resolve. rewrite Hs. apply lookup_insert_eq.
  - right. unfold take_sender. destruct (tb_senders t !! id); [|done]. simpl. by rewrite lookup_delete_ne.
Qed.

Lemma insert_accounted t id ch i :
  table_wf t → is_Some (received t ch) ∨ tb_senders t !! i = Some ch →
  is_Some (received (insert_sender t id).2 ch) ∨ tb_senders (insert_sender t id).2 !! i = Some ch.
Proof.
  intros Hw [[r Hr]|Hs]; [left; exists r; by apply insert_keeps|].
  destruct (decide (i = id)) as [->|Hne].
  - left. exists None. unfold received, insert_sender, resolve. rewrite Hs. apply lookup_insert_eq.
  - right. simpl. by rewrite lookup_insert_ne.
Qed.

(** ** What a step newly resolves *)

Lemma insert_new t id ch r :
  received (insert_sender t id).2 ch = Some r → received t ch = Some r ∨ r = None.
Proof.
  unfold received, insert_sender, resolve. simpl. destruct (tb_senders t !! id) as [old|]; [|by left].
  rewrite lookup_insert_Some. intros [[_ <-]|[_ ?]]; auto.
Qed.

Lemma take_new t id x ch r :
  received (take_sender t id x) ch = Some r → received t ch = Some r ∨ r = x ∧ tb_senders t !! id = Some ch.
Proof.
  unfold received, take_sender, resolve. destruct (tb_senders t !! id) as [old|] eqn:E; [|by left].
  simpl. rewrite lookup_insert_Some. intros [[<- <-]|[_ ?]]; auto.
Qed.

Lemma take_gets t id x ch :
  tb_senders t !! id = Some ch → received (take_sender t id x) ch = Some x.
Proof. intros H. unfold received, take_sender, resolve. rewrite H. simpl. apply lookup_insert_eq. Qed.
End table.

Arguments Table : clear implicits.
