(* ===== verification/TypeSpec.v ===== *)
(** MMS type specifications (src/src/mms/typespec.rs): their encoding, the
    decoding of a peer's with its limits, and the values made from them. *)

From stdpp Require Import pretty.
From S2P Require Import Prelude Ber BerDecoder BerPrim Utf8 Errors MmsValue MmsCodec.
Local Open Scope string_scope.
Local Open Scope list_scope.
Local Open Scope Z_scope.

Record Component (A : Type) := mkComponent {
  c_name : list Z;
  c_spec : A;
}.
Arguments mkComponent {A}.
Arguments c_name {A}.
Arguments c_spec {A}.

Inductive TypeSpec := mkTypeSpec {
  ts_kind : option Type_;
  ts_size : Z;
  ts_elements : Z;
  ts_element : option TypeSpec;
  ts_components : list (Component TypeSpec);
}.

Definition ts_scalar (kind : Type_) : TypeSpec := mkTypeSpec (Some kind) 0 0 None [].
Definition ts_sized (kind : Type_) (size : Z) : TypeSpec := mkTypeSpec (Some kind) size 0 None [].
Definition ts_array (elements : Z) (element : TypeSpec) : TypeSpec :=
  mkTypeSpec (Some TArray) 0 elements (Some element) [].
Definition ts_structure (components : list (Component TypeSpec)) : TypeSpec :=
  mkTypeSpec (Some TStructure) 0 0 None components.

Fixpoint ts_ber (ts : TypeSpec) : option Element :=
  kind ← ts_kind ts;
  let integer n := int_elem (context_primitive n) (ts_size ts) in
  let unsigned n := uint_elem (context_primitive n) (u64 (ts_size ts)) in
  match kind with
  | TArray =>
      Some (cons_elem (context_constructed TAG_DATA_ARRAY)
        [uint_elem (context_primitive 1) (ts_elements ts);
         cons_elem (context_constructed 2)
           (option_list (match ts_element ts with Some e => ts_ber e | None => None end))])
  | TStructure =>
      let comps := cons_elem (context_constructed 1)
        (map (λ c, cons_elem TAG_SEQUENCE
           [prim (context_primitive 0) (c_name c);
            cons_elem (context_constructed 1) (option_list (ts_ber (c_spec c)))]) (ts_components ts)) in
      Some (cons_elem (context_constructed TAG_DATA_STRUCTURE) [comps])
  | TBoolean => Some (prim (context_primitive TAG_DATA_BOOLEAN) [])
  | TBitString => Some (integer TAG_DATA_BIT_STRING)
  | TInteger => Some (unsigned TAG_DATA_INTEGER)
  | TUnsigned => Some (unsigned TAG_DATA_UNSIGNED)
  | TFloat32 =>
      Some (cons_elem (context_constructed TAG_DATA_FLOAT) [int_elem TAG_INTEGER 32; int_elem TAG_INTEGER 8])
  | TFloat64 =>
      Some (cons_elem (context_constructed TAG_DATA_FLOAT) [int_elem TAG_INTEGER 64; int_elem TAG_INTEGER 11])
  | TOctetString => Some (integer TAG_DATA_OCTET_STRING)
  | TVisibleString => Some (integer TAG_DATA_VIS_STRING)
  | TGeneralizedTime => Some (prim (context_primitive TAG_DATA_GEN_TIME) [])
  | TBinaryTime => Some (bool_elem (context_primitive TAG_DATA_BIN_TIME) true)
  | TMmsString => Some (integer TAG_DATA_MMS_STRING)
  | TUtcTime => Some (prim (context_primitive TAG_DATA_UTC_TIME) [])
  | TNone | TDataAccessError => None
  end.

Fixpoint default_value (ts : TypeSpec) : Value :=
  match ts_kind ts with
  | None => VNone
  | Some kind =>
      match kind with
      | TArray =>
          VArray (replicate (Z.to_nat (ts_elements ts))
            (match ts_element ts with Some e => default_value e | None => VNone end))
      | TStructure => VStructure (map (λ c, default_value (c_spec c)) (ts_components ts))
      | TBoolean => VBoolean false
      | TBitString => Value_bit_string (Z.abs (ts_size ts))
      | TInteger => VInteger 0
      | TUnsigned => VUnsigned 0
      | TFloat32 => VFloat32 0
      | TFloat64 => VFloat64 0
      | TOctetString => VOctetString []
      | TVisibleString => VVisibleString []
      | TMmsString => VMmsString []
      | TGeneralizedTime => VGeneralizedTime []
      | TBinaryTime => VBinaryTime (replicate 6 0)
      | TUtcTime => VUtcTime (replicate 8 0)
      | TNone | TDataAccessError => VNone
      end
  end.

Definition MAX_ARRAY_ELEMENTS : Z := Z.shiftl 1 16.
Definition MAX_BIT_STRING_BITS : Z := Z.shiftl 1 16.
Definition MAX_DEFAULT_VALUES : Z := Z.shiftl 1 20.
Definition VALUE_CEILING : Z := MAX_DEFAULT_VALUES + 1.

(** The loop over the components: the running total, cut off at the ceiling. *)
Definition count_components (count : TypeSpec → Z) : list (Component TypeSpec) → Z → Z :=
  fix go (l : list (Component TypeSpec)) (total : Z) :=
    match l with
    | [] => total
    | c :: l =>
        let total := Z.min (total + count (c_spec c)) (2 ^ 64 - 1) in
        if decide (VALUE_CEILING ≤ total) then VALUE_CEILING else go l total
    end.

Fixpoint value_count (ts : TypeSpec) : Z :=
  match ts_kind ts with
  | Some TArray =>
      let per := match ts_element ts with Some e => value_count e | None => 0 end in
      if decide (per = 0 ∨ ts_elements ts = 0) then 1
      else if decide (VALUE_CEILING / per ≤ ts_elements ts) then VALUE_CEILING
      else 1 + ts_elements ts * per
  | Some TStructure => count_components value_count (ts_components ts) 1
  | _ => 1
  end.

(** One [SEQUENCE] of the component list; [child] is [decode_type_spec_at] one
    level down. *)
Definition decode_component (child : Decoder → outcome MmsError (TypeSpec * Decoder))
    (comps : Decoder) : outcome MmsError (Component TypeSpec * Decoder) :=
  '(seq, comps) ← map_err MmsAsn1 (expect comps TAG_SEQUENCE);
  '(name, cd) ← map_err MmsAsn1 (optional (Decoder_new seq) (context_primitive 0));
  let name := match name with Some n => from_utf8_lossy n | None => [] end in
  '(spec_content, _) ← map_err MmsAsn1 (expect cd (context_constructed 1));
  '(spec, _) ← child (Decoder_new spec_content);
  Ok (mkComponent name spec, comps).

Definition decode_type_spec_tlv (child : Decoder → outcome MmsError (TypeSpec * Decoder))
    (tag : Tag) (content : list Z) : outcome MmsError TypeSpec :=
  let sized kind := (n ← map_err MmsAsn1 (decode_int content); Ok (ts_sized kind (swrap 32 n))) in
  let usized kind := (n ← map_err MmsAsn1 (decode_uint content); Ok (ts_sized kind (swrap 32 n))) in
  if decide (tag_class tag ≠ ContextSpecific) then
    Err (MmsProtocol ("type specification tag " +:+ Tag_display tag))
  else
    let n := tag_number tag in
    if decide (n = TAG_DATA_ARRAY) then
      '(_, inner) ← map_err MmsAsn1 (optional (Decoder_new content) (context_primitive 0));
      '(nc, inner) ← map_err MmsAsn1 (expect inner (context_primitive 1));
      declared ← map_err MmsAsn1 (decode_uint nc);
      if decide (declared > MAX_ARRAY_ELEMENTS) then
        Err (MmsProtocol ("array of " +:+ pretty declared +:+ " elements, over the " +:+
          pretty MAX_ARRAY_ELEMENTS +:+ " limit"))
      else
        '(ec, _) ← map_err MmsAsn1 (expect inner (context_constructed 2));
        '(element, _) ← child (Decoder_new ec);
        Ok (ts_array declared element)
    else if decide (n = TAG_DATA_STRUCTURE) then
      '(_, inner) ← map_err MmsAsn1 (optional (Decoder_new content) (context_primitive 0));
      '(comps_content, _) ← map_err MmsAsn1 (expect inner (context_constructed 1));
      components ← decode_children (decode_component child) (S (length comps_content))
        (Decoder_new comps_content);
      Ok (ts_structure components)
    else if decide (n = TAG_DATA_BOOLEAN) then Ok (ts_scalar TBoolean)
    else if decide (n = TAG_DATA_BIT_STRING) then
      bits ← map_err MmsAsn1 (decode_int content);
      if decide (- MAX_BIT_STRING_BITS ≤ bits ≤ MAX_BIT_STRING_BITS) then
        Ok (ts_sized TBitString (swrap 32 bits))
      else
        Err (MmsProtocol ("bit string of " +:+ pretty bits +:+ " bits, over the " +:+
          pretty MAX_BIT_STRING_BITS +:+ " limit"))
    else if decide (n = TAG_DATA_INTEGER) then usized TInteger
    else if decide (n = TAG_DATA_UNSIGNED) then usized TUnsigned
    else if decide (n = TAG_DATA_FLOAT) then
      '(fw, _) ← map_err MmsAsn1 (expect (Decoder_new content) TAG_INTEGER);
      width ← map_err MmsAsn1 (decode_int fw);
      Ok (if decide (width > 32) then ts_scalar TFloat64 else ts_scalar TFloat32)
    else if decide (n = TAG_DATA_OCTET_STRING) then sized TOctetString
    else if decide (n = TAG_DATA_VIS_STRING) then sized TVisibleString
    else if decide (n = TAG_DATA_GEN_TIME) then Ok (ts_scalar TGeneralizedTime)
    else if decide (n = TAG_DATA_BIN_TIME) then Ok (ts_scalar TBinaryTime)
    else if decide (n = TAG_DATA_MMS_STRING) then sized TMmsString
    else if decide (n = TAG_DATA_UTC_TIME) then Ok (ts_scalar TUtcTime)
    else Err (MmsProtocol ("unsupported type specification tag [" +:+ pretty n +:+ "]")).

(** [decode_type_spec_at], with [levels] the nesting still allowed: the source's
    [depth] is [MAX_VALUE_DEPTH + 1 - levels]. *)
Fixpoint decode_type_spec_at (levels : nat) (dec : Decoder) : outcome MmsError (TypeSpec * Decoder) :=
  match levels with
  | O => Err (MmsProtocol ("type nesting exceeds " +:+ pretty MAX_VALUE_DEPTH))
  | S levels =>
      '((tag, content), dec) ← map_err MmsAsn1 (read_tlv dec);
      ts ← decode_type_spec_tlv (decode_type_spec_at levels) tag content;
      Ok (ts, dec)
  end.

Definition decode_type_spec (dec : Decoder) : outcome MmsError (TypeSpec * Decoder) :=
  '(ts, dec) ← decode_type_spec_at (S (Z.to_nat MAX_VALUE_DEPTH)) dec;
  let n := value_count ts in
  if decide (n > MAX_DEFAULT_VALUES) then
    Err (MmsProtocol ("type specification materialises " +:+ pretty n +:+ " values, over the " +:+
      pretty MAX_DEFAULT_VALUES +:+ " limit"))
  else Ok (ts, dec).

(** ** Well-formed specifications

    What a specification that nests below [levels] and has a wire form
    satisfies: only the fields of its kind are set, and its sizes are within the
    limits of the decoder. *)

Inductive ts_wf : nat → TypeSpec → Prop :=
| wf_scalar n k :
    k ∈ [TBoolean; TFloat32; TFloat64; TGeneralizedTime; TBinaryTime; TUtcTime] →
    ts_wf (S n) (ts_scalar k)
| wf_sized n k s :
    k ∈ [TInteger; TUnsigned; TOctetString; TVisibleString; TMmsString] → in_i 32 s →
    ts_wf (S n) (ts_sized k s)
| wf_bits n s :
    - MAX_BIT_STRING_BITS ≤ s ≤ MAX_BIT_STRING_BITS → ts_wf (S n) (ts_sized TBitString s)
| wf_array n k e :
    0 ≤ k ≤ MAX_ARRAY_ELEMENTS → ts_wf n e → ts_wf (S n) (ts_array k e)
| wf_structure n cs :
    Forall (λ c, utf8 (c_name c) = true ∧ ts_wf n (c_spec c)) cs → ts_wf (S n) (ts_structure cs).

(** ** Decoding is safe *)

Lemma returns_Forall_children {A E} (P : A → Prop) (child : Decoder → outcome E (A * Decoder)) d :
  (∀ d, dec_wf d → advances 1 d (child d) ∧ reading P (child d)) → dec_wf d → off d = 0 →
  returns (Forall P) (decode_children child (S (length (data d))) d).
Proof.
  intros Hc Hd H0. apply returns_intro.
  - apply decode_children_settled; [|done|unfold zlen; lia]. intros d' Hd'. by apply Hc.
  - intros vs Hvs. eapply (decode_children_Forall P); [|done|done].
    intros d' v d'' Hd' Hv. destruct (Hc d' Hd') as [_ Hr]. unfold reading in Hr. rewrite Hv in Hr.
    simpl in Hr. tauto.
Qed.

Lemma advances_expect d t : dec_wf d → advances 2 d (expect d t).
Proof.
  intros Hd. unfold expect. pose proof (read_tlv_advances d Hd) as H.
  destruct (read_tlv d) as [[[got c] d']| | |]; try done. cbn [mbind outcome_bind]. by case_decide.
Qed.

Lemma decode_int_range content n : octets content → decode_int content = Ok n → in_i 64 n.
Proof.
  intros Ho H. destruct (decode_int_inv _ _ H Ho) as [Hn Hi].
  apply (in_i_mono (8 * zlen content)); [lia|done].
Qed.

Section decode.
Context (levels : nat) (child : Decoder → outcome MmsError (TypeSpec * Decoder)).
Hypothesis Hchild : ∀ d, dec_wf d → reading (ts_wf levels) (child d).

Lemma decode_component_safe d :
  dec_wf d →
  advances 1 d (decode_component child d) ∧
  reading (λ c, utf8 (c_name c) = true ∧ ts_wf levels (c_spec c)) (decode_component child d).
Proof using Hchild.
  intros Hd. unfold decode_component. pose proof (advances_expect d TAG_SEQUENCE Hd) as Ha.
  pose proof (reading_expect d TAG_SEQUENCE Hd) as Hr.
  destruct (expect d TAG_SEQUENCE) as [[seq comps]| | |]; try done. cbn [map_err mbind outcome_bind].
  destruct Hr as [Hseq Hcomps].
  pose proof (reading_optional (Decoder_new seq) (context_primitive 0)
    (Decoder_new_wf _ Hseq)) as Ho.
  destruct (optional _ _) as [[name cd]| | |]; try done. cbn [map_err mbind outcome_bind].
  destruct Ho as [Hname Hcd]. pose proof (reading_expect cd (context_constructed 1) Hcd) as Hx.
  destruct (expect cd _) as [[sc cd']| | |]; try done. cbn [map_err mbind outcome_bind].
  destruct Hx as [Hsc _]. pose proof (Hchild (Decoder_new sc) (Decoder_new_wf _ Hsc)) as Hs.
  destruct (child _) as [[spec d']| | |]; try done. cbn [mbind outcome_bind].
  destruct Hs as [Hs _]. split; [eapply advances_weaken; [|exact Ha]; lia|].
  split; [|done]. simpl. split; [|done]. destruct name as [n|]; [|done].
  by apply from_utf8_lossy_utf8.
Qed.

Lemma decode_type_spec_tlv_safe tag content :
  octets content → returns (ts_wf (S levels)) (decode_type_spec_tlv child tag content).
Proof using Hchild.
  intros Ho. pose proof (Decoder_new_wf _ Ho) as Hd.
  destruct (decode_prims_settled content Ho) as (_ & _ & Hint & Huint & _).
  assert (∀ k, k ∈ [TInteger; TUnsigned; TOctetString; TVisibleString; TMmsString] →
    returns (ts_wf (S levels)) (n ← map_err MmsAsn1 (decode_int content); Ok (ts_sized k (swrap 32 n))) ∧
    returns (ts_wf (S levels)) (n ← map_err MmsAsn1 (decode_uint content); Ok (ts_sized k (swrap 32 n))))
    as Hsized.
  { intros k Hk. split.
    - destruct (decode_int content); try done. apply wf_sized; [done|]. by apply swrap_range.
    - destruct (decode_uint content); try done. apply wf_sized; [done|]. by apply swrap_range. }
  unfold decode_type_spec_tlv. case_decide; [done|].
  destruct (decide (tag_number tag = TAG_DATA_ARRAY)) as [_|_].
  { eapply reading_bind; [by apply reading_map_err, reading_optional|]. intros _ d1 _ Hd1.
    eapply reading_bind; [by apply reading_map_err, reading_expect|]. intros nc d2 Hnc Hd2.
    pose proof (decode_prims_settled nc Hnc) as (_ & _ & _ & Hu & _).
    destruct (decode_uint nc) as [u| | |] eqn:Eu; try done. cbn [map_err mbind outcome_bind].
    case_decide; [done|].
    eapply reading_bind; [by apply reading_map_err, reading_expect|]. intros ec d3 Hec Hd3.
    eapply reading_bind; [by apply Hchild, Decoder_new_wf|]. intros e d4 He _.
    apply wf_array; [|done]. pose proof (decode_uint_range _ _ Hnc Eu) as [? ?]. lia. }
  destruct (decide (tag_number tag = TAG_DATA_STRUCTURE)) as [_|_].
  { eapply reading_bind; [by apply reading_map_err, reading_optional|]. intros _ d1 _ Hd1.
    eapply reading_bind; [by apply reading_map_err, reading_expect|]. intros cc d2 Hcc Hd2.
    eapply returns_bind; [apply (returns_Forall_children _ _ (Decoder_new cc) decode_component_safe);
      [by apply Decoder_new_wf|done]|].
    intros cs Hcs. by apply wf_structure. }
  destruct (decide (tag_number tag = TAG_DATA_BOOLEAN)) as [_|_]; [apply wf_scalar; set_solver|].
  destruct (decide (tag_number tag = TAG_DATA_BIT_STRING)) as [_|_].
  { destruct (decode_int content) as [bits| | |]; try done. cbn [map_err mbind outcome_bind].
    case_decide as Hb; [|done]. change MAX_BIT_STRING_BITS with 65536 in Hb.
    rewrite swrap_id by (unfold in_i; lia). by apply wf_bits. }
  destruct (decide (tag_number tag = TAG_DATA_INTEGER)) as [_|_]; [apply Hsized; set_solver|].
  destruct (decide (tag_number tag = TAG_DATA_UNSIGNED)) as [_|_]; [apply Hsized; set_solver|].
  destruct (decide (tag_number tag = TAG_DATA_FLOAT)) as [_|_].
  { eapply reading_bind; [by apply reading_map_err, reading_expect|]. intros fw d1 Hfw Hd1.
    pose proof (decode_prims_settled fw Hfw) as (_ & _ & Hi & _ & _).
    destruct (decode_int fw); try done. cbn [map_err mbind outcome_bind].
    case_decide; apply wf_scalar; set_solver. }
  repeat (case_decide; [apply Hsized || apply wf_scalar; set_solver|]). done.
Qed.
End decode.

Lemma decode_type_spec_at_safe levels d :
  dec_wf d → reading (ts_wf levels) (decode_type_spec_at levels d).
Proof.
  revert d. induction levels as [|levels IH]; intros d Hd; [done|]. cbn [decode_type_spec_at].
  eapply reading_bind; [by apply reading_map_err, reading_read_tlv|]. intros [t c] d' Hc Hd'.
  eapply returns_bind; [by apply (decode_type_spec_tlv_safe levels)|]. intros ts Hts. by split.
Qed.

(** ** Counting the values *)

Fixpoint value_nodes (v : Value) : Z :=
  match v with
  | VArray cs | VStructure cs => 1 + Zsum (map value_nodes cs)
  | _ => 1
  end.

Lemma Zsum_replicate {A} (f : A → Z) n x : Zsum (map f (replicate n x)) = Z.of_nat n * f x.
Proof. induction n as [|n IH]; simpl; [done|]. rewrite IH. lia. Qed.

Lemma value_nodes_pos v : 1 ≤ value_nodes v.
Proof.
  induction v as [cs IH|cs IH|v Hs] using Value_ind'; [..|by destruct v];
    (cut (0 ≤ Zsum (map value_nodes cs)); [simpl; lia|]);
    induction IH; simpl; lia.
Qed.

Lemma count_components_spec (count : TypeSpec → Z) cs total :
  (∀ c, c ∈ cs → 1 ≤ count (c_spec c)) → 1 ≤ total < VALUE_CEILING →
  let sum := total + Zsum (map (λ c, count (c_spec c)) cs) in
  count_components count cs total = if decide (sum < VALUE_CEILING) then sum else VALUE_CEILING.
Proof.
  change VALUE_CEILING with 1048577. revert total.
  induction cs as [|c cs IH]; intros total Hc Ht; simpl.
  { rewrite Z.add_0_r. by rewrite decide_True by lia. }
  assert (1 ≤ count (c_spec c)) as H1 by (apply Hc; left).
  assert (0 ≤ Zsum (map (λ c, count (c_spec c)) cs)) as Hsum.
  { clear -Hc. induction cs as [|c' cs IH]; [done|]. simpl.
    assert (1 ≤ count (c_spec c')) by (apply Hc; right; left).
    enough (0 ≤ Zsum (map (λ c, count (c_spec c)) cs)) by lia. apply IH.
    intros x Hx. apply Hc. apply elem_of_cons in Hx as [->|Hx]; [left|by right; right]. }
  change VALUE_CEILING with 1048577.
  destruct (decide (1048577 ≤ Z.min (total + count (c_spec c)) (2 ^ 64 - 1))) as [Hb|Hb].
  { rewrite decide_False by lia. done. }
  rewrite Z.min_l by lia. rewrite IH; [|by intros x Hx; apply Hc; right|lia].
  by rewrite Z.add_assoc.
Qed.

(** The count is of the values [default_value] makes, unless it is cut off at
    the ceiling. *)
Lemma value_count_nodes levels ts :
  ts_wf levels ts →
  1 ≤ value_count ts ≤ VALUE_CEILING ∧
  (value_count ts < VALUE_CEILING → value_nodes (default_value ts) = value_count ts).
Proof.
  revert ts. induction levels as [|levels IH]; intros ts Hts; [by inversion Hts|].
  change VALUE_CEILING with 1048577 in *.
  inversion Hts as [? k Hk|? k s Hk Hs|? s Hs|? k e Hk He|? cs Hcs]; subst.
  - assert (value_count (ts_scalar k) = 1 ∧ value_nodes (default_value (ts_scalar k)) = 1) as [-> ->]; [|lia].
    split; repeat (apply elem_of_cons in Hk as [->|Hk]; [done|]); by apply not_elem_of_nil in Hk.
  - assert (value_count (ts_sized k s) = 1 ∧ value_nodes (default_value (ts_sized k s)) = 1) as [-> ->]; [|lia].
    split; repeat (apply elem_of_cons in Hk as [->|Hk]; [done|]); by apply not_elem_of_nil in Hk.
  - done.
  - destruct (IH e He) as [Hpos Hnodes]. simpl. change VALUE_CEILING with 1048577.
    destruct (decide (value_count e = 0 ∨ k = 0)) as [Hz|Hz].
    { destruct Hz as [?| ->]; [lia|]. done. }
    destruct (decide (1048577 / value_count e ≤ k)) as [Hb|Hb]; [lia|].
    assert (k * value_count e + value_count e ≤ 1048577).
    { pose proof (Z.mul_div_le 1048577 (value_count e) ltac:(lia)). nia. }
    split; [nia|]. intros _. rewrite Zsum_replicate, Hnodes by nia. lia.
  - assert (∀ c, c ∈ cs → 1 ≤ value_count (c_spec c) ≤ 1048577 ∧
      (value_count (c_spec c) < 1048577 → value_nodes (default_value (c_spec c)) = value_count (c_spec c))) as Hc.
    { intros c Hc. rewrite Forall_forall in Hcs. destruct (Hcs c Hc) as [_ Hw]. by apply IH. }
    simpl. rewrite count_components_spec; [|intros c Hcin; by apply Hc|change VALUE_CEILING with 1048577; lia].
    change VALUE_CEILING with 1048577.
    assert (0 ≤ Zsum (map (λ c, value_count (c_spec c)) cs) ∧
      (Zsum (map (λ c, value_count (c_spec c)) cs) < 1048576 →
       Zsum (map value_nodes (map (λ c, default_value (c_spec c)) cs)) =
       Zsum (map (λ c, value_count (c_spec c)) cs))) as [Hsum Heq].
    { clear -Hc. induction cs as [|c cs IHcs]; [done|]. simpl.
      destruct (Hc c) as [H1 H2]; [left|]. destruct IHcs as [H3 H4]; [by intros x Hx; apply Hc; right|].
      split; [lia|]. intros Hlt. rewrite H2, H4 by lia. done. }
    case_decide; [|lia]. split; [lia|]. intros _. rewrite Heq by lia. lia.
Qed.

(** ** Encoding, and reading back *)

Definition ts_encodes (levels : nat) (ts : TypeSpec) (e : Element) : Prop :=
  ts_ber ts = Some e ∧ Element_tags tag_sized e ∧
  (zlen (Element_encode e) < 2 ^ 32 → reads (decode_type_spec_at levels) ts (Element_encode e)).

Lemma reads_type_spec levels ts t c :
  tag_wf t → zlen (append_tlv [] t c) < 2 ^ 32 →
  decode_type_spec_tlv (decode_type_spec_at levels) t c = Ok ts →
  reads (decode_type_spec_at (S levels)) ts (append_tlv [] t c).
Proof.
  intros Ht Hlen Hd. pose proof (append_tlv_longer t c).
  split; [rewrite <-(app_nil_r (append_tlv _ _ _)); apply append_tlv_ne|].
  intros pre suf. cbn [decode_type_spec_at]. rewrite read_tlv_dec_at by (done || lia).
  cbn [map_err mbind outcome_bind]. by rewrite Hd.
Qed.

(** What is read when it stands alone. *)
Lemma reads_alone {A E} (child : Decoder → outcome E (A * Decoder)) a enc :
  reads child a enc → ∃ d, child (Decoder_new enc) = Ok (a, d).
Proof.
  intros [_ H]. specialize (H [] []). rewrite app_nil_r in H. rewrite dec_at_nil. eauto.
Qed.

Lemma encode_int_32 v : in_i 32 v → decode_int (append_int [] v) = Ok v.
Proof.
  intros Hv. assert (in_i 64 v) as H64 by (unfold in_i in *; lia).
  destruct (int_size_spec v H64) as (? & ? & _). rewrite append_int_eq by done. simpl app.
  rewrite decode_int_to_be; [done|lia|]. by rewrite Z2Nat.id by lia.
Qed.

Lemma encode_uint_32 v : in_i 32 v → decode_uint (append_uint [] (u64 v)) = Ok (u64 v).
Proof. intros Hv. apply decode_append_uint. by apply wrap_range. Qed.

Lemma swrap_u64 v : in_i 32 v → swrap 32 (u64 v) = v.
Proof.
  intros Hv. apply (in_i_mod_eq 32); [done|by apply swrap_range|done|].
  rewrite swrap_mod by done. unfold u64, wrap.
  rewrite <- Znumtheory.Zmod_div_mod; [done|lia|lia|]. by exists (2 ^ 32).
Qed.

Lemma simple_encodes levels ts :
  ts_wf (S levels) ts → ts_kind ts ≠ Some TArray → ts_kind ts ≠ Some TStructure →
  ∃ e, ts_encodes (S levels) ts e.
Proof.
  assert (∀ t c, ts_ber ts = Some (prim (context_primitive t) c) → 0 ≤ t < 31 →
    decode_type_spec_tlv (decode_type_spec_at levels) (context_primitive t) c = Ok ts →
    ∃ e, ts_encodes (S levels) ts e) as Hprim.
  { intros t c Hb Ht Hd. exists (prim (context_primitive t) c). split; [done|].
    split; [simpl; unfold tag_sized; simpl; lia|]. unfold prim. rewrite Element_encode_primitive.
    intros Hlen. apply reads_type_spec; [unfold tag_wf, in_u; simpl; lia|done|done]. }
  intros Hw Ha Hst. inversion Hw as [? k Hk|? k s Hk Hs|? s Hs|? k e Hk He|? cs Hcs]; subst; try done.
  - assert (∀ w x y, In (w, x) [(32, 8); (64, 11)] → y = ts_scalar (if decide (w > 32) then TFloat64 else TFloat32) →
      ts_ber y = Some (cons_elem (context_constructed TAG_DATA_FLOAT) [int_elem TAG_INTEGER w; int_elem TAG_INTEGER x]) →
      ∃ e, ts_encodes (S levels) y e) as Hfloat.
    { intros w x y Hin -> Hb. eexists. split; [exact Hb|].
      simpl in Hin. destruct Hin as [[= <- <-]|[[= <- <-]|[]]].
      all: split; [vm_compute; repeat split; congruence|].
      all: intros Hlen; unfold cons_elem; rewrite Element_encode_cons by (repeat constructor; vm_compute; repeat split; congruence).
      all: apply reads_type_spec; [done|vm_compute; reflexivity|vm_compute; reflexivity]. }
    repeat (apply elem_of_cons in Hk as [->|Hk];
      [first [eapply Hprim; [reflexivity|vm_compute; split; congruence|reflexivity]
             |by eapply (Hfloat 32 8); [left|..]
             |by eapply (Hfloat 64 11); [right; left|..]]|]).
    by apply not_elem_of_nil in Hk.
  - assert (∀ n k', decode_type_spec_tlv (decode_type_spec_at levels) (context_primitive n) (append_int [] s) =
        (n ← map_err MmsAsn1 (decode_int (append_int [] s)); Ok (ts_sized k' (swrap 32 n))) →
        decode_type_spec_tlv (decode_type_spec_at levels) (context_primitive n) (append_int [] s) =
        Ok (ts_sized k' s)) as Hint.
    { intros n k' ->. rewrite encode_int_32 by done. simpl. by rewrite swrap_id. }
    assert (∀ n k', decode_type_spec_tlv (decode_type_spec_at levels) (context_primitive n) (append_uint [] (u64 s)) =
        (n ← map_err MmsAsn1 (decode_uint (append_uint [] (u64 s))); Ok (ts_sized k' (swrap 32 n))) →
        decode_type_spec_tlv (decode_type_spec_at levels) (context_primitive n) (append_uint [] (u64 s)) =
        Ok (ts_sized k' s)) as Huint.
    { intros n k' ->. rewrite encode_uint_32 by done. simpl. by rewrite swrap_u64. }
    repeat (apply elem_of_cons in Hk as [->|Hk];
      [eapply Hprim; [reflexivity|vm_compute; split; congruence|first [by apply Huint|by apply Hint]]|]).
    by apply not_elem_of_nil in Hk.
  - apply (Hprim TAG_DATA_BIT_STRING (append_int [] s)); [reflexivity|vm_compute; split; congruence|].
    change (decode_type_spec_tlv (decode_type_spec_at levels) (context_primitive TAG_DATA_BIT_STRING) (append_int [] s))
      with (bits ← map_err MmsAsn1 (decode_int (append_int [] s));
        if decide (- MAX_BIT_STRING_BITS ≤ bits ≤ MAX_BIT_STRING_BITS) then
          Ok (ts_sized TBitString (swrap 32 bits))
        else Err (MmsProtocol ("bit string of " +:+ pretty bits +:+ " bits, over the " +:+
          pretty MAX_BIT_STRING_BITS +:+ " limit"))).
    assert (in_i 32 s) by (change MAX_BIT_STRING_BITS with 65536 in Hs; unfold in_i; lia).
    rewrite encode_int_32 by done. cbn [map_err mbind outcome_bind].
    by rewrite decide_True, swrap_id by done.
Qed.

Lemma tlv_lens t c1 t' c2 :
  zlen c1 ≤ zlen (append_tlv [] t c1 ++ append_tlv [] t' c2) ∧
  zlen c2 ≤ zlen (append_tlv [] t c1 ++ append_tlv [] t' c2).
Proof.
  rewrite zlen_app. pose proof (append_tlv_longer t c1). pose proof (append_tlv_longer t' c2).
  pose proof (zlen_nonneg c1). pose proof (zlen_nonneg c2). lia.
Qed.

Lemma array_encodes levels k e el :
  0 ≤ k ≤ MAX_ARRAY_ELEMENTS → ts_encodes levels e el → ∃ e', ts_encodes (S levels) (ts_array k e) e'.
Proof.
  intros Hk (Hb & Ht & Hr). eexists. split; [simpl; rewrite Hb; reflexivity|].
  unfold cons_elem, uint_elem, prim. change MAX_ARRAY_ELEMENTS with 65536 in Hk.
  assert (Element_tags tag_sized (Constructed (set_constructed (context_constructed 2)) [el])) as Ht2.
  { apply Element_tags_children. split; [done|by constructor]. }
  assert (Forall (Element_tags tag_sized)
    [Primitive (context_primitive 1) (append_uint [] k); Constructed (set_constructed (context_constructed 2)) [el]])
    as Htags by (constructor; [done|by constructor]).
  split; [by apply Element_tags_children|].
  rewrite Element_encode_cons by done. simpl concat.
  rewrite Element_encode_primitive, Element_encode_cons by (by constructor). simpl concat. rewrite !app_nil_r.
  intros Hlen. pose proof (append_tlv_longer (set_constructed (context_constructed TAG_DATA_ARRAY))
    (append_tlv [] (context_primitive 1) (append_uint [] k) ++
     append_tlv [] (set_constructed (context_constructed 2)) (Element_encode el))) as Hl.
  pose proof (tlv_lens (context_primitive 1) (append_uint [] k) (set_constructed (context_constructed 2))
    (Element_encode el)) as [H1 H2].
  apply reads_type_spec; [done|done|].
  change (set_constructed (context_constructed TAG_DATA_ARRAY)) with (context_constructed TAG_DATA_ARRAY) in *.
  change (set_constructed (context_constructed 2)) with (context_constructed 2) in *.
  set (c := append_tlv [] (context_primitive 1) _ ++ _) in *.
  unfold decode_type_spec_tlv. rewrite decide_False by (simpl; auto). rewrite decide_True by done.
  unfold c at 1. rewrite dec_at_nil, optional_at_other by done. cbn [map_err mbind outcome_bind].
  rewrite expect_at by (done || lia). cbn [map_err mbind outcome_bind].
  rewrite decode_append_uint by (unfold in_u; lia). cbn [map_err mbind outcome_bind].
  rewrite decide_False by (change MAX_ARRAY_ELEMENTS with 65536; lia).
  rewrite <-(app_nil_r (append_tlv [] (context_constructed 2) _)), expect_at by (done || lia).
  cbn [map_err mbind outcome_bind].
  destruct (reads_alone _ _ _ (Hr ltac:(lia))) as [d ->]. done.
Qed.

(** The element of one component. *)
Definition component_elem (c : Component TypeSpec) (el : Element) : Element :=
  cons_elem TAG_SEQUENCE [prim (context_primitive 0) (c_name c); cons_elem (context_constructed 1) [el]].

Lemma component_reads levels c el :
  utf8 (c_name c) = true → ts_encodes levels (c_spec c) el →
  Element_tags tag_sized (component_elem c el) ∧
  (zlen (Element_encode (component_elem c el)) < 2 ^ 32 →
   reads (decode_component (decode_type_spec_at levels)) c (Element_encode (component_elem c el))).
Proof.
  intros Hu (Hb & Ht & Hr). unfold component_elem, cons_elem, prim.
  assert (Element_tags tag_sized (Constructed (set_constructed (context_constructed 1)) [el])) as Ht2.
  { apply Element_tags_children. split; [done|by constructor]. }
  assert (Forall (Element_tags tag_sized)
    [Primitive (context_primitive 0) (c_name c); Constructed (set_constructed (context_constructed 1)) [el]])
    as Htags by (constructor; [done|by constructor]).
  split; [by apply Element_tags_children|].
  rewrite Element_encode_cons by done. simpl concat.
  rewrite Element_encode_primitive, Element_encode_cons by (by constructor). simpl concat. rewrite !app_nil_r.
  change (set_constructed TAG_SEQUENCE) with TAG_SEQUENCE.
  change (set_constructed (context_constructed 1)) with (context_constructed 1).
  set (body := append_tlv [] (context_primitive 0) _ ++ _). intros Hlen.
  pose proof (append_tlv_longer TAG_SEQUENCE body) as Hl.
  pose proof (tlv_lens (context_primitive 0) (c_name c) (context_constructed 1) (Element_encode el)) as [H1 H2].
  fold body in H1, H2.
  split; [rewrite <-(app_nil_r (append_tlv _ _ _)); apply append_tlv_ne|].
  intros pre suf. unfold decode_component. rewrite expect_at by (done || lia).
  cbn [map_err mbind outcome_bind].
  change (Decoder_new body) with (dec_at [] (append_tlv [] (context_primitive 0) (c_name c) ++
    append_tlv [] (context_constructed 1) (Element_encode el))).
  rewrite optional_at by (done || lia).
  cbn [map_err mbind outcome_bind].
  rewrite <-(app_nil_r (append_tlv [] (context_constructed 1) _)), expect_at by (done || lia).
  cbn [map_err mbind outcome_bind].
  destruct (reads_alone _ _ _ (Hr ltac:(lia))) as [d ->]. cbn [mbind outcome_bind].
  rewrite from_utf8_lossy_valid by done. by destruct c.
Qed.

Lemma components_elems levels cs :
  Forall (λ c, utf8 (c_name c) = true ∧ ∃ el, ts_encodes levels (c_spec c) el) cs →
  ∃ es, map (λ c, cons_elem TAG_SEQUENCE
      [prim (context_primitive 0) (c_name c); cons_elem (context_constructed 1) (option_list (ts_ber (c_spec c)))])
      cs = es ∧
    Forall (Element_tags tag_sized) es ∧
    (Forall (λ e, zlen (Element_encode e) < 2 ^ 32) es →
     Forall2 (reads (decode_component (decode_type_spec_at levels))) cs (map Element_encode es)).
Proof.
  induction 1 as [|c cs (Hu & el & He) _ (es & Hes & Hts & Hrs)].
  { exists []. split; [done|]. split; constructor. }
  destruct (component_reads levels c el Hu He) as [Ht Hr].
  exists (component_elem c el :: es). simpl. destruct He as (-> & _). rewrite Hes. split; [done|]. split.
  - by constructor.
  - intros [? ?]%Forall_cons. constructor; auto.
Qed.

Lemma structure_encodes levels cs :
  Forall (λ c, utf8 (c_name c) = true ∧ ∃ el, ts_encodes levels (c_spec c) el) cs →
  ∃ e, ts_encodes (S levels) (ts_structure cs) e.
Proof.
  intros Hcs. destruct (components_elems levels cs Hcs) as (es & Hes & Hts & Hr).
  eexists. split; [simpl; rewrite Hes; reflexivity|]. unfold cons_elem.
  change (set_constructed (context_constructed 1)) with (context_constructed 1).
  change (set_constructed (context_constructed TAG_DATA_STRUCTURE)) with (context_constructed TAG_DATA_STRUCTURE).
  assert (Element_tags tag_sized (Constructed (context_constructed 1) es)) as Ht.
  { apply Element_tags_children. by split. }
  split; [apply Element_tags_children; split; [done|by constructor]|].
  rewrite Element_encode_cons by (by constructor). simpl concat. rewrite app_nil_r, Element_encode_cons by done.
  set (cc := concat (map Element_encode es)). set (c := append_tlv [] (context_constructed 1) cc). intros Hlen.
  pose proof (append_tlv_longer (context_constructed TAG_DATA_STRUCTURE) c) as H1.
  pose proof (append_tlv_longer (context_constructed 1) cc) as H2. fold c in H2.
  assert (Forall (λ e, zlen (Element_encode e) < 2 ^ 32) es) as Hes32.
  { apply Forall_forall. intros e He.
    pose proof (zlen_concat_le (Element_encode e) (map Element_encode es)) as Hle. fold cc in Hle.
    assert (Element_encode e ∈ map Element_encode es) as Hin by (by apply list_elem_of_fmap_2).
    specialize (Hle Hin). lia. }
  specialize (Hr Hes32). apply reads_type_spec; [done|done|].
  unfold decode_type_spec_tlv. rewrite decide_False by (simpl; auto).
  rewrite decide_False by done. rewrite decide_True by done.
  rewrite dec_at_nil. rewrite <-(app_nil_r c). unfold c at 1.
  rewrite optional_at_other by done. cbn [map_err mbind outcome_bind].
  rewrite expect_at by (done || lia). cbn [map_err mbind outcome_bind].
  rewrite dec_at_nil. unfold cc at 2. rewrite (decode_children_concat _ cs); [done|done|].
  pose proof (reads_length _ _ _ Hr). fold cc in H. lia.
Qed.

Lemma type_spec_encodes levels ts : ts_wf levels ts → ∃ e, ts_encodes levels ts e.
Proof.
  revert ts. induction levels as [|levels IH]; intros ts Hts; [by inversion Hts|].
  destruct (decide (ts_kind ts = Some TArray)) as [Ha|Ha];
    [|destruct (decide (ts_kind ts = Some TStructure)) as [Hs|Hs]; [|by apply simple_encodes]].
  - inversion Hts as [? k Hk|? k s Hk|? s|? k e Hk He|? cs Hcs]; subst; try done;
      [by set_solver..|]. destruct (IH e He) as [el Hel]. by eapply array_encodes.
  - inversion Hts as [? k Hk|? k s Hk|? s|? k e Hk He|? cs Hcs]; subst; try done;
      [by set_solver..|]. apply structure_encodes. eapply Forall_impl; [done|].
    intros c [Hu Hc]. split; [done|]. by apply IH.
Qed.

(** A type specification that nests at most 32 deep, within the limits on
    array and bit string sizes and on the number of values it stands for, is
    encoded, and decoding the encoding wherever it stands consumes exactly it and
    gives the specification back. *)
Theorem type_spec_roundtrip (ts : TypeSpec) (pre suf : list Z) :
  ts_wf (S (Z.to_nat MAX_VALUE_DEPTH)) ts → value_count ts ≤ MAX_DEFAULT_VALUES →
  ∃ e, ts_ber ts = Some e ∧
    (zlen (Element_encode e) < 2 ^ 32 →
     decode_type_spec (dec_at pre (Element_encode e ++ suf)) =
       Ok (ts, dec_at (pre ++ Element_encode e) suf)).
Proof.
  intros Hw Hn. destruct (type_spec_encodes _ _ Hw) as (e & Hb & _ & Hr). exists e. split; [done|].
  intros Hlen. destruct (Hr Hlen) as [_ Hread]. unfold decode_type_spec. rewrite Hread.
  cbn [mbind outcome_bind]. by rewrite decide_False by lia.
Qed.

Definition sample_spec : TypeSpec :=
  ts_structure [mkComponent [109; 97; 103] (ts_structure [mkComponent [102] (ts_scalar TFloat32)]);
                mkComponent [113] (ts_sized TBitString (-13)); mkComponent [97] (ts_array 3 (ts_sized TInteger 32))].

Lemma type_spec_roundtrip_witness :
  ∃ e, ts_ber sample_spec = Some e ∧
    (zlen (Element_encode e) < 2 ^ 32 →
     decode_type_spec (dec_at [] (Element_encode e ++ [])) = Ok (sample_spec, dec_at ([] ++ Element_encode e) [])).
Proof.
  apply (type_spec_roundtrip sample_spec [] []).
  - unfold sample_spec.
    repeat first [apply wf_structure | apply wf_array | apply wf_bits | apply wf_scalar; set_solver
      | apply wf_sized; [set_solver|] | apply Forall_cons; split; [split; [reflexivity|simpl]|]
      | apply Forall_nil; exact I]; vm_compute; split; congruence.
  - vm_compute. congruence.
Defined.

(** Decoding a type specification from any octets returns a specification
    or an error, and one it returns is within the limits: it can be encoded
    again, and the value made from it has exactly [value_count] parts, at most
    2^20. *)
Theorem type_spec_safe (d : Decoder) :
  dec_wf d →
  settled (decode_type_spec d) ∧
  ∀ ts d', decode_type_spec d = Ok (ts, d') →
    ts_wf (S (Z.to_nat MAX_VALUE_DEPTH)) ts ∧ is_Some (ts_ber ts) ∧
    value_nodes (default_value ts) = value_count ts ∧ value_count ts ≤ MAX_DEFAULT_VALUES.
Proof.
  intros Hd. pose proof (decode_type_spec_at_safe (S (Z.to_nat MAX_VALUE_DEPTH)) d Hd) as Hr.
  unfold decode_type_spec.
  destruct (decode_type_spec_at _ d) as [[ts d1]| | |]; try done. cbn [mbind outcome_bind].
  destruct Hr as [Hw _]. simpl in Hw. split; [by case_decide|]. intros ts' d'. case_decide as Hn; [done|].
  intros [= <- <-]. destruct (type_spec_encodes _ _ Hw) as (e & Hb & _).
  destruct (value_count_nodes _ _ Hw) as [_ Hc]. split_and!; [done|by exists e| |lia].
  apply Hc. unfold VALUE_CEILING. lia.
Qed.

Lemma type_spec_safe_witness :
  decode_type_spec (Decoder_new [0xa1; 6; 0x81; 1; 3; 0xa2; 1; 0x83]) ≠ Panic ∧
  settled (decode_type_spec (Decoder_new [0xa1; 7; 0x81; 1; 3; 0xa2; 2; 0x83; 0])).
Proof.
  split; [by vm_compute|]. apply type_spec_safe. split; [repeat constructor; lia|].
  vm_compute. split; congruence.
Defined.
