(* ===== verification/ObjRef.v ===== *)
(** Functional constraints and object references (src/src/model/fc.rs,
    src/src/model/reference.rs), and their mapping to MMS names. *)

From stdpp Require Import strings.
From S2P Require Import Prelude Text.
Local Open Scope string_scope.
Local Open Scope list_scope.
Local Open Scope Z_scope.

(** ** Functional constraints *)

Inductive Fc :=
| FcNone | St | Mx | Co | Sp | Sg | Se | Sv | Cf | Dc | Ex | Or | Bl | Rp | Br | Lg | Go | Gs
| Ms | Us | All | Sr | Unknown.

#[export] Instance Fc_eq_dec : EqDecision Fc.
Proof. solve_decision. Defined.

Definition ALL_VALUES : list Fc :=
  [St; Mx; Co; Sp; Sg; Se; Sv; Cf; Dc; Ex; Or; Bl; Rp; Br; Lg; Go; Gs; Ms; Us; Sr].

Definition Fc_as_str (fc : Fc) : list Z :=
  txt match fc with
  | FcNone => "" | St => "ST" | Mx => "MX" | Co => "CO" | Sp => "SP" | Sg => "SG" | Se => "SE"
  | Sv => "SV" | Cf => "CF" | Dc => "DC" | Ex => "EX" | Or => "OR" | Bl => "BL" | Rp => "RP"
  | Br => "BR" | Lg => "LG" | Go => "GO" | Gs => "GS" | Ms => "MS" | Us => "US" | All => "*"
  | Sr => "SR" | Unknown => "??"
  end.

(** The declaration order, which [Ord] follows. *)
Definition Fc_rank (fc : Fc) : Z :=
  match fc with
  | FcNone => 0 | St => 1 | Mx => 2 | Co => 3 | Sp => 4 | Sg => 5 | Se => 6 | Sv => 7 | Cf => 8
  | Dc => 9 | Ex => 10 | Or => 11 | Bl => 12 | Rp => 13 | Br => 14 | Lg => 15 | Go => 16 | Gs => 17
  | Ms => 18 | Us => 19 | All => 20 | Sr => 21 | Unknown => 22
  end.

Definition Fc_of_rank (n : nat) : option Fc :=
  [FcNone; St; Mx; Co; Sp; Sg; Se; Sv; Cf; Dc; Ex; Or; Bl; Rp; Br; Lg; Go; Gs; Ms; Us; All; Sr;
   Unknown] !! n.

#[export] Instance Fc_countable : Countable Fc.
Proof.
  refine (inj_countable (λ fc, Z.to_nat (Fc_rank fc)) Fc_of_rank _). by intros [].
Defined.

Definition Fc_matches (fc other : Fc) : bool :=
  bool_decide (fc = All ∨ fc = FcNone ∨ fc = other).

Definition is_report (fc : Fc) : bool := match fc with Rp | Br => true | _ => false end.
Definition is_setting_group (fc : Fc) : bool := match fc with Sg | Se => true | _ => false end.

(** [Fc::from_str]; the error carries the text and is not looked at. *)
Definition parse_fc (s : list Z) : option Fc :=
  let u := to_ascii_uppercase (trim s) in
  if decide (u = txt "*") then Some All
  else snd <$> list_find (λ fc, Fc_as_str fc = u) ALL_VALUES.

Definition parse_fc_lenient (s : list Z) : Fc :=
  let u := trim s in
  if decide (u = []) then FcNone else default Unknown (parse_fc u).

Definition fc_text (fc : Fc) (raw : list Z) : list Z :=
  if decide (fc ≠ Unknown) then Fc_as_str fc
  else
    let u := to_ascii_uppercase (trim raw) in
    if decide (u = []) then Fc_as_str fc else u.

(** ** Object references

    An [ObjectReference] is its text. *)
Abbreviation ObjectReference := (list Z).

Inductive RefError :=
| Shape (s : list Z)
| EmptyComponent (s : list Z).

Definition ref_validate (r : ObjectReference) : option RefError :=
  match split_once SLASH r with
  | None => Some (Shape r)
  | Some (ld, rest) =>
      if decide (ld = [] ∨ rest = []) then Some (Shape r)
      else if decide ([] ∈ split DOT rest) then Some (EmptyComponent r)
      else None
  end.

Definition ref_ld (r : ObjectReference) : list Z :=
  match split_once SLASH r with Some (ld, _) => ld | None => [] end.

Definition ref_ln (r : ObjectReference) : list Z :=
  match split_once SLASH r with
  | Some (_, rest) => default [] (head (split DOT rest))
  | None => []
  end.

Definition ref_path (r : ObjectReference) : list (list Z) :=
  match split_once SLASH r with Some (_, rest) => split DOT rest | None => [] end.

Definition ref_parent (r : ObjectReference) : option ObjectReference := before_last DOT r.

Definition ref_child (r : ObjectReference) (name : list Z) : ObjectReference := r ++ DOT :: name.

Definition to_mms (r : ObjectReference) (fc : Fc) : list Z * list Z :=
  match ref_path r with
  | [] => (ref_ld r, [])
  | p :: parts =>
      let item := if decide (fc ≠ FcNone ∧ fc ≠ All) then p ++ DOLLAR :: Fc_as_str fc else p in
      (ref_ld r, foldl (λ item p, item ++ DOLLAR :: p) item parts)
  end.

(** The constraint, when present, is the second component. *)
Definition from_mms (domain item : list Z) : ObjectReference * Fc :=
  let '(path, fc) :=
    match split DOLLAR item with
    | p0 :: p1 :: ps =>
        match parse_fc p1 with
        | Some f => (p0 :: ps, f)
        | None => (p0 :: p1 :: ps, FcNone)
        end
    | ps => (ps, FcNone)
    end in
  (domain ++ SLASH :: join [DOT] path, fc).

(** ** Lemmas *)

Lemma parse_fc_as_str fc : fc ∈ ALL_VALUES → parse_fc (Fc_as_str fc) = Some fc.
Proof.
  assert (Forall (λ fc, parse_fc (Fc_as_str fc) = Some fc) ALL_VALUES) as H.
  { repeat constructor. }
  intros Hin. by eapply Forall_forall in H.
Qed.

Lemma parse_fc_lenient_as_str fc : fc ∈ ALL_VALUES → parse_fc_lenient (Fc_as_str fc) = fc.
Proof.
  assert (Forall (λ fc, parse_fc_lenient (Fc_as_str fc) = fc) ALL_VALUES) as H.
  { repeat constructor. }
  intros Hin. by eapply Forall_forall in H.
Qed.

Lemma fc_letters fc : fc ∈ ALL_VALUES → Forall (λ a, 65 ≤ a ≤ 90) (Fc_as_str fc).
Proof.
  assert (Forall (λ fc, Forall (λ a, 65 ≤ a ≤ 90) (Fc_as_str fc)) ALL_VALUES) as H.
  { compute_done. }
  intros Hin. by eapply Forall_forall in H.
Qed.

(** A name a reference can be made of. *)
Definition name_ok (w : list Z) : Prop := w ≠ [] ∧ DOLLAR ∉ w ∧ DOT ∉ w ∧ SLASH ∉ w.

Lemma foldl_dollar ps w : foldl (λ item p, item ++ DOLLAR :: p) w ps = join [DOLLAR] (w :: ps).
Proof.
  revert w. induction ps as [|p ps IH]; intros w; [done|]. simpl. rewrite IH.
  destruct ps; simpl; [done|]. by rewrite <-app_assoc.
Qed.

(** The text of a reference from its parts. *)
Definition mk_ref (ld : list Z) (path : list (list Z)) : ObjectReference :=
  ld ++ SLASH :: join [DOT] path.

Lemma mk_ref_ld ld path : SLASH ∉ ld → ref_ld (mk_ref ld path) = ld.
Proof. intros H. unfold ref_ld, mk_ref. by rewrite split_once_app. Qed.

Lemma mk_ref_path ld path :
  SLASH ∉ ld → path ≠ [] → Forall (λ w, DOT ∉ w) path → ref_path (mk_ref ld path) = path.
Proof. intros H ? ?. unfold ref_path, mk_ref. rewrite split_once_app by done. by apply split_join. Qed.

Lemma ref_child_mk ld path name :
  path ≠ [] → ref_child (mk_ref ld path) name = mk_ref ld (path ++ [name]).
Proof.
  intros Hne. unfold ref_child, mk_ref. rewrite <-app_assoc. simpl. do 2 f_equal.
  induction path as [|w path IH]; [done|]. destruct path as [|w' path]; [done|].
  change (join [DOT] (w :: w' :: path)) with (w ++ DOT :: join [DOT] (w' :: path)).
  rewrite <-app_assoc. simpl in *. by rewrite IH.
Qed.

Lemma name_ok_dollar w : name_ok w → DOLLAR ∉ w.
Proof. by intros (_ & ? & _). Qed.
Lemma name_ok_dot w : name_ok w → DOT ∉ w.
Proof. by intros (_ & _ & ? & _). Qed.

(** The item identifier of a reference. *)
Lemma to_mms_item ld p path fc :
  SLASH ∉ ld → Forall (λ w, DOT ∉ w) (p :: path) →
  to_mms (mk_ref ld (p :: path)) fc =
  (ld, join [DOLLAR] (p :: (if decide (fc ≠ FcNone ∧ fc ≠ All) then Fc_as_str fc :: path else path))).
Proof.
  intros Hld Hp. unfold to_mms. rewrite mk_ref_path by done. rewrite mk_ref_ld by done. f_equal.
  case_decide; rewrite foldl_dollar; [|done].
  destruct path; simpl; [done|]. by rewrite <-app_assoc.
Qed.

(** A reference whose components are proper names, mapped to an MMS domain
    and item under a functional constraint, is mapped back to itself and the
    constraint. Without a constraint this holds exactly when there is no second
    component that reads as one. *)
Theorem mms_name_roundtrip (ld p : list Z) (path : list (list Z)) (fc : Fc) :
  SLASH ∉ ld → name_ok p → Forall name_ok path →
  let r := mk_ref ld (p :: path) in
  let '(domain, item) := to_mms r fc in
  (fc ∈ ALL_VALUES → from_mms domain item = (r, fc)) ∧
  (fc = FcNone →
    from_mms domain item = (r, FcNone) ↔ (default None (parse_fc <$> head path) = None)).
Proof.
  intros Hld Hp Hpath r. unfold r.
  assert (Forall (λ w, DOT ∉ w) (p :: path)) as Hdots.
  { constructor; [by apply name_ok_dot|]. eapply Forall_impl; [done|]. apply name_ok_dot. }
  assert (Forall (λ w, DOLLAR ∉ w) path) as Hdol.
  { eapply Forall_impl; [done|]. apply name_ok_dollar. }
  rewrite to_mms_item by done. split.
  - intros Hfc. rewrite decide_True by (split; intros ->; revert Hfc; compute_done).
    unfold from_mms. rewrite split_join; [|done|].
    + by rewrite parse_fc_as_str.
    + constructor; [by apply name_ok_dollar|]. constructor; [|done].
      intros Hin. eapply Forall_forall in Hin; [|by apply fc_letters]. simpl in Hin. lia.
  - intros ->. rewrite decide_False by naive_solver. unfold from_mms.
    rewrite split_join; [|done|constructor; [by apply name_ok_dollar|done]].
    destruct path as [|p1 path]; simpl; [done|]. destruct (parse_fc p1) as [f|] eqn:E; [|done].
    split; [|done]. intros [= _ ->]. exfalso.
    revert E. unfold parse_fc. case_decide; [done|].
    destruct (list_find _ _) as [[i f]|] eqn:F; simpl; [|done]. intros [= ->].
    apply list_find_Some in F as (F & _). apply list_elem_of_lookup_2 in F. revert F. compute_done.
Qed.

Lemma mms_name_roundtrip_witness :
  from_mms (txt "LD0") (txt "GGIO1$MX$AnIn1$mag") = (txt "LD0/GGIO1.AnIn1.mag", Mx).
Proof.
  destruct (mms_name_roundtrip (txt "LD0") (txt "GGIO1") [txt "AnIn1"; txt "mag"] Mx) as [H _].
  - apply (bool_decide_eq_true_1 _). vm_compute. reflexivity.
  - unfold name_ok. repeat split; apply (bool_decide_eq_true_1 _); vm_compute; reflexivity.
  - repeat constructor; apply (bool_decide_eq_true_1 _); vm_compute; reflexivity.
  - apply H. apply (bool_decide_eq_true_1 _). vm_compute. reflexivity.
Defined.
