(* ===== verification/Quality.v ===== *)
(** The bit-string types of IEC 61850-7-3 (src/src/model/quality.rs): quality,
    double-point positions, trigger options, optional fields and reasons. *)

From S2P Require Import Prelude BerPrim MmsValue.
Local Open Scope Z_scope.

(** ** Bits of a value

    [Value::bit] and [Value::set_bit] index the octets of a bit string and panic
    when they are fewer than its length needs. Every bit string that is decoded
    or made by [Value::bit_string] has them ([bs_wf]); for those the functions
    below are [Value_bit] and [Value_set_bit]. *)

Definition bit_at (v : Value) (i : Z) : bool :=
  match v with
  | VBitString bs =>
      if decide (bs_length bs ≤ i) then false
      else bool_decide (Z.land (default 0 (bs_bits bs !! Z.to_nat (i / 8))) (bit_mask i) ≠ 0)
  | _ => false
  end.

Definition put_at (v : Value) (i : Z) (on : bool) : Value :=
  match v with
  | VBitString bs =>
      if decide (bs_length bs ≤ i) then v
      else
        let b := default 0 (bs_bits bs !! Z.to_nat (i / 8)) in
        let b := if on then Z.lor b (bit_mask i) else Z.land b (u8 (Z.lnot (bit_mask i))) in
        VBitString (mkBitString (<[Z.to_nat (i / 8) := b]> (bs_bits bs)) (bs_length bs))
  | _ => v
  end.

(** Builds a fixed-width bit string from a mask, bit 0 first. *)
Definition to_bits (mask width : Z) : Value :=
  foldl (λ v i, put_at v i (bool_decide (Z.land mask (Z.shiftl 1 i) ≠ 0)))
    (Value_bit_string width) (seqZ 0 width).

(** Reads a mask from a value, taking at most [width] bits. *)
Definition from_bits (v : Value) (width : Z) : Z :=
  let n := Z.min (bit_len v) width in
  foldl (λ mask i, if bit_at v i then Z.lor mask (Z.shiftl 1 i) else mask) 0 (seqZ 0 n).

(** ** Quality *)

Inductive Validity := Good | Invalid | Reserved | Questionable.

Definition Validity_from_bits (b : Z) : Validity :=
  match Z.land b 3 with
  | 0 => Good
  | 1 => Reserved
  | 2 => Invalid
  | _ => Questionable
  end.

Definition Validity_bits (v : Validity) : Z :=
  match v with Good => 0 | Reserved => 1 | Invalid => 2 | Questionable => 3 end.

(** A [Quality] is its 16-bit mask. *)
Inductive QualityFlag :=
| OVERFLOW | OUT_OF_RANGE | BAD_REFERENCE | OSCILLATORY | FAILURE | OLD_DATA | INCONSISTENT
| INACCURATE | SUBSTITUTED | TEST | OPERATOR_BLOCKED.

Definition quality_flag (f : QualityFlag) : Z :=
  match f with
  | OVERFLOW => Z.shiftl 1 2 | OUT_OF_RANGE => Z.shiftl 1 3 | BAD_REFERENCE => Z.shiftl 1 4
  | OSCILLATORY => Z.shiftl 1 5 | FAILURE => Z.shiftl 1 6 | OLD_DATA => Z.shiftl 1 7
  | INCONSISTENT => Z.shiftl 1 8 | INACCURATE => Z.shiftl 1 9 | SUBSTITUTED => Z.shiftl 1 10
  | TEST => Z.shiftl 1 11 | OPERATOR_BLOCKED => Z.shiftl 1 12
  end.

Definition QUALITY_WIDTH : Z := 13.

Definition Quality_validity (q : Z) : Validity := Validity_from_bits q.

Definition with_validity (q : Z) (v : Validity) : Z :=
  Z.lor (Z.land q (u16 (Z.lnot 3))) (Validity_bits v).

Definition Quality_is (q mask : Z) : bool := bool_decide (Z.land q mask = mask).

Definition Quality_value (q : Z) : Value := to_bits q QUALITY_WIDTH.
Definition Quality_from_value (v : Value) : Z := u16 (from_bits v 16).

(** ** Double-point positions *)

Inductive Dbpos := Intermediate | Off | On | Bad.

Definition Dbpos_bits (d : Dbpos) : Z :=
  match d with Intermediate => 0 | Off => 1 | On => 2 | Bad => 3 end.

Definition Dbpos_from_bits (b : Z) : Dbpos :=
  match Z.land b 3 with
  | 0 => Intermediate
  | 1 => Off
  | 2 => On
  | _ => Bad
  end.

Definition Dbpos_value (d : Dbpos) : Value :=
  let b := Dbpos_bits d in
  let v := Value_bit_string 2 in
  let v := put_at v 0 (bool_decide (Z.land b 2 ≠ 0)) in
  put_at v 1 (bool_decide (Z.land b 1 ≠ 0)).

Definition Dbpos_from_value (v : Value) : Dbpos :=
  let b := if bit_at v 0 then 2 else 0 in
  let b := if bit_at v 1 then Z.lor b 1 else b in
  Dbpos_from_bits b.

(** ** Trigger options, optional fields, reasons

    Each is its mask. The constants of [TrgOps] and [ReasonCode] have the same
    positions. *)

Inductive Trigger := DATA_CHANGE | QUALITY_CHANGE | DATA_UPDATE | INTEGRITY | GI | APPL_TRIGGER.

Definition trg (t : Trigger) : Z :=
  match t with
  | DATA_CHANGE => Z.shiftl 1 1 | QUALITY_CHANGE => Z.shiftl 1 2 | DATA_UPDATE => Z.shiftl 1 3
  | INTEGRITY => Z.shiftl 1 4 | GI => Z.shiftl 1 5 | APPL_TRIGGER => Z.shiftl 1 6
  end.

Definition TrgOps_value (t : Z) : Value := to_bits t 6.
Definition TrgOps_from_value (v : Value) : Z := u8 (from_bits v 6).

Inductive OptFld :=
| SEQ_NUM | TIME_OF_ENTRY | REASON_CODE | DATA_SET_NAME | DATA_REF | BUF_OVFL | ENTRY_ID | CONF_REV
| SEGMENTATION.

Definition opt (f : OptFld) : Z :=
  match f with
  | SEQ_NUM => Z.shiftl 1 1 | TIME_OF_ENTRY => Z.shiftl 1 2 | REASON_CODE => Z.shiftl 1 3
  | DATA_SET_NAME => Z.shiftl 1 4 | DATA_REF => Z.shiftl 1 5 | BUF_OVFL => Z.shiftl 1 6
  | ENTRY_ID => Z.shiftl 1 7 | CONF_REV => Z.shiftl 1 8 | SEGMENTATION => Z.shiftl 1 9
  end.

Definition OptFlds_DEFAULT : Z :=
  Z.lor (Z.lor (Z.lor (Z.lor (opt SEQ_NUM) (opt TIME_OF_ENTRY)) (opt REASON_CODE))
    (opt DATA_SET_NAME)) (opt CONF_REV).

Definition OptFlds_value (o : Z) : Value := to_bits o 10.
Definition OptFlds_from_value (v : Value) : Z := u16 (from_bits v 10).

Definition ReasonCode_value (r : Z) : Value := to_bits r 7.
Definition ReasonCode_from_value (v : Value) : Z := u8 (from_bits v 7).

(** [has]: any bit of [mask]. *)
Definition has (o mask : Z) : bool := bool_decide (Z.land o mask ≠ 0).

(** ** Lemmas *)

Definition vbs_wf (v : Value) : Prop :=
  match v with VBitString bs => bs_wf bs | _ => True end.

Lemma bit_at_eq {E} v i : vbs_wf v → 0 ≤ i → Value_bit (E:=E) v i = Ok (bit_at v i).
Proof.
  destruct v; try done. simpl. intros Hw Hi. unfold BitString_bit. case_decide; [done|].
  destruct (bs_lookup bs i Hw) as (b & Hb & _); [lia|].
  by rewrite (idx_lookup _ _ b), Hb by (done || dlia).
Qed.

Lemma put_at_eq {E} v i on : vbs_wf v → 0 ≤ i → Value_set_bit (E:=E) v i on = Ok (put_at v i on).
Proof.
  destruct v; try done. simpl. intros Hw Hi. unfold BitString_set_bit. case_decide; [done|].
  destruct (bs_lookup bs i Hw) as (b & Hb & _); [lia|].
  by rewrite (idx_lookup _ _ b), Hb by (done || dlia).
Qed.

Lemma put_at_spec bs i on :
  bs_wf bs → 0 ≤ i →
  ∃ bs', put_at (VBitString bs) i on = VBitString bs' ∧ bs_wf bs' ∧ bs_length bs' = bs_length bs ∧
    ∀ j, 0 ≤ j < bs_length bs →
      bit_at (VBitString bs') j = if decide (i = j) then on else bit_at (VBitString bs) j.
Proof.
  intros Hw Hi. destruct (set_bit_spec (E:=unit) bs i on Hw Hi) as (bs' & Hs & Hw' & Hl & Hb).
  pose proof (put_at_eq (E:=unit) (VBitString bs) i on Hw Hi) as Hp.
  cbn [Value_set_bit] in Hp. rewrite Hs in Hp. simpl in Hp. apply Ok_inj in Hp.
  exists bs'. split_and!; [done..|]. intros j Hj.
  pose proof (bit_at_eq (E:=unit) (VBitString bs') j Hw') as H1.
  pose proof (bit_at_eq (E:=unit) (VBitString bs) j Hw) as H2. cbn [Value_bit] in H1, H2.
  rewrite Hb in H1 by done. specialize (H1 (proj1 Hj)). specialize (H2 (proj1 Hj)).
  case_decide; [by apply Ok_inj in H1|]. rewrite H2 in H1. by apply Ok_inj in H1.
Qed.

Lemma bit_mask_testbit mask i : 0 ≤ i → bool_decide (Z.land mask (Z.shiftl 1 i) ≠ 0) = Z.testbit mask i.
Proof. intros Hi. by rewrite Z.shiftl_1_l, land_pow2. Qed.

Lemma has_testbit o i : 0 ≤ i → has o (Z.shiftl 1 i) = Z.testbit o i.
Proof. apply bit_mask_testbit. Qed.

(** A loop over [a..a + n] that keeps an invariant indexed by the counter. *)
Lemma foldl_seqZ_inv {B} (P : Z → B → Prop) (f : B → Z → B) a n s :
  0 ≤ n → P a s → (∀ i s, a ≤ i < a + n → P i s → P (i + 1) (f s i)) →
  P (a + n) (foldl f s (seqZ a n)).
Proof.
  intros Hn Hs Hf.
  destruct (for_each_inv (E:=unit) P (λ s i, Ok (f s i)) a n s Hn Hs) as (s' & Hr & HP).
  { intros i s0 Hi H0. eauto. }
  assert (for_each (E:=unit) (seqZ a n) (λ s i, Ok (f s i)) s = Ok (foldl f s (seqZ a n))) as E.
  { clear. generalize (seqZ a n). intros l. revert s. induction l; intros s; [done|]. simpl. done. }
  rewrite E in Hr. apply Ok_inj in Hr. by subst.
Qed.

Lemma to_bits_spec mask width :
  0 ≤ width →
  ∃ bs, to_bits mask width = VBitString bs ∧ bs_wf bs ∧ bs_length bs = width ∧
    ∀ j, 0 ≤ j < width → bit_at (VBitString bs) j = Z.testbit mask j.
Proof.
  intros Hw. unfold to_bits.
  destruct (foldl_seqZ_inv
    (λ i v, ∃ bs, v = VBitString bs ∧ bs_wf bs ∧ bs_length bs = width ∧
      ∀ j, 0 ≤ j < i → bit_at (VBitString bs) j = Z.testbit mask j)
    (λ v i, put_at v i (bool_decide (Z.land mask (Z.shiftl 1 i) ≠ 0)))
    0 width (Value_bit_string width)) as (bs & Hv & Hb); [done|..|by exists bs].
  - exists (BitString_new width). split_and!; [done|by apply BitString_new_wf|done|lia].
  - intros i v Hi (bs & -> & Hwf & Hl & Hb). rewrite bit_mask_testbit by lia.
    destruct (put_at_spec bs i (Z.testbit mask i) Hwf) as (bs' & Hp & Hw' & Hl' & Hb'); [lia|].
    exists bs'. split_and!; [done..|congruence|]. intros j Hj. rewrite Hb' by lia.
    case_decide; [by subst|]. apply Hb. lia.
Qed.

Lemma from_bits_spec v width j :
  0 ≤ j → 0 ≤ bit_len v → 0 ≤ width →
  0 ≤ from_bits v width ∧
  Z.testbit (from_bits v width) j = bool_decide (j < Z.min (bit_len v) width) && bit_at v j.
Proof.
  intros Hj Hl Hw. unfold from_bits.
  destruct (foldl_seqZ_inv
    (λ i m, 0 ≤ m ∧ Z.testbit m j = bool_decide (j < i) && bit_at v j)
    (λ mask i, if bit_at v i then Z.lor mask (Z.shiftl 1 i) else mask)
    0 (Z.min (bit_len v) width) 0) as [H0 Hr]; [lia|..|by split].
  - split; [done|]. by rewrite bool_decide_eq_false_2, Z.bits_0 by lia.
  - intros i m Hi [Hm Ht]. split.
    { destruct (bit_at v i); [|done]. apply Z.lor_nonneg. split; [done|].
      apply Z.shiftl_nonneg. lia. }
    destruct (decide (j = i)) as [->|Hne].
    + rewrite (bool_decide_eq_true_2 (i < i + 1)) by lia.
      rewrite (bool_decide_eq_false_2 (i < i)) in Ht by lia. simpl in *.
      destruct (bit_at v i); [|done]. rewrite Z.lor_spec, Z.shiftl_1_l, Z.pow2_bits_true by lia.
      apply orb_true_r.
    + rewrite (bool_decide_ext (j < i + 1) (j < i)) by lia. rewrite <- Ht.
      destruct (bit_at v i); [|done].
      rewrite Z.lor_spec, Z.shiftl_1_l, Z.pow2_bits_false by lia. apply orb_false_r.
Qed.

Lemma from_to_bits mask width width' :
  0 ≤ width ≤ width' → from_bits (to_bits mask width) width' = mask mod 2 ^ width.
Proof.
  intros Hw. destruct (to_bits_spec mask width) as (bs & -> & Hwf & Hl & Hb); [lia|].
  apply Z.bits_inj'. intros j Hj.
  destruct (from_bits_spec (VBitString bs) width' j Hj) as [_ ->]; [simpl; lia|lia|].
  simpl bit_len. rewrite Hl. destruct (decide (j < width)).
  - rewrite bool_decide_eq_true_2 by lia. rewrite Hb by lia. by rewrite Z.mod_pow2_bits_low by lia.
  - rewrite bool_decide_eq_false_2 by lia. by rewrite Z.mod_pow2_bits_high by lia.
Qed.

Lemma OptFlds_roundtrip o : 0 ≤ o < 2 ^ 10 → OptFlds_from_value (OptFlds_value o) = o.
Proof.
  intros H. unfold OptFlds_from_value, OptFlds_value. rewrite from_to_bits by lia.
  rewrite Z.mod_small by done. apply Z.mod_small. lia.
Qed.

Lemma TrgOps_roundtrip o : 0 ≤ o < 2 ^ 6 → TrgOps_from_value (TrgOps_value o) = o.
Proof.
  intros H. unfold TrgOps_from_value, TrgOps_value. rewrite from_to_bits by lia.
  rewrite Z.mod_small by done. apply Z.mod_small. lia.
Qed.

Lemma ReasonCode_roundtrip o : 0 ≤ o < 2 ^ 7 → ReasonCode_from_value (ReasonCode_value o) = o.
Proof.
  intros H. unfold ReasonCode_from_value, ReasonCode_value. rewrite from_to_bits by lia.
  rewrite Z.mod_small by done. apply Z.mod_small. lia.
Qed.

(** Every quality of 13 bits, set of trigger options, of optional fields and
    of reasons, and every double-point position, survives its conversion to an
    MMS bit string and back; replacing the validity of a quality leaves its
    detail flags. *)
Theorem bit_types_roundtrip (q t o r : Z) (d : Dbpos) (v : Validity) :
  0 ≤ q < 2 ^ 13 → 0 ≤ t < 2 ^ 6 → 0 ≤ o < 2 ^ 10 → 0 ≤ r < 2 ^ 7 →
  Quality_from_value (Quality_value q) = q ∧
  TrgOps_from_value (TrgOps_value t) = t ∧
  OptFlds_from_value (OptFlds_value o) = o ∧
  ReasonCode_from_value (ReasonCode_value r) = r ∧
  Dbpos_from_value (Dbpos_value d) = d ∧
  Quality_validity (with_validity q v) = v ∧
  ∀ f, Quality_is (with_validity q v) (quality_flag f) = Quality_is q (quality_flag f).
Proof.
  intros Hq Ht Ho Hr. split_and!.
  - unfold Quality_from_value, Quality_value. rewrite from_to_bits by (unfold QUALITY_WIDTH; lia).
    unfold QUALITY_WIDTH. rewrite Z.mod_small by done. apply Z.mod_small. lia.
  - by apply TrgOps_roundtrip.
  - by apply OptFlds_roundtrip.
  - by apply ReasonCode_roundtrip.
  - by destruct d.
  - unfold Quality_validity, with_validity, Validity_from_bits.
    rewrite Z.land_lor_distr_l, <- Z.land_assoc.
    replace (Z.land (u16 (Z.lnot 3)) 3) with 0 by done. rewrite Z.land_0_r. by destruct v.
  - intros f. unfold Quality_is, with_validity. apply bool_decide_ext.
    rewrite Z.land_lor_distr_l, <- Z.land_assoc.
    assert (Z.land (Validity_bits v) (quality_flag f) = 0) as -> by (by destruct v, f).
    rewrite Z.lor_0_r. by replace (Z.land (u16 (Z.lnot 3)) (quality_flag f)) with (quality_flag f)
      by (by destruct f).
Qed.

Lemma bit_types_roundtrip_witness :
  Quality_from_value (Quality_value 0x1802) = 0x1802 ∧
  Quality_value 0x1802 = VBitString (mkBitString [0x40; 0x18] 13).
Proof.
  split; [|by vm_compute].
  apply (bit_types_roundtrip 0x1802 2 2 2 On Invalid); lia.
Defined.
