(* ===== verification/BTree.v ===== *)
(** Ordered maps ([std::collections::BTreeMap]) as lists in the order of their keys,
    and the orders the crate uses them with: of integers, of strings octet by octet and
    of pairs. *)

From stdpp Require Import sorting.
From S2P Require Import Prelude.
Local Open Scope Z_scope.

(** A total order ([Ord]). *)
Class Ordered (K : Type) := {
  cmp : K → K → comparison;
  cmp_eq a b : cmp a b = Eq ↔ a = b;
  cmp_flip a b : cmp b a = CompOpp (cmp a b);
  cmp_trans a b c : cmp a b = Lt → cmp b c = Lt → cmp a c = Lt;
}.

#[export] Program Instance Z_ordered : Ordered Z := {| cmp := Z.compare |}.
Next Obligation. apply Z.compare_eq_iff. Qed.
Next Obligation. intros a b. apply Z.compare_antisym. Qed.
Next Obligation. intros a b c. rewrite !Z.compare_lt_iff. lia. Qed.

Section orders.
Context {K L : Type} `{Ordered K, Ordered L}.

Lemma cmp_refl (a : K) : cmp a a = Eq.
Proof. by apply cmp_eq. Qed.

Lemma cmp_gt (a b : K) : cmp a b = Gt ↔ cmp b a = Lt.
Proof. rewrite (cmp_flip a b). by destruct (cmp a b). Qed.

Fixpoint list_cmp (a b : list K) : comparison :=
  match a, b with
  | [], [] => Eq
  | [], _ => Lt
  | _, [] => Gt
  | x :: a, y :: b => match cmp x y with Eq => list_cmp a b | c => c end
  end.

#[export] Program Instance list_ordered : Ordered (list K) := {| cmp := list_cmp |}.
Next Obligation.
  intros a. induction a as [|x a IH]; intros [|y b]; simpl; try done.
  destruct (cmp x y) eqn:E; try (split; [done|]; intros [= -> _]; by rewrite cmp_refl in E).
  rewrite IH. apply cmp_eq in E as ->. split; [by intros ->|by intros [= ->]].
Qed.
Next Obligation.
  intros a. induction a as [|x a IH]; intros [|y b]; simpl; try done.
  rewrite (cmp_flip x y). destruct (cmp x y); simpl; [apply IH|done|done].
Qed.
Next Obligation.
  intros a. induction a as [|x a IH]; intros [|y b] [|z c]; simpl; try done.
  destruct (cmp x y) eqn:E1; destruct (cmp y z) eqn:E2; try done.
  - apply cmp_eq in E1 as ->. rewrite E2. apply IH.
  - apply cmp_eq in E1 as ->. by rewrite E2.
  - apply cmp_eq in E2 as ->. by rewrite E1.
  - by rewrite (cmp_trans x y z).
Qed.

Definition prod_cmp (a b : K * L) : comparison := match cmp a.1 b.1 with Eq => cmp a.2 b.2 | c => c end.

#[export] Program Instance prod_ordered : Ordered (K * L) := {| cmp := prod_cmp |}.
Next Obligation.
  intros [a a'] [b b']. unfold prod_cmp. simpl. destruct (cmp a b) eqn:E; try (split; [done|]; intros [= -> _]; by rewrite cmp_refl in E).
  rewrite (cmp_eq a' b'). apply cmp_eq in E as ->. split; [by intros ->|by intros [= ->]].
Qed.
Next Obligation.
  intros [a a'] [b b']. unfold prod_cmp. simpl. rewrite (cmp_flip a b). destruct (cmp a b); simpl; [apply cmp_flip|done|done].
Qed.
Next Obligation.
  intros [a a'] [b b'] [c c']. unfold prod_cmp. simpl. destruct (cmp a b) eqn:E1; destruct (cmp b c) eqn:E2; try done.
  - apply cmp_eq in E1 as ->. rewrite E2. apply cmp_trans.
  - apply cmp_eq in E1 as ->. by rewrite E2.
  - apply cmp_eq in E2 as ->. by rewrite E1.
  - by rewrite (cmp_trans a b c).
Qed.
End orders.

(** ** Maps *)

Definition BTreeMap (K V : Type) : Type := list (K * V).

Section maps.
Context {K V : Type} `{Ordered K}.
Implicit Types (m : BTreeMap K V) (k : K) (v : V).

Fixpoint bt_get m k : option V :=
  match m with
  | [] => None
  | (k', v) :: m => match cmp k k' with Eq => Some v | _ => bt_get m k end
  end.

Definition bt_contains m k : bool := bool_decide (is_Some (bt_get m k)).

Fixpoint bt_insert k v m : BTreeMap K V :=
  match m with
  | [] => [(k, v)]
  | (k', v') :: m' =>
      match cmp k k' with
      | Eq => (k', v) :: m'
      | Lt => (k, v) :: m
      | Gt => (k', v') :: bt_insert k v m'
      end
  end.

(** [entry(k).or_insert(v)]. *)
Definition bt_or_insert k v m : BTreeMap K V := if bt_contains m k then m else bt_insert k v m.

(** [get_mut(k)] and what is done with it. *)
Definition bt_alter (f : V → V) k m : BTreeMap K V := map (λ e, match cmp k e.1 with Eq => (e.1, f e.2) | _ => e end) m.

Definition bt_keys m : list K := map fst m.
Definition bt_values m : list V := map snd m.

(** The keys ascend, so that none is there twice. *)
Definition bt_wf m : Prop := StronglySorted (λ a b, cmp a.1 b.1 = Lt) m.

Lemma bt_get_above m k : Forall (λ e, cmp k e.1 = Lt) m → bt_get m k = None.
Proof. induction 1 as [|[k' v] m Hk _ IH]; [done|]. simpl in *. by rewrite Hk. Qed.

Lemma bt_get_elem m k v : bt_wf m → bt_get m k = Some v ↔ (k, v) ∈ m.
Proof.
  induction 1 as [|[k' v'] m Hm IH Hk]; [set_solver|]. simpl. rewrite elem_of_cons.
  destruct (cmp k k') eqn:E.
  - apply cmp_eq in E as ->. split; [by intros [= ->]; left|]. intros [[= ->]|Hin]; [done|].
    rewrite Forall_forall in Hk. apply Hk in Hin. simpl in Hin. by rewrite cmp_refl in Hin.
  - rewrite IH. split; [by right|]. intros [[= -> ->]|?]; [by rewrite cmp_refl in E|done].
  - rewrite IH. split; [by right|]. intros [[= -> ->]|?]; [by rewrite cmp_refl in E|done].
Qed.

Lemma bt_insert_above a k v m :
  cmp a k = Lt → Forall (λ e, cmp a e.1 = Lt) m → Forall (λ e, cmp a e.1 = Lt) (bt_insert k v m).
Proof.
  intros Ha. induction 1 as [|[k' v'] m Hk Hm IH]; simpl; [by constructor|].
  destruct (cmp k k'); repeat constructor; done.
Qed.

Lemma bt_insert_wf k v m : bt_wf m → bt_wf (bt_insert k v m).
Proof.
  induction 1 as [|[k' v'] m Hm IH Hk]; simpl; [repeat constructor|]. destruct (cmp k k') eqn:E.
  - by constructor.
  - constructor; [by constructor|]. constructor; [done|]. eapply Forall_impl; [exact Hk|]. intros [x y]. simpl.
    intros. by eapply cmp_trans.
  - constructor; [done|]. apply bt_insert_above; [by apply cmp_gt|done].
Qed.

Lemma bt_get_insert k v m k' : bt_wf m → bt_get (bt_insert k v m) k' = match cmp k' k with Eq => Some v | _ => bt_get m k' end.
Proof.
  induction 1 as [|[k1 v1] m Hm IH Hk]; simpl; [done|]. destruct (cmp k k1) eqn:E; simpl.
  - apply cmp_eq in E as <-. by destruct (cmp k' k).
  - done.
  - rewrite IH. destruct (cmp k' k1) eqn:E1; [|done..]. apply cmp_eq in E1 as ->.
    by rewrite (cmp_flip k k1), E.
Qed.

Lemma bt_insert_elem k v m e : bt_wf m → e ∈ bt_insert k v m ↔ e = (k, v) ∨ (e ∈ m ∧ e.1 ≠ k).
Proof.
  intros Hm. destruct e as [k' v']. rewrite <-bt_get_elem, bt_get_insert, <-bt_get_elem by eauto using bt_insert_wf.
  simpl. destruct (cmp k' k) eqn:E.
  - apply cmp_eq in E as ->. naive_solver.
  - assert (k' ≠ k) by (intros ->; by rewrite cmp_refl in E). naive_solver.
  - assert (k' ≠ k) by (intros ->; by rewrite cmp_refl in E). naive_solver.
Qed.

Lemma bt_keys_NoDup m : bt_wf m → NoDup (bt_keys m).
Proof.
  induction 1 as [|[k v] m Hm IH Hk]; simpl; constructor; [|done].
  intros ([k' v'] & Heq & Hin)%list_elem_of_fmap. simpl in Heq. subst k'. rewrite Forall_forall in Hk. apply Hk in Hin. simpl in Hin.
  by rewrite cmp_refl in Hin.
Qed.

Lemma bt_alter_keys f k m : bt_keys (bt_alter f k m) = bt_keys m.
Proof. unfold bt_keys, bt_alter. rewrite map_map. apply map_ext. intros [k' v]. simpl. by destruct (cmp k k'). Qed.

Lemma bt_alter_wf f k m : bt_wf m → bt_wf (bt_alter f k m).
Proof.
  induction 1 as [|[k' v] m Hm IH Hk]; simpl; constructor; [done|]. unfold bt_alter. rewrite Forall_fmap.
  eapply Forall_impl; [exact Hk|]. intros [x y] Hx. simpl in *. destruct (cmp k k'); by destruct (cmp k x).
Qed.

Lemma bt_get_alter f k m k' :
  bt_get (bt_alter f k m) k' = match cmp k' k with Eq => f <$> bt_get m k' | _ => bt_get m k' end.
Proof.
  induction m as [|[k1 v] m IH]; simpl; [by destruct (cmp k' k)|].
  destruct (cmp k k1) eqn:E; simpl.
  - apply cmp_eq in E as <-. destruct (cmp k' k); [done|apply IH..].
  - destruct (cmp k' k1) eqn:E1; [|apply IH..]. apply cmp_eq in E1 as ->. rewrite (cmp_flip k k1), E. done.
  - destruct (cmp k' k1) eqn:E1; [|apply IH..]. apply cmp_eq in E1 as ->. rewrite (cmp_flip k k1), E. done.
Qed.
End maps.

Create HintDb btree.
#[export] Hint Resolve bt_insert_wf bt_alter_wf bt_keys_NoDup : btree.
#[export] Hint Constructors StronglySorted : btree.
