(* ===== verification/Nodes.v ===== *)
(** The data model of a server (src/src/model/nodes.rs): logical devices, nodes,
    data objects and attributes, how a reference is resolved in it, and what a
    write through it changes. *)

From S2P Require Import Prelude BerPrim MmsValue Text ObjRef.
Local Open Scope Z_scope.

(** ** Data *)

Inductive DataAttribute := mkDA {
  da_name : list Z;
  da_fc : Fc;
  da_fc_name : list Z;
  da_kind : option Type_;
  da_btype : list Z;
  da_enum_type : list Z;
  da_count : Z;
  da_children : list DataAttribute;
  da_value : option Value;
  da_trg_ops : Z;
}.

Inductive DataObject := mkDO {
  do_name : list Z;
  do_cdc : list Z;
  do_objects : list DataObject;
  do_attributes : list DataAttribute;
}.

Record Fcda := mkFcda {
  fcda_reference : ObjectReference;
  fcda_fc : Fc;
  fcda_fc_name : list Z;
}.

Record DataSet := mkDataSet {
  ds_name : list Z;
  ds_entries : list Fcda;
  ds_deletable : bool;
}.

Inductive IpAddr :=
| V4 (octets : list Z)
| V6 (octets : list Z).

#[export] Instance IpAddr_eq_dec : EqDecision IpAddr.
Proof. solve_decision. Defined.

(** The reservation of an instance for a client, by its address. *)
Record ClientReservation := mkClientReservation {
  cr_ied_name : list Z;
  cr_ip : option IpAddr;
}.

Record ReportControl := mkReportControl {
  rc_name : list Z;
  rc_rpt_id : list Z;
  rc_data_set : list Z;
  rc_conf_rev : Z;
  rc_buffered : bool;
  rc_buf_time : Z;
  rc_trg_ops : Z;
  rc_opt_flds : Z;
  rc_intg_pd : Z;
  rc_rpt_enabled : Z;
  rc_not_indexed : bool;
  rc_max_queue_size : Z;
  rc_reservations : list (option ClientReservation);
}.

Inductive GsType := Goose | Gsse.

Inductive SmpMod := SmpPerPeriod | SmpPerSec | SecPerSmp.

(** The optional fields of a sampled-value control block ([SmvOpts]). *)
Record SvOpts := mkSvOpts {
  so_refresh_time : bool;
  so_sample_synchronized : bool;
  so_sample_rate : bool;
  so_data_set : bool;
  so_security : bool;
  so_timestamp : bool;
  so_synch_source_id : bool;
}.

Record GseControl := mkGseControl {
  gc_name : list Z;
  gc_go_id : list Z;
  gc_data_set : list Z;
  gc_conf_rev : Z;
  gc_kind : GsType;
  gc_protocol : list Z;
  gc_dst_mac : list Z;
  gc_dst_ip : option IpAddr;
  gc_app_id : Z;
  gc_vlan_id : Z;
  gc_vlan_pri : Z;
  gc_min_time : Z;
  gc_max_time : Z;
  gc_fixed_offs : bool;
}.

Record SvControl := mkSvControl {
  svc_name : list Z;
  svc_sv_id : list Z;
  svc_data_set : list Z;
  svc_conf_rev : Z;
  svc_smp_rate : Z;
  svc_no_asdu : Z;
  svc_multicast : bool;
  svc_smp_mod : SmpMod;
  svc_opts : SvOpts;
  svc_sv_type : list Z;
  svc_protocol : list Z;
  svc_dst_mac : list Z;
  svc_dst_ip : option IpAddr;
  svc_app_id : Z;
  svc_vlan_id : Z;
  svc_vlan_pri : Z;
}.

Record LogControl := mkLogControl {
  lc_name : list Z;
  lc_data_set : list Z;
  lc_log_name : list Z;
  lc_trg_ops : Z;
  lc_intg_pd : Z;
  lc_log_ena : bool;
  lc_buf_time : Z;
  lc_reason_code : bool;
  lc_log_ld_inst : list Z;
  lc_log_ln : list Z;
}.

Record SettingControl := mkSettingControl {
  sc_num_of_sgs : Z;
  sc_act_sg : Z;
  sc_resv_tms : Z;
}.

Record LogicalNode := mkLogicalNode {
  ln_name : list Z;
  ln_class : list Z;
  ln_objects : list DataObject;
  ln_data_sets : list DataSet;
  ln_report_controls : list ReportControl;
  ln_gse_controls : list GseControl;
  ln_sv_controls : list SvControl;
  ln_log_controls : list LogControl;
  ln_setting_control : option SettingControl;
  ln_logs : list (list Z);
}.

(** A node with no control blocks but those of reports. *)
Definition mkLN (name class : list Z) (objects : list DataObject) (sets : list DataSet) (rcbs : list ReportControl)
    : LogicalNode :=
  mkLogicalNode name class objects sets rcbs [] [] [] None [].

Record LogicalDevice := mkLD {
  ld_name : list Z;
  ld_inst : list Z;
  ld_nodes : list LogicalNode;
}.

(** One setting group of a device: the values its settings take in it, by their
    reference and in the order of the references. *)
Record SettingGroup := mkSettingGroup {
  sg_number : Z;
  sg_ld : list Z;
  sg_values : list (list Z * Value);
}.

(** The diagnostics of a model, which nothing reads, are left out. *)
Record Model := mkFullModel {
  model_name : list Z;
  model_devices : list LogicalDevice;
  model_setting_groups : list SettingGroup;
}.

Definition mkModel (name : list Z) (devices : list LogicalDevice) : Model := mkFullModel name devices [].

(** ** Borrows

    A reference is the value it gives; a mutable one also the way a changed
    value is put back. [iter().find(p)] gives the first match. *)

Definition find {A} (p : A → bool) (l : list A) : option A :=
  snd <$> list_find (λ a, p a = true) l.

Definition find_mut {A} (p : A → bool) (l : list A) : option (A * (A → list A)) :=
  '(i, x) ← list_find (λ a, p a = true) l; Some (x, λ y, <[i := y]> l).

Definition named {A} (name : A → list Z) (n : list Z) (a : A) : bool := bool_decide (name a = n).

Definition set_devices (m : Model) (l : list LogicalDevice) : Model :=
  mkFullModel (model_name m) l (model_setting_groups m).
Definition set_nodes (ld : LogicalDevice) (l : list LogicalNode) : LogicalDevice :=
  mkLD (ld_name ld) (ld_inst ld) l.
Definition set_ln_objects (ln : LogicalNode) (l : list DataObject) : LogicalNode :=
  mkLogicalNode (ln_name ln) (ln_class ln) l (ln_data_sets ln) (ln_report_controls ln) (ln_gse_controls ln)
    (ln_sv_controls ln) (ln_log_controls ln) (ln_setting_control ln) (ln_logs ln).
Definition set_data_sets (ln : LogicalNode) (l : list DataSet) : LogicalNode :=
  mkLogicalNode (ln_name ln) (ln_class ln) (ln_objects ln) l (ln_report_controls ln) (ln_gse_controls ln)
    (ln_sv_controls ln) (ln_log_controls ln) (ln_setting_control ln) (ln_logs ln).
Definition set_do_objects (o : DataObject) (l : list DataObject) : DataObject :=
  mkDO (do_name o) (do_cdc o) l (do_attributes o).
Definition set_attributes (o : DataObject) (l : list DataAttribute) : DataObject :=
  mkDO (do_name o) (do_cdc o) (do_objects o) l.
Definition set_children (a : DataAttribute) (l : list DataAttribute) : DataAttribute :=
  mkDA (da_name a) (da_fc a) (da_fc_name a) (da_kind a) (da_btype a) (da_enum_type a) (da_count a)
    l (da_value a) (da_trg_ops a).
(** [da.value = v]. *)
Definition set_value (a : DataAttribute) (v : option Value) : DataAttribute :=
  mkDA (da_name a) (da_fc a) (da_fc_name a) (da_kind a) (da_btype a) (da_enum_type a) (da_count a)
    (da_children a) v (da_trg_ops a).

(** ** Lookup *)

Definition device (m : Model) (n : list Z) : option LogicalDevice :=
  find (named ld_name n) (model_devices m).
Definition device_mut (m : Model) (n : list Z) : option (LogicalDevice * (LogicalDevice → Model)) :=
  '(ld, put) ← find_mut (named ld_name n) (model_devices m); Some (ld, λ ld, set_devices m (put ld)).

Definition node (ld : LogicalDevice) (n : list Z) : option LogicalNode :=
  find (named ln_name n) (ld_nodes ld).
Definition node_mut (ld : LogicalDevice) (n : list Z)
    : option (LogicalNode * (LogicalNode → LogicalDevice)) :=
  '(ln, put) ← find_mut (named ln_name n) (ld_nodes ld); Some (ln, λ ln, set_nodes ld (put ln)).

Definition object (ln : LogicalNode) (n : list Z) : option DataObject :=
  find (named do_name n) (ln_objects ln).
Definition object_mut (ln : LogicalNode) (n : list Z)
    : option (DataObject * (DataObject → LogicalNode)) :=
  '(o, put) ← find_mut (named do_name n) (ln_objects ln); Some (o, λ o, set_ln_objects ln (put o)).

Definition data_set (ln : LogicalNode) (n : list Z) : option DataSet :=
  find (named ds_name n) (ln_data_sets ln).

Definition do_child (o : DataObject) (n : list Z) : option DataObject :=
  find (named do_name n) (do_objects o).
Definition do_child_mut (o : DataObject) (n : list Z)
    : option (DataObject * (DataObject → DataObject)) :=
  '(s, put) ← find_mut (named do_name n) (do_objects o); Some (s, λ s, set_do_objects o (put s)).

Definition do_attribute (o : DataObject) (n : list Z) : option DataAttribute :=
  find (named da_name n) (do_attributes o).
Definition do_attribute_mut (o : DataObject) (n : list Z)
    : option (DataAttribute * (DataAttribute → DataObject)) :=
  '(a, put) ← find_mut (named da_name n) (do_attributes o); Some (a, λ a, set_attributes o (put a)).

Definition da_child (a : DataAttribute) (n : list Z) : option DataAttribute :=
  find (named da_name n) (da_children a).
Definition da_child_mut (a : DataAttribute) (n : list Z)
    : option (DataAttribute * (DataAttribute → DataAttribute)) :=
  '(c, put) ← find_mut (named da_name n) (da_children a); Some (c, λ c, set_children a (put c)).

(** The loops over sub-objects, which go on while one matches, and over the
    members of a structured attribute, which all have to. *)
Fixpoint descend_objects (o : DataObject) (rest : list (list Z)) : DataObject * list (list Z) :=
  match rest with
  | [] => (o, [])
  | first :: rest' =>
      match do_child o first with
      | Some sub => descend_objects sub rest'
      | None => (o, rest)
      end
  end.

Fixpoint descend_objects_mut (o : DataObject) (rest : list (list Z))
    : (DataObject * (DataObject → DataObject)) * list (list Z) :=
  match rest with
  | [] => ((o, λ o, o), [])
  | first :: rest' =>
      match do_child_mut o first with
      | Some (sub, put) =>
          let '((s, put'), rest'') := descend_objects_mut sub rest' in
          ((s, λ s, put (put' s)), rest'')
      | None => ((o, λ o, o), rest)
      end
  end.

Fixpoint descend_members (a : DataAttribute) (names : list (list Z)) : option DataAttribute :=
  match names with
  | [] => Some a
  | n :: names => a ← da_child a n; descend_members a names
  end.

Fixpoint descend_members_mut (a : DataAttribute) (names : list (list Z))
    : option (DataAttribute * (DataAttribute → DataAttribute)) :=
  match names with
  | [] => Some (a, λ a, a)
  | n :: names =>
      '(c, put) ← da_child_mut a n;
      '(d, put') ← descend_members_mut c names;
      Some (d, λ d, put (put' d))
  end.

(** The attribute of an object under a path, the first name also by [p]. *)
Definition attribute_in (p : DataAttribute → bool) (o : DataObject) (rest : list (list Z))
    : option DataAttribute :=
  match rest with
  | [] => None
  | n :: names => a ← find (λ a, named da_name n a && p a) (do_attributes o); descend_members a names
  end.

Definition attribute_in_mut (p : DataAttribute → bool) (o : DataObject) (rest : list (list Z))
    : option (DataAttribute * (DataAttribute → DataObject)) :=
  match rest with
  | [] => None
  | n :: names =>
      '(a, put) ← find_mut (λ a, named da_name n a && p a) (do_attributes o);
      '(d, put') ← descend_members_mut a names;
      Some (d, λ d, set_attributes o (put (put' d)))
  end.

(** [fc.matches(a.fc)]. *)
Definition by_fc (fc : Fc) (a : DataAttribute) : bool := Fc_matches fc (da_fc a).

Inductive Node :=
| NDevice (ld : LogicalDevice)
| NNode (ln : LogicalNode)
| NObject (o : DataObject)
| NAttribute (a : DataAttribute).

Definition lookup (m : Model) (reference : ObjectReference) (fc : Fc) : option Node :=
  ld ← device m (ref_ld reference);
  match ref_path reference with
  | [] => Some (NDevice ld)
  | n :: path =>
      ln ← node ld n;
      match path with
      | [] => Some (NNode ln)
      | d :: rest =>
          o ← object ln d;
          let '(o, rest) := descend_objects o rest in
          match rest with
          | [] => Some (NObject o)
          | _ => NAttribute <$> attribute_in (by_fc fc) o rest
          end
      end
  end.

Definition attribute (m : Model) (reference : ObjectReference) (fc : Fc) : option DataAttribute :=
  match lookup m reference fc with Some (NAttribute a) => Some a | _ => None end.

Definition attribute_mut (m : Model) (reference : ObjectReference) (fc : Fc)
    : option (DataAttribute * (DataAttribute → Model)) :=
  match ref_path reference with
  | n :: d :: ((_ :: _) as rest) =>
      '(ld, put_ld) ← device_mut m (ref_ld reference);
      '(ln, put_ln) ← node_mut ld n;
      '(o, put_o) ← object_mut ln d;
      let '((s, put_s), rest) := descend_objects_mut o rest in
      '(a, put_a) ← attribute_in_mut (by_fc fc) s rest;
      Some (a, λ a, put_ld (put_ln (put_o (put_s (put_a a)))))
  | _ => None
  end.

(** ** Values *)

Definition is_leaf (a : DataAttribute) : bool := bool_decide (length (da_children a) = 0%nat).

Definition da_elem (a : DataAttribute) (i : Z) : option Value :=
  if decide (da_kind a ≠ Some TArray) then None
  else v ← da_value a; Value_index v i.

Fixpoint collect_value (a : DataAttribute) : Value :=
  if is_leaf a then default VNone (da_value a)
  else
    let children := map collect_value (da_children a) in
    if decide (da_kind a = Some TArray) then VArray children else VStructure children.

(** [all] stops at the first member that does not take its value; the members
    before it have taken theirs. *)
Fixpoint apply_value (a : DataAttribute) (v : Value) : bool * DataAttribute :=
  let fix all (l : list DataAttribute) (vs : list Value) : bool * list DataAttribute :=
    match l, vs with
    | c :: l, cv :: vs =>
        let '(ok, c) := apply_value c cv in
        if (ok : bool) then let '(ok, l) := all l vs in (ok, c :: l) else (false, c :: l)
    | l, _ => (true, l)
    end in
  if is_leaf a then (true, set_value a (Some v))
  else
    let cs := children v in
    if decide (length cs ≠ length (da_children a)) then (false, a)
    else let '(ok, l) := all (da_children a) cs in (ok, set_children a l).

(** ** Borrows put back *)

Section find.
Context {A : Type}.
Implicit Types (p q : A → bool) (l : list A) (x y : A).

Lemma find_mut_find p l x put : find_mut p l = Some (x, put) → find p l = Some x ∧ p x = true.
Proof.
  unfold find_mut, find. destruct (list_find _ l) as [[i z]|] eqn:E; [|done].
  simpl. intros [= -> _]. apply list_find_Some in E as (? & ? & _). by split.
Qed.

Lemma find_find_mut p l x : find p l = Some x → ∃ put, find_mut p l = Some (x, put).
Proof.
  unfold find_mut, find. destruct (list_find _ l) as [[i z]|]; [|done]. simpl. intros [= ->]. eauto.
Qed.

Lemma find_None_mut p l : find p l = None ↔ find_mut p l = None.
Proof. unfold find_mut, find. by destruct (list_find _ l) as [[i z]|]. Qed.

(** A changed element that still matches what it matched takes the place of the
    old one, also for another search that found it; a search that found another
    element still finds that. *)
Lemma find_mut_put p q l x y put :
  find_mut p l = Some (x, put) → q y = q x →
  (find q l = Some x ∧ find q (put y) = Some y) ∨ find q (put y) = find q l.
Proof.
  unfold find_mut, find. destruct (list_find (λ a, p a = true) l) as [[i z]|] eqn:E; [|done].
  simpl. intros [= -> <-] Hq. apply list_find_Some in E as (Hi & _ & _).
  destruct (list_find (λ a, q a = true) l) as [[j z]|] eqn:F.
  - apply list_find_Some in F as (Hj & Hz & Hbefore). destruct (decide (j = i)) as [->|Hne].
    + assert (z = x) as -> by congruence. left. split; [done|].
      assert (list_find (λ a, q a = true) (<[i:=y]> l) = Some (i, y)) as ->; [|done].
      apply list_find_Some. split_and!; [apply list_lookup_insert_eq; by eapply lookup_lt_Some|congruence|].
      intros k w Hk Hlt. rewrite list_lookup_insert_ne in Hk by lia. by eapply Hbefore.
    + right. assert (list_find (λ a, q a = true) (<[i:=y]> l) = Some (j, z)) as ->; [|done].
      apply list_find_Some. split_and!; [by rewrite list_lookup_insert_ne|done|].
      intros k w Hk Hlt. destruct (decide (k = i)) as [->|].
      * rewrite list_lookup_insert_eq in Hk by (by eapply lookup_lt_Some). injection Hk as <-.
        rewrite Hq. by eapply Hbefore.
      * rewrite list_lookup_insert_ne in Hk by done. by eapply Hbefore.
  - right. assert (list_find (λ a, q a = true) (<[i:=y]> l) = None) as ->; [|done].
    apply list_find_None. apply list_find_None in F. apply Forall_insert; [done|].
    rewrite Hq. by eapply Forall_lookup_1 in F.
Qed.

Lemma find_mut_put_same p l x y put :
  find_mut p l = Some (x, put) → p y = true → find p (put y) = Some y.
Proof.
  unfold find_mut, find. destruct (list_find _ l) as [[i z]|] eqn:E; [|done].
  simpl. intros [= -> <-] Hy. apply list_find_Some in E as (Hi & _ & Hb).
  assert (list_find (λ a, p a = true) (<[i:=y]> l) = Some (i, y)) as ->; [|done].
  apply list_find_Some. split_and!; [apply list_lookup_insert_eq; by eapply lookup_lt_Some|done|].
  intros k w Hk Hlt. rewrite list_lookup_insert_ne in Hk by lia. by eapply Hb.
Qed.
End find.

(** What a value written to a leaf keeps. *)
Definition like (a b : DataAttribute) : Prop :=
  da_name a = da_name b ∧ da_fc a = da_fc b ∧ (da_children a = [] ↔ da_children b = []).

Lemma set_value_like a v : like (set_value a v) a.
Proof. by split. Qed.

Lemma named_like n a b : like a b → named da_name n a = named da_name n b.
Proof. intros (Hn & _). unfold named. by rewrite Hn. Qed.

Lemma find_mut_not_nil {A} (p : A → bool) l x put y : find_mut p l = Some (x, put) → put y ≠ [] ∧ l ≠ [].
Proof.
  unfold find_mut. destruct (list_find _ l) as [[i z]|] eqn:E; [|done]. simpl. intros [= -> <-].
  apply list_find_Some in E as (Hi & _). split; [|by intros ->].
  intros H%(f_equal length). rewrite length_insert in H. apply lookup_lt_Some in Hi. simpl in H. lia.
Qed.

(** *** Members of an attribute *)

Lemma da_child_mut_child a n c put : da_child_mut a n = Some (c, put) → da_child a n = Some c.
Proof.
  unfold da_child_mut. destruct (find_mut _ _) as [[c' p]|] eqn:E; [|done]. simpl. intros [= -> _].
  by apply find_mut_find in E as [? _].
Qed.

Lemma da_child_mut_put a n c put c' :
  da_child_mut a n = Some (c, put) → like c' c →
  like (put c') a ∧ da_child (put c') n = Some c' ∧
  ∀ n', n' ≠ n → da_child (put c') n' = da_child a n'.
Proof.
  unfold da_child_mut. destruct (find_mut _ _) as [[x p]|] eqn:E; [|done]. simpl.
  intros [= -> <-] Hl. pose proof (find_mut_find _ _ _ _ E) as [Hf Hp]. split_and!.
  - split_and!; [done..|]. simpl. destruct (find_mut_not_nil _ _ _ _ c' E). naive_solver.
  - unfold da_child. simpl. eapply find_mut_put_same; [done|]. by rewrite (named_like n c' c).
  - intros n' Hn'. unfold da_child. simpl.
    destruct (find_mut_put _ (named da_name n') _ _ c' _ E) as [[Hx _]|?]; [by apply named_like| |done].
    exfalso. apply find_find_mut in Hx as [? [_ Hx]%find_mut_find]. unfold named in *.
    apply bool_decide_eq_true in Hx. apply bool_decide_eq_true in Hp. congruence.
Qed.

Lemma members_mut_members a names d put :
  descend_members_mut a names = Some (d, put) → descend_members a names = Some d.
Proof.
  revert a d put. induction names as [|n names IH]; intros a d put; simpl; [by intros [= -> _]|].
  destruct (da_child_mut a n) as [[c p]|] eqn:E; [|done]. simpl.
  destruct (descend_members_mut c names) as [[d' p']|] eqn:F; [|done]. simpl. intros [= -> _].
  rewrite (da_child_mut_child _ _ _ _ E). simpl. by eapply IH.
Qed.

Lemma members_members_mut a names d :
  descend_members a names = Some d → ∃ put, descend_members_mut a names = Some (d, put).
Proof.
  revert a. induction names as [|n names IH]; intros a; simpl; [intros [= ->]; eauto|].
  unfold da_child. destruct (find _ _) as [c|] eqn:E; [|done]. simpl. intros Hd.
  destruct (find_find_mut _ _ _ E) as [p Hp]. unfold da_child_mut. rewrite Hp. simpl.
  destruct (IH c Hd) as [p' ->]. simpl. eauto.
Qed.

(** A leaf among the members is what it was, unless it is the one put back. *)
Lemma members_mut_put a names d put d' :
  descend_members_mut a names = Some (d, put) → like d' d →
  like (put d') a ∧ descend_members (put d') names = Some d' ∧
  (da_children d = [] → ∀ names' e,
     descend_members a names' = Some e → da_children e = [] → names' ≠ names →
     descend_members (put d') names' = Some e).
Proof.
  revert a d put. induction names as [|n names IH]; intros a d put; simpl.
  - intros [= -> <-] Hl. split_and!; [done..|]. intros Hd names' e He Hleaf Hne.
    destruct names' as [|n' names']; [done|]. exfalso. revert He. simpl. unfold da_child.
    by rewrite Hd.
  - destruct (da_child_mut a n) as [[c p]|] eqn:E; [|done]. simpl.
    destruct (descend_members_mut c names) as [[x p']|] eqn:F; [|done]. simpl. intros [= -> <-] Hl.
    destruct (IH c d p' F Hl) as (Hlike & Hget & Hframe).
    destruct (da_child_mut_put a n c p (p' d') E Hlike) as (Hlike' & Hget' & Hother).
    split_and!; [done|by rewrite Hget'|].
    intros Hd names' e He Hleaf Hne. destruct names' as [|n' names']; simpl in He.
    + injection He as ->. exfalso. unfold da_child_mut in E.
      destruct (find_mut _ _) as [[? ?]|] eqn:G in E; [|done].
      by destruct (find_mut_not_nil _ _ _ _ c G) as [_ ?].
    + simpl. destruct (decide (n' = n)) as [->|Hn].
      * rewrite Hget'. simpl. rewrite (da_child_mut_child _ _ _ _ E) in He. simpl in He.
        apply Hframe; [done..|congruence].
      * by rewrite Hother.
Qed.

(** *** Elements found by name *)

Lemma named_put {A} (nm : A → list Z) n l x put y :
  find_mut (named nm n) l = Some (x, put) → nm y = nm x →
  find (named nm n) (put y) = Some y ∧
  ∀ n', n' ≠ n → find (named nm n') (put y) = find (named nm n') l.
Proof.
  intros E Hy. pose proof (find_mut_find _ _ _ _ E) as [_ Hp].
  assert (∀ k, named nm k y = named nm k x) as Hn by (intros k; unfold named; by rewrite Hy).
  split; [by eapply find_mut_put_same; [|rewrite Hn]|].
  intros n' Hn'. destruct (find_mut_put _ (named nm n') _ _ y _ E) as [[Hx _]|?]; [done| |done].
  exfalso. apply find_find_mut in Hx as [? [_ Hx]%find_mut_find]. unfold named in *.
  apply bool_decide_eq_true in Hx. apply bool_decide_eq_true in Hp. congruence.
Qed.

(** *** Attributes of an object *)

Definition fc_only (p : DataAttribute → bool) : Prop := ∀ a b, like a b → p a = p b.

Lemma attribute_in_mut_in p o rest d put :
  attribute_in_mut p o rest = Some (d, put) → attribute_in p o rest = Some d.
Proof.
  destruct rest as [|n names]; [done|]. simpl.
  destruct (find_mut _ _) as [[a pa]|] eqn:E; [|done]. simpl.
  destruct (descend_members_mut _ _) as [[x pd]|] eqn:F; [|done]. simpl. intros [= -> _].
  apply find_mut_find in E as [-> _]. simpl. by eapply members_mut_members.
Qed.

Lemma attribute_in_in_mut p o rest d :
  attribute_in p o rest = Some d → ∃ put, attribute_in_mut p o rest = Some (d, put).
Proof.
  destruct rest as [|n names]; [done|]. simpl.
  destruct (find _ _) as [a|] eqn:E; [|done]. simpl. intros Hd.
  apply find_find_mut in E as [pa ->]. simpl.
  apply members_members_mut in Hd as [pd ->]. simpl. eauto.
Qed.

Lemma attribute_in_mut_put p q o rest d put d' :
  attribute_in_mut p o rest = Some (d, put) → like d' d → fc_only p → fc_only q →
  do_name (put d') = do_name o ∧ do_objects (put d') = do_objects o ∧
  attribute_in p (put d') rest = Some d' ∧
  (da_children d = [] → ∀ rest' e,
     attribute_in q o rest' = Some e → da_children e = [] →
     rest' ≠ rest ∨ (∀ a, p a = true → q a = false) →
     attribute_in q (put d') rest' = Some e).
Proof.
  destruct rest as [|n names]; [done|]. simpl.
  destruct (find_mut _ _) as [[a pa]|] eqn:E; [|done]. simpl.
  destruct (descend_members_mut _ _) as [[x pd]|] eqn:F; [|done]. simpl. intros [= -> <-] Hl Hp Hq.
  destruct (members_mut_put _ _ _ _ d' F Hl) as (Hlike & Hget & Hframe).
  pose proof (find_mut_find _ _ _ _ E) as [_ Ha]. split_and!; [done..| |].
  - simpl. erewrite find_mut_put_same; [..|done|]; [done|].
    by rewrite (named_like n _ a), (Hp _ a).
  - intros Hd rest' e He Hleaf Hne. destruct rest' as [|n' names']; [done|]. simpl in *.
    destruct (find_mut_put _ (λ a, named da_name n' a && q a) _ _ (pd d') _ E) as [[Hx ->]| -> ].
    + by rewrite (named_like n' _ a), (Hq _ a).
    + simpl. rewrite Hx in He. simpl in He. apply Hframe; [done..|]. intros ->.
      apply find_find_mut in Hx as [? [_ Hx]%find_mut_find].
      apply andb_prop in Ha as [Hn Hpa]. apply andb_prop in Hx as [Hn' Hqa].
      apply bool_decide_eq_true in Hn. apply bool_decide_eq_true in Hn'. subst n n'.
      destruct Hne as [?|Hne]; [done|]. apply Hne in Hpa. congruence.
    + done.
Qed.

(** *** Sub-objects *)

Lemma objects_mut_objects o rest s put rest' :
  descend_objects_mut o rest = ((s, put), rest') → descend_objects o rest = (s, rest').
Proof.
  revert o s put rest'. induction rest as [|n rest IH]; intros o s put rest'; simpl.
  { by intros [= -> _ ->]. }
  unfold do_child_mut, do_child. destruct (find_mut _ _) as [[x p]|] eqn:E; simpl.
  - apply find_mut_find in E as [-> _].
    destruct (descend_objects_mut x rest) as [[y p'] r] eqn:F. intros [= -> _ ->]. by eapply IH.
  - apply find_None_mut in E as ->. by intros [= -> _ ->].
Qed.

(** Changing the attributes of the object a path leads to changes what another
    path leads to only if that is the same object. *)
Lemma objects_mut_put o rest s put rest' s' :
  descend_objects_mut o rest = ((s, put), rest') →
  do_name s' = do_name s → do_objects s' = do_objects s →
  do_name (put s') = do_name o ∧ descend_objects (put s') rest = (s', rest') ∧
  ∀ path2 s2 rest2, descend_objects o path2 = (s2, rest2) →
    ∃ s2', descend_objects (put s') path2 = (s2', rest2) ∧
      (do_attributes s2' = do_attributes s2 ∨
       (s2 = s ∧ s2' = s' ∧ ∃ pre, rest = pre ++ rest' ∧ path2 = pre ++ rest2)).
Proof.
  intros H Hn Ho. revert o put H. induction rest as [|first rest IH]; intros o put; simpl.
  - intros [= -> <- <-]. split_and!; [done..|]. intros path2 s2 rest2.
    destruct path2 as [|n path2]; simpl.
    + intros [= -> <-]. exists s'. split; [done|]. right. split_and!; [done..|]. by exists [].
    + unfold do_child. rewrite Ho. destruct (find _ _) as [sub|].
      * intros ->. eauto.
      * intros [= -> <-]. exists s'. split; [done|]. right. split_and!; [done..|]. by exists [].
  - unfold do_child_mut. destruct (find_mut _ _) as [[sub p]|] eqn:E; simpl.
    + destruct (descend_objects_mut sub rest) as [[x p'] r] eqn:F. intros [= -> <- ->].
      destruct (IH sub p' F) as (Hname & Hget & Hframe).
      destruct (named_put _ _ _ _ _ (p' s') E Hname) as [Hthis Hother].
      apply find_mut_find in E as [Esub _]. split_and!; [done| |].
      { unfold do_child. simpl. by rewrite Hthis. }
      intros path2 s2 rest2. destruct path2 as [|n path2]; simpl; [intros [= <- <-]; eauto|].
      unfold do_child. simpl. destruct (decide (n = first)) as [->|Hne].
      * rewrite Hthis, Esub. intros H2.
        destruct (Hframe path2 s2 rest2 H2) as (s2' & -> & [?|(-> & -> & pre & -> & ->)]); [by eauto|].
        exists s'. split; [done|]. right. split_and!; [done..|]. by exists (first :: pre).
      * rewrite Hother by done.
        destruct (find (named do_name n) (do_objects o)); [intros ->; eauto|]. intros [= <- <-]. eauto.
    + intros [= -> <- <-]. split_and!; [done| |].
      { unfold do_child. rewrite Ho. apply find_None_mut in E as ->. done. }
      intros path2 s2 rest2. destruct path2 as [|n path2]; simpl.
      { intros [= -> <-]. exists s'. split; [done|]. right. split_and!; [done..|]. by exists []. }
      unfold do_child. rewrite Ho. destruct (find _ _) as [sub|]; [intros ->; eauto|].
      intros [= -> <-]. exists s'. split; [done|]. right. split_and!; [done..|]. by exists [].
Qed.

(** *** The whole path *)

Lemma by_fc_only fc : fc_only (by_fc fc).
Proof. intros a b (_ & Hf & _). unfold by_fc. by rewrite Hf. Qed.

(** Where a reference leads: the device, node and object, the object its
    sub-objects lead to and the names left for attributes. *)
Definition locate (m : Model) (r : ObjectReference) (s : DataObject) (rest : list (list Z)) : Prop :=
  ∃ n d path ld ln o,
    ref_path r = n :: d :: path ∧ device m (ref_ld r) = Some ld ∧ node ld n = Some ln ∧
    object ln d = Some o ∧ descend_objects o path = (s, rest).

Lemma attribute_iff m r fc a :
  attribute m r fc = Some a ↔ ∃ s rest, locate m r s rest ∧ attribute_in (by_fc fc) s rest = Some a.
Proof.
  unfold attribute, lookup, locate. split.
  - destruct (device m (ref_ld r)) as [ld|] eqn:Ed; [|done]. simpl.
    destruct (ref_path r) as [|n [|d path]] eqn:Ep; [done|by destruct (node ld n)|].
    destruct (node ld n) as [ln|] eqn:En; [|done]. simpl.
    destruct (object ln d) as [o|] eqn:Eo; [|done]. simpl.
    destruct (descend_objects o path) as [s rest] eqn:Es. destruct rest as [|x rest]; [done|].
    destruct (attribute_in _ s (x :: rest)) as [b|] eqn:Ea; [|done]. simpl. intros [= ->].
    exists s, (x :: rest). split; [|done]. by exists n, d, path, ld, ln, o.
  - intros (s & rest & (n & d & path & ld & ln & o & Hp & Hd & Hn & Ho & Hs) & Ha).
    rewrite Hd. simpl. rewrite Hp, Hn. simpl. rewrite Ho. simpl. rewrite Hs.
    destruct rest as [|x rest]; [done|]. by rewrite Ha.
Qed.

Lemma descend_objects_suffix o path s rest : descend_objects o path = (s, rest) → path = [] → rest = [].
Proof. intros H ->. simpl in H. by injection H as _ <-. Qed.

Lemma attribute_mut_inv m r fc a put :
  attribute_mut m r fc = Some (a, put) →
  ∃ n d path ld pld ln pln o po s ps rest pa,
    ref_path r = n :: d :: path ∧
    find_mut (named ld_name (ref_ld r)) (model_devices m) = Some (ld, pld) ∧
    find_mut (named ln_name n) (ld_nodes ld) = Some (ln, pln) ∧
    find_mut (named do_name d) (ln_objects ln) = Some (o, po) ∧
    descend_objects_mut o path = ((s, ps), rest) ∧
    attribute_in_mut (by_fc fc) s rest = Some (a, pa) ∧
    put = λ a, set_devices m (pld (set_nodes ld (pln (set_ln_objects ln (po (ps (pa a))))))).
Proof.
  unfold attribute_mut, device_mut, node_mut, object_mut.
  destruct (ref_path r) as [|n [|d [|x path]]] eqn:Ep; try done.
  destruct (find_mut _ (model_devices m)) as [[ld pld]|] eqn:Ed; [|done]. cbn [mbind option_bind].
  destruct (find_mut _ (ld_nodes ld)) as [[ln pln]|] eqn:En; [|done]. cbn [mbind option_bind].
  destruct (find_mut _ (ln_objects ln)) as [[o po]|] eqn:Eo; [|done].
  cbn [mbind option_bind]. destruct (descend_objects_mut o (x :: path)) as [[s ps] rest] eqn:Es.
  destruct (attribute_in_mut (by_fc fc) s rest) as [[b pa]|] eqn:Ea; [|done].
  cbn [mbind option_bind]. intros [= -> <-]. by exists n, d, (x :: path), ld, pld, ln, pln, o, po, s, ps, rest, pa.
Qed.

Lemma attribute_mut_get m r fc a put : attribute_mut m r fc = Some (a, put) → attribute m r fc = Some a.
Proof.
  intros (n & d & path & ld & pld & ln & pln & o & po & s & ps & rest & pa & Hp & Hd & Hn & Ho & Hs & Ha & _)
    %attribute_mut_inv.
  apply attribute_iff. exists s, rest. split; [|by eapply attribute_in_mut_in].
  exists n, d, path, ld, ln, o. apply find_mut_find in Hd as [? _], Hn as [? _], Ho as [? _].
  apply objects_mut_objects in Hs. by split_and!.
Qed.

Lemma attribute_get_mut m r fc a : attribute m r fc = Some a → ∃ put, attribute_mut m r fc = Some (a, put).
Proof.
  intros (s & rest & (n & d & path & ld & ln & o & Hp & Hd & Hn & Ho & Hs) & Ha)%attribute_iff.
  unfold attribute_mut, device_mut, node_mut, object_mut. rewrite Hp.
  destruct path as [|x path].
  { apply descend_objects_suffix in Hs as ->; done. }
  apply find_find_mut in Hd as [pd ->]. cbn [mbind option_bind]. apply find_find_mut in Hn as [pn ->]. cbn [mbind option_bind].
  apply find_find_mut in Ho as [po ->]. cbn [mbind option_bind].
  destruct (descend_objects_mut o (x :: path)) as [[s' ps] rest'] eqn:Es.
  pose proof (objects_mut_objects _ _ _ _ _ Es) as Hs'. rewrite Hs in Hs'. injection Hs' as <- <-.
  apply attribute_in_in_mut in Ha as [pa ->]. simpl. eauto.
Qed.

Lemma ref_eq r r' : ref_path r ≠ [] → ref_ld r = ref_ld r' → ref_path r = ref_path r' → r = r'.
Proof.
  unfold ref_path, ref_ld. intros Hne.
  destruct (split_once SLASH r) as [[l x]|] eqn:E; [|done].
  destruct (split_once SLASH r') as [[l' x']|] eqn:E'; [|by intros _ ?%split_not_nil].
  intros -> Hx. apply split_once_Some in E as [-> _], E' as [-> _].
  by rewrite <-(join_split DOT x), <-(join_split DOT x'), Hx.
Qed.

(** Two constraints that no attribute is found under both. *)
Definition fc_distinct (fc fc' : Fc) : Prop :=
  fc ≠ fc' ∧ fc ∉ [All; FcNone] ∧ fc' ∉ [All; FcNone].

Lemma by_fc_distinct fc fc' : fc_distinct fc fc' → ∀ a, by_fc fc a = true → by_fc fc' a = false.
Proof.
  intros (Hne & H1 & H2) a. unfold by_fc, Fc_matches. rewrite bool_decide_eq_true, bool_decide_eq_false.
  set_solver.
Qed.

(** A change of the object [r] leads to moves what another reference leads to
    only if it leads to the same object. *)
Lemma locate_put m r fc a put a' :
  attribute_mut m r fc = Some (a, put) → like a' a →
  ∀ r' s' rest', locate m r' s' rest' →
    ∃ s2, locate (put a') r' s2 rest' ∧
      (do_attributes s2 = do_attributes s' ∨
       ∃ pa rest, attribute_in_mut (by_fc fc) s' rest = Some (a, pa) ∧ s2 = pa a' ∧
         (rest = rest' → r' = r)).
Proof.
  intros (n & d & path & ld & pld & ln & pln & o & po & s & ps & rest & pa & Hp & Hd & Hn & Ho & Hs & Ha & ->)
    %attribute_mut_inv Hl.
  destruct (attribute_in_mut_put _ (by_fc fc) _ _ _ _ a' Ha Hl) as (Hname & Hobjs & _); [apply by_fc_only..|].
  destruct (objects_mut_put _ _ _ _ _ (pa a') Hs Hname Hobjs) as (Hon & _ & Hframe).
  destruct (named_put _ _ _ _ _ (ps (pa a')) Ho Hon) as [Ho1 Ho2].
  destruct (named_put _ _ _ _ _ (set_ln_objects ln (po (ps (pa a')))) Hn eq_refl) as [Hn1 Hn2].
  destruct (named_put _ _ _ _ _ (set_nodes ld (pln (set_ln_objects ln (po (ps (pa a')))))) Hd eq_refl)
    as [Hd1 Hd2].
  intros r' s' rest' (n' & d' & path' & ld' & ln' & o' & Hp' & Hd' & Hn' & Ho' & Hs').
  apply find_mut_find in Hd as [Hd _], Hn as [Hn _], Ho as [Ho _].
  unfold device in Hd'. unfold node in Hn'. unfold object in Ho'.
  destruct (decide (ref_ld r' = ref_ld r)) as [El|Nl].
  2:{ exists s'. split; [|by left]. exists n', d', path', ld', ln', o'. unfold device. simpl.
      by rewrite Hd2. }
  rewrite El, Hd in Hd'. injection Hd' as <-.
  destruct (decide (n' = n)) as [->|Nn].
  2:{ exists s'. split; [|by left]. eexists n', d', path', _, ln', o'. unfold device, node. simpl.
      rewrite El, Hd1. split_and!; [done..|simpl; by rewrite Hn2|done|done]. }
  rewrite Hn in Hn'. injection Hn' as <-.
  destruct (decide (d' = d)) as [->|Nd].
  2:{ exists s'. split; [|by left]. eexists n, d', path', _, _, o'. unfold device, node, object. simpl.
      rewrite El, Hd1. split_and!; [done|done|simpl; exact Hn1|simpl; by rewrite Ho2|done]. }
  rewrite Ho in Ho'. injection Ho' as <-.
  destruct (Hframe path' s' rest' Hs') as (s2 & Hs2 & Hcase). exists s2. split.
  { eexists n, d, path', _, _, _. unfold device, node, object. simpl. rewrite El, Hd1.
    split_and!; [done|done|simpl; exact Hn1|simpl; exact Ho1|done]. }
  destruct Hcase as [?|(-> & -> & pre & Hpre & Hpre')]; [by left|]. right. exists pa, rest.
  split_and!; [done..|].
  intros ->. apply ref_eq; [by rewrite Hp'|done|]. by rewrite Hp, Hp', Hpre, Hpre'.
Qed.

Lemma attribute_mut_put_same m r fc a put a' :
  attribute_mut m r fc = Some (a, put) → like a' a → attribute (put a') r fc = Some a'.
Proof.
  intros (n & d & path & ld & pld & ln & pln & o & po & s & ps & rest & pa & Hp & Hd & Hn & Ho & Hs & Ha & ->)
    %attribute_mut_inv Hl.
  destruct (attribute_in_mut_put _ (by_fc fc) _ _ _ _ a' Ha Hl) as (Hname & Hobjs & Hget & _); [apply by_fc_only..|].
  destruct (objects_mut_put _ _ _ _ _ (pa a') Hs Hname Hobjs) as (Hon & Hs' & _).
  destruct (named_put _ _ _ _ _ (ps (pa a')) Ho Hon) as [Ho1 _].
  destruct (named_put _ _ _ _ _ (set_ln_objects ln (po (ps (pa a')))) Hn eq_refl) as [Hn1 _].
  destruct (named_put _ _ _ _ _ (set_nodes ld (pln (set_ln_objects ln (po (ps (pa a')))))) Hd eq_refl)
    as [Hd1 _].
  apply attribute_iff. exists (pa a'), rest. split; [|done].
  by eexists n, d, path, _, _, _.
Qed.

(** A mutable borrow of a leaf attribute is of the attribute a lookup of the
    same reference and constraint gives, and there is one whenever there is that.
    After a new value is written through it, the lookup gives the attribute with
    that value, and every other leaf, under another reference or another
    constraint, is as before. *)
Lemma attribute_write_frame (m : Model) (r : ObjectReference) (fc : Fc) (a : DataAttribute) (v : Value) :
  attribute m r fc = Some a → da_children a = [] →
  ∃ put, attribute_mut m r fc = Some (a, put) ∧
    let m' := put (set_value a (Some v)) in
    attribute m' r fc = Some (set_value a (Some v)) ∧
    ∀ r' fc' b, attribute m r' fc' = Some b → da_children b = [] →
      r' ≠ r ∨ fc_distinct fc fc' → attribute m' r' fc' = Some b.
Proof.
  intros Ha Hleaf. destruct (attribute_get_mut _ _ _ _ Ha) as [put Hput]. exists put.
  pose proof (set_value_like a (Some v)) as Hlike. split; [done|]. intros m'.
  split; [by eapply attribute_mut_put_same|].
  intros r' fc' b (s & rest & Hs & Hb)%attribute_iff Hbl Hne.
  destruct (locate_put _ _ _ _ _ _ Hput Hlike r' s rest Hs)
    as (s2 & Hs2 & [Hattr|(pa & rest0 & Hin & -> & Hr)]); apply attribute_iff.
  - exists s2, rest. split; [done|]. revert Hb. unfold attribute_in. by rewrite Hattr.
  - exists (pa (set_value a (Some v))), rest. split; [done|].
    destruct (attribute_in_mut_put _ (by_fc fc') _ _ _ _ _ Hin Hlike) as (_ & _ & _ & Hframe);
      [apply by_fc_only..|].
    apply Hframe; [done..|].
    destruct Hne as [Hne|Hne]; [left; intros ->; by apply Hne, Hr|right; by apply by_fc_distinct].
Qed.

Definition leaf (n : list Z) (fc : Fc) (v : Value) : DataAttribute :=
  mkDA n fc [] (Some (type_of v)) [] [] 0 [] (Some v) 0.

Definition sample_model : Model :=
  mkModel (txt "IED") [mkLD (txt "LD0") (txt "0")
    [mkLN (txt "GGIO1") (txt "GGIO")
      [mkDO (txt "SPCSO1") (txt "SPC") []
         [leaf (txt "stVal") St (VBoolean false); leaf (txt "ctlModel") Cf (VInteger 1)]] [] []]].

(** *** Collecting and applying values *)

Lemma DataAttribute_ind' (P : DataAttribute → Prop) :
  (∀ a, Forall P (da_children a) → P a) → ∀ a, P a.
Proof.
  intros H. fix IH 1. intros a. apply H. destruct a as [n fc fn k bt et c cs v t]. simpl.
  induction cs as [|x cs IHcs]; constructor; [apply IH|apply IHcs].
Qed.

(** A value has the shape of an attribute: members for members, an array for an
    array. *)
Inductive shaped : DataAttribute → Value → Prop :=
| shaped_leaf a v : da_children a = [] → shaped a v
| shaped_array a vs : da_children a ≠ [] → da_kind a = Some TArray →
    Forall2 shaped (da_children a) vs → shaped a (VArray vs)
| shaped_structure a vs : da_children a ≠ [] → da_kind a ≠ Some TArray →
    Forall2 shaped (da_children a) vs → shaped a (VStructure vs).

(** The loop of [apply_value] over the members. *)
Fixpoint apply_all (l : list DataAttribute) (vs : list Value) : bool * list DataAttribute :=
  match l, vs with
  | c :: l, cv :: vs =>
      let '(ok, c) := apply_value c cv in
      if (ok : bool) then let '(ok, l) := apply_all l vs in (ok, c :: l) else (false, c :: l)
  | l, _ => (true, l)
  end.

Lemma apply_value_eq a v :
  apply_value a v =
  if is_leaf a then (true, set_value a (Some v))
  else if decide (length (children v) ≠ length (da_children a)) then (false, a)
  else let '(ok, l) := apply_all (da_children a) (children v) in (ok, set_children a l).
Proof.
  destruct a as [n fc fn k bt et c cs w t]. simpl. repeat (case_match; try done).
Qed.

(** A value of the shape of an attribute is taken whole, and collected again is
    the value. *)
Lemma apply_collect a v :
  shaped a v → ∃ a', apply_value a v = (true, a') ∧ collect_value a' = v.
Proof.
  revert v. induction a as [a IH] using DataAttribute_ind'. intros v Hv.
  rewrite apply_value_eq. unfold is_leaf.
  assert (∀ vs, Forall2 shaped (da_children a) vs →
    ∃ l, apply_all (da_children a) vs = (true, l) ∧ map collect_value l = vs ∧
      length l = length (da_children a)) as Hall.
  { intros vs Hvs. induction Hvs as [|c cv cs vs Hc _ IHvs]; [by exists []|].
    apply Forall_cons in IH as [IHc IH]. destruct (IHc cv Hc) as (c' & Hc1 & Hc2).
    destruct (IHvs IH) as (l & Hl1 & Hl2 & Hl3). exists (c' :: l). simpl.
    rewrite Hc1, Hl1. simpl. by rewrite Hc2, Hl2, Hl3. }
  inversion Hv as [? ? Hleaf|? vs Hne Hk Hvs|? vs Hne Hk Hvs]; subst.
  - rewrite Hleaf. simpl. eexists. split; [done|]. simpl. unfold is_leaf. simpl. by rewrite Hleaf.
  - rewrite bool_decide_eq_false_2 by (by destruct (da_children a)). simpl.
    rewrite decide_False by (intros Hn; apply Hn; by rewrite (Forall2_length _ _ _ Hvs)).
    destruct (Hall vs Hvs) as (l & -> & Hl & Hlen). eexists. split; [done|]. simpl. unfold is_leaf.
    simpl. rewrite Hlen, bool_decide_eq_false_2 by (by destruct (da_children a)).
    by rewrite decide_True, Hl by done.
  - rewrite bool_decide_eq_false_2 by (by destruct (da_children a)). simpl.
    rewrite decide_False by (intros Hn; apply Hn; by rewrite (Forall2_length _ _ _ Hvs)).
    destruct (Hall vs Hvs) as (l & -> & Hl & Hlen). eexists. split; [done|]. simpl. unfold is_leaf.
    simpl. rewrite Hlen, bool_decide_eq_false_2 by (by destruct (da_children a)).
    by rewrite decide_False, Hl by done.
Qed.
