(* ===== verification/Blocks.v ===== *)
(** The attributes of control blocks in the model: how the managers of
    src/src/server/ (setting groups, logs, sampled values) read and set them, by device,
    node and object, and what such a change leaves alone. *)

From S2P Require Import Prelude BerPrim Text MmsValue ObjRef Nodes.
Local Open Scope Z_scope.

(** ** Attributes found by their block *)

Definition block_attr (m : Model) (dom n d : list Z) (p : DataAttribute → bool) : option DataAttribute :=
  ld ← device m dom; ln ← node ld n; o ← object ln d; find p (do_attributes o).

Definition block_attr_mut (m : Model) (dom n d : list Z) (p : DataAttribute → bool)
    : option (DataAttribute * (DataAttribute → Model)) :=
  '(ld, put_ld) ← device_mut m dom;
  '(ln, put_ln) ← node_mut ld n;
  '(o, put_o) ← object_mut ln d;
  '(a, put_a) ← find_mut p (do_attributes o);
  Some (a, λ a, put_ld (put_ln (put_o (set_attributes o (put_a a))))).

(** [if let Some(a) = .. { a.value = Some(v) }]. *)
Definition block_put (m : Model) (dom n d : list Z) (p : DataAttribute → bool) (v : Value) : Model :=
  match block_attr_mut m dom n d p with
  | Some (a, put) => put (set_value a (Some v))
  | None => m
  end.

(** [attribute(name)], and the search by name and constraint. *)
Definition by_name (name : string) : DataAttribute → bool := named da_name (txt name).
Definition by_name_fc (name : string) (fc : Fc) (a : DataAttribute) : bool :=
  by_name name a && bool_decide (da_fc a = fc).

(** The searches only look at what a new value leaves alone. *)
Lemma by_name_only name : fc_only (by_name name).
Proof. intros a b H. by apply named_like. Qed.

Lemma by_name_fc_only name fc : fc_only (by_name_fc name fc).
Proof. intros a b H. unfold by_name_fc. rewrite (by_name_only name a b H). by destruct H as (_ & -> & _). Qed.

(** ** References *)

Definition read_attr (m : Model) (reference : ObjectReference) (fc : Fc) : option Value :=
  a ← attribute m reference fc; da_value a.

Definition write_attr (m : Model) (reference : ObjectReference) (fc : Fc) (v : Value) : Model :=
  match attribute_mut m reference fc with
  | Some (a, put) => put (set_value a (Some v))
  | None => m
  end.

Definition write_attrs (m : Model) (fc : Fc) (l : list (ObjectReference * Value)) : Model :=
  foldl (λ m p, write_attr m p.1 fc p.2) m l.

(** A leaf with this value. *)
Definition shows (m : Model) (r : ObjectReference) (fc : Fc) (v : option Value) : Prop :=
  ∃ a, attribute m r fc = Some a ∧ da_children a = [] ∧ da_value a = v.

Lemma shows_read m r fc v : shows m r fc v → read_attr m r fc = v.
Proof. intros (a & Ha & _ & Hv). unfold read_attr. by rewrite Ha. Qed.

Lemma write_attr_shows m r fc v v0 :
  shows m r fc v0 →
  shows (write_attr m r fc v) r fc (Some v) ∧
  ∀ r' fc' v', shows m r' fc' v' → r' ≠ r ∨ fc_distinct fc fc' → shows (write_attr m r fc v) r' fc' v'.
Proof.
  intros (a & Ha & Hl & _). destruct (attribute_write_frame m r fc a v Ha Hl) as (put & Hput & Hget & Hframe).
  unfold write_attr. rewrite Hput. split; [by eexists|].
  intros r' fc' v' (b & Hb & Hbl & Hbv) Hne. exists b. split; [|done]. by apply Hframe.
Qed.

Lemma write_attrs_frame fc l : ∀ m r' fc' v',
  Forall (λ p, ∃ v0, shows m p.1 fc v0) l → shows m r' fc' v' → r' ∉ map fst l ∨ fc_distinct fc fc' →
  shows (write_attrs m fc l) r' fc' v'.
Proof.
  induction l as [|[r v] l IH]; intros m r' fc' v' Hl Hs Hne; [done|]. cbn [write_attrs foldl fst snd].
  apply Forall_cons in Hl as [[v0 Hr] Hl]. destruct (write_attr_shows m r fc v v0 Hr) as [Hget Hframe].
  apply IH.
  - eapply Forall_impl; [exact Hl|]. intros [r1 v1] [v2 H2]. simpl in *.
    destruct (decide (r1 = r)) as [->|]; [by eexists|]. exists v2. apply Hframe; [done|by left].
  - apply Hframe; [done|]. destruct Hne as [Hne|?]; [left|by right]. simpl in Hne. set_solver.
  - destruct Hne as [Hne|?]; [left|by right]. simpl in Hne. set_solver.
Qed.

Lemma write_attrs_shows fc l : ∀ m,
  NoDup (map fst l) → Forall (λ p, ∃ v0, shows m p.1 fc v0) l →
  Forall (λ p, shows (write_attrs m fc l) p.1 fc (Some p.2)) l.
Proof.
  induction l as [|[r v] l IH]; intros m Hd Hl; [done|]. simpl in Hd. apply NoDup_cons in Hd as [Hr Hd].
  apply Forall_cons in Hl as [[v0 Hv0] Hl]. cbn [write_attrs foldl fst snd]. simpl in Hv0.
  destruct (write_attr_shows m r fc v v0 Hv0) as [Hget Hframe].
  assert (Forall (λ p, ∃ v0, shows (write_attr m r fc v) p.1 fc v0) l) as Hl'.
  { apply Forall_forall. intros [r1 v1] Hin. rewrite Forall_forall in Hl. destruct (Hl _ Hin) as [v2 H2].
    exists v2. apply Hframe; [done|]. left. simpl. intros ->. apply Hr. apply list_elem_of_fmap. by exists (r, v1). }
  constructor; [|by apply IH]. apply write_attrs_frame; [done|done|by left].
Qed.

(** ** What a change of a block leaves alone *)

Lemma block_attr_mut_inv m dom n d p a put :
  block_attr_mut m dom n d p = Some (a, put) →
  ∃ ld pld ln pln o po pa,
    find_mut (named ld_name dom) (model_devices m) = Some (ld, pld) ∧
    find_mut (named ln_name n) (ld_nodes ld) = Some (ln, pln) ∧
    find_mut (named do_name d) (ln_objects ln) = Some (o, po) ∧
    find_mut p (do_attributes o) = Some (a, pa) ∧
    put = λ a, set_devices m (pld (set_nodes ld (pln (set_ln_objects ln (po (set_attributes o (pa a))))))).
Proof.
  unfold block_attr_mut, device_mut, node_mut, object_mut.
  intros ([ld pld'] & Hd & H)%bind_Some. apply bind_Some in Hd as ([ld1 pld] & Hd & [= -> <-]).
  apply bind_Some in H as ([ln pln'] & Hn & H). apply bind_Some in Hn as ([ln1 pln] & Hn & [= -> <-]).
  apply bind_Some in H as ([o po'] & Ho & H). apply bind_Some in Ho as ([o1 po] & Ho & [= -> <-]).
  apply bind_Some in H as ([a1 pa] & Ha & [= -> <-]). by exists ld, pld, ln, pln, o, po, pa.
Qed.

Lemma block_attr_get m dom n d p a put : block_attr_mut m dom n d p = Some (a, put) → block_attr m dom n d p = Some a.
Proof.
  intros (ld & pld & ln & pln & o & po & pa & Hd & Hn & Ho & Ha & _)%block_attr_mut_inv.
  unfold block_attr, device, node, object.
  apply find_mut_find in Hd as [-> _]. simpl. apply find_mut_find in Hn as [-> _]. simpl.
  apply find_mut_find in Ho as [-> _]. simpl. by apply find_mut_find in Ha as [-> _].
Qed.

Lemma block_attr_mut_get m dom n d p a : block_attr m dom n d p = Some a → ∃ put, block_attr_mut m dom n d p = Some (a, put).
Proof.
  unfold block_attr, device, node, object.
  intros (ld & Hd & (ln & Hn & (o & Ho & Ha)%bind_Some)%bind_Some)%bind_Some.
  unfold block_attr_mut, device_mut, node_mut, object_mut.
  apply find_find_mut in Hd as [pd ->]. cbn [mbind option_bind]. apply find_find_mut in Hn as [pn ->]. cbn [mbind option_bind].
  apply find_find_mut in Ho as [po ->]. cbn [mbind option_bind]. apply find_find_mut in Ha as [pa ->]. simpl. eauto.
Qed.

(** Another search finds what it found, with the new value when it is the same
    attribute. *)
Lemma block_attr_put m dom n d p a put v :
  block_attr_mut m dom n d p = Some (a, put) →
  ∀ dom' n' d' q, fc_only q →
    block_attr (put (set_value a v)) dom' n' d' q = block_attr m dom' n' d' q ∨
    (dom' = dom ∧ n' = n ∧ d' = d ∧ block_attr m dom' n' d' q = Some a ∧
     block_attr (put (set_value a v)) dom' n' d' q = Some (set_value a v)).
Proof.
  intros (ld & pld & ln & pln & o & po & pa & Hd & Hn & Ho & Ha & ->)%block_attr_mut_inv dom' n' d' q Hq.
  destruct (named_put _ _ _ _ _ (set_attributes o (pa (set_value a v))) Ho eq_refl) as [Ho1 Ho2].
  destruct (named_put _ _ _ _ _ (set_ln_objects ln (po (set_attributes o (pa (set_value a v))))) Hn eq_refl) as [Hn1 Hn2].
  destruct (named_put _ _ _ _ _ (set_nodes ld (pln (set_ln_objects ln (po (set_attributes o (pa (set_value a v)))))))
    Hd eq_refl) as [Hd1 Hd2].
  apply find_mut_find in Hd as [Hd _], Hn as [Hn _], Ho as [Ho _].
  unfold block_attr, device, node, object. simpl.
  destruct (decide (dom' = dom)) as [->|?]; [|left; by rewrite Hd2]. rewrite Hd1, Hd. simpl.
  destruct (decide (n' = n)) as [->|?]; [|left; by rewrite Hn2]. rewrite Hn1, Hn. simpl.
  destruct (decide (d' = d)) as [->|?]; [|left; by rewrite Ho2]. rewrite Ho1, Ho. simpl.
  destruct (find_mut_put _ q _ _ (set_value a v) _ Ha) as [[Hx Hy]|Hsame]; [by apply Hq, set_value_like| |by left].
  right. by rewrite Hx, Hy.
Qed.

(** The attribute itself. *)
Lemma block_put_get m dom n d p a v :
  fc_only p → block_attr m dom n d p = Some a → block_attr (block_put m dom n d p v) dom n d p = Some (set_value a (Some v)).
Proof.
  intros Hp H. destruct (block_attr_mut_get _ _ _ _ _ _ H) as [put Hput]. unfold block_put. rewrite Hput.
  apply block_attr_mut_inv in Hput as (ld & pld & ln & pln & o & po & pa & Hd & Hn & Ho & Ha & ->).
  destruct (named_put _ _ _ _ _ (set_attributes o (pa (set_value a (Some v)))) Ho eq_refl) as [Ho1 _].
  destruct (named_put _ _ _ _ _ (set_ln_objects ln (po (set_attributes o (pa (set_value a (Some v)))))) Hn eq_refl) as [Hn1 _].
  destruct (named_put _ _ _ _ _ (set_nodes ld (pln (set_ln_objects ln (po (set_attributes o (pa (set_value a (Some v))))))))
    Hd eq_refl) as [Hd1 _].
  unfold block_attr, device, node, object. simpl. rewrite Hd1. simpl. rewrite Hn1. simpl. rewrite Ho1. simpl.
  eapply find_mut_put_same; [exact Ha|]. apply find_mut_find in Ha as [_ Ha].
  by rewrite (Hp _ a) by apply set_value_like.
Qed.

(** Another block, or an attribute another search finds in the same. *)
Lemma block_put_frame m dom n d p v dom' n' d' q b :
  fc_only q → block_attr m dom' n' d' q = Some b → (dom', n', d') ≠ (dom, n, d) ∨ p b = false →
  block_attr (block_put m dom n d p v) dom' n' d' q = Some b.
Proof.
  intros Hq Hb Hne. unfold block_put. destruct (block_attr_mut m dom n d p) as [[a put]|] eqn:E; [|done].
  destruct (block_attr_put _ _ _ _ _ _ _ (Some v) E dom' n' d' q Hq) as [->|(-> & -> & -> & Ha & _)]; [done|].
  rewrite Hb in Ha. injection Ha as ->. destruct Hne as [?|Hp]; [done|].
  apply block_attr_mut_inv in E as (?&?&?&?&?&?&?&_&_&_&Ha&_). apply find_mut_find in Ha as [_ Ha]. congruence.
Qed.

(** A leaf under a constraint that is not that of the attribute. *)
Lemma block_put_shows m dom n d p v r fc v' :
  shows m r fc v' → (∀ a, block_attr m dom n d p = Some a → by_fc fc a = false) →
  shows (block_put m dom n d p v) r fc v'.
Proof.
  intros (b & Hb & Hbl & Hbv) Hfc. unfold block_put.
  destruct (block_attr_mut m dom n d p) as [[a put]|] eqn:E; [|by exists b].
  specialize (Hfc a (block_attr_get _ _ _ _ _ _ _ E)). exists b. split; [|done].
  apply attribute_iff in Hb as (s & rest & (n' & d' & path & ld' & ln' & o' & Hp & Hd' & Hn' & Ho' & Hs) & Hin).
  apply block_attr_mut_inv in E as (ld & pld & ln & pln & o & po & pa & Hd & Hn & Ho & Ha & ->).
  set (o2 := set_attributes o (pa (set_value a (Some v)))).
  destruct (named_put _ _ _ _ _ o2 Ho eq_refl) as [Ho1 Ho2].
  destruct (named_put _ _ _ _ _ (set_ln_objects ln (po o2)) Hn eq_refl) as [Hn1 Hn2].
  destruct (named_put _ _ _ _ _ (set_nodes ld (pln (set_ln_objects ln (po o2)))) Hd eq_refl) as [Hd1 Hd2].
  apply find_mut_find in Hd as [Hd _], Hn as [Hn _], Ho as [Ho _].
  unfold device in Hd'. unfold node in Hn'. unfold object in Ho'. apply attribute_iff. unfold locate, device, node, object.
  destruct (decide (ref_ld r = dom)) as [El|]; [|exists s, rest; split; [|done]; exists n', d', path, ld', ln', o'; simpl; by rewrite Hd2].
  rewrite El, Hd in Hd'. injection Hd' as <-. simpl. rewrite El, Hd1.
  destruct (decide (n' = n)) as [->|]; [|exists s, rest; split; [|done]; eexists n', d', path, _, ln', o'; split_and!; [done..| |done|done]; simpl; by rewrite Hn2].
  rewrite Hn in Hn'. injection Hn' as <-.
  destruct (decide (d' = d)) as [->|]; [|exists s, rest; split; [|done]; eexists n, d', path, _, _, o'; split_and!; [done|done|exact Hn1|simpl; by rewrite Ho2|done]].
  rewrite Ho in Ho'. injection Ho' as <-.
  assert (attribute_in (by_fc fc) o rest = Some b → attribute_in (by_fc fc) o2 rest = Some b) as Hkeep.
  { destruct rest as [|x rest]; [done|]. simpl.
    destruct (find_mut_put _ (λ a, named da_name x a && by_fc fc a) _ _ (set_value a (Some v)) _ Ha) as [[Hx _]|Hsame].
    - by rewrite (named_like x _ a), (by_fc_only fc _ a) by apply set_value_like.
    - apply find_find_mut in Hx as [? [_ Hx]%find_mut_find]. rewrite Hfc in Hx. by rewrite andb_false_r in Hx.
    - by rewrite Hsame. }
  assert (∃ s2, descend_objects o2 path = (s2, rest) ∧ attribute_in (by_fc fc) s2 rest = Some b) as (s2 & Hs2 & Hin2).
  { destruct path as [|x path]; simpl in Hs |- *; [injection Hs as <- <-; by eauto|].
    unfold do_child in Hs |- *. simpl. destruct (find _ (do_objects o)) as [sub|]; [by eauto|].
    injection Hs as <- <-. by eauto. }
  exists s2, rest. split; [|done]. eexists n, d, path, _, _, o2. split_and!; [done|done|exact Hn1|exact Ho1|done].
Qed.

(** And the other way: a leaf written by its reference. *)
Lemma write_attr_block m r fc v v0 dom n d q b :
  shows m r fc v0 → fc_only q → block_attr m dom n d q = Some b → by_fc fc b = false →
  block_attr (write_attr m r fc v) dom n d q = Some b.
Proof.
  intros (a & Ha & _) Hq Hb Hfc. unfold write_attr. destruct (attribute_mut m r fc) as [[a' put]|] eqn:E; [|done].
  apply attribute_mut_inv in E as (n' & d' & path & ld & pld & ln & pln & o & po & s & ps & rest & pa & Hp & Hd & Hn & Ho & Hs & Hin & ->).
  set (x := set_value a' (Some v)).
  destruct (attribute_in_mut_put _ (by_fc fc) _ _ _ _ x Hin (set_value_like _ _)) as (Hname & Hobjs & _); [apply by_fc_only..|].
  destruct (objects_mut_put _ _ _ _ _ (pa x) Hs Hname Hobjs) as (Hon & _ & Hframe).
  destruct (named_put _ _ _ _ _ (ps (pa x)) Ho Hon) as [Ho1 Ho2].
  destruct (named_put _ _ _ _ _ (set_ln_objects ln (po (ps (pa x)))) Hn eq_refl) as [Hn1 Hn2].
  destruct (named_put _ _ _ _ _ (set_nodes ld (pln (set_ln_objects ln (po (ps (pa x)))))) Hd eq_refl) as [Hd1 Hd2].
  apply find_mut_find in Hd as [Hd _], Hn as [Hn _], Ho as [Ho _].
  revert Hb. unfold block_attr, device, node, object. simpl.
  destruct (decide (dom = ref_ld r)) as [->|?]; [|by rewrite Hd2]. rewrite Hd1, Hd. simpl.
  destruct (decide (n = n')) as [->|?]; [|by rewrite Hn2]. rewrite Hn1, Hn. simpl.
  destruct (decide (d = d')) as [->|?]; [|by rewrite Ho2]. rewrite Ho1, Ho. simpl. intros Hb.
  destruct (Hframe [] o [] eq_refl) as (s2 & Hs2 & Hcase). simpl in Hs2. injection Hs2 as <-.
  destruct Hcase as [-> |(-> & -> & _)]; [done|].
  unfold attribute_in_mut in Hin. destruct rest as [|y rest]; [done|].
  apply bind_Some in Hin as ([at_ pat] & Hfm & Hin). apply bind_Some in Hin as ([dt pdt] & Hdm & [= -> <-]). simpl.
  destruct (members_mut_put _ _ _ _ x Hdm (set_value_like _ _)) as (Hlike & _).
  destruct (find_mut_put _ q _ _ (pdt x) _ Hfm) as [[Hx _]| ->]; [by apply Hq| |done].
  rewrite Hb in Hx. injection Hx as ->. apply find_mut_find in Hfm as [_ Hfm].
  apply andb_prop in Hfm as [_ Hfm]. congruence.
Qed.

Lemma write_attrs_block fc l : ∀ m dom n d q b,
  Forall (λ p, ∃ v0, shows m p.1 fc v0) l → fc_only q → block_attr m dom n d q = Some b → by_fc fc b = false →
  block_attr (write_attrs m fc l) dom n d q = Some b.
Proof.
  induction l as [|[r v] l IH]; intros m dom n d q b Hl Hq Hb Hfc; [done|]. cbn [write_attrs foldl fst snd].
  apply Forall_cons in Hl as [[v0 Hr] Hl]. simpl in Hr. destruct (write_attr_shows m r fc v v0 Hr) as [Hget Hframe].
  apply IH; [|done| |done].
  - eapply Forall_impl; [exact Hl|]. intros [r1 v1] [v2 H2]. simpl in *.
    destruct (decide (r1 = r)) as [->|]; [by eexists|]. exists v2. apply Hframe; [done|by left].
  - by eapply write_attr_block.
Qed.
