(* ===== verification/Access.v ===== *)
(** MMS variable access over the data model (src/src/server/access.rs and the
    constraint queries of src/src/model/nodes.rs): the names a client browses,
    the values it reads, the attribute a write lands on, and the types it is
    told. *)

From stdpp Require Import sorting strings.
From S2P Require Import Prelude BerPrim Errors MmsValue TypeSpec Text ObjRef Nodes.
Local Open Scope string_scope.
Local Open Scope list_scope.
Local Open Scope Z_scope.

(** ** Constraints of an object *)

Definition fc_le (a b : Fc) : Prop := Fc_rank a ≤ Fc_rank b.
#[export] Instance fc_le_dec a b : Decision (fc_le a b).
Proof. unfold fc_le. apply _. Defined.

Definition push_new (seen : list Fc) (fc : Fc) : list Fc :=
  if decide (fc ∈ seen) then seen else seen ++ [fc].

(** The [walk] of [DataObject::fcs]. *)
Fixpoint fcs_walk (o : DataObject) (seen : list Fc) : list Fc :=
  let seen := foldl (λ seen a, push_new seen (da_fc a)) seen (do_attributes o) in
  fold_left (λ seen s, fcs_walk s seen) (do_objects o) seen.

Definition fcs (o : DataObject) : list Fc := merge_sort fc_le (fcs_walk o []).

Definition has_fc (o : DataObject) (fc : Fc) : bool := bool_decide (fc ∈ fcs o).

(** [iter().find_map(f)]. *)
Definition find_map {A B} (f : A → option B) : list A → option B :=
  fix go (l : list A) :=
    match l with
    | [] => None
    | a :: l => match f a with Some b => Some b | None => go l end
    end.

(** The [walk] of [DataObject::fc_text]. *)
Fixpoint fc_text_walk (o : DataObject) (fc : Fc) : option (list Z) :=
  match find (λ a, bool_decide (da_fc a = fc)) (do_attributes o) with
  | Some a => Some (fc_text (da_fc a) (da_fc_name a))
  | None => find_map (λ s, fc_text_walk s fc) (do_objects o)
  end.

Definition do_fc_text (o : DataObject) (fc : Fc) : list Z :=
  default (Fc_as_str fc) (fc_text_walk o fc).

Definition fc_name_for (ln : LogicalNode) (fc : Fc) : list Z :=
  match find (λ o, has_fc o fc) (ln_objects ln) with
  | None => Fc_as_str fc
  | Some o => do_fc_text o fc
  end.

(** The constraints present on a node, in canonical order. *)
Definition node_fcs (ln : LogicalNode) : list Fc :=
  merge_sort fc_le
    (foldl (λ order o, foldl push_new order (fcs o)) [] (ln_objects ln)).

(** ** The name list *)

Definition dollar (prefix name : list Z) : list Z := prefix ++ DOLLAR :: name.

Fixpoint append_attr_names (prefix : list Z) (fc : Fc) (a : DataAttribute) : list (list Z) :=
  if decide (da_fc a ≠ fc) then []
  else
    let p := dollar prefix (da_name a) in
    p :: flat_map (append_attr_names p fc) (da_children a).

Fixpoint append_sub_do_names (prefix : list Z) (fc : Fc) (o : DataObject) : list (list Z) :=
  if has_fc o fc then
    let p := dollar prefix (do_name o) in
    p :: flat_map (append_attr_names p fc) (do_attributes o) ++
      flat_map (append_sub_do_names p fc) (do_objects o)
  else [].

(** The objects of a node are listed as sub-objects are. *)
Definition names_for_domain (ld : LogicalDevice) : list (list Z) :=
  flat_map (λ ln,
    ln_name ln ::
    flat_map (λ fc,
      let prefix := dollar (ln_name ln) (fc_name_for ln fc) in
      prefix :: flat_map (append_sub_do_names prefix fc) (ln_objects ln)) (node_fcs ln))
    (ld_nodes ld).

(** ** Reading *)

Definition split_item (item : list Z) : option (list Z * Fc * list (list Z)) :=
  match split DOLLAR item with
  | ln :: fc :: rest => Some (ln, parse_fc_lenient fc, rest)
  | _ => None
  end.

(** The loop [for c in l { members.push(f(c)?) }]. *)
Definition collect {A B} (f : A → option B) : list A → option (list B) :=
  fix go (l : list A) :=
    match l with
    | [] => Some []
    | a :: l => b ← f a; bs ← go l; Some (b :: bs)
    end.

Fixpoint da_value_opt (a : DataAttribute) : option Value :=
  match da_children a with
  | [] =>
      match da_value a with
      | Some v => Some v
      | None =>
          if decide (da_kind a = None ∨ da_kind a = Some TNone) then None
          else Some (VBoolean false)
      end
  | _ =>
      members ← collect da_value_opt (da_children a);
      let elem := VStructure members in
      if decide (da_kind a = Some TArray) then Some (VArray (replicate (Z.to_nat (da_count a)) elem))
      else Some elem
  end.

Definition under (fc : Fc) (a : DataAttribute) : bool := bool_decide (da_fc a = fc).

Fixpoint do_value (o : DataObject) (fc : Fc) : option Value :=
  attrs ← collect da_value_opt (List.filter (under fc) (do_attributes o));
  let subs := flat_map (λ sub,
    match do_value sub fc with
    | Some v => if Value_is_empty v then [] else [v]
    | None => []
    end) (do_objects o) in
  let members := attrs ++ subs in
  if decide (length members = 0%nat) then None else Some (VStructure members).

Definition resolve_read_err (ln : LogicalNode) (item : list Z) : Value + DataAccessError :=
  match split_item item with
  | None => inr ObjectNonExistent
  | Some (_, fc, rest) =>
      match rest with
      | [] => inl (VStructure (omap (λ o, do_value o fc) (ln_objects ln)))
      | d :: rest =>
          match object ln d with
          | None => inr ObjectNonExistent
          | Some o =>
              let '(o, rest) := descend_objects o rest in
              match rest with
              | [] => match do_value o fc with Some v => inl v | None => inr ObjectNonExistent end
              | _ =>
                  match attribute_in (under fc) o rest with
                  | None => inr ObjectNonExistent
                  | Some a => match da_value_opt a with Some v => inl v | None => inr TypeInconsistent end
                  end
              end
          end
      end
  end.

Definition resolve_read (ln : LogicalNode) (item : list Z) : option Value :=
  match resolve_read_err ln item with inl v => Some v | inr _ => None end.

(** ** Writing *)

(** Descends sub-objects, leaving at least one name for an attribute. *)
Fixpoint descend_but_last_mut (o : DataObject) (rest : list (list Z))
    : (DataObject * (DataObject → DataObject)) * list (list Z) :=
  match rest with
  | first :: ((_ :: _) as rest') =>
      match do_child_mut o first with
      | Some (sub, put) =>
          let '((s, put'), rest'') := descend_but_last_mut sub rest' in
          ((s, λ s, put (put' s)), rest'')
      | None => ((o, λ o, o), rest)
      end
  | _ => ((o, λ o, o), rest)
  end.

Definition resolve_write (ln : LogicalNode) (item : list Z)
    : option (DataAttribute * (DataAttribute → LogicalNode)) :=
  match split DOLLAR item with
  | _ :: f :: d :: ((_ :: _) as rest) =>
      let fc := parse_fc_lenient f in
      '(o, put_o) ← object_mut ln d;
      let '((s, put_s), rest) := descend_but_last_mut o rest in
      '(a, put_a) ← attribute_in_mut (under fc) s rest;
      if decide (length (da_children a) = 0%nat) then Some (a, λ a, put_o (put_s (put_a a)))
      else None
  | _ => None
  end.

(** ** Types *)

Definition btypes : list (list string * TypeSpec) :=
  [(["INT8"; "Enum"], ts_sized TInteger 8); (["INT16"], ts_sized TInteger 16);
   (["INT32"], ts_sized TInteger 32); (["INT64"], ts_sized TInteger 64);
   (["INT8U"], ts_sized TUnsigned 8); (["INT16U"], ts_sized TUnsigned 16);
   (["INT24U"], ts_sized TUnsigned 24); (["INT32U"], ts_sized TUnsigned 32);
   (["VisString32"], ts_sized TVisibleString 32); (["VisString64"], ts_sized TVisibleString 64);
   (["VisString65"], ts_sized TVisibleString 65);
   (["VisString129"; "ObjRef"], ts_sized TVisibleString 129);
   (["VisString255"], ts_sized TVisibleString 255); (["Unicode255"], ts_sized TMmsString 255)].

Definition btype_type_spec (btype : list Z) : option TypeSpec :=
  snd <$> find (λ p, bool_decide (btype ∈ map txt p.1)) btypes.

Fixpoint value_type_spec (v : Value) : TypeSpec :=
  match v with
  | VBitString _ => ts_sized TBitString (- swrap 32 (bit_len v))
  | VInteger _ => ts_sized TInteger 32
  | VUnsigned _ => ts_sized TUnsigned 32
  | VVisibleString _ => ts_sized TVisibleString 129
  | VOctetString _ => ts_sized TOctetString 64
  | VArray vs =>
      ts_array (Value_len v)
        (match vs with [] => ts_scalar TBoolean | v0 :: _ => value_type_spec v0 end)
  | _ => ts_scalar (type_of v)
  end.

Definition opt_value_type_spec (v : option Value) : TypeSpec :=
  match v with None => ts_scalar TBoolean | Some v => value_type_spec v end.

Fixpoint da_type_spec (a : DataAttribute) : TypeSpec :=
  match da_children a with
  | [] =>
      match btype_type_spec (da_btype a) with
      | Some el => if decide (da_kind a = Some TArray) then ts_array (da_count a) el else el
      | None => opt_value_type_spec (da_value a)
      end
  | _ =>
      let ts := ts_structure (map (λ c, mkComponent (da_name c) (da_type_spec c)) (da_children a)) in
      if decide (da_kind a = Some TArray) then ts_array (da_count a) ts else ts
  end.

Fixpoint do_type_spec (o : DataObject) (fc : Fc) : TypeSpec :=
  ts_structure
    (map (λ a, mkComponent (da_name a) (da_type_spec a)) (List.filter (under fc) (do_attributes o)) ++
     flat_map (λ sub, if has_fc sub fc then [mkComponent (do_name sub) (do_type_spec sub fc)] else [])
       (do_objects o)).

Definition fc_type_spec (ln : LogicalNode) (fc : Fc) : TypeSpec :=
  ts_structure (map (λ o, mkComponent (do_name o) (do_type_spec o fc))
    (List.filter (λ o, has_fc o fc) (ln_objects ln))).

Definition ln_type_spec (ln : LogicalNode) : TypeSpec :=
  ts_structure (map (λ fc, mkComponent (fc_name_for ln fc) (fc_type_spec ln fc)) (node_fcs ln)).

Definition type_spec_for (ln : LogicalNode) (item : list Z) : option TypeSpec :=
  match split DOLLAR item with
  | [] | [_] => Some (ln_type_spec ln)
  | [_; f] => Some (fc_type_spec ln (parse_fc_lenient f))
  | _ :: f :: d :: rest =>
      let fc := parse_fc_lenient f in
      o ← object ln d;
      let '(o, rest) := descend_objects o rest in
      match rest with
      | [] => Some (do_type_spec o fc)
      | _ => da_type_spec <$> attribute_in (under fc) o rest
      end
  end.

(** ** Reading back what is written *)

(** No object has an attribute and a sub-object of one name. *)
Inductive tidy : DataObject → Prop :=
| tidy_intro o :
    (∀ a s, a ∈ do_attributes o → s ∈ do_objects o → da_name a ≠ do_name s) →
    Forall tidy (do_objects o) → tidy o.

Lemma find_elem {A} (p : A → bool) l x : find p l = Some x → x ∈ l ∧ p x = true.
Proof.
  unfold find. destruct (list_find _ l) as [[i z]|] eqn:E; [|done]. simpl. intros [= ->].
  apply list_find_Some in E as (Hi & Hp & _). split; [by eapply list_elem_of_lookup_2|done].
Qed.

Lemma find_named_elem {A} (nm : A → list Z) n l x : find (named nm n) l = Some x → x ∈ l ∧ nm x = n.
Proof. intros [? H%bool_decide_eq_true]%find_elem. done. Qed.

Lemma descend_objects_tidy o path s rest : tidy o → descend_objects o path = (s, rest) → tidy s.
Proof.
  revert o. induction path as [|n path IH]; intros o Ho; simpl; [by intros [= -> _]|].
  destruct (do_child o n) as [sub|] eqn:E; [|by intros [= -> _]].
  apply IH. apply find_named_elem in E as [Hin _]. inversion Ho as [? _ Hs]. subst.
  by eapply Forall_forall in Hs.
Qed.

Lemma attribute_in_elem p o n names a : attribute_in p o (n :: names) = Some a →
  ∃ b, b ∈ do_attributes o ∧ da_name b = n.
Proof.
  simpl. destruct (find _ _) as [b|] eqn:E; [|done]. intros _. apply find_elem in E as [Hin Hp].
  apply andb_prop in Hp as [Hn _]. apply bool_decide_eq_true in Hn. eauto.
Qed.

Lemma descend_but_last_cons o n t :
  t ≠ [] →
  descend_but_last_mut o (n :: t) =
  match do_child_mut o n with
  | Some (sub, put) =>
      let '((s, put'), rest) := descend_but_last_mut sub t in ((s, λ s, put (put' s)), rest)
  | None => ((o, λ o, o), n :: t)
  end.
Proof. by destruct t. Qed.

Lemma descend_but_last_eq o init l :
  descend_but_last_mut o (init ++ [l]) =
  let '(b, r) := descend_objects_mut o init in (b, r ++ [l]).
Proof.
  revert o. induction init as [|n init IH]; intros o; [done|]. simpl app.
  rewrite descend_but_last_cons by (by destruct init). simpl.
  destruct (do_child_mut o n) as [[sub p]|]; [|done].
  rewrite IH. by destruct (descend_objects_mut sub init) as [[s p'] r].
Qed.

Lemma descend_objects_snoc o init l s r :
  descend_objects o init = (s, r) → do_child s l = None ∨ r ≠ [] →
  descend_objects o (init ++ [l]) = (s, r ++ [l]).
Proof.
  revert o. induction init as [|n init IH]; intros o; simpl.
  - intros [= -> <-] [H|?]; [|done]. by rewrite H.
  - destruct (do_child o n) as [sub|]; [apply IH|]. by intros [= -> <-].
Qed.

Definition tidy_node (ln : LogicalNode) : Prop := Forall tidy (ln_objects ln).

(** The constraint and path an item is about. *)
Definition item_key (item : list Z) : option (Fc * list (list Z)) :=
  '(_, fc, rest) ← split_item item; Some (fc, rest).

(** Where a write lands. *)
Lemma resolve_write_inv ln item a put :
  resolve_write ln item = Some (a, put) →
  ∃ fc d init l o po s ps r pa,
    item_key item = Some (fc, d :: init ++ [l]) ∧
    find_mut (named do_name d) (ln_objects ln) = Some (o, po) ∧
    descend_objects_mut o init = ((s, ps), r) ∧
    attribute_in_mut (under fc) s (r ++ [l]) = Some (a, pa) ∧ da_children a = [] ∧
    put = λ a, set_ln_objects ln (po (ps (pa a))).
Proof.
  unfold resolve_write, item_key, split_item, object_mut.
  destruct (split DOLLAR item) as [|n [|f [|d [|x rest]]]]; try done.
  destruct (find_mut _ _) as [[o po]|] eqn:Eo; [|done]. cbn [mbind option_bind].
  destruct (exists_last (l := x :: rest)) as (init & l & El); [done|]. rewrite El, descend_but_last_eq.
  destruct (descend_objects_mut o init) as [[s ps] r] eqn:Es.
  destruct (attribute_in_mut _ _ _) as [[b pa]|] eqn:Ea; [|done]. cbn [mbind option_bind].
  case_decide as Hl; [|done]. intros [= -> <-].
  exists (parse_fc_lenient f), d, init, l, o, po, s, ps, r, pa. split_and!; try done.
  by destruct (da_children a).
Qed.

(** In a tidy node a read of the item comes to the same attribute. *)
Lemma read_at ln item fc d init l o s r a :
  item_key item = Some (fc, d :: init ++ [l]) → object ln d = Some o →
  descend_objects o (init ++ [l]) = (s, r ++ [l]) →
  attribute_in (under fc) s (r ++ [l]) = Some a →
  resolve_read_err ln item = match da_value_opt a with Some v => inl v | None => inr TypeInconsistent end.
Proof.
  unfold item_key, resolve_read_err. destruct (split_item item) as [[[n fc'] rest]|]; [|done].
  simpl. intros [= -> ->] -> -> Ha. destruct (r ++ [l]) as [|x y] eqn:E; [by destruct r|].
  by rewrite Ha.
Qed.

Lemma tidy_no_child s p r l a :
  tidy s → attribute_in p s (r ++ [l]) = Some a → do_child s l = None ∨ r ≠ [].
Proof.
  intros Ht Ha. destruct r as [|x r]; [|by right]. left.
  apply attribute_in_elem in Ha as (b & Hb & <-).
  destruct (do_child s (da_name b)) as [sub|] eqn:E; [|done].
  apply find_named_elem in E as [Hin Hn]. inversion Ht as [? Hc _]. subst.
  by destruct (Hc b sub Hb Hin).
Qed.

Lemma under_fc_only fc : fc_only (under fc).
Proof. intros a b (_ & Hf & _). unfold under. by rewrite Hf. Qed.

(** A value written to the attribute an item resolves to is what a read of
    the item then gives, and no other item that can be written reads differently,
    in a node where no object has an attribute and a sub-object of one name. *)
Theorem write_then_read (ln : LogicalNode) (item : list Z) (a : DataAttribute)
    (put : DataAttribute → LogicalNode) (v : Value) :
  tidy_node ln → resolve_write ln item = Some (a, put) →
  let ln' := put (set_value a (Some v)) in
  resolve_read_err ln' item = inl v ∧
  ∀ item' b put', resolve_write ln item' = Some (b, put') → item_key item' ≠ item_key item →
    resolve_read_err ln' item' = resolve_read_err ln item'.
Proof.
  intros Ht (fc & d & init & l & o & po & s & ps & r & pa & Hkey & Ho & Hs & Ha & Hleaf & ->)%resolve_write_inv.
  set (a' := set_value a (Some v)). assert (like a' a) as Hlike by apply set_value_like.
  destruct (attribute_in_mut_put _ (under fc) _ _ _ _ a' Ha Hlike) as (Hname & Hobjs & Hget & _); [apply under_fc_only..|].
  destruct (objects_mut_put _ _ _ _ _ (pa a') Hs Hname Hobjs) as (Hon & Hs' & Hframe).
  destruct (named_put _ _ _ _ _ (ps (pa a')) Ho Hon) as [Ho1 Ho2].
  pose proof (find_mut_find _ _ _ _ Ho) as [Hof _].
  assert (∀ d' o', object ln d' = Some o' → tidy o') as Htidy.
  { intros d' o' [Hin _]%find_named_elem. by eapply Forall_forall in Ht. }
  pose proof (objects_mut_objects _ _ _ _ _ Hs) as Hsd.
  pose proof (descend_objects_tidy _ _ _ _ (Htidy d o Hof) Hsd) as Hts.
  pose proof (attribute_in_mut_in _ _ _ _ _ Ha) as Hin.
  pose proof (tidy_no_child _ _ _ _ _ Hts Hin) as Hnc.
  intros ln'. split.
  { rewrite (read_at ln' item fc d init l (ps (pa a')) (pa a') r a' Hkey Ho1); [| |done].
    - simpl. by rewrite Hleaf.
    - apply descend_objects_snoc; [done|]. unfold do_child. by rewrite Hobjs. }
  intros item' b put' (fc' & d' & init' & l' & o' & po' & s2 & ps' & r' & pb & Hkey' & Ho' & Hs2 & Hb & Hbl & _)
    %resolve_write_inv Hne.
  apply find_mut_find in Ho' as [Ho' _]. apply objects_mut_objects in Hs2. apply attribute_in_mut_in in Hb.
  pose proof (descend_objects_tidy _ _ _ _ (Htidy d' o' Ho') Hs2) as Hts2.
  pose proof (descend_objects_snoc _ _ l' _ _ Hs2 (tidy_no_child _ _ _ _ _ Hts2 Hb)) as Hfull.
  rewrite (read_at ln item' fc' d' init' l' o' s2 r' b Hkey' Ho' Hfull Hb).
  destruct (decide (d' = d)) as [->|Hd].
  - unfold object in Ho'. rewrite Hof in Ho'. injection Ho' as <-.
    destruct (Hframe (init' ++ [l']) s2 (r' ++ [l']) Hfull) as (s2' & Hs2' & Hcase).
    apply (read_at ln' item' fc' d init' l' (ps (pa a')) s2' r' b Hkey' Ho1 Hs2').
    destruct Hcase as [Hattr|(-> & -> & pre & Hpre & Hpre')].
    { revert Hb. unfold attribute_in. by rewrite Hattr. }
    destruct (attribute_in_mut_put _ (under fc') _ _ _ _ a' Ha Hlike) as (_ & _ & _ & Hfr); [apply under_fc_only..|].
    apply Hfr; [done..|]. rewrite Hkey, Hkey' in Hne.
    destruct (decide (r' ++ [l'] = r ++ [l])) as [Er|?]; [|by left]. right.
    intros x. unfold under. rewrite bool_decide_eq_true, bool_decide_eq_false. intros <- Hfc. apply Hne.
    do 2 f_equal; [done|]. rewrite Hpre', Er, Hpre. by rewrite <-app_assoc.
  - apply (read_at ln' item' fc' d' init' l' o' s2 r' b Hkey'); [|done..].
    unfold object. simpl. by rewrite Ho2.
Qed.

Definition sample_ln : LogicalNode :=
  mkLN (txt "GGIO1") (txt "GGIO")
    [mkDO (txt "SPCSO1") (txt "SPC") []
       [leaf (txt "stVal") St (VBoolean false); leaf (txt "ctlModel") Cf (VInteger 1)]] [] [].

Lemma write_then_read_witness :
  ∃ put, resolve_write sample_ln (txt "GGIO1$ST$SPCSO1$stVal") =
      Some (leaf (txt "stVal") St (VBoolean false), put) ∧
    resolve_read_err (put (leaf (txt "stVal") St (VBoolean true))) (txt "GGIO1$ST$SPCSO1$stVal") =
      inl (VBoolean true).
Proof.
  eexists. split; [vm_compute; reflexivity|].
  apply (write_then_read sample_ln (txt "GGIO1$ST$SPCSO1$stVal") (leaf (txt "stVal") St (VBoolean false)) _
    (VBoolean true)).
  - repeat constructor. intros a s _ Hs. by apply not_elem_of_nil in Hs.
  - vm_compute. reflexivity.
Defined.

(** ** Values and their types *)

Lemma DataObject_ind' (P : DataObject → Prop) :
  (∀ o, Forall P (do_objects o) → P o) → ∀ o, P o.
Proof.
  intros H. fix IH 1. intros o. apply H. destruct o as [n c os ats]. simpl.
  induction os as [|x os IHos]; constructor; [apply IH|apply IHos].
Qed.

(** The object, or a sub-object of it, has an attribute under the constraint. *)
Inductive exposes (fc : Fc) : DataObject → Prop :=
| exposes_attribute o a : a ∈ do_attributes o → da_fc a = fc → exposes fc o
| exposes_object o s : s ∈ do_objects o → exposes fc s → exposes fc o.

Lemma push_new_elem seen fc fc' : fc ∈ push_new seen fc' ↔ fc ∈ seen ∨ fc = fc'.
Proof. unfold push_new. case_decide; set_solver. Qed.

Lemma foldl_push_new {A} (f : A → Fc) l seen fc :
  fc ∈ foldl (λ seen a, push_new seen (f a)) seen l ↔ fc ∈ seen ∨ ∃ a, a ∈ l ∧ f a = fc.
Proof.
  revert seen. induction l as [|a l IH]; intros seen; simpl; [set_solver|].
  rewrite IH, push_new_elem. set_solver.
Qed.

Lemma fcs_walk_elem fc o seen : fc ∈ fcs_walk o seen ↔ fc ∈ seen ∨ exposes fc o.
Proof.
  revert seen. induction o as [o IH] using DataObject_ind'. intros seen.
  assert (∀ l seen, Forall (λ o, ∀ seen, fc ∈ fcs_walk o seen ↔ fc ∈ seen ∨ exposes fc o) l →
    fc ∈ fold_left (λ seen s, fcs_walk s seen) l seen ↔ fc ∈ seen ∨ ∃ s, s ∈ l ∧ exposes fc s) as Hsub.
  { clear. induction l as [|s l IHl]; intros seen H; simpl; [set_solver|].
    apply Forall_cons in H as [Hs Hl]. rewrite IHl by done. rewrite Hs. set_solver. }
  destruct o as [n c os ats]. simpl in *. rewrite Hsub by done. rewrite foldl_push_new. split.
  - intros [[?|(a & Ha & Hf)]|(s & Hs & Hx)]; [by left|right; by eapply exposes_attribute|right].
    by eapply exposes_object.
  - intros [?|Hx]; [by left; left|]. inversion Hx as [? a Ha Hf|? s Hs Hx']; subst; simpl in *.
    + left. right. eauto.
    + right. eauto.
Qed.

Lemma fcs_elem fc o : fc ∈ fcs o ↔ exposes fc o.
Proof. unfold fcs. rewrite merge_sort_Permutation, fcs_walk_elem. set_solver. Qed.

Lemma has_fc_true o fc : has_fc o fc = true ↔ exposes fc o.
Proof. unfold has_fc. by rewrite bool_decide_eq_true, fcs_elem. Qed.

(** A value has the structure a type specification declares. *)
Inductive conforms : TypeSpec → Value → Prop :=
| conforms_structure cs vs :
    Forall2 (λ c v, conforms (c_spec c) v) cs vs → conforms (ts_structure cs) (VStructure vs)
| conforms_array n e vs :
    zlen vs = n → Forall (conforms e) vs → conforms (ts_array n e) (VArray vs)
| conforms_leaf ts v : scalar v → ts_kind ts = Some (type_of v) → conforms ts v.

(** Every leaf has a value of its declared type. *)
Inductive sound_attr : DataAttribute → Prop :=
| sound_leaf a v :
    da_children a = [] → da_value_opt a = Some v → conforms (da_type_spec a) v → sound_attr a
| sound_members a :
    da_children a ≠ [] → Forall sound_attr (da_children a) → 0 ≤ da_count a → sound_attr a.

Inductive sound_object : DataObject → Prop :=
| sound_object_intro o :
    Forall sound_attr (do_attributes o) → Forall sound_object (do_objects o) → sound_object o.

Lemma collect_Forall2 {A B} (f : A → option B) (P : A → B → Prop) l :
  Forall (λ a, ∃ b, f a = Some b ∧ P a b) l → ∃ bs, collect f l = Some bs ∧ Forall2 P l bs.
Proof.
  induction 1 as [|a l (b & Hb & HP) _ (bs & Hbs & HPs)]; simpl; [by exists []|].
  exists (b :: bs). rewrite Hb. simpl. rewrite Hbs. by split; [|constructor].
Qed.

Lemma da_value_conforms a :
  sound_attr a → ∃ v, da_value_opt a = Some v ∧ conforms (da_type_spec a) v.
Proof.
  induction a as [a IH] using DataAttribute_ind'. intros Hs.
  inversion Hs as [? v _ Hv Hc|? Hne Hcs Hn]; subst; [by exists v|].
  assert (Forall (λ a, ∃ b, da_value_opt a = Some b ∧ conforms (da_type_spec a) b) (da_children a)) as Hall.
  { revert IH Hcs. rewrite !Forall_forall. auto. }
  destruct (collect_Forall2 _ _ _ Hall) as (ms & Hms & Hconf).
  assert (conforms (ts_structure (map (λ c, mkComponent (da_name c) (da_type_spec c)) (da_children a)))
    (VStructure ms)) as Hst.
  { constructor. by apply Forall2_fmap_l. }
  destruct a as [n fc fn k bt et cnt cs w t]. simpl in *.
  destruct cs as [|c cs]; [done|]. rewrite Hms. simpl. case_decide.
  - eexists. split; [done|]. constructor; [|by apply Forall_replicate].
    unfold zlen. rewrite length_replicate. lia.
  - eauto.
Qed.

Lemma filter_under_nil fc o : (∀ a, a ∈ do_attributes o → da_fc a ≠ fc) →
  List.filter (under fc) (do_attributes o) = [].
Proof.
  intros H. induction (do_attributes o) as [|a l IH]; [done|]. simpl. unfold under at 1.
  rewrite bool_decide_eq_false_2 by (apply H; left). apply IH. intros b Hb. apply H. by right.
Qed.

(** The values of the sub-objects. *)
Definition sub_values (fc : Fc) (l : list DataObject) : list Value :=
  flat_map (λ sub,
    match do_value sub fc with Some v => if Value_is_empty v then [] else [v] | None => [] end) l.

Definition sub_specs (fc : Fc) (l : list DataObject) : list (Component TypeSpec) :=
  flat_map (λ sub, if has_fc sub fc then [mkComponent (do_name sub) (do_type_spec sub fc)] else []) l.

Lemma do_value_eq o fc :
  do_value o fc =
  attrs ← collect da_value_opt (List.filter (under fc) (do_attributes o));
  let members := attrs ++ sub_values fc (do_objects o) in
  if decide (length members = 0%nat) then None else Some (VStructure members).
Proof. by destruct o. Qed.

Lemma do_type_spec_eq o fc :
  do_type_spec o fc =
  ts_structure
    (map (λ a, mkComponent (da_name a) (da_type_spec a)) (List.filter (under fc) (do_attributes o)) ++
     sub_specs fc (do_objects o)).
Proof. by destruct o. Qed.

(** What the proofs below say of an object under a constraint. *)
Definition reads_as_declared (fc : Fc) (o : DataObject) : Prop :=
  if has_fc o fc then
    ∃ vs, do_value o fc = Some (VStructure vs) ∧ vs ≠ [] ∧ conforms (do_type_spec o fc) (VStructure vs)
  else do_value o fc = None.

Lemma sub_values_conform fc l :
  Forall (reads_as_declared fc) l →
  Forall2 (λ c v, conforms (c_spec c) v) (sub_specs fc l) (sub_values fc l).
Proof.
  induction 1 as [|o l Ho _ IH]; [constructor|]. unfold sub_specs, sub_values in *. simpl.
  unfold reads_as_declared in Ho. destruct (has_fc o fc).
  - destruct Ho as (vs & -> & Hne & Hc). unfold Value_is_empty, Value_len. simpl.
    rewrite bool_decide_eq_false_2 by (intros ?%zlen_0_nil; done). simpl. by constructor.
  - by rewrite Ho.
Qed.

Lemma sub_values_nil fc l :
  Forall (reads_as_declared fc) l → (∀ o, o ∈ l → ¬ exposes fc o) → sub_values fc l = [].
Proof.
  induction 1 as [|o l Ho _ IH]; intros Hn; [done|]. unfold sub_values in *. simpl.
  unfold reads_as_declared in Ho. destruct (has_fc o fc) eqn:E.
  - apply has_fc_true in E. destruct (Hn o); [left|done].
  - rewrite Ho. simpl. apply IH. intros o' Ho'. apply Hn. by right.
Qed.

Lemma do_value_conforms o fc : sound_object o → reads_as_declared fc o.
Proof.
  induction o as [o IH] using DataObject_ind'. intros Hs.
  inversion Hs as [? Hattr Hobj]; subst. unfold reads_as_declared.
  assert (Forall (reads_as_declared fc) (do_objects o)) as Hsub.
  { revert IH Hobj. rewrite !Forall_forall. auto. }
  assert (Forall (λ a, ∃ v, da_value_opt a = Some v ∧ conforms (da_type_spec a) v)
    (List.filter (under fc) (do_attributes o))) as Hall.
  { apply Forall_forall. intros a [_ Ha]%list_elem_of_In%List.filter_In%and_comm. apply da_value_conforms.
    apply list_elem_of_In in Ha. by eapply Forall_forall in Hattr. }
  destruct (collect_Forall2 _ _ _ Hall) as (attrs & Hattrs & Hconf).
  rewrite do_value_eq, Hattrs, do_type_spec_eq. simpl.
  destruct (has_fc o fc) eqn:E.
  - assert (attrs ++ sub_values fc (do_objects o) ≠ []) as Hne.
    { apply has_fc_true in E. inversion E as [? a Ha Hf|? s Hs' Hx]; subst.
      - intros [-> _]%app_eq_nil. apply Forall2_nil_inv_r in Hconf.
        assert (a ∈ List.filter (under (da_fc a)) (do_attributes o)) as Hin.
        { apply list_elem_of_In, List.filter_In. split; [by apply list_elem_of_In|].
          unfold under. by apply bool_decide_eq_true_2. }
        rewrite Hconf in Hin. by apply not_elem_of_nil in Hin.
      - intros [_ Hn]%app_eq_nil. pose proof (sub_values_conform fc _ Hsub) as H2.
        rewrite Hn in H2. apply Forall2_nil_inv_r in H2. apply list_elem_of_split in Hs' as (l1 & l2 & Hl).
        unfold sub_specs in H2. rewrite Hl, flat_map_app in H2. simpl in H2.
        rewrite (proj2 (has_fc_true s fc) Hx) in H2. by destruct (flat_map _ l1). }
    rewrite decide_False by (by destruct (attrs ++ _)).
    eexists. split; [done|]. split; [done|]. constructor. apply Forall2_app.
    + by apply Forall2_fmap_l.
    + by apply sub_values_conform.
  - assert (¬ exposes fc o) as Hn by (rewrite <-has_fc_true, E; done).
    rewrite filter_under_nil in Hconf by (intros a Ha Hf; apply Hn; by eapply exposes_attribute).
    apply Forall2_nil_inv_l in Hconf as ->. rewrite sub_values_nil; [done|done|].
    intros s Hs' Hx. apply Hn. by eapply exposes_object.
Qed.

Lemma descend_objects_sound o path s rest :
  sound_object o → descend_objects o path = (s, rest) → sound_object s.
Proof.
  revert o. induction path as [|n path IH]; intros o Ho; simpl; [by intros [= -> _]|].
  destruct (do_child o n) as [sub|] eqn:E; [|by intros [= -> _]].
  apply IH. apply find_named_elem in E as [Hin _]. inversion Ho as [? _ Hs]. subst.
  by eapply Forall_forall in Hs.
Qed.

Lemma descend_members_sound a names b : sound_attr a → descend_members a names = Some b → sound_attr b.
Proof.
  revert a. induction names as [|n names IH]; intros a Ha; simpl; [by intros [= ->]|].
  intros (c & Hc & Hb)%bind_Some. apply (IH c); [|done]. unfold da_child in Hc.
  inversion Ha as [? v Hnil _ _|? _ Hcs _]; subst; [by rewrite Hnil in Hc|].
  apply find_elem in Hc as [Hin _]. by eapply Forall_forall in Hcs.
Qed.

Lemma attribute_in_sound p o rest a : sound_object o → attribute_in p o rest = Some a → sound_attr a.
Proof.
  intros Ho. destruct rest as [|n names]; [done|]. simpl. intros (b & Hb & Ha)%bind_Some.
  apply find_elem in Hb as [Hin _]. inversion Ho as [? Hat _]. subst.
  eapply descend_members_sound; [|done]. by eapply Forall_forall in Hat.
Qed.

Definition sound_node (ln : LogicalNode) : Prop := Forall sound_object (ln_objects ln).

Lemma constraint_value_conforms ln fc :
  sound_node ln →
  conforms (fc_type_spec ln fc) (VStructure (omap (λ o, do_value o fc) (ln_objects ln))).
Proof.
  unfold sound_node, fc_type_spec. intros H. constructor. induction H as [|o l Ho _ IH]; [constructor|].
  pose proof (do_value_conforms o fc Ho) as Hr. unfold reads_as_declared in Hr. simpl.
  destruct (has_fc o fc).
  - destruct Hr as (vs & -> & _ & Hc). simpl. by constructor.
  - by rewrite Hr.
Qed.

Lemma object_value_conforms o fc :
  sound_object o →
  match do_value o fc with Some v => conforms (do_type_spec o fc) v | None => ¬ exposes fc o end.
Proof.
  intros H. pose proof (do_value_conforms o fc H) as Hr. unfold reads_as_declared in Hr.
  destruct (has_fc o fc) eqn:E.
  - by destruct Hr as (vs & -> & _ & Hc).
  - rewrite Hr, <-has_fc_true, E. done.
Qed.

(** In a logical node whose leaves hold values of their declared types,
    an item that names at least a functional constraint reads as a value of
    the structure [type_spec_for] declares for that item, component by
    component and element by element; the only failure is a missing object. *)
Theorem read_conforms ln item key :
  sound_node ln → item_key item = Some key →
  match resolve_read_err ln item with
  | inl v => ∃ ts, type_spec_for ln item = Some ts ∧ conforms ts v
  | inr e => e = ObjectNonExistent
  end.
Proof.
  intros Hs. unfold item_key, resolve_read_err, type_spec_for, split_item.
  destruct (split DOLLAR item) as [|n [|f [|d rest]]]; try done.
  { intros _. eexists. split; [done|]. by apply constraint_value_conforms. }
  intros _. destruct (object ln d) as [o|] eqn:Ho; [|done]. simpl.
  assert (sound_object o) as Hso by (apply find_named_elem in Ho as [Hin _]; by eapply Forall_forall in Hs).
  destruct (descend_objects o rest) as [s r] eqn:Hd. pose proof (descend_objects_sound _ _ _ _ Hso Hd) as Hss.
  destruct r as [|m r].
  - pose proof (object_value_conforms s (parse_fc_lenient f) Hss). destruct (do_value _ _); eauto.
  - destruct (attribute_in _ _ _) as [a|] eqn:Ha; [|done].
    destruct (da_value_conforms a) as (v & -> & Hc); [by eapply attribute_in_sound|]. eauto.
Qed.

Lemma sample_ln_sound : sound_node sample_ln.
Proof.
  constructor; [|constructor]. constructor; [|constructor].
  repeat (constructor; [eapply sound_leaf; [reflexivity..|by apply conforms_leaf]|]). constructor.
Qed.

Lemma read_conforms_witness :
  ∃ ts, type_spec_for sample_ln (txt "GGIO1$ST$SPCSO1") = Some ts ∧
    conforms ts (VStructure [VBoolean false]).
Proof.
  assert (resolve_read_err sample_ln (txt "GGIO1$ST$SPCSO1") = inl (VStructure [VBoolean false])) as Hr
    by (vm_compute; reflexivity).
  pose proof (read_conforms sample_ln (txt "GGIO1$ST$SPCSO1") (St, [txt "SPCSO1"])) as H.
  rewrite Hr in H. apply H; [apply sample_ln_sound|vm_compute; reflexivity].
Defined.

Lemma conforms_structure_length cs vs :
  conforms (ts_structure cs) (VStructure vs) → length cs = length vs.
Proof.
  remember (ts_structure cs) as ts eqn:Hts. remember (VStructure vs) as v eqn:Hv.
  intros H. revert Hts Hv. destruct H as [cs' vs' Hf|n e vs' ? ?|ts' v' Hsc ?]; intros Hts Hv.
  - injection Hv as <-. unfold ts_structure in Hts. injection Hts as <-. by apply Forall2_length in Hf.
  - done.
  - by subst.
Qed.

(** An object whose sub-object [phsB] has a leaf with neither a value nor a
    kind to take a default from. *)
Definition sample_wye : DataObject :=
  mkDO (txt "A") (txt "WYE")
    [mkDO (txt "phsA") (txt "CMV") [] [leaf (txt "mag") Mx (VInteger 7)];
     mkDO (txt "phsB") (txt "CMV") [] [mkDA (txt "mag") Mx [] None (txt "Vendor") [] 0 [] None 0];
     mkDO (txt "phsC") (txt "CMV") [] [leaf (txt "mag") Mx (VInteger 9)]] [].

(** A sub-object with a member no value can be produced for is left out
    of the structure read for its object, though the type of the object has
    it: the value read does not conform, and a client that pairs components
    with values takes the value of [phsC] for that of [phsB]. *)
Theorem unproducible_member_dropped :
  ∃ cs, do_type_spec sample_wye Mx = ts_structure cs ∧
    map c_name cs = [txt "phsA"; txt "phsB"; txt "phsC"] ∧
    do_value sample_wye Mx =
      Some (VStructure [VStructure [VInteger 7]; VStructure [VInteger 9]]) ∧
    ¬ conforms (ts_structure cs) (VStructure [VStructure [VInteger 7]; VStructure [VInteger 9]]).
Proof.
  eexists. split; [vm_compute; reflexivity|]. split; [reflexivity|].
  split; [vm_compute; reflexivity|]. by intros H%conforms_structure_length.
Qed.

(** ** Listed names *)

(** The names of a node: free of the separator, and each one of its kind
    among its siblings. *)
Definition plain (n : list Z) : Prop := DOLLAR ∉ n.

Inductive named_attr : DataAttribute → Prop :=
| named_attr_intro a :
    plain (da_name a) → NoDup (map da_name (da_children a)) → Forall named_attr (da_children a) →
    named_attr a.

Inductive named_object : DataObject → Prop :=
| named_object_intro o :
    plain (do_name o) →
    NoDup (map do_name (do_objects o)) →
    NoDup (map (λ a, (da_name a, da_fc a)) (do_attributes o)) →
    (∀ a s, a ∈ do_attributes o → s ∈ do_objects o → da_name a ≠ do_name s) →
    Forall named_attr (do_attributes o) → Forall named_object (do_objects o) → named_object o.

Record named_node (ln : LogicalNode) : Prop := {
  nn_name : plain (ln_name ln);
  nn_objects_nodup : NoDup (map do_name (ln_objects ln));
  nn_objects : Forall named_object (ln_objects ln);
  nn_fcs : ∀ fc, fc ∈ node_fcs ln →
    plain (fc_name_for ln fc) ∧ parse_fc_lenient (fc_name_for ln fc) = fc;
}.

Record named_device (ld : LogicalDevice) : Prop := {
  nd_nodup : NoDup (map ln_name (ld_nodes ld));
  nd_nodes : Forall named_node (ld_nodes ld);
}.

Lemma find_by_key {A K} `{EqDecision K} (key : A → K) (l : list A) x (p : A → bool) :
  (∀ y, p y = true ↔ key y = key x) → NoDup (map key l) → x ∈ l → find p l = Some x.
Proof.
  intros Hp. unfold find. induction l as [|y l IH]; intros Hnd Hin; [by apply not_elem_of_nil in Hin|].
  apply NoDup_cons in Hnd as [Hy Hnd]. simpl. apply elem_of_cons in Hin as [<-|Hin].
  - rewrite decide_True by (by apply Hp). done.
  - rewrite decide_False.
    + specialize (IH Hnd Hin). destruct (list_find _ l) as [[i z]|]; done.
    + rewrite Hp. intros E. apply Hy. rewrite E. by apply list_elem_of_In, in_map, list_elem_of_In.
Qed.

Lemma find_named {A} (name : A → list Z) l x :
  NoDup (map name l) → x ∈ l → find (named name (name x)) l = Some x.
Proof. apply find_by_key. intros y. apply bool_decide_eq_true. Qed.

Lemma find_named_under o a :
  NoDup (map (λ a, (da_name a, da_fc a)) (do_attributes o)) → a ∈ do_attributes o →
  find (λ b, named da_name (da_name a) b && under (da_fc a) b) (do_attributes o) = Some a.
Proof.
  apply (find_by_key (λ a, (da_name a, da_fc a))). intros y. unfold named, under.
  rewrite andb_true_iff, !bool_decide_eq_true. split; [intros [-> ->]|intros [= -> ->]]; done.
Qed.

Lemma split_dollars p path : Forall plain path → split DOLLAR (foldl dollar p path) = split DOLLAR p ++ path.
Proof.
  intros H. revert p. induction H as [|n path Hn _ IH]; intros p; simpl; [by rewrite app_nil_r|].
  rewrite IH. change (n :: path) with ([n] ++ path). rewrite app_assoc. f_equal.
  unfold dollar. clear IH path. induction p as [|c p IHp]; simpl.
  - by rewrite split_no_sep.
  - rewrite IHp. case_decide; [done|]. pose proof (split_not_nil DOLLAR p). by destruct (split DOLLAR p).
Qed.

Lemma append_attr_names_elem fc a : ∀ prefix x,
  named_attr a → x ∈ append_attr_names prefix fc a →
  da_fc a = fc ∧ ∃ names b, x = foldl dollar prefix (da_name a :: names) ∧
    Forall plain (da_name a :: names) ∧ descend_members a names = Some b.
Proof.
  induction a as [a IH] using DataAttribute_ind'. intros prefix x Ha.
  inversion Ha as [? Hn Hnd Hcs]; subst.
  destruct a as [n fc' fn k bt et cnt cs w t]. cbn [da_children da_name da_fc] in *. cbn [append_attr_names da_fc da_children da_name].
  case_decide as Hfc; [by intros ?%not_elem_of_nil|]. intros Hx. split; [by destruct (decide (fc' = fc))|].
  apply elem_of_cons in Hx as [->|Hx].
  - exists [], (mkDA n fc' fn k bt et cnt cs w t). split; [done|]. split; [by constructor|done].
  - apply list_elem_of_In, in_flat_map in Hx as (c & Hc & Hx). apply list_elem_of_In in Hc, Hx.
    rewrite Forall_forall in IH. rewrite Forall_forall in Hcs.
    destruct (IH c Hc _ _ (Hcs c Hc) Hx) as (_ & names & b & -> & Hp & Hb).
    exists (da_name c :: names), b. split; [done|]. split; [by constructor|]. simpl.
    unfold da_child. simpl. by rewrite find_named.
Qed.

(** What a path below an object leads to. *)
Definition leads (fc : Fc) (o : DataObject) (path : list (list Z)) : Prop :=
  let '(s, rest) := descend_objects o path in
  match rest with [] => exposes fc s | _ => is_Some (attribute_in (under fc) s rest) end.

Lemma append_sub_do_names_elem fc o : ∀ prefix x,
  named_object o → x ∈ append_sub_do_names prefix fc o →
  ∃ path, x = foldl dollar prefix (do_name o :: path) ∧ Forall plain (do_name o :: path) ∧ leads fc o path.
Proof.
  induction o as [o IH] using DataObject_ind'. intros prefix x Ho.
  inversion Ho as [? Hn Hos Has Hdis Hna Hno]; subst.
  assert (append_sub_do_names prefix fc o =
    if has_fc o fc then
      let p := dollar prefix (do_name o) in
      p :: flat_map (append_attr_names p fc) (do_attributes o) ++
        flat_map (append_sub_do_names p fc) (do_objects o)
    else []) as -> by (by destruct o).
  destruct (has_fc o fc) eqn:E; [|by intros ?%not_elem_of_nil]. apply has_fc_true in E.
  rewrite Forall_forall in IH. rewrite Forall_forall in Hna. rewrite Forall_forall in Hno. intros Hx. apply elem_of_cons in Hx as [->|Hx].
  { exists []. split; [done|]. by split; [constructor|]. }
  apply elem_of_app in Hx as [Hx|Hx]; apply list_elem_of_In, in_flat_map in Hx as (c & Hc & Hx);
    apply list_elem_of_In in Hc, Hx.
  - destruct (append_attr_names_elem _ _ _ _ (Hna c Hc) Hx) as (<- & names & b & -> & Hp & Hb).
    exists (da_name c :: names). split; [done|]. split; [by constructor|]. unfold leads. cbn [descend_objects].
    assert (do_child o (da_name c) = None) as ->.
    { unfold do_child. destruct (find _ _) as [s|] eqn:Hf; [|done].
      apply find_named_elem in Hf as [Hs Hname]. by destruct (Hdis c s Hc Hs). }
    cbn [attribute_in]. rewrite find_named_under by done. simpl. by rewrite Hb.
  - destruct (IH c Hc _ _ (Hno c Hc) Hx) as (path & -> & Hp & Hl).
    exists (do_name c :: path). split; [done|]. split; [by constructor|]. unfold leads. cbn [descend_objects].
    unfold do_child. by rewrite find_named.
Qed.

Lemma leads_read ln n f d o path :
  object ln d = Some o → leads (parse_fc_lenient f) o path →
  Forall plain (n :: f :: d :: path) → sound_node ln →
  let item := foldl dollar n (f :: d :: path) in
  ∃ ts v, type_spec_for ln item = Some ts ∧ resolve_read_err ln item = inl v ∧ conforms ts v.
Proof.
  intros Ho Hl Hp Hs item. assert (split DOLLAR item = n :: f :: d :: path) as Hitem.
  { apply Forall_cons in Hp as [Hn Hp]. unfold item. by rewrite split_dollars, split_no_sep. }
  assert (sound_object o) as Hso by (apply find_named_elem in Ho as [Hin _]; by eapply Forall_forall in Hs).
  unfold type_spec_for, resolve_read_err, split_item. rewrite Hitem, Ho. simpl.
  unfold leads in Hl. destruct (descend_objects o path) as [s rest] eqn:Hd.
  pose proof (descend_objects_sound _ _ _ _ Hso Hd) as Hss. destruct rest as [|m rest].
  - pose proof (object_value_conforms s (parse_fc_lenient f) Hss) as Hv.
    destruct (do_value _ _) as [v|]; [|done]. eauto.
  - destruct Hl as [a Ha]. rewrite Ha.
    destruct (da_value_conforms a) as (v & -> & Hc); [by eapply attribute_in_sound|]. simpl. eauto.
Qed.


