(* ===== verification/Tx.v ===== *)
(** Model updates (src/src/server/tx.rs): the change set an update leaves, the
    clock quality, and the operations of a transaction, with what each does to
    the model and to the change set. *)

From S2P Require Import Prelude BerPrim TimeUtil Text Errors MmsValue ObjRef Quality Nodes.
Local Open Scope Z_scope.

(** ** The change set *)

Abbreviation ChangeSet := (gmap (ObjectReference * Fc) Z).

(** The reasons a write of [new] over [old] raises. *)
Definition raised (t : Z) (old : option Value) (new : Value) : Z :=
  let r := Z.land t (trg DATA_UPDATE) in
  let same := match old with Some old => Value_eq old new | None => false end in
  if same then r else Z.lor r (Z.land t (Z.lor (trg DATA_CHANGE) (trg QUALITY_CHANGE))).

Definition record (changes : ChangeSet) (reference : ObjectReference) (fc : Fc) (t : Z)
    (old : option Value) (new : Value) : ChangeSet :=
  <[(reference, fc) := Z.lor (default 0 (changes !! (reference, fc))) (raised t old new)]> changes.

(** ** The clock

    The quality plus one; zero when it has not been set. *)

Definition Clock_default : Z := 0.
Definition Clock_set (q : Z) : Z := q + 1.
Definition Clock_quality (c : Z) : Z := if decide (c = 0) then TimeQuality_DEFAULT else u8 (c - 1).

(** [now] is what the system clock says. *)
Definition Clock_now (c now : Z) : Value := utc_time now (Clock_quality c).

(** ** Transactions *)

Record Tx := mkTx {
  tx_model : Model;
  tx_changed : ChangeSet;
  tx_clock : Z;
}.

Definition with_clock (m : Model) (clock : Z) : Tx := mkTx m ∅ clock.

Definition tx_get (tx : Tx) (reference : ObjectReference) (fc : Fc) : option Value :=
  a ← attribute (tx_model tx) reference fc; da_value a.

Definition tx_set (tx : Tx) (reference : ObjectReference) (fc : Fc) (v : Value) : bool * Tx :=
  match attribute_mut (tx_model tx) reference fc with
  | None => (false, tx)
  | Some (a, put) =>
      if decide (length (da_children a) ≠ 0%nat) then (false, tx)
      else
        (true,
         mkTx (put (set_value a (Some v)))
           (record (tx_changed tx) reference fc (da_trg_ops a) (da_value a) v) (tx_clock tx))
  end.

Definition toggle (tx : Tx) (reference : ObjectReference) (fc : Fc) : bool * Tx :=
  let on := negb (match tx_get tx reference fc with Some v => as_bool v | None => false end) in
  (on, (tx_set tx reference fc (VBoolean on)).2).

Definition set_float32 (tx : Tx) (reference : ObjectReference) (v : Z) : bool * Tx :=
  tx_set tx reference Mx (VFloat32 v).

Definition set_bool (tx : Tx) (reference : ObjectReference) (v : bool) : bool * Tx :=
  tx_set tx reference St (VBoolean v).

Definition set_int32 (tx : Tx) (reference : ObjectReference) (fc : Fc) (v : Z) : bool * Tx :=
  tx_set tx reference fc (VInteger v).

Definition set_quality (tx : Tx) (reference : ObjectReference) (fc : Fc) (q : Z) : bool * Tx :=
  tx_set tx reference fc (Quality_value q).

Definition set_timestamp_now (tx : Tx) (reference : ObjectReference) (fc : Fc) (now : Z) : bool * Tx :=
  tx_set tx reference fc (Clock_now (tx_clock tx) now).

Definition set_timestamp (tx : Tx) (reference : ObjectReference) (fc : Fc) (t : Z) : bool * Tx :=
  tx_set tx reference fc (utc_time t (Clock_quality (tx_clock tx))).

Definition tx_changed_refs (tx : Tx) : gset ObjectReference :=
  list_to_set (map (λ kv, kv.1.1) (map_to_list (tx_changed tx))).

(** ** Theorems *)

(** The clock tells the quality that was set, and the default before. *)
Lemma Clock_quality_set q : octet q → Clock_quality (Clock_set q) = q.
Proof.
  intros Hq. unfold Clock_quality, Clock_set. rewrite decide_False by (unfold octet in Hq; lia).
  replace (q + 1 - 1) with q by lia. unfold octet in Hq. apply Z.mod_small. lia.
Qed.

(** What a [set] that succeeds leaves behind. *)
Definition set_done (tx : Tx) (r : ObjectReference) (fc : Fc) (a : DataAttribute) (v : Value) (tx' : Tx) : Prop :=
  attribute (tx_model tx') r fc = Some (set_value a (Some v)) ∧
  (∀ r' fc' b, attribute (tx_model tx) r' fc' = Some b → da_children b = [] →
    r' ≠ r ∨ fc_distinct fc fc' → attribute (tx_model tx') r' fc' = Some b) ∧
  tx_changed tx' = record (tx_changed tx) r fc (da_trg_ops a) (da_value a) v.

(** [set] succeeds exactly on the leaves of the model, and else changes nothing. *)
Lemma tx_set_cases tx r fc v :
  (∃ a tx', attribute (tx_model tx) r fc = Some a ∧ da_children a = [] ∧
    tx_set tx r fc v = (true, tx') ∧ set_done tx r fc a v tx') ∨
  (∀ a, attribute (tx_model tx) r fc = Some a → da_children a ≠ []) ∧ tx_set tx r fc v = (false, tx).
Proof.
  unfold tx_set. destruct (attribute (tx_model tx) r fc) as [a|] eqn:Ha.
  - destruct (decide (da_children a = [])) as [Hc|Hc].
    + left. destruct (attribute_write_frame _ _ _ _ v Ha Hc) as (put & -> & Hget & Hframe).
      rewrite decide_False by (rewrite Hc; intros H; by apply H).
      eexists a, _. do 4 (split; [done|]). by split.
    + right. destruct (attribute_get_mut _ _ _ _ Ha) as [put ->]. rewrite decide_True by (by destruct (da_children a)).
      split; [|done]. by intros a' [= <-].
  - right. split; [done|]. destruct (attribute_mut _ _ _) as [[a put]|] eqn:E; [|done].
    apply attribute_mut_get in E. congruence.
Qed.

(** A transaction: the leaves it sets, in order. *)
Definition tx_run (ops : list (ObjectReference * Fc * Value)) (tx : Tx) : Tx :=
  foldl (λ tx op, (tx_set tx op.1.1 op.1.2 op.2).2) tx ops.

(** The writes of a transaction that succeed, with the reasons each raises. *)
Fixpoint tx_writes (ops : list (ObjectReference * Fc * Value)) (tx : Tx)
    : list (ObjectReference * Fc * Z) :=
  match ops with
  | [] => []
  | (r, fc, v) :: ops =>
      let '(ok, tx') := tx_set tx r fc v in
      match attribute (tx_model tx) r fc with
      | Some a => if (ok : bool) then [(r, fc, raised (da_trg_ops a) (da_value a) v)] else []
      | None => []
      end ++ tx_writes ops tx'
  end.

Definition reasons_of (k : ObjectReference * Fc) (ws : list (ObjectReference * Fc * Z)) : list Z :=
  omap (λ w, if decide (w.1 = k) then Some w.2 else None) ws.

(** A reason is accumulated once the leaf is in the change set. *)
Definition accumulate (o : option Z) (rs : list Z) : option Z :=
  foldl (λ o r, Some (Z.lor (default 0 o) r)) o rs.

Lemma tx_changed_run ops : ∀ tx k,
  tx_changed (tx_run ops tx) !! k = accumulate (tx_changed tx !! k) (reasons_of k (tx_writes ops tx)).
Proof.
  induction ops as [|[[r fc] v] ops IH]; intros tx k; [done|]. simpl. rewrite IH. clear IH.
  destruct (tx_set_cases tx r fc v) as [(a & tx' & Ha & _ & Hs & _ & _ & Hrec)|[Hn Hs]]; rewrite Hs; simpl.
  - rewrite Ha, Hrec. unfold record, reasons_of. simpl. case_decide as Hk.
    + subst k. rewrite lookup_insert_eq. done.
    + by rewrite lookup_insert_ne.
  - by destruct (attribute _ _ _).
Qed.

(** The last value a transaction sets a leaf to. *)
Definition last_set (r : ObjectReference) (fc : Fc) (ops : list (ObjectReference * Fc * Value)) : option Value :=
  foldl (λ o op, if decide (op.1 = (r, fc)) then Some op.2 else o) None ops.

Definition concrete (fc : Fc) : Prop := fc ∉ [All; FcNone].

Lemma last_set_from o r fc ops :
  foldl (λ o op, if decide (op.1 = (r, fc)) then Some op.2 else o) o ops =
  match last_set r fc ops with Some v => Some v | None => o end.
Proof.
  unfold last_set. revert o. induction ops as [|op ops IH]; intros o; [done|]. simpl.
  case_decide; [|apply IH]. rewrite (IH (Some _)). by destruct (foldl _ None ops).
Qed.

Lemma tx_run_leaf r fc ops : ∀ tx b,
  concrete fc → Forall (λ op, concrete op.1.2) ops →
  attribute (tx_model tx) r fc = Some b → da_children b = [] →
  ∃ b', attribute (tx_model (tx_run ops tx)) r fc = Some b' ∧ da_children b' = [] ∧
    da_value b' = match last_set r fc ops with Some v => Some v | None => da_value b end.
Proof.
  induction ops as [|[[r0 fc0] v] ops IH]; intros tx b Hfc Hops Hb Hl; [by exists b|].
  apply Forall_cons in Hops as [Hfc0 Hops]. simpl in *. unfold last_set. simpl. rewrite last_set_from.
  destruct (tx_set_cases tx r0 fc0 v) as [(a & tx' & Ha & Hal & Hs & Hset & Hframe & _)|[Hn Hs]]; rewrite Hs; simpl.
  - destruct (decide ((r0, fc0) = (r, fc))) as [[= -> ->]|Hne].
    + destruct (IH tx' _ Hfc Hops Hset) as (b' & Hb' & Hl' & Hv'); [done|]. exists b'. do 2 (split; [done|]).
      rewrite Hv'. by destruct (last_set r fc ops).
    + destruct (IH tx' b Hfc Hops) as (b' & Hb' & Hl' & Hv'); [|done|].
      * apply Hframe; [done..|]. destruct (decide (r = r0)) as [->|?]; [right|by left].
        unfold fc_distinct. split; [|done]. by intros ->.
      * exists b'. do 2 (split; [done|]). rewrite Hv'. by destruct (last_set r fc ops).
  - destruct (IH tx b Hfc Hops Hb Hl) as (b' & Hb' & Hl' & Hv'). exists b'. do 2 (split; [done|]).
    rewrite Hv'. rewrite decide_False; [by destruct (last_set r fc ops)|]. intros [= -> ->]. by apply (Hn b).
Qed.

(** After a transaction each leaf of the model holds the last value set,
    or what it held before when none was; and the change set has exactly the
    leaves a [set] succeeded on, each with the union of the reasons its writes
    raised: the attribute's data-update on every write, its data- and
    quality-change only on one that changed the value. *)
Theorem update_effect m clock ops r fc b :
  concrete fc → Forall (λ op, concrete op.1.2) ops →
  attribute m r fc = Some b → da_children b = [] →
  let start := with_clock m clock in
  let tx := tx_run ops start in
  tx_get tx r fc = match last_set r fc ops with Some v => Some v | None => da_value b end ∧
  ∀ k, tx_changed tx !! k = accumulate None (reasons_of k (tx_writes ops start)).
Proof.
  intros Hfc Hops Hb Hl start tx. split.
  - destruct (tx_run_leaf r fc ops start b) as (b' & Hb' & _ & Hv); [done..|].
    unfold tx_get, tx. by rewrite Hb'.
  - intros k. unfold tx. by rewrite tx_changed_run.
Qed.

(** A status with trigger options, set to what it is, then changed. *)
Definition sample_st : DataAttribute :=
  mkDA (txt "stVal") St [] (Some TBoolean) (txt "BOOLEAN") [] 0 [] (Some (VBoolean false))
    (Z.lor (trg DATA_CHANGE) (trg DATA_UPDATE)).

Definition sample_tx_model : Model :=
  mkModel (txt "IED") [mkLD (txt "LD0") (txt "LD0")
    [mkLN (txt "GGIO1") (txt "GGIO") [mkDO (txt "Ind1") (txt "SPS") [] [sample_st]] [] []]].

Definition sample_ops : list (ObjectReference * Fc * Value) :=
  let r := txt "LD0/GGIO1.Ind1.stVal" in
  [(r, St, VBoolean false); (r, St, VBoolean true); (txt "LD0/GGIO1.Ind9.stVal", St, VBoolean true)].

Lemma update_effect_witness :
  let tx := tx_run sample_ops (with_clock sample_tx_model 0) in
  tx_get tx (txt "LD0/GGIO1.Ind1.stVal") St = Some (VBoolean true) ∧
  tx_changed tx !! (txt "LD0/GGIO1.Ind1.stVal", St) = Some (Z.lor (trg DATA_CHANGE) (trg DATA_UPDATE)).
Proof.
  destruct (update_effect sample_tx_model 0 sample_ops (txt "LD0/GGIO1.Ind1.stVal") St sample_st) as [Hg Hc].
  - by apply (bool_decide_eq_true_1 _); vm_compute.
  - repeat constructor; by apply (bool_decide_eq_true_1 _); vm_compute.
  - vm_compute. reflexivity.
  - reflexivity.
  - split; [exact Hg|]. simpl. rewrite Hc. vm_compute. reflexivity.
Defined.
