(* ===== verification/Handler.v ===== *)
(** Client writes (src/src/server/handler.rs): the write policy, the type check
    and the store, and that a stored write keeps every read of the model in the
    type the server declares. *)

From S2P Require Import Prelude Ber BerDecoder BerPrim TimeUtil Text Errors MmsValue MmsCodec TypeSpec.
From S2P Require Import ObjRef Quality Nodes Access Tx.
Local Open Scope Z_scope.

(** ** The type check *)

Definition int_range (btype : list Z) : option (Z * Z) :=
  if decide (btype = txt "INT8") then Some (- 2 ^ 7, 2 ^ 7 - 1)
  else if decide (btype = txt "INT16") then Some (- 2 ^ 15, 2 ^ 15 - 1)
  else if decide (btype = txt "INT32") then Some (- 2 ^ 31, 2 ^ 31 - 1)
  else if decide (btype = txt "INT8U") then Some (0, 2 ^ 8 - 1)
  else if decide (btype = txt "INT16U") then Some (0, 2 ^ 16 - 1)
  else if decide (btype = txt "INT32U") then Some (0, 2 ^ 32 - 1)
  else None.

Definition fits_as (da : DataAttribute) (v : Value) (want : Type_) : bool :=
  if decide (want = TNone) then true
  else if decide (type_of v ≠ want) then false
  else
    match want with
    | TBitString => match da_value da with Some cur => bool_decide (bit_len v = bit_len cur) | None => true end
    | TInteger =>
        match int_range (da_btype da) with Some (lo, hi) => bool_decide (lo ≤ as_i64 v ≤ hi) | None => true end
    | TUnsigned =>
        match int_range (da_btype da) with Some (_, hi) => bool_decide (as_u64 v ≤ hi) | None => true end
    | _ => true
    end.

Definition value_fits (da : DataAttribute) (v : Value) : bool :=
  match da_value da with
  | Some cur => fits_as da v (type_of cur)
  | None => match da_kind da with Some k => fits_as da v k | None => true end
  end.

(** ** The store *)

Section store.
(** The writable constraints, whether a setting group of a domain is being
    edited, and the application's write hook, which may refuse. *)
Context (writable : gset Fc) (editing : list Z → bool)
  (hook : option (DataAttribute → Value → option DataAccessError)).

Definition write_permitted (domain : list Z) (fc : Fc) : option DataAccessError :=
  if decide (fc ∉ writable) then Some ObjectAccessDenied
  else if decide (fc = Se ∧ editing domain = false) then Some TemporarilyUnavailable
  else None.

Definition store (m : Model) (changes : ChangeSet) (domain item : list Z) (v : Value) (control_block : bool)
    : (Model * ChangeSet) + DataAccessError :=
  match device_mut m domain with
  | None => inr ObjectNonExistent
  | Some (ld, put_ld) =>
      match node_mut ld (hd [] (split DOLLAR item)) with
      | None => inr ObjectNonExistent
      | Some (ln, put_ln) =>
          match resolve_write ln item with
          | None => inr ObjectAccessUnsupported
          | Some (da, put) =>
              match (if control_block then None else write_permitted domain (da_fc da)) with
              | Some e => inr e
              | None =>
                  if negb (value_fits da v) then inr TypeInconsistent
                  else
                    match (h ← hook; h da v) with
                    | Some e => inr e
                    | None =>
                        inl (put_ld (put_ln (put (set_value da (Some v)))),
                             if control_block then changes
                             else record changes (from_mms domain item).1 (da_fc da) (da_trg_ops da) (da_value da) v)
                    end
              end
          end
      end
  end.

(** ** Types are kept *)

Lemma find_mut_Forall {A} (P : A → Prop) p l x put :
  find_mut p l = Some (x, put) → Forall P l → P x ∧ ∀ y, P y → Forall P (put y).
Proof.
  unfold find_mut. intros ([i x'] & Hf & [= <- <-])%bind_Some Hl.
  apply list_find_Some in Hf as (Hi & _ & _). split; [by eapply Forall_lookup_1 in Hl|].
  intros y Hy. by apply Forall_insert.
Qed.

Lemma sound_attr_children a : sound_attr a → Forall sound_attr (da_children a).
Proof. intros [b v Hb _ _|b _ Hb _]; [by rewrite Hb|done]. Qed.

Lemma descend_members_mut_sound names : ∀ a d put,
  sound_attr a → descend_members_mut a names = Some (d, put) →
  sound_attr d ∧ ∀ d', like d' d → sound_attr d' → sound_attr (put d').
Proof.
  induction names as [|n names IH]; intros a d put Ha; [by intros [= -> <-]|]. cbn [descend_members_mut].
  intros ([c pc] & Hc & Hr)%bind_Some. apply bind_Some in Hr as ([d1 p1] & Hd & [= -> <-]).
  unfold da_child_mut in Hc. apply bind_Some in Hc as ([c' pc'] & Hf & [= -> <-]).
  pose proof (sound_attr_children a Ha) as Hcs. pose proof (find_mut_Forall _ _ _ _ _ Hf Hcs) as [Hsc Hput].
  destruct (IH c d p1 Hsc Hd) as [Hsd Hsub]. split; [done|]. intros d' Hl Hd'.
  destruct (find_mut_not_nil _ _ _ _ (p1 d') Hf) as [Hne Hne'].
  inversion Ha as [? v Hnil|? _ _ Hn]; subst; [by rewrite Hnil in Hne'|].
  destruct a as [an af afn ak abt aet ac acs av at_]. simpl in *.
  apply sound_members; [done| |done]. apply Hput. by apply Hsub.
Qed.

Lemma attribute_in_mut_sound p o rest d put :
  sound_object o → attribute_in_mut p o rest = Some (d, put) →
  sound_attr d ∧ ∀ d', like d' d → sound_attr d' → sound_object (put d').
Proof.
  intros Ho. destruct rest as [|n names]; [done|]. cbn [attribute_in_mut].
  intros ([a pa] & Hf & Hr)%bind_Some. apply bind_Some in Hr as ([d1 p1] & Hd & [= -> <-]).
  inversion Ho as [? Hattr Hobj]; subst. pose proof (find_mut_Forall _ _ _ _ _ Hf Hattr) as [Ha Hput].
  destruct (descend_members_mut_sound _ _ _ _ Ha Hd) as [Hsd Hsub]. split; [done|]. intros d' Hl Hd'.
  destruct o. constructor; [|done]. apply Hput. by apply Hsub.
Qed.

Lemma descend_objects_mut_sound rest : ∀ o s put rest',
  sound_object o → descend_objects_mut o rest = ((s, put), rest') →
  sound_object s ∧ ∀ s', sound_object s' → sound_object (put s').
Proof.
  induction rest as [|n rest IH]; intros o s put rest' Ho; cbn [descend_objects_mut]; [by intros [= -> <- _]|].
  destruct (do_child_mut o n) as [[c pc]|] eqn:Hc; [|by intros [= -> <- _]].
  unfold do_child_mut in Hc. apply bind_Some in Hc as ([c' pc'] & Hf & [= -> <-]).
  inversion Ho as [? Hattr Hobj]; subst. pose proof (find_mut_Forall _ _ _ _ _ Hf Hobj) as [Hsc Hput].
  destruct (descend_objects_mut c rest) as [[s1 p1] r1] eqn:Hd. intros [= -> <- <-].
  destruct (IH c s p1 r1 Hsc Hd) as [Hs Hsub]. split; [done|]. intros s' Hs'.
  destruct o. constructor; [done|]. apply Hput. by apply Hsub.
Qed.

Lemma resolve_write_sound ln item a put :
  sound_node ln → resolve_write ln item = Some (a, put) →
  da_children a = [] ∧ sound_attr a ∧ ∀ a', like a' a → sound_attr a' → sound_node (put a').
Proof.
  intros Hln (fc & d & init & l & o & po & s & ps & r & pa & _ & Ho & Hs & Ha & Hleaf & ->)%resolve_write_inv.
  pose proof (find_mut_Forall _ _ _ _ _ Ho Hln) as [Hso Hpo].
  destruct (descend_objects_mut_sound _ _ _ _ _ Hso Hs) as [Hss Hps].
  destruct (attribute_in_mut_sound _ _ _ _ _ Hss Ha) as [Hsa Hpa].
  split; [done|]. split; [done|]. intros a' Hl Hsa'. apply Hpo. apply Hps. by apply Hpa.
Qed.

Definition sound_model (m : Model) : Prop :=
  Forall (λ ld, Forall sound_node (ld_nodes ld)) (model_devices m).

(** The types of the basic types are those of scalars, never a boolean's. *)
Lemma btype_kind b el : btype_type_spec b = Some el →
  ts_kind el ≠ Some TArray ∧ ts_kind el ≠ Some TStructure ∧ ts_kind el ≠ Some TBoolean ∧ ts_kind el ≠ Some TNone.
Proof.
  unfold btype_type_spec. intros ([ns el'] & [Hin _]%find_elem & ->)%fmap_Some. simpl.
  assert (Forall (λ p : list string * TypeSpec, ts_kind p.2 ≠ Some TArray ∧ ts_kind p.2 ≠ Some TStructure ∧
    ts_kind p.2 ≠ Some TBoolean ∧ ts_kind p.2 ≠ Some TNone) btypes) as H by (by repeat constructor).
  rewrite Forall_forall in H. apply (H _ Hin).
Qed.

Lemma scalar_conforms v : scalar v → conforms (value_type_spec v) v.
Proof. intros Hs. apply conforms_leaf; [done|]. by destruct v. Qed.

Lemma conforms_scalar_kind ts v : ts_kind ts ≠ Some TArray → ts_kind ts ≠ Some TStructure →
  conforms ts v → scalar v ∧ ts_kind ts = Some (type_of v).
Proof. intros Ha Hs H. by destruct H. Qed.

Lemma fits_as_type a v want : fits_as a v want = true → want = TNone ∨ type_of v = want.
Proof. unfold fits_as. repeat case_decide; [by left|done|]. intros _. by right. Qed.

(** A scalar that fits a sound leaf leaves it sound. *)
Lemma set_value_sound a v :
  da_children a = [] → sound_attr a → scalar v → value_fits a v = true → sound_attr (set_value a (Some v)).
Proof.
  intros Hc Ha Hs Hf. inversion Ha as [? v0 _ Hv0 Hconf|? Hne]; subst; [|done].
  destruct a as [n fc fn k bt et cnt cs w t]. simpl in *. subst cs. apply (sound_leaf _ v); [done|done|].
  simpl in *. destruct (btype_type_spec bt) as [el|] eqn:Hbt; [|by apply scalar_conforms].
  apply btype_kind in Hbt as (Hna & Hns & Hnb & Hnn).
  destruct w as [cur|].
  - injection Hv0 as ->. apply fits_as_type in Hf as Hty. case_decide as Hk.
    + exfalso. inversion Hconf as [|? ? ? _ _|? ? Hs0 Hk0]; subst.
      * destruct Hty as [?|Hty]; [done|]. by destruct v.
      * by destruct v0.
    + destruct (conforms_scalar_kind _ _ Hna Hns Hconf) as [Hs0 Hk0]. apply conforms_leaf; [done|].
      destruct Hty as [Hty|Hty]; [|by rewrite Hty]. by rewrite Hk0, Hty in Hnn.
  - exfalso. case_decide; [done|]. injection Hv0 as <-. case_decide.
    + by inversion Hconf.
    + by destruct (conforms_scalar_kind _ _ Hna Hns Hconf) as [_ Hk0].
Qed.

End store.

Lemma sample_model_sound : sound_model (mkModel (txt "IED") [mkLD (txt "LD0") (txt "LD0") [sample_ln]]).
Proof. constructor; [|constructor]. constructor; [apply sample_ln_sound|constructor]. Qed.


(** *** Arrays *)

(** A leaf that is an array of three integers. *)
Definition sample_array : DataAttribute :=
  mkDA (txt "setVals") Sp [] (Some TArray) (txt "INT32") [] 3 []
    (Some (VArray [VInteger 1; VInteger 2; VInteger 3])) 0.

(** The type check does not look into an array. A leaf that holds an array
    of three integers, as its type declares, takes an array of one string from a
    client, after which what it reads as is not of the declared type any more. *)
Theorem array_write_unchecked :
  sound_attr sample_array ∧
  value_fits sample_array (VArray [VVisibleString (txt "x")]) = true ∧
  let a := set_value sample_array (Some (VArray [VVisibleString (txt "x")])) in
  da_value_opt a = Some (VArray [VVisibleString (txt "x")]) ∧
  ¬ conforms (da_type_spec a) (VArray [VVisibleString (txt "x")]).
Proof.
  split; [|split; [done|split; [done|]]].
  - eapply sound_leaf; [done|done|]. apply conforms_array; [done|]. by repeat (constructor; [by apply conforms_leaf|]).
  - intros H. inversion H as [|n e vs Hn|? ? Hs]; [done|by destruct Hs].
Qed.
