(* ===== verification/BlockStore.v ===== *)
(** How a write of an attribute of a control block is stored
    (src/src/server/handler.rs, store): the attribute the block has under that name and
    constraint, and nothing else. *)

From S2P Require Import Prelude BerPrim Text Errors MmsValue ObjRef Nodes Blocks Access Tx Handler.
Local Open Scope Z_scope.

Section store.
Context (writable : gset Fc) (editing : list Z → bool)
  (hook : option (DataAttribute → Value → option DataAccessError)).

(** Whether the attribute takes the value. *)
Definition takes (a : DataAttribute) (v : Value) : bool :=
  value_fits a v && match hook with Some h => bool_decide (h a v = None) | None => true end.

Lemma store_block m cs dom item n f d attr v :
  split DOLLAR item = [n; f; d; attr] →
  match block_attr m dom n d (λ a, named da_name attr a && under (parse_fc_lenient f) a) with
  | Some a =>
      if decide (da_children a = []) then
        if takes a v then
          store writable editing hook m cs dom item v true =
            inl (block_put m dom n d (λ a, named da_name attr a && under (parse_fc_lenient f) a) v, cs)
        else ∃ e, store writable editing hook m cs dom item v true = inr e
      else ∃ e, store writable editing hook m cs dom item v true = inr e
  | None => ∃ e, store writable editing hook m cs dom item v true = inr e
  end.
Proof.
  intros Hi. unfold store, block_attr, block_put, block_attr_mut, device. rewrite Hi. cbn [hd].
  unfold device_mut. destruct (find _ (model_devices m)) as [ld|] eqn:Ed.
  2:{ apply find_None_mut in Ed as ->. simpl. by eexists. }
  apply find_find_mut in Ed as [pd ->]. cbn [mbind option_bind]. unfold node, node_mut.
  destruct (find _ (ld_nodes ld)) as [ln|] eqn:En.
  2:{ apply find_None_mut in En as ->. simpl. by eexists. }
  apply find_find_mut in En as [pn ->]. cbn [mbind option_bind]. unfold resolve_write. rewrite Hi.
  unfold object, object_mut. destruct (find _ (ln_objects ln)) as [o|] eqn:Eo.
  2:{ apply find_None_mut in Eo as ->. simpl. by eexists. }
  apply find_find_mut in Eo as [po ->]. cbn [mbind option_bind descend_but_last_mut]. unfold attribute_in_mut.
  destruct (find _ (do_attributes o)) as [a|] eqn:Ea.
  2:{ apply find_None_mut in Ea as ->. simpl. by eexists. }
  apply find_find_mut in Ea as [pa ->]. cbn [mbind option_bind descend_members_mut].
  destruct (decide (da_children a = [])) as [->|Hne].
  2:{ rewrite decide_False by (by destruct (da_children a)). by eexists. }
  rewrite decide_True by done. unfold takes. destruct (value_fits a v); [|simpl; by eexists]. simpl.
  destruct hook as [h|]; simpl; [|done]. destruct (h a v) as [e|] eqn:Eh.
  - rewrite bool_decide_eq_false_2 by done. by eexists.
  - by rewrite bool_decide_eq_true_2.
Qed.
End store.
