(* ===== verification/Selections.v ===== *)
(** Select before operate (src/src/server/select.rs): the table of
    reservations, what an operate and a cancel are checked against, and the
    exclusion of other clients the table exists for. *)

From S2P Require Import Prelude ObjRef.
Local Open Scope Z_scope.

(** ** Additional causes and control models (src/src/model/control.rs) *)

Record AddCause := mkAddCause { ac_code : Z }.

#[export] Instance AddCause_eq_dec : EqDecision AddCause.
Proof. solve_decision. Defined.

Module AC.
Definition UNKNOWN : AddCause := mkAddCause 0.
Definition NOT_SUPPORTED : AddCause := mkAddCause 1.
Definition TIME_LIMIT_OVER : AddCause := mkAddCause 16.
Definition OBJECT_NOT_SELECTED : AddCause := mkAddCause 18.
Definition OBJECT_ALREADY_SELECTED : AddCause := mkAddCause 19.
Definition INCONSISTENT_PARAMETERS : AddCause := mkAddCause 26.
Definition TEST_NOT_ALLOWED : AddCause := mkAddCause 28.
Definition NONE : AddCause := mkAddCause 255.
End AC.

Definition is_accepted (c : AddCause) : bool := bool_decide (c = AC.NONE).

Inductive CtlModel :=
| StatusOnly
| DirectNormal
| SboNormal
| DirectEnhanced
| SboEnhanced
| OtherCtlModel (n : Z).

#[export] Instance CtlModel_eq_dec : EqDecision CtlModel.
Proof. solve_decision. Defined.

Definition CtlModel_from_code (code : Z) : CtlModel :=
  match code with
  | 0 => StatusOnly
  | 1 => DirectNormal
  | 2 => SboNormal
  | 3 => DirectEnhanced
  | 4 => SboEnhanced
  | n => OtherCtlModel n
  end.

Definition CtlModel_code (m : CtlModel) : Z :=
  match m with
  | StatusOnly => 0
  | DirectNormal => 1
  | SboNormal => 2
  | DirectEnhanced => 3
  | SboEnhanced => 4
  | OtherCtlModel n => n
  end.

Definition has_select (m : CtlModel) : bool :=
  match m with SboNormal | SboEnhanced => true | _ => false end.

Definition is_enhanced (m : CtlModel) : bool :=
  match m with DirectEnhanced | SboEnhanced => true | _ => false end.

Definition is_controllable (m : CtlModel) : bool :=
  match m with StatusOnly => false | _ => true end.

(** ** The table *)

(** A [ConnId] is its number. Instants and durations are nanoseconds. *)
Abbreviation ConnId := Z.

Definition SELECT_TIMEOUT : Z := 30 * 10 ^ 9.

Record Selection := mkSelection {
  sel_conn : ConnId;
  sel_expiry : Z;
  (** [None] for the SBO read form. *)
  sel_ctl_num : option Z;
}.

Abbreviation Selections := (gmap ObjectReference Selection).

Definition Selections_default : Selections := ∅.

Definition reserve (s : Selections) (reference : ObjectReference) (conn : ConnId)
    (ctl_num : option Z) (timeout now : Z) : bool * Selections :=
  let insert := (true, <[reference := mkSelection conn (now + timeout) ctl_num]> s) in
  match s !! reference with
  | Some sel => if decide (sel_conn sel ≠ conn ∧ now < sel_expiry sel) then (false, s) else insert
  | None => insert
  end.

(** The comparison [check_operate] and [check_cancel] end with. *)
Definition check_number (sel : Selection) (ctl_num : Z) : AddCause :=
  match sel_ctl_num sel with
  | Some n => if decide (n ≠ ctl_num) then AC.INCONSISTENT_PARAMETERS else AC.NONE
  | None => AC.NONE
  end.

Definition check_operate (s : Selections) (reference : ObjectReference) (conn : ConnId)
    (ctl_num now : Z) : AddCause :=
  match s !! reference with
  | None => AC.OBJECT_NOT_SELECTED
  | Some sel =>
      if decide (sel_conn sel ≠ conn ∨ sel_expiry sel ≤ now) then AC.OBJECT_NOT_SELECTED
      else check_number sel ctl_num
  end.

Definition check_cancel (s : Selections) (reference : ObjectReference) (conn : ConnId)
    (ctl_num now : Z) : AddCause :=
  match s !! reference with
  | None => AC.NONE
  | Some sel =>
      if decide (sel_expiry sel ≤ now) then AC.NONE
      else if decide (sel_conn sel ≠ conn) then AC.OBJECT_NOT_SELECTED
      else check_number sel ctl_num
  end.

Definition clear (s : Selections) (reference : ObjectReference) : Selections :=
  delete reference s.

Definition release_conn (s : Selections) (conn : ConnId) : Selections :=
  filter (λ kv, sel_conn kv.2 ≠ conn) s.

Definition Selections_len (s : Selections) : Z := Z.of_nat (size s).

Definition Selections_is_empty (s : Selections) : bool := bool_decide (s = ∅).

(** ** Histories

    What has been done to the table, oldest first, by whichever connections. *)

Inductive event :=
| EReserve (reference : ObjectReference) (conn : ConnId) (ctl_num : option Z) (timeout now : Z)
| EClear (reference : ObjectReference)
| ERelease (conn : ConnId).

Definition apply_event (s : Selections) (e : event) : Selections :=
  match e with
  | EReserve r c n timeout now => (reserve s r c n timeout now).2
  | EClear r => clear s r
  | ERelease c => release_conn s c
  end.

Definition after (events : list event) : Selections :=
  foldl apply_event Selections_default events.

(** [e] leaves a reservation of [r] that [c] holds until [expiry] as it is: it
    is about another object or connection, or the attempt of another client to
    reserve [r] before it has expired. *)
Definition leaves (r : ObjectReference) (c : ConnId) (expiry : Z) (e : event) : Prop :=
  match e with
  | EReserve r' c' _ _ now => r' = r → c' ≠ c ∧ now < expiry
  | EClear r' => r' ≠ r
  | ERelease c' => c' ≠ c
  end.

(** ** What each operation does to one entry *)

Lemma check_number_NONE sel n :
  check_number sel n = AC.NONE ↔ sel_ctl_num sel = None ∨ sel_ctl_num sel = Some n.
Proof.
  unfold check_number. destruct (sel_ctl_num sel) as [m|]; [|naive_solver].
  destruct (decide (m ≠ n)) as [H|H]; [split; [done|naive_solver]|].
  apply dec_stable in H. naive_solver.
Qed.

Lemma check_operate_NONE s r c n now :
  check_operate s r c n now = AC.NONE ↔
  ∃ sel, s !! r = Some sel ∧ sel_conn sel = c ∧ now < sel_expiry sel ∧
    (sel_ctl_num sel = None ∨ sel_ctl_num sel = Some n).
Proof.
  unfold check_operate. destruct (s !! r) as [sel|]; [|split; [done | naive_solver]].
  destruct (decide (sel_conn sel ≠ c ∨ sel_expiry sel ≤ now)) as [H|H].
  - split; [done|]. intros (sel' & [= <-] & ? & ? & _). lia.
  - rewrite check_number_NONE. split; [intros ?; exists sel; repeat split; [|lia|done] |].
    + destruct (decide (sel_conn sel = c)); [done|]. destruct H. by left.
    + intros (sel' & [= <-] & _ & _ & ?). done.
Qed.

Lemma reserve_refused s r c num timeout now :
  (reserve s r c num timeout now).1 = false ↔
  ∃ sel, s !! r = Some sel ∧ sel_conn sel ≠ c ∧ now < sel_expiry sel.
Proof.
  unfold reserve. destruct (s !! r) as [sel|]; [|simpl; split; [done | naive_solver]].
  destruct (decide (sel_conn sel ≠ c ∧ now < sel_expiry sel)) as [H|H]; simpl; [naive_solver|].
  split; [done|]. intros (sel' & [= <-] & ?). done.
Qed.

Lemma reserve_table s r c num timeout now :
  (reserve s r c num timeout now).2 =
  if (reserve s r c num timeout now).1
  then <[r := mkSelection c (now + timeout) num]> s else s.
Proof. unfold reserve. by repeat case_match. Qed.

Lemma reserve_other s r c num timeout now r' :
  r ≠ r' → (reserve s r c num timeout now).2 !! r' = s !! r'.
Proof.
  intros ?. rewrite reserve_table. destruct (reserve _ _ _ _ _ _).1; [|done].
  by rewrite lookup_insert_ne.
Qed.

Lemma release_conn_lookup s c r sel :
  release_conn s c !! r = Some sel ↔ s !! r = Some sel ∧ sel_conn sel ≠ c.
Proof. unfold release_conn. by rewrite map_lookup_filter_Some. Qed.

Lemma leaves_keeps s r sel e :
  s !! r = Some sel → leaves r (sel_conn sel) (sel_expiry sel) e →
  apply_event s e !! r = Some sel.
Proof.
  intros Hs. destruct e as [r' c' num timeout now|r'|c']; simpl; intros He.
  - destruct (decide (r' = r)) as [->|?]; [|by rewrite reserve_other].
    destruct He as [Hc Ht]; [done|]. rewrite reserve_table.
    rewrite (proj2 (reserve_refused s r c' num timeout now)); [done | by eauto].
  - unfold clear. by rewrite lookup_delete_ne.
  - by apply release_conn_lookup.
Qed.

(** An entry that was not there before the event was made by it. *)
Lemma apply_event_new s r sel e :
  apply_event s e !! r = Some sel →
  (s !! r = Some sel ∧ leaves r (sel_conn sel) (sel_expiry sel) e) ∨
  (∃ timeout now, e = EReserve r (sel_conn sel) (sel_ctl_num sel) timeout now ∧
     sel_expiry sel = now + timeout ∧
     (reserve s r (sel_conn sel) (sel_ctl_num sel) timeout now).1 = true).
Proof.
  destruct e as [r' c' num timeout now|r'|c']; simpl.
  - destruct (decide (r' = r)) as [->|?].
    2:{ rewrite reserve_other by done. intros ->. left. by split. }
    rewrite reserve_table. destruct (reserve s r c' num timeout now).1 eqn:E.
    + rewrite lookup_insert_eq. intros [= <-]. right. by exists timeout, now.
    + intros Hs. left. apply reserve_refused in E as (sel' & Hs' & ? & ?). naive_solver.
  - unfold clear. intros H.
    destruct (decide (r' = r)) as [->|?]; [by rewrite lookup_delete_eq in H|].
    left. by rewrite lookup_delete_ne in H.
  - rewrite release_conn_lookup. intros [? ?]. left. by split.
Qed.

Lemma foldl_leaves post s r sel :
  s !! r = Some sel → Forall (leaves r (sel_conn sel) (sel_expiry sel)) post →
  foldl apply_event s post !! r = Some sel.
Proof.
  intros Hs Hp. revert s Hs. induction Hp as [|e post He _ IH]; intros s Hs; [done|].
  apply IH. by apply leaves_keeps.
Qed.

(** Every entry of the table goes back to a select that succeeded, with nothing
    in between that ends it. *)
Lemma after_lookup events r sel :
  after events !! r = Some sel ↔
  ∃ pre post timeout now,
    events = pre ++ EReserve r (sel_conn sel) (sel_ctl_num sel) timeout now :: post ∧
    sel_expiry sel = now + timeout ∧
    (reserve (after pre) r (sel_conn sel) (sel_ctl_num sel) timeout now).1 = true ∧
    Forall (leaves r (sel_conn sel) (sel_expiry sel)) post.
Proof.
  split.
  - induction events as [|e events IH] using rev_ind; [done|].
    unfold after. rewrite foldl_app. simpl. fold (after events).
    intros [[Hs He]|(timeout & now & -> & Hx & Hr)]%apply_event_new.
    + destruct (IH Hs) as (pre & post & timeout & now & -> & Hx & Hr & Hp).
      exists pre, (post ++ [e]), timeout, now. rewrite <- app_assoc.
      repeat split; [done..|]. apply Forall_app. split; [done | by constructor].
    + by exists events, [], timeout, now.
  - intros (pre & post & timeout & now & -> & Hx & Hr & Hp).
    unfold after. rewrite foldl_app. simpl. fold (after pre).
    apply foldl_leaves; [|done]. rewrite reserve_table, Hr, lookup_insert_eq.
    destruct sel. simpl in *. by subst.
Qed.

(** ** The properties *)

(** An operate is let through exactly when the connection it comes from has
    selected the object before: in the history of the table there is a select of
    the object by that connection that succeeded, under the operate's control
    number or none, that has not run out, and after which there was no operate or
    cancel of the object, no new select of it, and no end of the connection;
    attempts of other clients to select it may lie in between. *)
Theorem operate_needs_select events r c n now :
  check_operate (after events) r c n now = AC.NONE ↔
  ∃ pre post num timeout t0,
    events = pre ++ EReserve r c num timeout t0 :: post ∧
    (reserve (after pre) r c num timeout t0).1 = true ∧
    now < t0 + timeout ∧ (num = None ∨ num = Some n) ∧
    Forall (leaves r c (t0 + timeout)) post.
Proof.
  rewrite check_operate_NONE. split.
  - intros (sel & (pre & post & timeout & t0 & -> & Hx & Hr & Hp)%after_lookup & <- & Ht & Hn).
    rewrite Hx in Ht, Hp. by exists pre, post, (sel_ctl_num sel), timeout, t0.
  - intros (pre & post & num & timeout & t0 & -> & Hr & Ht & Hn & Hp).
    exists (mkSelection c (t0 + timeout) num). split; [|done].
    apply after_lookup. by exists pre, post, timeout, t0.
Qed.

(** While one connection could operate an object, no other connection can
    do anything about it: its select fails and changes nothing, its operate and
    its cancel are refused as of an object not selected, whatever control number
    they carry, and when it closes the first connection's operate is still let
    through. *)
Theorem selection_excludes s r c n now c' :
  check_operate s r c n now = AC.NONE → c' ≠ c →
  (∀ num timeout, reserve s r c' num timeout now = (false, s)) ∧
  (∀ n', check_operate s r c' n' now = AC.OBJECT_NOT_SELECTED) ∧
  (∀ n', check_cancel s r c' n' now = AC.OBJECT_NOT_SELECTED) ∧
  check_operate (release_conn s c') r c n now = AC.NONE.
Proof.
  rewrite !check_operate_NONE. intros (sel & Hs & <- & Ht & Hn) Hc. split_and!.
  - intros num timeout. unfold reserve. rewrite Hs. by rewrite decide_True by auto.
  - intros n'. unfold check_operate. rewrite Hs. rewrite decide_True by auto. done.
  - intros n'. unfold check_cancel. rewrite Hs.
    rewrite (decide_False (P := sel_expiry sel ≤ now)) by lia.
    by rewrite decide_True by auto.
  - exists sel. rewrite release_conn_lookup. by split_and!.
Qed.

Lemma selection_excludes_witness :
  let s := after [EReserve [1] 7 (Some 3) SELECT_TIMEOUT 0] in
  check_operate s [1] 7 3 5 = AC.NONE ∧
  (∀ num timeout, reserve s [1] 8 num timeout 5 = (false, s)).
Proof.
  intros s. split; [by vm_compute|].
  apply (selection_excludes s [1] 7 3 5 8); [by vm_compute | done].
Defined.
