(* ===== verification/SettingGroup.v ===== *)
(** Setting groups (src/src/server/settinggroup.rs): the control block of a device,
    the stored values of every group, and what switching and editing groups does to the
    settings the device shows. The manager of a device refines a table of groups with
    one active and at most one edited. *)

From S2P Require Import Prelude BerPrim Text Errors MmsValue ObjRef BTree Nodes Blocks.
Local Open Scope Z_scope.

(** ** State *)

Definition SGCB_NAME : list Z := txt "SGCB".

(** A setting: its active view (FC SG), its edit view (FC SE) and its value in each
    group. *)
Record Setting := mkSetting {
  st_sg : ObjectReference;
  st_se : option ObjectReference;
  st_groups : list Value;
}.

Record SgState := mkSgState {
  sg_act : Z;
  sg_edit : Z;
  sg_settings : list Setting;
}.

Record SettingGroupManager := mkSgManager {
  mg_domain : list Z;
  mg_num_of_sg : Z;
  mg_resv_tms : Z;
  mg_state : SgState;
}.

Definition set_sg_state (mgr : SettingGroupManager) (st : SgState) : SettingGroupManager :=
  mkSgManager (mg_domain mgr) (mg_num_of_sg mgr) (mg_resv_tms mgr) st.

(** ** Materialisation *)

Definition declared_setting_groups (ld : LogicalDevice) : option SettingControl :=
  head (omap (λ ln, sc ← ln_setting_control ln; if decide (0 < sc_num_of_sgs sc) then Some sc else None) (ld_nodes ld)).

Definition lookup_value (ld : LogicalDevice) (reference : ObjectReference) (fc : Fc) : option Value :=
  match ref_path reference with
  | n :: d :: rest =>
      ln ← node ld n;
      o ← object ln d;
      let '(o, rest) := descend_objects o rest in
      da ← attribute_in (λ a, bool_decide (da_fc a = fc)) o rest;
      da_value da
  | _ => None
  end.

(** The SG and SE leaves found so far, by their reference. *)
Abbreviation Paths := (BTreeMap (list Z) ObjectReference * BTreeMap (list Z) ObjectReference)%type.

Fixpoint collect_setting_attr (path : ObjectReference) (a : DataAttribute) (acc : Paths) : Paths :=
  match da_children a with
  | [] =>
      match da_fc a with
      | Sg => (bt_insert path path acc.1, acc.2)
      | Se => (acc.1, bt_insert path path acc.2)
      | _ => acc
      end
  | cs => foldl (λ acc c, collect_setting_attr (ref_child path (da_name c)) c acc) acc cs
  end.

Fixpoint collect_setting_attrs (base : ObjectReference) (o : DataObject) (acc : Paths) : Paths :=
  let acc := foldl (λ acc a, collect_setting_attr (ref_child base (da_name a)) a acc) acc (do_attributes o) in
  foldl (λ acc sub, collect_setting_attrs (ref_child base (do_name sub)) sub acc) acc (do_objects o).

Definition setting_paths (ld : LogicalDevice) : Paths :=
  foldl (λ acc ln,
    foldl (λ acc o,
      collect_setting_attrs (ld_name ld ++ SLASH :: ln_name ln ++ DOT :: do_name o) o acc) acc (ln_objects ln))
    ([], []) (ld_nodes ld).

Definition sgcb_attr (name : string) (v : Value) : DataAttribute :=
  mkDA (txt name) Sp [] (Some (type_of v)) [] [] 0 [] (Some v) 0.

Definition build_sgcb (num_of_sg resv_tms : Z) (l_act_tm : Value) : DataObject :=
  mkDO SGCB_NAME [] []
    ([sgcb_attr "NumOfSG" (VUnsigned num_of_sg); sgcb_attr "ActSG" (VUnsigned 1);
      sgcb_attr "EditSG" (VUnsigned 0); sgcb_attr "CnfEdit" (VBoolean false); sgcb_attr "LActTm" l_act_tm] ++
     if decide (0 < resv_tms) then [sgcb_attr "ResvTms" (VUnsigned resv_tms)] else []).

Definition build_settings (ld : LogicalDevice) (num_of_sg : Z) (paths : Paths) : list Setting :=
  map (λ '(key, sg),
    mkSetting sg (bt_get paths.2 key)
      (replicate (Z.to_nat num_of_sg) (default VNone (lookup_value ld sg Sg)))) paths.1.

Definition build_manager (ld : LogicalDevice) (num_of_sg resv_tms : Z) (now : Value) (declared : bool)
    : option (SettingGroupManager * LogicalDevice) :=
  let paths := setting_paths ld in
  if decide (paths.1 = [] ∧ declared = false) then None
  else
    '(lln0, put) ← node_mut ld (txt "LLN0");
    Some (mkSgManager (ld_name ld) num_of_sg resv_tms (mkSgState 1 0 (build_settings ld num_of_sg paths)),
          put (set_ln_objects lln0 (ln_objects lln0 ++ [build_sgcb num_of_sg resv_tms now]))).

(** One group of the configuration: indices are checked before. *)
Definition seed_group (mgr : SettingGroupManager) (g : SettingGroup) : SettingGroupManager :=
  if decide (sg_ld g ≠ mg_domain mgr ∨ sg_number g = 0 ∨ mg_num_of_sg mgr < sg_number g) then mgr
  else
    let st := mg_state mgr in
    set_sg_state mgr
      (mkSgState (sg_act st) (sg_edit st)
        (map (λ s, match bt_get (sg_values g) (st_sg s) with
                   | Some v => mkSetting (st_sg s) (st_se s) (<[Z.to_nat (sg_number g - 1) := v]> (st_groups s))
                   | None => s
                   end) (sg_settings st))).

Definition seed_groups (mgr : SettingGroupManager) (groups : list SettingGroup) : SettingGroupManager :=
  foldl seed_group mgr groups.

(** A change of an attribute of the block; nothing when there is none. *)
Definition put_sgcb (ld : LogicalDevice) (attr : string) (v : Value) : LogicalDevice :=
  match ('(ln, put_ln) ← node_mut ld (txt "LLN0");
         '(o, put_o) ← object_mut ln SGCB_NAME;
         '(a, put_a) ← do_attribute_mut o (txt attr);
         Some (put_ln (put_o (put_a (set_value a (Some v)))))) with
  | Some ld => ld
  | None => ld
  end.

Definition materialise_sgcb (seeds : list SettingGroup) (num_of_sg : Z) (now : Value) (ld : LogicalDevice)
    : LogicalDevice * option SettingGroupManager :=
  let declared := declared_setting_groups ld in
  let n := match declared with Some d => if decide (0 < sc_num_of_sgs d) then sc_num_of_sgs d else num_of_sg | None => num_of_sg end in
  let resv_tms := match declared with Some d => sc_resv_tms d | None => 0 end in
  if decide (n = 0) then (ld, None)
  else
    match build_manager ld n resv_tms now (bool_decide (is_Some declared)) with
    | None => (ld, None)
    | Some (mgr, ld) =>
        let mgr := seed_groups mgr seeds in
        match declared with
        | Some d =>
            if decide (1 ≤ sc_act_sg d ≤ n) then
              let st := mg_state mgr in
              (put_sgcb ld "ActSG" (VUnsigned (sc_act_sg d)),
               Some (set_sg_state mgr (mkSgState (sc_act_sg d) (sg_edit st) (sg_settings st))))
            else (ld, Some mgr)
        | None => (ld, Some mgr)
        end
    end.

Definition materialise_sgcbs_with (m : Model) (num_of_sg : Z) (now : Value)
    : Model * BTreeMap (list Z) SettingGroupManager :=
  let built := map (materialise_sgcb (model_setting_groups m) num_of_sg now) (model_devices m) in
  (set_devices m (map fst built),
   foldl (λ out b, match b.2 with Some mgr => bt_insert (ld_name b.1) mgr out | None => out end) [] built).

(** ** Writes of the block *)

Definition is_sgcb_write (item : list Z) : option (list Z) :=
  match split DOLLAR item with
  | [p0; p1; p2; p3] => if decide (p0 = txt "LLN0" ∧ p1 = txt "SP" ∧ p2 = SGCB_NAME) then Some p3 else None
  | _ => None
  end.

(** [None] is the source's [Ok(())]. *)
Definition check_write (mgr : SettingGroupManager) (attr : list Z) (v : Value) : option DataAccessError :=
  let n := mg_num_of_sg mgr in
  if decide (attr = txt "ActSG" ∧ ¬ 1 ≤ as_i64 v ≤ n) then Some ObjectValueInvalid
  else if decide (attr = txt "EditSG" ∧ ¬ 0 ≤ as_i64 v ≤ n) then Some ObjectValueInvalid
  else if decide (attr = txt "CnfEdit" ∧ as_bool v = true ∧ ¬ 1 ≤ sg_edit (mg_state mgr) ≤ n) then
    Some TemporarilyUnavailable
  else if decide (attr ∈ [txt "ActSG"; txt "EditSG"; txt "CnfEdit"]) then None
  else Some ObjectAccessDenied.

Definition set_sgcb (domain : list Z) (m : Model) (attr : string) (v : Value) : Model :=
  block_put m domain (txt "LLN0") SGCB_NAME (by_name attr) v.

(** [groups[i]], which panics out of range. *)
Definition group_value {E} (s : Setting) (g : Z) : outcome E Value :=
  match st_groups s !! Z.to_nat (g - 1) with Some v => Ok v | None => Panic end.

Fixpoint each {E A B} (f : A → outcome E B) (l : list A) : outcome E (list B) :=
  match l with
  | [] => Ok []
  | x :: l => y ← f x; ys ← each f l; Ok (y :: ys)
  end.

(** The edited value of a setting goes into its group; a setting with no edit view,
    or none that can be read, is left. *)
Definition commit_setting {E} (m : Model) (edit act : Z) (s : Setting)
    : outcome E (Setting * list (ObjectReference * Value)) :=
  match (se ← st_se s; read_attr m se Se) with
  | None => Ok (s, [])
  | Some edited =>
      if decide (Z.to_nat (edit - 1) < length (st_groups s))%nat then
        Ok (mkSetting (st_sg s) (st_se s) (<[Z.to_nat (edit - 1) := edited]> (st_groups s)),
            if decide (edit = act) then [(st_sg s, edited)] else [])
      else Panic
  end.

(** The three writes; [now] is the reading of the server's clock. *)
Definition on_sgcb_write {E} (mgr : SettingGroupManager) (m : Model) (attr : list Z) (v : Value) (now : Value)
    : outcome E (SettingGroupManager * Model) :=
  let st := mg_state mgr in
  let n := mg_num_of_sg mgr in
  let set := set_sgcb (mg_domain mgr) in
  if decide (attr = txt "ActSG") then
    let g := u8 (as_i64 v) in
    if decide (g < 1 ∨ n < g) then Ok (mgr, m)
    else
      updates ← each (λ s, v ← group_value s g; Ok (st_sg s, v)) (sg_settings st);
      Ok (set_sg_state mgr (mkSgState g (sg_edit st) (sg_settings st)),
          write_attrs (set (set m "ActSG" (VUnsigned g)) "LActTm" now) Sg updates)
  else if decide (attr = txt "EditSG") then
    let g := u8 (as_i64 v) in
    let mgr := set_sg_state mgr (mkSgState (sg_act st) g (sg_settings st)) in
    let m := set m "EditSG" (VUnsigned g) in
    if decide (1 ≤ g ≤ n) then
      updates ← each (λ s, match st_se s with
                           | Some se => v ← group_value s g; Ok [(se, v)]
                           | None => Ok []
                           end) (sg_settings st);
      Ok (mgr, write_attrs m Se (concat updates))
    else Ok (mgr, m)
  else if decide (attr = txt "CnfEdit") then
    let edit := sg_edit st in
    if decide (as_bool v = false ∨ edit < 1 ∨ n < edit) then Ok (mgr, m)
    else
      committed ← each (commit_setting m edit (sg_act st)) (sg_settings st);
      let m := write_attrs m Sg (concat (map snd committed)) in
      Ok (set_sg_state mgr (mkSgState (sg_act st) 0 (map fst committed)),
          set (set m "EditSG" (VUnsigned 0)) "CnfEdit" (VBoolean false))
  else Ok (mgr, m).

(** ** What setting groups are

    A table of the value of each setting in each group; which group is in effect and
    which is edited, none when zero; and the draft of the edited group, setting by
    setting, where the setting has an edit view. *)
Record Groups := mkGroups {
  gr_active : Z;
  gr_editing : Z;
  gr_table : list (list Value);
  gr_draft : list (option Value);
}.

Definition in_effect (gr : Groups) : list (option Value) := map (λ vs, vs !! Z.to_nat (gr_active gr - 1)) (gr_table gr).

Definition activate (g : Z) (gr : Groups) : Groups := mkGroups g (gr_editing gr) (gr_table gr) (gr_draft gr).

(** [editable] tells which settings have an edit view; editing group 0 ends it. *)
Definition edit (editable : list bool) (g : Z) (gr : Groups) : Groups :=
  mkGroups (gr_active gr) g (gr_table gr)
    (if decide (g = 0) then gr_draft gr
     else zip_with (λ (e : bool) vs, if e then vs !! Z.to_nat (g - 1) else None) editable (gr_table gr)).

Definition confirm (gr : Groups) : Groups :=
  mkGroups (gr_active gr) 0
    (zip_with (λ vs d, match d with Some v => <[Z.to_nat (gr_editing gr - 1) := v]> vs | None => vs end)
       (gr_table gr) (gr_draft gr))
    (gr_draft gr).

Definition write_draft (i : nat) (v : Value) (gr : Groups) : Groups :=
  mkGroups (gr_active gr) (gr_editing gr) (gr_table gr) (<[i := Some v]> (gr_draft gr)).

(** A write of the block that was admitted. *)
Definition group_service (editable : list bool) (attr : list Z) (v : Value) (gr : Groups) : Groups :=
  if decide (attr = txt "ActSG") then activate (as_i64 v) gr
  else if decide (attr = txt "EditSG") then edit editable (as_i64 v) gr
  else if as_bool v then confirm gr else gr.

(** ** The manager of a device keeps to it *)

Definition editable_of (mgr : SettingGroupManager) : list bool :=
  map (λ s, bool_decide (is_Some (st_se s))) (sg_settings (mg_state mgr)).

(** The draft of a setting is what its edit view shows. *)
Definition draft_of (m : Model) (s : Setting) : option Value := se ← st_se s; read_attr m se Se.

(** The groups a manager and the model stand for. *)
Definition groups_of (mgr : SettingGroupManager) (m : Model) : Groups :=
  let st := mg_state mgr in
  mkGroups (sg_act st) (sg_edit st) (map st_groups (sg_settings st)) (map (draft_of m) (sg_settings st)).

(** The views of a setting are leaves of the model, and the active one has the value
    of the active group. *)
Definition setting_ok (n act : Z) (m : Model) (s : Setting) : Prop :=
  zlen (st_groups s) = n ∧
  (∃ v, st_groups s !! Z.to_nat (act - 1) = Some v ∧ shows m (st_sg s) Sg (Some v)) ∧
  match st_se s with Some se => ∃ v, shows m se Se v | None => True end.

(** An attribute of the block, with its value. *)
Definition sgcb_shows (m : Model) (domain : list Z) (attr : string) (P : option Value → Prop) : Prop :=
  ∃ a, block_attr m domain (txt "LLN0") SGCB_NAME (by_name attr) = Some a ∧ da_fc a = Sp ∧ P (da_value a).

Record sg_inv (mgr : SettingGroupManager) (m : Model) : Prop := {
  si_number : mg_num_of_sg mgr ≤ 255;
  si_active : 1 ≤ sg_act (mg_state mgr) ≤ mg_num_of_sg mgr;
  si_editing : 0 ≤ sg_edit (mg_state mgr) ≤ mg_num_of_sg mgr;
  si_settings : Forall (setting_ok (mg_num_of_sg mgr) (sg_act (mg_state mgr)) m) (sg_settings (mg_state mgr));
  si_distinct : NoDup (map st_sg (sg_settings (mg_state mgr))) ∧ NoDup (omap st_se (sg_settings (mg_state mgr)));
  si_act_attr : sgcb_shows m (mg_domain mgr) "ActSG" (λ v, v = Some (VUnsigned (sg_act (mg_state mgr))));
  si_edit_attr : sgcb_shows m (mg_domain mgr) "EditSG" (λ v, v = Some (VUnsigned (sg_edit (mg_state mgr))));
  si_cnf_attr : sgcb_shows m (mg_domain mgr) "CnfEdit" (λ _, True);
  si_time_attr : sgcb_shows m (mg_domain mgr) "LActTm" (λ _, True);
}.

(** ** Frames *)

Lemma sg_se_distinct : fc_distinct Sg Se.
Proof. split_and!; [done|set_solver..]. Qed.
Lemma se_sg_distinct : fc_distinct Se Sg.
Proof. split_and!; [done|set_solver..]. Qed.

Lemma by_fc_sp fc a : fc ∈ [Sg; Se] → da_fc a = Sp → by_fc fc a = false.
Proof. unfold by_fc, Fc_matches. intros Hfc ->. apply bool_decide_eq_false. set_solver. Qed.

Lemma by_name_other (x y : string) a : txt x ≠ txt y → by_name x a = true → by_name y a = false.
Proof. unfold by_name, named. rewrite bool_decide_eq_true, bool_decide_eq_false. by intros ? ->. Qed.

Lemma block_attr_by_name m dom n d x a : block_attr m dom n d (by_name x) = Some a → by_name x a = true.
Proof.
  unfold block_attr. intros (? & _ & (? & _ & (? & _ & H)%bind_Some)%bind_Some)%bind_Some.
  by apply find_find_mut in H as [? [_ H]%find_mut_find].
Qed.

Section block.
Context (domain : list Z).

Lemma set_sgcb_shows m attr v r fc v' P :
  fc ∈ [Sg; Se] → sgcb_shows m domain attr P → shows m r fc v' → shows (set_sgcb domain m attr v) r fc v'.
Proof.
  intros Hfc (a & Ha & Hsp & _) Hs. apply block_put_shows; [done|]. intros a'. rewrite Ha. intros [= <-]. by apply by_fc_sp.
Qed.

Lemma set_sgcb_same m attr v P Q : sgcb_shows m domain attr P → Q (Some v) → sgcb_shows (set_sgcb domain m attr v) domain attr Q.
Proof.
  intros (a & Ha & Hsp & _) HQ. exists (set_value a (Some v)). split; [|by split].
  apply block_put_get; [apply by_name_only|done].
Qed.

Lemma set_sgcb_other m attr attr' v P :
  txt attr' ≠ txt attr → sgcb_shows m domain attr' P → sgcb_shows (set_sgcb domain m attr v) domain attr' P.
Proof.
  intros Hne (a & Ha & Hsp & HP). exists a. split; [|done]. apply block_put_frame; [apply by_name_only|done|].
  right. eapply by_name_other; [exact Hne|]. by eapply block_attr_by_name.
Qed.

Lemma write_attrs_sgcb m fc l attr P :
  fc ∈ [Sg; Se] → Forall (λ p, ∃ v0, shows m p.1 fc v0) l → sgcb_shows m domain attr P →
  sgcb_shows (write_attrs m fc l) domain attr P.
Proof.
  intros Hfc Hl (a & Ha & Hsp & HP). exists a. split; [|done].
  apply write_attrs_block; [done|apply by_name_only|done|by apply by_fc_sp].
Qed.
End block.

Lemma each_Ok {E A B} (f : A → outcome E B) (g : A → B) l : Forall (λ x, f x = Ok (g x)) l → each f l = Ok (map g l).
Proof. induction 1 as [|x l Hx _ IH]; [done|]. cbn [each]. rewrite Hx, bind_Ok. by rewrite IH, bind_Ok. Qed.

(** ** Views that are written *)

(** The writes of a view of the settings, of those that have it and get a value. *)
Definition view_writes (view : Setting → option ObjectReference) (f : Setting → option Value) (ss : list Setting)
    : list (ObjectReference * Value) :=
  omap (λ s, r ← view s; v ← f s; Some (r, v)) ss.

Lemma view_writes_elem view f ss r v :
  (r, v) ∈ view_writes view f ss ↔ ∃ s, s ∈ ss ∧ view s = Some r ∧ f s = Some v.
Proof.
  unfold view_writes. rewrite list_elem_of_omap. split.
  - intros (s & Hs & (r' & Hr & (v' & Hv & [= -> ->])%bind_Some)%bind_Some). by exists s.
  - intros (s & Hs & Hr & Hv). exists s. split; [done|]. by rewrite Hr; simpl; rewrite Hv.
Qed.

Lemma view_writes_refs view f ss r : r ∈ map fst (view_writes view f ss) → r ∈ omap view ss.
Proof.
  intros ([r' v] & -> & (s & Hs & Hr & _)%view_writes_elem)%list_elem_of_fmap. apply list_elem_of_omap. by exists s.
Qed.

Lemma view_writes_NoDup view f ss : NoDup (omap view ss) → NoDup (map fst (view_writes view f ss)).
Proof.
  induction ss as [|s ss IH]; [done|]. unfold view_writes. simpl.
  destruct (view s) as [r|] eqn:Er; simpl; [|apply IH]. intros [Hr Hd]%NoDup_cons.
  destruct (f s) as [v|]; simpl; [|by apply IH]. apply NoDup_cons. split; [|by apply IH].
  intros Hin. by apply view_writes_refs in Hin.
Qed.

Section views.
Context (fc : Fc) (view : Setting → option ObjectReference) (f : Setting → option Value) (ss : list Setting) (m : Model).
Context (Hdistinct : NoDup (omap view ss)).
Context (Hleaves : Forall (λ s, ∀ r, view s = Some r → ∃ v, shows m r fc v) ss).

Lemma view_writes_leaves : Forall (λ p, ∃ v0, shows m p.1 fc v0) (view_writes view f ss).
Proof using Hleaves.
  apply Forall_forall. intros [r v] (s & Hs & Hr & _)%view_writes_elem. rewrite Forall_forall in Hleaves.
  by apply (Hleaves s).
Qed.

(** The view of a setting that gets a value shows it, and that of another shows
    what it did. *)
Lemma view_written s r v0 :
  s ∈ ss → view s = Some r → shows m r fc v0 →
  shows (write_attrs m fc (view_writes view f ss)) r fc (match f s with Some v => Some v | None => v0 end).
Proof using Hdistinct Hleaves.
  intros Hs Hr Hv0. destruct (f s) as [v|] eqn:Ef.
  - pose proof (write_attrs_shows fc (view_writes view f ss) m (view_writes_NoDup _ _ _ Hdistinct) view_writes_leaves) as Hw.
    rewrite Forall_forall in Hw. apply (Hw (r, v)). apply view_writes_elem. by exists s.
  - apply write_attrs_frame; [apply view_writes_leaves|done|]. left.
    intros ([r' v] & Heq & (s' & Hs' & Hr' & Hf')%view_writes_elem)%list_elem_of_fmap. simpl in Heq. subst r'.
    assert (s' = s) as ->; [|congruence]. clear -Hdistinct Hs Hs' Hr Hr'. revert Hdistinct.
    induction ss as [|x l IH]; [set_solver|]. simpl.
    apply elem_of_cons in Hs as [->|Hs], Hs' as [->|Hs']; [done|..].
    + rewrite Hr. intros [Hx _]%NoDup_cons. destruct Hx. apply list_elem_of_omap. by exists s'.
    + rewrite Hr'. intros [Hx _]%NoDup_cons. destruct Hx. apply list_elem_of_omap. by exists s.
    + destruct (view x); [intros [_ ?]%NoDup_cons; by apply IH|by apply IH].
Qed.

(** Views under another constraint are left alone. *)
Lemma view_writes_frame r fc' v :
  fc_distinct fc fc' → shows m r fc' v → shows (write_attrs m fc (view_writes view f ss)) r fc' v.
Proof using Hleaves. intros Hfc Hv. apply write_attrs_frame; [apply view_writes_leaves|done|by right]. Qed.
End views.

(** ** The three services *)

Definition value_in (g : Z) (s : Setting) : Value := default VNone (st_groups s !! Z.to_nat (g - 1)).

Lemma value_in_lookup n g s : zlen (st_groups s) = n → 1 ≤ g ≤ n → st_groups s !! Z.to_nat (g - 1) = Some (value_in g s).
Proof.
  intros Hl Hg. unfold value_in, zlen in *. destruct (lookup_lt_is_Some_2 (st_groups s) (Z.to_nat (g - 1))) as [v ->]; [lia|done].
Qed.

Lemma group_value_Ok {E} n g s : zlen (st_groups s) = n → 1 ≤ g ≤ n → group_value (E:=E) s g = Ok (value_in g s).
Proof. intros Hl Hg. unfold group_value. by rewrite (value_in_lookup n). Qed.

Lemma omap_sg ss : omap (λ s, Some (st_sg s)) ss = map st_sg ss.
Proof. induction ss as [|s ss IH]; [done|]. simpl. by f_equal. Qed.

(** The settings of a device have their views in the model, each its own. *)
Record views_ok (m : Model) (ss : list Setting) : Prop := {
  vo_sg : Forall (λ s, ∀ r, Some (st_sg s) = Some r → ∃ v, shows m r Sg v) ss;
  vo_se : Forall (λ s, ∀ r, st_se s = Some r → ∃ v, shows m r Se v) ss;
  vo_sg_distinct : NoDup (omap (λ s, Some (st_sg s)) ss);
  vo_se_distinct : NoDup (omap st_se ss);
}.

Lemma sg_inv_views mgr m : sg_inv mgr m → views_ok m (sg_settings (mg_state mgr)).
Proof.
  intros Hinv. split.
  - eapply Forall_impl; [apply (si_settings _ _ Hinv)|]. intros s (_ & (v & _ & Hv) & _) r [= <-]. by exists (Some v).
  - eapply Forall_impl; [apply (si_settings _ _ Hinv)|]. intros s (_ & _ & Hse) r Hr. by rewrite Hr in Hse.
  - rewrite omap_sg. apply (si_distinct _ _ Hinv).
  - apply (si_distinct _ _ Hinv).
Qed.

(** A model in which the views show what they did. *)
Definition same_views (m m' : Model) (ss : list Setting) : Prop :=
  Forall (λ s, (∀ v, shows m (st_sg s) Sg v → shows m' (st_sg s) Sg v) ∧
               ∀ r v, st_se s = Some r → shows m r Se v → shows m' r Se v) ss.

Lemma same_views_trans m1 m2 m3 ss : same_views m1 m2 ss → same_views m2 m3 ss → same_views m1 m3 ss.
Proof.
  intros H1 H2. apply Forall_forall. intros s Hs. unfold same_views in H1, H2. rewrite Forall_forall in H1, H2.
  destruct (H1 s Hs), (H2 s Hs). split; eauto.
Qed.

Lemma set_sgcb_same_views domain m attr v ss P : sgcb_shows m domain attr P → same_views m (set_sgcb domain m attr v) ss.
Proof.
  intros Ha. apply Forall_forall. intros s _. split; intros; eapply set_sgcb_shows; try done; set_solver.
Qed.

Lemma same_views_ok m m' ss : same_views m m' ss → views_ok m ss → views_ok m' ss.
Proof.
  intros Hs [H1 H2 H3 H4]. unfold same_views in Hs. rewrite Forall_forall in Hs, H1, H2.
  split; [..|done|done]; apply Forall_forall; intros s Hin r Hr; destruct (Hs s Hin) as [Ha Hb].
  - injection Hr as <-. destruct (H1 s Hin _ eq_refl) as [v Hv]. exists v. by apply Ha.
  - destruct (H2 s Hin r Hr) as [v Hv]. exists v. by eapply Hb.
Qed.

Lemma draft_shows m s : ∀ r v, st_se s = Some r → shows m r Se v → draft_of m s = v.
Proof. intros r v Hr Hv. unfold draft_of. rewrite Hr. simpl. by apply shows_read. Qed.

Lemma drafts_kept m m' ss :
  views_ok m ss → (∀ s r v, s ∈ ss → st_se s = Some r → shows m r Se v → shows m' r Se v) →
  map (draft_of m') ss = map (draft_of m) ss.
Proof.
  intros [_ H2 _ _] Hk. apply map_ext_in. intros s Hin%list_elem_of_In. rewrite Forall_forall in H2.
  destruct (st_se s) as [r|] eqn:Er; [|unfold draft_of; by rewrite Er].
  destruct (H2 s Hin r Er) as [v Hv]. rewrite (draft_shows m s r v), (draft_shows m' s r v); eauto.
Qed.

Lemma same_views_draft m m' ss : same_views m m' ss → views_ok m ss → map (draft_of m') ss = map (draft_of m) ss.
Proof.
  intros Hs Hv. apply drafts_kept; [done|]. intros s r v Hin Hr. unfold same_views in Hs.
  rewrite Forall_forall in Hs. by eapply Hs.
Qed.

(** *** Writes of the views *)

Section written.
Context (m : Model) (ss : list Setting) (Hv : views_ok m ss) (f : Setting → option Value).

Lemma sg_written s v0 :
  s ∈ ss → shows m (st_sg s) Sg v0 →
  shows (write_attrs m Sg (view_writes (λ s, Some (st_sg s)) f ss)) (st_sg s) Sg (match f s with Some v => Some v | None => v0 end).
Proof using Hv. intros Hs. destruct Hv. by apply view_written. Qed.

Lemma se_after_sg s r v0 :
  s ∈ ss → st_se s = Some r → shows m r Se v0 →
  shows (write_attrs m Sg (view_writes (λ s, Some (st_sg s)) f ss)) r Se v0.
Proof using Hv. intros Hs Hr. destruct Hv. apply view_writes_frame; [done|apply sg_se_distinct]. Qed.

Lemma se_written s r v0 :
  s ∈ ss → st_se s = Some r → shows m r Se v0 →
  shows (write_attrs m Se (view_writes st_se f ss)) r Se (match f s with Some v => Some v | None => v0 end).
Proof using Hv. intros Hs. destruct Hv. by apply view_written. Qed.

Lemma sg_after_se s v0 :
  shows m (st_sg s) Sg v0 → shows (write_attrs m Se (view_writes st_se f ss)) (st_sg s) Sg v0.
Proof using Hv. destruct Hv. apply view_writes_frame; [done|apply se_sg_distinct]. Qed.

Lemma sg_writes_sgcb domain attr P :
  sgcb_shows m domain attr P → sgcb_shows (write_attrs m Sg (view_writes (λ s, Some (st_sg s)) f ss)) domain attr P.
Proof using Hv. destruct Hv. apply write_attrs_sgcb; [set_solver|by apply view_writes_leaves]. Qed.

Lemma se_writes_sgcb domain attr P :
  sgcb_shows m domain attr P → sgcb_shows (write_attrs m Se (view_writes st_se f ss)) domain attr P.
Proof using Hv. destruct Hv. apply write_attrs_sgcb; [set_solver|by apply view_writes_leaves]. Qed.
End written.

Ltac sgcb_attr_kept :=
  match goal with
  | |- sgcb_shows (set_sgcb _ _ _ _) _ _ _ =>
      first [eapply set_sgcb_same; [|done]; sgcb_attr_kept | apply set_sgcb_other; [done|]; sgcb_attr_kept]
  | |- sgcb_shows (write_attrs _ Sg _) _ _ _ => apply sg_writes_sgcb; [|sgcb_attr_kept]
  | |- sgcb_shows (write_attrs _ Se _) _ _ _ => apply se_writes_sgcb; [|sgcb_attr_kept]
  | H : sg_inv _ _ |- sgcb_shows _ _ _ _ => solve [eapply H]
  end.

(** *** SelectActiveSG *)

Lemma activate_refines {E} mgr m v now :
  sg_inv mgr m → 1 ≤ as_i64 v ≤ mg_num_of_sg mgr →
  ∃ mgr' m', on_sgcb_write (E:=E) mgr m (txt "ActSG") v now = Ok (mgr', m') ∧ sg_inv mgr' m' ∧
    groups_of mgr' m' = activate (as_i64 v) (groups_of mgr m).
Proof.
  intros Hinv Hg. set (g := as_i64 v) in *. pose proof (si_number _ _ Hinv). set (ss := sg_settings (mg_state mgr)).
  assert (u8 g = g) as Hu by (unfold u8, wrap; apply Z.mod_small; lia).
  unfold on_sgcb_write. rewrite decide_True by done. fold g. rewrite Hu. rewrite decide_False by lia.
  assert (Forall (λ s, zlen (st_groups s) = mg_num_of_sg mgr) ss) as Hlen.
  { eapply Forall_impl; [apply (si_settings _ _ Hinv)|]. by intros s [? _]. }
  rewrite (each_Ok _ (λ s, (st_sg s, value_in g s))).
  2:{ eapply Forall_impl; [exact Hlen|]. intros s Hs. rewrite (group_value_Ok (mg_num_of_sg mgr)) by done. done. }
  rewrite bind_Ok. fold ss.
  replace (map (λ s, (st_sg s, value_in g s)) ss) with (view_writes (λ s, Some (st_sg s)) (λ s, Some (value_in g s)) ss).
  2:{ clear. induction ss as [|s l IH]; [done|]. unfold view_writes in *. simpl. by f_equal. }
  set (m1 := set_sgcb _ (set_sgcb _ m _ _) _ now).
  assert (same_views m m1 ss) as Hsv.
  { unfold m1. eapply same_views_trans; eapply set_sgcb_same_views; sgcb_attr_kept. }
  pose proof (sg_inv_views _ _ Hinv) as Hvm. pose proof (same_views_ok _ _ _ Hsv Hvm) as Hv1.
  eexists _, _. split; [done|]. split.
  - split; simpl; [done|lia|apply (si_editing _ _ Hinv)| |apply (si_distinct _ _ Hinv)|..].
    + apply Forall_forall. intros s Hs. rewrite Forall_forall in Hlen. split; [by apply Hlen|]. split.
      * exists (value_in g s). split; [by eapply value_in_lookup; [apply Hlen|]|].
        destruct Hv1 as [Hsg _ _ _]. rewrite Forall_forall in Hsg. destruct (Hsg s Hs _ eq_refl) as [v0 Hv0].
        pose proof (sg_written m1 ss (same_views_ok _ _ _ Hsv Hvm) (λ s, Some (value_in g s)) s v0 Hs Hv0). done.
      * destruct (st_se s) as [r|] eqn:Er; [|done]. destruct Hv1 as [_ Hse _ _]. rewrite Forall_forall in Hse.
        destruct (Hse s Hs r Er) as [v0 Hv0]. exists v0. by eapply se_after_sg; [by eapply same_views_ok|..].
    + unfold m1. sgcb_attr_kept; by eapply same_views_ok.
    + unfold m1. sgcb_attr_kept; by eapply same_views_ok.
    + unfold m1. sgcb_attr_kept; by eapply same_views_ok.
    + unfold m1. sgcb_attr_kept; by eapply same_views_ok.
  - unfold groups_of, activate. simpl. f_equal. fold ss. rewrite <-(same_views_draft m m1) by done.
    apply drafts_kept; [done|]. intros s r v0 Hs Hr. by eapply se_after_sg.
Qed.

(** *** SelectEditSG *)

Lemma zip_with_maps {A B C D} (h : B → C → D) (f : A → B) (k : A → C) l :
  zip_with h (map f l) (map k l) = map (λ x, h (f x) (k x)) l.
Proof. induction l as [|x l IH]; [done|]. simpl. by f_equal. Qed.

Lemma edit_refines {E} mgr m v now :
  sg_inv mgr m → 0 ≤ as_i64 v ≤ mg_num_of_sg mgr →
  ∃ mgr' m', on_sgcb_write (E:=E) mgr m (txt "EditSG") v now = Ok (mgr', m') ∧ sg_inv mgr' m' ∧
    groups_of mgr' m' = edit (editable_of mgr) (as_i64 v) (groups_of mgr m).
Proof.
  intros Hinv Hg. set (g := as_i64 v) in *. pose proof (si_number _ _ Hinv). set (ss := sg_settings (mg_state mgr)).
  assert (u8 g = g) as Hu by (unfold u8, wrap; apply Z.mod_small; lia).
  unfold on_sgcb_write. rewrite decide_False by done. rewrite decide_True by done. fold g. rewrite Hu.
  set (m1 := set_sgcb _ m _ _).
  assert (same_views m m1 ss) as Hsv by (eapply set_sgcb_same_views; sgcb_attr_kept).
  pose proof (sg_inv_views _ _ Hinv) as Hvm. fold ss in Hvm. pose proof (same_views_ok _ _ _ Hsv Hvm) as Hv1.
  assert (Forall (setting_ok (mg_num_of_sg mgr) (sg_act (mg_state mgr)) m1) ss) as Hok1.
  { pose proof (si_settings _ _ Hinv) as Hs. fold ss in Hs. unfold same_views in Hsv. rewrite Forall_forall in *.
    intros s Hin. destruct (Hs s Hin) as (Hl & (w & Hw & Hsh) & Hse), (Hsv s Hin) as [Ha Hb].
    split; [done|]. split; [exists w; split; [done|by apply Ha]|].
    destruct (st_se s) as [r|]; [|done]. destruct Hse as [w' Hw']. exists w'. by apply Hb. }
  case_decide as Hr.
  - rewrite (each_Ok _ (λ s, match st_se s with Some se => [(se, value_in g s)] | None => [] end)).
    2:{ eapply Forall_impl; [exact Hok1|]. intros s (Hl & _). destruct (st_se s); [|done].
        by rewrite (group_value_Ok (mg_num_of_sg mgr)) by done. }
    rewrite bind_Ok. fold ss.
    replace (concat (map (λ s, match st_se s with Some se => [(se, value_in g s)] | None => [] end) ss))
      with (view_writes st_se (λ s, Some (value_in g s)) ss).
    2:{ clear. induction ss as [|s l IH]; [done|]. unfold view_writes in *. simpl. destruct (st_se s); simpl; by f_equal. }
    eexists _, _. split; [done|]. split.
    + split; simpl; [done|apply (si_active _ _ Hinv)|lia| |apply (si_distinct _ _ Hinv)|..].
      * rewrite Forall_forall in *. intros s Hs. destruct (Hok1 s Hs) as (Hl & (w & Hw & Hsh) & Hse).
        split; [done|]. split; [exists w; split; [done|by apply sg_after_se]|].
        destruct (st_se s) as [r|] eqn:Er; [|done]. destruct Hse as [w' Hw'].
        eexists. by eapply se_written.
      * unfold m1. sgcb_attr_kept; done.
      * unfold m1. sgcb_attr_kept; done.
      * unfold m1. sgcb_attr_kept; done.
      * unfold m1. sgcb_attr_kept; done.
    + unfold groups_of, edit, editable_of. simpl. f_equal. fold ss. rewrite decide_False by lia.
      rewrite zip_with_maps. apply map_ext_in. intros s Hs%list_elem_of_In. rewrite Forall_forall in Hok1.
      destruct (Hok1 s Hs) as (Hl & _ & Hse). destruct (st_se s) as [r|] eqn:Er.
      * destruct Hse as [w' Hw']. rewrite bool_decide_eq_true_2 by done. rewrite (value_in_lookup (mg_num_of_sg mgr)) by done.
        eapply draft_shows; [done|]. by pose proof (se_written m1 ss Hv1 (λ s, Some (value_in g s)) s r w' Hs Er Hw').
      * rewrite bool_decide_eq_false_2 by (by intros [? ?]). unfold draft_of. by rewrite Er.
  - eexists _, _. split; [done|]. split.
    + split; simpl; [done|apply (si_active _ _ Hinv)|lia|done|apply (si_distinct _ _ Hinv)|..]; unfold m1; sgcb_attr_kept.
    + unfold groups_of, edit. simpl. f_equal. rewrite decide_True by lia. by apply same_views_draft.
Qed.

(** *** ConfirmEditSGValues *)

Definition committed (m : Model) (edit : Z) (s : Setting) : Setting :=
  match draft_of m s with
  | Some v => mkSetting (st_sg s) (st_se s) (<[Z.to_nat (edit - 1) := v]> (st_groups s))
  | None => s
  end.

Lemma committed_views m edit s : st_sg (committed m edit s) = st_sg s ∧ st_se (committed m edit s) = st_se s.
Proof. unfold committed. by destruct (draft_of m s). Qed.

Definition live_value (m : Model) (edit act : Z) (s : Setting) : option Value :=
  if decide (edit = act) then draft_of m s else None.

Lemma commit_setting_Ok {E} n m edit act s :
  zlen (st_groups s) = n → 1 ≤ edit ≤ n →
  commit_setting (E:=E) m edit act s =
    Ok (committed m edit s, match live_value m edit act s with Some v => [(st_sg s, v)] | None => [] end).
Proof.
  intros Hl He. unfold commit_setting, committed, live_value. fold (draft_of m s).
  destruct (draft_of m s) as [v|]; [|by case_decide].
  rewrite decide_True by (unfold zlen in Hl; lia). by case_decide.
Qed.

Lemma confirm_refines {E} mgr m v now :
  sg_inv mgr m → as_bool v = true → 1 ≤ sg_edit (mg_state mgr) ≤ mg_num_of_sg mgr →
  ∃ mgr' m', on_sgcb_write (E:=E) mgr m (txt "CnfEdit") v now = Ok (mgr', m') ∧ sg_inv mgr' m' ∧
    groups_of mgr' m' = confirm (groups_of mgr m).
Proof.
  intros Hinv Hv He. set (ss := sg_settings (mg_state mgr)). set (ed := sg_edit (mg_state mgr)) in *.
  set (act := sg_act (mg_state mgr)). pose proof (si_settings _ _ Hinv) as Hok. fold ss act in Hok.
  pose proof (sg_inv_views _ _ Hinv) as Hvm. fold ss in Hvm.
  unfold on_sgcb_write. rewrite decide_False, decide_False by done. rewrite decide_True by done.
  fold ed ss act. rewrite decide_False by (rewrite Hv; lia || naive_solver lia).
  rewrite (each_Ok _ (λ s, (committed m ed s, match live_value m ed act s with Some v => [(st_sg s, v)] | None => [] end))).
  2:{ eapply Forall_impl; [exact Hok|]. intros s (Hl & _). by eapply commit_setting_Ok. }
  rewrite bind_Ok, !map_map. cbn [fst snd].
  replace (concat (map (λ s, match live_value m ed act s with Some v => [(st_sg s, v)] | None => [] end) ss))
    with (view_writes (λ s, Some (st_sg s)) (live_value m ed act) ss).
  2:{ clear. induction ss as [|s l IH]; [done|]. unfold view_writes in *. simpl.
      destruct (live_value m ed act s); simpl; by f_equal. }
  set (m1 := write_attrs m Sg _).
  set (m2 := set_sgcb _ (set_sgcb _ m1 _ _) _ _).
  assert (same_views m1 m2 ss) as Hsv.
  { unfold m2. eapply same_views_trans; eapply set_sgcb_same_views; unfold m1; sgcb_attr_kept; done. }
  unfold same_views in Hsv. rewrite Forall_forall in Hsv, Hok.
  assert (map st_sg (map (committed m ed) ss) = map st_sg ss ∧ omap st_se (map (committed m ed) ss) = omap st_se ss) as [Hsg Hse].
  { clear. split; (induction ss as [|s l IH]; [done|]); simpl; destruct (committed_views m ed s) as [H1 H2].
    - by rewrite H1, IH.
    - rewrite H2. destruct (st_se s); [by f_equal|exact IH]. }
  pose proof (si_distinct _ _ Hinv) as Hdist. fold ss in Hdist. rewrite <-Hsg, <-Hse in Hdist.
  eexists _, _. split; [done|]. split.
  - split; simpl; [apply (si_number _ _ Hinv)|apply (si_active _ _ Hinv)|lia| |exact Hdist|..].
    + apply Forall_fmap. apply Forall_forall. intros s Hs. destruct (Hok s Hs) as (Hl & (w & Hw & Hsh) & Hser).
      destruct (Hsv s Hs) as [Hs1 Hs2]. unfold compose, setting_ok. destruct (committed_views m ed s) as [-> ->].
      pose proof (sg_written m ss Hvm (live_value m ed act) s (Some w) Hs Hsh) as Hnew. fold m1 in Hnew. apply Hs1 in Hnew.
      fold act. split_and!.
      * unfold committed, zlen. destruct (draft_of m s); [simpl; by rewrite length_insert|done].
      * unfold committed, live_value in *. destruct (draft_of m s) as [d|]; simpl.
        -- destruct (decide (ed = act)) as [->|Hne].
           ++ exists d. split; [|done]. apply list_lookup_insert_eq. by eapply lookup_lt_Some.
           ++ exists w. split; [|done]. rewrite list_lookup_insert_ne; [done|].
              pose proof (si_active _ _ Hinv). fold act in H. lia.
        -- exists w. split; [done|]. by case_decide.
      * destruct (st_se s) as [r|] eqn:Er; [|done]. destruct Hser as [w' Hw']. exists w'.
        apply (Hs2 r); [done|]. by eapply se_after_sg.
    + unfold m2, m1. sgcb_attr_kept; done.
    + unfold m2, m1. sgcb_attr_kept; done.
    + unfold m2, m1. sgcb_attr_kept; done.
    + unfold m2, m1. sgcb_attr_kept; done.
  - unfold groups_of, confirm. simpl. fold ss. f_equal.
    + rewrite zip_with_maps, map_map. apply map_ext. intros s. unfold committed. by destruct (draft_of m s).
    + rewrite map_map. transitivity (map (draft_of m2) ss).
      * apply map_ext. intros s. unfold draft_of. by destruct (committed_views m ed s) as [_ ->].
      * apply drafts_kept; [done|]. intros s r w Hs Hr Hw. apply (Hsv s Hs); [done|]. by eapply se_after_sg.
Qed.

(** ** The manager refines the table of groups *)

(** A write of the edit view of a setting, as a client makes while it edits. *)
Lemma draft_refines mgr m i s r v :
  sg_inv mgr m → sg_settings (mg_state mgr) !! i = Some s → st_se s = Some r →
  sg_inv mgr (write_attr m r Se v) ∧ groups_of mgr (write_attr m r Se v) = write_draft i v (groups_of mgr m).
Proof.
  intros Hinv Hi Hr. pose proof (si_settings _ _ Hinv) as Hok. pose proof (si_distinct _ _ Hinv) as [_ Hd].
  pose proof Hok as Hok'. rewrite Forall_lookup in Hok.
  destruct (Hok i s Hi) as (_ & _ & Hs). rewrite Hr in Hs. destruct Hs as [v0 Hv0].
  destruct (write_attr_shows m r Se v v0 Hv0) as [Hget Hframe].
  assert (∀ attr P, sgcb_shows m (mg_domain mgr) attr P → sgcb_shows (write_attr m r Se v) (mg_domain mgr) attr P) as Hb.
  { intros attr P (a & Ha & Hsp & HP). exists a. split; [|done].
    eapply write_attr_block; [exact Hv0|apply by_name_only|done|by apply by_fc_sp; [set_solver|]]. }
  split.
  - split; [apply Hinv..| |apply Hinv|apply Hb, Hinv|apply Hb, Hinv|apply Hb, Hinv|apply Hb, Hinv].
    apply Forall_lookup. intros j s' Hj. destruct (Hok j s' Hj) as (Hl & (w & Hw & Hsh) & Hse). split; [done|].
    split; [exists w; split; [done|]; apply Hframe; [done|right; apply se_sg_distinct]|].
    destruct (st_se s') as [r'|]; [|done]. destruct Hse as [w' Hw'].
    destruct (decide (r' = r)) as [->|]; [by eexists|]. exists w'. apply Hframe; [done|by left].
  - unfold groups_of, write_draft. simpl. f_equal. apply list_eq. intros j.
    destruct (decide (j = i)) as [->|Hne].
    + rewrite list_lookup_insert_eq by (rewrite length_map; by eapply lookup_lt_Some). rewrite list_lookup_fmap, Hi. simpl.
      f_equal. by eapply draft_shows.
    + rewrite list_lookup_insert_ne by done. rewrite !list_lookup_fmap.
      destruct (sg_settings (mg_state mgr) !! j) as [s'|] eqn:Hj; [|done]. simpl. f_equal.
      destruct (st_se s') as [r'|] eqn:Er; [|unfold draft_of; by rewrite Er].
      destruct (Hok j s' Hj) as (_ & _ & Hse). rewrite Er in Hse. destruct Hse as [w' Hw'].
      rewrite (draft_shows m s' r' w'), (draft_shows (write_attr m r Se v) s' r' w'); [done..| |done|done].
      apply Hframe; [done|]. left. intros ->. apply Hne. clear -Hi Hj Hr Er Hd.
      revert i j Hi Hj Hd. induction (sg_settings (mg_state mgr)) as [|x l IH]; intros [|i] [|j]; simpl; try done.
      * intros [= ->] Hj. rewrite Hr. intros [Hx _]%NoDup_cons. destruct Hx. apply list_elem_of_omap. exists s'.
        split; [by eapply list_elem_of_lookup_2|done].
      * intros Hi [= ->]. rewrite Er. intros [Hx _]%NoDup_cons. destruct Hx. apply list_elem_of_omap. exists s.
        split; [by eapply list_elem_of_lookup_2|done].
      * intros Hi Hj Hd. f_equal. destruct (st_se x); [apply NoDup_cons in Hd as [_ Hd]|]; by eapply IH.
Qed.

(** C28: The setting groups of a device behave as a table of groups of which one is in
    effect and at most one is edited: a write of the control block that is admitted
    selects the group in effect, or the edited group, whose stored values become the
    draft, or commits the draft; it never panics, and afterwards the active view of
    every setting shows the value of the group in effect and ActSG and EditSG read
    the selected groups. A write of an edit view changes the draft and nothing else,
    so an edit does not show before it is confirmed. *)
Theorem setting_groups_refine (mgr : SettingGroupManager) (m : Model) :
  sg_inv mgr m →
  (∀ attr v now, check_write mgr attr v = None →
     ∃ mgr' m', on_sgcb_write (E:=Empty_set) mgr m attr v now = Ok (mgr', m') ∧ sg_inv mgr' m' ∧
       groups_of mgr' m' = group_service (editable_of mgr) attr v (groups_of mgr m)) ∧
  (∀ i s r v, sg_settings (mg_state mgr) !! i = Some s → st_se s = Some r →
     sg_inv mgr (write_attr m r Se v) ∧ groups_of mgr (write_attr m r Se v) = write_draft i v (groups_of mgr m)) ∧
  map (λ s, read_attr m (st_sg s) Sg) (sg_settings (mg_state mgr)) = in_effect (groups_of mgr m).
Proof.
  intros Hinv. split_and!.
  - intros attr v now. unfold check_write, group_service.
    case_decide as H1; [done|]. case_decide as H2; [done|]. case_decide as H3; [done|].
    case_decide as H4; [|done]. intros _.
    destruct (decide (attr = txt "ActSG")) as [->|Ha].
    { apply activate_refines; [done|]. destruct (decide (1 ≤ as_i64 v ≤ mg_num_of_sg mgr)); naive_solver. }
    destruct (decide (attr = txt "EditSG")) as [->|He].
    { apply edit_refines; [done|]. destruct (decide (0 ≤ as_i64 v ≤ mg_num_of_sg mgr)); naive_solver. }
    assert (attr = txt "CnfEdit") as -> by set_solver. destruct (as_bool v) eqn:Ev.
    + apply confirm_refines; [done..|]. destruct (decide (1 ≤ sg_edit (mg_state mgr) ≤ mg_num_of_sg mgr)); naive_solver.
    + exists mgr, m. split; [|done]. unfold on_sgcb_write. rewrite decide_False, decide_False by done.
      rewrite decide_True by done. by rewrite decide_True by auto.
  - intros i s r v. by apply draft_refines.
  - unfold in_effect, groups_of. simpl. rewrite map_map. apply map_ext_in. intros s Hs%list_elem_of_In.
    pose proof (si_settings _ _ Hinv) as Hok. rewrite Forall_forall in Hok.
    destruct (Hok s Hs) as (_ & (v & -> & Hv) & _). by apply shows_read.
Qed.

(** A device with one protection setting under SG and SE, served with four groups. *)
Definition protection : Model :=
  mkModel (txt "DEMO") [mkLD (txt "DEMOPROT") (txt "PROT")
    [mkLN (txt "LLN0") [] [] [] [];
     mkLN (txt "PTOC1") []
       [mkDO (txt "OpDlTmms") (txt "ING") [] [leaf (txt "setVal") Sg (VInteger 1000); leaf (txt "setVal") Se (VInteger 1000)]]
       [] []]].

Definition protection_served : Model * BTreeMap (list Z) SettingGroupManager :=
  Eval vm_compute in materialise_sgcbs_with protection 4 (VUtcTime [0; 0; 0; 0; 0; 0; 0; 0]).

Definition protection_groups : SettingGroupManager :=
  Eval vm_compute in default (mkSgManager [] 0 0 (mkSgState 0 0 [])) (bt_get protection_served.2 (txt "DEMOPROT")).

Lemma protection_inv : sg_inv protection_groups protection_served.1.
Proof.
  split; simpl; try lia.
  - constructor; [|constructor]. split; [done|]. split.
    + exists (VInteger 1000). split; [done|]. by eexists.
    + eexists. by eexists.
  - split; (constructor; [set_solver|constructor]).
  - by eexists.
  - by eexists.
  - by eexists.
  - by eexists.
Qed.

Lemma setting_groups_refine_witness :
  ∃ mgr' m', on_sgcb_write (E:=Empty_set) protection_groups protection_served.1 (txt "EditSG") (VUnsigned 2) VNone = Ok (mgr', m') ∧
    sg_inv mgr' m' ∧ gr_editing (groups_of mgr' m') = 2.
Proof.
  destruct (setting_groups_refine protection_groups protection_served.1 protection_inv) as [H _].
  destruct (H (txt "EditSG") (VUnsigned 2) VNone) as (mgr' & m' & H1 & H2 & H3); [by vm_compute|].
  exists mgr', m'. split; [done|]. split; [done|]. by rewrite H3.
Defined.
