(* ===== verification/Termination.v ===== *)
(** The CommandTermination owed for an enhanced-security operate
    (src/src/server/control.rs, [Termination]): its state, what happens under
    its lock, and the threads that race for it - the request that operates, the
    application that deferred it and calls the returned function whenever and
    as often as it likes, and the supervision timer - as a step relation. *)

From S2P Require Import Prelude Selections.
Local Open Scope Z_scope.

(** ** The state and what is done under its lock *)

Record TerminationState := mkTermState {
  ts_done : bool;
  ts_deferred : bool;
  (** Whether the handle of the supervision task is kept. *)
  ts_timer : bool;
}.

Definition TerminationState_default : TerminationState := mkTermState false false false.

(** The locked part of [finish]: [None] when the termination has been sent or
    discarded, else the new state, whether a timer is aborted and whether the
    termination was deferred. *)
Definition finish_locked (st : TerminationState) : option (TerminationState * bool * bool) :=
  if ts_done st then None
  else Some (mkTermState true (ts_deferred st) false, ts_timer st, ts_deferred st).

Definition discard (st : TerminationState) : TerminationState :=
  mkTermState true (ts_deferred st) (ts_timer st).

Definition is_deferred (st : TerminationState) : bool := ts_deferred st.

Definition defer_termination (st : TerminationState) : TerminationState :=
  mkTermState (ts_done st) true (ts_timer st).

(** The locked part of [supervise], after the task is spawned: the new state
    and whether the task is aborted. *)
Definition supervise_locked (st : TerminationState) : TerminationState * bool :=
  if ts_done st then (st, true) else (mkTermState (ts_done st) (ts_deferred st) true, false).

(** ** The threads *)

(** Where the request is: in the handler, past it with its verdict, in
    [supervise] before and after the spawn, at the [finish] of an operate that
    was not deferred, or through. *)
Inductive Request :=
| InHandler
| Accepted
| Refused
| Supervising
| Spawned
| Finishing
| AcceptedDone
| RefusedDone.

#[export] Instance Request_eq_dec : EqDecision Request.
Proof. solve_decision. Defined.

(** The supervision task. One that has slept through its limit runs to its end
    whether it is aborted or not, since it does not await again. *)
Inductive Timer :=
| NoTimer
| Sleeping
| Firing
| TimerGone.

#[export] Instance Timer_eq_dec : EqDecision Timer.
Proof. solve_decision. Defined.

Definition abort (t : Timer) : Timer := match t with Sleeping => TimerGone | t => t end.

Record Sys := mkSys {
  sys_state : TerminationState;
  sys_request : Request;
  sys_timer : Timer;
  (** Callers of [finish] past the lock: the cause and whether it was
      deferred. *)
  sys_sending : list (AddCause * bool);
  sys_sent : list AddCause;
  (** What [on_deferred] was told. *)
  sys_tracked : list AddCause;
}.

Definition Sys_start : Sys := mkSys TerminationState_default InHandler NoTimer [] [] [].

(** [finish] up to the send, by whichever thread. *)
Definition finish_enter (s : Sys) (cause : AddCause) : Sys :=
  match finish_locked (sys_state s) with
  | None => s
  | Some (st, aborts, deferred) =>
      mkSys st (sys_request s) (if aborts then abort (sys_timer s) else sys_timer s)
        ((cause, deferred) :: sys_sending s) (sys_sent s) (sys_tracked s)
  end.

(** [finish] from the send on. *)
Definition finish_send (s : Sys) (cause : AddCause) (deferred : bool) (rest : list (AddCause * bool)) : Sys :=
  mkSys (sys_state s) (sys_request s) (sys_timer s) rest (cause :: sys_sent s)
    (if deferred then cause :: sys_tracked s else sys_tracked s).

Definition set_request (s : Sys) (r : Request) : Sys :=
  mkSys (sys_state s) r (sys_timer s) (sys_sending s) (sys_sent s) (sys_tracked s).
Definition set_timer (s : Sys) (t : Timer) : Sys :=
  mkSys (sys_state s) (sys_request s) t (sys_sending s) (sys_sent s) (sys_tracked s).
Definition set_state (s : Sys) (st : TerminationState) : Sys :=
  mkSys st (sys_request s) (sys_timer s) (sys_sending s) (sys_sent s) (sys_tracked s).

(** One step of the request, which supervises with [limit]. *)
Definition request_step (limit : Z) (accept : bool) (s : Sys) : Sys :=
  match sys_request s with
  | InHandler => set_request s (if accept then Accepted else Refused)
  | Refused => set_request (set_state s (discard (sys_state s))) RefusedDone
  | Accepted => set_request s (if is_deferred (sys_state s) then Supervising else Finishing)
  | Finishing => set_request (finish_enter s AC.NONE) AcceptedDone
  | Supervising =>
      if decide (limit = 0) then set_request s AcceptedDone
      else set_request (set_timer s Sleeping) Spawned
  | Spawned =>
      let '(st, aborts) := supervise_locked (sys_state s) in
      set_request (set_timer (set_state s st) (if aborts then abort (sys_timer s) else sys_timer s))
        AcceptedDone
  | r => s
  end.

Definition running (r : Request) : bool :=
  match r with AcceptedDone | RefusedDone => false | _ => true end.

(** The steps the server takes on its own. *)
Inductive server_step (limit : Z) : Sys → Sys → Prop :=
| step_request accept s :
    running (sys_request s) = true → server_step limit s (request_step limit accept s)
| step_elapse s : sys_timer s = Sleeping → server_step limit s (set_timer s Firing)
| step_fire s :
    sys_timer s = Firing →
    server_step limit s (set_timer (finish_enter s AC.TIME_LIMIT_OVER) TimerGone)
| step_send s cause deferred l1 l2 :
    sys_sending s = l1 ++ (cause, deferred) :: l2 →
    server_step limit s (finish_send s cause deferred (l1 ++ l2)).

(** The steps of the application: it defers, and the function it got calls
    [finish]. *)
Inductive application_step : Sys → Sys → Prop :=
| step_defer s : application_step s (set_state s (defer_termination (sys_state s)))
| step_call s cause :
    is_deferred (sys_state s) = true → application_step s (finish_enter s cause).

Definition term_step (limit : Z) (s s' : Sys) : Prop := server_step limit s s' ∨ application_step s s'.

Definition reachable (limit : Z) : Sys → Prop := rtc (term_step limit) Sys_start.

(** ** The invariant *)

Definition accepted (r : Request) : bool :=
  match r with Accepted | Supervising | Spawned | Finishing | AcceptedDone => true | _ => false end.

Definition count (s : Sys) : nat := (length (sys_sending s) + length (sys_sent s))%nat.

(** The task is spawned and its [finish] is still to come. *)
Definition armed (t : Timer) : bool := match t with Sleeping | Firing => true | _ => false end.

Definition at_ (r r' : Request) : bool := bool_decide (r = r').

(** What holds between the flags, the threads and the number [n] of
    terminations sent or about to be. *)
Definition consistent (no_limit : bool) (st : TerminationState) (r : Request) (t : Timer) (n : nat) : bool :=
  (if ts_done st then (n =? 1)%nat || (at_ r RefusedDone && (n =? 0)%nat)
   else (n =? 0)%nat && negb (at_ r RefusedDone)) &&
  implb (ts_timer st) (negb (ts_done st) && at_ r AcceptedDone) &&
  (bool_decide (t = NoTimer) || at_ r Spawned || at_ r AcceptedDone) &&
  implb (at_ r Spawned && negb (ts_done st)) (armed t) &&
  implb (at_ r AcceptedDone && negb (ts_done st)) (armed t || no_limit && ts_deferred st) &&
  implb (at_ r Supervising) (ts_deferred st).

Definition Inv (limit : Z) (s : Sys) : Prop :=
  consistent (bool_decide (limit = 0)) (sys_state s) (sys_request s) (sys_timer s) (count s) = true ∧
  sys_tracked s `sublist_of` sys_sent s.

Lemma Inv_start limit : Inv limit Sys_start.
Proof. done. Qed.

(** Case analysis over the finite parts of a state. *)
Ltac by_cases :=
  match goal with n : nat |- _ => destruct n as [|[|n]] end;
  repeat match goal with
    | x : bool |- _ => destruct x
    | x : Timer |- _ => destruct x
    | x : Request |- _ => destruct x
    end;
  let H := fresh in intros H; vm_compute in H; first [discriminate H | vm_compute; reflexivity].

Lemma consistent_finish b df tm r t n :
  consistent b (mkTermState false df tm) r t n = true →
  consistent b (mkTermState true df false) r (if tm then abort t else t) (S n) = true.
Proof. by_cases. Qed.

Lemma consistent_verdict b st t n (accept : bool) :
  consistent b st InHandler t n = true →
  consistent b st (if accept then Accepted else Refused) t n = true.
Proof. destruct st as [d df tm]. by_cases. Qed.

Lemma consistent_discard b st t n :
  consistent b st Refused t n = true → consistent b (discard st) RefusedDone t n = true.
Proof. destruct st as [d df tm]. by_cases. Qed.

Lemma consistent_accepted b st t n :
  consistent b st Accepted t n = true →
  consistent b st (if is_deferred st then Supervising else Finishing) t n = true.
Proof. destruct st as [d df tm]. by_cases. Qed.

Lemma consistent_finishing b df tm t n :
  consistent b (mkTermState true df tm) Finishing t n = true →
  consistent b (mkTermState true df tm) AcceptedDone t n = true.
Proof. by_cases. Qed.

Lemma consistent_unlimited st t n :
  consistent true st Supervising t n = true → consistent true st AcceptedDone t n = true.
Proof. destruct st as [d df tm]. by_cases. Qed.

Lemma consistent_spawn b st t n :
  consistent b st Supervising t n = true → consistent b st Spawned Sleeping n = true.
Proof. destruct st as [d df tm]. by_cases. Qed.

Lemma consistent_supervise b st t n :
  consistent b st Spawned t n = true →
  let '(st', aborts) := supervise_locked st in
  consistent b st' AcceptedDone (if aborts then abort t else t) n = true.
Proof. destruct st as [d df tm]. by_cases. Qed.

Lemma consistent_elapse b st r n :
  consistent b st r Sleeping n = true → consistent b st r Firing n = true.
Proof. destruct st as [d df tm]. by_cases. Qed.

Lemma consistent_fired b df tm r n :
  consistent b (mkTermState true df tm) r Firing n = true →
  consistent b (mkTermState true df tm) r TimerGone n = true.
Proof. by_cases. Qed.

Lemma consistent_defer b st r t n :
  consistent b st r t n = true → consistent b (defer_termination st) r t n = true.
Proof. destruct st as [d df tm]. by_cases. Qed.

Lemma Inv_finish_enter limit s cause : Inv limit s → Inv limit (finish_enter s cause).
Proof.
  destruct s as [[d df tm] r t sending sent tracked]. unfold Inv, count, finish_enter. simpl.
  destruct d; [done|]. simpl. intros [H Hs]. split; [|done]. by apply consistent_finish.
Qed.

(** After [finish] the termination is done. *)
Lemma finish_enter_done s cause : ts_done (sys_state (finish_enter s cause)) = true.
Proof. destruct s as [[[] df tm] r t sending sent tracked]; done. Qed.

Lemma finish_enter_request s cause : sys_request (finish_enter s cause) = sys_request s.
Proof. destruct s as [[[] df tm] r t sending sent tracked]; done. Qed.

Lemma finish_enter_firing s cause : sys_timer s = Firing → sys_timer (finish_enter s cause) = Firing.
Proof. destruct s as [[[] df []] r t sending sent tracked]; simpl; by intros ->. Qed.

Lemma Inv_request limit accept s :
  running (sys_request s) = true → Inv limit s → Inv limit (request_step limit accept s).
Proof.
  intros Hr HI. unfold request_step. destruct (sys_request s) eqn:E; try done.
  - destruct HI as [H Hs]. split; [|done]. rewrite E in H. by apply consistent_verdict.
  - destruct HI as [H Hs]. split; [|done]. rewrite E in H. by apply consistent_accepted.
  - destruct HI as [H Hs]. split; [|done]. rewrite E in H. by apply consistent_discard.
  - destruct HI as [H Hs]. rewrite E in H. case_decide as El; (split; [|done]).
    + simpl. rewrite bool_decide_eq_true_2 in * by done. by apply consistent_unlimited.
    + simpl. by eapply consistent_spawn.
  - destruct HI as [H Hs]. rewrite E in H. apply consistent_supervise in H.
    destruct (supervise_locked (sys_state s)) as [st aborts]. by split.
  - pose proof (finish_enter_done s AC.NONE) as Hd. pose proof (finish_enter_request s AC.NONE) as Hq.
    apply (Inv_finish_enter _ _ AC.NONE) in HI as [H Hs]. split; [|done]. rewrite Hq, E in H. simpl in *.
    destruct (sys_state _) as [d df tm]. simpl in Hd. subst d. by apply consistent_finishing.
Qed.

Lemma Inv_step limit s s' : Inv limit s → term_step limit s s' → Inv limit s'.
Proof.
  intros HI Hst. revert HI.
  destruct Hst as [[accept s0 Hr|s0 Ht|s0 Ht|s0 c df l1 l2 Hl]|[s0|s0 c Hd]]; intros HI.
  - by apply Inv_request.
  - destruct HI as [H Htr]. split; [|done]. rewrite Ht in H. by apply consistent_elapse.
  - pose proof (finish_enter_done s0 AC.TIME_LIMIT_OVER) as Hd.
    pose proof (finish_enter_firing s0 AC.TIME_LIMIT_OVER Ht) as Hf.
    apply (Inv_finish_enter _ _ AC.TIME_LIMIT_OVER) in HI as [H Htr]. split; [|done]. rewrite Hf in H. simpl in *.
    destruct (sys_state _) as [d df tm]. simpl in Hd. subst d. by apply consistent_fired.
  - destruct HI as [H Htr]. split.
    + revert H. unfold count. simpl. rewrite Hl, !length_app. simpl.
      by replace (length l1 + S (length l2) + length (sys_sent s0))%nat with
        (length l1 + length l2 + S (length (sys_sent s0)))%nat by lia.
    + simpl. destruct df; [by apply sublist_skip|by apply sublist_cons].
  - destruct HI as [H Htr]. split; [|done]. by apply consistent_defer.
  - by apply Inv_finish_enter.
Qed.

Lemma Inv_reachable limit s : reachable limit s → Inv limit s.
Proof.
  revert s. apply rtc_ind_r; [apply Inv_start|]. intros s s' _ Hs HI. by eapply Inv_step.
Qed.

(** ** Once, and in the end *)

(** The server has nothing left to do. *)
Definition quiescent (limit : Z) (s : Sys) : Prop := ∀ s', ¬ server_step limit s s'.

Lemma quiescent_inv limit s :
  quiescent limit s → running (sys_request s) = false ∧ armed (sys_timer s) = false ∧ sys_sending s = [].
Proof.
  intros Hq. split; [|split].
  - apply not_true_is_false. intros H. by apply (Hq _ (step_request limit true s H)).
  - destruct (sys_timer s) eqn:E; try done;
      [destruct (Hq _ (step_elapse limit s E))|destruct (Hq _ (step_fire limit s E))].
  - destruct (sys_sending s) as [|[c df] l] eqn:E; [done|].
    destruct (Hq _ (step_send limit s c df [] l E)).
Qed.

(** A termination that is done and not refused is on its way or sent. *)
Lemma consistent_count b st r t n :
  consistent b st r t n = true → (n ≤ 1)%nat ∧
  (ts_done st = true → r ≠ RefusedDone → n = 1%nat) ∧
  (r = AcceptedDone → armed t = false → b && ts_deferred st = false → ts_done st = true).
Proof.
  destruct st as [d df tm], n as [|[|n]], b, d, df, tm, r, t; intros H; vm_compute in H;
    first [discriminate H | repeat split; simpl; try lia; congruence].
Qed.

(** C15: a CommandTermination is sent at most once, whatever the request, the
    application and the timer do and in whichever order; and when an accepted
    operate has a time limit, or was not deferred, it has been sent exactly
    once by the time the server has nothing left to do, and tracked at most
    once. *)
Theorem termination_sent_once limit s :
  reachable limit s →
  (length (sys_sent s) ≤ 1)%nat ∧ sys_tracked s `sublist_of` sys_sent s ∧
  (quiescent limit s → sys_request s = AcceptedDone →
    limit ≠ 0 ∨ ts_deferred (sys_state s) = false ∨ ts_done (sys_state s) = true →
    ∃ cause, sys_sent s = [cause]).
Proof.
  intros [H Htr]%Inv_reachable. apply consistent_count in H as (Hn & Hdone & Howed). unfold count in *.
  split; [lia|]. split; [done|]. intros (_ & Ht & Hs)%quiescent_inv Hr Hw.
  assert (ts_done (sys_state s) = true) as Hd.
  { destruct Hw as [Hl|[Hdf|?]]; [..|done]; apply Howed; try done.
    - by rewrite bool_decide_eq_false_2.
    - by rewrite Hdf, andb_false_r. }
  rewrite Hr in Hdone. specialize (Hdone Hd ltac:(done)). rewrite Hs in *. simpl in *.
  destruct (sys_sent s) as [|c [|]]; simpl in *; [done|by exists c|lia].
Qed.

(** ** The number of steps *)

Definition request_rank (r : Request) : nat :=
  match r with
  | InHandler => 4 | Accepted => 3 | Refused => 1 | Supervising => 2 | Spawned => 1 | Finishing => 1
  | AcceptedDone | RefusedDone => 0
  end.

Definition timer_rank (t : Timer) : nat :=
  match t with Sleeping => 2 | Firing => 1 | NoTimer | TimerGone => 0 end.

(** What is left to do. *)
Definition work (s : Sys) : nat :=
  4 * request_rank (sys_request s) + timer_rank (sys_timer s) + length (sys_sending s) +
  (if ts_done (sys_state s) then 0 else 2).

(** A run of the server and the application, with the number of steps the
    server takes in it. *)
Inductive run (limit : Z) : nat → Sys → Sys → Prop :=
| run_refl s : run limit 0 s s
| run_server n s s' s'' : server_step limit s s' → run limit n s' s'' → run limit (S n) s s''
| run_application n s s' s'' : application_step s s' → run limit n s' s'' → run limit n s s''.

Lemma work_finish s cause : (work (finish_enter s cause) ≤ work s)%nat.
Proof.
  destruct s as [[[] df tm] r t sending sent tracked]; unfold work; simpl; [lia|].
  destruct tm, t; simpl; lia.
Qed.

Lemma work_server limit s s' : server_step limit s s' → (work s' < work s)%nat.
Proof.
  intros [accept s0 Hr|s0 Ht|s0 Ht|s0 c df l1 l2 Hl].
  - unfold request_step. pose proof (work_finish s0 AC.NONE) as Hf. pose proof (finish_enter_request s0 AC.NONE) as Hq.
    destruct (sys_request s0) eqn:E; try done; unfold work in *; simpl in *; rewrite E in *.
    + destruct accept; simpl; lia.
    + destruct (is_deferred _); simpl; lia.
    + destruct (ts_done (sys_state s0)); simpl; lia.
    + case_decide; simpl; rewrite ?E; simpl; [lia|]. destruct (sys_timer s0); simpl; lia.
    + unfold supervise_locked. destruct (ts_done (sys_state s0)) eqn:Ed; simpl; rewrite ?Ed; destruct (sys_timer s0); simpl; lia.
    + rewrite Hq in Hf. simpl in *. lia.
  - unfold work. rewrite Ht. simpl. lia.
  - pose proof (work_finish s0 AC.TIME_LIMIT_OVER) as Hf. pose proof (finish_enter_firing s0 AC.TIME_LIMIT_OVER Ht) as Hf'.
    unfold work in *. rewrite Hf' in Hf. simpl in *. lia.
  - unfold work. simpl. rewrite Hl, !length_app. simpl. lia.
Qed.

Lemma work_application s s' : application_step s s' → (work s' ≤ work s)%nat.
Proof. intros [s0|s0 c Hd]; [unfold work; simpl; lia|apply work_finish]. Qed.

(** The server takes at most eighteen steps to conclude an operate, however
    many times the application defers and calls the function it was given. *)
Theorem termination_bounded limit n s : run limit n Sys_start s → (n ≤ 18)%nat.
Proof.
  intros H. cut (n + work s ≤ work Sys_start)%nat; [vm_compute work at 2; lia|].
  induction H as [s|n s s' s'' Hs _ IH|n s s' s'' Hs _ IH]; [lia| |].
  - apply work_server in Hs. lia.
  - apply work_application in Hs. lia.
Qed.

(** The application defers in the handler; the limit passes; its call comes
    after the timer's. *)
Definition overdue : Sys :=
  let s0 := set_state Sys_start (defer_termination TerminationState_default) in
  let s1 := request_step 5 true (request_step 5 true (request_step 5 true (request_step 5 true s0))) in
  let s2 := set_timer (finish_enter (set_timer s1 Firing) AC.TIME_LIMIT_OVER) TimerGone in
  finish_send (finish_enter s2 AC.NONE) AC.TIME_LIMIT_OVER true [].

Lemma overdue_run : run 5 7 Sys_start overdue.
Proof.
  eapply run_application; [apply step_defer|].
  do 4 (eapply run_server; [apply (step_request 5 true); reflexivity|]).
  eapply run_server; [apply step_elapse; reflexivity|].
  eapply run_server; [apply step_fire; reflexivity|].
  eapply run_application; [apply (step_call _ AC.NONE); reflexivity|].
  eapply run_server; [apply (step_send 5 _ AC.TIME_LIMIT_OVER true [] []); reflexivity|].
  apply run_refl.
Qed.

Lemma run_rtc limit n s s' : run limit n s s' → rtc (term_step limit) s s'.
Proof.
  induction 1; [done|eapply rtc_l; [by left|done]..|eapply rtc_l; [by right|done]].
Qed.

Lemma overdue_quiescent : quiescent 5 overdue.
Proof.
  intros s' H. inversion H as [? ? Hr|? Ht|? Ht|? ? ? l1 l2 Hl]; subst; try done. by destruct l1.
Qed.

Lemma termination_sent_once_witness : ∃ cause, sys_sent overdue = [cause].
Proof.
  apply (termination_sent_once 5 overdue (run_rtc _ _ _ _ overdue_run)); [apply overdue_quiescent|done|].
  left. done.
Defined.

Lemma termination_bounded_witness : (7 ≤ 18)%nat.
Proof. exact (termination_bounded 5 7 overdue overdue_run). Defined.
