(* ===== verification/InfoReport.v ===== *)
(** Information reports (src/src/mms/report.rs) and the object names of
    src/src/mms/services.rs: the unconfirmed PDU that carries IEC 61850 reports
    and control diagnoses, and that what a server builds is what a client
    reads. *)

From stdpp Require Import pretty.
From S2P Require Import Prelude Ber BerDecoder Float BerPrim TimeUtil Utf8 Text Errors MmsValue MmsCodec.
Local Open Scope list_scope.
Local Open Scope Z_scope.

(** ** Texts of values *)

(** [text] falls back to [Display], a parameter, for a value that is no string. *)
Definition Value_text (display : Value → list Z) (v : Value) : list Z :=
  match v with
  | VVisibleString b | VMmsString b | VGeneralizedTime b => from_utf8_lossy b
  | v => display v
  end.

(** ** Object names *)

Record VarRef := mkVarRef {
  vr_domain : list Z;
  vr_item : list Z;
}.

#[export] Instance VarRef_eq_dec : EqDecision VarRef.
Proof. solve_decision. Defined.

Definition VarRef_default : VarRef := mkVarRef [] [].

Definition VarRef_is_empty (r : VarRef) : bool :=
  bool_decide (vr_domain r = []) && bool_decide (vr_item r = []).

Definition VarRef_display (r : VarRef) : list Z := vr_domain r ++ SLASH :: vr_item r.

Definition object_name (domain item : list Z) : Element :=
  if decide (domain = []) then prim (context_primitive 0) item
  else cons_elem (context_constructed 1) [prim TAG_VISIBLE_STRING domain; prim TAG_VISIBLE_STRING item].

Definition variable_entry (domain item : list Z) : Element :=
  cons_elem TAG_SEQUENCE [cons_elem (context_constructed 0) [object_name domain item]].

Definition parse_object_name (content : list Z) : outcome MmsError VarRef :=
  '((tag, c), _) ← map_err MmsAsn1 (read_tlv (Decoder_new content));
  if decide (tag = context_primitive 0) then Ok (mkVarRef [] (from_utf8_lossy c))
  else if decide (tag = context_constructed 1) then
    '(domain, dd) ← map_err MmsAsn1 (expect (Decoder_new c) TAG_VISIBLE_STRING);
    '(item, _) ← map_err MmsAsn1 (expect dd TAG_VISIBLE_STRING);
    Ok (mkVarRef (from_utf8_lossy domain) (from_utf8_lossy item))
  else Err (MmsProtocol ("unexpected ObjectName tag " +:+ Tag_display tag)).

(** ** The report *)

Record InformationReport := mkIR {
  ir_list_name : list Z;
  ir_var_names : list (list Z);
  ir_values : list Value;
  ir_is_vmd_named : bool;
  ir_list_ref : VarRef;
  ir_var_refs : list VarRef;
}.

(** [let Ok(a) = m else { return none }]. *)
Definition or_return {E A B} (m : outcome E A) (none : B) (k : A → outcome E B) : outcome E B :=
  match m with
  | Ok a => k a
  | Err _ => Ok none
  | Panic => Panic
  | NoFuel => NoFuel
  end.

(** The loop of [parse_var_spec_list]: the references it pushes. *)
Fixpoint parse_var_spec_list (fuel : nat) (dec : Decoder) : outcome Asn1Error (list VarRef) :=
  match fuel with
  | O => NoFuel
  | S fuel =>
      if more dec then
        or_return (read_tlv dec) [] (λ '((tag, vs), dec),
        or_return
          (if decide (tag = TAG_SEQUENCE) then '(inner, _) ← read_tlv (Decoder_new vs); Ok inner
           else Ok (tag, vs)) [] (λ '(tag, vs),
        r ←
          (if decide (tag = context_constructed 0) then
             match parse_object_name vs with
             | Ok r => Ok r
             | Err _ => Ok VarRef_default
             | Panic => Panic
             | NoFuel => NoFuel
             end
           else Ok VarRef_default);
        rs ← parse_var_spec_list fuel dec;
        Ok (r :: rs)))
      else Ok []
  end.

(** The access results up to the first that does not decode. *)
Fixpoint parse_results (fuel : nat) (ar : Decoder) : outcome Asn1Error (list Value) :=
  match fuel with
  | O => NoFuel
  | S fuel =>
      if more ar then
        match decode_access_result ar with
        | Ok (v, ar) => vs ← parse_results fuel ar; Ok (v :: vs)
        | Err _ => Ok []
        | Panic => Panic
        | NoFuel => NoFuel
        end
      else Ok []
  end.

(** The listOfAccessResult after the access specification. *)
Definition finish (rep : InformationReport) (dec : Decoder) : outcome Asn1Error (option InformationReport) :=
  match optional dec (context_constructed 0) with
  | Ok (Some ar, _) =>
      vs ← parse_results (S (length ar)) (Decoder_new ar);
      Ok (Some (mkIR (ir_list_name rep) (ir_var_names rep) vs (ir_is_vmd_named rep) (ir_list_ref rep)
        (ir_var_refs rep)))
  | Ok (None, _) | Err _ => Ok (Some rep)
  | Panic => Panic
  | NoFuel => NoFuel
  end.

Definition parse_information_report (body : list Z) : outcome Asn1Error (option InformationReport) :=
  let dec := Decoder_new body in
  or_return (peek dec) None (λ spec,
  if decide (spec = context_constructed 0) then
    or_return (read_tlv dec) None (λ '((_, c), dec),
    refs ← parse_var_spec_list (S (length c)) (Decoder_new c);
    finish (mkIR [] (map vr_item refs) [] false VarRef_default refs) dec)
  else if decide (spec = context_constructed 1) then
    or_return (read_tlv dec) None (λ '((_, c), dec),
    match parse_object_name c with
    | Ok r => finish (mkIR (vr_item r) [] [] true r []) dec
    | Err _ => finish (mkIR [] [] [] true VarRef_default []) dec
    | Panic => Panic
    | NoFuel => NoFuel
    end)
  else
    or_return (skip dec) None (λ dec, finish (mkIR [] [] [] false VarRef_default []) dec)).

(** ** Reading what was built *)

Definition name_ok (s : list Z) : Prop := utf8 s = true.

Definition ref_ok (r : VarRef) : Prop := name_ok (vr_domain r) ∧ name_ok (vr_item r).

Lemma element_tags_cons t children :
  tag_sized t → Forall (Element_tags tag_sized) children → Element_tags tag_sized (cons_elem t children).
Proof. intros Ht Hc. apply Element_tags_children. split; [|done]. destruct t. done. Qed.

Lemma object_name_tags d i : Element_tags tag_sized (object_name d i).
Proof.
  unfold object_name. case_decide; [done|]. apply element_tags_cons; [done|]. repeat constructor; done.
Qed.

Lemma cons_encode t children :
  Forall (Element_tags tag_sized) children →
  Element_encode (cons_elem t children) = append_tlv [] (set_constructed t) (concat (map Element_encode children)).
Proof. intros H. unfold cons_elem. by apply Element_encode_cons. Qed.

Lemma parse_object_name_at r :
  ref_ok r → zlen (Element_encode (object_name (vr_domain r) (vr_item r))) < 2 ^ 32 →
  parse_object_name (Element_encode (object_name (vr_domain r) (vr_item r))) = Ok r.
Proof.
  destruct r as [d i]. intros [Hd Hi] Hlen. simpl in *. unfold parse_object_name, object_name in *.
  rewrite dec_at_nil. case_decide as Hn.
  - unfold prim in *. rewrite Element_encode_primitive in *.
    pose proof (append_tlv_longer (context_primitive 0) i).
    rewrite <-(app_nil_r (append_tlv _ _ _)), read_tlv_dec_at by (done || lia). simpl.
    rewrite from_utf8_lossy_valid by done. by subst.
  - rewrite cons_encode in * by (repeat constructor; done). simpl in *. unfold prim in *.
    rewrite !Element_encode_primitive in *. rewrite app_nil_r in *.
    set (c := append_tlv [] TAG_VISIBLE_STRING d ++ append_tlv [] TAG_VISIBLE_STRING i) in *.
    pose proof (append_tlv_longer (set_constructed (context_constructed 1)) c) as Hc.
    pose proof (append_tlv_longer TAG_VISIBLE_STRING d). pose proof (append_tlv_longer TAG_VISIBLE_STRING i).
    assert (zlen c = zlen (append_tlv [] TAG_VISIBLE_STRING d) + zlen (append_tlv [] TAG_VISIBLE_STRING i)) as Hs
      by (unfold c; by rewrite zlen_app).
    pose proof (zlen_nonneg d). pose proof (zlen_nonneg i).
    rewrite <-(app_nil_r (append_tlv [] (set_constructed _) _)), read_tlv_dec_at by (done || lia).
    cbn [map_err mbind outcome_bind].
    rewrite decide_False by done. rewrite decide_True by done. rewrite dec_at_nil. unfold c.
    rewrite expect_at by (done || lia). cbn [map_err mbind outcome_bind].
    rewrite <-(app_nil_r (append_tlv [] TAG_VISIBLE_STRING i)), expect_at by (done || lia).
    cbn [map_err mbind outcome_bind]. by rewrite !from_utf8_lossy_valid.
Qed.

(** [e] is an object name a reader takes for [r]. *)
Definition names (e : Element) (r : VarRef) : Prop :=
  Element_tags tag_sized e ∧
  (zlen (Element_encode e) < 2 ^ 32 → parse_object_name (Element_encode e) = Ok r).

Lemma object_name_names r : ref_ok r → names (object_name (vr_domain r) (vr_item r)) r.
Proof. intros Hr. split; [apply object_name_tags|]. by apply parse_object_name_at. Qed.

(** One entry of a [listOfVariable]. *)
Definition entry (name : Element) : Element :=
  cons_elem TAG_SEQUENCE [cons_elem (context_constructed 0) [name]].

Lemma entry_tags e : Element_tags tag_sized e → Element_tags tag_sized (entry e).
Proof. intros H. do 2 (apply element_tags_cons; [done|]; constructor; [|done]). done. Qed.

Lemma entry_encode e :
  Element_tags tag_sized e →
  Element_encode (entry e) =
  append_tlv [] TAG_SEQUENCE (append_tlv [] (context_constructed 0) (Element_encode e)).
Proof.
  intros H. unfold entry. rewrite cons_encode.
  - simpl. rewrite cons_encode by (by constructor). simpl. by rewrite !app_nil_r.
  - constructor; [|done]. apply element_tags_cons; [done|]. by constructor.
Qed.

Lemma var_spec_list_at es rs : Forall2 names es rs → ∀ fuel pre,
  zlen (concat (map Element_encode (map entry es))) < 2 ^ 32 → (length es < fuel)%nat →
  parse_var_spec_list fuel (dec_at pre (concat (map Element_encode (map entry es)))) = Ok rs.
Proof.
  induction 1 as [|e r es rs [Ht Hr] H IH]; intros fuel pre Hlen Hf;
    (destruct fuel as [|fuel]; [simpl in Hf; lia|]); cbn [map concat parse_var_spec_list] in *.
  { by rewrite more_at. }
  rewrite entry_encode in * by done. rewrite zlen_app in Hlen.
  pose proof (append_tlv_longer TAG_SEQUENCE (append_tlv [] (context_constructed 0) (Element_encode e))).
  pose proof (append_tlv_longer (context_constructed 0) (Element_encode e)).
  pose proof (zlen_nonneg (concat (map Element_encode (map entry es)))).
  pose proof (zlen_nonneg (append_tlv [] (context_constructed 0) (Element_encode e))).
  rewrite more_at, bool_decide_eq_true_2 by apply append_tlv_ne.
  rewrite read_tlv_dec_at by (done || lia). cbn [or_return].
  rewrite decide_True by done. rewrite dec_at_nil.
  rewrite <-(app_nil_r (append_tlv [] (context_constructed 0) _)) at 1.
  rewrite read_tlv_dec_at by (done || lia). cbn [mbind outcome_bind or_return].
  rewrite decide_True by done. rewrite Hr by lia. cbn [mbind outcome_bind].
  rewrite IH by (simpl in Hf; lia). done.
Qed.

(** *** Access results *)

Lemma access_result_data t c pre suf :
  tag_wf t → zlen c < 2 ^ 32 →
  decode_access_result (dec_at pre (append_tlv [] t c ++ suf)) =
  decode_data (dec_at pre (append_tlv [] t c ++ suf)).
Proof.
  intros Ht Hc. unfold decode_access_result. rewrite peek_at by done. cbn [map_err mbind outcome_bind].
  case_decide as H; [|done]. unfold decode_data. cbn [decode_data_at].
  rewrite read_tlv_dec_at by done. cbn [map_err mbind outcome_bind].
  destruct t as [cl k n]. simpl in H. destruct H as (-> & -> & ->). unfold decode_data_tlv. simpl.
  by destruct (decode_uint c).
Qed.

Lemma data_element_tlv {E} v e :
  data_element (E:=E) v = Ok (Some e) → Element_tags tag_sized e →
  ∃ t c, Element_encode e = append_tlv [] t c ∧ tag_wf t.
Proof.
  intros H Ht. assert (∃ t, tag_wf t ∧ (∃ c, e = Primitive t c) ∨
    ∃ es, e = Constructed t es ∧ tag_wf t) as (t & [[Hw (c & ->)]|(es & -> & Hw)]).
  { destruct v; simpl in H; try injection H as <-;
      try (eexists; left; split; [|eexists; reflexivity]; done); try done.
    - apply bind_Ok_inv in H as (es & _ & [= <-]). eexists. right. eexists. split; [reflexivity|done].
    - apply bind_Ok_inv in H as (es & _ & [= <-]). eexists. right. eexists. split; [reflexivity|done].
    - apply bind_Ok_inv in H as (x & Hx & [= <-]). unfold bit_string_elem in Hx.
      apply bind_Ok_inv in Hx as (c & _ & [= <-]). eexists. left. split; [|eexists; reflexivity]. done. }
  - rewrite Element_encode_primitive. eauto.
  - apply Element_tags_children in Ht as [_ Hc]. rewrite Element_encode_cons by done. eauto.
Qed.

Definition depth_ok (v : Value) : Prop := (value_depth v ≤ Z.to_nat MAX_VALUE_DEPTH)%nat.

Lemma access_results_at {E} vs :
  Forall value_wf vs → Forall depth_ok vs →
  ∃ es, filter_map_outcome (data_element (E:=E)) vs = Ok es ∧ length es = length vs ∧
    Forall (Element_tags tag_sized) es ∧
    (zlen (concat (map Element_encode es)) < 2 ^ 32 →
     Forall2 (reads decode_access_result) (map sent vs) (map Element_encode es)).
Proof.
  intros Hw Hd. induction vs as [|v vs IH].
  { exists []. split; [done|]. split; [done|]. split; constructor. }
  apply Forall_cons in Hw as [Hv Hw]. apply Forall_cons in Hd as [Hdv Hd].
  destruct (IH Hw Hd) as (es & Hes & Hl & Hts & Hrs).
  destruct (value_encodes (E:=E) v (S (Z.to_nat MAX_VALUE_DEPTH)) Hv) as (e & He & Ht & Hr);
    [unfold depth_ok in Hdv; lia|].
  exists (e :: es). simpl. rewrite He. simpl. rewrite Hes. split; [done|]. split; [simpl; lia|].
  split; [by constructor|]. rewrite zlen_app. intros Hlen.
  pose proof (zlen_nonneg (concat (map Element_encode es))). pose proof (zlen_nonneg (Element_encode e)).
  constructor; [|apply Hrs; lia].
  destruct (Hr ltac:(lia)) as [Hne Hread]. split; [done|]. intros pre suf.
  destruct (data_element_tlv v e He Ht) as (t & c & Hc & Htw). rewrite <-Hread, Hc in *.
  pose proof (append_tlv_longer t c). by rewrite access_result_data by (done || lia).
Qed.

Lemma parse_results_at vs encs : Forall2 (reads decode_access_result) vs encs → ∀ fuel pre,
  (length vs < fuel)%nat → parse_results fuel (dec_at pre (concat encs)) = Ok vs.
Proof.
  induction 1 as [|v enc vs encs [Hne Hr] H IH]; intros fuel pre Hf;
    (destruct fuel as [|fuel]; [simpl in Hf; lia|]); cbn [concat parse_results]; rewrite more_at.
  - done.
  - rewrite bool_decide_eq_true_2 by (by destruct enc). rewrite Hr. simpl in Hf. by rewrite IH by lia.
Qed.

(** *** Whole reports *)

(** An information report: the access specification, then the results. *)
Definition info_report (spec : Element) (results : list Element) : Element :=
  cons_elem (context_constructed 0) [spec; cons_elem (context_constructed 0) results].

Definition report_ok (spec : Element) (results : list Element) : Prop :=
  Element_tags tag_sized spec ∧ Forall (Element_tags tag_sized) results ∧
  zlen (Element_encode (info_report spec results)) < 2 ^ 32.

(** What the client's reader does with an unconfirmed PDU
    (src/src/mms/conn.rs, [handle_unconfirmed]). *)
Definition handle_unconfirmed (content : list Z) : outcome Asn1Error (option InformationReport) :=
  or_return (read_tlv (Decoder_new content)) None (λ '((tag, body), _),
  if decide (tag ≠ context_constructed 0) then Ok None else parse_information_report body).

Lemma info_report_content spec results :
  report_ok spec results →
  let ar := concat (map Element_encode results) in
  handle_unconfirmed (Element_encode (info_report spec results)) =
    parse_information_report (Element_encode spec ++ append_tlv [] (context_constructed 0) ar) ∧
  zlen ar < 2 ^ 32 ∧ zlen (Element_encode spec) < 2 ^ 32.
Proof.
  intros (Hs & Hr & Hlen) ar. unfold info_report in *.
  assert (Forall (Element_tags tag_sized) [spec; cons_elem (context_constructed 0) results]) as Hall.
  { constructor; [done|]. constructor; [|done]. by apply element_tags_cons. }
  rewrite cons_encode in * by done. simpl in *. rewrite cons_encode in * by done. rewrite app_nil_r in *.
  fold ar in Hlen |- *. change (set_constructed (context_constructed 0)) with (context_constructed 0) in *.
  set (c := Element_encode spec ++ append_tlv [] (context_constructed 0) ar) in *.
  assert (zlen c = zlen (Element_encode spec) + zlen (append_tlv [] (context_constructed 0) ar)) as Hc
    by (unfold c; by rewrite zlen_app).
  pose proof (append_tlv_longer (context_constructed 0) c). pose proof (append_tlv_longer (context_constructed 0) ar).
  pose proof (zlen_nonneg (Element_encode spec)). pose proof (zlen_nonneg ar).
  split; [|split; lia]. unfold handle_unconfirmed. rewrite dec_at_nil.
  rewrite <-(app_nil_r (append_tlv [] (context_constructed 0) c)), read_tlv_dec_at by (done || lia).
  cbn [or_return]. by rewrite decide_False by auto.
Qed.

Lemma parse_listed es rs vs results :
  Forall2 names es rs → Forall2 (reads decode_access_result) vs (map Element_encode results) →
  report_ok (cons_elem (context_constructed 0) (map entry es)) results →
  handle_unconfirmed (Element_encode (info_report (cons_elem (context_constructed 0) (map entry es)) results)) =
  Ok (Some (mkIR [] (map vr_item rs) vs false VarRef_default rs)).
Proof.
  intros Hn Hv Hok. destruct (info_report_content _ _ Hok) as (-> & Har & Hsp).
  set (ar := concat _) in *. assert (Forall (Element_tags tag_sized) (map entry es)) as Ht.
  { clear -Hn. induction Hn as [|e r es rs [He _] _ IH]; constructor; [by apply entry_tags|done]. }
  rewrite cons_encode in * by done. change (set_constructed (context_constructed 0)) with (context_constructed 0) in *.
  set (sc := concat (map Element_encode (map entry es))) in *.
  pose proof (append_tlv_longer (context_constructed 0) sc). unfold parse_information_report, finish.
  rewrite dec_at_nil, peek_at by done. cbn [or_return]. rewrite decide_True by done.
  rewrite read_tlv_dec_at by (done || lia). cbn [or_return]. rewrite dec_at_nil.
  unfold sc at 2. rewrite (var_spec_list_at _ _ Hn); [|fold sc; lia|].
  2:{ fold sc. unfold sc. clear -Ht. induction es as [|e es IH]; simpl; [lia|]. apply Forall_cons in Ht as [He Ht].
      rewrite length_app. specialize (IH Ht). simpl in IH.
      assert (Element_encode (entry e) ≠ []) as Hne.
      { unfold entry in *. apply Element_tags_children in He as [_ He]. rewrite cons_encode by done.
        rewrite <-(app_nil_r (append_tlv _ _ _)). apply append_tlv_ne. }
      destruct (Element_encode (entry e)); [done|]. simpl. lia. }
  cbn [mbind outcome_bind]. rewrite <-(app_nil_r (append_tlv [] (context_constructed 0) ar)).
  rewrite optional_at by (done || lia). rewrite dec_at_nil. unfold ar at 2.
  rewrite (parse_results_at _ _ Hv); [done|]. pose proof (reads_length _ _ _ Hv). unfold ar. lia.
Qed.

Lemma parse_named e r vs results :
  names e r → Forall2 (reads decode_access_result) vs (map Element_encode results) →
  report_ok (cons_elem (context_constructed 1) [e]) results →
  handle_unconfirmed (Element_encode (info_report (cons_elem (context_constructed 1) [e]) results)) =
  Ok (Some (mkIR (vr_item r) [] vs true r [])).
Proof.
  intros [Ht Hn] Hv Hok. destruct (info_report_content _ _ Hok) as (-> & Har & Hsp).
  set (ar := concat _) in *.
  rewrite cons_encode in * by (by constructor). change (set_constructed (context_constructed 1)) with (context_constructed 1) in *.
  simpl in *. rewrite app_nil_r in *. pose proof (append_tlv_longer (context_constructed 1) (Element_encode e)).
  unfold parse_information_report, finish.
  rewrite dec_at_nil, peek_at by done. cbn [or_return]. rewrite decide_False by done. rewrite decide_True by done.
  rewrite read_tlv_dec_at by (done || lia). cbn [or_return]. rewrite Hn by lia.
  rewrite <-(app_nil_r (append_tlv [] (context_constructed 0) ar)).
  rewrite optional_at by (done || lia). rewrite dec_at_nil. unfold ar at 2.
  rewrite (parse_results_at _ _ Hv); [done|]. pose proof (reads_length _ _ _ Hv). unfold ar. lia.
Qed.

(** ** No report panics *)

Lemma or_return_settled {E A B} (P : A → Prop) (m : outcome E A) (none : B) k :
  returns P m → (∀ a, P a → settled (k a)) → settled (or_return m none k).
Proof. intros Hm Hk. destruct m; try done. by apply Hk. Qed.

Lemma parse_object_name_settled content : octets content → settled (parse_object_name content).
Proof.
  intros Ho. apply (returns_settled (λ _, True)). eapply reading_bind; [apply reading_map_err, reading_read_tlv; by apply Decoder_new_wf|].
  intros [tag c] d Hc _. case_decide; [done|]. case_decide; [|done].
  eapply reading_bind; [apply reading_map_err, reading_expect; by apply Decoder_new_wf|]. intros x dd _ Hdd.
  eapply reading_bind; [by apply reading_map_err, reading_expect|]. done.
Qed.

Lemma parse_var_spec_list_settled fuel : ∀ d,
  dec_wf d → zlen (data d) - off d < Z.of_nat fuel → settled (parse_var_spec_list fuel d).
Proof.
  induction fuel as [|fuel IH]; intros d Hd Hf; [destruct Hd; lia|]. cbn [parse_var_spec_list].
  destruct (more d); [|done]. pose proof (read_tlv_advances d Hd) as Ha. pose proof (reading_read_tlv d Hd) as Hr.
  destruct (read_tlv d) as [[[t c] d']|?| |]; try done. cbn [or_return]. destruct Hr as [Hc Hd'], Ha as [Hdata Hoff].
  apply (or_return_settled (λ r, octets r.2)).
  { case_decide; [|done]. eapply reading_bind; [apply reading_read_tlv; by apply Decoder_new_wf|]. by intros [? ?] ? ? _. }
  intros [t' c'] Hc'. apply settled_bind.
  - case_decide; [|done]. pose proof (parse_object_name_settled c' Hc'). by destruct (parse_object_name c').
  - intros r _. apply settled_bind; [|done]. apply IH; [done|]. rewrite Hdata. lia.
Qed.

Lemma decode_access_result_advances d : dec_wf d → advances 2 d (decode_access_result d).
Proof.
  intros Hd. unfold decode_access_result. pose proof (peek_settled d Hd) as Hp. destruct (peek d); try done.
  cbn [map_err mbind outcome_bind]. case_decide; [|by apply decode_data_at_advances].
  pose proof (read_tlv_advances d Hd) as Ha. pose proof (reading_read_tlv d Hd) as Hr.
  destruct (read_tlv d) as [[[t c] d']|?| |]; try done. destruct Hr as [Hc _]. cbn [map_err mbind outcome_bind].
  destruct (decode_prims_settled c Hc) as (H1 & H2 & H3 & H4 & H5). by destruct (decode_uint c).
Qed.

Lemma parse_results_settled fuel : ∀ d,
  dec_wf d → zlen (data d) - off d < Z.of_nat fuel → settled (parse_results fuel d).
Proof.
  induction fuel as [|fuel IH]; intros d Hd Hf; [destruct Hd; lia|]. cbn [parse_results].
  destruct (more d); [|done]. pose proof (decode_access_result_advances d Hd) as Ha.
  destruct (decode_access_result d) as [[v d']|?| |]; try done. destruct Ha as [Hdata Hoff].
  apply settled_bind; [|done]. apply IH; [|rewrite Hdata; lia]. destruct Hd as [Ho Hoff0]. split; rewrite Hdata; [done|lia].
Qed.

Lemma parse_information_report_settled body : octets body → settled (parse_information_report body).
Proof.
  intros Ho. unfold parse_information_report. pose proof (Decoder_new_wf _ Ho) as Hd.
  pose proof (peek_settled _ Hd) as Hp. destruct (peek _) as [spec|?| |]; try done. cbn [or_return].
  assert (∀ rep d, dec_wf d → settled (finish rep d)) as Hfin.
  { intros rep d Hd'. unfold finish. pose proof (reading_optional d (context_constructed 0) Hd') as Hr.
    destruct (optional d _) as [[[ar|] d1]|?| |]; try done. apply settled_bind; [|done]. destruct Hr as [Har _].
    apply parse_results_settled; [by apply Decoder_new_wf|]. simpl. unfold zlen. lia. }
  pose proof (reading_read_tlv _ Hd) as Hr. case_decide; [|case_decide].
  - destruct (read_tlv _) as [[[t c] d]|?| |]; try done. destruct Hr as [Hc Hd']. cbn [or_return].
    apply settled_bind; [|intros; by apply Hfin].
    apply parse_var_spec_list_settled; [by apply Decoder_new_wf|]. simpl. unfold zlen. lia.
  - destruct (read_tlv _) as [[[t c] d]|?| |]; try done. destruct Hr as [Hc Hd']. cbn [or_return]. simpl in Hc.
    pose proof (parse_object_name_settled c Hc). destruct (parse_object_name c); try done; by apply Hfin.
  - unfold skip. destruct (read_tlv _) as [[[t c] d]|?| |]; try done. destruct Hr as [_ Hd']. by apply Hfin.
Qed.

Lemma handle_unconfirmed_settled content : octets content → settled (handle_unconfirmed content).
Proof.
  intros Ho. eapply or_return_settled; [apply reading_read_tlv; by apply Decoder_new_wf|].
  intros [[t c] d] [Hc _]. case_decide; [done|]. by apply parse_information_report_settled.
Qed.
