(* ===== verification/Services.v ===== *)
(** The services of a client (src/src/mms/services.rs): what each method of a
    connection sends, what it makes of the response, and how the services that
    answer in pages are followed to the end. *)

From stdpp Require Import pretty.
From S2P Require Import Prelude Ber BerDecoder Float BerPrim TimeUtil Utf8 Text Errors MmsValue MmsCodec BerFields.
From S2P Require Import MmsPdu TypeSpec InfoReport.
Local Open Scope string_scope.
Local Open Scope list_scope.
Local Open Scope Z_scope.

(** ** Calls

    A client's method runs against whatever is at the other end, whose state a call
    may change even when it fails. *)

Definition Call (W A : Type) : Type := W → outcome MmsError A * W.

#[export] Instance Call_ret {W} : MRet (Call W) := λ A a w, (Ok a, w).
#[export] Instance Call_bind {W} : MBind (Call W) := λ A B f m w,
  match m w with
  | (Ok a, w) => f a w
  | (Err e, w) => (Err e, w)
  | (Panic, w) => (Panic, w)
  | (NoFuel, w) => (NoFuel, w)
  end.

Definition lift {W A} (m : outcome MmsError A) : Call W A := λ w, (m, w).

Lemma Call_bind_Ok {W A B} (m : Call W A) (f : A → Call W B) w a w' :
  m w = (Ok a, w') → (m ≫= f) w = f a w'.
Proof. intros H. unfold mbind, Call_bind. by rewrite H. Qed.

Lemma Call_bind_Err {W A B} (m : Call W A) (f : A → Call W B) w e w' :
  m w = (Err e, w') → (m ≫= f) w = (Err e, w').
Proof. intros H. unfold mbind, Call_bind. by rewrite H. Qed.

(** ** Decoding *)

Definition d_expect (d : Decoder) (t : Tag) : outcome MmsError (list Z * Decoder) := map_err MmsAsn1 (expect d t).
Definition d_optional (d : Decoder) (t : Tag) : outcome MmsError (option (list Z) * Decoder) :=
  map_err MmsAsn1 (optional d t).

(** [while dec.more() { let c = dec.expect(t)?; .. f(c)? .. }]. *)
Definition expecting {A} (t : Tag) (f : list Z → outcome MmsError A) (d : Decoder) : outcome MmsError (A * Decoder) :=
  '(c, d) ← d_expect d t; a ← f c; Ok (a, d).
Definition every {A} (read : Decoder → outcome MmsError (A * Decoder)) (content : list Z) : outcome MmsError (list A) :=
  decode_children read (S (length content)) (Decoder_new content).

Definition SVC_STATUS : Z := 0.
Definition SVC_GET_NAME_LIST : Z := 1.
Definition SVC_IDENTIFY : Z := 2.
Definition SVC_READ : Z := 4.
Definition SVC_WRITE : Z := 5.
Definition SVC_GET_VARIABLE_ACCESS : Z := 6.
Definition SVC_DEFINE_NAMED_VAR_LIST : Z := 11.
Definition SVC_GET_NAMED_VAR_LIST_ATTR : Z := 12.
Definition SVC_DELETE_NAMED_VAR_LIST : Z := 13.
Definition SVC_OBTAIN_FILE : Z := 46.
Definition SVC_READ_JOURNAL : Z := 65.
Definition SVC_INITIALIZE_JOURNAL : Z := 67.
Definition SVC_REPORT_JOURNAL_STATUS : Z := 68.
Definition SVC_FILE_OPEN : Z := 72.
Definition SVC_FILE_READ : Z := 73.
Definition SVC_FILE_CLOSE : Z := 74.
Definition SVC_FILE_RENAME : Z := 75.
Definition SVC_FILE_DELETE : Z := 76.
Definition SVC_FILE_DIRECTORY : Z := 77.

(** ** Objects *)

Inductive ObjectClass :=
| NamedVariable | ScatteredAccess | NamedVariableList | NamedType | Semaphore | EventCondition
| EventAction | EventEnrollment | Journal | Domain | ProgramInvocation | OperatorStation.

#[export] Instance ObjectClass_eq_dec : EqDecision ObjectClass.
Proof. solve_decision. Defined.

Definition ObjectClass_code (c : ObjectClass) : Z :=
  match c with
  | NamedVariable => 0
  | ScatteredAccess => 1
  | NamedVariableList => 2
  | NamedType => 3
  | Semaphore => 4
  | EventCondition => 5
  | EventAction => 6
  | EventEnrollment => 7
  | Journal => 8
  | Domain => 9
  | ProgramInvocation => 10
  | OperatorStation => 11
  end.

Record FileEntry := mkFileEntry {
  fe_name : list Z;
  fe_size : Z;
  fe_last_modified : option Z;
}.

Record JournalVariable := mkJournalVariable {
  jv_tag : list Z;
  jv_value : option Value;
}.

Record JournalEntry := mkJournalEntry {
  je_entry_id : list Z;
  je_occurrence_time : option Z;
  je_variables : list JournalVariable;
}.

Definition JournalEntry_default : JournalEntry := mkJournalEntry [] None [].

(** ** Requests and responses *)

Definition define_named_variable_list_request (domain list_name : list Z) (members : list VarRef) : Element :=
  let l := cons_elem (context_constructed 0) (map (λ m, variable_entry (vr_domain m) (vr_item m)) members) in
  cons_elem (context_constructed SVC_DEFINE_NAMED_VAR_LIST) [object_name domain list_name; l].

Definition parse_read_response (resp : list Z) : outcome MmsError (list Value) :=
  '(content, _) ← d_expect (Decoder_new resp) (context_constructed SVC_READ);
  '(_, inner) ← d_optional (Decoder_new content) (context_constructed 0);
  '(ar_content, _) ← d_expect inner (context_constructed 1);
  every decode_access_result ar_content.

(** The members a server echoes, up to the first it does not name. *)
Fixpoint echoed_refs {E} (fuel : nat) (ld : Decoder) : outcome E (list VarRef) :=
  match fuel with
  | O => NoFuel
  | S fuel =>
      if more ld then
        e ← ok (expect ld TAG_SEQUENCE);
        match e with
        | None => Ok []
        | Some (entry, ld) =>
            n ← ok (expect (Decoder_new entry) (context_constructed 0));
            match n with
            | None => Ok []
            | Some (name_content, _) =>
                r ← ok (parse_object_name name_content);
                match r with
                | None => Ok []
                | Some r => rs ← echoed_refs fuel ld; Ok (r :: rs)
                end
            end
        end
      else Ok []
  end.

Definition parse_read_response_with_spec (resp : list Z) : outcome MmsError (list VarRef * list Value) :=
  '(content, _) ← d_expect (Decoder_new resp) (context_constructed SVC_READ);
  '(spec, inner) ← d_optional (Decoder_new content) (context_constructed 0);
  refs ←
    match spec with
    | None => Ok []
    | Some spec_content =>
        l ← ok (optional (Decoder_new spec_content) (context_constructed 0));
        match l with
        | Some (Some list_content, _) => echoed_refs (S (length list_content)) (Decoder_new list_content)
        | _ => Ok []
        end
    end;
  '(ar_content, _) ← d_expect inner (context_constructed 1);
  values ← every decode_access_result ar_content;
  Ok (refs, values).

Definition identify_slot (inner : Decoder) (i : Z) : outcome MmsError (list Z * Decoder) :=
  '(v, inner) ← d_optional inner (context_primitive i);
  Ok (match v with Some v => from_utf8_lossy v | None => [] end, inner).

Definition identify_response (resp : list Z) : outcome MmsError (list Z * list Z * list Z) :=
  '(content, _) ← d_expect (Decoder_new resp) (context_constructed SVC_IDENTIFY);
  '(vendor, inner) ← identify_slot (Decoder_new content) 0;
  '(model, inner) ← identify_slot inner 1;
  '(revision, _) ← identify_slot inner 2;
  Ok (vendor, model, revision).

Definition get_name_list_request (class : ObjectClass) (domain after : list Z) : Element :=
  cons_elem (context_constructed SVC_GET_NAME_LIST)
    ([cons_elem (context_constructed 0) [int_elem (context_primitive 0) (ObjectClass_code class)]] ++
     [if decide (domain = []) then cons_elem (context_constructed 1) [prim (context_primitive 0) []]
      else cons_elem (context_constructed 1) [prim (context_primitive 1) domain]] ++
     (if decide (after = []) then [] else [prim (context_primitive 2) after])).

(** [moreFollows], an optional boolean with a default. *)
Definition more_follows (inner : Decoder) (dflt : bool) : outcome MmsError bool :=
  '(mf, _) ← d_optional inner (context_primitive 1);
  match mf with Some mf => unwrap_or (decode_bool mf) dflt | None => Ok dflt end.

Definition get_name_list_response (resp : list Z) : outcome MmsError (list (list Z) * bool) :=
  '(content, _) ← d_expect (Decoder_new resp) (context_constructed SVC_GET_NAME_LIST);
  '(list_content, inner) ← d_expect (Decoder_new content) (context_constructed 0);
  names ← every (expecting TAG_VISIBLE_STRING (λ id, Ok (from_utf8_lossy id))) list_content;
  more ← more_follows inner true;
  Ok (names, more).

Definition read_request (refs : list VarRef) : Element :=
  cons_elem (context_constructed SVC_READ)
    [cons_elem (context_constructed 1)
       [cons_elem (context_constructed 0) (map (λ r, variable_entry (vr_domain r) (vr_item r)) refs)]].

Definition write_request {E} (domain : list Z) (items : list (list Z)) (values : list Value) : outcome E Element :=
  data ← filter_map_outcome data_element values;
  Ok (cons_elem (context_constructed SVC_WRITE)
    [cons_elem (context_constructed 0) (map (variable_entry domain) items); cons_elem (context_constructed 0) data]).

(** One result of a write: success, or the server's error. *)
Definition write_result (inner : Decoder) : outcome MmsError ((unit + DataAccessError) * Decoder) :=
  '((tag, c), inner) ← map_err MmsAsn1 (read_tlv inner);
  if decide (tag = context_primitive 0) then
    code ← unwrap_or (decode_uint c) 0;
    Ok (inr (DataAccessError_from_code (u8 code)), inner)
  else Ok (inl (), inner).

Definition write_response (resp : list Z) : outcome MmsError (list (unit + DataAccessError)) :=
  '(content, _) ← d_expect (Decoder_new resp) (context_constructed SVC_WRITE);
  every write_result content.

Definition get_variable_access_attributes_request (domain item : list Z) : Element :=
  cons_elem (context_constructed SVC_GET_VARIABLE_ACCESS) [cons_elem (context_constructed 0) [object_name domain item]].

Definition get_variable_access_attributes_response (resp : list Z) : outcome MmsError (TypeSpec * list Z) :=
  '(content, _) ← d_expect (Decoder_new resp) (context_constructed SVC_GET_VARIABLE_ACCESS);
  '(_, inner) ← d_optional (Decoder_new content) (context_primitive 0);
  '(_, inner) ← d_optional inner (context_constructed 1);
  '(ts_content, _) ← d_expect inner (context_constructed 2);
  '(ts, _) ← decode_type_spec (Decoder_new ts_content);
  Ok (ts, ts_content).

Definition list_specification (domain list_name : list Z) : Element :=
  cons_elem (context_constructed 1) [cons_elem (context_constructed 1) [object_name domain list_name]].

Definition read_list_request (domain list_name : list Z) : Element :=
  cons_elem (context_constructed SVC_READ) [list_specification domain list_name].

Definition read_list_with_spec_request (domain list_name : list Z) : Element :=
  cons_elem (context_constructed SVC_READ) [bool_elem (context_primitive 0) true; list_specification domain list_name].

Definition define_response (resp : list Z) : outcome MmsError unit :=
  r ← ok (expect (Decoder_new resp) (context_constructed SVC_DEFINE_NAMED_VAR_LIST));
  match r with
  | Some _ => Ok ()
  | None =>
      if peek_is (Decoder_new resp) (context_primitive SVC_DEFINE_NAMED_VAR_LIST) then Ok ()
      else Err (MmsProtocol "unexpected defineNamedVariableList response")
  end.

Definition delete_request (domain list_name : list Z) : Element :=
  cons_elem (context_constructed SVC_DELETE_NAMED_VAR_LIST) [cons_elem (context_constructed 1) [object_name domain list_name]].

Definition delete_response (resp : list Z) : outcome MmsError unit :=
  '(content, _) ← d_expect (Decoder_new resp) (context_constructed SVC_DELETE_NAMED_VAR_LIST);
  let malformed := MmsProtocol "malformed DeleteNamedVariableList response" in
  '(mb, dec) ← map_err (λ _, malformed) (expect (Decoder_new content) (context_primitive 0));
  '(db, _) ← map_err (λ _, malformed) (expect dec (context_primitive 1));
  matched ← unwrap_or (decode_uint mb) 0;
  deleted ← unwrap_or (decode_uint db) 0;
  if decide (deleted > 0) then Ok ()
  else if decide (matched = 0) then Err (MmsAccess ObjectNonExistent)
  else Err MmsNotDeleted.

Definition list_attributes_request (domain list_name : list Z) : Element :=
  cons_elem (context_constructed SVC_GET_NAMED_VAR_LIST_ATTR) [object_name domain list_name].

Definition list_attributes_response (resp : list Z) : outcome MmsError (list VarRef) :=
  '(content, _) ← d_expect (Decoder_new resp) (context_constructed SVC_GET_NAMED_VAR_LIST_ATTR);
  '(_, inner) ← d_optional (Decoder_new content) (context_primitive 0);
  '(list_content, _) ← d_expect inner (context_constructed 1);
  every
    (expecting TAG_SEQUENCE (λ entry,
       '(spec_content, _) ← d_expect (Decoder_new entry) (context_constructed 0);
       parse_object_name spec_content))
    list_content.

(** *** Files *)

Definition graphic (name : list Z) : Element := prim TAG_GRAPHIC_STRING name.

Definition file_open_request (name : list Z) : Element :=
  cons_elem (context_constructed SVC_FILE_OPEN)
    [cons_elem (context_constructed 0) [graphic name]; uint_elem (context_primitive 1) 0].

Definition file_open_response (resp : list Z) : outcome MmsError (Z * Z) :=
  '(content, _) ← d_expect (Decoder_new resp) (context_constructed SVC_FILE_OPEN);
  '(id_bytes, inner) ← d_expect (Decoder_new content) (context_primitive 0);
  n ← unwrap_or (decode_int id_bytes) 0;
  '(attrs, _) ← d_optional inner (context_constructed 1);
  size ←
    match attrs with
    | None => Ok 0
    | Some attrs =>
        sz ← ok (expect (Decoder_new attrs) (context_primitive 0));
        match sz with Some (sz, _) => n ← unwrap_or (decode_uint sz) 0; Ok (u32 n) | None => Ok 0 end
    end;
  Ok (swrap 32 n, size).

Definition file_read_request (frsm_id : Z) : Element := int_elem (context_primitive SVC_FILE_READ) frsm_id.

Definition file_read_response (resp : list Z) : outcome MmsError (list Z * bool) :=
  '(content, _) ← d_expect (Decoder_new resp) (context_constructed SVC_FILE_READ);
  '(file_data, inner) ← d_expect (Decoder_new content) (context_primitive 0);
  more ← more_follows inner true;
  Ok (file_data, more).

Definition file_close_request (frsm_id : Z) : Element := int_elem (context_primitive SVC_FILE_CLOSE) frsm_id.

Definition file_delete_request (name : list Z) : Element := cons_elem (context_constructed SVC_FILE_DELETE) [graphic name].

Definition file_directory_request (path after : list Z) : Element :=
  cons_elem (context_constructed SVC_FILE_DIRECTORY)
    ((if decide (path = []) then [] else [cons_elem (context_constructed 0) [graphic path]]) ++
     (if decide (after = []) then [] else [cons_elem (context_constructed 1) [graphic after]])).

Definition is_ascii_digit (c : Z) : bool := bool_decide (48 ≤ c ≤ 57).

(** [str::parse] of digits. *)
Definition digits_value (s : list Z) : Z := fold_left (λ n c, n * 10 + (c - 48)) s 0.

Fixpoint take_digits (s : list Z) : list Z :=
  match s with c :: s => if is_ascii_digit c then c :: take_digits s else [] | [] => [] end.

Definition parse_generalized_time (s : list Z) : option Z :=
  let s := trim s in
  if decide ((length s < 14)%nat ∨ forallb is_ascii_digit (take 14 s) = false) then None
  else
    let field a n := digits_value (take n (drop a s)) in
    let y := field 0%nat 4%nat in
    let mo := field 4%nat 2%nat in
    let d := field 6%nat 2%nat in
    let h := field 8%nat 2%nat in
    let mi := field 10%nat 2%nat in
    let sec := field 12%nat 2%nat in
    if decide (¬ (1 ≤ mo ≤ 12) ∨ ¬ (1 ≤ d ≤ 31)) then None
    else
      let secs := days_from_civil y mo d * 86400 + h * 3600 + mi * 60 + sec in
      let nanos :=
        match drop 14 s with
        | 46 :: frac =>
            match take_digits frac with
            | [] => 0
            | ds => let ds := take 9 ds in digits_value (ds ++ replicate (9 - length ds) 48)
            end
        | _ => 0
        end in
      Some (from_unix secs nanos).

(** Where a failed read leaves the decoder: the position its error names. *)
Definition failed_at (e : Asn1Error) : Z :=
  match e with
  | Truncated _ offset | BadTag _ offset | BadLength _ offset | TooDeep offset | Unexpected _ _ offset => offset
  | _ => 0
  end.

Definition parse_dir_entry (content : list Z) : outcome MmsError FileEntry :=
  '(name_seq, dec) ← d_expect (Decoder_new content) (context_constructed 0);
  name ← ok (expect (Decoder_new name_seq) TAG_GRAPHIC_STRING);
  let name := match name with Some (name, _) => from_utf8_lossy name | None => [] end in
  '(attrs, _) ← d_optional dec (context_constructed 1);
  match attrs with
  | None => Ok (mkFileEntry name 0 None)
  | Some attrs =>
      '(size, ad) ←
        match read_tlv (Decoder_new attrs) with
        | Ok ((tag, sz), ad) =>
            if decide (tag = context_primitive 0) then n ← unwrap_or (decode_uint sz) 0; Ok (u32 n, ad) else Ok (0, ad)
        | Err e => Ok (0, mkDecoder attrs (failed_at e))
        | Panic => Panic
        | NoFuel => NoFuel
        end;
      '(lm, _) ← d_optional ad (context_primitive 1);
      Ok (mkFileEntry name size (match lm with Some lm => parse_generalized_time (from_utf8_lossy lm) | None => None end))
  end.

Definition file_directory_response (resp : list Z) : outcome MmsError (list FileEntry * bool) :=
  '(content, _) ← d_expect (Decoder_new resp) (context_constructed SVC_FILE_DIRECTORY);
  '(list_content, inner) ← d_expect (Decoder_new content) (context_constructed 0);
  '(seq_of, _) ← d_expect (Decoder_new list_content) TAG_SEQUENCE;
  entries ← every (expecting TAG_SEQUENCE parse_dir_entry) seq_of;
  more ← more_follows inner false;
  Ok (entries, more).

(** *** Journals *)

Definition binary_time_bytes (t : Z) : list Z := match binary_time t with VBinaryTime b => b | _ => [] end.

Definition journal_name (domain item : list Z) : Element :=
  cons_elem (context_constructed 0)
    [cons_elem (context_constructed 1) [prim TAG_VISIBLE_STRING domain; prim TAG_VISIBLE_STRING item]].

Definition range_stop (end_ : Z) : Element :=
  cons_elem (context_constructed 2) [prim (context_primitive 0) (binary_time_bytes end_)].

Definition by_time_request (domain item : list Z) (start end_ : Z) : Element :=
  cons_elem (context_constructed SVC_READ_JOURNAL)
    [journal_name domain item;
     cons_elem (context_constructed 1) [prim (context_primitive 0) (binary_time_bytes start)];
     range_stop end_].

Definition after_request (domain item : list Z) (after : Z) (entry_id : list Z) (end_ : option Z) : Element :=
  cons_elem (context_constructed SVC_READ_JOURNAL)
    ([journal_name domain item] ++
     match end_ with Some e => [range_stop e] | None => [] end ++
     [cons_elem (context_constructed 5)
        [prim (context_primitive 0) (binary_time_bytes after); prim (context_primitive 1) entry_id]]).

(** One element of a variable, and the variable. *)
Definition variable_round {E} (jv : JournalVariable) (t : Tag) (vc : list Z) : outcome E (JournalVariable + Empty_set) :=
  if decide (t = TAG_GRAPHIC_STRING ∨ t = TAG_VISIBLE_STRING ∨ t = context_primitive 0) then
    Ok (inl (mkJournalVariable (from_utf8_lossy vc) (jv_value jv)))
  else if decide (t = context_constructed 1) then
    v ← ok (decode_data (Decoder_new vc));
    Ok (inl (mkJournalVariable (jv_tag jv) (match v with Some (v, _) => Some v | None => jv_value jv end)))
  else Ok (inl jv).

Definition journal_variable {E} (c : list Z) : outcome E JournalVariable :=
  whole (each_field leave variable_round c (mkJournalVariable [] None)).

(** [levels] bounds the nesting; content is never nested deeper than it is long. *)
Fixpoint parse_journal_variables {E} (levels : nat) (content : list Z) (vars : list JournalVariable)
    : outcome E (list JournalVariable) :=
  match levels with
  | O => NoFuel
  | S levels =>
      whole
        (each_field leave
           (λ vars tag c,
              if decide (tag = context_constructed 1) then
                vars ← parse_journal_variables levels c vars; Ok (inl vars)
              else if decide (tag ≠ TAG_SEQUENCE) then Ok (inl vars)
              else
                jv ← journal_variable c;
                Ok (inl (if decide (jv_tag jv ≠ [] ∨ is_Some (jv_value jv)) then vars ++ [jv] else vars)))
           content vars)
  end.

Definition entry_content_round {E} (e : JournalEntry) (tag : Tag) (c : list Z) : outcome E (JournalEntry + Empty_set) :=
  if decide (tag = context_primitive 0) then
    Ok (inl (if decide (length c = 4%nat ∨ length c = 6%nat)
             then mkJournalEntry (je_entry_id e) (Value_time (VBinaryTime c)) (je_variables e) else e))
  else if decide (tag = context_constructed 2) then
    vars ← parse_journal_variables (S (length c)) c (je_variables e);
    Ok (inl (mkJournalEntry (je_entry_id e) (je_occurrence_time e) vars))
  else Ok (inl e).

Definition parse_entry_content {E} (content : list Z) (e : JournalEntry) : outcome E JournalEntry :=
  whole (each_field leave entry_content_round content e).

Definition parse_journal_entry (content : list Z) : outcome MmsError JournalEntry :=
  whole
    (each_field (raise MmsAsn1)
       (λ e tag c,
          if decide (tag = context_primitive 0) then Ok (inl (mkJournalEntry c (je_occurrence_time e) (je_variables e)))
          else if decide (tag = context_constructed 2) then e ← parse_entry_content c e; Ok (inl e)
          else Ok (inl e))
       content JournalEntry_default).

Definition read_journal_response (resp : list Z) : outcome MmsError (list JournalEntry * bool) :=
  '(content, _) ← d_expect (Decoder_new resp) (context_constructed SVC_READ_JOURNAL);
  '(list_content, inner) ← d_expect (Decoder_new content) (context_constructed 0);
  entries ← every (expecting TAG_SEQUENCE parse_journal_entry) list_content;
  '(b, _) ← d_optional inner (context_primitive 1);
  Ok (entries, match b with Some (v :: _) => bool_decide (v ≠ 0) | _ => false end).

(** ** The methods of a connection *)

Section client.
(** [call_inner]: a confirmed request and its answer. *)
Context {W : Type} (call : Element → Call W (list Z)).

Definition identify : Call W (list Z * list Z * list Z) :=
  resp ← call (prim (context_primitive SVC_IDENTIFY) []); lift (identify_response resp).

Definition get_name_list_page (class : ObjectClass) (domain after : list Z) : Call W (list (list Z) * bool) :=
  resp ← call (get_name_list_request class domain after); lift (get_name_list_response resp).

(** A service that answers in pages: the loop that asks for the page after what the
    last one ended with, while there is more. [fuel] bounds the pages. *)
Fixpoint pages {A K} (page : K → Call W (list A * bool)) (key : A → K) (fuel : nat) (from : K) (acc : list A)
    : Call W (list A) :=
  match fuel with
  | O => lift NoFuel
  | S fuel =>
      '(batch, more) ← page from;
      match more, last batch with
      | true, Some l => pages page key fuel (key l) (acc ++ batch)
      | _, _ => mret (acc ++ batch)
      end
  end.

Definition get_name_list (fuel : nat) (class : ObjectClass) (domain : list Z) : Call W (list (list Z)) :=
  pages (get_name_list_page class domain) id fuel [] [].

Definition read_refs (refs : list VarRef) : Call W (list Value) :=
  if decide (refs = []) then lift (Err (MmsProtocol "read_refs requires at least one reference"))
  else resp ← call (read_request refs); lift (parse_read_response resp).

Definition read (domain : list Z) (items : list (list Z)) : Call W (list Value) :=
  if decide (items = []) then lift (Err (MmsProtocol "read requires at least one item"))
  else read_refs (map (mkVarRef domain) items).

Definition write (domain : list Z) (items : list (list Z)) (values : list Value) : Call W (list (unit + DataAccessError)) :=
  if decide (length items ≠ length values) then lift (Err (MmsProtocol "write items/values length mismatch"))
  else
    req ← lift (write_request domain items values);
    resp ← call req;
    lift (write_response resp).

Definition get_variable_access_attributes_raw (domain item : list Z) : Call W (TypeSpec * list Z) :=
  resp ← call (get_variable_access_attributes_request domain item); lift (get_variable_access_attributes_response resp).

Definition get_variable_access_attributes (domain item : list Z) : Call W TypeSpec :=
  r ← get_variable_access_attributes_raw domain item; mret r.1.

Definition read_named_variable_list (domain list_name : list Z) : Call W (list Value) :=
  resp ← call (read_list_request domain list_name); lift (parse_read_response resp).

Definition read_named_variable_list_with_spec (domain list_name : list Z) : Call W (list VarRef * list Value) :=
  resp ← call (read_list_with_spec_request domain list_name); lift (parse_read_response_with_spec resp).

Definition define_named_variable_list (domain list_name : list Z) (members : list VarRef) : Call W unit :=
  resp ← call (define_named_variable_list_request domain list_name members); lift (define_response resp).

Definition delete_named_variable_list (domain list_name : list Z) : Call W unit :=
  resp ← call (delete_request domain list_name); lift (delete_response resp).

Definition get_named_variable_list_attributes (domain list_name : list Z) : Call W (list VarRef) :=
  resp ← call (list_attributes_request domain list_name); lift (list_attributes_response resp).

Definition file_open (name : list Z) : Call W (Z * Z) :=
  resp ← call (file_open_request name); lift (file_open_response resp).

Definition file_read (frsm_id : Z) : Call W (list Z * bool) :=
  resp ← call (file_read_request frsm_id); lift (file_read_response resp).

Definition file_close (frsm_id : Z) : Call W unit :=
  _ ← call (file_close_request frsm_id); mret ().

Definition file_delete (name : list Z) : Call W unit :=
  _ ← call (file_delete_request name); mret ().

Definition file_directory_page (path after : list Z) : Call W (list FileEntry * bool) :=
  resp ← call (file_directory_request path after); lift (file_directory_response resp).

Definition file_directory (fuel : nat) (path : list Z) : Call W (list FileEntry) :=
  pages (file_directory_page path) fe_name fuel [] [].

Definition read_journal (req : Element) : Call W (list JournalEntry * bool) :=
  resp ← call req; lift (read_journal_response resp).

(** Each page asks after the last entry of the one before. *)
Definition read_journal_all (fuel : nat) (domain item : list Z) (req : Element) (end_ : option Z)
    : Call W (list JournalEntry) :=
  pages read_journal
    (λ l, after_request domain item (default 0 (je_occurrence_time l)) (je_entry_id l) end_) fuel req [].

Definition read_journal_by_time (fuel : nat) (domain item : list Z) (start end_ : Z) : Call W (list JournalEntry) :=
  read_journal_all fuel domain item (by_time_request domain item start end_) (Some end_).

Definition read_journal_after (fuel : nat) (domain item : list Z) (after : Z) (entry_id : list Z)
    : Call W (list JournalEntry) :=
  read_journal_all fuel domain item (after_request domain item after entry_id None) None.
End client.

(** ** Reading known fields *)

Lemma d_expect_field t c cs pre :
  field_ok (t, c) →
  d_expect (dec_at pre (children_octets ((t, c) :: cs))) t = Ok (c, dec_at (pre ++ append_tlv [] t c) (children_octets cs)).
Proof. intros H. unfold d_expect. by rewrite expect_field. Qed.

Lemma d_expect_new t c cs :
  field_ok (t, c) →
  d_expect (Decoder_new (children_octets ((t, c) :: cs))) t = Ok (c, dec_at (append_tlv [] t c) (children_octets cs)).
Proof. rewrite dec_at_nil. apply d_expect_field. Qed.

Lemma d_expect_element e t c :
  writes e (t, c) → field_ok (t, c) → d_expect (Decoder_new (Element_encode e)) t = Ok (c, dec_at (append_tlv [] t c) []).
Proof. intros He Hf. unfold d_expect. by rewrite (expect_element e t c). Qed.

Lemma d_optional_field t c cs pre :
  field_ok (t, c) →
  d_optional (dec_at pre (children_octets ((t, c) :: cs))) t =
  Ok (Some c, dec_at (pre ++ append_tlv [] t c) (children_octets cs)).
Proof. intros H. unfold d_optional. by rewrite optional_field. Qed.

Lemma d_optional_other t t' c cs pre :
  tag_wf t → t ≠ t' →
  d_optional (dec_at pre (children_octets ((t, c) :: cs))) t' = Ok (None, dec_at pre (children_octets ((t, c) :: cs))).
Proof. intros H1 H2. unfold d_optional. by rewrite optional_field_other. Qed.

Lemma d_optional_end t pre :
  d_optional (dec_at pre (children_octets [])) t = Ok (None, dec_at pre (children_octets [])).
Proof. unfold d_optional. by rewrite optional_field_end. Qed.

(** Steps over known fields; sizes are left to [lia]. *)
Ltac fields :=
  repeat first
    [ rewrite d_expect_field by field_ok
    | rewrite d_optional_field by field_ok
    | rewrite d_optional_other by done
    | rewrite d_optional_end
    | rewrite bind_Ok; cbv beta iota zeta ].

Lemma every_reads {A} (read : Decoder → outcome MmsError (A * Decoder)) vs encs :
  Forall2 (reads read) vs encs → every read (concat encs) = Ok vs.
Proof.
  intros H. unfold every. rewrite dec_at_nil. apply decode_children_concat; [done|].
  assert (length vs ≤ length (concat encs))%nat; [|lia]. induction H as [|v enc vs encs [Hne _] _ IH]; [done|].
  simpl. rewrite length_app. destruct enc; [done|]. simpl. lia.
Qed.

Lemma expecting_reads {A} t (f : list Z → outcome MmsError A) c a :
  tag_wf t → zlen c < 2 ^ 32 → f c = Ok a → reads (expecting t f) a (append_tlv [] t c).
Proof.
  intros Ht Hc Hf. split; [rewrite <-(app_nil_r (append_tlv [] t c)); apply append_tlv_ne|]. intros pre suf. unfold expecting, d_expect.
  rewrite expect_at by done. run. by rewrite Hf.
Qed.

(** A list of elements of one tag. *)
Lemma every_expecting {A} t (f : list Z → outcome MmsError A) cs vs :
  tag_wf t → Forall (λ c, zlen c < 2 ^ 32) cs → Forall2 (λ c v, f c = Ok v) cs vs →
  every (expecting t f) (children_octets (map (pair t) cs)) = Ok vs.
Proof.
  intros Ht Hl Hf. unfold children_octets. rewrite map_map. simpl. apply every_reads.
  induction Hf as [|c v cs vs Hc Hf IH]; simpl; [constructor|]. apply Forall_cons in Hl as [Hl Hls].
  constructor; [|by apply IH]. by apply (expecting_reads t f c v).
Qed.

Lemma more_follows_field pre b dflt : more_follows (dec_at pre (children_octets [(context_primitive 1, if (b : bool) then [0xff] else [0x00])])) dflt = Ok b.
Proof. unfold more_follows. rewrite d_optional_field by (destruct b; done). by destruct b. Qed.
