(* ===== verification/ClientConn.v ===== *)
(** The client's end of an association (src/src/mms/conn.rs): the requests that
    wait for an answer, what the reader does with each PDU that arrives, and how the
    association ends.

    A connection is used by several tasks at once and read by one more, so its
    methods are broken where another task can run, and an execution is a sequence of
    these pieces in any order. *)

From stdpp Require Import gmap pretty.
From S2P Require Import Prelude Ber BerDecoder BerPrim Utf8 Errors MmsCodec BerFields InfoReport Tpkt Cotp OsiSession Presentation Acse MmsPdu Association Oneshot.
Local Open Scope string_scope.
Local Open Scope list_scope.
Local Open Scope Z_scope.

Inductive State :=
| Closed
| Connecting
| Connected
| Closing.

#[export] Instance State_eq_dec : EqDecision State.
Proof. solve_decision. Defined.

Definition State_display (s : State) : string :=
  match s with
  | Closed => "closed"
  | Connecting => "connecting"
  | Connected => "connected"
  | Closing => "closing"
  end.

(** [Result<A>]. *)
Definition Res (A : Type) : Type := A + MmsError.

(** [Error::duplicate]. *)
Definition duplicate (e : MmsError) : MmsError :=
  match e with
  | MmsService _ | MmsAccess _ | MmsRejected _ | MmsAborted _ | MmsClosed | MmsTimeout | MmsNotDeleted
  | MmsReportQueueFull | MmsAuthenticationRequired | MmsAssociationRejected _ => e
  | MmsAsn1 _ | MmsOsi _ | MmsIo _ | MmsProtocol _ => MmsProtocol (MmsError_display e)
  end.

(** A call of a handler the application registered. *)
Inductive HandlerCall :=
| RawCall (handler : Z) (content : list Z)
| ReportCall (handler : Z) (rep : InformationReport).

Section conn.
Context {T : Type} {Tr : Transport T}.

(** [Shared], with the handlers by their identifiers and the calls made of them, the
    requests of the server handed to a task, and whether the transport was shut. *)
Record Shared := mkShared {
  sh_pending : Table (Res (list Z));
  sh_cancels : Table (Res unit);
  sh_reports : list Z;
  sh_raw : list Z;
  sh_calls : list HandlerCall;
  sh_served : list (list Z);
  sh_state : State;
  sh_close_err : option MmsError;
  sh_done : bool;
  sh_next_id : Z;
  sh_next_handler : Z;
  sh_writer : Framing (T:=T);
  sh_shut : bool;
}.

(** The [Shared] of a handshake that succeeded. *)
Definition Shared_new (w : Framing) : Shared :=
  mkShared Table_new Table_new [] [] [] [] Connected None false 1 1 w false.

Definition with_pending (s : Shared) (p : Table (Res (list Z))) : Shared :=
  mkShared p (sh_cancels s) (sh_reports s) (sh_raw s) (sh_calls s) (sh_served s) (sh_state s) (sh_close_err s)
    (sh_done s) (sh_next_id s) (sh_next_handler s) (sh_writer s) (sh_shut s).
Definition with_cancels (s : Shared) (c : Table (Res unit)) : Shared :=
  mkShared (sh_pending s) c (sh_reports s) (sh_raw s) (sh_calls s) (sh_served s) (sh_state s) (sh_close_err s)
    (sh_done s) (sh_next_id s) (sh_next_handler s) (sh_writer s) (sh_shut s).
Definition with_life (s : Shared) (st : State) (e : option MmsError) : Shared :=
  mkShared (sh_pending s) (sh_cancels s) (sh_reports s) (sh_raw s) (sh_calls s) (sh_served s) st e
    (sh_done s) (sh_next_id s) (sh_next_handler s) (sh_writer s) (sh_shut s).
Definition with_done (s : Shared) : Shared :=
  mkShared (sh_pending s) (sh_cancels s) (sh_reports s) (sh_raw s) (sh_calls s) (sh_served s) (sh_state s)
    (sh_close_err s) true (sh_next_id s) (sh_next_handler s) (sh_writer s) (sh_shut s).
Definition with_next_id (s : Shared) (n : Z) : Shared :=
  mkShared (sh_pending s) (sh_cancels s) (sh_reports s) (sh_raw s) (sh_calls s) (sh_served s) (sh_state s)
    (sh_close_err s) (sh_done s) n (sh_next_handler s) (sh_writer s) (sh_shut s).
Definition with_writer (s : Shared) (w : Framing) : Shared :=
  mkShared (sh_pending s) (sh_cancels s) (sh_reports s) (sh_raw s) (sh_calls s) (sh_served s) (sh_state s)
    (sh_close_err s) (sh_done s) (sh_next_id s) (sh_next_handler s) w (sh_shut s).
Definition with_shut (s : Shared) : Shared :=
  mkShared (sh_pending s) (sh_cancels s) (sh_reports s) (sh_raw s) (sh_calls s) (sh_served s) (sh_state s)
    (sh_close_err s) (sh_done s) (sh_next_id s) (sh_next_handler s) (sh_writer s) true.
Definition with_handlers (s : Shared) (reports raw : list Z) (next : Z) : Shared :=
  mkShared (sh_pending s) (sh_cancels s) reports raw (sh_calls s) (sh_served s) (sh_state s)
    (sh_close_err s) (sh_done s) (sh_next_id s) next (sh_writer s) (sh_shut s).
Definition with_calls (s : Shared) (calls : list HandlerCall) : Shared :=
  mkShared (sh_pending s) (sh_cancels s) (sh_reports s) (sh_raw s) calls (sh_served s) (sh_state s)
    (sh_close_err s) (sh_done s) (sh_next_id s) (sh_next_handler s) (sh_writer s) (sh_shut s).
Definition with_served (s : Shared) (served : list (list Z)) : Shared :=
  mkShared (sh_pending s) (sh_cancels s) (sh_reports s) (sh_raw s) (sh_calls s) served (sh_state s)
    (sh_close_err s) (sh_done s) (sh_next_id s) (sh_next_handler s) (sh_writer s) (sh_shut s).

(** ** Requests *)

Definition closed_error (s : Shared) : option MmsError :=
  if decide (sh_state s = Connected) then None
  else Some (match sh_close_err s with Some e => duplicate e | None => MmsClosed end).

(** [Shared::start] up to the allocation of the identifier; [AtomicU32] wraps. *)
Definition start_check (s : Shared) : Res Z * Shared :=
  match closed_error s with
  | Some e => (inr e, s)
  | None => (inl (sh_next_id s), with_next_id s (u32 (sh_next_id s + 1)))
  end.

(** The registration of the response slot. *)
Definition start_register (s : Shared) (id : Z) : nat * Shared :=
  let '(ch, p) := insert_sender (sh_pending s) id in (ch, with_pending s p).

(** The transmission of the request. *)
Definition start_send {E} (s : Shared) (id : Z) (service : Element) : outcome E (Res unit * Shared) :=
  match send_mms (sh_writer s) (confirmed_request_pdu id service) with
  | Ok w => Ok (inl (), with_writer s w)
  | Err e => Ok (inr e, with_pending s (take_sender (sh_pending s) id None))
  | Panic => Panic
  | NoFuel => NoFuel
  end.

(** [Outstanding], with its receiver until [wait] takes it. *)
Record Outstanding := mkOutstanding {
  o_id : Z;
  o_rx : option nat;
}.

(** The start of [Outstanding::wait], which takes the receiver. *)
Definition wait_begin (o : Outstanding) : Outstanding := mkOutstanding (o_id o) None.

(** [Drop for Outstanding]. *)
Definition drop_outstanding (s : Shared) (o : Outstanding) : Shared :=
  match o_rx o with
  | Some _ => with_pending s (take_sender (sh_pending s) (o_id o) None)
  | None => s
  end.

(** What [Outstanding::wait] returns once its channel is resolved. *)
Definition wait (s : Shared) (ch : nat) : option (Res (list Z)) :=
  match received (sh_pending s) ch with
  | Some (Some r) => Some r
  | Some None => Some (inr MmsClosed)
  | None => None
  end.

(** [cancel] up to the registration of its slot. *)
Definition cancel_register (s : Shared) (id : Z) : Res nat * Shared :=
  match tb_senders (sh_cancels s) !! id with
  | Some _ => (inr (MmsProtocol ("a cancel of request " +:+ pretty id +:+ " is already outstanding")), s)
  | None => let '(ch, c) := insert_sender (sh_cancels s) id in (inl ch, with_cancels s c)
  end.

Definition cancel_pdu (id : Z) : list Z := Element_encode (uint_elem TAG_CANCEL_REQUEST id).

Definition cancel_send {E} (s : Shared) (id : Z) : outcome E (Res unit * Shared) :=
  match send_mms (sh_writer s) (cancel_pdu id) with
  | Ok w => Ok (inl (), with_writer s w)
  | Err e => Ok (inr e, with_cancels s (take_sender (sh_cancels s) id None))
  | Panic => Panic
  | NoFuel => NoFuel
  end.

Definition cancel_timeout (s : Shared) (id : Z) : Shared := with_cancels s (take_sender (sh_cancels s) id None).

(** ** What arrives *)

Definition deliver (s : Shared) (id : Z) (res : Res (list Z)) : Shared :=
  with_pending s (take_sender (sh_pending s) id (Some res)).

Definition deliver_reject {E} (s : Shared) (content : list Z) : outcome E Shared :=
  r ← parse_reject content;
  Ok (match r with
      | Some (id, se) => deliver s id (inr (MmsService se))
      | None => s
      end).

(** The answer of a cancel: the request it is about and the verdict. *)
Definition parse_cancel_answer {E} (tag : Tag) (content : list Z) : outcome E (option (Z * Res unit)) :=
  if decide (tag = TAG_CANCEL_RESPONSE) then
    n ← ok (decode_uint content);
    Ok (match n with Some n => Some (u32 n, inl ()) | None => None end)
  else
    b ← ok (expect (Decoder_new content) (context_primitive 0));
    match b with
    | None => Ok None
    | Some (b, dec) =>
        n ← unwrap_or (decode_uint b) 0;
        body ← ok (rest dec);
        found ← drill_error_class DRILL_LEVELS (default [] body);
        let se := match found with Some (class, code) => ServiceError_new class code | None => ServiceError_new 0 0 end in
        Ok (Some (u32 n, inr (MmsService se)))
    end.

Definition deliver_cancel {E} (s : Shared) (tag : Tag) (content : list Z) : outcome E Shared :=
  r ← parse_cancel_answer tag content;
  Ok (match r with
      | Some (id, res) => with_cancels s (take_sender (sh_cancels s) id (Some res))
      | None => s
      end).

Definition handle_unconfirmed {E} (s : Shared) (content : list Z) : outcome E Shared :=
  let calls := sh_calls s ++ map (λ h, RawCall h content) (sh_raw s) in
  rep ← ok (InfoReport.handle_unconfirmed content);
  Ok (with_calls s (match rep with
                    | Some (Some rep) => calls ++ map (λ h, ReportCall h rep) (sh_reports s)
                    | _ => calls
                    end)).

Definition dispatch {E} (s : Shared) (pdu : list Z) : outcome E Shared :=
  r ← ok (read_tlv (Decoder_new pdu));
  match r with
  | None => Ok s
  | Some ((tag, content), _) =>
      if decide (tag = TAG_CONFIRMED_RESPONSE ∨ tag = TAG_CONFIRMED_ERROR) then
        r ← ok (split_invoke content);
        match r with
        | None => Ok s
        | Some (id, body) =>
            res ←
              (if decide (tag = TAG_CONFIRMED_RESPONSE) then Ok (inl body)
               else se ← decode_service_error body; Ok (inr (MmsService se)));
            Ok (deliver s id res)
        end
      else if decide (tag = TAG_REJECT_PDU) then deliver_reject s content
      else if decide (tag = TAG_UNCONFIRMED) then handle_unconfirmed s content
      else if decide (tag = TAG_CONCLUDE_RESPONSE ∨ tag = TAG_CONCLUDE_RESPONSE_LEGACY) then Ok s
      else if decide (tag = TAG_CANCEL_RESPONSE ∨ tag = TAG_CANCEL_ERROR) then deliver_cancel s tag content
      else if decide (tag = TAG_CONFIRMED_REQUEST) then Ok (with_served s (sh_served s ++ [content]))
      else Ok s
  end.

(** ** The end *)

(** The first part of [fail_all]: the cause is recorded. *)
Definition fail_life (s : Shared) (err : MmsError) : MmsError * Shared :=
  let close_err := if decide (sh_state s = Connected) then Some err else sh_close_err s in
  (default MmsClosed close_err, with_life s Closed close_err).

Definition fail_all (s : Shared) (err : MmsError) : Shared :=
  let '(err, s) := fail_life s err in
  let s := with_pending s (drain_senders (sh_pending s) (Some (inr (duplicate err)))) in
  let s := with_cancels s (drain_senders (sh_cancels s) (Some (inr (duplicate err)))) in
  with_done s.

(** [Conn::err]. *)
Definition conn_err (s : Shared) : option MmsError :=
  match sh_state s with Connected | Connecting => None | _ => sh_close_err s end.

(** The first part of [abort] and [close]: whether this call ends the association. *)
Definition begin_close (s : Shared) (cause : MmsError) : bool * Shared :=
  if decide (sh_state s = Connected) then (true, with_life s Closing (Some cause)) else (false, s).

Definition close_send {E} (s : Shared) : outcome E Shared :=
  let conclude := Element_encode (prim TAG_CONCLUDE_REQUEST []) in
  w ← ok (send_mms (sh_writer s) conclude);
  Ok (with_shut (with_writer s (default (sh_writer s) w))).

Definition abort_send {E} (s : Shared) : outcome E (Res unit * Shared) :=
  match send_abort (sh_writer s) with
  | Ok w => Ok (inl (), with_shut (with_writer s w))
  | Err e => Ok (inr e, with_shut s)
  | Panic => Panic
  | NoFuel => NoFuel
  end.

(** The last part, once the reader is done. *)
Definition finish_close (s : Shared) : Shared := if sh_done s then with_life s Closed (sh_close_err s) else s.

(** ** Handlers *)

Definition on_information_report (s : Shared) : Z * Shared :=
  let id := sh_next_handler s in (id, with_handlers s (sh_reports s ++ [id]) (sh_raw s) (u64 (id + 1))).

Definition on_raw_unconfirmed (s : Shared) : Z * Shared :=
  let id := sh_next_handler s in (id, with_handlers s (sh_reports s) (sh_raw s ++ [id]) (u64 (id + 1))).

Definition remove_handler (s : Shared) (id : Z) : Shared :=
  with_handlers s (filter (λ i, i ≠ id) (sh_reports s)) (filter (λ i, i ≠ id) (sh_raw s)) (sh_next_handler s).

(** ** Executions *)

(** Where the reader task is: reading, or inside [fail_all] with the cause. *)
Inductive Reader :=
| Reading
| DrainPending (err : MmsError)
| DrainCancels (err : MmsError)
| Signalling
| Stopped.

(** The connection, its reader, and the tasks inside [start]: identifiers taken and
    not yet registered, and registered and not yet sent. [wd_seen] is what the reader
    dispatched so far and [wd_issued] remembers every registration, with how much had
    been dispatched. *)
Record World := mkWorld {
  wd_s : Shared;
  wd_reader : Reader;
  wd_checked : list Z;
  wd_registered : list (Z * nat);
  wd_out : gmap nat Outstanding;
  wd_seen : list (list Z);
  wd_issued : gmap nat (Z * nat);
}.

Definition World_new (w : Framing) : World := mkWorld (Shared_new w) Reading [] [] ∅ [] ∅.

Definition with_s (w : World) (s : Shared) : World :=
  mkWorld s (wd_reader w) (wd_checked w) (wd_registered w) (wd_out w) (wd_seen w) (wd_issued w).

(** The pieces that run. *)
Inductive Op :=
| OCheck
| ORegister (id : Z)
| OSend (id : Z) (ch : nat) (service : Element)
| OWait (ch : nat)
| ODrop (ch : nat)
| ORead (pdu : list Z)
| OReadErr (err : MmsError)
| OFail
| OCancelRegister (id : Z)
| OCancelSend (id : Z)
| OCancelTimeout (id : Z)
| OBeginClose
| OCloseSend
| OBeginAbort
| OAbortSend
| OFinishClose
| OOnReport
| OOnRaw
| ORemoveHandler (id : Z).

Definition reader_step (w : World) (s : Shared) (r : Reader) (seen : list (list Z)) : World :=
  mkWorld s r (wd_checked w) (wd_registered w) (wd_out w) seen (wd_issued w).

(** One piece; a piece that cannot run now changes nothing. *)
Definition exec (w : World) (op : Op) : outcome Empty_set World :=
  let s := wd_s w in
  match op with
  | OCheck =>
      let '(r, s) := start_check s in
      Ok (mkWorld s (wd_reader w) (match r with inl id => id :: wd_checked w | inr _ => wd_checked w end)
            (wd_registered w) (wd_out w) (wd_seen w) (wd_issued w))
  | ORegister id =>
      if decide (id ∈ wd_checked w) then
        let '(ch, s) := start_register s id in
        Ok (mkWorld s (wd_reader w) (filter (λ i, i ≠ id) (wd_checked w)) ((id, ch) :: wd_registered w) (wd_out w)
              (wd_seen w) (<[ch := (id, length (wd_seen w))]> (wd_issued w)))
      else Ok w
  | OSend id ch service =>
      if decide ((id, ch) ∈ wd_registered w) then
        '(r, s) ← start_send s id service;
        let out := match r with
                   | inl _ => <[ch := mkOutstanding id (Some ch)]> (wd_out w)
                   | inr _ => wd_out w
                   end in
        Ok (mkWorld s (wd_reader w) (wd_checked w) (filter (λ p, p ≠ (id, ch)) (wd_registered w)) out (wd_seen w)
              (wd_issued w))
      else Ok w
  | OWait ch =>
      Ok (mkWorld s (wd_reader w) (wd_checked w) (wd_registered w) (alter wait_begin ch (wd_out w)) (wd_seen w)
            (wd_issued w))
  | ODrop ch =>
      match wd_out w !! ch with
      | Some o =>
          Ok (mkWorld (drop_outstanding s o) (wd_reader w) (wd_checked w) (wd_registered w) (delete ch (wd_out w))
                (wd_seen w) (wd_issued w))
      | None => Ok w
      end
  | ORead pdu =>
      match wd_reader w with
      | Reading => s ← dispatch s pdu; Ok (reader_step w s Reading (wd_seen w ++ [pdu]))
      | _ => Ok w
      end
  | OReadErr err =>
      match wd_reader w with
      | Reading => let '(err, s) := fail_life s err in Ok (reader_step w s (DrainPending err) (wd_seen w))
      | _ => Ok w
      end
  | OFail =>
      match wd_reader w with
      | DrainPending err =>
          let s := with_pending s (drain_senders (sh_pending s) (Some (inr (duplicate err)))) in
          Ok (reader_step w s (DrainCancels err) (wd_seen w))
      | DrainCancels err =>
          let s := with_cancels s (drain_senders (sh_cancels s) (Some (inr (duplicate err)))) in
          Ok (reader_step w s Signalling (wd_seen w))
      | Signalling => Ok (reader_step w (with_done s) Stopped (wd_seen w))
      | _ => Ok w
      end
  | OCancelRegister id =>
      Ok (with_s w (match closed_error s with Some _ => s | None => (cancel_register s id).2 end))
  | OCancelSend id => '(_, s) ← cancel_send s id; Ok (with_s w s)
  | OCancelTimeout id => Ok (with_s w (cancel_timeout s id))
  | OBeginClose => Ok (with_s w (begin_close s MmsClosed).2)
  | OCloseSend => s ← close_send s; Ok (with_s w s)
  | OBeginAbort => Ok (with_s w (begin_close s (MmsAborted " by this end")).2)
  | OAbortSend => '(_, s) ← abort_send s; Ok (with_s w s)
  | OFinishClose => Ok (with_s w (finish_close s))
  | OOnReport => Ok (with_s w (on_information_report s).2)
  | OOnRaw => Ok (with_s w (on_raw_unconfirmed s).2)
  | ORemoveHandler id => Ok (with_s w (remove_handler s id))
  end.

Definition execute (w : World) (ops : list Op) : outcome Empty_set World := for_each ops exec w.

(** [fail_all] is its pieces. *)
Lemma fail_all_pieces w err :
  wd_reader w = Reading →
  execute w [OReadErr err; OFail; OFail; OFail] = Ok (reader_step w (fail_all (wd_s w) err) Stopped (wd_seen w)).
Proof. intros H. unfold execute. cbn [for_each exec]. rewrite H. done. Qed.

(** ** Answers *)

(** The request a PDU answers, and how. *)
Definition answer_of {E} (pdu : list Z) : outcome E (option (Z * Res (list Z))) :=
  r ← ok (read_tlv (Decoder_new pdu));
  match r with
  | None => Ok None
  | Some ((tag, content), _) =>
      if decide (tag = TAG_CONFIRMED_RESPONSE ∨ tag = TAG_CONFIRMED_ERROR) then
        r ← ok (split_invoke content);
        match r with
        | None => Ok None
        | Some (id, body) =>
            res ←
              (if decide (tag = TAG_CONFIRMED_RESPONSE) then Ok (inl body)
               else se ← decode_service_error body; Ok (inr (MmsService se)));
            Ok (Some (id, res))
        end
      else if decide (tag = TAG_REJECT_PDU) then
        r ← parse_reject content;
        Ok (match r with Some (id, se) => Some (id, inr (MmsService se)) | None => None end)
      else Ok None
  end.

Definition same_life (s s' : Shared) : Prop :=
  sh_state s' = sh_state s ∧ sh_close_err s' = sh_close_err s ∧ sh_done s' = sh_done s.

(** A PDU resolves the request it answers and no other. *)
Lemma dispatch_answer {E} s s' pdu :
  dispatch (E:=E) s pdu = Ok s' →
  ∃ a, answer_of (E:=E) pdu = Ok a ∧ same_life s s' ∧
    sh_pending s' = match a with Some (id, r) => take_sender (sh_pending s) id (Some r) | None => sh_pending s end ∧
    (table_wf (sh_cancels s) → table_wf (sh_cancels s')).
Proof.
  unfold dispatch, answer_of. destruct (ok (read_tlv (Decoder_new pdu))) as [[[[tag content] d]|]|?| |]; try done;
    rewrite ?bind_Ok; [|intros [= <-]; by exists None].
  case_decide.
  - destruct (ok (split_invoke content)) as [[[id body]|]|?| |]; try done; rewrite ?bind_Ok; [|intros [= <-]; by exists None].
    case_decide.
    + rewrite !bind_Ok. intros [= <-]. by eexists.
    + destruct (decode_service_error body) as [se|?| |]; try done. rewrite !bind_Ok. intros [= <-]. by eexists.
  - case_decide.
    + unfold deliver_reject. destruct (parse_reject content) as [[[id se]|]|?| |]; try done; rewrite !bind_Ok; intros [= <-]; by eexists.
    + intros Hd. exists None. split; [done|]. repeat case_decide.
      * unfold handle_unconfirmed in Hd. apply bind_Ok_inv in Hd as (x & _ & [= <-]). done.
      * by simplify_eq.
      * unfold deliver_cancel in Hd. apply bind_Ok_inv in Hd as ([[id res]|] & _ & [= <-]); [|done].
        split_and!; try done. apply take_sender_wf.
      * by simplify_eq.
      * by simplify_eq.
Qed.

(** [pdu] is an answer to request [id]. *)
Definition answers (pdu : list Z) (id : Z) (r : Res (list Z)) : Prop := answer_of (E:=Empty_set) pdu = Ok (Some (id, r)).

(** None of the PDUs dispatched from the [n]th on answers [id]. *)
Definition unanswered (seen : list (list Z)) (n : nat) (id : Z) : Prop :=
  ∀ k pdu r, (n ≤ k)%nat → seen !! k = Some pdu → ¬ answers pdu id r.

(** The [k]th PDU dispatched is the first from the [n]th on that answers [id]. *)
Definition first_answer (seen : list (list Z)) (n : nat) (id : Z) (r : Res (list Z)) : Prop :=
  ∃ k pdu, (n ≤ k)%nat ∧ seen !! k = Some pdu ∧ answers pdu id r ∧ unanswered (take k seen) n id.

(** Where the reader is and the life of the association. *)
Definition life_ok (w : World) : Prop :=
  let s := wd_s w in
  match wd_reader w with
  | Reading =>
      (sh_state s = Connected ∧ sh_close_err s = None ∨ sh_state s = Closing ∧ is_Some (sh_close_err s)) ∧
      sh_done s = false
  | DrainPending e | DrainCancels e => sh_state s = Closed ∧ sh_close_err s = Some e ∧ sh_done s = false
  | Signalling => sh_state s = Closed ∧ is_Some (sh_close_err s) ∧ sh_done s = false
  | Stopped => sh_state s = Closed ∧ is_Some (sh_close_err s) ∧ sh_done s = true
  end.

Record Inv (w : World) : Prop := mkInv {
  iv_pending : table_wf (sh_pending (wd_s w));
  iv_cancels : table_wf (sh_cancels (wd_s w));
  iv_issued ch x : wd_issued w !! ch = Some x → (ch < tb_next (sh_pending (wd_s w)) ∧ x.2 ≤ length (wd_seen w))%nat;
  iv_waiting id ch : tb_senders (sh_pending (wd_s w)) !! id = Some ch →
    ∃ n, wd_issued w !! ch = Some (id, n) ∧ unanswered (wd_seen w) n id;
  iv_results ch r : received (sh_pending (wd_s w)) ch = Some (Some r) →
    ∃ id n, wd_issued w !! ch = Some (id, n) ∧
      (first_answer (wd_seen w) n id r ∨
       ∃ e, sh_close_err (wd_s w) = Some e ∧ sh_state (wd_s w) = Closed ∧ r = inr (duplicate e));
  iv_accounted ch id n : wd_issued w !! ch = Some (id, n) →
    is_Some (received (sh_pending (wd_s w)) ch) ∨ tb_senders (sh_pending (wd_s w)) !! id = Some ch;
  iv_life : life_ok w;
}.

Lemma World_new_Inv f : Inv (World_new f).
Proof.
  split; try apply Table_new_wf; unfold received; simpl; intros *; rewrite ?lookup_empty; try done.
  split; [by left|done].
Qed.

Lemma unanswered_snoc seen n id pdu :
  unanswered seen n id → (∀ r, ¬ answers pdu id r) → unanswered (seen ++ [pdu]) n id.
Proof.
  intros H Hp k p r Hk Hl. apply lookup_app_Some in Hl as [Hl|[Hge Hl]]; [by eapply H|].
  apply list_lookup_singleton_Some in Hl as [_ <-]. apply Hp.
Qed.

Lemma unanswered_new seen id : unanswered seen (length seen) id.
Proof. intros k pdu r Hk Hl. apply lookup_lt_Some in Hl. lia. Qed.

Lemma first_answer_snoc seen n id r pdu : first_answer seen n id r → first_answer (seen ++ [pdu]) n id r.
Proof.
  intros (k & p & Hk & Hl & Ha & Hu). exists k, p. pose proof (lookup_lt_Some _ _ _ Hl). split_and!; [done| |done|].
  - by rewrite lookup_app_l.
  - by rewrite take_app_le by lia.
Qed.

(** A step that touches neither the requests nor the life. *)
Lemma Inv_quiet w w' :
  Inv w → sh_pending (wd_s w') = sh_pending (wd_s w) → table_wf (sh_cancels (wd_s w')) →
  wd_issued w' = wd_issued w → wd_seen w' = wd_seen w → same_life (wd_s w) (wd_s w') →
  wd_reader w' = wd_reader w → Inv w'.
Proof.
  intros [H1 H2 H3 H4 H5 HA H6] Hp Hc Hi Hs (L1 & L2 & L3) Hr. split; rewrite ?Hp, ?Hi, ?Hs, ?L1, ?L2, ?L3 in *; try done.
  unfold life_ok in *. rewrite ?L1, ?L2, ?L3, ?Hr. done.
Qed.

(** A request's sender dropped without a value. *)
Lemma Inv_dropped w w' id :
  Inv w → sh_pending (wd_s w') = take_sender (sh_pending (wd_s w)) id None → sh_cancels (wd_s w') = sh_cancels (wd_s w) →
  wd_issued w' = wd_issued w → wd_seen w' = wd_seen w → same_life (wd_s w) (wd_s w') →
  wd_reader w' = wd_reader w → Inv w'.
Proof.
  intros [H1 H2 H3 H4 H5 HA H6] Hp Hc Hi Hs (L1 & L2 & L3) Hr.
  split; rewrite ?Hp, ?Hc, ?Hi, ?Hs, ?L1, ?L2, ?L3 in *; try done.
  - by apply take_sender_wf.
  - intros ch x. unfold take_sender. destruct (tb_senders _ !! id); apply H3.
  - intros id' ch. unfold take_sender. destruct (tb_senders _ !! id); [|apply H4]. simpl.
    rewrite lookup_delete_Some. intros [_ H]. by apply H4.
  - intros ch r [H|[? _]]%take_new; [by apply H5|done].
  - intros ch i n Hi'. by apply take_accounted, (HA _ _ _ Hi').
  - unfold life_ok in *. rewrite ?L1, ?L2, ?L3, ?Hr. done.
Qed.

Lemma Inv_register w id :
  Inv w → Inv (mkWorld (start_register (wd_s w) id).2 (wd_reader w) (filter (λ i, i ≠ id) (wd_checked w))
    ((id, (start_register (wd_s w) id).1) :: wd_registered w) (wd_out w) (wd_seen w)
    (<[(start_register (wd_s w) id).1 := (id, length (wd_seen w))]> (wd_issued w))).
Proof.
  intros [H1 H2 H3 H4 H5 HA H6]. unfold start_register. simpl.
  assert (wd_issued w !! tb_next (sh_pending (wd_s w)) = None) as Hfresh.
  { destruct (wd_issued w !! _) eqn:E; [|done]. apply H3 in E. lia. }
  split; simpl.
  - by apply (insert_sender_wf _ id).
  - done.
  - intros ch x. rewrite lookup_insert_Some. intros [[<- <-]|[_ H]]; [simpl; lia|]. apply H3 in H. lia.
  - intros i ch. rewrite lookup_insert_Some. intros [[<- <-]|[_ H]].
    + eexists. rewrite lookup_insert_eq. split; [done|]. apply unanswered_new.
    + destruct (H4 _ _ H) as (n & Hn & Hu). exists n. split; [|done]. rewrite lookup_insert_ne; [done|]. congruence.
  - intros ch r H. change (received (insert_sender (sh_pending (wd_s w)) id).2 ch = Some (Some r)) in H.
    apply insert_new in H as [H|?]; [|done]. destruct (H5 _ _ H) as (i & n & Hi & Ha). exists i, n. split; [|done].
    rewrite lookup_insert_ne; [done|]. congruence.
  - intros ch i n. rewrite lookup_insert_Some. intros [[<- [= <- <-]]|[_ Hi]]; [right; apply lookup_insert_eq|].
    by apply (insert_accounted _ id), (HA _ _ _ Hi).
  - exact H6.
Qed.

Lemma Inv_read w s' pdu :
  Inv w → dispatch (E:=Empty_set) (wd_s w) pdu = Ok s' → wd_reader w = Reading →
  Inv (reader_step w s' Reading (wd_seen w ++ [pdu])).
Proof.
  intros [H1 H2 H3 H4 H5 HA H6] Hd Hr. destruct (dispatch_answer _ _ _ Hd) as (a & Ha & (L1 & L2 & L3) & Hp & Hc).
  assert (life_ok (reader_step w s' Reading (wd_seen w ++ [pdu]))) as Hlife.
  { unfold life_ok in *. simpl. rewrite Hr in H6. by rewrite L1, L2, L3. }
  assert (∀ id r, answers pdu id r → a = Some (id, r)) as Hfun.
  { intros id r H. unfold answers in H. rewrite Ha in H. by simplify_eq. }
  assert (∀ ch r, received (sh_pending (wd_s w)) ch = Some (Some r) → ∃ id n, wd_issued w !! ch = Some (id, n) ∧
      (first_answer (wd_seen w ++ [pdu]) n id r ∨
       ∃ e, sh_close_err s' = Some e ∧ sh_state s' = Closed ∧ r = inr (duplicate e))) as Hold.
  { intros ch r H. destruct (H5 _ _ H) as (i & n & Hi & [Hf|He]); exists i, n; (split; [done|]); [left|right].
    - by apply first_answer_snoc.
    - by rewrite L1, L2. }
  destruct a as [[id r]|].
  - split; simpl; rewrite ?Hp.
    + by apply take_sender_wf.
    + auto.
    + intros ch x H%H3. rewrite length_app. unfold take_sender. destruct (tb_senders _ !! id); simpl; lia.
    + intros i ch. unfold take_sender. destruct (tb_senders (sh_pending (wd_s w)) !! id) as [c|] eqn:E; simpl.
      * rewrite lookup_delete_Some. intros [Hne H]. destruct (H4 _ _ H) as (n & Hn & Hu). exists n. split; [done|].
        apply unanswered_snoc; [done|]. intros r' H'%Hfun. by simplify_eq.
      * intros H. destruct (H4 _ _ H) as (n & Hn & Hu). exists n. split; [done|]. apply unanswered_snoc; [done|].
        intros r' H'%Hfun. by simplify_eq.
    + intros ch r' [H|[[= ->] H]]%take_new; [by apply Hold|]. destruct (H4 _ _ H) as (n & Hn & Hu). exists id, n.
      split; [done|]. left. exists (length (wd_seen w)), pdu. split_and!.
      * by apply H3 in Hn as [_ ?].
      * by rewrite lookup_app_r, Nat.sub_diag by lia.
      * unfold answers. by rewrite Ha.
      * by rewrite take_app_length.
    + intros ch i n Hi. by apply take_accounted, (HA _ _ _ Hi).
    + done.
  - split; simpl; rewrite ?Hp; auto.
    { intros ch x H%H3. rewrite length_app. lia. }
    intros i ch H. destruct (H4 _ _ H) as (n & Hn & Hu). exists n. split; [done|].
    apply unanswered_snoc; [done|]. by intros r' H'%Hfun.
Qed.
Lemma Inv_drain w err :
  Inv w → wd_reader w = DrainPending err →
  Inv (reader_step w (with_pending (wd_s w) (drain_senders (sh_pending (wd_s w)) (Some (inr (duplicate err)))))
    (DrainCancels err) (wd_seen w)).
Proof.
  intros [H1 H2 H3 H4 H5 HA H6] Hr. unfold life_ok in H6. rewrite Hr in H6. destruct H6 as (L1 & L2 & L3).
  split; simpl; try done.
  - by apply drain_wf.
  - intros ch r [H|[[= ->] (id & Hid)]]%drain_new; [by apply H5|]. destruct (H4 _ _ Hid) as (n & Hn & _).
    exists id, n. split; [done|]. right. eauto.
  - intros ch i n Hi. left. destruct (HA _ _ _ Hi) as [[r Hr']|Hs]; [eexists; by apply drain_keeps|].
    rewrite (proj1 (drain_spec _ _ _)); eauto.
Qed.

Lemma Inv_read_err w err :
  Inv w → wd_reader w = Reading →
  Inv (reader_step w (fail_life (wd_s w) err).2 (DrainPending (fail_life (wd_s w) err).1) (wd_seen w)).
Proof.
  intros [H1 H2 H3 H4 H5 HA H6] Hr. unfold life_ok in H6. rewrite Hr in H6. destruct H6 as [Hl Hd].
  split; simpl; try done.
  - intros ch r H. destruct (H5 _ _ H) as (i & n & Hi & [Hf|(e & _ & Hc & _)]); [eauto|].
    destruct Hl as [[? _]|[? _]]; congruence.
  - unfold life_ok. simpl. split_and!; [done| |done]. destruct Hl as [[-> ->]|[-> [e ->]]]; reflexivity.
Qed.

Lemma take_cancel_wf w id x : Inv w → table_wf (take_sender (sh_cancels (wd_s w)) id x).
Proof. intros H. apply take_sender_wf, H. Qed.

Lemma begin_close_Inv w cause : Inv w → Inv (with_s w (begin_close (wd_s w) cause).2).
Proof.
  intros Hw. unfold begin_close. destruct (decide (sh_state (wd_s w) = Connected)) as [Hc|]; [|by destruct w].
  destruct Hw as [H1 H2 H3 H4 H5 HA H6]. simpl. unfold life_ok in H6.
  destruct (wd_reader w) eqn:Hr; [|destruct H6 as [? _]; congruence..].
  split; simpl; try done.
  - intros ch r H. destruct (H5 _ _ H) as (i & n & Hi & [Hf|(e & _ & Hc' & _)]); [eauto|]. congruence.
  - unfold life_ok. simpl. rewrite Hr. split; [|apply H6]. right. eauto.
Qed.

Lemma finish_close_Inv w : Inv w → Inv (with_s w (finish_close (wd_s w))).
Proof.
  intros Hw. unfold finish_close. destruct (sh_done (wd_s w)) eqn:Hd; [|by destruct w].
  destruct Hw as [H1 H2 H3 H4 H5 HA H6]. unfold life_ok in H6.
  destruct (wd_reader w) eqn:Hr; [destruct H6; congruence| | | |]; destruct H6 as (L1 & L2 & L3); try congruence.
  split; simpl; try done.
  - intros ch r H. destruct (H5 _ _ H) as (i & n & Hi & [Hf|(e & He & _ & ->)]); eauto 10.
  - unfold life_ok. simpl. by rewrite Hr.
Qed.

Lemma exec_Inv w op w' : Inv w → exec w op = Ok w' → Inv w'.
Proof.
  intros Hw. pose proof (iv_cancels _ Hw) as Hc. destruct op; cbn [exec].
  - unfold start_check. destruct (closed_error _); intros [= <-]; by eapply Inv_quiet.
  - case_decide; [|by intros [= <-]]. intros [= <-]. by apply Inv_register.
  - case_decide; [|by intros [= <-]]. unfold start_send.
    destruct (send_mms _ _); [| |done..]; intros [= <-]; [by eapply Inv_quiet|by eapply Inv_dropped].
  - intros [= <-]. by eapply Inv_quiet.
  - destruct (wd_out w !! ch) as [o|]; [|by intros [= <-]]. intros [= <-]. unfold drop_outstanding.
    destruct (o_rx o); [by eapply Inv_dropped|by eapply Inv_quiet].
  - destruct (wd_reader w) eqn:Hr; [|by intros [= <-]..]. intros (s & Hs & [= <-])%bind_Ok_inv. by apply Inv_read.
  - destruct (wd_reader w) eqn:Hr; [|by intros [= <-]..]. intros [= <-]. by apply Inv_read_err.
  - destruct (wd_reader w) eqn:Hr; intros [= <-]; [done|by apply Inv_drain| | |done].
    + destruct Hw as [H1 H2 H3 H4 H5 HA H6]. unfold life_ok in H6. rewrite Hr in H6. destruct H6 as (L1 & L2 & L3).
      split; simpl; try done; by apply drain_wf || (unfold life_ok; simpl; rewrite L2; eauto).
    + destruct Hw as [H1 H2 H3 H4 H5 HA H6]. unfold life_ok in H6. rewrite Hr in H6. destruct H6 as (L1 & L2 & L3).
      split; simpl; done.
  - destruct (closed_error _); intros [= <-]; [by eapply Inv_quiet|]. unfold cancel_register.
    destruct (tb_senders _ !! id); [by eapply Inv_quiet|]. eapply Inv_quiet; try done. simpl. by apply (insert_sender_wf _ id).
  - unfold cancel_send. destruct (send_mms _ _); [| |done..]; intros [= <-]; eapply Inv_quiet; try done.
    by apply take_cancel_wf.
  - intros [= <-]. eapply Inv_quiet; try done. by apply take_cancel_wf.
  - intros [= <-]. by apply begin_close_Inv.
  - unfold close_send. intros (s & (x & _ & [= <-])%bind_Ok_inv & [= <-])%bind_Ok_inv. by eapply Inv_quiet.
  - intros [= <-]. by apply begin_close_Inv.
  - unfold abort_send. destruct (send_abort _); [| |done..]; intros [= <-]; by eapply Inv_quiet.
  - intros [= <-]. by apply finish_close_Inv.
  - intros [= <-]. by eapply Inv_quiet.
  - intros [= <-]. by eapply Inv_quiet.
  - intros [= <-]. by eapply Inv_quiet.
Qed.

Lemma execute_Inv ops : ∀ w w', Inv w → execute w ops = Ok w' → Inv w'.
Proof.
  induction ops as [|op ops IH]; intros w w' Hw; [by intros [= <-]|]. unfold execute. cbn [for_each].
  intros (w1 & H1 & H2)%bind_Ok_inv. eapply IH; [by eapply exec_Inv|exact H2].
Qed.

(** ** What a request gets *)

Lemma exec_keeps w op w' ch r :
  Inv w → exec w op = Ok w' → received (sh_pending (wd_s w)) ch = Some r → received (sh_pending (wd_s w')) ch = Some r.
Proof.
  intros Hw He Hr. pose proof (iv_pending _ Hw) as Hp. revert He. destruct op; cbn [exec].
  - unfold start_check. by destruct (closed_error _); intros [= <-].
  - case_decide; [|by intros [= <-]]. intros [= <-]. by apply (insert_keeps _ id).
  - case_decide; [|by intros [= <-]]. unfold start_send.
    destruct (send_mms _ _); [| |done..]; intros [= <-]; [done|]. by apply take_keeps.
  - by intros [= <-].
  - destruct (wd_out w !! _) as [o|]; [|by intros [= <-]]. intros [= <-]. unfold drop_outstanding.
    destruct (o_rx o); [by apply take_keeps|done].
  - destruct (wd_reader w); [|by intros [= <-]..]. intros (s & Hs & [= <-])%bind_Ok_inv.
    destruct (dispatch_answer _ _ _ Hs) as (a & _ & _ & Hpend & _). simpl. rewrite Hpend.
    destruct a as [[id x]|]; [by apply take_keeps|done].
  - destruct (wd_reader w); by intros [= <-].
  - destruct (wd_reader w); intros [= <-]; try done. by apply drain_keeps.
  - destruct (closed_error _); intros [= <-]; [done|]. unfold cancel_register. by destruct (tb_senders _ !! id).
  - unfold cancel_send. destruct (send_mms _ _); [| |done..]; by intros [= <-].
  - by intros [= <-].
  - intros [= <-]. unfold begin_close. by case_decide.
  - unfold close_send. by intros (s & (x & _ & [= <-])%bind_Ok_inv & [= <-])%bind_Ok_inv.
  - intros [= <-]. unfold begin_close. by case_decide.
  - unfold abort_send. destruct (send_abort _); [| |done..]; by intros [= <-].
  - intros [= <-]. unfold finish_close. by destruct (sh_done _).
  - by intros [= <-].
  - by intros [= <-].
  - by intros [= <-].
Qed.

Lemma execute_keeps ops : ∀ w w' ch r,
  Inv w → execute w ops = Ok w' → received (sh_pending (wd_s w)) ch = Some r → received (sh_pending (wd_s w')) ch = Some r.
Proof.
  induction ops as [|op ops IH]; intros w w' ch r Hw; [by intros [= <-]|]. unfold execute. cbn [for_each].
  intros (w1 & H1 & H2)%bind_Ok_inv Hr. eapply IH; [by eapply exec_Inv|exact H2|by eapply exec_keeps].
Qed.


(** ** How an association ends *)

Lemma exec_life w op w' e :
  Inv w → exec w op = Ok w' → sh_close_err (wd_s w) = Some e →
  sh_close_err (wd_s w') = Some e ∧ (sh_state (wd_s w) = Closed → sh_state (wd_s w') = Closed).
Proof.
  intros Hw He Hc. pose proof (iv_life _ Hw) as Hl. unfold life_ok in Hl.
  assert (sh_state (wd_s w) ≠ Connected) as Hnc.
  { destruct (wd_reader w); [destruct Hl as [[[_ ?]|[? _]] _]|destruct Hl as [? _]..]; congruence. }
  revert He. destruct op; cbn [exec].
  - unfold start_check. by destruct (closed_error _); intros [= <-].
  - case_decide; by intros [= <-].
  - case_decide; [|by intros [= <-]]. unfold start_send. destruct (send_mms _ _); [| |done..]; by intros [= <-].
  - by intros [= <-].
  - destruct (wd_out w !! _) as [o|]; [|by intros [= <-]]. intros [= <-]. unfold drop_outstanding. by destruct (o_rx o).
  - destruct (wd_reader w); [|by intros [= <-]..]. intros (s & Hs & [= <-])%bind_Ok_inv.
    destruct (dispatch_answer _ _ _ Hs) as (a & _ & (L1 & L2 & _) & _). simpl. by rewrite L1, L2.
  - destruct (wd_reader w); intros [= <-]; try done. simpl. by rewrite decide_False.
  - destruct (wd_reader w); by intros [= <-].
  - destruct (closed_error _); intros [= <-]; [done|]. unfold cancel_register. by destruct (tb_senders _ !! id).
  - unfold cancel_send. destruct (send_mms _ _); [| |done..]; by intros [= <-].
  - by intros [= <-].
  - intros [= <-]. unfold begin_close. by rewrite decide_False.
  - unfold close_send. by intros (s & (x & _ & [= <-])%bind_Ok_inv & [= <-])%bind_Ok_inv.
  - intros [= <-]. unfold begin_close. by rewrite decide_False.
  - unfold abort_send. destruct (send_abort _); [| |done..]; by intros [= <-].
  - intros [= <-]. unfold finish_close. by destruct (sh_done _).
  - by intros [= <-].
  - by intros [= <-].
  - by intros [= <-].
Qed.

Lemma execute_life ops : ∀ w w' e,
  Inv w → execute w ops = Ok w' → sh_close_err (wd_s w) = Some e →
  sh_close_err (wd_s w') = Some e ∧ (sh_state (wd_s w) = Closed → sh_state (wd_s w') = Closed).
Proof.
  induction ops as [|op ops IH]; intros w w' e Hw; [by intros [= <-]|]. unfold execute. cbn [for_each].
  intros (w1 & H1 & H2)%bind_Ok_inv Hc. destruct (exec_life _ _ _ _ Hw H1 Hc) as [Hc1 Hs1].
  destruct (IH w1 w' e (exec_Inv _ _ _ Hw H1) H2 Hc1) as [Hc2 Hs2]. auto.
Qed.

Lemma life_cases w :
  Inv w → (sh_state (wd_s w) = Connected ∧ sh_close_err (wd_s w) = None ∧ sh_done (wd_s w) = false) ∨
  ((sh_state (wd_s w) = Closing ∧ sh_done (wd_s w) = false ∨ sh_state (wd_s w) = Closed) ∧ is_Some (sh_close_err (wd_s w))).
Proof.
  intros [_ _ _ _ _ _ H]. unfold life_ok in H.
  destruct (wd_reader w); [destruct H as [[[? ?]|[? ?]] ?]|destruct H as (? & H & ?)..]; rewrite ?H; eauto 6.
Qed.

(** C24: An association ends once, with its first cause. As long as it is up,
    requests are let through and no error is reported. Once [close], [abort] or the
    reader ended it, the cause is reported and every new request fails with it,
    whatever happens later; it stays closed once closed, and when [closed] wakes it
    is. The reader's drain resolves every request registered until then. *)
Theorem ends_once (f : Framing) (ops ops' : list Op) (w w' : World) :
  execute (World_new f) ops = Ok w → execute w ops' = Ok w' →
  (sh_state (wd_s w) = Connected ∧ closed_error (wd_s w) = None ∧ conn_err (wd_s w) = None ∧ sh_done (wd_s w) = false ∨
   ∃ e, closed_error (wd_s w) = Some (duplicate e) ∧ conn_err (wd_s w) = Some e ∧
     closed_error (wd_s w') = Some (duplicate e) ∧ conn_err (wd_s w') = Some e ∧
     (sh_done (wd_s w) = true → sh_state (wd_s w) = Closed) ∧
     (sh_state (wd_s w) = Closed → sh_state (wd_s w') = Closed)) ∧
  (∀ err w1, wd_reader w = DrainPending err → exec w OFail = Ok w1 →
     ∀ ch x, wd_issued w1 !! ch = Some x → is_Some (wait (wd_s w1) ch)).
Proof.
  intros Hw Hw'. pose proof (execute_Inv _ _ _ (World_new_Inv f) Hw) as Hinv.
  pose proof (execute_Inv _ _ _ Hinv Hw') as Hinv'. split.
  - destruct (life_cases _ Hinv) as [(H1 & H2 & H3)|[Hst [e He]]].
    { left. unfold closed_error, conn_err. by rewrite H1. }
    right. exists e. destruct (execute_life _ _ _ _ Hinv Hw' He) as [He' Hs].
    assert (∀ v, Inv v → sh_close_err (wd_s v) = Some e →
      closed_error (wd_s v) = Some (duplicate e) ∧ conn_err (wd_s v) = Some e) as Herr.
    { intros v Hv Hc. unfold closed_error, conn_err. destruct (life_cases _ Hv) as [(? & ? & _)|[[[-> _]| ->] _]].
      - congruence.
      - by rewrite Hc.
      - by rewrite Hc. }
    destruct (Herr w Hinv He), (Herr w' Hinv' He'). split_and!; try done.
    intros Hd. destruct Hst as [[_ ?]|?]; congruence.
  - intros err w1 Hr He ch [id n] Hi. cbn [exec] in He. rewrite Hr in He. injection He as <-.
    pose proof (Inv_drain _ _ Hinv Hr) as Hd. destruct (iv_accounted _ Hd _ _ _ Hi) as [[r Hres]|Hs].
    + unfold wait. rewrite Hres. destruct r; eauto.
    + simpl in Hs. by rewrite lookup_empty in Hs.
Qed.

(** ** A request started while the association ends *)

(** Nothing is left that would resolve channel 0. *)
Record Stuck (w : World) : Prop := mkStuck {
  sk_reader : wd_reader w = Stopped;
  sk_state : sh_state (wd_s w) = Closed;
  sk_checked : wd_checked w = [];
  sk_registered : wd_registered w = [];
  sk_out ch o : wd_out w !! ch = Some o → o_rx o = None;
  sk_waiting : received (sh_pending (wd_s w)) 0 = None;
}.

Lemma exec_Stuck w op w' : Stuck w → exec w op = Ok w' → Stuck w'.
Proof.
  intros [H1 H2 H3 H4 H5 H6]. destruct op; cbn [exec]; rewrite ?H1.
  - unfold start_check, closed_error. rewrite decide_False by congruence. by intros [= <-].
  - rewrite decide_False by (rewrite H3; apply not_elem_of_nil). by intros [= <-].
  - rewrite decide_False by (rewrite H4; apply not_elem_of_nil). by intros [= <-].
  - intros [= <-]. split; simpl; try done. intros c o. rewrite lookup_alter_Some.
    intros [(_ & y & _ & ->)|[_ H]]; [done|by eapply H5].
  - destruct (wd_out w !! ch) as [o|] eqn:E; [|by intros [= <-]]. intros [= <-]. unfold drop_outstanding.
    rewrite (H5 _ _ E). split; simpl; try done. intros c x. rewrite lookup_delete_Some. intros [_ H]. by eapply H5.
  - by intros [= <-].
  - by intros [= <-].
  - by intros [= <-].
  - unfold closed_error. rewrite decide_False by congruence. by intros [= <-].
  - unfold cancel_send. destruct (send_mms _ _); [| |done..]; by intros [= <-].
  - by intros [= <-].
  - intros [= <-]. unfold begin_close. by rewrite decide_False by congruence.
  - unfold close_send. by intros (s & (x & _ & [= <-])%bind_Ok_inv & [= <-])%bind_Ok_inv.
  - intros [= <-]. unfold begin_close. by rewrite decide_False by congruence.
  - unfold abort_send. destruct (send_abort _); [| |done..]; by intros [= <-].
  - intros [= <-]. unfold finish_close. by destruct (sh_done _).
  - by intros [= <-].
  - by intros [= <-].
  - by intros [= <-].
Qed.

Lemma execute_Stuck ops : ∀ w w', Stuck w → execute w ops = Ok w' → Stuck w'.
Proof.
  induction ops as [|op ops IH]; intros w w' Hw; [by intros [= <-]|]. unfold execute. cbn [for_each].
  intros (w1 & H1 & H2)%bind_Ok_inv. eapply IH; [by eapply exec_Stuck|exact H2].
Qed.

Lemma execute_cons w op ops : execute w (op :: ops) = (w ← exec w op; execute w ops).
Proof. done. Qed.

Lemma execute_app ops ops' : ∀ w, execute w (ops ++ ops') = (w ← execute w ops; execute w ops').
Proof.
  induction ops as [|op ops IH]; intros w; [done|]. cbn [app]. rewrite !execute_cons.
  destruct (exec w op); try done. rewrite !bind_Ok. apply IH.
Qed.

Lemma exec_send_Ok w id ch service f :
  (id, ch) ∈ wd_registered w → send_mms (sh_writer (wd_s w)) (confirmed_request_pdu id service) = Ok f →
  exec w (OSend id ch service) =
  Ok (mkWorld (with_writer (wd_s w) f) (wd_reader w) (wd_checked w) (filter (λ p, p ≠ (id, ch)) (wd_registered w))
        (<[ch := mkOutstanding id (Some ch)]> (wd_out w)) (wd_seen w) (wd_issued w)).
Proof. intros Hin Hs. cbn [exec]. rewrite decide_True by done. unfold start_send. by rewrite Hs. Qed.

(** A request started while the reader ends the association can wait for ever.
    When the reader's [fail_all] runs between the check of [start] and its
    registration, and the transport still takes the request, [wait] never returns:
    whatever runs afterwards, [close] and [abort] included, the request has no result,
    although the connection reports that it is closed. *)
Theorem late_request_hangs (f f' : Framing) (err : MmsError) (service : Element) :
  send_mms f (confirmed_request_pdu 1 service) = Ok f' →
  ∃ w, execute (World_new f)
         [OCheck; OReadErr err; OFail; OFail; OFail; ORegister 1; OSend 1 0 service; OWait 0] = Ok w ∧
    sh_state (wd_s w) = Closed ∧ sh_done (wd_s w) = true ∧ wd_issued w !! 0%nat = Some (1, 0%nat) ∧
    ∀ ops w', execute w ops = Ok w' → wait (wd_s w') 0 = None.
Proof.
  intros Hs. set (ops := [OCheck; OReadErr err; OFail; OFail; OFail; ORegister 1]).
  eassert (execute (World_new f) ops = Ok _) as H6 by (vm_compute; reflexivity).
  set (w6 := mkWorld _ _ _ _ _ _ _) in H6. eexists. split.
  - change ([OCheck; OReadErr err; OFail; OFail; OFail; ORegister 1; OSend 1 0 service; OWait 0])
      with (ops ++ [OSend 1 0 service; OWait 0]).
    rewrite execute_app, H6, bind_Ok, execute_cons, (exec_send_Ok w6 1 0 service f'), bind_Ok;
      [reflexivity|apply list_elem_of_here|exact Hs].
  - split_and!; [done..|]. intros ops' w' Hw'. apply execute_Stuck in Hw'.
    + unfold wait. by rewrite (sk_waiting _ Hw').
    + split; try done. intros ch o. cbn [wd_out]. destruct (decide (ch = 0%nat)) as [->|Hne].
      * rewrite lookup_alter_eq, lookup_insert_eq. by intros [= <-].
      * rewrite lookup_alter_ne, lookup_insert_ne by done. change (wd_out w6) with (∅ : gmap nat Outstanding). by rewrite lookup_empty.
Qed.

(** ** A request that timed out *)

(** The life of a request whose wait times out ([call_inner]): started, waited for,
    dropped. *)
Definition timed_out (id : Z) (ch : nat) (service : Element) : list Op :=
  [OCheck; ORegister id; OSend id ch service; OWait ch; ODrop ch].

(** [n] of them, one after the other. *)
Fixpoint timeouts (n : nat) (service : Element) : list Op :=
  match n with
  | O => []
  | S n => timeouts n service ++ timed_out (Z.of_nat n + 1) n service
  end.

(** The transport takes any number of requests. *)
Definition takes (ready' : Framing → Prop) (service : Element) : Prop :=
  ∀ f id, ready' f → ∃ f', send_mms f (confirmed_request_pdu id service) = Ok f' ∧ ready' f'.

(** What [n] timed-out requests leave. *)
Definition leaked (n : nat) (w : World) : Prop :=
  sh_state (wd_s w) = Connected ∧ sh_next_id (wd_s w) = Z.of_nat n + 1 ∧ tb_next (sh_pending (wd_s w)) = n ∧
  wd_checked w = [] ∧ wd_registered w = [] ∧ wd_out w = ∅ ∧
  ∀ k, (k < n)%nat → tb_senders (sh_pending (wd_s w)) !! (Z.of_nat k + 1) = Some k.

Lemma timed_out_leaks ready' service n w :
  takes ready' service → Z.of_nat n + 2 < 2 ^ 32 → leaked n w → ready' (sh_writer (wd_s w)) →
  ∃ w', execute w (timed_out (Z.of_nat n + 1) n service) = Ok w' ∧ leaked (S n) w' ∧ ready' (sh_writer (wd_s w')).
Proof.
  intros Ht Hn (H1 & H2 & H3 & H4 & H5 & H6 & H7) Hr.
  destruct w as [[pend canc reps raw calls served st ce dn nid nh wr sht] rd chk reg out seen iss]. simpl in *. subst.
  set (n := tb_next pend) in *. set (id := Z.of_nat n + 1) in *.
  destruct (Ht wr id Hr) as (wr' & Hs & Hr').
  unfold timed_out. rewrite execute_cons. unfold exec at 1, start_check, closed_error. cbn [wd_s sh_state]. rewrite decide_True by done.
  cbn [wd_checked with_next_id sh_next_id]. rewrite bind_Ok.
  rewrite execute_cons. cbn [exec wd_checked wd_s]. rewrite decide_True by apply list_elem_of_here.
  unfold start_register, insert_sender. cbn [sh_pending wd_s]. fold n. rewrite bind_Ok.
  rewrite execute_cons, (exec_send_Ok _ id n service wr'), bind_Ok;
    [|apply list_elem_of_here|exact Hs].
  rewrite execute_cons. cbn [exec wd_s wd_out]. rewrite bind_Ok, execute_cons. cbn [exec wd_s wd_out].
  rewrite lookup_alter_eq, lookup_insert_eq. cbn [fmap option_fmap option_map wait_begin o_id drop_outstanding o_rx].
  rewrite bind_Ok. eexists. split; [done|]. split; [|exact Hr'].
  split_and!; simpl; try done.
  - unfold u32, wrap. rewrite Z.mod_small; lia.
  - by rewrite filter_cons_False by (intros H; by apply H).
  - by rewrite filter_cons_False by (intros H; by apply H).
  - by rewrite alter_insert_eq, delete_insert_eq, delete_empty.
  - intros k Hk. destruct (decide (k = n)) as [->|Hne]; [apply lookup_insert_eq|].
    rewrite lookup_insert_ne by (unfold id; lia). apply H7. lia.
Qed.

(** Requests that time out are never forgotten. A connection on which [n]
    requests timed out one after the other, with no task left that waits for any of
    them, still holds [n] response slots: dropping the wait does not release the
    slot, because [wait] has already taken the receiver that [drop] looks for. *)
Theorem timeouts_leak (ready' : Framing → Prop) (f : Framing) (service : Element) (n : nat) :
  takes ready' service → ready' f → Z.of_nat n + 2 < 2 ^ 32 →
  ∃ w, execute (World_new f) (timeouts n service) = Ok w ∧ wd_out w = ∅ ∧ sh_state (wd_s w) = Connected ∧
    ∀ k, (k < n)%nat → tb_senders (sh_pending (wd_s w)) !! (Z.of_nat k + 1) = Some k.
Proof.
  intros Ht Hf Hn.
  assert (∃ w, execute (World_new f) (timeouts n service) = Ok w ∧ leaked n w ∧ ready' (sh_writer (wd_s w)))
    as (w & Hw & (? & ? & ? & ? & ? & ? & ?) & _); [|by exists w].
  induction n as [|n IH].
  - eexists. split; [done|]. split; [|done]. split_and!; try done. lia.
  - destruct IH as (w & Hw & Hl & Hr); [lia|].
    destruct (timed_out_leaks ready' service n w Ht ltac:(lia) Hl Hr) as (w' & Hw' & Hl' & Hr').
    exists w'. split; [|done]. cbn [timeouts]. by rewrite execute_app, Hw, bind_Ok.
Qed.

(** ** No PDU panics the reader *)

Lemma cancel_answer_settled {E} tag content : octets content → settled (parse_cancel_answer (E:=E) tag content).
Proof.
  intros Ho. apply (returns_settled (λ _, True)). unfold parse_cancel_answer. case_decide.
  - eapply returns_bind; [by apply ok_returns, decode_uint_returns|]. done.
  - eapply ok_reading_bind; [apply reading_expect; by apply Decoder_new_wf| |done]. intros b d Hb Hd.
    eapply (returns_bind (in_u 64)); [by apply unwrap_or_returns; [apply decode_uint_returns|]|]. intros n _.
    eapply returns_bind; [by apply returns_option, rest_returns|]. intros body Hbody.
    eapply returns_bind; [apply drill_returns; destruct body; [by apply Hbody|constructor]|]. done.
Qed.

Lemma settled_Ok {A} (m : outcome Empty_set A) : settled m → ∃ a, m = Ok a.
Proof. destruct m as [a|[]| |]; try done. eauto. Qed.

Lemma dispatch_total s pdu : octets pdu → ∃ s', dispatch (E:=Empty_set) s pdu = Ok s'.
Proof.
  intros Ho. apply settled_Ok, (returns_settled (λ _, True)). unfold dispatch.
  eapply ok_reading_bind; [apply reading_read_tlv; by apply Decoder_new_wf| |done]. intros [tag content] d Hc _. simpl in Hc.
  case_decide.
  { eapply returns_bind; [by apply ok_returns, split_invoke_returns|]. intros [[id body]|] Hb; [|done]. destruct Hb as [_ Hb].
    eapply (returns_bind (λ _, True)); [|done]. case_decide; [done|].
    eapply returns_bind; [by apply decode_service_error_returns|]. done. }
  case_decide. { eapply returns_bind; [by apply parse_reject_returns|]. done. }
  case_decide.
  { eapply returns_bind; [apply returns_intro, (λ _ _, I); by apply ok_settled, handle_unconfirmed_settled|]. done. }
  case_decide; [done|]. case_decide; [|by case_decide].
  eapply returns_bind; [apply returns_intro, (λ _ _, I); by apply cancel_answer_settled|]. done.
Qed.
End conn.

Arguments Shared : clear implicits.
Arguments World : clear implicits.

(** ** At concrete inputs *)

Definition AN_ELEMENT : Element := prim (context_primitive 0) [].

(** A request and its answer, with another answer before it. *)
Definition a_session : list Op :=
  [OCheck; ORegister 1; OSend 1 0 AN_ELEMENT; OWait 0;
   ORead (confirmed_response_pdu 7 AN_ELEMENT); ORead (confirmed_response_pdu 1 AN_ELEMENT)].

Definition a_framing : Framing := mkFraming (idle_conn 1024) CONTEXT_MMS CONTEXT_ACSE.


Lemma ends_once_witness :
  ∃ w, execute (World_new a_framing) [OBeginClose; OReadErr MmsTimeout; OFail] = Ok w ∧
    conn_err (wd_s w) = Some MmsClosed.
Proof.
  destruct (execute (World_new a_framing) [OBeginClose; OReadErr MmsTimeout; OFail]) as [w|?| |] eqn:E; [|by vm_compute in E..].
  exists w. split; [done|].
  assert (sh_state (wd_s w) = Closed ∧ sh_close_err (wd_s w) = Some MmsClosed) as [Hs Hc]
    by (vm_compute in E; injection E as <-; by vm_compute).
  destruct (proj1 (ends_once a_framing _ [] w w E eq_refl)) as [(? & _)|(e & _ & He & _)]; [congruence|].
  rewrite He. unfold conn_err in He. rewrite Hs, Hc in He. by rewrite He.
Defined.

Lemma late_request_hangs_witness :
  ∃ w, execute (World_new a_framing)
         [OCheck; OReadErr MmsTimeout; OFail; OFail; OFail; ORegister 1; OSend 1 0 AN_ELEMENT; OWait 0] = Ok w ∧
    sh_state (wd_s w) = Closed ∧ sh_done (wd_s w) = true ∧ wd_issued w !! 0%nat = Some (1, 0%nat) ∧
    ∀ ops w', execute w ops = Ok w' → wait (wd_s w') 0 = None.
Proof.
  destruct (send_mms a_framing (confirmed_request_pdu 1 AN_ELEMENT)) as [f|?| |] eqn:E; [|by vm_compute in E..].
  exact (late_request_hangs a_framing f MmsTimeout AN_ELEMENT E).
Defined.

Lemma ready_takes {T : Type} {Tr : Transport T} {TL : TransportLaws T} service :
  takes (λ f : Framing (T:=T), ready (fr_transport f)) service.
Proof.
  intros f id Hr. unfold send_mms, send_data. destruct (send_law (fr_transport f)
    ([SI_GIVE_TOKENS; 0] ++ [SI_DATA_TRANSFER; 0] ++ wrap_data (fr_mms_context f) (confirmed_request_pdu id service)) Hr)
    as (t & Hs & Hr' & _). exists (with_transport f t). by rewrite Hs.
Qed.

Lemma timeouts_leak_witness :
  ∃ w, execute (World_new a_framing) (timeouts 3 AN_ELEMENT) = Ok w ∧ wd_out w = ∅ ∧ sh_state (wd_s w) = Connected ∧
    ∀ k, (k < 3)%nat → tb_senders (sh_pending (wd_s w)) !! (Z.of_nat k + 1) = Some k.
Proof. apply (timeouts_leak (λ f, ready (fr_transport f)) a_framing AN_ELEMENT 3 (ready_takes _)); [by split; vm_compute|lia]. Defined.
