(* ===== verification/ServerConn.v ===== *)
(** The server's end of an association (src/src/mms/server_conn.rs): the loop that
    answers confirmed requests, the unconfirmed PDUs held while one is handled, the
    deferred requests and their cancellation, and the requests a server sends.

    The loop, the task that writes reports, the deferred requests and the rest of the
    server run at once, so the methods are broken where another task can run, and an
    execution is a sequence of these pieces in any order. *)

From stdpp Require Import gmap.
From S2P Require Import Prelude Ber BerDecoder BerPrim Utf8 Errors MmsCodec BerFields Tpkt Cotp OsiSession Presentation Acse MmsPdu Association Oneshot InfoReport ClientConn.
Local Open Scope string_scope.
Local Open Scope list_scope.
Local Open Scope Z_scope.

Definition UNCONFIRMED_QUEUE_DEPTH : Z := 512.

Definition CLASS_RESOURCE : Z := 3.
Definition CLASS_SERVICE_PREEMPT : Z := 5.
Definition CLASS_CANCEL : Z := 10.

Definition resource_error : MmsError := MmsService (ServiceError_new CLASS_RESOURCE 0).

(** The PDU [send_response] sends. *)
Definition response_pdu (max_pdu invoke_id : Z) (resp : Element) : list Z :=
  let out := confirmed_response_pdu invoke_id resp in
  if decide (max_pdu > 0 ∧ zlen out > max_pdu) then encode_error_pdu invoke_id resource_error else out.

(** What answers a request its handler returned [r] for. *)
Definition answer_pdu (max_pdu invoke_id : Z) (r : Res Element) : list Z :=
  match r with
  | inl resp => response_pdu max_pdu invoke_id resp
  | inr e => encode_error_pdu invoke_id e
  end.

Definition preempted : MmsError := MmsService (ServiceError_new CLASS_SERVICE_PREEMPT 3).

Definition cancel_response_pdu (id : Z) : list Z := Element_encode (uint_elem TAG_CANCEL_RESPONSE id).
Definition cancel_error_pdu (id : Z) : list Z :=
  Element_encode
    (cons_elem TAG_CANCEL_ERROR
       [uint_elem (context_primitive 0) id;
        cons_elem (context_constructed 1)
          [cons_elem (context_constructed 0) [int_elem (context_primitive CLASS_CANCEL) 1]]]).
Definition conclude_response_pdu : list Z := Element_encode (prim TAG_CONCLUDE_RESPONSE []).
Definition unconfirmed_pdu (service : Element) : list Z := Element_encode (cons_elem TAG_UNCONFIRMED [service]).

(** The tasks that write. *)
Inductive Task :=
| TLoop
| TPump
| TDeferred (n : nat).

#[export] Instance Task_eq_dec : EqDecision Task.
Proof. solve_decision. Defined.

Section server.
Context {T : Type} {Tr : Transport T}.

(** [ServerConn], but for what the handshake left in it. [sc_hand] is the PDU the
    writer task has taken from the queue and not yet written. *)
Record SConn := mkSConn {
  sc_writer : Framing (T:=T);
  sc_queue : list (list Z);
  sc_hand : option (list Z);
  sc_pump : bool;
  sc_in_request : bool;
  sc_before : list (list Z);
  sc_after : list (list Z);
  sc_max_pdu : Z;
  sc_calls : Table (Res (list Z));
  sc_next_call : Z;
  sc_running : Table unit;
}.

Definition SConn_new (w : Framing) (max_pdu : Z) : SConn :=
  mkSConn w [] None true false [] [] max_pdu Table_new 0 Table_new.

Definition with_out (s : SConn) (w : Framing) : SConn :=
  mkSConn w (sc_queue s) (sc_hand s) (sc_pump s) (sc_in_request s) (sc_before s) (sc_after s) (sc_max_pdu s)
    (sc_calls s) (sc_next_call s) (sc_running s).
Definition with_queue (s : SConn) (q : list (list Z)) (hand : option (list Z)) (alive : bool) : SConn :=
  mkSConn (sc_writer s) q hand alive (sc_in_request s) (sc_before s) (sc_after s) (sc_max_pdu s)
    (sc_calls s) (sc_next_call s) (sc_running s).
Definition with_held (s : SConn) (in_request : bool) (before after : list (list Z)) : SConn :=
  mkSConn (sc_writer s) (sc_queue s) (sc_hand s) (sc_pump s) in_request before after (sc_max_pdu s)
    (sc_calls s) (sc_next_call s) (sc_running s).
Definition with_call_table (s : SConn) (t : Table (Res (list Z))) (next : Z) : SConn :=
  mkSConn (sc_writer s) (sc_queue s) (sc_hand s) (sc_pump s) (sc_in_request s) (sc_before s) (sc_after s)
    (sc_max_pdu s) t next (sc_running s).
Definition with_running (s : SConn) (t : Table unit) : SConn :=
  mkSConn (sc_writer s) (sc_queue s) (sc_hand s) (sc_pump s) (sc_in_request s) (sc_before s) (sc_after s)
    (sc_max_pdu s) (sc_calls s) (sc_next_call s) t.

Definition send (s : SConn) (pdu : list Z) : outcome MmsError SConn :=
  w ← send_mms (sc_writer s) pdu; Ok (with_out s w).

(** [unconf_tx.try_send]: refused when the queue is full or its reader is gone. *)
Definition try_send (s : SConn) (pdu : list Z) : bool * SConn :=
  if decide (sc_pump s = true ∧ zlen (sc_queue s) < UNCONFIRMED_QUEUE_DEPTH)
  then (true, with_queue s (sc_queue s ++ [pdu]) (sc_hand s) (sc_pump s))
  else (false, s).

Definition hold (s : SConn) (pdu : list Z) (first : bool) : option (list Z) * SConn :=
  if sc_in_request s then
    (None, if first then with_held s true (sc_before s ++ [pdu]) (sc_after s)
           else with_held s true (sc_before s) (sc_after s ++ [pdu]))
  else (Some pdu, s).

(** [send_unconfirmed], and [send_unconfirmed_first] when [first]. *)
Definition send_unconfirmed (s : SConn) (service : Element) (first : bool) : Res unit * SConn :=
  let pdu := unconfirmed_pdu service in
  let '(held, s) := hold s pdu first in
  match held with
  | None => (inl (), s)
  | Some pdu =>
      let '(sent, s) := try_send s pdu in
      (if sent : bool then inl () else inr MmsReportQueueFull, s)
  end.

(** [pump_unconfirmed]: taking a PDU; what is left when it was written, and when that
    failed. *)
Definition pump_take (s : SConn) : SConn :=
  match sc_pump s, sc_hand s, sc_queue s with
  | true, None, pdu :: q => with_queue s q (Some pdu) true
  | _, _, _ => s
  end.
Definition pump_wrote (s : SConn) (ok : bool) : SConn := with_queue s (sc_queue s) None (sc_pump s && ok).

(** The start of [handle_confirmed], and what it takes when the handler returned. *)
Definition begin_request (s : SConn) : SConn := with_held s true (sc_before s) (sc_after s).
Definition take_held (s : SConn) : list (list Z) * list (list Z) * SConn :=
  (sc_before s, sc_after s, with_held s false [] []).

(** ** Requests of the server *)

(** The start of [call]; [fetch_add(..) + 1] panics when the counter has wrapped. *)
Definition call_register (s : SConn) : outcome MmsError (Z * nat * SConn) :=
  if decide (sc_next_call s + 1 ≤ U32_MAX) then
    let id := sc_next_call s + 1 in
    let '(ch, t) := insert_sender (sc_calls s) id in
    Ok (id, ch, with_call_table s t (u32 (sc_next_call s + 1)))
  else Panic.

(** What a client's PDU answers: the server's request, and how. *)
Definition parse_call_answer {E} (tag : Tag) (content : list Z) : outcome E (option (Z * Res (list Z))) :=
  if decide (tag = TAG_REJECT_PDU) then
    r ← ok (optional (Decoder_new content) (context_primitive 0));
    match r with
    | Some (Some b, _) =>
        n ← unwrap_or (decode_uint b) 0;
        Ok (Some (u32 n, inr (MmsService (mkServiceError 0 0 true "rejected by the client"))))
    | _ => Ok None
    end
  else
    r ← ok (split_invoke content);
    match r with
    | None => Ok None
    | Some (id, body) =>
        if decide (tag = TAG_CONFIRMED_RESPONSE) then Ok (Some (id, inl body))
        else se ← decode_service_error body; Ok (Some (id, inr (MmsService se)))
    end.

Definition deliver_call {E} (s : SConn) (tag : Tag) (content : list Z) : outcome E SConn :=
  r ← parse_call_answer tag content;
  Ok (match r with
      | Some (id, res) => with_call_table s (take_sender (sc_calls s) id (Some res)) (sc_next_call s)
      | None => s
      end).

(** The answer to a Cancel-RequestPDU: the deferred request is told, and the PDU to
    send. *)
Definition cancel_answer {E} (s : SConn) (content : list Z) : outcome E (option (list Z) * SConn) :=
  n ← ok (decode_uint content);
  Ok (match n with
      | None => (None, s)
      | Some n =>
          let id := u32 n in
          match tb_senders (sc_running s) !! id with
          | Some _ => (Some (cancel_response_pdu id), with_running s (take_sender (sc_running s) id (Some ())))
          | None => (Some (cancel_error_pdu id), s)
          end
      end).

(** Closing or dropping the connection stops the writer task. *)
Definition stop_pump (s : SConn) : SConn := with_queue s (sc_queue s) None false.

(** ** Executions *)

(** The writer's lock, [tokio::sync::Mutex]: fair, handed to the next waiter when it is
    released. *)
Record Lock := mkLock {
  lk_owner : option Task;
  lk_waiters : list Task;
}.

Definition acquire (l : Lock) (t : Task) : Lock :=
  match lk_owner l with
  | None => mkLock (Some t) (lk_waiters l)
  | Some o => mkLock (Some o) (lk_waiters l ++ [t])
  end.

Definition release (l : Lock) : Lock :=
  match lk_waiters l with
  | [] => mkLock None []
  | t :: ts => mkLock (Some t) ts
  end.

(** Where the loop of [serve] is: at its [select!], in the handler of a request,
    sending what the request gives rise to, queueing what follows the response,
    sending the answer to a cancel or a conclude, or over. *)
Inductive Serving :=
| Waiting
| Handling (invoke_id : Z)
| Sending (before : list (list Z)) (invoke_id : Z) (r : Res Element) (after : list (list Z))
| Queueing (invoke_id : Z) (r : Res Element) (after : list (list Z))
| Replying (pdu : list Z) (last : bool)
| Ended (r : Res unit).

(** Where a deferred request is: not polled yet, in its handler, sending a request of
    its own, or sending its outcome. *)
Inductive Deferred :=
| DPushed (req : Request)
| DRunning (invoke_id : Z) (ch : nat)
| DCalling (invoke_id : Z) (ch : nat) (call_id : Z) (service : Element)
| DSending (pdu : list Z).

(** What the loop does for a request, and what the others write. *)
Inductive Event :=
| LoopWrite (pdu : list Z)
| LoopQueue (pdu : list Z) (taken : bool)
| Queued (pdu : list Z)
| PumpWrite (pdu : list Z)
| ReplyWrite (pdu : list Z)
| DeferredWrite (n : nat) (pdu : list Z).

(** A request the loop has answered: what was held during it, and its result. *)
Record Served := mkServed {
  sv_invoke_id : Z;
  sv_first : list (list Z);
  sv_result : Res Element;
  sv_after : list (list Z);
}.

(** [sw_log] is everything that happened, [sw_arrived] the requests the loop took up,
    [sw_served] those it answered, and [sw_first] and [sw_after] what the connection was
    asked to send while the current one is handled. *)
Record SWorld := mkSWorld {
  sw_s : SConn;
  sw_lock : Lock;
  sw_task : Serving;
  sw_deferred : gmap nat Deferred;
  sw_next : nat;
  sw_log : list Event;
  sw_arrived : list Z;
  sw_served : list Served;
  sw_first : list (list Z);
  sw_after : list (list Z);
}.

Definition SWorld_new (w : Framing) (max_pdu : Z) : SWorld :=
  mkSWorld (SConn_new w max_pdu) (mkLock None []) Waiting ∅ 0 [] [] [] [] [].

Definition sw_with (w : SWorld) (s : SConn) : SWorld :=
  mkSWorld s (sw_lock w) (sw_task w) (sw_deferred w) (sw_next w) (sw_log w) (sw_arrived w) (sw_served w) (sw_first w)
    (sw_after w).
Definition sw_locked (w : SWorld) (l : Lock) : SWorld :=
  mkSWorld (sw_s w) l (sw_task w) (sw_deferred w) (sw_next w) (sw_log w) (sw_arrived w) (sw_served w) (sw_first w)
    (sw_after w).
Definition sw_at (w : SWorld) (t : Serving) : SWorld :=
  mkSWorld (sw_s w) (sw_lock w) t (sw_deferred w) (sw_next w) (sw_log w) (sw_arrived w) (sw_served w) (sw_first w)
    (sw_after w).
Definition sw_put (w : SWorld) (n : nat) (d : option Deferred) : SWorld :=
  mkSWorld (sw_s w) (sw_lock w) (sw_task w) (partial_alter (λ _, d) n (sw_deferred w)) (sw_next w) (sw_log w)
    (sw_arrived w) (sw_served w) (sw_first w) (sw_after w).
Definition sw_event (w : SWorld) (e : Event) : SWorld :=
  mkSWorld (sw_s w) (sw_lock w) (sw_task w) (sw_deferred w) (sw_next w) (sw_log w ++ [e]) (sw_arrived w) (sw_served w)
    (sw_first w) (sw_after w).
Definition sw_push (w : SWorld) (req : Request) : SWorld :=
  mkSWorld (sw_s w) (sw_lock w) (sw_task w) (<[sw_next w := DPushed req]> (sw_deferred w)) (S (sw_next w)) (sw_log w)
    (sw_arrived w) (sw_served w) (sw_first w) (sw_after w).
Definition sw_begin (w : SWorld) (id : Z) : SWorld :=
  mkSWorld (begin_request (sw_s w)) (sw_lock w) (Handling id) (sw_deferred w) (sw_next w) (sw_log w)
    (sw_arrived w ++ [id]) (sw_served w) [] [].

(** [send(pdu).await] by task [t], one poll of it: it waits for the lock, or writes
    and releases it. [None] when it is still waiting. *)
Definition poll_send (w : SWorld) (t : Task) (pdu : list Z) : outcome Empty_set (option (Res unit) * SWorld) :=
  if decide (lk_owner (sw_lock w) = Some t) then
    match send (sw_s w) pdu with
    | Ok s => Ok (Some (inl ()), sw_locked (sw_with w s) (release (sw_lock w)))
    | Err e => Ok (Some (inr e), sw_locked w (release (sw_lock w)))
    | Panic => Panic
    | NoFuel => NoFuel
    end
  else if decide (t ∈ lk_waiters (sw_lock w)) then Ok (None, w)
  else Ok (None, sw_locked w (acquire (sw_lock w) t)).

(** Tasks that are dropped let go of the lock. *)
Definition drop_tasks (l : Lock) (P : Task → bool) : Lock :=
  let l := mkLock (lk_owner l) (filter (λ t, P t = false) (lk_waiters l)) in
  match lk_owner l with
  | Some t => if P t then release l else l
  | None => l
  end.

(** [serve] returns: its deferred requests are abandoned and its calls dropped. *)
Definition end_serve (w : SWorld) (r : Res unit) : SWorld :=
  let s := with_call_table (sw_s w) (drain_senders (sc_calls (sw_s w)) None) (sc_next_call (sw_s w)) in
  mkSWorld s (drop_tasks (sw_lock w) (λ t, match t with TPump => false | _ => true end)) (Ended r) ∅ (sw_next w)
    (sw_log w) (sw_arrived w) (sw_served w) (sw_first w) (sw_after w).

Context (is_deferred : Request → bool).

(** [handle_pdu], up to what it waits for. *)
Definition handle_pdu (w : SWorld) (pdu : list Z) : outcome Empty_set SWorld :=
  r ← ok (read_tlv (Decoder_new pdu));
  match r with
  | None => Ok w
  | Some ((tag, content), _) =>
      if decide (tag = TAG_CONFIRMED_REQUEST) then
        req ← parse_confirmed_request content;
        match req with
        | None => Ok w
        | Some req => Ok (if is_deferred req then sw_push w req else sw_begin w (rq_invoke_id req))
        end
      else if decide (tag = TAG_CONFIRMED_RESPONSE ∨ tag = TAG_CONFIRMED_ERROR ∨ tag = TAG_REJECT_PDU) then
        s ← deliver_call (sw_s w) tag content;
        Ok (sw_with w s)
      else if decide (tag = TAG_CANCEL_REQUEST) then
        '(reply, s) ← cancel_answer (sw_s w) content;
        let w := sw_with w s in
        Ok (match reply with Some reply => sw_at w (Replying reply false) | None => w end)
      else if decide (tag = TAG_CONCLUDE_REQUEST ∨ tag = TAG_CONCLUDE_REQUEST_LEGACY) then
        Ok (sw_at w (Replying conclude_response_pdu true))
      else Ok w
  end.

(** One step of the loop inside [handle_pdu]. *)
Definition loop_step (w : SWorld) : outcome Empty_set SWorld :=
  match sw_task w with
  | Sending (pdu :: before) id r after =>
      '(sent, w) ← poll_send w TLoop pdu;
      Ok (match sent with
          | None => w
          | Some (inl _) => sw_at (sw_event w (LoopWrite pdu)) (Sending before id r after)
          | Some (inr e) => end_serve w (inr e)
          end)
  | Sending [] id r after =>
      let pdu := answer_pdu (sc_max_pdu (sw_s w)) id r in
      '(sent, w) ← poll_send w TLoop pdu;
      Ok (match sent with
          | None => w
          | Some (inl _) => sw_at (sw_event w (LoopWrite pdu)) (Queueing id r after)
          | Some (inr e) => end_serve w (inr e)
          end)
  | Queueing id r (pdu :: after) =>
      let '(taken, s) := try_send (sw_s w) pdu in
      Ok (sw_at (sw_event (sw_with w s) (LoopQueue pdu taken)) (Queueing id r after))
  | Queueing id r [] =>
      Ok (mkSWorld (sw_s w) (sw_lock w) Waiting (sw_deferred w) (sw_next w) (sw_log w) (sw_arrived w)
            (sw_served w ++ [mkServed id (sw_first w) r (sw_after w)]) (sw_first w) (sw_after w))
  | Replying pdu last =>
      '(sent, w) ← poll_send w TLoop pdu;
      Ok (match sent with
          | None => w
          | Some (inl _) =>
              let w := sw_event w (ReplyWrite pdu) in
              if last : bool then end_serve w (inl ()) else sw_at w Waiting
          | Some (inr e) => end_serve w (if last : bool then inl () else inr e)
          end)
  | Waiting | Handling _ | Ended _ => Ok w
  end.

(** One poll of a deferred request, [run_deferred]. *)
Definition poll_deferred (w : SWorld) (n : nat) : outcome Empty_set SWorld :=
  let s := sw_s w in
  match sw_deferred w !! n with
  | Some (DPushed req) =>
      let '(ch, t) := insert_sender (sc_running s) (rq_invoke_id req) in
      Ok (sw_put (sw_with w (with_running s t)) n (Some (DRunning (rq_invoke_id req) ch)))
  | Some (DRunning id ch) =>
      match received (sc_running s) ch with
      | Some _ =>
          let s := with_running s (take_sender (sc_running s) id None) in
          Ok (sw_put (sw_with w s) n (Some (DSending (encode_error_pdu id preempted))))
      | None => Ok w
      end
  | Some (DCalling id ch call_id service) =>
      '(sent, w) ← poll_send w (TDeferred n) (confirmed_request_pdu call_id service);
      Ok (match sent with
          | None => w
          | Some (inl _) =>
              sw_put (sw_event w (DeferredWrite n (confirmed_request_pdu call_id service))) n (Some (DRunning id ch))
          | Some (inr _) =>
              let s := sw_s w in
              let s := with_call_table s (take_sender (sc_calls s) call_id None) (sc_next_call s) in
              sw_put (sw_with w s) n (Some (DRunning id ch))
          end)
  | Some (DSending pdu) =>
      '(sent, w) ← poll_send w (TDeferred n) pdu;
      Ok (match sent with
          | None => w
          | Some (inl _) => sw_put (sw_event w (DeferredWrite n pdu)) n None
          | Some (inr _) => sw_put w n None
          end)
  | None => Ok w
  end.

(** The pieces that run. *)
Inductive SOp :=
| SArrive (pdu : list Z)
| SArriveEnd (r : Res unit)
| SHandled (r : Res Element)
| SLoop
| SUnconfirmed (service : Element) (first : bool)
| SPumpTake
| SPumpWrite
| SPoll (n : nat)
| SDeferredDone (n : nat) (r : Res Element)
| SDeferredCall (n : nat) (service : Element)
| SClose.

Definition s_unconfirmed (w : SWorld) (service : Element) (first : bool) : SWorld :=
  let pdu := unconfirmed_pdu service in
  let '(r, s) := send_unconfirmed (sw_s w) service first in
  let held := sc_in_request (sw_s w) in
  mkSWorld s (sw_lock w) (sw_task w) (sw_deferred w) (sw_next w)
    (match r with inl _ => if held then sw_log w else sw_log w ++ [Queued pdu] | inr _ => sw_log w end)
    (sw_arrived w) (sw_served w)
    (if held && first then sw_first w ++ [pdu] else sw_first w)
    (if held && negb first then sw_after w ++ [pdu] else sw_after w).

(** One piece; a piece that cannot run now changes nothing. Deferred requests are
    polled by the loop's [select!] and nowhere else. *)
Definition s_exec (w : SWorld) (op : SOp) : outcome Empty_set SWorld :=
  let s := sw_s w in
  match op with
  | SArrive pdu => match sw_task w with Waiting => handle_pdu w pdu | _ => Ok w end
  | SArriveEnd r => Ok (match sw_task w with Waiting => end_serve w r | _ => w end)
  | SHandled r =>
      Ok (match sw_task w with
          | Handling id =>
              let '(before, after, s) := take_held s in sw_at (sw_with w s) (Sending before id r after)
          | _ => w
          end)
  | SLoop => loop_step w
  | SUnconfirmed service first => Ok (s_unconfirmed w service first)
  | SPumpTake => Ok (sw_with w (pump_take s))
  | SPumpWrite =>
      match sc_hand s with
      | None => Ok w
      | Some pdu =>
          '(sent, w) ← poll_send w TPump pdu;
          Ok (match sent with
              | None => w
              | Some (inl _) => sw_event (sw_with w (pump_wrote (sw_s w) true)) (PumpWrite pdu)
              | Some (inr _) => sw_with w (pump_wrote (sw_s w) false)
              end)
      end
  | SPoll n => match sw_task w with Waiting => poll_deferred w n | _ => Ok w end
  | SDeferredDone n r =>
      match sw_task w, sw_deferred w !! n with
      | Waiting, Some (DRunning id ch) =>
          let s := with_running s (take_sender (sc_running s) id None) in
          Ok (sw_put (sw_with w s) n (Some (DSending (answer_pdu (sc_max_pdu s) id r))))
      | _, _ => Ok w
      end
  | SDeferredCall n service =>
      match sw_task w, sw_deferred w !! n with
      | Waiting, Some (DRunning id ch) =>
          match call_register s with
          | Ok (call_id, _, s) => Ok (sw_put (sw_with w s) n (Some (DCalling id ch call_id service)))
          | _ => Panic
          end
      | _, _ => Ok w
      end
  | SClose => Ok (sw_locked (sw_with w (stop_pump s)) (drop_tasks (sw_lock w) (λ t, bool_decide (t = TPump))))
  end.

Definition s_execute (w : SWorld) (ops : list SOp) : outcome Empty_set SWorld := for_each ops s_exec w.

(** ** What one end sends, the other reads *)

(** An element of a PDU, of a size its length octets can hold. *)
Definition sendable (e : Element) (t : Tag) (c : list Z) : Prop := writes e (t, c) ∧ tag_sized t ∧ zlen c < 2 ^ 31.

(** The frame of a confirmed PDU. *)
Lemma confirmed_pdu_read outer id e t c :
  tag_wf outer → tag_sized outer → tag_constructed outer = true → in_u 32 id → sendable e t c →
  ∃ d, read_tlv (Decoder_new (Element_encode (cons_elem outer [uint_elem TAG_INTEGER id; e]))) =
    Ok ((outer, append_tlv [] TAG_INTEGER (append_uint [] id) ++ Element_encode e), d).
Proof.
  intros Ho Hs Hc Hid (He & Ht & Hl). pose proof He as [_ Hee]. simpl in Hee.
  rewrite (writes_encode _ (outer, children_octets [(TAG_INTEGER, append_uint [] id); (t, c)])).
  2:{ apply writes_cons; [done..|]. constructor; [by apply writes_prim|]. constructor; [done|constructor]. }
  rewrite Hee, children_octets_cons, app_nil_r. rewrite !children_octets_cons, app_nil_r.
  eexists. rewrite <-(app_nil_r (append_tlv [] outer _)). apply read_tlv_head; [done|]. rewrite zlen_app.
  pose proof (zlen_tlv_le TAG_INTEGER (append_uint [] id) ltac:(done)). pose proof (append_uint_short id (in_u_32_64 _ Hid)).
  pose proof (zlen_tlv_le t c Ht). lia.
Qed.

(** What a client is told of a result. *)
Definition told_error (e : MmsError) : MmsError :=
  let '(class, code) := error_class_choice e in
  let confirmed := ServiceError_new class code in
  MmsService (match e with
              | MmsService se =>
                  if se_rejected se
                  then mkServiceError (se_class se) (se_code se) true (reject_reason_name (se_class se) (se_code se))
                  else confirmed
              | _ => confirmed
              end).
Definition told (max_pdu id : Z) (r : Res Element) : Res (list Z) :=
  match r with
  | inl resp =>
      if decide (max_pdu > 0 ∧ zlen (confirmed_response_pdu id resp) > max_pdu) then inr resource_error
      else inl (Element_encode resp)
  | inr e => inr (told_error e)
  end.

Lemma error_told {E} id e : in_u 32 id → err_wf e → answer_of (E:=E) (encode_error_pdu id e) = Ok (Some (id, inr (told_error e))).
Proof.
  intros Hid He. pose proof (confirmed_error_read (E:=E) id e Hid He) as Hc. unfold encode_error_pdu, told_error.
  destruct (error_class_choice e) as [class code]. destruct Hc as (content & d & body & H1 & H2 & H3).
  assert (answer_of (E:=E) (confirmed_error_pdu id class code) = Ok (Some (id, inr (MmsService (ServiceError_new class code))))) as Hconf.
  { unfold answer_of. rewrite H1. unfold ok. rewrite bind_Ok. rewrite decide_True by auto. rewrite H2, bind_Ok.
    rewrite decide_False by done. rewrite H3, !bind_Ok. done. }
  destruct e as [se| | | | | | | | | | | | |]; try exact Hconf. destruct (se_rejected se); [|exact Hconf].
  destruct (reject_read (E:=E) id se Hid He) as (content' & d' & H4 & H5).
  unfold answer_of. rewrite H4. unfold ok. rewrite bind_Ok. rewrite decide_False by (by intros [[=]|[=]]).
  rewrite decide_True by done. rewrite H5, bind_Ok. done.
Qed.

Lemma response_told {E} id resp t c :
  in_u 32 id → sendable resp t c → answer_of (E:=E) (confirmed_response_pdu id resp) = Ok (Some (id, inl (Element_encode resp))).
Proof.
  intros Hid Hr. destruct (confirmed_pdu_read TAG_CONFIRMED_RESPONSE id resp t c) as [d Hd]; [done..|].
  unfold answer_of, confirmed_response_pdu. rewrite Hd. unfold ok. rewrite bind_Ok. rewrite decide_True by auto.
  rewrite split_invoke_built by auto. rewrite bind_Ok. rewrite decide_True by done. by rewrite bind_Ok.
Qed.

(** The results handlers give: responses that can be encoded, errors with octets. *)
Definition result_ok (r : Res Element) : Prop :=
  match r with inl resp => ∃ t c, sendable resp t c | inr e => err_wf e end.

Lemma answer_told {E} max_pdu id r :
  in_u 32 id → result_ok r → answer_of (E:=E) (answer_pdu max_pdu id r) = Ok (Some (id, told max_pdu id r)).
Proof.
  intros Hid Hr. destruct r as [resp|e]; simpl; [|by apply error_told].
  unfold response_pdu. case_decide; [by apply error_told|]. destruct Hr as (t & c & Hr). by eapply response_told.
Qed.

(** An error is short. *)
Lemma error_pdu_short id e : in_u 32 id → err_wf e → zlen (encode_error_pdu id e) ≤ 67.
Proof.
  intros Hid He. pose proof (append_uint_short id (in_u_32_64 _ Hid)) as Hi.
  assert (zlen (let '(class, code) := error_class_choice e in confirmed_error_pdu id class code) ≤ 67) as Hconf.
  { destruct (error_class_octets e He) as [Hc Hd]. destruct (error_class_choice e) as [class code]. simpl in *.
    rewrite confirmed_error_pdu_eq by done. apply (zlen_field_le TAG_CONFIRMED_ERROR _ 57); [done|]. rewrite zlen_app.
    pose proof (zlen_tlv_le (context_primitive 0) (append_uint [] id) ltac:(done)).
    pose proof (error_content_size class code Hc Hd). lia. }
  unfold encode_error_pdu. destruct e as [se| | | | | | | | | | | | |]; try exact Hconf.
  destruct (se_rejected se); [|exact Hconf]. destruct He as [Hc Hd]. rewrite reject_pdu_eq by done.
  apply (zlen_field_le TAG_REJECT_PDU _ 57); [done|]. rewrite children_octets_cons, zlen_app.
  pose proof (zlen_tlv_le (context_primitive 0) (append_uint [] id) ltac:(done)).
  unfold octet in Hc. pose proof (append_int_short _ (octet_i64 _ Hd)) as Hs.
  apply (zlen_field_le (context_primitive (se_class se))) in Hs; [|unfold tag_sized; simpl; lia]. lia.
Qed.

(** C12: A confirmed request and its answer. The PDU a client builds for a request is
    taken up by the server under its invoke identifier and with its service, deferred
    or not as the handler says; whatever the handler then returns, the PDU the server
    answers with is read by the client as the answer to that same request: the
    response's octets, or the error's class and code, with a resource error in place of
    a response longer than the association's PDU; and no answer is longer than that,
    short errors aside. *)
Theorem call_answered (w : SWorld) (max_pdu id : Z) (service : Element) (t : Tag) (c : list Z) (r : Res Element) :
  in_u 32 id → sendable service t c → result_ok r →
  handle_pdu w (confirmed_request_pdu id service) =
    Ok (let req := mkRequest id (tag_number t) c in if is_deferred req then sw_push w req else sw_begin w id) ∧
  answer_of (E:=Empty_set) (answer_pdu max_pdu id r) = Ok (Some (id, told max_pdu id r)) ∧
  (max_pdu > 0 → zlen (answer_pdu max_pdu id r) ≤ max_pdu `max` 67).
Proof.
  intros Hid Hs Hr. split_and!.
  - destruct (confirmed_pdu_read TAG_CONFIRMED_REQUEST id service t c) as [d Hd]; [done..|].
    destruct Hs as (Hw & Ht & Hl). unfold handle_pdu, confirmed_request_pdu. rewrite Hd. unfold ok. rewrite bind_Ok.
    rewrite decide_True by done. rewrite (parse_confirmed_request_built id service t c) by (done || (unfold tag_sized in Ht; split; simpl; [unfold tag_wf, in_u; lia|lia])).
    by rewrite bind_Ok.
  - by apply answer_told.
  - intros Hm. destruct r as [resp|e]; simpl.
    + unfold response_pdu. case_decide as Hd; [|lia].
      pose proof (error_pdu_short id resource_error Hid ltac:(done)). lia.
    + pose proof (error_pdu_short id e Hid Hr). lia.
Qed.

(** ** Requests are answered in order, with what belongs around the response *)

Definition loop_event (e : Event) : bool :=
  match e with LoopWrite _ | LoopQueue _ _ => true | _ => false end.
Definition loop_events (log : list Event) : list Event := filter (λ e, loop_event e = true) log.

(** What the writer task was given, and what it wrote. *)
Definition queued (e : Event) : option (list Z) :=
  match e with LoopQueue pdu true | Queued pdu => Some pdu | _ => None end.
Definition pumped (e : Event) : option (list Z) := match e with PumpWrite pdu => Some pdu | _ => None end.

(** The events of a request that was answered: the PDUs held to go first, in order,
    then the one answer, then the PDUs held to follow, in order, to the queue. *)
Definition rendered (max_pdu : Z) (sv : Served) (es : list Event) : Prop :=
  ∃ flags, length flags = length (sv_after sv) ∧
    es = map LoopWrite (sv_first sv) ++ [LoopWrite (answer_pdu max_pdu (sv_invoke_id sv) (sv_result sv))] ++
         zip_with LoopQueue (sv_after sv) flags.

(** The request the loop is at. *)
Definition current (t : Serving) : list Z :=
  match t with
  | Handling id | Sending _ id _ _ | Queueing id _ _ => [id]
  | Waiting | Replying _ _ | Ended _ => []
  end.

(** The events so far of the request the loop is at. *)
Definition progress (max_pdu : Z) (w : SWorld) (cur : list Event) : Prop :=
  match sw_task w with
  | Waiting | Replying _ _ | Handling _ => cur = []
  | Sending todo id r after =>
      after = sw_after w ∧ ∃ done, sw_first w = done ++ todo ∧ cur = map LoopWrite done
  | Queueing id r todo =>
      ∃ done flags, sw_after w = done ++ todo ∧ length flags = length done ∧
        cur = map LoopWrite (sw_first w) ++ [LoopWrite (answer_pdu max_pdu id r)] ++ zip_with LoopQueue done flags
  | Ended _ => ∃ done todo, sw_first w = done ++ todo ∧ cur = map LoopWrite done
  end.

Definition held_ok (w : SWorld) : Prop :=
  let s := sw_s w in
  match sw_task w with
  | Handling _ => sc_in_request s = true ∧ sc_before s = sw_first w ∧ sc_after s = sw_after w
  | _ => sc_in_request s = false ∧ sc_before s = [] ∧ sc_after s = []
  end.

Record SInv (max_pdu : Z) (w : SWorld) : Prop := mkSInv {
  si_max : sc_max_pdu (sw_s w) = max_pdu;
  si_held : held_ok w;
  si_log : ∃ parts cur, loop_events (sw_log w) = concat parts ++ cur ∧
    Forall2 (rendered max_pdu) (sw_served w) parts ∧ progress max_pdu w cur;
  si_arrived : match sw_task w with
               | Ended _ => ∃ last, sw_arrived w = map sv_invoke_id (sw_served w) ++ last ∧ (length last ≤ 1)%nat
               | t => sw_arrived w = map sv_invoke_id (sw_served w) ++ current t
               end;
  si_fifo : ∃ rest, omap queued (sw_log w) = omap pumped (sw_log w) ++ rest ∧
    (sc_pump (sw_s w) = true → rest = option_list (sc_hand (sw_s w)) ++ sc_queue (sw_s w));
  si_hand : is_Some (sc_hand (sw_s w)) → sc_pump (sw_s w) = true;
}.

Lemma SWorld_new_SInv f max_pdu : SInv max_pdu (SWorld_new f max_pdu).
Proof. split; try done. - exists [], []. done. - exists []. done. Qed.

(** Nothing the invariant speaks of changes. *)
Lemma SInv_quiet max_pdu w w' :
  SInv max_pdu w → sc_max_pdu (sw_s w') = sc_max_pdu (sw_s w) → sc_in_request (sw_s w') = sc_in_request (sw_s w) →
  sc_before (sw_s w') = sc_before (sw_s w) → sc_after (sw_s w') = sc_after (sw_s w) →
  sc_pump (sw_s w') = sc_pump (sw_s w) → sc_hand (sw_s w') = sc_hand (sw_s w) → sc_queue (sw_s w') = sc_queue (sw_s w) →
  sw_task w' = sw_task w → sw_log w' = sw_log w → sw_arrived w' = sw_arrived w → sw_served w' = sw_served w →
  sw_first w' = sw_first w → sw_after w' = sw_after w → SInv max_pdu w'.
Proof.
  intros [H1 H2 H3 H4 H5 H6] E1 E2 E3 E4 E5 E6 E7 E8 E9 E10 E11 E12 E13. unfold held_ok, progress in *.
  split; unfold held_ok, progress; by rewrite ?E1, ?E2, ?E3, ?E4, ?E5, ?E6, ?E7, ?E8, ?E9, ?E10, ?E11, ?E12, ?E13.
Qed.

(** What a poll of a write leaves. *)
Lemma poll_send_quiet max_pdu w t pdu r w' :
  SInv max_pdu w → poll_send w t pdu = Ok (r, w') →
  SInv max_pdu w' ∧ sw_task w' = sw_task w ∧ sc_hand (sw_s w') = sc_hand (sw_s w) ∧ sc_pump (sw_s w') = sc_pump (sw_s w) ∧
  sw_first w' = sw_first w ∧ sw_after w' = sw_after w ∧ sc_max_pdu (sw_s w') = max_pdu.
Proof.
  intros Hw. pose proof (si_max _ _ Hw) as Hmax. unfold poll_send. case_decide.
  - unfold send. destruct (send_mms _ _); [| |done..]; intros [= <- <-]; (split; [by eapply SInv_quiet|done]).
  - case_decide; intros [= <- <-]; (split; [by eapply SInv_quiet|done]).
Qed.

Lemma loop_events_snoc log e : loop_events (log ++ [e]) = loop_events log ++ (if loop_event e then [e] else []).
Proof. unfold loop_events. rewrite filter_app. f_equal. by destruct e. Qed.

Lemma omap_snoc {A B} (f : A → option B) l x : omap f (l ++ [x]) = omap f l ++ option_list (f x).
Proof. rewrite omap_app. simpl. by destruct (f x). Qed.

(** An event that is neither the loop's nor the writer task's. *)
Lemma SInv_event max_pdu w e :
  SInv max_pdu w → loop_event e = false → queued e = None → pumped e = None → SInv max_pdu (sw_event w e).
Proof.
  intros [H1 H2 H3 H4 H5 H6] El Eq Ep. split; try done; simpl.
  - rewrite loop_events_snoc, El, app_nil_r. done.
  - rewrite !omap_snoc, Eq, Ep. simpl. by rewrite !app_nil_r.
Qed.

(** The loop moves between points where it has held nothing back. *)
Lemma SInv_at max_pdu w t :
  SInv max_pdu w → match sw_task w with Waiting | Replying _ _ => True | _ => False end →
  match t with Waiting | Replying _ _ => True | _ => False end → SInv max_pdu (sw_at w t).
Proof.
  intros [H1 H2 H3 H4 H5 H6] Hw Ht. unfold held_ok, progress in *.
  split; try done; unfold held_ok, progress; simpl; destruct (sw_task w), t; done.
Qed.

Lemma SInv_ended max_pdu w r :
  SInv max_pdu w → match sw_task w with Handling _ | Queueing _ _ _ => False | _ => True end → SInv max_pdu (end_serve w r).
Proof.
  intros [H1 H2 H3 H4 H5 H6] Ht. unfold held_ok, progress in *.
  split; try done; unfold held_ok, progress; simpl.
  - by destruct (sw_task w).
  - destruct H3 as (parts & cur & Hl & Hp & Hc). exists parts, cur. split_and!; [done..|].
    destruct (sw_task w) eqn:E; try done; subst.
    + exists [], (sw_first w). done.
    + destruct Hc as (_ & dn & Hd & ->). eauto.
    + exists [], (sw_first w). done.
  - destruct (sw_task w) eqn:E; try done; (eexists; split; [exact H4|simpl; lia]).
Qed.

Lemma handle_pdu_SInv max_pdu w pdu w' :
  SInv max_pdu w → sw_task w = Waiting → handle_pdu w pdu = Ok w' → SInv max_pdu w'.
Proof.
  intros Hw Ht. unfold handle_pdu. intros ([[[tag content] d]|] & _ & H)%bind_Ok_inv; [|by injection H as <-]. revert H.
  case_decide.
  { intros ([req|] & _ & [= <-])%bind_Ok_inv; [|done]. destruct (is_deferred req); [by eapply SInv_quiet|].
    destruct Hw as [H1 H2 H3 H4 H5 H6]. unfold held_ok, progress in *. rewrite Ht in *.
    split; try done; unfold held_ok, progress; simpl.
    - destruct H2 as (_ & -> & ->). done.
    - by rewrite H4, app_nil_r. }
  case_decide. { unfold deliver_call. intros (s & (r & _ & [= <-])%bind_Ok_inv & [= <-])%bind_Ok_inv. destruct r as [[id res]|]; by eapply SInv_quiet. }
  case_decide.
  { unfold cancel_answer. intros ([reply s] & (n & _ & Hn)%bind_Ok_inv & Hr)%bind_Ok_inv.
    destruct n as [n|]; [|simplify_eq; by eapply SInv_quiet].
    destruct (tb_senders _ !! _); simplify_eq; (apply SInv_at; [by eapply SInv_quiet|simpl; by rewrite Ht|done]). }
  case_decide; intros [= <-]; [|done]. apply SInv_at; [done|by rewrite Ht|done].
Qed.

Lemma handled_SInv max_pdu w id r :
  SInv max_pdu w → sw_task w = Handling id →
  SInv max_pdu (sw_at (sw_with w (with_held (sw_s w) false [] [])) (Sending (sc_before (sw_s w)) id r (sc_after (sw_s w)))).
Proof.
  intros [H1 H2 H3 H4 H5 H6] Ht. unfold held_ok, progress in *. rewrite Ht in *. destruct H2 as (_ & -> & ->).
  split; try done; unfold held_ok, progress; simpl.
  destruct H3 as (parts & cur & Hl & Hp & ->). exists parts, []. split_and!; try done. by exists [].
Qed.

(** What the loop wrote for the request it is at. *)
Lemma SInv_wrote max_pdu w pdu t :
  SInv max_pdu w →
  match sw_task w, t with
  | Sending (p :: before) id r after, Sending before' id' r' after' => p = pdu ∧ before' = before ∧ id' = id ∧ r' = r ∧ after' = after
  | Sending [] id r after, Queueing id' r' after' => pdu = answer_pdu max_pdu id r ∧ id' = id ∧ r' = r ∧ after' = after
  | _, _ => False
  end → SInv max_pdu (sw_at (sw_event w (LoopWrite pdu)) t).
Proof.
  intros [H1 H2 H3 H4 H5 H6] Ht. unfold held_ok, progress in *.
  destruct (sw_task w) as [| |[|p before] id r after| | |] eqn:E; try done; destruct t; try done; destruct_and! Ht; subst.
  all: split; try done; unfold held_ok, progress; simpl.
  all: try (by rewrite !omap_snoc, !app_nil_r).
  all: destruct H3 as (parts & cur & Hl & Hp & -> & dn & Hd & ->); eexists parts, _; rewrite loop_events_snoc, Hl; simpl;
    rewrite <-app_assoc; (split; [done|]); (split; [done|]).
  - exists [], []. rewrite app_nil_r in Hd. subst. done.
  - split; [done|]. exists (dn ++ [pdu]). rewrite Hd, map_app, <-app_assoc. done.
Qed.

Lemma try_send_parts s pdu taken s' :
  try_send s pdu = (taken, s') →
  sc_max_pdu s' = sc_max_pdu s ∧ sc_in_request s' = sc_in_request s ∧ sc_before s' = sc_before s ∧
  sc_after s' = sc_after s ∧ sc_pump s' = sc_pump s ∧ sc_hand s' = sc_hand s ∧
  sc_queue s' = sc_queue s ++ (if taken then [pdu] else []).
Proof. unfold try_send. case_decide; intros [= <- <-]; simpl; by rewrite ?app_nil_r. Qed.

(** What was put in the queue is behind what was there. *)
Lemma fifo_push (q p rest : list (list Z)) (taken : bool) pdu hand queue (alive : Prop) :
  q = p ++ rest → (alive → rest = hand ++ queue) →
  ∃ rest', q ++ (if taken then [pdu] else []) = p ++ rest' ∧ (alive → rest' = hand ++ queue ++ (if taken then [pdu] else [])).
Proof.
  intros -> H. exists (rest ++ (if taken then [pdu] else [])). rewrite app_assoc. split; [done|].
  intros Ha. by rewrite (H Ha), <-app_assoc.
Qed.

Lemma queueing_SInv max_pdu w id r pdu after taken s' :
  SInv max_pdu w → sw_task w = Queueing id r (pdu :: after) → try_send (sw_s w) pdu = (taken, s') →
  SInv max_pdu (sw_at (sw_event (sw_with w s') (LoopQueue pdu taken)) (Queueing id r after)).
Proof.
  intros [H1 H2 H3 H4 H5 H6] Ht (E1 & E2 & E3 & E4 & E5 & E6 & E7)%try_send_parts. unfold held_ok, progress in *. rewrite Ht in *.
  split; try done; unfold held_ok, progress; simpl; rewrite ?E1, ?E2, ?E3, ?E4, ?E5, ?E6, ?E7; try done.
  - destruct H3 as (parts & cur & Hl & Hp & dn & flags & Ha & Hf & ->). eexists parts, _.
    rewrite loop_events_snoc, Hl. simpl. rewrite <-app_assoc. split; [done|]. split; [done|].
    exists (dn ++ [pdu]), (flags ++ [taken]). rewrite <-app_assoc, !length_app, Hf. split_and!; [done..|].
    rewrite zip_with_app by done. simpl. by rewrite <-!app_assoc.
  - destruct H5 as (rest & Hq & Hr). rewrite !omap_snoc. simpl. rewrite app_nil_r.
    destruct (fifo_push _ _ _ taken pdu (option_list (sc_hand (sw_s w))) (sc_queue (sw_s w)) (sc_pump (sw_s w) = true) Hq Hr)
      as (rest' & Hq' & Hr'). exists rest'. split; [|done]. destruct taken; [done|]. by rewrite app_nil_r in Hq' |- *.
Qed.

Lemma queued_SInv max_pdu w id r :
  SInv max_pdu w → sw_task w = Queueing id r [] →
  SInv max_pdu (mkSWorld (sw_s w) (sw_lock w) Waiting (sw_deferred w) (sw_next w) (sw_log w) (sw_arrived w)
    (sw_served w ++ [mkServed id (sw_first w) r (sw_after w)]) (sw_first w) (sw_after w)).
Proof.
  intros [H1 H2 H3 H4 H5 H6] Ht. unfold held_ok, progress in *. rewrite Ht in *.
  split; try done; unfold held_ok, progress; simpl.
  - destruct H3 as (parts & cur & Hl & Hp & dn & flags & Ha & Hf & Hc). rewrite app_nil_r in Ha. subst dn.
    exists (parts ++ [cur]), []. rewrite concat_app, app_nil_r. cbn [concat]. rewrite app_nil_r. split; [exact Hl|].
    split; [|done]. apply Forall2_app; [done|]. constructor; [|constructor]. by exists flags.
  - rewrite map_app, app_nil_r. done.
Qed.

Lemma loop_step_SInv max_pdu w w' : SInv max_pdu w → loop_step w = Ok w' → SInv max_pdu w'.
Proof.
  intros Hw. unfold loop_step. destruct (sw_task w) as [|id|[|pdu before] id r after|id r [|pdu after]|pdu last|] eqn:Ht.
  - by intros [= <-].
  - by intros [= <-].
  - intros ([sent w1] & Hs & [= <-])%bind_Ok_inv. destruct (poll_send_quiet _ _ _ _ _ _ Hw Hs) as (Hw1 & Ht1 & _).
    pose proof (si_max _ _ Hw) as Hm. destruct sent as [[|e]|]; [| |done].
    + apply SInv_wrote; [done|]. rewrite Ht1, Ht, Hm. done.
    + apply SInv_ended; [done|]. by rewrite Ht1, Ht.
  - intros ([sent w1] & Hs & [= <-])%bind_Ok_inv. destruct (poll_send_quiet _ _ _ _ _ _ Hw Hs) as (Hw1 & Ht1 & _).
    destruct sent as [[|e]|]; [| |done].
    + apply SInv_wrote; [done|]. by rewrite Ht1, Ht.
    + apply SInv_ended; [done|]. by rewrite Ht1, Ht.
  - intros [= <-]. by apply queued_SInv.
  - destruct (try_send (sw_s w) pdu) as [taken s] eqn:E. intros [= <-]. by eapply queueing_SInv.
  - intros ([sent w1] & Hs & [= <-])%bind_Ok_inv. destruct (poll_send_quiet _ _ _ _ _ _ Hw Hs) as (Hw1 & Ht1 & _).
    destruct sent as [[|e]|]; [| |done].
    + assert (SInv max_pdu (sw_event w1 (ReplyWrite pdu))) by by apply SInv_event.
      destruct last; [apply SInv_ended|apply SInv_at]; simpl; try done; by rewrite Ht1, Ht.
    + apply SInv_ended; [done|]. by rewrite Ht1, Ht.
  - by intros [= <-].
Qed.

Lemma unconfirmed_SInv max_pdu w service first : SInv max_pdu w → SInv max_pdu (s_unconfirmed w service first).
Proof.
  intros Hw. pose proof Hw as [H1 H2 H3 H4 H5 H6]. unfold s_unconfirmed, send_unconfirmed, hold.
  destruct (sc_in_request (sw_s w)) eqn:Eh.
  - unfold held_ok, progress in *. destruct (sw_task w) eqn:Ht; try (destruct H2 as [? _]; congruence).
    destruct H2 as (_ & Hb & Ha). destruct first; split; try done; unfold held_ok, progress; simpl; rewrite ?Ht; try done; by rewrite ?Hb, ?Ha.
  - destruct (try_send (sw_s w) (unconfirmed_pdu service)) as [taken s] eqn:E.
    apply try_send_parts in E as (E1 & E2 & E3 & E4 & E5 & E6 & E7). unfold held_ok, progress in *.
    split; unfold held_ok, progress; simpl; rewrite ?E1, ?E2, ?E3, ?E4, ?E5, ?E6, ?E7; try done.
    + destruct taken; [|done]. rewrite loop_events_snoc. simpl. by rewrite app_nil_r.
    + destruct H5 as (rest & Hq & Hr).
      destruct (fifo_push _ _ _ taken (unconfirmed_pdu service) (option_list (sc_hand (sw_s w))) (sc_queue (sw_s w))
        (sc_pump (sw_s w) = true) Hq Hr) as (rest' & Hq' & Hr'). exists rest'. split; [|done].
      destruct taken; [|by rewrite app_nil_r in Hq']. rewrite !omap_snoc. simpl. by rewrite app_nil_r.
Qed.

Lemma pump_take_SInv max_pdu w : SInv max_pdu w → SInv max_pdu (sw_with w (pump_take (sw_s w))).
Proof.
  intros Hw. pose proof Hw as [H1 H2 H3 H4 H5 H6]. unfold pump_take.
  destruct (sc_pump (sw_s w)) eqn:Ep; [|by destruct w].
  destruct (sc_hand (sw_s w)) eqn:Eh; [by destruct w|]. destruct (sc_queue (sw_s w)) as [|pdu q] eqn:Eq; [by destruct w|].
  destruct H5 as (rest & Hq & Hr). split; try done; simpl. exists rest. split; [done|]. by intros _; rewrite Hr.
Qed.

Lemma pump_wrote_SInv max_pdu w pdu :
  SInv max_pdu w → sc_hand (sw_s w) = Some pdu → sc_pump (sw_s w) = true →
  SInv max_pdu (sw_event (sw_with w (pump_wrote (sw_s w) true)) (PumpWrite pdu)).
Proof.
  intros [H1 H2 H3 H4 H5 H6] Hh Hp. unfold held_ok, progress in *. split; try done; simpl.
  - rewrite loop_events_snoc. simpl. by rewrite app_nil_r.
  - destruct H5 as (rest & Hq & Hr). rewrite Hh in Hr. specialize (Hr Hp). simpl in Hr. subst rest.
    rewrite !omap_snoc. simpl. rewrite app_nil_r, Hq. exists (sc_queue (sw_s w)). by rewrite <-app_assoc.
  - by rewrite Hp.
Qed.

(** A writer task that failed or was stopped writes nothing more. *)
Lemma pump_stopped_SInv max_pdu w q l :
  SInv max_pdu w → SInv max_pdu (sw_locked (sw_with w (with_queue (sw_s w) q None false)) l).
Proof.
  intros [H1 H2 H3 H4 (rest & Hq & _) H6]. split; try done; simpl; [by exists rest|by intros [? [=]]].
Qed.

Lemma poll_deferred_SInv max_pdu w n w' : SInv max_pdu w → poll_deferred w n = Ok w' → SInv max_pdu w'.
Proof.
  intros Hw. unfold poll_deferred. destruct (sw_deferred w !! n) as [[req|id ch|id ch cid service|pdu]|].
  - intros [= <-]. by eapply SInv_quiet.
  - destruct (received _ _); intros [= <-]; by eapply SInv_quiet.
  - intros ([sent w1] & Hs & [= <-])%bind_Ok_inv. destruct (poll_send_quiet _ _ _ _ _ _ Hw Hs) as (Hw1 & _).
    destruct sent as [[|e]|]; [|by eapply SInv_quiet|done]. eapply SInv_quiet; [by apply (SInv_event _ _ (DeferredWrite n (confirmed_request_pdu cid service)) Hw1)|done..].
  - intros ([sent w1] & Hs & [= <-])%bind_Ok_inv. destruct (poll_send_quiet _ _ _ _ _ _ Hw Hs) as (Hw1 & _).
    destruct sent as [[|e]|]; [|by eapply SInv_quiet|done]. eapply SInv_quiet; [by apply (SInv_event _ _ (DeferredWrite n pdu) Hw1)|done..].
  - by intros [= <-].
Qed.

Lemma s_exec_SInv max_pdu w op w' :
  SInv max_pdu w → s_exec w op = Ok w' → SInv max_pdu w'.
Proof.
  intros Hw. destruct op; cbn [s_exec].
  - destruct (sw_task w) eqn:Ht; try (by intros [= <-]). by apply handle_pdu_SInv.
  - destruct (sw_task w) eqn:Ht; intros [= <-]; try done. apply SInv_ended; [done|]. by rewrite Ht.
  - destruct (sw_task w) eqn:Ht; intros [= <-]; try done. by apply handled_SInv.
  - by apply loop_step_SInv.
  - intros [= <-]. by apply unconfirmed_SInv.
  - intros [= <-]. by apply pump_take_SInv.
  - destruct (sc_hand (sw_s w)) as [pdu|] eqn:Eh; [|by intros [= <-]].
    assert (sc_pump (sw_s w) = true) as Hp by (apply (si_hand _ _ Hw); by eexists).
    intros ([sent w1] & Hs & [= <-])%bind_Ok_inv. destruct (poll_send_quiet _ _ _ _ _ _ Hw Hs) as (Hw1 & _ & Hh1 & Hp1 & _).
    destruct sent as [[|e]|]; [| |done].
    + apply pump_wrote_SInv; [done|congruence|congruence].
    + unfold pump_wrote. rewrite andb_false_r.
      eapply SInv_quiet; [by apply (pump_stopped_SInv _ w1 (sc_queue (sw_s w1)) (sw_lock w1))|done..].
  - destruct (sw_task w) eqn:Ht; try (by intros [= <-]). by apply poll_deferred_SInv.
  - destruct (sw_task w) eqn:Ht; try (by intros [= <-]).
    destruct (sw_deferred w !! n) as [[]|]; intros [= <-]; try done; by eapply SInv_quiet.
  - destruct (sw_task w) eqn:Ht; try (by intros [= <-]).
    destruct (sw_deferred w !! n) as [[]|]; try (by intros [= <-]). unfold call_register. case_decide; [|done].
    intros [= <-]. by eapply SInv_quiet.
  - intros [= <-]. by apply pump_stopped_SInv.
Qed.

Lemma s_execute_SInv max_pdu ops : ∀ w w', SInv max_pdu w → s_execute w ops = Ok w' → SInv max_pdu w'.
Proof.
  induction ops as [|op ops IH]; intros w w' Hw; [by intros [= <-]|]. unfold s_execute. cbn [for_each].
  intros (w1 & H1 & H2)%bind_Ok_inv. eapply IH; [by eapply s_exec_SInv|exact H2].
Qed.

(** The octets on the transport are those of the writes, one after the other. *)
Definition written (e : Event) : option (list Z) :=
  match e with
  | LoopWrite pdu | PumpWrite pdu | ReplyWrite pdu | DeferredWrite _ pdu => Some pdu
  | LoopQueue _ _ | Queued _ => None
  end.

Definition writes_are (f : Framing) (w : SWorld) : Prop :=
  for_each (omap written (sw_log w)) send_mms f = Ok (sc_writer (sw_s w)).

Lemma for_each_snoc {E A B} (l : list A) x (f : B → A → outcome E B) : ∀ s s' s'',
  for_each l f s = Ok s' → f s' x = Ok s'' → for_each (l ++ [x]) f s = Ok s''.
Proof.
  induction l as [|y l IH]; intros s s' s''; cbn [for_each app].
  - intros [= ->] ->. done.
  - intros (s1 & H1 & H2)%bind_Ok_inv H. rewrite H1. cbn [mbind outcome_bind]. by eapply IH.
Qed.

Lemma writes_quiet f w w' :
  writes_are f w → sw_log w' = sw_log w → sc_writer (sw_s w') = sc_writer (sw_s w) → writes_are f w'.
Proof. unfold writes_are. by intros ? -> ->. Qed.

Lemma writes_event f w e w' :
  writes_are f w → written e = None → sw_log w' = sw_log w ++ [e] → sc_writer (sw_s w') = sc_writer (sw_s w) → writes_are f w'.
Proof. unfold writes_are. intros H He -> ->. by rewrite omap_snoc, He, app_nil_r. Qed.

(** A poll of a write changes the log at most by what it writes. *)
Lemma poll_send_writes f w t pdu r w1 e w' :
  writes_are f w → poll_send w t pdu = Ok (r, w1) → written e = Some pdu →
  sw_log w' = (match r with Some (inl _) => sw_log w1 ++ [e] | _ => sw_log w1 end) →
  sc_writer (sw_s w') = sc_writer (sw_s w1) → writes_are f w'.
Proof.
  unfold writes_are, poll_send, send. intros Hw Hp He -> ->. revert Hp. case_decide; [|case_decide; by intros [= <- <-]].
  destruct (send_mms (sc_writer (sw_s w)) pdu) as [f'| | |] eqn:Es; [| |done..]; cbn [mbind outcome_bind]; intros [= <- <-]; simpl; [|done].
  rewrite omap_snoc, He. simpl. by eapply for_each_snoc.
Qed.

Lemma loop_step_writes f w w' : writes_are f w → loop_step w = Ok w' → writes_are f w'.
Proof.
  intros Hw. unfold loop_step. destruct (sw_task w) as [|id|[|pdu before] id r after|id r [|pdu after]|pdu last|].
  all: try (by intros [= <-]).
  - intros ([sent w1] & Hs & [= <-])%bind_Ok_inv.
    eapply (poll_send_writes _ _ _ _ _ _ (LoopWrite _) _ Hw Hs); [done|by destruct sent as [[]|]..].
  - intros ([sent w1] & Hs & [= <-])%bind_Ok_inv.
    eapply (poll_send_writes _ _ _ _ _ _ (LoopWrite _) _ Hw Hs); [done|by destruct sent as [[]|]..].
  - destruct (try_send (sw_s w) pdu) as [taken s] eqn:E. intros [= <-].
    eapply (writes_event _ w (LoopQueue pdu taken)); [done|done|done|]. revert E. unfold try_send. simpl. case_decide; by intros [= <- <-].
  - intros ([sent w1] & Hs & [= <-])%bind_Ok_inv.
    eapply (poll_send_writes _ _ _ _ _ _ (ReplyWrite _) _ Hw Hs); [done|by destruct sent as [[]|], last..].
Qed.

Lemma poll_deferred_writes f w n w' : writes_are f w → poll_deferred w n = Ok w' → writes_are f w'.
Proof.
  intros Hw. unfold poll_deferred. destruct (sw_deferred w !! n) as [[req|id ch|id ch cid service|pdu]|].
  - by intros [= <-].
  - destruct (received _ _); by intros [= <-].
  - intros ([sent w1] & Hs & [= <-])%bind_Ok_inv.
    eapply (poll_send_writes _ _ _ _ _ _ (DeferredWrite n _) _ Hw Hs); [done|by destruct sent as [[]|]..].
  - intros ([sent w1] & Hs & [= <-])%bind_Ok_inv.
    eapply (poll_send_writes _ _ _ _ _ _ (DeferredWrite n _) _ Hw Hs); [done|by destruct sent as [[]|]..].
  - by intros [= <-].
Qed.

Lemma handle_pdu_writes f w pdu w' : writes_are f w → handle_pdu w pdu = Ok w' → writes_are f w'.
Proof.
  intros Hw. unfold handle_pdu. intros ([[[tag content] d]|] & _ & H)%bind_Ok_inv; [|by injection H as <-]. revert H.
  case_decide. { intros ([req|] & _ & [= <-])%bind_Ok_inv; [|done]. by destruct (is_deferred req). }
  case_decide. { unfold deliver_call. intros (s & (r & _ & [= <-])%bind_Ok_inv & [= <-])%bind_Ok_inv. by destruct r as [[id res]|]. }
  case_decide.
  { unfold cancel_answer. intros ([reply s] & (n & _ & Hn)%bind_Ok_inv & Hr)%bind_Ok_inv.
    destruct n as [n|]; [|by simplify_eq]. destruct (tb_senders _ !! _); by simplify_eq. }
  case_decide; by intros [= <-].
Qed.

Lemma s_exec_writes f w op w' : writes_are f w → s_exec w op = Ok w' → writes_are f w'.
Proof.
  intros Hw. destruct op; cbn [s_exec].
  - destruct (sw_task w); try (by intros [= <-]). by apply handle_pdu_writes.
  - destruct (sw_task w); by intros [= <-].
  - destruct (sw_task w); by intros [= <-].
  - by apply loop_step_writes.
  - intros [= <-]. unfold s_unconfirmed, send_unconfirmed, hold. destruct (sc_in_request _).
    { by destruct first. }
    destruct (try_send (sw_s w) (unconfirmed_pdu service)) as [taken s] eqn:E.
    assert (sc_writer s = sc_writer (sw_s w)) by (revert E; unfold try_send; case_decide; by intros [= <- <-]).
    destruct taken; [by eapply (writes_event _ _ (Queued _))|by eapply writes_quiet].
  - intros [= <-]. unfold pump_take. eapply writes_quiet; [done|done|simpl].
    by destruct (sc_pump (sw_s w)), (sc_hand (sw_s w)), (sc_queue (sw_s w)).
  - destruct (sc_hand (sw_s w)) as [pdu|]; [|by intros [= <-]]. intros ([sent w1] & Hs & [= <-])%bind_Ok_inv.
    eapply (poll_send_writes _ _ _ _ _ _ (PumpWrite _) _ Hw Hs); [done|by destruct sent as [[]|]..].
  - destruct (sw_task w); try (by intros [= <-]). by apply poll_deferred_writes.
  - destruct (sw_task w), (sw_deferred w !! n) as [[]|]; by intros [= <-].
  - destruct (sw_task w), (sw_deferred w !! n) as [[]|]; try (by intros [= <-]).
    unfold call_register. case_decide; [|done]. by intros [= <-].
  - by intros [= <-].
Qed.

Lemma s_execute_writes f ops : ∀ w w', writes_are f w → s_execute w ops = Ok w' → writes_are f w'.
Proof.
  induction ops as [|op ops IH]; intros w w' Hw; [by intros [= <-]|]. unfold s_execute. cbn [for_each].
  intros (w1 & H1 & H2)%bind_Ok_inv. eapply IH; [by eapply s_exec_writes|exact H2].
Qed.

(** C3: Requests are answered one at a time, in the order they came, each once, with
    what belongs around its response. However the loop, the handlers, the task that
    writes reports, the deferred requests and the rest of the server interleave: the
    loop's writes are, request by request, the unconfirmed PDUs held to go first, in
    order, then the one answer, then those held to follow, in order, to the report
    queue; the requests it took up are those it answered and at most one more, none
    when it waits; reports leave in the order they were queued, none twice; and the
    octets on the transport are exactly those writes. *)
Theorem served_in_order (f : Framing) (max_pdu : Z) (ops : list SOp) (w : SWorld) :
  s_execute (SWorld_new f max_pdu) ops = Ok w →
  (∃ parts cur, loop_events (sw_log w) = concat parts ++ cur ∧
     Forall2 (rendered max_pdu) (sw_served w) parts ∧ progress max_pdu w cur) ∧
  (∃ last, sw_arrived w = map sv_invoke_id (sw_served w) ++ last ∧ (length last ≤ 1)%nat ∧
     (sw_task w = Waiting → last = [])) ∧
  omap pumped (sw_log w) `prefix_of` omap queued (sw_log w) ∧
  for_each (omap written (sw_log w)) send_mms f = Ok (sc_writer (sw_s w)).
Proof.
  intros Hw. destruct (s_execute_SInv _ _ _ _ (SWorld_new_SInv f max_pdu) Hw) as [_ _ H3 H4 (rest & Hq & _) _].
  split; [exact H3|]. split; [|split; [by exists rest|by apply (s_execute_writes f ops (SWorld_new f max_pdu) w)]].
  destruct (sw_task w); try (eexists; split; [exact H4|split; [simpl; lia|done]]).
  destruct H4 as (last & H & Hl). by exists last.
Qed.

(** ** A deferred request that is next for the writer *)

(** The loop waits for the lock, which a deferred request has been given. *)
Definition stuck (n : nat) (w : SWorld) : Prop :=
  sw_task w ≠ Waiting ∧ lk_owner (sw_lock w) = Some (TDeferred n) ∧ TLoop ∈ lk_waiters (sw_lock w).

Lemma poll_send_stuck n w t pdu :
  stuck n w → t ≠ TDeferred n → ∃ w', poll_send w t pdu = Ok (None, w') ∧ stuck n w' ∧
    sw_s w' = sw_s w ∧ sw_task w' = sw_task w ∧ sw_log w' = sw_log w ∧ sw_served w' = sw_served w.
Proof.
  intros Hs Ht. pose proof Hs as (Hn & Ho & Hl). unfold poll_send. rewrite decide_False by congruence.
  case_decide; [by exists w|]. eexists. split; [done|]. split; [|done]. unfold acquire. rewrite Ho.
  split_and!; [done..|]. simpl. set_solver.
Qed.

Lemma loop_step_stuck n w : stuck n w →
  match sw_task w with Sending _ _ _ _ | Replying _ _ => True | _ => False end → loop_step w = Ok w.
Proof.
  intros (Hn & Ho & Hl) Ht. unfold loop_step, poll_send. destruct (sw_task w) as [| |[]| | |]; try done.
  all: rewrite decide_False by congruence; by rewrite decide_True.
Qed.

Lemma drop_tasks_stuck l n : lk_owner l = Some (TDeferred n) → TLoop ∈ lk_waiters l →
  lk_owner (drop_tasks l (λ t, bool_decide (t = TPump))) = Some (TDeferred n) ∧
  TLoop ∈ lk_waiters (drop_tasks l (λ t, bool_decide (t = TPump))).
Proof. intros Ho Hl. unfold drop_tasks. simpl. rewrite Ho. simpl. split; [done|]. by apply list_elem_of_filter. Qed.

Lemma s_exec_stuck n w op w' :
  stuck n w → match sw_task w with Sending _ _ _ _ | Replying _ _ => True | _ => False end → s_exec w op = Ok w' →
  stuck n w' ∧ sw_task w' = sw_task w ∧ sw_served w' = sw_served w ∧ omap written (sw_log w') = omap written (sw_log w).
Proof.
  intros Hs Ht. pose proof Hs as (Hn & Ho & Hl). destruct op; cbn [s_exec].
  - destruct (sw_task w) eqn:E; [done|by intros [= <-]..].
  - destruct (sw_task w) eqn:E; [done|by intros [= <-]..].
  - destruct (sw_task w) eqn:E; [done|done|by intros [= <-]..].
  - rewrite (loop_step_stuck n) by done. by intros [= <-].
  - intros [= <-]. unfold s_unconfirmed. destruct (send_unconfirmed _ _ _) as [r s].
    split_and!; [done..|]. simpl. destruct r; [|done]. destruct (sc_in_request _); [done|].
    rewrite omap_snoc. simpl. by rewrite app_nil_r.
  - by intros [= <-].
  - destruct (sc_hand (sw_s w)) as [pdu|]; [|by intros [= <-]].
    destruct (poll_send_stuck n w TPump pdu Hs) as (w1 & -> & Hs1 & _ & E1 & E2 & E3); [done|].
    intros [= <-]. by rewrite E1, E2, E3.
  - destruct (sw_task w) eqn:E; [done|by intros [= <-]..].
  - destruct (sw_task w) eqn:E; [done|by intros [= <-]..].
  - destruct (sw_task w) eqn:E; [done|by intros [= <-]..].
  - intros [= <-]. split_and!; try done. split; [done|]. by apply drop_tasks_stuck.
Qed.

(** C25: A deferred request can stop its association for good. Deferred requests are
    polled only while the loop waits for a PDU. Once one of them has been handed the
    writer's lock while the loop waits for the same lock in answering another request,
    nothing is written again, neither answers nor reports, and the loop never gets
    back to reading, whatever runs afterwards. *)
Theorem deferred_deadlock (n : nat) (w : SWorld) (before after : list (list Z)) (id : Z) (r : Res Element)
    (ops : list SOp) (w' : SWorld) :
  sw_task w = Sending before id r after → lk_owner (sw_lock w) = Some (TDeferred n) → TLoop ∈ lk_waiters (sw_lock w) →
  s_execute w ops = Ok w' →
  sw_task w' = sw_task w ∧ sw_served w' = sw_served w ∧ omap written (sw_log w') = omap written (sw_log w).
Proof.
  intros Ht Ho Hl. assert (stuck n w) as Hs by (split_and!; [by rewrite Ht|done..]).
  assert (match sw_task w with Sending _ _ _ _ | Replying _ _ => True | _ => False end) as Hm by by rewrite Ht.
  clear Ht Ho Hl. revert w Hs Hm. induction ops as [|op ops IH]; intros w Hs Hm; [by intros [= <-]|].
  unfold s_execute. cbn [for_each]. intros (w1 & H1 & H2)%bind_Ok_inv.
  destruct (s_exec_stuck n w op w1 Hs Hm H1) as (Hs1 & Et & Es & El).
  destruct (IH w1 Hs1) as (? & ? & ?); [by rewrite Et|exact H2|]. split_and!; congruence.
Qed.

(** ** No PDU panics either end *)

Lemma call_answer_settled {E} tag content : octets content → settled (parse_call_answer (E:=E) tag content).
Proof.
  intros Ho. apply (returns_settled (λ _, True)). unfold parse_call_answer. case_decide.
  - eapply ok_reading_bind; [apply reading_optional; by apply Decoder_new_wf| |done]. intros [b|] d Hb _; [|done].
    eapply (returns_bind (in_u 64)); [by apply unwrap_or_returns; [apply decode_uint_returns|]|]. done.
  - eapply returns_bind; [by apply ok_returns, split_invoke_returns|]. intros [[id body]|] Hb; [|done]. destruct Hb as [_ Hb].
    case_decide; [done|]. eapply returns_bind; [by apply decode_service_error_returns|]. done.
Qed.

(** C22: No PDU a peer sends panics either end of an association: the client's reader
    and the server's loop get past any sequence of octets. *)
Theorem pdus_never_panic (s : Shared T) (w : SWorld) (pdu : list Z) :
  octets pdu → (∃ s', dispatch (E:=Empty_set) s pdu = Ok s') ∧ (∃ w', handle_pdu w pdu = Ok w').
Proof.
  intros Ho. split; [by apply dispatch_total|].
  apply settled_Ok, (returns_settled (λ _, True)). unfold handle_pdu.
  eapply ok_reading_bind; [apply reading_read_tlv; by apply Decoder_new_wf| |done]. intros [tag content] d Hc _. simpl in Hc.
  case_decide. { eapply returns_bind; [by apply parse_confirmed_request_returns|]. by intros [req|]. }
  case_decide.
  { eapply (returns_bind (λ _, True)); [|done]. unfold deliver_call.
    eapply returns_bind; [apply returns_intro, (λ _ _, I); by apply call_answer_settled|]. done. }
  case_decide; [|by case_decide].
  eapply (returns_bind (λ _, True)); [|by intros []]. unfold cancel_answer.
  eapply returns_bind; [by apply ok_returns, decode_uint_returns|]. done.
Qed.
End server.

Arguments SConn : clear implicits.
Arguments SWorld : clear implicits.

(** ** At concrete inputs *)

(** Requests of service [0] are deferred. *)
Definition a_deferred (req : Request) : bool := bool_decide (rq_service req = 0).

Definition A_SERVICE : Element := prim (context_primitive 1) [1].

(** A request with a report held first, one held after, and one from another task. *)
Definition a_served : list SOp :=
  [SArrive (confirmed_request_pdu 3 A_SERVICE); SUnconfirmed AN_ELEMENT false; SUnconfirmed A_SERVICE true; SHandled (inl A_SERVICE);
   SLoop; SLoop; SUnconfirmed A_SERVICE false; SLoop; SLoop; SLoop; SLoop; SPumpTake; SPumpWrite; SPumpWrite].

Lemma served_in_order_witness :
  ∃ w, s_execute a_deferred (SWorld_new a_framing 1000) a_served = Ok w ∧ sw_arrived w = [3] ∧
    loop_events (sw_log w) = [LoopWrite (unconfirmed_pdu A_SERVICE); LoopWrite (response_pdu 1000 3 A_SERVICE);
                              LoopQueue (unconfirmed_pdu AN_ELEMENT) true] ∧
    omap pumped (sw_log w) `prefix_of` omap queued (sw_log w).
Proof.
  destruct (s_execute a_deferred (SWorld_new a_framing 1000) a_served) as [w|?| |] eqn:E; [|by vm_compute in E..].
  exists w. split; [done|].
  assert (sw_arrived w = [3] ∧
    loop_events (sw_log w) = [LoopWrite (unconfirmed_pdu A_SERVICE); LoopWrite (response_pdu 1000 3 A_SERVICE);
                              LoopQueue (unconfirmed_pdu AN_ELEMENT) true]) as (Ha & Hl)
    by (vm_compute in E; injection E as <-; by vm_compute).
  split_and!; [done..|]. apply (served_in_order a_deferred a_framing 1000 a_served w E).
Defined.

(** A report is being written when a deferred request ends, and another request is
    answered before the deferred one is polled again. *)
Definition a_deadlock : list SOp :=
  [SArrive (confirmed_request_pdu 1 AN_ELEMENT); SPoll 0; SUnconfirmed A_SERVICE false; SPumpTake; SPumpWrite;
   SDeferredDone 0 (inl AN_ELEMENT); SPoll 0; SArrive (confirmed_request_pdu 2 A_SERVICE); SHandled (inl A_SERVICE);
   SLoop; SPumpWrite].

Lemma deferred_deadlock_witness :
  ∃ w, s_execute a_deferred (SWorld_new a_framing 1000) a_deadlock = Ok w ∧
    ∀ n w', s_execute a_deferred w (concat (replicate n [SLoop; SPoll 0; SPumpWrite])) = Ok w' →
      sw_task w' = Sending [] 2 (inl A_SERVICE) [].
Proof.
  destruct (s_execute a_deferred (SWorld_new a_framing 1000) a_deadlock) as [w|?| |] eqn:E; [|by vm_compute in E..].
  exists w. split; [done|]. intros n w' Hw'.
  assert (sw_task w = Sending [] 2 (inl A_SERVICE) [] ∧ sw_lock w = mkLock (Some (TDeferred 0)) [TLoop]) as (Ht & Hk)
    by (vm_compute in E; injection E as <-; by vm_compute).
  rewrite <-Ht. eapply (deferred_deadlock a_deferred 0 w); [exact Ht|by rewrite Hk|rewrite Hk; by apply list_elem_of_here|exact Hw'].
Defined.

Lemma call_answered_witness :
  ∃ w, handle_pdu a_deferred (SWorld_new a_framing 1000) (confirmed_request_pdu 3 A_SERVICE) = Ok w ∧
    sw_task w = Handling 3 ∧ answer_of (E:=Empty_set) (answer_pdu 1000 3 (inl A_SERVICE)) = Ok (Some (3, inl [0x81; 1; 1])).
Proof.
  assert (sendable A_SERVICE (context_primitive 1) [1]) as Hs by (split; [by apply writes_prim|done]).
  destruct (call_answered a_deferred (SWorld_new a_framing 1000) 1000 3 A_SERVICE (context_primitive 1) [1] (inl A_SERVICE))
    as (H1 & H2 & _); [done|done|by eexists _, _|].
  rewrite H1. eexists. split; [done|]. split; [done|]. rewrite H2. by vm_compute.
Defined.

Lemma pdus_never_panic_witness :
  ∃ s' w', dispatch (E:=Empty_set) (wd_s (World_new a_framing)) [0xa1; 0xff; 3] = Ok s' ∧
    handle_pdu a_deferred (SWorld_new a_framing 1000) [0xa1; 0xff; 3] = Ok w'.
Proof.
  destruct (pdus_never_panic a_deferred (wd_s (World_new a_framing)) (SWorld_new a_framing 1000) [0xa1; 0xff; 3])
    as ([s' Hs] & [w' Hw]); [by repeat constructor|]. by exists s', w'.
Defined.
