(* ===== verification/Wire.v ===== *)
(** A confirmed service from end to end: the interface between the services of a
    client and the handler of a server, which the connections of both ends
    implement, and the pages of services whose answers do not fit in one PDU. *)

From S2P Require Import Prelude Ber BerDecoder BerPrim Utf8 Errors MmsCodec BerFields Cotp OsiSession Presentation Acse.
From S2P Require Import MmsPdu Association Oneshot InfoReport ClientConn ServerConn TypeSpec Services.
Local Open Scope list_scope.
Local Open Scope Z_scope.

(** A handler, [mms::Handler::handle]: what it makes of a service and its content. *)
Definition ServiceHandler (W : Type) : Type := Z → list Z → W → outcome MmsError Element * W.

(** A response that reaches the client, whatever the invoke identifier. *)
Definition deliverable (max_pdu : Z) (resp : Element) : Prop :=
  (∃ t c, sendable resp t c) ∧
  (max_pdu > 0 → ∀ id, in_u 32 id → zlen (confirmed_response_pdu id resp) ≤ max_pdu).

(** [call] is answered by [handle]. *)
Class Serves {W} (max_pdu : Z) (handle : ServiceHandler W) (call : Element → Call W (list Z)) : Prop := {
  serves_response service t c w resp w' :
    sendable service t c → handle (tag_number t) c w = (Ok resp, w') → deliverable max_pdu resp →
    call service w = (Ok (Element_encode resp), w');
  serves_error service t c w e w' :
    sendable service t c → handle (tag_number t) c w = (Err e, w') → err_wf e →
    call service w = (Err (told_error e), w');
}.

(** ** The connections *)

(** The client's request as its connection sends it, the server's answer as its
    connection sends it, and what the client's connection makes of that. [ids] gives
    the invoke identifiers. *)
Definition over_wire {W} (max_pdu : Z) (handle : ServiceHandler W) (ids : W → Z) (service : Element) : Call W (list Z) := λ w,
  let id := ids w in
  match (r ← ok (read_tlv (Decoder_new (confirmed_request_pdu id service)));
         match r with
         | Some ((tag, content), _) =>
             if decide (tag = TAG_CONFIRMED_REQUEST) then parse_confirmed_request content else Ok None
         | None => Ok None
         end) with
  | Ok (Some req) =>
      match handle (rq_service req) (rq_content req) w with
      | (Panic, w) => (Panic, w)
      | (NoFuel, w) => (NoFuel, w)
      | (r, w) =>
          let r := match r with Ok resp => inl resp | Err e => inr e | _ => inr MmsClosed end in
          match answer_of (answer_pdu max_pdu (rq_invoke_id req) r) with
          | Ok (Some (id', r)) =>
              (* an answer to another request leaves this one waiting *)
              if decide (id' = id) then (match r with inl b => Ok b | inr e => Err e end, w) else (NoFuel, w)
          | Ok None | NoFuel => (NoFuel, w)
          | Err e => (Err e, w)
          | Panic => (Panic, w)
          end
      end
  | Ok None | NoFuel => (NoFuel, w)
  | Err e => (Err e, w)
  | Panic => (Panic, w)
  end.

Lemma over_wire_told {W} max_pdu (handle : ServiceHandler W) ids service t c w r w' :
  (∀ w, in_u 32 (ids w)) → sendable service t c →
  handle (tag_number t) c w = (match r with inl resp => Ok resp | inr e => Err e end, w') → result_ok r →
  over_wire max_pdu handle ids service w =
    (match told max_pdu (ids w) r with inl b => Ok b | inr e => Err e end, w').
Proof.
  intros Hid Hs Hh Hr. specialize (Hid w). unfold over_wire.
  destruct (confirmed_pdu_read TAG_CONFIRMED_REQUEST (ids w) service t c) as [d Hd]; [done..|].
  unfold confirmed_request_pdu. rewrite Hd. unfold ok. rewrite bind_Ok. rewrite decide_True by done.
  destruct Hs as (Hw & Ht & Hl).
  rewrite (parse_confirmed_request_built (ids w) service t c)
    by (done || (unfold tag_sized in Ht; split; simpl; [unfold tag_wf, in_u; lia|lia])).
  simpl. rewrite Hh. destruct r as [resp|e].
  - rewrite (answer_told max_pdu (ids w) (inl resp)) by done. by rewrite decide_True.
  - rewrite (answer_told max_pdu (ids w) (inr e)) by done. by rewrite decide_True.
Qed.

#[export] Instance over_wire_serves {W} max_pdu (handle : ServiceHandler W) (ids : W → Z) :
  (∀ w, in_u 32 (ids w)) → Serves max_pdu handle (over_wire max_pdu handle ids).
Proof.
  intros Hid. split.
  - intros service t c w resp w' Hs Hh [Hr Hf].
    rewrite (over_wire_told _ _ _ _ _ _ _ (inl resp) _ Hid Hs Hh) by done. simpl.
    rewrite decide_False; [done|]. intros [Hm Hg]. specialize (Hf Hm (ids w) (Hid w)). lia.
  - intros service t c w e w' Hs Hh He. by rewrite (over_wire_told _ _ _ _ _ _ _ (inr e) _ Hid Hs Hh).
Qed.
