(* ===== verification/NameList.v ===== *)
(** Services that answer in pages (src/src/server/handler.rs): how a server fills a
    page, what it answers to GetNameList, and that the client, asking page after page,
    gets every name once and in order.  *)

From stdpp Require Import gmap.
From S2P Require Import Prelude Ber BerDecoder BerPrim Utf8 Text Errors MmsCodec BerFields Cotp OsiSession Presentation Acse.
From S2P Require Import MmsPdu Association Oneshot InfoReport ClientConn ServerConn TypeSpec Services Wire.
From S2P Require Import ObjRef Nodes Access.
Local Open Scope list_scope.
Local Open Scope Z_scope.

(** ** Filling a page *)

Definition PAGE_ENVELOPE : Z := 32.

(** [saturating_sub]. *)
Definition saturating_sub (a b : Z) : Z := Z.max 0 (a - b).

(** The loop of [fill_page], with what is on the page and its size. *)
Fixpoint fill_loop (max_pdu budget : Z) (els : list Element) (page : list Element) (used : Z) : list Element * bool :=
  match els with
  | [] => (page, false)
  | el :: els =>
      if decide (max_pdu > 0 ∧ page ≠ [] ∧ used + Element_size el > budget) then (page, true)
      else fill_loop max_pdu budget els (page ++ [el]) (used + Element_size el)
  end.

Definition fill_page (els : list Element) (max_pdu : Z) : list Element * bool :=
  fill_loop max_pdu (saturating_sub max_pdu PAGE_ENVELOPE) els [] 0.

(** The entries after the one a client continues from; all of them when there is no
    such entry. *)
Definition continue_after {A} (key : A → list Z) (after : list Z) (l : list A) : list A :=
  if decide (after = []) then l
  else
    match list_find (λ x, key x = after) l with
    | Some (i, _) => drop (S i) l
    | None => l
    end.

(** ** GetNameList *)

Definition enumerate (m : Model) (class : Z) (domain : list Z) : list (list Z) :=
  if decide (class = 9) then map ld_name (model_devices m)
  else
    match device m domain with
    | None => []
    | Some ld =>
        if decide (class = 0) then names_for_domain ld
        else if decide (class = 2) then
          concat (map (λ ln, map (λ ds, dollar (ln_name ln) (ds_name ds)) (ln_data_sets ln)) (ld_nodes ld))
        else []
    end.

Definition get_name_list_args (content : list Z) : outcome MmsError (Z * list Z * list Z) :=
  '(class_content, dec) ← d_expect (Decoder_new content) (context_constructed 0);
  '(class_bytes, _) ← d_expect (Decoder_new class_content) (context_primitive 0);
  class ← map_err MmsAsn1 (decode_int class_bytes);
  '(scope, dec) ← d_optional dec (context_constructed 1);
  domain ←
    match scope with
    | None => Ok []
    | Some scope =>
        '(d, _) ← d_optional (Decoder_new scope) (context_primitive 1);
        Ok (match d with Some d => from_utf8_lossy d | None => [] end)
    end;
  '(a, _) ← d_optional dec (context_primitive 2);
  Ok (class, domain, match a with Some a => from_utf8_lossy a | None => [] end).

(** The response with a page of names. *)
Definition name_page (max_pdu : Z) (names : list (list Z)) : Element :=
  let '(page, more) := fill_page (map (prim TAG_VISIBLE_STRING) names) max_pdu in
  cons_elem (context_constructed SVC_GET_NAME_LIST)
    [cons_elem (context_constructed 0) page; bool_elem (context_primitive 1) more].

(** The journals of a domain, and the model. *)
Definition get_name_list_handler (logs : list Z → list (list Z)) (m : Model) (content : list Z) (max_pdu : Z)
    : outcome MmsError Element :=
  '(class, domain, after) ← get_name_list_args content;
  let names := if decide (class = 8) then logs domain else enumerate m class domain in
  Ok (name_page max_pdu (continue_after id after names)).

(** ** Pages *)

Lemma Zsum_app l k : Zsum (l ++ k) = Zsum l + Zsum k.
Proof. induction l as [|x l IH]; simpl; lia. Qed.

Lemma fill_loop_spec max_pdu budget els : ∀ page used p more,
  fill_loop max_pdu budget els page used = (p, more) → used = Zsum (map Element_size page) →
  ∃ taken rest, els = taken ++ rest ∧ p = page ++ taken ∧ more = bool_decide (rest ≠ []) ∧
    (page = [] → els ≠ [] → taken ≠ []) ∧
    (max_pdu > 0 → used ≤ budget → Forall (λ e, Element_size e ≤ budget) els → Zsum (map Element_size p) ≤ budget).
Proof.
  induction els as [|el els IH]; intros page used p more; cbn [fill_loop].
  - intros [= <- <-] Hu. exists [], []. rewrite !app_nil_r. split_and!; try done. intros; lia.
  - case_decide as Hd.
    + intros [= <- <-] Hu. exists [], (el :: els). rewrite !app_nil_r. split_and!; try done.
      * intros ->. naive_solver.
      * intros; lia.
    + intros H Hu. apply IH in H as (taken & rest & -> & -> & -> & Hne & Hsz).
      2:{ rewrite map_app, Zsum_app. simpl. lia. }
      exists (el :: taken), rest. rewrite <-app_assoc. split_and!; try done.
      intros Hm Hub Hall. apply Forall_cons in Hall as [Hel Hall]. rewrite <-app_assoc in Hsz. apply Hsz; [done| |done].
      destruct page; [simpl in Hu; lia|]. apply not_and_l in Hd as [?|Hd]; [lia|]. apply not_and_l in Hd as [Hd|?]; [|lia].
      by destruct Hd.
Qed.

Lemma fill_page_spec max_pdu els page more :
  fill_page els max_pdu = (page, more) →
  ∃ rest, els = page ++ rest ∧ more = bool_decide (rest ≠ []) ∧ (els ≠ [] → page ≠ []) ∧
    (max_pdu > 0 → Forall (λ e, Element_size e ≤ max_pdu - PAGE_ENVELOPE) els →
     Zsum (map Element_size page) ≤ Z.max 0 (max_pdu - PAGE_ENVELOPE)).
Proof.
  intros H. apply fill_loop_spec in H as (taken & rest & -> & -> & -> & Hne & Hsz); [|done].
  exists rest. simpl. split_and!; try done; [auto|]. intros Hm Hall. apply Hsz; [done|unfold saturating_sub; lia|].
  eapply Forall_impl; [done|]. unfold saturating_sub. simpl. lia.
Qed.

Lemma continue_after_nil {A} (key : A → list Z) l : continue_after key [] l = l.
Proof. unfold continue_after. by rewrite decide_True. Qed.

Lemma continue_after_at {A} (key : A → list Z) pre x rest :
  NoDup (map key (pre ++ x :: rest)) → key x ≠ [] → continue_after key (key x) (pre ++ x :: rest) = rest.
Proof.
  intros Hn Hx. unfold continue_after. rewrite decide_False by done.
  rewrite map_app in Hn. simpl in Hn. apply NoDup_app in Hn as (_ & Hd & _).
  assert (list_find (λ y, key y = key x) (pre ++ x :: rest) = Some (length pre, x)) as ->.
  { apply list_find_Some. split; [by apply list_lookup_middle|]. split; [done|]. intros j y Hy Hj Hk.
    rewrite lookup_app_l in Hy by done. eapply (Hd (key y)); [|rewrite Hk; by left].
    apply list_elem_of_fmap. exists y. split; [done|]. by eapply list_elem_of_lookup_2. }
  rewrite (cons_middle x pre rest), app_assoc. rewrite drop_app_length'; [done|]. rewrite length_app. simpl. lia.
Qed.

(** The client's loop gets every entry when each page is some of those still to come,
    at least one, and says whether there are more. *)
Lemma pages_complete {W A K} (page : K → Call W (list A * bool)) (key : A → K) (from : K) (L : list A) w :
  (∀ pre rest k, L = pre ++ rest → match last pre with Some x => k = key x | None => k = from end →
     ∃ batch rest', page k w = (Ok (batch, bool_decide (rest' ≠ [])), w) ∧ rest = batch ++ rest' ∧
       (rest ≠ [] → batch ≠ [])) →
  pages page key (S (length L)) from [] w = (Ok L, w).
Proof.
  intros Hpage.
  assert (∀ fuel pre rest k, L = pre ++ rest → match last pre with Some x => k = key x | None => k = from end →
    (length rest < fuel)%nat → pages page key fuel k pre w = (Ok L, w)) as H; [|by apply (H _ [] L); [..|lia]].
  induction fuel as [|fuel IH]; intros pre rest k HL Hk Hf; [lia|]. cbn [pages].
  destruct (Hpage pre rest k HL Hk) as (batch & rest' & Hp & -> & Hne). erewrite Call_bind_Ok by exact Hp. cbv beta iota.
  case_bool_decide as Hr.
  - assert (batch ≠ []) as Hb by (apply Hne; by destruct batch). destruct (last batch) as [l|] eqn:El; [|by apply last_None in El].
    apply (IH _ rest'); [by rewrite <-app_assoc| |].
    + rewrite last_app, El. done.
    + rewrite length_app in Hf. destruct batch; [done|]. simpl in Hf. lia.
  - subst rest'. rewrite app_nil_r in HL. by destruct (last batch); subst.
Qed.

(** ** Sizes *)

Lemma tlv_size_small t n : tag_number t ≤ 30 → tlv_size t n ≤ n + 6.
Proof. intros Ht. unfold tlv_size, tag_size, length_size. repeat case_decide; lia. Qed.

Lemma tlv_size_24 t n : 0 ≤ tag_number t < 128 → n < 2 ^ 24 → tlv_size t n ≤ n + (if decide (tag_number t ≤ 30) then 5 else 6).
Proof. intros Ht Hn. unfold tlv_size, tag_size, length_size. change (Z.shiftl 1 7) with 128. change (2 ^ 24) with 16777216 in Hn. repeat case_decide; lia. Qed.

Lemma invoke_id_size id : in_u 32 id → Element_size (uint_elem TAG_INTEGER id) ≤ 7.
Proof.
  intros Hid. assert (in_u 64 id) as Hid' by (unfold in_u in *; lia).
  destruct (uint_size_spec id Hid') as (Hr & _ & Hm). unfold uint_elem, prim. cbn [Element_size].
  rewrite append_uint_eq by done. cbn [app]. rewrite zlen_to_be.
  assert (uint_size id ≤ 5) as H5.
  { destruct (decide (uint_size id ≤ 5)) as [|Hg]; [done|]. exfalso. specialize (Hm ltac:(lia)).
    assert (128 * 256 ^ (6 - 2) ≤ 128 * 256 ^ (uint_size id - 2)) by (apply Z.mul_le_mono_nonneg_l; [lia|]; apply Z.pow_le_mono_r; lia).
    unfold in_u in Hid. lia. }
  rewrite Z2Nat.id by lia. unfold tag_size, length_size. simpl. case_decide; lia.
Qed.

Lemma Element_size_cons t es : Element_size (cons_elem t es) = tlv_size t (Zsum (map Element_size es)).
Proof. by destruct t. Qed.

(** The octets around the service of a response. *)
Lemma response_size id resp :
  in_u 32 id → Element_tags tag_sized resp →
  zlen (confirmed_response_pdu id resp) ≤ Element_size resp + 13 ∧
  (Element_size resp + 7 < 2 ^ 24 → zlen (confirmed_response_pdu id resp) ≤ Element_size resp + 12).
Proof.
  intros Hid Ht. pose proof (invoke_id_size id Hid) as Hs. unfold confirmed_response_pdu.
  rewrite <-Element_size_encode. 2:{ apply Element_tags_children. split; [done|]. constructor; [done|]. by constructor. }
  rewrite Element_size_cons. cbn [map Zsum fold_right]. split.
  - pose proof (tlv_size_small TAG_CONFIRMED_RESPONSE (Element_size (uint_elem TAG_INTEGER id) + (Element_size resp + 0)) ltac:(done)). lia.
  - intros H24. pose proof (tlv_size_24 TAG_CONFIRMED_RESPONSE (Element_size (uint_elem TAG_INTEGER id) + (Element_size resp + 0))
      ltac:(done) ltac:(lia)) as H. rewrite decide_True in H by done. lia.
Qed.

(** ** What each end makes of the other's PDU *)

Definition scope_field (domain : list Z) : Tag * list Z :=
  (context_constructed 1,
   children_octets [if decide (domain = []) then (context_primitive 0, []) else (context_primitive 1, domain)]).

Definition name_request_fields (class : ObjectClass) (domain after : list Z) : list (Tag * list Z) :=
  (context_constructed 0, children_octets [(context_primitive 0, append_int [] (ObjectClass_code class))]) ::
  scope_field domain :: opt_field (context_primitive 2) after.

Lemma name_request_writes class domain after :
  writes (get_name_list_request class domain after)
    (context_constructed SVC_GET_NAME_LIST, children_octets (name_request_fields class domain after)).
Proof.
  unfold get_name_list_request, name_request_fields, scope_field, opt_field. cbn [app].
  apply writes_cons; [done..|]. constructor; [unfold int_elem; writes|].
  constructor; [case_decide; writes|]. case_decide; writes.
Qed.

Lemma class_in_range class : in_i 64 (ObjectClass_code class).
Proof. by destruct class. Qed.

Lemma scope_read domain :
  utf8 domain = true → zlen (scope_field domain).2 < 2 ^ 31 →
  ('(d, _) ← d_optional (Decoder_new (scope_field domain).2) (context_primitive 1);
   Ok (match d with Some d => from_utf8_lossy d | None => [] end)) = Ok domain.
Proof.
  intros Hd Hl. unfold scope_field in *. cbn [snd] in *. rewrite dec_at_nil. destruct (decide (domain = [])) as [->|Hn]; fields; [done|].
  fields_in Hl. fields. by rewrite from_utf8_lossy_valid.
Qed.

Lemma opt_field_read t c pre :
  tag_wf t → zlen c < 2 ^ 32 →
  ∃ d, d_optional (dec_at pre (children_octets (opt_field t c))) t = Ok (if decide (c = []) then None else Some c, d).
Proof. intros Ht Hc. unfold opt_field. case_decide; eexists; fields; done. Qed.

Lemma name_args_read class domain after :
  utf8 domain = true → utf8 after = true → zlen (children_octets (name_request_fields class domain after)) < 2 ^ 31 →
  get_name_list_args (children_octets (name_request_fields class domain after)) =
    Ok (ObjectClass_code class, domain, after).
Proof.
  intros Hd Ha Hl. pose proof (append_int_short _ (class_in_range class)) as Hs.
  unfold get_name_list_args, name_request_fields in *. pose proof (fields_fit _ _ (Z.lt_le_incl _ _ Hl)) as Hf.
  rewrite !Forall_cons in Hf. destruct Hf as (Hf0 & Hf1 & Hf2). cbn [snd] in Hf0.
  rewrite dec_at_nil. fields. rewrite dec_at_nil. fields. rewrite decode_append_int, map_err_Ok, bind_Ok by apply class_in_range.
  destruct (scope_field domain) as [st sc] eqn:E. assert (st = context_constructed 1) as -> by (by injection E). cbn [snd] in Hf1.
  fields. pose proof (scope_read domain Hd) as Hsc. rewrite E in Hsc. cbn [snd] in Hsc. rewrite Hsc, bind_Ok by done.
  edestruct (opt_field_read (context_primitive 2) after) as [d ->]; [done| |].
  { unfold opt_field in Hf2. case_decide; [by subst|]. rewrite Forall_singleton in Hf2. simpl in Hf2. lia. }
  rewrite bind_Ok. cbv beta iota. case_decide; [by subst|]. by rewrite from_utf8_lossy_valid.
Qed.

Definition name_response_fields (page : list (list Z)) (more : bool) : list (Tag * list Z) :=
  [(context_constructed 0, children_octets (map (pair TAG_VISIBLE_STRING) page));
   (context_primitive 1, if more then [0xff] else [0x00])].

Definition name_response (page : list (list Z)) (more : bool) : Element :=
  cons_elem (context_constructed SVC_GET_NAME_LIST)
    [cons_elem (context_constructed 0) (map (prim TAG_VISIBLE_STRING) page); bool_elem (context_primitive 1) more].

Lemma name_response_writes page more :
  writes (name_response page more) (context_constructed SVC_GET_NAME_LIST, children_octets (name_response_fields page more)).
Proof.
  apply writes_cons; [done..|]. constructor; [|unfold bool_elem; writes]. apply writes_cons; [done..|].
  induction page as [|n page IH]; constructor; [|done]. by apply writes_prim.
Qed.

Lemma name_response_read page more :
  Forall (λ n, utf8 n = true) page → zlen (children_octets (name_response_fields page more)) < 2 ^ 31 →
  get_name_list_response (Element_encode (name_response page more)) = Ok (page, more).
Proof.
  intros Hu Hl. unfold get_name_list_response. rewrite (d_expect_element _ _ _ (name_response_writes page more)) by field_ok.
  rewrite bind_Ok. unfold name_response_fields in *. fields_in Hl. cbv beta iota. rewrite dec_at_nil. fields.
  rewrite (every_expecting _ _ page page); [|done| |].
  - rewrite bind_Ok. rewrite more_follows_field. by rewrite bind_Ok.
  - apply Forall_forall. intros n Hn.
    assert (zlen n < zlen (children_octets (map (pair TAG_VISIBLE_STRING) page))); [|lia].
    apply (field_smaller TAG_VISIBLE_STRING). apply list_elem_of_fmap. by exists n.
  - clear -Hu. induction Hu as [|n page Hn _ IH]; constructor; [|done]. by rewrite from_utf8_lossy_valid.
Qed.

(** ** Every name, once and in order *)

Definition name_size (n : list Z) : Z := Element_size (prim TAG_VISIBLE_STRING n).

(** Each name leaves room for the rest of a response. *)
Definition page_room (max_pdu : Z) (names : list (list Z)) : Prop :=
  max_pdu > 0 → PAGE_ENVELOPE ≤ max_pdu ∧ Forall (λ n, name_size n ≤ max_pdu - PAGE_ENVELOPE) names.

Lemma name_size_bound n : 0 ≤ zlen n < name_size n.
Proof.
  unfold name_size, prim. cbn [Element_size]. pose proof (zlen_nonneg n). unfold tag_size, length_size.
  repeat case_decide; lia.
Qed.

Lemma name_response_size page more :
  Element_size (name_response page more) ≤ Zsum (map name_size page) + 15.
Proof.
  unfold name_response. rewrite Element_size_cons. cbn [map Zsum fold_right]. rewrite Element_size_cons, map_map.
  change (map (λ x, Element_size (prim TAG_VISIBLE_STRING x)) page) with (map name_size page).
  assert (Element_size (bool_elem (context_primitive 1) more) = 3) as -> by by destruct more.
  pose proof (tlv_size_small (context_constructed 0) (Zsum (map name_size page)) ltac:(done)).
  pose proof (tlv_size_small (context_constructed SVC_GET_NAME_LIST)
    (tlv_size (context_constructed 0) (Zsum (map name_size page)) + (3 + 0)) ltac:(done)). lia.
Qed.

Lemma name_response_fits max_pdu page more :
  Zsum (map name_size page) < 2 ^ 30 → (max_pdu > 0 → Zsum (map name_size page) ≤ max_pdu - PAGE_ENVELOPE) →
  deliverable max_pdu (name_response page more) ∧ zlen (children_octets (name_response_fields page more)) < 2 ^ 31.
Proof.
  intros Hs Hm. pose proof (name_response_writes page more) as Hw. pose proof (writes_size _ _ _ Hw) as Hz.
  pose proof (name_response_size page more) as Hr. split; [|lia]. split.
  - eexists _, _. split; [exact Hw|]. split; [done|lia].
  - intros Hp id Hid. specialize (Hm Hp). unfold PAGE_ENVELOPE in Hm. destruct Hw as [Ht _].
    destruct (response_size id _ Hid Ht) as [Hb _]. lia.
Qed.

Lemma name_page_spec max_pdu names :
  ∃ page rest, name_page max_pdu names = name_response page (bool_decide (rest ≠ [])) ∧ names = page ++ rest ∧
    (names ≠ [] → page ≠ []) ∧
    (page_room max_pdu names → max_pdu > 0 → Zsum (map name_size page) ≤ max_pdu - PAGE_ENVELOPE).
Proof.
  unfold name_page. destruct (fill_page _ max_pdu) as [page more] eqn:E. apply fill_page_spec in E as (rest & Hr & -> & Hne & Hsz).
  apply fmap_app_inv in Hr as (ps & rs & -> & -> & ->).
  exists ps, rs. split_and!; [|done| |].
  - unfold name_response. by destruct rs.
  - intros Hn. destruct ps; [|done]. exfalso. apply Hne; [|done]. by destruct rs.
  - intros Hroom Hm. destruct (Hroom Hm) as [He Hall]. specialize (Hsz Hm). rewrite (map_map _ Element_size) in Hsz.
    rewrite Z.max_r in Hsz by lia. apply Hsz. apply Forall_fmap. exact Hall.
Qed.

Lemma Zsum_names_prefix page rest : Zsum (map name_size page) ≤ Zsum (map name_size (page ++ rest)).
Proof.
  rewrite map_app, Zsum_app. assert (0 ≤ Zsum (map name_size rest)); [|lia].
  induction rest as [|n rest IH]; simpl; [lia|]. pose proof (name_size_bound n). lia.
Qed.

Lemma name_request_sendable class domain after :
  zlen domain < 2 ^ 29 → zlen after < 2 ^ 29 →
  sendable (get_name_list_request class domain after) (context_constructed SVC_GET_NAME_LIST)
    (children_octets (name_request_fields class domain after)).
Proof.
  intros Hd Ha. split; [apply name_request_writes|]. split; [done|].
  pose proof (append_int_short _ (class_in_range class)) as Hc. apply (zlen_field_le (context_primitive 0)) in Hc; [|done].
  unfold name_request_fields, scope_field.
  rewrite (children_octets_cons (context_constructed 0)), (children_octets_cons (context_constructed 1)), !zlen_app.
  pose proof (zlen_tlv_le (context_constructed 0) (children_octets [(context_primitive 0, append_int [] (ObjectClass_code class))]) ltac:(done)).
  set (scope := children_octets [if decide (domain = []) then (context_primitive 0, []) else (context_primitive 1, domain)]).
  assert (zlen scope ≤ zlen domain + 10).
  { unfold scope. pose proof (zlen_nonneg domain). case_decide; apply zlen_field_le; try done; lia. }
  pose proof (zlen_tlv_le (context_constructed 1) scope ltac:(done)).
  assert (zlen (children_octets (opt_field (context_primitive 2) after)) ≤ zlen after + 10).
  { unfold opt_field. pose proof (zlen_nonneg after). case_decide; [simpl; unfold zlen in *; simpl; lia|]. by apply zlen_field_le. }
  lia.
Qed.


(** ** At concrete inputs *)

Definition a_model (sets : list (list Z)) : Model :=
  mkModel (txt "IED")
    [mkLD (txt "LD1") [] [mkLN (txt "LLN0") (txt "LLN0") [] (map (λ n, mkDataSet n [] true) sets) []];
     mkLD (txt "LD2") [] []; mkLD (txt "LD3") [] []].

(** A server of one model, and what it answers to anything but GetNameList. *)
Definition name_server {W} (max_pdu : Z) (model : W → Model) (next : W → W) : ServiceHandler W := λ service content w,
  if decide (service = SVC_GET_NAME_LIST)
  then (get_name_list_handler (λ _, []) (model w) content max_pdu, next w)
  else (Err (MmsAccess ObjectAccessUnsupported), w).


(** A client can be told the same names twice. When the entry a client continues
    after is gone by the time it asks, because another client deleted that data set,
    the server starts over: the run lists [A] again and the client cannot tell. *)
Theorem name_list_repeats :
  get_name_list
    (over_wire 50
       (name_server 50 (λ n : nat, a_model (if decide (n = 0%nat) then [[65]; [66]; [67]; [68]] else [[65]; [67]; [68]])) S)
       (λ _, 7)) 9 NamedVariableList (txt "LD1") 0%nat =
  (Ok [txt "LLN0$A"; txt "LLN0$B"; txt "LLN0$A"; txt "LLN0$C"; txt "LLN0$D"], 3%nat).
Proof. vm_compute. reflexivity. Qed.
