(* ===== verification/Control.v ===== *)
(** Server-side control (src/src/server/control.rs and the control write of
    src/src/server/handler.rs): which writes are controls, the decoding of an
    operate structure, the checks, the reservation, the application's handler
    and the effect on the process image. *)

From S2P Require Import Prelude Ber BerDecoder BerPrim TimeUtil Utf8 Text Errors MmsValue MmsCodec.
From S2P Require Import ObjRef Quality Nodes Tx Selections InfoReport.
Local Open Scope Z_scope.

(** ** Originator categories (src/src/model/control.rs) *)

Inductive OrCat :=
| OrNotSupported
| BayControl
| StationControl
| RemoteControl
| AutomaticBay
| AutomaticStation
| AutomaticRemote
| Maintenance
| Process
| OtherOrCat (n : Z).

#[export] Instance OrCat_eq_dec : EqDecision OrCat.
Proof. solve_decision. Defined.

Definition OrCat_from_code (code : Z) : OrCat :=
  match code with
  | 0 => OrNotSupported
  | 1 => BayControl
  | 2 => StationControl
  | 3 => RemoteControl
  | 4 => AutomaticBay
  | 5 => AutomaticStation
  | 6 => AutomaticRemote
  | 7 => Maintenance
  | 8 => Process
  | n => OtherOrCat n
  end.

Definition OrCat_code (c : OrCat) : Z :=
  match c with
  | OrNotSupported => 0
  | BayControl => 1
  | StationControl => 2
  | RemoteControl => 3
  | AutomaticBay => 4
  | AutomaticStation => 5
  | AutomaticRemote => 6
  | Maintenance => 7
  | Process => 8
  | OtherOrCat n => n
  end.

(** ** Requests *)

Inductive Phase := Sbow | Oper | Cancel | Sbo.

#[export] Instance Phase_eq_dec : EqDecision Phase.
Proof. solve_decision. Defined.

Definition Phase_from_name (s : list Z) : option Phase :=
  if decide (s = txt "SBOw") then Some Sbow
  else if decide (s = txt "Oper") then Some Oper
  else if decide (s = txt "Cancel") then Some Cancel
  else if decide (s = txt "SBO") then Some Sbo
  else None.

(** The application's view of a request. [ctx_term] is whether a
    CommandTermination is owed for it. *)
Record ControlCtx := mkCtx {
  ctx_reference : ObjectReference;
  ctx_value : Value;
  ctx_origin : OrCat;
  ctx_or_ident : list Z;
  ctx_ctl_num : Z;
  ctx_test : bool;
  ctx_interlock_check : bool;
  ctx_synchro_check : bool;
  ctx_select : bool;
  ctx_t : option Z;
  ctx_t_quality : Z;
  ctx_or_ident_len : Z;
  ctx_conn : ConnId;
  ctx_peer : option (IpAddr * Z);
  ctx_term : bool;
}.

Definition MAX_OR_IDENT_LEN : Z := 64.

(** The loop [for i in (3..parts.len()).rev()], from below [i]. *)
Fixpoint last_phase (i : nat) (parts : list (list Z)) : option (nat * Phase) :=
  match i with
  | O => None
  | S i =>
      if decide (i < 3)%nat then None
      else
        match parts !! i with
        | Some p => match Phase_from_name p with Some ph => Some (i, ph) | None => last_phase i parts end
        | None => last_phase i parts
        end
  end.

Definition split_control (item : list Z) : option (list Z * Phase) :=
  let parts := split DOLLAR item in
  if decide ((length parts < 4)%nat ∨ parts !! 1%nat ≠ Some (txt "CO")) then None
  else
    '(i, phase) ← last_phase (length parts) parts;
    Some (join [DOLLAR] (take i parts), phase).

(** The slice [parts[2..]] panics on a base without a constraint. *)
Definition control_ref {E} (domain base : list Z) : outcome E ObjectReference :=
  match split DOLLAR base with
  | n :: _ :: rest => Ok (domain ++ SLASH :: join [DOT] (n :: rest))
  | _ => Panic
  end.

Definition decode_oper (reference : ObjectReference) (v : Value) (conn : ConnId)
    (peer : option (IpAddr * Z)) : ControlCtx :=
  if decide (type_of v ≠ TStructure) then
    mkCtx reference VNone OrNotSupported [] 0 false false false false None 0 0 conn peer false
  else
    let value := default VNone (Value_index v 0) in
    let origin :=
      o ← Value_index v 1;
      if decide (type_of o = TStructure) then Some o else None in
    let cat := o ← origin; Value_index o 0 in
    let ident := o ← origin; Value_index o 1 in
    let or_cat := match cat with Some c => OrCat_from_code (u8 (as_i64 c)) | None => OrNotSupported end in
    let or_bytes := match ident with Some i => Value_bytes i | None => [] end in
    let ctl_num := match Value_index v 2 with Some n => u8 (as_i64 n) | None => 0 end in
    let t := t ← Value_index v 3; Value_time t in
    let tq := match Value_index v 3 with Some t => time_quality t | None => 0 end in
    let test := match Value_index v 4 with Some t => as_bool t | None => false end in
    let synchro := match Value_index v 5 with Some check => bit_at check 0 | None => false end in
    let interlock := match Value_index v 5 with Some check => bit_at check 1 | None => false end in
    mkCtx reference value or_cat (from_utf8_lossy or_bytes) ctl_num test interlock synchro false t tq
      (zlen or_bytes) conn peer false.

Definition set_select (ctx : ControlCtx) (b : bool) : ControlCtx :=
  let 'mkCtx r v o oi n te ic sc _ t tq ol c p tm := ctx in mkCtx r v o oi n te ic sc b t tq ol c p tm.
Definition set_term (ctx : ControlCtx) (b : bool) : ControlCtx :=
  let 'mkCtx r v o oi n te ic sc s t tq ol c p _ := ctx in mkCtx r v o oi n te ic sc s t tq ol c p b.

(** ** What the model declares *)

Definition declared_ctl_model (m : Model) (reference : ObjectReference) : option CtlModel :=
  da ← attribute m (ref_child reference (txt "ctlModel")) Cf;
  v ← da_value da;
  Some (CtlModel_from_code (u8 (as_i64 v))).

(** A duration is its nanoseconds. *)
Definition cf_millis (m : Model) (reference : ObjectReference) (name : list Z) : Z :=
  match (da ← attribute m (ref_child reference name) Cf; da_value da) with
  | Some v => as_u64 v * 1000000
  | None => 0
  end.

(** ** The process image *)

Definition status_value (da : DataAttribute) (ctl_val : Value) : option Value :=
  let dbpos :=
    eq_ignore_ascii_case (da_btype da) (txt "Dbpos") ||
    (bool_decide (da_kind da = Some TBitString) &&
     match da_value da with Some v => bool_decide (bit_len v = 2) | None => false end) in
  let kind := type_of ctl_val in
  let same_type :=
    match da_kind da with Some k => bool_decide (k = kind) | None => true end &&
    match da_value da with Some v => bool_decide (type_of v = kind) | None => true end in
  let keep := if same_type then Some ctl_val else None in
  match ctl_val with
  | VNone => None
  | VBoolean on => if dbpos then Some (Dbpos_value (if on then On else Off)) else keep
  | _ => keep
  end.

Definition apply_control (m : Model) (reference : ObjectReference) (ctl_val : Value) (changes : ChangeSet)
    : Model * ChangeSet :=
  let st_ref := ref_child reference (txt "stVal") in
  match attribute_mut m st_ref St with
  | None => (m, changes)
  | Some (da, put) =>
      if decide (length (da_children da) ≠ 0%nat) then (m, changes)
      else
        match status_value da ctl_val with
        | None => (m, changes)
        | Some status =>
            (put (set_value da (Some status)),
             record changes st_ref St (da_trg_ops da) (da_value da) status)
        end
  end.

(** ** Reports to the client *)

Definition domain_specific_name (domain item : list Z) : Element :=
  cons_elem (context_constructed 1) [prim TAG_VISIBLE_STRING domain; prim TAG_VISIBLE_STRING item].

Definition vmd_specific_name (name : list Z) : Element := prim (context_primitive 0) name.

Definition ctl_variable_entry (name : Element) : Element :=
  cons_elem TAG_SEQUENCE [cons_elem (context_constructed 0) [name]].

Definition last_appl_error_value (domain ctl_item : list Z) (ctx : ControlCtx) (cause : AddCause) : Value :=
  VStructure
    [VVisibleString (domain ++ SLASH :: ctl_item); VInteger 0;
     VStructure [VInteger (swrap 8 (OrCat_code (ctx_origin ctx))); VOctetString (ctx_or_ident ctx)];
     VUnsigned (ctx_ctl_num ctx); VInteger (swrap 8 (ac_code cause))].

(** [data_element(v).into_iter()]. *)
Definition data_elements {E} (vs : list Value) : outcome E (list Element) := filter_map_outcome data_element vs.

Definition last_appl_error_report {E} (domain ctl_item : list Z) (ctx : ControlCtx) (cause : AddCause)
    : outcome E Element :=
  es ← data_elements [last_appl_error_value domain ctl_item ctx cause];
  Ok (cons_elem (context_constructed 0)
    [cons_elem (context_constructed 0) [ctl_variable_entry (vmd_specific_name (txt "LastApplError"))];
     cons_elem (context_constructed 0) es]).

Definition command_termination_report {E} (domain item : list Z) (oper : Value) : outcome E Element :=
  es ← data_elements [oper];
  Ok (cons_elem (context_constructed 0)
    [cons_elem (context_constructed 0) [ctl_variable_entry (domain_specific_name domain item)];
     cons_elem (context_constructed 0) es]).

Definition command_termination_negative_report {E} (domain item : list Z) (oper lae : Value)
    : outcome E Element :=
  es ← data_elements [lae; oper];
  Ok (cons_elem (context_constructed 0)
    [cons_elem (context_constructed 0)
       [ctl_variable_entry (vmd_specific_name (txt "LastApplError"));
        ctl_variable_entry (domain_specific_name domain item)];
     cons_elem (context_constructed 0) es]).

(** What a [Termination] sends for a cause. *)
Definition termination_report {E} (domain ctl_item : list Z) (ctx : ControlCtx) (oper : Value) (cause : AddCause)
    : outcome E Element :=
  if decide (cause = AC.NONE) then command_termination_report domain ctl_item oper
  else command_termination_negative_report domain ctl_item oper (last_appl_error_value domain ctl_item ctx cause).

(** ** The server *)

Module ServiceType.
Definition SELECT_ACTIVE_SG : Z := 16.
Definition SELECT_EDIT_SG : Z := 17.
Definition CONFIRM_EDIT_SG_VALUES : Z := 19.
Definition SET_BRCB_VALUES : Z := 24.
Definition SET_URCB_VALUES : Z := 26.
Definition SET_LCB_VALUES : Z := 28.
Definition SET_GOCB_VALUES : Z := 34.
Definition SET_MSVCB_VALUES : Z := 39.
Definition SET_USVCB_VALUES : Z := 42.
Definition SELECT : Z := 43.
Definition SELECT_WITH_VALUE : Z := 44.
Definition CANCEL : Z := 45.
Definition OPERATE : Z := 46.
Definition COMMAND_TERMINATION : Z := 47.
End ServiceType.

Module ServiceErrorCode.
Definition NO_ERROR : Z := 0.
Definition INSTANCE_NOT_AVAILABLE : Z := 1.
Definition ACCESS_VIOLATION : Z := 3.
Definition PARAMETER_VALUE_INAPPROPRIATE : Z := 5.
Definition PARAMETER_VALUE_INCONSISTENT : Z := 6.
Definition INSTANCE_LOCKED_BY_OTHER_CLIENT : Z := 8.
Definition FAILED_DUE_TO_SERVER_CONSTRAINT : Z := 12.
End ServiceErrorCode.

(** What a control write sets off besides its answer: the reports it sends, what
    it tells the service tracker, and what it does with the CommandTermination. *)
Inductive Effect :=
| SentLastApplError (item : list Z) (ctx : ControlCtx) (cause : AddCause)
| Tracked (svc err : Z) (cause : AddCause)
| Discarded
| Supervised (limit : Z)
| Finished (cause : AddCause).

Record Server := mkServer {
  sv_model : Model;
  sv_selections : Selections;
  sv_conns : gmap ConnId (option (IpAddr * Z));
  sv_changes : ChangeSet;
  sv_effects : list Effect;
}.

Definition set_model (s : Server) (m : Model) (cs : ChangeSet) : Server :=
  mkServer m (sv_selections s) (sv_conns s) cs (sv_effects s).
Definition set_selections (s : Server) (l : Selections) : Server :=
  mkServer (sv_model s) l (sv_conns s) (sv_changes s) (sv_effects s).
Definition emit (s : Server) (es : list Effect) : Server :=
  mkServer (sv_model s) (sv_selections s) (sv_conns s) (sv_changes s) (sv_effects s ++ es).

(** A control handler is the application's: it gives a cause, tells whether it
    deferred the termination, and runs without the server's locks, so that the
    server it returns to is not the one it was called from. *)
Abbreviation Handler := (ControlCtx → Server → (AddCause * bool) * Server).

Section control_write.
Context (controls : gmap ObjectReference Handler) (conn : ConnId) (now : Z).

Abbreviation answer := (outcome DataAccessError () * Server)%type.

Definition phase_name (p : Phase) : list Z :=
  match p with Oper => txt "Oper" | Sbow => txt "SBOw" | Cancel => txt "Cancel" | Sbo => txt "SBO" end.

Definition service_of (p : Phase) : Z :=
  match p with
  | Sbow => ServiceType.SELECT_WITH_VALUE
  | Cancel => ServiceType.CANCEL
  | _ => ServiceType.OPERATE
  end.

(** The checks of the request itself. *)
Definition control_request (item : list Z) (v : Value) : (list Z * Phase) + DataAccessError :=
  match split_control item with
  | None => inr ObjectAccessUnsupported
  | Some (base, phase) =>
      if decide (phase = Sbo) then inr ObjectAccessDenied
      else if decide (ends_with (DOLLAR :: phase_name phase) item = false ∨ type_of v ≠ TStructure) then
        inr TypeInconsistent
      else inl (base, phase)
  end.

(** [attached]: the connection was there when the request came in. *)
Definition refuse_control (attached : bool) (s : Server) (phase : Phase) (ctl_item : list Z) (ctx : ControlCtx)
    (cause : AddCause) : answer :=
  let sent := if attached then [SentLastApplError ctl_item ctx cause] else [] in
  (Err ObjectAccessDenied,
   emit s (sent ++ [Tracked (service_of phase) ServiceErrorCode.ACCESS_VIOLATION cause])).

(** The checks of the declared control model and of the originator. *)
Definition control_model_cause (declared : option CtlModel) (phase : Phase) (ctx : ControlCtx) : AddCause :=
  let length_cause :=
    if decide (MAX_OR_IDENT_LEN < ctx_or_ident_len ctx) then AC.INCONSISTENT_PARAMETERS else AC.NONE in
  match declared with
  | Some StatusOnly => AC.NOT_SUPPORTED
  | Some cm =>
      if decide (phase = Sbow ∧ cm ≠ SboEnhanced) then AC.NOT_SUPPORTED
      else if ctx_test ctx && is_enhanced cm then AC.TEST_NOT_ALLOWED
      else length_cause
  | None => length_cause
  end.

(** A cancel. *)
Definition control_cancel (attached : bool) (s : Server) (reference : ObjectReference) (ctl_item : list Z)
    (ctx : ControlCtx) : answer :=
  let cause := check_cancel (sv_selections s) reference conn (ctx_ctl_num ctx) now in
  if decide (cause ≠ AC.NONE) then refuse_control attached s Cancel ctl_item ctx cause
  else
    (Ok (),
     emit (set_selections s (clear (sv_selections s) reference))
       [Tracked (service_of Cancel) ServiceErrorCode.NO_ERROR AC.NONE]).

(** A select with value the handler accepted. *)
Definition control_select (attached : bool) (s : Server) (reference : ObjectReference) (ctl_item : list Z)
    (ctx : ControlCtx) (sbo_timeout : Z) : answer :=
  let timeout := if decide (sbo_timeout = 0) then SELECT_TIMEOUT else sbo_timeout in
  let '(taken, sel) := reserve (sv_selections s) reference conn (Some (ctx_ctl_num ctx)) timeout now in
  let s := set_selections s sel in
  if (taken : bool) then (Ok (), emit s [Tracked (service_of Sbow) ServiceErrorCode.NO_ERROR AC.NONE])
  else refuse_control attached s Sbow ctl_item ctx AC.OBJECT_ALREADY_SELECTED.

(** An operate the handler accepted. *)
Definition control_operate (s : Server) (reference : ObjectReference) (ctx : ControlCtx) (deferred : bool)
    (oper_timeout : Z) : answer :=
  let '(m, cs) := apply_control (sv_model s) reference (ctx_value ctx) (sv_changes s) in
  let s := set_model s m cs in
  let s := set_selections s (clear (sv_selections s) reference) in
  let s := emit s [Tracked (service_of Oper) ServiceErrorCode.NO_ERROR AC.NONE] in
  (Ok (),
   if ctx_term ctx then
     if deferred then emit s [Supervised oper_timeout]
     else
       emit s [Finished AC.NONE;
               Tracked ServiceType.COMMAND_TERMINATION ServiceErrorCode.NO_ERROR AC.NONE]
   else s).

Definition control_write (s : Server) (domain item : list Z) (v : Value) : answer :=
  match control_request item v with
  | inr e => (Err e, s)
  | inl (base, phase) =>
      match control_ref (E:=DataAccessError) domain base with
      | Ok reference =>
          match attribute (sv_model s) (ref_child reference (phase_name phase)) Co with
          | None => (Err ObjectNonExistent, s)
          | Some _ =>
              let ctl_item := base ++ DOLLAR :: phase_name phase in
              let sc := sv_conns s !! conn in
              let attached := match sc with Some _ => true | None => false end in
              let ctx := set_select (decode_oper reference v conn (mjoin sc)) (bool_decide (phase = Sbow)) in
              let declared := declared_ctl_model (sv_model s) reference in
              let sbo_timeout := cf_millis (sv_model s) reference (txt "sboTimeout") in
              let oper_timeout := cf_millis (sv_model s) reference (txt "operTimeout") in
              let ctl_model := default DirectNormal declared in
              let cause := control_model_cause declared phase ctx in
              if decide (cause ≠ AC.NONE) then refuse_control attached s phase ctl_item ctx cause
              else if decide (phase = Cancel) then control_cancel attached s reference ctl_item ctx
              else
                let cause :=
                  if decide (phase = Oper) then
                    if has_select ctl_model
                    then check_operate (sv_selections s) reference conn (ctx_ctl_num ctx) now
                    else AC.NONE
                  else AC.NONE in
                if decide (cause ≠ AC.NONE) then refuse_control attached s phase ctl_item ctx cause
                else
                  let ctx :=
                    set_term ctx
                      (bool_decide (phase = Oper) &&
                       match declared with Some cm => is_enhanced cm | None => false end && attached) in
                  let '((cause, deferred), s) :=
                    match controls !! reference with
                    | Some h => h ctx s
                    | None => ((AC.NONE, false), s)
                    end in
                  if decide (cause ≠ AC.NONE) then
                    refuse_control attached (if ctx_term ctx then emit s [Discarded] else s) phase ctl_item ctx cause
                  else if ctx_select ctx then control_select attached s reference ctl_item ctx sbo_timeout
                  else control_operate s reference ctx deferred oper_timeout
          end
      | _ => (Panic, s)
      end
  end.
End control_write.

(** ** Theorems *)

Lemma set_select_fields ctx b :
  ctx_ctl_num (set_select ctx b) = ctx_ctl_num ctx ∧ ctx_value (set_select ctx b) = ctx_value ctx ∧
  ctx_select (set_select ctx b) = b.
Proof. by destruct ctx. Qed.

Lemma set_term_fields ctx b :
  ctx_ctl_num (set_term ctx b) = ctx_ctl_num ctx ∧ ctx_value (set_term ctx b) = ctx_value ctx ∧
  ctx_select (set_term ctx b) = ctx_select ctx ∧ ctx_term (set_term ctx b) = b.
Proof. by destruct ctx. Qed.

(** What the handler leaves: the cause, whether it deferred, and the server. *)
Definition handled (controls : gmap ObjectReference Handler) (r : ObjectReference) (ctx : ControlCtx) (s : Server)
    : (AddCause * bool) * Server :=
  match controls !! r with Some h => h ctx s | None => ((AC.NONE, false), s) end.

(** An accepted operate went through every step. *)
Lemma operate_accepted controls conn now s domain item v base r s' :
  control_request item v = inl (base, Oper) →
  control_ref (E:=DataAccessError) domain base = Ok r →
  control_write controls conn now s domain item v = (Ok (), s') →
  let ctx0 := decode_oper r v conn (mjoin (sv_conns s !! conn)) in
  ∃ ctx deferred sh,
    ctx_value ctx = ctx_value ctx0 ∧
    (has_select (default DirectNormal (declared_ctl_model (sv_model s) r)) = true →
     check_operate (sv_selections s) r conn (ctx_ctl_num ctx0) now = AC.NONE) ∧
    handled controls r ctx s = ((AC.NONE, deferred), sh) ∧
    control_operate sh r ctx deferred (cf_millis (sv_model s) r (txt "operTimeout")) = (Ok (), s').
Proof.
  intros Hreq Href. unfold control_write. rewrite Hreq, Href.
  destruct (attribute _ _ _) as [oper|]; [|done]. cbn zeta.
  set (ctx0 := decode_oper _ _ _ _). set (ctx1 := set_select ctx0 _).
  destruct (set_select_fields ctx0 (bool_decide (Oper = Sbow))) as (Hn & Hv & Hsel). fold ctx1 in Hn, Hv, Hsel.
  rewrite (decide_False (P := Oper = Cancel)) by done. rewrite (decide_True (P := Oper = Oper)) by done.
  destruct (decide (control_model_cause _ _ _ ≠ _)) as [_|_]; [done|].
  match goal with |- context [decide (?c ≠ AC.NONE)] => destruct (decide (c ≠ AC.NONE)) as [_|Hch]; [done|] end.
  apply dec_stable in Hch.
  set (ctx2 := set_term ctx1 _). destruct (set_term_fields ctx1
    (bool_decide (Oper = Oper) &&
     match declared_ctl_model (sv_model s) r with Some cm => is_enhanced cm | None => false end &&
     match sv_conns s !! conn with Some _ => true | None => false end)) as (Hn2 & Hv2 & Hs2 & _).
  fold ctx2 in Hn2, Hv2, Hs2. fold (handled controls r ctx2 s).
  destruct (handled controls r ctx2 s) as [[cause deferred] sh] eqn:Hh.
  destruct (decide (cause ≠ AC.NONE)) as [_|Hcause]; [done|]. apply dec_stable in Hcause as ->.
  rewrite Hs2, Hsel. rewrite bool_decide_eq_false_2 by done. intros Hop.
  exists ctx2, deferred, sh. split; [congruence|]. split; [|done].
  intros Hhs. rewrite Hhs in Hch. by rewrite <-Hn.
Qed.


(** *** A witness *)

Definition sample_oper (n : Z) : Value :=
  VStructure [VBoolean true; VStructure [VInteger 2; VOctetString (txt "op")]; VUnsigned n;
              VUtcTime [0; 0; 0; 0; 0; 0; 0; 0]; VBoolean false; Value_bit_string 2].

Definition sample_spc (ctl_model : Z) : DataObject :=
  mkDO (txt "SPCSO1") (txt "SPC") []
    [leaf (txt "stVal") St (VBoolean false); leaf (txt "ctlModel") Cf (VInteger ctl_model);
     mkDA (txt "Oper") Co [] (Some TStructure) (txt "Struct") [] 0 [leaf (txt "ctlVal") Co (VBoolean false)] None 0].

Definition sample_server (ctl_model : Z) (events : list event) : Server :=
  mkServer
    (mkModel (txt "IED") [mkLD (txt "LD0") (txt "LD0")
       [mkLN (txt "GGIO1") (txt "GGIO") [sample_spc ctl_model] [] []]])
    (after events) {[1 := None; 2 := None]} ∅ [].

Definition sample_ref : ObjectReference := txt "LD0/GGIO1.SPCSO1".
Definition sample_item : list Z := txt "GGIO1$CO$SPCSO1$Oper".


(** *** Refusals *)

Lemma last_phase_bound i parts j ph : last_phase i parts = Some (j, ph) → (3 ≤ j < i)%nat.
Proof.
  induction i as [|i IH]; simpl; [done|]. case_decide; [done|].
  destruct (parts !! i) as [p|].
  - destruct (Phase_from_name p); [intros [= <- <-]; lia|]. intros ?%IH. lia.
  - intros ?%IH. lia.
Qed.

Lemma split_control_base item base ph :
  split_control item = Some (base, ph) →
  ∃ n d rest, split DOLLAR base = n :: txt "CO" :: d :: rest.
Proof.
  unfold split_control. case_decide as Hd; [done|]. intros ([i ph'] & Hl & [= <- ->])%bind_Some.
  pose proof (last_phase_bound _ _ _ _ Hl) as Hi. assert (¬ (length (split DOLLAR item) < 4)%nat) as Hlen by tauto.
  assert (split DOLLAR item !! 1%nat = Some (txt "CO")) as Hco by (apply dec_stable; tauto). pose proof (split_parts DOLLAR item) as Hp.
  destruct (split DOLLAR item) as [|n [|c [|d rest]]]; simpl in *; try lia. injection Hco as ->.
  destruct i as [|[|[|i]]]; [lia..|]. exists n, d, (take i rest). rewrite split_join; [done|done|].
  simpl. rewrite !Forall_cons in Hp. destruct Hp as (? & ? & ? & Hr). repeat constructor; try done.
  by apply Forall_take.
Qed.

Lemma control_ref_total {E} domain base item ph :
  split_control item = Some (base, ph) → ∃ r, control_ref (E:=E) domain base = Ok r.
Proof. intros (n & d & rest & H)%split_control_base. unfold control_ref. rewrite H. eauto. Qed.

Lemma emit_nil s : emit s [] = s.
Proof. destruct s. unfold emit. simpl. by rewrite app_nil_r. Qed.

Lemma emit_emit s a b : emit (emit s a) b = emit s (a ++ b).
Proof. unfold emit. simpl. by rewrite app_assoc. Qed.

(** What a write that is not answered with success leaves behind. *)
Definition left_by_error (controls : gmap ObjectReference Handler) (conn : ConnId) (s : Server) (item : list Z)
    (e : DataAccessError) (s' : Server) : Prop :=
  ∃ sh effects, s' = emit sh effects ∧
    (sh = s ∨ ∃ r ctx cause deferred, handled controls r ctx s = ((cause, deferred), sh)) ∧
    (e ≠ ObjectAccessDenied → sh = s ∧ effects = []) ∧
    (e = ObjectAccessDenied → is_Some (sv_conns s !! conn) →
       (∃ base, split_control item = Some (base, Sbo)) ∨
       ∃ ctl_item ctx cause, cause ≠ AC.NONE ∧ SentLastApplError ctl_item ctx cause ∈ effects).

Definition answered (controls : gmap ObjectReference Handler) (conn : ConnId) (s : Server) (item : list Z)
    (a : outcome DataAccessError () * Server) : Prop :=
  match a with
  | (Ok (), _) => True
  | (Err e, s') => left_by_error controls conn s item e s'
  | _ => False
  end.

Definition attached (conn : ConnId) (s : Server) : bool :=
  match sv_conns s !! conn with Some _ => true | None => false end.

(** The server a refusal starts from: the request's, or what the handler left. *)
Definition handled_from (controls : gmap ObjectReference Handler) (s sh : Server) : Prop :=
  sh = s ∨ ∃ r ctx cause deferred, handled controls r ctx s = ((cause, deferred), sh).

Lemma refuse_answered controls conn s sh item effects phase ctl_item ctx cause :
  cause ≠ AC.NONE → handled_from controls s sh →
  answered controls conn s item (refuse_control (attached conn s) (emit sh effects) phase ctl_item ctx cause).
Proof.
  intros Hc Hsh. simpl. rewrite emit_emit. eexists sh, _. do 3 (split; [done|]).
  unfold attached. intros _ [x ->]. right. exists ctl_item, ctx, cause. split; [done|].
  apply elem_of_app. right. left.
Qed.

Lemma refuse_answered_nil controls conn s sh item phase ctl_item ctx cause :
  cause ≠ AC.NONE → handled_from controls s sh →
  answered controls conn s item (refuse_control (attached conn s) sh phase ctl_item ctx cause).
Proof. intros. rewrite <-(emit_nil sh). by apply refuse_answered. Qed.

Lemma error_answered controls conn s item e :
  (e = ObjectAccessDenied → ∃ base, split_control item = Some (base, Sbo)) →
  answered controls conn s item (Err e, s).
Proof.
  intros He. exists s, []. rewrite emit_nil. split; [done|]. split; [by left|]. split; [done|]. auto.
Qed.

Lemma control_request_error item v e :
  control_request item v = inr e → e = ObjectAccessDenied → ∃ base, split_control item = Some (base, Sbo).
Proof.
  unfold control_request. destruct (split_control item) as [[base phase]|]; intros H ->; [|done].
  case_decide as Hp; [subst; eauto|]. by case_decide.
Qed.

Lemma control_request_ref {E} domain item v base phase :
  control_request item v = inl (base, phase) → ∃ r, control_ref (E:=E) domain base = Ok r.
Proof.
  unfold control_request. destruct (split_control item) as [[base' phase']|] eqn:Hs; [|done].
  repeat case_decide; try done. intros [= -> ->]. by eapply control_ref_total.
Qed.

Lemma control_select_answered controls conn now s sh item r ctl_item ctx timeout :
  handled_from controls s sh →
  answered controls conn s item (control_select conn now (attached conn s) sh r ctl_item ctx timeout).
Proof.
  intros Hsh. unfold control_select.
  match goal with |- context [reserve ?a ?b ?c ?d ?e ?f] =>
    pose proof (reserve_table a b c d e f) as Ht; destruct (reserve a b c d e f) as [[] sel] end; [done|].
  simpl in Ht. subst sel.
  assert (set_selections sh (sv_selections sh) = sh) as -> by (by destruct sh).
  by apply refuse_answered_nil.
Qed.

(** A control write is always answered. One that is not answered with
    success leaves the model, the reservations and the change set as they were,
    or as the application's handler left them. A denied one has first sent the
    client a LastApplError with the cause - unless what was written is the SBO
    attribute, which is no control write - and any other error has set off
    nothing at all. *)
Theorem control_write_answer controls conn now s domain item v :
  answered controls conn s item (control_write controls conn now s domain item v).
Proof.
  unfold control_write. destruct (control_request item v) as [[base phase]|e] eqn:Hreq.
  2:{ apply error_answered. eauto using control_request_error. }
  destruct (control_request_ref (E:=DataAccessError) domain _ _ _ _ Hreq) as [r ->].
  destruct (attribute _ _ _) as [oper|]; [|by apply error_answered].
  cbn zeta. fold (attached conn s). set (ctx1 := set_select _ _).
  assert (handled_from controls s s) as Hs by (by left).
  destruct (decide (control_model_cause _ _ _ ≠ _)) as [Hc|_]; [by apply refuse_answered_nil|].
  destruct (decide (phase = Cancel)) as [->|Hnc].
  { unfold control_cancel.
    destruct (decide (check_cancel _ _ _ _ _ ≠ _)) as [Hc|_]; [by apply refuse_answered_nil|done]. }
  match goal with |- context [decide (?c ≠ AC.NONE)] =>
    destruct (decide (c ≠ AC.NONE)) as [Hc|_]; [by apply refuse_answered_nil|] end.
  set (ctx2 := set_term ctx1 _). fold (handled controls r ctx2 s).
  destruct (handled controls r ctx2 s) as [[cause deferred] sh] eqn:Hh.
  assert (handled_from controls s sh) as Hsh by (right; eauto).
  destruct (decide (cause ≠ AC.NONE)) as [Hc|_].
  { destruct (ctx_term ctx2); [by apply refuse_answered|by apply refuse_answered_nil]. }
  destruct (ctx_select ctx2); [by apply control_select_answered|].
  unfold control_operate. by destruct (apply_control _ _ _ _).
Qed.

(** *** A slow handler *)

(** The handler of a command from connection 1 takes until time 200; meanwhile
    the reservation of connection 1 runs out and connection 2 selects. *)
Definition slow_handler : Handler :=
  λ _ s, ((AC.NONE, false),
    set_selections s (reserve (sv_selections s) sample_ref 2 (Some 9) SELECT_TIMEOUT 150).2).

(** An accepted operate clears whatever reservation the object has when its
    handler returns, also that of another client which selected the object in
    the meantime: that client's operate is refused as of an object not selected,
    although its select was granted and has not run out. *)
Theorem operate_clears_other_selection :
  let s := sample_server 4 [EReserve sample_ref 1 (Some 7) 100 0] in
  let '(answer1, s1) := control_write {[sample_ref := slow_handler]} 1 5 s (txt "LD0") sample_item (sample_oper 7) in
  let '(answer2, s2) := control_write ∅ 2 201 s1 (txt "LD0") sample_item (sample_oper 9) in
  answer1 = Ok () ∧
  check_operate (slow_handler (decode_oper sample_ref (sample_oper 7) 1 None) s).2.(sv_selections)
    sample_ref 2 9 201 = AC.NONE ∧
  answer2 = Err ObjectAccessDenied ∧
  ∃ ctx, SentLastApplError sample_item ctx AC.OBJECT_NOT_SELECTED ∈ sv_effects s2.
Proof.
  vm_compute. split; [reflexivity|]. split; [reflexivity|]. split; [reflexivity|].
  eexists. right. right. right. left.
Qed.
