(* ===== verification/ControlReports.v ===== *)
(** The control reports a client follows (src/src/client/controlreports.rs): the
    LastApplError that explains a refusal and the CommandTermination that
    concludes an operate; and, with the server's half, that the cause a server
    ends an operate with is the cause the client waiting for it is told. *)

From S2P Require Import Prelude Ber BerDecoder BerPrim TimeUtil Utf8 Text Errors MmsValue MmsCodec.
From S2P Require Import ObjRef Nodes Selections InfoReport Control.
Local Open Scope Z_scope.

Definition UNKNOWN : AddCause := mkAddCause 0.

Record LastApplError := mkLAE {
  lae_cntrl_obj : list Z;
  lae_error : Z;
  lae_origin : OrCat;
  lae_or_ident : list Z;
  lae_ctl_num : Z;
  lae_add_cause : AddCause;
}.

Section client.
(** [Value]'s [Display], which [text] falls back to for a value that is no string. *)
Context (display : Value → list Z).

Definition LastApplError_parse (v : Value) : option LastApplError :=
  if decide (type_of v ≠ TStructure ∨ Value_len v < 5) then None
  else
    obj ← Value_index v 0;
    err ← Value_index v 1;
    num ← Value_index v 3;
    cause ← Value_index v 4;
    let '(origin, ident) :=
      match Value_index v 2 with
      | Some o =>
          if decide (type_of o = TStructure ∧ 2 ≤ Value_len o) then
            (OrCat_from_code (u8 (match Value_index o 0 with Some c => as_i64 c | None => 0 end)),
             match Value_index o 1 with Some b => Value_bytes b | None => [] end)
          else (OrNotSupported, [])
      | None => (OrNotSupported, [])
      end in
    Some (mkLAE (Value_text display obj) (as_i64 err) origin ident (u8 (as_u64 num)) (mkAddCause (u8 (as_i64 cause)))).

(** A waiter is the number of its channel. *)
Record ReportState := mkRS {
  rs_last : gmap (list Z) LastApplError;
  rs_latest : option LastApplError;
  rs_waiters : gmap (list Z * Z) Z;
}.

Definition ReportState_default : ReportState := mkRS ∅ None ∅.

(** The loop over the references: the last diagnosis and the last operate. *)
Fixpoint scan_refs (i : nat) (refs : list VarRef) (values : list Value)
    (lae : option LastApplError) (oper_at : option nat) : option LastApplError * option nat :=
  match refs with
  | [] => (lae, oper_at)
  | r :: refs =>
      if bool_decide (vr_domain r = []) && bool_decide (vr_item r = txt "LastApplError") then
        scan_refs (S i) refs values (v ← values !! i; LastApplError_parse v) oper_at
      else if negb (bool_decide (vr_domain r = [])) && ends_with (txt "$Oper") (vr_item r) then
        scan_refs (S i) refs values lae (Some i)
      else scan_refs (S i) refs values lae oper_at
  end.

(** The new state, and the channel that is sent a cause. *)
Definition handle (st : ReportState) (ir : InformationReport) : ReportState * option (Z * AddCause) :=
  if decide (ir_is_vmd_named ir = true ∨ length (ir_var_refs ir) = 0%nat ∨
             length (ir_var_refs ir) ≠ length (ir_values ir)) then (st, None)
  else
    let '(lae, oper_at) := scan_refs 0 (ir_var_refs ir) (ir_values ir) None None in
    let st :=
      match lae with
      | Some e => mkRS (<[lae_cntrl_obj e := e]> (rs_last st)) (Some e) (rs_waiters st)
      | None => st
      end in
    match oper_at with
    | None => (st, None)
    | Some i =>
        match ir_values ir !! i, ir_var_refs ir !! i with
        | Some oper, Some r =>
            if decide (type_of oper ≠ TStructure ∨ Value_len oper < 3) then (st, None)
            else
              let ctl_num := u8 (match Value_index oper 2 with Some n => as_u64 n | None => 0 end) in
              let key := (VarRef_display r, ctl_num) in
              match rs_waiters st !! key with
              | Some w =>
                  (mkRS (rs_last st) (rs_latest st) (delete key (rs_waiters st)),
                   Some (w, match lae with Some e => lae_add_cause e | None => AC.NONE end))
              | None => (st, None)
              end
        | _, _ => (st, None)
        end
    end.

Definition cause_for (st : ReportState) (cntrl_obj : list Z) (ctl_num : Z) : AddCause :=
  match rs_last st !! cntrl_obj with
  | Some e => if decide (lae_ctl_num e = ctl_num) then lae_add_cause e else UNKNOWN
  | None => UNKNOWN
  end.

Definition await_termination (st : ReportState) (oper : list Z) (ctl_num w : Z) : ReportState :=
  mkRS (rs_last st) (rs_latest st) (<[(oper, ctl_num) := w]> (rs_waiters st)).

(** The guard's [Drop]. *)
Definition drop_guard (st : ReportState) (key : list Z * Z) : ReportState :=
  mkRS (rs_last st) (rs_latest st) (delete key (rs_waiters st)).

(** ** What the server builds is what the client reads *)

Lemma u8_swrap8 n : octet n → u8 (swrap 8 n) = n.
Proof.
  intros Hn. unfold u8, wrap. rewrite swrap_mod by lia.
  unfold octet in Hn. apply Z.mod_small. lia.
Qed.

(** The diagnosis a client parses from what the server states. *)
Definition diagnosis (domain ctl_item : list Z) (ctx : ControlCtx) (cause : AddCause) : LastApplError :=
  mkLAE (domain ++ SLASH :: ctl_item) 0 (OrCat_from_code (OrCat_code (ctx_origin ctx))) (ctx_or_ident ctx)
    (ctx_ctl_num ctx) cause.

(** The ranges of the fields of a decoded request. *)
Record ctx_ok (ctx : ControlCtx) : Prop := {
  co_origin : octet (OrCat_code (ctx_origin ctx));
  co_ident : octets (ctx_or_ident ctx);
  co_num : octet (ctx_ctl_num ctx);
}.

Lemma parse_diagnosis domain ctl_item ctx cause :
  utf8 (domain ++ SLASH :: ctl_item) = true → ctx_ok ctx → octet (ac_code cause) →
  LastApplError_parse (last_appl_error_value domain ctl_item ctx cause) =
  Some (diagnosis domain ctl_item ctx cause).
Proof.
  intros Hu [Ho Hi Hn] Hc. unfold LastApplError_parse, last_appl_error_value.
  rewrite decide_False by (intros [H|H]; [done|vm_compute in H; done]).
  cbn [Value_index children]. simpl. rewrite from_utf8_lossy_valid by done.
  unfold diagnosis. rewrite !u8_swrap8 by done. destruct cause as [c]. simpl.
  do 2 f_equal. apply Z.mod_small. unfold octet in Hn. lia.
Qed.

Lemma diagnosis_value_ok domain ctl_item ctx cause :
  utf8 (domain ++ SLASH :: ctl_item) = true → ctx_ok ctx →
  value_wf (last_appl_error_value domain ctl_item ctx cause) ∧
  depth_ok (last_appl_error_value domain ctl_item ctx cause).
Proof.
  intros Hu [Ho Hi Hn]. unfold last_appl_error_value, depth_ok. simpl.
  pose proof (swrap_range 8 (OrCat_code (ctx_origin ctx)) ltac:(lia)).
  pose proof (swrap_range 8 (ac_code cause) ltac:(lia)).
  unfold in_i, in_u, octet in *. split; [|vm_compute; lia].
  split_and!; try lia; try done. by apply octets_utf8.
Qed.

Lemma lae_name : names (vmd_specific_name (txt "LastApplError")) (mkVarRef [] (txt "LastApplError")).
Proof. apply (object_name_names (mkVarRef [] (txt "LastApplError"))). done. Qed.

Lemma oper_name domain item :
  domain ≠ [] → utf8 domain = true → utf8 item = true →
  names (domain_specific_name domain item) (mkVarRef domain item).
Proof.
  intros Hne Hd Hi. pose proof (object_name_names (mkVarRef domain item) (conj Hd Hi)) as H.
  unfold object_name in H. simpl in H. by rewrite decide_False in H.
Qed.

(** A report with the names [es] and the values [vs], read by the client. *)
Lemma report_read {E} es rs vs :
  Forall2 names es rs → Forall value_wf vs → Forall depth_ok vs →
  ∃ els, data_elements (E:=E) vs = Ok els ∧
    let el := cons_elem (context_constructed 0)
      [cons_elem (context_constructed 0) (map ctl_variable_entry es); cons_elem (context_constructed 0) els] in
    (zlen (Element_encode el) < 2 ^ 32 →
     handle_unconfirmed (Element_encode el) =
     Ok (Some (mkIR [] (map vr_item rs) (map sent vs) false VarRef_default rs))).
Proof.
  intros Hn Hw Hd. destruct (access_results_at (E:=E) vs Hw Hd) as (els & Hels & _ & Ht & Hr).
  exists els. split; [done|]. intros el Hlen.
  assert (report_ok (cons_elem (context_constructed 0) (map entry es)) els) as Hok.
  { split; [|done]. apply element_tags_cons; [done|].
    clear -Hn. induction Hn as [|e r es rs [He _] _ IH]; constructor; [by apply entry_tags|done]. }
  destruct (info_report_content _ _ Hok) as (_ & Har & _).
  apply parse_listed; [done| |done]. by apply Hr.
Qed.

Lemma oper_shape a o n rest :
  ¬ (type_of (VStructure (a :: o :: n :: rest)) ≠ TStructure ∨ Value_len (VStructure (a :: o :: n :: rest)) < 3).
Proof.
  intros [H|H]; [by apply H|]. unfold Value_len, zlen in H. simpl in H. lia.
Qed.

Lemma OrCat_code_from_code n : OrCat_code (OrCat_from_code n) = n.
Proof. unfold OrCat_from_code. by repeat case_match; subst. Qed.

Lemma Value_bytes_octets v : value_wf v → octets (Value_bytes v).
Proof.
  destruct v; simpl; try (intros; by constructor); try done; by intros [? _].
Qed.

(** The requests the server decodes are in range. *)
Lemma decode_oper_ok r v conn peer b : value_wf v → ctx_ok (set_select (decode_oper r v conn peer) b).
Proof.
  intros Hw. unfold decode_oper. destruct (decide (type_of v ≠ TStructure)) as [_|Hs].
  { split; [done|constructor|done]. }
  assert (∀ w i x, value_wf w → Value_index w i = Some x → value_wf x) as Hindex.
  { intros w i x Hww Hx. unfold Value_index, children in Hx.
    destruct w as [|cs|cs| | | | | | | | | | | | | ]; try done;
      simpl in Hww; rewrite value_wf_Forall in Hww; eapply Forall_lookup_1 in Hww; eauto. }
  split; simpl.
  - destruct (_ ≫= _); [rewrite OrCat_code_from_code; apply u8_octet|done].
  - apply octets_utf8, from_utf8_lossy_utf8. destruct (_ ≫= _) as [i|] eqn:Ei; [|constructor].
    apply Value_bytes_octets. apply bind_Some in Ei as (o & Ho & Hi).
    apply bind_Some in Ho as (o' & Ho & Hi'). case_decide; [|done]. injection Hi' as ->. eauto.
  - destruct (Value_index v 2); [apply u8_octet|done].
Qed.

(** A client told of a refusal learns its cause: the LastApplError report
    the server sends ahead of the negative answer, encoded, read and handled, is
    what the client then finds for that control variable and control number. *)
Theorem refusal_diagnosed {E} st domain ctl_item r v conn peer b cause :
  utf8 (domain ++ SLASH :: ctl_item) = true → value_wf v → octet (ac_code cause) →
  let ctx := set_select (decode_oper r v conn peer) b in
  ∃ el, last_appl_error_report (E:=E) domain ctl_item ctx cause = Ok el ∧
    (zlen (Element_encode el) < 2 ^ 32 →
     ∃ ir st', handle_unconfirmed (Element_encode el) = Ok (Some ir) ∧ handle st ir = (st', None) ∧
       cause_for st' (domain ++ SLASH :: ctl_item) (ctx_ctl_num ctx) = cause ∧ rs_waiters st' = rs_waiters st).
Proof.
  intros Hu Hv Hc ctx. pose proof (decode_oper_ok r v conn peer b Hv) as Hctx. fold ctx in Hctx.
  destruct (diagnosis_value_ok domain ctl_item ctx cause Hu Hctx) as [Hlw Hld].
  destruct (report_read (E:=E) [vmd_specific_name (txt "LastApplError")] [mkVarRef [] (txt "LastApplError")]
    [last_appl_error_value domain ctl_item ctx cause]) as (els & Hels & Hread);
    [by constructor; [apply lae_name|]|by constructor..|].
  unfold last_appl_error_report. rewrite Hels. eexists. split; [done|]. intros Hlen.
  eexists _, _. split; [by apply Hread|].
  pose proof (parse_diagnosis domain ctl_item ctx cause Hu Hctx Hc) as Hp. cbn [map].
  change (sent (last_appl_error_value domain ctl_item ctx cause)) with (last_appl_error_value domain ctl_item ctx cause).
  clear Hread Hlen Hels. generalize dependent (last_appl_error_value domain ctl_item ctx cause). intros lv _ _ Hp.
  unfold handle. simpl. rewrite Hp.
  split; [done|]. split; [|done]. unfold cause_for. simpl. rewrite lookup_insert_eq. by rewrite decide_True.
Qed.

(** C26: what a server's CommandTermination says reaches the client that waits
    for it. The report the server builds for an accepted enhanced-security
    operate, encoded, read as an information report and given to the client,
    resolves the waiter registered for that control variable and control number,
    with the very cause the operate ended with, and no other waiter. *)
Theorem termination_delivered {E} st domain ctl_item r conn peer a o k rest cause w :
  domain ≠ [] → utf8 domain = true → utf8 ctl_item = true → utf8 (domain ++ SLASH :: ctl_item) = true →
  ends_with (txt "$Oper") ctl_item = true → octet (ac_code cause) → octet k →
  let oper := VStructure (a :: o :: VUnsigned k :: rest) in
  let ctx := set_select (decode_oper r oper conn peer) false in
  let key := (domain ++ SLASH :: ctl_item, k) in
  value_wf oper → depth_ok oper → rs_waiters st !! key = Some w →
  ∃ el, termination_report (E:=E) domain ctl_item ctx oper cause = Ok el ∧
    (zlen (Element_encode el) < 2 ^ 32 →
     ∃ ir st', handle_unconfirmed (Element_encode el) = Ok (Some ir) ∧
       handle st ir = (st', Some (w, cause)) ∧ rs_waiters st' = delete key (rs_waiters st)).
Proof.
  intros Hne Hd Hi Hu Hop Hc Hk oper ctx key Hw Hdp Hwait. unfold termination_report.
  pose proof (decode_oper_ok r oper conn peer false Hw) as Hctx. fold ctx in Hctx. clearbody ctx.
  pose proof (oper_name domain ctl_item Hne Hd Hi) as Hname.
  assert (bool_decide (domain = []) = false) as Hdom by (by apply bool_decide_eq_false_2).
  assert (u8 k = k) as Hu8 by (apply Z.mod_small; unfold octet in Hk; lia).
  destruct (decide (cause = AC.NONE)) as [->|Hcause].
  - destruct (report_read (E:=E) [domain_specific_name domain ctl_item] [mkVarRef domain ctl_item] [oper])
      as (els & Hels & Hread); [by constructor..|].
    unfold command_termination_report. rewrite Hels. eexists. split; [done|]. intros Hlen.
    eexists _, _. split; [by apply Hread|]. unfold handle. simpl. rewrite Hdom. simpl. rewrite Hop. simpl.
    rewrite Hu8. unfold VarRef_display. simpl. fold key. rewrite decide_False by apply oper_shape. by rewrite Hwait.
  - destruct (diagnosis_value_ok domain ctl_item ctx cause Hu Hctx) as [Hlw Hld].
    destruct (report_read (E:=E) [vmd_specific_name (txt "LastApplError"); domain_specific_name domain ctl_item]
      [mkVarRef [] (txt "LastApplError"); mkVarRef domain ctl_item]
      [last_appl_error_value domain ctl_item ctx cause; oper]) as (els & Hels & Hread);
      [by do 2 (constructor; [apply lae_name || done|])|by do 2 (constructor; [done|])..|].
    unfold command_termination_negative_report. rewrite Hels. eexists. split; [done|]. intros Hlen.
    eexists _, _. split; [by apply Hread|]. unfold handle. cbn [ir_is_vmd_named ir_var_refs ir_values map].
    rewrite decide_False by (intros [?|[?|?]]; done).
    cbn [scan_refs vr_domain vr_item]. rewrite !bool_decide_eq_true_2 by done. cbn [andb].
    rewrite Hdom. cbn [negb andb]. rewrite Hop.
    change (sent (last_appl_error_value domain ctl_item ctx cause)) with (last_appl_error_value domain ctl_item ctx cause).
    pose proof (parse_diagnosis domain ctl_item ctx cause Hu Hctx Hc) as Hp.
    clear Hread Hlen Hels. generalize dependent (last_appl_error_value domain ctl_item ctx cause). intros lv _ _ Hp.
    simpl. rewrite Hp. rewrite decide_False by apply oper_shape. simpl. rewrite Hu8. unfold VarRef_display. simpl.
    fold key. by rewrite Hwait.
Qed.
End client.

Definition sample_waiting : ReportState :=
  await_termination ReportState_default (txt "LD0/GGIO1$CO$SPCSO1$Oper") 7 1.

Lemma short_report (m : outcome unit Element) el :
  m = Ok el → match m with Ok e => zlen (Element_encode e) <? 2 ^ 32 | _ => false end = true →
  zlen (Element_encode el) < 2 ^ 32.
Proof. intros ->. apply Z.ltb_lt. Qed.

Lemma termination_delivered_witness :
  ∃ el ir st', termination_report (E:=unit) (txt "LD0") sample_item
      (set_select (decode_oper sample_ref (sample_oper 7) 1 None) false) (sample_oper 7) AC.TIME_LIMIT_OVER = Ok el ∧
    handle_unconfirmed (Element_encode el) = Ok (Some ir) ∧
    handle (λ _, []) sample_waiting ir = (st', Some (1, AC.TIME_LIMIT_OVER)).
Proof.
  destruct (termination_delivered (λ _, []) (E:=unit) sample_waiting (txt "LD0") sample_item sample_ref 1 None
    (VBoolean true) (VStructure [VInteger 2; VOctetString (txt "op")]) 7
    [VUtcTime [0; 0; 0; 0; 0; 0; 0; 0]; VBoolean false; Value_bit_string 2] AC.TIME_LIMIT_OVER 1)
    as (el & Hel & Hr).
  - discriminate.
  - vm_compute. reflexivity.
  - vm_compute. reflexivity.
  - vm_compute. reflexivity.
  - vm_compute. reflexivity.
  - split; vm_compute; [discriminate|reflexivity].
  - split; vm_compute; [discriminate|reflexivity].
  - repeat (split || constructor); unfold in_u, in_i; try lia; vm_compute; discriminate.
  - vm_compute. lia.
  - vm_compute. reflexivity.
  - exists el. destruct Hr as (ir & st' & Hir & Hh & _).
    + apply (short_report _ _ Hel). vm_compute. reflexivity.
    + exists ir, st'. split; [exact Hel|]. split; [exact Hir|exact Hh].
Defined.

Lemma refusal_diagnosed_witness :
  ∃ el, last_appl_error_report (E:=unit) (txt "LD0") sample_item
      (set_select (decode_oper sample_ref (sample_oper 7) 1 None) false) AC.OBJECT_NOT_SELECTED = Ok el ∧
    ∃ ir st', handle_unconfirmed (Element_encode el) = Ok (Some ir) ∧
      handle (λ _, []) ReportState_default ir = (st', None) ∧
      cause_for st' (txt "LD0/GGIO1$CO$SPCSO1$Oper") 7 = AC.OBJECT_NOT_SELECTED.
Proof.
  destruct (refusal_diagnosed (λ _, []) (E:=unit) ReportState_default (txt "LD0") sample_item sample_ref (sample_oper 7)
    1 None false AC.OBJECT_NOT_SELECTED) as (el & Hel & Hr).
  - vm_compute. reflexivity.
  - repeat (split || constructor); unfold in_u, in_i; try lia; vm_compute; discriminate.
  - split; vm_compute; [discriminate|reflexivity].
  - exists el. split; [exact Hel|]. destruct Hr as (ir & st' & Hir & Hh & Hc & _).
    + apply (short_report _ _ Hel). vm_compute. reflexivity.
    + exists ir, st'. split; [exact Hir|]. split; [exact Hh|exact Hc].
Defined.
