(* ===== verification/Rcb.v ===== *)
(** Report control blocks (src/src/server/rcb.rs): report entries, the runtime
    state of a block, and the data objects the blocks are materialised as. *)

From stdpp Require Import pretty sorting.
From S2P Require Import Prelude BerPrim TimeUtil Text Errors MmsValue ObjRef Quality Nodes Selections.
Local Open Scope list_scope.
Local Open Scope Z_scope.

(** ** Report entries *)

Record ReportEntry := mkEntry {
  e_id : list Z;
  e_time : Z;
  (** Indices into the data set, ascending; one value and one reason each. *)
  e_members : list nat;
  e_values : list Value;
  e_reasons : list Z;
}.

Definition ReportEntry_new (now : Z) : ReportEntry := mkEntry [] now [] [] [].

(** The length of the prefix below [idx], which is where [partition_point] finds
    it in an ascending list. *)
Fixpoint partition_point (idx : nat) (l : list nat) : nat :=
  match l with
  | [] => 0
  | m :: l => if decide (m < idx)%nat then S (partition_point idx l) else 0
  end.

Definition insert_at {A} (n : nat) (x : A) (l : list A) : list A := take n l ++ x :: drop n l.

Definition merge_one (e : ReportEntry) (idx : nat) (v : Value) (r : Z) : ReportEntry :=
  let at_ := partition_point idx (e_members e) in
  mkEntry (e_id e) (e_time e) (insert_at at_ idx (e_members e)) (insert_at at_ v (e_values e))
    (insert_at at_ r (e_reasons e)).

Definition merge (e other : ReportEntry) : ReportEntry :=
  foldl (λ e m, merge_one e m.1.1 m.1.2 m.2) e
    (zip (zip (e_members other) (e_values other)) (e_reasons other)).

Definition overlaps (e other : ReportEntry) : bool :=
  existsb (λ m, bool_decide (m ∈ e_members e)) (e_members other).

(** ** Runtime state

    The handle of a timer task is the generation it was started with. *)

Record RcbRuntime := mkRt {
  rt_enabled : bool;
  rt_conn : option ConnId;
  rt_owner : option ConnId;
  rt_owner_ip : option IpAddr;
  rt_resv_ip : option IpAddr;
  rt_resv_cfg : bool;
  rt_resv_timer : option Z;
  rt_resv_gen : Z;
  rt_sq_num : Z;
  rt_integrity : option Z;
  rt_integrity_gen : Z;
  rt_pending : option ReportEntry;
  rt_pending_timer : option Z;
  rt_pending_gen : Z;
  rt_buffer : list ReportEntry;
  rt_next : nat;
  rt_resync_id : option (list Z);
  rt_buf_overflow : bool;
}.

Definition RcbRuntime_default : RcbRuntime :=
  mkRt false None None None None false None 0 0 None 0 None None 0 [] 0 None false.

(** The parts the operations update. *)
Definition set_buffer (st : RcbRuntime) (b : list ReportEntry) (next : nat) (overflow : bool) : RcbRuntime :=
  let 'mkRt en c o oi ri rc rt rg sq i ig p pt pg _ _ rs _ := st in
  mkRt en c o oi ri rc rt rg sq i ig p pt pg b next rs overflow.
Definition set_resync (st : RcbRuntime) (id : option (list Z)) : RcbRuntime :=
  let 'mkRt en c o oi ri rc rt rg sq i ig p pt pg b n _ ov := st in
  mkRt en c o oi ri rc rt rg sq i ig p pt pg b n id ov.
Definition set_pending (st : RcbRuntime) (p : option ReportEntry) (timer : option Z) (gen : Z) : RcbRuntime :=
  let 'mkRt en c o oi ri rc rt rg sq i ig _ _ _ b n rs ov := st in
  mkRt en c o oi ri rc rt rg sq i ig p timer gen b n rs ov.
Definition set_integrity (st : RcbRuntime) (timer : option Z) (gen : Z) : RcbRuntime :=
  let 'mkRt en c o oi ri rc rt rg sq _ _ p pt pg b n rs ov := st in
  mkRt en c o oi ri rc rt rg sq timer gen p pt pg b n rs ov.
Definition set_subscriber (st : RcbRuntime) (en : bool) (c : option ConnId) : RcbRuntime :=
  let 'mkRt _ _ o oi ri rc rt rg sq i ig p pt pg b n rs ov := st in
  mkRt en c o oi ri rc rt rg sq i ig p pt pg b n rs ov.
Definition set_owner (st : RcbRuntime) (o : option ConnId) (oi : option IpAddr) : RcbRuntime :=
  let 'mkRt en c _ _ ri rc rt rg sq i ig p pt pg b n rs ov := st in
  mkRt en c o oi ri rc rt rg sq i ig p pt pg b n rs ov.
Definition set_resv (st : RcbRuntime) (ri : option IpAddr) (timer : option Z) (gen : Z) : RcbRuntime :=
  let 'mkRt en c o oi _ rc _ _ sq i ig p pt pg b n rs ov := st in
  mkRt en c o oi ri rc timer gen sq i ig p pt pg b n rs ov.
Definition set_rt_sq_num (st : RcbRuntime) (n : Z) : RcbRuntime :=
  let 'mkRt en c o oi ri rc rt rg _ i ig p pt pg b nx rs ov := st in
  mkRt en c o oi ri rc rt rg n i ig p pt pg b nx rs ov.

Definition buffer_index (st : RcbRuntime) (id : list Z) : option nat :=
  fst <$> list_find (λ e, e_id e = id) (rt_buffer st).

Definition purge (st : RcbRuntime) : RcbRuntime := set_resync (set_buffer st [] 0 false) None.

Definition stop_resv_timer (st : RcbRuntime) : RcbRuntime :=
  set_resv st (rt_resv_ip st) None (rt_resv_gen st + 1).

Definition allowed (st : RcbRuntime) (conn : ConnId) (ip : option IpAddr) : bool :=
  match rt_owner st, rt_resv_ip st with
  | Some o, _ => bool_decide (o = conn)
  | None, Some r => bool_decide (ip = Some r)
  | None, None => true
  end.

Definition stop_integrity (st : RcbRuntime) : RcbRuntime := set_integrity st None (rt_integrity_gen st + 1).

(** What a block is, besides its runtime state. *)
Record RcbState := mkRcb {
  rs_domain : list Z;
  rs_item : list Z;
  rs_ln_name : list Z;
  rs_object_name : list Z;
  rs_buffered : bool;
  rs_max_buffer : nat;
}.

Definition rcb_registry_key (domain item : list Z) : list Z := domain ++ 0 :: item.

Definition DEFAULT_BUFFERED_REPORTS : Z := 256.

Definition buffer_depth (rc : ReportControl) (server_default : Z) : Z :=
  if decide (0 < rc_max_queue_size rc) then rc_max_queue_size rc
  else if decide (0 < server_default) then server_default
  else DEFAULT_BUFFERED_REPORTS.

(** ** Names and identifiers *)

(** [{:02}] of a number. *)
Definition two_digits (n : Z) : list Z :=
  let s := txt (pretty n) in
  if decide (zlen s < 2) then 48 :: s else s.

Definition rcb_instance_names (rc : ReportControl) : list (list Z) :=
  if rc_not_indexed rc then [rc_name rc]
  else map (λ i, rc_name rc ++ two_digits i) (seqZ 1 (Z.max (rc_rpt_enabled rc) 1)).

Definition rpt_id_of (attr domain item : list Z) : list Z :=
  if decide (attr = []) then domain ++ SLASH :: item else attr.

Definition rcb_key (domain item : list Z) : option (list Z * list Z) :=
  match split DOLLAR item with
  | n :: f :: b :: rest =>
      if decide (f ≠ txt "RP" ∧ f ≠ txt "BR") then None
      else Some (rcb_registry_key domain (n ++ DOLLAR :: f ++ DOLLAR :: b), hd [] rest)
  | _ => None
  end.

Definition make_entry_id (n : Z) : list Z := to_be 8 n.

Definition to_ipv4_mapped (b : list Z) : option (list Z) :=
  if decide (take 12 b = [0; 0; 0; 0; 0; 0; 0; 0; 0; 0; 255; 255]) then Some (drop 12 b) else None.

Definition ip_octets (ip : option IpAddr) : list Z :=
  match ip with
  | None => []
  | Some (V4 a) => a
  | Some (V6 a) => default a (to_ipv4_mapped a)
  end.

(** ** The data object of a block *)

Definition rcb_attr (fc : Fc) (name : string) (v : Value) : DataAttribute :=
  mkDA (txt name) fc [] (Some (type_of v)) [] [] 0 [] (Some v) 0.

Definition binary_time_epoch : Z := from_unix (BINARY_TIME_EPOCH_DAYS * 86400) 0.

Definition build_rcb_object (ld_name ln_name : list Z) (rc : ReportControl) (fc : Fc) (inst_name : list Z)
    : DataObject :=
  let ds_ref :=
    if decide (rc_data_set rc = []) then []
    else ld_name ++ SLASH :: ln_name ++ DOLLAR :: rc_data_set rc in
  let opt_flds := if decide (rc_opt_flds rc = 0) then OptFlds_DEFAULT else rc_opt_flds rc in
  let trg_ops :=
    if decide (rc_trg_ops rc = 0) then Z.lor (Z.lor (trg DATA_CHANGE) (trg QUALITY_CHANGE)) (trg GI)
    else rc_trg_ops rc in
  let attr := rcb_attr fc in
  let attributes :=
    if rc_buffered rc then
      let opt_flds := Z.lor opt_flds (Z.lor (Z.lor (opt ENTRY_ID) (opt TIME_OF_ENTRY)) (opt BUF_OVFL)) in
      [attr "RptID" (VVisibleString (rc_rpt_id rc)); attr "RptEna" (VBoolean false);
       attr "DatSet" (VVisibleString ds_ref); attr "ConfRev" (VUnsigned (rc_conf_rev rc));
       attr "OptFlds" (OptFlds_value opt_flds); attr "BufTm" (VUnsigned (rc_buf_time rc));
       attr "SqNum" (VUnsigned 0); attr "TrgOps" (TrgOps_value trg_ops);
       attr "IntgPd" (VUnsigned (rc_intg_pd rc)); attr "GI" (VBoolean false);
       attr "PurgeBuf" (VBoolean false); attr "Owner" (VOctetString []);
       attr "EntryID" (VOctetString (replicate 8 0)); attr "TimeofEntry" (binary_time binary_time_epoch);
       attr "ResvTms" (VInteger 0)]
    else
      [attr "RptID" (VVisibleString (rc_rpt_id rc)); attr "RptEna" (VBoolean false);
       attr "Resv" (VBoolean false); attr "DatSet" (VVisibleString ds_ref);
       attr "ConfRev" (VUnsigned (rc_conf_rev rc)); attr "OptFlds" (OptFlds_value opt_flds);
       attr "BufTm" (VUnsigned (rc_buf_time rc)); attr "SqNum" (VUnsigned 0);
       attr "TrgOps" (TrgOps_value trg_ops); attr "IntgPd" (VUnsigned (rc_intg_pd rc));
       attr "GI" (VBoolean false)] in
  mkDO inst_name [] [] attributes.

(** The attributes of an instance the configuration reserves for an address. *)
Definition reserve_attr (ip : IpAddr) (a : DataAttribute) : DataAttribute :=
  if decide (da_name a = txt "ResvTms") then set_value a (Some (VInteger (-1)))
  else if decide (da_name a = txt "Owner") then set_value a (Some (VOctetString (ip_octets (Some ip))))
  else if decide (da_name a = txt "Resv") then set_value a (Some (VBoolean true))
  else a.

(** One instance: its object, its key and state. *)
Definition materialise_one (ld_name ln_name : list Z) (rc : ReportControl) (buf_default : Z) (i : nat)
    (inst_name : list Z) : DataObject * (list Z * (RcbState * RcbRuntime)) :=
  let fc := if rc_buffered rc then Br else Rp in
  let o := build_rcb_object ld_name ln_name rc fc inst_name in
  let '(o, rt) :=
    match (r ← mjoin (rc_reservations rc !! i); cr_ip r) with
    | Some ip =>
        let 'mkRt en c ow oi _ _ tm rg sq it ig p pt pg b n rs ov := RcbRuntime_default in
        (mkDO (do_name o) (do_cdc o) (do_objects o) (map (reserve_attr ip) (do_attributes o)),
         mkRt en c ow oi (Some ip) true tm rg sq it ig p pt pg b n rs ov)
    | None => (o, RcbRuntime_default)
    end in
  let item := ln_name ++ DOLLAR :: Fc_as_str fc ++ DOLLAR :: inst_name in
  (o, (rcb_registry_key ld_name item,
       (mkRcb ld_name item ln_name inst_name (rc_buffered rc) (Z.to_nat (buffer_depth rc buf_default)), rt))).

Definition materialise_rcbs (m : Model) (buf_default : Z) : Model * list (list Z * (RcbState * RcbRuntime)) :=
  let blocks_of ld ln :=
    flat_map (λ rc, imap (materialise_one (ld_name ld) (ln_name ln) rc buf_default) (rcb_instance_names rc))
      (ln_report_controls ln) in
  let node_of ld ln := set_ln_objects ln (ln_objects ln ++ map fst (blocks_of ld ln)) in
  (set_devices m (map (λ ld, set_nodes ld (map (node_of ld) (ld_nodes ld))) (model_devices m)),
   flat_map (λ ld, flat_map (λ ln, map snd (blocks_of ld ln)) (ld_nodes ld)) (model_devices m)).

(** ** Merged entries stay in order *)

(** The members ascend and each has a value and a reason. *)
Definition entry_ok (e : ReportEntry) : Prop :=
  StronglySorted lt (e_members e) ∧
  length (e_values e) = length (e_members e) ∧ length (e_reasons e) = length (e_members e).

Lemma length_insert_at {A} n (x : A) l : (n ≤ length l)%nat → length (insert_at n x l) = S (length l).
Proof. intros Hn. unfold insert_at. rewrite length_app, length_take. simpl. rewrite length_drop. lia. Qed.

Lemma partition_point_le idx l : (partition_point idx l ≤ length l)%nat.
Proof. induction l as [|m l IH]; simpl; [lia|]. case_decide; lia. Qed.

Lemma insert_sorted idx l : StronglySorted lt l → idx ∉ l →
  StronglySorted lt (insert_at (partition_point idx l) idx l).
Proof.
  induction 1 as [|m l Hl IH Hm]; intros Hni; [repeat constructor|].
  apply not_elem_of_cons in Hni as [Hne Hni]. cbn [partition_point]. case_decide as Hlt.
  - change (StronglySorted lt (m :: insert_at (partition_point idx l) idx l)). constructor; [by apply IH|].
    unfold insert_at. rewrite Forall_app, Forall_cons. split_and!; [by apply Forall_take|done|by apply Forall_drop].
  - change (StronglySorted lt (idx :: m :: l)). constructor; [by constructor|]. constructor; [lia|].
    eapply Forall_impl; [done|]. simpl. lia.
Qed.

Lemma insert_at_elem {A} n (x y : A) l : y ∈ insert_at n x l ↔ y = x ∨ y ∈ l.
Proof.
  unfold insert_at. rewrite elem_of_app, elem_of_cons.
  rewrite <-(take_drop n l) at 3. rewrite elem_of_app. tauto.
Qed.

Lemma merge_one_ok e idx v r : entry_ok e → idx ∉ e_members e → entry_ok (merge_one e idx v r).
Proof.
  intros (Hs & Hv & Hr) Hni. pose proof (partition_point_le idx (e_members e)) as Hp.
  split_and!; simpl; [by apply insert_sorted|..]; rewrite !length_insert_at by lia; lia.
Qed.

Lemma overlaps_false e other :
  overlaps e other = false → ∀ m, m ∈ e_members other → m ∉ e_members e.
Proof.
  unfold overlaps. intros H m Hm Hin. assert (existsb (λ m, bool_decide (m ∈ e_members e)) (e_members other) = true) as Ht.
  { apply existsb_exists. exists m. split; [by apply list_elem_of_In|by apply bool_decide_eq_true_2]. }
  congruence.
Qed.

Lemma merge_fold_ok ms : ∀ e, entry_ok e →
  NoDup (map (λ m : nat * Value * Z, m.1.1) ms) → (∀ m, m ∈ ms → m.1.1 ∉ e_members e) →
  entry_ok (foldl (λ e m, merge_one e m.1.1 m.1.2 m.2) e ms).
Proof.
  induction ms as [|[[i v] r] ms IH]; intros e He Hnd Hdis; [done|]. apply NoDup_cons in Hnd as [Hi Hnd]. simpl.
  apply IH; [by apply merge_one_ok; [|apply (Hdis (i, v, r)); left]|done|].
  intros m Hm. simpl. rewrite insert_at_elem. intros [Heq|Hin].
  - apply Hi. apply list_elem_of_In, in_map_iff. exists m. split; [done|by apply list_elem_of_In].
  - apply (Hdis m); [by right|done].
Qed.

Lemma StronglySorted_NoDup (l : list nat) : StronglySorted lt l → NoDup l.
Proof.
  induction 1 as [|m l _ IH Hm]; constructor; [|done]. intros Hin.
  rewrite Forall_forall in Hm. specialize (Hm m Hin). lia.
Qed.

Lemma merge_ok e other : entry_ok e → entry_ok other → overlaps e other = false → entry_ok (merge e other).
Proof.
  intros He (Hs & Hv & Hr) Ho. pose proof (overlaps_false _ _ Ho) as Hdis.
  assert (map (λ m : nat * Value * Z, m.1.1) (zip (zip (e_members other) (e_values other)) (e_reasons other)) =
    e_members other) as Hmap.
  { clear -Hv Hr. revert Hv Hr. generalize (e_values other), (e_reasons other).
    induction (e_members other) as [|m l IH]; intros vs rs Hv Hr; [done|].
    destruct vs as [|v vs], rs as [|r rs]; simpl in *; try lia. f_equal. apply IH; lia. }
  apply merge_fold_ok; [done|rewrite Hmap; by apply StronglySorted_NoDup|].
  intros m Hm. apply Hdis. rewrite <-Hmap. apply list_elem_of_In, in_map_iff. exists m.
  split; [done|by apply list_elem_of_In].
Qed.

Lemma new_entry_ok now : entry_ok (ReportEntry_new now).
Proof. by repeat constructor. Qed.
