(* ===== verification/ControlBlocks.v ===== *)
(** The GOOSE, sampled-value and log control blocks as data objects of the served model
    (src/src/server/cb.rs). *)

From S2P Require Import Prelude BerPrim TimeUtil Text Errors MmsValue ObjRef Quality Nodes Blocks Selections Rcb.
Local Open Scope Z_scope.

Definition SmpMod_code (s : SmpMod) : Z := match s with SmpPerPeriod => 0 | SmpPerSec => 1 | SecPerSmp => 2 end.

Definition cb_attr (fc : Fc) (name : string) (v : Value) : DataAttribute :=
  mkDA (txt name) fc [] (Some (type_of v)) [] [] 0 [] (Some v) 0.

Definition cb_data_set_ref (ld ln name : list Z) : list Z :=
  if decide (name = []) then [] else ld ++ SLASH :: ln ++ DOLLAR :: name.

Definition dst_address (fc : Fc) (mac : list Z) (pri vid app_id : Z) : DataAttribute :=
  mkDA (txt "DstAddress") fc [] (Some TStructure) [] [] 0
    [cb_attr fc "Addr" (VOctetString mac); cb_attr fc "PRIORITY" (VUnsigned pri);
     cb_attr fc "VID" (VUnsigned vid); cb_attr fc "APPID" (VUnsigned app_id)] None 0.

Definition build_gocb_object (ld ln : list Z) (gc : GseControl) : DataObject :=
  match gc_kind gc with
  | Gsse =>
      mkDO (gc_name gc) (txt "GSCB") []
        [cb_attr Gs "GsEna" (VBoolean false); cb_attr Gs "GsID" (VVisibleString (gc_go_id gc))]
  | Goose =>
      mkDO (gc_name gc) (txt "GOCB") []
        [cb_attr Go "GoEna" (VBoolean false); cb_attr Go "GoID" (VVisibleString (gc_go_id gc));
         cb_attr Go "DatSet" (VVisibleString (cb_data_set_ref ld ln (gc_data_set gc)));
         cb_attr Go "ConfRev" (VUnsigned (gc_conf_rev gc)); cb_attr Go "NdsCom" (VBoolean false);
         dst_address Go (gc_dst_mac gc) (gc_vlan_pri gc) (gc_vlan_id gc) (gc_app_id gc);
         cb_attr Go "MinTime" (VUnsigned (gc_min_time gc)); cb_attr Go "MaxTime" (VUnsigned (gc_max_time gc));
         cb_attr Go "FixedOffs" (VBoolean (gc_fixed_offs gc))]
  end.

Definition is_unicast (sc : SvControl) : bool := negb (svc_multicast sc) || bool_decide (svc_protocol sc = txt "R-SV").

(** The [SmvOpts] bit string. *)
Definition sv_opt_flds (o : SvOpts) : Value :=
  foldl (λ v p, put_at v (Z.of_nat p.1) p.2) (Value_bit_string 10)
    (imap pair [so_refresh_time o; so_sample_synchronized o; so_sample_rate o; so_data_set o; so_security o;
                so_timestamp o; so_synch_source_id o]).

Definition build_svcb_object (ld ln : list Z) (sc : SvControl) : DataObject :=
  let unicast := is_unicast sc in
  let '(fc, cdc, id_name) := if unicast then (Us, txt "USVCB", "UsvID"%string) else (Ms, txt "MSVCB", "MsvID"%string) in
  mkDO (svc_name sc) cdc []
    ([cb_attr fc "SvEna" (VBoolean false)] ++
     (if unicast then [cb_attr fc "Resv" (VBoolean false)] else []) ++
     [cb_attr fc id_name (VVisibleString (svc_sv_id sc));
      cb_attr fc "DatSet" (VVisibleString (cb_data_set_ref ld ln (svc_data_set sc)));
      cb_attr fc "ConfRev" (VUnsigned (svc_conf_rev sc)); cb_attr fc "SmpRate" (VUnsigned (u16 (svc_smp_rate sc)));
      cb_attr fc "OptFlds" (sv_opt_flds (svc_opts sc)); cb_attr fc "SmpMod" (VInteger (SmpMod_code (svc_smp_mod sc)));
      dst_address fc (svc_dst_mac sc) (svc_vlan_pri sc) (svc_vlan_id sc) (svc_app_id sc);
      cb_attr fc "noASDU" (VUnsigned (u16 (svc_no_asdu sc)))]).

Definition strip_suffix (s suf : list Z) : option (list Z) :=
  if ends_with suf s then Some (take (length s - length suf) s) else None.

Definition log_target (ld_name ld_inst : list Z) (lc : LogControl) : option (list Z * list Z) :=
  if decide (lc_log_name lc = []) then None
  else
    let domain :=
      if decide (lc_log_ld_inst lc = []) then ld_name
      else default ld_name (strip_suffix ld_name ld_inst) ++ lc_log_ld_inst lc in
    let ln := if decide (lc_log_ln lc = []) then txt "LLN0" else lc_log_ln lc in
    Some (domain, ln ++ DOLLAR :: lc_log_name lc).

Definition build_lcb_object (ld ld_inst ln : list Z) (lc : LogControl) : DataObject :=
  let trg_ops := if decide (lc_trg_ops lc = 0) then Z.lor (trg DATA_CHANGE) (trg GI) else lc_trg_ops lc in
  let log_ref := match log_target ld ld_inst lc with Some (domain, name) => domain ++ SLASH :: name | None => [] end in
  mkDO (lc_name lc) (txt "LCB") []
    [cb_attr Lg "LogEna" (VBoolean (lc_log_ena lc)); cb_attr Lg "LogRef" (VVisibleString log_ref);
     cb_attr Lg "DatSet" (VVisibleString (cb_data_set_ref ld ln (lc_data_set lc)));
     cb_attr Lg "OldEntrTm" (binary_time binary_time_epoch); cb_attr Lg "NewEntrTm" (binary_time binary_time_epoch);
     cb_attr Lg "OldEnt" (VOctetString (replicate 8 0)); cb_attr Lg "NewEnt" (VOctetString (replicate 8 0));
     cb_attr Lg "TrgOps" (TrgOps_value trg_ops); cb_attr Lg "IntgPd" (VUnsigned (lc_intg_pd lc))].

Definition node_blocks (ld : LogicalDevice) (ln : LogicalNode) : list DataObject :=
  map (build_gocb_object (ld_name ld) (ln_name ln)) (ln_gse_controls ln) ++
  map (build_svcb_object (ld_name ld) (ln_name ln)) (ln_sv_controls ln) ++
  map (build_lcb_object (ld_name ld) (ld_inst ld) (ln_name ln)) (ln_log_controls ln).

Definition materialise_control_blocks (m : Model) : Model :=
  set_devices m (map (λ ld, set_nodes ld (map (λ ln, set_ln_objects ln (ln_objects ln ++ node_blocks ld ln)) (ld_nodes ld)))
    (model_devices m)).

Definition cb_object (ld : LogicalDevice) (ln fc name : list Z) : option DataObject :=
  n ← node ld ln;
  find (λ o, bool_decide (do_name o = name) &&
             match do_attributes o with a :: _ => bool_decide (Fc_as_str (da_fc a) = fc) | [] => false end) (ln_objects n).
