(* ===== verification/Svcb.v ===== *)
(** Sampled-value control blocks (src/src/server/svcb.rs): the registry, the rules of
    their writes, the reservation of unicast blocks and the events the application
    hears. *)

From S2P Require Import Prelude BerPrim TimeUtil Text Errors MmsValue ObjRef Quality BTree Nodes Blocks Access Tx Handler.
From S2P Require Import BlockStore Selections Rcb ControlBlocks.
Local Open Scope Z_scope.

(** ** State *)

Record SvControlEvent := mkSvEvent {
  ev_device : list Z;
  ev_node : list Z;
  ev_block : SvControl;
  ev_unicast : bool;
  ev_enabled : bool;
  ev_reserved : bool;
  ev_conn : option ConnId;
}.

Record SvcbState := mkSvcb {
  sb_device : list Z;
  sb_node : list Z;
  sb_block : SvControl;
  sb_unicast : bool;
  sb_owner : option ConnId;
}.

Definition set_sb_owner (st : SvcbState) (o : option ConnId) : SvcbState :=
  mkSvcb (sb_device st) (sb_node st) (sb_block st) (sb_unicast st) o.

Abbreviation SvcbRegistry := (BTreeMap (list Z) SvcbState).

Definition svcb_key_of (domain base : list Z) : list Z := domain ++ 0 :: base.

(** ** Operations *)

(** The blocks of a node; its objects are found by name and class. *)
Definition node_svcbs (ld : LogicalDevice) (ln : LogicalNode) : list (list Z * SvcbState) :=
  omap (λ sc,
    o ← find (λ o, bool_decide (do_name o = svc_name sc) &&
                   (bool_decide (do_cdc o = txt "MSVCB") || bool_decide (do_cdc o = txt "USVCB"))) (ln_objects ln);
    let unicast := bool_decide (do_cdc o = txt "USVCB") in
    let fc := if unicast then txt "US" else txt "MS" in
    Some (svcb_key_of (ld_name ld) (ln_name ln ++ DOLLAR :: fc ++ DOLLAR :: svc_name sc),
          mkSvcb (ld_name ld) (ln_name ln) sc unicast None)) (ln_sv_controls ln).

Definition SvcbRegistry_build (m : Model) : SvcbRegistry :=
  foldl (λ r e, bt_insert e.1 e.2 r) []
    (flat_map (λ ld, flat_map (node_svcbs ld) (ld_nodes ld)) (model_devices m)).

Definition svcb_key (r : SvcbRegistry) (domain item : list Z) : option (list Z * list Z) :=
  match split DOLLAR item with
  | p0 :: p1 :: p2 :: rest =>
      if decide (p1 ≠ txt "MS" ∧ p1 ≠ txt "US") then None
      else
        let key := svcb_key_of domain (join [DOLLAR] [p0; p1; p2]) in
        if bt_contains r key then Some (key, hd [] rest) else None
  | _ => None
  end.

Definition sb_fc (st : SvcbState) : Fc := if sb_unicast st then Us else Ms.

Definition sv_flag (m : Model) (st : SvcbState) (name : string) : bool :=
  match (a ← block_attr m (sb_device st) (sb_node st) (svc_name (sb_block st)) (by_name_fc name (sb_fc st)); da_value a) with
  | Some v => as_bool v
  | None => false
  end.

Definition set_sv_flag (m : Model) (st : SvcbState) (name : string) (on : bool) : Model :=
  block_put m (sb_device st) (sb_node st) (svc_name (sb_block st)) (by_name_fc name (sb_fc st)) (VBoolean on).

Definition sv_event (m : Model) (st : SvcbState) : SvControlEvent :=
  mkSvEvent (sb_device st) (sb_node st) (sb_block st) (sb_unicast st) (sv_flag m st "SvEna")
    (sb_unicast st && sv_flag m st "Resv") (sb_owner st).

(** [None] is the source's [Ok(())]. *)
Definition svcb_check_write (r : SvcbRegistry) (m : Model) (key attr : list Z) (v : Value) (conn : ConnId)
    : option DataAccessError :=
  match bt_get r key with
  | None => Some ObjectNonExistent
  | Some st =>
      if decide (sb_owner st ≠ None ∧ sb_owner st ≠ Some conn) then Some TemporarilyUnavailable
      else if bool_decide (attr = txt "SvEna") || (bool_decide (attr = txt "Resv") && sb_unicast st) then
        if decide (type_of v ≠ TBoolean) then Some TypeInconsistent else None
      else if sv_flag m st "SvEna" then Some TemporarilyUnavailable
      else Some ObjectAccessDenied
  end.

(** The value before a write; an attribute other than the two flags is not reached. *)
Definition svcb_before (r : SvcbRegistry) (m : Model) (key attr : list Z) : bool :=
  match bt_get r key with
  | None => false
  | Some st =>
      match (a ← block_attr m (sb_device st) (sb_node st) (svc_name (sb_block st))
                   (λ a, named da_name attr a && bool_decide (da_fc a = sb_fc st)); da_value a) with
      | Some v => as_bool v
      | None => false
      end
  end.

Definition svcb_on_write (r : SvcbRegistry) (m : Model) (key attr : list Z) (old : bool) (conn : ConnId)
    : SvcbRegistry * option SvControlEvent :=
  match bt_get r key with
  | None => (r, None)
  | Some st =>
      if decide (attr = txt "SvEna") then
        (r, if decide (sv_flag m st "SvEna" ≠ old) then Some (sv_event m st) else None)
      else if decide (attr = txt "Resv") then
        let now := sv_flag m st "Resv" in
        let st := set_sb_owner st (if now then Some conn else None) in
        (bt_alter (λ _, st) key r, if decide (now ≠ old) then Some (sv_event m st) else None)
      else (r, None)
  end.

(** The end of an association: the blocks in order. *)
Definition release_svcb (conn : ConnId) (acc : Model * list SvControlEvent) (st : SvcbState)
    : SvcbState * (Model * list SvControlEvent) :=
  if decide (sb_owner st = Some conn) then
    let st := set_sb_owner st None in
    let m := set_sv_flag (set_sv_flag acc.1 st "Resv" false) st "SvEna" false in
    (st, (m, acc.2 ++ [sv_event m st]))
  else (st, acc).

Fixpoint svcb_release_conn (conn : ConnId) (r : SvcbRegistry) (acc : Model * list SvControlEvent)
    : SvcbRegistry * (Model * list SvControlEvent) :=
  match r with
  | [] => ([], acc)
  | (k, st) :: r =>
      let '(st, acc) := release_svcb conn acc st in
      let '(r, acc) := svcb_release_conn conn r acc in
      ((k, st) :: r, acc)
  end.

(** ** Runs

    What happens to the blocks: writes of clients, which are checked, stored and applied,
    and ends of associations. *)
Inductive SvOp :=
| SvWrite (conn : ConnId) (domain item : list Z) (v : Value)
| SvEnd (conn : ConnId).

Record SvWorld := mkSvWorld {
  sw_model : Model;
  sw_blocks : SvcbRegistry;
  sw_events : list SvControlEvent;
}.

Section runs.
Context (writable : gset Fc) (editing : list Z → bool)
  (hook : option (DataAttribute → Value → option DataAccessError)).

Definition svcb_write (w : SvWorld) (conn : ConnId) (domain item : list Z) (v : Value) : option DataAccessError * SvWorld :=
  match svcb_key (sw_blocks w) domain item with
  | None => (Some ObjectNonExistent, w)
  | Some (key, attr) =>
      match svcb_check_write (sw_blocks w) (sw_model w) key attr v conn with
      | Some e => (Some e, w)
      | None =>
          let old := svcb_before (sw_blocks w) (sw_model w) key attr in
          match store writable editing hook (sw_model w) ∅ domain item v true with
          | inr e => (Some e, w)
          | inl (m, _) =>
              let '(r, ev) := svcb_on_write (sw_blocks w) m key attr old conn in
              (None, mkSvWorld m r (sw_events w ++ option_list ev))
          end
      end
  end.

Definition sv_step (w : SvWorld) (op : SvOp) : SvWorld :=
  match op with
  | SvWrite conn domain item v => (svcb_write w conn domain item v).2
  | SvEnd conn =>
      let '(r, (m, evs)) := svcb_release_conn conn (sw_blocks w) (sw_model w, []) in
      mkSvWorld m r (sw_events w ++ evs)
  end.
End runs.

(** ** Flags *)

(** What identifies a block, and its key. *)
Definition sb_id (st : SvcbState) : list Z * list Z * list Z * bool :=
  (sb_device st, sb_node st, svc_name (sb_block st), sb_unicast st).

Definition sb_key (st : SvcbState) : list Z :=
  svcb_key_of (sb_device st) (sb_node st ++ DOLLAR :: Fc_as_str (sb_fc st) ++ DOLLAR :: svc_name (sb_block st)).

(** The names of a block have neither the separator of items nor that of keys. *)
Definition sb_named (st : SvcbState) : Prop :=
  0 ∉ sb_device st ∧ 0 ∉ sb_node st ∧ 0 ∉ svc_name (sb_block st) ∧ DOLLAR ∉ sb_node st ∧ DOLLAR ∉ svc_name (sb_block st).

Lemma set_sb_owner_id st o : sb_id (set_sb_owner st o) = sb_id st.
Proof. done. Qed.

Lemma sv_flag_other m st x v st' y :
  sb_id st' ≠ sb_id st ∨ txt y ≠ txt x →
  sv_flag (block_put m (sb_device st) (sb_node st) (svc_name (sb_block st)) (by_name_fc x (sb_fc st)) v) st' y = sv_flag m st' y.
Proof.
  intros Hne. unfold sv_flag, block_put.
  destruct (block_attr_mut m (sb_device st) (sb_node st) (svc_name (sb_block st)) (by_name_fc x (sb_fc st))) as [[a put]|] eqn:E; [|done].
  destruct (block_attr_put _ _ _ _ _ _ _ (Some v) E (sb_device st') (sb_node st') (svc_name (sb_block st'))
    (by_name_fc y (sb_fc st')) (by_name_fc_only y _)) as [->|(Hd & Hn & Ho & Ha & _)]; [done|].
  exfalso. assert (by_name_fc x (sb_fc st) a = true) as Hx.
  { apply block_attr_mut_inv in E as (?&?&?&?&?&?&?&_&_&_&Hf&_). by apply find_mut_find in Hf as [_ Hf]. }
  assert (by_name_fc y (sb_fc st') a = true) as Hy.
  { unfold block_attr in Ha. apply bind_Some in Ha as (? & _ & (? & _ & (? & _ & H)%bind_Some)%bind_Some).
    by apply find_find_mut in H as [? [_ H]%find_mut_find]. }
  unfold by_name_fc, by_name, named in Hx, Hy. apply andb_prop in Hx as [Hx1 Hx2], Hy as [Hy1 Hy2].
  apply bool_decide_eq_true in Hx1, Hx2, Hy1, Hy2. destruct Hne as [Hne|Hne]; [|congruence].
  apply Hne. unfold sb_id. rewrite Hd, Hn, Ho. f_equal. rewrite Hx2 in Hy2. unfold sb_fc in Hy2.
  by destruct (sb_unicast st), (sb_unicast st').
Qed.

Lemma sv_flag_same m st x v :
  is_Some (block_attr m (sb_device st) (sb_node st) (svc_name (sb_block st)) (by_name_fc x (sb_fc st))) →
  sv_flag (block_put m (sb_device st) (sb_node st) (svc_name (sb_block st)) (by_name_fc x (sb_fc st)) v) st x = as_bool v.
Proof. intros [a Ha]. unfold sv_flag. by rewrite (block_put_get _ _ _ _ _ _ _ (by_name_fc_only x _) Ha). Qed.

Lemma set_sv_flag_same m st x : sv_flag (set_sv_flag m st x false) st x = false.
Proof.
  unfold set_sv_flag.
  destruct (block_attr m (sb_device st) (sb_node st) (svc_name (sb_block st)) (by_name_fc x (sb_fc st))) as [a|] eqn:E.
  - by rewrite sv_flag_same by (by eexists).
  - assert (block_attr_mut m (sb_device st) (sb_node st) (svc_name (sb_block st)) (by_name_fc x (sb_fc st)) = None) as Hn.
    { destruct (block_attr_mut _ _ _ _ _) as [[b put]|] eqn:E'; [|done]. by rewrite (block_attr_get _ _ _ _ _ _ _ E') in E. }
    unfold block_put. rewrite Hn. unfold sv_flag. by rewrite E.
Qed.

(** ** What the application is told *)

Definition sv_state (m : Model) (st : SvcbState) : bool * bool * option ConnId :=
  (sv_flag m st "SvEna", sb_unicast st && sv_flag m st "Resv", sb_owner st).

Definition ev_id (ev : SvControlEvent) : list Z * list Z * list Z * bool :=
  (ev_device ev, ev_node ev, svc_name (ev_block ev), ev_unicast ev).

(** The state of a block according to the last event about it. *)
Definition told (evs : list SvControlEvent) (st : SvcbState) : bool * bool * option ConnId :=
  match last (filter (λ ev, ev_id ev = sb_id st) evs) with
  | Some ev => (ev_enabled ev, ev_reserved ev, ev_conn ev)
  | None => (false, false, None)
  end.

Lemma told_snoc evs ev st :
  told (evs ++ [ev]) st = if decide (ev_id ev = sb_id st) then (ev_enabled ev, ev_reserved ev, ev_conn ev) else told evs st.
Proof.
  unfold told. rewrite filter_app. case_decide as Hid.
  - by rewrite filter_cons_True, filter_nil, last_snoc.
  - by rewrite filter_cons_False, filter_nil, app_nil_r.
Qed.

Record block_inv (m : Model) (evs : list SvControlEvent) (k : list Z) (st : SvcbState) : Prop := {
  bi_key : k = sb_key st;
  bi_named : sb_named st;
  bi_owned : is_Some (sb_owner st) ↔ sb_unicast st = true ∧ sv_flag m st "Resv" = true;
  bi_told : told evs st = sv_state m st;
}.

Definition sv_inv (w : SvWorld) : Prop :=
  bt_wf (sw_blocks w) ∧ Forall (λ e, block_inv (sw_model w) (sw_events w) e.1 e.2) (sw_blocks w).

(** ** Keys *)

Lemma app_sep_inj {A} (x : A) l1 l2 r1 r2 : x ∉ l1 → x ∉ l2 → l1 ++ x :: r1 = l2 ++ x :: r2 → l1 = l2 ∧ r1 = r2.
Proof.
  revert l2. induction l1 as [|a l1 IH]; intros [|b l2] H1 H2 Heq; simpl in Heq.
  - by injection Heq as ->.
  - injection Heq as Hx Hr. subst. set_solver.
  - injection Heq as Hx Hr. subst. set_solver.
  - injection Heq as -> Hr. apply IH in Hr as [-> ->]; [done|set_solver..].
Qed.

(** A separator that is there once. *)
Lemma app_sep_inj_once {A} (x : A) l1 l2 r1 r2 : x ∉ l1 → x ∉ r1 → l1 ++ x :: r1 = l2 ++ x :: r2 → l1 = l2 ∧ r1 = r2.
Proof.
  revert l2. induction l1 as [|a l1 IH]; intros [|b l2] H1 H2 Heq; simpl in Heq.
  - by injection Heq as ->.
  - injection Heq as Hx Hr. subst. set_solver.
  - injection Heq as Hx Hr. subst. set_solver.
  - injection Heq as -> Hr. apply IH in Hr as [-> ->]; [done|set_solver..].
Qed.

Lemma sb_key_inj st st' : sb_named st → sb_named st' → sb_key st = sb_key st' → sb_id st = sb_id st'.
Proof.
  intros (H1 & H2 & H3 & H4 & H5) (H1' & H2' & H3' & H4' & H5') Hk. unfold sb_key, svcb_key_of in Hk.
  apply app_sep_inj in Hk as [Hd Hk]; [|done..]. apply app_sep_inj in Hk as [Hn Hk]; [|done..].
  assert (∀ s, DOLLAR ∉ Fc_as_str (sb_fc s)) as Hfc by (intros s; unfold sb_fc; destruct (sb_unicast s); set_solver).
  apply app_sep_inj in Hk as [Hf Hk]; [|done..]. unfold sb_id. rewrite Hd, Hn, Hk. f_equal.
  unfold sb_fc in Hf. by destruct (sb_unicast st), (sb_unicast st').
Qed.

(** The request that has the key of a block names it. *)
Lemma svcb_key_names r domain item key attr st :
  svcb_key r domain item = Some (key, attr) → key = sb_key st → sb_named st → (length (split DOLLAR item) ≤ 4)%nat →
  domain = sb_device st ∧
  (split DOLLAR item = [sb_node st; Fc_as_str (sb_fc st); svc_name (sb_block st)] ∧ attr = [] ∨
   split DOLLAR item = [sb_node st; Fc_as_str (sb_fc st); svc_name (sb_block st); attr]).
Proof.
  unfold svcb_key. destruct (split DOLLAR item) as [|p0 [|p1 [|p2 rest]]] eqn:Hs; try done.
  case_decide as Hp; [done|]. destruct (bt_contains r _); [|done]. intros [= <- <-] Hk (H1 & H2 & H3 & H4 & H5) Hlen.
  pose proof (split_parts DOLLAR item) as Hpl. rewrite Hs in Hpl.
  apply Forall_cons in Hpl as [Hp0 Hpl]. apply Forall_cons in Hpl as [Hp1 Hpl]. apply Forall_cons in Hpl as [Hp2 _].
  assert (0 ∉ Fc_as_str (sb_fc st) ∧ DOLLAR ∉ Fc_as_str (sb_fc st)) as [Hf0 Hf1].
  { unfold sb_fc. destruct (sb_unicast st); set_solver. }
  unfold sb_key, svcb_key_of in Hk. symmetry in Hk. apply app_sep_inj_once in Hk as [<- Hk]; [|done|set_solver by lia].
  cbn [join] in Hk. cbn [app] in Hk.
  apply app_sep_inj in Hk as [<- Hk]; [|done..]. apply app_sep_inj in Hk as [<- <-]; [|done..].
  split; [done|]. destruct rest as [|x [|y rest]]; [by left|by right|]. simpl in Hlen. lia.
Qed.

(** ** Writes *)

Lemma sb_id_key st st' : sb_id st = sb_id st' → sb_key st = sb_key st'.
Proof. unfold sb_id, sb_key, sb_fc. by intros [= -> -> -> ->]. Qed.

(** A block that is told of by nothing new, in a model that shows the same of it. *)
Lemma block_inv_kept m evs m' evs' k st :
  block_inv m evs k st → (∀ x, sv_flag m' st x = sv_flag m st x) → told evs' st = told evs st → block_inv m' evs' k st.
Proof.
  intros [Hk Hn Ho Ht] Hf He. split; [done|done|by rewrite Hf|]. rewrite He, Ht. unfold sv_state. by rewrite !Hf.
Qed.

Section step.
Context (writable : gset Fc) (editing : list Z → bool)
  (hook : option (DataAttribute → Value → option DataAccessError)).

(** A write that is not refused sets one of the two flags of a block that no other
    connection holds. *)
Lemma svcb_write_cases w conn domain item v :
  sv_inv w → (length (split DOLLAR item) ≤ 4)%nat →
  (∃ e, svcb_write writable editing hook w conn domain item v = (Some e, w)) ∨
  ∃ k st (x : string), (k, st) ∈ sw_blocks w ∧ bt_get (sw_blocks w) k = Some st ∧
    (sb_owner st = None ∨ sb_owner st = Some conn) ∧ (x = "SvEna"%string ∨ x = "Resv"%string ∧ sb_unicast st = true) ∧
    let m := block_put (sw_model w) (sb_device st) (sb_node st) (svc_name (sb_block st)) (by_name_fc x (sb_fc st)) v in
    sv_flag m st x = as_bool v ∧
    svcb_write writable editing hook w conn domain item v =
      let '(r, ev) := svcb_on_write (sw_blocks w) m k (txt x) (sv_flag (sw_model w) st x) conn in
      (None, mkSvWorld m r (sw_events w ++ option_list ev)).
Proof.
  intros [Hwf Hinv] Hlen. unfold svcb_write.
  destruct (svcb_key (sw_blocks w) domain item) as [[k attr]|] eqn:Hk; [|left; by eexists].
  destruct (svcb_check_write _ _ _ _ _ _) as [e|] eqn:Hc; [left; by eexists|].
  unfold svcb_check_write in Hc. destruct (bt_get (sw_blocks w) k) as [st|] eqn:Hget; [|done].
  case_decide as Ho; [done|]. destruct (bool_decide _ || _) eqn:Ha; [|by destruct (sv_flag _ _ _)].
  case_decide as Hty; [done|]. pose proof Hget as Hin. apply bt_get_elem in Hin; [|done].
  pose proof Hinv as Hi. rewrite Forall_forall in Hi. destruct (Hi _ Hin) as [Hkey Hnamed _ _]. simpl in Hkey, Hnamed.
  destruct (svcb_key_names _ _ _ _ _ _ Hk Hkey Hnamed Hlen) as [-> [[_ ->]|Hs]].
  { exfalso. revert Ha. rewrite !bool_decide_eq_false_2 by done. done. }
  assert (∃ x : string, attr = txt x ∧ (x = "SvEna"%string ∨ x = "Resv"%string ∧ sb_unicast st = true)) as (x & -> & Hx).
  { apply orb_prop in Ha as [Ha|Ha]; [|apply andb_prop in Ha as [Ha Hu]]; apply bool_decide_eq_true in Ha; subst; eauto. }
  pose proof (store_block writable editing hook (sw_model w) ∅ (sb_device st) item _ _ _ _ v Hs) as Hst.
  assert (parse_fc_lenient (Fc_as_str (sb_fc st)) = sb_fc st) as Hfc by (unfold sb_fc; by destruct (sb_unicast st)).
  rewrite Hfc in Hst. fold (by_name_fc x (sb_fc st)) in Hst.
  change (λ a, named da_name (txt x) a && under (sb_fc st) a) with (by_name_fc x (sb_fc st)) in Hst.
  destruct (block_attr _ _ _ _ _) as [a|] eqn:Hattr; [|destruct Hst as [e ->]; left; by eexists].
  case_decide; [|destruct Hst as [e ->]; left; by eexists].
  destruct (takes hook a v); [|destruct Hst as [e ->]; left; by eexists]. rewrite Hst. right.
  exists k, st, x. split_and!; [done..| |done|by apply sv_flag_same; eexists|].
  { destruct (sb_owner st) as [o|]; [|by left]. right. f_equal. destruct (decide (o = conn)); [done|]. exfalso. naive_solver. }
  unfold svcb_before. rewrite Hget. done.
Qed.

Lemma told_event evs m st st' :
  told (evs ++ [sv_event m st]) st' = if decide (sb_id st = sb_id st') then sv_state m st else told evs st'.
Proof. by rewrite told_snoc. Qed.

Lemma sv_write_inv w conn domain item v :
  sv_inv w → (length (split DOLLAR item) ≤ 4)%nat → sv_inv (svcb_write writable editing hook w conn domain item v).2.
Proof.
  intros Hw Hlen. destruct (svcb_write_cases w conn domain item v Hw Hlen) as [[e ->]|Hc]; [done|].
  destruct Hc as (k & st & x & Hin & Hget & Hown & Hx & Hflag & Heq). set (m := block_put _ _ _ _ _ _) in *.
  destruct Hw as [Hwf Hinv]. rewrite Forall_forall in Hinv. pose proof (Hinv _ Hin) as Hst. simpl in Hst.
  assert (∀ e, e ∈ sw_blocks w → e.1 ≠ k → sb_id st ≠ sb_id e.2) as Hids.
  { intros e He Hne Hid. apply Hne. destruct (Hinv e He) as [-> _ _ _]. destruct Hst as [-> _ _ _].
    by apply sb_id_key. }
  assert (∀ e y, e ∈ sw_blocks w → e.1 ≠ k → sv_flag m e.2 y = sv_flag (sw_model w) e.2 y) as Hother.
  { intros e y He Hne. apply sv_flag_other. left. by apply not_eq_sym, Hids. }
  assert (∀ e ev, e ∈ sw_blocks w → e.1 ≠ k → ev_id ev = sb_id st → block_inv m (sw_events w ++ [ev]) e.1 e.2) as Hnew.
  { intros e ev He Hne Hid. eapply block_inv_kept; [by apply Hinv|intros y; by apply Hother|].
    rewrite told_snoc, Hid. rewrite decide_False; [done|]. by apply Hids. }
  assert (∀ e, e ∈ sw_blocks w → e.1 ≠ k → block_inv m (sw_events w) e.1 e.2) as Hold.
  { intros e He Hne. eapply block_inv_kept; [by apply Hinv|intros y; by apply Hother|done]. }
  assert (∀ e, e ∈ sw_blocks w → e.1 = k → e = (k, st)) as Huniq.
  { intros [k' st'] He. simpl. intros ->. apply bt_get_elem in He; [|done]. congruence. }
  rewrite Heq. unfold svcb_on_write. rewrite Hget. destruct Hst as [Hkey Hnamed Howned Htold].
  destruct Hx as [->|[-> Hu]].
  - rewrite decide_True by done. split; [done|]. simpl. apply Forall_forall. intros e He.
    assert (sv_flag m st "Resv" = sv_flag (sw_model w) st "Resv") as Hr by (apply sv_flag_other; right; done).
    destruct (decide (e.1 = k)) as [Hk|Hk].
    + rewrite (Huniq e He Hk). simpl. split; [done|done|by rewrite Hr|]. case_decide as Hch; simpl.
      * rewrite told_event. by rewrite decide_True.
      * rewrite app_nil_r, Htold. unfold sv_state. rewrite Hr. f_equal. f_equal.
        destruct (sv_flag m st "SvEna"), (sv_flag (sw_model w) st "SvEna"); naive_solver.
    + case_decide; simpl; [by apply Hnew|rewrite app_nil_r; by apply Hold].
  - rewrite decide_False by done. rewrite decide_True by done. rewrite Hflag. simpl. split; [by apply bt_alter_wf|].
    simpl. apply Forall_fmap. apply Forall_forall. intros e He. unfold compose.
    assert (sv_flag m st "SvEna" = sv_flag (sw_model w) st "SvEna") as Hr by (apply sv_flag_other; right; done).
    destruct (cmp k e.1) eqn:Hcmp.
    + apply cmp_eq in Hcmp. symmetry in Hcmp. rewrite (Huniq e He Hcmp). simpl. set (st2 := set_sb_owner st _).
      assert (∀ y, sv_flag m st2 y = sv_flag m st y) as Hf2 by done.
      split; [done|done| |].
      * rewrite Hf2, Hflag. simpl. rewrite Hu. destruct (as_bool v); split; [done|by eexists|by intros [? ?]|by intros [_ ?]].
      * case_decide as Hch; simpl.
        -- rewrite told_event. by rewrite decide_True.
        -- rewrite app_nil_r. assert (sv_flag (sw_model w) st "Resv" = as_bool v) as Hsame.
           { destruct (sv_flag (sw_model w) st "Resv"), (as_bool v); naive_solver. }
           change (told (sw_events w) st2) with (told (sw_events w) st). rewrite Htold. unfold sv_state.
           rewrite !Hf2, Hr, Hflag, Hsame. f_equal. simpl. rewrite Hsame, Hu in Howned.
           destruct (as_bool v).
           ++ destruct Hown as [Hno| -> ]; [|done]. rewrite Hno in Howned. exfalso.
              destruct Howned as [_ Howned]. destruct Howned; done.
           ++ destruct (sb_owner st); [|done]. exfalso. destruct Howned as [Howned _]. destruct Howned; [by eexists|done].
    + assert (e.1 ≠ k) by (intros Hx; by rewrite Hx, cmp_refl in Hcmp).
      case_decide; simpl; [by apply Hnew|rewrite app_nil_r; by apply Hold].
    + assert (e.1 ≠ k) by (intros Hx; by rewrite Hx, cmp_refl in Hcmp).
      case_decide; simpl; [by apply Hnew|rewrite app_nil_r; by apply Hold].
Qed.
End step.

(** ** Ends of associations *)

Lemma bt_wf_keys {K V} `{Ordered K} (r r' : BTreeMap K V) : map fst r' = map fst r → bt_wf r → bt_wf r'.
Proof.
  intros Hk Hw. revert r' Hk. induction Hw as [|[k v] r Hr IH Hall]; intros [|[k' v'] r']; try done; [constructor|].
  simpl. intros [= -> Hk]. constructor; [by apply IH|]. apply Forall_forall. intros e He.
  assert (e.1 ∈ map fst r) as (e' & Heq & He')%list_elem_of_fmap by (rewrite <-Hk; apply list_elem_of_fmap; by exists e).
  rewrite Forall_forall in Hall. simpl. rewrite Heq. by apply Hall.
Qed.

Lemma ids_NoDup m evs (r : SvcbRegistry) :
  bt_wf r → Forall (λ e, block_inv m evs e.1 e.2) r → NoDup (map (λ e, sb_id e.2) r).
Proof.
  intros Hw%bt_keys_NoDup. induction r as [|[k st] r IH]; intros Hall; simpl in *; [constructor|].
  apply NoDup_cons in Hw as [Hk Hw]. apply Forall_cons in Hall as [Hst Hall]. constructor; [|by apply IH].
  intros ([k' st'] & Hid & Hin)%list_elem_of_fmap. simpl in Hid. apply Hk. apply list_elem_of_fmap.
  exists (k', st'). split; [|done]. rewrite Forall_forall in Hall. destruct (Hall _ Hin) as [Hk' _ _ _].
  destruct Hst as [Hk1 _ _ _]. simpl in *. subst. by apply sb_id_key.
Qed.

Lemma release_svcb_spec conn m evs st E k :
  block_inv m (E ++ evs) k st →
  let '(st', (m', evs')) := release_svcb conn (m, evs) st in
  block_inv m' (E ++ evs') k st' ∧ sb_id st' = sb_id st ∧ sb_owner st' ≠ Some conn ∧
  (sb_owner st ≠ Some conn → st' = st ∧ m' = m) ∧
  ∀ s, sb_id s ≠ sb_id st → (∀ x, sv_flag m' s x = sv_flag m s x) ∧ told (E ++ evs') s = told (E ++ evs) s.
Proof.
  intros [Hk Hn Ho Ht]. unfold release_svcb. case_decide as Hc; [|done]. cbn [fst snd].
  set (st2 := set_sb_owner st None). set (m1 := set_sv_flag m st2 "Resv" false). set (m2 := set_sv_flag m1 st2 "SvEna" false).
  assert (sv_flag m2 st2 "SvEna" = false) as H1 by apply set_sv_flag_same.
  assert (sv_flag m2 st2 "Resv" = false) as H2.
  { unfold m2, set_sv_flag. rewrite sv_flag_other by (right; done). apply set_sv_flag_same. }
  split_and!; [|done|done|done|].
  - split; [done|done| |].
    + rewrite H2. simpl. split; [by intros [? ?]|by intros [_ ?]].
    + rewrite app_assoc, told_event. by rewrite decide_True.
  - intros s Hs. split.
    + intros x. unfold m2, m1, set_sv_flag. by rewrite !sv_flag_other by (by left).
    + rewrite app_assoc, told_event. rewrite decide_False; [done|]. by apply not_eq_sym.
Qed.

Lemma release_spec conn E r : ∀ m evs,
  NoDup (map (λ e, sb_id e.2) r) → Forall (λ e, block_inv m (E ++ evs) e.1 e.2) r →
  let '(r', (m', evs')) := svcb_release_conn conn r (m, evs) in
  Forall (λ e, block_inv m' (E ++ evs') e.1 e.2) r' ∧ map fst r' = map fst r ∧
  Forall (λ e, sb_owner e.2 ≠ Some conn) r' ∧
  (∀ e, e ∈ r → sb_owner e.2 ≠ Some conn → e ∈ r' ∧ ∀ x, sv_flag m' e.2 x = sv_flag m e.2 x) ∧
  ∀ s, sb_id s ∉ map (λ e, sb_id e.2) r → (∀ x, sv_flag m' s x = sv_flag m s x) ∧ told (E ++ evs') s = told (E ++ evs) s.
Proof.
  induction r as [|[k st] r IH]; intros m evs Hd Hall; simpl; [split_and!; (done || set_solver)|].
  simpl in Hd. apply NoDup_cons in Hd as [Hid Hd]. apply Forall_cons in Hall as [Hst Hall]. simpl in Hst.
  pose proof (release_svcb_spec conn m evs st E k Hst) as Hs.
  destruct (release_svcb conn (m, evs) st) as [st' [m1 evs1]]. destruct Hs as (Hst' & Hid' & Hown & Hsame & Hframe).
  assert (Forall (λ e, block_inv m1 (E ++ evs1) e.1 e.2) r) as Hall1.
  { apply Forall_forall. intros e He. rewrite Forall_forall in Hall.
    destruct (Hframe e.2) as [Hf Ht]. { intros Heq. apply Hid. apply list_elem_of_fmap. by exists e. }
    eapply block_inv_kept; [by apply Hall|done|done]. }
  specialize (IH m1 evs1 Hd Hall1). destruct (svcb_release_conn conn r (m1, evs1)) as [r' [m2 evs2]].
  destruct IH as (Hr & Hkeys & Howns & Hkept & Hrest). split_and!.
  - constructor; [|done]. simpl. destruct (Hrest st') as [Hf Ht]. { by rewrite Hid'. } by eapply block_inv_kept.
  - simpl. by f_equal.
  - by constructor.
  - intros e [->|He]%elem_of_cons Ho; simpl in *.
    + destruct (Hsame Ho) as [-> ->]. split; [by left|]. by apply Hrest.
    + destruct (Hkept e He Ho) as [H1 H2]. split; [by right|]. intros x. rewrite H2. apply Hframe.
      intros Heq. apply Hid. apply list_elem_of_fmap. by exists e.
  - intros s Hs. apply not_elem_of_cons in Hs as [Hs1 Hs2]. destruct (Hframe s Hs1) as [Hf Ht], (Hrest s Hs2) as [Hf2 Ht2].
    split; [intros x; by rewrite Hf2|by rewrite Ht2].
Qed.

Lemma sv_end_inv w conn writable editing hook : sv_inv w → sv_inv (sv_step writable editing hook w (SvEnd conn)).
Proof.
  intros [Hwf Hall]. simpl.
  pose proof (release_spec conn (sw_events w) (sw_blocks w) (sw_model w) [] (ids_NoDup _ _ _ Hwf Hall)) as H.
  rewrite app_nil_r in H. specialize (H Hall).
  destruct (svcb_release_conn conn (sw_blocks w) (sw_model w, [])) as [r' [m' evs']]. destruct H as (Hr & Hk & _).
  split; [by eapply bt_wf_keys|done].
Qed.

(** ** Theorems *)

Definition sv_op_ok (op : SvOp) : Prop :=
  match op with SvWrite _ _ item _ => (length (split DOLLAR item) ≤ 4)%nat | SvEnd _ => True end.

Section theorems.
Context (writable : gset Fc) (editing : list Z → bool)
  (hook : option (DataAttribute → Value → option DataAccessError)).

Lemma sv_run_inv ops w : sv_inv w → Forall sv_op_ok ops → sv_inv (foldl (sv_step writable editing hook) w ops).
Proof.
  intros Hw Hops. revert w Hw. induction Hops as [|op ops Hop _ IH]; intros w Hw; [done|]. apply IH.
  destruct op; [by apply sv_write_inv|by apply sv_end_inv].
Qed.


(** An operation another connection than [c] causes. *)
Definition not_by (c : ConnId) (op : SvOp) : Prop :=
  match op with SvWrite conn _ _ _ => conn ≠ c | SvEnd conn => conn ≠ c end.

Lemma sv_step_kept c w op k st :
  sv_inv w → sv_op_ok op → not_by c op → (k, st) ∈ sw_blocks w → sb_owner st = Some c →
  (k, st) ∈ sw_blocks (sv_step writable editing hook w op) ∧
  ∀ x, sv_flag (sw_model (sv_step writable editing hook w op)) st x = sv_flag (sw_model w) st x.
Proof.
  intros Hw Hok Hby Hin Ho. pose proof Hw as [Hwf Hall]. destruct op as [conn domain item v|conn]; simpl in Hok, Hby.
  - simpl. destruct (svcb_write_cases writable editing hook w conn domain item v Hw Hok) as [[e ->]|Hc]; [done|].
    destruct Hc as (k' & st' & x & Hin' & Hget & Hown & Hx & Hflag & ->). set (m := block_put _ _ _ _ _ _).
    assert (k' ≠ k) as Hne.
    { intros ->. apply bt_get_elem in Hin; [|done]. rewrite Hin in Hget. injection Hget as ->. naive_solver. }
    assert (sb_id st ≠ sb_id st') as Hid.
    { intros Hid%sb_id_key. rewrite Forall_forall in Hall. destruct (Hall _ Hin) as [H1 _ _ _], (Hall _ Hin') as [H2 _ _ _].
      simpl in *. congruence. }
    assert (∀ y, sv_flag m st y = sv_flag (sw_model w) st y) as Hf by (intros y; apply sv_flag_other; by left).
    unfold svcb_on_write. rewrite Hget. destruct Hx as [->|[-> _]].
    + rewrite decide_True by done. simpl. done.
    + rewrite decide_False, decide_True by done. simpl. split; [|done].
      apply bt_get_elem; [by apply bt_alter_wf|]. rewrite bt_get_alter.
      assert (bt_get (sw_blocks w) k = Some st) as -> by by apply bt_get_elem.
      destruct (cmp k k') eqn:E; [|done..]. apply cmp_eq in E. congruence.
  - simpl. pose proof (release_spec conn (sw_events w) (sw_blocks w) (sw_model w) [] (ids_NoDup _ _ _ Hwf Hall)) as H.
    rewrite app_nil_r in H. specialize (H Hall).
    destruct (svcb_release_conn conn (sw_blocks w) (sw_model w, [])) as [r' [m' evs']]. destruct H as (_ & _ & _ & Hkept & _).
    apply (Hkept (k, st) Hin). simpl. congruence.
Qed.

(** A sampled-value block that an association has reserved is its own: whatever
    other clients write and whichever other associations end, the block keeps its
    holder, its SvEna and its Resv. *)
Theorem sv_reservation_exclusive (w : SvWorld) (ops : list SvOp) (c : ConnId) (k : list Z) (st : SvcbState) :
  sv_inv w → Forall sv_op_ok ops → Forall (not_by c) ops → (k, st) ∈ sw_blocks w → sb_owner st = Some c →
  let w' := foldl (sv_step writable editing hook) w ops in
  (k, st) ∈ sw_blocks w' ∧ sv_state (sw_model w') st = sv_state (sw_model w) st.
Proof.
  intros Hw Hops Hby Hin Ho. revert w Hw Hby Hin. induction Hops as [|op ops Hop _ IH]; intros w Hw Hby Hin; [done|].
  apply Forall_cons in Hby as [Hb Hby]. destruct (sv_step_kept c w op k st Hw Hop Hb Hin Ho) as [Hin' Hf].
  assert (sv_inv (sv_step writable editing hook w op)) as Hw'.
  { destruct op; [by apply sv_write_inv|by apply sv_end_inv]. }
  destruct (IH _ Hw' Hby Hin') as [H1 H2]. split; [done|]. simpl in H2 |- *. rewrite H2. unfold sv_state. by rewrite !Hf.
Qed.
End theorems.

(** A device with a unicast block, reserved and enabled by a client. *)
Definition stream_control : SvControl :=
  mkSvControl (txt "u1") (txt "id") (txt "ds") 1 80 1 false SmpPerPeriod (mkSvOpts false true true false false false false)
    [] [] (replicate 6 0) None 0x4000 0 4.

Definition stream_model : Model :=
  Eval vm_compute in materialise_control_blocks
    (mkModel (txt "IED") [mkLD (txt "MU") (txt "MU")
      [mkLogicalNode (txt "LLN0") (txt "LLN0") [] [] [] [] [stream_control] [] None []]]).

Definition stream_world : SvWorld := mkSvWorld stream_model (SvcbRegistry_build stream_model) [].

Lemma stream_inv : sv_inv stream_world.
Proof.
  split; [by repeat constructor|]. constructor; [|constructor]. split.
  - by vm_compute.
  - split_and!; apply (bool_decide_unpack _); by vm_compute.
  - vm_compute. split; [by intros [? ?]|by intros [_ ?]].
  - by vm_compute.
Qed.

Definition sv_run : SvWorld → list SvOp → SvWorld := foldl (sv_step ∅ (λ _, false) None).

Definition stream_set (conn : ConnId) (attr : string) (on : bool) : SvOp :=
  SvWrite conn (txt "MU") (txt "LLN0$US$u1$" ++ txt attr) (VBoolean on).

Definition reserved_stream : SvcbState := mkSvcb (txt "MU") (txt "LLN0") stream_control true (Some 1).

Definition reserved_world : SvWorld := Eval vm_compute in sv_run stream_world [stream_set 1 "Resv" true].

Lemma reserved_inv : sv_inv reserved_world.
Proof.
  pose proof (sv_run_inv ∅ (λ _, false) None [stream_set 1 "Resv" true] stream_world stream_inv) as H.
  assert (foldl (sv_step ∅ (λ _, false) None) stream_world [stream_set 1 "Resv" true] = reserved_world) as E by by vm_compute.
  rewrite E in H. apply H. constructor; [by vm_compute; lia|constructor].
Qed.


Lemma sv_reservation_exclusive_witness :
  sv_state (sw_model (sv_run reserved_world [stream_set 2 "Resv" false; stream_set 2 "SvEna" true; SvEnd 2])) reserved_stream =
    (false, true, Some 1).
Proof.
  destruct (sv_reservation_exclusive ∅ (λ _, false) None reserved_world
    [stream_set 2 "Resv" false; stream_set 2 "SvEna" true; SvEnd 2] 1 (sb_key reserved_stream) reserved_stream reserved_inv)
    as [_ H].
  - repeat constructor; vm_compute; lia.
  - by repeat constructor.
  - vm_compute. left.
  - done.
  - unfold sv_run. rewrite H. by vm_compute.
Defined.
