(* ===== verification/ReportPdu.v ===== *)
(** The reports of a control block on the wire (src/src/server/reporting.rs):
    data sets and their members, the optional fields, one report's PDU and its
    segmentation to the association's PDU size. *)

From S2P Require Import Prelude Ber BerDecoder BerPrim TimeUtil Text Errors MmsValue MmsCodec.
From S2P Require Import ObjRef Quality Nodes Access Tx Selections InfoReport Rcb.
Local Open Scope list_scope.
Local Open Scope Z_scope.

(** ** Data sets *)

Record DsMember := mkMember {
  ds_domain : list Z;
  ds_item : list Z;
}.

Definition dataset_members (m : Model) (domain name : list Z) : list DsMember :=
  match device m domain with
  | None => []
  | Some ld =>
      match split_once DOLLAR name with
      | None => []
      | Some (ln_name, ds_name) =>
          match (ln ← node ld ln_name; data_set ln ds_name) with
          | None => []
          | Some ds => map (λ e, let '(d, i) := to_mms (fcda_reference e) (fcda_fc e) in mkMember d i) (ds_entries ds)
          end
      end
  end.

Definition resolve_data_set (m : Model) (reference : list Z) : option (list DsMember) :=
  '(domain, name) ← split_once SLASH reference;
  '(ln_name, ds_name) ← split_once DOLLAR name;
  ld ← device m domain;
  ln ← node ld ln_name;
  _ ← data_set ln ds_name;
  Some (dataset_members m domain name).

Definition item_value (m : Model) (domain item : list Z) : option Value :=
  ld ← device m domain;
  ln ← node ld (hd [] (split DOLLAR item));
  resolve_read ln item.

(** The reasons [changes] raised for a member: those of changes to it, below it
    and above it, under its functional constraint. *)
Definition member_reason (changes : ChangeSet) (member : DsMember) : Z :=
  let '(reference, fc) := from_mms (ds_domain member) (ds_item member) in
  let below := reference ++ [DOT] in
  map_fold (λ (k : ObjectReference * Fc) t r,
    if decide (k.2 ≠ fc) then r
    else if bool_decide (k.1 = reference) || starts_with below k.1 || starts_with (k.1 ++ [DOT]) reference
    then Z.lor r t else r) 0 changes.

(** ** The attributes of a block *)

Definition attr_value (m : Model) (rs : RcbState) (name : string) : option Value :=
  ld ← device m (rs_domain rs);
  ln ← node ld (rs_ln_name rs);
  o ← object ln (rs_object_name rs);
  a ← do_attribute o (txt name);
  da_value a.

Definition set_attr (m : Model) (rs : RcbState) (name : string) (v : Value) : Model :=
  match
    ('(ld, put_ld) ← device_mut m (rs_domain rs);
     '(ln, put_ln) ← node_mut ld (rs_ln_name rs);
     '(o, put_o) ← object_mut ln (rs_object_name rs);
     '(a, put_a) ← do_attribute_mut o (txt name);
     Some (put_ld (put_ln (put_o (put_a (set_value a (Some v)))))))
  with
  | Some m => m
  | None => m
  end.

Definition trg_ops (m : Model) (rs : RcbState) : Z :=
  match attr_value m rs "TrgOps" with Some v => TrgOps_from_value v | None => 0 end.

Definition SUPPORTED_OPT_FLDS : Z :=
  fold_right Z.lor 0
    (map opt [SEQ_NUM; TIME_OF_ENTRY; REASON_CODE; DATA_SET_NAME; DATA_REF; BUF_OVFL; ENTRY_ID; CONF_REV]).

Definition effective_opt_flds (o : Z) (buffered : bool) : Z :=
  let o := Z.land o SUPPORTED_OPT_FLDS in
  if buffered then o else Z.land o (u16 (Z.lnot (Z.lor (opt BUF_OVFL) (opt ENTRY_ID)))).

(** ** One report *)

Record ReportFields := mkFields {
  f_rpt_id : list Z;
  f_dat_set : list Z;
  f_conf_rev : Z;
  f_opt : Z;
  f_seq : Z;
  f_buf_ovfl : bool;
  f_buffered : bool;
}.

(** [&l[from..to]]. *)
Definition sub_slice {E A} (from to : nat) (l : list A) : outcome E (list A) :=
  if decide (from ≤ to ∧ to ≤ length l)%nat then Ok (take (to - from) (drop from l)) else Panic.

Definition when {A} (b : bool) (l : list A) : list A := if b then l else [].

(** The fields before those of a segment. *)
Definition report_head (f : ReportFields) (e : ReportEntry) (o : Z) : list Value :=
  [VVisibleString (f_rpt_id f); OptFlds_value o] ++
  when (has o (opt SEQ_NUM)) [VUnsigned (if f_buffered f then u16 (f_seq f) else u8 (f_seq f))] ++
  when (has o (opt TIME_OF_ENTRY)) [binary_time (e_time e)] ++
  when (has o (opt DATA_SET_NAME)) [VVisibleString (f_dat_set f)] ++
  when (has o (opt BUF_OVFL)) [VBoolean (f_buf_ovfl f)] ++
  when (has o (opt ENTRY_ID)) [VOctetString (e_id e)] ++
  when (has o (opt CONF_REV)) [VUnsigned (f_conf_rev f)].

(** The MMS form of a member's reference. *)
Definition data_ref (members : list DsMember) (idx : nat) : option Value :=
  m ← members !! idx; Some (VVisibleString (ds_domain m ++ SLASH :: ds_item m)).

(** The fields after them, of the members [ms], their values and reasons. *)
Definition report_body (o : Z) (members : list DsMember) (ms : list nat) (vs : list Value) (rs : list Z)
    : list Value :=
  [foldl (λ v idx, put_at v (Z.of_nat idx) true) (Value_bit_string (zlen members)) ms] ++
  when (has o (opt DATA_REF)) (omap (data_ref members) ms) ++
  vs ++
  map ReasonCode_value rs.

Definition segment_opt (f : ReportFields) (segment : option (Z * bool)) : Z :=
  match segment with Some _ => Z.lor (f_opt f) (opt SEGMENTATION) | None => f_opt f end.

(** The values of the report of [e]'s members [from..to], in order. *)
Definition report_values (f : ReportFields) (e : ReportEntry) (members : list DsMember) (from to : nat)
    (segment : option (Z * bool)) : outcome Empty_set (list Value) :=
  let o := segment_opt f segment in
  ms ← sub_slice from to (e_members e);
  vs ← sub_slice from to (e_values e);
  rs ← (if has o (opt REASON_CODE) then sub_slice from to (e_reasons e) else Ok []);
  Ok (report_head f e o ++
      match segment with Some (sub_seq, more) => [VUnsigned sub_seq; VBoolean more] | None => [] end ++
      report_body o members ms vs rs).

Definition rpt_name : Element := prim (context_primitive 0) (txt "RPT").

Definition report_element (f : ReportFields) (e : ReportEntry) (members : list DsMember) (from to : nat)
    (segment : option (Z * bool)) : outcome Empty_set Element :=
  values ← report_values f e members from to segment;
  fields ← filter_map_outcome data_element values;
  Ok (cons_elem (context_constructed 0)
    [cons_elem (context_constructed 1) [rpt_name]; cons_elem (context_constructed 0) fields]).

(** ** Segmentation *)

Section segments.
Context (build : nat → nat → option (Z * bool) → outcome Empty_set Element) (fits : Element → bool) (n : nat).

(** [while to < n && fits(build(from, to + 1, ..)) { to += 1 }] *)
Fixpoint grow (fuel : nat) (from to : nat) (sub_seq : Z) : outcome Empty_set nat :=
  match fuel with
  | O => NoFuel
  | S fuel =>
      if decide (to < n)%nat then
        el ← build from (S to) (Some (sub_seq, true));
        if fits el then grow fuel from (S to) sub_seq else Ok to
      else Ok to
  end.

(** [while from < n { .. }] *)
Fixpoint segment_loop (fuel : nat) (from : nat) (sub_seq : Z) : outcome Empty_set (list Element) :=
  match fuel with
  | O => NoFuel
  | S fuel =>
      if decide (from < n)%nat then
        to ← grow (S n) from (S from) sub_seq;
        el ← build from to (Some (sub_seq, bool_decide (to < n)%nat));
        els ← segment_loop fuel to (u16 (sub_seq + 1));
        Ok (el :: els)
      else Ok []
  end.

(** *** What the loops do *)

(** [els] carry the members from [from] on, in order: each segment fits, or has
    one member that does not, and takes as many as fit. *)
Inductive cuts : nat → Z → list Element → Prop :=
| cuts_end sub_seq : cuts n sub_seq []
| cuts_seg from to sub_seq el els :
    (from < to ≤ n)%nat →
    build from to (Some (sub_seq, bool_decide (to < n)%nat)) = Ok el →
    (to = S from ∨ ∃ el', build from to (Some (sub_seq, true)) = Ok el' ∧ fits el' = true) →
    (to = n ∨ ∃ el', build from (S to) (Some (sub_seq, true)) = Ok el' ∧ fits el' = false) →
    cuts to (u16 (sub_seq + 1)) els →
    cuts from sub_seq (el :: els).

Hypothesis build_total : ∀ from to segment, (from ≤ to ≤ n)%nat → ∃ el, build from to segment = Ok el.

Lemma grow_spec from sub_seq : ∀ fuel to,
  (from < to ≤ n)%nat → (n - to < fuel)%nat →
  (to = S from ∨ ∃ el, build from to (Some (sub_seq, true)) = Ok el ∧ fits el = true) →
  ∃ to', grow fuel from to sub_seq = Ok to' ∧ (to ≤ to' ≤ n)%nat ∧
    (to' = S from ∨ ∃ el, build from to' (Some (sub_seq, true)) = Ok el ∧ fits el = true) ∧
    (to' = n ∨ ∃ el, build from (S to') (Some (sub_seq, true)) = Ok el ∧ fits el = false).
Proof using build_total.
  induction fuel as [|fuel IH]; intros to Hto Hf Hfit; [lia|]. cbn [grow]. case_decide as Hlt.
  - destruct (build_total from (S to) (Some (sub_seq, true))) as [el Hel]; [lia|]. rewrite Hel. simpl.
    destruct (fits el) eqn:Hfe.
    + destruct (IH (S to)) as (to' & Hg & Hr & Hrest); [lia|lia|by eauto|].
      exists to'. split; [done|]. split; [lia|done].
    + exists to. eauto 10 with lia.
  - exists to. split; [done|]. split; [lia|]. split; [done|]. left. lia.
Qed.

Lemma segment_loop_spec : ∀ fuel from sub_seq,
  (from ≤ n)%nat → (n - from < fuel)%nat → ∃ els, segment_loop fuel from sub_seq = Ok els ∧ cuts from sub_seq els.
Proof using build_total.
  induction fuel as [|fuel IH]; intros from sub_seq Hfrom Hf; [lia|]. cbn [segment_loop]. case_decide as Hlt.
  - destruct (grow_spec from sub_seq (S n) (S from)) as (to & -> & Hto & Hfit & Hmax); [lia|lia|by left|]. simpl.
    destruct (build_total from to (Some (sub_seq, bool_decide (to < n)%nat))) as [el Hel]; [lia|]. rewrite Hel. simpl.
    destruct (IH to (u16 (sub_seq + 1))) as (els & -> & Hels); [lia|lia|]. simpl.
    exists (el :: els). split; [done|]. by apply (cuts_seg from to); [lia|..].
  - exists []. split; [done|]. assert (from = n) as -> by lia. constructor.
Qed.
End segments.

(** The unconfirmed PDU adds its own tag and length to the report. *)
Definition fits (max_pdu : Z) (el : Element) : bool :=
  bool_decide (max_pdu = 0) || bool_decide (Element_size el + 4 ≤ max_pdu).

Section pdus.
Context (display : Value → list Z).

Definition attr_text (m : Model) (rs : RcbState) (name : string) : list Z :=
  match attr_value m rs name with Some v => Value_text display v | None => [] end.

Definition report_fields (m : Model) (rs : RcbState) (seq : Z) (buf_ovfl : bool) : ReportFields :=
  let o :=
    effective_opt_flds (match attr_value m rs "OptFlds" with Some v => OptFlds_from_value v | None => 0 end)
      (rs_buffered rs) in
  mkFields (rpt_id_of (attr_text m rs "RptID") (rs_domain rs) (rs_item rs)) (attr_text m rs "DatSet")
    (match attr_value m rs "ConfRev" with Some v => as_u32 v | None => 0 end) o seq buf_ovfl (rs_buffered rs).

Definition report_pdus (m : Model) (rs : RcbState) (e : ReportEntry) (seq : Z) (buf_ovfl : bool) (max_pdu : Z)
    : outcome Empty_set (list Element) :=
  let members := default [] (resolve_data_set m (attr_text m rs "DatSet")) in
  let build := report_element (report_fields m rs seq buf_ovfl) e members in
  let n := length (e_members e) in
  whole ← build 0%nat n None;
  if fits max_pdu whole then Ok [whole]
  else segment_loop build (fits max_pdu) n (S n) 0 0.
End pdus.

(** ** Every report is built, and its segments fit *)

Lemma filter_map_cons {E A B} (f : A → outcome E (option B)) x l :
  filter_map_outcome f (x :: l) =
  (b ← f x; bs ← filter_map_outcome f l; Ok (match b with Some b => b :: bs | None => bs end)).
Proof. done. Qed.

Lemma filter_map_app {E A B} (f : A → outcome E (option B)) l1 l2 :
  filter_map_outcome f (l1 ++ l2) =
  (a ← filter_map_outcome f l1; b ← filter_map_outcome f l2; Ok (a ++ b)).
Proof.
  induction l1 as [|x l1 IH]; [by simpl; destruct (filter_map_outcome f l2)|].
  rewrite <-app_comm_cons, !filter_map_cons, IH. destruct (f x) as [[y|]|?| |]; simpl; try done.
  all: destruct (filter_map_outcome f l1); simpl; try done.
  all: by destruct (filter_map_outcome f l2).
Qed.

Lemma sub_slice_Ok {E A} from to (l : list A) :
  (from ≤ to ≤ length l)%nat → sub_slice (E:=E) from to l = Ok (take (to - from) (drop from l)).
Proof. intros H. unfold sub_slice. by rewrite decide_True by lia. Qed.

Definition run {A} (from to : nat) (l : list A) : list A := take (to - from) (drop from l).

Lemma report_values_eq f e members from to segment :
  (from ≤ to ≤ length (e_members e))%nat → entry_ok e →
  let o := segment_opt f segment in
  report_values f e members from to segment =
  Ok (report_head f e o ++
      match segment with Some (sub_seq, more) => [VUnsigned sub_seq; VBoolean more] | None => [] end ++
      report_body o members (run from to (e_members e)) (run from to (e_values e))
        (if has o (opt REASON_CODE) then run from to (e_reasons e) else [])).
Proof.
  intros Hr (_ & Hv & Hrs) o. unfold report_values. fold o.
  rewrite !sub_slice_Ok by lia. by destruct (has o (opt REASON_CODE)).
Qed.

(** Every field of a report has an encoding when the entry's values have one. *)
Definition encodable (v : Value) : Prop := ∃ el, data_element (E:=Empty_set) v = Ok el.

Lemma encodable_all vs : Forall encodable vs → ∃ els, filter_map_outcome (data_element (E:=Empty_set)) vs = Ok els.
Proof.
  induction 1 as [|v vs [el Hel] _ [els IH]]; [by exists []|].
  rewrite filter_map_cons, Hel, IH. simpl. by destruct el; eexists.
Qed.

Lemma plain_encodable v :
  match v with VArray _ | VStructure _ | VBitString _ => False | _ => True end → encodable v.
Proof. destruct v; intros H; try done; eexists; reflexivity. Qed.

(** What the decoder of the wire gives has an encoding. *)
Lemma wf_encodable v : value_wf v → encodable v.
Proof.
  intros Hw. destruct (value_encodes (E:=Empty_set) v (S (value_depth v)) Hw) as (el & Hel & _); [lia|]. by exists (Some el).
Qed.

Lemma binary_time_form t : ∃ b, binary_time t = VBinaryTime b ∧ octets b ∧ zlen b = 6.
Proof.
  unfold binary_time. destruct (unix_parts t) as [secs nanos]. eexists. split; [done|]. split; [|done].
  rewrite !octets_cons. split_and!; try apply u8_octet. constructor.
Qed.

Lemma binary_time_encodable t : encodable (binary_time t).
Proof. destruct (binary_time_form t) as (b & -> & _). by apply plain_encodable. Qed.

Lemma bits_encodable bs : bs_wf bs → encodable (VBitString bs).
Proof.
  intros Hw. destruct (append_decode_bit_string (E:=Empty_set) bs Hw) as (c & Hc & _).
  unfold encodable. simpl. unfold bit_string_elem. rewrite Hc. by eexists.
Qed.

Lemma to_bits_encodable mask width : 0 ≤ width → encodable (to_bits mask width).
Proof. intros Hw. destruct (to_bits_spec mask width Hw) as (bs & -> & Hbs & _). by apply bits_encodable. Qed.

Lemma inclusion_spec (n : nat) ms :
  ∃ bs, foldl (λ v idx, put_at v (Z.of_nat idx) true) (Value_bit_string (Z.of_nat n)) ms = VBitString bs ∧
    bs_wf bs ∧ bs_length bs = Z.of_nat n ∧
    ∀ j : nat, (j < n)%nat → bit_at (VBitString bs) (Z.of_nat j) = bool_decide (j ∈ ms).
Proof.
  assert (∀ bs0, bs_wf bs0 → bs_length bs0 = Z.of_nat n → ∃ bs,
    foldl (λ v idx, put_at v (Z.of_nat idx) true) (VBitString bs0) ms = VBitString bs ∧
    bs_wf bs ∧ bs_length bs = Z.of_nat n ∧
    ∀ j : nat, (j < n)%nat →
      bit_at (VBitString bs) (Z.of_nat j) = bit_at (VBitString bs0) (Z.of_nat j) || bool_decide (j ∈ ms)) as H.
  { induction ms as [|i ms IH]; intros bs0 Hw Hl.
    - exists bs0. split_and!; [done..|]. intros j _. by rewrite orb_false_r.
    - destruct (put_at_spec bs0 (Z.of_nat i) true Hw) as (bs1 & Hp & Hw1 & Hl1 & Hb1); [lia|]. cbn [foldl].
      rewrite Hp. destruct (IH bs1 Hw1) as (bs & Hf & Hwf & Hlf & Hbf); [congruence|].
      exists bs. split_and!; [done..|]. intros j Hj. rewrite Hbf, Hb1 by lia.
      destruct (decide (Z.of_nat i = Z.of_nat j)) as [Heq|Hne].
      + assert (i = j) as -> by lia. rewrite (bool_decide_eq_true_2 (j ∈ j :: ms)) by (by left). by rewrite orb_true_r.
      + f_equal. apply bool_decide_ext. rewrite elem_of_cons. naive_solver. }
  destruct (H (BitString_new (Z.of_nat n))) as (bs & Hf & Hw & Hl & Hb); [by apply BitString_new_wf; lia|done|].
  exists bs. split_and!; [done..|]. intros j Hj. rewrite Hb by done.
  assert (bit_at (VBitString (BitString_new (Z.of_nat n))) (Z.of_nat j) = false) as ->; [|done].
  unfold bit_at. case_decide; [done|]. apply bool_decide_eq_false_2. simpl. intros Hne. apply Hne.
  destruct (_ !! _) as [b|] eqn:E; [|done]. apply lookup_replicate in E as [-> _]. done.
Qed.

Lemma Forall_when {A} (P : A → Prop) b l : Forall P l → Forall P (when b l).
Proof. destruct b; [done|constructor]. Qed.

Lemma Forall_omap {A B} (P : B → Prop) (f : A → option B) l :
  (∀ x y, f x = Some y → P y) → Forall P (omap f l).
Proof.
  intros H. induction l as [|x l IH]; [constructor|]. simpl. destruct (f x) eqn:E; [|done].
  constructor; [by eapply H|done].
Qed.

Lemma Forall_run {A} (P : A → Prop) from to l : Forall P l → Forall P (run from to l).
Proof. intros H. by apply Forall_take, Forall_drop. Qed.

#[local] Opaque to_bits binary_time has.

Lemma report_head_Forall (P : Value → Prop) f e o :
  P (VVisibleString (f_rpt_id f)) → P (OptFlds_value o) →
  P (VUnsigned (if f_buffered f then u16 (f_seq f) else u8 (f_seq f))) →
  P (binary_time (e_time e)) → P (VVisibleString (f_dat_set f)) → P (VBoolean (f_buf_ovfl f)) →
  P (VOctetString (e_id e)) → P (VUnsigned (f_conf_rev f)) →
  Forall P (report_head f e o).
Proof.
  intros. unfold report_head. apply Forall_app_2; [by repeat constructor|].
  do 5 (apply Forall_app_2; [by apply Forall_when; repeat constructor|]).
  by apply Forall_when; repeat constructor.
Qed.

Lemma report_body_Forall (P : Value → Prop) o members ms vs rs :
  (∀ bs, bs_wf bs → P (VBitString bs)) →
  Forall (λ m, P (VVisibleString (ds_domain m ++ SLASH :: ds_item m))) members →
  Forall P vs → (∀ r, P (ReasonCode_value r)) →
  Forall P (report_body o members ms vs rs).
Proof.
  intros Hb Hm Hv Hr. unfold report_body. apply Forall_app_2; [|apply Forall_app_2; [|apply Forall_app_2; [done|]]].
  - constructor; [|constructor]. unfold zlen. destruct (inclusion_spec (length members) ms) as (bs & -> & Hw & _).
    by apply Hb.
  - apply Forall_when, Forall_omap. intros x y (m & Hx & [= <-])%bind_Some. by eapply Forall_lookup_1 in Hm.
  - rewrite Forall_map. apply Forall_forall. intros r _. apply Hr.
Qed.

Lemma report_values_encodable f e members from to segment :
  (from ≤ to ≤ length (e_members e))%nat → entry_ok e → Forall encodable (e_values e) →
  ∃ vs, report_values f e members from to segment = Ok vs ∧ Forall encodable vs.
Proof.
  intros Hr He Hv. rewrite report_values_eq by assumption. eexists. split; [reflexivity|].
  apply Forall_app_2; [|apply Forall_app_2].
  - apply report_head_Forall; try (apply plain_encodable; exact I).
    + by apply to_bits_encodable.
    + apply binary_time_encodable.
  - destruct segment as [[s more]|]; repeat constructor; apply plain_encodable; exact I.
  - apply report_body_Forall; [apply bits_encodable| |by apply Forall_run|intros r; by apply to_bits_encodable].
    apply Forall_forall. intros m _. by apply plain_encodable.
Qed.

Lemma report_element_total f e members from to segment :
  (from ≤ to ≤ length (e_members e))%nat → entry_ok e → Forall encodable (e_values e) →
  ∃ el, report_element f e members from to segment = Ok el.
Proof.
  intros Hr He Hv. destruct (report_values_encodable f e members from to segment Hr He Hv) as (vs & Hvs & Hall).
  destruct (encodable_all vs Hall) as [els Hels]. unfold report_element. rewrite Hvs. simpl. rewrite Hels. by eexists.
Qed.

(** Whether more segments follow does not change the size of one. *)
Lemma more_size front back sub_seq els els' :
  filter_map_outcome (data_element (E:=Empty_set)) (front ++ [VUnsigned sub_seq; VBoolean true] ++ back) = Ok els →
  filter_map_outcome (data_element (E:=Empty_set)) (front ++ [VUnsigned sub_seq; VBoolean false] ++ back) = Ok els' →
  Zsum (map Element_size els) = Zsum (map Element_size els').
Proof.
  rewrite !filter_map_app. destruct (filter_map_outcome _ front) as [a|?| |]; [|done..].
  destruct (filter_map_outcome _ back) as [b|?| |]; [|done..]. simpl. intros H1 H2.
  apply Ok_inj in H1, H2. subst. unfold Zsum. induction a as [|x a IH]; [done|]. simpl. by rewrite IH.
Qed.

Lemma report_element_size f e members from to sub_seq el el' :
  (from ≤ to ≤ length (e_members e))%nat → entry_ok e →
  report_element f e members from to (Some (sub_seq, true)) = Ok el →
  report_element f e members from to (Some (sub_seq, false)) = Ok el' →
  Element_size el = Element_size el'.
Proof.
  intros Hr He H1 H2. apply bind_Ok_inv in H1 as (vs1 & Hv1 & H1), H2 as (vs2 & Hv2 & H2).
  rewrite report_values_eq in Hv1, Hv2 by assumption. apply Ok_inj in Hv1, Hv2. subst.
  apply bind_Ok_inv in H1 as (els1 & H1 & Hel1), H2 as (els2 & H2 & Hel2).
  apply Ok_inj in Hel1, Hel2. subst. pose proof (more_size _ _ _ _ _ H1 H2) as Hs. clear -Hs.
  unfold cons_elem. simpl. by rewrite Hs.
Qed.

(** The PDU a report travels in. *)
Definition unconfirmed (service : Element) : Element := cons_elem (context_constructed 3) [service].

(** [pdus] carry the members [from..n] in order, in segments of at least one
    member whose PDU has at most [max_pdu] octets, unless one member alone has
    more. *)
Inductive segments_of (build : nat → nat → option (Z * bool) → outcome Empty_set Element) (max_pdu : Z) (n : nat)
    : nat → Z → list Element → Prop :=
| segments_end sub_seq : segments_of build max_pdu n n sub_seq []
| segments_cons from to sub_seq el els :
    (from < to ≤ n)%nat →
    build from to (Some (sub_seq, bool_decide (to < n)%nat)) = Ok el →
    to = S from ∨ zlen (Element_encode (unconfirmed el)) ≤ max_pdu →
    segments_of build max_pdu n to (u16 (sub_seq + 1)) els →
    segments_of build max_pdu n from sub_seq (el :: els).

Lemma elements_tags {E} cs :
  Forall (λ v, ∀ el, data_element (E:=E) v = Ok (Some el) → Element_tags tag_sized el) cs →
  ∀ els, filter_map_outcome (data_element (E:=E)) cs = Ok els → Forall (Element_tags tag_sized) els.
Proof.
  induction 1 as [|c cs Hc _ IH]; intros els; [intros [= <-]; constructor|]. rewrite filter_map_cons.
  intros (o & Ho & Hr)%bind_Ok_inv. apply bind_Ok_inv in Hr as (els' & Hels & Hr). apply Ok_inj in Hr. subst.
  destruct o as [el|]; [constructor; [by apply Hc|]|]; by apply IH.
Qed.

Lemma data_element_tags {E} v : ∀ el, data_element (E:=E) v = Ok (Some el) → Element_tags tag_sized el.
Proof.
  induction v as [cs Hv|cs Hv|v Hv] using Value_ind'; intros el.
  1,2: cbn [data_element]; intros (els & Hels & Hr)%bind_Ok_inv; apply Ok_inj in Hr; injection Hr as <-;
    apply element_tags_cons; [done|]; by apply (elements_tags (E:=E) cs).
  destruct v; try done; cbn [data_element]; try (intros H; apply Ok_inj in H; injection H as <-; done).
  intros (x & Hx & H)%bind_Ok_inv. apply Ok_inj in H. injection H as <-.
  apply bind_Ok_inv in Hx as (c & _ & H). apply Ok_inj in H. by subst.
Qed.

Lemma report_element_tags f e members from to segment el :
  report_element f e members from to segment = Ok el → Element_tags tag_sized el.
Proof.
  intros (vs & _ & H)%bind_Ok_inv. apply bind_Ok_inv in H as (els & Hels & H). apply Ok_inj in H. subst.
  apply element_tags_cons; [done|]. constructor; [by repeat constructor|]. constructor; [|done].
  apply element_tags_cons; [done|]. eapply elements_tags; [|done]. apply Forall_forall. intros v _. apply data_element_tags.
Qed.

Lemma unconfirmed_fits max_pdu el :
  Element_tags tag_sized el → max_pdu ≤ 65539 → Element_size el + 4 ≤ max_pdu →
  zlen (Element_encode (unconfirmed el)) ≤ max_pdu.
Proof.
  intros Ht Hmax Hs. rewrite <-Element_size_encode by (by apply element_tags_cons; [|constructor]).
  unfold unconfirmed, cons_elem. cbn [Element_size map Zsum fold_right].
  change (tag_size (set_constructed (context_constructed 3))) with 1. unfold length_size.
  repeat case_decide; lia.
Qed.

Section segmented.
Context (f : ReportFields) (e : ReportEntry) (members : list DsMember) (max_pdu : Z).
Context (He : entry_ok e) (Hv : Forall encodable (e_values e)) (Hmax : 0 < max_pdu ≤ 65539).

Lemma fits_pdu el : Element_tags tag_sized el → fits max_pdu el = true → zlen (Element_encode (unconfirmed el)) ≤ max_pdu.
Proof using Hmax.
  intros Ht Hf. apply unconfirmed_fits; [done|lia|]. unfold fits in Hf.
  rewrite bool_decide_eq_false_2 in Hf by lia. by apply bool_decide_eq_true in Hf.
Qed.

Lemma cuts_segments from sub_seq els :
  cuts (report_element f e members) (fits max_pdu) (length (e_members e)) from sub_seq els →
  segments_of (report_element f e members) max_pdu (length (e_members e)) from sub_seq els.
Proof using He Hmax.
  induction 1 as [sub_seq|from to sub_seq el els Hr Hb Hfit _ _ IH]; [constructor|].
  apply (segments_cons _ _ _ from to); [done..| |done]. destruct Hfit as [?|(el' & Hb' & Hf)]; [by left|right].
  apply fits_pdu; [by eapply report_element_tags|]. destruct (bool_decide _) eqn:Hn.
  - congruence.
  - unfold fits in *. by rewrite <-(report_element_size f e members from to sub_seq el' el) by (done || lia).
Qed.
End segmented.

Lemma report_pdus_split display m rs e seq buf_ovfl max_pdu :
  entry_ok e → Forall encodable (e_values e) →
  let build :=
    report_element (report_fields display m rs seq buf_ovfl) e
      (default [] (resolve_data_set m (attr_text display m rs "DatSet"))) in
  let n := length (e_members e) in
  ∃ pdus, report_pdus display m rs e seq buf_ovfl max_pdu = Ok pdus ∧
    ((∃ whole, pdus = [whole] ∧ build 0%nat n None = Ok whole ∧ fits max_pdu whole = true) ∨
     cuts build (fits max_pdu) n 0 0 pdus).
Proof.
  intros He Hv build n. unfold report_pdus. fold build n.
  assert (∀ from to segment, (from ≤ to ≤ n)%nat → ∃ el, build from to segment = Ok el) as Htot.
  { intros from to segment Hr. by apply report_element_total. }
  destruct (Htot 0%nat n None) as [whole Hw]; [lia|]. rewrite Hw. cbn [mbind outcome_bind].
  destruct (fits max_pdu whole) eqn:Hf; [by eauto 10|].
  destruct (segment_loop_spec build (fits max_pdu) n Htot (S n) 0 0) as (els & -> & Hc); [lia..|]. eauto.
Qed.

(** Segmentation. A report of any entry is built: as one PDU that is within
    the association's maximum PDU size, or as segments that together carry the
    entry's members, each once and in order, numbered from zero, with
    MoreSegmentsFollow on all but the last, and each within the maximum PDU size
    unless it has a single member. *)
Theorem report_segmentation (display : Value → list Z) (m : Model) (rs : RcbState) (e : ReportEntry)
    (seq : Z) (buf_ovfl : bool) (max_pdu : Z) :
  entry_ok e → Forall encodable (e_values e) → 0 < max_pdu ≤ 65539 →
  let build :=
    report_element (report_fields display m rs seq buf_ovfl) e
      (default [] (resolve_data_set m (attr_text display m rs "DatSet"))) in
  let n := length (e_members e) in
  ∃ pdus, report_pdus display m rs e seq buf_ovfl max_pdu = Ok pdus ∧
    ((∃ whole, pdus = [whole] ∧ build 0%nat n None = Ok whole ∧
       zlen (Element_encode (unconfirmed whole)) ≤ max_pdu) ∨
     segments_of build max_pdu n 0 0 pdus).
Proof.
  intros He Hv Hmax build n.
  destruct (report_pdus_split display m rs e seq buf_ovfl max_pdu He Hv) as (pdus & Hp & [(whole & -> & Hb & Hf)|Hc]);
    eexists; (split; [done|]).
  - left. exists whole. split; [done|]. split; [done|]. apply fits_pdu; [done|by eapply report_element_tags|done].
  - right. by apply cuts_segments.
Qed.

(** A device with two status objects, a data set of both, one of the first, and a
    buffered control block over the larger, materialised. *)
Definition status_object (n : string) : DataObject := mkDO (txt n) (txt "SPS") [] [sample_st].

Definition sample_control : ReportControl :=
  mkReportControl (txt "brcb") [] (txt "Events") 1 true 0 0 0 0 1 true 2 [].

Definition sample_device : Model :=
  mkModel (txt "IED") [mkLD (txt "LD0") (txt "LD0")
    [mkLN (txt "LLN0") (txt "LLN0") []
       [mkDataSet (txt "Events")
          [mkFcda (txt "LD0/GGIO1.Ind1") St []; mkFcda (txt "LD0/GGIO1.Ind2") St []] false;
        mkDataSet (txt "Alarms") [mkFcda (txt "LD0/GGIO1.Ind1") St []] false] [sample_control];
     mkLN (txt "GGIO1") (txt "GGIO") [status_object "Ind1"; status_object "Ind2"] [] []]].

Definition sample_blocks : Model := (materialise_rcbs sample_device 0).1.

Definition sample_rcb : RcbState :=
  mkRcb (txt "LD0") (txt "LLN0$BR$brcb") (txt "LLN0") (txt "brcb") true 2.

Definition sample_entry : ReportEntry :=
  mkEntry (make_entry_id 1) (1786838400 * 10 ^ 9) [0; 1]%nat
    [VStructure [VBoolean true]; VStructure [VBoolean false]] [trg DATA_CHANGE; trg DATA_CHANGE].

Lemma sample_entry_ok : entry_ok sample_entry ∧ Forall encodable (e_values sample_entry).
Proof.
  split; [split_and!; [repeat constructor; lia|done..]|]. repeat constructor; eexists; vm_compute; reflexivity.
Qed.

Lemma report_segmentation_witness :
  ∃ pdus, report_pdus (λ _, []) sample_blocks sample_rcb sample_entry 7 false 90 = Ok pdus ∧ length pdus = 2%nat.
Proof.
  destruct sample_entry_ok as [He Hv].
  destruct (report_segmentation (λ _, []) sample_blocks sample_rcb sample_entry 7 false 90 He Hv) as (pdus & H & _);
    [lia|].
  exists pdus. split; [exact H|]. apply (f_equal (λ r, match r with Ok l => length l | _ => O end)) in H.
  rewrite <-H. vm_compute. reflexivity.
Defined.
