(* ===== verification/ReadService.v ===== *)
(** What a server answers to reads (src/src/server/handler.rs): variables, data sets,
    the select of a control by reading its SBO attribute, the types of variables and
    the server's identity; and that a client gets the values the server holds. *)

From stdpp Require Import gmap.
From S2P Require Import Prelude Ber BerDecoder BerPrim Utf8 Text Errors MmsValue MmsCodec BerFields Cotp OsiSession Presentation Acse.
From S2P Require Import MmsPdu Association Oneshot InfoReport ClientConn ServerConn TypeSpec Services Wire NameList.
From S2P Require Import ObjRef Quality Nodes Access Tx Selections Termination Control Rcb ReportPdu.
Local Open Scope list_scope.
Local Open Scope Z_scope.

(** ** Object names, as the server reads them *)

Definition parse_object_name_elem (dec : Decoder) : outcome MmsError ((list Z * list Z) * Decoder) :=
  '((tag, c), dec) ← map_err MmsAsn1 (read_tlv dec);
  if decide (tag = context_constructed 1) then
    '(domain, dd) ← d_expect (Decoder_new c) TAG_VISIBLE_STRING;
    '(item, _) ← d_expect dd TAG_VISIBLE_STRING;
    Ok ((from_utf8_lossy domain, from_utf8_lossy item), dec)
  else if decide (tag = context_primitive 0) then Ok (([], from_utf8_lossy c), dec)
  else Err (MmsProtocol ("unsupported ObjectName tag " +:+ Tag_display tag)).

Definition server_object_name (content : list Z) : outcome MmsError (list Z * list Z) :=
  '(r, _) ← parse_object_name_elem (Decoder_new content); Ok r.

Definition parse_var_spec (entry : list Z) : outcome MmsError (list Z * list Z) :=
  '(spec_content, _) ← d_expect (Decoder_new entry) (context_constructed 0);
  server_object_name spec_content.

(** The entries of a [listOfVariable]; one that does not name a variable is kept as
    such. *)
Definition variable_list (list_content : list Z) : outcome MmsError (list (option (list Z * list Z))) :=
  every (expecting TAG_SEQUENCE (λ entry, ok (parse_var_spec entry))) list_content.

Definition access_failure (code : DataAccessError) : Element :=
  uint_elem (context_primitive 0) (DataAccessError_code code).

(** ** Reading *)

Definition SERVICE_SELECT : Z := 43.
Definition INSTANCE_IN_USE : Z := 2.

(** A select by reading SBO, tracked once the read is answered. *)
Record PendingSelect := mkPendingSelect {
  ps_reference : ObjectReference;
  ps_err : Z;
}.

Section read.
Context (conn : ConnId) (now : Z).

(** The select of a control by reading SBO: the name it answers with. *)
Definition select_by_read (s : Server) (reference : ObjectReference) : list Z * Z * Server :=
  let declared := declared_ctl_model (sv_model s) reference in
  let sbo_timeout := cf_millis (sv_model s) reference (txt "sboTimeout") in
  let other := match declared with Some cm => bool_decide (cm ≠ SboNormal) | None => false end in
  let '(name, s) :=
    if other then ([], s)
    else
      let timeout := if decide (sbo_timeout = 0) then SELECT_TIMEOUT else sbo_timeout in
      let '(taken, sel) := reserve (sv_selections s) reference conn None timeout now in
      (if taken : bool then reference else [], set_selections s sel) in
  let err :=
    if decide (name ≠ []) then ServiceErrorCode.NO_ERROR
    else if other then ServiceErrorCode.ACCESS_VIOLATION
    else INSTANCE_IN_USE in
  (name, err, s).

Definition value_element {E} (v : Value) (failure : DataAccessError) : outcome E Element :=
  e ← data_element v; Ok (default (access_failure failure) e).

Definition read_one {E} (s : Server) (pending : list PendingSelect) (domain item : list Z)
    : outcome E (Element * Server * list PendingSelect) :=
  match split_control item with
  | Some (base, Sbo) =>
      reference ← control_ref domain base;
      let '(name, err, s) := select_by_read s reference in
      e ← value_element (VVisibleString name) ObjectNonExistent;
      Ok (e, s, pending ++ [mkPendingSelect reference err])
  | _ =>
      match (ld ← device (sv_model s) domain; node ld (hd [] (split DOLLAR item))) with
      | None => Ok (access_failure ObjectNonExistent, s, pending)
      | Some ln =>
          e ← match resolve_read_err ln item with
              | inl v => value_element v TypeInconsistent
              | inr code => Ok (access_failure code)
              end;
          Ok (e, s, pending)
      end
  end.

Fixpoint read_each {E} (s : Server) (pending : list PendingSelect) (targets : list (option (list Z * list Z)))
    : outcome E (list Element * Server * list PendingSelect) :=
  match targets with
  | [] => Ok ([], s, pending)
  | t :: targets =>
      '(e, s, pending) ←
        match t with
        | Some (domain, item) => read_one s pending domain item
        | None => Ok (access_failure ObjectNonExistent, s, pending)
        end;
      '(es, s, pending) ← read_each s pending targets;
      Ok (e :: es, s, pending)
  end.

(** What a read is of: the variables, or the members of a data set. *)
Definition read_targets (m : Model) (content : list Z) : outcome MmsError (list (option (list Z * list Z))) :=
  '(_, dec) ← d_optional (Decoder_new content) (context_primitive 0);
  '(vas_content, _) ← d_expect dec (context_constructed 1);
  '(l, vd) ← d_optional (Decoder_new vas_content) (context_constructed 0);
  match l with
  | Some list_content => variable_list list_content
  | None =>
      '(n, _) ← d_optional vd (context_constructed 1);
      match n with
      | Some name_content =>
          '(domain, list) ← server_object_name name_content;
          Ok (map (λ m, Some (ds_domain m, ds_item m)) (dataset_members m domain list))
      | None => Err (MmsProtocol "unsupported read access specification")
      end
  end.

Definition flush_read_tracking (s : Server) (pending : list PendingSelect) : Server :=
  emit s (map (λ p, Tracked SERVICE_SELECT (ps_err p) AC.NONE) pending).

Definition read_handler (s : Server) (content : list Z) : outcome MmsError Element * Server :=
  match read_targets (sv_model s) content with
  | Ok targets =>
      match read_each s [] targets with
      | Ok (results, s, pending) =>
          (Ok (cons_elem (context_constructed SVC_READ) [cons_elem (context_constructed 1) results]),
           flush_read_tracking s pending)
      | Err e => (Err e, s)
      | Panic => (Panic, s)
      | NoFuel => (NoFuel, s)
      end
  | Err e => (Err e, s)
  | Panic => (Panic, s)
  | NoFuel => (NoFuel, s)
  end.
End read.

(** ** Types and identity *)

Definition get_variable_access_handler (m : Model) (content : list Z) : outcome MmsError Element :=
  '(name_content, _) ← d_expect (Decoder_new content) (context_constructed 0);
  '(domain, item) ← server_object_name name_content;
  match (ld ← device m domain; ln ← node ld (hd [] (split DOLLAR item)); type_spec_for ln item) with
  | None => Err (MmsAccess ObjectNonExistent)
  | Some ts =>
      match ts_ber ts with
      | None => Err (MmsAccess TypeUnsupported)
      | Some ber =>
          Ok (cons_elem (context_constructed SVC_GET_VARIABLE_ACCESS)
            [bool_elem (context_primitive 0) false; cons_elem (context_constructed 2) [ber]])
      end
  end.

Record ServerIdentity := mkServerIdentity {
  si_vendor : list Z;
  si_model_name : list Z;
  si_revision : list Z;
}.

Definition identity_response (id : ServerIdentity) : Element :=
  cons_elem (context_constructed SVC_IDENTIFY)
    [prim (context_primitive 0) (si_vendor id); prim (context_primitive 1) (si_model_name id);
     prim (context_primitive 2) (si_revision id)].

(** ** Names on the wire *)

Definition name_field (domain item : list Z) : Tag * list Z :=
  if decide (domain = []) then (context_primitive 0, item)
  else (context_constructed 1, children_octets [(TAG_VISIBLE_STRING, domain); (TAG_VISIBLE_STRING, item)]).

Lemma object_name_writes domain item : writes (object_name domain item) (name_field domain item).
Proof. unfold object_name, name_field. case_decide; writes. Qed.

Lemma name_field_tag domain item : tag_wf (name_field domain item).1 ∧ tag_sized (name_field domain item).1.
Proof. unfold name_field. by case_decide. Qed.

Lemma name_elem_read domain item pre cs :
  utf8 domain = true → utf8 item = true → zlen (name_field domain item).2 < 2 ^ 32 →
  parse_object_name_elem (dec_at pre (children_octets (name_field domain item :: cs))) =
    Ok ((domain, item), dec_at (pre ++ append_tlv [] (name_field domain item).1 (name_field domain item).2) (children_octets cs)).
Proof.
  intros Hd Hi Hl. destruct (name_field_tag domain item) as [Ht _]. unfold parse_object_name_elem.
  destruct (name_field domain item) as [t c] eqn:E. cbn [fst snd] in *. rewrite read_field by done. rewrite map_err_Ok, bind_Ok.
  unfold name_field in E. case_decide as Hn; injection E as <- <-.
  - rewrite decide_False by done. rewrite decide_True by done. by rewrite from_utf8_lossy_valid, Hn.
  - rewrite decide_True by done. fields_in Hl. rewrite dec_at_nil. fields. by rewrite !from_utf8_lossy_valid.
Qed.

Lemma server_name_read domain item :
  utf8 domain = true → utf8 item = true → zlen (name_field domain item).2 < 2 ^ 32 →
  server_object_name (children_octets [name_field domain item]) = Ok (domain, item).
Proof. intros Hd Hi Hl. unfold server_object_name. rewrite dec_at_nil, name_elem_read by done. by rewrite bind_Ok. Qed.

(** An entry of a [listOfVariable]. *)
Definition entry_octets (domain item : list Z) : list Z :=
  children_octets [(context_constructed 0, children_octets [name_field domain item])].

Lemma variable_entry_writes domain item : writes (variable_entry domain item) (TAG_SEQUENCE, entry_octets domain item).
Proof.
  unfold variable_entry, entry_octets. do 2 (apply writes_cons; [done..|]; constructor; [|constructor]). apply object_name_writes.
Qed.

Lemma name_field_smaller domain item : zlen (name_field domain item).2 < zlen (children_octets [name_field domain item]).
Proof. destruct (name_field domain item) as [t c]. apply (field_smaller t c). by left. Qed.

Lemma var_spec_read domain item :
  utf8 domain = true → utf8 item = true → zlen (entry_octets domain item) < 2 ^ 32 →
  parse_var_spec (entry_octets domain item) = Ok (domain, item).
Proof.
  intros Hd Hi Hl. unfold parse_var_spec, entry_octets in *. fields_in Hl. rewrite dec_at_nil. fields.
  pose proof (name_field_smaller domain item). apply server_name_read; [done..|lia].
Qed.

(** A list of variables. *)
Definition entries_octets (refs : list (list Z * list Z)) : list Z :=
  children_octets (map (λ r, (TAG_SEQUENCE, entry_octets r.1 r.2)) refs).

Lemma variable_list_read refs :
  Forall (λ r, utf8 r.1 = true ∧ utf8 r.2 = true) refs → zlen (entries_octets refs) < 2 ^ 32 →
  variable_list (entries_octets refs) = Ok (map Some refs).
Proof.
  intros Hr Hl. unfold variable_list.
  assert (entries_octets refs = children_octets (map (pair TAG_SEQUENCE) (map (λ r, entry_octets r.1 r.2) refs))) as E
    by (unfold entries_octets; by rewrite map_map).
  assert (Forall (λ c, zlen c < 2 ^ 32) (map (λ r, entry_octets r.1 r.2) refs)) as Hs.
  { apply Forall_forall. intros c Hc. assert (zlen c < zlen (entries_octets refs)); [|lia]. rewrite E.
    apply (field_smaller TAG_SEQUENCE). apply list_elem_of_fmap. by exists c. }
  rewrite E. apply every_expecting; [done|done|]. clear E Hl.
  induction Hr as [|r refs [Hd Hi] _ IH]; simpl; constructor; simpl in Hs; apply Forall_cons in Hs as [Hs Hss]; [|by apply IH].
  rewrite var_spec_read by done. by destruct r.
Qed.

Lemma entries_writes refs :
  Forall2 writes (map (λ r, variable_entry r.1 r.2) refs) (map (λ r, (TAG_SEQUENCE, entry_octets r.1 r.2)) refs).
Proof. induction refs as [|r refs IH]; constructor; [|done]. apply variable_entry_writes. Qed.

(** ** The client reads what the server holds *)

Definition as_pair (r : VarRef) : list Z * list Z := (vr_domain r, vr_item r).

(** What a server holds under a name: a value, or the reason there is none. *)
Definition reading (m : Model) (r : list Z * list Z) : Value :=
  match (ld ← device m r.1; node ld (hd [] (split DOLLAR r.2))) with
  | None => VDataAccessError ObjectNonExistent
  | Some ln => match resolve_read_err ln r.2 with inl v => v | inr e => VDataAccessError e end
  end.

(** Not the SBO attribute of a control, whose read selects. *)
Definition plain_item (item : list Z) : Prop := ∀ base, split_control item ≠ Some (base, Sbo).

Definition value_ok (v : Value) : Prop := value_wf v ∧ depth_ok v.

(** The octets of a value in a response. *)
Definition value_size (v : Value) : Z :=
  match data_element (E:=MmsError) v with Ok (Some e) => Element_size e | _ => 0 end.

Lemma read_one_plain {E} conn now s pending r :
  plain_item r.2 → value_wf (reading (sv_model s) r) →
  ∃ e, data_element (E:=E) (reading (sv_model s) r) = Ok (Some e) ∧
    read_one (E:=E) conn now s pending r.1 r.2 = Ok (e, s, pending).
Proof.
  intros Hp Hw. destruct (value_encodes (E:=E) _ (S (value_depth (reading (sv_model s) r))) Hw) as (e & He & _); [lia|].
  exists e. split; [done|]. unfold read_one.
  assert (match split_control r.2 with Some (_, Sbo) => False | _ => True end) as Hs.
  { destruct (split_control r.2) as [[b []]|] eqn:E'; try done. by eapply Hp. }
  assert (match (ld ← device (sv_model s) r.1; node ld (hd [] (split DOLLAR r.2))) with
    | None => Ok (access_failure ObjectNonExistent, s, pending)
    | Some ln =>
        e ← match resolve_read_err ln r.2 with
            | inl v => value_element v TypeInconsistent
            | inr code => Ok (access_failure code)
            end;
        Ok (e, s, pending)
    end = Ok (E:=E) (e, s, pending)) as Hr.
  { revert He. unfold reading. destruct (ld ← device (sv_model s) r.1; node ld _) as [ln|]; [|by intros [= <-]].
    destruct (resolve_read_err ln r.2) as [v|c]; [|by intros [= <-]]. intros He. unfold value_element. rewrite He. done. }
  destruct (split_control r.2) as [[b []]|]; done.
Qed.

Lemma read_each_plain {E} conn now s refs :
  Forall (λ r, plain_item r.2) refs → Forall value_wf (map (reading (sv_model s)) refs) → ∀ pending,
  ∃ es, filter_map_outcome (data_element (E:=E)) (map (reading (sv_model s)) refs) = Ok es ∧
    read_each (E:=E) conn now s pending (map Some refs) = Ok (es, s, pending).
Proof.
  intros Hp Hw pending. induction refs as [|r refs IH]; [by exists []|].
  apply Forall_cons in Hp as [Hp Hps]. simpl in Hw. apply Forall_cons in Hw as [Hw Hws].
  destruct (IH Hps Hws) as (es & He & Hr). destruct (read_one_plain (E:=E) conn now s pending r Hp Hw) as (e & Hde & Hone).
  exists (e :: es). simpl. rewrite Hde. simpl. rewrite He. split; [done|]. destruct r as [d i]. simpl in Hone. rewrite Hone. run.
  rewrite Hr. done.
Qed.

Definition read_response (es : list Element) : Element :=
  cons_elem (context_constructed SVC_READ) [cons_elem (context_constructed 1) es].

(** The elements of values, as fields of a response. *)
Lemma values_fields vs es :
  Forall value_ok vs → filter_map_outcome (data_element (E:=MmsError)) vs = Ok es →
  ∃ fs, Forall2 writes es fs ∧ Zsum (map Element_size es) = Zsum (map value_size vs) ∧
    (zlen (children_octets fs) < 2 ^ 32 → every decode_access_result (children_octets fs) = Ok (map sent vs)).
Proof.
  intros Hv Hes. assert (Forall value_wf vs ∧ Forall depth_ok vs) as [Hw Hd].
  { split; (eapply Forall_impl; [exact Hv|]); by intros v [? ?]. }
  destruct (access_results_at (E:=MmsError) vs Hw Hd) as (es' & Hes' & _ & Htags & Hreads).
  rewrite Hes in Hes'. injection Hes' as <-.
  assert (∃ fs, Forall2 writes es fs ∧ Zsum (map Element_size es) = Zsum (map value_size vs)) as (fs & Hfs & Hsz).
  { clear Hreads Hd Hv. revert es Hes Htags. induction Hw as [|v vs Hv _ IH]; intros es Hes Htags.
    - injection Hes as <-. by exists [].
    - destruct (value_encodes (E:=MmsError) v (S (value_depth v)) Hv) as (e & He & Ht & _); [lia|].
      simpl in Hes. rewrite He in Hes. simpl in Hes. apply bind_Ok_inv in Hes as (es' & Hes' & [= <-]).
      apply Forall_cons in Htags as [_ Htags]. destruct (IH es' Hes' Htags) as (fs & Hfs & Hsz).
      destruct (data_element_tlv v e He Ht) as (t & c & Hc & _). exists ((t, c) :: fs). split; [by constructor|].
      simpl. unfold value_size at 1. rewrite He. lia. }
  exists fs. split; [done|]. split; [done|]. rewrite <-(writes_fields _ _ Hfs). intros Hl. by apply every_reads, Hreads.
Qed.

Lemma read_response_size es : Element_size (read_response es) ≤ Zsum (map Element_size es) + 12.
Proof.
  unfold read_response. rewrite Element_size_cons. cbn [map Zsum fold_right]. rewrite Element_size_cons.
  pose proof (tlv_size_small (context_constructed 1) (Zsum (map Element_size es)) ltac:(done)).
  pose proof (tlv_size_small (context_constructed SVC_READ) (tlv_size (context_constructed 1) (Zsum (map Element_size es)) + 0)
    ltac:(done)). lia.
Qed.

(** The response to a read of values that fits, and what the client makes of it. *)
Lemma read_answered max_pdu vs es :
  Forall value_ok vs → filter_map_outcome (data_element (E:=MmsError)) vs = Ok es →
  Zsum (map value_size vs) < 2 ^ 30 → (max_pdu > 0 → Zsum (map value_size vs) + 25 ≤ max_pdu) →
  deliverable max_pdu (read_response es) ∧ parse_read_response (Element_encode (read_response es)) = Ok (map sent vs).
Proof.
  intros Hv Hes Hs Hm. destruct (values_fields vs es Hv Hes) as (fs & Hfs & Hsz & Hread).
  assert (writes (read_response es) (context_constructed SVC_READ, children_octets [(context_constructed 1, children_octets fs)])) as Hw.
  { apply writes_cons; [done..|]. constructor; [|constructor]. by apply writes_cons. }
  pose proof (writes_size _ _ _ Hw) as Hz. pose proof (read_response_size es) as Hr. split; [split|].
  - eexists _, _. split; [exact Hw|]. split; [done|lia].
  - intros Hp id Hid. destruct Hw as [Ht _]. destruct (response_size id _ Hid Ht) as [Hb _]. specialize (Hm Hp). lia.
  - unfold parse_read_response. rewrite (d_expect_element _ _ _ Hw) by field_ok. rewrite bind_Ok. cbv beta iota.
    assert (zlen (children_octets [(context_constructed 1, children_octets fs)]) < 2 ^ 31) as Hlen by lia.
    fields_in Hlen. rewrite dec_at_nil. fields. apply Hread. lia.
Qed.

Definition read_request_octets (refs : list (list Z * list Z)) : list Z :=
  children_octets [(context_constructed 1, children_octets [(context_constructed 0, entries_octets refs)])].

Lemma read_request_sendable refs :
  zlen (entries_octets (map as_pair refs)) < 2 ^ 30 →
  sendable (read_request refs) (context_constructed SVC_READ) (read_request_octets (map as_pair refs)) ∧
  zlen (read_request_octets (map as_pair refs)) < 2 ^ 31.
Proof.
  intros Hl. assert (zlen (read_request_octets (map as_pair refs)) < 2 ^ 31) as H31.
  { unfold read_request_octets. eapply (Z.le_lt_trans _ (2 ^ 30 + 10 + 10)); [|lia]. do 2 (apply zlen_field_le; [done|]). lia. }
  split; [|done]. split; [|done]. unfold read_request. apply writes_cons; [done..|]. constructor; [|constructor].
  apply writes_cons; [done..|]. constructor; [|constructor]. apply writes_cons; [done..|].
  pose proof (entries_writes (map as_pair refs)) as He. rewrite map_map in He. exact He.
Qed.

Lemma read_targets_read m refs :
  Forall (λ r, utf8 r.1 = true ∧ utf8 r.2 = true) refs → zlen (read_request_octets refs) < 2 ^ 31 →
  read_targets m (read_request_octets refs) = Ok (map Some refs).
Proof.
  intros Hr Hl. unfold read_targets, read_request_octets in *. fields_in Hl. rewrite dec_at_nil. fields.
  match goal with H : zlen (children_octets [(context_constructed 0, _)]) < _ |- _ => fields_in H end.
  rewrite dec_at_nil. fields. apply variable_list_read; [done|lia].
Qed.

(** C32: A client that reads variables gets, for each of them and in their order, the
    value the server holds under that name or the reason there is none, whatever the
    scopes and however many; one that fails does not fail the others. The server is
    left as it was: reading SBO, which selects, is the one read that changes it. *)
Theorem read_served (max_pdu : Z) (handle : ServiceHandler Server) (call : Element → Call Server (list Z))
    (conn : ConnId) (now : Z) (refs : list VarRef) (s : Server) :
  Serves max_pdu handle call → (∀ content s, handle SVC_READ content s = read_handler conn now s content) →
  refs ≠ [] → Forall (λ r, ref_ok r ∧ plain_item (vr_item r)) refs →
  let vs := map (reading (sv_model s)) (map as_pair refs) in
  Forall value_ok vs → zlen (entries_octets (map as_pair refs)) < 2 ^ 30 → Zsum (map value_size vs) < 2 ^ 30 →
  (max_pdu > 0 → Zsum (map value_size vs) + 25 ≤ max_pdu) →
  read_refs call refs s = (Ok (map sent vs), s).
Proof.
  intros HS Hh Hne Hrefs vs Hv Hreq Hsz Hm. unfold read_refs. rewrite decide_False by done.
  destruct (read_request_sendable refs Hreq) as [Hs H31].
  assert (Forall (λ r, plain_item r.2) (map as_pair refs)) as Hp.
  { apply Forall_fmap. eapply Forall_impl; [exact Hrefs|]. by intros r [_ ?]. }
  assert (Forall (λ r, utf8 r.1 = true ∧ utf8 r.2 = true) (map as_pair refs)) as Hu.
  { apply Forall_fmap. eapply Forall_impl; [exact Hrefs|]. by intros r [[? ?] _]. }
  assert (Forall value_wf vs) as Hw by (eapply Forall_impl; [exact Hv|]; by intros v [? _]).
  destruct (read_each_plain (E:=MmsError) conn now s (map as_pair refs) Hp Hw []) as (es & Hes & Hr).
  destruct (read_answered max_pdu vs es Hv Hes Hsz Hm) as [Hf Hparse].
  erewrite Call_bind_Ok. 2:{ eapply serves_response; [exact Hs| |exact Hf]. rewrite Hh. unfold read_handler.
    rewrite read_targets_read by done. rewrite Hr. unfold flush_read_tracking. cbn [map]. by rewrite emit_nil. }
  unfold lift. by rewrite Hparse.
Qed.

(** ** Data sets *)

Definition list_name_octets (domain name : list Z) : list Z :=
  children_octets [(context_constructed 1, children_octets [(context_constructed 1, children_octets [name_field domain name])])].

Lemma name_field_size domain item : zlen (children_octets [name_field domain item]) ≤ zlen domain + zlen item + 40.
Proof.
  pose proof (zlen_nonneg domain). pose proof (zlen_nonneg item). unfold name_field. case_decide.
  - etrans; [apply zlen_field_le; [done|reflexivity]|]. lia.
  - etrans; [apply zlen_field_le; [done|reflexivity]|]. rewrite !children_octets_cons, app_nil_r, zlen_app.
    pose proof (zlen_tlv_le TAG_VISIBLE_STRING domain ltac:(done)). pose proof (zlen_tlv_le TAG_VISIBLE_STRING item ltac:(done)). lia.
Qed.

Lemma read_list_sendable domain name :
  zlen domain < 2 ^ 29 → zlen name < 2 ^ 29 →
  sendable (read_list_request domain name) (context_constructed SVC_READ) (list_name_octets domain name).
Proof.
  intros Hd Hn. split; [|split; [done|]].
  - unfold read_list_request, list_specification. do 3 (apply writes_cons; [done..|]; constructor; [|constructor]).
    apply object_name_writes.
  - pose proof (name_field_size domain name). unfold list_name_octets.
    eapply (Z.le_lt_trans _ (zlen domain + zlen name + 40 + 10 + 10)); [|lia]. do 2 (apply zlen_field_le; [done|]). done.
Qed.

Lemma list_targets_read m domain name :
  utf8 domain = true → utf8 name = true → zlen (list_name_octets domain name) < 2 ^ 31 →
  read_targets m (list_name_octets domain name) =
    Ok (map Some (map (λ m, (ds_domain m, ds_item m)) (dataset_members m domain name))).
Proof.
  intros Hd Hn Hl. unfold read_targets, list_name_octets in *. fields_in Hl. rewrite dec_at_nil. fields.
  match goal with H : zlen (children_octets [(context_constructed 1, children_octets [name_field _ _])]) < _ |- _ => fields_in H end.
  rewrite dec_at_nil. fields. pose proof (name_field_smaller domain name). rewrite server_name_read by (done || lia).
  rewrite bind_Ok. cbv beta iota. by rewrite map_map.
Qed.

(** A client that reads a data set gets the values of its members, in the order of
    the data set, each as a read of that member would give it. *)
Theorem data_set_served (max_pdu : Z) (handle : ServiceHandler Server) (call : Element → Call Server (list Z))
    (conn : ConnId) (now : Z) (domain name : list Z) (s : Server) :
  Serves max_pdu handle call → (∀ content s, handle SVC_READ content s = read_handler conn now s content) →
  utf8 domain = true → utf8 name = true → zlen domain < 2 ^ 29 → zlen name < 2 ^ 29 →
  let members := map (λ m, (ds_domain m, ds_item m)) (dataset_members (sv_model s) domain name) in
  let vs := map (reading (sv_model s)) members in
  Forall (λ r, plain_item r.2) members → Forall value_ok vs → Zsum (map value_size vs) < 2 ^ 30 →
  (max_pdu > 0 → Zsum (map value_size vs) + 25 ≤ max_pdu) →
  read_named_variable_list call domain name s = (Ok (map sent vs), s).
Proof.
  intros HS Hh Hd Hn Hdl Hnl members vs Hp Hv Hsz Hm. unfold read_named_variable_list.
  pose proof (read_list_sendable domain name Hdl Hnl) as Hs.
  assert (Forall value_wf vs) as Hw by (eapply Forall_impl; [exact Hv|]; by intros v [? _]).
  destruct (read_each_plain (E:=MmsError) conn now s members Hp Hw []) as (es & Hes & Hr).
  destruct (read_answered max_pdu vs es Hv Hes Hsz Hm) as [Hf Hparse].
  erewrite Call_bind_Ok. 2:{ eapply serves_response; [exact Hs| |exact Hf]. rewrite Hh. unfold read_handler.
    rewrite list_targets_read by (done || apply Hs). fold members. rewrite Hr. unfold flush_read_tracking. cbn [map]. by rewrite emit_nil. }
  unfold lift. by rewrite Hparse.
Qed.

(** ** Types *)

Lemma writes_wrap t e :
  tag_sized t → tag_constructed t = true → Element_tags tag_sized e → writes (cons_elem t [e]) (t, Element_encode e).
Proof.
  intros Ht Hc He. destruct t as [cl k n]. simpl in Hc. subst k. split; [apply Element_tags_children; split; [done|by constructor]|].
  rewrite cons_encode by by constructor. simpl. by rewrite app_nil_r.
Qed.

Definition access_request_octets (domain item : list Z) : list Z :=
  children_octets [(context_constructed 0, children_octets [name_field domain item])].

Definition access_response (ber : Element) : Element :=
  cons_elem (context_constructed SVC_GET_VARIABLE_ACCESS)
    [bool_elem (context_primitive 0) false; cons_elem (context_constructed 2) [ber]].

Lemma access_response_writes e :
  Element_tags tag_sized e →
  writes (access_response e) (context_constructed SVC_GET_VARIABLE_ACCESS,
    children_octets [(context_primitive 0, [0]); (context_constructed 2, Element_encode e)]).
Proof.
  intros He. apply writes_cons; [done..|]. constructor; [by apply writes_prim|]. constructor; [by apply writes_wrap|constructor].
Qed.

Lemma access_response_size e : Element_tags tag_sized e → Element_size (access_response e) ≤ zlen (Element_encode e) + 15.
Proof.
  intros He. unfold access_response. rewrite Element_size_cons. cbn [map Zsum fold_right]. rewrite Element_size_cons.
  cbn [map Zsum fold_right]. rewrite (Element_size_encode e) by done.
  pose proof (tlv_size_small (context_constructed 2) (zlen (Element_encode e) + 0) ltac:(done)).
  assert (Element_size (bool_elem (context_primitive 0) false) = 3) as -> by done.
  pose proof (tlv_size_small (context_constructed SVC_GET_VARIABLE_ACCESS)
    (3 + (tlv_size (context_constructed 2) (zlen (Element_encode e) + 0) + 0)) ltac:(done)). lia.
Qed.

Lemma access_response_read ts e :
  ts_encodes (S (Z.to_nat MAX_VALUE_DEPTH)) ts e → value_count ts ≤ MAX_DEFAULT_VALUES → zlen (Element_encode e) < 2 ^ 30 →
  get_variable_access_attributes_response (Element_encode (access_response e)) = Ok (ts, Element_encode e).
Proof.
  intros (_ & Ht & Hr) Hn Hl. pose proof (access_response_writes e Ht) as Hw.
  pose proof (writes_size _ _ _ Hw). pose proof (access_response_size e Ht).
  unfold get_variable_access_attributes_response. rewrite (d_expect_element _ _ _ Hw) by field_ok.
  assert (zlen [0] = 1) by done. rewrite bind_Ok. cbv beta iota. rewrite dec_at_nil. fields.
  destruct (Hr ltac:(lia)) as [_ Hread]. unfold decode_type_spec. rewrite dec_at_nil.
  rewrite <-(app_nil_r (Element_encode e)) at 1. rewrite Hread, bind_Ok. cbv beta iota. rewrite decide_False by lia.
  by rewrite bind_Ok.
Qed.

(** What a server declares as the type of a variable. *)
Definition declared_type (m : Model) (domain item : list Z) : option TypeSpec :=
  ld ← device m domain; ln ← node ld (hd [] (split DOLLAR item)); type_spec_for ln item.

(** The type a client is told is the type the server declares: for a variable
    the server has, GetVariableAccessAttributes gives back its type specification,
    component by component; for one it does not have, an access error. *)
Theorem type_served {W} (max_pdu : Z) (handle : ServiceHandler W) (call : Element → Call W (list Z))
    (model : W → Model) (domain item : list Z) (w : W) :
  Serves max_pdu handle call →
  (∀ content w, handle SVC_GET_VARIABLE_ACCESS content w = (get_variable_access_handler (model w) content, w)) →
  utf8 domain = true → utf8 item = true → zlen domain < 2 ^ 29 → zlen item < 2 ^ 29 →
  match declared_type (model w) domain item with
  | None =>
      get_variable_access_attributes call domain item w = (Err (told_error (MmsAccess ObjectNonExistent)), w)
  | Some ts =>
      ts_wf (S (Z.to_nat MAX_VALUE_DEPTH)) ts → value_count ts ≤ MAX_DEFAULT_VALUES →
      (∀ e, ts_ber ts = Some e → Element_size e < 2 ^ 30 ∧ (max_pdu > 0 → Element_size e + 28 ≤ max_pdu)) →
      get_variable_access_attributes call domain item w = (Ok ts, w)
  end.
Proof.
  intros HS Hh Hd Hi Hdl Hil.
  assert (sendable (get_variable_access_attributes_request domain item) (context_constructed SVC_GET_VARIABLE_ACCESS)
    (access_request_octets domain item)) as Hs.
  { split; [|split; [done|]].
    - do 2 (apply writes_cons; [done..|]; constructor; [|constructor]). apply object_name_writes.
    - pose proof (name_field_size domain item). unfold access_request_octets.
      eapply (Z.le_lt_trans _ (zlen domain + zlen item + 40 + 10)); [|lia]. by apply zlen_field_le. }
  assert (get_variable_access_handler (model w) (access_request_octets domain item) =
    match declared_type (model w) domain item with
    | None => Err (MmsAccess ObjectNonExistent)
    | Some ts =>
        match ts_ber ts with
        | None => Err (MmsAccess TypeUnsupported)
        | Some ber => Ok (access_response ber)
        end
    end) as Hg.
  { destruct Hs as (_ & _ & Hl). unfold get_variable_access_handler, access_request_octets in *. fields_in Hl.
    rewrite dec_at_nil. fields. pose proof (name_field_smaller domain item).
    rewrite server_name_read by (done || lia). rewrite bind_Ok. cbv beta iota. done. }
  unfold get_variable_access_attributes, get_variable_access_attributes_raw.
  destruct (declared_type (model w) domain item) as [ts|].
  2:{ erewrite Call_bind_Err; [done|]. erewrite Call_bind_Err; [done|]. eapply serves_error; [exact Hs| |done].
    rewrite Hh, Hg. done. }
  intros Hts Hn Hsz. destruct (type_spec_encodes _ _ Hts) as [e He]. pose proof He as (Hb & Ht & _). rewrite Hb in Hg.
  destruct (Hsz e Hb) as [Hl Hm]. rewrite Element_size_encode in Hl, Hm by done.
  pose proof (access_response_writes e Ht) as Hw. pose proof (writes_size _ _ _ Hw). pose proof (access_response_size e Ht).
  erewrite Call_bind_Ok. 2:{ erewrite Call_bind_Ok.
    2:{ eapply (serves_response _ _ _ w (access_response e) w); [exact Hs|rewrite Hh, Hg; done|]. split.
      - eexists _, _. split; [exact Hw|]. split; [done|lia].
      - intros Hp id Hid. pose proof Hw as [Htg _]. destruct (response_size id _ Hid Htg) as [Hbd _]. specialize (Hm Hp). lia. }
    unfold lift. by rewrite (access_response_read ts). }
  done.
Qed.

(** ** A server that reads *)

Definition unrecognized_service : MmsError := MmsService (mkServiceError 1 1 true "").

Definition reading_server (conn : ConnId) (now : Z) : ServiceHandler Server := λ svc content s,
  if decide (svc = SVC_READ) then read_handler conn now s content
  else if decide (svc = SVC_GET_VARIABLE_ACCESS) then (get_variable_access_handler (sv_model s) content, s)
  else (Err unrecognized_service, s).

Definition small_server : Server :=
  mkServer (mkModel (txt "IED") [mkLD (txt "LD0") (txt "LD0")
    [mkLN (txt "GGIO1") (txt "GGIO") [sample_spc 1]
      [mkDataSet (txt "ds") [mkFcda (txt "LD0/GGIO1.SPCSO1.stVal") St (txt "ST")] false] []]]) ∅ ∅ ∅ [].

Lemma read_served_witness :
  read_refs (over_wire 100 (reading_server 1 5) (λ _, 7))
    [mkVarRef (txt "LD0") (txt "GGIO1$ST$SPCSO1$stVal"); mkVarRef (txt "LD0") (txt "GGIO1$ST$Pos")] small_server =
  (Ok [VBoolean false; VDataAccessError ObjectNonExistent], small_server).
Proof.
  apply (read_served 100 (reading_server 1 5) (over_wire 100 (reading_server 1 5) (λ _, 7)) 1 5
    [mkVarRef (txt "LD0") (txt "GGIO1$ST$SPCSO1$stVal"); mkVarRef (txt "LD0") (txt "GGIO1$ST$Pos")] small_server).
  - by apply over_wire_serves.
  - done.
  - done.
  - by repeat constructor; intros base.
  - replace (map _ _) with [VBoolean false; VDataAccessError ObjectNonExistent] by by vm_compute. by repeat constructor.
  - by vm_compute.
  - by vm_compute.
  - by vm_compute.
Defined.

Lemma data_set_served_witness :
  read_named_variable_list (over_wire 100 (reading_server 1 5) (λ _, 7)) (txt "LD0") (txt "GGIO1$ds") small_server =
  (Ok [VBoolean false], small_server).
Proof.
  apply (data_set_served 100 (reading_server 1 5) (over_wire 100 (reading_server 1 5) (λ _, 7)) 1 5
    (txt "LD0") (txt "GGIO1$ds") small_server).
  - by apply over_wire_serves.
  - done.
  - done.
  - done.
  - done.
  - done.
  - by repeat constructor; intros base.
  - replace (map _ _) with [VBoolean false] by by vm_compute. by repeat constructor.
  - by vm_compute.
  - by vm_compute.
Defined.

Lemma type_served_witness :
  get_variable_access_attributes (over_wire 100 (reading_server 1 5) (λ _, 7))
    (txt "LD0") (txt "GGIO1$ST$SPCSO1") small_server =
  (Ok (ts_structure [mkComponent (txt "stVal") (ts_scalar TBoolean)]), small_server).
Proof.
  pose proof (type_served 100 (reading_server 1 5) (over_wire 100 (reading_server 1 5) (λ _, 7)) sv_model
    (txt "LD0") (txt "GGIO1$ST$SPCSO1") small_server) as H.
  assert (declared_type (sv_model small_server) (txt "LD0") (txt "GGIO1$ST$SPCSO1") =
    Some (ts_structure [mkComponent (txt "stVal") (ts_scalar TBoolean)])) as E by by vm_compute.
  rewrite E in H. apply H; clear.
  - by apply over_wire_serves.
  - done.
  - done.
  - done.
  - done.
  - done.
  - repeat constructor.
  - done.
  - intros e [= <-]. split; [done|]. done.
Defined.
