(* ===== verification/Journal.v ===== *)
(** Logs of a server (src/src/server/journal.rs and the journal services of
    services_ext.rs): the journals, the log control blocks that write them, the queries
    of clients and the deletion of entries. *)

From S2P Require Import Prelude Ber BerDecoder BerPrim BerFields TimeUtil Utf8 Text Errors MmsValue MmsCodec.
From S2P Require Import ObjRef Quality BTree Nodes Blocks Access Tx Handler BlockStore Selections InfoReport Services Wire NameList.
From S2P Require Import Rcb ControlBlocks ReportPdu ReadService.
Local Open Scope list_scope.
Local Open Scope Z_scope.

Definition DEFAULT_LOG_CAPACITY : Z := 1024.

Definition REASON_CODE_TAG : list Z := txt "ReasonCode".

(** ** State *)

Record LogEntry := mkLogEntry {
  le_id : list Z;
  le_time : Z;
  le_vars : list (list Z * Value);
}.

(** The integrity task of a block is the generation it was started for. *)
Record LcbState := mkLcb {
  lb_domain : list Z;
  lb_ln : list Z;
  lb_name : list Z;
  lb_reason_code : bool;
  lb_journal : option (list Z * list Z);
  lb_intg : option Z;
  lb_intg_gen : Z;
}.

Record LogState := mkLogState {
  lg_journals : BTreeMap (list Z * list Z) (list LogEntry);
  lg_lcbs : BTreeMap (list Z) LcbState;
}.

Definition set_journals (st : LogState) (j : BTreeMap (list Z * list Z) (list LogEntry)) : LogState :=
  mkLogState j (lg_lcbs st).
Definition set_lcbs (st : LogState) (l : BTreeMap (list Z) LcbState) : LogState := mkLogState (lg_journals st) l.
Definition set_intg (lcb : LcbState) (task : option Z) (gen : Z) : LcbState :=
  mkLcb (lb_domain lcb) (lb_ln lcb) (lb_name lcb) (lb_reason_code lcb) (lb_journal lcb) task gen.

Definition lcb_key_of (domain item : list Z) : list Z := domain ++ 0 :: item.

(** ** Creation *)

Definition declared_logs (m : Model) : list (list Z * list Z) :=
  flat_map (λ ld, flat_map (λ ln, map (λ name, (ld_name ld, ln_name ln ++ DOLLAR :: name)) (ln_logs ln)) (ld_nodes ld))
    (model_devices m).

Definition add_lcb (ld : LogicalDevice) (ln : LogicalNode) (st : LogState) (lc : LogControl) : LogState :=
  match cb_object ld (ln_name ln) (txt "LG") (lc_name lc) with
  | None => st
  | Some _ =>
      let journal := log_target (ld_name ld) (ld_inst ld) lc in
      let journals := match journal with Some j => bt_or_insert j [] (lg_journals st) | None => lg_journals st end in
      let item := ln_name ln ++ DOLLAR :: txt "LG" ++ DOLLAR :: lc_name lc in
      mkLogState journals
        (bt_insert (lcb_key_of (ld_name ld) item)
           (mkLcb (ld_name ld) (ln_name ln) (lc_name lc) (lc_reason_code lc) journal None 0) (lg_lcbs st))
  end.

Definition LogManager_new (m : Model) : LogState :=
  let st := mkLogState (foldl (λ js j, bt_or_insert j [] js) [] (declared_logs m)) [] in
  foldl (λ st ld, foldl (λ st ln, foldl (add_lcb ld ln) st (ln_log_controls ln)) st (ld_nodes ld)) st (model_devices m).

Definition log_capacity (capacity : Z) : Z := if decide (capacity = 0) then DEFAULT_LOG_CAPACITY else capacity.

Definition has_logs (st : LogState) : bool := bool_decide (lg_journals st ≠ []).

Definition log_names (st : LogState) (domain : list Z) : list (list Z) :=
  map snd (filter (λ k, k.1 = domain) (bt_keys (lg_journals st))).

(** ** The attributes of a block *)

Definition lcb_attr (m : Model) (lcb : LcbState) (name : string) : option Value :=
  a ← block_attr m (lb_domain lcb) (lb_ln lcb) (lb_name lcb) (by_name_fc name Lg); da_value a.

Definition set_lcb_attr (m : Model) (lcb : LcbState) (name : string) (v : Value) : Model :=
  block_put m (lb_domain lcb) (lb_ln lcb) (lb_name lcb) (by_name name) v.

Definition lcb_enabled (m : Model) (lcb : LcbState) : bool :=
  match lcb_attr m lcb "LogEna" with Some v => as_bool v | None => false end.

Definition lcb_trg_ops (m : Model) (lcb : LcbState) : Z :=
  match lcb_attr m lcb "TrgOps" with Some v => TrgOps_from_value v | None => 0 end.

(** The entry range of every block that writes the journal. *)
Definition sync_lcb (oldest newest : LogEntry) (m : Model) (lcb : LcbState) : Model :=
  let m := set_lcb_attr m lcb "OldEntrTm" (binary_time (le_time oldest)) in
  let m := set_lcb_attr m lcb "NewEntrTm" (binary_time (le_time newest)) in
  let m := set_lcb_attr m lcb "OldEnt" (VOctetString (le_id oldest)) in
  set_lcb_attr m lcb "NewEnt" (VOctetString (le_id newest)).

Definition sync (st : LogState) (m : Model) (j : list Z * list Z) : Model :=
  match bt_get (lg_journals st) j with
  | Some entries =>
      match head entries, last entries with
      | Some oldest, Some newest =>
          foldl (λ m lcb, if decide (lb_journal lcb = Some j) then sync_lcb oldest newest m lcb else m) m
            (bt_values (lg_lcbs st))
      | _, _ => m
      end
  | None => m
  end.

Definition stop_log_integrity (lcb : LcbState) : LcbState := set_intg lcb None (lb_intg_gen lcb + 1).

(** ** Logging *)

(** The model, the logs, the number of EntryIDs given out and the readings of the
    clock to come. *)
Record LogWorld := mkLogWorld {
  lw_model : Model;
  lw_logs : LogState;
  lw_counter : Z;
  lw_clock : list Z;
}.

Section logs.
(** [Display]; the EntryID of a number; the capacity; whether the manager is tied to
    its server and has a runtime. *)
Context (display : Value → list Z) (entry_id : Z → list Z) (capacity : Z) (owned running : bool).

Definition lcb_dat_set (m : Model) (lcb : LcbState) : list Z :=
  match lcb_attr m lcb "DatSet" with Some v => Value_text display v | None => [] end.

Definition append_member (m : Model) (lcb : LcbState) (vars : list (list Z * Value)) (mb : DsMember) (reason : Z)
    : list (list Z * Value) :=
  match item_value m (ds_domain mb) (ds_item mb) with
  | None => vars
  | Some v =>
      vars ++ [(ds_domain mb ++ SLASH :: ds_item mb, v)] ++
      if lb_reason_code lcb then [(REASON_CODE_TAG, ReasonCode_value reason)] else []
  end.

Definition append_entry (w : LogWorld) (j : list Z * list Z) (vars : list (list Z * Value)) : LogWorld :=
  if decide (vars = []) then w
  else
    match bt_get (lg_journals (lw_logs w)) j with
    | None => w
    | Some entries =>
        let '(secs, nanos) := unix_parts (hd 0 (lw_clock w)) in
        let entries :=
          entries ++ [mkLogEntry (entry_id (lw_counter w)) (from_unix secs (nanos / 1000000 * 1000000)) vars] in
        let entries := drop (length entries - Z.to_nat capacity) entries in
        let st := set_journals (lw_logs w) (bt_alter (λ _, entries) j (lg_journals (lw_logs w))) in
        mkLogWorld (sync st (lw_model w) j) st (lw_counter w + 1) (tl (lw_clock w))
    end.

Definition LOG_TRIGGERS : Z := Z.lor (Z.lor (trg DATA_CHANGE) (trg QUALITY_CHANGE)) (trg DATA_UPDATE).

(** What a block logs of a change. *)
Definition changed_vars (m : Model) (changes : ChangeSet) (lcb : LcbState) : option ((list Z * list Z) * list (list Z * Value)) :=
  j ← lb_journal lcb;
  if lcb_enabled m lcb then
    let want := Z.land (lcb_trg_ops m lcb) LOG_TRIGGERS in
    members ← resolve_data_set m (lcb_dat_set m lcb);
    let vars :=
      foldl (λ vars mb, let r := Z.land (member_reason changes mb) want in
                        if decide (r ≠ 0) then append_member m lcb vars mb r else vars) [] members in
    if decide (vars = []) then None else Some (j, vars)
  else None.

Definition log_on_update (w : LogWorld) (changes : ChangeSet) : LogWorld :=
  if decide (changes = ∅) then w
  else foldl (λ w e, append_entry w e.1 e.2) w (omap (changed_vars (lw_model w) changes) (bt_values (lg_lcbs (lw_logs w)))).

(** An integrity period: the world and whether the task goes on. *)
Definition log_all (w : LogWorld) (key : list Z) (generation : Z) : LogWorld * bool :=
  match bt_get (lg_lcbs (lw_logs w)) key with
  | None => (w, false)
  | Some lcb =>
      if decide (lb_intg_gen lcb ≠ generation) then (w, false)
      else
        match lb_journal lcb with
        | None => (w, false)
        | Some j =>
            let members := default [] (resolve_data_set (lw_model w) (lcb_dat_set (lw_model w) lcb)) in
            let vars := foldl (λ vars mb, append_member (lw_model w) lcb vars mb (trg INTEGRITY)) [] members in
            (append_entry w j vars, true)
        end
  end.

Definition start_log_integrity (m : Model) (lcb : LcbState) : LcbState :=
  let lcb := stop_log_integrity lcb in
  let pd := match lcb_attr m lcb "IntgPd" with Some v => as_u64 v | None => 0 end in
  if decide (pd = 0 ∨ has (lcb_trg_ops m lcb) (trg INTEGRITY) = false ∨ lb_journal lcb = None) then lcb
  else if owned && running then set_intg lcb (Some (lb_intg_gen lcb)) (lb_intg_gen lcb) else lcb.

Definition logs_start (st : LogState) (m : Model) : LogState :=
  set_lcbs st (map (λ e, (e.1, if lcb_enabled m e.2 then start_log_integrity m e.2 else e.2)) (lg_lcbs st)).

Definition logs_close (st : LogState) : LogState :=
  set_lcbs st (map (λ e, (e.1, stop_log_integrity e.2)) (lg_lcbs st)).

(** ** Writes of a block *)

Definition lcb_key (st : LogState) (domain item : list Z) : option (list Z * list Z) :=
  match split DOLLAR item with
  | p0 :: p1 :: p2 :: rest =>
      if decide (p1 ≠ txt "LG") then None
      else
        let key := lcb_key_of domain (p0 ++ DOLLAR :: txt "LG" ++ DOLLAR :: p2) in
        if bt_contains (lg_lcbs st) key then Some (key, hd [] rest) else None
  | _ => None
  end.

Definition check_lcb_write (st : LogState) (m : Model) (key attr : list Z) (v : Value) : option DataAccessError :=
  match bt_get (lg_lcbs st) key with
  | None => Some ObjectNonExistent
  | Some lcb =>
      if decide (attr = txt "LogEna") then
        if decide (as_bool v = true ∧ (lb_journal lcb = None ∨ resolve_data_set m (lcb_dat_set m lcb) = None)) then
          Some TemporarilyUnavailable
        else None
      else if decide (attr ∈ [txt "DatSet"; txt "TrgOps"; txt "IntgPd"]) then
        if lcb_enabled m lcb then Some TemporarilyUnavailable
        else if decide (attr = txt "DatSet" ∧ Value_text display v ≠ [] ∧ resolve_data_set m (Value_text display v) = None) then
          Some ObjectValueInvalid
        else None
      else Some ObjectAccessDenied
  end.

Definition on_lcb_write (st : LogState) (m : Model) (key attr : list Z) : LogState :=
  if decide (attr ≠ txt "LogEna") then st
  else
    match bt_get (lg_lcbs st) key with
    | None => st
    | Some lcb =>
        let lcb := if lcb_enabled m lcb then start_log_integrity m lcb else stop_log_integrity lcb in
        set_lcbs st (bt_alter (λ _, lcb) key (lg_lcbs st))
    end.

Definition logs_use_data_set (st : LogState) (m : Model) (reference : list Z) : bool :=
  existsb (λ lcb, bool_decide (lcb_dat_set m lcb = reference)) (bt_values (lg_lcbs st)).
End logs.

(** ** Queries *)

Record JournalQuery := mkQuery {
  q_domain : list Z;
  q_name : list Z;
  q_start_time : option Z;
  q_start_entry : option (list Z);
  q_stop_time : option Z;
  q_count : Z;
  q_after_time : option Z;
  q_after_entry : option (list Z);
  q_variables : option (list (list Z));
}.

Definition JournalQuery_new (domain name : list Z) : JournalQuery := mkQuery domain name None None None 0 None None None.

Definition q_start (q : JournalQuery) (t : option Z) (e : option (list Z)) : JournalQuery :=
  mkQuery (q_domain q) (q_name q) t e (q_stop_time q) (q_count q) (q_after_time q) (q_after_entry q) (q_variables q).
Definition q_stop (q : JournalQuery) (t : option Z) (n : Z) : JournalQuery :=
  mkQuery (q_domain q) (q_name q) (q_start_time q) (q_start_entry q) t n (q_after_time q) (q_after_entry q) (q_variables q).
Definition q_after (q : JournalQuery) (t : option Z) (e : option (list Z)) : JournalQuery :=
  mkQuery (q_domain q) (q_name q) (q_start_time q) (q_start_entry q) (q_stop_time q) (q_count q) t e (q_variables q).
Definition q_vars (q : JournalQuery) (vs : list (list Z)) : JournalQuery :=
  mkQuery (q_domain q) (q_name q) (q_start_time q) (q_start_entry q) (q_stop_time q) (q_count q) (q_after_time q)
    (q_after_entry q) (Some vs).

Definition time_of (b : list Z) : outcome MmsError Z :=
  v ← binary_time_raw b;
  match Value_time v with Some t => Ok t | None => Err (MmsProtocol "undecodable TimeOfDay") end.

(** A range specification, which has one element. *)
Definition range_round (q : JournalQuery) (start : bool) (c : list Z) : outcome MmsError JournalQuery :=
  '((ct, cv), _) ← map_err MmsAsn1 (read_tlv (Decoder_new c));
  if decide (ct = context_primitive 0) then
    t ← time_of cv;
    Ok (if start then q_start q (Some t) (q_start_entry q) else q_stop q (Some t) (q_count q))
  else if decide (ct = context_primitive 1) then
    if start then Ok (q_start q (q_start_time q) (Some cv))
    else n ← map_err MmsAsn1 (decode_int cv); Ok (q_stop q (q_stop_time q) (Z.max n 0))
  else Ok q.

Definition after_round (q : JournalQuery) (at_ : Tag) (av : list Z) : outcome MmsError (JournalQuery + Empty_set) :=
  if decide (at_ = context_primitive 0) then t ← time_of av; Ok (inl (q_after q (Some t) (q_after_entry q)))
  else if decide (at_ = context_primitive 1) then Ok (inl (q_after q (q_after_time q) (Some av)))
  else Ok (inl q).

Definition query_round (q : JournalQuery) (tag : Tag) (c : list Z) : outcome MmsError (JournalQuery + Empty_set) :=
  if decide (tag = context_constructed 1 ∨ tag = context_constructed 2) then
    q ← range_round q (bool_decide (tag = context_constructed 1)) c; Ok (inl q)
  else if decide (tag = context_constructed 4) then
    vars ← whole (each_field (raise MmsAsn1) (λ vars (_ : Tag) s, Ok (inl (vars ++ [from_utf8_lossy s]))) c []);
    Ok (inl (q_vars q vars))
  else if decide (tag = context_constructed 5 ∨ tag = context_constructed 3) then
    q ← whole (each_field (raise MmsAsn1) after_round c q); Ok (inl q)
  else Ok (inl q).

Definition parse_journal_query (content : list Z) : outcome MmsError JournalQuery :=
  '(name, dec) ← d_expect (Decoder_new content) (context_constructed 0);
  '(domain, item) ← server_object_name name;
  whole (each_tlv (raise MmsAsn1) query_round (S (length content)) dec (JournalQuery_new domain item)).

(** [entries.iter().position(p).unwrap_or(entries.len())]. *)
Definition first_that {A} (p : A → bool) (l : list A) : nat := match list_find (λ x, p x = true) l with Some (i, _) => i | None => length l end.

Definition entry_index (id : list Z) (l : list LogEntry) : option nat := fst <$> list_find (λ e, le_id e = id) l.

(** Where a query starts; [None] when the entry it starts at is not there. *)
Definition query_from (q : JournalQuery) (entries : list LogEntry) : option nat :=
  match q_after_entry q with
  | Some after =>
      match entry_index after entries with
      | Some i => Some (S i)
      | None =>
          match q_after_time q with
          | Some t => Some (first_that (λ e, bool_decide (t < le_time e)) entries)
          | None => Some 0%nat
          end
      end
  | None =>
      match q_start_entry q with
      | Some start => entry_index start entries
      | None =>
          match q_start_time q with
          | Some t => Some (first_that (λ e, bool_decide (t ≤ le_time e)) entries)
          | None => Some 0%nat
          end
      end
  end.

Fixpoint select_loop (q : JournalQuery) (out entries : list LogEntry) : list LogEntry :=
  match entries with
  | [] => out
  | e :: rest =>
      if match q_stop_time q with Some t => bool_decide (t < le_time e) | None => false end then out
      else if bool_decide (0 < q_count q ∧ q_count q ≤ zlen out) then out
      else select_loop q (out ++ [e]) rest
  end.

Definition select (q : JournalQuery) (entries : list LogEntry) : list LogEntry :=
  match query_from q entries with
  | Some from => select_loop q [] (drop from entries)
  | None => []
  end.

(** The variables of an entry a query asks for, with the reason code after each. *)
Fixpoint kept_vars (q : JournalQuery) (keep : bool) (vars : list (list Z * Value)) : list (list Z * Value) :=
  match vars with
  | [] => []
  | (tag, v) :: vars =>
      let keep :=
        if decide (tag ≠ REASON_CODE_TAG)
        then match q_variables q with Some vs => bool_decide (tag ∈ vs) | None => true end else keep in
      if keep then (tag, v) :: kept_vars q keep vars else kept_vars q keep vars
  end.

Definition variable_element {E} (p : list Z * Value) : outcome E Element :=
  e ← data_element p.2;
  Ok (cons_elem TAG_SEQUENCE [prim (context_primitive 0) p.1; cons_elem (context_constructed 1) (option_list e)]).

Fixpoint variable_elements {E} (vars : list (list Z * Value)) : outcome E (list Element) :=
  match vars with
  | [] => Ok []
  | p :: vars => e ← variable_element p; es ← variable_elements vars; Ok (e :: es)
  end.

Definition entry_element {E} (q : JournalQuery) (e : LogEntry) : outcome E Element :=
  vars ← variable_elements (kept_vars q true (le_vars e));
  Ok (cons_elem TAG_SEQUENCE
        [prim (context_primitive 0) (le_id e); cons_elem (context_constructed 1) [];
         cons_elem (context_constructed 2)
           [prim (context_primitive 0) (binary_time_bytes (le_time e));
            cons_elem (context_constructed 2) [cons_elem (context_constructed 1) vars]]]).

Fixpoint entry_elements {E} (q : JournalQuery) (l : list LogEntry) : outcome E (list Element) :=
  match l with
  | [] => Ok []
  | x :: l => y ← entry_element q x; ys ← entry_elements q l; Ok (y :: ys)
  end.

(** The entries are encoded as the page takes them; the page looks at one more than
    it takes, so encoding them all first gives the same page. *)
Definition journal_page {E} (q : JournalQuery) (entries : list LogEntry) (max_pdu : Z) : outcome E Element :=
  els ← entry_elements q (select q entries);
  let '(page, more) := fill_page els max_pdu in
  Ok (cons_elem (context_constructed SVC_READ_JOURNAL)
        [cons_elem (context_constructed 0) page; bool_elem (context_primitive 1) more]).

(** ** The services *)

Definition read_journal_handler (st : LogState) (content : list Z) (max_pdu : Z) : outcome MmsError Element :=
  q ← parse_journal_query content;
  match bt_get (lg_journals st) (q_domain q, q_name q) with
  | Some entries => journal_page q entries max_pdu
  | None => Err (MmsAccess ObjectNonExistent)
  end.

Definition report_journal_status (st : LogState) (deletable : bool) (content : list Z) : outcome MmsError Element :=
  '(domain, item) ← server_object_name content;
  match bt_get (lg_journals st) (domain, item) with
  | Some entries =>
      Ok (cons_elem (context_constructed SVC_REPORT_JOURNAL_STATUS)
            [uint_elem (context_primitive 0) (zlen entries); bool_elem (context_primitive 1) deletable])
  | None => Err (MmsAccess ObjectNonExistent)
  end.

(** How many entries go: up to the limiting time, and no further than the limiting
    entry. *)
Fixpoint count_deleted (limit : Z) (limit_entry : option (list Z)) (l : list LogEntry) : nat :=
  match l with
  | [] => 0
  | e :: l =>
      if decide (limit < le_time e) then 0%nat
      else if decide (limit_entry = Some (le_id e)) then 1%nat
      else S (count_deleted limit limit_entry l)
  end.

Definition initialize_args (content : list Z) : outcome MmsError ((list Z * list Z) * option Z * option (list Z)) :=
  '(name, dec) ← d_expect (Decoder_new content) (context_constructed 0);
  name ← server_object_name name;
  '(ls, _) ← d_optional dec (context_constructed 1);
  match ls with
  | None => Ok (name, None, None)
  | Some ls =>
      '(tb, ld) ← d_expect (Decoder_new ls) (context_primitive 0);
      v ← binary_time_raw tb;
      '(id, _) ← d_optional ld (context_primitive 1);
      Ok (name, Value_time v, id)
  end.

Definition initialize_journal (deletable : bool) (st : LogState) (m : Model) (content : list Z)
    : outcome MmsError Element * (LogState * Model) :=
  match initialize_args content with
  | Ok (j, limit, limit_entry) =>
      match bt_get (lg_journals st) j with
      | None => (Err (MmsAccess ObjectNonExistent), (st, m))
      | Some entries =>
          if deletable then
            let n := match limit with Some limit => count_deleted limit limit_entry entries | None => length entries end in
            let st := set_journals st (bt_alter (drop n) j (lg_journals st)) in
            (Ok (uint_elem (context_primitive SVC_INITIALIZE_JOURNAL) (Z.of_nat n)), (st, sync st m j))
          else (Err (MmsAccess ObjectAccessDenied), (st, m))
      end
  | Err e => (Err e, (st, m))
  | Panic => (Panic, (st, m))
  | NoFuel => (NoFuel, (st, m))
  end.
