(* ===== verification/JournalRead.v ===== *)
(** Reading a log over the wire: the client's journal reads of src/src/mms/services.rs
    against the journals of src/src/server/journal.rs. *)

From stdpp Require Import sorting.
From S2P Require Import Prelude Ber BerDecoder BerPrim BerFields TimeUtil Utf8 Text Errors MmsValue MmsCodec.
From S2P Require Import ObjRef Quality BTree Nodes Blocks Access Tx Handler Selections InfoReport Services Wire NameList.
From S2P Require Import Rcb ControlBlocks ReportPdu ReadService Journal.
Local Open Scope list_scope.
Local Open Scope Z_scope.

(** ** Entries *)

Definition log_entry_ok (e : LogEntry) : Prop := Forall (λ p, utf8 p.1 = true ∧ value_ok p.2) (le_vars e).

(** An entry as a client has it: the time is cut to a millisecond. *)
Definition client_entry (e : LogEntry) : JournalEntry :=
  mkJournalEntry (le_id e) (Value_time (binary_time (le_time e)))
    (map (λ p, mkJournalVariable p.1 (Some (sent p.2))) (le_vars e)).

Lemma kept_vars_all q vars : q_variables q = None → kept_vars q true vars = vars.
Proof.
  intros Hq. induction vars as [|[tag v] vars IH]; [done|]. cbn [kept_vars]. rewrite Hq. by case_decide; rewrite IH.
Qed.

Lemma variable_round_tag {E} jv c :
  variable_round (E:=E) jv (context_primitive 0) c = Ok (inl (mkJournalVariable (from_utf8_lossy c) (jv_value jv))).
Proof. done. Qed.

Lemma variable_round_value {E} jv c :
  variable_round (E:=E) jv (context_constructed 1) c =
    (v ← ok (decode_data (Decoder_new c));
     Ok (inl (mkJournalVariable (jv_tag jv) (match v with Some (v, _) => Some v | None => jv_value jv end)))).
Proof. done. Qed.

Lemma variable_encodes {E} p :
  utf8 p.1 = true → value_ok p.2 →
  ∃ e c, variable_element (E:=E) p = Ok e ∧ writes e (TAG_SEQUENCE, c) ∧
    (zlen c < 2 ^ 31 → journal_variable (E:=E) c = Ok (mkJournalVariable p.1 (Some (sent p.2)))).
Proof.
  destruct p as [tag v]. simpl. intros Hu [Hw Hd].
  destruct (value_encodes (E:=E) v (S (Z.to_nat MAX_VALUE_DEPTH)) Hw) as (d & He & Ht & Hr); [unfold depth_ok in Hd; lia|].
  exists (cons_elem TAG_SEQUENCE [prim (context_primitive 0) tag; cons_elem (context_constructed 1) [d]]),
    (children_octets [(context_primitive 0, tag); (context_constructed 1, Element_encode d)]).
  split; [unfold variable_element; simpl; by rewrite He|]. split.
  { apply writes_cons; [done..|]. constructor; [by apply writes_prim|]. constructor; [by apply writes_wrap|constructor]. }
  intros Hl. fields_in Hl. unfold journal_variable. rewrite each_field_fields by fields_ok. cbn [fold_fields].
  rewrite variable_round_tag, bind_Ok. cbv beta iota. rewrite variable_round_value.
  destruct (Hr ltac:(lia)) as [_ Hread]. unfold decode_data. rewrite dec_at_nil.
  rewrite <-(app_nil_r (Element_encode d)) at 1. rewrite Hread. cbn [ok]. rewrite !bind_Ok.
  unfold whole. rewrite bind_Ok. cbn [jv_tag]. by rewrite from_utf8_lossy_valid.
Qed.

Lemma variables_encode {E} vars :
  Forall (λ p, utf8 p.1 = true ∧ value_ok p.2) vars →
  ∃ es cs, variable_elements (E:=E) vars = Ok es ∧ Forall2 writes es (map (pair TAG_SEQUENCE) cs) ∧
    (zlen (children_octets (map (pair TAG_SEQUENCE) cs)) < 2 ^ 31 →
     Forall2 (λ c p, journal_variable (E:=E) c = Ok (mkJournalVariable p.1 (Some (sent p.2)))) cs vars).
Proof.
  induction 1 as [|p vars [Hu Hv] _ IH]; [by exists [], []|].
  destruct IH as (es & cs & Hes & Hw & Hr). destruct (variable_encodes (E:=E) p Hu Hv) as (e & c & He & Hwe & Hre).
  exists (e :: es), (c :: cs). cbn [variable_elements]. rewrite He, bind_Ok, Hes, bind_Ok. split; [done|].
  split; [by constructor|]. simpl. rewrite children_octets_cons, zlen_app. intros Hl.
  pose proof (zlen_nonneg (append_tlv [] TAG_SEQUENCE c)). pose proof (append_tlv_longer TAG_SEQUENCE c).
  pose proof (zlen_nonneg (children_octets (map (pair TAG_SEQUENCE) cs))).
  constructor; [apply Hre; lia|apply Hr; lia].
Qed.

(** The rounds of the client's loops over what a server writes. *)
Definition variables_round {E} (levels : nat) (vars : list JournalVariable) (tag : Tag) (c : list Z)
    : outcome E (list JournalVariable + Empty_set) :=
  if decide (tag = context_constructed 1) then
    vars ← parse_journal_variables levels c vars; Ok (inl vars)
  else if decide (tag ≠ TAG_SEQUENCE) then Ok (inl vars)
  else
    jv ← journal_variable c;
    Ok (inl (if decide (jv_tag jv ≠ [] ∨ is_Some (jv_value jv)) then vars ++ [jv] else vars)).

Lemma parse_variables_eq {E} levels c vars :
  parse_journal_variables (E:=E) (S levels) c vars = whole (each_field leave (variables_round levels) c vars).
Proof. done. Qed.

Lemma variables_round_seq {E} levels vars c jv v :
  journal_variable (E:=E) c = Ok jv → jv_value jv = Some v → variables_round (E:=E) levels vars TAG_SEQUENCE c = Ok (inl (vars ++ [jv])).
Proof.
  intros Hc Hv. unfold variables_round. rewrite decide_False by done. rewrite decide_False by (intros H; by apply H).
  rewrite Hc, bind_Ok. rewrite decide_True; [done|]. right. rewrite Hv. by eexists.
Qed.

Lemma variables_round_nested {E} levels vars c :
  variables_round (E:=E) levels vars (context_constructed 1) c = (vars ← parse_journal_variables levels c vars; Ok (inl vars)).
Proof. done. Qed.

Lemma parse_variables_flat {E} levels cs (vars : list (list Z * Value)) : ∀ acc,
  zlen (children_octets (map (pair TAG_SEQUENCE) cs)) < 2 ^ 31 →
  Forall2 (λ c p, journal_variable (E:=E) c = Ok (mkJournalVariable p.1 (Some (sent p.2)))) cs vars →
  parse_journal_variables (E:=E) (S levels) (children_octets (map (pair TAG_SEQUENCE) cs)) acc =
    Ok (acc ++ map (λ p, mkJournalVariable p.1 (Some (sent p.2))) vars).
Proof.
  intros acc Hl Hf. rewrite parse_variables_eq, each_field_fields.
  2:{ apply Forall_fmap, Forall_forall. intros c Hc. split; [done|]. simpl.
      assert (zlen c < zlen (children_octets (map (pair TAG_SEQUENCE) cs))); [|lia].
      apply (field_smaller TAG_SEQUENCE). apply list_elem_of_fmap. by exists c. }
  clear Hl. revert acc. induction Hf as [|c p cs vars Hc _ IH]; intros acc.
  - cbn [map fold_fields]. unfold whole. rewrite bind_Ok. by rewrite app_nil_r.
  - cbn [map fold_fields]. rewrite (variables_round_seq _ _ _ _ _ Hc eq_refl), bind_Ok. cbv beta iota. rewrite IH.
    by rewrite <-app_assoc.
Qed.

Lemma parse_variables_nested {E} c acc n :
  zlen c < 2 ^ 31 →
  parse_journal_variables (E:=E) (S n) (children_octets [(context_constructed 1, c)]) acc = parse_journal_variables n c acc.
Proof.
  intros Hl. rewrite parse_variables_eq, each_field_fields.
  2:{ constructor; [field_ok|constructor]. }
  cbn [fold_fields]. rewrite variables_round_nested. destruct (parse_journal_variables n c acc) as [v| | |]; [|done..].
  rewrite bind_Ok. by rewrite bind_Ok.
Qed.

Definition entry_content_fields (t : Z) (cs : list (list Z)) : list (Tag * list Z) :=
  [(context_primitive 0, binary_time_bytes t);
   (context_constructed 2, children_octets [(context_constructed 1, children_octets (map (pair TAG_SEQUENCE) cs))])].

Lemma binary_time_bytes_form t : length (binary_time_bytes t) = 6%nat ∧ VBinaryTime (binary_time_bytes t) = binary_time t.
Proof. unfold binary_time_bytes, binary_time. by destruct (unix_parts t). Qed.

Lemma entry_content_read {E} id t cs vars :
  zlen (children_octets (entry_content_fields t cs)) < 2 ^ 31 →
  Forall2 (λ c p, journal_variable (E:=E) c = Ok (mkJournalVariable p.1 (Some (sent p.2)))) cs vars →
  parse_entry_content (E:=E) (children_octets (entry_content_fields t cs)) (mkJournalEntry id None []) =
    Ok (mkJournalEntry id (Value_time (binary_time t)) (map (λ p, mkJournalVariable p.1 (Some (sent p.2))) vars)).
Proof.
  intros Hl Hf. unfold entry_content_fields in *. fields_in Hl. destruct (binary_time_bytes_form t) as [Hb Hv].
  unfold parse_entry_content. rewrite each_field_fields by fields_ok. cbn [fold_fields].
  unfold entry_content_round. rewrite (decide_True (P:=context_primitive 0 = _)) by done.
  rewrite (decide_True (P:=_ ∨ _)) by by right. rewrite bind_Ok. cbv beta iota.
  rewrite (decide_False (P:=context_constructed 2 = _)) by done. rewrite (decide_True (P:=context_constructed 2 = _)) by done.
  match goal with H : zlen (children_octets [_]) < _ |- _ => fields_in H end.
  rewrite parse_variables_nested by lia. cbn [je_variables].
  destruct (length (children_octets [(context_constructed 1, children_octets (map (pair TAG_SEQUENCE) cs))])) as [|n] eqn:El.
  { exfalso. refine (Nat.nle_succ_0 _ (eq_ind _ (λ k, (1 ≤ k)%nat) (length_children_octets [_]) _ El)). }
  rewrite (parse_variables_flat _ cs vars) by (done || lia). rewrite !bind_Ok. cbv beta iota. unfold whole.
  rewrite bind_Ok. cbn [je_entry_id je_occurrence_time app]. by rewrite Hv.
Qed.

Definition entry_fields (e : LogEntry) (cs : list (list Z)) : list (Tag * list Z) :=
  [(context_primitive 0, le_id e); (context_constructed 1, []);
   (context_constructed 2, children_octets (entry_content_fields (le_time e) cs))].

Lemma entry_read e cs :
  zlen (children_octets (entry_fields e cs)) < 2 ^ 31 →
  Forall2 (λ c p, journal_variable (E:=MmsError) c = Ok (mkJournalVariable p.1 (Some (sent p.2)))) cs (le_vars e) →
  parse_journal_entry (children_octets (entry_fields e cs)) = Ok (client_entry e).
Proof.
  intros Hl Hf. unfold entry_fields in *. fields_in Hl. unfold parse_journal_entry.
  rewrite each_field_fields by fields_ok. cbn [fold_fields].
  rewrite (decide_True (P:=context_primitive 0 = _)) by done. rewrite bind_Ok. cbv beta iota.
  rewrite (decide_False (P:=context_constructed 1 = _)) by done. rewrite (decide_False (P:=context_constructed 1 = _)) by done.
  rewrite bind_Ok. cbv beta iota.
  rewrite (decide_False (P:=context_constructed 2 = _)) by done. rewrite (decide_True (P:=context_constructed 2 = _)) by done.
  cbn [je_occurrence_time je_variables JournalEntry_default].
  rewrite (entry_content_read _ _ cs (le_vars e)) by (done || lia). rewrite !bind_Ok. cbv beta iota. unfold whole.
  by rewrite bind_Ok.
Qed.

(** ** Requests *)

(** The instants a [TimeOfDay] can name, and one as it arrives. *)
Definition day_ok (t : Z) : Prop := BINARY_TIME_EPOCH_DAYS ≤ t / (86400 * NANOS_PER_SEC) < BINARY_TIME_EPOCH_DAYS + 2 ^ 16.
Definition ms (t : Z) : Z := t - t mod 1000000.

Lemma time_of_sent t : day_ok t → time_of (binary_time_bytes t) = Ok (ms t).
Proof.
  intros Ht. destruct (binary_time_bytes_form t) as [Hl Hv]. unfold time_of, binary_time_raw.
  rewrite decide_False by (unfold zlen; rewrite Hl; naive_solver). rewrite bind_Ok, Hv. by rewrite (binary_time_milliseconds t Ht).
Qed.

Definition time_field (t : Z) : Tag * list Z := (context_primitive 0, binary_time_bytes t).

Definition journal_opts (start stop : option Z) (after : option (Z * list Z)) : list (Tag * list Z) :=
  option_list ((λ t, (context_constructed 1, children_octets [time_field t])) <$> start) ++
  option_list ((λ t, (context_constructed 2, children_octets [time_field t])) <$> stop) ++
  option_list ((λ p, (context_constructed 5, children_octets [time_field p.1; (context_primitive 1, p.2)])) <$> after).

Definition journal_fields (domain item : list Z) (start stop : option Z) (after : option (Z * list Z)) : list (Tag * list Z) :=
  (context_constructed 0, children_octets [name_field domain item]) :: journal_opts start stop after.

Definition journal_query (domain item : list Z) (start stop : option Z) (after : option (Z * list Z)) : JournalQuery :=
  mkQuery domain item (ms <$> start) None (ms <$> stop) 0 ((λ p, ms p.1) <$> after) (snd <$> after) None.

Lemma zlen_time t : zlen (binary_time_bytes t) = 6.
Proof. unfold zlen. by rewrite (proj1 (binary_time_bytes_form t)). Qed.

Lemma range_round_time q start t :
  day_ok t →
  range_round q start (children_octets [time_field t]) =
    Ok (if start then q_start q (Some (ms t)) (q_start_entry q) else q_stop q (Some (ms t)) (q_count q)).
Proof.
  intros Ht. unfold range_round. rewrite dec_at_nil. unfold time_field. pose proof (zlen_time t).
  rewrite read_field by field_ok. rewrite map_err_Ok, bind_Ok. cbv beta iota. rewrite decide_True by done.
  rewrite time_of_sent by done. by rewrite bind_Ok.
Qed.

Lemma query_round_start q c : query_round q (context_constructed 1) c = (q ← range_round q true c; Ok (inl q)).
Proof. done. Qed.
Lemma query_round_stop q c : query_round q (context_constructed 2) c = (q ← range_round q false c; Ok (inl q)).
Proof. done. Qed.
Lemma query_round_after q c :
  query_round q (context_constructed 5) c = (q ← whole (each_field (raise MmsAsn1) after_round c q); Ok (inl q)).
Proof. done. Qed.

Lemma after_round_time q c :
  after_round q (context_primitive 0) c = (t ← time_of c; Ok (inl (q_after q (Some t) (q_after_entry q)))).
Proof. done. Qed.
Lemma after_round_entry q c : after_round q (context_primitive 1) c = Ok (inl (q_after q (q_after_time q) (Some c))).
Proof. done. Qed.

Lemma after_fields_read q t id :
  day_ok t → zlen id < 2 ^ 31 →
  whole (each_field (raise MmsAsn1) after_round (children_octets [time_field t; (context_primitive 1, id)]) q) =
    Ok (q_after q (Some (ms t)) (Some id)).
Proof.
  intros Ht Hl. unfold time_field. pose proof (zlen_time t).
  rewrite each_field_fields by (repeat (constructor; [field_ok|]); constructor).
  rewrite fold_fields_cons, after_round_time, time_of_sent, !bind_Ok by done. cbv beta iota.
  rewrite fold_fields_cons, after_round_entry, bind_Ok. cbv beta iota. rewrite fold_fields_nil. unfold whole. by rewrite bind_Ok.
Qed.

(** The times and the entry identifier of a request. *)
Definition times_ok (start stop : option Z) (after : option (Z * list Z)) : Prop :=
  Forall day_ok (option_list start ++ option_list stop ++ option_list (fst <$> after)) ∧
  Forall (λ p, zlen p.2 < 2 ^ 31) (option_list after).

Lemma opts_read domain item start stop after :
  times_ok start stop after →
  fold_fields query_round (journal_opts start stop after) (JournalQuery_new domain item) =
    Ok (inl (journal_query domain item start stop after)).
Proof.
  unfold times_ok. rewrite !Forall_app. intros [(Hs & Hp & Ha) Hid]. unfold journal_opts, journal_query, JournalQuery_new.
  destruct start as [s|], stop as [p|], after as [[a id]|]; cbn [fmap option_fmap option_map option_list option_rect app fst snd] in *;
    rewrite ?Forall_singleton in *;
    repeat first
      [ rewrite fold_fields_nil; reflexivity
      | rewrite fold_fields_cons; cbv beta;
        first [rewrite query_round_start | rewrite query_round_stop | rewrite query_round_after];
        first [rewrite range_round_time by done | rewrite after_fields_read by done]; rewrite !bind_Ok; cbv beta iota ].
Qed.

Lemma query_read domain item start stop after :
  utf8 domain = true → utf8 item = true → times_ok start stop after →
  zlen (children_octets (journal_fields domain item start stop after)) < 2 ^ 31 →
  parse_journal_query (children_octets (journal_fields domain item start stop after)) =
    Ok (journal_query domain item start stop after).
Proof.
  intros Hd Hi Ht Hl. assert (Hwf : Forall field_ok (journal_fields domain item start stop after)).
  { apply fields_ok; [|lia]. unfold journal_fields, journal_opts. destruct start, stop, after; by repeat constructor. }
  unfold parse_journal_query. unfold journal_fields in *. apply Forall_cons in Hwf as [H0 Hrest].
  rewrite dec_at_nil, d_expect_field by done. rewrite bind_Ok. cbv beta iota.
  assert (zlen (name_field domain item).2 < 2 ^ 32).
  { destruct H0 as [_ H0]. destruct (name_field domain item) as [nt nc]. cbn [fst snd] in *.
    pose proof (field_smaller nt nc [(nt, nc)] ltac:(by left)). lia. }
  rewrite server_name_read, bind_Ok by done. cbv beta iota. rewrite each_tlv_fields; [|done|].
  - rewrite opts_read by done. unfold whole. by rewrite bind_Ok.
  - rewrite children_octets_cons, length_app. pose proof (length_children_octets (journal_opts start stop after)). lia.
Qed.

Lemma by_time_writes domain item start stop :
  domain ≠ [] →
  writes (by_time_request domain item start stop)
    (context_constructed SVC_READ_JOURNAL, children_octets (journal_fields domain item (Some start) (Some stop) None)).
Proof.
  intros Hd. unfold by_time_request, range_stop, journal_name, journal_fields, name_field, journal_opts, time_field.
  rewrite decide_False by done. cbn [fmap option_fmap option_map option_list option_rect app]. writes.
Qed.

Lemma after_writes domain item t id stop :
  domain ≠ [] →
  writes (after_request domain item t id stop)
    (context_constructed SVC_READ_JOURNAL, children_octets (journal_fields domain item None stop (Some (t, id)))).
Proof.
  intros Hd. unfold after_request, range_stop, journal_name, journal_fields, name_field, journal_opts, time_field.
  rewrite decide_False by done. destruct stop; cbn [fmap option_fmap option_map option_list option_rect app fst snd]; writes.
Qed.

(** ** Pages of entries *)

(** The element a server writes for an entry. *)
Definition entry_as (e : LogEntry) (el : Element) : Prop :=
  (∀ q, q_variables q = None → entry_element (E:=MmsError) q e = Ok el) ∧
  ∃ c, writes el (TAG_SEQUENCE, c) ∧ (zlen c < 2 ^ 31 → parse_journal_entry c = Ok (client_entry e)).

Definition entry_size (e : LogEntry) : Z :=
  match entry_element (E:=MmsError) (JournalQuery_new [] []) e with Ok el => Element_size el | _ => 0 end.

Lemma entry_as_size e el : entry_as e el → entry_size e = Element_size el.
Proof. intros [H _]. unfold entry_size. by rewrite H. Qed.

Lemma entry_encodes e : log_entry_ok e → ∃ el, entry_as e el.
Proof.
  intros Hok. destruct (variables_encode (E:=MmsError) (le_vars e) Hok) as (es & cs & Hes & Hw & Hr).
  eexists. split.
  - intros q Hq. unfold entry_element. rewrite kept_vars_all, Hes, bind_Ok by done. done.
  - exists (children_octets (entry_fields e cs)). split.
    + unfold entry_fields, entry_content_fields. apply writes_cons; [done..|].
      constructor; [by apply writes_prim|]. constructor; [apply (writes_cons _ [] []); [done..|constructor]|].
      constructor; [|constructor]. apply writes_cons; [done..|]. constructor; [by apply writes_prim|].
      constructor; [|constructor]. apply writes_cons; [done..|]. constructor; [|constructor]. by apply writes_cons.
    + intros Hl. apply entry_read; [done|]. apply Hr. unfold entry_fields, entry_content_fields in Hl. fields_in Hl.
      match goal with H : zlen (children_octets [_; _]) < _ |- _ => fields_in H end.
      match goal with H : zlen (children_octets [(context_constructed 1, _)]) < _ |- _ => fields_in H end. lia.
Qed.

Lemma entries_encode l : Forall log_entry_ok l → ∃ els,
  (∀ q, q_variables q = None → entry_elements (E:=MmsError) q l = Ok els) ∧ Forall2 entry_as l els.
Proof.
  induction 1 as [|e l He _ IH]; [by exists []|]. destruct IH as (els & Hels & Hf). destruct (entry_encodes e He) as (el & Hel).
  exists (el :: els). split; [|by constructor]. intros q Hq. cbn [entry_elements]. destruct Hel as [Hel _].
  by rewrite Hel, bind_Ok, Hels, bind_Ok.
Qed.

Definition journal_room (max_pdu : Z) (l : list LogEntry) : Prop :=
  max_pdu > 0 → PAGE_ENVELOPE ≤ max_pdu ∧ Forall (λ e, entry_size e ≤ max_pdu - PAGE_ENVELOPE) l.

Definition journal_response (page : list Element) (more : bool) : Element :=
  cons_elem (context_constructed SVC_READ_JOURNAL)
    [cons_elem (context_constructed 0) page; bool_elem (context_primitive 1) more].

Definition journal_response_fields (cs : list (list Z)) (more : bool) : list (Tag * list Z) :=
  [(context_constructed 0, children_octets (map (pair TAG_SEQUENCE) cs));
   (context_primitive 1, if more then [0xff] else [0x00])].

Lemma entries_contents l els : Forall2 entry_as l els →
  ∃ cs, Forall2 writes els (map (pair TAG_SEQUENCE) cs) ∧
    Forall2 (λ c e, zlen c < 2 ^ 31 → parse_journal_entry c = Ok (client_entry e)) cs l.
Proof.
  induction 1 as [|e el l els (_ & c & Hw & Hr) _ (cs & Hws & Hrs)]; [by exists []|].
  exists (c :: cs). split; by constructor.
Qed.

Lemma journal_response_writes els cs more :
  Forall2 writes els (map (pair TAG_SEQUENCE) cs) →
  writes (journal_response els more) (context_constructed SVC_READ_JOURNAL, children_octets (journal_response_fields cs more)).
Proof.
  intros Hf. apply writes_cons; [done..|]. constructor; [by apply writes_cons|]. unfold bool_elem. writes.
Qed.

Lemma journal_response_read l els cs more :
  Forall2 writes els (map (pair TAG_SEQUENCE) cs) →
  Forall2 (λ c e, zlen c < 2 ^ 31 → parse_journal_entry c = Ok (client_entry e)) cs l →
  zlen (children_octets (journal_response_fields cs more)) < 2 ^ 31 →
  read_journal_response (Element_encode (journal_response els more)) = Ok (map client_entry l, more).
Proof.
  intros Hw Hr Hl. unfold read_journal_response.
  rewrite (d_expect_element _ _ _ (journal_response_writes els cs more Hw)) by field_ok.
  rewrite bind_Ok. unfold journal_response_fields in *. fields_in Hl. cbv beta iota. rewrite dec_at_nil. fields.
  assert (Forall (λ c, zlen c < 2 ^ 31) cs) as Hcs.
  { apply Forall_forall. intros c Hc.
    assert (zlen c < zlen (children_octets (map (pair TAG_SEQUENCE) cs))); [|lia].
    apply (field_smaller TAG_SEQUENCE). apply list_elem_of_fmap. by exists c. }
  rewrite (every_expecting _ _ cs (map client_entry l)); [|done| |].
  - rewrite bind_Ok. destruct more; fields; done.
  - eapply Forall_impl; [done|]. simpl. lia.
  - clear -Hr Hcs. induction Hr as [|c e cs l Hc _ IH]; [constructor|]. apply Forall_cons in Hcs as [? ?].
    simpl. constructor; auto.
Qed.

Lemma Element_size_nonneg e : 0 ≤ Element_size e.
Proof.
  induction e as [tag value|tag children IH|tag content|tlv] using Element_ind'; cbn [Element_size]; unfold tag_size, length_size;
    try (match goal with |- context [zlen ?l] => pose proof (zlen_nonneg l) end; repeat case_decide; lia).
  assert (0 ≤ Zsum (map Element_size children)); [|repeat case_decide; lia].
  induction IH as [|e es He _ IH]; simpl; lia.
Qed.

Lemma entry_size_pos e : 0 ≤ entry_size e.
Proof.
  unfold entry_size. destruct (entry_element _ e) as [el| | |]; [|lia..]. apply Element_size_nonneg.
Qed.

Lemma Zsum_entries_app l k : Zsum (map entry_size (l ++ k)) = Zsum (map entry_size l) + Zsum (map entry_size k).
Proof. by rewrite map_app, Zsum_app. Qed.

Lemma Zsum_entries_nonneg l : 0 ≤ Zsum (map entry_size l).
Proof. induction l as [|e l IH]; simpl; [lia|]. pose proof (entry_size_pos e). lia. Qed.

Lemma entries_as_sizes l els : Forall2 entry_as l els → map Element_size els = map entry_size l.
Proof. induction 1 as [|e el l els H _ IH]; [done|]. simpl. by rewrite IH, (entry_as_size e el H). Qed.

Lemma entries_as_Forall P l els :
  Forall2 entry_as l els → Forall (λ e, P (entry_size e)) l → Forall (λ el, P (Element_size el)) els.
Proof.
  induction 1 as [|e el l els H _ IH]; intros Hl; [constructor|]. apply Forall_cons in Hl as [He Hl].
  rewrite (entry_as_size e el H) in He. constructor; auto.
Qed.

Lemma tlv_size_65 n : tlv_size (context_constructed SVC_READ_JOURNAL) n ≤ n + 7.
Proof. unfold tlv_size, tag_size, length_size. simpl. repeat case_decide; lia. Qed.

Lemma journal_response_size els more : Element_size (journal_response els more) ≤ Zsum (map Element_size els) + 16.
Proof.
  unfold journal_response. rewrite Element_size_cons. cbn [map Zsum fold_right]. rewrite Element_size_cons.
  assert (Element_size (bool_elem (context_primitive 1) more) = 3) as -> by by destruct more.
  pose proof (tlv_size_small (context_constructed 0) (Zsum (map Element_size els)) ltac:(done)).
  pose proof (tlv_size_65 (tlv_size (context_constructed 0) (Zsum (map Element_size els)) + (3 + 0))). lia.
Qed.

Lemma journal_response_fits max_pdu els cs more :
  Forall2 writes els (map (pair TAG_SEQUENCE) cs) → Zsum (map Element_size els) < 2 ^ 30 →
  (max_pdu > 0 → Zsum (map Element_size els) ≤ max_pdu - PAGE_ENVELOPE) →
  deliverable max_pdu (journal_response els more) ∧ zlen (children_octets (journal_response_fields cs more)) < 2 ^ 31.
Proof.
  intros Hf Hs Hm. pose proof (journal_response_writes els cs more Hf) as Hw. pose proof (writes_size _ _ _ Hw) as Hz.
  pose proof (journal_response_size els more) as Hr. split; [|lia]. split.
  - eexists _, _. split; [exact Hw|]. split; [done|lia].
  - intros Hp id Hid. specialize (Hm Hp). unfold PAGE_ENVELOPE in Hm. destruct Hw as [Ht _].
    destruct (response_size id _ Hid Ht) as [Hb _]. lia.
Qed.

(** A page of what a query selects: some of it, at least one entry, and it fits. *)
Lemma journal_page_spec max_pdu q entries L :
  q_variables q = None → select q entries = L → Forall log_entry_ok L → Zsum (map entry_size L) < 2 ^ 30 →
  journal_room max_pdu L →
  ∃ page rest resp, journal_page (E:=MmsError) q entries max_pdu = Ok resp ∧ L = page ++ rest ∧ (L ≠ [] → page ≠ []) ∧
    deliverable max_pdu resp ∧ read_journal_response (Element_encode resp) = Ok (map client_entry page, bool_decide (rest ≠ [])).
Proof.
  intros Hq HL Hok Hsum Hroom. destruct (entries_encode L Hok) as (els & Hels & Hf).
  unfold journal_page. rewrite HL, Hels, bind_Ok by done.
  destruct (fill_page els max_pdu) as [page more] eqn:E. apply fill_page_spec in E as (rest & -> & -> & Hne & Hsz).
  apply Forall2_app_inv_r in Hf as (lp & lr & Hp & Hr & ->). pose proof (entries_as_sizes _ _ Hp) as Hps.
  destruct (entries_contents _ _ Hp) as (cs & Hw & Hread).
  rewrite Zsum_entries_app in Hsum. pose proof (Zsum_entries_nonneg lr).
  destruct (journal_response_fits max_pdu page cs (bool_decide (rest ≠ [])) Hw) as [Hd Hl].
  { rewrite Hps. lia. }
  { intros Hm. destruct (Hroom Hm) as [Henv Hall]. specialize (Hsz Hm). rewrite Z.max_r in Hsz by lia. apply Hsz.
    apply (entries_as_Forall (λ z, z ≤ max_pdu - PAGE_ENVELOPE) (lp ++ lr)); [by apply Forall2_app|exact Hall]. }
  exists lp, lr, (journal_response page (bool_decide (rest ≠ []))). split; [done|]. split; [done|]. split.
  { intros Hn ->. apply Forall2_nil_inv_l in Hp as ->. destruct Hr; [done|]. by apply Hne. }
  split; [done|]. rewrite (journal_response_read lp page cs) by done. do 2 f_equal. apply bool_decide_ext.
  destruct Hr; split; done.
Qed.

(** ** What a query selects *)

(** Up to the first entry later than [stop]. *)
Fixpoint upto (stop : option Z) (l : list LogEntry) : list LogEntry :=
  match l with
  | [] => []
  | e :: l => if match stop with Some t => bool_decide (t < le_time e) | None => false end then [] else e :: upto stop l
  end.

(** From the first entry not before [start]. *)
Definition since (start : Z) (l : list LogEntry) : list LogEntry := drop (first_that (λ e, bool_decide (start ≤ le_time e)) l) l.

Lemma select_loop_upto q out l : q_count q = 0 → select_loop q out l = out ++ upto (q_stop_time q) l.
Proof.
  intros Hc. revert out. induction l as [|e l IH]; intros out; cbn [select_loop upto]; [by rewrite app_nil_r|].
  destruct (match q_stop_time q with Some t => bool_decide (t < le_time e) | None => false end); [by rewrite app_nil_r|].
  rewrite Hc. rewrite bool_decide_eq_false_2 by lia. rewrite IH. by rewrite <-app_assoc.
Qed.

Lemma upto_prefix stop l : ∃ rest, l = upto stop l ++ rest.
Proof.
  induction l as [|e l [rest IH]]; [by exists []|]. cbn [upto].
  destruct (match stop with Some t => bool_decide (t < le_time e) | None => false end); [by eexists|].
  exists rest. simpl. by rewrite <-IH.
Qed.

(** Continuing after some of it selects the rest. *)
Lemma upto_continue stop pre l rest : upto stop (pre ++ l) = pre ++ rest → upto stop l = rest.
Proof.
  induction pre as [|e pre IH]; [done|]. cbn [upto app].
  destruct (match stop with Some t => bool_decide (t < le_time e) | None => false end); [done|]. intros [= H]. by apply IH.
Qed.

Lemma entry_index_middle pre e rest :
  NoDup (map le_id (pre ++ e :: rest)) → entry_index (le_id e) (pre ++ e :: rest) = Some (length pre).
Proof.
  intros Hn. unfold entry_index. rewrite map_app in Hn. simpl in Hn. apply NoDup_app in Hn as (_ & Hd & _).
  assert (list_find (λ x, le_id x = le_id e) (pre ++ e :: rest) = Some (length pre, e)) as ->; [|done].
  apply list_find_Some. split; [by apply list_lookup_middle|]. split; [done|]. intros j y Hy Hj Hk.
  rewrite lookup_app_l in Hy by done. eapply (Hd (le_id y)); [|rewrite Hk; by left].
  apply list_elem_of_fmap. exists y. split; [done|]. by eapply list_elem_of_lookup_2.
Qed.

(** A query that continues after an entry selects what follows it. *)
Lemma select_after domain item stop t pre e rest :
  NoDup (map le_id (pre ++ e :: rest)) →
  select (journal_query domain item None stop (Some (t, le_id e))) (pre ++ e :: rest) = upto (ms <$> stop) rest.
Proof.
  intros Hn. unfold select, query_from. cbn [journal_query q_after_entry fmap option_fmap option_map snd].
  rewrite entry_index_middle by done. rewrite select_loop_upto by done. simpl. f_equal.
  rewrite (cons_middle e pre rest), app_assoc. rewrite drop_app_length'; [done|]. rewrite length_app. simpl. lia.
Qed.

Lemma select_since domain item start stop entries :
  select (journal_query domain item (Some start) (Some stop) None) entries = upto (Some (ms stop)) (since (ms start) entries).
Proof. unfold select, query_from. cbn. by rewrite select_loop_upto. Qed.

Lemma day_ok_ms t : day_ok t → day_ok (ms t).
Proof.
  unfold day_ok, ms, NANOS_PER_SEC. intros H.
  assert ((t - t mod 1000000) / (86400 * 1000000000) = t / (86400 * 1000000000)) as ->; [|done]. clear. dlia.
Qed.

(** ** A log, read by a client *)

(** The log a server has, and what the theorem below asks of its entries. *)
Definition log_ok (max_pdu : Z) (entries : list LogEntry) : Prop :=
  NoDup (map le_id entries) ∧ Forall (λ e, log_entry_ok e ∧ day_ok (le_time e) ∧ zlen (le_id e) < 2 ^ 29) entries ∧
  Zsum (map entry_size entries) < 2 ^ 29 ∧ journal_room max_pdu entries.

Lemma log_ok_middle max_pdu A L B : log_ok max_pdu (A ++ L ++ B) →
  Forall log_entry_ok L ∧ Zsum (map entry_size L) < 2 ^ 29 ∧ journal_room max_pdu L.
Proof.
  intros (_ & Hok & Hs & Hr). rewrite !Forall_app in Hok. destruct Hok as (_ & Hok & _). split.
  { eapply Forall_impl; [exact Hok|]. by intros e [? _]. }
  split; [rewrite !Zsum_entries_app in Hs; pose proof (Zsum_entries_nonneg A); pose proof (Zsum_entries_nonneg B); lia|].
  intros Hm. destruct (Hr Hm) as [He Hf]. rewrite !Forall_app in Hf. by destruct Hf as (_ & Hf & _).
Qed.

Lemma journal_fields_size domain item start stop after :
  zlen domain < 2 ^ 28 → zlen item < 2 ^ 28 → (∀ t id, after = Some (t, id) → zlen id < 2 ^ 29) →
  zlen (children_octets (journal_fields domain item start stop after)) < 2 ^ 31.
Proof.
  intros Hd Hi Ha. unfold journal_fields, journal_opts. rewrite children_octets_cons, !children_octets_app, !zlen_app.
  assert (zlen (children_octets [name_field domain item]) ≤ 2 ^ 29 + 30) as Hn.
  { unfold name_field. case_decide; [pose proof (zlen_field_le (context_primitive 0) item (2 ^ 29) ltac:(done) ltac:(lia)); lia|].
    etrans; [apply (zlen_field_le _ _ (2 ^ 29 + 20)); [done|]|lia]. rewrite !children_octets_cons, app_nil_r, zlen_app.
    pose proof (zlen_tlv_le TAG_VISIBLE_STRING domain ltac:(done)). pose proof (zlen_tlv_le TAG_VISIBLE_STRING item ltac:(done)). lia. }
  pose proof (zlen_tlv_le (context_constructed 0) (children_octets [name_field domain item]) ltac:(done)).
  assert (∀ n (o : option Z), n = 1 ∨ n = 2 →
    zlen (children_octets (option_list ((λ t, (context_constructed n, children_octets [time_field t])) <$> o))) ≤ 26) as Ht.
  { intros n o Hn'. destruct o as [t|]; [|done]. cbn [fmap option_fmap option_map option_list option_rect].
    apply (zlen_field_le _ _ 16); [by destruct Hn' as [-> | ->]|]. apply (zlen_field_le _ _ 6); [done|]. rewrite zlen_time. lia. }
  pose proof (Ht 1 start ltac:(by left)). pose proof (Ht 2 stop ltac:(by right)).
  assert (zlen (children_octets (option_list ((λ p, (context_constructed 5,
    children_octets [time_field p.1; (context_primitive 1, p.2)])) <$> after))) ≤ 2 ^ 29 + 36); [|lia].
  destruct after as [[t id]|]; [|done]. specialize (Ha t id eq_refl). cbn [fmap option_fmap option_map option_list option_rect].
  etrans; [apply (zlen_field_le _ _ (2 ^ 29 + 26)); [done|]|lia].
  cbn [fst snd]. unfold time_field. rewrite !children_octets_cons, app_nil_r, zlen_app.
  pose proof (zlen_tlv_le (context_primitive 0) (binary_time_bytes t) ltac:(done)) as H6. rewrite zlen_time in H6.
  pose proof (zlen_tlv_le (context_primitive 1) id ltac:(done)). lia.
Qed.

Section served.
Context {W : Type} (max_pdu : Z) (handle : ServiceHandler W) (call : Element → Call W (list Z)) (HS : Serves max_pdu handle call).
Context (logs : W → LogState) (w : W) (domain item : list Z) (entries : list LogEntry).
Hypothesis handles : ∀ content, handle SVC_READ_JOURNAL content w = (read_journal_handler (logs w) content max_pdu, w).
Hypothesis has_log : bt_get (lg_journals (logs w)) (domain, item) = Some entries.
Hypothesis names : domain ≠ [] ∧ utf8 domain = true ∧ utf8 item = true ∧ zlen domain < 2 ^ 28 ∧ zlen item < 2 ^ 28.
Hypothesis entries_ok : log_ok max_pdu entries.

(** One page of what a request selects. *)
Lemma page_served req start stop after A L B :
  writes req (context_constructed SVC_READ_JOURNAL, children_octets (journal_fields domain item start stop after)) →
  times_ok start stop after → (∀ t id, after = Some (t, id) → zlen id < 2 ^ 29) →
  entries = A ++ L ++ B → select (journal_query domain item start stop after) entries = L →
  ∃ page rest, read_journal call req w = (Ok (map client_entry page, bool_decide (rest ≠ [])), w) ∧ L = page ++ rest ∧
    (L ≠ [] → page ≠ []).
Proof using HS handles has_log names entries_ok.
  intros Hw Ht Ha HE Hsel. destruct names as (Hd & Hud & Hui & Hzd & Hzi).
  pose proof (journal_fields_size domain item start stop after Hzd Hzi Ha) as Hl.
  pose proof entries_ok as Hok. rewrite HE in Hok. apply log_ok_middle in Hok as (Hok & Hs & Hr).
  destruct (journal_page_spec max_pdu (journal_query domain item start stop after) entries L eq_refl Hsel Hok ltac:(lia) Hr)
    as (page & rest & resp & Hp & HL & Hne & Hdel & Hread).
  exists page, rest. split; [|done]. unfold read_journal. erewrite Call_bind_Ok.
  2:{ eapply serves_response; [split; [exact Hw|by split]| |exact Hdel]. cbn [tag_number]. rewrite handles.
      unfold read_journal_handler. rewrite query_read by done. rewrite bind_Ok. cbn [journal_query q_domain q_name].
      rewrite has_log, Hp. done. }
  unfold lift. by rewrite Hread.
Qed.

(** Every page of a read: what a request selects, then what follows the last entry. *)
Lemma journal_read req start stop after A L B :
  writes req (context_constructed SVC_READ_JOURNAL, children_octets (journal_fields domain item start stop after)) →
  times_ok start stop after → (∀ t id, after = Some (t, id) → zlen id < 2 ^ 29) →
  entries = A ++ L ++ B → select (journal_query domain item start stop after) entries = L → upto (ms <$> stop) (L ++ B) = L →
  read_journal_all call (S (length L)) domain item req stop w = (Ok (map client_entry L), w).
Proof using HS handles has_log names entries_ok.
  intros Hw Ht Ha HE Hsel Hupto. unfold read_journal_all. rewrite <-(length_map client_entry L). apply pages_complete.
  intros pre rest k HL Hk. apply fmap_app_inv in HL as (lp & lr & -> & -> & ->).
  assert (∃ page rest', read_journal call k w = (Ok (map client_entry page, bool_decide (rest' ≠ [])), w) ∧ lr = page ++ rest' ∧
    (lr ≠ [] → page ≠ [])) as (page & rest' & Hp & -> & Hne).
  2:{ exists (map client_entry page), (map client_entry rest'). split; [rewrite Hp; by destruct rest'|]. split; [by rewrite fmap_app|].
      intros Hn. destruct page; [|done]. exfalso. apply Hne; [|done]. by destruct rest'. }
  destruct (decide (lp = [])) as [->|Hlp]; [simpl in Hk; subst k; by apply (page_served _ start stop after A lr B)|].
  destruct (exists_last Hlp) as (lp' & e & ->). rewrite fmap_last, last_snoc in Hk. simpl in Hk. subst k. cbn [client_entry je_occurrence_time je_entry_id].
  rewrite <-!(assoc_L (++)) in HE, Hupto. cbn [app] in HE, Hupto.
  pose proof entries_ok as (Hnd & Hok & _). rewrite Forall_forall in Hok.
  destruct (Hok e) as (_ & Hday & Hid); [rewrite HE; set_solver|]. rewrite (binary_time_milliseconds (le_time e) Hday). cbn [default].
  destruct names as (Hd & _).
  apply (page_served _ None stop (Some (ms (le_time e), le_id e)) (A ++ lp' ++ [e]) lr B).
  - by apply after_writes.
  - unfold times_ok in *. rewrite !Forall_app in *. destruct Ht as [(_ & Hst & _) _].
    split; [split; [constructor|split; [done|]]|]; (constructor; [|constructor]); [by apply day_ok_ms|simpl; lia].
  - by intros t id [= _ <-].
  - rewrite HE. by rewrite <-!(assoc_L (++)).
  - rewrite HE, (assoc_L (++)), select_after.
    + apply (upto_continue _ (lp' ++ [e])). rewrite <-(assoc_L (++) lp' [e] (lr ++ B)). exact Hupto.
    + by rewrite <-(assoc_L (++)), <-HE.
Qed.
End served.

(** In a log that is in order of time, the entries of a period. *)
Lemma since_cons start e l : since start (e :: l) = if decide (start ≤ le_time e) then e :: l else since start l.
Proof.
  unfold since, first_that. cbn [list_find].
  destruct (decide (start ≤ le_time e)) as [H|H], (decide (bool_decide (start ≤ le_time e) = true)) as [Hb|Hb]; try done.
  - by rewrite bool_decide_eq_true in Hb.
  - by rewrite bool_decide_eq_true in Hb.
  - by destruct (list_find _ l) as [[i x]|].
Qed.

Lemma filter_agree {A} (P Q : A → Prop) `{!∀ x, Decision (P x)} `{!∀ x, Decision (Q x)} l :
  Forall (λ x, P x ↔ Q x) l → filter P l = filter Q l.
Proof.
  induction 1 as [|x l Hx _ IH]; [done|]. rewrite !filter_cons, IH. by repeat case_decide; naive_solver.
Qed.

Lemma upto_sorted stop l :
  StronglySorted (λ a b, le_time a ≤ le_time b) l → upto (Some stop) l = filter (λ e, le_time e ≤ stop) l.
Proof.
  induction 1 as [|e l Hl IH He]; [done|]. cbn [upto]. rewrite filter_cons. case_bool_decide.
  - rewrite decide_False by lia. rewrite Forall_forall in He. symmetry.
    rewrite (filter_agree _ (λ _, False)); [clear; by induction l as [|x l IH]|].
    apply Forall_forall. intros x Hx. specialize (He x Hx). simpl in *. lia.
  - rewrite decide_True by lia. by rewrite IH.
Qed.

Lemma period_filter start stop l :
  StronglySorted (λ a b, le_time a ≤ le_time b) l →
  upto (Some stop) (since start l) = filter (λ e, start ≤ le_time e ≤ stop) l.
Proof.
  intros H. induction H as [|e l Hl IH He]; [done|]. rewrite since_cons, filter_cons. case_decide as Hs.
  - rewrite upto_sorted by by constructor. rewrite filter_cons.
    assert (filter (λ e, le_time e ≤ stop) l = filter (λ e, start ≤ le_time e ≤ stop) l) as ->.
    { apply filter_agree. eapply Forall_impl; [exact He|]. simpl. lia. }
    by repeat case_decide; try lia.
  - rewrite IH. by rewrite decide_False by lia.
Qed.


(** ** At concrete inputs *)

(** Three entries, a second apart, from 2026-01-01. *)
Definition log_instant (n : Z) : Z := (1767225600 + n) * NANOS_PER_SEC.
Definition three_entries : list LogEntry :=
  [mkLogEntry [0; 1] (log_instant 0) [(txt "LD0/A", VBoolean true)];
   mkLogEntry [0; 2] (log_instant 1) [(txt "LD0/A", VBoolean false)];
   mkLogEntry [0; 3] (log_instant 2) [(txt "LD0/A", VBoolean true)]].

Definition three_logs : LogState := mkLogState [((txt "LD0", txt "LLN0$EventLog"), three_entries)] [].

Definition log_server (max_pdu : Z) : ServiceHandler LogState := λ svc content st,
  if decide (svc = SVC_READ_JOURNAL) then (read_journal_handler st content max_pdu, st) else (Err unrecognized_service, st).


(** ** What a log holds *)

Definition lastn {A} (n : nat) (l : list A) : list A := drop (length l - n) l.

Lemma lastn_lastn {A} n (l k : list A) : lastn n (lastn n l ++ k) = lastn n (l ++ k).
Proof.
  unfold lastn. rewrite !length_app, length_drop. destruct (decide (length l ≤ n)%nat).
  - replace (length l - n)%nat with 0%nat by lia. by rewrite drop_0, Nat.sub_0_r.
  - replace (length l + length k - n)%nat with (length (take (length l - n) l) + length k)%nat by (rewrite length_take; lia).
    assert (l ++ k = take (length l - n) l ++ (drop (length l - n) l ++ k)) as -> by by rewrite app_assoc, take_drop.
    rewrite <-drop_drop, drop_app_length. f_equal. lia.
Qed.

(** The entry of [vars], the [n]-th EntryID, at [t]. *)
Definition entry_at (entry_id : Z → list Z) (n t : Z) (vars : list (list Z * Value)) : LogEntry :=
  mkLogEntry (entry_id n) (let '(secs, nanos) := unix_parts t in from_unix secs (nanos / 1000000 * 1000000)) vars.

Fixpoint new_entries (entry_id : Z → list Z) (n : Z) (clock : list Z) (vss : list (list (list Z * Value))) : list LogEntry :=
  match vss with
  | [] => []
  | vars :: vss => entry_at entry_id n (hd 0 clock) vars :: new_entries entry_id (n + 1) (tl clock) vss
  end.

Lemma append_entry_log entry_id capacity w j vars entries :
  bt_get (lg_journals (lw_logs w)) j = Some entries → vars ≠ [] →
  let w' := append_entry entry_id capacity w j vars in
  bt_get (lg_journals (lw_logs w')) j =
    Some (lastn (Z.to_nat capacity) (entries ++ [entry_at entry_id (lw_counter w) (hd 0 (lw_clock w)) vars])) ∧
  (∀ j', j' ≠ j → bt_get (lg_journals (lw_logs w')) j' = bt_get (lg_journals (lw_logs w)) j') ∧
  lw_counter w' = lw_counter w + 1 ∧ lw_clock w' = tl (lw_clock w).
Proof.
  intros Hj Hv. unfold append_entry. rewrite decide_False, Hj by done. unfold entry_at.
  destruct (unix_parts (hd 0 (lw_clock w))) as [secs nanos]. cbn [lw_logs lw_counter lw_clock set_journals lg_journals].
  split; [|split; [|done]].
  - rewrite bt_get_alter, cmp_refl, Hj. done.
  - intros j' Hne. rewrite bt_get_alter. destruct (cmp j' j) eqn:E; [|done..]. by apply cmp_eq in E.
Qed.

(** A log holds the latest entries: after any number of entries are appended it holds
    the last [capacity] of those it had and the new ones, in order, each under the next
    EntryID and the instant it was made, to the millisecond; other logs are as they were. *)
Theorem log_keeps_latest (entry_id : Z → list Z) (capacity : Z) (w : LogWorld) (j : list Z * list Z)
    (entries : list LogEntry) (vss : list (list (list Z * Value))) :
  bt_get (lg_journals (lw_logs w)) j = Some entries → zlen entries ≤ capacity → Forall (λ vars, vars ≠ []) vss →
  let w' := foldl (λ w vars, append_entry entry_id capacity w j vars) w vss in
  bt_get (lg_journals (lw_logs w')) j =
    Some (lastn (Z.to_nat capacity) (entries ++ new_entries entry_id (lw_counter w) (lw_clock w) vss)) ∧
  (∀ j', j' ≠ j → bt_get (lg_journals (lw_logs w')) j' = bt_get (lg_journals (lw_logs w)) j') ∧
  lw_counter w' = lw_counter w + zlen vss.
Proof.
  intros Hj Hc Hvs.
  assert (entries = lastn (Z.to_nat capacity) entries) as He.
  { unfold lastn. replace (length entries - Z.to_nat capacity)%nat with 0%nat by (unfold zlen in Hc; lia). by rewrite drop_0. }
  rewrite He in Hj. clear He Hc. revert w entries Hj. induction Hvs as [|vars vss Hv _ IH]; intros w entries Hj.
  - simpl. rewrite app_nil_r. split; [done|]. split; [done|]. unfold zlen. simpl. lia.
  - destruct (append_entry_log entry_id capacity w j vars _ Hj Hv) as (H1 & H2 & H3 & H4). rewrite lastn_lastn in H1.
    destruct (IH _ _ H1) as (I1 & I2 & I3). cbn [foldl new_entries]. rewrite I1, H3, H4, <-app_assoc. split; [done|].
    split; [intros j' Hne; by rewrite I2, H2|]. rewrite I3, H3, zlen_cons. lia.
Qed.

Lemma log_keeps_latest_witness :
  bt_get (lg_journals (lw_logs (foldl (λ w vars, append_entry (λ n, [n]) 2 w (txt "LD0", txt "LLN0$EventLog") vars)
    (mkLogWorld (a_model []) (mkLogState [((txt "LD0", txt "LLN0$EventLog"), [])] []) 0 [5000000; 6000001; 7999999])
    [[(txt "a", VBoolean true)]; [(txt "b", VBoolean true)]; [(txt "c", VBoolean true)]]))) (txt "LD0", txt "LLN0$EventLog") =
  Some [mkLogEntry [1] 6000000 [(txt "b", VBoolean true)]; mkLogEntry [2] 7000000 [(txt "c", VBoolean true)]].
Proof.
  refine (eq_trans (proj1 (log_keeps_latest (λ n, [n]) 2 (mkLogWorld (a_model []) (mkLogState [((txt "LD0", txt "LLN0$EventLog"), [])] []) 0 [5000000; 6000001; 7999999])
    (txt "LD0", txt "LLN0$EventLog") [] [[(txt "a", VBoolean true)]; [(txt "b", VBoolean true)]; [(txt "c", VBoolean true)]] _ _ _)) _);
    [done|done|by repeat constructor|by vm_compute].
Defined.

(** *** Two divergences *)

(** A query that continues after an entry the log no longer holds skips the entries of
    the same millisecond: here the second of three is never seen. *)
Lemma resume_skips_same_time :
  select (journal_query [] [] None None (Some (log_instant 0, [0; 1])))
    [mkLogEntry [0; 2] (log_instant 0) []; mkLogEntry [0; 3] (log_instant 1) []] =
  [mkLogEntry [0; 3] (log_instant 1) []].
Proof. by vm_compute. Qed.

(** Clearing a log leaves the entry range of its control blocks as it was, naming
    entries that are gone. *)
Lemma cleared_log_range_stale st m content r st' m' j limit limit_entry :
  initialize_args content = Ok (j, limit, limit_entry) →
  initialize_journal true st m content = (Ok r, (st', m')) → bt_get (lg_journals st') j = Some [] → m' = m.
Proof.
  intros Ha. unfold initialize_journal. rewrite Ha. destruct (bt_get (lg_journals st) j); [|done].
  intros [= _ <- <-] Hj. unfold sync. by rewrite Hj.
Qed.
