(* ===== verification/Tracking.v ===== *)
(** Service tracking (src/src/server/tracking.rs): the tracking objects of a model, what
    each tracked service writes into them, and that a tracked service is recorded, under
    the references a data set of it reports, and touches nothing else. *)

From stdpp Require Import gmap.
From S2P Require Import Prelude BerPrim TimeUtil Utf8 Text Errors MmsValue MmsCodec ObjRef Quality Nodes Blocks Access Tx Handler.
From S2P Require Import InfoReport Selections Control ControlBlocks.
Local Open Scope list_scope.
Local Open Scope Z_scope.

(** ** The tracking objects of a model *)

Definition TRACKING_KINDS : list (list Z) :=
  map txt ["SpcTrk"; "DpcTrk"; "IncTrk"; "EncTrk"; "ApcFTrk"; "ApcIntTrk"; "BscTrk"; "IscTrk"; "BacTrk";
           "BrcbTrk"; "UrcbTrk"; "LocbTrk"; "GocbTrk"; "MsvcbTrk"; "UsvcbTrk"; "SgcbTrk"].

Definition COMMON_TRACKING : list (list Z) :=
  map txt ["objRef"; "serviceType"; "errorCode"; "originatorID"; "t"; "certIssuer"; "d"].

Record TrkObj := mkTrkObj {
  tk_ld : list Z;
  tk_ln : list Z;
  tk_object : list Z;
}.

Definition TrkObj_reference (o : TrkObj) : ObjectReference := tk_ld o ++ SLASH :: tk_ln o ++ DOT :: tk_object o.

Record Tracker := mkTracker {
  tk_by_ld : gmap (list Z) (gmap (list Z) TrkObj);
  tk_first : gmap (list Z) TrkObj;
}.

(** [trim_end_matches(|c| c.is_ascii_digit())]. *)
Fixpoint trim_end_digits (s : list Z) : list Z :=
  match s with
  | [] => []
  | c :: s =>
      match trim_end_digits s with
      | [] => if bool_decide (48 ≤ c ≤ 57) then [] else [c]
      | t => c :: t
      end
  end.

(** [entry(k).or_insert(v)]. *)
Definition or_insert {V} (k : list Z) (v : V) (m : gmap (list Z) V) : gmap (list Z) V :=
  match m !! k with Some _ => m | None => <[k := v]> m end.

Definition add_tracking (ld : LogicalDevice) (ln : LogicalNode) (t : Tracker) (o : DataObject) : Tracker :=
  let kind := trim_end_digits (do_name o) in
  if decide (kind ∈ TRACKING_KINDS) then
    let obj := mkTrkObj (ld_name ld) (ln_name ln) (do_name o) in
    mkTracker (<[ld_name ld := or_insert kind obj (default ∅ (tk_by_ld t !! ld_name ld))]> (tk_by_ld t))
      (or_insert kind obj (tk_first t))
  else t.

Definition is_ltrk (ln : LogicalNode) : bool :=
  bool_decide (ln_class ln = txt "LTRK") || (bool_decide (ln_class ln = []) && bool_decide (txt "LTRK" `prefix_of` ln_name ln)).

Definition Tracker_build (m : Model) : Tracker :=
  foldl (λ t ld, foldl (λ t ln, if is_ltrk ln then foldl (add_tracking ld ln) t (ln_objects ln) else t) t (ld_nodes ld))
    (mkTracker ∅ ∅) (model_devices m).

Definition Tracker_lookup (t : Tracker) (ld kind : list Z) : option TrkObj :=
  match tk_by_ld t !! ld ≫= (!!) kind with
  | Some o => Some o
  | None => tk_first t !! kind
  end.

Definition Tracker_is_empty (t : Tracker) : bool := bool_decide (tk_first t = ∅).

(** ** Records *)

Record CtlTrack := mkCtlTrack {
  ct_ctl_val : Value;
  ct_oper : option Value;
  ct_or_cat : Z;
  ct_or_ident : list Z;
  ct_ctl_num : Z;
  ct_cause : AddCause;
}.

Record TrackRecord := mkTrackRecord {
  tr_ld : list Z;
  tr_kind : list Z;
  tr_obj_ref : list Z;
  tr_svc : Z;
  tr_err : Z;
  tr_src : option DataObject;
  tr_ctl : option CtlTrack;
  tr_requested : option (list Z * Value);
}.

Definition same_name (name : list Z) (a : DataAttribute) : bool := eq_ignore_ascii_case (da_name a) name.
Definition attribute_fold (attrs : list DataAttribute) (name : list Z) : option DataAttribute := find (same_name name) attrs.

Definition set_tracked (cs : ChangeSet) (reference : ObjectReference) (da : DataAttribute) (v : Value)
    : DataAttribute * ChangeSet :=
  if decide (da_children da ≠ []) then (da, cs)
  else if value_fits da v then
    (set_value da (Some v), record cs reference (da_fc da) (da_trg_ops da) (da_value da) v)
  else (da, cs).

Section tracking.
(** [Display] of a value. *)
Context (display : Value → list Z).

(** [v.text().replace('$', ".")]. *)
Definition acsi_text (v : Value) : Value :=
  VVisibleString (map (λ c, if decide (c = DOLLAR) then DOT else c) (Value_text display v)).

Fixpoint copy_tracked (dst src : DataAttribute) (reference : ObjectReference) (cs : ChangeSet) : DataAttribute * ChangeSet :=
  match da_children dst with
  | [] =>
      match da_value src with
      | None => (dst, cs)
      | Some v =>
          let v :=
            if eq_ignore_ascii_case (da_name dst) (txt "datSet") || eq_ignore_ascii_case (da_name dst) (txt "logRef")
            then acsi_text v else v in
          set_tracked cs reference dst v
      end
  | _ =>
      let '(children, cs) :=
        (fix go (l : list DataAttribute) (cs : ChangeSet) : list DataAttribute * ChangeSet :=
           match l with
           | [] => ([], cs)
           | c :: l =>
               let '(c', cs) :=
                 match attribute_fold (da_children src) (da_name c) with
                 | Some sc => copy_tracked c sc (ref_child reference (da_name c)) cs
                 | None => (c, cs)
                 end in
               let '(l, cs) := go l cs in (c' :: l, cs)
           end) (da_children dst) cs in
      (set_children dst children, cs)
  end.

(** [object_mut] of the tracking object. *)
Definition tracking_object (m : Model) (o : TrkObj) : option (DataObject * (DataObject → Model)) :=
  '(ld, put_ld) ← device_mut m (tk_ld o);
  '(ln, put_ln) ← node_mut ld (tk_ln o);
  '(d, put_o) ← object_mut ln (tk_object o);
  Some (d, λ d, put_ld (put_ln (put_o d))).

(** The closure [set]: an attribute found by its name. *)
Definition set_named (base : ObjectReference) (name : string) (v : Value) (s : DataObject * ChangeSet) : DataObject * ChangeSet :=
  let '(o, cs) := s in
  match do_attribute_mut o (txt name) with
  | Some (da, put) => let '(da, cs) := set_tracked cs (ref_child base (txt name)) da v in (put da, cs)
  | None => s
  end.

(** The block's state. *)
Definition copy_block (base : ObjectReference) (src : DataObject) (s : DataObject * ChangeSet) : DataObject * ChangeSet :=
  let '(o, cs) := s in
  let '(attrs, cs) :=
    foldl (λ '(attrs, cs) da,
      if decide (da_name da ∈ COMMON_TRACKING) then (attrs ++ [da], cs)
      else
        match attribute_fold (do_attributes src) (da_name da) with
        | Some sa => let '(da, cs) := copy_tracked da sa (ref_child base (da_name da)) cs in (attrs ++ [da], cs)
        | None => (attrs ++ [da], cs)
        end) ([], cs) (do_attributes o) in
  (set_attributes o attrs, cs).

(** [DataAttribute { name, value: Some(v), ..Default::default() }]. *)
Definition requested_attr (name : list Z) (v : Value) : DataAttribute :=
  mkDA name FcNone [] None [] [] 0 [] (Some v) 0.

Definition copy_requested (base : ObjectReference) (name : list Z) (v : Value) (s : DataObject * ChangeSet)
    : DataObject * ChangeSet :=
  let '(o, cs) := s in
  match find_mut (same_name name) (do_attributes o) with
  | Some (da, put) =>
      if decide (da_name da ∈ COMMON_TRACKING) then s
      else
        let '(da, cs) := copy_tracked da (requested_attr name v) (ref_child base (da_name da)) cs in
        (set_attributes o (put da), cs)
  | None => s
  end.

(** One member of [origin]. *)
Definition set_member (reference : ObjectReference) (s : DataAttribute * ChangeSet) (p : string * Value)
    : DataAttribute * ChangeSet :=
  let '(origin, cs) := s in
  match find_mut (same_name (txt p.1)) (da_children origin) with
  | Some (da, put) =>
      let '(da, cs) := set_tracked cs (ref_child reference (txt p.1)) da p.2 in (set_children origin (put da), cs)
  | None => s
  end.

Definition set_origin (base : ObjectReference) (c : CtlTrack) (s : DataObject * ChangeSet) : DataObject * ChangeSet :=
  let '(o, cs) := s in
  match do_attribute_mut o (txt "origin") with
  | Some (origin, put) =>
      let '(origin, cs) :=
        foldl (set_member (ref_child base (txt "origin"))) (origin, cs)
          [("orCat", VInteger (swrap 8 (ct_or_cat c))); ("orIdent", VOctetString (ct_or_ident c))] in
      (put origin, cs)
  | None => s
  end.

Definition set_oper (base : ObjectReference) (oper : option Value) (s : DataObject * ChangeSet) : DataObject * ChangeSet :=
  match oper with
  | Some oper =>
      if decide (type_of oper = TStructure) then
        foldl (λ s '(i, name), match Value_index oper i with Some v => set_named base name v s | None => s end) s
          [(3, "T"); (4, "Test"); (5, "Check")]
      else s
  | None => s
  end.

Definition set_command (base : ObjectReference) (c : CtlTrack) (s : DataObject * ChangeSet) : DataObject * ChangeSet :=
  let s := set_named base "ctlVal" (ct_ctl_val c) s in
  let s := set_origin base c s in
  let s := set_named base "ctlNum" (VUnsigned (ct_ctl_num c)) s in
  let s := set_oper base (ct_oper c) s in
  let cause := if decide (ct_cause c = AC.NONE) then AC.UNKNOWN else ct_cause c in
  set_named base "respAddCause" (VInteger (swrap 8 (ac_code cause))) s.

(** What a record writes into its tracking object. *)
Definition track_object (base : ObjectReference) (rec : TrackRecord) (now : Value) (s : DataObject * ChangeSet)
    : DataObject * ChangeSet :=
  let s := match tr_src rec with Some src => copy_block base src s | None => s end in
  let s := match tr_requested rec with Some (name, v) => copy_requested base name v s | None => s end in
  let s := match tr_ctl rec with Some c => set_command base c s | None => s end in
  let s := set_named base "serviceType" (VInteger (tr_svc rec)) s in
  let s := set_named base "errorCode" (VInteger (tr_err rec)) s in
  let s := set_named base "t" now s in
  set_named base "objRef" (VVisibleString (tr_obj_ref rec)) s.

Definition track (t : Tracker) (m : Model) (cs : ChangeSet) (rec : TrackRecord) (now : Value) : Model * ChangeSet :=
  match Tracker_lookup t (tr_ld rec) (tr_kind rec) with
  | None => (m, cs)
  | Some o =>
      match tracking_object m o with
      | None => (m, cs)
      | Some (d, put) => let '(d, cs) := track_object (TrkObj_reference o) rec now (d, cs) in (put d, cs)
      end
  end.

(** ** What is tracked *)

Definition service_error_of (res : () + DataAccessError) : Z :=
  match res with
  | inl () => ServiceErrorCode.NO_ERROR
  | inr TemporarilyUnavailable => ServiceErrorCode.INSTANCE_LOCKED_BY_OTHER_CLIENT
  | inr ObjectAccessDenied => ServiceErrorCode.ACCESS_VIOLATION
  | inr ObjectValueInvalid => ServiceErrorCode.PARAMETER_VALUE_INAPPROPRIATE
  | inr TypeInconsistent | inr ObjectAttributeInconsistent => ServiceErrorCode.PARAMETER_VALUE_INCONSISTENT
  | inr ObjectNonExistent => ServiceErrorCode.INSTANCE_NOT_AVAILABLE
  | inr _ => ServiceErrorCode.FAILED_DUE_TO_SERVER_CONSTRAINT
  end.

Definition termination_error (cause : AddCause) : Z :=
  if decide (cause = AC.NONE) then ServiceErrorCode.NO_ERROR else ServiceErrorCode.FAILED_DUE_TO_SERVER_CONSTRAINT.

(** The tracking object and the service of a write to a control block. *)
Definition cb_service (parts : list (list Z)) : option (list Z * Z) :=
  match parts with
  | ln :: fc :: name :: rest =>
      if decide (fc = txt "BR") then Some (txt "BrcbTrk", ServiceType.SET_BRCB_VALUES)
      else if decide (fc = txt "RP") then Some (txt "UrcbTrk", ServiceType.SET_URCB_VALUES)
      else if decide (fc = txt "LG") then Some (txt "LocbTrk", ServiceType.SET_LCB_VALUES)
      else if decide (fc = txt "GO") then Some (txt "GocbTrk", ServiceType.SET_GOCB_VALUES)
      else if decide (fc = txt "MS") then Some (txt "MsvcbTrk", ServiceType.SET_MSVCB_VALUES)
      else if decide (fc = txt "US") then Some (txt "UsvcbTrk", ServiceType.SET_USVCB_VALUES)
      else if decide (fc = txt "SP") then
        match rest with
        | [attr] =>
            if decide (ln = txt "LLN0" ∧ name = txt "SGCB") then
              if decide (attr = txt "ActSG") then Some (txt "SgcbTrk", ServiceType.SELECT_ACTIVE_SG)
              else if decide (attr = txt "EditSG") then Some (txt "SgcbTrk", ServiceType.SELECT_EDIT_SG)
              else if decide (attr = txt "CnfEdit") then Some (txt "SgcbTrk", ServiceType.CONFIRM_EDIT_SG_VALUES)
              else None
            else None
        | _ => None
        end
      else None
  | _ => None
  end.

Definition track_cb_write (t : Tracker) (m : Model) (cs : ChangeSet) (domain item : list Z) (v : Value)
    (res : () + DataAccessError) (now : Value) : Model * ChangeSet :=
  if Tracker_is_empty t then (m, cs)
  else
    let parts := split DOLLAR item in
    match cb_service parts with
    | None => (m, cs)
    | Some (kind, svc) =>
        match Tracker_lookup t domain kind with
        | None => (m, cs)
        | Some _ =>
            let part i := default [] (parts !! i) in
            match (ld ← device m domain; cb_object ld (part 0%nat) (part 1%nat) (part 2%nat)) with
            | None => (m, cs)
            | Some src =>
                let requested :=
                  if decide ((part 1%nat = txt "BR" ∨ part 1%nat = txt "RP") ∧ length parts = 4%nat)
                  then Some (part 3%nat, v) else None in
                track t m cs
                  (mkTrackRecord domain kind (domain ++ SLASH :: part 0%nat ++ DOT :: part 2%nat) svc (service_error_of res)
                     (Some src) None requested) now
            end
        end
    end.

Definition control_tracking_kind (m : Model) (reference : ObjectReference) (ctl_val : option Value) : option (list Z) :=
  let cdc := match lookup m reference Co with Some (NObject o) => do_cdc o | _ => [] end in
  if decide (cdc = txt "SPC") then Some (txt "SpcTrk")
  else if decide (cdc = txt "DPC") then Some (txt "DpcTrk")
  else if decide (cdc = txt "INC") then Some (txt "IncTrk")
  else if decide (cdc = txt "ENC") then Some (txt "EncTrk")
  else if decide (cdc = txt "BSC") then Some (txt "BscTrk")
  else if decide (cdc = txt "ISC") then Some (txt "IscTrk")
  else if decide (cdc = txt "BAC") then Some (txt "BacTrk")
  else if decide (cdc = txt "APC") then
    let integer :=
      match ctl_val with
      | Some v =>
          if decide (type_of v = TStructure) then
            match Value_index v 0 with
            | Some f => match type_of f with TFloat32 | TFloat64 => false | _ => true end
            | None => false
            end
          else false
      | None => false
      end in
    Some (if (integer : bool) then txt "ApcIntTrk" else txt "ApcFTrk")
  else None.

Definition track_control (t : Tracker) (m : Model) (cs : ChangeSet) (reference : ObjectReference) (svc err : Z)
    (ctx : option ControlCtx) (oper : option Value) (cause : AddCause) (now : Value) : Model * ChangeSet :=
  if Tracker_is_empty t then (m, cs)
  else
    match control_tracking_kind m reference (ctx_value <$> ctx) with
    | None => (m, cs)
    | Some kind =>
        track t m cs
          (mkTrackRecord (ref_ld reference) kind reference svc err None
             ((λ c, mkCtlTrack (ctx_value c) oper (OrCat_code (ctx_origin c)) (ctx_or_ident c) (ctx_ctl_num c) cause) <$> ctx)
             None) now
    end.
End tracking.

(** ** What a tracked service leaves *)

Lemma set_tracked_name cs r da v da' cs' : set_tracked cs r da v = (da', cs') → da_name da' = da_name da.
Proof. unfold set_tracked. destruct (decide _); [by intros [= <- _]|]. by destruct (value_fits da v); intros [= <- _]. Qed.

Lemma copy_tracked_name display dst src r cs dst' cs' :
  copy_tracked display dst src r cs = (dst', cs') → da_name dst' = da_name dst.
Proof.
  destruct dst as [n fc fcn k b e c children v t]. cbn [copy_tracked da_children]. destruct children as [|ch children].
  - destruct (da_value src); [apply set_tracked_name|by intros [= <- _]].
  - match goal with |- context [let '(_, _) := ?x in _] => destruct x end. by intros [= <- _].
Qed.

(** The attributes of [K] are as they were. *)
Definition keeps (K : list Z → Prop) (o o' : DataObject) : Prop :=
  do_name o' = do_name o ∧ ∀ n, K n → do_attribute o' n = do_attribute o n.

Lemma keeps_refl K o : keeps K o o.
Proof. done. Qed.

Lemma keeps_trans K o1 o2 o3 : keeps K o1 o2 → keeps K o2 o3 → keeps K o1 o3.
Proof. intros [H1 H2] [H3 H4]. split; [congruence|]. intros n Hn. by rewrite H4, H2. Qed.

(** One attribute, replaced by one of the same name. *)
Lemma keeps_put (K : list Z → Prop) p o a put a' :
  find_mut p (do_attributes o) = Some (a, put) → da_name a' = da_name a → ¬ K (da_name a) → keeps K o (set_attributes o (put a')).
Proof.
  intros Hf Hn HK. split; [done|]. intros n Hk. unfold do_attribute. cbn [set_attributes do_attributes].
  destruct (find_mut_put _ (named da_name n) _ _ a' _ Hf) as [[Hx _]|H]; [by unfold named; rewrite Hn| |done].
  apply find_find_mut in Hx as [px Hx]. apply find_mut_find in Hx as [_ Hx]. unfold named in Hx. apply bool_decide_eq_true in Hx. by subst.
Qed.

Lemma do_attribute_mut_inv o n a put :
  do_attribute_mut o n = Some (a, put) →
  ∃ put_a, find_mut (named da_name n) (do_attributes o) = Some (a, put_a) ∧ put = (λ a, set_attributes o (put_a a)) ∧ da_name a = n.
Proof.
  unfold do_attribute_mut. destruct (find_mut _ _) as [[x p]|] eqn:E; [|done]. simpl. intros [= -> <-]. exists p.
  split; [done|]. split; [done|]. apply find_mut_find in E as [_ E]. by apply bool_decide_eq_true in E.
Qed.

Lemma set_named_keeps K base name v s : ¬ K (txt name) → keeps K s.1 (set_named base name v s).1.
Proof.
  intros HK. destruct s as [o cs]. unfold set_named. destruct (do_attribute_mut o (txt name)) as [[a put]|] eqn:E; [|done].
  destruct (set_tracked _ _ _ _) as [a' cs'] eqn:Es. apply do_attribute_mut_inv in E as (pa & Hf & -> & Hn).
  apply set_tracked_name in Es. eapply keeps_put; [done|done|]. by rewrite Hn.
Qed.

(** The attribute itself. *)
Lemma set_named_sets base name v o cs a :
  do_attribute o (txt name) = Some a → da_children a = [] → value_fits a v = true →
  do_attribute (set_named base name v (o, cs)).1 (txt name) = Some (set_value a (Some v)) ∧
  (set_named base name v (o, cs)).2 = record cs (ref_child base (txt name)) (da_fc a) (da_trg_ops a) (da_value a) v.
Proof.
  intros Ha Hl Hf. unfold set_named, do_attribute in *. apply find_find_mut in Ha as [pa Hp].
  unfold do_attribute_mut. rewrite Hp. cbn [mbind option_bind]. unfold set_tracked. rewrite decide_False by naive_solver.
  rewrite Hf. split; [|done]. cbn [fst set_attributes do_attributes]. eapply find_mut_put_same; [done|].
  apply find_mut_find in Hp as [_ Hp]. exact Hp.
Qed.

Lemma set_origin_keeps K base c s : ¬ K (txt "origin") → keeps K s.1 (set_origin base c s).1.
Proof.
  intros HK. destruct s as [o cs]. unfold set_origin. destruct (do_attribute_mut o (txt "origin")) as [[a put]|] eqn:E; [|done].
  apply do_attribute_mut_inv in E as (pa & Hf & -> & Hn).
  assert (∀ l a cs, da_name (foldl (set_member (ref_child base (txt "origin"))) (a, cs) l).1 = da_name a) as Hm.
  { clear. induction l as [|p l IH]; intros a cs; [done|]. cbn [foldl].
    destruct (set_member _ (a, cs) p) as [a' cs'] eqn:E. rewrite IH. revert E. unfold set_member.
    destruct (find_mut _ _) as [[x px]|]; [|by intros [= -> _]]. destruct (set_tracked _ _ _ _). by intros [= <- _]. }
  specialize (Hm [("orCat", VInteger (swrap 8 (ct_or_cat c))); ("orIdent", VOctetString (ct_or_ident c))] a cs).
  destruct (foldl _ _ _) as [a' cs']. eapply keeps_put; [done|done|]. by rewrite Hn.
Qed.

Lemma set_oper_keeps K base oper s :
  ¬ K (txt "T") → ¬ K (txt "Test") → ¬ K (txt "Check") → keeps K s.1 (set_oper base oper s).1.
Proof.
  intros H1 H2 H3. unfold set_oper. destruct oper as [oper|]; [|done]. destruct (decide _); [|done]. cbn [foldl].
  eapply keeps_trans; [|destruct (Value_index oper 5); [by apply set_named_keeps|apply keeps_refl]].
  eapply keeps_trans; [|destruct (Value_index oper 4); [by apply set_named_keeps|apply keeps_refl]].
  destruct (Value_index oper 3); [by apply set_named_keeps|apply keeps_refl].
Qed.

(** The attributes the server sets itself. *)
Definition server_set (n : list Z) : Prop := n ∈ map txt ["objRef"; "serviceType"; "errorCode"; "t"].

Lemma set_command_keeps base c s : keeps server_set s.1 (set_command base c s).1.
Proof.
  unfold set_command.
  eapply keeps_trans; [|apply set_named_keeps; by apply (bool_decide_unpack _)].
  eapply keeps_trans; [|apply set_oper_keeps; by apply (bool_decide_unpack _)].
  eapply keeps_trans; [|apply set_named_keeps; by apply (bool_decide_unpack _)].
  eapply keeps_trans; [|apply set_origin_keeps; by apply (bool_decide_unpack _)].
  apply set_named_keeps; by apply (bool_decide_unpack _).
Qed.

Lemma find_named_same n l l' :
  Forall2 (λ a a', da_name a' = da_name a ∧ (da_name a = n → a' = a)) l l' → find (named da_name n) l' = find (named da_name n) l.
Proof.
  induction 1 as [|a a' l l' [Hn Hs] _ IH]; [done|]. unfold find in *. cbn [list_find].
  unfold named in *. destruct (decide (da_name a = n)) as [Hd|Hd].
  - rewrite (Hs Hd). by rewrite !decide_True by by apply bool_decide_eq_true.
  - rewrite !decide_False by (rewrite bool_decide_eq_true; congruence).
    destruct (list_find _ l') as [[i x]|], (list_find _ l) as [[j y]|]; simpl in *; try done.
Qed.

Lemma copy_block_keeps display base src s : keeps server_set s.1 (copy_block display base src s).1.
Proof.
  destruct s as [o cs]. unfold copy_block.
  match goal with |- context [foldl ?f _ _] => set (step := f) end.
  assert (∀ l acc cs l' cs', foldl step (acc, cs) l = (l', cs') →
    ∃ k, l' = acc ++ k ∧ Forall2 (λ a a', da_name a' = da_name a ∧ (da_name a ∈ COMMON_TRACKING → a' = a)) l k) as H.
  { induction l as [|a l IH]; intros acc cs0 l' cs'; cbn [foldl].
    { intros [= <- _]. exists []. by rewrite app_nil_r. }
    assert (∃ a' cs1, step (acc, cs0) a = (acc ++ [a'], cs1) ∧ da_name a' = da_name a ∧ (da_name a ∈ COMMON_TRACKING → a' = a))
      as (a' & cs1 & -> & Hn & Hc).
    { unfold step. destruct (decide (da_name a ∈ COMMON_TRACKING)); [by exists a, cs0|].
      destruct (attribute_fold _ _) as [sa|]; [|by exists a, cs0].
      destruct (copy_tracked _ _ _ _ _) as [a' cs1] eqn:E. exists a', cs1. split; [done|]. split; [by eapply copy_tracked_name|done]. }
    intros (k & -> & Hk)%IH. exists (a' :: k). rewrite <-app_assoc. split; [done|]. by constructor. }
  destruct (foldl step ([], cs) (do_attributes o)) as [l' cs'] eqn:E. apply H in E as (k & -> & Hk). split; [done|].
  intros n Hs. unfold do_attribute. simpl. apply find_named_same. eapply Forall2_impl; [exact Hk|].
  intros a a' [Hn Hc]. split; [done|]. intros <-. apply Hc. revert Hs. unfold server_set, COMMON_TRACKING. set_solver.
Qed.

Lemma copy_requested_keeps display base name v s : keeps server_set s.1 (copy_requested display base name v s).1.
Proof.
  destruct s as [o cs]. unfold copy_requested. destruct (find_mut _ _) as [[a put]|] eqn:E; [|done].
  destruct (decide _) as [|Hn]; [done|]. destruct (copy_tracked _ _ _ _ _) as [a' cs'] eqn:Ec.
  apply copy_tracked_name in Ec. eapply keeps_put; [done|done|].
  intros Hs. apply Hn. revert Hs. unfold server_set, COMMON_TRACKING. set_solver.
Qed.

(** An attribute that takes the value. *)
Definition takes_value (o : DataObject) (name : string) (v : Value) : Prop :=
  ∃ a, do_attribute o (txt name) = Some a ∧ da_children a = [] ∧ value_fits a v = true.

Definition has_value (o : DataObject) (name : string) (v : Value) : Prop :=
  ∃ a, do_attribute o (txt name) = Some a ∧ da_value a = Some v.

Lemma set_named_has base name v s : takes_value s.1 name v → has_value (set_named base name v s).1 name v.
Proof.
  destruct s as [o cs]. intros (a & Ha & Hl & Hf). exists (set_value a (Some v)).
  by destruct (set_named_sets base name v o cs a Ha Hl Hf).
Qed.

Lemma keeps_takes (K : list Z → Prop) o o' name v : keeps K o o' → K (txt name) → takes_value o name v → takes_value o' name v.
Proof. intros [_ H] Hk (a & Ha & ?). exists a. by rewrite H. Qed.

Lemma keeps_has (K : list Z → Prop) o o' name v : keeps K o o' → K (txt name) → has_value o name v → has_value o' name v.
Proof. intros [_ H] Hk (a & Ha & ?). exists a. by rewrite H. Qed.

Lemma keeps_weaken (K K' : list Z → Prop) o o' : (∀ n, K' n → K n) → keeps K o o' → keeps K' o o'.
Proof. intros HK [H1 H2]. split; [done|]. auto. Qed.

(** What each service sets, as a list. *)
Definition common_values (rec : TrackRecord) (now : Value) : list (string * Value) :=
  [("serviceType", VInteger (tr_svc rec)); ("errorCode", VInteger (tr_err rec)); ("t", now);
   ("objRef", VVisibleString (tr_obj_ref rec))].

Lemma track_object_pre display base rec now s :
  ∃ s', track_object display base rec now s =
    foldl (λ s p, set_named base p.1 p.2 s) s' (common_values rec now) ∧ keeps server_set s.1 s'.1.
Proof.
  eexists. split; [reflexivity|].
  eapply keeps_trans; [|destruct (tr_ctl rec); [apply set_command_keeps|apply keeps_refl]].
  eapply keeps_trans; [|destruct (tr_requested rec) as [[n v]|]; [apply copy_requested_keeps|apply keeps_refl]].
  destruct (tr_src rec); [apply copy_block_keeps|apply keeps_refl].
Qed.

(** Setting attributes of different names. *)
Lemma set_all_has base l : ∀ s,
  NoDup (map (λ p, txt p.1) l) → Forall (λ p, takes_value s.1 p.1 p.2) l →
  Forall (λ p, has_value (foldl (λ s p, set_named base p.1 p.2 s) s l).1 p.1 p.2) l ∧
  do_name (foldl (λ s p, set_named base p.1 p.2 s) s l).1 = do_name s.1.
Proof.
  induction l as [|[name v] l IH]; intros s Hn Ht; [done|]. simpl in Hn. apply NoDup_cons in Hn as [Hx Hn].
  apply Forall_cons in Ht as [Hv Ht]. cbn [foldl fst snd] in *.
  assert (keeps (λ n, n ≠ txt name) s.1 (set_named base name v s).1) as Hk by (apply set_named_keeps; naive_solver).
  assert (Forall (λ p, txt p.1 ≠ txt name) l) as Hne.
  { apply Forall_forall. intros p Hp He. apply Hx. rewrite <-He. apply list_elem_of_fmap. by exists p. }
  destruct (IH (set_named base name v s) Hn) as [IH1 IH2].
  { rewrite Forall_forall in Ht, Hne |- *. intros p Hp. eapply keeps_takes; [exact Hk|by apply Hne|by apply Ht]. }
  split; [|rewrite IH2; apply Hk]. constructor; [|done]. cbn [fst snd].
  assert (∀ l s, Forall (λ p, txt p.1 ≠ txt name) l →
    keeps (λ n, n = txt name) s.1 (foldl (λ s p, set_named base p.1 p.2 s) s l).1) as Hrest.
  { clear. induction l as [|p l IH]; intros s Hl; [apply keeps_refl|]. apply Forall_cons in Hl as [Hp Hl]. cbn [foldl].
    eapply keeps_trans; [|by apply IH]. by apply set_named_keeps. }
  eapply keeps_has; [by apply Hrest|done|]. by apply set_named_has.
Qed.

Lemma raised_update t old v r : Z.testbit t 3 = true → Z.testbit (Z.lor r (raised t old v)) 3 = true.
Proof.
  intros Ht. rewrite Z.lor_spec, orb_true_iff. right. unfold raised.
  assert (Z.testbit (Z.land t (trg DATA_UPDATE)) 3 = true) as H by by rewrite Z.land_spec, Ht.
  destruct (match old with Some old => Value_eq old v | None => false end); [done|]. by rewrite Z.lor_spec, H.
Qed.

(** Every service raises the data-update of [objRef]. *)
Lemma track_object_raises display base rec now s a :
  do_attribute s.1 (txt "objRef") = Some a → da_children a = [] → value_fits a (VVisibleString (tr_obj_ref rec)) = true →
  Z.testbit (da_trg_ops a) 3 = true →
  ∃ r, (track_object display base rec now s).2 !! (ref_child base (txt "objRef"), da_fc a) = Some r ∧ Z.testbit r 3 = true.
Proof.
  intros Ha Hl Hf Ht. destruct (track_object_pre display base rec now s) as (s' & -> & Hk). cbn [foldl common_values fst snd].
  match goal with |- context [set_named base "objRef" _ ?x] => set (s3 := x) end.
  assert (keeps (λ n, n = txt "objRef") s'.1 s3.1) as Hk3.
  { subst s3. do 2 (eapply keeps_trans; [|by apply set_named_keeps]). by apply set_named_keeps. }
  destruct s3 as [o3 cs3]. cbn [fst] in Hk3.
  assert (do_attribute o3 (txt "objRef") = Some a) as Ha3.
  { destruct Hk3 as [_ ->]; [|done]. destruct Hk as [_ ->]; [done|]. unfold server_set. set_solver. }
  destruct (set_named_sets base "objRef" (VVisibleString (tr_obj_ref rec)) o3 cs3 a Ha3 Hl Hf) as [_ ->].
  eexists. unfold record. rewrite lookup_insert_eq. split; [done|]. by apply raised_update.
Qed.

(** *** In the model *)

Definition object_at (m : Model) (dom n d : list Z) : option DataObject :=
  ld ← device m dom; ln ← node ld n; object ln d.

Lemma tracking_object_at m o d :
  object_at m (tk_ld o) (tk_ln o) (tk_object o) = Some d →
  ∃ put, tracking_object m o = Some (d, put) ∧
    ∀ d', do_name d' = do_name d →
      object_at (put d') (tk_ld o) (tk_ln o) (tk_object o) = Some d' ∧
      ∀ dom n x, (dom, n, x) ≠ (tk_ld o, tk_ln o, tk_object o) → object_at (put d') dom n x = object_at m dom n x.
Proof.
  unfold object_at, tracking_object, device, node, object, device_mut, node_mut, object_mut. intros H.
  destruct (find (named ld_name _) _) as [ld|] eqn:Hd; [|done]. cbn [mbind option_bind] in H.
  destruct (find (named ln_name _) _) as [ln|] eqn:Hn; [|done]. cbn [mbind option_bind] in H. rename H into Ho.
  apply find_find_mut in Hd as [pld Hd], Hn as [pln Hn], Ho as [po Ho].
  rewrite Hd. cbn [mbind option_bind]. rewrite Hn. cbn [mbind option_bind]. rewrite Ho. cbn [mbind option_bind].
  eexists. split; [done|]. intros d' Hd'. cbv beta.
  destruct (named_put _ _ _ _ _ d' Ho Hd') as [Ho1 Ho2].
  destruct (named_put _ _ _ _ _ (set_ln_objects ln (po d')) Hn eq_refl) as [Hn1 Hn2].
  destruct (named_put _ _ _ _ _ (set_nodes ld (pln (set_ln_objects ln (po d')))) Hd eq_refl) as [Hd1 Hd2].
  cbn [set_devices model_devices]. split; [by rewrite Hd1; simpl; rewrite Hn1; simpl|].
  apply find_mut_find in Hd as [Hd _], Hn as [Hn _], Ho as [Ho _].
  intros dom n x Hne. destruct (decide (dom = tk_ld o)) as [->|?]; [|by rewrite Hd2]. rewrite Hd1, Hd. simpl.
  destruct (decide (n = tk_ln o)) as [->|?]; [|by rewrite Hn2]. rewrite Hn1, Hn. simpl. apply Ho2. congruence.
Qed.

Lemma track_recorded display t m cs rec now o d :
  Tracker_lookup t (tr_ld rec) (tr_kind rec) = Some o →
  object_at m (tk_ld o) (tk_ln o) (tk_object o) = Some d →
  Forall (λ p, takes_value d p.1 p.2) (common_values rec now) →
  ∃ m' cs' d', track display t m cs rec now = (m', cs') ∧
    object_at m' (tk_ld o) (tk_ln o) (tk_object o) = Some d' ∧
    Forall (λ p, has_value d' p.1 p.2) (common_values rec now) ∧
    (∀ dom n x, (dom, n, x) ≠ (tk_ld o, tk_ln o, tk_object o) → object_at m' dom n x = object_at m dom n x) ∧
    (∀ a, do_attribute d (txt "objRef") = Some a → Z.testbit (da_trg_ops a) 3 = true →
       ∃ r, cs' !! (ref_child (TrkObj_reference o) (txt "objRef"), da_fc a) = Some r ∧ Z.testbit r 3 = true).
Proof.
  intros Hl Hd Ht. destruct (tracking_object_at m o d Hd) as (put & Hput & Hframe). unfold track. rewrite Hl, Hput.
  destruct (track_object_pre display (TrkObj_reference o) rec now (d, cs)) as (s' & Heq & Hk).
  pose proof (track_object_raises display (TrkObj_reference o) rec now (d, cs)) as Hr.
  destruct (set_all_has (TrkObj_reference o) (common_values rec now) s') as [Hv Hn].
  { by apply (bool_decide_unpack _). }
  { assert (Forall (λ p, server_set (txt p.1)) (common_values rec now)) as Hs.
    { unfold common_values, server_set. repeat constructor; set_solver. }
    rewrite Forall_forall in Ht, Hs |- *. intros p Hp. eapply keeps_takes; [exact Hk|by apply Hs|by apply Ht]. }
  rewrite <-Heq in Hv, Hn. destruct (track_object _ _ _ _ _) as [d' cs'] eqn:E. cbn [fst snd] in *.
  exists (put d'), cs', d'. destruct (Hframe d') as [Hf1 Hf2]; [rewrite Hn; apply Hk|].
  split_and!; [done|done|done|done|]. intros a Ha Htb. apply Forall_forall with (x := ("objRef", VVisibleString (tr_obj_ref rec))) in Ht; [|unfold common_values; set_solver].
  destruct Ht as (a0 & Ha0 & Hc & Hf). cbn [fst snd] in *. rewrite Ha in Ha0. injection Ha0 as <-. by apply Hr.
Qed.

(** *** The objects of a tracker *)

(** A kind a device has an object of is one the server has an object of. *)
Definition tracker_wf (t : Tracker) : Prop :=
  ∀ ld kind o, tk_by_ld t !! ld ≫= (!!) kind = Some o → is_Some (tk_first t !! kind).

Lemma or_insert_Some {V} k (v : V) m k' x :
  or_insert k v m !! k' = Some x → m !! k' = Some x ∨ (k' = k ∧ x = v).
Proof.
  unfold or_insert. destruct (m !! k) eqn:E; [by left|]. destruct (decide (k' = k)) as [->|?].
  - rewrite lookup_insert_eq. naive_solver.
  - rewrite lookup_insert_ne by done. by left.
Qed.

Lemma or_insert_is_Some {V} k (v : V) m k' : is_Some (m !! k') ∨ k' = k → is_Some (or_insert k v m !! k').
Proof.
  unfold or_insert. destruct (m !! k) eqn:E; [naive_solver|]. destruct (decide (k' = k)) as [->|?].
  - intros _. rewrite lookup_insert_eq. by eexists.
  - rewrite lookup_insert_ne by done. naive_solver.
Qed.

Lemma add_tracking_wf ld ln t o : tracker_wf t → tracker_wf (add_tracking ld ln t o).
Proof.
  intros Ht. unfold add_tracking. destruct (decide _); [|done]. intros d k x. cbn [tk_by_ld tk_first]. intros H.
  apply or_insert_is_Some. destruct (decide (d = ld_name ld)) as [->|Hd].
  - rewrite lookup_insert_eq in H. cbn [mbind option_bind] in H. apply or_insert_Some in H as [H|[-> _]]; [|by right].
    left. eapply (Ht (ld_name ld) k x). by destruct (tk_by_ld t !! ld_name ld).
  - rewrite lookup_insert_ne in H by done. left. by eapply Ht.
Qed.

Lemma foldl_inv {A B} (P : A → Prop) (f : A → B → A) l a : P a → (∀ a b, P a → P (f a b)) → P (foldl f a l).
Proof. intros Ha Hf. revert a Ha. induction l as [|b l IH]; intros a Ha; [done|]. simpl. auto. Qed.

Lemma Tracker_build_wf m : tracker_wf (Tracker_build m).
Proof.
  unfold Tracker_build. apply foldl_inv; [done|]. intros t ld Ht. apply foldl_inv; [done|]. intros t' ln Ht'.
  destruct (is_ltrk ln); [|done]. apply foldl_inv; [done|]. intros t'' o. apply add_tracking_wf.
Qed.

Lemma lookup_not_empty t ld kind o : tracker_wf t → Tracker_lookup t ld kind = Some o → Tracker_is_empty t = false.
Proof.
  intros Ht H. apply bool_decide_eq_false_2. intros He. unfold Tracker_lookup in H.
  destruct (tk_by_ld t !! ld ≫= (!!) kind) as [x|] eqn:E; [apply Ht in E as [y Hy]|]; rewrite He in *; by rewrite lookup_empty in *.
Qed.


(** ** At concrete inputs *)

Definition an_attr (name : string) (fc : Fc) (v : Value) (t : Z) : DataAttribute :=
  mkDA (txt name) fc [] None [] [] 0 [] (Some v) t.

Definition tracked_model : Model :=
  mkModel (txt "IED")
    [mkLD (txt "LD0") (txt "LD0")
       [mkLN (txt "LLN0") (txt "LLN0") [mkDO (txt "brcb1") [] [] [an_attr "RptID" Br (VVisibleString (txt "r")) 0]] [] [];
        mkLN (txt "LTRK1") (txt "LTRK")
          [mkDO (txt "BrcbTrk") [] []
             [an_attr "objRef" Sr (VVisibleString []) (trg DATA_UPDATE); an_attr "serviceType" Sr (VInteger 0) 0;
              an_attr "errorCode" Sr (VInteger 0) 0; an_attr "t" Sr (VUtcTime [0; 0; 0; 0; 0; 0; 0; 0]) 0]] [] []]].

Definition refused_write : Model * ChangeSet :=
  track_cb_write (λ _, []) (Tracker_build tracked_model) tracked_model ∅ (txt "LD0") (txt "LLN0$BR$brcb1$RptEna")
    (VBoolean true) (inr TemporarilyUnavailable) (VUtcTime [0; 0; 0; 5; 0; 0; 0; 0]).

