(* ===== verification/DataSets.v ===== *)
(** The data set services of a server (src/src/server/handler.rs): the attributes of a
    named variable list, its definition and its deletion, against the client's calls of
    src/src/mms/services.rs. *)

From stdpp Require Import gmap.
From S2P Require Import Prelude Ber BerDecoder BerPrim BerFields TimeUtil Utf8 Text Errors MmsValue MmsCodec TypeSpec.
From S2P Require Import ObjRef Quality BTree Nodes Blocks Access Tx Handler Selections InfoReport Services Wire NameList.
From S2P Require Import Rcb ControlBlocks ReportPdu ReadService Journal.
Local Open Scope list_scope.
Local Open Scope Z_scope.

(** ** The services *)

Definition lookup_dataset (m : Model) (domain list_ : list Z) : option DataSet :=
  '(ln_name, ds_name) ← split_once DOLLAR list_; ld ← device m domain; ln ← node ld ln_name; data_set ln ds_name.

Definition domain_specific_name (domain item : list Z) : Element :=
  cons_elem (context_constructed 1) [prim TAG_VISIBLE_STRING domain; prim TAG_VISIBLE_STRING item].

Definition get_nvl_attrs (m : Model) (content : list Z) : outcome MmsError Element :=
  '(domain, list_) ← server_object_name content;
  match lookup_dataset m domain list_ with
  | None => Err (MmsAccess ObjectNonExistent)
  | Some ds =>
      let var_list :=
        cons_elem (context_constructed 1)
          (map (λ mb, cons_elem TAG_SEQUENCE [cons_elem (context_constructed 0) [domain_specific_name (ds_domain mb) (ds_item mb)]])
             (dataset_members m domain list_)) in
      Ok (cons_elem (context_constructed SVC_GET_NAMED_VAR_LIST_ATTR)
            [bool_elem (context_primitive 0) (ds_deletable ds); var_list])
  end.

(** One member of a list to define. *)
Definition define_entry (entry : list Z) : outcome MmsError Fcda :=
  '(spec, _) ← d_expect (Decoder_new entry) (context_constructed 0);
  '(md, mi) ← server_object_name spec;
  let '(reference, fc) := from_mms md mi in
  Ok (mkFcda reference fc []).

Definition define_args (content : list Z) : outcome MmsError (list Z * list Z * list Z * list Fcda) :=
  '((domain, list_), dec) ← parse_object_name_elem (Decoder_new content);
  match split_once DOLLAR list_ with
  | None => Err (MmsAccess ObjectValueInvalid)
  | Some (ln_name, ds_name) =>
      '(c, dec) ← d_optional dec (context_constructed 0);
      list_content ← match c with Some c => Ok c | None => '(c, _) ← d_expect dec (context_constructed 1); Ok c end;
      entries ← every (expecting TAG_SEQUENCE define_entry) list_content;
      Ok (domain, ln_name, ds_name, entries)
  end.

(** [model.device_mut(domain).and_then(|ld| ld.node_mut(ln))]. *)
Definition node_at_mut (m : Model) (domain ln : list Z) : option (LogicalNode * (LogicalNode → Model)) :=
  '(ld, put_ld) ← device_mut m domain; '(n, put_ln) ← node_mut ld ln; Some (n, λ n, put_ld (put_ln n)).

Definition define_nvl (m : Model) (content : list Z) : outcome MmsError Element * Model :=
  match define_args content with
  | Ok (domain, ln_name, ds_name, entries) =>
      match node_at_mut m domain ln_name with
      | None => (Err (MmsAccess ObjectNonExistent), m)
      | Some (ln, put) =>
          match data_set ln ds_name with
          | Some _ => (Err (MmsAccess ObjectValueInvalid), m)
          | None =>
              (Ok (prim (context_primitive SVC_DEFINE_NAMED_VAR_LIST) []),
               put (set_data_sets ln (ln_data_sets ln ++ [mkDataSet ds_name entries true])))
          end
      end
  | Err e => (Err e, m)
  | Panic => (Panic, m)
  | NoFuel => (NoFuel, m)
  end.

Section in_use.
(** [Display]; the report control blocks; the logs. *)
Context (display : Value → list Z) (rcbs : list RcbState) (logs : LogState).

Definition reports_use_data_set (m : Model) (reference : list Z) : bool :=
  existsb (λ rs, bool_decide (attr_text display m rs "DatSet" = reference)) rcbs.

Definition data_set_in_use (m : Model) (domain ln ds : list Z) : bool :=
  let reference := domain ++ SLASH :: ln ++ DOLLAR :: ds in
  reports_use_data_set m reference || logs_use_data_set display logs m reference ||
  match (ld ← device m domain; node ld ln) with
  | Some n =>
      existsb (λ g, bool_decide (gc_data_set g = ds)) (ln_gse_controls n) ||
      existsb (λ s, bool_decide (svc_data_set s = ds)) (ln_sv_controls n)
  | None => false
  end.

Definition delete_dataset (m : Model) (domain list_ : list Z) : bool * Model :=
  match split_once DOLLAR list_ with
  | None => (false, m)
  | Some (ln_name, ds_name) =>
      match lookup_dataset m domain list_ with
      | Some ds =>
          if ds_deletable ds then
            if data_set_in_use m domain ln_name ds_name then (false, m)
            else
              match node_at_mut m domain ln_name with
              | None => (false, m)
              | Some (ln, put) => (true, put (set_data_sets ln (filter (λ d, Nodes.ds_name d ≠ ds_name) (ln_data_sets ln))))
              end
          else (false, m)
      | None => (false, m)
      end
  end.

(** The names to delete; a name that cannot be read ends the list. *)
Fixpoint delete_loop (fuel : nat) (nd : Decoder) (m : Model) (matched deleted : Z) : outcome MmsError (Model * Z * Z) :=
  match fuel with
  | O => NoFuel
  | S fuel =>
      if more nd then
        r ← ok (parse_object_name_elem nd);
        match r with
        | None => Ok (m, matched, deleted)
        | Some ((domain, list_), nd) =>
            let '(gone, m) := delete_dataset m domain list_ in
            delete_loop fuel nd m (matched + 1) (if (gone : bool) then deleted + 1 else deleted)
        end
      else Ok (m, matched, deleted)
  end.

Definition delete_args (content : list Z) : outcome MmsError (option (list Z)) :=
  '(_, dec) ← d_optional (Decoder_new content) (context_primitive 0);
  '(l, _) ← d_optional dec (context_constructed 1);
  Ok l.

Definition delete_nvl (m : Model) (content : list Z) : outcome MmsError Element * Model :=
  let done :=
    l ← delete_args content;
    match l with
    | Some list_content => delete_loop (S (length list_content)) (Decoder_new list_content) m 0 0
    | None => Ok (m, 0, 0)
    end in
  match done with
  | Ok (m, matched, deleted) =>
      (Ok (cons_elem (context_constructed SVC_DELETE_NAMED_VAR_LIST)
             [uint_elem (context_primitive 0) matched; uint_elem (context_primitive 1) deleted]), m)
  | Err e => (Err e, m)
  | Panic => (Panic, m)
  | NoFuel => (NoFuel, m)
  end.
End in_use.

(** ** Members *)

(** A member name the model's references can carry. *)
Definition member_ok (r : VarRef) : Prop :=
  utf8 (vr_domain r) = true ∧ utf8 (vr_item r) = true ∧ SLASH ∉ vr_domain r ∧ DOT ∉ vr_item r ∧
  match split DOLLAR (vr_item r) with
  | _ :: p1 :: _ => parse_fc p1 = None ∨ ∃ fc, fc ∈ ALL_VALUES ∧ p1 = Fc_as_str fc
  | _ => True
  end.

Definition member_fcda (r : VarRef) : Fcda :=
  let '(reference, fc) := from_mms (vr_domain r) (vr_item r) in mkFcda reference fc [].

Lemma split_no c d s : d ∉ s → Forall (λ w, d ∉ w) (split c s).
Proof.
  intros H. apply Forall_forall. intros w Hw Hd. apply H. rewrite <-(join_split c s).
  clear H. induction (split c s) as [|x l IH]; [set_solver|]. destruct l as [|y l].
  - apply list_elem_of_singleton in Hw. by subst.
  - change (join [c] (x :: y :: l)) with (x ++ [c] ++ join [c] (y :: l)). set_solver.
Qed.

Lemma member_roundtrip r : member_ok r → to_mms (fcda_reference (member_fcda r)) (fcda_fc (member_fcda r)) = (vr_domain r, vr_item r).
Proof.
  intros (_ & _ & Hd & Hi & Hfc). pose proof (split_no DOLLAR DOT (vr_item r) Hi) as Hdots.
  pose proof (join_split DOLLAR (vr_item r)) as Hj. unfold member_fcda, from_mms.
  destruct (split DOLLAR (vr_item r)) as [|p0 [|p1 ps]] eqn:E.
  - by apply split_not_nil in E.
  - cbn [fcda_reference fcda_fc]. change (vr_domain r ++ SLASH :: join [DOT] [p0]) with (mk_ref (vr_domain r) [p0]).
    rewrite to_mms_item by done. rewrite decide_False by naive_solver. by rewrite Hj.
  - destruct Hfc as [Hn|(fc & Hin & ->)].
    + rewrite Hn. cbn [fcda_reference fcda_fc].
      change (vr_domain r ++ SLASH :: join [DOT] (p0 :: p1 :: ps)) with (mk_ref (vr_domain r) (p0 :: p1 :: ps)).
      rewrite to_mms_item by done. rewrite decide_False by naive_solver. by rewrite Hj.
    + rewrite parse_fc_as_str by done. cbn [fcda_reference fcda_fc].
      change (vr_domain r ++ SLASH :: join [DOT] (p0 :: ps)) with (mk_ref (vr_domain r) (p0 :: ps)).
      rewrite to_mms_item; [|done|by inversion Hdots as [|? ? ? H]; inversion H; constructor].
      rewrite decide_True by (split; intros ->; revert Hin; compute_done). by rewrite Hj.
Qed.

(** ** Requests and responses *)

Definition define_fields (domain list_ : list Z) (members : list VarRef) : list (Tag * list Z) :=
  [name_field domain list_; (context_constructed 0, entries_octets (map as_pair members))].

Lemma define_writes domain list_ members :
  writes (define_named_variable_list_request domain list_ members)
    (context_constructed SVC_DEFINE_NAMED_VAR_LIST, children_octets (define_fields domain list_ members)).
Proof.
  unfold define_named_variable_list_request, define_fields. apply writes_cons; [done..|].
  constructor; [apply object_name_writes|]. constructor; [|constructor]. apply writes_cons; [done..|].
  pose proof (entries_writes (map as_pair members)) as H. rewrite map_map in H. exact H.
Qed.

Lemma define_entry_read r :
  utf8 (vr_domain r) = true → utf8 (vr_item r) = true → zlen (entry_octets (vr_domain r) (vr_item r)) < 2 ^ 32 →
  define_entry (entry_octets (vr_domain r) (vr_item r)) = Ok (member_fcda r).
Proof.
  intros Hd Hi Hl. unfold define_entry, entry_octets in *. fields_in Hl. rewrite dec_at_nil. fields.
  pose proof (name_field_smaller (vr_domain r) (vr_item r)). rewrite server_name_read by (done || lia). rewrite bind_Ok.
  unfold member_fcda. by destruct (from_mms _ _).
Qed.

Lemma define_args_read domain ln ds members :
  utf8 domain = true → utf8 (ln ++ DOLLAR :: ds) = true → DOLLAR ∉ ln → Forall member_ok members →
  zlen (children_octets (define_fields domain (ln ++ DOLLAR :: ds) members)) < 2 ^ 31 →
  define_args (children_octets (define_fields domain (ln ++ DOLLAR :: ds) members)) =
    Ok (domain, ln, ds, map member_fcda members).
Proof.
  intros Hd Hl Hn Hm Hs. unfold define_args, define_fields in *.
  pose proof (fields_fit _ _ (Z.lt_le_incl _ _ Hs)) as Hf. rewrite !Forall_cons in Hf. destruct Hf as (Hf0 & Hf1 & _). cbn [snd] in Hf1.
  rewrite dec_at_nil. rewrite name_elem_read by (done || lia). rewrite bind_Ok. cbv beta iota.
  rewrite split_once_app by done. fields.
  unfold entries_octets in *. rewrite map_map in *. cbn [as_pair fst snd] in *.
  assert (map (λ r : VarRef, (TAG_SEQUENCE, entry_octets (vr_domain r) (vr_item r))) members =
    map (pair TAG_SEQUENCE) (map (λ r, entry_octets (vr_domain r) (vr_item r)) members)) as E by by rewrite map_map.
  rewrite E in *. rewrite (every_expecting _ _ _ (map member_fcda members)); [done|done| |].
  - apply Forall_forall. intros c Hc. assert (zlen c < zlen (children_octets (map (pair TAG_SEQUENCE) (map (λ r, entry_octets (vr_domain r) (vr_item r)) members)))); [|lia].
    apply (field_smaller TAG_SEQUENCE). apply list_elem_of_fmap. by exists c.
  - assert (Forall (λ r, zlen (entry_octets (vr_domain r) (vr_item r)) < 2 ^ 32) members) as Hz.
    { apply Forall_forall. intros r Hr.
      assert (zlen (entry_octets (vr_domain r) (vr_item r)) < zlen (children_octets (map (pair TAG_SEQUENCE) (map (λ r, entry_octets (vr_domain r) (vr_item r)) members)))); [|lia].
      apply (field_smaller TAG_SEQUENCE). apply list_elem_of_fmap. eexists. split; [done|]. apply list_elem_of_fmap. by exists r. }
    clear E Hs Hf1. induction Hm as [|r members (Hrd & Hri & _) _ IH]; simpl; [constructor|].
    apply Forall_cons in Hz as [Hz Hzs]. constructor; [by apply define_entry_read|by apply IH].
Qed.

(** The response with the members. *)
Definition member_octets (r : VarRef) : list Z :=
  children_octets [(context_constructed 0,
    children_octets [(context_constructed 1, children_octets [(TAG_VISIBLE_STRING, vr_domain r); (TAG_VISIBLE_STRING, vr_item r)])])].

Definition member_entry (r : VarRef) : Element :=
  cons_elem TAG_SEQUENCE [cons_elem (context_constructed 0) [domain_specific_name (vr_domain r) (vr_item r)]].

Definition attrs_response (deletable : bool) (members : list VarRef) : Element :=
  cons_elem (context_constructed SVC_GET_NAMED_VAR_LIST_ATTR)
    [bool_elem (context_primitive 0) deletable; cons_elem (context_constructed 1) (map member_entry members)].

Definition attrs_fields (deletable : bool) (members : list VarRef) : list (Tag * list Z) :=
  [(context_primitive 0, if deletable then [0xff] else [0x00]);
   (context_constructed 1, children_octets (map (pair TAG_SEQUENCE) (map member_octets members)))].

Lemma member_entry_writes r : writes (member_entry r) (TAG_SEQUENCE, member_octets r).
Proof. unfold member_entry, member_octets, domain_specific_name. writes. Qed.

Lemma attrs_writes deletable members :
  writes (attrs_response deletable members)
    (context_constructed SVC_GET_NAMED_VAR_LIST_ATTR, children_octets (attrs_fields deletable members)).
Proof.
  apply writes_cons; [done..|]. constructor; [unfold bool_elem; writes|]. constructor; [|constructor]. apply writes_cons; [done..|].
  induction members as [|r members IH]; simpl; constructor; [apply member_entry_writes|done].
Qed.

Lemma member_entry_read r :
  utf8 (vr_domain r) = true → utf8 (vr_item r) = true → zlen (member_octets r) < 2 ^ 31 →
  ('(spec_content, _) ← d_expect (Decoder_new (member_octets r)) (context_constructed 0); parse_object_name spec_content) = Ok r.
Proof.
  intros Hd Hi Hl. unfold member_octets in *. fields_in Hl. rewrite dec_at_nil. fields.
  match goal with H : zlen (children_octets [(context_constructed 1, _)]) < _ |- _ => fields_in H end.
  match goal with H : zlen (children_octets [(TAG_VISIBLE_STRING, _); _]) < _ |- _ => fields_in H end.
  unfold parse_object_name. rewrite dec_at_nil, read_field by field_ok. rewrite map_err_Ok, bind_Ok. cbv beta iota.
  rewrite decide_False by done. rewrite decide_True by done. rewrite dec_at_nil.
  do 2 (rewrite expect_field by field_ok; rewrite map_err_Ok, bind_Ok; cbv beta iota).
  rewrite !from_utf8_lossy_valid by done. by destruct r.
Qed.

Lemma attrs_read deletable members :
  Forall (λ r, utf8 (vr_domain r) = true ∧ utf8 (vr_item r) = true) members →
  zlen (children_octets (attrs_fields deletable members)) < 2 ^ 31 →
  list_attributes_response (Element_encode (attrs_response deletable members)) = Ok members.
Proof.
  intros Hu Hl. unfold list_attributes_response. rewrite (d_expect_element _ _ _ (attrs_writes deletable members)) by field_ok.
  rewrite bind_Ok. cbv beta iota. unfold attrs_fields in *. fields_in Hl. rewrite dec_at_nil.
  assert (zlen (if deletable then [0xff] else [0x00]) = 1) by by destruct deletable. fields.
  assert (Forall (λ c, zlen c < 2 ^ 31) (map member_octets members)) as Hz.
  { apply Forall_forall. intros c Hc. assert (zlen c < zlen (children_octets (map (pair TAG_SEQUENCE) (map member_octets members)))); [|lia].
    apply (field_smaller TAG_SEQUENCE). apply list_elem_of_fmap. by exists c. }
  apply every_expecting; [done|eapply Forall_impl; [done|]; simpl; lia|].
  clear -Hu Hz. induction Hu as [|r members [Hd Hi] _ IH]; simpl in *; constructor; apply Forall_cons in Hz as [Hz Hzs].
  - by apply member_entry_read.
  - by apply IH.
Qed.

(** What the server answers about a set made of these members. *)
Lemma get_nvl_attrs_of m domain ln ds members :
  utf8 domain = true → utf8 (ln ++ DOLLAR :: ds) = true → DOLLAR ∉ ln →
  zlen (name_field domain (ln ++ DOLLAR :: ds)).2 < 2 ^ 32 →
  lookup_dataset m domain (ln ++ DOLLAR :: ds) = Some (mkDataSet ds (map member_fcda members) true) → Forall member_ok members →
  get_nvl_attrs m (children_octets [name_field domain (ln ++ DOLLAR :: ds)]) = Ok (attrs_response true members).
Proof.
  intros Hd Hu Hn Hl Hlook Hm. unfold get_nvl_attrs. rewrite server_name_read, bind_Ok by done. cbv beta iota. rewrite Hlook. cbn [ds_deletable].
  assert (dataset_members m domain (ln ++ DOLLAR :: ds) = map (λ r, mkMember (vr_domain r) (vr_item r)) members) as ->.
  { revert Hlook. unfold lookup_dataset, dataset_members. rewrite split_once_app by done. cbn [mbind option_bind].
    destruct (device m domain) as [ld|]; [|done]. cbn [mbind option_bind].
    destruct (node ld ln) as [n|]; [|done]. cbn [mbind option_bind]. intros ->. cbn [ds_entries]. rewrite map_map.
    clear -Hm. induction Hm as [|r members Hr _ IH]; [done|]. simpl. rewrite IH. by rewrite (member_roundtrip r Hr). }
  unfold attrs_response. by rewrite map_map.
Qed.

(** ** In the model *)

Definition node_at (m : Model) (domain ln : list Z) : option LogicalNode := ld ← device m domain; node ld ln.

Lemma lookup_dataset_at m domain ln ds :
  DOLLAR ∉ ln → lookup_dataset m domain (ln ++ DOLLAR :: ds) = (n ← node_at m domain ln; data_set n ds).
Proof. intros H. unfold lookup_dataset, node_at. rewrite split_once_app by done. simpl. by destruct (device m domain). Qed.

Lemma node_at_put m domain ln n :
  node_at m domain ln = Some n →
  ∃ put, node_at_mut m domain ln = Some (n, put) ∧
    ∀ n', ln_name n' = ln_name n →
      node_at (put n') domain ln = Some n' ∧
      ∀ d l, (d, l) ≠ (domain, ln) → node_at (put n') d l = node_at m d l.
Proof.
  unfold node_at, node_at_mut, device, node, device_mut, node_mut. intros H.
  destruct (find (named ld_name _) _) as [ld|] eqn:Hd; [|done]. cbn [mbind option_bind] in H. rename H into Hn.
  apply find_find_mut in Hd as [pld Hd], Hn as [pln Hn].
  rewrite Hd. cbn [mbind option_bind]. rewrite Hn. cbn [mbind option_bind].
  eexists. split; [done|]. intros n' Hn'. cbv beta.
  destruct (named_put _ _ _ _ _ n' Hn Hn') as [Hn1 Hn2].
  destruct (named_put _ _ _ _ _ (set_nodes ld (pln n')) Hd eq_refl) as [Hd1 Hd2].
  cbn [set_devices model_devices]. split; [by rewrite Hd1; simpl; rewrite Hn1|].
  apply find_mut_find in Hd as [Hd _], Hn as [Hn _].
  intros d l Hne. destruct (decide (d = domain)) as [->|?]; [|by rewrite Hd2]. rewrite Hd1, Hd. simpl. apply Hn2. congruence.
Qed.

Lemma find_app_end {A} (p : A → bool) l x : find p l = None → p x = true → find p (l ++ [x]) = Some x.
Proof.
  unfold find. intros Hl Hx. destruct (list_find (λ a, p a = true) l) eqn:E; [done|].
  rewrite list_find_app_r by done. simpl. by rewrite decide_True.
Qed.

(** ** Defined, and read back *)

(** A name of a data set. *)
Definition set_name_ok (domain ln ds : list Z) : Prop :=
  utf8 domain = true ∧ utf8 (ln ++ DOLLAR :: ds) = true ∧ DOLLAR ∉ ln ∧ zlen domain < 2 ^ 28 ∧ zlen (ln ++ DOLLAR :: ds) < 2 ^ 28.

Lemma name_octets_size domain item : zlen domain < 2 ^ 28 → zlen item < 2 ^ 28 → zlen (children_octets [name_field domain item]) < 2 ^ 30.
Proof. intros Hd Hi. pose proof (name_field_size domain item). lia. Qed.

Lemma small_deliverable max_pdu resp t c :
  writes resp (t, c) → tag_sized t → Element_size resp < 2 ^ 30 → (max_pdu > 0 → Element_size resp + 13 ≤ max_pdu) →
  deliverable max_pdu resp.
Proof.
  intros Hw Ht Hs Hm. pose proof (writes_size _ _ _ Hw). split.
  - exists t, c. split; [done|]. split; [done|lia].
  - intros Hp id Hid. destruct Hw as [Htag _]. destruct (response_size id _ Hid Htag) as [Hb _]. specialize (Hm Hp). lia.
Qed.

Section served.
Context {W : Type} (max_pdu : Z) (handle : ServiceHandler W) (call : Element → Call W (list Z)) (HS : Serves max_pdu handle call).
(** Where the server keeps its model. *)
Context (model : W → Model) (put_model : W → Model → W) (Hput : ∀ w m, model (put_model w m) = m).
Context (domain ln ds : list Z) (Hname : set_name_ok domain ln ds).

Lemma attributes_served members w :
  (∀ content, handle SVC_GET_NAMED_VAR_LIST_ATTR content w = (get_nvl_attrs (model w) content, w)) →
  lookup_dataset (model w) domain (ln ++ DOLLAR :: ds) = Some (mkDataSet ds (map member_fcda members) true) → Forall member_ok members →
  Element_size (attrs_response true members) < 2 ^ 30 → (max_pdu > 0 → Element_size (attrs_response true members) + 13 ≤ max_pdu) →
  get_named_variable_list_attributes call domain (ln ++ DOLLAR :: ds) w = (Ok members, w).
Proof using HS Hname.
  intros Hh Hl Hm Hs Hp. destruct Hname as (Hd & Hu & Hn & Hzd & Hzi). unfold get_named_variable_list_attributes.
  pose proof (name_octets_size domain (ln ++ DOLLAR :: ds) Hzd Hzi) as Hz. pose proof (name_field_smaller domain (ln ++ DOLLAR :: ds)).
  erewrite Call_bind_Ok. 2:{ eapply serves_response with (t := context_constructed SVC_GET_NAMED_VAR_LIST_ATTR).
    - split; [apply writes_cons; [done..|]; constructor; [apply object_name_writes|constructor]|]. split; [done|lia].
    - cbn [tag_number]. rewrite Hh. by rewrite (get_nvl_attrs_of _ _ _ _ members) by (done || lia).
    - by eapply small_deliverable; [apply attrs_writes|..]. }
  pose proof (writes_size _ _ _ (attrs_writes true members)). unfold lift. rewrite attrs_read; [done| |lia].
  eapply Forall_impl; [exact Hm|]. by intros r (? & ? & _).
Qed.

Lemma define_served members w n :
  (∀ content, handle SVC_DEFINE_NAMED_VAR_LIST content w =
     let '(r, m) := define_nvl (model w) content in (r, put_model w m)) →
  node_at (model w) domain ln = Some n → data_set n ds = None → Forall member_ok members →
  zlen (children_octets (define_fields domain (ln ++ DOLLAR :: ds) members)) < 2 ^ 31 → (max_pdu > 0 → 32 ≤ max_pdu) →
  ∃ m', define_named_variable_list call domain (ln ++ DOLLAR :: ds) members w = (Ok (), put_model w m') ∧
    node_at m' domain ln = Some (set_data_sets n (ln_data_sets n ++ [mkDataSet ds (map member_fcda members) true])) ∧
    ∀ d l, (d, l) ≠ (domain, ln) → node_at m' d l = node_at (model w) d l.
Proof using HS Hname.
  intros Hh Hat Hno Hm Hs Hp. destruct Hname as (Hd & Hu & Hn & Hzd & Hzi).
  destruct (node_at_put _ _ _ _ Hat) as (put & Hmut & Hput').
  set (n' := set_data_sets n (ln_data_sets n ++ [mkDataSet ds (map member_fcda members) true])).
  exists (put n'). split; [|by apply Hput']. unfold define_named_variable_list.
  assert (writes (prim (context_primitive SVC_DEFINE_NAMED_VAR_LIST) []) (context_primitive SVC_DEFINE_NAMED_VAR_LIST, [])) as Hw
    by by apply writes_prim.
  erewrite Call_bind_Ok. 2:{ eapply serves_response; [split; [apply define_writes|by split]| |].
    - cbn [tag_number]. rewrite Hh. unfold define_nvl. rewrite (define_args_read domain ln ds members) by done.
      rewrite Hmut, Hno. reflexivity.
    - eapply small_deliverable; [exact Hw|done|by vm_compute|]. intros H. specialize (Hp H).
      assert (Element_size (prim (context_primitive SVC_DEFINE_NAMED_VAR_LIST) []) = 2) as -> by by vm_compute. lia. }
  done.
Qed.
End served.

(** C29: A data set a client defines is there, and is the one it defined: the definition is
    acknowledged, its attributes read back as the members that were sent, in their order,
    it is added after the sets the node had, and no other node changes. *)
Theorem data_set_defined {W} (max_pdu : Z) (handle : ServiceHandler W) (call : Element → Call W (list Z))
    (model : W → Model) (put_model : W → Model → W) (domain ln ds : list Z) (n : LogicalNode) (members : list VarRef) (w : W) :
  Serves max_pdu handle call → (∀ w m, model (put_model w m) = m) →
  (∀ content w, handle SVC_GET_NAMED_VAR_LIST_ATTR content w = (get_nvl_attrs (model w) content, w)) →
  (∀ content w, handle SVC_DEFINE_NAMED_VAR_LIST content w =
     let '(r, m) := define_nvl (model w) content in (r, put_model w m)) →
  set_name_ok domain ln ds → Forall member_ok members →
  node_at (model w) domain ln = Some n → data_set n ds = None →
  zlen (children_octets (define_fields domain (ln ++ DOLLAR :: ds) members)) < 2 ^ 31 →
  Element_size (attrs_response true members) < 2 ^ 30 →
  (max_pdu > 0 → 32 ≤ max_pdu ∧ Element_size (attrs_response true members) + 13 ≤ max_pdu) →
  ∃ w', define_named_variable_list call domain (ln ++ DOLLAR :: ds) members w = (Ok (), w') ∧
    get_named_variable_list_attributes call domain (ln ++ DOLLAR :: ds) w' = (Ok members, w') ∧
    node_at (model w') domain ln = Some (set_data_sets n (ln_data_sets n ++ [mkDataSet ds (map member_fcda members) true])) ∧
    ∀ d l, (d, l) ≠ (domain, ln) → node_at (model w') d l = node_at (model w) d l.
Proof.
  intros HS Hput Hattr Hdef Hname Hm Hat Hno Hz Hsize Hp.
  destruct (define_served max_pdu handle call HS model put_model domain ln ds Hname members w n) as (m' & Hd & Hn' & Hframe);
    [intros ?; apply Hdef|done..|naive_solver|].
  exists (put_model w m'). rewrite Hput. split; [done|]. split; [|done].
  apply (attributes_served max_pdu handle call HS model domain ln ds Hname); [intros ?; apply Hattr| |done|done|naive_solver].
  rewrite Hput. destruct Hname as (_ & _ & Hln & _). rewrite lookup_dataset_at, Hn' by done. cbn [mbind option_bind].
  unfold data_set. cbn [set_data_sets ln_data_sets]. apply find_app_end; [done|]. by apply bool_decide_eq_true_2.
Qed.

(** ** Deleted *)

Section deletion.
Context (display : Value → list Z) (rcbs : list RcbState) (logs : LogState).

(** A set a client may delete. *)
Definition may_delete (m : Model) (domain ln ds : list Z) : bool :=
  match lookup_dataset m domain (ln ++ DOLLAR :: ds) with
  | Some d => ds_deletable d && negb (data_set_in_use display rcbs logs m domain ln ds)
  | None => false
  end.

Definition without_set (n : LogicalNode) (ds : list Z) : LogicalNode :=
  set_data_sets n (filter (λ d, Nodes.ds_name d ≠ ds) (ln_data_sets n)).

Lemma delete_dataset_spec m domain ln ds :
  DOLLAR ∉ ln →
  ∃ m', delete_dataset display rcbs logs m domain (ln ++ DOLLAR :: ds) = (may_delete m domain ln ds, m') ∧
    if may_delete m domain ln ds then
      (∃ n, node_at m domain ln = Some n ∧ node_at m' domain ln = Some (without_set n ds)) ∧
      ∀ d l, (d, l) ≠ (domain, ln) → node_at m' d l = node_at m d l
    else m' = m.
Proof.
  intros Hn. unfold delete_dataset, may_delete. rewrite split_once_app by done.
  destruct (lookup_dataset m domain (ln ++ DOLLAR :: ds)) as [d|] eqn:El; [|by eexists].
  destruct (ds_deletable d); [|by eexists]. destruct (data_set_in_use _ _ _ _ _ _ _); [by eexists|]. cbn [negb andb].
  rewrite lookup_dataset_at in El by done. destruct (node_at m domain ln) as [n|] eqn:Hat; [|done].
  destruct (node_at_put _ _ _ _ Hat) as (put & -> & Hput). eexists. split; [done|].
  destruct (Hput (without_set n ds) eq_refl) as [H1 H2]. split; [by exists n|done].
Qed.

Lemma without_set_gone n ds : data_set (without_set n ds) ds = None.
Proof.
  unfold data_set, without_set, find. cbn [set_data_sets ln_data_sets].
  destruct (list_find _ _) as [[i x]|] eqn:E; [|done]. apply list_find_Some in E as (Hi & Hx & _).
  apply bool_decide_eq_true in Hx. apply list_elem_of_lookup_2, list_elem_of_filter in Hi as [H _]. done.
Qed.

Lemma without_set_others n ds ds' : ds' ≠ ds → data_set (without_set n ds) ds' = data_set n ds'.
Proof.
  intros Hne. unfold data_set, without_set. cbn [set_data_sets ln_data_sets].
  induction (ln_data_sets n) as [|d l IH]; [done|]. rewrite filter_cons. unfold find, named in *. case_decide as Hd.
  - cbn [list_find]. case_decide; [done|].
    destruct (list_find _ (filter _ l)) as [[i x]|], (list_find _ l) as [[j y]|]; simpl in *; congruence.
  - rewrite IH. cbn [list_find].
    rewrite (decide_False (P := bool_decide (Nodes.ds_name d = ds') = true)) by (rewrite bool_decide_eq_true; congruence).
    by destruct (list_find _ l) as [[j y]|].
Qed.

Lemma delete_nvl_one m domain ln ds :
  set_name_ok domain ln ds →
  ∃ m', delete_nvl display rcbs logs m (children_octets [(context_constructed 1, children_octets [name_field domain (ln ++ DOLLAR :: ds)])]) =
    (Ok (cons_elem (context_constructed SVC_DELETE_NAMED_VAR_LIST)
           [uint_elem (context_primitive 0) 1;
            uint_elem (context_primitive 1) (if may_delete m domain ln ds then 1 else 0)]), m') ∧
    if may_delete m domain ln ds then
      (∃ n, node_at m domain ln = Some n ∧ node_at m' domain ln = Some (without_set n ds)) ∧
      ∀ d l, (d, l) ≠ (domain, ln) → node_at m' d l = node_at m d l
    else m' = m.
Proof.
  intros (Hd & Hu & Hn & Hzd & Hzi). pose proof (name_octets_size domain (ln ++ DOLLAR :: ds) Hzd Hzi) as Hz.
  pose proof (name_field_smaller domain (ln ++ DOLLAR :: ds)) as Hsm.
  destruct (delete_dataset_spec m domain ln ds Hn) as (m' & Hdel & Hm'). exists m'. split; [|done].
  unfold delete_nvl, delete_args. rewrite dec_at_nil. fields. rewrite dec_at_nil.
  set (c := children_octets [name_field domain (ln ++ DOLLAR :: ds)]) in *.
  assert (1 ≤ length c)%nat as Hc by (apply (length_children_octets [_])).
  destruct (length c) as [|k]; [lia|]. unfold c. cbn [delete_loop]. rewrite more_fields. rewrite bool_decide_eq_true_2 by done.
  rewrite name_elem_read by (done || lia). cbn [ok]. rewrite bind_Ok. cbv beta iota. rewrite Hdel. cbn [delete_loop]. rewrite more_fields.
  rewrite bool_decide_eq_false_2 by naive_solver. by destruct (may_delete m domain ln ds).
Qed.
End deletion.

Lemma delete_response_of n :
  n = 0 ∨ n = 1 →
  delete_response (Element_encode (cons_elem (context_constructed SVC_DELETE_NAMED_VAR_LIST)
    [uint_elem (context_primitive 0) 1; uint_elem (context_primitive 1) n])) = (if decide (n = 1) then Ok () else Err MmsNotDeleted).
Proof. by intros [-> | ->]; vm_compute. Qed.


(** ** At concrete inputs *)

Definition set_server : ServiceHandler Model := λ svc content m,
  if decide (svc = SVC_GET_NAMED_VAR_LIST_ATTR) then (get_nvl_attrs m content, m)
  else if decide (svc = SVC_DEFINE_NAMED_VAR_LIST) then define_nvl m content
  else if decide (svc = SVC_DELETE_NAMED_VAR_LIST) then delete_nvl (λ _, []) [] (mkLogState [] []) m content
  else (Err unrecognized_service, m).

Definition set_model : Model :=
  mkModel (txt "IED") [mkLD (txt "LD0") [] [mkLN (txt "LLN0") (txt "LLN0") [] [mkDataSet (txt "old") [] true; mkDataSet (txt "fixed") [] false] []]].

Definition two_members : list VarRef :=
  [mkVarRef (txt "LD0") (txt "GGIO1$ST$Ind1"); mkVarRef (txt "LD0") (txt "GGIO1$ST$Ind2$q")].

Lemma data_set_defined_witness :
  ∃ m', define_named_variable_list (over_wire 200 set_server (λ _, 7)) (txt "LD0") (txt "LLN0" ++ DOLLAR :: txt "new") two_members set_model = (Ok (), m') ∧
    get_named_variable_list_attributes (over_wire 200 set_server (λ _, 7)) (txt "LD0") (txt "LLN0" ++ DOLLAR :: txt "new") m' = (Ok two_members, m').
Proof.
  destruct (data_set_defined 200 set_server (over_wire 200 set_server (λ _, 7)) id (λ _ m, m) (txt "LD0") (txt "LLN0") (txt "new")
    (mkLN (txt "LLN0") (txt "LLN0") [] [mkDataSet (txt "old") [] true; mkDataSet (txt "fixed") [] false] []) two_members set_model)
    as (m' & H1 & H2 & _).
  - by apply over_wire_serves.
  - done.
  - by intros content w.
  - intros content w. unfold set_server. rewrite decide_False, decide_True by done. unfold id. by destruct (define_nvl w content).
  - split_and!; try done. by apply (bool_decide_unpack _).
  - constructor; [|constructor; [|constructor]];
      (split_and!; [done|done|by apply (bool_decide_unpack _)|by apply (bool_decide_unpack _)|];
       right; exists St; split; [by apply (bool_decide_unpack _)|done]).
  - done.
  - done.
  - by vm_compute.
  - by vm_compute.
  - by vm_compute.
  - exists m'. split; [exact H1|exact H2].
Defined.


(** A list that is not there counts as matched, so the client is told that it exists and
    was not deleted. *)
Lemma missing_set_said_to_exist :
  lookup_dataset set_model (txt "LD0") (txt "LLN0$gone") = None ∧
  (delete_named_variable_list (over_wire 200 set_server (λ _, 7)) (txt "LD0") (txt "LLN0$gone") set_model).1 = Err MmsNotDeleted.
Proof. by vm_compute. Qed.
