(* ===== verification/Sampled.v ===== *)
(** Sampled values (src/src/sv/): the APDU of pdu.rs, the 9-2LE data set of le.rs, and the
    errors of mod.rs. *)

From stdpp Require Import pretty.
From S2P Require Import Prelude Ber BerDecoder Float BerPrim TimeUtil Utf8 Text Errors MmsValue MmsCodec BerFields.
From S2P Require Import Ethernet TypeSpec GooseMessage ObjRef Quality Nodes ControlBlocks.
Local Open Scope string_scope.
Local Open Scope list_scope.
Local Open Scope Z_scope.

(** ** The APDU *)

Inductive SvError :=
| SvCodec (msg : string)
| SvConfig (msg : string)
| SvEthernet (e : EthernetError).

(** [From<asn1::Error>]. *)
Definition SvError_from_asn1 (e : Asn1Error) : SvError := SvCodec (Asn1Error_display e).

Definition SV_HEADER_LEN : Z := 8.

Definition sav_pdu_tag : Tag := application_constructed 0.

Definition SMP_SYNCH_NONE : Z := 0.
Definition SMP_SYNCH_LOCAL : Z := 1.
Definition SMP_SYNCH_GLOBAL : Z := 2.

Record Asdu := mkAsdu {
  as_sv_id : list Z;
  as_dat_set : list Z;
  as_smp_cnt : Z;
  as_conf_rev : Z;
  as_refr_tm : option Z;
  as_refr_tm_quality : option Z;
  as_smp_synch : Z;
  as_smp_rate : Z;
  as_sample : list Z;
  as_smp_mod : option SmpMod;
  as_gm_identity : option (list Z);
}.

Definition Asdu_default : Asdu := mkAsdu [] [] 0 0 None None 0 0 [] None None.

Record Pdu := mkPdu {
  pd_app_id : Z;
  pd_asdus : list Asdu;
}.

(** [if let Some(x) = .. { el.push(..) }]. *)
Definition push_some {A} (o : option A) (f : A → Element) : list Element :=
  match o with Some x => [f x] | None => [] end.

Definition refr_stamp (a : Asdu) (t : Z) : Value := utc_time t (default TimeQuality_DEFAULT (as_refr_tm_quality a)).

Definition Asdu_element (a : Asdu) : Element :=
  cons_elem TAG_SEQUENCE
    ([prim (context_primitive 0) (as_sv_id a)] ++
     (if decide (as_dat_set a ≠ []) then [prim (context_primitive 1) (as_dat_set a)] else []) ++
     [prim (context_primitive 2) (to_be 2 (as_smp_cnt a)); prim (context_primitive 3) (to_be 4 (as_conf_rev a))] ++
     push_some (as_refr_tm a) (λ t, prim (context_primitive 4) (Value_bytes (refr_stamp a t))) ++
     [prim (context_primitive 5) [as_smp_synch a]] ++
     (if decide (as_smp_rate a ≠ 0) then [prim (context_primitive 6) (to_be 2 (as_smp_rate a))] else []) ++
     [prim (context_primitive 7) (as_sample a)] ++
     push_some (as_smp_mod a) (λ m, prim (context_primitive 8) [0; SmpMod_code m]) ++
     push_some (as_gm_identity a) (λ id, prim (context_primitive 9) id)).

Definition Pdu_marshal (p : Pdu) : list Z :=
  let sav :=
    cons_elem sav_pdu_tag
      [uint_elem (context_primitive 0) (zlen (pd_asdus p)); cons_elem (context_constructed 2) (map Asdu_element (pd_asdus p))] in
  let length := SV_HEADER_LEN + Element_size sav in
  Element_append (to_be 2 (pd_app_id p) ++ to_be 2 (u16 length) ++ [0; 0; 0; 0]) sav.

Definition be_u16 (b : list Z) : Z :=
  match b with
  | [] => 0
  | [x] => x
  | _ => Z.lor (Z.shiftl (nth (length b - 2) b 0) 8) (nth (length b - 1) b 0)
  end.

Definition SmpMod_from_code (code : Z) : SmpMod :=
  if decide (code = 1) then SmpPerSec else if decide (code = 2) then SecPerSmp else SmpPerPeriod.

(** [map_err(|e| Error::Codec(format!("{name}: {e}")))]. *)
Definition sv_in_field (name : string) (e : Asn1Error) : SvError := SvCodec (name +:+ ": " +:+ Asn1Error_display e).

Definition sv_expect (d : Decoder) (t : Tag) (name : string) : outcome SvError (list Z * Decoder) :=
  map_err (sv_in_field name) (expect d t).
Definition sv_optional (d : Decoder) (t : Tag) : outcome SvError (option (list Z) * Decoder) :=
  map_err SvError_from_asn1 (optional d t).

Definition parse_asdu (content : list Z) : outcome SvError Asdu :=
  let d := Decoder_new content in
  '(sv_id, d) ← sv_expect d (context_primitive 0) "svID";
  '(dat_set, d) ← sv_optional d (context_primitive 1);
  '(smp_cnt, d) ← sv_expect d (context_primitive 2) "smpCnt";
  '(conf_rev, d) ← sv_expect d (context_primitive 3) "confRev";
  conf_rev ← unwrap_or (decode_uint conf_rev) 0;
  '(refr_tm, d) ← sv_optional d (context_primitive 4);
  stamp ← match refr_tm with Some b => ok (utc_time_raw b) | None => Ok None end;
  '(smp_synch, d) ← sv_optional d (context_primitive 5);
  '(smp_rate, d) ← sv_optional d (context_primitive 6);
  '(sample, d) ← sv_expect d (context_primitive 7) "sample";
  '(smp_mod, d) ← sv_optional d (context_primitive 8);
  '(gm, d) ← sv_optional d (context_primitive 9);
  let a :=
    mkAsdu (from_utf8_lossy sv_id) (from_option from_utf8_lossy [] dat_set) (be_u16 smp_cnt) (u32 conf_rev)
      (stamp ≫= Value_time) (time_quality <$> stamp) (default 0 (smp_synch ≫= last)) (from_option be_u16 0 smp_rate) sample
      ((λ b, SmpMod_from_code (be_u16 b)) <$> smp_mod) gm in
  match gm with
  | Some b =>
      if decide (zlen b = 8) then Ok a else Err (SvCodec ("gmIdentity of " +:+ pretty (zlen b) +:+ " octets, want 8"))
  | None => Ok a
  end.

Fixpoint parse_asdus (fuel : nat) (sd : Decoder) : outcome SvError (list Asdu) :=
  match fuel with
  | O => NoFuel
  | S fuel =>
      if more sd then
        '(content, sd) ← sv_expect sd TAG_SEQUENCE "ASDU";
        a ← parse_asdu content;
        l ← parse_asdus fuel sd;
        Ok (a :: l)
      else Ok []
  end.

Definition sv_parse (apdu : list Z) : outcome SvError Pdu :=
  if decide (zlen apdu < SV_HEADER_LEN) then
    Err (SvCodec ("apdu of " +:+ pretty (zlen apdu) +:+ " octets is truncated"))
  else
    b0 ← idx apdu 0;
    b1 ← idx apdu 1;
    b2 ← idx apdu 2;
    b3 ← idx apdu 3;
    let length := from_be [b2; b3] in
    if decide (length < SV_HEADER_LEN ∨ length > zlen apdu) then
      Err (SvCodec ("length field " +:+ pretty length +:+ " in an apdu of " +:+ pretty (zlen apdu) +:+ " octets"))
    else
      pdu ← slice apdu SV_HEADER_LEN length;
      '(content, _) ← map_err SvError_from_asn1 (expect (Decoder_new pdu) sav_pdu_tag);
      '(_, d) ← sv_expect (Decoder_new content) (context_primitive 0) "noASDU";
      '(seq, _) ← sv_expect d (context_constructed 2) "seqOfASDU";
      asdus ← parse_asdus (S (List.length seq)) (Decoder_new seq);
      Ok (mkPdu (from_be [b0; b1]) asdus).

(** ** The 9-2LE data set *)

Definition LE_SAMPLE_LEN : Z := 8 * 8.
Definition LE_QUALITY_MASK : Z := 0x1fff.
Definition LE_VALIDITY_LEGACY_INVALID : Z := 0x0001.

Record LeSample := mkLe {
  le_smp_cnt : Z;
  le_smp_synch : Z;
  le_i : list Z;
  le_v : list Z;
  le_q : list Z;
}.

Definition LeSample_default : LeSample := mkLe 0 0 [0; 0; 0; 0] [0; 0; 0; 0] [0; 0; 0; 0; 0; 0; 0; 0].

(** [Quality::GOOD] for a channel there is not. *)
Definition le_quality (s : LeSample) (i : nat) : Z :=
  match le_q s !! i with
  | Some q =>
      let quality := u16 (Z.land q LE_QUALITY_MASK) in
      if decide (Z.land q 3 = LE_VALIDITY_LEGACY_INVALID) then with_validity quality Invalid else quality
  | None => 0
  end.

Definition set_le_quality (s : LeSample) (i : nat) (q : Z) : LeSample :=
  match le_q s !! i with
  | Some slot =>
      mkLe (le_smp_cnt s) (le_smp_synch s) (le_i s) (le_v s)
        (<[i := Z.lor (Z.land slot (u32 (Z.lnot LE_QUALITY_MASK))) (Z.land q LE_QUALITY_MASK)]> (le_q s))
  | None => s
  end.

(** [out[off..off + src.len()].copy_from_slice(src)]. *)
Definition copy_at (out : list Z) (off : nat) (src : list Z) : list Z := take off out ++ src ++ drop (off + length src) out.

(** One channel: [s.i[i] as u32] and its quality word, big-endian. *)
Definition put_channel (off : nat) (xs qs : list Z) (q0 : nat) (out : list Z) (i : nat) : list Z :=
  let out := copy_at out (off + i * 8) (to_be 4 (u32 (nth i xs 0))) in
  copy_at out (off + i * 8 + 4) (to_be 4 (nth (q0 + i) qs 0)).

Definition write_le_sample (s : LeSample) (out : list Z) : bool * list Z :=
  if decide (zlen out < LE_SAMPLE_LEN) then (false, out)
  else
    let out := foldl (put_channel 0 (le_i s) (le_q s) 0) out (seq 0 4) in
    (true, foldl (put_channel 32 (le_v s) (le_q s) 4) out (seq 0 4)).

Definition encode_le_sample (s : LeSample) : list Z := (write_le_sample s (replicate 64 0)).2.

(** [word(off)]. *)
Definition le_word (sample : list Z) (off : nat) : Z := from_be (take 4 (drop off sample)).

Definition fill_from (s : LeSample) (sample : list Z) : outcome SvError LeSample :=
  if decide (zlen sample < LE_SAMPLE_LEN) then
    Err (SvCodec ("9-2LE sample of " +:+ pretty (zlen sample) +:+ " octets, want " +:+ pretty LE_SAMPLE_LEN))
  else
    let word := le_word sample in
    Ok (mkLe (le_smp_cnt s) (le_smp_synch s)
          (map (λ i, swrap 32 (word (i * 8)%nat)) (seq 0 4)) (map (λ i, swrap 32 (word (32 + i * 8)%nat)) (seq 0 4))
          (map (λ i, word (i * 8 + 4)%nat) (seq 0 4) ++ map (λ i, word (32 + i * 8 + 4)%nat) (seq 0 4))).

Definition decode_le_sample (sample : list Z) : outcome SvError LeSample := fill_from LeSample_default sample.

Definition decode_le_into (a : Asdu) (s : LeSample) : outcome SvError LeSample :=
  s ← fill_from s (as_sample a);
  Ok (mkLe (as_smp_cnt a) (as_smp_synch a) (le_i s) (le_v s) (le_q s)).

(** ** The data set round trips *)

(** The arrays and words of the Rust type. *)
Record le_wf (s : LeSample) : Prop := {
  lw_cnt : in_u 16 (le_smp_cnt s);
  lw_synch : octet (le_smp_synch s);
  lw_i : length (le_i s) = 4%nat ∧ Forall (in_i 32) (le_i s);
  lw_v : length (le_v s) = 4%nat ∧ Forall (in_i 32) (le_v s);
  lw_q : length (le_q s) = 8%nat ∧ Forall (in_u 32) (le_q s);
}.

(** The pairs of value and quality, in the order of the profile. *)
Definition le_pairs (s : LeSample) : list (Z * Z) := zip (le_i s ++ le_v s) (le_q s).
Definition pair_octets (p : Z * Z) : list Z := to_be 4 (u32 p.1) ++ to_be 4 p.2.

Lemma encode_le_pairs s : le_wf s → encode_le_sample s = concat (map pair_octets (le_pairs s)) ∧ zlen (encode_le_sample s) = 64.
Proof.
  intros [_ _ [Hi _] [Hv _] [Hq _]]. destruct s as [cnt sy i v q]. cbn [le_i le_v le_q] in *.
  destruct i as [|i0 [|i1 [|i2 [|i3 [|]]]]]; try done. destruct v as [|v0 [|v1 [|v2 [|v3 [|]]]]]; try done.
  destruct q as [|q0 [|q1 [|q2 [|q3 [|q4 [|q5 [|q6 [|q7 [|]]]]]]]]]; done.
Qed.

Lemma fill_from_encoded s0 s :
  le_wf s →
  fill_from s0 (encode_le_sample s) =
    Ok (mkLe (le_smp_cnt s0) (le_smp_synch s0) (map (λ x, swrap 32 (from_be (to_be 4 (u32 x)))) (le_i s))
          (map (λ x, swrap 32 (from_be (to_be 4 (u32 x)))) (le_v s)) (map (λ q, from_be (to_be 4 q)) (le_q s))).
Proof.
  intros Hs. unfold fill_from. rewrite (proj2 (encode_le_pairs s Hs)). rewrite decide_False by done.
  destruct Hs as [_ _ [Hi _] [Hv _] [Hq _]]. destruct s as [cnt sy i v q]. cbn [le_i le_v le_q] in *.
  destruct i as [|i0 [|i1 [|i2 [|i3 [|]]]]]; try done. destruct v as [|v0 [|v1 [|v2 [|v3 [|]]]]]; try done.
  destruct q as [|q0 [|q1 [|q2 [|q3 [|q4 [|q5 [|q6 [|q7 [|]]]]]]]]]; done.
Qed.

Lemma map_fixed {A} (f : A → A) l : Forall (λ x, f x = x) l → map f l = l.
Proof. induction 1 as [|x l Hx _ IH]; cbn [map]; congruence. Qed.

Lemma swrap_u32 x : in_i 32 x → swrap 32 (from_be (to_be 4 (u32 x))) = x.
Proof.
  intros Hx. rewrite from_to_be. apply (in_i_mod_eq 32); [lia|by apply swrap_range|done|].
  rewrite swrap_mod by lia. change (256 ^ Z.of_nat 4) with (2 ^ 32). unfold u32, wrap. by rewrite !Z.mod_mod.
Qed.

(** A data set that is written is read back, whatever the values and the qualities of its
    channels, with the sample count and the synchronisation of its ASDU. *)
Lemma le_sample_roundtrip s0 s a :
  le_wf s → as_sample a = encode_le_sample s → as_smp_cnt a = le_smp_cnt s → as_smp_synch a = le_smp_synch s →
  decode_le_into a s0 = Ok s.
Proof.
  intros Hs Ha Hc Hy. unfold decode_le_into. rewrite Ha, fill_from_encoded, bind_Ok by done. cbn [le_i le_v le_q].
  rewrite Hc, Hy. destruct Hs as [_ _ [_ Hi] [_ Hv] [_ Hq]]. destruct s as [cnt sy i v q]. cbn [le_i le_v le_q le_smp_cnt le_smp_synch] in *.
  f_equal. f_equal; apply map_fixed; (eapply Forall_impl; [eassumption|]).
  - apply swrap_u32.
  - apply swrap_u32.
  - intros x Hx. rewrite from_to_be. apply Z.mod_small. exact Hx.
Qed.

(** ** The APDU round trips *)

(** A field that may be left out. *)
Definition opt (t : Tag) (o : option (list Z)) : list (Tag * list Z) := match o with Some c => [(t, c)] | None => [] end.

Definition some_if (b : bool) (c : list Z) : option (list Z) := if b then Some c else None.

Definition asdu_fields (a : Asdu) : list (Tag * list Z) :=
  (context_primitive 0, as_sv_id a) ::
  opt (context_primitive 1) (some_if (bool_decide (as_dat_set a ≠ [])) (as_dat_set a)) ++
  (context_primitive 2, to_be 2 (as_smp_cnt a)) :: (context_primitive 3, to_be 4 (as_conf_rev a)) ::
  opt (context_primitive 4) ((λ t, Value_bytes (refr_stamp a t)) <$> as_refr_tm a) ++
  (context_primitive 5, [as_smp_synch a]) ::
  opt (context_primitive 6) (some_if (bool_decide (as_smp_rate a ≠ 0)) (to_be 2 (as_smp_rate a))) ++
  (context_primitive 7, as_sample a) ::
  opt (context_primitive 8) ((λ m, [0; SmpMod_code m]) <$> as_smp_mod a) ++
  opt (context_primitive 9) (as_gm_identity a).

Lemma asdu_writes a : writes (Asdu_element a) (TAG_SEQUENCE, children_octets (asdu_fields a)).
Proof.
  unfold Asdu_element, asdu_fields, some_if. apply writes_cons; [done..|].
  repeat case_decide; repeat case_bool_decide; try done;
    destruct (as_refr_tm a), (as_smp_mod a), (as_gm_identity a); cbn [app push_some opt fmap option_fmap option_map]; writes.
Qed.

(** What comes next is not a field of tag [t]. *)
Definition not_next (t : Tag) (cs : list (Tag * list Z)) : Prop := match cs with [] => True | (t', _) :: _ => tag_wf t' ∧ t' ≠ t end.

Lemma sv_expect_field t c cs pre name :
  field_ok (t, c) → sv_expect (dec_at pre (children_octets ((t, c) :: cs))) t name =
    Ok (c, dec_at (pre ++ append_tlv [] t c) (children_octets cs)).
Proof. intros H. unfold sv_expect. by rewrite expect_field. Qed.

Lemma sv_optional_opt t o cs pre :
  Forall field_ok (opt t o) → not_next t cs →
  sv_optional (dec_at pre (children_octets (opt t o ++ cs))) t = Ok (o, dec_at (pre ++ children_octets (opt t o)) (children_octets cs)).
Proof.
  intros Ho Hn. unfold sv_optional, opt in *. destruct o as [c|]; cbn [app].
  - apply Forall_cons in Ho as [Ho _]. rewrite optional_field by done. by rewrite children_octets_cons, app_nil_r.
  - cbn [children_octets map concat]. rewrite app_nil_r. destruct cs as [|[t' c'] cs]; [by rewrite optional_field_end|].
    destruct Hn. by rewrite optional_field_other.
Qed.

(** The values the Rust types allow. *)
Record asdu_wf (a : Asdu) : Prop := {
  aw_sv_id : utf8 (as_sv_id a) = true;
  aw_dat_set : utf8 (as_dat_set a) = true;
  aw_smp_cnt : in_u 16 (as_smp_cnt a);
  aw_conf_rev : in_u 32 (as_conf_rev a);
  aw_synch : octet (as_smp_synch a);
  aw_rate : in_u 16 (as_smp_rate a);
  aw_gm : from_option zlen 8 (as_gm_identity a) = 8;
}.

(** An ASDU as it arrives: the time is cut to the fraction of a UtcTime and always has a
    quality. *)
Definition asdu_received (a : Asdu) : Asdu :=
  mkAsdu (as_sv_id a) (as_dat_set a) (as_smp_cnt a) (as_conf_rev a) (as_refr_tm a ≫= λ t, Value_time (refr_stamp a t))
    ((λ t, time_quality (refr_stamp a t)) <$> as_refr_tm a) (as_smp_synch a) (as_smp_rate a) (as_sample a) (as_smp_mod a)
    (as_gm_identity a).

Lemma be_u16_pair a c : octet c → be_u16 [a; c] = from_be [a; c].
Proof.
  intros Hc. cbn [be_u16 length nth Nat.sub]. unfold octet in Hc. rewrite lor_shiftl_add by lia.
  unfold from_be. simpl. lia.
Qed.

Lemma be_u16_to_be n : in_u 16 n → be_u16 (to_be 2 n) = n.
Proof.
  intros Hn. pose proof (from_to_be 2 n) as H. pose proof (zlen_to_be 2 n) as Hl. pose proof (octets_to_be 2 n) as Ho. unfold zlen in Hl.
  change (256 ^ Z.of_nat 2) with (2 ^ 16) in H. rewrite Z.mod_small in H by done.
  destruct (to_be 2 n) as [|a [|c [|]]]; simpl in Hl; try lia. rewrite be_u16_pair; [done|].
  unfold octets in Ho. rewrite !Forall_cons in Ho. by destruct Ho as (_ & ? & _).
Qed.

Lemma refr_stamp_raw a t :
  zlen (Value_bytes (refr_stamp a t)) = 8 ∧ utc_time_raw (Value_bytes (refr_stamp a t)) = Ok (refr_stamp a t).
Proof. unfold refr_stamp, utc_time. by destruct (unix_parts t). Qed.

Lemma conf_rev_read n : in_u 32 n → decode_uint (to_be 4 n) = Ok n.
Proof.
  intros Hn. unfold in_u in Hn.
  assert (from_be (to_be 4 n) = n) as E by (rewrite from_to_be; by apply Z.mod_small).
  rewrite decode_uint_eq; rewrite ?E, ?zlen_to_be; [done|apply octets_to_be|lia..].
Qed.

Lemma asdu_fields_ok a : zlen (children_octets (asdu_fields a)) < 2 ^ 31 → Forall field_ok (asdu_fields a).
Proof.
  intros Hl. apply fields_ok; [|lia]. unfold asdu_fields, some_if.
  case_bool_decide; case_bool_decide; destruct (as_refr_tm a), (as_smp_mod a), (as_gm_identity a); by repeat constructor.
Qed.

Lemma sv_optional_field t c cs pre :
  field_ok (t, c) → sv_optional (dec_at pre (children_octets ((t, c) :: cs))) t =
    Ok (Some c, dec_at (pre ++ append_tlv [] t c) (children_octets cs)).
Proof. intros H. unfold sv_optional. by rewrite optional_field. Qed.

Lemma sv_optional_last t o pre :
  Forall field_ok (opt t o) → ∃ d, sv_optional (dec_at pre (children_octets (opt t o))) t = Ok (o, d).
Proof. intros H. eexists. rewrite <-(app_nil_r (opt t o)) at 1. by rewrite sv_optional_opt. Qed.

Ltac sv_step :=
  first
    [ rewrite sv_expect_field by (assumption || done)
    | rewrite sv_optional_field by (assumption || done)
    | rewrite sv_optional_opt; [|done|try done]
    | rewrite bind_Ok; cbv beta iota zeta ].

Lemma parse_asdu_fields a :
  asdu_wf a → zlen (children_octets (asdu_fields a)) < 2 ^ 31 →
  parse_asdu (children_octets (asdu_fields a)) = Ok (asdu_received a).
Proof.
  intros Hw Hl. pose proof (asdu_fields_ok a Hl) as Hok. clear Hl. unfold parse_asdu, asdu_fields in *. rewrite dec_at_nil.
  rewrite ?Forall_cons, ?Forall_app in Hok. destruct Hok as (F0 & F1 & F2).
  rewrite ?Forall_cons, ?Forall_app in F2. destruct F2 as (F2 & F3 & F4 & F5).
  rewrite ?Forall_cons, ?Forall_app in F5. destruct F5 as (F5 & F6 & F7).
  rewrite ?Forall_cons, ?Forall_app in F7. destruct F7 as (F7 & F8 & F9).
  repeat sv_step. rewrite conf_rev_read by apply Hw. unfold unwrap_or at 1. cbn [ok]. rewrite !bind_Ok. cbv beta iota zeta. cbn [default].
  assert ((match (λ t, Value_bytes (refr_stamp a t)) <$> as_refr_tm a with
           | Some b => ok (utc_time_raw b) | None => Ok (E:=SvError) None end) = Ok (refr_stamp a <$> as_refr_tm a)) as ->.
  { destruct (as_refr_tm a) as [t|]; [|done]. cbn [fmap option_fmap option_map]. by rewrite (proj2 (refr_stamp_raw a t)). }
  do 8 sv_step. repeat sv_step.
  2:{ destruct (as_gm_identity a); [by split|done]. }
  edestruct (sv_optional_last (context_primitive 9) (as_gm_identity a)) as [d ->]; [done|]. rewrite bind_Ok. cbv beta iota zeta.
  clear F0 F1 F2 F3 F4 F5 F6 F7 F8 F9. rewrite !be_u16_to_be by apply Hw. rewrite !from_utf8_lossy_valid by apply Hw.
  assert (from_option from_utf8_lossy [] (some_if (bool_decide (as_dat_set a ≠ [])) (as_dat_set a)) = as_dat_set a) as ->.
  { unfold some_if. case_bool_decide as Hd; [by apply from_utf8_lossy_valid, Hw|]. simpl. by destruct (as_dat_set a). }
  assert (from_option be_u16 0 (some_if (bool_decide (as_smp_rate a ≠ 0)) (to_be 2 (as_smp_rate a))) = as_smp_rate a) as ->.
  { unfold some_if. case_bool_decide as Hd; [by apply be_u16_to_be, Hw|]. simpl. lia. }
  assert ((λ b, SmpMod_from_code (be_u16 b)) <$> ((λ m, [0; SmpMod_code m]) <$> as_smp_mod a) = as_smp_mod a) as ->.
  { destruct (as_smp_mod a) as [[]|]; done. }
  unfold u32. rewrite wrap_id by apply Hw. unfold asdu_received. pose proof (aw_gm a Hw) as Hgm.
  assert ((refr_stamp a <$> as_refr_tm a) ≫= Value_time = (as_refr_tm a ≫= λ t, Value_time (refr_stamp a t))) as -> by by destruct (as_refr_tm a).
  assert (time_quality <$> (refr_stamp a <$> as_refr_tm a) = (λ t, time_quality (refr_stamp a t)) <$> as_refr_tm a) as -> by by destruct (as_refr_tm a).
  destruct (as_gm_identity a) as [g|]; [|done]. simpl in Hgm. by rewrite decide_True.
Qed.

Definition sav_fields (p : Pdu) : list (Tag * list Z) :=
  [(context_primitive 0, append_uint [] (zlen (pd_asdus p)));
   (context_constructed 2, children_octets (map (pair TAG_SEQUENCE) (map (λ a, children_octets (asdu_fields a)) (pd_asdus p))))].

Definition sav_element (p : Pdu) : Element :=
  cons_elem sav_pdu_tag
    [uint_elem (context_primitive 0) (zlen (pd_asdus p)); cons_elem (context_constructed 2) (map Asdu_element (pd_asdus p))].

Lemma sav_writes p : writes (sav_element p) (sav_pdu_tag, children_octets (sav_fields p)).
Proof.
  apply writes_cons; [done..|]. constructor; [unfold uint_elem; by apply writes_prim|]. constructor; [|constructor].
  apply writes_cons; [done..|]. induction (pd_asdus p) as [|a l IH]; constructor; [apply asdu_writes|done].
Qed.

(** The size of an APDU. *)
Definition Pdu_size (p : Pdu) : Z := SV_HEADER_LEN + Element_size (sav_element p).

Lemma Pdu_size_octets p : Pdu_size p = 8 + zlen (append_tlv [] sav_pdu_tag (children_octets (sav_fields p))).
Proof. destruct (sav_writes p) as [Ht He]. unfold Pdu_size, SV_HEADER_LEN. by rewrite Element_size_encode, He. Qed.

(** The length field is the size of the APDU modulo [2^16]. *)
Lemma marshal_octets p :
  Pdu_marshal p = (to_be 2 (pd_app_id p) ++ to_be 2 (u16 (Pdu_size p)) ++ [0; 0; 0; 0]) ++
    append_tlv [] sav_pdu_tag (children_octets (sav_fields p)).
Proof.
  destruct (sav_writes p) as [Ht He]. unfold Pdu_marshal. fold (sav_element p). by rewrite Element_append_app, He.
Qed.

Lemma sv_header app pdu pad :
  in_u 16 app → zlen pdu + 8 ≤ 65535 →
  sv_parse (((to_be 2 app ++ to_be 2 (8 + zlen pdu) ++ [0; 0; 0; 0]) ++ pdu) ++ pad) =
  ('(content, _) ← map_err SvError_from_asn1 (expect (Decoder_new pdu) sav_pdu_tag);
   '(_, d) ← sv_expect (Decoder_new content) (context_primitive 0) "noASDU";
   '(seq, _) ← sv_expect d (context_constructed 2) "seqOfASDU";
   asdus ← parse_asdus (S (length seq)) (Decoder_new seq);
   Ok (mkPdu app asdus)).
Proof.
  intros Happ Hp. pose proof (zlen_nonneg pdu) as Hp0. pose proof (zlen_nonneg pad) as Hpad.
  unfold sv_parse, SV_HEADER_LEN. set (hdr := to_be 2 app ++ to_be 2 (8 + zlen pdu) ++ [0; 0; 0; 0]).
  assert (zlen hdr = 8) as H8 by done.
  assert (zlen ((hdr ++ pdu) ++ pad) = 8 + zlen pdu + zlen pad) as Hz by (rewrite !zlen_app; lia).
  rewrite Hz, decide_False by lia.
  assert (∀ i a, hdr !! Z.to_nat i = Some a → 0 ≤ i → idx (E:=SvError) ((hdr ++ pdu) ++ pad) i = Ok a) as Hi.
  { intros i a Ha Hi. apply idx_lookup; [done|]. rewrite <-app_assoc. by apply lookup_app_l_Some. }
  rewrite !(Hi 0 _ eq_refl), !(Hi 1 _ eq_refl), !(Hi 2 _ eq_refl), !(Hi 3 _ eq_refl) by done.
  rewrite !bind_Ok. cbv beta iota zeta.
  change [u8 (app / 256 ^ Z.of_nat 1); u8 (app / 256 ^ Z.of_nat 0)] with (to_be 2 app).
  change [u8 ((8 + zlen pdu) / 256 ^ Z.of_nat 1); u8 ((8 + zlen pdu) / 256 ^ Z.of_nat 0)] with (to_be 2 (8 + zlen pdu)).
  rewrite !from_to_be, !Z.mod_small by (unfold in_u in Happ; change (256 ^ Z.of_nat 2) with 65536; lia).
  rewrite decide_False by lia. rewrite <-app_assoc, slice_app_mid by lia. by rewrite bind_Ok.
Qed.

Lemma parse_asdus_fields l : ∀ fuel pre,
  Forall asdu_wf l → Forall (λ a, zlen (children_octets (asdu_fields a)) < 2 ^ 31) l → (length l < fuel)%nat →
  parse_asdus fuel (dec_at pre (children_octets (map (pair TAG_SEQUENCE) (map (λ a, children_octets (asdu_fields a)) l)))) =
    Ok (map asdu_received l).
Proof.
  induction l as [|a l IH]; intros fuel pre Hw Hz Hf; (destruct fuel as [|fuel]; [simpl in Hf; lia|]);
    cbn [parse_asdus map]; rewrite more_fields.
  - by rewrite bool_decide_eq_false_2 by naive_solver.
  - apply Forall_cons in Hw as [Ha Hw], Hz as [Hza Hz]. rewrite bool_decide_eq_true_2 by done.
    rewrite sv_expect_field by field_ok. rewrite bind_Ok. cbv beta iota. rewrite parse_asdu_fields, bind_Ok by done.
    rewrite IH by (done || (simpl in Hf; lia)). by rewrite bind_Ok.
Qed.

Lemma sv_parse_marshal p pad :
  in_u 16 (pd_app_id p) → Forall asdu_wf (pd_asdus p) → Pdu_size p ≤ 65535 →
  sv_parse (Pdu_marshal p ++ pad) = Ok (mkPdu (pd_app_id p) (map asdu_received (pd_asdus p))).
Proof.
  intros Happ Hw Hs.
  pose proof (Pdu_size_octets p) as Hz. pose proof (zlen_nonneg (append_tlv [] sav_pdu_tag (children_octets (sav_fields p)))).
  rewrite marshal_octets. unfold u16. rewrite wrap_id, Hz by (unfold in_u; lia). rewrite sv_header by (done || lia).
  pose proof (append_tlv_longer sav_pdu_tag (children_octets (sav_fields p))) as Hl.
  rewrite <-(app_nil_r (append_tlv [] sav_pdu_tag _)), dec_at_nil, expect_at by (done || lia).
  rewrite map_err_Ok, bind_Ok. cbv beta iota.
  assert (zlen (children_octets (sav_fields p)) < 65535) as Hc by lia. clear Hs Hz Hl H. unfold sav_fields in *. fields_in Hc.
  rewrite dec_at_nil, sv_expect_field, bind_Ok by field_ok. cbv beta iota.
  rewrite sv_expect_field, bind_Ok by field_ok. cbv beta iota. rewrite dec_at_nil, parse_asdus_fields; [by rewrite bind_Ok|done|..].
  - apply Forall_forall. intros a Ha.
    assert (zlen (children_octets (asdu_fields a)) < zlen (children_octets (map (pair TAG_SEQUENCE) (map (λ a, children_octets (asdu_fields a)) (pd_asdus p))))); [|lia].
    apply (field_smaller TAG_SEQUENCE). apply list_elem_of_fmap. eexists. split; [done|]. apply list_elem_of_fmap. by exists a.
  - match goal with |- context [length (children_octets ?l)] => pose proof (length_children_octets l) as Hlen end.
    rewrite !length_map in Hlen. lia.
Qed.

(** Sampled values round trip: an APDU that fits its 16-bit length is read back, with any
    padding behind it, as the ASDUs that were sent, in order, each with every field as it
    was; the time is cut to the fraction of a UtcTime, at most 60 ns early. *)
Theorem sv_roundtrip (p : Pdu) (pad : list Z) :
  in_u 16 (pd_app_id p) → Forall asdu_wf (pd_asdus p) → Pdu_size p ≤ 65535 →
  sv_parse (Pdu_marshal p ++ pad) = Ok (mkPdu (pd_app_id p) (map asdu_received (pd_asdus p))) ∧
  Forall (λ a, ∀ t, as_refr_tm a = Some t → 0 ≤ t < 2 ^ 32 * NANOS_PER_SEC →
    ∃ t', as_refr_tm (asdu_received a) = Some t' ∧ t - 60 ≤ t' ≤ t) (pd_asdus p).
Proof.
  intros Happ Hw Hs. split; [by apply sv_parse_marshal|].
  apply Forall_forall. intros a _ t Ht Hr. simpl. rewrite Ht. simpl. unfold refr_stamp.
  destruct (utc_time_close t (default TimeQuality_DEFAULT (as_refr_tm_quality a)) Hr) as (t' & Ht' & Hc & _). eauto.
Qed.
Definition example_asdu (n : Z) : Asdu :=
  mkAsdu (txt "MU01") [] n 1 (Some 1700000000000000000) None SMP_SYNCH_GLOBAL 80
    (encode_le_sample (mkLe n SMP_SYNCH_GLOBAL [n; - n; 0; 0] [230000; 0; 0; 0] (replicate 8 0))) (Some SmpPerSec)
    (Some (replicate 8 7)).

Lemma sv_roundtrip_witness :
  let p := mkPdu 0x4000 [example_asdu 0; example_asdu 1] in
  (in_u 16 (pd_app_id p) ∧ Forall asdu_wf (pd_asdus p) ∧ Pdu_size p ≤ 65535) ∧
  sv_parse (Pdu_marshal p ++ [0; 0]) = Ok (mkPdu 0x4000 (map asdu_received (pd_asdus p))).
Proof.
  intros p. assert (in_u 16 (pd_app_id p)) as H1 by (by split).
  assert (Forall asdu_wf (pd_asdus p)) as H2 by (repeat constructor; done).
  assert (Pdu_size p ≤ 65535) as H3 by (vm_compute; discriminate).
  split; [exact (conj H1 (conj H2 H3))|]. exact (proj1 (sv_roundtrip p [0; 0] H1 H2 H3)).
Defined.

(** ** Decoding is safe *)

Lemma sv_expect_reading d t name : dec_wf d → reading octets (sv_expect d t name).
Proof. intros Hd. by apply reading_map_err, reading_expect. Qed.

Lemma sv_optional_reading d t : dec_wf d → reading (λ o, octets (default [] o)) (sv_optional d t).
Proof. intros Hd. by apply reading_map_err, reading_optional. Qed.

Lemma nth_octet b n : octets b → octet (nth n b 0).
Proof. intros Hb. destruct (nth_in_or_default n b 0) as [H| ->]; [|by split]. by apply (proj1 (Forall_forall _ _) Hb), list_elem_of_In. Qed.

Lemma be_u16_range b : octets b → in_u 16 (be_u16 b).
Proof.
  intros Hb. destruct b as [|x [|y l]]; cbn [be_u16]; [by split|apply Forall_cons in Hb as [Hx _]; unfold octet, in_u in *; lia|].
  pose proof (nth_octet _ (length (x :: y :: l) - 2) Hb) as H1. pose proof (nth_octet _ (length (x :: y :: l) - 1) Hb) as H2.
  set (p := nth _ _ _) in *. set (q := nth (_ - 1) _ _) in *. unfold octet, in_u in *. rewrite lor_shiftl_add by lia. lia.
Qed.

Lemma last_octet o : octets (default [] o) → octet (default 0 (o ≫= last)).
Proof.
  destruct o as [b|]; [|by split]. simpl. intros Hb. destruct (last b) as [x|] eqn:E; [|by split].
  apply last_Some in E as [l ->]. by apply Forall_app in Hb as [_ Hx]; apply Forall_cons in Hx as [Hx _].
Qed.

Lemma opt_be_u16 o : octets (default [] o) → in_u 16 (from_option be_u16 0 o).
Proof. destruct o; [apply be_u16_range|by split]. Qed.

Ltac sv_reads x d :=
  eapply reading_bind;
    [first [by apply sv_expect_reading | by apply sv_optional_reading]
    | let H := fresh "H" x in let Hd := fresh "Hd" in intros x d H Hd; cbv beta iota in * ].

Lemma parse_asdu_safe content : octets content → returns asdu_wf (parse_asdu content).
Proof.
  intros Ho. unfold parse_asdu. pose proof (Decoder_new_wf content Ho) as Hd.
  sv_reads sv_id d1. sv_reads dat_set d2. sv_reads smp_cnt d3. sv_reads conf_rev d4.
  apply (returns_bind (in_u 64)).
  { pose proof (decode_uint_returns conf_rev Hconf_rev) as H. unfold unwrap_or. by destruct (decode_uint conf_rev). }
  intros rev Hrev. sv_reads refr_tm d5. apply (returns_bind (λ _, True)).
  { destruct refr_tm as [b|]; [|done]. unfold utc_time_raw. by case_decide. }
  intros stamp _. sv_reads smp_synch d6. sv_reads smp_rate d7. sv_reads sample d8. sv_reads smp_mod d9. sv_reads gm d10.
  assert (utf8 (from_option from_utf8_lossy [] dat_set) = true) as Hu by (destruct dat_set; [by apply from_utf8_lossy_utf8|done]).
  destruct gm as [g|]; [case_decide as Hg; [|done]|];
    (constructor; cbn [as_sv_id as_dat_set as_smp_cnt as_conf_rev as_smp_synch as_smp_rate as_gm_identity];
      [by apply from_utf8_lossy_utf8|exact Hu|by apply be_u16_range|by apply wrap_range|by apply last_octet|by apply opt_be_u16|done]).
Qed.

Lemma parse_asdus_safe fuel d :
  dec_wf d → zlen (data d) - off d < Z.of_nat fuel → returns (Forall asdu_wf) (parse_asdus fuel d).
Proof.
  revert d. induction fuel as [|fuel IH]; intros d Hd Hf; [destruct Hd; lia|]. cbn [parse_asdus]. destruct (more d); [|constructor].
  pose proof (advances_expect d TAG_SEQUENCE Hd) as Ha. pose proof (reading_expect d TAG_SEQUENCE Hd) as Hr.
  unfold sv_expect. destruct (expect d TAG_SEQUENCE) as [[c d']| | |]; try done. destruct Hr as [Hc Hd'], Ha as [E Ha]. simpl in E.
  rewrite map_err_Ok, bind_Ok. cbv beta iota. eapply returns_bind; [by apply parse_asdu_safe|]. intros a Haw.
  eapply returns_bind; [apply IH; [done|rewrite E; lia]|]. intros l Hl. by constructor.
Qed.

