(* ===== verification/Pipe.v ===== *)
(** The in-memory segment (src/src/ethernet/pipe.rs): two connected interfaces, each with a
    bounded channel towards the other, and one flag that closes both.

    A blocked [read_frame] is a loop of rounds of [POLL_INTERVAL]; [read_round] is one of
    them, and says whether the loop goes on. *)

From stdpp Require Import list.
From S2P Require Import Prelude BerPrim Ethernet.
Local Open Scope Z_scope.

(** ** Definitions *)

Definition PIPE_DEPTH : nat := 64.

Inductive End := EndA | EndB.

Definition peer (e : End) : End := match e with EndA => EndB | EndB => EndA end.

(** The two channels by the end that writes into them, the shared flag, and which ends
    still exist. *)
Record Pipe := mkPipe {
  pp_channel : End → list Frame;
  pp_closed : bool;
  pp_alive : End → bool;
}.

Definition pipe : Pipe := mkPipe (λ _, []) false (λ _, true).

Definition set_channel (p : Pipe) (e : End) (q : list Frame) : Pipe :=
  mkPipe (λ e', match e, e' with EndA, EndA | EndB, EndB => q | _, _ => pp_channel p e' end) (pp_closed p) (pp_alive p).

(** [SyncSender::try_send]. *)
Inductive TrySendError := Full | Disconnected.

Definition try_send (p : Pipe) (e : End) (f : Frame) : Pipe * option TrySendError :=
  if negb (pp_alive p (peer e)) then (p, Some Disconnected)
  else if decide (length (pp_channel p e) < PIPE_DEPTH)%nat then (set_channel p e (pp_channel p e ++ [f]), None)
  else (p, Some Full).

Definition write_frame (p : Pipe) (e : End) (f : Frame) : Pipe * outcome EthernetError unit :=
  if pp_closed p then (p, Err EthClosed)
  else
    match try_send p e f with
    | (p, None) | (p, Some Full) => (p, Ok ())
    | (p, Some Disconnected) => (p, Err EthClosed)
    end.

(** What the channel has for end [e]: what the peer wrote. *)
Inductive Received := Got (f : Frame) | Nothing | PeerGone.

Definition recv (p : Pipe) (e : End) : Pipe * Received :=
  match pp_channel p (peer e) with
  | f :: q => (set_channel p (peer e) q, Got f)
  | [] => (p, if pp_alive p (peer e) then Nothing else PeerGone)
  end.

Definition try_read_frame (p : Pipe) (e : End) : Pipe * option Frame :=
  match recv p e with (p, Got f) => (p, Some f) | (p, _) => (p, None) end.

(** One round of [read_frame]: [None] goes round again. *)
Definition read_round (p : Pipe) (e : End) : Pipe * option (outcome EthernetError Frame) :=
  if pp_closed p then (p, Some (Err EthClosed))
  else
    match recv p e with
    | (p, Got f) => (p, Some (Ok f))
    | (p, Nothing) => (p, None)
    | (p, PeerGone) => (p, Some (Err EthClosed))
    end.

Definition close (p : Pipe) : Pipe := mkPipe (pp_channel p) true (pp_alive p).

(** An end is dropped. *)
Definition drop_end (p : Pipe) (e : End) : Pipe :=
  mkPipe (pp_channel p) (pp_closed p) (λ e', match e, e' with EndA, EndA | EndB, EndB => false | _, _ => pp_alive p e' end).

(** ** Lemmas *)

Lemma channel_set p e q : pp_channel (set_channel p e q) e = q.
Proof. by destruct e. Qed.

Lemma channel_set_peer p e q : pp_channel (set_channel p e q) (peer e) = pp_channel p (peer e).
Proof. by destruct e. Qed.

(** The pipe took the frame. *)
Definition takes (p : Pipe) (e : End) : bool :=
  negb (pp_closed p) && pp_alive p (peer e) && bool_decide (length (pp_channel p e) < PIPE_DEPTH)%nat.

(** A write adds the frame to the channel or leaves the pipe as it was; a frame that is not
    taken although the write succeeds found the channel full. *)
Lemma write_frame_spec p e f :
  let '(p', r) := write_frame p e f in
  pp_channel p' e = pp_channel p e ++ (if takes p e then [f] else []) ∧
  pp_closed p' = pp_closed p ∧ pp_alive p' = pp_alive p ∧
  (r = Ok () → takes p e = false → length (pp_channel p e) ≥ PIPE_DEPTH)%nat ∧
  (r = Ok () ↔ pp_closed p = false ∧ pp_alive p (peer e) = true) ∧
  (pp_channel p' (peer e) = pp_channel p (peer e)).
Proof.
  unfold write_frame, try_send, takes. destruct (pp_closed p) eqn:Hc; cbn [negb andb]; [rewrite app_nil_r; naive_solver|].
  destruct (pp_alive p (peer e)) eqn:Ha; cbn [negb andb]; [|rewrite app_nil_r; naive_solver].
  case_decide; [rewrite bool_decide_eq_true_2 by done|rewrite bool_decide_eq_false_2 by done].
  - rewrite channel_set, channel_set_peer. by split_and!.
  - rewrite app_nil_r. split_and!; try done. intros. lia.
Qed.

(** A read takes the oldest frame the peer wrote. *)
Lemma read_round_got p e p' f :
  read_round p e = (p', Some (Ok f)) →
  pp_closed p = false ∧ pp_channel p (peer e) = f :: pp_channel p' (peer e) ∧ pp_closed p' = pp_closed p ∧ pp_alive p' = pp_alive p.
Proof.
  unfold read_round, recv. destruct (pp_closed p) eqn:Hc; [done|]. destruct (pp_channel p (peer e)) as [|f' q].
  - by destruct (pp_alive p (peer e)).
  - intros [= <- <-]. rewrite channel_set. by split_and!.
Qed.

Lemma read_round_other p e p' r : read_round p e = (p', r) → (∀ f, r ≠ Some (Ok f)) → p' = p.
Proof.
  unfold read_round, recv. destruct (pp_closed p); [congruence|].
  destruct (pp_channel p (peer e)) as [|f' q]; [destruct (pp_alive p (peer e)); congruence|]. intros [= <- <-] H. by destruct (H f').
Qed.

(** A closed pipe ends every reader, whatever waits in it. *)
Lemma closed_ends_readers p e : (read_round (close p) e).2 = Some (Err EthClosed).
Proof. done. Qed.
