(* ===== verification/SvStream.v ===== *)
(** A stream of sampled values (src/src/sv/publisher.rs and subscriber.rs): the 9-2LE
    publisher on its sample clock, the subscriber's reader thread, and the two of them at
    the ends of a segment.

    One turn of the publisher's [select!] loop is [tick]; one frame of the reader's loop is
    [read_one]. A [Stream] is a publisher and a subscriber with a pipe between them, and
    [stream_step] lets either go first, any time. *)

From stdpp Require Import pretty.
From S2P Require Import Prelude Ber BerDecoder Float BerPrim TimeUtil Utf8 Text Errors MmsValue MmsCodec BerFields.
From S2P Require Import Ethernet ObjRef Quality Nodes ControlBlocks Sampled Pipe.
Local Open Scope string_scope.
Local Open Scope list_scope.
Local Open Scope Z_scope.

(** ** The publisher *)

Record AsduOpts := mkAsduOpts {
  ao_sample_rate : bool;
  ao_refresh_time : bool;
  ao_data_set : bool;
  ao_smp_mod : bool;
  ao_synch_source_id : bool;
}.

Record LeConfig := mkLeConfig {
  lc_app_id : Z;
  lc_sv_id : list Z;
  lc_conf_rev : Z;
  lc_dst_mac : list Z;
  lc_src_mac : list Z;
  lc_vlan : option VlanTag;
  lc_samples_per_cycle : Z;
  lc_nominal_hz : Z;
  lc_no_asdu : Z;
  lc_smp_mod : SmpMod;
  lc_dat_set : list Z;
  lc_time_quality : option Z;
  lc_gm_identity : list Z;
  lc_opts : AsduOpts;
}.

Definition default_mac (sel : Z) : list Z :=
  let hi := u8 (Z.shiftr sel 8) in
  let lo := u8 sel in
  [0x01; 0x0c; 0xcd; 0x04; Z.land hi 0x01; lo].

Definition LeConfig_default : LeConfig :=
  mkLeConfig 0x4000 [] 1 (default_mac 0) (replicate 6 0) None 80 50 1 SmpPerPeriod [] None (replicate 8 0)
    (mkAsduOpts false false false false false).

Record LePublisher := mkLePublisher {
  lp_cfg : LeConfig;
  lp_rate : Z;
  lp_gm_identity : list Z;
}.

#[global] Instance SmpMod_eq_dec : EqDecision SmpMod.
Proof. solve_decision. Defined.

Definition SmpMod_display (m : SmpMod) : string :=
  match m with SmpPerPeriod => "SmpPerPeriod" | SmpPerSec => "SmpPerSec" | SecPerSmp => "SecPerSmp" end.

(** A field left at zero takes its default. *)
Definition or_default (n d : Z) : Z := if decide (n = 0) then d else n.

Definition with_rates (c : LeConfig) (spc hz n : Z) : LeConfig :=
  mkLeConfig (lc_app_id c) (lc_sv_id c) (lc_conf_rev c) (lc_dst_mac c) (lc_src_mac c) (lc_vlan c) spc hz n (lc_smp_mod c)
    (lc_dat_set c) (lc_time_quality c) (lc_gm_identity c) (lc_opts c).

Definition smp_rate (p : LePublisher) : Z :=
  match lc_smp_mod (lp_cfg p) with SmpPerSec => lp_rate p | _ => lc_samples_per_cycle (lp_cfg p) end.

Definition LePublisher_new (cfg : LeConfig) : outcome SvError LePublisher :=
  if decide (lc_sv_id cfg = []) then Err (SvConfig "sv_id is required")
  else
    let cfg := with_rates cfg (or_default (lc_samples_per_cycle cfg) 80) (or_default (lc_nominal_hz cfg) 50) (or_default (lc_no_asdu cfg) 1) in
    let rate := lc_samples_per_cycle cfg * lc_nominal_hz cfg in
    if decide (U32_MAX < rate) then Panic
    else if decide (lc_smp_mod cfg = SecPerSmp) then
      Err (SvConfig ("sample mode " +:+ SmpMod_display (lc_smp_mod cfg) +:+ " cannot express a rate of " +:+ pretty rate +:+
        " samples per second"))
    else
      let p := mkLePublisher cfg rate (lc_gm_identity cfg) in
      if decide (smp_rate p > 65535) then Err (SvConfig ("smpRate " +:+ pretty (smp_rate p) +:+ " does not fit its 16 bits"))
      else if decide (lc_no_asdu cfg > rate) then
        Err (SvConfig (pretty (lc_no_asdu cfg) +:+ " ASDUs per frame at " +:+ pretty rate +:+ " samples per second"))
      else Ok p.

(** In nanoseconds. *)
Definition sample_interval {E} (p : LePublisher) : outcome E Z :=
  if decide (lp_rate p = 0) then Panic else Ok (1000000000 / lp_rate p).

Definition set_gm_identity (p : LePublisher) (id : list Z) : LePublisher := mkLePublisher (lp_cfg p) (lp_rate p) id.

(** [now] is what [SystemTime::now] says when the ASDU is built. *)
Definition asdu (p : LePublisher) (s : LeSample) (now : Z) : Asdu :=
  let c := lp_cfg p in
  let o := lc_opts c in
  mkAsdu (lc_sv_id c) (if ao_data_set o then lc_dat_set c else []) (le_smp_cnt s) (lc_conf_rev c)
    (if ao_refresh_time o then Some now else None) (if ao_refresh_time o then lc_time_quality c else None) (le_smp_synch s)
    (if ao_sample_rate o then u16 (smp_rate p) else 0) (encode_le_sample s)
    (if ao_smp_mod o then Some (lc_smp_mod c) else None) (if ao_synch_source_id o then Some (lp_gm_identity p) else None).

(** The frame of [emit_all], the clock read once for each sample. *)
Definition sv_frame (p : LePublisher) (samples : list LeSample) (now : nat → Z) : Frame :=
  let c := lp_cfg p in
  mkFrame (lc_src_mac c) (lc_dst_mac c) ETHER_TYPE_SV (lc_vlan c)
    (Pdu_marshal (mkPdu (lc_app_id c) (imap (λ i s, asdu p s (now i)) samples))).

Section publisher.
Context {W : Type} (write : W → Frame → W * outcome EthernetError unit).

Definition emit_all (p : LePublisher) (samples : list LeSample) (now : nat → Z) (w : W) : W * outcome SvError unit :=
  let '(w, r) := write w (sv_frame p samples now) in (w, map_err SvEthernet r).

Definition emit (p : LePublisher) (s : LeSample) (now : Z) (w : W) : W * outcome SvError unit := emit_all p [s] (λ _, now) w.

(** The local variables of [run]. *)
Record RunState := mkRun {
  rs_smp_cnt : Z;
  rs_batch : list LeSample;
}.

Definition RunState_new : RunState := mkRun 0 [].

Definition fresh_sample (smp_cnt : Z) : LeSample :=
  mkLe smp_cnt SMP_SYNCH_GLOBAL (le_i LeSample_default) (le_v LeSample_default) (le_q LeSample_default).

Definition next_count (rate smp_cnt : Z) : Z :=
  let smp_cnt := u16 (smp_cnt + 1) in
  if decide (smp_cnt >= rate) then 0 else smp_cnt.

(** One tick of the clock, [fill] as the caller's closure runs this time. *)
Definition tick (p : LePublisher) (fill : Z → LeSample → LeSample) (now : nat → Z) (st : RunState) (w : W)
    : W * outcome SvError RunState :=
  let sample := fill (rs_smp_cnt st) (fresh_sample (rs_smp_cnt st)) in
  let batch := rs_batch st ++ [sample] in
  let '(w, r) :=
    if decide (zlen batch = lc_no_asdu (lp_cfg p)) then
      let '(w, r) := emit_all p batch now w in (w, _ ← r; Ok [])
    else (w, Ok batch) in
  (w, batch ← r; Ok (mkRun (next_count (lp_rate p) (rs_smp_cnt st)) batch)).

End publisher.

(** ** The subscriber *)

Record Filter := mkFilter {
  fl_app_id : Z;
  fl_sv_id : list Z;
}.

Definition Filter_any : Filter := mkFilter 0 [].
Definition Filter_app_id (app_id : Z) : Filter := mkFilter app_id [].

Definition matches (f : Filter) (app_id : Z) (a : Asdu) : bool :=
  if bool_decide (fl_app_id f ≠ 0) && bool_decide (app_id ≠ fl_app_id f) then false
  else if bool_decide (fl_sv_id f ≠ []) && bool_decide (as_sv_id a ≠ fl_sv_id f) then false
  else true.

(** The reader's loop on one frame. The reused sample goes from call to call of [handle],
    which may call back with something: [None] is nothing. *)
Definition read_one {C} (filter : Filter) (handle : Z → Asdu → LeSample → LeSample * option C) (frame : Frame) (sample : LeSample)
    : LeSample * list C :=
  if decide (fr_ether_type frame ≠ ETHER_TYPE_SV) then (sample, [])
  else
    match sv_parse (fr_payload frame) with
    | Ok pdu =>
        foldl (λ '(sample, calls) a,
            if matches filter (pd_app_id pdu) a then
              let '(sample, call) := handle (pd_app_id pdu) a sample in (sample, calls ++ option_list call)
            else (sample, calls)) (sample, []) (pd_asdus pdu)
    | _ => (sample, [])
    end.

(** [subscribe] and [subscribe_le]. *)
Definition handle_raw (app_id : Z) (a : Asdu) (sample : LeSample) : LeSample * option Asdu := (sample, Some a).

Definition handle_le (app_id : Z) (a : Asdu) (sample : LeSample) : LeSample * option LeSample :=
  match decode_le_into a sample with
  | Ok s => (s, Some s)
  | _ => (sample, None)
  end.

(** ** A publisher and a subscriber on a segment *)

(** The publisher writes at end A and the subscriber reads at end B. [None] is a run or a
    reader that has ended. What was filled, the frames with how many waited before them and
    whether the pipe took them, and what the callback got are the record of what happened. *)
Record Stream := mkStream {
  sm_run : option RunState;
  sm_pipe : Pipe;
  sm_reader : option LeSample;
  sm_stopped : bool;
  sm_filled : list LeSample;
  sm_frames : list (list LeSample * (nat * bool));
  sm_delivered : list LeSample;
}.

Definition Stream_new : Stream := mkStream (Some RunState_new) pipe (Some LeSample_default) false [] [] [].

Inductive Action :=
| Tick (now : nat → Z)
| Cancel
| ReadRound
| Stop
| Close
| DropPublisher
| DropSubscriber.

Section stream.
Context (p : LePublisher) (filter : Filter) (fill : nat → Z → LeSample → LeSample).

Definition do_tick (now : nat → Z) (rs : RunState) (s : Stream) : Stream :=
  let f := fill (length (sm_filled s)) in
  let sample := f (rs_smp_cnt rs) (fresh_sample (rs_smp_cnt rs)) in
  let batch := rs_batch rs ++ [sample] in
  let '(pipe', r) := tick (λ w fr, write_frame w EndA fr) p f now rs (sm_pipe s) in
  mkStream (match r with Ok rs' => Some rs' | _ => None end) pipe' (sm_reader s) (sm_stopped s) (sm_filled s ++ [sample])
    (sm_frames s ++ if decide (zlen batch = lc_no_asdu (lp_cfg p)) then [(batch, (length (pp_channel (sm_pipe s) EndA), takes (sm_pipe s) EndA))] else [])
    (sm_delivered s).

Definition set_reader (s : Stream) (w : Pipe) (r : option LeSample) (calls : list LeSample) : Stream :=
  mkStream (sm_run s) w r (sm_stopped s) (sm_filled s) (sm_frames s) (sm_delivered s ++ calls).

Definition do_read (sample : LeSample) (s : Stream) : Stream :=
  match read_round (sm_pipe s) EndB with
  | (w, None) => set_reader s w (Some sample) []
  | (w, Some (Ok f)) =>
      if sm_stopped s then set_reader s w None []
      else let '(sample, calls) := read_one filter handle_le f sample in set_reader s w (Some sample) calls
  | (w, Some _) => set_reader s w None []
  end.

Definition set_pipe (s : Stream) (w : Pipe) : Stream :=
  mkStream (sm_run s) w (sm_reader s) (sm_stopped s) (sm_filled s) (sm_frames s) (sm_delivered s).

(** An end goes when its user has ended. *)
Definition perform (s : Stream) (a : Action) : Stream :=
  match a, sm_run s, sm_reader s with
  | Tick now, Some rs, _ => do_tick now rs s
  | Cancel, _, _ => mkStream None (sm_pipe s) (sm_reader s) (sm_stopped s) (sm_filled s) (sm_frames s) (sm_delivered s)
  | ReadRound, _, Some sample => do_read sample s
  | Stop, _, _ => mkStream (sm_run s) (sm_pipe s) (sm_reader s) true (sm_filled s) (sm_frames s) (sm_delivered s)
  | Close, _, _ => set_pipe s (close (sm_pipe s))
  | DropPublisher, None, _ => set_pipe s (drop_end (sm_pipe s) EndA)
  | DropSubscriber, _, None => set_pipe s (drop_end (sm_pipe s) EndB)
  | _, _, _ => s
  end.

Definition stream (actions : list Action) : Stream := foldl perform Stream_new actions.

End stream.

(** ** The sample count *)

Lemma next_count_mod rate c : 0 < rate → 0 ≤ c < Z.min rate 65536 → next_count rate c = (c + 1) `mod` Z.min rate 65536.
Proof.
  intros Hr Hc. unfold next_count, u16, wrap. destruct (decide (c + 1 = Z.min rate 65536)) as [E|E].
  - rewrite E, Z.mod_same by lia. destruct (decide (65536 < rate)) as [H|H].
    + rewrite Z.min_r by lia. change (65536 `mod` 2 ^ 16) with 0. by rewrite decide_False by lia.
    + rewrite Z.min_l by lia. case_decide; [done|]. destruct (decide (rate = 65536)) as [->|]; [done|].
      rewrite Z.mod_small in * by lia. lia.
  - rewrite !Z.mod_small by lia. by rewrite decide_False by lia.
Qed.

(** The count of the [k]-th sample. *)
Definition count_of (rate : Z) (k : nat) : Z := Z.of_nat k `mod` Z.min rate 65536.

Lemma count_of_next rate k : 0 < rate → next_count rate (count_of rate k) = count_of rate (S k).
Proof.
  intros Hr. unfold count_of. rewrite next_count_mod; [|done|apply Z.mod_pos_bound; lia].
  rewrite Zplus_mod_idemp_l. f_equal. lia.
Qed.

(** A second of more than 65536 samples is accepted and is not numbered in one turn: the
    count comes back to zero within it. *)
Lemma fast_count_wraps_early :
  let cfg := mkLeConfig 0x4000 (txt "MU01") 1 (default_mac 1) (replicate 6 0) None 1400 50 1 SmpPerPeriod [] None (replicate 8 0)
    (mkAsduOpts false false false false false) in
  lp_rate <$> match LePublisher_new cfg with Ok p => Some p | _ => None end = Some 70000 ∧
  N.iter 65536 (next_count 70000) 0 = 0.
Proof. split; vm_compute; reflexivity. Qed.

(** ** Delivery *)

(** What the types of the configuration allow, with frames that fit their length field. *)
Record publisher_wf (p : LePublisher) : Prop := {
  pw_app_id : in_u 16 (lc_app_id (lp_cfg p));
  pw_sv_id : utf8 (lc_sv_id (lp_cfg p)) = true;
  pw_dat_set : utf8 (lc_dat_set (lp_cfg p)) = true;
  pw_conf_rev : in_u 32 (lc_conf_rev (lp_cfg p));
  pw_gm : zlen (lp_gm_identity p) = 8;
  pw_rate : 0 < lp_rate p;
  pw_no_asdu : 1 ≤ lc_no_asdu (lp_cfg p);
  pw_fits : lc_no_asdu (lp_cfg p) * (210 + zlen (lc_sv_id (lp_cfg p)) + zlen (lc_dat_set (lp_cfg p))) ≤ 65400;
}.

Definition fields_sum (cs : list (Tag * list Z)) : Z := foldr (λ f n, zlen f.2 + 10 + n) 0 cs.

Lemma fields_sum_cons t c cs : fields_sum ((t, c) :: cs) = zlen c + 10 + fields_sum cs.
Proof. done. Qed.

Lemma fields_sum_app cs ds : fields_sum (cs ++ ds) = fields_sum cs + fields_sum ds.
Proof. induction cs as [|[t c] cs IH]; [done|]. cbn [app]. rewrite !fields_sum_cons, IH. lia. Qed.

Lemma opt_size t o n : (∀ c, o = Some c → zlen c ≤ n) → 0 ≤ n → fields_sum (opt t o) ≤ n + 10.
Proof. intros Hc Hn. destruct o as [c|]; [specialize (Hc c eq_refl)|]; simpl; lia. Qed.

Section delivery.
Context (p : LePublisher).
Hypothesis Hp : publisher_wf p.

Lemma asdu_wf_of s now : le_wf s → asdu_wf (asdu p s now).
Proof using Hp.
  intros Hs. constructor; unfold asdu; cbn [as_sv_id as_dat_set as_smp_cnt as_conf_rev as_smp_synch as_smp_rate as_gm_identity].
  - apply Hp.
  - destruct (ao_data_set _); [apply Hp|done].
  - apply Hs.
  - apply Hp.
  - apply Hs.
  - destruct (ao_sample_rate _); [by apply wrap_range|by split].
  - destruct (ao_synch_source_id _); [apply Hp|done].
Qed.

Lemma asdu_size s now :
  le_wf s → zlen (children_octets (asdu_fields (asdu p s now))) ≤ 191 + zlen (lc_sv_id (lp_cfg p)) + zlen (lc_dat_set (lp_cfg p)).
Proof using Hp.
  intros Hs. etrans; [apply fields_size|fold (fields_sum (asdu_fields (asdu p s now)))].
  - unfold asdu_fields, some_if. case_bool_decide; case_bool_decide; destruct (as_refr_tm _), (as_smp_mod _), (as_gm_identity _); by repeat constructor.
  - unfold asdu_fields. rewrite !fields_sum_cons, !fields_sum_app, !fields_sum_cons, !fields_sum_app, !fields_sum_cons, !fields_sum_app,
      !fields_sum_cons, !fields_sum_app.
    pose proof (opt_size (context_primitive 1) (some_if (bool_decide (as_dat_set (asdu p s now) ≠ [])) (as_dat_set (asdu p s now))) (zlen (lc_dat_set (lp_cfg p)))) as H1.
    pose proof (opt_size (context_primitive 4) ((λ t, Value_bytes (refr_stamp (asdu p s now) t)) <$> as_refr_tm (asdu p s now)) 8) as H4.
    pose proof (opt_size (context_primitive 6) (some_if (bool_decide (as_smp_rate (asdu p s now) ≠ 0)) (to_be 2 (as_smp_rate (asdu p s now)))) 2) as H6.
    pose proof (opt_size (context_primitive 8) ((λ m, [0; SmpMod_code m]) <$> as_smp_mod (asdu p s now)) 2) as H8.
    pose proof (opt_size (context_primitive 9) (as_gm_identity (asdu p s now)) 8) as H9.
    cbn [asdu as_sv_id as_smp_cnt as_conf_rev as_smp_synch as_sample] in *. rewrite !zlen_to_be, (proj2 (encode_le_pairs s Hs)).
    change (zlen [le_smp_synch s]) with 1. ospecialize (H1 _ _); [|apply zlen_nonneg|].
    { intros c Hc. unfold some_if in Hc. cbn [asdu as_dat_set] in Hc. destruct (ao_data_set _); case_bool_decide; simplify_eq; done. }
    ospecialize (H4 _ _); [|done|].
    { intros c Hc. apply fmap_Some in Hc as (t & _ & ->). by rewrite (proj1 (refr_stamp_raw _ _)). }
    ospecialize (H6 _ _); [|done|].
    { intros c Hc. unfold some_if in Hc. case_bool_decide; simplify_eq. by rewrite zlen_to_be. }
    ospecialize (H8 _ _); [|done|].
    { intros c Hc. by apply fmap_Some in Hc as (m & _ & ->). }
    ospecialize (H9 _ _); [|done|].
    { intros c Hc. cbn [asdu as_gm_identity] in Hc. destruct (ao_synch_source_id _); simplify_eq. by rewrite (pw_gm p Hp). }
    lia.
Qed.

Lemma samples_size (now : nat → Z) b : ∀ k,
  Forall le_wf b →
  zlen (children_octets (map (pair TAG_SEQUENCE) (map (λ a, children_octets (asdu_fields a)) (imap (λ i s, asdu p s (now (k + i)%nat)) b)))) ≤
    zlen b * (201 + zlen (lc_sv_id (lp_cfg p)) + zlen (lc_dat_set (lp_cfg p))).
Proof using Hp.
  induction b as [|s b IH]; intros k Hb; [done|]. apply Forall_cons in Hb as [Hs Hb]. rewrite imap_cons. cbn [map].
  rewrite children_octets_cons, zlen_app, zlen_cons. pose proof (asdu_size s (now (k + 0)%nat) Hs) as Ha.
  pose proof (zlen_tlv_le TAG_SEQUENCE (children_octets (asdu_fields (asdu p s (now (k + 0)%nat)))) ltac:(done)) as Ht.
  specialize (IH (S k) Hb).
  rewrite (imap_ext _ (λ i s, asdu p s (now (S k + i)%nat))) by (intros; simpl; by rewrite Nat.add_succ_r). lia.
Qed.

Definition frame_pdu (b : list LeSample) (now : nat → Z) : Pdu := mkPdu (lc_app_id (lp_cfg p)) (imap (λ i s, asdu p s (now i)) b).

Lemma frame_fits b now : Forall le_wf b → zlen b ≤ lc_no_asdu (lp_cfg p) → Pdu_size (frame_pdu b now) ≤ 65535.
Proof using Hp.
  intros Hb Hl. rewrite Pdu_size_octets. pose proof (samples_size now b 0 Hb) as Hs. simpl in Hs.
  pose proof (zlen_nonneg b). pose proof (pw_fits p Hp). pose proof (zlen_nonneg (lc_sv_id (lp_cfg p))).
  pose proof (zlen_nonneg (lc_dat_set (lp_cfg p))).
  pose proof (zlen_tlv_le sav_pdu_tag (children_octets (sav_fields (frame_pdu b now))) ltac:(done)) as Ht.
  assert (zlen (children_octets (sav_fields (frame_pdu b now))) ≤
      zlen (append_uint [] (zlen (pd_asdus (frame_pdu b now)))) + 10 + (zlen b * (201 + zlen (lc_sv_id (lp_cfg p)) + zlen (lc_dat_set (lp_cfg p))) + 10 + 0)) as Hc.
  { etrans; [apply fields_size; by repeat constructor|]. cbn [sav_fields foldr snd frame_pdu pd_asdus]. lia. }
  assert (zlen b * (210 + zlen (lc_sv_id (lp_cfg p)) + zlen (lc_dat_set (lp_cfg p))) ≤ 65400) as Hm by nia.
  assert (zlen (append_uint [] (zlen (pd_asdus (frame_pdu b now)))) ≤ 9) as Hu.
  { apply append_uint_short. unfold frame_pdu, zlen. cbn [pd_asdus]. rewrite length_imap. fold (zlen b). unfold in_u. nia. }
  destruct b as [|s b]; [|rewrite zlen_cons in *; pose proof (zlen_nonneg b)]; [change (zlen (@nil LeSample)) with 0 in *|]; nia.
Qed.

(** A subscriber that wants the stream is called back with the samples of a frame, in order,
    as they were filled. *)
Definition wants (f : Filter) : Prop :=
  (fl_app_id f = 0 ∨ fl_app_id f = lc_app_id (lp_cfg p)) ∧ (fl_sv_id f = [] ∨ fl_sv_id f = lc_sv_id (lp_cfg p)).

Lemma wants_matches f s now : wants f → matches f (lc_app_id (lp_cfg p)) (asdu_received (asdu p s now)) = true.
Proof.
  intros [H1 H2]. unfold matches. cbn [asdu_received asdu as_sv_id]. repeat case_bool_decide; naive_solver.
Qed.

Lemma read_frame_samples f b now sample :
  wants f → Forall le_wf b → zlen b ≤ lc_no_asdu (lp_cfg p) →
  ∃ sample', read_one f handle_le (sv_frame p b now) sample = (sample', b).
Proof using Hp.
  intros Hf Hb Hl. unfold read_one, sv_frame. cbn [fr_ether_type fr_payload]. rewrite decide_False by naive_solver.
  fold (frame_pdu b now). rewrite <-(app_nil_r (Pdu_marshal _)). pose proof (frame_fits b now Hb Hl) as Hs.
  rewrite sv_parse_marshal; [|apply Hp| |done].
  2:{ unfold frame_pdu. cbn [pd_asdus]. clear Hs Hl. generalize 0%nat as k.
      assert (∀ g, Forall asdu_wf (imap (λ i s, asdu p s (g i)) b)) as H; [|intros _; apply H].
      induction Hb as [|s b Hs Hb IH]; intros g; [constructor|]. rewrite imap_cons. constructor; [by apply asdu_wf_of|apply IH]. }
  unfold frame_pdu. cbn [pd_app_id pd_asdus]. clear Hs Hl.
  cut (∀ g sample calls, ∃ sample', foldl (λ '(sample, calls) a,
      if matches f (lc_app_id (lp_cfg p)) a then
        let '(sample, call) := handle_le (lc_app_id (lp_cfg p)) a sample in (sample, calls ++ option_list call)
      else (sample, calls)) (sample, calls) (map asdu_received (imap (λ i s, asdu p s (g i)) b)) = (sample', calls ++ b)).
  { intros H. apply H. }
  clear sample. induction Hb as [|s b Hs Hb IH]; intros g sample calls; [exists sample; by rewrite app_nil_r|].
  rewrite imap_cons. cbn [map foldl]. rewrite wants_matches by done. unfold handle_le at 2.
  rewrite (le_sample_roundtrip sample s) by done. cbn [option_list option_rect].
  destruct (IH (g ∘ S) s (calls ++ [s])) as [sample' H]. exists sample'. rewrite <-app_assoc in H. exact H.
Qed.
End delivery.

(** The samples of the frames the pipe took. *)
Definition taken (frames : list (list LeSample * (nat * bool))) : list LeSample :=
  concat (map (λ fr : list LeSample * (nat * bool), if fr.2.2 then fr.1 else []) frames).

Section invariant.
Context (p : LePublisher) (f : Filter) (fill : nat → Z → LeSample → LeSample).
Hypothesis Hp : publisher_wf p.
Hypothesis Hf : wants p f.
(** The callback is given a [&mut LeSample]: what it leaves is one. *)
Hypothesis Hfill : ∀ k c s, le_wf s → le_wf (fill k c s).

Definition frame_of (b : list LeSample) (fr : Frame) : Prop :=
  Forall le_wf b ∧ zlen b = lc_no_asdu (lp_cfg p) ∧ ∃ now, fr = sv_frame p b now.

Definition filled_at (k : nat) : LeSample := fill k (count_of (lp_rate p) k) (fresh_sample (count_of (lp_rate p) k)).

Record stream_inv (s : Stream) : Prop := {
  si_filled : sm_filled s = map filled_at (seq 0 (length (sm_filled s)));
  si_batches : ∃ rest, concat (map fst (sm_frames s)) ++ rest = sm_filled s ∧ zlen rest < lc_no_asdu (lp_cfg p) ∧
    ∀ rs, sm_run s = Some rs → rs_batch rs = rest ∧ rs_smp_cnt rs = count_of (lp_rate p) (length (sm_filled s));
  si_frames : Forall (λ fr, zlen fr.1 = lc_no_asdu (lp_cfg p)) (sm_frames s);
  si_dropped : sm_run s ≠ None → Forall (λ fr, fr.2.2 = false → PIPE_DEPTH ≤ fr.2.1)%nat (sm_frames s);
  si_waiting : ∃ lost waiting, Forall2 frame_of waiting (pp_channel (sm_pipe s) EndA) ∧
    taken (sm_frames s) = sm_delivered s ++ lost ++ concat waiting ∧ (sm_reader s ≠ None → lost = []);
}.

Lemma taken_snoc frames b n t : taken (frames ++ [(b, (n, t))]) = taken frames ++ (if t then b else []).
Proof. unfold taken. by rewrite map_app, concat_app; cbn [map concat fst snd]; rewrite app_nil_r. Qed.

Lemma filled_wf k : le_wf (filled_at k).
Proof using Hfill Hp.
  apply Hfill. assert (0 ≤ count_of (lp_rate p) k < Z.min (lp_rate p) 65536) as H.
  { apply Z.mod_pos_bound. pose proof (pw_rate p Hp). lia. }
  constructor; simpl; [unfold in_u; lia|done|by repeat constructor..].
Qed.

Lemma batch_wf s b : stream_inv s → (∀ x, x ∈ b → x ∈ sm_filled s) → Forall le_wf b.
Proof using Hfill Hp.
  intros Hs Hb. apply Forall_forall. intros x Hx. apply Hb in Hx. rewrite (si_filled s Hs) in Hx.
  apply list_elem_of_fmap in Hx as (k & -> & _). apply filled_wf.
Qed.

Lemma stream_tick now rs s : stream_inv s → sm_run s = Some rs → stream_inv (do_tick p fill now rs s).
Proof using Hfill Hp.
  intros Hs Hr. destruct (si_batches s Hs) as (rest & Hcat & Hrest & Hrs). destruct (Hrs rs Hr) as [Hb Hc]. clear Hrs.
  unfold do_tick, tick. rewrite Hb, Hc. set (n := length (sm_filled s)). change (fill n _ _) with (filled_at n).
  assert (sm_filled s ++ [filled_at n] = map filled_at (seq 0 (S n))) as Hfilled.
  { rewrite seq_S, map_app. pose proof (si_filled s Hs) as E. fold n in E. rewrite E at 1. done. }
  assert (∃ lost waiting, Forall2 frame_of waiting (pp_channel (sm_pipe s) EndA) ∧
    taken (sm_frames s) = sm_delivered s ++ lost ++ concat waiting ∧ (sm_reader s ≠ None → lost = [])) as Hw by apply Hs.
  pose proof (count_of_next (lp_rate p) n (pw_rate p Hp)) as Hnext. case_decide as Hfull.
  - unfold emit_all. pose proof (write_frame_spec (sm_pipe s) EndA (sv_frame p (rest ++ [filled_at n]) now)) as Hspec.
    destruct (write_frame _ _ _) as [w r]. destruct Hspec as (Hch & _ & _ & Hdrop & _).
    assert (frame_of (rest ++ [filled_at n]) (sv_frame p (rest ++ [filled_at n]) now)) as Hfr.
    { split; [|split; [done|by exists now]]. apply Forall_app. split; [|by repeat constructor; apply filled_wf].
      apply (batch_wf s); [done|]. intros x Hx. rewrite <-Hcat. apply elem_of_app. by right. }
    constructor; cbn [sm_filled sm_frames sm_run sm_pipe sm_reader sm_delivered].
    + rewrite Hfilled. by rewrite length_map, length_seq.
    + exists []. rewrite map_app, concat_app, <-Hcat. cbn [map concat fst]. rewrite !app_nil_r, !app_assoc.
      split; [done|]. split; [pose proof (pw_no_asdu p Hp); unfold zlen; simpl; lia|].
      intros rs'. destruct r; [|done..]. cbn [map_err mbind outcome_bind]. intros [= <-]. split; [done|]. simpl.
      rewrite Hnext, Hcat, length_app. simpl. f_equal. unfold n. lia.
    + apply Forall_app. split; [apply Hs|by repeat constructor].
    + intros Hrun. apply Forall_app. split; [apply Hs; by rewrite Hr|]. constructor; [|done]. simpl. intros Ht. apply Hdrop; [|done].
      destruct r as [[]| | |]; done.
    + destruct Hw as (lost & waiting & HF & Ht & Hl). exists lost. rewrite taken_snoc, Ht, Hch.
      destruct (takes (sm_pipe s) EndA).
      * exists (waiting ++ [rest ++ [filled_at n]]). split; [apply Forall2_app; [done|constructor; [exact Hfr|constructor]]|].
        rewrite concat_app. cbn [concat]. rewrite app_nil_r, <-!app_assoc. done.
      * exists waiting. by rewrite !app_nil_r.
  - constructor; cbn [sm_filled sm_frames sm_run sm_pipe sm_reader sm_delivered]; rewrite ?app_nil_r; try apply Hs; try done.
    + rewrite Hfilled. by rewrite length_map, length_seq.
    + exists (rest ++ [filled_at n]). rewrite app_assoc, Hcat. split; [done|]. rewrite zlen_app, zlen_cons in *.
      change (zlen (@nil LeSample)) with 0 in *. split; [lia|]. intros rs' [= <-]. split; [done|]. simpl.
      rewrite Hnext, length_app. simpl. f_equal. unfold n. lia.
    + intros _. apply Hs. by rewrite Hr.
Qed.

Lemma stream_read sample s : stream_inv s → sm_reader s = Some sample → stream_inv (do_read f sample s).
Proof using Hf Hp.
  intros Hs Hr. destruct (si_waiting s Hs) as (lost & waiting & HF & Ht & Hl). rewrite Hl in Ht by (by rewrite Hr). clear Hl lost.
  unfold do_read. destruct (read_round (sm_pipe s) EndB) as [w [[fr| | |]|]] eqn:Hread;
    try (apply read_round_other in Hread as ->; [|done]; constructor; try apply Hs; exists [], waiting;
         cbn [set_reader sm_delivered sm_frames sm_pipe sm_reader]; by rewrite app_nil_r).
  apply read_round_got in Hread as (_ & Hq & _). simpl in Hq. rewrite Hq in HF.
  destruct waiting as [|b waiting]; [inversion HF|]. apply Forall2_cons in HF as [(Hb & Hlen & now & ->) HF].
  destruct (sm_stopped s).
  - constructor; try apply Hs. exists b, waiting. cbn [set_reader sm_delivered sm_frames sm_pipe sm_reader]. by rewrite app_nil_r.
  - destruct (read_frame_samples p Hp f b now sample Hf Hb) as [sample' ->]; [lia|]. constructor; try apply Hs.
    exists [], waiting. split; [done|]. split; [|done]. simpl in *. by rewrite Ht, <-app_assoc.
Qed.

Lemma stream_reaches actions : stream_inv (stream p f fill actions).
Proof using Hf Hfill Hp.
  unfold stream. rewrite <-(rev_involutive actions). induction (rev actions) as [|a l IH]; simpl.
  - constructor; try done; [|by exists [], []]. exists []. split; [done|]. split; [pose proof (pw_no_asdu p Hp); unfold zlen; simpl; lia|].
    intros rs [= <-]. split; [done|]. unfold count_of. simpl. by rewrite Zmod_0_l.
  - rewrite foldl_snoc. set (s := foldl _ _ _) in *. clearbody s. unfold perform.
    destruct a; destruct (sm_run s) as [rs|] eqn:Hrun; destruct (sm_reader s) as [sample|] eqn:Hread;
      try done; try (by apply stream_tick); try (by apply stream_read);
      (destruct IH as [Ifilled (rest & ? & ? & Irs) Iframes Idropped (lost & waiting & ? & ? & Ilost)]; rewrite Hrun, Hread in *;
       constructor; simpl; rewrite ?Hrun, ?Hread; [done|by exists rest|done|done || by intros []|by exists lost, waiting]).
Qed.
End invariant.

(** The types of a configuration, and frames that fit the 16 bits of their length. *)
Record config_wf (c : LeConfig) : Prop := {
  cw_app_id : in_u 16 (lc_app_id c);
  cw_sv_id : utf8 (lc_sv_id c) = true;
  cw_dat_set : utf8 (lc_dat_set c) = true;
  cw_conf_rev : in_u 32 (lc_conf_rev c);
  cw_gm : zlen (lc_gm_identity c) = 8;
  cw_no_asdu : in_u 32 (lc_no_asdu c);
  cw_fits : or_default (lc_no_asdu c) 1 * (210 + zlen (lc_sv_id c) + zlen (lc_dat_set c)) ≤ 65400;
}.

(** A publisher that [new] accepts has a positive rate, so the interval of its clock is
    defined, and a frame in every second. *)
Lemma publisher_new_wf c p :
  config_wf c → LePublisher_new c = Ok p →
  publisher_wf p ∧ lc_no_asdu (lp_cfg p) ≤ lp_rate p ≤ U32_MAX ∧ lc_app_id (lp_cfg p) = lc_app_id c ∧
  lc_sv_id (lp_cfg p) = lc_sv_id c ∧ lc_sv_id c ≠ [] ∧ smp_rate p ≤ 65535 ∧ settled (sample_interval (E:=SvError) p).
Proof.
  intros Hc. unfold LePublisher_new. case_decide; [done|]. cbv zeta.
  set (c' := with_rates c _ _ _). generalize (lc_samples_per_cycle c' * lc_nominal_hz c') as rate. intros rate. case_decide; [done|]. case_decide; [done|]. case_decide; [done|]. case_decide; [done|]. intros [= <-].
  cbn [lp_cfg lp_rate]. assert (1 ≤ lc_no_asdu c') as Hn.
  { destruct (cw_no_asdu c Hc). simpl. unfold or_default. case_decide; lia. }
  split; [destruct Hc; constructor; first [assumption|cbn [lp_rate lp_cfg]; lia]|]. split; [lia|]. do 3 (split; [done|]).
  split; [unfold smp_rate in *; cbn [lp_cfg lp_rate] in *; lia|].
  unfold sample_interval. cbn [lp_rate]. rewrite decide_False by lia. done.
Qed.


Definition example_config : LeConfig :=
  mkLeConfig 0x4000 (txt "MU01") 1 (default_mac 1) (replicate 6 0) None 80 50 2 SmpPerPeriod [] None (replicate 8 0)
    (mkAsduOpts true false false true false).

