(* ===== verification/FileStore.v ===== *)
(** The file store of a server (src/src/server/file.rs): names resolved inside a
    directory, files read whole when they are opened and given out in chunks, the
    listing of a directory, and the operations that change the store.

    The operating system's file system is a parameter: the calls of [std::fs] the store
    makes, on a state of their own. *)

From stdpp Require Import gmap pretty.
From S2P Require Import Prelude BerPrim TimeUtil Utf8 Text BTree.
Local Open Scope list_scope.
Local Open Scope Z_scope.

(** ** The file system *)

(** A path is its components; [[]] is the root of the file system, or for a relative path
    the directory it is relative to. *)
Definition Path : Type := list (list Z).

(** [std::io::ErrorKind], as far as the store tells them apart. *)
Inductive ErrorKind := NotFound | PermissionDenied | AlreadyExists | InvalidInput | OtherKind.

#[export] Instance ErrorKind_eq_dec : EqDecision ErrorKind.
Proof. solve_decision. Defined.

Abbreviation io := (outcome ErrorKind).

Record Metadata := mkMetadata {
  md_is_dir : bool;
  md_len : Z;
  md_modified : option Z;
}.

Class FileSystem (F : Type) := {
  canonicalize : F → Path → option Path;
  metadata : F → Path → io Metadata;
  symlink_metadata : F → Path → io Metadata;
  fs_read : F → Path → io (list Z);
  read_dir : F → Path → io (list (io (list Z * Metadata)));
  remove_file : F → Path → io unit * F;
  hard_link : F → Path → Path → io unit * F;
  (** [OpenOptions::new().write(true).create_new(true)]; the file written to afterwards is
      the one at the path. *)
  fs_create_new : F → Path → io unit * F;
  fs_write_all : F → Path → list Z → io unit * F;
  fs_flush : F → Path → io unit * F;
}.

(** ** The store *)

Definition FILE_CHUNK_SIZE : Z := 8000.

Record FileInfo := mkFileInfo {
  fi_name : list Z;
  fi_size : Z;
  fi_modified : option Z;
}.

Record OpenFile := mkOpenFile {
  of_data : list Z;
  of_pos : Z;
}.

Record FileStore := mkFileStore {
  fs_root : Path;
  fs_writable : bool;
  fs_next : Z;
  fs_open : gmap Z OpenFile;
}.

Definition FileStore_new (root : Path) : FileStore := mkFileStore root true 1 ∅.
Definition FileStore_read_only (root : Path) : FileStore := mkFileStore root false 1 ∅.

Definition BACKSLASH : Z := 92.

(** [s.trim_start_matches('/')] and [s.trim_matches('/')]. *)
Fixpoint trim_start_slash (s : list Z) : list Z :=
  match s with c :: s' => if decide (c = SLASH) then trim_start_slash s' else s | [] => [] end.
Definition trim_slash (s : list Z) : list Z := reverse (trim_start_slash (reverse (trim_start_slash s))).

(** [Path::components] of a name that does not start with a slash: empty parts and [.]
    are passed over, [..] is the parent. *)
Fixpoint push_components (out : Path) (parts : list (list Z)) : option Path :=
  match parts with
  | [] => Some out
  | part :: parts =>
      if decide (part = [] ∨ part = txt ".") then push_components out parts
      else if decide (part = txt "..") then None
      else push_components (out ++ [part]) parts
  end.

Definition normalise (name : list Z) : list Z :=
  trim_start_slash (map (λ c, if decide (c = BACKSLASH) then SLASH else c) name).

(** [p.parent()]. *)
Definition parent (p : Path) : option Path := match p with [] => None | _ => Some (take (length p - 1) p) end.

Section store.
Context {F : Type} `{FileSystem F}.

(** The deepest part of the path that exists, [up] components at most above it. *)
Fixpoint probe (up : nat) (f : F) (p : Path) : option Path :=
  match canonicalize f p with
  | Some real => Some real
  | None => match up with O => None | S up => q ← parent p; probe up f q end
  end.

Definition resolve (s : FileStore) (f : F) (name : list Z) : option Path :=
  out ← push_components (fs_root s) (split SLASH (normalise name));
  match canonicalize f (fs_root s) with
  | None => Some out
  | Some root =>
      real ← probe (length out) f out;
      if decide (root `prefix_of` real) then Some out else None
  end.

Definition resolve_file (s : FileStore) (f : F) (name : list Z) : io Path :=
  match resolve s f name with
  | None => Err PermissionDenied
  | Some path => if decide (path = fs_root s) then Err InvalidInput else Ok path
  end.

Definition exists_ (s : FileStore) (f : F) (name : list Z) : bool :=
  match resolve s f name with
  | Some p => match symlink_metadata f p with Ok _ => true | _ => false end
  | None => false
  end.

Definition create_new (s : FileStore) (f : F) (name : list Z) : io Path * F :=
  match resolve_file s f name with
  | Ok path => let '(r, f) := fs_create_new f path in (_ ← r; Ok path, f)
  | e => (e, f)
  end.

Definition rename (s : FileStore) (f : F) (old new : list Z) : io unit * F :=
  match resolve_file s f old with
  | Ok from =>
      match resolve_file s f new with
      | Ok to =>
          match symlink_metadata f to with
          | Ok _ => (Err AlreadyExists, f)
          | _ =>
              let '(r, f) := hard_link f from to in
              match r with
              | Ok _ => remove_file f from
              | e => (e, f)
              end
          end
      | e => (_ ← e; Ok (), f)
      end
  | e => (_ ← e; Ok (), f)
  end.

Definition set_open (s : FileStore) (next : Z) (open : gmap Z OpenFile) : FileStore :=
  mkFileStore (fs_root s) (fs_writable s) next open.

Definition open (s : FileStore) (f : F) (name : list Z) : io (Z * Z * option Z) * FileStore :=
  let opened :=
    path ← match resolve s f name with Some p => Ok p | None => Err PermissionDenied end;
    meta ← metadata f path;
    if md_is_dir meta then Err InvalidInput
    else data ← fs_read f path; Ok (data, md_modified meta) in
  match opened with
  | Ok (data, modified) =>
      let size := Z.min (zlen data) U32_MAX in
      let id := fs_next s in
      (Ok (id, size, modified),
       set_open s (Z.max (swrap 32 (id + 1)) 1) (<[id := mkOpenFile data 0]> (fs_open s)))
  | e => (_ ← e; Err OtherKind, s)
  end.

Definition read (s : FileStore) (id max_chunk : Z) : option (list Z * bool) * FileStore :=
  match fs_open s !! id with
  | None => (None, s)
  | Some f =>
      let stop := Z.min (of_pos f + Z.max max_chunk 1) (zlen (of_data f)) in
      let chunk := take (Z.to_nat (stop - of_pos f)) (drop (Z.to_nat (of_pos f)) (of_data f)) in
      (Some (chunk, bool_decide (stop < zlen (of_data f))),
       set_open s (fs_next s) (<[id := mkOpenFile (of_data f) stop]> (fs_open s)))
  end.

Definition close (s : FileStore) (id : Z) : FileStore := set_open s (fs_next s) (delete id (fs_open s)).

(** [out.sort_by(|a, b| a.name.cmp(&b.name))]. *)
Fixpoint insert_info (e : FileInfo) (l : list FileInfo) : list FileInfo :=
  match l with
  | [] => [e]
  | x :: l' => match cmp (fi_name e) (fi_name x) with Gt => x :: insert_info e l' | _ => e :: l end
  end.
Definition sort_by_name (l : list FileInfo) : list FileInfo := foldr insert_info [] l.

Definition dir_info (dir : list Z) (entry : io (list Z * Metadata)) : io FileInfo :=
  '(file_name, meta) ← entry;
  let name := from_utf8_lossy file_name in
  let prefix := trim_slash dir in
  let name := if decide (prefix = []) then name else prefix ++ SLASH :: name in
  let name := if md_is_dir meta then name ++ [SLASH] else name in
  Ok (mkFileInfo name (Z.min (md_len meta) U32_MAX) (md_modified meta)).

Fixpoint dir_infos (dir : list Z) (entries : list (io (list Z * Metadata))) : io (list FileInfo) :=
  match entries with
  | [] => Ok []
  | e :: entries => i ← dir_info dir e; l ← dir_infos dir entries; Ok (i :: l)
  end.

Definition list_dir (s : FileStore) (f : F) (dir : list Z) : io (list FileInfo) :=
  path ← match resolve s f dir with Some p => Ok p | None => Err PermissionDenied end;
  entries ← read_dir f path;
  out ← dir_infos dir entries;
  Ok (sort_by_name out).

Definition delete_file (s : FileStore) (f : F) (name : list Z) : io unit * F :=
  match resolve_file s f name with
  | Ok path => remove_file f path
  | e => (_ ← e; Ok (), f)
  end.

Definition open_count (s : FileStore) : Z := Z.of_nat (size (fs_open s)).

End store.

(** ** Names stay inside *)

(** A component that leads nowhere but down. *)
Definition plain_component (c : list Z) : Prop := c ≠ [] ∧ c ≠ txt "." ∧ c ≠ txt ".." ∧ SLASH ∉ c.

Lemma push_components_down parts : ∀ out p,
  Forall (λ c, SLASH ∉ c) parts → push_components out parts = Some p → ∃ down, p = out ++ down ∧ Forall plain_component down.
Proof.
  induction parts as [|part parts IH]; intros out p Hs; cbn [push_components].
  - intros [= <-]. exists []. by rewrite app_nil_r.
  - apply Forall_cons in Hs as [Hp Hs]. case_decide as H1; [by apply IH|]. case_decide as H2; [done|].
    intros (down & -> & Hd)%IH; [|done]. exists (part :: down). rewrite <-app_assoc. split; [done|]. constructor; [|done].
    unfold plain_component. naive_solver.
Qed.

Lemma split_sep_free c s : Forall (λ w, c ∉ w) (split c s).
Proof.
  induction s as [|a s IH]; cbn [split]; [by repeat constructor; apply not_elem_of_nil|].
  case_decide as Ha; [constructor; [apply not_elem_of_nil|done]|].
  destruct (split c s) as [|w ws]; [by repeat constructor; set_solver|].
  apply Forall_cons in IH as [Hw Hws]. constructor; [|done]. set_solver.
Qed.

Section confined.
Context {F : Type} `{FileSystem F}.

(** What [probe] finds is the real place of the longest existing part of the path. *)
Lemma probe_spec up f p real :
  probe up f p = Some real →
  ∃ q rest, p = q ++ rest ∧ canonicalize f q = Some real ∧ ∀ r r', rest = r ++ r' → r ≠ [] → canonicalize f (q ++ r) = None.
Proof.
  revert p. induction up as [|up IH]; intros p; cbn [probe]; destruct (canonicalize f p) as [real'|] eqn:Hc; try done.
  - intros [= ->]. exists p, []. rewrite app_nil_r. split; [done|]. split; [done|]. intros r r' Hr Hn. by destruct r.
  - intros [= ->]. exists p, []. rewrite app_nil_r. split; [done|]. split; [done|]. intros r r' Hr Hn. by destruct r.
  - destruct p as [|x p _] using rev_ind; [done|]. unfold parent. destruct (p ++ [x]) as [|y l] eqn:E; [by destruct p|].
    rewrite <-E in *. rewrite length_app. cbn [length]. rewrite Nat.add_sub, take_app_length. simpl.
    intros (q & rest & -> & Hq & Hrest)%IH. exists q, (rest ++ [x]). rewrite app_assoc. split; [done|]. split; [done|].
    intros r r' Hr Hn. destruct r' as [|z r' _] using rev_ind.
    + rewrite app_nil_r in Hr. subst r. by rewrite app_assoc.
    + rewrite app_assoc in Hr. apply app_inj_tail in Hr as [-> _]. eapply Hrest; done.
Qed.

(** Where a path really is, as far as it exists. *)
Definition really_inside (f : F) (root p : Path) : Prop :=
  ∃ q rest real, p = q ++ rest ∧ canonicalize f q = Some real ∧ root `prefix_of` real ∧
    ∀ r r', rest = r ++ r' → r ≠ [] → canonicalize f (q ++ r) = None.

(** C18: No name reaches outside the file store: a name a client gives is resolved only to
    the store's root extended by components that lead down (none empty, [.] or [..], none
    with a separator), and when the root exists, symbolic links followed, the longest part
    of the path that exists lies under it; so a file that exists is a file of the store. *)
Theorem resolve_confined (s : FileStore) (f : F) (name : list Z) (p : Path) :
  resolve s f name = Some p →
  (∃ down, p = fs_root s ++ down ∧ Forall plain_component down) ∧
  ∀ root, canonicalize f (fs_root s) = Some root →
    really_inside f root p ∧ ∀ real, canonicalize f p = Some real → root `prefix_of` real.
Proof.
  unfold resolve. intros (out & Hout & Hr)%bind_Some.
  destruct (push_components_down _ _ _ (split_sep_free SLASH _) Hout) as (down & -> & Hd).
  destruct (canonicalize f (fs_root s)) as [root|] eqn:Hroot.
  - apply bind_Some in Hr as (real & Hreal & Hp). case_decide as Hin; [|done]. injection Hp as <-. split; [eauto|].
    intros root' [= <-]. apply probe_spec in Hreal as (q & rest & Hq & Hc & Hrest). split; [by exists q, rest, real|].
    intros real' Hreal'. destruct (decide (rest = [])) as [->|Hne].
    + rewrite app_nil_r in Hq. subst q. congruence.
    + specialize (Hrest rest [] ltac:(by rewrite app_nil_r) Hne). rewrite <-Hq in Hrest. congruence.
  - injection Hr as <-. split; [eauto|]. done.
Qed.

Lemma resolve_file_below s f name p :
  resolve_file s f name = Ok p → resolve s f name = Some p ∧ p ≠ fs_root s.
Proof. unfold resolve_file. destruct (resolve s f name); [|done]. case_decide; [done|]. by intros [= ->]. Qed.

(** ** Chunks *)

Lemma read_chunk s id n data pos :
  fs_open s !! id = Some (mkOpenFile data pos) → 0 ≤ pos ≤ zlen data →
  let stop := Z.min (pos + Z.max n 1) (zlen data) in
  read s id n = (Some (take (Z.to_nat (stop - pos)) (drop (Z.to_nat pos) data), bool_decide (stop < zlen data)),
    set_open s (fs_next s) (<[id := mkOpenFile data stop]> (fs_open s))).
Proof. intros Ho Hp. unfold read. by rewrite Ho. Qed.

(** ** Listing *)

Lemma insert_info_perm e l : insert_info e l ≡ₚ e :: l.
Proof.
  induction l as [|x l IH]; [done|]. cbn [insert_info]. destruct (cmp _ _); [done|done|].
  rewrite IH. apply Permutation_swap.
Qed.

Lemma sort_by_name_perm l : sort_by_name l ≡ₚ l.
Proof. induction l as [|e l IH]; [done|]. cbn [sort_by_name foldr]. fold (sort_by_name l). by rewrite insert_info_perm, IH. Qed.

End confined.

(** ** A file system

    Files, directories and links to either, by path: enough to run the store on. *)

Inductive Node := NFile (data : list Z) (modified : Z) | NDir | NLink (target : Path).

Abbreviation Disk := (gmap Path Node).

Definition follow (d : Disk) (p : Path) : option (Path * Node) :=
  match d !! p with
  | Some (NLink target) => n ← d !! target; Some (target, n)
  | Some n => Some (p, n)
  | None => None
  end.

Definition node_metadata (n : Node) : Metadata :=
  match n with
  | NFile data modified => mkMetadata false (zlen data) (Some modified)
  | NDir => mkMetadata true 0 (Some 0)
  | NLink _ => mkMetadata false 0 (Some 0)
  end.

Definition child_of (dir p : Path) : option (list Z) :=
  match reverse p with name :: up => if decide (reverse up = dir) then Some name else None | [] => None end.

#[export] Instance Disk_fs : FileSystem Disk := {|
  canonicalize d p := fst <$> follow d p;
  metadata d p := match follow d p with Some (_, n) => Ok (node_metadata n) | None => Err NotFound end;
  symlink_metadata d p := match d !! p with Some n => Ok (node_metadata n) | None => Err NotFound end;
  fs_read d p := match follow d p with Some (_, NFile data _) => Ok data | Some _ => Err OtherKind | None => Err NotFound end;
  read_dir d p :=
    match follow d p with
    | Some (p, NDir) => Ok (omap (λ e, name ← child_of p e.1; Some (Ok (name, node_metadata e.2))) (map_to_list d))
    | Some _ => Err OtherKind
    | None => Err NotFound
    end;
  remove_file d p :=
    match d !! p with Some NDir => (Err OtherKind, d) | Some _ => (Ok (), delete p d) | None => (Err NotFound, d) end;
  hard_link d from to :=
    match d !! from, d !! to with
    | Some _, Some _ => (Err AlreadyExists, d)
    | Some NDir, _ => (Err PermissionDenied, d)
    | Some n, None => (Ok (), <[to := n]> d)
    | None, _ => (Err NotFound, d)
    end;
  fs_create_new d p := match d !! p with Some _ => (Err AlreadyExists, d) | None => (Ok (), <[p := NFile [] 0]> d) end;
  fs_write_all d p data :=
    match d !! p with Some (NFile old t) => (Ok (), <[p := NFile (old ++ data) t]> d) | _ => (Err OtherKind, d) end;
  fs_flush d p := (Ok (), d);
|}.

Definition example_disk : Disk :=
  list_to_map
    [([txt "srv"], NDir); ([txt "srv"; txt "cfg"], NDir); ([txt "srv"; txt "cfg"; txt "a.cid"], NFile [1; 2; 3] 0);
     ([txt "srv"; txt "out"], NLink [txt "etc"]); ([txt "etc"], NDir); ([txt "etc"; txt "passwd"], NFile [9] 0)].

Lemma resolve_confined_witness :
  let s := FileStore_new [txt "srv"] in
  resolve s example_disk (txt "/cfg\./a.cid") = Some [txt "srv"; txt "cfg"; txt "a.cid"] ∧
  really_inside example_disk [txt "srv"] [txt "srv"; txt "cfg"; txt "a.cid"] ∧
  resolve s example_disk (txt "cfg/../../etc/passwd") = None ∧ resolve s example_disk (txt "out/passwd") = None.
Proof.
  intros s. assert (resolve s example_disk (txt "/cfg\./a.cid") = Some [txt "srv"; txt "cfg"; txt "a.cid"]) as H by (vm_compute; reflexivity).
  split; [exact H|]. split; [|split; vm_compute; reflexivity].
  refine (proj1 (proj2 (resolve_confined s example_disk _ _ H) [txt "srv"] _)). vm_compute. reflexivity.
Defined.

(** A rename moves the file to a name that was free, or changes nothing. *)
Lemma rename_keeps_others (s : FileStore) (d : Disk) old new r d' :
  rename s d old new = (r, d') →
  (r = Ok () → ∃ from to n, resolve_file s d old = Ok from ∧ resolve_file s d new = Ok to ∧ d !! from = Some n ∧ d !! to = None ∧
     d' = delete from (<[to := n]> d)) ∧
  (r ≠ Ok () → d' = d).
Proof.
  unfold rename. destruct (resolve_file s d old) as [from|e| |] eqn:E1; try (intros [= <- <-]; split; [done|done]).
  destruct (resolve_file s d new) as [to|e| |] eqn:E2; try (intros [= <- <-]; split; [done|done]).
  simpl. destruct (d !! to) as [n'|] eqn:Eto; [intros [= <- <-]; by split|].
  destruct (d !! from) as [n|] eqn:Efrom; [|intros [= <- <-]; by split].
  assert (from ≠ to) as Hne by congruence. simpl.
  destruct n; simpl; rewrite ?lookup_insert_ne, ?Efrom by done; (intros [= <- <-]; split; [|done]; try done; intros _; by eexists _, _, _).
Qed.
