(* ===== verification/FileService.v ===== *)
(** The file services from end to end: what the server makes of a request
    (src/src/server/handler.rs and services_ext.rs), the names and times they carry
    (src/src/mms/client_ext.rs), and the client's reader of a whole file
    (src/src/client/file.rs). *)

From stdpp Require Import gmap pretty.
From S2P Require Import Prelude Ber BerDecoder Float BerPrim TimeUtil Utf8 Text Errors MmsValue MmsCodec BerFields.
From S2P Require Import MmsPdu TypeSpec InfoReport Services ServerConn Wire NameList DataSets FileStore.
Local Open Scope string_scope.
Local Open Scope list_scope.
Local Open Scope Z_scope.

(** ** Names and times *)

Definition file_name (t : Tag) (name : list Z) : Element := cons_elem t [graphic name].

Definition file_name_part (d : Decoder) : outcome MmsError (list Z * Decoder) :=
  '((t, v), d) ← map_err MmsAsn1 (read_tlv d);
  if decide (t ≠ TAG_GRAPHIC_STRING ∧ t ≠ TAG_VISIBLE_STRING) then
    Err (MmsProtocol ("file name part of tag " +:+ Tag_display t))
  else Ok (from_utf8_lossy v, d).

Definition parse_file_name (content : list Z) : outcome MmsError (list Z) :=
  parts ← every file_name_part content; Ok (concat parts).

(** The [i]-th name of a request. *)
Definition rename_part (i : Z) (d : Decoder) : outcome MmsError (list Z * Decoder) :=
  '((t, v), d) ← map_err MmsAsn1 (read_tlv d);
  if decide (t ≠ context_constructed i) then
    Err (MmsProtocol ("FileRename-Request element " +:+ pretty i +:+ " has tag " +:+ Tag_display t))
  else name ← parse_file_name v; Ok (name, d).

Definition parse_file_rename (content : list Z) : outcome MmsError (list Z * list Z) :=
  '(current, d) ← rename_part 0 (Decoder_new content);
  '(renamed, _) ← rename_part 1 d;
  Ok (current, renamed).

(** The last [w] decimal digits. *)
Fixpoint decimals (w : nat) (n : Z) : list Z :=
  match w with O => [] | S w => decimals w (n / 10) ++ [48 + n `mod` 10] end.

(** [format!("{n:0w$}")]. *)
Definition padded (w : nat) (n : Z) : list Z :=
  if decide (0 ≤ n < 10 ^ Z.of_nat w) then decimals w n
  else if decide (0 ≤ n) then txt (pretty n)
  else 45 :: (let ds := txt (pretty (- n)) in replicate (w - 1 - length ds) 48 ++ ds).

(** [server::file::generalized_time]. *)
Definition generalized_time (t : Z) : list Z :=
  let '(secs, _) := unix_parts t in
  let '(y, mo, d, h, mi, s) := civil_from_unix secs in
  padded 4 y ++ padded 2 mo ++ padded 2 d ++ padded 2 h ++ padded 2 mi ++ padded 2 s ++ txt "Z".

(** ** The server *)

Record FileWorld (F : Type) := mkFileWorld {
  fw_files : option FileStore;
  fw_fs : F;
}.
Arguments mkFileWorld {F}.
Arguments fw_files {F}.
Arguments fw_fs {F}.

Definition set_store {F} (w : FileWorld F) (s : FileStore) : FileWorld F := mkFileWorld (Some s) (fw_fs w).
Definition set_fs {F} (w : FileWorld F) (f : F) : FileWorld F := mkFileWorld (fw_files w) f.

(** [unwrap_or_default()]. *)
Definition name_or_default (m : outcome MmsError (list Z)) : outcome MmsError (list Z) := unwrap_or m [].

Definition file_attributes (size : Z) (modified : option Z) : Element :=
  cons_elem (context_constructed 1)
    (uint_elem (context_primitive 0) size ::
     match modified with Some t => [prim (context_primitive 1) (generalized_time t)] | None => [] end).

Definition open_error (k : ErrorKind) : MmsError :=
  MmsAccess
    match k with
    | InvalidInput => ObjectAccessUnsupported
    | PermissionDenied => ObjectAccessDenied
    | _ => ObjectNonExistent
    end.

Definition read_limit (max_pdu : Z) : Z :=
  if decide (max_pdu = 0) then FILE_CHUNK_SIZE else Z.max (saturating_sub max_pdu PAGE_ENVELOPE) 1.

Definition directory_entry (e : FileInfo) : Element :=
  cons_elem TAG_SEQUENCE [cons_elem (context_constructed 0) [graphic (fi_name e)]; file_attributes (fi_size e) (fi_modified e)].

(** [decode_int(content).unwrap_or(0) as i32]. *)
Definition frsm_of (content : list Z) : outcome MmsError Z := n ← unwrap_or (decode_int content) 0; Ok (swrap 32 n).

(** An outcome that leaves the world as it was. *)
Definition keep {A B W} (w : W) (m : outcome MmsError A) (k : A → outcome MmsError B * W) : outcome MmsError B * W :=
  match m with Ok a => k a | Err e => (Err e, w) | Panic => (Panic, w) | NoFuel => (NoFuel, w) end.

Section service.
Context {F : Type} `{FileSystem F}.

Definition file_open_service (s : FileStore) (w : FileWorld F) (content : list Z) : outcome MmsError Element * FileWorld F :=
  keep w ('(name_seq, _) ← d_expect (Decoder_new content) (context_constructed 0); name_or_default (parse_file_name name_seq)) (λ name,
    let '(r, s) := open s (fw_fs w) name in
    (map_err open_error r ≫= λ '(id, size, modified),
       Ok (cons_elem (context_constructed SVC_FILE_OPEN) [int_elem (context_primitive 0) id; file_attributes size modified]),
     set_store w s)).

Definition file_read_service (s : FileStore) (w : FileWorld F) (content : list Z) (max_pdu : Z)
    : outcome MmsError Element * FileWorld F :=
  keep w (frsm_of content) (λ id,
    match read s id (read_limit max_pdu) with
    | (Some (chunk, more), s) =>
        (Ok (cons_elem (context_constructed SVC_FILE_READ) [prim (context_primitive 0) chunk; bool_elem (context_primitive 1) more]),
         set_store w s)
    | (None, s) => (Err (MmsAccess ObjectNonExistent), set_store w s)
    end).

Definition file_close_service (s : FileStore) (w : FileWorld F) (content : list Z) : outcome MmsError Element * FileWorld F :=
  keep w (frsm_of content) (λ id, (Ok (prim (context_primitive SVC_FILE_CLOSE) []), set_store w (close s id))).

(** A name that may be left out. *)
Definition optional_name (d : Decoder) (t : Tag) : outcome MmsError (list Z * Decoder) :=
  '(c, d) ← d_optional d t;
  match c with Some c => name ← name_or_default (parse_file_name c); Ok (name, d) | None => Ok ([], d) end.

Definition directory_page (max_pdu : Z) (entries : list FileInfo) : Element :=
  let '(page, more) := fill_page (map directory_entry entries) max_pdu in
  cons_elem (context_constructed SVC_FILE_DIRECTORY)
    [cons_elem (context_constructed 0) [cons_elem TAG_SEQUENCE page]; bool_elem (context_primitive 1) more].

Definition file_directory_service (s : FileStore) (w : FileWorld F) (content : list Z) (max_pdu : Z) : outcome MmsError Element :=
  '(dir, d) ← optional_name (Decoder_new content) (context_constructed 0);
  '(after, _) ← optional_name d (context_constructed 1);
  entries ← map_err (λ _, MmsAccess ObjectNonExistent) (list_dir s (fw_fs w) dir);
  Ok (directory_page max_pdu (continue_after fi_name after entries)).

Definition file_service (w : FileWorld F) (service : Z) (content : list Z) (max_pdu : Z) : outcome MmsError Element * FileWorld F :=
  match fw_files w with
  | None => (Err (MmsAccess ObjectAccessUnsupported), w)
  | Some s =>
      if decide (service = SVC_FILE_OPEN) then file_open_service s w content
      else if decide (service = SVC_FILE_READ) then file_read_service s w content max_pdu
      else if decide (service = SVC_FILE_CLOSE) then file_close_service s w content
      else if decide (service = SVC_FILE_DIRECTORY) then (file_directory_service s w content max_pdu, w)
      else (Err (MmsAccess ObjectAccessUnsupported), w)
  end.

(** *** The services that change the store *)

Definition FILE_CLASS : Z := 11.
Definition FILE_NAME_SYNTAX : Z := 3.
Definition FILE_ACCESS_DENIED : Z := 6.
Definition FILE_NON_EXISTENT : Z := 7.
Definition FILE_DUPLICATE_NAME : Z := 8.
Definition FILE_INSUFFICIENT_SPACE : Z := 9.

Definition file_error (code : Z) : MmsError := MmsService (ServiceError_new FILE_CLASS code).

Definition writable_store (w : FileWorld F) : outcome MmsError FileStore :=
  match fw_files w with
  | Some s => if fs_writable s then Ok s else Err (file_error FILE_ACCESS_DENIED)
  | None => Err (file_error FILE_ACCESS_DENIED)
  end.

Definition delete_error (k : ErrorKind) : MmsError :=
  file_error match k with NotFound => FILE_NON_EXISTENT | InvalidInput => FILE_NAME_SYNTAX | _ => FILE_ACCESS_DENIED end.

Definition rename_error (k : ErrorKind) : MmsError :=
  file_error
    match k with
    | NotFound => FILE_NON_EXISTENT
    | AlreadyExists => FILE_DUPLICATE_NAME
    | InvalidInput => FILE_NAME_SYNTAX
    | _ => FILE_ACCESS_DENIED
    end.

Definition file_delete_service (w : FileWorld F) (content : list Z) : outcome MmsError Element * FileWorld F :=
  keep w (s ← writable_store w;
          inner ← ok (optional (Decoder_new content) (context_constructed 0));
          let content := default content (inner ≫= fst) in
          name ← map_err (λ _, file_error FILE_NAME_SYNTAX) (parse_file_name content);
          Ok (s, name)) (λ '(s, name),
    let '(r, f) := delete_file s (fw_fs w) name in
    (_ ← map_err delete_error r; Ok (prim (context_primitive SVC_FILE_DELETE) []), set_fs w f)).

Definition file_rename_service (w : FileWorld F) (content : list Z) : outcome MmsError Element * FileWorld F :=
  keep w (s ← writable_store w;
          names ← map_err (λ _, file_error FILE_NAME_SYNTAX) (parse_file_rename content);
          Ok (s, names)) (λ '(s, (old, new)),
    let '(r, f) := rename s (fw_fs w) old new in
    (_ ← map_err rename_error r; Ok (prim (context_primitive SVC_FILE_RENAME) []), set_fs w f)).

End service.

(** ** The client's reader *)

Record FileReader := mkReader {
  rd_frsm : Z;
  rd_buf : list Z;
  rd_pos : nat;
  rd_done : bool;
  rd_closed : bool;
  rd_size : Z;
}.

Definition set_reader (r : FileReader) (buf : list Z) (pos : nat) (done : bool) : FileReader :=
  mkReader (rd_frsm r) buf pos done (rd_closed r) (rd_size r).

(** A call whose failure is a value: [let x = f().await;]. *)
Definition attempt {W A} (m : Call W A) : Call W (A + MmsError) := λ w,
  match m w with
  | (Ok a, w) => (Ok (inl a), w)
  | (Err e, w) => (Ok (inr e), w)
  | (Panic, w) => (Panic, w)
  | (NoFuel, w) => (NoFuel, w)
  end.

Definition raised {W A} (r : A + MmsError) : Call W A := match r with inl a => mret a | inr e => lift (Err e) end.

Section reader.
Context {W : Type} (call : Element → Call W (list Z)).

Definition open_file (name : list Z) : Call W FileReader :=
  '(frsm, size) ← file_open call name; mret (mkReader frsm [] 0 false false size).

Definition next_chunk (r : FileReader) : Call W (option (list Z) * FileReader) :=
  if decide (rd_pos r < length (rd_buf r))%nat then mret (Some (drop (rd_pos r) (rd_buf r)), set_reader r [] 0 (rd_done r))
  else if rd_done r then mret (None, r)
  else
    '(data, more) ← file_read call (rd_frsm r);
    let r := set_reader r (rd_buf r) (rd_pos r) (rd_done r || negb more) in
    mret (if decide (data = [] ∧ rd_done r = true) then None else Some data, r).

(** What [read] copies into a buffer of [n] octets; [fuel] bounds the empty chunks. *)
Fixpoint read_some (fuel : nat) (n : nat) (r : FileReader) : Call W (list Z * FileReader) :=
  match fuel with
  | O => lift NoFuel
  | S fuel =>
      if decide (rd_pos r < length (rd_buf r))%nat then
        let k := Nat.min n (length (rd_buf r) - rd_pos r) in
        mret (take k (drop (rd_pos r) (rd_buf r)), set_reader r (rd_buf r) (rd_pos r + k) (rd_done r))
      else if rd_done r then mret ([], r)
      else
        '(data, more) ← file_read call (rd_frsm r);
        let r := set_reader r (rd_buf r) (rd_pos r) (rd_done r || negb more) in
        if decide (data = [] ∧ rd_done r = true) then mret ([], r)
        else read_some fuel n (set_reader r data 0 (rd_done r))
  end.

(** [while !self.done]; [fuel] bounds the chunks. *)
Fixpoint read_rest (fuel : nat) (out : list Z) (r : FileReader) : Call W (list Z * FileReader) :=
  if rd_done r then mret (out, r)
  else
    match fuel with
    | O => lift NoFuel
    | S fuel =>
        '(data, more) ← file_read call (rd_frsm r);
        read_rest fuel (out ++ data) (set_reader r (rd_buf r) (rd_pos r) (negb more))
    end.

Definition read_to_end (fuel : nat) (r : FileReader) : Call W (list Z * FileReader) :=
  if decide (rd_pos r < length (rd_buf r))%nat then read_rest fuel (drop (rd_pos r) (rd_buf r)) (set_reader r [] 0 (rd_done r))
  else read_rest fuel [] r.

(** The reader is marked closed even when the request fails. *)
Definition close_reader (r : FileReader) : Call W unit :=
  if rd_closed r then mret () else file_close call (rd_frsm r).

Definition read_file (fuel : nat) (name : list Z) : Call W (list Z) :=
  r ← open_file name;
  out ← attempt (read_to_end fuel r);
  closed ← attempt (close_reader r);
  out ← raised out;
  _ ← raised closed;
  mret out.1.

End reader.

(** ** A file that is read *)

Lemma tlv_size_any t n : 0 ≤ tag_number t < 128 → tlv_size t n ≤ n + 7.
Proof. intros Ht. unfold tlv_size, tag_size, length_size. change (Z.shiftl 1 7) with 128. repeat case_decide; lia. Qed.

Lemma prim_size t v : 0 ≤ tag_number t < 128 → Element_size (prim t v) ≤ zlen v + 7.
Proof. intros Ht. unfold prim. cbn [Element_size]. by apply tlv_size_any. Qed.

Definition open_fields (name : list Z) : list (Tag * list Z) :=
  [(context_constructed 0, children_octets [(TAG_GRAPHIC_STRING, name)]); (context_primitive 1, append_uint [] 0)].

Lemma open_writes name : writes (file_open_request name) (context_constructed SVC_FILE_OPEN, children_octets (open_fields name)).
Proof.
  unfold file_open_request, open_fields, graphic, uint_elem. apply writes_cons; [done..|]. constructor; [|constructor; [by apply writes_prim|constructor]].
  apply writes_cons; [done..|]. constructor; [by apply writes_prim|constructor].
Qed.

Lemma file_name_read name :
  utf8 name = true → zlen name < 2 ^ 31 → parse_file_name (children_octets [(TAG_GRAPHIC_STRING, name)]) = Ok name.
Proof.
  intros Hu Hl. unfold parse_file_name, every. cbn [decode_children]. rewrite dec_at_nil, more_fields, bool_decide_eq_true_2 by done.
  unfold file_name_part. rewrite read_field by field_ok. rewrite map_err_Ok, bind_Ok. cbv beta iota.
  rewrite decide_False by naive_solver. rewrite from_utf8_lossy_valid by done. rewrite bind_Ok.
  assert ((length (children_octets [(TAG_GRAPHIC_STRING, name)]) > 0)%nat) as Hn.
  { pose proof (length_children_octets [(TAG_GRAPHIC_STRING, name)]). simpl in *. lia. }
  destruct (length (children_octets _)) as [|n]; [lia|]. cbn [decode_children]. rewrite more_fields, bool_decide_eq_false_2 by naive_solver.
  simpl. by rewrite app_nil_r.
Qed.

Lemma int_elem_sent t id : tag_sized t → in_i 32 id →
  writes (int_elem t id) (t, append_int [] id) ∧ zlen (append_int [] id) ≤ 8 ∧ frsm_of (append_int [] id) = Ok id.
Proof.
  intros Ht Hid. assert (in_i 64 id) as H64 by (by apply in_i_32_64). split; [by apply writes_prim|]. split; [by apply append_int_short|].
  unfold frsm_of, unwrap_or. rewrite decode_append_int by done. cbn [ok mbind outcome_bind default]. by rewrite swrap_id.
Qed.

Definition chunk_response (chunk : list Z) (more : bool) : Element :=
  cons_elem (context_constructed SVC_FILE_READ) [prim (context_primitive 0) chunk; bool_elem (context_primitive 1) more].

Definition chunk_fields (chunk : list Z) (more : bool) : list (Tag * list Z) :=
  [(context_primitive 0, chunk); (context_primitive 1, if more then [0xff] else [0x00])].

Lemma chunk_writes chunk more : writes (chunk_response chunk more) (context_constructed SVC_FILE_READ, children_octets (chunk_fields chunk more)).
Proof. apply writes_cons; [done..|]. by repeat constructor; apply writes_prim. Qed.

Lemma chunk_size chunk more : Element_size (chunk_response chunk more) ≤ zlen chunk + 16.
Proof.
  unfold chunk_response. rewrite Element_size_cons. cbn [map Zsum fold_right].
  assert (Element_size (bool_elem (context_primitive 1) more) = 3) as -> by by destruct more.
  assert (Element_size (prim (context_primitive 0) chunk) ≤ zlen chunk + 6) as H0 by (unfold prim; cbn [Element_size]; by apply tlv_size_small).
  pose proof (tlv_size_any (context_constructed SVC_FILE_READ) (Element_size (prim (context_primitive 0) chunk) + (3 + 0)) ltac:(done)). lia.
Qed.

Lemma chunk_read chunk more : zlen chunk < 2 ^ 30 → file_read_response (Element_encode (chunk_response chunk more)) = Ok (chunk, more).
Proof.
  intros Hl. pose proof (chunk_size chunk more). pose proof (writes_size _ _ _ (chunk_writes chunk more)) as Hs. unfold file_read_response.
  rewrite (d_expect_element _ _ _ (chunk_writes chunk more)) by field_ok. rewrite bind_Ok. cbv beta iota.
  unfold d_expect. rewrite dec_at_nil. unfold chunk_fields. rewrite expect_field by field_ok. rewrite map_err_Ok, bind_Ok. cbv beta iota.
  by rewrite more_follows_field.
Qed.

Section served.
Context {W F : Type} `{FileSystem F} (max_pdu : Z) (handle : ServiceHandler W) (call : Element → Call W (list Z)).
Context (HS : Serves max_pdu handle call).
(** Where the server keeps its files. *)
Context (files : W → FileWorld F) (put : W → FileWorld F → W).
Hypothesis Hget : ∀ w x, files (put w x) = x.
Hypothesis Hput : ∀ w x y, put (put w x) y = put w y.
Hypothesis Hh : ∀ svc content w, svc ∈ [SVC_FILE_OPEN; SVC_FILE_READ; SVC_FILE_CLOSE] →
  handle svc content w = let '(r, x) := file_service (files w) svc content max_pdu in (r, put w x).
Hypothesis Hmax : max_pdu = 0 ∨ 90 ≤ max_pdu < 2 ^ 29.

(** A chunk of the file. *)
Definition stop_of (pos len : Z) : Z := Z.min (pos + read_limit max_pdu) len.

Lemma read_limit_range : 1 ≤ read_limit max_pdu < 2 ^ 29 ∧ (max_pdu > 0 → read_limit max_pdu ≤ max_pdu - 32).
Proof using Hmax. unfold read_limit, FILE_CHUNK_SIZE, saturating_sub, PAGE_ENVELOPE. case_decide; lia. Qed.

Lemma chunk_served w s id data pos :
  fw_files (files w) = Some s → fs_open s !! id = Some (mkOpenFile data pos) → 0 ≤ pos ≤ zlen data → in_i 32 id →
  let stop := stop_of pos (zlen data) in
  file_read call id w =
    (Ok (take (Z.to_nat (stop - pos)) (drop (Z.to_nat pos) data), bool_decide (stop < zlen data)),
     put w (set_store (files w) (set_open s (fs_next s) (<[id := mkOpenFile data stop]> (fs_open s))))).
Proof using Hh HS Hmax.
  intros Hs Ho Hp Hid stop. destruct read_limit_range as [Hl Hm]. unfold file_read.
  set (chunk := take _ _). set (more := bool_decide _).
  assert (zlen chunk ≤ read_limit max_pdu) as Hz.
  { unfold chunk, zlen. rewrite length_take. unfold stop, stop_of. lia. }
  pose proof (chunk_size chunk more) as Hsz.
  destruct (int_elem_sent (context_primitive SVC_FILE_READ) id ltac:(done) Hid) as (Hw & Hlen & Hfr).
  erewrite Call_bind_Ok. 2:{ eapply serves_response with (resp := chunk_response chunk more); [split; [exact Hw|]; split; [done|lia]| |].
    - cbn [tag_number context_primitive]. rewrite Hh by compute_done. unfold file_service. rewrite Hs. rewrite decide_False, decide_True by done.
      unfold file_read_service, keep. rewrite Hfr. rewrite (read_chunk s id _ data pos) by done.
      replace (Z.max (read_limit max_pdu) 1) with (read_limit max_pdu) by lia. reflexivity.
    - eapply small_deliverable; [apply chunk_writes|done|lia|lia]. }
  unfold lift. rewrite chunk_read by lia. done.
Qed.

Lemma rest_served id data size : in_i 32 id → ∀ fuel pos out w s,
  fw_files (files w) = Some s → fs_open s !! id = Some (mkOpenFile data pos) → 0 ≤ pos ≤ zlen data →
  zlen data - pos < Z.of_nat fuel →
  read_rest call fuel out (mkReader id [] 0 false false size) w =
    (Ok (out ++ drop (Z.to_nat pos) data, mkReader id [] 0 true false size),
     put w (set_store (files w) (set_open s (fs_next s) (<[id := mkOpenFile data (zlen data)]> (fs_open s))))).
Proof using Hh HS Hmax Hget Hput.
  intros Hid. destruct read_limit_range as [Hl _]. induction fuel as [|fuel IH]; intros pos out w s Hs Ho Hp Hf; [lia|].
  cbn [read_rest rd_done rd_frsm]. erewrite Call_bind_Ok by (by apply chunk_served). cbv beta iota.
  set (stop := stop_of pos (zlen data)). assert (pos ≤ stop ≤ zlen data) as Hst by (unfold stop, stop_of; lia).
  unfold set_reader. cbn [rd_frsm rd_buf rd_pos rd_closed rd_size]. case_bool_decide as Hmore; cbn [negb].
  - assert (pos < stop) as Hlt by (unfold stop, stop_of in *; lia).
    erewrite IH; [|by rewrite Hget|cbn [set_open fs_open]; apply lookup_insert_eq|lia|lia]. rewrite Hget, Hput. f_equal.
    + f_equal. f_equal. rewrite <-app_assoc. f_equal. rewrite <-(take_drop (Z.to_nat (stop - pos)) (drop (Z.to_nat pos) data)) at 2.
      f_equal. rewrite drop_drop. f_equal. lia.
    + cbn [set_store set_open fs_next fs_open fs_root fs_writable fw_fs]. f_equal. f_equal. f_equal. apply insert_insert_eq.
  - assert (stop = zlen data) as E by (unfold stop, stop_of in *; lia). rewrite E. destruct fuel; cbn [read_rest rd_done].
    + f_equal. f_equal. f_equal. rewrite take_ge; [done|]. rewrite length_drop. unfold zlen in *. lia.
    + f_equal. f_equal. f_equal. rewrite take_ge; [done|]. rewrite length_drop. unfold zlen in *. lia.
Qed.

(** A file the store gives out. *)
Definition readable (s : FileStore) (f : F) (name : list Z) (data : list Z) (modified : option Z) : Prop :=
  ∃ path meta, resolve s f name = Some path ∧ metadata f path = Ok meta ∧ md_is_dir meta = false ∧
    fs_read f path = Ok data ∧ md_modified meta = modified.

Lemma open_readable s f name data modified :
  readable s f name data modified →
  open s f name = (Ok (fs_next s, Z.min (zlen data) U32_MAX, modified),
    set_open s (Z.max (swrap 32 (fs_next s + 1)) 1) (<[fs_next s := mkOpenFile data 0]> (fs_open s))).
Proof.
  intros (path & meta & Hr & Hm & Hd & Hdata & <-). unfold open. rewrite Hr, bind_Ok, Hm, bind_Ok, Hd, Hdata. done.
Qed.

Definition open_response (id size : Z) (modified : option Z) : Element :=
  cons_elem (context_constructed SVC_FILE_OPEN) [int_elem (context_primitive 0) id; file_attributes size modified].

Definition attribute_fields (size : Z) (modified : option Z) : list (Tag * list Z) :=
  (context_primitive 0, append_uint [] size) ::
  match modified with Some t => [(context_primitive 1, generalized_time t)] | None => [] end.

Lemma attributes_write size modified :
  writes (file_attributes size modified) (context_constructed 1, children_octets (attribute_fields size modified)).
Proof.
  unfold file_attributes, attribute_fields, uint_elem. apply writes_cons; [done..|]. constructor; [by apply writes_prim|].
  destruct modified; [constructor; [by apply writes_prim|constructor]|constructor].
Qed.

Lemma attributes_size size modified :
  in_u 32 size → Element_size (file_attributes size modified) ≤ from_option (λ t, zlen (generalized_time t)) 0 modified + 30.
Proof.
  intros Hs. unfold file_attributes. rewrite Element_size_cons. cbn [map Zsum fold_right].
  pose proof (append_uint_short size ltac:(unfold in_u in *; lia)) as Hu.
  assert (Element_size (uint_elem (context_primitive 0) size) ≤ 15) as H1.
  { unfold uint_elem, prim. cbn [Element_size]. etrans; [by apply tlv_size_small|]. lia. }
  destruct modified as [t|]; cbn [map Zsum fold_right from_option].
  - pose proof (tlv_size_small (context_primitive 1) (zlen (generalized_time t)) ltac:(done)).
    change (Element_size (prim (context_primitive 1) (generalized_time t))) with (tlv_size (context_primitive 1) (zlen (generalized_time t))).
    pose proof (tlv_size_small (context_constructed 1)
      (Element_size (uint_elem (context_primitive 0) size) + (tlv_size (context_primitive 1) (zlen (generalized_time t)) + 0)) ltac:(done)). lia.
  - pose proof (tlv_size_small (context_constructed 1) (Element_size (uint_elem (context_primitive 0) size) + 0) ltac:(done)). lia.
Qed.

Lemma open_response_writes id size modified :
  writes (open_response id size modified)
    (context_constructed SVC_FILE_OPEN,
     children_octets [(context_primitive 0, append_int [] id); (context_constructed 1, children_octets (attribute_fields size modified))]).
Proof. apply writes_cons; [done..|]. constructor; [by apply writes_prim|]. constructor; [apply attributes_write|constructor]. Qed.

Lemma open_response_size id size modified :
  in_i 32 id → in_u 32 size → Element_size (open_response id size modified) ≤ from_option (λ t, zlen (generalized_time t)) 0 modified + 52.
Proof.
  intros Hid Hs. unfold open_response. rewrite Element_size_cons. cbn [map Zsum fold_right].
  pose proof (attributes_size size modified Hs). destruct (int_elem_sent (context_primitive 0) id ltac:(done) Hid) as (_ & Hl & _).
  assert (Element_size (int_elem (context_primitive 0) id) ≤ 14) as Hi.
  { unfold int_elem, prim. cbn [Element_size]. etrans; [by apply tlv_size_small|]. lia. }
  pose proof (tlv_size_any (context_constructed SVC_FILE_OPEN)
    (Element_size (int_elem (context_primitive 0) id) + (Element_size (file_attributes size modified) + 0)) ltac:(done)). lia.
Qed.

Lemma open_response_read id size modified :
  in_i 32 id → in_u 32 size → from_option (λ t, zlen (generalized_time t)) 0 modified ≤ 20 →
  file_open_response (Element_encode (open_response id size modified)) = Ok (id, size).
Proof.
  intros Hid Hs Ht. pose proof (open_response_size id size modified Hid Hs).
  pose proof (writes_size _ _ _ (open_response_writes id size modified)) as Hsz. unfold file_open_response.
  rewrite (d_expect_element _ _ _ (open_response_writes id size modified)) by field_ok. rewrite bind_Ok. cbv beta iota.
  assert (zlen (children_octets [(context_primitive 0, append_int [] id);
    (context_constructed 1, children_octets (attribute_fields size modified))]) < 100) as Hc by lia. fields_in Hc.
  rewrite dec_at_nil. unfold d_expect, d_optional. rewrite expect_field by field_ok. rewrite map_err_Ok, bind_Ok. cbv beta iota.
  destruct (int_elem_sent (context_primitive 0) id ltac:(done) Hid) as (_ & _ & Hf). unfold frsm_of in Hf.
  destruct (unwrap_or (F:=MmsError) (decode_int (append_int [] id)) 0) as [n| | |]; try done. rewrite bind_Ok in *. injection Hf as Hf.
  rewrite optional_field by field_ok. rewrite map_err_Ok, bind_Ok. cbv beta iota. clear Hsz.
  assert (zlen (children_octets (attribute_fields size modified)) < 100) as Ha by lia. rewrite dec_at_nil. unfold attribute_fields in *.
  rewrite expect_field. 2:{ split; [done|]. cbn [snd]. pose proof (append_uint_short size ltac:(unfold in_u in *; lia)). lia. }
  cbn [ok mbind outcome_bind]. unfold unwrap_or. rewrite decode_append_uint by (unfold in_u in *; lia). cbn [ok mbind outcome_bind default].
  unfold u32. by rewrite wrap_id, Hf.
Qed.

Lemma opened_by_client w s name data modified :
  fw_files (files w) = Some s → readable s (fw_fs (files w)) name data modified → in_i 32 (fs_next s) →
  from_option (λ t, zlen (generalized_time t)) 0 modified ≤ 20 → utf8 name = true → zlen name < 2 ^ 28 →
  file_open call name w =
    (Ok (fs_next s, Z.min (zlen data) U32_MAX),
     put w (set_store (files w)
       (set_open s (Z.max (swrap 32 (fs_next s + 1)) 1) (<[fs_next s := mkOpenFile data 0]> (fs_open s))))).
Proof using HS Hh Hmax.
  intros Hs Hr Hid Ht Hu Hl. pose proof (zlen_nonneg data) as Hz. set (size := Z.min (zlen data) U32_MAX).
  assert (in_u 32 size) as Hsize by (unfold size, U32_MAX, in_u in *; lia).
  pose proof (open_response_size (fs_next s) size modified Hid Hsize) as Hsz. unfold file_open.
  pose proof (zlen_field_le TAG_GRAPHIC_STRING name _ ltac:(done) (Z.le_refl _)) as Hn.
  assert (zlen (children_octets (open_fields name)) < 2 ^ 31) as Hreq.
  { unfold open_fields. rewrite children_octets_cons, zlen_app.
    pose proof (zlen_tlv_le (context_constructed 0) (children_octets [(TAG_GRAPHIC_STRING, name)]) ltac:(done)).
    pose proof (zlen_field_le (context_primitive 1) (append_uint [] 0) 9 ltac:(done) ltac:(done)). lia. }
  pose proof (field_smaller (context_constructed 0) (children_octets [(TAG_GRAPHIC_STRING, name)]) (open_fields name) ltac:(left)) as Hc0.
  erewrite Call_bind_Ok. 2:{ eapply serves_response with (resp := open_response (fs_next s) size modified);
      [split; [apply open_writes|]; split; [done|lia]| |].
    - cbn [tag_number context_constructed]. rewrite Hh by compute_done. unfold file_service. rewrite Hs. rewrite decide_True by done.
      unfold file_open_service, keep. rewrite dec_at_nil. unfold d_expect. unfold open_fields at 1. rewrite expect_field by field_ok.
      rewrite map_err_Ok, bind_Ok. cbv beta iota. rewrite file_name_read by (done || lia). unfold name_or_default, unwrap_or. cbn [ok mbind outcome_bind default].
      rewrite (open_readable s _ name data modified) by done. reflexivity.
    - eapply small_deliverable; [apply open_response_writes|done|lia|lia]. }
  unfold lift. by rewrite open_response_read.
Qed.

Lemma closed_by_client w s id :
  fw_files (files w) = Some s → in_i 32 id → file_close call id w = (Ok (), put w (set_store (files w) (close s id))).
Proof using HS Hh Hmax.
  intros Hs Hid. unfold file_close. destruct (int_elem_sent (context_primitive SVC_FILE_CLOSE) id ltac:(done) Hid) as (Hw & Hlen & Hfr).
  erewrite Call_bind_Ok. 2:{ eapply serves_response with (resp := prim (context_primitive SVC_FILE_CLOSE) []);
      [split; [exact Hw|]; split; [done|lia]| |].
    - cbn [tag_number context_primitive]. rewrite Hh by compute_done. unfold file_service. rewrite Hs.
      rewrite decide_False, decide_False, decide_True by done. unfold file_close_service, keep. rewrite Hfr. reflexivity.
    - eapply small_deliverable; [by apply writes_prim|done|done|]. change (Element_size _) with 3. lia. }
  done.
Qed.

Lemma file_read_by_client w s name data modified fuel :
  fw_files (files w) = Some s → readable s (fw_fs (files w)) name data modified → in_i 32 (fs_next s) →
  from_option (λ t, zlen (generalized_time t)) 0 modified ≤ 20 → utf8 name = true → zlen name < 2 ^ 28 →
  (length data < fuel)%nat →
  read_file call fuel name w =
    (Ok data, put w (set_store (files w) (set_open s (Z.max (swrap 32 (fs_next s + 1)) 1) (delete (fs_next s) (fs_open s))))).
Proof using HS Hget Hh Hmax Hput.
  intros Hs Hr Hid Ht Hu Hl Hf. unfold read_file, open_file.
  erewrite Call_bind_Ok. 2:{ erewrite Call_bind_Ok by (by eapply opened_by_client). done. }
  assert (0 ≤ 0 ≤ zlen data) as H00 by (pose proof (zlen_nonneg data); lia).
  set (w1 := put w _). set (r := mkReader _ _ _ _ _ _).
  erewrite Call_bind_Ok.
  2:{ unfold attempt, read_to_end. cbn [rd_buf rd_pos r length]. rewrite decide_False by lia. unfold r.
      erewrite rest_served; [|done|unfold w1; by rewrite Hget|cbn [set_open fs_open]; apply lookup_insert_eq|exact H00|unfold zlen; lia]. done. }
  cbv beta iota zeta. unfold w1 at 2. rewrite Hget. unfold w1. rewrite Hput.
  erewrite Call_bind_Ok.
  2:{ unfold attempt, close_reader. cbn [rd_closed rd_frsm r]. erewrite closed_by_client; [done|by rewrite Hget|done]. }
  rewrite Hget, Hput. cbn [app drop]. unfold raised. cbn [set_store set_open close fs_next fs_open fs_root fs_writable fw_fs].
  unfold mret, Call_ret, mbind, Call_bind. simpl. unfold close, set_open, set_store. simpl. by rewrite insert_insert_eq, delete_insert_eq.
Qed.
End served.

(** C19: A file is transferred whole: a client that reads a file the store has, at whatever
    chunk size the association's PDU leaves, gets exactly the octets the file system gave
    when the file was opened, and leaves no file open: the store is as before but for the
    next identifier. *)
Theorem file_transferred {W F} `{FileSystem F} (max_pdu : Z) (handle : ServiceHandler W) (call : Element → Call W (list Z))
    (files : W → FileWorld F) (put : W → FileWorld F → W) (w : W) (s : FileStore) (name data : list Z) (modified : option Z) (fuel : nat) :
  Serves max_pdu handle call → (∀ w x, files (put w x) = x) → (∀ w x y, put (put w x) y = put w y) →
  (∀ svc content w, svc ∈ [SVC_FILE_OPEN; SVC_FILE_READ; SVC_FILE_CLOSE] →
     handle svc content w = let '(r, x) := file_service (files w) svc content max_pdu in (r, put w x)) →
  max_pdu = 0 ∨ 90 ≤ max_pdu < 2 ^ 29 →
  fw_files (files w) = Some s → readable s (fw_fs (files w)) name data modified → in_i 32 (fs_next s) →
  from_option (λ t, zlen (generalized_time t)) 0 modified ≤ 20 → utf8 name = true → zlen name < 2 ^ 28 → (length data < fuel)%nat →
  read_file call fuel name w =
    (Ok data, put w (set_store (files w) (set_open s (Z.max (swrap 32 (fs_next s + 1)) 1) (delete (fs_next s) (fs_open s))))).
Proof. intros. by eapply file_read_by_client. Qed.

Definition file_server (max_pdu : Z) : ServiceHandler (FileWorld Disk) := λ svc content w, file_service w svc content max_pdu.

Definition example_files : FileWorld Disk := mkFileWorld (Some (FileStore_new [txt "srv"])) example_disk.

Lemma file_transferred_witness :
  let call := over_wire 90 (file_server 90) (λ _, 7) in
  ∃ w', read_file call 4 (txt "cfg/a.cid") example_files = (Ok [1; 2; 3], w') ∧ fw_files w' = Some (mkFileStore [txt "srv"] true 2 ∅).
Proof.
  intros call. eexists. split.
  - eapply (file_transferred 90 (file_server 90) call (λ w, w) (λ _ x, x) example_files (FileStore_new [txt "srv"]) (txt "cfg/a.cid") [1; 2; 3] (Some 0) 4).
    + by apply over_wire_serves.
    + done.
    + done.
    + intros svc content w _. unfold file_server. by destruct (file_service w svc content 90).
    + by right.
    + done.
    + exists [txt "srv"; txt "cfg"; txt "a.cid"], (mkMetadata false 3 (Some 0)). vm_compute. done.
    + done.
    + vm_compute. discriminate.
    + done.
    + done.
    + simpl. lia.
  - vm_compute. reflexivity.
Defined.
