(* ===== verification/SetFile.v ===== *)
(** Files that are written: SetFile, which MMS maps to obtainFile. The server, asked for
    it, reads the file back from the client (src/src/server/services_ext.rs) while the
    client serves that file and nothing else (src/src/mms/client_ext.rs). *)

From stdpp Require Import gmap pretty.
From S2P Require Import Prelude Ber BerDecoder Float BerPrim TimeUtil Utf8 Text Errors MmsValue MmsCodec BerFields.
From S2P Require Import MmsPdu TypeSpec InfoReport ServerConn Services Wire NameList ReadService DataSets FileStore FileService.
Local Open Scope string_scope.
Local Open Scope list_scope.
Local Open Scope Z_scope.

(** ** The client's file server *)

Inductive ObtainSource := Bytes (b : list Z) | LocalFile (p : Path).

Definition CLIENT_FILE_CHUNK : Z := 8192.

Record FileServer := mkFileServer {
  sv_name : list Z;
  sv_source : ObtainSource;
  sv_next : Z;
  sv_open : gmap Z (list Z * Z);
}.

Definition FileServer_new (name : list Z) (source : ObtainSource) : FileServer := mkFileServer name source 0 ∅.

Definition set_served (f : FileServer) (next : Z) (open : gmap Z (list Z * Z)) : FileServer :=
  mkFileServer (sv_name f) (sv_source f) next open.

(** [client_ext::generalized_time]: with the milliseconds. *)
Definition generalized_time_ms (t : Z) : list Z :=
  let '(secs, nanos) := unix_parts t in
  let days := secs / 86400 in
  let rem := secs `mod` 86400 in
  let '(y, m, d) := civil_from_days days in
  padded 4 y ++ padded 2 m ++ padded 2 d ++ padded 2 (rem / 3600) ++ padded 2 (rem `mod` 3600 / 60) ++ padded 2 (rem `mod` 60) ++
  txt "." ++ padded 3 (nanos / 1000000) ++ txt "Z".

Definition CLIENT_SYNTAX : Z := 3.
Definition CLIENT_POSITION_INVALID : Z := 5.
Definition CLIENT_ACCESS_DENIED : Z := 6.
Definition CLIENT_NON_EXISTENT : Z := 7.

Definition unrecognised : MmsError := MmsService (mkServiceError 1 1 true "").

Section file_server.
(** The client's file system, and its clock. *)
Context {G : Type} `{FileSystem G} (g : G) (now : Z).

Definition source_data (source : ObtainSource) : outcome MmsError (list Z * Z) :=
  match source with
  | Bytes b => Ok (b, now)
  | LocalFile p =>
      meta ← map_err (λ _, file_error CLIENT_NON_EXISTENT) (metadata g p);
      if md_is_dir meta then Err (file_error CLIENT_NON_EXISTENT)
      else
        data ← map_err (λ _, file_error CLIENT_NON_EXISTENT) (fs_read g p);
        Ok (data, default now (md_modified meta))
  end.

Definition open_position (dec : Decoder) : outcome MmsError Z :=
  r ← ok (optional dec (context_primitive 1));
  match r with Some (Some pb, _) => unwrap_or (decode_uint pb) 0 | _ => Ok 0 end.

Definition serve_open (f : FileServer) (body : list Z) : outcome MmsError (list Z * Z * Z) :=
  '(nb, dec) ← map_err (λ _, file_error CLIENT_SYNTAX) (expect (Decoder_new body) (context_constructed 0));
  name ← map_err (λ _, file_error CLIENT_ACCESS_DENIED) (parse_file_name nb);
  if decide (name ≠ sv_name f) then Err (file_error CLIENT_ACCESS_DENIED)
  else
    pos ← open_position dec;
    '(data, modified) ← source_data (sv_source f);
    if decide (pos > zlen data) then Err (file_error CLIENT_POSITION_INVALID)
    else Ok (data, pos, modified).

Definition served_open_response (id size modified : Z) : Element :=
  cons_elem (context_constructed SVC_FILE_OPEN)
    [int_elem (context_primitive 0) id;
     cons_elem (context_constructed 1) [uint_elem (context_primitive 0) size; prim (context_primitive 1) (generalized_time_ms modified)]].

(** [decode_int(body)? as i32], whose failure is a syntax error. *)
Definition served_id (body : list Z) : outcome MmsError Z :=
  n ← map_err (λ _, file_error CLIENT_SYNTAX) (decode_int body); Ok (swrap 32 n).

Definition FileServer_handle (f : FileServer) (service : Z) (body : list Z) : outcome MmsError Element * FileServer :=
  if decide (service = SVC_FILE_OPEN) then
    keep f (serve_open f body) (λ '(data, pos, modified),
      let prev := sv_next f in
      let f := set_served f (swrap 32 (prev + 1)) (sv_open f) in
      if decide (prev = 2 ^ 31 - 1) then (Panic, f)
      else
        let id := prev + 1 in
        (Ok (served_open_response id (zlen data) modified), set_served f (sv_next f) (<[id := (data, pos)]> (sv_open f))))
  else if decide (service = SVC_FILE_READ) then
    keep f (served_id body) (λ id,
      match sv_open f !! id with
      | None => (Err (file_error CLIENT_NON_EXISTENT), f)
      | Some (data, pos) =>
          let stop := Z.min (pos + CLIENT_FILE_CHUNK) (zlen data) in
          (Ok (chunk_response (take (Z.to_nat (stop - pos)) (drop (Z.to_nat pos) data)) (bool_decide (stop < zlen data))),
           set_served f (sv_next f) (<[id := (data, stop)]> (sv_open f)))
      end)
  else if decide (service = SVC_FILE_CLOSE) then
    keep f (served_id body) (λ id,
      (Ok (prim (context_primitive SVC_FILE_CLOSE) []), set_served f (sv_next f) (delete id (sv_open f))))
  else (Err unrecognised, f).

(** [serve_request]: what the client sends back for a confirmed request of the server, if
    anything. *)
Definition serve_request {E} (files : option FileServer) (content : list Z) : outcome E (option (list Z) * option FileServer) :=
  r ← ok (expect (Decoder_new content) TAG_INTEGER);
  match r with
  | None => Ok (None, files)
  | Some (id_bytes, dec) =>
      id ← unwrap_or (decode_uint id_bytes) 0;
      let id := u32 id in
      r ← ok (read_tlv dec);
      match r with
      | None => Ok (None, files)
      | Some ((tag, body), _) =>
          let '(res, files) :=
            match files with
            | Some f => let '(r, f) := FileServer_handle f (tag_number tag) body in (r, Some f)
            | None => (Err unrecognised, None)
            end in
          match res with
          | Ok resp => Ok (Some (Element_encode (cons_elem TAG_CONFIRMED_RESPONSE [uint_elem TAG_INTEGER id; resp])), files)
          | Err e => Ok (Some (encode_error_pdu id e), files)
          | Panic => Panic
          | NoFuel => NoFuel
          end
      end
  end.
End file_server.

(** ** The server's side *)

Definition MAX_OBTAINED_FILE : Z := Z.shiftl 256 20.

Definition APPLICATION_REFERENCE : Z := 1.

Section obtain.
Context {W F : Type} `{FileSystem F} (call : Element → Call W (list Z)).
(** Where the file system of the server is. *)
Context (files : W → FileWorld F) (put : W → FileWorld F → W).

(** An operation of the store on its file system. *)
Definition on_fs {A} (op : F → io A * F) (err : ErrorKind → MmsError) : Call W A := λ w,
  let '(r, f) := op (fw_fs (files w)) in (map_err err r, put w (set_fs (files w) f)).

Definition create_error (k : ErrorKind) : MmsError :=
  file_error match k with AlreadyExists => FILE_DUPLICATE_NAME | _ => FILE_ACCESS_DENIED end.

Definition no_space (k : ErrorKind) : MmsError := file_error FILE_INSUFFICIENT_SPACE.

(** [moreFollows DEFAULT TRUE]. *)
Definition copied_chunk (resp : list Z) : outcome MmsError (list Z * bool) :=
  '(rc, _) ← d_expect (Decoder_new resp) (context_constructed SVC_FILE_READ);
  '(data, rd) ← d_expect (Decoder_new rc) (context_primitive 0);
  '(b, _) ← d_optional rd (context_primitive 1);
  Ok (data, match b with Some [x] => bool_decide (x ≠ 0) | Some _ => false | None => true end).

(** The loop of [copy_file]; [fuel] bounds the chunks. *)
Fixpoint copy_loop (fuel : nat) (out : Path) (frsm written : Z) : Call W unit :=
  match fuel with
  | O => lift NoFuel
  | S fuel =>
      resp ← call (int_elem (context_primitive SVC_FILE_READ) frsm);
      '(data, more) ← lift (copied_chunk resp);
      let written := written + zlen data in
      if decide (written > MAX_OBTAINED_FILE) then lift (Err (file_error FILE_INSUFFICIENT_SPACE))
      else
        _ ← on_fs (λ f, fs_write_all f out data) no_space;
        if (more : bool) then copy_loop fuel out frsm written else mret ()
  end.

Definition copy_file (fuel : nat) (s : FileStore) (dst : list Z) (frsm : Z) : Call W unit :=
  out ← on_fs (λ f, create_new s f dst) create_error;
  _ ← copy_loop fuel out frsm 0;
  on_fs (λ f, fs_flush f out) no_space.

Definition opened_frsm (resp : list Z) : outcome MmsError Z :=
  '(content, _) ← d_expect (Decoder_new resp) (context_constructed SVC_FILE_OPEN);
  '(id, _) ← d_expect (Decoder_new content) (context_primitive 0);
  map_err MmsAsn1 (decode_int id).

Definition fetch_file (fuel : nat) (s : FileStore) (src dst : list Z) : Call W unit :=
  resp ← call (file_open_request src);
  frsm ← lift (opened_frsm resp);
  res ← attempt (copy_file fuel s dst frsm);
  _ ← attempt (call (int_elem (context_primitive SVC_FILE_CLOSE) frsm));
  raised res.

(** The name under a tag, or a syntax error. *)
Definition obtain_name (d : Decoder) (t : Tag) : outcome MmsError (list Z * Decoder) :=
  r ← ok (expect d t);
  match r with
  | None => Err (file_error FILE_NAME_SYNTAX)
  | Some (c, d) =>
      name ← ok (parse_file_name c);
      match name with Some name => Ok (name, d) | None => Err (file_error FILE_NAME_SYNTAX) end
  end.

Definition obtain_args (w : FileWorld F) (content : list Z) : outcome MmsError (FileStore * list Z * list Z) :=
  s ← writable_store w;
  '(third, dec) ← d_optional (Decoder_new content) (context_constructed 0);
  match third with
  | Some _ => Err (MmsService (ServiceError_new APPLICATION_REFERENCE 3))
  | None =>
      '(src, dec) ← obtain_name dec (context_constructed 1);
      '(dst, _) ← obtain_name dec (context_constructed 2);
      match resolve s (fw_fs w) dst with
      | None => Err (file_error FILE_NAME_SYNTAX)
      | Some _ => if exists_ s (fw_fs w) dst then Err (file_error FILE_DUPLICATE_NAME) else Ok (s, src, dst)
      end
  end.

(** [timeout(..)]: a transfer that does not end is given up. *)
Definition in_time {A} (m : Call W A) : Call W A := λ w,
  match m w with (NoFuel, w) => (Err (file_error FILE_ACCESS_DENIED), w) | r => r end.

Definition obtain_failure (e : MmsError) : MmsError :=
  match e with MmsService se => MmsService se | _ => file_error FILE_ACCESS_DENIED end.

Definition obtain_file_service (fuel : nat) (content : list Z) : Call W Element := λ w,
  match obtain_args (files w) content with
  | Ok (s, src, dst) =>
      match in_time (fetch_file fuel s src dst) w with
      | (Ok _, w) => (Ok (prim (context_primitive SVC_OBTAIN_FILE) []), w)
      | (Err e, w) =>
          let '(_, f) := delete_file s (fw_fs (files w)) dst in (Err (obtain_failure e), put w (set_fs (files w) f))
      | (Panic, w) => (Panic, w)
      | (NoFuel, w) => (NoFuel, w)
      end
  | Err e => (Err e, w)
  | Panic => (Panic, w)
  | NoFuel => (NoFuel, w)
  end.
End obtain.

(** ** The two of them *)

(** The client's file server, while it has one, and the server's files. *)
Abbreviation Ends F := (option FileServer * FileWorld F)%type.

Definition put_files {F} (w : Ends F) (x : FileWorld F) : Ends F := (w.1, x).

Definition obtain_request (src dst : list Z) : Element :=
  cons_elem (context_constructed SVC_OBTAIN_FILE) [file_name (context_constructed 1) src; file_name (context_constructed 2) dst].

(** [Conn::obtain_file]. *)
Definition obtain_file {F} (call : Element → Call (Ends F) (list Z)) (source : ObtainSource) (src dst : list Z) : Call (Ends F) unit := λ w,
  let '(r, w) := call (obtain_request src dst) (Some (FileServer_new src source), w.2) in
  (_ ← r; Ok (), (None, w.2)).

(** [ServerConn::call] and the client that answers it: the request as the server sends it,
    the answer as the client sends it, and what the server makes of that. *)
Definition call_back {F G} `{FileSystem G} (g : G) (now : Z) (ids : Ends F → Z) (service : Element) : Call (Ends F) (list Z) := λ w,
  let id := ids w in
  let answered :=
    r ← ok (read_tlv (Decoder_new (confirmed_request_pdu id service)));
    match r with
    | Some ((tag, content), _) =>
        if decide (tag = TAG_CONFIRMED_REQUEST) then
          '(out, files) ← serve_request g now w.1 content;
          match out with
          | Some out =>
              r ← ok (read_tlv (Decoder_new out));
              match r with
              | Some ((tag, content), _) => a ← parse_call_answer tag content; Ok (a, files)
              | None => Ok (None, files)
              end
          | None => Ok (None, files)
          end
        else Ok (None, w.1)
    | None => Ok (None, w.1)
    end in
  match answered with
  | Ok (Some (id', r), files) =>
      if decide (id' = id) then (match r with inl b => Ok b | inr e => Err e end, (files, w.2)) else (NoFuel, (files, w.2))
  | Ok (None, files) => (NoFuel, (files, w.2))
  | Err e => (Err e, w)
  | Panic => (Panic, w)
  | NoFuel => (NoFuel, w)
  end.

Lemma call_back_Ok {F G} `{FileSystem G} (g : G) now (ids : Ends F → Z) service t c srv srv' x resp t' c' :
  in_u 32 (ids (Some srv, x)) → sendable service t c → FileServer_handle g now srv (tag_number t) c = (Ok resp, srv') → sendable resp t' c' →
  call_back g now ids service (Some srv, x) = (Ok (Element_encode resp), (Some srv', x)).
Proof.
  intros Hid Hs Hh Hr. unfold call_back. set (id := ids (Some srv, x)) in *.
  destruct (confirmed_pdu_read TAG_CONFIRMED_REQUEST id service t c) as [d Hd]; [done..|].
  unfold confirmed_request_pdu. rewrite Hd. cbn [ok]. rewrite bind_Ok. rewrite decide_True by done.
  destruct Hs as (Hw & Ht & Hl). pose proof (append_uint_short id (in_u_32_64 _ Hid)) as Hsh.
  assert (serve_request (E:=MmsError) g now (Some srv) (append_tlv [] TAG_INTEGER (append_uint [] id) ++ Element_encode service) =
    Ok (Some (Element_encode (cons_elem TAG_CONFIRMED_RESPONSE [uint_elem TAG_INTEGER id; resp])), Some srv')) as Hserve.
  { unfold serve_request. rewrite (writes_encode _ _ Hw).
    rewrite <-(children_octets_cons TAG_INTEGER (append_uint [] id) [(t, c)]), dec_at_nil. rewrite expect_field by field_ok.
    cbn [ok]. rewrite bind_Ok. unfold unwrap_or. rewrite decode_append_uint by by apply in_u_32_64. cbn [ok]. rewrite !bind_Ok.
    cbn [default]. unfold u32. rewrite wrap_id by done. unfold tag_sized in Ht. rewrite read_field by (split; [unfold tag_wf, in_u; simpl; lia|simpl; lia]).
    cbn [ok]. rewrite bind_Ok. rewrite Hh. done. }
  cbn [fst]. rewrite Hserve, bind_Ok. cbv beta iota.
  destruct (confirmed_pdu_read TAG_CONFIRMED_RESPONSE id resp t' c') as [d' Hd']; [done..|]. rewrite Hd'. cbn [ok]. rewrite bind_Ok.
  unfold parse_call_answer. rewrite decide_False by done. rewrite split_invoke_built by auto. cbn [ok]. rewrite !bind_Ok.
  rewrite decide_True by done. by rewrite bind_Ok, decide_True.
Qed.

(** ** A file that is set *)

(** [I f c] holds of the file systems in which the file created at [p] of [f0] holds [c]:
    what the server relies on of creating, writing and flushing a file. *)
Record file_grows {F} `{FileSystem F} (f0 : F) (p : Path) (I : F → list Z → Prop) : Prop := {
  grows_new : ∃ f, fs_create_new f0 p = (Ok (), f) ∧ I f [];
  grows_write f old d : I f old → ∃ f', fs_write_all f p d = (Ok (), f') ∧ I f' (old ++ d);
  grows_flush f c : I f c → ∃ f', fs_flush f p = (Ok (), f') ∧ I f' c;
}.

Lemma copied_chunk_read chunk more : zlen chunk < 2 ^ 30 → copied_chunk (Element_encode (chunk_response chunk more)) = Ok (chunk, more).
Proof.
  intros Hl. pose proof (chunk_size chunk more). pose proof (writes_size _ _ _ (chunk_writes chunk more)) as Hs. unfold copied_chunk.
  rewrite (d_expect_element _ _ _ (chunk_writes chunk more)) by field_ok. rewrite bind_Ok. cbv beta iota.
  unfold d_expect, d_optional. rewrite dec_at_nil. unfold chunk_fields. rewrite expect_field by field_ok. rewrite map_err_Ok, bind_Ok. cbv beta iota.
  rewrite optional_field by (by destruct more). rewrite map_err_Ok, bind_Ok. cbv beta iota. by destruct more.
Qed.

Lemma served_id_sent id : in_i 32 id → served_id (append_int [] id) = Ok id.
Proof.
  intros Hid. unfold served_id. rewrite decode_append_int by (by apply in_i_32_64). rewrite map_err_Ok, bind_Ok. by rewrite swrap_id.
Qed.

Lemma set_fs_same {F} (x : FileWorld F) : set_fs x (fw_fs x) = x.
Proof. by destruct x. Qed.

Definition served_fields (id size modified : Z) : list (Tag * list Z) :=
  [(context_primitive 0, append_int [] id);
   (context_constructed 1, children_octets [(context_primitive 0, append_uint [] size); (context_primitive 1, generalized_time_ms modified)])].

Lemma served_open_writes id size modified :
  writes (served_open_response id size modified) (context_constructed SVC_FILE_OPEN, children_octets (served_fields id size modified)).
Proof.
  apply writes_cons; [done..|]. constructor; [by apply writes_prim|]. constructor; [|constructor].
  apply writes_cons; [done..|]. constructor; [by apply writes_prim|]. constructor; [by apply writes_prim|constructor].
Qed.

Lemma served_open_content id size modified :
  zlen (generalized_time_ms modified) ≤ 40 → in_i 32 id → in_u 64 size → zlen (children_octets (served_fields id size modified)) < 200.
Proof.
  intros Ht Hi Hs. pose proof (append_uint_short size Hs) as Hu. pose proof (append_int_short id ltac:(by apply in_i_32_64)) as Hl.
  unfold served_fields. rewrite !children_octets_cons, !zlen_app.
  pose proof (zlen_tlv_le (context_primitive 0) (append_int [] id) ltac:(done)).
  set (inner := append_tlv [] (context_primitive 0) (append_uint [] size) ++ _).
  assert (zlen inner < 90) as Hin.
  { unfold inner. rewrite !zlen_app. pose proof (zlen_tlv_le (context_primitive 0) (append_uint [] size) ltac:(done)).
    pose proof (zlen_tlv_le (context_primitive 1) (generalized_time_ms modified) ltac:(done)). change (zlen (children_octets [])) with 0. lia. }
  pose proof (zlen_tlv_le (context_constructed 1) inner ltac:(done)). change (zlen (children_octets [])) with 0. lia.
Qed.

Section stored.
Context {F G : Type} `{FileSystem F} `{FileSystem G} (g : G) (now : Z) (ids : Ends F → Z).
Hypothesis Hids : ∀ w, in_u 32 (ids w).

Definition served_stop (pos len : Z) : Z := Z.min (pos + CLIENT_FILE_CHUNK) len.

Lemma chunk_called srv x id data pos :
  sv_open srv !! id = Some (data, pos) → 0 ≤ pos ≤ zlen data → in_i 32 id →
  let stop := served_stop pos (zlen data) in
  let chunk := take (Z.to_nat (stop - pos)) (drop (Z.to_nat pos) data) in
  call_back g now ids (int_elem (context_primitive SVC_FILE_READ) id) (Some srv, x) =
    (Ok (Element_encode (chunk_response chunk (bool_decide (stop < zlen data)))),
     (Some (set_served srv (sv_next srv) (<[id := (data, stop)]> (sv_open srv))), x)) ∧
  zlen chunk = stop - pos.
Proof using Hids.
  intros Ho Hp Hid stop chunk.
  destruct (int_elem_sent (context_primitive SVC_FILE_READ) id ltac:(done) Hid) as (Hw & Hlen & _).
  assert (zlen chunk = stop - pos) as Hz.
  { unfold chunk, zlen. rewrite length_take, length_drop. unfold stop, served_stop, CLIENT_FILE_CHUNK, zlen in *. lia. }
  split; [|done]. pose proof (chunk_size chunk (bool_decide (stop < zlen data))) as Hsz.
  pose proof (writes_size _ _ _ (chunk_writes chunk (bool_decide (stop < zlen data)))) as Hws.
  eapply call_back_Ok; [done|split; [exact Hw|]; split; [done|lia]| |].
  - unfold FileServer_handle. rewrite decide_False, decide_True by done. unfold keep. rewrite served_id_sent by done. rewrite Ho. reflexivity.
  - split; [apply chunk_writes|]. split; [done|]. unfold stop, served_stop, CLIENT_FILE_CHUNK in *. lia.
Qed.

Lemma close_called srv x id :
  in_i 32 id →
  call_back g now ids (int_elem (context_primitive SVC_FILE_CLOSE) id) (Some srv, x) =
    (Ok (Element_encode (prim (context_primitive SVC_FILE_CLOSE) [])),
     (Some (set_served srv (sv_next srv) (delete id (sv_open srv))), x)).
Proof using Hids.
  intros Hid. destruct (int_elem_sent (context_primitive SVC_FILE_CLOSE) id ltac:(done) Hid) as (Hw & Hlen & _).
  eapply call_back_Ok; [done|split; [exact Hw|]; split; [done|lia]| |].
  - unfold FileServer_handle. rewrite decide_False, decide_False, decide_True by done. unfold keep. rewrite served_id_sent by done. reflexivity.
  - split; [by apply writes_prim|]. done.
Qed.

(** What a copy comes to: the whole file, or no space for it. *)
Definition copied (data : list Z) : outcome MmsError unit :=
  if decide (zlen data ≤ MAX_OBTAINED_FILE) then Ok () else Err (file_error FILE_INSUFFICIENT_SPACE).

Lemma copy_loop_copies f0 p (I : F → list Z → Prop) id data :
  file_grows f0 p I → in_i 32 id → ∀ fuel pos srv x,
  sv_open srv !! id = Some (data, pos) → 0 ≤ pos ≤ zlen data → pos ≤ MAX_OBTAINED_FILE → I (fw_fs x) (take (Z.to_nat pos) data) →
  zlen data - pos < Z.of_nat fuel →
  ∃ srv' f' c, copy_loop (call_back g now ids) snd put_files fuel p id pos (Some srv, x) = (copied data, (Some srv', set_fs x f')) ∧
    I f' c ∧ (zlen data ≤ MAX_OBTAINED_FILE → c = data).
Proof using Hids.
  intros HI Hid. induction fuel as [|fuel IH]; intros pos srv x Ho Hp Hm Hc Hf; [lia|].
  destruct (chunk_called srv x id data pos Ho Hp Hid) as [Hcall Hz]. cbn [copy_loop].
  set (stop := served_stop pos (zlen data)) in *. set (chunk := take (Z.to_nat (stop - pos)) (drop (Z.to_nat pos) data)) in *.
  assert (pos ≤ stop ≤ zlen data ∧ stop - pos < 2 ^ 30) as [Hst Hs30] by (unfold stop, served_stop, CLIENT_FILE_CHUNK; lia).
  erewrite Call_bind_Ok by exact Hcall. unfold lift at 1. erewrite Call_bind_Ok by (rewrite copied_chunk_read by lia; done). cbv beta iota zeta.
  rewrite Hz. replace (pos + (stop - pos)) with stop by lia. destruct (decide (stop > MAX_OBTAINED_FILE)) as [Hbig|Hbig].
  { unfold copied. rewrite decide_False by lia. do 2 eexists. eexists (take (Z.to_nat pos) data). rewrite <-(set_fs_same x) at 1. split; [reflexivity|]. split; [exact Hc|lia]. }
  destruct (grows_write _ _ _ HI _ _ chunk Hc) as (f1 & Hw & Hc1).
  assert (take (Z.to_nat pos) data ++ chunk = take (Z.to_nat stop) data) as Ht.
  { unfold chunk. rewrite take_drop_commute. replace (Z.to_nat pos + Z.to_nat (stop - pos))%nat with (Z.to_nat stop) by lia.
    rewrite <-(take_drop (Z.to_nat pos) (take (Z.to_nat stop) data)) at 2. f_equal. rewrite take_take. f_equal. lia. }
  rewrite Ht in Hc1.
  erewrite Call_bind_Ok. 2:{ unfold on_fs, put_files. cbn [snd fst]. rewrite Hw. done. }
  case_bool_decide as Hmore.
  - assert (pos < stop) as Hlt by (unfold stop, served_stop, CLIENT_FILE_CHUNK in *; lia).
    edestruct (IH stop (set_served srv (sv_next srv) (<[id := (data, stop)]> (sv_open srv))) (set_fs x f1)) as (srv' & f' & c & He & Hc' & Hall).
    { cbn [set_served sv_open]. apply lookup_insert_eq. } { lia. } { lia. } { cbn [set_fs fw_fs]. exact Hc1. } { lia. }
    exists srv', f', c. split; [|done]. erewrite He. done.
  - assert (stop = zlen data) as E by (unfold stop, served_stop in *; lia). unfold copied. rewrite decide_True by lia.
    eexists _, f1, _. split; [done|]. split; [exact Hc1|]. intros _. rewrite take_ge; [done|]. unfold zlen in *. lia.
Qed.

Lemma copy_file_copies (s : FileStore) dst p (I : F → list Z → Prop) id data fuel srv x :
  resolve_file s (fw_fs x) dst = Ok p → file_grows (fw_fs x) p I → in_i 32 id → sv_open srv !! id = Some (data, 0) →
  (length data < fuel)%nat →
  ∃ srv' f' c, copy_file (call_back g now ids) snd put_files fuel s dst id (Some srv, x) = (copied data, (Some srv', set_fs x f')) ∧
    I f' c ∧ (zlen data ≤ MAX_OBTAINED_FILE → c = data).
Proof using Hids.
  intros Hr HI Hid Ho Hf. destruct (grows_new _ _ _ HI) as (f1 & Hn & Hc). unfold copy_file.
  erewrite Call_bind_Ok. 2:{ unfold on_fs, create_new, put_files. cbn [snd fst]. rewrite Hr, Hn. done. }
  pose proof (zlen_nonneg data).
  destruct (copy_loop_copies (fw_fs x) p I id data HI Hid fuel 0 srv (set_fs x f1)) as (srv' & f2 & c & Hl & Hc2 & Hall);
    [done|lia|done|done|unfold zlen; lia|].
  unfold copied in *. case_decide as Hm.
  - destruct (grows_flush _ _ _ HI _ _ Hc2) as (f3 & Hfl & Hc3). erewrite Call_bind_Ok by exact Hl.
    unfold on_fs, put_files. cbn [snd fst set_fs fw_fs]. rewrite Hfl. by eexists _, f3, c.
  - exists srv', f2, c. split; [|done]. unfold mbind, Call_bind. rewrite Hl. done.
Qed.

(** The open of the client's file. *)
Lemma open_called srv x name data modified :
  sv_name srv = name → source_data g now (sv_source srv) = Ok (data, modified) → 0 ≤ sv_next srv < 2 ^ 31 - 1 → zlen data < 2 ^ 63 →
  zlen (generalized_time_ms modified) ≤ 40 → utf8 name = true → zlen name < 2 ^ 28 →
  let id := sv_next srv + 1 in
  ∃ resp, call_back g now ids (file_open_request name) (Some srv, x) =
    (Ok resp, (Some (set_served srv id (<[id := (data, 0)]> (sv_open srv))), x)) ∧ opened_frsm resp = Ok id.
Proof using Hids.
  intros Hn Hd Hid Hl Ht Hu Hnl id. assert (in_i 32 id) as Hi by (unfold in_i, id; simpl; lia). pose proof (zlen_nonneg data) as Hz.
  destruct (int_elem_sent (context_primitive 0) id ltac:(done) Hi) as (_ & Hil & _).
  exists (Element_encode (served_open_response id (zlen data) modified)).
  pose proof (served_open_content id (zlen data) modified ltac:(lia) Hi ltac:(unfold in_u; lia)) as Hsz.
  pose proof (zlen_field_le TAG_GRAPHIC_STRING name _ ltac:(done) (Z.le_refl _)) as Hn1.
  assert (zlen (children_octets (open_fields name)) < 2 ^ 31) as Hreq.
  { unfold open_fields. rewrite children_octets_cons, zlen_app.
    pose proof (zlen_tlv_le (context_constructed 0) (children_octets [(TAG_GRAPHIC_STRING, name)]) ltac:(done)).
    pose proof (zlen_field_le (context_primitive 1) (append_uint [] 0) 9 ltac:(done) ltac:(done)). lia. }
  pose proof (field_smaller (context_constructed 0) (children_octets [(TAG_GRAPHIC_STRING, name)]) (open_fields name) ltac:(left)) as Hc0.
  split.
  - eapply call_back_Ok; [done|split; [apply open_writes|]; split; [done|lia]| |split; [apply served_open_writes|]; split; [done|lia]].
    unfold FileServer_handle. rewrite decide_True by done. unfold keep, serve_open. rewrite dec_at_nil. unfold open_fields at 1.
    rewrite expect_field by field_ok. rewrite map_err_Ok, bind_Ok. cbv beta iota. rewrite file_name_read by (done || lia).
    rewrite map_err_Ok, bind_Ok. rewrite decide_False by naive_solver. unfold open_position. rewrite optional_field by (by split).
    cbn [ok]. rewrite bind_Ok. cbv beta iota. unfold unwrap_or. rewrite decode_append_uint by done. cbn [ok]. rewrite !bind_Ok. cbn [default].
    rewrite Hd, bind_Ok. cbv beta iota. change (Datatypes.id 0) with 0. rewrite decide_False by lia. cbv zeta. rewrite decide_False by lia.
    cbn [set_served sv_next sv_open sv_name sv_source]. rewrite swrap_id by done. done.
  - unfold opened_frsm. rewrite (d_expect_element _ _ _ (served_open_writes id (zlen data) modified)) by field_ok. rewrite bind_Ok. cbv beta iota.
    unfold d_expect. rewrite dec_at_nil. unfold served_fields. rewrite expect_field by field_ok. rewrite map_err_Ok, bind_Ok. cbv beta iota.
    by rewrite decode_append_int by (by apply in_i_32_64).
Qed.

Lemma fetch_copies (s : FileStore) src dst p (I : F → list Z → Prop) data modified fuel srv x :
  sv_name srv = src → source_data g now (sv_source srv) = Ok (data, modified) → 0 ≤ sv_next srv < 2 ^ 31 - 1 → zlen data < 2 ^ 63 →
  zlen (generalized_time_ms modified) ≤ 40 → utf8 src = true → zlen src < 2 ^ 28 →
  resolve_file s (fw_fs x) dst = Ok p → file_grows (fw_fs x) p I → (length data < fuel)%nat →
  ∃ srv' f' c, fetch_file (call_back g now ids) snd put_files fuel s src dst (Some srv, x) = (copied data, (Some srv', set_fs x f')) ∧
    I f' c ∧ (zlen data ≤ MAX_OBTAINED_FILE → c = data).
Proof using Hids.
  intros Hn Hd Hid Hl Ht Hu Hnl Hr HI Hf. unfold fetch_file.
  destruct (open_called srv x src data modified Hn Hd Hid Hl Ht Hu Hnl) as (resp & Hopen & Hfr). set (id := sv_next srv + 1) in *.
  assert (in_i 32 id) as Hi by (unfold in_i, id; simpl; lia).
  erewrite Call_bind_Ok by exact Hopen. unfold lift. erewrite Call_bind_Ok by (rewrite Hfr; done).
  destruct (copy_file_copies s dst p I id data fuel (set_served srv id (<[id := (data, 0)]> (sv_open srv))) x)
    as (srv' & f' & c & Hc & HIc & Hall); [done..|apply lookup_insert_eq|done|].
  eexists _, f', c. split; [|done]. unfold attempt. unfold copied in *.
  case_decide; (erewrite Call_bind_Ok by (rewrite Hc; reflexivity));
    (erewrite Call_bind_Ok by (rewrite close_called by done; reflexivity)); reflexivity.
Qed.
End stored.

Definition obtain_fields (src dst : list Z) : list (Tag * list Z) :=
  [(context_constructed 1, children_octets [(TAG_GRAPHIC_STRING, src)]); (context_constructed 2, children_octets [(TAG_GRAPHIC_STRING, dst)])].

Lemma obtain_writes src dst : writes (obtain_request src dst) (context_constructed SVC_OBTAIN_FILE, children_octets (obtain_fields src dst)).
Proof.
  apply writes_cons; [done..|]. constructor; [|constructor; [|constructor]]; (apply writes_cons; [done..|]);
    (constructor; [by apply writes_prim|constructor]).
Qed.

Lemma obtain_size src dst : zlen (children_octets (obtain_fields src dst)) ≤ zlen src + zlen dst + 40.
Proof.
  unfold obtain_fields. rewrite !children_octets_cons, !zlen_app. change (zlen (children_octets [])) with 0. rewrite !app_nil_r.
  pose proof (zlen_tlv_le TAG_GRAPHIC_STRING src ltac:(done)). pose proof (zlen_tlv_le TAG_GRAPHIC_STRING dst ltac:(done)).
  pose proof (zlen_tlv_le (context_constructed 1) (append_tlv [] TAG_GRAPHIC_STRING src) ltac:(done)).
  pose proof (zlen_tlv_le (context_constructed 2) (append_tlv [] TAG_GRAPHIC_STRING dst) ltac:(done)). lia.
Qed.

Lemma obtain_name_read t name cs pre :
  field_ok (t, children_octets [(TAG_GRAPHIC_STRING, name)]) → utf8 name = true → zlen name < 2 ^ 31 →
  obtain_name (dec_at pre (children_octets ((t, children_octets [(TAG_GRAPHIC_STRING, name)]) :: cs))) t =
  Ok (name, dec_at (pre ++ append_tlv [] t (children_octets [(TAG_GRAPHIC_STRING, name)])) (children_octets cs)).
Proof.
  intros Hf Hu Hl. unfold obtain_name. rewrite expect_field by done. cbn [ok]. rewrite bind_Ok. cbv beta iota.
  rewrite file_name_read by done. cbn [ok]. by rewrite bind_Ok.
Qed.

Lemma obtain_args_read {F} `{FileSystem F} (x : FileWorld F) s src dst p :
  fw_files x = Some s → fs_writable s = true → resolve_file s (fw_fs x) dst = Ok p → exists_ s (fw_fs x) dst = false →
  utf8 src = true → utf8 dst = true → zlen src < 2 ^ 28 → zlen dst < 2 ^ 28 →
  obtain_args x (children_octets (obtain_fields src dst)) = Ok (s, src, dst).
Proof.
  intros Hs Hw [Hr _]%resolve_file_below He Hu1 Hu2 Hl1 Hl2. pose proof (obtain_size src dst) as Hsz. unfold obtain_args, writable_store.
  assert (zlen (children_octets (obtain_fields src dst)) < 2 ^ 31) as Hc by lia. unfold obtain_fields in *. fields_in Hc.
  rewrite Hs, Hw, bind_Ok. rewrite dec_at_nil. unfold d_optional.
  rewrite optional_field_other by (done || field_ok). rewrite map_err_Ok, bind_Ok. cbv beta iota.
  rewrite obtain_name_read by first [field_ok | done | lia]. rewrite bind_Ok. cbv beta iota.
  rewrite obtain_name_read by first [field_ok | done | lia]. rewrite bind_Ok. cbv beta iota. by rewrite Hr, He.
Qed.

Lemma obtained {F G} `{FileSystem F} `{FileSystem G} (g : G) (now : Z) (ids : Ends F → Z)
    (s : FileStore) src dst p (I : F → list Z → Prop) source data modified fuel x :
  (∀ w, in_u 32 (ids w)) → source_data g now source = Ok (data, modified) → zlen data < 2 ^ 63 → zlen (generalized_time_ms modified) ≤ 40 →
  fw_files x = Some s → fs_writable s = true → resolve_file s (fw_fs x) dst = Ok p → exists_ s (fw_fs x) dst = false →
  file_grows (fw_fs x) p I → utf8 src = true → utf8 dst = true → zlen src < 2 ^ 28 → zlen dst < 2 ^ 28 → (length data < fuel)%nat →
  ∃ srv' f' c, I f' c ∧
    obtain_file_service (call_back g now ids) snd put_files fuel (children_octets (obtain_fields src dst))
      (Some (FileServer_new src source), x) =
    (if decide (zlen data ≤ MAX_OBTAINED_FILE) then (Ok (prim (context_primitive SVC_OBTAIN_FILE) []), (Some srv', set_fs x f'))
     else (Err (file_error FILE_INSUFFICIENT_SPACE), (Some srv', set_fs x (delete_file s f' dst).2))) ∧
    (zlen data ≤ MAX_OBTAINED_FILE → c = data).
Proof.
  intros Hids Hd Hl Ht Hs Hw Hr He HI Hu1 Hu2 Hl1 Hl2 Hf.
  destruct (fetch_copies g now ids Hids s src dst p I data modified fuel (FileServer_new src source) x)
    as (srv' & f' & c & Hc & HIc & Hall); [done..|].
  exists srv', f', c. split; [done|]. split; [|done]. unfold obtain_file_service. cbn [snd].
  rewrite (obtain_args_read x s src dst p) by done. unfold in_time. rewrite Hc. unfold copied. case_decide; [done|].
  cbn [snd set_fs fw_fs]. destruct (delete_file s f' dst). done.
Qed.


Definition empty_disk : Disk := ∅.

Definition obtain_server (fuel : nat) : ServiceHandler (Ends Disk) := λ svc content w,
  if decide (svc = SVC_OBTAIN_FILE) then obtain_file_service (call_back empty_disk 0 (λ _, 3)) snd put_files fuel content w
  else (Err unrecognised, w).


Definition is_open (service : Element) : bool :=
  match service with Constructed t _ => bool_decide (tag_number t = SVC_FILE_OPEN) | _ => false end.

(** Two clients that set the same file: the second finds it while it is being created, and
    its failure deletes what the first one stored. [meanwhile] is what another association
    does while this one waits for its client. *)
Definition interrupted {F} (meanwhile : F → F) (call : Element → Call (Ends F) (list Z)) (service : Element) : Call (Ends F) (list Z) := λ w,
  let '(r, w) := call service w in
  (r, if is_open service then put_files w (set_fs w.2 (meanwhile (fw_fs w.2))) else w).

Lemma obtain_race_loses_file :
  let x := mkFileWorld (Some (mkFileStore [txt "srv"] true 1 ∅)) example_disk in
  let other := <[[txt "srv"; txt "cfg"; txt "new.cid"] := NFile [7] 0]> in
  let call := interrupted other (call_back empty_disk 0 (λ _, 3)) in
  ∃ srv, obtain_file_service call snd put_files 8 (children_octets (obtain_fields (txt "l") (txt "cfg/new.cid")))
    (Some (FileServer_new (txt "l") (Bytes [4])), x) = (Err (file_error FILE_DUPLICATE_NAME), (Some srv, x)).
Proof. eexists. vm_compute. reflexivity. Qed.
