(* ===== verification/Reporting.v ===== *)
(** The report engine (src/src/server/reporting.rs): reservation, enabling,
    triggered, integrity and interrogated reports, buffer time, and the report
    buffer of a buffered control block, as the operations on one block.

    The server's loops over its blocks treat each on its own; what they share,
    the model and the EntryID counter, changes between the operations on a block
    in any way ([Environment]). *)

From S2P Require Import Prelude Ber BerDecoder BerPrim TimeUtil Text Errors MmsValue MmsCodec.
From S2P Require Import ObjRef Quality Nodes Access Tx Handler Selections InfoReport Rcb ReportPdu.
Local Open Scope list_scope.
Local Open Scope Z_scope.

(** ** The state around a block *)

Record SentReport := mkSent {
  sr_conn : ConnId;
  sr_entry : ReportEntry;
  sr_seq : Z;
  sr_ovfl : bool;
  (** The PDUs the association's queue took, and whether it took them all. *)
  sr_pdus : list Element;
  sr_complete : bool;
}.

(** What happened, in order. *)
Inductive Event :=
| Committed (e : ReportEntry)
| Sent (r : SentReport)
| Unsent (e : ReportEntry)
| Purged
| Enabled (c : ConnId) (resync : option (list Z))
| Disabled.

Record World := mkW {
  w_model : Model;
  w_st : RcbRuntime;
  (** The EntryID counter of the server. *)
  w_counter : Z;
  (** The readings of the clock to come, and whether the queue of the association
      takes the PDUs to come; once exhausted, it does. *)
  w_clock : list Z;
  w_sends : list bool;
  (** The maximum PDU size of each open association. *)
  w_conns : gmap ConnId Z;
  w_log : list Event;
}.

Definition with_model (w : World) (m : Model) : World :=
  mkW m (w_st w) (w_counter w) (w_clock w) (w_sends w) (w_conns w) (w_log w).
Definition with_st (w : World) (st : RcbRuntime) : World :=
  mkW (w_model w) st (w_counter w) (w_clock w) (w_sends w) (w_conns w) (w_log w).
Definition with_sends (w : World) (l : list bool) : World :=
  mkW (w_model w) (w_st w) (w_counter w) (w_clock w) l (w_conns w) (w_log w).
Definition with_conns (w : World) (conns : gmap ConnId Z) : World :=
  mkW (w_model w) (w_st w) (w_counter w) (w_clock w) (w_sends w) conns (w_log w).
Definition log (w : World) (ev : Event) : World :=
  mkW (w_model w) (w_st w) (w_counter w) (w_clock w) (w_sends w) (w_conns w) (w_log w ++ [ev]).

(** [SystemTime::now()]. *)
Definition now (w : World) : Z * World :=
  (hd 0 (w_clock w),
   mkW (w_model w) (w_st w) (w_counter w) (tl (w_clock w)) (w_sends w) (w_conns w) (w_log w)).

(** ** Writable attributes *)

Definition RCB_SETTINGS : list (list Z) :=
  map txt ["RptID"; "DatSet"; "OptFlds"; "BufTm"; "TrgOps"; "IntgPd"; "PurgeBuf"; "EntryID"; "ResvTms"]%string.

Definition RCB_READ_ONLY : list (list Z) := map txt ["ConfRev"; "SqNum"; "TimeofEntry"; "Owner"]%string.

Definition CHANGE_TRIGGERS : Z := Z.lor (Z.lor (trg DATA_CHANGE) (trg QUALITY_CHANGE)) (trg DATA_UPDATE).

Definition is_zero_entry_id (id : list Z) : bool :=
  bool_decide (length id = 8%nat) && forallb (λ b, bool_decide (b = 0)) id.

(** [while st.buffer.len() > max_buffer { .. }]: the entries kept, the index of
    the next to send and whether one that was not sent was discarded. *)
Fixpoint evict (max_buffer : nat) (b : list ReportEntry) (next : nat) (overflow : bool)
    : list ReportEntry * nat * bool :=
  match b with
  | [] => ([], next, overflow)
  | _ :: b' =>
      if decide (max_buffer < length b)%nat then
        if decide (0 < next)%nat then evict max_buffer b' (next - 1) overflow
        else evict max_buffer b' next true
      else (b, next, overflow)
  end.

(** [for pdu in pdus { if sc.send_unconfirmed(pdu).is_err() { return } }]: what
    was taken, whether all was, and the answers left. *)
Fixpoint send_all (pdus : list Element) (sends : list bool) : list Element * bool * list bool :=
  match pdus with
  | [] => ([], true, sends)
  | pdu :: pdus =>
      if hd true sends then
        let '(taken, complete, sends) := send_all pdus (tl sends) in (pdu :: taken, complete, sends)
      else ([], false, tl sends)
  end.

Section block.
(** [Display]; the block; the start time of the server in the EntryIDs; whether
    the engine is tied to its server and has a runtime to spawn timers on. *)
Context (display : Value → list Z) (rs : RcbState) (entry_seed : Z) (owned running : bool).

Definition set_attr_w (w : World) (name : string) (v : Value) : World :=
  with_model w (set_attr (w_model w) rs name v).

Definition attr_u64 (w : World) (name : string) : Z :=
  match attr_value (w_model w) rs name with Some v => as_u64 v | None => 0 end.

Definition data_set_members (w : World) : option (list DsMember) :=
  resolve_data_set (w_model w) (attr_text display (w_model w) rs "DatSet").

(** ** Reservation *)

Definition sync_resv (w : World) : World :=
  let st := w_st w in
  if rs_buffered rs then
    set_attr_w w "Owner"
      (VOctetString (ip_octets (if decide (is_Some (rt_owner st)) then rt_owner_ip st else rt_resv_ip st)))
  else
    set_attr_w w "Resv" (VBoolean (bool_decide (is_Some (rt_owner st)) || bool_decide (is_Some (rt_resv_ip st)))).

Definition take_block (w : World) (conn : ConnId) (ip : option IpAddr) : World :=
  let st := stop_resv_timer (set_owner (w_st w) (Some conn) ip) in
  let st := if rt_resv_cfg st then st else set_resv st None (rt_resv_timer st) (rt_resv_gen st) in
  sync_resv (with_st w st).

Definition release (w : World) : World :=
  let prev_ip := rt_owner_ip (w_st w) in
  let had_owner := bool_decide (is_Some (rt_owner (w_st w))) in
  let st := set_owner (w_st w) None None in
  if rt_resv_cfg st then sync_resv (with_st w st)
  else
    let st := stop_resv_timer st in
    let st := set_resv st None (rt_resv_timer st) (rt_resv_gen st) in
    let tms := match attr_value (w_model w) rs "ResvTms" with Some v => as_i64 v | None => 0 end in
    let st :=
      match prev_ip with
      | Some ip =>
          if rs_buffered rs && bool_decide (0 < tms) && had_owner && owned then
            set_resv st (Some ip) (if running then Some (rt_resv_gen st) else None) (rt_resv_gen st)
          else st
      | None => st
      end in
    sync_resv (with_st w st).

(** The end of a reservation by [ResvTms]. *)
Definition resv_fires (w : World) (generation : Z) : World :=
  let st := w_st w in
  if decide (rt_resv_gen st = generation ∧ rt_owner st = None) then
    sync_resv (with_st w (set_resv st None None (rt_resv_gen st)))
  else w.

(** ** Sending *)

Definition set_sq_num (w : World) (n : Z) : World :=
  if rs_buffered rs then
    let n := Z.land n 0xffff in
    set_attr_w (with_st w (set_rt_sq_num (w_st w) n)) "SqNum" (VUnsigned (u16 n))
  else
    let n := Z.land n 0xff in
    set_attr_w (with_st w (set_rt_sq_num (w_st w) n)) "SqNum" (VUnsigned (u8 n)).

Definition transmit (w : World) (e : ReportEntry) : outcome Empty_set World :=
  match (c ← rt_conn (w_st w); max_pdu ← w_conns w !! c; Some (c, max_pdu)) with
  | None => Ok (log w (Unsent e))
  | Some (c, max_pdu) =>
      let seq := rt_sq_num (w_st w) in
      let w := set_sq_num w (seq + 1) in
      let st := w_st w in
      let buf_ovfl := rt_buf_overflow st in
      let w := with_st w (set_buffer st (rt_buffer st) (rt_next st) false) in
      pdus ← report_pdus display (w_model w) rs e seq buf_ovfl max_pdu;
      let '(taken, complete, sends) := send_all pdus (w_sends w) in
      let w := with_sends (log w (Sent (mkSent c e seq buf_ovfl taken complete))) sends in
      let st := w_st w in
      Ok (if negb complete && rs_buffered rs then with_st w (set_buffer st (rt_buffer st) (rt_next st) true) else w)
  end.

(** [while st.next < st.buffer.len() { .. }] *)
Fixpoint transmit_loop (fuel : nat) (w : World) : outcome Empty_set World :=
  match fuel with
  | O => NoFuel
  | S fuel =>
      match rt_buffer (w_st w) !! rt_next (w_st w) with
      | None => Ok w
      | Some e =>
          w ← transmit w e;
          let st := w_st w in
          transmit_loop fuel (with_st w (set_buffer st (rt_buffer st) (S (rt_next st)) (rt_buf_overflow st)))
      end
  end.

Definition transmit_buffered (w : World) : outcome Empty_set World :=
  transmit_loop (S (length (rt_buffer (w_st w)))) w.

Definition next_entry_id (counter : Z) : list Z :=
  make_entry_id (Z.lor (Z.shiftl entry_seed 32) (Z.land (counter + 1) 0xffffffff)).

(** Numbers and keeps an entry. *)
Definition commit (w : World) (e : ReportEntry) : World :=
  let st := w_st w in
  let '(b, next, overflow) :=
    evict (rs_max_buffer rs) (rt_buffer st ++ [e]) (rt_next st) (rt_buf_overflow st) in
  mkW (w_model w) (set_buffer st b next overflow) (w_counter w + 1) (w_clock w) (w_sends w) (w_conns w)
    (w_log w ++ [Committed e]).

Definition emit (w : World) (e : ReportEntry) : outcome Empty_set World :=
  let '(time, w) := now w in
  if negb (rs_buffered rs) then
    let e := mkEntry (e_id e) time (e_members e) (e_values e) (e_reasons e) in
    if rt_enabled (w_st w) then transmit w e else Ok w
  else
    let e := mkEntry (next_entry_id (w_counter w)) time (e_members e) (e_values e) (e_reasons e) in
    let w := set_attr_w w "EntryID" (VOctetString (e_id e)) in
    let w := set_attr_w w "TimeofEntry" (binary_time time) in
    let w := commit w e in
    if rt_enabled (w_st w) then transmit_buffered w else Ok w.

(** ** Collecting *)

Definition flush_pending (w : World) : outcome Empty_set World :=
  let st := w_st w in
  match rt_pending st with
  | None => Ok w
  | Some p =>
      let w := with_st w (set_pending st None None (rt_pending_gen st + 1)) in
      if decide (e_members p = []) then Ok w else emit w p
  end.

Definition event (w : World) (e : ReportEntry) : outcome Empty_set World :=
  if decide (attr_u64 w "BufTm" = 0) then emit w e
  else
    w ← (if match rt_pending (w_st w) with Some p => overlaps p e | None => false end
         then flush_pending w else Ok w);
    let st := w_st w in
    match rt_pending st with
    | Some p => Ok (with_st w (set_pending st (Some (merge p e)) (rt_pending_timer st) (rt_pending_gen st)))
    | None =>
        if owned && running then
          let '(time, w) := now w in
          Ok (with_st w
            (set_pending st (Some (merge (ReportEntry_new time) e)) (Some (rt_pending_gen st)) (rt_pending_gen st)))
        else emit w e
    end.

(** The members [(i, m)] with what [reason] gives them and their value. *)
Definition collect_members (w : World) (members : list DsMember) (reason : DsMember → option Z)
    : list (nat * Value * Z) :=
  omap (λ '(i, m),
    r ← reason m;
    v ← item_value (w_model w) (ds_domain m) (ds_item m);
    Some (i, v, r)) (imap pair members).

Definition entry_of (time : Z) (l : list (nat * Value * Z)) : ReportEntry :=
  mkEntry [] time (map (λ x, x.1.1) l) (map (λ x, x.1.2) l) (map snd l).

Definition report_all (w : World) (reason : Z) : outcome Empty_set World :=
  w ← flush_pending w;
  let members := default [] (data_set_members w) in
  let '(time, w) := now w in
  let e := entry_of time (collect_members w members (λ _, Some reason)) in
  if decide (e_members e = []) then Ok w else emit w e.

Definition on_update (w : World) (changes : ChangeSet) : outcome Empty_set World :=
  if decide (changes = ∅) then Ok w
  else if negb (rs_buffered rs) && negb (rt_enabled (w_st w)) then Ok w
  else
    let want := Z.land (trg_ops (w_model w) rs) CHANGE_TRIGGERS in
    match data_set_members w with
    | None => Ok w
    | Some members =>
        let '(time, w) := now w in
        let reason m :=
          let r := Z.land (member_reason changes m) want in
          if decide (r = 0) then None else Some r in
        let e := entry_of time (collect_members w members reason) in
        if decide (e_members e = []) then Ok w else event w e
    end.

(** The end of a buffer-time window, and of an integrity period. *)
Definition window_fires (w : World) (generation : Z) : outcome Empty_set World :=
  let st := w_st w in
  if decide (rt_pending_gen st = generation) then
    flush_pending (with_st w (set_pending st (rt_pending st) None (rt_pending_gen st)))
  else Ok w.

Definition integrity_fires (w : World) (generation : Z) : outcome Empty_set World :=
  let st := w_st w in
  if decide (rt_integrity_gen st ≠ generation ∨ rt_enabled st = false) then Ok w
  else report_all w (trg INTEGRITY).

(** ** Subscription *)

(** The resync point a client asked for: where delivery resumes. *)
Definition resync (st : RcbRuntime) : RcbRuntime :=
  match rt_resync_id st with
  | None => st
  | Some id =>
      let st := set_resync st None in
      if is_zero_entry_id id then set_buffer st (rt_buffer st) 0 (rt_buf_overflow st)
      else
        match buffer_index st id with
        | Some i => set_buffer st (rt_buffer st) (i + 1) (rt_buf_overflow st)
        | None => set_buffer st (rt_buffer st) 0 true
        end
  end.

Definition enable (w : World) (conn : ConnId) (ip : option IpAddr) : outcome Empty_set World :=
  let w := with_st w (set_subscriber (w_st w) true (Some conn)) in
  let w := if decide (rt_owner (w_st w) ≠ Some conn) then take_block w conn ip else w in
  let w := set_sq_num w 0 in
  let w := with_st w (stop_integrity (w_st w)) in
  w ← (if rs_buffered rs then
         let w := log w (Enabled conn (rt_resync_id (w_st w))) in
         transmit_buffered (with_st w (resync (w_st w)))
       else Ok (log w (Enabled conn None)));
  let st := w_st w in
  Ok (if bool_decide (attr_u64 w "IntgPd" ≠ 0) && has (trg_ops (w_model w) rs) (trg INTEGRITY) && owned then
        with_st w (set_integrity st (if running then Some (rt_integrity_gen st) else None) (rt_integrity_gen st))
      else w).

Definition disable (w : World) : outcome Empty_set World :=
  w ← flush_pending w;
  let w := log (with_st w (stop_integrity (set_subscriber (w_st w) false None))) Disabled in
  Ok (if rs_buffered rs then release w else w).

Definition disable_conn (w : World) (conn : ConnId) : outcome Empty_set World :=
  w ← (if decide (rt_conn (w_st w) = Some conn) then disable w else Ok w);
  Ok (if decide (rt_owner (w_st w) = Some conn) then release w else w).

Definition shutdown (w : World) : World :=
  let st := stop_resv_timer (stop_integrity (set_subscriber (w_st w) false None)) in
  log (with_st w (set_pending st (rt_pending st) None (rt_pending_gen st + 1))) Disabled.

(** ** Writes to the block *)

Definition check_rcb_write (w : World) (attr : list Z) (v : Value) (conn : ConnId) (ip : option IpAddr)
    : option DataAccessError :=
  let st := w_st w in
  if negb (allowed st conn ip) then Some TemporarilyUnavailable
  else if decide (attr ∈ RCB_READ_ONLY) then Some ObjectAccessDenied
  else if bool_decide (attr = txt "RptEna") && as_bool v then
    if rt_enabled st then Some TemporarilyUnavailable
    else if decide (data_set_members w = None) then Some TemporarilyUnavailable
    else None
  else if bool_decide (attr = txt "GI") && as_bool v && negb (rt_enabled st) then Some TemporarilyUnavailable
  else if bool_decide (attr = txt "Resv") && negb (as_bool v) && rt_resv_cfg st then Some ObjectAccessDenied
  else if bool_decide (attr = txt "Resv") && negb (as_bool v) && rt_enabled st then Some TemporarilyUnavailable
  else if bool_decide (attr = txt "ResvTms") && rt_resv_cfg st then Some ObjectAccessDenied
  else if bool_decide (attr = txt "ResvTms") && bool_decide (as_i64 v < 0) then Some ObjectValueInvalid
  else if decide (attr ∈ RCB_SETTINGS) then
    if rt_enabled st then Some TemporarilyUnavailable
    else if decide (attr = txt "DatSet") then
      let r := Value_text display v in
      if decide (r ≠ [] ∧ resolve_data_set (w_model w) r = None) then Some ObjectValueInvalid else None
    else if decide (attr = txt "EntryID") then
      let id := Value_bytes v in
      if bool_decide (zlen id ≠ 8) ||
         (negb (is_zero_entry_id id) && bool_decide (buffer_index st id = None))
      then Some ObjectValueInvalid else None
    else None
  else None.

Definition purge_block (w : World) : World := log (with_st w (purge (w_st w))) Purged.

Definition on_rcb_write (w : World) (attr : list Z) (v : Value) (conn : ConnId) (ip : option IpAddr)
    : outcome Empty_set World :=
  if decide (attr = txt "Resv") then Ok (if as_bool v then take_block w conn ip else release w)
  else
    let w := if decide (rt_owner (w_st w) = None) then take_block w conn ip else w in
    if bool_decide (attr = txt "ResvTms") && bool_decide (as_i64 v = 0) then
      Ok (with_st w (stop_resv_timer (w_st w)))
    else if decide (attr = txt "RptEna") then if as_bool v then enable w conn ip else disable w
    else if decide (attr = txt "GI") then
      w ← (if as_bool v && has (trg_ops (w_model w) rs) (trg GI) then report_all w (trg GI) else Ok w);
      Ok (set_attr_w w "GI" (VBoolean false))
    else if decide (attr = txt "PurgeBuf") then
      Ok (set_attr_w (if as_bool v then purge_block w else w) "PurgeBuf" (VBoolean false))
    else if decide (attr = txt "EntryID") then Ok (with_st w (set_resync (w_st w) (Some (Value_bytes v))))
    else if decide (attr = txt "DatSet") then
      let rev := match attr_value (w_model w) rs "ConfRev" with Some v => as_u32 v | None => 0 end in
      Ok (purge_block (set_attr_w w "ConfRev" (VUnsigned (u32 (rev + 1)))))
    else Ok w.

(** ** Operations *)

(** The application's write hook, and the write policy, which does not govern
    control blocks. *)
Context (writable : gset Fc) (editing : list Z → bool)
  (hook : option (DataAttribute → Value → option DataAccessError)).

(** A client's write to an attribute of the block: the check, the store, the
    effect. *)
Definition rcb_write (w : World) (attr : list Z) (v : Value) (conn : ConnId) (ip : option IpAddr)
    : outcome Empty_set (World * option DataAccessError) :=
  match check_rcb_write w attr v conn ip with
  | Some e => Ok (w, Some e)
  | None =>
      match store writable editing hook (w_model w) ∅ (rs_domain rs) (rs_item rs ++ DOLLAR :: attr) v true with
      | inr e => Ok (w, Some e)
      | inl (m, _) => w ← on_rcb_write (with_model w m) attr v conn ip; Ok (w, None)
      end
  end.

Inductive Op :=
| Connect (c : ConnId) (max_pdu : Z)
| Write (attr : list Z) (v : Value) (c : ConnId) (ip : option IpAddr)
| Update (changes : ChangeSet)
| WindowFires (generation : Z)
| IntegrityFires (generation : Z)
| ResvFires (generation : Z)
| Disconnect (c : ConnId)
| Shutdown
| Environment (m : Model) (drawn : nat) (clock : list Z) (sends : list bool).

Definition apply_op (w : World) (op : Op) : outcome Empty_set World :=
  match op with
  | Connect c max_pdu => Ok (with_conns w (<[c := max_pdu]> (w_conns w)))
  | Write attr v c ip => '(w, _) ← rcb_write w attr v c ip; Ok w
  | Update changes => on_update w changes
  | WindowFires generation => window_fires w generation
  | IntegrityFires generation => integrity_fires w generation
  | ResvFires generation => Ok (resv_fires w generation)
  | Disconnect c => disable_conn (with_conns w (delete c (w_conns w))) c
  | Shutdown => Ok (shutdown w)
  | Environment m drawn clock sends =>
      Ok (mkW m (w_st w) (w_counter w + Z.of_nat drawn) clock sends (w_conns w) (w_log w))
  end.

(** Only an open association writes. *)
Definition op_ok (w : World) (op : Op) : Prop :=
  match op with Write _ _ c _ => is_Some (w_conns w !! c) | _ => True end.

Definition step (w w' : World) : Prop := ∃ op, op_ok w op ∧ apply_op w op = Ok w'.

(** A server that has just started, with the block as materialised. *)
Definition initial (w : World) : Prop :=
  ∃ m resv_ip resv_cfg clock sends,
    w = mkW m (mkRt false None None None resv_ip resv_cfg None 0 0 None 0 None None 0 [] 0 None false)
      0 clock sends ∅ [].

Definition reachable (w : World) : Prop := ∃ w0, initial w0 ∧ rtc step w0 w.

(** ** What the operations of a buffered block come to

    Every operation is a sequence of a few kinds of change to the buffer, the
    subscription and the log. *)

Definition channel (st : RcbRuntime) : bool * option ConnId * Z * list ReportEntry * nat * bool :=
  (rt_enabled st, rt_conn st, rt_sq_num st, rt_buffer st, rt_next st, rt_buf_overflow st).

(** Nothing of that changes. *)
Definition quietly (w w' : World) : Prop :=
  channel (w_st w') = channel (w_st w) ∧ w_counter w' = w_counter w ∧ w_conns w' = w_conns w ∧ w_log w' = w_log w.

Definition subscriber_conn (w : World) : option (ConnId * Z) :=
  c ← rt_conn (w_st w); max_pdu ← w_conns w !! c; Some (c, max_pdu).

Definition after_send (w : World) (ovfl : bool) (seq : Z) (ev : Event) : World :=
  let st := w_st w in
  log (with_st w (set_rt_sq_num (set_buffer st (rt_buffer st) (S (rt_next st)) ovfl) seq)) ev.

Inductive micro (w : World) : World → Prop :=
| micro_quiet w' : quietly w w' → micro w w'
| micro_commit e : e_id e = next_entry_id (w_counter w) → micro w (commit w e)
| micro_send e c max_pdu pdus complete :
    rt_enabled (w_st w) = true → subscriber_conn w = Some (c, max_pdu) →
    rt_buffer (w_st w) !! rt_next (w_st w) = Some e →
    micro w (after_send w (negb complete) (Z.land (rt_sq_num (w_st w) + 1) 0xffff)
      (Sent (mkSent c e (rt_sq_num (w_st w)) (rt_buf_overflow (w_st w)) pdus complete)))
| micro_unsent e :
    rt_enabled (w_st w) = true → subscriber_conn w = None →
    rt_buffer (w_st w) !! rt_next (w_st w) = Some e →
    micro w (after_send w (rt_buf_overflow (w_st w)) (rt_sq_num (w_st w)) (Unsent e))
| micro_purge : micro w (purge_block w)
| micro_enable c :
    is_Some (w_conns w !! c) →
    micro w (log (with_st w (resync (set_rt_sq_num (set_subscriber (w_st w) true (Some c)) 0)))
      (Enabled c (rt_resync_id (w_st w))))
| micro_disable : micro w (log (with_st w (set_subscriber (w_st w) false None)) Disabled).

Lemma quietly_refl w : quietly w w.
Proof. done. Qed.

Lemma quietly_trans w1 w2 w3 : quietly w1 w2 → quietly w2 w3 → quietly w1 w3.
Proof. unfold quietly. intros (? & ? & ? & ?) (? & ? & ? & ?). split_and!; congruence. Qed.

Lemma quietly_attr w name v : quietly w (set_attr_w w name v).
Proof. done. Qed.

Lemma quietly_st w st : channel st = channel (w_st w) → quietly w (with_st w st).
Proof. done. Qed.

Lemma sync_resv_quiet w : quietly w (sync_resv w).
Proof. unfold sync_resv. by destruct (rs_buffered rs). Qed.

Ltac by_fields := intros; match goal with st : RcbRuntime |- _ => destruct st; done end.

Lemma channel_set_owner st o oi : channel (set_owner st o oi) = channel st.
Proof. by_fields. Qed.
Lemma channel_set_resv st ri tm g : channel (set_resv st ri tm g) = channel st.
Proof. by_fields. Qed.
Lemma channel_stop_resv st : channel (stop_resv_timer st) = channel st.
Proof. by_fields. Qed.
Lemma channel_set_pending st p tm g : channel (set_pending st p tm g) = channel st.
Proof. by_fields. Qed.
Lemma channel_set_integrity st tm g : channel (set_integrity st tm g) = channel st.
Proof. by_fields. Qed.
Lemma channel_stop_integrity st : channel (stop_integrity st) = channel st.
Proof. by_fields. Qed.
Lemma channel_set_resync st id : channel (set_resync st id) = channel st.
Proof. by_fields. Qed.

Hint Rewrite channel_set_owner channel_set_resv channel_stop_resv channel_set_pending channel_set_integrity
  channel_stop_integrity channel_set_resync : channel.

Lemma take_block_quiet w c ip : quietly w (take_block w c ip).
Proof.
  eapply quietly_trans; [|apply sync_resv_quiet]. apply quietly_st.
  destruct (rt_resv_cfg _); by autorewrite with channel.
Qed.

Lemma release_quiet w : quietly w (release w).
Proof.
  unfold release. destruct (rt_resv_cfg _).
  { eapply quietly_trans; [|apply sync_resv_quiet]. apply quietly_st. by autorewrite with channel. }
  eapply quietly_trans; [|apply sync_resv_quiet]. apply quietly_st.
  destruct (rt_owner_ip _) as [ip|]; [|by autorewrite with channel].
  destruct (_ && _); by autorewrite with channel.
Qed.

Lemma resv_fires_quiet w g : quietly w (resv_fires w g).
Proof.
  unfold resv_fires. case_decide; [|done]. eapply quietly_trans; [|apply sync_resv_quiet].
  apply quietly_st. by autorewrite with channel.
Qed.

Lemma micros_quiet w w1 w2 : rtc micro w w1 → quietly w1 w2 → rtc micro w w2.
Proof. intros H Hq. eapply rtc_r; [done|by apply micro_quiet]. Qed.

Lemma quiet_micros w w1 w2 : quietly w w1 → rtc micro w1 w2 → rtc micro w w2.
Proof. intros Hq H. eapply rtc_l; [by apply micro_quiet|done]. Qed.

Lemma quiet_micros_of w w1 : quietly w w1 → rtc micro w w1.
Proof. intros Hq. by apply rtc_once, micro_quiet. Qed.

Context (Hbuf : rs_buffered rs = true).

(** Sending an entry and moving on. *)
Lemma transmit_next w e w1 :
  rt_enabled (w_st w) = true → rt_buffer (w_st w) !! rt_next (w_st w) = Some e → transmit w e = Ok w1 →
  let st := w_st w1 in
  rtc micro w (with_st w1 (set_buffer st (rt_buffer st) (S (rt_next st)) (rt_buf_overflow st))).
Proof using Hbuf.
  intros He Hn H. unfold transmit in H. fold (subscriber_conn w) in H.
  destruct (subscriber_conn w) as [[c max_pdu]|] eqn:Hc.
  - unfold set_sq_num in H. rewrite Hbuf in H. apply bind_Ok_inv in H as (pdus & _ & H).
    destruct (send_all pdus _) as [[taken complete] sends]. apply Ok_inj in H. subst w1.
    eapply micros_quiet; [apply rtc_once, (micro_send w e c max_pdu taken complete He Hc Hn)|].
    destruct w as [m [] cnt clk snd cs lg]. by destruct complete.
  - apply Ok_inj in H. subst w1.
    eapply micros_quiet; [apply rtc_once, (micro_unsent w e He Hc Hn)|].
    by destruct w as [m [] cnt clk snd cs lg].
Qed.

Lemma transmit_keeps w e w1 :
  transmit w e = Ok w1 → rt_enabled (w_st w1) = rt_enabled (w_st w) ∧ w_conns w1 = w_conns w.
Proof.
  clear Hbuf. unfold transmit. fold (subscriber_conn w).
  destruct (subscriber_conn w) as [[c max_pdu]|]; [|intros [= <-]; done].
  intros (pdus & _ & H)%bind_Ok_inv. destruct (send_all pdus _) as [[taken complete] sends]. apply Ok_inj in H. subst w1.
  destruct w as [m [] cnt clk snd cs lg]. unfold set_sq_num. destruct (rs_buffered rs), complete; done.
Qed.

Lemma transmit_loop_micros fuel : ∀ w w',
  rt_enabled (w_st w) = true → transmit_loop fuel w = Ok w' → rtc micro w w'.
Proof using Hbuf.
  induction fuel as [|fuel IH]; intros w w' He; [done|]. cbn [transmit_loop].
  destruct (rt_buffer (w_st w) !! rt_next (w_st w)) as [e|] eqn:Hn; [|by intros [= <-]].
  intros (w1 & Ht & H)%bind_Ok_inv. etrans; [by eapply transmit_next|]. apply IH; [|done].
  destruct (transmit_keeps _ _ _ Ht) as [Hk _]. rewrite He in Hk. by destruct w1 as [m [] cnt clk snd cs lg].
Qed.

Lemma emit_micros w e w' : emit w e = Ok w' → rtc micro w w'.
Proof using Hbuf.
  unfold emit. rewrite Hbuf. cbn [negb now].
  set (e' := mkEntry _ _ _ _ _). set (w1 := commit _ _). intros H.
  assert (rtc micro w w1) as H1.
  { unfold w1. eapply quiet_micros; [|apply rtc_once, micro_commit; reflexivity]. done. }
  etrans; [done|]. destruct (rt_enabled (w_st w1)) eqn:He; [|by apply Ok_inj in H; subst].
  by eapply transmit_loop_micros.
Qed.

Lemma flush_pending_micros w w' : flush_pending w = Ok w' → rtc micro w w'.
Proof using Hbuf.
  unfold flush_pending. destruct (rt_pending (w_st w)) as [p|]; [|by intros [= <-]]. intros H.
  eapply quiet_micros; [apply quietly_st, channel_set_pending|]. case_decide; [by apply Ok_inj in H; subst|].
  by eapply emit_micros.
Qed.

Lemma event_micros w e w' : event w e = Ok w' → rtc micro w w'.
Proof using Hbuf.
  unfold event. case_decide as Ht; [by apply emit_micros|]. intros (w1 & H1 & H)%bind_Ok_inv.
  assert (rtc micro w w1) as Hm.
  { destruct (match rt_pending _ with Some p => _ | None => _ end); [by apply flush_pending_micros|].
    by apply Ok_inj in H1; subst. }
  etrans; [done|]. destruct (rt_pending (w_st w1)) as [p|].
  - apply Ok_inj in H. subst. by apply quiet_micros_of, quietly_st, channel_set_pending.
  - destruct (owned && running); [|by eapply emit_micros]. apply Ok_inj in H. subst.
    apply quiet_micros_of. unfold quietly. simpl. by rewrite channel_set_pending.
Qed.

Lemma report_all_micros w reason w' : report_all w reason = Ok w' → rtc micro w w'.
Proof using Hbuf.
  unfold report_all. intros (w1 & H1 & H)%bind_Ok_inv. etrans; [by eapply flush_pending_micros|].
  cbn [now] in H. apply (quiet_micros _ (now w1).2); [done|].
  case_decide; [apply Ok_inj in H; subst; apply rtc_refl|by eapply emit_micros].
Qed.

Lemma on_update_micros w changes w' : on_update w changes = Ok w' → rtc micro w w'.
Proof using Hbuf.
  unfold on_update. case_decide as Hc; [by intros [= <-]|]. rewrite Hbuf. cbn [negb andb].
  destruct (data_set_members w) as [members|]; [|by intros [= <-]]. cbn [now]. intros H.
  apply (quiet_micros _ (now w).2); [done|].
  case_decide; [apply Ok_inj in H; subst; apply rtc_refl|by eapply event_micros].
Qed.

Lemma window_fires_micros w g w' : window_fires w g = Ok w' → rtc micro w w'.
Proof using Hbuf.
  unfold window_fires. case_decide as Hg; [|by intros [= <-]]. intros H.
  eapply quiet_micros; [apply quietly_st, channel_set_pending|]. by eapply flush_pending_micros.
Qed.

Lemma integrity_fires_micros w g w' : integrity_fires w g = Ok w' → rtc micro w w'.
Proof using Hbuf. unfold integrity_fires. case_decide; [by intros [= <-]|]. apply report_all_micros. Qed.

Lemma disable_micros w w' : disable w = Ok w' → rtc micro w w'.
Proof using Hbuf.
  unfold disable. intros (w1 & H1 & H)%bind_Ok_inv. apply Ok_inj in H. subst. rewrite Hbuf.
  etrans; [by eapply flush_pending_micros|]. eapply micros_quiet; [|apply release_quiet].
  eapply micros_quiet; [apply rtc_once, micro_disable|].
  destruct w1 as [m [] cnt clk snd cs lg]. done.
Qed.

Lemma resync_channel st st' :
  channel st = channel st' → rt_resync_id st = rt_resync_id st' → channel (resync st) = channel (resync st').
Proof.
  intros Hch Hid. unfold resync. rewrite Hid. destruct (rt_resync_id st') as [id|]; [|done].
  assert (buffer_index (set_resync st None) id = buffer_index (set_resync st' None) id) as ->.
  { unfold buffer_index. destruct st, st'. injection Hch as -> -> -> -> -> ->. done. }
  destruct (buffer_index (set_resync st' None) id), (is_zero_entry_id id);
    destruct st, st'; by injection Hch as -> -> -> -> -> ->.
Qed.

Lemma take_block_resync w c ip : rt_resync_id (w_st (take_block w c ip)) = rt_resync_id (w_st w).
Proof.
  clear Hbuf. unfold take_block, sync_resv. destruct (rs_buffered rs), w as [m [] cnt clk snd cs lg]; simpl; by case_match.
Qed.

(** The steps of [enable] before delivery starts. *)
Lemma enable_front w c ip w3 :
  w3 = (let w := with_st w (set_subscriber (w_st w) true (Some c)) in
        let w := if decide (rt_owner (w_st w) ≠ Some c) then take_block w c ip else w in
        let w := set_sq_num w 0 in
        with_st w (stop_integrity (w_st w))) →
  channel (w_st w3) = channel (set_rt_sq_num (set_subscriber (w_st w) true (Some c)) 0) ∧
  rt_resync_id (w_st w3) = rt_resync_id (w_st w) ∧
  w_counter w3 = w_counter w ∧ w_conns w3 = w_conns w ∧ w_log w3 = w_log w.
Proof using Hbuf.
  intros ->. cbn zeta. set (w1 := with_st w _). set (w2 := if decide _ then _ else _).
  assert (quietly w1 w2 ∧ rt_resync_id (w_st w2) = rt_resync_id (w_st w1)) as [(Hch & Hc & Hn & Hl) Hid].
  { unfold w2. case_decide; [|done]. split; [apply take_block_quiet|apply take_block_resync]. }
  unfold set_sq_num. rewrite Hbuf. simpl.
  assert (rt_resync_id (w_st w1) = rt_resync_id (w_st w)) as Hid1 by (by destruct w as [m [] cnt clk snd cs lg]).
  split_and!.
  - rewrite channel_stop_integrity. unfold w1 in Hch. simpl in Hch. revert Hch.
    destruct (w_st w2), (w_st w). unfold channel. simpl. by intros [= -> -> -> -> -> ->].
  - rewrite <-Hid1, <-Hid. by destruct (w_st w2).
  - by rewrite Hc.
  - by rewrite Hn.
  - by rewrite Hl.
Qed.

Lemma enable_micros w c ip w' :
  is_Some (w_conns w !! c) → enable w c ip = Ok w' → rtc micro w w'.
Proof using Hbuf.
  intros Hconn. unfold enable. rewrite Hbuf. set (w3 := with_st _ (stop_integrity _)).
  destruct (enable_front w c ip w3 eq_refl) as (Hch & Hid & Hc & Hn & Hl). clearbody w3.
  intros (w4 & Ht & H)%bind_Ok_inv. apply Ok_inj in H. cbn zeta in Ht.
  set (w2 := with_st _ (resync _)) in Ht. set (w2' := log (with_st w (resync (set_rt_sq_num (set_subscriber (w_st w) true (Some c)) 0)))
    (Enabled c (rt_resync_id (w_st w)))).
  assert (channel (w_st w2) = channel (w_st w2')) as Hq.
  { apply resync_channel; [done|]. rewrite Hid. by destruct (w_st w). }
  assert (rtc micro w w2) as H2.
  { eapply micros_quiet; [apply rtc_once, (micro_enable w c Hconn)|]. unfold quietly. simpl. rewrite Hid, Hc, Hn, Hl. done. }
  assert (rt_enabled (w_st w2) = true) as He.
  { assert (rt_enabled (w_st w2') = true) as He'.
    { unfold w2', resync. destruct (w_st w). simpl. repeat case_match; done. }
    unfold channel in Hq. congruence. }
  etrans; [done|]. etrans; [by eapply transmit_loop_micros|]. subst w'. apply quiet_micros_of.
  destruct (_ && _); [|done]. apply quietly_st, channel_set_integrity.
Qed.

Lemma on_rcb_write_micros w attr v c ip w' :
  is_Some (w_conns w !! c) → on_rcb_write w attr v c ip = Ok w' → rtc micro w w'.
Proof using Hbuf.
  intros Hconn. unfold on_rcb_write. case_decide as Hresv.
  { intros [= <-]. apply quiet_micros_of. destruct (as_bool v); [apply take_block_quiet|apply release_quiet]. }
  set (w1 := if decide _ then _ else _). assert (quietly w w1) as Hq.
  { unfold w1. case_decide; [apply take_block_quiet|done]. }
  assert (is_Some (w_conns w1 !! c)) as Hconn1 by (by destruct Hq as (_ & _ & -> & _)). clearbody w1. intros H.
  eapply quiet_micros; [done|]. destruct (_ && _).
  { apply Ok_inj in H. subst. apply quiet_micros_of, quietly_st, channel_stop_resv. }
  case_decide. { destruct (as_bool v); [by eapply enable_micros|by apply disable_micros]. }
  case_decide.
  { apply bind_Ok_inv in H as (w2 & H2 & H). apply Ok_inj in H. subst. apply (micros_quiet _ w2); [|done].
    destruct (_ && _); [by eapply report_all_micros|by apply Ok_inj in H2; subst]. }
  case_decide.
  { apply Ok_inj in H. subst. apply (micros_quiet _ (if as_bool v then purge_block w1 else w1)); [|done].
    destruct (as_bool v); [apply rtc_once, micro_purge|done]. }
  case_decide. { apply Ok_inj in H. subst. apply quiet_micros_of, quietly_st, channel_set_resync. }
  case_decide; apply Ok_inj in H; subst; [|done].
  eapply quiet_micros; [|apply rtc_once, micro_purge]. done.
Qed.

Lemma rcb_write_micros w attr v c ip w' r :
  is_Some (w_conns w !! c) → rcb_write w attr v c ip = Ok (w', r) → rtc micro w w'.
Proof using Hbuf.
  intros Hconn. unfold rcb_write. destruct (check_rcb_write _ _ _ _ _) as [err|]; [by intros [= <- _]|].
  destruct (store _ _ _ _ _ _ _ _ _) as [[m cs]|err]; [|by intros [= <- _]].
  intros (w1 & H1 & H)%bind_Ok_inv. injection H as -> _. eapply quiet_micros; [|by eapply on_rcb_write_micros; [|done]]. done.
Qed.

Lemma disable_conn_micros w c w' : disable_conn w c = Ok w' → rtc micro w w'.
Proof using Hbuf.
  unfold disable_conn. intros (w1 & H1 & H)%bind_Ok_inv. apply Ok_inj in H. subst.
  apply (micros_quiet _ w1); [|destruct (decide (rt_owner (w_st w1) = Some c)); [apply release_quiet|done]].
  case_decide; [by apply disable_micros|by apply Ok_inj in H1; subst].
Qed.

Lemma shutdown_micros w : rtc micro w (shutdown w).
Proof.
  eapply micros_quiet; [apply rtc_once, micro_disable|]. by destruct w as [m [] cnt clk snd cs lg].
Qed.

(** An operation but for what it does to the associations and what happens
    elsewhere. *)
Definition opened (w : World) (op : Op) : World :=
  match op with
  | Connect c max_pdu => with_conns w (<[c := max_pdu]> (w_conns w))
  | Disconnect c => with_conns w (delete c (w_conns w))
  | Environment m drawn clock sends =>
      mkW m (w_st w) (w_counter w + Z.of_nat drawn) clock sends (w_conns w) (w_log w)
  | _ => w
  end.

Lemma apply_op_micros w op w' : op_ok w op → apply_op w op = Ok w' → rtc micro (opened w op) w'.
Proof using Hbuf.
  destruct op; simpl; intros Hok H; try (apply Ok_inj in H; subst; apply rtc_refl).
  - apply bind_Ok_inv in H as ([w1 r] & H1 & H). apply Ok_inj in H. subst. by eapply rcb_write_micros.
  - by eapply on_update_micros.
  - by eapply window_fires_micros.
  - by eapply integrity_fires_micros.
  - apply Ok_inj in H. subst. apply quiet_micros_of, resv_fires_quiet.
  - by eapply disable_conn_micros.
  - apply Ok_inj in H. subst. apply shutdown_micros.
Qed.
End block.
