(* ===== verification/ReportBuffer.v ===== *)
(** What a buffered control block promises its clients (IEC 61850-7-2) and that
    the report engine of src/src/server/reporting.rs keeps it: the reports are
    the entries in the order they were committed, each once, and a report that
    follows a gap says so. *)

From stdpp Require Import sorting.
From S2P Require Import Prelude Ber BerDecoder BerPrim TimeUtil Text Errors MmsValue MmsCodec.
From S2P Require Import ObjRef Quality Nodes Access Tx Handler Selections InfoReport Rcb ReportPdu Reporting.
Local Open Scope list_scope.
Local Open Scope Z_scope.

(** ** The promise

    An unbounded history of the entries since the buffer was last purged, a
    position in it, and whether the last report was delivered only in part. *)

Record Promise := mkPromise {
  p_history : list ReportEntry;
  p_cursor : nat;
  p_partial : bool;
  p_subscriber : option ConnId;
  p_seq : Z;
}.

Definition promise_init : Promise := mkPromise [] 0 false None 0.

Section promise.
Context (depth : nat).

(** How many of the oldest entries are no longer held, and those that are. *)
Definition discarded (p : Promise) : nat := length (p_history p) - depth.
Definition held (p : Promise) : list ReportEntry := drop (discarded p) (p_history p).

(** Whether the client has missed something: what the next report has to say. *)
Definition missed (p : Promise) : bool := p_partial p || bool_decide (p_cursor p < discarded p)%nat.

(** The position of the next entry to send. *)
Definition upcoming (p : Promise) : nat := p_cursor p `max` discarded p.

(** Which events may come next. *)
Definition accepts (p : Promise) (ev : Event) : Prop :=
  match ev with
  | Sent r =>
      p_subscriber p = Some (sr_conn r) ∧ p_seq p = sr_seq r ∧
      p_history p !! upcoming p = Some (sr_entry r) ∧ missed p = sr_ovfl r
  | Unsent e => p_history p !! upcoming p = Some e
  | _ => True
  end.

Definition index_of (id : list Z) (l : list ReportEntry) : option nat := fst <$> list_find (λ e, e_id e = id) l.

(** Where a client asks to resume: after an entry, from the oldest held for all
    zeros, and from the oldest with something missed when the entry is gone. *)
Definition resume (p : Promise) (id : option (list Z)) : nat * bool :=
  match id with
  | None => (p_cursor p, p_partial p)
  | Some id =>
      if is_zero_entry_id id then (discarded p, missed p)
      else
        match index_of id (held p) with
        | Some i => ((discarded p + (i + 1))%nat, missed p)
        | None => (discarded p, true)
        end
  end.

Definition follow (p : Promise) (ev : Event) : Promise :=
  let 'mkPromise h c lossy sub seq := p in
  match ev with
  | Committed e => mkPromise (h ++ [e]) c lossy sub seq
  | Sent r => mkPromise h (S (upcoming p)) (negb (sr_complete r)) sub (Z.land (seq + 1) 0xffff)
  | Unsent _ => mkPromise h (S (upcoming p)) (missed p) sub seq
  | Purged => mkPromise [] 0 false sub seq
  | Enabled c' id => let '(c, lossy) := resume p id in mkPromise h c lossy (Some c') 0
  | Disabled => mkPromise h c lossy None seq
  end.

Fixpoint kept (p : Promise) (events : list Event) : Prop :=
  match events with
  | [] => True
  | ev :: events => accepts p ev ∧ kept (follow p ev) events
  end.

Definition promise_after (p : Promise) (events : list Event) : Promise := foldl follow p events.

Lemma kept_app p l1 l2 : kept p (l1 ++ l2) ↔ kept p l1 ∧ kept (promise_after p l1) l2.
Proof. revert p. induction l1 as [|ev l1 IH]; intros p; simpl; [tauto|]. rewrite IH. tauto. Qed.

Lemma promise_after_app p l1 l2 : promise_after p (l1 ++ l2) = promise_after (promise_after p l1) l2.
Proof. apply foldl_app. Qed.

(** ** The engine keeps it *)

(** The buffer is what is held, its index the distance of the position from the
    oldest entry held. *)
Record tracks (p : Promise) (st : RcbRuntime) : Prop := {
  tracks_buffer : rt_buffer st = held p;
  tracks_next : rt_next st = (p_cursor p - discarded p)%nat;
  tracks_cursor : (p_cursor p ≤ length (p_history p))%nat;
  tracks_overflow : rt_buf_overflow st = missed p;
  tracks_conn : rt_conn st = p_subscriber p;
  tracks_enabled : rt_enabled st = bool_decide (is_Some (p_subscriber p));
  tracks_seq : rt_sq_num st = p_seq p;
}.

Definition faithful (w : World) : Prop :=
  kept promise_init (w_log w) ∧ tracks (promise_after promise_init (w_log w)) (w_st w).

Lemma evict_one b next overflow e :
  (length b ≤ depth)%nat →
  evict depth (b ++ [e]) next overflow =
  if decide (length b < depth)%nat then (b ++ [e], next, overflow)
  else (drop 1 (b ++ [e]), (next - 1)%nat, overflow || bool_decide (next = 0%nat)).
Proof.
  intros Hb. assert (∀ b' next overflow, (length b' ≤ depth)%nat → evict depth b' next overflow = (b', next, overflow)) as Hid.
  { intros [|x b'] n o Hl; [done|]. cbn [evict]. by rewrite decide_False by (simpl in *; lia). }
  case_decide.
  - apply Hid. rewrite length_app. simpl. lia.
  - destruct (b ++ [e]) as [|x b'] eqn:E; [by destruct b|].
    assert (length (x :: b') = S (length b)) as Hl by (rewrite <-E, length_app; simpl; lia).
    cbn [evict]. rewrite decide_True by lia. simpl in Hl. cbn [drop].
    destruct next as [|next]; cbn [Nat.ltb].
    + rewrite decide_False by lia. rewrite Hid by lia. by rewrite orb_true_r.
    + rewrite decide_True by lia. rewrite Hid by lia. by rewrite orb_false_r.
Qed.

Lemma held_length p : (length (held p) ≤ depth)%nat.
Proof. unfold held, discarded. rewrite length_drop. lia. Qed.

(** Keeping one more entry. *)
Lemma tracks_commit p st e :
  tracks p st →
  let '(b, next, overflow) := evict depth (rt_buffer st ++ [e]) (rt_next st) (rt_buf_overflow st) in
  tracks (follow p (Committed e)) (set_buffer st b next overflow).
Proof.
  intros [Hb Hn Hc Ho Hconn Hen Hs]. rewrite evict_one by (rewrite Hb; apply held_length).
  destruct p as [h c lossy sub seq]. unfold held, missed, discarded in *. simpl in *.
  rewrite Hb, length_drop in *. destruct (decide (length h - (length h - depth) < depth)%nat) as [Hd|Hd]; cbv beta iota.
  - destruct st. split; simpl in *; try done; unfold held, missed, discarded; simpl; rewrite length_app; simpl.
    + rewrite drop_app_le by lia. f_equal; f_equal; lia.
    + lia.
    + lia.
    + rewrite Ho. f_equal. apply bool_decide_ext. lia.
  - destruct st. split; simpl in *; try done; unfold held, missed, discarded; simpl; rewrite length_app; simpl.
    + rewrite <-drop_app_le, drop_drop by lia. f_equal. lia.
    + lia.
    + lia.
    + rewrite Ho, <-orb_assoc. f_equal. rewrite <-bool_decide_or. apply bool_decide_ext. lia.
Qed.

Lemma tracks_channel p st st' : tracks p st → channel st' = channel st → tracks p st'.
Proof. intros [Hb Hn Hc Ho Hconn Hen Hs] [= H1 H2 H3 H4 H5 H6]. split; congruence. Qed.

Lemma upcoming_entry p st e :
  tracks p st → rt_buffer st !! rt_next st = Some e → p_history p !! upcoming p = Some e.
Proof.
  intros [Hb Hn _ _ _ _ _]. rewrite Hb, Hn. unfold held, upcoming. rewrite lookup_drop. intros H. rewrite <-H. f_equal. lia.
Qed.

Lemma upcoming_bound p e : p_history p !! upcoming p = Some e → (upcoming p < length (p_history p))%nat.
Proof. apply lookup_lt_Some. Qed.

(** Moving past the upcoming entry. *)
Lemma tracks_next_entry p st e c' seq lossy ev :
  tracks p st → rt_buffer st !! rt_next st = Some e →
  follow p ev = mkPromise (p_history p) (S (upcoming p)) lossy (p_subscriber p) seq → c' = lossy →
  tracks (follow p ev) (set_rt_sq_num (set_buffer st (rt_buffer st) (S (rt_next st)) c') seq).
Proof.
  intros Ht He Hf ->. pose proof (upcoming_entry p st e Ht He) as Hu. apply upcoming_bound in Hu.
  destruct Ht as [Hb Hn Hc Ho Hconn Hen Hs]. rewrite Hf. clear Hf He. destruct p as [h c l sub q], st.
  unfold upcoming, held, missed, discarded in *. simpl in *.
  split; unfold held, missed, discarded; simpl; try done; try lia.
  rewrite bool_decide_eq_false_2 by lia. by rewrite orb_false_r.
Qed.

Lemma tracks_enable p st c :
  tracks p st →
  tracks (follow p (Enabled c (rt_resync_id st))) (resync (set_rt_sq_num (set_subscriber st true (Some c)) 0)).
Proof.
  intros [Hb Hn Hc Ho Hconn Hen Hs]. destruct p as [h cur l sub q]. unfold resync, follow, resume.
  destruct st. simpl in *. destruct rt_resync_id as [id|]; [|by split].
  unfold held, missed, discarded in *. simpl in *.
  destruct (is_zero_entry_id id).
  { split; simpl; try done; unfold held, missed, discarded; simpl; try lia.
    rewrite (bool_decide_eq_false_2 (length h - depth < _)%nat) by lia. by rewrite orb_false_r. }
  unfold buffer_index, index_of. simpl. rewrite Hb.
  destruct (list_find _ (drop (length h - depth) h)) as [[i e]|] eqn:Hf; simpl.
  - apply list_find_Some in Hf as (Hi & _). apply lookup_lt_Some in Hi. rewrite length_drop in Hi.
    split; simpl; try done; unfold held, missed, discarded; simpl; try lia.
    rewrite (bool_decide_eq_false_2 (length h - depth + _ < _)%nat) by lia. by rewrite orb_false_r.
  - split; simpl; try done; unfold held, missed, discarded; simpl; lia.
Qed.
End promise.

Section engine.
Context (rs : RcbState) (entry_seed : Z).
Let depth := rs_max_buffer rs.

Lemma faithful_log w st ev w' :
  faithful depth w → w_log w' = w_log w ++ [ev] → w_st w' = st →
  accepts depth (promise_after depth promise_init (w_log w)) ev →
  tracks depth (follow depth (promise_after depth promise_init (w_log w)) ev) st →
  faithful depth w'.
Proof.
  intros [Hk _] Hl <- Ha Ht. unfold faithful. rewrite Hl, kept_app, promise_after_app. by split; [split|].
Qed.

Lemma micro_faithful w w' : faithful depth w → micro rs entry_seed w w' → faithful depth w'.
Proof.
  intros Hw Hm. pose proof Hw as [Hk Ht]. destruct Hm as [w' (Hch & _ & _ & Hl)|e He|e c max_pdu pdus complete Hen Hc He|e Hen Hc He| |c Hc|].
  - split; rewrite Hl; [done|]. by eapply tracks_channel.
  - pose proof (tracks_commit depth _ _ e Ht) as Htc. unfold commit. fold depth.
    destruct (evict _ _ _ _) as [[b next] overflow]. by eapply (faithful_log w _ (Committed e)).
  - eapply (faithful_log w); [done|reflexivity|reflexivity| |].
    + unfold subscriber_conn in Hc. apply bind_Some in Hc as (c' & Hcc & Hc). apply bind_Some in Hc as (mp & _ & [= -> _]).
      destruct Ht as [Hb Hn Hcur Ho Hconn He' Hs] eqn:E. split_and!; simpl; [congruence|done|by eapply upcoming_entry|done].
    + eapply tracks_next_entry; [done|done| |done]. simpl. destruct (promise_after _ _ _); simpl. f_equal. by rewrite (tracks_seq _ _ _ Ht).
  - eapply (faithful_log w); [done|reflexivity|reflexivity|by eapply upcoming_entry|].
    eapply tracks_next_entry; [done|done| |by apply tracks_overflow]. rewrite (tracks_seq _ _ _ Ht). by destruct (promise_after _ _ _).
  - eapply (faithful_log w); [done|reflexivity|reflexivity|done|]. destruct Ht as [Hb Hn Hcur Ho Hconn He' Hs].
    unfold purge_block. simpl. destruct (promise_after _ _ _), (w_st w). by split.
  - eapply (faithful_log w); [done|reflexivity|reflexivity|done|]. by apply tracks_enable.
  - eapply (faithful_log w); [done|reflexivity|reflexivity|done|]. destruct Ht as [Hb Hn Hcur Ho Hconn He' Hs].
    simpl. destruct (promise_after _ _ _), (w_st w). by split.
Qed.

Lemma micros_faithful w w' : rtc (micro rs entry_seed) w w' → faithful depth w → faithful depth w'.
Proof. induction 1; intros Hf; [done|]. eauto using micro_faithful. Qed.

Lemma initial_faithful w : initial w → faithful depth w.
Proof. intros (m & ri & rc & clock & sends & ->). split; [done|]. by split. Qed.

Section runs.
Context (display : Value → list Z) (owned running : bool) (writable : gset Fc) (editing : list Z → bool)
  (hook : option (DataAttribute → Value → option DataAccessError)).
Let step := step display rs entry_seed owned running writable editing hook.
Let reachable := reachable display rs entry_seed owned running writable editing hook.
Context (Hbuf : rs_buffered rs = true).

Lemma step_faithful w w' : step w w' → faithful depth w → faithful depth w'.
Proof using Hbuf.
  intros (op & Hok & H) Hf. eapply micros_faithful; [by eapply apply_op_micros|]. by destruct op.
Qed.

Lemma reachable_faithful w : reachable w → faithful depth w.
Proof using Hbuf.
  intros (w0 & Hi & Hr). apply initial_faithful in Hi. induction Hr as [|w0 w1 w Hs _ IH]; [done|].
  apply IH. by eapply step_faithful.
Qed.
End runs.
End engine.


(** ** What the promise means to a client *)

(** The entries committed since the buffer was last purged. *)
Definition committed (events : list Event) : list ReportEntry :=
  foldl (λ h ev, match ev with Committed e => h ++ [e] | Purged => [] | _ => h end) [] events.

(** The client did not ask to resume elsewhere, nothing was purged and nothing
    was left unsent. *)
Definition carries_on (ev : Event) : Prop :=
  match ev with Committed _ | Disabled | Enabled _ None => True | _ => False end.

Definition is_commit (ev : Event) : Prop := match ev with Committed _ => True | _ => False end.

Section meaning.
Context (depth : nat).

Lemma history_committed l : p_history (promise_after depth promise_init l) = committed l.
Proof.
  unfold promise_after, committed. set (f := λ h ev, _).
  assert (∀ p, p_history (foldl (follow depth) p l) = foldl f (p_history p) l) as H; [|by apply H].
  induction l as [|ev l IH]; intros p; [done|]. simpl. rewrite IH. f_equal.
  destruct p as [h c lo s q], ev as [| | | |c' id|]; try done. cbn [follow]. by destruct (resume _ _ _).
Qed.

Lemma carries_on_kept mid : Forall carries_on mid → ∀ p,
  let p' := promise_after depth p mid in
  p_history p `prefix_of` p_history p' ∧ p_cursor p' = p_cursor p ∧ p_partial p' = p_partial p.
Proof.
  induction 1 as [|ev mid Hev _ IH]; intros p; [done|]. simpl. destruct (IH (follow depth p ev)) as (Hh & -> & ->).
  destruct p as [h c l s q], ev as [e| | | |c' [id|]|]; try done; simpl in *;
    (split; [|done]); etrans; try exact Hh; (reflexivity || by apply prefix_app_r).
Qed.

Lemma commits_kept mid : Forall is_commit mid → ∀ p,
  let p' := promise_after depth p mid in p_subscriber p' = p_subscriber p ∧ p_seq p' = p_seq p.
Proof.
  induction 1 as [|ev mid Hev _ IH]; intros p; [done|]. simpl. destruct (IH (follow depth p ev)) as (-> & ->).
  by destruct p, ev.
Qed.

Lemma kept_gap l1 r1 mid r2 l2 :
  kept depth promise_init (l1 ++ Sent r1 :: mid ++ Sent r2 :: l2) → Forall carries_on mid → sr_ovfl r2 = false →
  sr_complete r1 = true ∧
  (∃ i, committed (l1 ++ Sent r1 :: mid) !! i = Some (sr_entry r1) ∧
        committed (l1 ++ Sent r1 :: mid) !! S i = Some (sr_entry r2)) ∧
  (Forall is_commit mid → sr_conn r2 = sr_conn r1 ∧ sr_seq r2 = Z.land (sr_seq r1 + 1) 0xffff).
Proof.
  intros Hk Hmid Ho. apply kept_app in Hk as [_ [H1 Hk]]. apply kept_app in Hk as [_ [H2 _]].
  rewrite <-history_committed, promise_after_app.
  set (p1 := promise_after depth promise_init l1) in *. set (p2 := follow depth p1 (Sent r1)) in *.
  change (promise_after depth p1 (Sent r1 :: mid)) with (promise_after depth p2 mid).
  destruct (carries_on_kept mid Hmid p2) as (Hh & Hc & Hp). pose proof (commits_kept mid) as Hcs.
  destruct H1 as (Hs1 & Hq1 & He1 & _), H2 as (Hs2 & Hq2 & He2 & Hm2).
  set (p3 := promise_after depth p2 mid) in *. unfold missed in Hm2. rewrite Ho in Hm2.
  apply orb_false_iff in Hm2 as [Hpart Hcur%bool_decide_eq_false].
  assert (p_cursor p2 = S (upcoming depth p1) ∧ p_partial p2 = negb (sr_complete r1) ∧ p_history p2 = p_history p1 ∧
    p_subscriber p2 = p_subscriber p1 ∧ p_seq p2 = Z.land (p_seq p1 + 1) 0xffff) as (Hc2 & Hp2 & Hh2 & Hs2' & Hq2').
  { unfold p2. by destruct p1. }
  split; [rewrite Hp, Hp2 in Hpart; by destruct (sr_complete r1)|]. split.
  - exists (upcoming depth p1). rewrite <-Hh2 in He1. split; [by eapply prefix_lookup_Some|].
    assert (upcoming depth p3 = S (upcoming depth p1)) as Hu; [|by rewrite <-Hu].
    unfold upcoming at 1. lia.
  - intros Hcom. destruct (Hcs Hcom p2) as [Hsub Hseq]. fold p3 in Hsub, Hseq. split; [congruence|].
    rewrite <-Hq2, Hseq, Hq2'. congruence.
Qed.
End meaning.


(** ** Entries are left unsent only when an association is lost *)

Definition is_unsent (ev : Event) : Prop := match ev with Unsent _ => True | _ => False end.

(** The subscriber of an enabled block has an open association. *)
Definition connected (w : World) : Prop :=
  (rt_enabled (w_st w) = true → is_Some (rt_conn (w_st w))) ∧
  ∀ c, rt_conn (w_st w) = Some c → is_Some (w_conns w !! c).

Section unsent.
Context (display : Value → list Z) (rs : RcbState) (entry_seed : Z) (owned running : bool) (writable : gset Fc)
  (editing : list Z → bool) (hook : option (DataAttribute → Value → option DataAccessError)).
Let micro := micro rs entry_seed.
Let apply_op := apply_op display rs entry_seed owned running writable editing hook.
Let reachable := reachable display rs entry_seed owned running writable editing hook.

Lemma connected_subscriber w : connected w → rt_enabled (w_st w) = true → subscriber_conn w ≠ None.
Proof.
  intros [He Hc] Hen. destruct (He Hen) as [c Hcc]. destruct (Hc c Hcc) as [m Hm].
  unfold subscriber_conn. rewrite Hcc. simpl. by rewrite Hm.
Qed.

Lemma resync_subscriber st : rt_enabled (resync st) = rt_enabled st ∧ rt_conn (resync st) = rt_conn st.
Proof. unfold resync. destruct st. simpl. repeat case_match; done. Qed.

Lemma one_event w w' ev :
  w_log w' = w_log w ++ [ev] → ¬ is_unsent ev → ∃ evs, w_log w' = w_log w ++ evs ∧ Forall (λ ev, ¬ is_unsent ev) evs.
Proof. intros Hl Hu. exists [ev]. by split; [|constructor]. Qed.

Lemma micro_connected w w' :
  connected w → micro w w' → connected w' ∧ ∃ evs, w_log w' = w_log w ++ evs ∧ Forall (λ ev, ¬ is_unsent ev) evs.
Proof.
  intros Hw Hm. pose proof Hw as [He Hc].
  destruct Hm as [w' (Hch & _ & Hn & Hl)|e Hid|e c max_pdu pdus complete Hen Hs Hb|e Hen Hs Hb| |c Hcc|].
  - injection Hch as H1 H2 H3 H4 H5 H6. split; [|by exists []; rewrite app_nil_r]. unfold connected. by rewrite H1, H2, Hn.
  - unfold commit. destruct (evict _ _ _ _) as [[b n] o]. split; [|eapply one_event; [reflexivity|by intros []]].
    unfold connected in *. simpl. by destruct (w_st w).
  - split; [|eapply one_event; [reflexivity|by intros []]].
    unfold connected, after_send in *. simpl. by destruct (w_st w).
  - by destruct (connected_subscriber w).
  - split; [|eapply one_event; [reflexivity|by intros []]].
    unfold connected, purge_block in *. simpl. by destruct (w_st w).
  - split; [|eapply one_event; [reflexivity|by intros []]].
    unfold connected. simpl. destruct (resync_subscriber (set_rt_sq_num (set_subscriber (w_st w) true (Some c)) 0)) as [-> ->].
    destruct (w_st w). simpl. split; [done|]. by intros c' [= <-].
  - split; [|eapply one_event; [reflexivity|by intros []]].
    unfold connected. simpl. by destruct (w_st w).
Qed.

Lemma micros_connected w w' :
  rtc micro w w' → connected w →
  connected w' ∧ ∃ evs, w_log w' = w_log w ++ evs ∧ Forall (λ ev, ¬ is_unsent ev) evs.
Proof.
  induction 1 as [w|w w1 w' H1 _ IH]; intros Hc; [split; [done|]; by exists []; rewrite app_nil_r|].
  destruct (micro_connected _ _ Hc H1) as [Hc1 (evs1 & Hl1 & Hu1)]. destruct (IH Hc1) as [Hc' (evs & Hl & Hu)].
  split; [done|]. exists (evs1 ++ evs). rewrite Hl, Hl1, <-app_assoc. split; [done|]. by apply Forall_app.
Qed.

Lemma micros_log w w' : rtc micro w w' → w_log w `prefix_of` w_log w'.
Proof.
  induction 1 as [|w w1 w' H1 _ IH]; [done|]. etrans; [|done]. destruct H1 as [w1 (_ & _ & _ & ->)| | | | | |]; [done|..].
  2-6: by apply prefix_app_r.
  unfold commit. destruct (evict _ _ _ _) as [[? ?] ?]. by apply prefix_app_r.
Qed.

Context (Hbuf : rs_buffered rs = true).

Lemma disable_disables w w' :
  disable display rs entry_seed owned running w = Ok w' → rt_enabled (w_st w') = false ∧ rt_conn (w_st w') = None.
Proof using Hbuf.
  unfold disable. intros (w1 & _ & H)%bind_Ok_inv. apply Ok_inj in H. rewrite Hbuf in H. subst.
  match goal with |- context [release _ _ _ ?x] => destruct (release_quiet rs owned running x) as [[= -> -> _ _ _ _] _] end.
  simpl. by destruct (w_st w1).
Qed.

Lemma release_keeps w : rt_enabled (w_st (release rs owned running w)) = rt_enabled (w_st w) ∧
  rt_conn (w_st (release rs owned running w)) = rt_conn (w_st w) ∧
  w_log (release rs owned running w) = w_log w.
Proof. destruct (release_quiet rs owned running w) as ([= -> -> _ _ _ _] & _ & _ & ->). done. Qed.

(** Losing the association of the subscriber. *)
Lemma disconnect_subscriber w c w' :
  rt_conn (w_st w) = Some c → disable_conn display rs entry_seed owned running w c = Ok w' →
  connected w' ∧ (rt_pending (w_st w) = None → w_log w' = w_log w ++ [Disabled]).
Proof using Hbuf.
  intros Hc. unfold disable_conn. rewrite decide_True by done. intros (w1 & H1 & H)%bind_Ok_inv. apply Ok_inj in H.
  pose proof (disable_disables _ _ H1) as [He Hcn].
  assert (rt_enabled (w_st w') = false ∧ rt_conn (w_st w') = None ∧ w_log w' = w_log w1) as (He' & Hc' & Hl).
  { subst w'. case_decide; [|done]. destruct (release_keeps w1) as (-> & -> & ->). done. }
  split; [unfold connected; rewrite He', Hc'; split; done|]. rewrite Hl. intros Hp.
  unfold disable, flush_pending in H1. rewrite Hp in H1. apply Ok_inj in H1. rewrite Hbuf in H1. subst w1.
  by destruct (release_keeps (log (with_st w (stop_integrity (set_subscriber (w_st w) false None))) Disabled)) as (_ & _ & ->).
Qed.

Lemma op_connected w op w' :
  connected w → op_ok w op → apply_op w op = Ok w' →
  connected w' ∧ ∃ evs, w_log w' = w_log w ++ evs ∧
    (Exists is_unsent evs →
     ∃ c, op = Disconnect c ∧ rt_conn (w_st w) = Some c ∧ rt_pending (w_st w) ≠ None).
Proof using Hbuf.
  intros Hw Hok H. pose proof (apply_op_micros _ _ _ _ _ _ _ _ Hbuf _ _ _ Hok H) as Hm.
  assert (connected (opened w op) → w_log (opened w op) = w_log w → connected w' ∧ ∃ evs, w_log w' = w_log w ++ evs ∧
    (Exists is_unsent evs → ∃ c, op = Disconnect c ∧ rt_conn (w_st w) = Some c ∧ rt_pending (w_st w) ≠ None)) as Hgo.
  { intros Ho Hl. destruct (micros_connected _ _ Hm Ho) as [Hc (evs & He & Hu)]. split; [done|]. exists evs.
    split; [congruence|]. intros Hex. exfalso. by apply Forall_not_Exists in Hu. }
  destruct op as [c mp| | | | | |c| |]; try (apply Hgo; [exact Hw|reflexivity]).
  - apply Hgo; [|done]. destruct Hw as [He Hc]. split; [done|]. intros c' Hc'. simpl.
    destruct (decide (c = c')) as [->|Hne]; [by rewrite lookup_insert_eq|]. rewrite lookup_insert_ne by done. by apply Hc.
  - destruct (decide (rt_conn (w_st w) = Some c)) as [Hc|Hc].
    + destruct (disconnect_subscriber (opened w (Disconnect c)) c w' Hc H) as [Hw' Hl]. split; [done|].
      destruct (rt_pending (w_st w)) as [p|] eqn:Hp.
      * destruct (micros_log _ _ Hm) as [evs He]. exists evs. split; [done|]. intros _. by exists c.
      * exists [Disabled]. split; [by apply Hl|]. intros Hex. by apply Exists_exists in Hex as (ev & ->%list_elem_of_singleton & Hu).
    + apply Hgo; [|done]. destruct Hw as [He Hcc]. split; [done|]. intros c' Hc'. simpl.
      rewrite lookup_delete_ne by (simpl in Hc'; congruence). by apply Hcc.
Qed.

Lemma reachable_connected w : reachable w → connected w.
Proof using Hbuf.
  intros (w0 & (m & ri & rc & clock & sends & ->) & Hr). revert Hr. generalize (eq_refl (∅ : gmap ConnId Z)).
  set (w0 := mkW _ _ _ _ _ _ _). intros _ Hr. assert (connected w0) as H0 by (by split).
  clearbody w0. induction Hr as [|w0 w1 w (op & Hok & H) _ IH]; [done|]. apply IH.
  by destruct (op_connected w0 op w1 H0 Hok H).
Qed.
End unsent.

(** An entry leaves the buffer unsent only with its association. An
    operation of a buffered block puts an entry aside as handled without sending
    it only when it is the loss of the subscriber's association while a
    buffer-time window is open. *)
Theorem unsent_only_on_loss display rs entry_seed owned running writable editing hook (w w' : World) (op : Op) :
  rs_buffered rs = true →
  reachable display rs entry_seed owned running writable editing hook w →
  op_ok w op → apply_op display rs entry_seed owned running writable editing hook w op = Ok w' →
  ∃ evs, w_log w' = w_log w ++ evs ∧
    (Exists is_unsent evs →
     ∃ c, op = Disconnect c ∧ rt_conn (w_st w) = Some c ∧ rt_pending (w_st w) ≠ None).
Proof.
  intros Hb Hr Hok H. pose proof (reachable_connected _ _ _ _ _ _ _ _ Hb w Hr) as Hc.
  by destruct (op_connected _ _ _ _ _ _ _ _ Hb w op w' Hc Hok H) as [_ He].
Qed.

(** ** EntryIDs *)

Definition all_committed (events : list Event) : list ReportEntry :=
  omap (λ ev, match ev with Committed e => Some e | _ => None end) events.

Section ids.
Context (rs : RcbState) (entry_seed : Z).

(** The entries have been numbered by ascending readings of the counter. *)
Definition numbered (w : World) : Prop :=
  ∃ ns, map e_id (all_committed (w_log w)) = map (next_entry_id entry_seed) ns ∧
    StronglySorted Z.lt ns ∧ Forall (λ n, 0 ≤ n < w_counter w) ns ∧ 0 ≤ w_counter w.

Lemma all_committed_app l1 l2 : all_committed (l1 ++ l2) = all_committed l1 ++ all_committed l2.
Proof. apply omap_app. Qed.

Lemma sorted_snoc (ns : list Z) n : StronglySorted Z.lt ns → Forall (λ k, k < n) ns → StronglySorted Z.lt (ns ++ [n]).
Proof.
  induction 1 as [|k ns Hs IH Hk]; intros Hn; [by repeat constructor|].
  apply Forall_cons in Hn as [Hkn Hn]. simpl. constructor; [by apply IH|]. apply Forall_app. by repeat constructor.
Qed.

Lemma micro_numbered w w' : numbered w → micro rs entry_seed w w' → numbered w'.
Proof.
  intros (ns & Hm & Hs & Hb & H0). assert (∀ w', w_counter w' = w_counter w →
    all_committed (w_log w') = all_committed (w_log w) → numbered w') as Hsame.
  { intros w1 Hc Hl. exists ns. by rewrite Hl, Hc. }
  assert (∀ ev, (∀ e, ev ≠ Committed e) → all_committed (w_log w ++ [ev]) = all_committed (w_log w)) as Hev.
  { intros ev Hn. rewrite all_committed_app. destruct ev; try (by rewrite app_nil_r). by destruct (Hn e). }
  intros [w1 (_ & Hc & _ & Hl)|e Hid|e c mp pdus comp _ _ _|e _ _ _| |c _|]; try (by apply Hsame; [|by apply Hev]).
  - apply Hsame; [done|]. by rewrite Hl.
  - unfold commit. destruct (evict _ _ _ _) as [[b n] o]. exists (ns ++ [w_counter w]). simpl.
    rewrite all_committed_app, !map_app, Hm. simpl. rewrite Hid. split; [done|]. split; [|split; [|lia]].
    + apply sorted_snoc; [done|]. eapply Forall_impl; [done|]. simpl. lia.
    + apply Forall_app. split; [|by repeat constructor; lia]. eapply Forall_impl; [done|]. simpl. lia.
Qed.

Lemma next_entry_id_inj n k :
  0 ≤ entry_seed < 2 ^ 32 → 0 ≤ n < 2 ^ 32 - 1 → 0 ≤ k < 2 ^ 32 - 1 →
  next_entry_id entry_seed n = next_entry_id entry_seed k → n = k.
Proof.
  intros Hs Hn Hk. unfold next_entry_id, make_entry_id. intros H.
  assert (∀ n, 0 ≤ n < 2 ^ 32 - 1 →
    Z.lor (Z.shiftl entry_seed 32) (Z.land (n + 1) 0xffffffff) = entry_seed * 2 ^ 32 + (n + 1)) as Heq.
  { intros x Hx. change 0xffffffff with (Z.ones 32). rewrite Z.land_ones, Z.mod_small by lia.
    rewrite lor_shiftl_add by lia. lia. }
  rewrite !Heq in H by lia. apply (f_equal from_be) in H. rewrite !from_to_be in H.
  change (256 ^ Z.of_nat 8) with (2 ^ 64) in H. rewrite !Z.mod_small in H by lia. lia.
Qed.

Lemma numbered_NoDup w :
  0 ≤ entry_seed < 2 ^ 32 → w_counter w < 2 ^ 32 → numbered w → NoDup (map e_id (all_committed (w_log w))).
Proof.
  intros Hs Hc (ns & -> & Hso & Hb & _). induction Hso as [|n ns _ IH Hn]; [constructor|].
  apply Forall_cons in Hb as [Hn0 Hb]. simpl. constructor; [|by apply IH].
  intros Hin. apply list_elem_of_In, in_map_iff in Hin as (k & Heq & Hk%list_elem_of_In).
  rewrite Forall_forall in Hn. specialize (Hn k Hk). rewrite Forall_forall in Hb. specialize (Hb k Hk). simpl in *.
  apply next_entry_id_inj in Heq; lia.
Qed.
End ids.

(** EntryIDs are unique. As long as the server has drawn fewer than 2^32
    identifiers, no two entries a block ever commits have the same EntryID. *)
Theorem entry_ids_unique display rs entry_seed owned running writable editing hook (w : World) :
  rs_buffered rs = true → 0 ≤ entry_seed < 2 ^ 32 →
  reachable display rs entry_seed owned running writable editing hook w →
  w_counter w < 2 ^ 32 →
  NoDup (map e_id (all_committed (w_log w))).
Proof.
  intros Hb Hs (w0 & (m & ri & rc & clock & sends & ->) & Hr) Hc. apply (numbered_NoDup entry_seed); [done..|]. clear Hc.
  set (w0 := mkW _ _ _ _ _ _ _) in Hr. assert (numbered entry_seed w0) as H0 by (exists []; split_and!; [done|constructor|constructor|done]).
  clearbody w0. induction Hr as [|w0 w1 w (op & Hok & H) _ IH]; [done|]. apply IH. clear IH.
  pose proof (apply_op_micros _ _ _ _ _ _ _ _ Hb _ _ _ Hok H) as Hm. revert Hm.
  assert (numbered entry_seed (opened w0 op)) as Ho.
  { destruct op; try done. destruct H0 as (ns & Hn & Hso & Hf & Hp). exists ns. simpl. split_and!; [done..| |lia].
    eapply Forall_impl; [done|]. simpl. lia. }
  clear -Ho. induction 1 as [|? ? ? Hm _ IH]; [done|]. apply IH. by eapply micro_numbered.
Qed.

(** ** Runs of a block *)

Section sample.
Definition sample_step := apply_op (λ _, []) sample_rcb 1 true true ∅ (λ _, false) None.
Definition sample_reachable := reachable (λ _, []) sample_rcb 1 true true ∅ (λ _, false) None.

Definition sample_start : World := mkW sample_blocks RcbRuntime_default 0 [] [] ∅ [].

#[export] Instance op_ok_dec w op : Decision (op_ok w op).
Proof. destruct op; apply _. Defined.

(** The operations in order; one that may not come stops the run. *)
Definition run_ops (ops : list Op) : outcome Empty_set World :=
  foldl (λ o op, w ← o; if decide (op_ok w op) then sample_step w op else Panic) (Ok sample_start) ops.

Lemma run_ops_reachable ops w : run_ops ops = Ok w → sample_reachable w.
Proof.
  revert w. induction ops as [|op ops IH] using rev_ind; intros w H.
  - injection H as <-. exists sample_start. split; [|apply rtc_refl]. by exists sample_blocks, None, false, [], [].
  - unfold run_ops in H. rewrite foldl_app in H. simpl in H. apply bind_Ok_inv in H as (w1 & H1 & H).
    destruct (IH w1 H1) as (w0 & Hi & Hr). exists w0. split; [done|]. eapply rtc_r; [done|].
    case_decide as Hok; [|done]. by exists op.
Qed.

Definition set_text (attr : string) (v : Value) (c : ConnId) : Op := Write (txt attr) v c None.

Definition changed (n : string) : Op :=
  Update {[ (txt "LD0/GGIO1." ++ txt n ++ txt ".stVal", St) := trg DATA_CHANGE ]}.

Definition lost_ops : list Op :=
  [Connect 1 65000; set_text "BufTm" (VUnsigned 100) 1; set_text "RptEna" (VBoolean true) 1; changed "Ind1";
   Disconnect 1; Connect 2 65000; set_text "RptEna" (VBoolean true) 2].
End sample.

(** The events of an open window are lost with the association. A subscriber
    enables a block with a buffer time and its association is lost while a
    window is open: the entry of the window is committed to the buffer, put
    aside as sent though nothing was sent, and the client that enables the block
    next is neither sent it nor told that it missed it. *)
Theorem window_lost_on_loss :
  ∃ w e, run_ops lost_ops = Ok w ∧
    w_log w = [Enabled 1 None; Committed e; Unsent e; Disabled; Enabled 2 None] ∧
    rt_buffer (w_st w) = [e] ∧ rt_next (w_st w) = 1%nat ∧ rt_buf_overflow (w_st w) = false.
Proof. eexists _, _. split; [vm_compute; reflexivity|]. split; [reflexivity|]. split_and!; reflexivity. Qed.

Definition stale_ops : list Op :=
  [Connect 1 65000; set_text "BufTm" (VUnsigned 100) 1; changed "Ind2";
   set_text "DatSet" (VVisibleString (txt "LD0/LLN0$Alarms")) 1; WindowFires 0].

(** A purge leaves the open window. A client gives a block whose window holds
    an event another data set, which purges the buffer: the event still becomes
    an entry, of a member the new data set does not have. *)
Theorem window_survives_purge :
  ∃ w e, run_ops stale_ops = Ok w ∧ w_log w = [Purged; Committed e] ∧ e_members e = [1%nat] ∧
    length <$> data_set_members (λ _, []) sample_rcb w = Some 1%nat.
Proof. eexists _, _. split; [vm_compute; reflexivity|]. split; [reflexivity|]. split_and!; reflexivity. Qed.

(** *** Two entries are sent, an entry is discarded before anyone listens, and the
    next report says so *)
Definition sample_run : list Op :=
  [Connect 1 65000; set_text "RptEna" (VBoolean true) 1; changed "Ind1"; changed "Ind2";
   set_text "RptEna" (VBoolean false) 1; changed "Ind1"; changed "Ind1"; changed "Ind2";
   set_text "RptEna" (VBoolean true) 1].

(** What a report says, by the number of its entry. *)
Definition report_of (ev : Event) : option (Z * Z * bool) :=
  match ev with Sent r => Some (from_be (e_id (sr_entry r)) - 2 ^ 32, sr_seq r, sr_ovfl r) | _ => None end.



Lemma unsent_only_on_loss_witness :
  ∃ w w' evs, run_ops (take 4 lost_ops) = Ok w ∧ sample_step w (Disconnect 1) = Ok w' ∧
    w_log w' = w_log w ++ evs ∧ (Exists is_unsent evs → rt_pending (w_st w) ≠ None).
Proof.
  destruct (run_ops (take 4 lost_ops)) as [w|?| |] eqn:E; [|vm_compute in E; discriminate E..].
  pose proof (f_equal (λ r, w ← r; sample_step w (Disconnect 1)) E) as Hs. cbn [mbind outcome_bind] in Hs.
  destruct (sample_step w (Disconnect 1)) as [w'|?| |] eqn:E'; [|vm_compute in Hs; discriminate Hs..]. clear Hs.
  destruct (unsent_only_on_loss (λ _, []) sample_rcb 1 true true ∅ (λ _, false) None w w' (Disconnect 1) eq_refl
    (run_ops_reachable _ _ E) I E') as (evs & Hl & Hu).
  exists w, w', evs. split; [reflexivity|]. split; [exact E'|]. split; [exact Hl|].
  intros Hex. destruct (Hu Hex) as (c & _ & _ & Hp). exact Hp.
Defined.

Lemma entry_ids_unique_witness :
  ∃ w, run_ops sample_run = Ok w ∧ length (all_committed (w_log w)) = 5%nat ∧
    NoDup (map e_id (all_committed (w_log w))).
Proof.
  destruct (run_ops sample_run) as [w|?| |] eqn:E; [|vm_compute in E; discriminate E..].
  exists w. split; [reflexivity|]. pose proof (f_equal (λ r, match r with Ok w => w_counter w | _ => 0 end) E) as Hc.
  pose proof (f_equal (λ r, match r with Ok w => length (all_committed (w_log w)) | _ => O end) E) as Hl.
  cbv beta iota in Hc, Hl. split; [rewrite <-Hl; vm_compute; reflexivity|].
  apply (entry_ids_unique (λ _, []) sample_rcb 1 true true ∅ (λ _, false) None w eq_refl ltac:(lia) (run_ops_reachable _ _ E)).
  rewrite <-Hc. vm_compute. reflexivity.
Defined.
