(* ===== verification/ReportOwner.v ===== *)
(** Who may use a report control block (src/src/server/reporting.rs,
    IEC 61850-7-2 reservation): the client that holds it, and nobody else until
    it lets go or leaves; and that every operation of the engine ends. *)

From S2P Require Import Prelude Ber BerDecoder BerPrim TimeUtil Text Errors MmsValue MmsCodec.
From S2P Require Import ObjRef Quality Nodes Access Tx Handler Selections InfoReport Rcb ReportPdu Reporting ReportBuffer.
Local Open Scope list_scope.
Local Open Scope Z_scope.

(** The subscription and the reservation. *)
Definition holder (st : RcbRuntime)
    : bool * option ConnId * option ConnId * option IpAddr * option IpAddr * bool :=
  (rt_enabled st, rt_conn st, rt_owner st, rt_owner_ip st, rt_resv_ip st, rt_resv_cfg st).

(** The subscriber holds the block. *)
Definition held_by_subscriber (st : RcbRuntime) : Prop :=
  ∀ c, rt_conn st = Some c → rt_owner st = Some c ∧ rt_enabled st = true.

Section holder.
Context (display : Value → list Z) (rs : RcbState) (entry_seed : Z) (owned running : bool).

Ltac by_fields := intros; match goal with st : RcbRuntime |- _ => destruct st; done end.

Lemma holder_set_buffer st b n o : holder (set_buffer st b n o) = holder st.
Proof. by_fields. Qed.
Lemma holder_set_sq st n : holder (set_rt_sq_num st n) = holder st.
Proof. by_fields. Qed.
Lemma holder_set_pending st p tm g : holder (set_pending st p tm g) = holder st.
Proof. by_fields. Qed.
Lemma holder_set_integrity st tm g : holder (set_integrity st tm g) = holder st.
Proof. by_fields. Qed.
Lemma holder_set_resync st id : holder (set_resync st id) = holder st.
Proof. by_fields. Qed.
Lemma holder_stop_resv st : holder (stop_resv_timer st) = holder st.
Proof. by_fields. Qed.

Hint Rewrite holder_set_buffer holder_set_sq holder_set_pending holder_set_integrity holder_set_resync
  holder_stop_resv : holder.

Lemma set_sq_num_holder w n : holder (w_st (set_sq_num rs w n)) = holder (w_st w).
Proof. unfold set_sq_num. destruct (rs_buffered rs); simpl; by autorewrite with holder. Qed.

Lemma transmit_holder w e w' : transmit display rs w e = Ok w' → holder (w_st w') = holder (w_st w).
Proof.
  unfold transmit. destruct (c ← rt_conn (w_st w); _) as [[c max_pdu]|]; [|by intros [= <-]].
  intros (pdus & _ & H)%bind_Ok_inv. destruct (send_all _ _) as [[taken complete] sends]. apply Ok_inj in H. subst w'.
  destruct (negb complete && rs_buffered rs); simpl; autorewrite with holder; apply set_sq_num_holder.
Qed.

Lemma transmit_loop_holder fuel : ∀ w w', transmit_loop display rs fuel w = Ok w' → holder (w_st w') = holder (w_st w).
Proof.
  induction fuel as [|fuel IH]; intros w w'; [done|]. cbn [transmit_loop].
  destruct (_ !! _) as [e|]; [|by intros [= <-]]. intros (w1 & Ht & H)%bind_Ok_inv. apply IH in H. simpl in H.
  autorewrite with holder in H. rewrite H. by eapply transmit_holder.
Qed.

Lemma emit_holder w e w' : emit display rs entry_seed w e = Ok w' → holder (w_st w') = holder (w_st w).
Proof.
  unfold emit. cbn [now]. destruct (negb (rs_buffered rs)).
  - destruct (rt_enabled _); [|by intros [= <-]]. intros H. by apply transmit_holder in H.
  - set (w1 := commit _ _ _). assert (holder (w_st w1) = holder (w_st w)) as <-.
    { unfold w1, commit. simpl. destruct (evict _ _ _ _) as [[b n] o]. simpl. by autorewrite with holder. }
    destruct (rt_enabled (w_st w1)); [|by intros [= <-]]. apply transmit_loop_holder.
Qed.

Lemma flush_pending_holder w w' :
  flush_pending display rs entry_seed w = Ok w' → holder (w_st w') = holder (w_st w).
Proof.
  unfold flush_pending. destruct (rt_pending (w_st w)) as [p|]; [|by intros [= <-]].
  case_decide as Hm; intros H; [apply Ok_inj in H; subst|apply emit_holder in H; rewrite H]; simpl; by autorewrite with holder.
Qed.

Lemma event_holder w e w' :
  event display rs entry_seed owned running w e = Ok w' → holder (w_st w') = holder (w_st w).
Proof.
  unfold event. case_decide as Ht; [apply emit_holder|]. intros (w1 & H1 & H)%bind_Ok_inv.
  assert (holder (w_st w1) = holder (w_st w)) as <-.
  { destruct (match rt_pending _ with Some p => _ | None => _ end); [by apply flush_pending_holder|].
    by apply Ok_inj in H1; subst. }
  destruct (rt_pending (w_st w1)) as [p|].
  - apply Ok_inj in H. subst. simpl. by autorewrite with holder.
  - destruct (owned && running); [|by apply emit_holder in H]. apply Ok_inj in H. subst. simpl. by autorewrite with holder.
Qed.

Lemma report_all_holder w reason w' :
  report_all display rs entry_seed w reason = Ok w' → holder (w_st w') = holder (w_st w).
Proof.
  unfold report_all. intros (w1 & H1 & H)%bind_Ok_inv. apply flush_pending_holder in H1. rewrite <-H1.
  cbn [now] in H. case_decide; [by apply Ok_inj in H; subst|by apply emit_holder in H].
Qed.

Lemma on_update_holder w changes w' :
  on_update display rs entry_seed owned running w changes = Ok w' → holder (w_st w') = holder (w_st w).
Proof.
  unfold on_update. case_decide as Hc; [by intros [= <-]|]. destruct (_ && _); [by intros [= <-]|].
  destruct (data_set_members _ _ _) as [members|]; [|by intros [= <-]]. cbn [now]. intros H.
  case_decide; [by apply Ok_inj in H; subst|by apply event_holder in H].
Qed.

Lemma held_holder st st' : holder st' = holder st → held_by_subscriber st → held_by_subscriber st'.
Proof. intros [= He Hc Ho _ _ _]. unfold held_by_subscriber. by rewrite He, Hc, Ho. Qed.

Lemma sync_resv_st w : w_st (sync_resv rs w) = w_st w.
Proof. unfold sync_resv. by destruct (rs_buffered rs). Qed.

Lemma take_block_holder w c ip :
  let st := w_st (take_block rs w c ip) in
  rt_enabled st = rt_enabled (w_st w) ∧ rt_conn st = rt_conn (w_st w) ∧ rt_owner st = Some c.
Proof. unfold take_block. rewrite sync_resv_st. simpl. destruct (w_st w). simpl. by case_match. Qed.

Lemma release_holder w :
  let st := w_st (release rs owned running w) in
  rt_enabled st = rt_enabled (w_st w) ∧ rt_conn st = rt_conn (w_st w) ∧ rt_owner st = None.
Proof.
  unfold release. destruct (rt_resv_cfg _); rewrite sync_resv_st; [by simpl; destruct (w_st w)|]. simpl.
  destruct (rt_owner_ip _) as [ip|]; [|by destruct (w_st w)]. destruct (_ && _); by destruct (w_st w).
Qed.

Lemma enable_holder w c ip w' :
  enable display rs owned running w c ip = Ok w' →
  rt_enabled (w_st w') = true ∧ rt_conn (w_st w') = Some c ∧ rt_owner (w_st w') = Some c.
Proof.
  unfold enable. set (w1 := with_st w _). set (w2 := if decide _ then _ else _). cbn zeta.
  set (w3 := with_st _ (stop_integrity _)).
  assert (rt_enabled (w_st w3) = true ∧ rt_conn (w_st w3) = Some c ∧ rt_owner (w_st w3) = Some c) as Hw3.
  { assert (rt_enabled (w_st w2) = true ∧ rt_conn (w_st w2) = Some c ∧ rt_owner (w_st w2) = Some c) as H2.
    { assert (rt_enabled (w_st w1) = true ∧ rt_conn (w_st w1) = Some c) as [He1 Hc1] by (unfold w1; simpl; by destruct (w_st w)).
      unfold w2. destruct (decide (rt_owner (w_st w1) ≠ Some c)) as [Ho|Ho%dec_stable]; [|done].
      destruct (take_block_holder w1 c ip) as (-> & -> & ->). done. }
    pose proof (set_sq_num_holder w2 0) as Hsq. unfold w3. simpl. revert H2 Hsq. generalize (w_st (set_sq_num rs w2 0)), (w_st w2).
    intros st st' (He & Hc & Ho) [= H1 H2 H3 _ _ _]. destruct st. simpl in *. split_and!; congruence. }
  clearbody w3. intros (w4 & H4 & H)%bind_Ok_inv. apply Ok_inj in H.
  assert (holder (w_st w4) = holder (w_st w3)) as Hh.
  { destruct (rs_buffered rs); [|by apply Ok_inj in H4; subst]. apply transmit_loop_holder in H4. rewrite H4. simpl.
    unfold resync. destruct (w_st w3). simpl. repeat case_match; done. }
  assert (holder (w_st w') = holder (w_st w3)) as [= -> -> -> _ _ _]; [|done].
  subst w'. destruct (_ && _); [|done]. simpl. rewrite <-Hh. by destruct (w_st w4).
Qed.

Lemma disable_holder w w' :
  disable display rs entry_seed owned running w = Ok w' →
  rt_conn (w_st w') = None ∧ (rt_owner (w_st w') = None ∨ rt_owner (w_st w') = rt_owner (w_st w)).
Proof.
  unfold disable. intros (w1 & H1 & H)%bind_Ok_inv. apply Ok_inj in H. apply flush_pending_holder in H1 as [= _ _ Ho _ _ _].
  destruct (rs_buffered rs); subst w'.
  - match goal with |- context [release _ _ _ ?x] => destruct (release_holder x) as (_ & -> & ->) end.
    simpl. destruct (w_st w1). simpl. split; [done|]. by left.
  - simpl. destruct (w_st w1). simpl in *. split; [done|]. by right.
Qed.

Lemma check_passes w attr v c ip :
  check_rcb_write display rs w attr v c ip = None →
  allowed (w_st w) c ip = true ∧
  (attr = txt "Resv" → as_bool v = false → rt_enabled (w_st w) = false).
Proof.
  unfold check_rcb_write. destruct (allowed (w_st w) c ip); [|done]. cbn [negb]. intros H. split; [done|].
  intros -> Hv. revert H. rewrite Hv. cbn. by destruct (rt_resv_cfg _), (rt_enabled _).
Qed.

Lemma on_rcb_write_held w attr v c ip w' :
  held_by_subscriber (w_st w) → rt_owner (w_st w) = None ∨ rt_owner (w_st w) = Some c →
  (attr = txt "Resv" → as_bool v = false → rt_enabled (w_st w) = false) →
  on_rcb_write display rs entry_seed owned running w attr v c ip = Ok w' → held_by_subscriber (w_st w').
Proof.
  intros Hh Ho Hresv. unfold on_rcb_write.
  assert (∀ w1, rt_enabled (w_st w1) = rt_enabled (w_st w) → rt_conn (w_st w1) = rt_conn (w_st w) →
    rt_owner (w_st w1) = Some c → held_by_subscriber (w_st w1)) as Htake.
  { intros w1 He Hc Ho1 c' Hc'. rewrite Hc in Hc'. destruct (Hh c' Hc') as [Hoc Hen]. rewrite Ho1, He. split; [|done].
    destruct Ho; congruence. }
  case_decide as Hr.
  { intros H. apply Ok_inj in H. subst w'. destruct (as_bool v) eqn:Hv.
    - destruct (take_block_holder w c ip) as (? & ? & ?). by apply Htake.
    - destruct (release_holder w) as (He & Hc & _). intros c' Hc'. rewrite Hc in Hc'.
      destruct (Hh c' Hc') as [_ Hen]. by rewrite Hresv in Hen. }
  set (w1 := if decide (rt_owner (w_st w) = None) then _ else _).
  assert (held_by_subscriber (w_st w1)) as H1.
  { unfold w1. case_decide; [|done]. destruct (take_block_holder w c ip) as (? & ? & ?). by apply Htake. }
  clearbody w1. intros H. destruct (_ && _).
  { apply Ok_inj in H. subst w'. eapply held_holder; [|done]. apply holder_stop_resv. }
  case_decide as Ha1.
  { destruct (as_bool v).
    - apply enable_holder in H as (He & Hc & Hoc). intros c' Hc'. split; congruence.
    - apply disable_holder in H as [Hc _]. intros c' Hc'. congruence. }
  case_decide as Ha2.
  { apply bind_Ok_inv in H as (w2 & H2 & H). apply Ok_inj in H. subst w'. simpl.
    destruct (_ && _); [|by apply Ok_inj in H2; subst]. apply report_all_holder in H2. by eapply held_holder. }
  assert (holder (w_st w') = holder (w_st w1)) as Hw'; [|by eapply held_holder].
  repeat case_decide; apply Ok_inj in H; subst w'; [destruct (as_bool v)|..]; simpl; by destruct (w_st w1).
Qed.

Context (writable : gset Fc) (editing : list Z → bool)
  (hook : option (DataAttribute → Value → option DataAccessError)).
Let apply_op := apply_op display rs entry_seed owned running writable editing hook.
Let rcb_write := rcb_write display rs entry_seed owned running writable editing hook.

Lemma allowed_owner st c ip : allowed st c ip = true → rt_owner st = None ∨ rt_owner st = Some c.
Proof. unfold allowed. destruct (rt_owner st) as [o|]; [|by left]. intros <-%bool_decide_eq_true. by right. Qed.

Lemma rcb_write_held w attr v c ip w' r :
  held_by_subscriber (w_st w) → rcb_write w attr v c ip = Ok (w', r) → held_by_subscriber (w_st w').
Proof.
  intros Hh. unfold rcb_write, Reporting.rcb_write. destruct (check_rcb_write _ _ _ _ _ _ _) as [err|] eqn:Hc; [by intros [= <- _]|].
  destruct (store _ _ _ _ _ _ _ _ _) as [[m cs]|err]; [|by intros [= <- _]].
  intros (w1 & H1 & H)%bind_Ok_inv. injection H as -> _. apply check_passes in Hc as [Ha Hr].
  apply allowed_owner in Ha. by eapply on_rcb_write_held in H1.
Qed.

(** A write that another client's reservation excludes is refused. *)
Lemma excluded_write w attr v c ip :
  allowed (w_st w) c ip = false → rcb_write w attr v c ip = Ok (w, Some TemporarilyUnavailable).
Proof. intros Ha. unfold rcb_write, Reporting.rcb_write, check_rcb_write. by rewrite Ha. Qed.

Lemma disable_conn_held w c w' :
  held_by_subscriber (w_st w) → disable_conn display rs entry_seed owned running w c = Ok w' →
  held_by_subscriber (w_st w') ∧ (rt_owner (w_st w) ≠ Some c → rt_owner (w_st w') = rt_owner (w_st w)).
Proof.
  intros Hh (w1 & H1 & H)%bind_Ok_inv. apply Ok_inj in H.
  assert (held_by_subscriber (w_st w1) ∧ (rt_owner (w_st w) ≠ Some c → rt_owner (w_st w1) = rt_owner (w_st w)) ∧
    rt_conn (w_st w1) ≠ Some c) as (Hh1 & Ho1 & Hc1).
  { clear H. destruct (decide (rt_conn (w_st w) = Some c)) as [Hc|Hc]; [|by apply Ok_inj in H1; subst].
    destruct (Hh c Hc) as [Ho _]. apply disable_holder in H1 as [Hcn _].
    split; [intros c'; congruence|]. split; [done|congruence]. }
  clear H1. destruct (decide (rt_owner (w_st w1) = Some c)) as [Ho|Ho]; subst w'; [|by split].
  destruct (release_holder w1) as (He & Hc & Hn). split.
  - intros c' Hc'. rewrite Hc in Hc'. destruct (Hh1 c' Hc') as [Ho' _]. congruence.
  - intros Hne. destruct (decide (rt_owner (w_st w) = Some c)); [done|]. by rewrite Ho1 in Ho.
Qed.

Lemma op_held w op w' :
  held_by_subscriber (w_st w) → apply_op w op = Ok w' →
  held_by_subscriber (w_st w') ∧
  ∀ c, rt_owner (w_st w) = Some c →
    rt_owner (w_st w') = Some c ∨ op = Disconnect c ∨ ∃ attr v ip, op = Write attr v c ip.
Proof.
  intros Hh. assert (holder (w_st w') = holder (w_st w) → held_by_subscriber (w_st w') ∧
    ∀ c, rt_owner (w_st w) = Some c → rt_owner (w_st w') = Some c ∨ op = Disconnect c ∨ ∃ attr v ip, op = Write attr v c ip) as Hsame.
  { intros He. split; [by eapply held_holder|]. injection He as _ _ -> _ _ _. by left. }
  destruct op as [c mp|attr v c ip|changes|g|g|g|c| |m d clk snd]; cbn [apply_op Reporting.apply_op].
  - intros H. apply Ok_inj in H. subst. by apply Hsame.
  - intros ([w1 r] & H1 & H)%bind_Ok_inv. apply Ok_inj in H. subst w1. split; [by eapply rcb_write_held|].
    intros c' Ho. destruct (decide (c' = c)) as [->|Hne]; [by eauto 10|]. left.
    pose proof (excluded_write w attr v c ip) as Hx. unfold rcb_write in Hx. rewrite Hx in H1; [by injection H1 as -> _|].
    unfold allowed. rewrite Ho. by apply bool_decide_eq_false_2.
  - intros H. apply Hsame. by eapply on_update_holder.
  - intros H. apply Hsame. unfold window_fires in H. case_decide; [|by apply Ok_inj in H; subst].
    apply flush_pending_holder in H. rewrite H. apply holder_set_pending.
  - intros H. apply Hsame. unfold integrity_fires in H. case_decide; [by apply Ok_inj in H; subst|].
    by eapply report_all_holder.
  - intros H. apply Ok_inj in H. subst w'. unfold resv_fires. clear Hsame. case_decide as Hg; [|split; [done|by left]].
    rewrite sync_resv_st. destruct Hg as [_ Hn]. split; [|intros c; congruence].
    intros c Hc. simpl in *. exfalso. assert (rt_conn (w_st w) = Some c) as Hc' by (by destruct (w_st w)).
    destruct (Hh c Hc'). congruence.
  - intros H. destruct (disable_conn_held (with_conns w (delete c (w_conns w))) _ _ Hh H) as [Hh' Ho]. split; [done|]. intros c' Hc'.
    destruct (decide (c' = c)) as [->|Hne]; [by right; left|]. left. simpl in Ho. rewrite Ho; congruence.
  - intros H. apply Ok_inj in H. subst w'. unfold shutdown. simpl. split; [|intros c Hc; left].
    + intros c. by destruct (w_st w).
    + by destruct (w_st w).
  - intros H. apply Ok_inj in H. subst. by apply Hsame.
Qed.
End holder.

Section reserved.
Context (display : Value → list Z) (rs : RcbState) (entry_seed : Z) (owned running : bool) (writable : gset Fc)
  (editing : list Z → bool) (hook : option (DataAttribute → Value → option DataAccessError)).

Lemma reachable_held w :
  reachable display rs entry_seed owned running writable editing hook w → held_by_subscriber (w_st w).
Proof.
  intros (w0 & (m & ri & rc & clock & sends & ->) & Hr). set (w0 := mkW _ _ _ _ _ _ _) in Hr.
  assert (held_by_subscriber (w_st w0)) as H0 by done. clearbody w0.
  induction Hr as [|w0 w1 w (op & _ & H) _ IH]; [done|]. apply IH. by eapply op_held in H as [? _].
Qed.
End reserved.

(** C17: A reservation is exclusive. In every state of a block that a client
    holds, a write of another client is refused as temporarily unavailable and
    changes nothing; and whatever happens next, the client still holds the block
    unless it wrote to the block itself or its association ended. *)
Theorem reservation_exclusive display rs entry_seed owned running writable editing hook (w : World) (c : ConnId) :
  reachable display rs entry_seed owned running writable editing hook w →
  rt_owner (w_st w) = Some c →
  (∀ c' attr v ip, c' ≠ c →
     rcb_write display rs entry_seed owned running writable editing hook w attr v c' ip =
     Ok (w, Some TemporarilyUnavailable)) ∧
  (∀ op w', apply_op display rs entry_seed owned running writable editing hook w op = Ok w' →
     rt_owner (w_st w') = Some c ∨ op = Disconnect c ∨ ∃ attr v ip, op = Write attr v c ip).
Proof.
  intros Hr Ho. split.
  - intros c' attr v ip Hne. apply excluded_write. unfold allowed. rewrite Ho. by apply bool_decide_eq_false_2.
  - intros op w' H. apply reachable_held in Hr. by eapply op_held in H as [_ H]; [apply H|].
Qed.

Lemma reservation_exclusive_witness :
  ∃ w, run_ops (take 3 sample_run) = Ok w ∧ rt_owner (w_st w) = Some 1 ∧
    rcb_write (λ _, []) sample_rcb 1 true true ∅ (λ _, false) None w (txt "RptEna") (VBoolean false) 2 None =
    Ok (w, Some TemporarilyUnavailable).
Proof.
  destruct (run_ops (take 3 sample_run)) as [w|?| |] eqn:E; [|vm_compute in E; discriminate E..].
  assert (rt_owner (w_st w) = Some 1) as Ho.
  { pose proof (f_equal (λ r, match r with Ok w => rt_owner (w_st w) | _ => None end) E) as Hw. cbv beta iota in Hw.
    rewrite <-Hw. vm_compute. reflexivity. }
  exists w. split; [reflexivity|]. split; [exact Ho|].
  destruct (reservation_exclusive (λ _, []) sample_rcb 1 true true ∅ (λ _, false) None w 1
    (run_ops_reachable _ _ E) Ho) as [Hx _].
  apply Hx. discriminate.
Defined.

(** ** Every operation ends *)

Definition ends {E A} (m : outcome E A) : Prop := m ≠ NoFuel.

Lemma ends_bind {E A B} (m : outcome E A) (f : A → outcome E B) :
  ends m → (∀ a, m = Ok a → ends (f a)) → ends (m ≫= f).
Proof. destruct m; intros Hm Hf; [by apply Hf|done|done|done]. Qed.

Lemma filter_map_ends {E A B} (f : A → outcome E (option B)) l :
  Forall (λ a, ends (f a)) l → ends (filter_map_outcome f l).
Proof.
  induction 1 as [|a l Ha _ IH]; [done|]. rewrite filter_map_cons.
  apply ends_bind; [done|]. intros b _. apply ends_bind; [done|]. by intros bs _.
Qed.

Lemma data_element_ends {E} v : ends (data_element (E:=E) v).
Proof.
  induction v as [cs Hv|cs Hv|v Hv] using Value_ind'.
  1,2: cbn [data_element]; apply ends_bind; [by apply filter_map_ends|by intros es _].
  destruct v; try done. cbn [data_element]. apply ends_bind; [|by intros e _].
  unfold bit_string_elem, append_bit_string. unfold usub. by repeat case_match.
Qed.

Lemma report_element_ends f e members from to segment : ends (report_element f e members from to segment).
Proof.
  apply ends_bind.
  - unfold report_values, sub_slice. repeat (apply ends_bind; [by repeat case_match|intros ? _]). done.
  - intros vs _. apply ends_bind; [|by intros els _]. apply filter_map_ends, Forall_forall. intros v _. apply data_element_ends.
Qed.

Lemma grow_ends build fits n from sub_seq : (∀ i j s, ends (build i j s)) → ∀ fuel to,
  (n - to < fuel)%nat → ends (grow build fits n fuel from to sub_seq).
Proof.
  intros Hb. induction fuel as [|fuel IH]; intros to Hf; [lia|]. cbn [grow]. case_decide; [|done].
  apply ends_bind; [done|]. intros el _. destruct (fits el); [apply IH; lia|done].
Qed.

Lemma grow_from build fits n from sub_seq : ∀ fuel to to',
  grow build fits n fuel from to sub_seq = Ok to' → (to ≤ to')%nat.
Proof.
  induction fuel as [|fuel IH]; intros to to'; [done|]. cbn [grow]. case_decide; [|intros [= <-]; lia].
  intros (el & _ & H')%bind_Ok_inv. destruct (fits el); [apply IH in H'; lia|]. apply Ok_inj in H'. lia.
Qed.

Lemma segment_loop_ends build fits n : (∀ i j s, ends (build i j s)) → ∀ fuel from sub_seq,
  (n - from < fuel)%nat → ends (segment_loop build fits n fuel from sub_seq).
Proof.
  intros Hb. induction fuel as [|fuel IH]; intros from sub_seq Hf; [lia|]. cbn [segment_loop]. case_decide; [|done].
  apply ends_bind; [by apply grow_ends; [|lia]|]. intros to Hto. apply grow_from in Hto.
  apply ends_bind; [done|]. intros el _. apply ends_bind; [|by intros els _]. apply IH. lia.
Qed.

Lemma report_pdus_ends display m rs e seq o max_pdu : ends (report_pdus display m rs e seq o max_pdu).
Proof.
  apply ends_bind; [apply report_element_ends|]. intros whole _. destruct (fits max_pdu whole); [done|].
  apply segment_loop_ends; [intros; apply report_element_ends|lia].
Qed.

Section ends.
Context (display : Value → list Z) (rs : RcbState) (entry_seed : Z) (owned running : bool).

Lemma transmit_ends w e : ends (transmit display rs w e).
Proof.
  unfold transmit. destruct (c ← rt_conn (w_st w); _) as [[c max_pdu]|]; [|done].
  apply ends_bind; [apply report_pdus_ends|]. intros pdus _. by destruct (send_all _ _) as [[taken complete] sends].
Qed.

Lemma transmit_buffer w e w' :
  transmit display rs w e = Ok w' → rt_buffer (w_st w') = rt_buffer (w_st w) ∧ rt_next (w_st w') = rt_next (w_st w).
Proof.
  unfold transmit. destruct (c ← rt_conn (w_st w); _) as [[c max_pdu]|]; [|by intros [= <-]].
  intros (pdus & _ & H)%bind_Ok_inv. destruct (send_all _ _) as [[taken complete] sends]. apply Ok_inj in H. subst w'.
  unfold set_sq_num. destruct (rs_buffered rs), complete, w as [m [] cnt clk snd cs lg]; done.
Qed.

Lemma transmit_loop_ends fuel : ∀ w,
  (length (rt_buffer (w_st w)) - rt_next (w_st w) < fuel)%nat → ends (transmit_loop display rs fuel w).
Proof.
  induction fuel as [|fuel IH]; intros w Hf; [lia|]. cbn [transmit_loop]. destruct (_ !! _) as [e|] eqn:He; [|done].
  apply lookup_lt_Some in He. apply ends_bind; [apply transmit_ends|]. intros w1 H1. apply transmit_buffer in H1 as [Hb Hn].
  apply IH. destruct (w_st w1). simpl in *. subst. lia.
Qed.

Lemma emit_ends w e : ends (emit display rs entry_seed w e).
Proof.
  unfold emit. cbn [now]. destruct (negb _); destruct (rt_enabled _); try done; [apply transmit_ends|].
  apply transmit_loop_ends. lia.
Qed.

Lemma flush_pending_ends w : ends (flush_pending display rs entry_seed w).
Proof. unfold flush_pending. destruct (rt_pending _); [|done]. case_decide; [done|apply emit_ends]. Qed.

Lemma event_ends w e : ends (event display rs entry_seed owned running w e).
Proof.
  unfold event. case_decide; [apply emit_ends|]. apply ends_bind; [by case_match; [apply flush_pending_ends|]|].
  intros w1 _. destruct (rt_pending _); [done|]. destruct (_ && _); [done|apply emit_ends].
Qed.

Lemma report_all_ends w reason : ends (report_all display rs entry_seed w reason).
Proof.
  apply ends_bind; [apply flush_pending_ends|]. intros w1 _. cbn [now]. case_decide; [done|apply emit_ends].
Qed.

Lemma disable_ends w : ends (disable display rs entry_seed owned running w).
Proof. apply ends_bind; [apply flush_pending_ends|done]. Qed.

Lemma on_rcb_write_ends w attr v c ip : ends (on_rcb_write display rs entry_seed owned running w attr v c ip).
Proof.
  unfold on_rcb_write. case_decide; [done|]. destruct (_ && _); [done|]. case_decide.
  { destruct (as_bool v); [|apply disable_ends]. apply ends_bind; [|done]. destruct (rs_buffered rs); [|done].
    apply transmit_loop_ends. lia. }
  repeat (case_decide; [|]); try done; (apply ends_bind; [|done]); (destruct (_ && _); [apply report_all_ends|done]).
Qed.
End ends.

(** Every operation of the report engine ends: the loops that evict, send,
    grow a segment and cut a report into segments all run to their end, in any
    state and for any input. *)
Theorem engine_terminates display rs entry_seed owned running writable editing hook (w : World) (op : Op) :
  apply_op display rs entry_seed owned running writable editing hook w op ≠ NoFuel.
Proof.
  destruct op as [c mp|attr v c ip|changes|g|g|g|c| |m d clk snd]; cbn [apply_op]; try done.
  - apply ends_bind; [|by intros [w1 r] _]. unfold rcb_write. destruct (check_rcb_write _ _ _ _ _ _ _); [done|].
    destruct (store _ _ _ _ _ _ _ _ _) as [[m cs]|]; [|done]. apply ends_bind; [apply on_rcb_write_ends|done].
  - unfold on_update. case_decide; [done|]. destruct (_ && _); [done|].
    destruct (data_set_members _ _ _); [|done]. cbn [now]. case_decide; [done|apply event_ends].
  - unfold window_fires. case_decide; [apply flush_pending_ends|done].
  - unfold integrity_fires. case_decide; [done|apply report_all_ends].
  - apply ends_bind; [|done]. case_decide; [apply disable_ends|done].
Qed.
