(* ===== verification/ClientReport.v ===== *)
(** Reports at the client (src/src/client/report.rs): the decoding of an
    information report by the optional fields it names, and, with the server's
    half, that a client reads from the PDUs of a report what the server put in
    the entry. *)

From stdpp Require Import sorting.
From S2P Require Import Prelude Ber BerDecoder BerPrim TimeUtil Utf8 Text Errors MmsValue MmsCodec.
From S2P Require Import ObjRef Quality Nodes Access Tx Handler Selections InfoReport Rcb ReportPdu Reporting.
Local Open Scope list_scope.
Local Open Scope Z_scope.

(** ** Reports *)

Record MemberReport := mkMemberReport {
  mr_index : nat;
  mr_reference : ObjectReference;
  mr_fc : Fc;
  mr_reason : Z;
  mr_value : Value;
}.

Record Report := mkReport {
  rep_rpt_id : list Z;
  rep_seq_num : Z;
  rep_data_set : list Z;
  rep_conf_rev : Z;
  rep_entry_id : list Z;
  rep_buf_ovfl : bool;
  rep_sub_seq_num : Z;
  rep_more_follows : bool;
  rep_time_of_entry : option Z;
  rep_entries : list MemberReport;
}.

(** ** Decoding *)

(** A field the flags select, or its default. *)
Definition field {A} (selected : bool) (f : Value → A) (absent : A) (v : list Value) : option (A * list Value) :=
  if selected then match v with x :: v => Some (f x, v) | [] => None end else Some (absent, v).

(** The next [n] values, where there are any left. *)
Fixpoint next_n (n : nat) (v : list Value) : list (option Value) * list Value :=
  match n with
  | O => ([], v)
  | S n => let '(out, v') := next_n n (tl v) in (head v :: out, v')
  end.

Section decode.
Context (display : Value → list Z).

(** The label of an entry: its data set member, or the reference sent with it. *)
Definition label (members : list VarRef) (data_ref : option (list Z)) (idx : nat) : ObjectReference * Fc :=
  match members !! idx, data_ref with
  | Some m, _ => from_mms (vr_domain m) (vr_item m)
  | None, Some r =>
      match split_once SLASH r with
      | Some (domain, item) => from_mms domain item
      | None => ([], FcNone)
      end
  | None, None => ([], FcNone)
  end.

(** The fields after ConfRev. *)
Definition decode_rest (members : list VarRef) (o : Z) (rpt_id : list Z) (seq_num : Z) (time : option Z)
    (data_set : list Z) (ovfl : bool) (entry_id : list Z) (conf_rev : Z) (v : list Value) : option Report :=
  '(sub_seq, v) ← field (has o (opt SEGMENTATION)) as_u32 0 v;
  '(more_, v) ← field (has o (opt SEGMENTATION)) as_bool false v;
  '(inclusion, v) ← field true id VNone v;
  let included := filter (λ b, bit_at inclusion (Z.of_nat b) = true) (seq 0 (Z.to_nat (bit_len inclusion))) in
  let n := length included in
  let '(refs, v) := if has o (opt DATA_REF) then next_n n v else ([], v) in
  let data_refs := map (λ r, match r with Some r => Value_text display r | None => [] end) refs in
  let '(values, v) := next_n n v in
  let '(reasons, _) := if has o (opt REASON_CODE) then next_n n v else ([], v) in
  let entries :=
    imap (λ k '(idx, value),
      let '(reference, fc) := label members (data_refs !! k) idx in
      mkMemberReport idx reference fc
        (match reasons !! k with Some (Some r) => ReasonCode_from_value r | _ => 0 end)
        (default VNone value)) (zip included values) in
  Some (mkReport rpt_id seq_num data_set conf_rev entry_id ovfl sub_seq more_ time entries).

Definition decode_report (ir : InformationReport) (members : list VarRef) : option Report :=
  let v := ir_values ir in
  if decide (length v < 3)%nat then None
  else
    '(rpt_id, v) ← field true (Value_text display) [] v;
    '(o, v) ← field true OptFlds_from_value 0 v;
    '(seq_num, v) ← field (has o (opt SEQ_NUM)) as_u32 0 v;
    '(time, v) ← field (has o (opt TIME_OF_ENTRY)) Value_time None v;
    '(data_set, v) ← field (has o (opt DATA_SET_NAME)) (Value_text display) [] v;
    '(ovfl, v) ← field (has o (opt BUF_OVFL)) as_bool false v;
    '(entry_id, v) ← field (has o (opt ENTRY_ID)) Value_bytes [] v;
    '(conf_rev, v) ← field (has o (opt CONF_REV)) as_u32 0 v;
    decode_rest members o rpt_id seq_num time data_set ovfl entry_id conf_rev v.
End decode.

(** ** Reading what the server built *)

#[local] Arguments opt _ : simpl never.
#[local] Arguments has _ _ : simpl never.

Lemma field_when {A} b (f : Value → A) d x v :
  field b f d (when b [x] ++ v) = Some (if b then f x else d, v).
Proof. by destruct b. Qed.

Lemma next_n_app vs : ∀ rest, next_n (length vs) (vs ++ rest) = (map Some vs, rest).
Proof. induction vs as [|v vs IH]; intros rest; [done|]. simpl. by rewrite IH. Qed.

Lemma filter_seq_sorted (P : nat → Prop) `{∀ x, Decision (P x)} n : ∀ a, StronglySorted lt (filter P (seq a n)).
Proof.
  induction n as [|n IH]; intros a; [constructor|]. cbn [seq]. rewrite filter_cons. case_decide; [|done].
  constructor; [done|]. apply Forall_forall. intros x [_ Hx]%list_elem_of_filter. apply elem_of_seq in Hx. lia.
Qed.

(** The included members are the bits of the inclusion, ascending. *)
Lemma sorted_filter (P : nat → Prop) `{∀ x, Decision (P x)} n ms :
  StronglySorted lt ms → Forall (λ m, m < n)%nat ms → (∀ j, (j < n)%nat → P j ↔ j ∈ ms) →
  filter P (seq 0 n) = ms.
Proof.
  intros Hs Hb HP. pose proof (filter_seq_sorted P n 0) as Hf. rewrite Forall_forall in Hb.
  apply (StronglySorted_unique_strong lt); [lia|done|done|]. apply NoDup_Permutation.
  - apply NoDup_filter, NoDup_seq.
  - by apply StronglySorted_NoDup.
  - intros j. rewrite list_elem_of_filter, elem_of_seq. split.
    + intros [Hj Hn]. apply HP; [lia|done].
    + intros Hj. specialize (Hb j Hj). split; [|lia]. by apply HP.
Qed.

Lemma sent_map_id l : Forall (λ v, sent v = v) l → map sent l = l.
Proof. induction 1 as [|v l Hv _ IH]; [done|]. simpl. by rewrite Hv, IH. Qed.

Lemma sent_to_bits mask width : 0 ≤ width → sent (to_bits mask width) = to_bits mask width.
Proof. intros Hw. by destruct (to_bits_spec mask width Hw) as (bs & -> & _). Qed.

Lemma sent_head f e o : map sent (report_head f e o) = report_head f e o.
Proof.
  apply sent_map_id, report_head_Forall; try reflexivity. by destruct (binary_time_form (e_time e)) as (b & -> & _).
Qed.

Lemma sent_body o members ms vs rs :
  map sent (report_body o members ms vs rs) = report_body o members ms (map sent vs) rs.
Proof.
  unfold report_body. rewrite !map_app. f_equal; [|f_equal; [|f_equal]].
  - unfold zlen. by destruct (inclusion_spec (length members) ms) as (bs & -> & _).
  - apply sent_map_id, Forall_when, Forall_omap. by intros x y (m & _ & [= <-])%bind_Some.
  - apply sent_map_id, Forall_map, Forall_forall. intros r _. by apply sent_to_bits.
Qed.

(** ** The report a client sees *)

Definition known (m : DsMember) : VarRef := mkVarRef (ds_domain m) (ds_item m).

(** The entry of a member with its value and reason. *)
Definition member_report (o : Z) (members : list DsMember) (x : nat * Value * Z) : MemberReport :=
  let '(idx, v, r) := x in
  let '(reference, fc) :=
    match members !! idx with Some m => from_mms (ds_domain m) (ds_item m) | None => ([], FcNone) end in
  mkMemberReport idx reference fc (if has o (opt REASON_CODE) then r else 0) v.

Definition expected (f : ReportFields) (e : ReportEntry) (o : Z) (members : list DsMember) (from to : nat)
    (segment : option (Z * bool)) : Report :=
  mkReport (f_rpt_id f)
    (if has o (opt SEQ_NUM) then if f_buffered f then u16 (f_seq f) else u8 (f_seq f) else 0)
    (if has o (opt DATA_SET_NAME) then f_dat_set f else [])
    (if has o (opt CONF_REV) then f_conf_rev f else 0)
    (if has o (opt ENTRY_ID) then e_id e else [])
    (if has o (opt BUF_OVFL) then f_buf_ovfl f else false)
    (match segment with Some (sub_seq, _) => sub_seq | None => 0 end)
    (match segment with Some (_, more) => more | None => false end)
    (if has o (opt TIME_OF_ENTRY) then Value_time (binary_time (e_time e)) else None)
    (map (member_report o members)
      (zip (zip (run from to (e_members e)) (map sent (run from to (e_values e)))) (run from to (e_reasons e)))).

Lemma run_length {A} from to (l : list A) : (from ≤ to ≤ length l)%nat → length (run from to l) = (to - from)%nat.
Proof. intros Hl. unfold run. rewrite length_take, length_drop. lia. Qed.

Lemma lookup_map {A B} (g : A → B) l i : map g l !! i = g <$> l !! i.
Proof. revert i. induction l as [|x l IH]; intros [|i]; try done. apply IH. Qed.

Lemma number_u16 n : as_u32 (VUnsigned (u16 n)) = u16 n.
Proof.
  unfold as_u32, as_u64, u32, u16, wrap. apply Z.mod_small. pose proof (Z.mod_pos_bound n (2 ^ 16) eq_refl). lia.
Qed.

Lemma number_u8 n : as_u32 (VUnsigned (u8 n)) = u8 n.
Proof.
  unfold as_u32, as_u64, u32, u8, wrap. apply Z.mod_small. pose proof (Z.mod_pos_bound n (2 ^ 8) eq_refl). lia.
Qed.

Lemma body_not_nil front o members ms vs rs : front ++ report_body o members ms vs rs ≠ [].
Proof. intros [_ H]%app_eq_nil. discriminate H. Qed.

(** The fields in front, whatever they are. *)
Lemma decode_front display o ov rid sq tm ds ov_ eid cr body :
  OptFlds_from_value ov = o → body ≠ [] →
  ∀ ir names,
  ir_values ir = [rid; ov] ++ when (has o (opt SEQ_NUM)) [sq] ++ when (has o (opt TIME_OF_ENTRY)) [tm] ++
    when (has o (opt DATA_SET_NAME)) [ds] ++ when (has o (opt BUF_OVFL)) [ov_] ++
    when (has o (opt ENTRY_ID)) [eid] ++ when (has o (opt CONF_REV)) [cr] ++ body →
  decode_report display ir names =
  decode_rest display names o (Value_text display rid)
    (if has o (opt SEQ_NUM) then as_u32 sq else 0)
    (if has o (opt TIME_OF_ENTRY) then Value_time tm else None)
    (if has o (opt DATA_SET_NAME) then Value_text display ds else [])
    (if has o (opt BUF_OVFL) then as_bool ov_ else false)
    (if has o (opt ENTRY_ID) then Value_bytes eid else [])
    (if has o (opt CONF_REV) then as_u32 cr else 0) body.
Proof.
  intros Ho Hb ir names Hir. unfold decode_report. rewrite Hir.
  rewrite decide_False by (destruct body; [done|]; rewrite !length_app; simpl; lia).
  cbn [app field mbind option_bind]. rewrite Ho. by do 6 (rewrite field_when; cbn [mbind option_bind]).
Qed.

Section roundtrip.
Context (display : Value → list Z) (f : ReportFields) (e : ReportEntry) (members : list DsMember).
Context (segment : option (Z * bool)) (from to : nat).
Local Notation o := (segment_opt f segment).
Local Notation ms := (run from to (e_members e)).
Local Notation vs := (map sent (run from to (e_values e))).
Local Notation rs := (run from to (e_reasons e)).

(** What the client relies on: the texts are texts, the numbers have their width,
    and the flags are those of the fields, without the segmentation one. *)
Record fields_ok : Prop := {
  fo_rpt_id : utf8 (f_rpt_id f) = true;
  fo_dat_set : utf8 (f_dat_set f) = true;
  fo_conf_rev : in_u 32 (f_conf_rev f);
  fo_opt : 0 ≤ f_opt f < 2 ^ 9;
  fo_sub_seq : match segment with Some (s, _) => in_u 16 s | None => True end;
}.

(** The client knows the members, or is sent their references. *)
Definition labelled (names : list VarRef) : Prop :=
  names = map known members ∨
  names = [] ∧ has o (opt DATA_REF) = true ∧
    Forall (λ m, SLASH ∉ ds_domain m ∧ utf8 (ds_domain m ++ SLASH :: ds_item m) = true) members.

Context (Hf : fields_ok).

Lemma opt_received : OptFlds_from_value (OptFlds_value o) = o.
Proof using Hf.
  apply OptFlds_roundtrip. pose proof (fo_opt Hf). unfold segment_opt. destruct segment as [[s m]|]; [|lia].
  change (opt SEGMENTATION) with (Z.shiftl 1 9). rewrite Z.lor_comm, lor_shiftl_add by lia. lia.
Qed.

Lemma segmentation_flag : has o (opt SEGMENTATION) = bool_decide (is_Some segment).
Proof using Hf.
  pose proof (fo_opt Hf). change (opt SEGMENTATION) with (Z.shiftl 1 9). rewrite has_testbit by lia.
  unfold segment_opt. destruct segment as [[s m]|].
  - rewrite Z.lor_spec. change (opt SEGMENTATION) with (Z.shiftl 1 9). rewrite orb_comm. done.
  - rewrite Z.bits_above_log2; [done|lia|]. destruct (decide (f_opt f = 0)) as [->|Hne]; [done|].
    apply Z.log2_lt_pow2; lia.
Qed.

Lemma decode_included ms_ :
  StronglySorted lt ms_ → Forall (λ m, m < length members)%nat ms_ →
  let inclusion := foldl (λ v idx, put_at v (Z.of_nat idx) true) (Value_bit_string (zlen members)) ms_ in
  filter (λ b, bit_at inclusion (Z.of_nat b) = true) (seq 0 (Z.to_nat (bit_len inclusion))) = ms_.
Proof.
  intros Hs Hb. cbn zeta. unfold zlen. destruct (inclusion_spec (length members) ms_) as (bs & -> & _ & Hl & Hbit).
  cbn [bit_len]. rewrite Hl, Nat2Z.id. apply sorted_filter; [done..|]. intros j Hj. rewrite Hbit by done.
  by rewrite bool_decide_eq_true.
Qed.

Definition ref_text (idx : nat) : list Z :=
  match members !! idx with Some m => ds_domain m ++ SLASH :: ds_item m | None => [] end.

Lemma refs_sent l :
  Forall (λ m, m < length members)%nat l → omap (data_ref members) l = map (VVisibleString ∘ ref_text) l.
Proof.
  induction 1 as [|m l Hm' _ IH]; [done|]. unfold omap in *. cbn [list_omap map]. rewrite IH.
  unfold data_ref, ref_text, compose. by apply lookup_lt_is_Some in Hm' as [x ->].
Qed.

(** Reading the references, values and reasons of the members. *)
Lemma decode_members names l lv lr :
  labelled names → Forall (λ m, m < length members)%nat l → length lv = length l → length lr = length l →
  Forall (λ r, 0 ≤ r < 2 ^ 7) lr →
  let '(refs, v) :=
    if has o (opt DATA_REF) then next_n (length l) (when (has o (opt DATA_REF)) (omap (data_ref members) l) ++ lv ++
      map ReasonCode_value (if has o (opt REASON_CODE) then lr else []))
    else ([], when (has o (opt DATA_REF)) (omap (data_ref members) l) ++ lv ++
      map ReasonCode_value (if has o (opt REASON_CODE) then lr else [])) in
  let data_refs := map (λ r, match r with Some r => Value_text display r | None => [] end) refs in
  let '(values, v) := next_n (length l) v in
  let '(reasons, _) := if has o (opt REASON_CODE) then next_n (length l) v else ([], v) in
  imap (λ k '(idx, value),
    let '(reference, fc) := label names (data_refs !! k) idx in
    mkMemberReport idx reference fc
      (match reasons !! k with Some (Some r) => ReasonCode_from_value r | _ => 0 end)
      (default VNone value)) (zip l values) =
  map (member_report o members) (zip (zip l lv) lr).
Proof.
  intros Hn Hl Hlv Hlr Hrange. rewrite refs_sent by done.
  set (refs := map (VVisibleString ∘ ref_text) l).
  assert (∀ rest, (if has o (opt DATA_REF) then next_n (length l) (when (has o (opt DATA_REF)) refs ++ rest)
    else ([], when (has o (opt DATA_REF)) refs ++ rest)) = (when (has o (opt DATA_REF)) (map Some refs), rest)) as Href.
  { intros rest. destruct (has o (opt DATA_REF)); [|done]. cbn [when].
    replace (length l) with (length refs) by apply length_map. apply next_n_app. }
  rewrite Href. cbn zeta. rewrite <-Hlv, next_n_app.
  assert ((if has o (opt REASON_CODE) then next_n (length lv) (map ReasonCode_value (if has o (opt REASON_CODE) then lr else []))
    else ([], map ReasonCode_value (if has o (opt REASON_CODE) then lr else []))) =
    (if has o (opt REASON_CODE) then map Some (map ReasonCode_value lr) else [], [])) as ->.
  { destruct (has o (opt REASON_CODE)); [|done]. rewrite Hlv, <-Hlr, <-(length_map ReasonCode_value lr).
    rewrite <-(app_nil_r (map ReasonCode_value lr)) at 2. by rewrite next_n_app. }
  apply list_eq. intros k. rewrite list_lookup_imap, (lookup_map (member_report o members)), !lookup_zip_with, (lookup_map Some lv).
  destruct (l !! k) as [idx|] eqn:Hk; [|done]. simpl.
  destruct (lookup_lt_is_Some_2 lv k) as [v Hv]; [apply lookup_lt_Some in Hk; lia|].
  destruct (lookup_lt_is_Some_2 lr k) as [r Hr']; [apply lookup_lt_Some in Hk; lia|]. rewrite Hv, Hr'. simpl. f_equal.
  destruct (lookup_lt_is_Some_2 members idx) as [m Hmem]; [by eapply Forall_lookup_1 in Hl|]. rewrite Hmem.
  assert (label names (map (λ r, match r with Some r => Value_text display r | None => [] end)
    (when (has o (opt DATA_REF)) (map Some refs)) !! k) idx = from_mms (ds_domain m) (ds_item m)) as ->.
  { unfold label. destruct Hn as [->|(-> & Hd & Hms)].
    - by rewrite lookup_map, Hmem.
    - rewrite lookup_nil, Hd. cbn [when]. unfold refs. rewrite !lookup_map, Hk. simpl. unfold ref_text. rewrite Hmem.
      eapply Forall_lookup_1 in Hms as [Hs Hu]; [|done]. simpl in *. rewrite from_utf8_lossy_valid by done.
      by rewrite split_once_app. }
  destruct (from_mms (ds_domain m) (ds_item m)) as [reference fc]. f_equal.
  destruct (has o (opt REASON_CODE)); [|done]. rewrite !lookup_map, Hr'. simpl. apply ReasonCode_roundtrip.
  by eapply Forall_lookup_1 in Hrange.
Qed.

Context (He : entry_ok e) (Hr : (from ≤ to ≤ length (e_members e))%nat).
Context (Hm : Forall (λ m, m < length members)%nat (e_members e)) (Hrs : Forall (λ r, 0 ≤ r < 2 ^ 7) (e_reasons e)).

Lemma ms_sorted : StronglySorted lt ms.
Proof using He.
  destruct He as (Hs & _). unfold run. rewrite <-(take_drop from (e_members e)) in Hs.
  apply StronglySorted_app_1_r in Hs. rewrite <-(take_drop (to - from) (drop from _)) in Hs.
  by apply StronglySorted_app_1_l in Hs.
Qed.


Lemma values_received :
  report_values f e members from to segment =
  Ok (report_head f e o ++
      match segment with Some (sub_seq, more) => [VUnsigned sub_seq; VBoolean more] | None => [] end ++
      report_body o members ms (run from to (e_values e)) (if has o (opt REASON_CODE) then rs else [])).
Proof using He Hr. by apply report_values_eq. Qed.

Lemma segment_number v :
  field (bool_decide (is_Some segment)) as_u32 0
    (match segment with Some (sub_seq, more) => [VUnsigned sub_seq; VBoolean more] | None => [] end ++ v) =
  Some (match segment with Some (sub_seq, _) => sub_seq | None => 0 end,
        match segment with Some (_, more) => [VBoolean more] | None => [] end ++ v).
Proof using Hf.
  clear Hr. pose proof (fo_sub_seq Hf) as Hs. destruct segment as [[s more]|]; [|done]. simpl. f_equal. f_equal.
  apply Z.mod_small. unfold in_u in Hs. lia.
Qed.

Lemma segment_more v :
  field (bool_decide (is_Some segment)) as_bool false
    (match segment with Some (_, more) => [VBoolean more] | None => [] end ++ v) =
  Some (match segment with Some (_, more) => more | None => false end, v).
Proof. clear Hf. destruct segment as [[s [|]]|]; reflexivity. Qed.

Lemma decode_rest_values names rpt_id seq_num time data_set ovfl entry_id conf_rev :
  labelled names →
  decode_rest display names o rpt_id seq_num time data_set ovfl entry_id conf_rev
    (match segment with Some (sub_seq, more) => [VUnsigned sub_seq; VBoolean more] | None => [] end ++
     report_body o members ms vs (if has o (opt REASON_CODE) then rs else [])) =
  Some (mkReport rpt_id seq_num data_set conf_rev entry_id ovfl
    (match segment with Some (sub_seq, _) => sub_seq | None => 0 end)
    (match segment with Some (_, more) => more | None => false end) time
    (map (member_report o members) (zip (zip ms vs) rs))).
Proof using Hf He Hr Hm Hrs.
  intros Hn. unfold decode_rest.
  rewrite segmentation_flag, segment_number. cbn [mbind option_bind]. rewrite segment_more. cbn [mbind option_bind].
  unfold report_body. cbn [app mbind option_bind field id].
  assert (Forall (λ m, m < length members)%nat ms) as Hms by (by apply Forall_run).
  rewrite decode_included by (apply ms_sorted || done).
  destruct He as (_ & Hlv & Hlr).
  pose proof (decode_members names ms vs rs Hn Hms) as Hd.
  rewrite length_map, !run_length in Hd by lia. specialize (Hd eq_refl eq_refl (Forall_run _ _ _ _ Hrs)).
  rewrite run_length by lia. revert Hd.
  destruct (if has o (opt DATA_REF) then _ else _) as [refs v]. cbn zeta. destruct (next_n _ v) as [values v'].
  by destruct (if has o (opt REASON_CODE) then next_n _ v' else _) as [reasons v'']; intros ->.
Qed.

Lemma decode_values names ir :
  labelled names →
  ir_values ir = report_head f e o ++
    match segment with Some (sub_seq, more) => [VUnsigned sub_seq; VBoolean more] | None => [] end ++
    report_body o members ms vs (if has o (opt REASON_CODE) then rs else []) →
  decode_report display ir names = Some (expected f e o members from to segment).
Proof using Hf He Hr Hm Hrs.
  intros Hn Hir. unfold report_head in Hir. rewrite <-!app_assoc in Hir.
  rewrite (decode_front _ o _ _ _ _ _ _ _ _ _ opt_received (body_not_nil _ _ _ _ _ _) ir names Hir).
  rewrite decode_rest_values by done. unfold expected. f_equal. f_equal.
  - exact (from_utf8_lossy_valid _ (fo_rpt_id Hf)).
  - destruct (has o (opt SEQ_NUM)); [|done]. destruct (f_buffered f); [apply number_u16|apply number_u8].
  - destruct (has o (opt DATA_SET_NAME)); [|done]. exact (from_utf8_lossy_valid _ (fo_dat_set Hf)).
  - destruct (has o (opt CONF_REV)); [|done]. exact (Z.mod_small _ _ (fo_conf_rev Hf)).
  - destruct (has o (opt BUF_OVFL)); [|done]. by destruct (f_buf_ovfl f).
Qed.

(** What the encoding relies on. *)
Record entry_wire_ok : Prop := {
  ew_values : Forall value_wf (e_values e);
  ew_depth : Forall depth_ok (e_values e);
  ew_id : octets (e_id e);
  ew_members : Forall (λ m, octets (ds_domain m ++ SLASH :: ds_item m)) members;
}.

Context (Hw : entry_wire_ok).

Lemma values_Forall (P : Value → Prop) values :
  report_values f e members from to segment = Ok values →
  (∀ bs, bs_wf bs → P (VBitString bs)) → (∀ b, P (VBoolean b)) → (∀ n, in_u 32 n → P (VUnsigned n)) →
  (∀ s, octets s → P (VVisibleString s) ∧ P (VOctetString s)) →
  (∀ b, octets b → zlen b = 6 → P (VBinaryTime b)) → Forall P (e_values e) → Forall P values.
Proof using Hf He Hr Hw.
  rewrite values_received. intros H%Ok_inj Hbits Hbool Hnum Hstr Htime Hv. subst values.
  assert (∀ mask width, 0 ≤ width → P (to_bits mask width)) as Hto.
  { intros mask width Hwi. destruct (to_bits_spec mask width Hwi) as (bs & -> & Hbs & _). by apply Hbits. }
  assert (∀ n k, 0 ≤ k ≤ 32 → P (VUnsigned (wrap k n))) as Hwrap.
  { intros n k Hk. apply Hnum. unfold wrap, in_u. pose proof (Z.mod_pos_bound n (2 ^ k) ltac:(lia)).
    pose proof (Z.pow_le_mono_r 2 k 32). lia. }
  apply Forall_app_2; [|apply Forall_app_2].
  - apply report_head_Forall.
    + by apply Hstr, octets_utf8, (fo_rpt_id Hf).
    + exact (Hto o 10 ltac:(lia)).
    + destruct (f_buffered f); by apply Hwrap.
    + destruct (binary_time_form (e_time e)) as (b & -> & Hb & Hl). by apply Htime.
    + by apply Hstr, octets_utf8, (fo_dat_set Hf).
    + apply Hbool.
    + by apply Hstr, (ew_id Hw).
    + apply Hnum, (fo_conf_rev Hf).
  - pose proof (fo_sub_seq Hf) as Hs. destruct segment as [[s more]|]; [|done].
    constructor; [|by repeat constructor]. apply Hnum. unfold in_u in *. lia.
  - apply report_body_Forall; [done| |by apply Forall_run|intros r; by apply Hto].
    eapply Forall_impl; [apply (ew_members Hw)|]. intros m Hmo. by apply Hstr.
Qed.

Lemma values_wire values :
  report_values f e members from to segment = Ok values → Forall value_wf values ∧ Forall depth_ok values.
Proof using Hf He Hr Hw.
  intros H. split.
  - apply (values_Forall value_wf values H); [done|done| |done| |apply (ew_values Hw)].
    + intros n. simpl. unfold in_u. lia.
    + intros b Hb Hl. simpl. auto.
  - apply (values_Forall depth_ok values H); try (intros; unfold depth_ok; simpl; try split; lia). apply (ew_depth Hw).
Qed.

(** The report on the wire, and at the client. *)
Lemma report_element_read names el :
  labelled names → report_element f e members from to segment = Ok el → zlen (Element_encode el) < 2 ^ 32 →
  ∃ ir, handle_unconfirmed (Element_encode el) = Ok (Some ir) ∧
    decode_report display ir names = Some (expected f e o members from to segment).
Proof using Hf He Hr Hm Hrs Hw.
  intros Hn (values & Hval & H)%bind_Ok_inv Hlen. destruct (values_wire values Hval) as [Hwf Hd].
  destruct (access_results_at (E:=Empty_set) values Hwf Hd) as (es & Hes & _ & Ht & Hreads). rewrite Hes in H.
  apply Ok_inj in H. fold (info_report (cons_elem (context_constructed 1) [rpt_name]) es) in H. subst el.
  assert (report_ok (cons_elem (context_constructed 1) [rpt_name]) es) as Hok.
  { split; [|by split]. by apply element_tags_cons; [|repeat constructor]. }
  destruct (info_report_content _ _ Hok) as (_ & Har & _).
  assert (names_ : InfoReport.names rpt_name (mkVarRef [] (txt "RPT"))).
  { apply (object_name_names (mkVarRef [] (txt "RPT"))). by split. }
  exists (mkIR (txt "RPT") [] (map sent values) true (mkVarRef [] (txt "RPT")) []). split.
  - by apply (parse_named rpt_name (mkVarRef [] (txt "RPT"))); [|apply Hreads|].
  - apply decode_values; [done|]. simpl. rewrite values_received in Hval. apply Ok_inj in Hval. subst values.
    rewrite !map_app, sent_head, sent_body. f_equal. f_equal. by destruct segment as [[? ?]|].
Qed.
End roundtrip.

(** ** Whole reports *)

Lemma run_zip {A B} from to (l : list A) (k : list B) : run from to (zip l k) = zip (run from to l) (run from to k).
Proof. unfold run. by rewrite zip_with_drop, zip_with_take. Qed.

Lemma run_map {A B} (g : A → B) from to l : run from to (map g l) = map g (run from to l).
Proof. unfold run. by rewrite skipn_map, firstn_map. Qed.

Lemma run_drop {A} from to (l : list A) : (from ≤ to)%nat → run from to l ++ drop to l = drop from l.
Proof.
  intros Hle. unfold run. rewrite <-(take_drop (to - from) (drop from l)) at 2. f_equal. rewrite drop_drop. f_equal. lia.
Qed.

(** What every segment of a report says. *)
Definition report_header (r : Report) : list Z * Z * list Z * Z * list Z * bool * option Z :=
  (rep_rpt_id r, rep_seq_num r, rep_data_set r, rep_conf_rev r, rep_entry_id r, rep_buf_ovfl r, rep_time_of_entry r).

Section whole.
Context (display : Value → list Z) (f : ReportFields) (e : ReportEntry) (members : list DsMember) (names : list VarRef).
Local Notation n := (length (e_members e)).

(** The entries of the whole report. *)
Definition all_entries : list MemberReport :=
  map (member_report (f_opt f) members) (zip (zip (e_members e) (map sent (e_values e))) (e_reasons e)).

Lemma flag_kept segment fld : fld ≠ SEGMENTATION → has (segment_opt f segment) (opt fld) = has (f_opt f) (opt fld).
Proof.
  intros Hne. destruct segment as [[s m]|]; [|done]. unfold segment_opt.
  destruct fld; try done; unfold opt; rewrite !has_testbit, Z.lor_spec by lia; apply orb_false_r.
Qed.

Lemma expected_entries from to segment :
  rep_entries (expected f e (segment_opt f segment) members from to segment) = run from to all_entries.
Proof.
  unfold all_entries. rewrite run_map, !run_zip, run_map. unfold expected. cbn [rep_entries].
  apply map_ext. intros [[idx v] r]. unfold member_report. by rewrite flag_kept.
Qed.

Lemma expected_header from to segment :
  report_header (expected f e (segment_opt f segment) members from to segment) =
  report_header (expected f e (f_opt f) members 0 n None).
Proof. unfold report_header, expected. simpl. by rewrite !flag_kept by done. Qed.

(** A report a client can read: the entry is in order and of this data set, its
    values have a wire form, the texts are texts, the flags those the server
    supports; and the client knows the members or is sent their references. *)
Record readable : Prop := {
  rd_entry : entry_ok e;
  rd_wire : entry_wire_ok e members;
  rd_members : Forall (λ m, m < length members)%nat (e_members e);
  rd_reasons : Forall (λ r, 0 ≤ r < 2 ^ 7) (e_reasons e);
  rd_rpt_id : utf8 (f_rpt_id f) = true;
  rd_dat_set : utf8 (f_dat_set f) = true;
  rd_conf_rev : in_u 32 (f_conf_rev f);
  rd_opt : 0 ≤ f_opt f < 2 ^ 9;
  rd_names : labelled f members None names;
}.

Context (Hread : readable).

Definition reads_as (el : Element) (rep : Report) : Prop :=
  ∃ ir, handle_unconfirmed (Element_encode el) = Ok (Some ir) ∧ decode_report display ir names = Some rep.

Lemma segment_read from to segment el :
  (from ≤ to ≤ n)%nat → match segment with Some (s, _) => in_u 16 s | None => True end →
  report_element f e members from to segment = Ok el → zlen (Element_encode el) < 2 ^ 32 →
  reads_as el (expected f e (segment_opt f segment) members from to segment).
Proof using Hread.
  intros Hr Hs Hel Hlen. destruct Hread. apply report_element_read; try done.
  unfold labelled in *. by rewrite (flag_kept segment).
Qed.

(** The segments in order: numbered, all but the last announcing another, and
    together all the entries from [from] on. *)
Lemma segments_read fits_ from sub_seq els :
  cuts (report_element f e members) fits_ n from sub_seq els →
  in_u 16 sub_seq → Forall (λ el, zlen (Element_encode el) < 2 ^ 32) els →
  ∃ reps, Forall2 reads_as els reps ∧
    concat (map rep_entries reps) = drop from all_entries ∧
    Forall (λ rep, report_header rep = report_header (expected f e (f_opt f) members 0 n None)) reps ∧
    (reps = [] ↔ from = n) ∧
    ∀ i rep, reps !! i = Some rep →
      rep_sub_seq_num rep = u16 (sub_seq + Z.of_nat i) ∧ rep_more_follows rep = bool_decide (S i < length reps)%nat.
Proof using Hread.
  induction 1 as [sub_seq|from to sub_seq el els Hft Hb _ _ _ IH]; intros Hs Hlen.
  { exists []. split; [constructor|]. split.
    { simpl. rewrite drop_ge; [done|]. unfold all_entries. rewrite length_map, !length_zip_with. lia. }
    by split; [constructor|]. }
  apply Forall_cons in Hlen as [Hl Hlen].
  destruct IH as (reps & Hreps & Hcat & Hhd & Hnil & Hnum); [apply Z.mod_pos_bound; lia|done|].
  set (rep := expected f e (segment_opt f (Some (sub_seq, bool_decide (to < n)%nat))) members from to
    (Some (sub_seq, bool_decide (to < n)%nat))).
  exists (rep :: reps). split; [constructor; [by apply segment_read; [lia|..]|done]|]. split.
  { cbn [map concat]. rewrite Hcat. unfold rep. rewrite expected_entries. apply run_drop. lia. }
  split; [constructor; [apply expected_header|done]|]. split; [split; [done|lia]|].
  intros [|i] r Hi; simpl in Hi.
  - injection Hi as <-. split; [rewrite Z.add_0_r; symmetry; by apply Z.mod_small|]. unfold rep, expected. cbn [rep_more_follows].
    apply bool_decide_ext. destruct reps; simpl; [|split; [lia|]].
    + assert (to = n) by (by apply Hnil). lia.
    + intros _. destruct (decide (to = n)) as [Heq|]; [by apply Hnil in Heq|lia].
  - destruct (Hnum i r Hi) as [-> ->]. split; [|apply bool_decide_ext; simpl; lia].
    unfold u16, wrap. rewrite Zplus_mod_idemp_l. f_equal. lia.
Qed.
End whole.

Lemma effective_range o buffered : 0 ≤ effective_opt_flds o buffered < 2 ^ 9.
Proof.
  assert (∀ a b, 0 ≤ b < 2 ^ 9 → 0 ≤ Z.land a b < 2 ^ 9) as H.
  { intros a b Hb. split; [apply Z.land_nonneg; lia|]. rewrite <-(Z.mod_small b (2 ^ 9)), <-Z.land_ones, Z.land_assoc by lia.
    rewrite Z.land_ones by lia. apply Z.mod_pos_bound. lia. }
  assert (0 ≤ SUPPORTED_OPT_FLDS < 2 ^ 9) as Hs by (vm_compute; split; [discriminate|reflexivity]).
  unfold effective_opt_flds. destruct buffered; [by apply H|]. rewrite Z.land_comm. by apply H, H.
Qed.

(** C13: A client reads what was reported. Whatever the size of a report and the
    association's maximum PDU size, the PDUs the server builds for an entry decode
    at the client to reports that together carry the entry: each member once, in
    order, under its reference, with its value and its reason; all with the
    entry's identification, sequence number, BufOvfl and time; numbered from
    zero, and all but the last announcing another segment. *)
Theorem report_received (display : Value → list Z) (m : Model) (rs : RcbState) (e : ReportEntry) (seq : Z)
    (buf_ovfl : bool) (max_pdu : Z) (names : list VarRef) :
  let f := report_fields display m rs seq buf_ovfl in
  let members := default [] (resolve_data_set m (attr_text display m rs "DatSet")) in
  readable f e members names →
  (∀ pdus, report_pdus display m rs e seq buf_ovfl max_pdu = Ok pdus →
     Forall (λ el, zlen (Element_encode el) < 2 ^ 32) pdus) →
  ∃ pdus reps, report_pdus display m rs e seq buf_ovfl max_pdu = Ok pdus ∧
    Forall2 (reads_as display names) pdus reps ∧
    concat (map rep_entries reps) = all_entries f e members ∧
    Forall (λ rep, report_header rep =
      report_header (expected f e (f_opt f) members 0 (length (e_members e)) None)) reps ∧
    ∀ i rep, reps !! i = Some rep →
      rep_sub_seq_num rep = u16 (Z.of_nat i) ∧ rep_more_follows rep = bool_decide (S i < length reps)%nat.
Proof.
  intros f members Hread Hsize. assert (Forall encodable (e_values e)) as Hv.
  { eapply Forall_impl; [apply (ew_values _ _ (rd_wire _ _ _ _ Hread))|]. apply wf_encodable. }
  destruct (report_pdus_split display m rs e seq buf_ovfl max_pdu (rd_entry _ _ _ _ Hread) Hv)
    as (pdus & Hp & Hcase). pose proof (Hsize pdus Hp) as Hlen. exists pdus. fold f members in Hcase.
  destruct Hcase as [(whole & -> & Hb & _)|Hc].
  - apply Forall_cons in Hlen as [Hl _].
    exists [expected f e (segment_opt f None) members 0 (length (e_members e)) None]. split; [done|].
    split; [constructor; [|constructor]; by apply (segment_read display f e members names Hread); [lia|..]|].
    split.
    { cbn [map concat]. rewrite app_nil_r, expected_entries. unfold run. rewrite drop_0, take_ge; [done|].
      unfold all_entries. rewrite length_map, !length_zip_with. lia. }
    split; [constructor; [apply expected_header|constructor]|]. by intros [|i] rep [= <-].
  - destruct (segments_read display f e members names Hread _ _ _ _ Hc) as (reps & Hr & Hcat & Hh & _ & Hn);
      [unfold in_u; lia|done|]. exists reps. by rewrite drop_0 in Hcat.
Qed.

(** The optional fields with everything but the sequence number, in two segments. *)
Lemma sample_readable :
  readable (report_fields (λ _, []) sample_blocks sample_rcb 7 true) sample_entry
    (default [] (resolve_data_set sample_blocks (txt "LD0/LLN0$Events"))) 
    (map known (default [] (resolve_data_set sample_blocks (txt "LD0/LLN0$Events")))).
Proof.
  split.
  - apply sample_entry_ok.
  - split; [repeat constructor|repeat constructor; unfold depth_ok; vm_compute; lia|by apply octets_to_be|].
    by apply (bool_decide_eq_true_1 _); vm_compute.
  - vm_compute. repeat constructor; lia.
  - repeat constructor; vm_compute; congruence.
  - by vm_compute.
  - by vm_compute.
  - vm_compute. split; congruence.
  - apply effective_range.
  - by left.
Qed.

Lemma report_received_witness :
  ∃ pdus reps, report_pdus (λ _, []) sample_blocks sample_rcb sample_entry 7 true 90 = Ok pdus ∧
    length reps = 2%nat ∧
    map (λ r, (mr_reference r, mr_fc r, mr_value r)) (concat (map rep_entries reps)) =
    [(txt "LD0/GGIO1.Ind1", St, VStructure [VBoolean true]); (txt "LD0/GGIO1.Ind2", St, VStructure [VBoolean false])].
Proof.
  destruct (report_received (λ _, []) sample_blocks sample_rcb sample_entry 7 true 90
    (map known (default [] (resolve_data_set sample_blocks (txt "LD0/LLN0$Events")))) sample_readable)
    as (pdus & reps & Hp & Hr & Hc & _).
  - intros pdus H. assert (match report_pdus (λ _, []) sample_blocks sample_rcb sample_entry 7 true 90 with
      | Ok l => forallb (λ el, bool_decide (zlen (Element_encode el) < 2 ^ 32)) l | _ => false end = true) as Hb
      by (vm_compute; reflexivity).
    rewrite H, forallb_forall in Hb. rewrite Forall_forall. intros el Hel.
    by apply list_elem_of_In, Hb, bool_decide_eq_true in Hel.
  - exists pdus, reps. split; [exact Hp|]. split.
    + apply Forall2_length in Hr. rewrite <-Hr. apply (f_equal (λ r, match r with Ok l => length l | _ => O end)) in Hp.
      rewrite <-Hp. vm_compute. reflexivity.
    + rewrite Hc. vm_compute. reflexivity.
Defined.
