(* ===== verification/ReportSafe.v ===== *)
(** The report engine of src/src/server/reporting.rs never panics: from a model
    whose values have an encoding, every operation on a control block returns,
    and leaves such a model and entries that can be reported. *)

From stdpp Require Import sorting.
From S2P Require Import Prelude Ber BerDecoder BerPrim TimeUtil Text Errors MmsValue MmsCodec.
From S2P Require Import ObjRef Quality Nodes Access Tx Handler Selections InfoReport Rcb ReportPdu Reporting ReportBuffer ReportOwner.
Local Open Scope list_scope.
Local Open Scope Z_scope.

(** ** Models whose values have an encoding *)

Inductive enc_attr : DataAttribute → Prop :=
| enc_attr_intro a :
    Forall enc_attr (da_children a) → (∀ v, da_value a = Some v → encodable v) → enc_attr a.

Inductive enc_object : DataObject → Prop :=
| enc_object_intro o : Forall enc_attr (do_attributes o) → Forall enc_object (do_objects o) → enc_object o.

Definition enc_node (ln : LogicalNode) : Prop := Forall enc_object (ln_objects ln).
Definition enc_model (m : Model) : Prop := Forall (λ ld, Forall enc_node (ld_nodes ld)) (model_devices m).

Lemma structure_encodable vs : Forall encodable vs → encodable (VStructure vs) ∧ encodable (VArray vs).
Proof. intros H. destruct (encodable_all vs H) as [els He]. split; eexists; cbn [data_element]; by rewrite He. Qed.

Lemma collect_encodable {A} (f : A → option Value) l vs :
  Forall (λ a, ∀ v, f a = Some v → encodable v) l → collect f l = Some vs → Forall encodable vs.
Proof.
  intros H. revert vs. induction H as [|a l Ha _ IH]; intros vs; [intros [= <-]; constructor|]. cbn [collect].
  intros (v & Hv & Hr)%bind_Some. apply bind_Some in Hr as (vs' & Hvs & [= <-]). constructor; [by apply Ha|by apply IH].
Qed.

Lemma da_value_encodable a : enc_attr a → ∀ v, da_value_opt a = Some v → encodable v.
Proof.
  induction a as [a IH] using DataAttribute_ind'. intros Ha v. inversion Ha as [? Hc Hv]; subst.
  destruct a as [n fc fn k bt et cnt cs w t]. cbn [da_children da_value] in *. cbn [da_value_opt da_children].
  destruct cs as [|c cs].
  { cbn [da_value da_kind]. destruct w as [w|]; [intros [= <-]; by apply Hv|]. case_decide; [done|]. intros [= <-].
    by apply plain_encodable. }
  intros (ms & Hms & Hr)%bind_Some. apply collect_encodable in Hms.
  2:{ clear -IH Hc. induction IH as [|x l Hx _ IH]; constructor; apply Forall_cons in Hc as [Hcx Hc]; auto. }
  apply structure_encodable in Hms as [Hs _]. cbn [da_kind da_count] in Hr. case_decide; injection Hr as <-; [|done].
  apply structure_encodable. by apply Forall_replicate.
Qed.

Lemma do_value_encodable o : enc_object o → ∀ fc v, do_value o fc = Some v → encodable v.
Proof.
  induction o as [o IH] using DataObject_ind'. intros Ho fc v. inversion Ho as [? Ha Hs]; subst.
  destruct o as [n c os ats]. cbn [do_objects do_attributes] in *. cbn [do_value do_attributes do_objects].
  intros (attrs & Hattrs & Hr)%bind_Some. case_decide; [done|]. injection Hr as <-. apply structure_encodable.
  apply Forall_app. split.
  - eapply collect_encodable; [|done]. apply Forall_forall. intros a Hin%list_elem_of_In.
    apply List.filter_In in Hin as [Hin _]. apply list_elem_of_In in Hin. rewrite Forall_forall in Ha.
    by apply da_value_encodable, Ha.
  - clear -IH Hs. induction IH as [|x l Hx _ IH]; [constructor|]. apply Forall_cons in Hs as [Hsx Hs]. simpl.
    apply Forall_app. split; [|by apply IH]. destruct (do_value x fc) as [w|] eqn:E; [|constructor].
    destruct (Value_is_empty w); [constructor|]. constructor; [by eapply Hx|constructor].
Qed.

Lemma enc_find {A} (P : A → Prop) p l x : Forall P l → find p l = Some x → P x.
Proof. intros Hl [Hin _]%find_elem. rewrite Forall_forall in Hl. by apply Hl. Qed.

Lemma descend_objects_enc path : ∀ o s rest, enc_object o → descend_objects o path = (s, rest) → enc_object s.
Proof.
  induction path as [|n path IH]; intros o s rest Ho; cbn [descend_objects]; [by intros [= <- _]|].
  destruct (do_child o n) as [c|] eqn:Hc; [|by intros [= <- _]]. apply IH. inversion Ho as [? _ Hs]; subst.
  by eapply enc_find.
Qed.

Lemma descend_members_enc names : ∀ a d, enc_attr a → descend_members a names = Some d → enc_attr d.
Proof.
  induction names as [|n names IH]; intros a d Ha; cbn [descend_members]; [by intros [= <-]|].
  intros (c & Hc & Hd)%bind_Some. eapply IH; [|done]. inversion Ha as [? Hcs _]; subst. by eapply enc_find.
Qed.

Lemma resolve_read_encodable ln item v : enc_node ln → resolve_read ln item = Some v → encodable v.
Proof.
  intros Hln. unfold resolve_read, resolve_read_err. destruct (split_item item) as [[[n fc] rest]|]; [|done].
  destruct rest as [|d rest].
  { intros [= <-]. apply structure_encodable, Forall_forall. intros w Hw. apply list_elem_of_omap in Hw as (o & Hin & Hd).
    unfold enc_node in Hln. rewrite Forall_forall in Hln. by eapply do_value_encodable; [apply Hln|]. }
  destruct (object ln d) as [o|] eqn:Ho; [|done]. apply (enc_find _ _ _ _ Hln) in Ho.
  destruct (descend_objects o rest) as [s rest'] eqn:Hs. apply descend_objects_enc in Hs; [|done].
  destruct rest' as [|n' names].
  - destruct (do_value s fc) as [w|] eqn:Hw; [|done]. intros [= <-]. by eapply do_value_encodable.
  - destruct (attribute_in _ s _) as [a|] eqn:Ha; [|done]. destruct (da_value_opt a) as [w|] eqn:Hw; [|done]. intros [= <-].
    eapply da_value_encodable; [|done]. cbn [attribute_in] in Ha. apply bind_Some in Ha as (a0 & Hf & Hd).
    eapply descend_members_enc; [|done]. inversion Hs as [? Hat _]; subst. by eapply enc_find.
Qed.

Lemma item_value_encodable m d i v : enc_model m → item_value m d i = Some v → encodable v.
Proof.
  intros Hm. unfold item_value. intros (ld & Hld & Hr)%bind_Some. apply bind_Some in Hr as (ln & Hln & Hv).
  apply (enc_find _ _ _ _ Hm) in Hld. apply (enc_find _ _ _ _ Hld) in Hln. by eapply resolve_read_encodable.
Qed.

(** ** Writes keep it *)

Lemma set_value_enc a v : enc_attr a → encodable v → enc_attr (set_value a (Some v)).
Proof. intros Ha Hv. inversion Ha as [? Hc _]; subst. constructor; [done|]. by intros w [= <-]. Qed.

Lemma descend_members_mut_enc names : ∀ a d put,
  enc_attr a → descend_members_mut a names = Some (d, put) → enc_attr d ∧ ∀ d', enc_attr d' → enc_attr (put d').
Proof.
  induction names as [|n names IH]; intros a d put Ha; [by intros [= -> <-]|]. cbn [descend_members_mut].
  intros ([c pc] & Hc & Hr)%bind_Some. apply bind_Some in Hr as ([d1 p1] & Hd & [= -> <-]).
  unfold da_child_mut in Hc. apply bind_Some in Hc as ([c' pc'] & Hf & [= -> <-]).
  inversion Ha as [? Hcs Hv]; subst. pose proof (find_mut_Forall _ _ _ _ _ Hf Hcs) as [Hsc Hput].
  destruct (IH c d p1 Hsc Hd) as [Hsd Hsub]. split; [done|]. intros d' Hd'.
  constructor; [|done]. apply Hput. by apply Hsub.
Qed.

Lemma attribute_in_mut_enc p o rest d put :
  enc_object o → attribute_in_mut p o rest = Some (d, put) →
  enc_attr d ∧ ∀ d', enc_attr d' → enc_object (put d').
Proof.
  intros Ho. destruct rest as [|n names]; [done|]. cbn [attribute_in_mut].
  intros ([a pa] & Hf & Hr)%bind_Some. apply bind_Some in Hr as ([d1 p1] & Hd & [= -> <-]).
  inversion Ho as [? Hattr Hobj]; subst. pose proof (find_mut_Forall _ _ _ _ _ Hf Hattr) as [Ha Hput].
  destruct (descend_members_mut_enc _ _ _ _ Ha Hd) as [Hsd Hsub]. split; [done|]. intros d' Hd'.
  constructor; [|done]. apply Hput. by apply Hsub.
Qed.

Lemma descend_objects_mut_enc rest : ∀ o s put rest',
  enc_object o → descend_objects_mut o rest = ((s, put), rest') →
  enc_object s ∧ ∀ s', enc_object s' → enc_object (put s').
Proof.
  induction rest as [|n rest IH]; intros o s put rest' Ho; cbn [descend_objects_mut]; [by intros [= -> <- _]|].
  destruct (do_child_mut o n) as [[c pc]|] eqn:Hc; [|by intros [= -> <- _]].
  unfold do_child_mut in Hc. apply bind_Some in Hc as ([c' pc'] & Hf & [= -> <-]).
  inversion Ho as [? Hattr Hobj]; subst. pose proof (find_mut_Forall _ _ _ _ _ Hf Hobj) as [Hsc Hput].
  destruct (descend_objects_mut c rest) as [[s1 p1] r1] eqn:Hd. intros [= -> <- <-].
  destruct (IH c s p1 r1 Hsc Hd) as [Hs Hsub]. split; [done|]. intros s' Hs'.
  constructor; [done|]. apply Hput. by apply Hsub.
Qed.

Lemma resolve_write_enc ln item a put :
  enc_node ln → resolve_write ln item = Some (a, put) → enc_attr a ∧ ∀ a', enc_attr a' → enc_node (put a').
Proof.
  intros Hln (fc & d & init & l & o & po & s & ps & r & pa & _ & Ho & Hs & Ha & _ & ->)%resolve_write_inv.
  pose proof (find_mut_Forall _ _ _ _ _ Ho Hln) as [Hso Hpo].
  destruct (descend_objects_mut_enc _ _ _ _ _ Hso Hs) as [Hss Hps].
  destruct (attribute_in_mut_enc _ _ _ _ _ Hss Ha) as [Hsa Hpa].
  split; [done|]. intros a' Ha'. apply Hpo, Hps. by apply Hpa.
Qed.

(** The node of a device, in place. *)
Lemma node_mut_enc m d n ld pld ln pln :
  enc_model m → device_mut m d = Some (ld, pld) → node_mut ld n = Some (ln, pln) →
  enc_node ln ∧ ∀ ln', enc_node ln' → enc_model (pld (pln ln')).
Proof.
  intros Hm Hd Hn. unfold device_mut in Hd. apply bind_Some in Hd as ([ld' pd] & Hfd & [= -> <-]).
  unfold node_mut in Hn. apply bind_Some in Hn as ([ln' pn] & Hfn & [= -> <-]).
  pose proof (find_mut_Forall _ _ _ _ _ Hfd Hm) as [Hld Hpd]. pose proof (find_mut_Forall _ _ _ _ _ Hfn Hld) as [Hln Hpn].
  split; [done|]. intros ln' Hln'. apply Hpd, Hpn, Hln'.
Qed.

Lemma store_enc writable editing hook m changes domain item v control_block m' changes' :
  enc_model m → encodable v →
  store writable editing hook m changes domain item v control_block = inl (m', changes') → enc_model m'.
Proof.
  intros Hm Hv. unfold store.
  destruct (device_mut m domain) as [[ld pld]|] eqn:Hd; [|done].
  destruct (node_mut ld _) as [[ln pln]|] eqn:Hn; [|done].
  destruct (resolve_write ln item) as [[a put]|] eqn:Hw; [|done].
  destruct (if control_block then _ else _); [done|]. destruct (value_fits a v); [|done]. simpl.
  destruct (_ ≫= _); [done|]. intros [= <- _].
  destruct (node_mut_enc _ _ _ _ _ _ _ Hm Hd Hn) as [Hln Hput].
  destruct (resolve_write_enc _ _ _ _ Hln Hw) as [Ha Hputa]. apply Hput, Hputa. by apply set_value_enc.
Qed.

Lemma set_attr_enc m rs name v : enc_model m → encodable v → enc_model (set_attr m rs name v).
Proof.
  intros Hm Hv. unfold set_attr. destruct (device_mut m _) as [[ld pld]|] eqn:Hd; [|done]. cbn [mbind option_bind].
  destruct (node_mut ld _) as [[ln pln]|] eqn:Hn; [|done]. cbn [mbind option_bind].
  destruct (node_mut_enc _ _ _ _ _ _ _ Hm Hd Hn) as [Hln Hput].
  unfold object_mut. destruct (find_mut _ _) as [[o po]|] eqn:Ho; [|done]. cbn [mbind option_bind].
  pose proof (find_mut_Forall _ _ _ _ _ Ho Hln) as [Hso Hpo]. inversion Hso as [? Hattr Hobj]; subst.
  unfold do_attribute_mut. destruct (find_mut _ (do_attributes o)) as [[a pa]|] eqn:Ha; [|done]. cbn [mbind option_bind].
  pose proof (find_mut_Forall _ _ _ _ _ Ha Hattr) as [Hsa Hpa].
  apply Hput, Hpo. constructor; [|done]. apply Hpa. by apply set_value_enc.
Qed.

(** ** Entries that can be reported *)

Definition reportable (e : ReportEntry) : Prop := entry_ok e ∧ Forall encodable (e_values e).

Lemma insert_at_Forall {A} (P : A → Prop) n x l : P x → Forall P l → Forall P (insert_at n x l).
Proof. intros Hx Hl. apply Forall_app_2; [by apply Forall_take|]. constructor; [done|by apply Forall_drop]. Qed.

Lemma merge_reportable e other :
  reportable e → reportable other → overlaps e other = false → reportable (merge e other).
Proof.
  intros [He Hev] [Ho Hov] Hd. split; [by apply merge_ok|]. unfold merge.
  assert (Forall (λ m : nat * Value * Z, encodable m.1.2)
    (zip (zip (e_members other) (e_values other)) (e_reasons other))) as Hz.
  { apply Forall_forall. intros [[i v] r] Hin%elem_of_zip_l%elem_of_zip_r. rewrite Forall_forall in Hov. by apply Hov. }
  clear -Hev Hz. revert e Hev. induction Hz as [|m l Hm _ IH]; intros e He; [done|]. simpl. apply IH.
  by apply insert_at_Forall.
Qed.

Lemma new_reportable time e : reportable e → reportable (merge (ReportEntry_new time) e).
Proof.
  intros He. apply merge_reportable; [split; [apply new_entry_ok|constructor]|done|].
  unfold overlaps. simpl. induction (e_members e) as [|m l IH]; [done|]. simpl. by rewrite IH.
Qed.

Lemma collect_reportable w members reason time :
  enc_model (w_model w) → reportable (entry_of time (collect_members w members reason)).
Proof.
  intros Hm. unfold reportable, entry_ok, entry_of. cbn [e_members e_values e_reasons]. rewrite !length_map. split.
  - split; [|done]. unfold collect_members.
    set (f := λ p : nat * DsMember, _). assert (∀ p x, f p = Some x → x.1.1 = p.1) as Hf.
    { intros [i m] x (r & _ & Hr)%bind_Some. by apply bind_Some in Hr as (v & _ & [= <-]). }
    assert (∀ k, StronglySorted lt (map (λ x : nat * Value * Z, x.1.1) (omap f (imap (λ i, pair (k + i)%nat) members))) ∧
      Forall (λ i, (k ≤ i)%nat) (map (λ x : nat * Value * Z, x.1.1) (omap f (imap (λ i, pair (k + i)%nat) members))))
      as H; [|apply (H 0%nat)].
    clearbody f. induction members as [|m l IH]; intros k; [repeat constructor|]. rewrite imap_cons.
    assert (imap ((λ i, pair (k + i)%nat) ∘ S) l = imap (λ i, pair (S k + i)%nat) l) as ->.
    { apply imap_ext. intros i x _. simpl. f_equal. lia. }
    destruct (IH (S k)) as [Hs Hk]. cbn [omap list_omap]. destruct (f _) as [x|] eqn:Hx.
    + apply Hf in Hx. simpl in Hx. simpl. split; constructor; [done| |lia|];
        (eapply Forall_impl; [exact Hk|]); simpl; lia.
    + split; [done|]. eapply Forall_impl; [exact Hk|]. simpl. lia.
  - rewrite Forall_map. apply Forall_omap. intros [i m] x (r & _ & Hr)%bind_Some.
    apply bind_Some in Hr as (v & Hv & [= <-]). by eapply item_value_encodable.
Qed.

(** ** The engine *)

Definition held_entries (st : RcbRuntime) : Prop :=
  (∀ p, rt_pending st = Some p → reportable p) ∧ Forall reportable (rt_buffer st).

Definition sane (w : World) : Prop := enc_model (w_model w) ∧ held_entries (w_st w).

(** [m] returns, to a state that can go on and has the entries of [st] pending. *)
Definition comes_back (st : RcbRuntime) (m : outcome Empty_set World) : Prop :=
  ∃ w', m = Ok w' ∧ sane w' ∧ rt_pending (w_st w') = rt_pending st.

Definition goes_on (m : outcome Empty_set World) : Prop := ∃ w', m = Ok w' ∧ sane w'.

Lemma comes_back_goes_on st m : comes_back st m → goes_on m.
Proof. intros (w' & -> & Hs & _). by exists w'. Qed.

Lemma comes_back_Ok st w : sane w → rt_pending (w_st w) = rt_pending st → comes_back st (Ok w).
Proof. intros. by exists w. Qed.

Lemma goes_on_Ok w : sane w → goes_on (Ok w).
Proof. intros. by exists w. Qed.

Lemma goes_on_bind m f : goes_on m → (∀ w, sane w → goes_on (f w)) → goes_on (m ≫= f).
Proof. intros (w & -> & Hs) Hf. by apply Hf. Qed.

(** Only the pending and the buffered entries matter. *)
Lemma held_same st st' :
  held_entries st → rt_pending st' = rt_pending st → rt_buffer st' = rt_buffer st → held_entries st'.
Proof. intros [Hp Hb] H1 H2. split; [by rewrite H1|by rewrite H2]. Qed.

Lemma sane_st w st : sane w → rt_pending st = rt_pending (w_st w) → rt_buffer st = rt_buffer (w_st w) → sane (with_st w st).
Proof. intros [Hm Hh] Hp Hb. split; [done|]. by eapply held_same. Qed.

Section safe.
Context (display : Value → list Z) (rs : RcbState) (entry_seed : Z) (owned running : bool).

Lemma sane_attr w name v : sane w → encodable v → sane (set_attr_w rs w name v).
Proof. intros [Hm Hh] Hv. split; [by apply set_attr_enc|done]. Qed.

Lemma sync_resv_sane w : sane w → sane (sync_resv rs w).
Proof. intros Hs. unfold sync_resv. destruct (rs_buffered rs); apply sane_attr; try done; by apply plain_encodable. Qed.

Lemma take_block_sane w c ip : sane w → sane (take_block rs w c ip).
Proof. intros Hs. apply sync_resv_sane, sane_st; [done|..]; destruct (w_st w); simpl; by case_match. Qed.

Lemma release_sane w : sane w → sane (release rs owned running w).
Proof.
  intros Hs. unfold release. destruct (rt_resv_cfg _); apply sync_resv_sane, sane_st; try done.
  all: destruct (w_st w); simpl; repeat case_match; done.
Qed.

Lemma set_sq_num_sane w n :
  sane w → sane (set_sq_num rs w n) ∧ rt_pending (w_st (set_sq_num rs w n)) = rt_pending (w_st w) ∧
    rt_buffer (w_st (set_sq_num rs w n)) = rt_buffer (w_st w).
Proof.
  intros Hs. unfold set_sq_num.
  destruct (rs_buffered rs); (split; [apply sane_attr; [|by apply plain_encodable]; apply sane_st|]);
    try done; by destruct (w_st w).
Qed.

Lemma transmit_safe w e : sane w → reportable e → comes_back (w_st w) (transmit display rs w e).
Proof.
  intros Hs [He Hv]. unfold transmit. destruct (c ← rt_conn (w_st w); _) as [[c max_pdu]|]; [|by apply comes_back_Ok].
  destruct (set_sq_num_sane w (rt_sq_num (w_st w) + 1) Hs) as (Hs1 & Hp1 & Hb1).
  set (w1 := set_sq_num rs w _) in *. clearbody w1.
  set (w2 := with_st w1 (set_buffer _ _ _ _)). assert (sane w2 ∧ rt_pending (w_st w2) = rt_pending (w_st w)) as [Hs2 Hp2].
  { split; [apply sane_st; [done|..]|rewrite <-Hp1]; unfold w2; simpl; by destruct (w_st w1). }
  clearbody w2. cbn zeta.
  destruct (report_pdus_split display (w_model w2) rs e (rt_sq_num (w_st w)) (rt_buf_overflow (w_st w1)) max_pdu He Hv)
    as (pdus & -> & _). cbn [mbind outcome_bind].
  destruct (send_all pdus _) as [[taken complete] sends]. apply comes_back_Ok.
  - destruct (_ && _); [|done]. destruct Hs2 as [Hm2 Hh2]. split; [done|]. eapply held_same; [exact Hh2|..]; simpl; by destruct (w_st w2).
  - rewrite <-Hp2. destruct (_ && _); [|done]. simpl. by destruct (w_st w2).
Qed.

Lemma transmit_loop_safe fuel : ∀ w,
  (length (rt_buffer (w_st w)) - rt_next (w_st w) < fuel)%nat → sane w →
  comes_back (w_st w) (transmit_loop display rs fuel w).
Proof.
  induction fuel as [|fuel IH]; intros w Hf Hs; [lia|]. cbn [transmit_loop].
  destruct (_ !! _) as [e|] eqn:He; [|by apply comes_back_Ok].
  assert (reportable e) as Hre by (destruct Hs as (_ & _ & Hb); by eapply Forall_lookup_1 in Hb).
  destruct (transmit_safe w e Hs Hre) as (w1 & Ht & Hs1 & Hp1). rewrite Ht. cbn [mbind outcome_bind].
  apply transmit_buffer in Ht as [Hb1 Hn1]. apply lookup_lt_Some in He.
  set (w2 := with_st w1 _). destruct (IH w2) as (w' & -> & Hs' & Hp').
  - unfold w2. simpl. destruct (w_st w1). simpl in *. subst. lia.
  - apply sane_st; [done|..]; by destruct (w_st w1).
  - apply comes_back_Ok; [done|]. rewrite Hp', <-Hp1. unfold w2. simpl. by destruct (w_st w1).
Qed.

Lemma evict_reportable k : ∀ b n o, Forall reportable b → Forall reportable (evict k b n o).1.1.
Proof.
  induction b as [|e b IH]; intros n o Hb; [done|]. apply Forall_cons in Hb as [He Hb]. cbn [evict].
  case_decide; [case_decide; by apply IH|by constructor].
Qed.

Lemma commit_sane w e :
  sane w → reportable e → sane (commit rs w e) ∧ rt_pending (w_st (commit rs w e)) = rt_pending (w_st w).
Proof.
  intros (Hm & Hp & Hb) He. unfold commit.
  pose proof (evict_reportable (rs_max_buffer rs) (rt_buffer (w_st w) ++ [e]) (rt_next (w_st w))
    (rt_buf_overflow (w_st w))) as Hev.
  destruct (evict _ _ _ _) as [[b next] ovfl]. simpl in Hev. split; [|by destruct (w_st w)].
  split; [done|]. destruct (w_st w). split; [done|]. apply Hev. apply Forall_app_2; [done|]. by constructor.
Qed.

Lemma emit_safe w e : sane w → reportable e → comes_back (w_st w) (emit display rs entry_seed w e).
Proof.
  intros Hs He. unfold emit. cbn [now]. set (w1 := mkW _ _ _ _ _ _ _).
  assert (sane w1 ∧ w_st w1 = w_st w) as [Hs1 Hw1] by done. clearbody w1. rewrite <-Hw1.
  destruct (negb _); [destruct (rt_enabled _); [by apply transmit_safe|by apply comes_back_Ok]|].
  set (e' := mkEntry _ _ _ _ _). set (w2 := set_attr_w rs (set_attr_w rs w1 _ _) _ _).
  assert (sane w2 ∧ w_st w2 = w_st w1) as [Hs2 Hw2].
  { split; [|done]. apply sane_attr; [|apply binary_time_encodable]. by apply sane_attr, plain_encodable. }
  clearbody w2. destruct (commit_sane w2 e' Hs2 He) as [Hs3 Hp3]. set (w3 := commit rs w2 e') in *. clearbody w3.
  rewrite Hw2 in Hp3. destruct (rt_enabled (w_st w3)); [|by apply comes_back_Ok].
  destruct (transmit_loop_safe (S (length (rt_buffer (w_st w3)))) w3) as (w' & Ht & Hs' & Hp'); [lia|done|].
  exists w'. split; [done|]. split; [done|]. congruence.
Qed.

(** Nothing is pending after a flush. *)
Lemma flush_pending_safe w :
  sane w → ∃ w', flush_pending display rs entry_seed w = Ok w' ∧ sane w' ∧ rt_pending (w_st w') = None.
Proof.
  intros Hs. unfold flush_pending. destruct (rt_pending (w_st w)) as [p|] eqn:Hp; [|by exists w].
  set (w1 := with_st w _). assert (sane w1 ∧ rt_pending (w_st w1) = None) as [Hs1 Hp1].
  { unfold w1, sane, held_entries in *. simpl. destruct (w_st w). naive_solver. }
  clearbody w1. case_decide; [by exists w1|].
  destruct (emit_safe w1 p) as (w' & -> & Hs' & Hp'); [done|by apply (proj1 (proj2 Hs))|].
  exists w'. split; [done|]. split; [done|]. congruence.
Qed.

Lemma flush_goes_on w : sane w → goes_on (flush_pending display rs entry_seed w).
Proof. intros Hs. destruct (flush_pending_safe w Hs) as (w' & -> & Hs' & _). by apply goes_on_Ok. Qed.

Lemma emit_goes_on w e : sane w → reportable e → goes_on (emit display rs entry_seed w e).
Proof. intros. by eapply comes_back_goes_on, emit_safe. Qed.

Lemma pending_sane w p tm g : sane w → reportable p → sane (with_st w (set_pending (w_st w) (Some p) tm g)).
Proof. intros (Hm & _ & Hb) Hp. split; [done|]. simpl. destruct (w_st w). split; [by intros ? [= <-]|done]. Qed.

Lemma event_safe w e : sane w → reportable e → goes_on (event display rs entry_seed owned running w e).
Proof.
  intros Hs He. unfold event. case_decide; [by apply emit_goes_on|].
  assert (∃ w1, (if match rt_pending (w_st w) with Some p => overlaps p e | None => false end
      then flush_pending display rs entry_seed w else Ok w) = Ok w1 ∧ sane w1 ∧
    ∀ p, rt_pending (w_st w1) = Some p → overlaps p e = false) as (w1 & -> & Hs1 & Hov).
  { destruct (rt_pending (w_st w)) as [p|] eqn:Hp; [destruct (overlaps p e) eqn:Ho|].
    - destruct (flush_pending_safe w Hs) as (w1 & -> & Hs1 & Hp1). exists w1. by rewrite Hp1.
    - exists w. split; [done|]. split; [done|]. rewrite Hp. by intros ? [= <-].
    - exists w. by rewrite Hp. }
  cbn [mbind outcome_bind]. destruct (rt_pending (w_st w1)) as [p|] eqn:Hp.
  - apply goes_on_Ok, pending_sane; [done|]. apply merge_reportable; [by apply (proj1 (proj2 Hs1))|done|by apply Hov].
  - destruct (owned && running); [|by apply emit_goes_on]. cbn [now]. apply goes_on_Ok.
    by apply (pending_sane (now w1).2), new_reportable.
Qed.

Lemma report_all_safe w reason : sane w → goes_on (report_all display rs entry_seed w reason).
Proof.
  intros Hs. apply goes_on_bind; [by apply flush_goes_on|]. intros w1 Hs1. cbn [now]. set (w2 := mkW _ _ _ _ _ _ _).
  assert (sane w2) as Hs2 by done. case_decide; [by apply goes_on_Ok|].
  apply emit_goes_on; [done|]. apply collect_reportable, Hs2.
Qed.

Lemma on_update_safe w changes : sane w → goes_on (on_update display rs entry_seed owned running w changes).
Proof.
  intros Hs. unfold on_update. case_decide; [by apply goes_on_Ok|]. destruct (_ && _); [by apply goes_on_Ok|].
  destruct (data_set_members _ _ _); [|by apply goes_on_Ok]. cbn [now]. set (w2 := mkW _ _ _ _ _ _ _).
  assert (sane w2) as Hs2 by done. case_decide; [by apply goes_on_Ok|].
  apply event_safe; [done|]. apply collect_reportable, Hs2.
Qed.

Lemma disable_safe w : sane w → goes_on (disable display rs entry_seed owned running w).
Proof.
  intros Hs. apply goes_on_bind; [by apply flush_goes_on|]. intros w1 Hs1. apply goes_on_Ok.
  assert (sane (log (with_st w1 (stop_integrity (set_subscriber (w_st w1) false None))) Disabled)) as Hs2.
  { apply (sane_st w1); [done|..]; by destruct (w_st w1). }
  destruct (rs_buffered rs); [by apply release_sane|done].
Qed.

Lemma resync_held st : held_entries st → held_entries (resync st).
Proof. intros H. eapply held_same; [exact H|..]; unfold resync; destruct st; simpl; repeat case_match; done. Qed.

Lemma enable_safe w c ip : sane w → goes_on (enable display rs owned running w c ip).
Proof.
  intros Hs. unfold enable. set (w1 := with_st w _). assert (sane w1) as Hs1.
  { apply sane_st; [done|..]; by destruct (w_st w). }
  clearbody w1. set (w2 := if decide _ then _ else _). assert (sane w2) as Hs2.
  { unfold w2. case_decide; [by apply take_block_sane|done]. }
  clearbody w2. destruct (set_sq_num_sane w2 0 Hs2) as (Hs3 & _). set (w3 := set_sq_num rs w2 0) in *. clearbody w3.
  set (w4 := with_st w3 _). assert (sane w4) as Hs4. { apply sane_st; [done|..]; by destruct (w_st w3). }
  clearbody w4. cbn zeta. apply goes_on_bind.
  - destruct (rs_buffered rs); [|by apply goes_on_Ok]. eapply comes_back_goes_on, transmit_loop_safe; [lia|].
    destruct Hs4 as [Hm Hh]. split; [done|]. by apply resync_held.
  - intros w5 Hs5. apply goes_on_Ok. destruct (_ && _); [|done]. apply sane_st; [done|..]; by destruct (w_st w5).
Qed.

Lemma on_rcb_write_safe w attr v c ip :
  sane w → goes_on (on_rcb_write display rs entry_seed owned running w attr v c ip).
Proof.
  intros Hs. unfold on_rcb_write. case_decide.
  { apply goes_on_Ok. destruct (as_bool v); [by apply take_block_sane|by apply release_sane]. }
  set (w1 := if decide _ then _ else _). assert (sane w1) as Hs1.
  { unfold w1. case_decide; [by apply take_block_sane|done]. }
  clearbody w1. assert (sane (purge_block w1)) as Hpurge.
  { destruct Hs1 as (Hm & Hp & Hb). split; [done|]. simpl. destruct (w_st w1). by split; [|constructor]. }
  destruct (_ && _). { apply goes_on_Ok, sane_st; [done|..]; by destruct (w_st w1). }
  case_decide; [destruct (as_bool v); [by apply enable_safe|by apply disable_safe]|].
  case_decide.
  { apply goes_on_bind; [destruct (_ && _); [by apply report_all_safe|by apply goes_on_Ok]|].
    intros w2 Hs2. by apply goes_on_Ok, sane_attr, plain_encodable. }
  case_decide. { apply goes_on_Ok, sane_attr; [by destruct (as_bool v)|by apply plain_encodable]. }
  case_decide. { apply goes_on_Ok, sane_st; [done|..]; by destruct (w_st w1). }
  case_decide; [|by apply goes_on_Ok]. apply goes_on_Ok.
  assert (∀ n, sane (set_attr_w rs w1 "ConfRev" (VUnsigned n))) as Hc by (intros n; by apply sane_attr, plain_encodable).
  specialize (Hc (u32 (match attr_value (w_model w1) rs "ConfRev" with Some v => as_u32 v | None => 0 end + 1))).
  destruct Hc as (Hm & Hp & Hb), Hpurge as (_ & Hh). by split.
Qed.

Context (writable : gset Fc) (editing : list Z → bool)
  (hook : option (DataAttribute → Value → option DataAccessError)).

(** What comes from outside: the values clients write are values of the wire,
    and the rest of the server keeps the model encodable. *)
Definition op_wf (op : Op) : Prop :=
  match op with Write _ v _ _ => value_wf v | Environment m _ _ _ => enc_model m | _ => True end.

Lemma apply_op_safe w op :
  sane w → op_wf op → goes_on (apply_op display rs entry_seed owned running writable editing hook w op).
Proof.
  intros Hs Hop. destruct op as [c mp|attr v c ip|changes|g|g|g|c| |m d clk snd]; cbn [apply_op op_wf] in *.
  - by apply goes_on_Ok.
  - unfold rcb_write. destruct (check_rcb_write _ _ _ _ _ _ _); [by apply goes_on_Ok|].
    destruct (store _ _ _ _ _ _ _ _ _) as [[m cs]|] eqn:Hst; [|by apply goes_on_Ok].
    destruct (on_rcb_write_safe (with_model w m) attr v c ip) as (w' & -> & Hs'); [|by apply goes_on_Ok].
    split; [|apply Hs]. eapply store_enc; [apply Hs|by apply wf_encodable|done].
  - by apply on_update_safe.
  - unfold window_fires. case_decide; [|by apply goes_on_Ok]. apply flush_goes_on, sane_st; [done|..]; by destruct (w_st w).
  - unfold integrity_fires. case_decide; [by apply goes_on_Ok|by apply report_all_safe].
  - apply goes_on_Ok. unfold resv_fires. case_decide; [|done]. apply sync_resv_sane, sane_st; [done|..]; by destruct (w_st w).
  - apply goes_on_bind; [case_decide; [by apply disable_safe|by apply goes_on_Ok]|].
    intros w1 Hs1. apply goes_on_Ok. case_decide; [by apply release_sane|done].
  - apply goes_on_Ok, (sane_st w); [done|..]; by destruct (w_st w).
  - apply goes_on_Ok. split; [done|apply Hs].
Qed.

(** The operations in order. *)
Fixpoint apply_ops (w : World) (ops : list Op) : outcome Empty_set World :=
  match ops with
  | [] => Ok w
  | op :: ops => w ← apply_op display rs entry_seed owned running writable editing hook w op; apply_ops w ops
  end.

Lemma apply_ops_safe ops : ∀ w, sane w → Forall op_wf ops → goes_on (apply_ops w ops).
Proof.
  induction ops as [|op ops IH]; intros w Hs Hops; [by apply goes_on_Ok|]. apply Forall_cons in Hops as [Hop Hops].
  apply goes_on_bind; [by apply apply_op_safe|]. intros w1 Hs1. by apply IH.
Qed.
End safe.

(** ** The blocks the server materialises *)

Lemma rcb_attr_enc fc name v : encodable v → enc_attr (rcb_attr fc name v).
Proof. intros Hv. constructor; [constructor|]. by intros w [= <-]. Qed.

#[local] Opaque to_bits binary_time txt.

Lemma build_rcb_enc ld ln rc fc n : enc_object (build_rcb_object ld ln rc fc n).
Proof.
  unfold build_rcb_object. cbn zeta. constructor; [|constructor]. cbn [do_attributes].
  destruct (rc_buffered rc).
  all: repeat (apply Forall_cons_2; [apply rcb_attr_enc|]); try apply Forall_nil_2.
  all: first [apply binary_time_encodable | apply to_bits_encodable; lia | apply plain_encodable; exact I].
Qed.

Lemma reserve_attr_enc ip a : enc_attr a → enc_attr (reserve_attr ip a).
Proof. intros Ha. unfold reserve_attr. repeat case_decide; try done; by apply set_value_enc, plain_encodable. Qed.

Lemma materialise_one_enc ld ln rc d i n : enc_object (materialise_one ld ln rc d i n).1.
Proof.
  unfold materialise_one. pose proof (build_rcb_enc ld ln rc (if rc_buffered rc then Br else Rp) n) as Ho.
  destruct (r ← mjoin _; cr_ip r) as [ip|]; [|done]. simpl. inversion Ho as [? Ha Hs]; subst. constructor; [|done].
  simpl. rewrite Forall_map. eapply Forall_impl; [exact Ha|]. apply reserve_attr_enc.
Qed.

Lemma materialise_enc m d : enc_model m → enc_model (materialise_rcbs m d).1.
Proof.
  intros Hm. unfold enc_model, materialise_rcbs. cbn [fst model_devices set_devices]. rewrite Forall_map.
  eapply Forall_impl; [exact Hm|]. intros ld Hld. simpl. rewrite Forall_map. eapply Forall_impl; [exact Hld|].
  intros ln Hln. unfold enc_node. simpl. apply Forall_app_2; [done|]. rewrite Forall_map, Forall_forall.
  intros [o b] Hin%list_elem_of_In. apply in_flat_map in Hin as (rc & _ & Hin%list_elem_of_In).
  apply elem_of_lookup_imap in Hin as (i & n & Heq & _).
  pose proof (materialise_one_enc (ld_name ld) (ln_name ln) rc d i n) as Ho. by rewrite <-Heq in Ho.
Qed.

(** The report engine never panics. A server started on a model whose values
    have an encoding, with its control blocks materialised, takes every sequence
    of operations on a block - writes of any value of the wire by any client,
    updates, timers, lost associations, changes of the model by the rest of the
    server that keep it encodable - and each returns: no slice out of range, no
    unencodable report, no loop without end. *)
Theorem engine_never_panics display rs entry_seed owned running writable editing hook
    (m : Model) (buf_default : Z) (w : World) (ops : list Op) :
  enc_model m → initial w → w_model w = (materialise_rcbs m buf_default).1 → Forall op_wf ops →
  ∃ w', apply_ops display rs entry_seed owned running writable editing hook w ops = Ok w'.
Proof.
  intros Hm (m0 & ri & rc & clock & sends & ->) Hw Hops. simpl in Hw. subst m0.
  edestruct apply_ops_safe as (w' & -> & _); [|exact Hops|by eexists].
  split; [by apply materialise_enc|]. by split; [|constructor].
Qed.

Lemma sample_enc : enc_model sample_device.
Proof.
  repeat (apply Forall_cons_2 || apply Forall_nil_2 || constructor);
    intros v Hv; injection Hv as <-; apply plain_encodable; exact I.
Qed.

(** A client is sent reports, asks for an interrogation and leaves; it comes back,
    gives the block a buffer time and is cut off with a window open. *)
Definition sample_life : list Op := sample_run ++ [set_text "GI" (VBoolean true) 1; Disconnect 1] ++ lost_ops.

Lemma engine_never_panics_witness :
  ∃ w', apply_ops (λ _, []) sample_rcb 1 true true ∅ (λ _, false) None sample_start sample_life = Ok w'.
Proof.
  apply (engine_never_panics (λ _, []) sample_rcb 1 true true ∅ (λ _, false) None sample_device 0 sample_start
    sample_life).
  - exact sample_enc.
  - exists sample_blocks, None, false, [], []. reflexivity.
  - reflexivity.
  - repeat (apply Forall_cons_2; [vm_compute; intuition discriminate|]). apply Forall_nil_2.
Defined.
