(* ===== verification/ModelSafe.v ===== *)
(** What the parts of the server write into the model has an encoding: setting groups,
    logs, sampled-value control blocks, controls and service tracking keep a model whose
    values can all be sent. *)

From S2P Require Import Prelude Ber BerDecoder BerPrim TimeUtil Text Errors MmsValue MmsCodec.
From S2P Require Import ObjRef Quality BTree Nodes Blocks Access Tx Handler Selections SettingGroup InfoReport Control Rcb ControlBlocks.
From S2P Require Import Svcb ReportPdu ReadService Journal Tracking Reporting ReportSafe.
Local Open Scope list_scope.
Local Open Scope Z_scope.

(** ** Attributes by reference and by block *)

Lemma attribute_mut_enc m r fc a put :
  enc_model m → attribute_mut m r fc = Some (a, put) → enc_attr a ∧ ∀ a', enc_attr a' → enc_model (put a').
Proof.
  intros Hm. unfold attribute_mut. destruct (ref_path r) as [|n [|d [|x rest]]]; try done.
  intros ([ld pld] & Hd & H)%bind_Some. apply bind_Some in H as ([ln pln] & Hn & H).
  destruct (node_mut_enc _ _ _ _ _ _ _ Hm Hd Hn) as [Hln Hput]. apply bind_Some in H as ([o po'] & Ho & H).
  unfold object_mut in Ho. apply bind_Some in Ho as ([o1 po] & Ho & [= -> <-]).
  pose proof (find_mut_Forall _ _ _ _ _ Ho Hln) as [Hso Hpo].
  destruct (descend_objects_mut o (x :: rest)) as [[s ps] r'] eqn:Hs.
  destruct (descend_objects_mut_enc _ _ _ _ _ Hso Hs) as [Hss Hps].
  apply bind_Some in H as ([a1 pa] & Ha & [= -> <-]). destruct (attribute_in_mut_enc _ _ _ _ _ Hss Ha) as [Hsa Hpa].
  split; [done|]. intros a' Ha'. apply Hput. apply Hpo, Hps. by apply Hpa.
Qed.

Lemma attribute_enc m r fc a : enc_model m → attribute m r fc = Some a → enc_attr a.
Proof. intros Hm [put E]%attribute_get_mut. by destruct (attribute_mut_enc _ _ _ _ _ Hm E). Qed.

Lemma enc_attr_value a v : enc_attr a → da_value a = Some v → encodable v.
Proof. intros Ha. inversion Ha as [? _ Hv]; subst. apply Hv. Qed.

Lemma read_attr_enc m r fc v : enc_model m → read_attr m r fc = Some v → encodable v.
Proof. intros Hm (a & Ha & Hv)%bind_Some. eapply enc_attr_value; [by eapply attribute_enc|done]. Qed.

Lemma write_attr_enc m r fc v : enc_model m → encodable v → enc_model (write_attr m r fc v).
Proof.
  intros Hm Hv. unfold write_attr. destruct (attribute_mut m r fc) as [[a put]|] eqn:E; [|done].
  destruct (attribute_mut_enc _ _ _ _ _ Hm E) as [Ha Hput]. by apply Hput, set_value_enc.
Qed.

Lemma write_attrs_enc fc l : ∀ m, enc_model m → Forall (λ p, encodable p.2) l → enc_model (write_attrs m fc l).
Proof.
  induction l as [|p l IH]; intros m Hm Hl; [done|]. apply Forall_cons in Hl as [Hp Hl]. apply IH; [by apply write_attr_enc|done].
Qed.

Lemma block_attr_mut_enc m dom n d p a put :
  enc_model m → block_attr_mut m dom n d p = Some (a, put) → enc_attr a ∧ ∀ a', enc_attr a' → enc_model (put a').
Proof.
  intros Hm (ld & pld & ln & pln & o & po & pa & Hd & Hn & Ho & Ha & ->)%block_attr_mut_inv.
  pose proof (find_mut_Forall _ _ _ _ _ Hd Hm) as [Hld Hpd]. pose proof (find_mut_Forall _ _ _ _ _ Hn Hld) as [Hln Hpn].
  pose proof (find_mut_Forall _ _ _ _ _ Ho Hln) as [Hso Hpo]. inversion Hso as [? Hattr Hobj]; subst.
  pose proof (find_mut_Forall _ _ _ _ _ Ha Hattr) as [Hsa Hpa].
  split; [done|]. intros a' Ha'. apply Hpd, Hpn, Hpo. constructor; [by apply Hpa|done].
Qed.

Lemma block_put_enc m dom n d p v : enc_model m → encodable v → enc_model (block_put m dom n d p v).
Proof.
  intros Hm Hv. unfold block_put. destruct (block_attr_mut m dom n d p) as [[a put]|] eqn:E; [|done].
  destruct (block_attr_mut_enc _ _ _ _ _ _ _ Hm E) as [Ha Hput]. by apply Hput, set_value_enc.
Qed.

(** ** Setting groups *)

Definition setting_enc (n : Z) (s : Setting) : Prop := zlen (st_groups s) = n ∧ Forall encodable (st_groups s).

(** The values of every group have an encoding, and there is one for each group. *)
Definition group_enc (mgr : SettingGroupManager) : Prop :=
  0 ≤ mg_num_of_sg mgr ∧ Forall (setting_enc (mg_num_of_sg mgr)) (sg_settings (mg_state mgr)).

Lemma each_returns {E A B} (P : B → Prop) (f : A → outcome E B) l :
  Forall (λ a, ∃ b, f a = Ok b ∧ P b) l → ∃ bs, each f l = Ok bs ∧ Forall P bs.
Proof.
  induction 1 as [|a l (b & Hb & Pb) _ (bs & Hbs & IH)]; [by exists []|]. exists (b :: bs). cbn [each]. rewrite Hb, bind_Ok, Hbs, bind_Ok.
  by split; [|constructor].
Qed.

Lemma group_value_enc {E} n s g :
  setting_enc n s → 1 ≤ g ≤ n → ∃ v, group_value (E:=E) s g = Ok v ∧ encodable v.
Proof.
  intros [Hl Hs] Hg. unfold group_value. destruct (lookup_lt_is_Some_2 (st_groups s) (Z.to_nat (g - 1))) as [v Hv].
  { unfold zlen in Hl. lia. }
  rewrite Hv. exists v. split; [done|]. by eapply Forall_lookup_1.
Qed.

Lemma commit_setting_enc {E} m n edit act s :
  enc_model m → setting_enc n s → 1 ≤ edit ≤ n →
  ∃ r, commit_setting (E:=E) m edit act s = Ok r ∧ setting_enc n r.1 ∧ Forall (λ p, encodable p.2) r.2.
Proof.
  intros Hm [Hl Hs] He. unfold commit_setting. destruct (se ← st_se s; read_attr m se Se) as [v|] eqn:E'; [|by eexists].
  apply bind_Some in E' as (se & _ & Hv). apply read_attr_enc in Hv; [|done].
  rewrite decide_True by (unfold zlen in Hl; lia). eexists. split; [done|]. split; simpl.
  - split; cbn [st_groups]; [unfold zlen in *; by rewrite length_insert|by apply Forall_insert].
  - case_decide; by repeat constructor.
Qed.

Lemma on_sgcb_write_enc {E} mgr m attr v now :
  group_enc mgr → enc_model m → encodable now →
  ∃ mgr' m', on_sgcb_write (E:=E) mgr m attr v now = Ok (mgr', m') ∧ group_enc mgr' ∧ enc_model m'.
Proof.
  intros [Hn Hs] Hm Hnow. unfold on_sgcb_write.
  assert (∀ m name w, enc_model m → encodable w → enc_model (set_sgcb (mg_domain mgr) m name w)) as Hset
    by (intros; by apply block_put_enc).
  assert (∀ k, encodable (VUnsigned k)) as Hu by (intros; by apply plain_encodable).
  case_decide.
  { case_decide as Hg; [by eexists _, _|].
    destruct (each_returns (E:=E) (λ p : ObjectReference * Value, encodable p.2)
      (λ s, v ← group_value s (u8 (as_i64 v)); Ok (st_sg s, v)) (sg_settings (mg_state mgr))) as (us & -> & Hus).
    { eapply Forall_impl; [exact Hs|]. intros s Hse.
      destruct (group_value_enc (E:=E) _ s (u8 (as_i64 v)) Hse) as (w & -> & Hw); [lia|]. by eexists. }
    rewrite bind_Ok. eexists _, _. split; [done|]. split; [by split|]. apply write_attrs_enc; [|done]. by repeat apply Hset. }
  case_decide.
  { case_decide as Hg; [|by eexists _, _; split; [done|]; split; [by split|apply Hset]].
    destruct (each_returns (E:=E) (Forall (λ p : ObjectReference * Value, encodable p.2))
      (λ s, match st_se s with Some se => v ← group_value s (u8 (as_i64 v)); Ok [(se, v)] | None => Ok [] end)
      (sg_settings (mg_state mgr))) as (us & -> & Hus).
    { eapply Forall_impl; [exact Hs|]. intros s Hse. destruct (st_se s); [|by eexists].
      destruct (group_value_enc (E:=E) _ s (u8 (as_i64 v)) Hse) as (w & -> & Hw); [lia|]. by eexists; split; [|repeat constructor]. }
    rewrite bind_Ok. eexists _, _. split; [done|]. split; [by split|]. apply write_attrs_enc; [by apply Hset|]. by apply Forall_concat. }
  case_decide; [|by eexists _, _]. case_decide as Hg; [by eexists _, _|].
  destruct (each_returns (E:=E) (λ r : Setting * list (ObjectReference * Value), setting_enc (mg_num_of_sg mgr) r.1 ∧ Forall (λ p, encodable p.2) r.2)
    (commit_setting m (sg_edit (mg_state mgr)) (sg_act (mg_state mgr))) (sg_settings (mg_state mgr))) as (us & -> & Hus).
  { eapply Forall_impl; [exact Hs|]. intros s Hse. eapply commit_setting_enc; [done|done|lia]. }
  rewrite bind_Ok. eexists _, _. split; [done|]. apply Forall_and in Hus as [Hu1 Hu2]. split.
  - split; [done|]. simpl. rewrite Forall_map. eapply Forall_impl; [exact Hu1|]. done.
  - apply Hset; [|by apply plain_encodable]. apply Hset; [|done]. apply write_attrs_enc; [done|].
    apply Forall_concat. rewrite Forall_map. eapply Forall_impl; [exact Hu2|]. done.
Qed.

(** ** Logs *)

Definition log_entry_enc (e : LogEntry) : Prop := Forall (λ p, encodable p.2) (le_vars e).

Definition logs_enc (st : LogState) : Prop := Forall (λ j, Forall log_entry_enc j.2) (lg_journals st).

Lemma foldl_keeps {A B} (P : A → Prop) (f : A → B → A) l a :
  P a → (∀ a b, b ∈ l → P a → P (f a b)) → P (foldl f a l).
Proof.
  revert a. induction l as [|b l IH]; intros a Ha Hf; [done|]. simpl. apply IH; [by apply Hf; [left|]|].
  intros a' b' Hb. apply Hf. by right.
Qed.

Lemma sync_enc st m j : enc_model m → enc_model (sync st m j).
Proof.
  intros Hm. unfold sync. destruct (bt_get _ j) as [entries|]; [|done]. destruct (head entries), (last entries); try done.
  apply foldl_keeps; [done|]. intros m' lcb _ Hm'. case_decide; [|done].
  repeat (apply block_put_enc; [|first [apply binary_time_encodable | by apply plain_encodable]]). done.
Qed.

Lemma bt_get_Forall {K V} `{Ordered K} (P : V → Prop) (m : BTreeMap K V) k v :
  Forall (λ e, P e.2) m → bt_get m k = Some v → P v.
Proof. induction 1 as [|[k' v'] m Hv _ IH]; [done|]. simpl. destruct (cmp k k'); [by intros [= <-]|done|done]. Qed.

Lemma bt_alter_Forall {K V} `{Ordered K} (P : V → Prop) f (m : BTreeMap K V) k :
  Forall (λ e, P e.2) m → (∀ v, P v → P (f v)) → Forall (λ e, P e.2) (bt_alter f k m).
Proof. intros Hm Hf. unfold bt_alter. rewrite Forall_map. eapply Forall_impl; [exact Hm|]. intros [k' v] Hv. unfold compose. simpl in *. destruct (cmp k k'); simpl; auto. Qed.

Lemma append_member_enc m lcb vars mb r :
  enc_model m → Forall (λ p, encodable p.2) vars → Forall (λ p, encodable p.2) (append_member m lcb vars mb r).
Proof.
  intros Hm Hv. unfold append_member. destruct (item_value m _ _) as [v|] eqn:E; [|done]. apply item_value_encodable in E; [|done].
  apply Forall_app_2; [done|]. constructor; [done|]. destruct (lb_reason_code lcb); [|constructor].
  constructor; [|constructor]. by apply to_bits_encodable.
Qed.

Lemma append_entry_enc entry_id capacity w j vars :
  enc_model (lw_model w) → logs_enc (lw_logs w) → Forall (λ p, encodable p.2) vars →
  let w' := append_entry entry_id capacity w j vars in enc_model (lw_model w') ∧ logs_enc (lw_logs w').
Proof.
  intros Hm Hl Hv. unfold append_entry. case_decide; [done|]. destruct (bt_get _ j) as [entries|] eqn:E; [|done].
  destruct (unix_parts _) as [secs nanos]. cbn [lw_model lw_logs]. split; [by apply sync_enc|].
  unfold logs_enc, set_journals. cbn [lg_journals]. apply (bt_alter_Forall (Forall log_entry_enc)); [done|]. intros _ _.
  apply Forall_drop, Forall_app_2; [|by repeat constructor]. exact (bt_get_Forall (Forall log_entry_enc) _ _ _ Hl E).
Qed.

Lemma changed_vars_enc display m changes lcb j vars :
  enc_model m → changed_vars display m changes lcb = Some (j, vars) → Forall (λ p, encodable p.2) vars.
Proof.
  intros Hm (j' & _ & H)%bind_Some. destruct (lcb_enabled m lcb); [|done]. apply bind_Some in H as (members & _ & H).
  cbv zeta in H. case_decide; [done|]. injection H as _ <-. apply foldl_keeps; [constructor|]. intros vs mb _ Hvs. case_decide; [|done].
  by apply append_member_enc.
Qed.

Lemma log_on_update_enc display entry_id capacity w changes :
  enc_model (lw_model w) → logs_enc (lw_logs w) →
  let w' := log_on_update display entry_id capacity w changes in enc_model (lw_model w') ∧ logs_enc (lw_logs w').
Proof.
  intros Hm Hl. unfold log_on_update. case_decide; [done|].
  assert (Forall (λ e : (list Z * list Z) * list (list Z * Value), Forall (λ p, encodable p.2) e.2)
    (omap (changed_vars display (lw_model w) changes) (bt_values (lg_lcbs (lw_logs w))))) as Hvs.
  { apply Forall_omap. intros lcb [j vars] E. by eapply changed_vars_enc. }
  apply (foldl_keeps (λ w, enc_model (lw_model w) ∧ logs_enc (lw_logs w))); [done|].
  intros w' e He [Hm' Hl']. rewrite Forall_forall in Hvs. apply append_entry_enc; [done|done|by apply Hvs].
Qed.

Lemma on_lcb_write_enc owned running st m key attr : logs_enc st → logs_enc (on_lcb_write owned running st m key attr).
Proof. intros Hl. unfold on_lcb_write. case_decide; [done|]. by destruct (bt_get _ _). Qed.

(** ** Controls *)

Lemma status_value_enc da v w : encodable v → status_value da v = Some w → encodable w.
Proof.
  intros Hv. unfold status_value.
  assert (∀ b : bool, (if b then Some v else None) = Some w → encodable w) as Hk by (intros []; [by intros [= <-]|done]).
  destruct v; try done; try apply Hk. destruct (_ || _); [|apply Hk]. intros [= <-].
  destruct b; (eexists; vm_compute; reflexivity).
Qed.

Lemma apply_control_enc m r v cs : enc_model m → encodable v → enc_model (apply_control m r v cs).1.
Proof.
  intros Hm Hv. unfold apply_control. destruct (attribute_mut m _ St) as [[a put]|] eqn:E; [|done].
  destruct (attribute_mut_enc _ _ _ _ _ Hm E) as [Ha Hput]. case_decide; [done|].
  destruct (status_value a v) as [w|] eqn:Es; [|done]. apply Hput, set_value_enc; [done|]. by eapply status_value_enc.
Qed.

(** ** Service tracking *)

Lemma set_tracked_enc cs r da v : enc_attr da → encodable v → enc_attr (set_tracked cs r da v).1.
Proof. intros Ha Hv. unfold set_tracked. destruct (decide _); [done|]. destruct (value_fits da v); [|done]. by apply set_value_enc. Qed.

Lemma enc_attr_children a l : enc_attr a → Forall enc_attr l → enc_attr (set_children a l).
Proof. intros Ha Hl. inversion Ha as [? _ Hv]; subst. by constructor. Qed.

Lemma attribute_fold_enc l n a : Forall enc_attr l → attribute_fold l n = Some a → enc_attr a.
Proof. intros Hl Ha. by eapply enc_find. Qed.

Lemma cb_object_enc m domain ld n fc name o : enc_model m → device m domain = Some ld → cb_object ld n fc name = Some o → enc_object o.
Proof.
  intros Hm Hd (ln & Hn & Ho)%bind_Some. apply (enc_find _ _ _ _ Hm) in Hd. apply (enc_find _ _ _ _ Hd) in Hn. by eapply enc_find.
Qed.

Lemma Value_index_wf v i w : value_wf v → Value_index v i = Some w → value_wf w.
Proof.
  unfold Value_index. intros Hv Hw. destruct v; try done; (apply value_wf_Forall in Hv); by eapply Forall_lookup_1.
Qed.

Section tracking.
Context (display : Value → list Z).

Lemma copy_tracked_enc dst : enc_attr dst → ∀ src r cs, enc_attr src → enc_attr (copy_tracked display dst src r cs).1.
Proof.
  induction dst as [dst IH] using DataAttribute_ind'. intros Hd src r cs Hs.
  pose proof Hd as Hd'. inversion Hd' as [? Hc Hv]; subst. destruct dst as [n fc fn k bt et cnt children w t].
  cbn [copy_tracked da_children] in *. destruct children as [|c0 children0].
  - destruct (da_value src) as [v|] eqn:Ev; [|done]. apply set_tracked_enc; [done|].
    destruct (_ || _); [by apply plain_encodable|exact (enc_attr_value _ _ Hs Ev)].
  - set (go := fix go l cs := match l with [] => ([], cs) | c :: l => _ end).
    assert (∀ l cs, Forall enc_attr l → Forall (λ c, enc_attr c → ∀ src r cs, enc_attr src → enc_attr (copy_tracked display c src r cs).1) l →
      Forall enc_attr (go l cs).1) as Hgo.
    { clear -Hs. induction l as [|c l IHl]; intros cs Hl Hi; [constructor|]. apply Forall_cons in Hl as [Hc Hl], Hi as [Hic Hi].
      cbn [go]. destruct (attribute_fold (da_children src) (da_name c)) as [sc|] eqn:E.
      - assert (enc_attr sc) as Hsc by (inversion Hs; subst; by eapply attribute_fold_enc).
        specialize (Hic Hc sc (ref_child r (da_name c)) cs Hsc).
        destruct (copy_tracked display c sc _ cs) as [c' cs']. specialize (IHl cs' Hl Hi). fold go. destruct (go l cs'). by constructor.
      - specialize (IHl cs Hl Hi). fold go. destruct (go l cs). by constructor. }
    specialize (Hgo (c0 :: children0) cs Hc IH). cbn [go] in Hgo.
    destruct (match attribute_fold _ _ with Some _ => _ | None => _ end) as [c' cs']. destruct (go children0 cs').
    by apply enc_attr_children.
Qed.

Lemma put_attribute_enc p o da put da' :
  enc_object o → find_mut p (do_attributes o) = Some (da, put) → enc_attr da ∧ (enc_attr da' → enc_object (set_attributes o (put da'))).
Proof.
  intros Ho Hf. inversion Ho as [? Ha Hs]; subst. pose proof (find_mut_Forall _ _ _ _ _ Hf Ha) as [Hda Hput].
  split; [done|]. intros Hda'. constructor; [by apply Hput|done].
Qed.

Lemma set_named_enc base name v s : enc_object s.1 → encodable v → enc_object (set_named base name v s).1.
Proof.
  destruct s as [o cs]. intros Ho Hv. unfold set_named. destruct (do_attribute_mut o (txt name)) as [[da put]|] eqn:E; [|done].
  unfold do_attribute_mut in E. apply bind_Some in E as ([da1 put1] & Hf & [= -> <-]).
  destruct (put_attribute_enc _ _ _ _ (set_tracked cs (ref_child base (txt name)) da v).1 Ho Hf) as [Hda Hput].
  pose proof (set_tracked_enc cs (ref_child base (txt name)) da v Hda Hv). destruct (set_tracked _ _ _ _). simpl in *. by apply Hput.
Qed.

Lemma copy_block_enc base src s : enc_object s.1 → enc_object src → enc_object (copy_block display base src s).1.
Proof.
  destruct s as [o cs]. intros Ho Hs. unfold copy_block. inversion Ho as [? Ha Hsub]; subst. inversion Hs as [? Hsa _]; subst.
  assert (Forall enc_attr (foldl (λ '(attrs, cs) da,
      if decide (da_name da ∈ COMMON_TRACKING) then (attrs ++ [da], cs)
      else match attribute_fold (do_attributes src) (da_name da) with
           | Some sa => let '(da, cs) := copy_tracked display da sa (ref_child base (da_name da)) cs in (attrs ++ [da], cs)
           | None => (attrs ++ [da], cs)
           end) ([], cs) (do_attributes o)).1) as H.
  { apply (foldl_keeps (λ x, Forall enc_attr x.1)); [constructor|]. intros [attrs cs'] da Hin Hat. rewrite Forall_forall in Ha.
    case_decide; [by apply Forall_app_2; [|constructor; [apply Ha|constructor]]|].
    destruct (attribute_fold _ _) as [sa|] eqn:E; [|by apply Forall_app_2; [|constructor; [apply Ha|constructor]]].
    apply attribute_fold_enc in E; [|done]. pose proof (copy_tracked_enc da (Ha _ Hin) sa (ref_child base (da_name da)) cs' E) as Hc.
    destruct (copy_tracked _ _ _ _ _). apply Forall_app_2; [done|constructor; [done|constructor]]. }
  destruct (foldl _ _ _) as [attrs cs']. by constructor.
Qed.

Lemma copy_requested_enc base name v s : enc_object s.1 → encodable v → enc_object (copy_requested display base name v s).1.
Proof.
  destruct s as [o cs]. intros Ho Hv. unfold copy_requested. destruct (find_mut _ _) as [[da put]|] eqn:E; [|done].
  case_decide; [done|].
  destruct (put_attribute_enc _ _ _ _ (copy_tracked display da (requested_attr name v) (ref_child base (da_name da)) cs).1 Ho E) as [Hda Hput].
  assert (enc_attr (requested_attr name v)) as Hr by (constructor; [constructor|by intros w [= <-]]).
  pose proof (copy_tracked_enc da Hda (requested_attr name v) (ref_child base (da_name da)) cs Hr).
  destruct (copy_tracked _ _ _ _ _). simpl in *. by apply Hput.
Qed.

Lemma set_member_enc r s p : enc_attr s.1 → encodable p.2 → enc_attr (set_member r s p).1.
Proof.
  destruct s as [a cs]. intros Ha Hv. unfold set_member. destruct (find_mut _ _) as [[da put]|] eqn:E; [|done].
  pose proof Ha as Ha'. inversion Ha' as [? Hc _]; subst. pose proof (find_mut_Forall _ _ _ _ _ E Hc) as [Hda Hput].
  pose proof (set_tracked_enc cs (ref_child r (txt p.1)) da p.2 Hda Hv). destruct (set_tracked _ _ _ _).
  apply enc_attr_children; [done|]. by apply Hput.
Qed.

Lemma set_origin_enc base c s : enc_object s.1 → enc_object (set_origin base c s).1.
Proof.
  destruct s as [o cs]. intros Ho. unfold set_origin. destruct (do_attribute_mut o _) as [[da put]|] eqn:E; [|done].
  unfold do_attribute_mut in E. apply bind_Some in E as ([da1 put1] & Hf & [= -> <-]).
  destruct (put_attribute_enc _ _ _ _ da Ho Hf) as [Hda _]. set (l := foldl _ _ _).
  assert (enc_attr l.1) as Hl.
  { apply (foldl_keeps (λ x, enc_attr x.1)); [done|]. intros x p Hp Hx. apply set_member_enc; [done|].
    repeat (apply elem_of_cons in Hp as [->|Hp]); [by apply plain_encodable..|]. by apply elem_of_nil in Hp. }
  destruct l as [a' cs']. destruct (put_attribute_enc _ _ _ _ a' Ho Hf) as [_ Hput]. by apply Hput.
Qed.

Lemma set_oper_enc base oper s : enc_object s.1 → (∀ v, oper = Some v → value_wf v) → enc_object (set_oper base oper s).1.
Proof.
  intros Ho Hv. unfold set_oper. destruct oper as [oper|]; [|done]. case_decide; [|done].
  apply (foldl_keeps (λ x, enc_object x.1)); [done|]. intros x [i name] _ Hx. destruct (Value_index oper i) as [v|] eqn:E; [|done].
  apply set_named_enc; [done|]. apply wf_encodable. eapply Value_index_wf; [|exact E]. by apply Hv.
Qed.

Definition ctl_enc (c : CtlTrack) : Prop := encodable (ct_ctl_val c) ∧ ∀ v, ct_oper c = Some v → value_wf v.

Lemma set_command_enc base c s : enc_object s.1 → ctl_enc c → enc_object (set_command base c s).1.
Proof.
  intros Ho [Hv Hop]. unfold set_command. apply set_named_enc; [|by apply plain_encodable]. apply set_oper_enc; [|done].
  apply set_named_enc; [|by apply plain_encodable]. apply set_origin_enc. by apply set_named_enc.
Qed.

Definition record_enc (rec : TrackRecord) : Prop :=
  (∀ o, tr_src rec = Some o → enc_object o) ∧ (∀ c, tr_ctl rec = Some c → ctl_enc c) ∧
  (∀ n v, tr_requested rec = Some (n, v) → encodable v).

Lemma track_object_enc base rec now s : enc_object s.1 → record_enc rec → encodable now → enc_object (track_object display base rec now s).1.
Proof.
  intros Ho (Hs & Hc & Hr) Hn. unfold track_object.
  do 4 (apply set_named_enc; [|first [done | by apply plain_encodable]]).
  assert (enc_object (match tr_src rec with Some src => copy_block display base src s | None => s end).1) as H1.
  { destruct (tr_src rec); [|done]. apply copy_block_enc; auto. }
  assert (enc_object (match tr_requested rec with
    | Some (name, v) => copy_requested display base name v (match tr_src rec with Some src => copy_block display base src s | None => s end)
    | None => match tr_src rec with Some src => copy_block display base src s | None => s end end).1) as H2.
  { destruct (tr_requested rec) as [[n v]|]; [|done]. apply copy_requested_enc; eauto. }
  destruct (tr_ctl rec); [|done]. apply set_command_enc; auto.
Qed.

Lemma track_enc t m cs rec now : enc_model m → record_enc rec → encodable now → enc_model (track display t m cs rec now).1.
Proof.
  intros Hm Hr Hn. unfold track. destruct (Tracker_lookup _ _ _) as [o|]; [|done].
  destruct (tracking_object m o) as [[d put]|] eqn:E; [|done]. unfold tracking_object in E.
  apply bind_Some in E as ([ld pld] & Hd & E). apply bind_Some in E as ([ln pln] & Hln & E).
  destruct (node_mut_enc _ _ _ _ _ _ _ Hm Hd Hln) as [Henc Hput].
  apply bind_Some in E as ([d1 po'] & Ho & [= -> <-]). unfold object_mut in Ho. apply bind_Some in Ho as ([d2 po] & Ho & [= -> <-]).
  pose proof (find_mut_Forall _ _ _ _ _ Ho Henc) as [Hobj Hpo].
  pose proof (track_object_enc (TrkObj_reference o) rec now (d, cs) Hobj Hr Hn). destruct (track_object _ _ _ _ _) as [d' cs'].
  simpl in *. apply Hput. by apply Hpo.
Qed.

Lemma track_cb_write_enc t m cs domain item v res now :
  enc_model m → encodable v → encodable now → enc_model (track_cb_write display t m cs domain item v res now).1.
Proof.
  intros Hm Hv Hn. unfold track_cb_write. destruct (Tracker_is_empty t); [done|]. destruct (cb_service _) as [[kind svc]|]; [|done].
  destruct (Tracker_lookup _ _ _); [|done]. destruct (ld ← device m domain; _) as [src|] eqn:E; [|done].
  apply track_enc; [done| |done]. split; [|split]; simpl.
  - intros o [= <-]. apply bind_Some in E as (ld & Hd & Ho). by eapply cb_object_enc.
  - done.
  - intros n w H. case_decide; [|done]. by injection H as _ <-.
Qed.

Lemma track_control_enc t m cs r svc err ctx oper cause now :
  enc_model m → (∀ c, ctx = Some c → encodable (ctx_value c)) → (∀ v, oper = Some v → value_wf v) → encodable now →
  enc_model (track_control display t m cs r svc err ctx oper cause now).1.
Proof.
  intros Hm Hc Ho Hn. unfold track_control. destruct (Tracker_is_empty t); [done|]. destruct (control_tracking_kind _ _ _); [|done].
  apply track_enc; [done| |done]. split; [|split]; simpl; [done| |done].
  intros c (ctx' & -> & ->)%fmap_Some. split; simpl; [by apply Hc|done].
Qed.
End tracking.
