(* ===== verification/ServerState.v ===== *)
(** The server (src/src/server/server.rs and handler.rs): the state its associations
    share, the services of the request handler as they change it, the reports and log
    entries a change leads to, and the updates of the process side. *)

From stdpp Require Import gmap.
From S2P Require Import Prelude Ber BerDecoder BerPrim BerFields TimeUtil Utf8 Text Errors MmsValue MmsCodec TypeSpec.
From S2P Require Import ObjRef Quality BTree Nodes Blocks Access Tx Handler BlockStore Selections SettingGroup InfoReport Services Wire.
From S2P Require Import NameList Control Rcb ControlBlocks Svcb ReportPdu ReadService Journal Tracking DataSets.
From S2P Require Import FileStore FileService SetFile Reporting.
Local Open Scope string_scope.
Local Open Scope list_scope.
Local Open Scope Z_scope.

(** ** State *)

(** What the server meets and what it gives out: readings of the system clock and of the
    monotonic clock to come; whether the queue of an association takes the PDUs to come;
    the events of report control blocks by key, the effects of controls and the
    sampled-value events the application heard, all in order. *)
Record Outside := mkOutside {
  ou_clock : list Z;
  ou_instants : list Z;
  ou_sends : list bool;
  ou_reports : list (list Z * Event);
  ou_effects : list (ObjectReference * Effect);
  ou_heard : list SvControlEvent;
}.

(** [Inner]. The registry of report control blocks is a hash map: a list in whatever
    order it iterates. An association is its peer and its maximum PDU size. *)
Record Inner (F : Type) := mkInner {
  in_model : Model;
  in_rcbs : list (list Z * (RcbState * RcbRuntime));
  in_counter : Z;
  in_logs : LogState;
  in_svcbs : SvcbRegistry;
  in_groups : BTreeMap (list Z) SettingGroupManager;
  in_selections : Selections;
  in_conns : gmap ConnId (option (IpAddr * Z) * Z);
  in_sv_queue : list SvControlEvent;
  in_status : Z;
  in_quality : Z;
  in_files : FileWorld F;
  in_outside : Outside;
}.
Arguments mkInner {F}.
Arguments in_model {F}.
Arguments in_rcbs {F}.
Arguments in_counter {F}.
Arguments in_logs {F}.
Arguments in_svcbs {F}.
Arguments in_groups {F}.
Arguments in_selections {F}.
Arguments in_conns {F}.
Arguments in_sv_queue {F}.
Arguments in_status {F}.
Arguments in_quality {F}.
Arguments in_files {F}.
Arguments in_outside {F}.

Section setters.
Context {F : Type}.
Implicit Types s : Inner F.

Definition put_model s (m : Model) : Inner F :=
  mkInner m (in_rcbs s) (in_counter s) (in_logs s) (in_svcbs s) (in_groups s) (in_selections s) (in_conns s) (in_sv_queue s)
    (in_status s) (in_quality s) (in_files s) (in_outside s).
Definition put_rcbs s l : Inner F :=
  mkInner (in_model s) l (in_counter s) (in_logs s) (in_svcbs s) (in_groups s) (in_selections s) (in_conns s) (in_sv_queue s)
    (in_status s) (in_quality s) (in_files s) (in_outside s).
Definition put_engine s (m : Model) (counter : Z) (o : Outside) : Inner F :=
  mkInner m (in_rcbs s) counter (in_logs s) (in_svcbs s) (in_groups s) (in_selections s) (in_conns s) (in_sv_queue s)
    (in_status s) (in_quality s) (in_files s) o.
Definition put_logs s (l : LogState) : Inner F :=
  mkInner (in_model s) (in_rcbs s) (in_counter s) l (in_svcbs s) (in_groups s) (in_selections s) (in_conns s) (in_sv_queue s)
    (in_status s) (in_quality s) (in_files s) (in_outside s).
Definition put_svcbs s (r : SvcbRegistry) : Inner F :=
  mkInner (in_model s) (in_rcbs s) (in_counter s) (in_logs s) r (in_groups s) (in_selections s) (in_conns s) (in_sv_queue s)
    (in_status s) (in_quality s) (in_files s) (in_outside s).
Definition put_groups s g : Inner F :=
  mkInner (in_model s) (in_rcbs s) (in_counter s) (in_logs s) (in_svcbs s) g (in_selections s) (in_conns s) (in_sv_queue s)
    (in_status s) (in_quality s) (in_files s) (in_outside s).
Definition put_selections s (l : Selections) : Inner F :=
  mkInner (in_model s) (in_rcbs s) (in_counter s) (in_logs s) (in_svcbs s) (in_groups s) l (in_conns s) (in_sv_queue s)
    (in_status s) (in_quality s) (in_files s) (in_outside s).
Definition put_conns s c : Inner F :=
  mkInner (in_model s) (in_rcbs s) (in_counter s) (in_logs s) (in_svcbs s) (in_groups s) (in_selections s) c (in_sv_queue s)
    (in_status s) (in_quality s) (in_files s) (in_outside s).
Definition put_sv_queue s q : Inner F :=
  mkInner (in_model s) (in_rcbs s) (in_counter s) (in_logs s) (in_svcbs s) (in_groups s) (in_selections s) (in_conns s) q
    (in_status s) (in_quality s) (in_files s) (in_outside s).
Definition put_store s (f : FileWorld F) : Inner F :=
  mkInner (in_model s) (in_rcbs s) (in_counter s) (in_logs s) (in_svcbs s) (in_groups s) (in_selections s) (in_conns s) (in_sv_queue s)
    (in_status s) (in_quality s) f (in_outside s).
Definition put_outside s (o : Outside) : Inner F :=
  mkInner (in_model s) (in_rcbs s) (in_counter s) (in_logs s) (in_svcbs s) (in_groups s) (in_selections s) (in_conns s) (in_sv_queue s)
    (in_status s) (in_quality s) (in_files s) o.

(** [SystemTime::now()] and [Instant::now()]. *)
Definition read_clock s : Z * Inner F :=
  let o := in_outside s in
  (hd 0 (ou_clock o),
   put_outside s (mkOutside (tl (ou_clock o)) (ou_instants o) (ou_sends o) (ou_reports o) (ou_effects o) (ou_heard o))).
Definition read_instant s : Z * Inner F :=
  let o := in_outside s in
  (hd 0 (ou_instants o),
   put_outside s (mkOutside (ou_clock o) (tl (ou_instants o)) (ou_sends o) (ou_reports o) (ou_effects o) (ou_heard o))).

(** [clock.now()]. *)
Definition clock_now s : Value * Inner F := let '(t, s) := read_clock s in (Clock_now (in_quality s) t, s).

Definition note_effects s (es : list (ObjectReference * Effect)) : Inner F :=
  let o := in_outside s in
  put_outside s (mkOutside (ou_clock o) (ou_instants o) (ou_sends o) (ou_reports o) (ou_effects o ++ es) (ou_heard o)).

(** ** The report engine over all its blocks *)

(** What an operation on a block sees, and what it leaves of it. *)
Definition block_world s (rt : RcbRuntime) : World :=
  mkW (in_model s) rt (in_counter s) (ou_clock (in_outside s)) (ou_sends (in_outside s)) (snd <$> in_conns s) [].

Definition absorb s (key : list Z) (w : World) : Inner F :=
  let o := in_outside s in
  put_engine s (w_model w) (w_counter w)
    (mkOutside (w_clock w) (ou_instants o) (w_sends w) (ou_reports o ++ map (pair key) (w_log w)) (ou_effects o) (ou_heard o)).

(** [for rs in self.registry.values() { .. }]. *)
Fixpoint each_block (op : RcbState → World → outcome Empty_set World) (l : list (list Z * (RcbState * RcbRuntime))) s
    : outcome Empty_set (list (list Z * (RcbState * RcbRuntime)) * Inner F) :=
  match l with
  | [] => Ok ([], s)
  | (key, (rs, rt)) :: l =>
      w ← op rs (block_world s rt);
      '(l, s) ← each_block op l (absorb s key w);
      Ok ((key, (rs, w_st w)) :: l, s)
  end.

Definition all_blocks (op : RcbState → World → outcome Empty_set World) s : outcome Empty_set (Inner F) :=
  '(l, s) ← each_block op (in_rcbs s) s; Ok (put_rcbs s l).

(** [self.registry.get(&key)] and an operation on what it finds. *)
Definition at_block (key : list Z) (op : RcbState → World → outcome Empty_set World) s : outcome Empty_set (Inner F) :=
  match bt_get (in_rcbs s) key with
  | None => Ok s
  | Some (rs, rt) =>
      w ← op rs (block_world s rt);
      Ok (put_rcbs (absorb s key w) (bt_alter (λ b, (b.1, w_st w)) key (in_rcbs s)))
  end.
End setters.

(** ** The handler *)

Section server.
Context {F : Type} `{FileSystem F}.
(** [Display]; the start time in the EntryIDs; the capacity of the logs; whether there is
    a runtime for timers; the writable constraints; the application's write hook and
    control handlers, which here decide and do nothing else; the tracking objects; the
    identity; whether clients may delete log entries. *)
Context (display : Value → list Z) (entry_seed capacity : Z) (running : bool) (writable : gset Fc)
  (hook : option (DataAttribute → Value → option DataAccessError)) (controls : gmap ObjectReference (ControlCtx → AddCause * bool))
  (tracker : Tracker) (identity : ServerIdentity) (deletable_logs : bool).
Implicit Types s : Inner F.

(** *** Changes *)

Definition log_step s (op : LogWorld → LogWorld) : Inner F :=
  let o := in_outside s in
  let w := op (mkLogWorld (in_model s) (in_logs s) (in_counter s) (ou_clock o)) in
  put_logs (put_engine s (lw_model w) (lw_counter w)
    (mkOutside (lw_clock w) (ou_instants o) (ou_sends o) (ou_reports o) (ou_effects o) (ou_heard o))) (lw_logs w).

Definition report_changes s (changes : ChangeSet) : outcome Empty_set (Inner F) :=
  if decide (changes = ∅) then Ok s
  else
    s ← all_blocks (λ rs w, on_update display rs entry_seed true running w changes) s;
    Ok (log_step s (λ w, log_on_update display (next_entry_id entry_seed) capacity w changes)).

Definition queue_sv s (evs : list SvControlEvent) : Inner F := put_sv_queue s (in_sv_queue s ++ evs).

(** The application's handler, if there is one, hears what is queued. *)
Definition flush_sv s : Inner F :=
  let o := in_outside s in
  put_sv_queue
    (put_outside s (mkOutside (ou_clock o) (ou_instants o) (ou_sends o) (ou_reports o) (ou_effects o) (ou_heard o ++ in_sv_queue s))) [].

(** *** Writes *)

Definition editing s (domain : list Z) : bool :=
  match bt_get (in_groups s) domain with Some mgr => bool_decide (1 ≤ sg_edit (mg_state mgr)) | None => false end.

(** What a write is to. *)
Inductive Target :=
| TRcb (key attr : list Z)
| TSgcb (mgr : SettingGroupManager) (attr : list Z)
| TLcb (key attr : list Z)
| TSvcb (key attr : list Z)
| TData.

Definition write_target s (domain item : list Z) : Target :=
  match rcb_key domain item with
  | Some (key, attr) => TRcb key attr
  | None =>
      match (attr ← is_sgcb_write item; mgr ← bt_get (in_groups s) domain; Some (mgr, attr)) with
      | Some (mgr, attr) => TSgcb mgr attr
      | None =>
          match lcb_key (in_logs s) domain item with
          | Some (key, attr) => TLcb key attr
          | None => match svcb_key (in_svcbs s) domain item with Some (key, attr) => TSvcb key attr | None => TData end
          end
      end
  end.

Definition is_control_block (t : Target) : bool := match t with TData => false | _ => true end.

Definition target_check s (t : Target) (v : Value) (conn : ConnId) (ip : option IpAddr) : option DataAccessError :=
  match t with
  | TRcb key attr =>
      match bt_get (in_rcbs s) key with
      | Some (rs, rt) => check_rcb_write display rs (block_world s rt) attr v conn ip
      | None => Some ObjectNonExistent
      end
  | TSgcb mgr attr => check_write mgr attr v
  | TLcb key attr => check_lcb_write display (in_logs s) (in_model s) key attr v
  | TSvcb key attr => svcb_check_write (in_svcbs s) (in_model s) key attr v conn
  | TData => None
  end.

(** The effect of a write that was stored: [before] is the state it was checked in. *)
Definition target_apply (before : Inner F) s (t : Target) (domain : list Z) (v : Value) (conn : ConnId) (ip : option IpAddr)
    : outcome Empty_set (Inner F * list SvControlEvent) :=
  match t with
  | TRcb key attr =>
      s ← at_block key (λ rs w, on_rcb_write display rs entry_seed true running w attr v conn ip) s; Ok (s, [])
  | TSgcb mgr attr =>
      let '(now, s) := if decide (attr = txt "ActSG") then clock_now s else (VNone, s) in
      '(mgr, m) ← on_sgcb_write mgr (in_model s) attr v now;
      Ok (put_groups (put_model s m) (bt_alter (λ _, mgr) domain (in_groups s)), [])
  | TLcb key attr => Ok (put_logs s (on_lcb_write true running (in_logs s) (in_model s) key attr), [])
  | TSvcb key attr =>
      let old := svcb_before (in_svcbs before) (in_model before) key attr in
      let '(r, ev) := svcb_on_write (in_svcbs s) (in_model s) key attr old conn in
      Ok (put_svcbs s r, option_list ev)
  | TData => Ok (s, [])
  end.

Definition is_gocb (item : list Z) : bool := bool_decide (split DOLLAR item !! 1%nat = Some (txt "GO")).

(** The record of a write of a control block. *)
Definition track_write s (changes : ChangeSet) (domain item : list Z) (v : Value) (res : option DataAccessError)
    : Inner F * ChangeSet :=
  let '(now, s) := clock_now s in
  let '(m, changes) :=
    track_cb_write display tracker (in_model s) changes domain item v (match res with None => inl () | Some e => inr e end) now in
  (put_model s m, changes).

Definition write_one s (changes : ChangeSet) (conn : ConnId) (ip : option IpAddr) (domain item : list Z) (v : Value)
    : outcome Empty_set (option DataAccessError * Inner F * ChangeSet * list SvControlEvent) :=
  let t := write_target s domain item in
  '(res, s', changes, evs) ←
    match target_check s t v conn ip with
    | Some e => Ok (Some e, s, changes, [])
    | None =>
        match store writable (editing s) hook (in_model s) changes domain item v (is_control_block t) with
        | inr e => Ok (Some e, s, changes, [])
        | inl (m, changes) =>
            '(s', evs) ← target_apply s (put_model s m) t domain v conn ip;
            Ok (None, s', changes, evs)
        end
    end;
  if is_control_block t || is_gocb item then
    let '(s', changes) := track_write s' changes domain item v res in Ok (res, s', changes, evs)
  else Ok (res, s', changes, evs).

(** *** Controls *)

(** What a control write works on. *)
Definition control_server s (changes : ChangeSet) : Server :=
  mkServer (in_model s) (in_selections s) (fst <$> in_conns s) changes [].

Definition control_handlers : gmap ObjectReference Control.Handler := (λ h ctx srv, (h ctx, srv)) <$> controls.

(** [Handler::track_control]. *)
Definition track_effect (reference : ObjectReference) (ctx : ControlCtx) (v : Value) (acc : Inner F * ChangeSet) (e : Effect)
    : Inner F * ChangeSet :=
  let '(s, changes) := acc in
  match e with
  | Tracked svc err cause =>
      if Tracker_is_empty tracker then (s, changes)
      else
        let '(now, s) := clock_now s in
        let '(m, changes) := track_control display tracker (in_model s) changes reference svc err (Some ctx) (Some v) cause now in
        (put_model s m, changes)
  | _ => (s, changes)
  end.

(** The reference a control write tracks its services under. *)
Definition control_reference (domain item : list Z) : ObjectReference :=
  match split_control item with
  | Some (base, _) => match control_ref (E:=Empty_set) domain base with Ok r => r | _ => [] end
  | None => []
  end.

Definition control_one s (changes : ChangeSet) (conn : ConnId) (domain item : list Z) (v : Value)
    : outcome DataAccessError () * (Inner F * ChangeSet) :=
  let '(now, s) := read_instant s in
  let '(r, srv) := control_write control_handlers conn now (control_server s changes) domain item v in
  let reference := control_reference domain item in
  let ctx := decode_oper reference v conn (mjoin ((fst <$> in_conns s) !! conn)) in
  let s := note_effects (put_selections (put_model s (sv_model srv)) (sv_selections srv)) (map (pair reference) (sv_effects srv)) in
  (r, foldl (track_effect reference ctx v) (s, sv_changes srv) (sv_effects srv)).

(** *** The write service *)

Definition write_args (content : list Z) : outcome MmsError (list (option (list Z * list Z)) * list Value) :=
  '(list_content, dec) ← d_expect (Decoder_new content) (context_constructed 0);
  '(data_content, _) ← d_expect dec (context_constructed 0);
  targets ← variable_list list_content;
  values ← every decode_data data_content;
  Ok (targets, values).

Definition written (res : option DataAccessError) : Element :=
  match res with None => prim (context_primitive 1) [] | Some code => access_failure code end.

Definition is_control (item : list Z) : bool := bool_decide (is_Some (split_control item)).

Definition no_error {A} (m : outcome Empty_set A) : outcome MmsError A := map_err (λ e : Empty_set, match e with end) m.

(** What the request has changed so far: the server, the change set of the handler and
    the sampled-value events. *)
Definition write_item s (changes : ChangeSet) (conn : ConnId) (ip : option IpAddr) (domain item : list Z) (v : Value)
    : outcome MmsError (option DataAccessError * Inner F * ChangeSet * list SvControlEvent) :=
  if is_control item then
    let '(r, (s, changes)) := control_one s changes conn domain item v in
    match r with
    | Ok _ => Ok (None, s, changes, [])
    | Err e => Ok (Some e, s, changes, [])
    | Panic => Panic
    | NoFuel => NoFuel
    end
  else no_error (write_one s changes conn ip domain item v).

(** The values in order; a value beyond the variables, or whose variable cannot be read,
    fails. *)
Fixpoint write_each (conn : ConnId) (ip : option IpAddr) (values : list Value) (targets : list (option (list Z * list Z)))
    s (changes : ChangeSet) : outcome MmsError (list Element * Inner F * ChangeSet * list SvControlEvent) :=
  match values with
  | [] => Ok ([], s, changes, [])
  | v :: values =>
      '(res, s, changes, evs) ←
        match mjoin (head targets) with
        | Some (domain, item) => write_item s changes conn ip domain item v
        | None => Ok (Some ObjectNonExistent, s, changes, [])
        end;
      '(els, s, changes, evs') ← write_each conn ip values (tail targets) s changes;
      Ok (written res :: els, s, changes, evs ++ evs')
  end.

Definition write_handler (conn : ConnId) (ip : option IpAddr) s (content : list Z) : outcome MmsError (Element * Inner F) :=
  '(targets, values) ← write_args content;
  '(results, s, changes, evs) ← write_each conn ip values targets s ∅;
  s ← no_error (report_changes s changes);
  Ok (cons_elem (context_constructed SVC_WRITE) results, flush_sv (queue_sv s evs)).

(** *** The read service *)

Definition track_select (acc : Inner F * ChangeSet) (p : PendingSelect) : Inner F * ChangeSet :=
  let '(s, changes) := acc in
  let '(now, s) := clock_now s in
  let '(m, changes) :=
    track_control display tracker (in_model s) changes (ps_reference p) ServiceType.SELECT (ps_err p) None None AC.NONE now in
  (put_model s m, changes).

Definition flush_read_tracking s (pending : list PendingSelect) : outcome Empty_set (Inner F) :=
  if decide (length pending = 0%nat) then Ok s
  else let '(s, changes) := foldl track_select (s, ∅) pending in report_changes s changes.

Definition read_service (conn : ConnId) s (content : list Z) : outcome MmsError (Element * Inner F) :=
  let '(now, s) := read_instant s in
  targets ← read_targets (in_model s) content;
  '(results, srv, pending) ← read_each conn now (control_server s ∅) [] targets;
  s ← no_error (flush_read_tracking (put_selections s (sv_selections srv)) pending);
  Ok (cons_elem (context_constructed SVC_READ) [cons_elem (context_constructed 1) results], s).

(** *** Dispatch *)

(** [Handler::peer_ip]. *)
Definition peer_ip (peer : option (IpAddr * Z)) : option IpAddr :=
  match peer with
  | None => None
  | Some (V6 v6, _) => Some (match to_ipv4_mapped v6 with Some v4 => V4 v4 | None => V6 v6 end)
  | Some (ip, _) => Some ip
  end.

(** [Inner::status] and [encode_status_response] without details. *)
Definition server_status s : Element :=
  cons_elem (context_constructed SVC_STATUS)
    [int_elem (context_primitive 0) (Z.shiftr (in_status s) 8); int_elem (context_primitive 1) (Z.land (in_status s) 0xff)].

(** [Server::set_status]. *)
Definition set_status s (logical physical : Z) : Inner F :=
  mkInner (in_model s) (in_rcbs s) (in_counter s) (in_logs s) (in_svcbs s) (in_groups s) (in_selections s) (in_conns s) (in_sv_queue s)
    (Z.lor (u32 (Z.shiftl (Z.land (u32 logical) 0xffffff) 8)) (Z.land (u32 physical) 0xff)) (in_quality s) (in_files s) (in_outside s).

(** A service that answers without changing the server, and one that does once it is
    through; [Err] is raised before anything changes. *)
Definition asks s (m : outcome MmsError Element) : outcome MmsError Element * Inner F := (m, s).
Definition makes s (m : outcome MmsError (Element * Inner F)) : outcome MmsError Element * Inner F :=
  match m with
  | Ok (e, s) => (Ok e, s)
  | Err e => (Err e, s)
  | Panic => (Panic, s)
  | NoFuel => (NoFuel, s)
  end.

(** How the server calls its client, for SetFile; [fuel] bounds the chunks. *)
Context (call : Element → Call (Inner F) (list Z)) (fuel : nat).

Definition handle (conn : ConnId) (peer : option (IpAddr * Z)) (max_pdu : Z) (service : Z) (content : list Z) : Call (Inner F) Element := λ s,
  if decide (service = SVC_IDENTIFY) then asks s (Ok (identity_response identity))
  else if decide (service = SVC_GET_NAME_LIST) then
    asks s (get_name_list_handler (log_names (in_logs s)) (in_model s) content max_pdu)
  else if decide (service = SVC_READ) then makes s (read_service conn s content)
  else if decide (service = SVC_WRITE) then makes s (write_handler conn (peer_ip peer) s content)
  else if decide (service = SVC_GET_VARIABLE_ACCESS) then asks s (get_variable_access_handler (in_model s) content)
  else if decide (service = SVC_GET_NAMED_VAR_LIST_ATTR) then asks s (get_nvl_attrs (in_model s) content)
  else if decide (service = SVC_DEFINE_NAMED_VAR_LIST) then
    let '(r, m) := define_nvl (in_model s) content in (r, put_model s m)
  else if decide (service = SVC_DELETE_NAMED_VAR_LIST) then
    let '(r, m) := delete_nvl display (map (λ b, b.2.1) (in_rcbs s)) (in_logs s) (in_model s) content in (r, put_model s m)
  else if decide (service = SVC_STATUS) then asks s (Ok (server_status s))
  else if decide (service = SVC_READ_JOURNAL) then asks s (read_journal_handler (in_logs s) content max_pdu)
  else if decide (service = SVC_REPORT_JOURNAL_STATUS) then asks s (report_journal_status (in_logs s) deletable_logs content)
  else if decide (service = SVC_INITIALIZE_JOURNAL) then
    let '(r, (l, m)) := initialize_journal deletable_logs (in_logs s) (in_model s) content in (r, put_logs (put_model s m) l)
  else if decide (service = SVC_FILE_DELETE) then
    let '(r, f) := file_delete_service (in_files s) content in (r, put_store s f)
  else if decide (service = SVC_FILE_RENAME) then
    let '(r, f) := file_rename_service (in_files s) content in (r, put_store s f)
  else if decide (service = SVC_OBTAIN_FILE) then obtain_file_service call in_files put_store fuel content s
  else if decide (service ∈ [SVC_FILE_OPEN; SVC_FILE_READ; SVC_FILE_CLOSE; SVC_FILE_DIRECTORY]) then
    let '(r, f) := file_service (in_files s) service content max_pdu in (r, put_store s f)
  else asks s (Err unrecognized_service).

(** [Server::update]: the closure works on a transaction over the model. *)
Definition update {R} s (f : Tx → R * Tx) : outcome Empty_set (R * Inner F) :=
  let '(out, tx) := f (with_clock (in_model s) (in_quality s)) in
  s ← report_changes (put_model s (tx_model tx)) (tx_changed tx);
  Ok (out, s).

(** [Server::read] and [Server::read_item]. *)
Definition server_read s (reference : ObjectReference) (fc : Fc) : option Value :=
  a ← attribute (in_model s) reference fc; Some (default (VBoolean false) (da_value_opt a)).

Definition read_item s (domain item : list Z) : option Value :=
  ld ← device (in_model s) domain; ln ← node ld (hd [] (split DOLLAR item)); resolve_read ln item.
End server.
