(* ===== verification/RequestSafe.v ===== *)
(** No octets of a request panic the parsers of the server's services
    (src/src/server/handler.rs, journal.rs, services_ext.rs, src/src/mms/client_ext.rs):
    each returns what it read, or an error for the client. *)

From stdpp Require Import gmap.
From S2P Require Import Prelude Ber BerDecoder BerPrim BerFields TimeUtil Utf8 Text Errors MmsValue MmsCodec TypeSpec.
From S2P Require Import ObjRef Quality BTree Nodes Blocks Access Tx Handler Selections InfoReport Services Wire NameList Control Rcb ControlBlocks.
From S2P Require Import MmsPdu GooseMessage ReportPdu ReadService Journal DataSets FileStore FileService SetFile ServerState.
Local Open Scope list_scope.
Local Open Scope Z_scope.

(** ** Steps *)

Lemma reading_d_expect d t : dec_wf d → BerDecoder.reading octets (d_expect d t).
Proof. intros Hd. by apply reading_map_err, reading_expect. Qed.

Lemma reading_d_optional d t : dec_wf d → BerDecoder.reading (λ o, octets (default [] o)) (d_optional d t).
Proof. intros Hd. by apply reading_map_err, reading_optional. Qed.

Lemma returns_True {E A} (P : A → Prop) (m : outcome E A) : returns P m → returns (λ _, True) m.
Proof. by destruct m. Qed.

Lemma d_expect_advances d t : dec_wf d → advances 1 d (d_expect d t).
Proof.
  intros Hd. unfold d_expect, expect. pose proof (read_tlv_advances d Hd) as Ha. destruct (read_tlv d) as [[[t' c] d']|?| |]; try done.
  cbn [mbind outcome_bind]. case_decide; [done|]. simpl in *. destruct Ha as [-> ?]. split; [done|lia].
Qed.

Lemma every_returns {A} (P : A → Prop) (read : Decoder → outcome MmsError (A * Decoder)) content :
  octets content → (∀ d, dec_wf d → advances 1 d (read d)) → (∀ d, dec_wf d → BerDecoder.reading P (read d)) →
  returns (Forall P) (every read content).
Proof.
  intros Ho Hadv Hr. apply returns_intro.
  - apply decode_children_settled; [done|by apply Decoder_new_wf|]. simpl. unfold zlen. lia.
  - intros l. apply decode_children_Forall; [|by apply Decoder_new_wf]. intros d a d' Hd E. specialize (Hr d Hd). rewrite E in Hr.
    by destruct Hr.
Qed.

Lemma every_expecting_returns {A} (P : A → Prop) t (f : list Z → outcome MmsError A) content :
  octets content → (∀ c, octets c → returns P (f c)) → returns (Forall P) (every (expecting t f) content).
Proof.
  intros Ho Hf. apply every_returns; [done|..]; intros d Hd; unfold expecting.
  - pose proof (d_expect_advances d t Hd) as Ha. pose proof (reading_d_expect d t Hd) as Hr.
    destruct (d_expect d t) as [[c d']|?| |]; try done. cbn [mbind outcome_bind]. destruct Hr as [Hc _]. specialize (Hf c Hc).
    by destruct (f c).
  - eapply reading_bind; [by apply reading_d_expect|]. intros c d' Hc Hd'. eapply returns_bind; [by apply Hf|]. by intros a Ha.
Qed.

(** Takes the next step of a parser, whose result is octets or a decoder. *)
Ltac d_step :=
  first
    [ eapply reading_bind; [apply reading_d_expect; first [done | by apply Decoder_new_wf]|]
    | eapply reading_bind; [apply reading_d_optional; first [done | by apply Decoder_new_wf]|]
    | eapply reading_bind; [apply reading_map_err, reading_read_tlv; first [done | by apply Decoder_new_wf]|] ].

(** ** Names *)

Lemma reading_object_name d : dec_wf d → BerDecoder.reading (λ _, True) (parse_object_name_elem d).
Proof.
  intros Hd. unfold parse_object_name_elem. d_step. intros [tag c] d' Hc Hd'. cbv beta iota. simpl in Hc.
  case_decide; [|by case_decide]. d_step. intros x dd _ Hdd. d_step. done.
Qed.

Lemma server_object_name_returns content : octets content → returns (λ _, True) (server_object_name content).
Proof. intros Ho. unfold server_object_name. eapply reading_bind; [by apply reading_object_name, Decoder_new_wf|]. done. Qed.

Lemma parse_var_spec_returns entry : octets entry → returns (λ _, True) (parse_var_spec entry).
Proof. intros Ho. unfold parse_var_spec. d_step. intros c d Hc _. by apply server_object_name_returns. Qed.

Lemma variable_list_returns content : octets content → returns (λ _, True) (variable_list content).
Proof.
  intros Ho. eapply returns_True, every_expecting_returns; [done|]. intros c Hc. apply ok_returns. by apply parse_var_spec_returns.
Qed.

(** ** Reads, writes and name lists *)

Lemma read_targets_returns m content : octets content → returns (λ _, True) (read_targets m content).
Proof.
  intros Ho. unfold read_targets. d_step. intros o d _ Hd. d_step. intros c d' Hc Hd'. d_step. intros l vd Hl Hvd.
  destruct l as [l|]; [by apply variable_list_returns|]. d_step. intros n vd' Hn _. destruct n as [n|]; [|done].
  eapply returns_bind; [by apply server_object_name_returns|]. by intros [dom l] _.
Qed.

Lemma write_args_returns content : octets content → returns (λ a, Forall value_wf a.2) (write_args content).
Proof.
  intros Ho. unfold write_args. d_step. intros c d Hc Hd. d_step. intros c' d' Hc' _.
  eapply returns_bind; [by apply variable_list_returns|]. intros targets _.
  eapply returns_bind; [|intros values Hv; exact Hv]. apply every_returns; [done|..]; intros d0 Hd0.
  - eapply advances_weaken; [|by apply decode_data_at_advances]. lia.
  - eapply returns_weaken; [by apply reading_decode_data|]. by intros [v d1] [[? ?] ?].
Qed.

Lemma get_name_list_args_returns content : octets content → returns (λ _, True) (get_name_list_args content).
Proof.
  intros Ho. unfold get_name_list_args. d_step. intros c d Hc Hd. d_step. intros c' d' Hc' Hd'.
  eapply returns_bind; [apply returns_map_err; by apply decode_int_returns|]. intros class _. d_step. intros scope d2 Hs Hd2.
  eapply (returns_bind (λ _, True)).
  - destruct scope as [scope|]; [|done]. d_step. done.
  - intros domain _. d_step. done.
Qed.

(** ** Types, data sets and logs *)

Lemma define_args_returns content : octets content → returns (λ _, True) (define_args content).
Proof.
  intros Ho. unfold define_args. eapply reading_bind; [by apply reading_object_name, Decoder_new_wf|]. intros [domain l] d _ Hd.
  destruct (split_once DOLLAR l) as [[ln ds]|]; [|done]. d_step. intros c d1 Hc Hd1. eapply (returns_bind octets).
  - destruct c as [c|]; [done|]. d_step. done.
  - intros entries He. eapply returns_bind; [|done]. apply every_expecting_returns with (P := λ _, True); [done|]. intros e Hentry.
    unfold define_entry. d_step. intros spec d2 Hspec _. eapply returns_bind; [by apply server_object_name_returns|].
    intros [md mi] _. by destruct (from_mms md mi).
Qed.

Lemma delete_args_returns content : octets content → returns (λ l, octets (default [] l)) (delete_args content).
Proof. intros Ho. unfold delete_args. d_step. intros x d _ Hd. d_step. done. Qed.

Lemma object_name_advances d : dec_wf d → advances 1 d (parse_object_name_elem d).
Proof.
  intros Hd. pose proof (read_tlv_advances d Hd) as Ha. pose proof (reading_read_tlv d Hd) as Hr. unfold parse_object_name_elem.
  destruct (read_tlv d) as [[[t c] d']|?| |]; try done. rewrite map_err_Ok, bind_Ok. cbv beta iota. destruct Hr as [Hc _], Ha as [Hda ?].
  assert (∀ r : list Z * list Z, advances (E:=MmsError) 1 d (Ok (r, d'))) as Hok by (intros; split; [done|lia]).
  case_decide; [|by case_decide]. pose proof (reading_d_expect (Decoder_new c) TAG_VISIBLE_STRING (Decoder_new_wf _ Hc)) as H1.
  destruct (d_expect (Decoder_new c) _) as [[x dd]|?| |]; try done. rewrite bind_Ok. cbv beta iota. destruct H1 as [_ Hdd].
  pose proof (reading_d_expect dd TAG_VISIBLE_STRING Hdd) as H2. destruct (d_expect dd _) as [[y ?]|?| |]; try done. apply Hok.
Qed.

Lemma delete_loop_returns display rcbs logs (P : Model → Prop) :
  (∀ m domain l, P m → P (delete_dataset display rcbs logs m domain l).2) →
  ∀ fuel nd m matched deleted, dec_wf nd → zlen (data nd) - off nd < Z.of_nat fuel → P m →
  returns (λ r, P r.1.1) (delete_loop display rcbs logs fuel nd m matched deleted).
Proof.
  intros HP. induction fuel as [|fuel IH]; intros nd m matched deleted Hd Hf Hm; [destruct Hd; lia|]. cbn [delete_loop].
  destruct (more nd); [|done]. pose proof (object_name_advances nd Hd) as Ha. pose proof (reading_object_name nd Hd) as Hr.
  destruct (parse_object_name_elem nd) as [[[domain l] nd']|?| |]; try done. cbn [ok]. rewrite bind_Ok. cbv beta iota.
  destruct Ha as [Hda ?], Hr as [_ Hd']. specialize (HP m domain l Hm). destruct (delete_dataset _ _ _ _ _ _) as [gone m'].
  apply IH; [done| |done]. rewrite Hda. lia.
Qed.

Lemma time_of_returns b : returns (λ _, True) (time_of b).
Proof. unfold time_of, binary_time_raw. case_decide; [done|]. rewrite bind_Ok. by destruct (Value_time _). Qed.

Lemma query_round_returns q tag c : octets c → returns (either (λ _, True) (λ _, True)) (query_round q tag c).
Proof.
  intros Hc. unfold query_round. case_decide; [|case_decide; [|case_decide; [|done]]].
  - eapply (returns_bind (λ _, True)); [|done]. unfold range_round. d_step. intros [ct cv] d Hcv _.
    case_decide; [eapply returns_bind; [apply time_of_returns|done]|]. case_decide; [|done]. case_match; [done|].
    eapply returns_bind; [apply returns_map_err; by apply decode_int_returns|done].
  - eapply (returns_bind (λ _, True)); [|done]. by eapply whole_returns, (each_field_returns (λ _, True) (λ _, True)).
  - eapply (returns_bind (λ _, True)); [|done]. eapply whole_returns, (each_field_returns (λ _, True) (λ _, True)); [done| |done|done].
    intros q' t v _ _. unfold after_round. case_decide; [eapply returns_bind; [apply time_of_returns|done]|]. by case_decide.
Qed.

Lemma parse_journal_query_returns content : octets content → returns (λ _, True) (parse_journal_query content).
Proof.
  intros Ho. unfold parse_journal_query. pose proof (d_expect_advances (Decoder_new content) (context_constructed 0) (Decoder_new_wf _ Ho)) as Ha.
  pose proof (reading_d_expect (Decoder_new content) (context_constructed 0) (Decoder_new_wf _ Ho)) as Hr.
  destruct (d_expect _ _) as [[name dec]|?| |]; try done. rewrite bind_Ok. cbv beta iota. destruct Hr as [Hn Hd], Ha as [Hda ?].
  eapply returns_bind; [by apply server_object_name_returns|]. intros [domain item] _.
  eapply whole_returns, (each_tlv_returns (λ _, True) (λ _, True)); [done| |done| |done].
  - intros q t c _ Hc. by apply query_round_returns.
  - rewrite Hda in *. simpl in *. unfold zlen in *. lia.
Qed.

Lemma initialize_args_returns content : octets content → returns (λ _, True) (initialize_args content).
Proof.
  intros Ho. unfold initialize_args. d_step. intros name d Hn Hd. eapply returns_bind; [by apply server_object_name_returns|]. intros j _.
  d_step. intros ls d1 Hls _. destruct ls as [ls|]; [|done]. d_step. intros tb ld Htb Hld. unfold binary_time_raw.
  case_decide; [done|]. rewrite bind_Ok. d_step. done.
Qed.

(** The services that only look. *)

Lemma name_list_settled logs m content max_pdu : octets content → settled (get_name_list_handler logs m content max_pdu).
Proof.
  intros Ho. apply (returns_settled (λ _, True)). unfold get_name_list_handler. eapply returns_bind; [by apply get_name_list_args_returns|].
  by intros [[class domain] after] _.
Qed.

Lemma variable_access_settled m content : octets content → settled (get_variable_access_handler m content).
Proof.
  intros Ho. apply (returns_settled (λ _, True)). unfold get_variable_access_handler. d_step. intros c d Hc _.
  eapply returns_bind; [by apply server_object_name_returns|]. intros [domain item] _. destruct (ld ← _; _) as [ts|]; [|done]. by destruct (ts_ber ts).
Qed.

Lemma nvl_attrs_settled m content : octets content → settled (get_nvl_attrs m content).
Proof.
  intros Ho. apply (returns_settled (λ _, True)). unfold get_nvl_attrs. eapply returns_bind; [by apply server_object_name_returns|].
  intros [domain l] _. by destruct (lookup_dataset _ _ _).
Qed.

Lemma journal_status_settled st deletable content : octets content → settled (report_journal_status st deletable content).
Proof.
  intros Ho. apply (returns_settled (λ _, True)). unfold report_journal_status. eapply returns_bind; [by apply server_object_name_returns|].
  intros [domain item] _. by destruct (bt_get _ _).
Qed.

(** ** Files *)

Lemma parse_file_name_returns content : octets content → returns (λ _, True) (parse_file_name content).
Proof.
  intros Ho. unfold parse_file_name. eapply returns_bind; [|done]. apply every_returns with (P := λ _, True); [done|..]; intros d Hd; unfold file_name_part.
  - pose proof (read_tlv_advances d Hd) as Ha. destruct (read_tlv d) as [[[t v] d']|?| |]; try done. rewrite map_err_Ok, bind_Ok.
    cbv beta iota. case_decide; [done|]. destruct Ha. split; [done|lia].
  - d_step. intros [t v] d' _ Hd'. by case_decide.
Qed.

Lemma rename_part_reading i d : dec_wf d → BerDecoder.reading (λ _, True) (rename_part i d).
Proof.
  intros Hd. unfold rename_part. d_step. intros [t v] d' Hv Hd'. simpl in Hv. case_decide; [done|].
  eapply returns_bind; [by apply parse_file_name_returns|]. done.
Qed.

Lemma parse_file_rename_returns content : octets content → returns (λ _, True) (parse_file_rename content).
Proof.
  intros Ho. unfold parse_file_rename. eapply reading_bind; [by apply rename_part_reading, Decoder_new_wf|]. intros x d _ Hd.
  eapply reading_bind; [by apply rename_part_reading|]. done.
Qed.

Lemma name_or_default_returns content : octets content → returns (λ _, True) (name_or_default (parse_file_name content)).
Proof. intros Ho. by apply unwrap_or_returns; [apply parse_file_name_returns|]. Qed.

Lemma optional_name_reading d t : dec_wf d → BerDecoder.reading (λ _, True) (optional_name d t).
Proof.
  intros Hd. unfold optional_name. d_step. intros [c|] d' Hc Hd'; [|done].
  eapply returns_bind; [by apply name_or_default_returns|]. done.
Qed.

Lemma frsm_of_returns content : octets content → returns (λ _, True) (frsm_of content).
Proof.
  intros Ho. unfold frsm_of. eapply (returns_bind (λ _, True)); [|done].
  apply unwrap_or_returns; [|done]. eapply returns_True. by apply decode_int_returns.
Qed.

(** What is relied on of the operating system: each of its calls comes back, with a result
    or with an error. *)
Class FilesReturn (F : Type) `{FileSystem F} : Prop := {
  metadata_settled f p : settled (metadata f p);
  fs_read_settled f p : settled (fs_read f p);
  read_dir_settled f p : returns (Forall settled) (read_dir f p);
  remove_file_settled f p : settled (remove_file f p).1;
  hard_link_settled f p q : settled (hard_link f p q).1;
  fs_create_new_settled f p : settled (fs_create_new f p).1;
  fs_write_all_settled f p b : settled (fs_write_all f p b).1;
  fs_flush_settled f p : settled (fs_flush f p).1;
}.

#[export] Instance Disk_returns : FilesReturn Disk.
Proof.
  split; intros; simpl; try done; try (by repeat case_match).
  destruct (follow f p) as [[q [| |]]|]; [done| |done|done]. apply Forall_forall. intros e (x & _ & He)%list_elem_of_omap.
  by apply bind_Some in He as (name & _ & [= <-]).
Qed.

Section files.
Context {F : Type} `{FilesReturn F}.
#[local] Set Default Proof Using "Type*".

Lemma resolve_file_settled s (f : F) name : settled (resolve_file s f name).
Proof. unfold resolve_file. destruct (resolve _ _ _); [by case_decide|done]. Qed.

Lemma open_settled s (f : F) name : settled (open s f name).1.
Proof.
  unfold open. destruct (match resolve s f name with Some p => Ok p | None => Err PermissionDenied end) as [p|?| |] eqn:E;
    [|done|by destruct (resolve _ _ _)..].
  rewrite bind_Ok. pose proof (metadata_settled f p). destruct (metadata f p) as [m|?| |]; try done. rewrite bind_Ok.
  destruct (md_is_dir m); [done|]. pose proof (fs_read_settled f p). by destruct (fs_read f p).
Qed.

Lemma dir_infos_settled dir entries : Forall settled entries → settled (dir_infos dir entries).
Proof.
  induction 1 as [|e l He _ IH]; [done|]. cbn [dir_infos]. apply settled_bind.
  - unfold dir_info. apply settled_bind; [done|]. by intros [name m].
  - intros i _. by apply settled_bind.
Qed.

Lemma list_dir_settled s (f : F) dir : settled (list_dir s f dir).
Proof.
  unfold list_dir. apply settled_bind; [by destruct (resolve _ _ _)|]. intros p _. apply (returns_settled (λ _, True)). eapply returns_bind; [apply read_dir_settled|].
  intros l Hl. pose proof (dir_infos_settled dir l Hl). by destruct (dir_infos dir l).
Qed.

Lemma delete_file_settled s (f : F) name : settled (delete_file s f name).1.
Proof.
  unfold delete_file. pose proof (resolve_file_settled s f name). destruct (resolve_file s f name) as [p|?| |]; [|done..].
  apply remove_file_settled.
Qed.

Lemma rename_settled s (f : F) old new : settled (rename s f old new).1.
Proof.
  unfold rename. pose proof (resolve_file_settled s f old). destruct (resolve_file s f old) as [p|?| |]; [|done..].
  pose proof (resolve_file_settled s f new). destruct (resolve_file s f new) as [q|?| |]; [|done..].
  destruct (symlink_metadata f q); [done|..]; pose proof (hard_link_settled f p q); destruct (hard_link f p q) as [[]]; try done;
    apply remove_file_settled.
Qed.

Lemma create_new_settled s (f : F) name : settled (create_new s f name).1.
Proof.
  unfold create_new. pose proof (resolve_file_settled s f name). destruct (resolve_file s f name) as [p|?| |]; [|done..].
  pose proof (fs_create_new_settled f p). by destruct (fs_create_new f p) as [[]].
Qed.

(** The file services, whatever the request. *)
Lemma keep_settled {A B W} (w : W) (m : outcome MmsError A) (k : A → outcome MmsError B * W) :
  returns (λ _, True) m → (∀ a, settled (k a).1) → settled (keep w m k).1.
Proof. intros Hm Hk. destruct m; try done. apply Hk. Qed.

Lemma file_service_settled (w : FileWorld F) service content max_pdu : octets content → settled (file_service w service content max_pdu).1.
Proof.
  intros Ho. unfold file_service. destruct (fw_files w) as [s|]; [|done]. repeat case_decide; [..|done].
  - unfold file_open_service. apply keep_settled.
    + d_step. intros c d Hc _. by apply name_or_default_returns.
    + intros name. pose proof (open_settled s (fw_fs w) name) as Hs. destruct (open s (fw_fs w) name) as [r s']. simpl in *.
      apply settled_bind; [by apply settled_map_err|]. by intros [[??] ?].
  - unfold file_read_service. apply keep_settled; [by apply frsm_of_returns|]. intros id. by destruct (read s id _) as [[[]|] ?].
  - unfold file_close_service. by apply keep_settled; [apply frsm_of_returns|].
  - unfold file_directory_service. simpl. apply (returns_settled (λ _, True)). eapply reading_bind; [by apply optional_name_reading, Decoder_new_wf|].
    intros dir d _ Hd. eapply reading_bind; [by apply optional_name_reading|]. intros after d' _ _.
    pose proof (list_dir_settled s (fw_fs w) dir). by destruct (list_dir _ _ _).
Qed.

Lemma writable_store_returns (w : FileWorld F) : returns (λ _, True) (writable_store w).
Proof. unfold writable_store. destruct (fw_files w) as [s|]; [|done]. by destruct (fs_writable s). Qed.

Lemma file_delete_settled (w : FileWorld F) content : octets content → settled (file_delete_service w content).1.
Proof.
  intros Ho. unfold file_delete_service. apply keep_settled.
  - eapply returns_bind; [apply writable_store_returns|]. intros s _.
    eapply returns_bind; [by apply returns_option, reading_optional, Decoder_new_wf|]. intros inner Hin. cbv zeta.
    eapply returns_bind; [|done]. apply returns_map_err, parse_file_name_returns. destruct inner as [[c d]|]; [|done].
    destruct (Hin _ eq_refl) as [Hc _]. by destruct c.
  - intros [s name]. pose proof (delete_file_settled s (fw_fs w) name). destruct (delete_file _ _ _) as [r f]. by destruct r.
Qed.

Lemma file_rename_settled (w : FileWorld F) content : octets content → settled (file_rename_service w content).1.
Proof.
  intros Ho. unfold file_rename_service. apply keep_settled.
  - eapply returns_bind; [apply writable_store_returns|]. intros s _. eapply returns_bind; [|done].
    apply returns_map_err. by apply parse_file_rename_returns.
  - intros [s [old new]]. pose proof (rename_settled s (fw_fs w) old new). destruct (rename _ _ _ _) as [r f]. by destruct r.
Qed.

Lemma obtain_args_returns (w : FileWorld F) content : octets content → returns (λ _, True) (obtain_args w content).
Proof.
  intros Ho. unfold obtain_args. eapply returns_bind; [apply writable_store_returns|]. intros s _. d_step. intros third d _ Hd.
  destruct third; [done|]. assert (∀ d t, dec_wf d → BerDecoder.reading (λ _, True) (obtain_name d t)) as Hn.
  { clear. intros d t Hd. unfold obtain_name. pose proof (reading_expect d t Hd) as Hr. destruct (expect d t) as [[c d']|?| |]; try done.
    cbn [ok]. rewrite bind_Ok. cbv beta iota. destruct Hr as [Hc Hd']. pose proof (parse_file_name_returns c Hc).
    by destruct (parse_file_name c). }
  eapply reading_bind; [by apply Hn|]. intros src d' _ Hd'. eapply reading_bind; [by apply Hn|]. intros dst d'' _ _.
  destruct (resolve _ _ _); [|done]. by destruct (exists_ _ _ _).
Qed.
End files.
