(* ===== verification/ServerSafe.v ===== *)
(** No request, no update of the process and no end of an association panics the server
    (src/src/server/server.rs, handler.rs), and who can hold a control block or a
    selection: the invariant of the shared state, kept by every service. *)

From stdpp Require Import gmap.
From S2P Require Import Prelude Ber BerDecoder BerPrim BerFields TimeUtil Utf8 Text Errors MmsValue MmsCodec TypeSpec.
From S2P Require Import ObjRef Quality BTree Nodes Blocks Access Tx Handler BlockStore Selections SettingGroup InfoReport Services Wire.
From S2P Require Import NameList Control Rcb ControlBlocks Svcb ReportPdu ReadService Journal Tracking DataSets.
From S2P Require Import FileStore FileService SetFile Reporting ReportBuffer ReportOwner ReportSafe ModelSafe ServerState RequestSafe.
Local Open Scope list_scope.
Local Open Scope Z_scope.

(** ** Report control blocks *)

(** Only associations of [X] have the block or are subscribed to it. *)
Definition held_in (X : ConnId → Prop) (st : RcbRuntime) : Prop :=
  (∀ c, rt_owner st = Some c → X c) ∧ (∀ c, rt_conn st = Some c → X c).

Lemma held_in_holder X st st' : holder st' = holder st → held_in X st → held_in X st'.
Proof. intros [= _ Hc Ho _ _ _]. unfold held_in. by rewrite Hc, Ho. Qed.

Lemma held_in_impl (X X' : ConnId → Prop) st : (∀ c, X c → X' c) → held_in X st → held_in X' st.
Proof. intros HX [Ho Hc]. split; eauto. Qed.

(** An operation on a block, from what [X] holds to what [X'] holds. *)
Definition block_safe (X X' : ConnId → Prop) (op : RcbState → World → outcome Empty_set World) : Prop :=
  ∀ rs w, sane w → held_in X (w_st w) → ∃ w', op rs w = Ok w' ∧ sane w' ∧ held_in X' (w_st w').

Section blocks.
Context (display : Value → list Z) (entry_seed : Z) (owned running : bool).

Lemma on_update_blocks X changes : block_safe X X (λ rs w, on_update display rs entry_seed owned running w changes).
Proof.
  intros rs w Hs Hh. destruct (on_update_safe display rs entry_seed owned running w changes Hs) as (w' & E & Hs').
  exists w'. split; [done|]. split; [done|]. apply on_update_holder in E. by eapply held_in_holder.
Qed.

Lemma on_rcb_write_in (X : ConnId → Prop) rs w attr v c ip w' :
  X c → held_in X (w_st w) → on_rcb_write display rs entry_seed owned running w attr v c ip = Ok w' → held_in X (w_st w').
Proof.
  intros Hc Hh. unfold on_rcb_write. assert (∀ w, held_in X (w_st w) → held_in X (w_st (take_block rs w c ip))) as Htake.
  { intros w1 [Ho Hn]. destruct (take_block_holder rs w1 c ip) as (_ & Hc1 & Ho1). split; intros c'; [rewrite Ho1; by intros [= <-]|].
    rewrite Hc1. apply Hn. }
  case_decide.
  { intros E%Ok_inj. subst w'. destruct (as_bool v); [by apply Htake|]. destruct (release_holder rs owned running w) as (_ & Hc1 & Ho1).
    split; intros c'; [by rewrite Ho1|]. rewrite Hc1. apply Hh. }
  set (w1 := if decide (rt_owner (w_st w) = None) then _ else _).
  assert (held_in X (w_st w1)) as H1 by (unfold w1; case_decide; auto). clearbody w1. intros E.
  destruct (_ && _).
  { apply Ok_inj in E. subst w'. eapply held_in_holder; [apply holder_stop_resv|done]. }
  case_decide.
  { destruct (as_bool v).
    - apply enable_holder in E as (_ & Hcn & Ho). split; intros c' Hc'; [rewrite Ho in Hc'|rewrite Hcn in Hc']; by injection Hc' as <-.
    - apply disable_holder in E as [Hcn Ho]. split; intros c' Hc'; [|congruence]. destruct Ho as [Ho|Ho]; [congruence|].
      rewrite Ho in Hc'. by apply (proj1 H1). }
  case_decide.
  { apply bind_Ok_inv in E as (w2 & E2 & E). apply Ok_inj in E. subst w'. simpl.
    destruct (_ && _); [|by apply Ok_inj in E2; subst]. apply report_all_holder in E2. by eapply held_in_holder. }
  assert (holder (w_st w') = holder (w_st w1)) as Hw'; [|by eapply held_in_holder].
  repeat case_decide; apply Ok_inj in E; subst w'; [destruct (as_bool v)|..]; simpl; by destruct (w_st w1).
Qed.

Lemma on_rcb_write_blocks (X : ConnId → Prop) attr v c ip :
  X c → encodable v → block_safe X X (λ rs w, on_rcb_write display rs entry_seed owned running w attr v c ip).
Proof.
  intros Hc Hv rs w Hs Hh. destruct (on_rcb_write_safe display rs entry_seed owned running w attr v c ip Hs) as (w' & E & Hs').
  exists w'. split; [done|]. split; [done|]. by eapply on_rcb_write_in.
Qed.

(** Of an association that is gone, nothing is left. *)
Lemma disable_conn_blocks (X : ConnId → Prop) c :
  block_safe X (λ x, X x ∧ x ≠ c) (λ rs w, disable_conn display rs entry_seed owned running w c).
Proof.
  intros rs w Hs [Ho Hc]. unfold disable_conn.
  assert (∃ w1, (if decide (rt_conn (w_st w) = Some c) then disable display rs entry_seed owned running w else Ok w) = Ok w1 ∧ sane w1 ∧
    (∀ x, rt_owner (w_st w1) = Some x → X x) ∧ (∀ x, rt_conn (w_st w1) = Some x → X x ∧ x ≠ c)) as (w1 & -> & Hs1 & Ho1 & Hc1).
  { case_decide as Hcc.
    - destruct (disable_safe display rs entry_seed owned running w Hs) as (w1 & E & Hs1). exists w1. split; [done|]. split; [done|].
      apply disable_holder in E as [Hn Ho1]. split; intros x Hx; [|congruence]. destruct Ho1 as [Ho1|Ho1]; [congruence|].
      rewrite Ho1 in Hx. by apply Ho.
    - exists w. split; [done|]. split; [done|]. split; [done|]. intros x Hx. split; [by apply Hc|]. intros ->. done. }
  rewrite bind_Ok. eexists. split; [done|]. case_decide as Hoc.
  - split; [by apply release_sane|]. destruct (release_holder rs owned running w1) as (_ & Hcr & Hor).
    split; intros x; [by rewrite Hor|]. rewrite Hcr. apply Hc1.
  - split; [done|]. split; [|done]. intros x Hx. split; [by apply Ho1|]. intros ->. done.
Qed.
End blocks.

(** ** The invariant *)

Definition owner_in (X : ConnId → Prop) (o : option ConnId) : Prop := ∀ c, o = Some c → X c.

Definition rcb_sound (X : ConnId → Prop) (b : list Z * (RcbState * RcbRuntime)) : Prop := held_entries b.2.2 ∧ held_in X b.2.2.

(** Every value the server keeps has an encoding, in every group there is a value of each
    setting; control blocks are held by associations of [X], controls are selected by
    associations of [Y]. *)
Record sound {F} (X Y : ConnId → Prop) (s : Inner F) : Prop := {
  sd_model : enc_model (in_model s);
  sd_rcbs : Forall (rcb_sound X) (in_rcbs s);
  sd_groups : Forall (λ g, group_enc g.2) (in_groups s);
  sd_logs : logs_enc (in_logs s);
  sd_svcbs : Forall (λ b, owner_in X (sb_owner b.2)) (in_svcbs s);
  sd_selections : map_Forall (λ _ sel, Y (sel_conn sel)) (in_selections s);
}.

(** Only the model, the EntryIDs and what goes out differ. *)
Definition engine_only {F} (s s' : Inner F) : Prop := ∃ m n o, s' = put_engine s m n o.

Lemma engine_only_refl {F} (s : Inner F) : engine_only s s.
Proof. exists (in_model s), (in_counter s), (in_outside s). by destruct s. Qed.

Lemma engine_only_trans {F} (s1 s2 s3 : Inner F) : engine_only s1 s2 → engine_only s2 s3 → engine_only s1 s3.
Proof. intros (m & n & o & ->) (m' & n' & o' & ->). by exists m', n', o'. Qed.

Lemma sound_engine {F} X Y (s s' : Inner F) : sound X Y s → engine_only s s' → enc_model (in_model s') → sound X Y s'.
Proof. intros [] (m & n & o & ->) Hm. by split. Qed.

Lemma sound_model {F} X Y (s : Inner F) m : sound X Y s → enc_model m → sound X Y (put_model s m).
Proof. intros [] Hm. by split. Qed.

Section engine.
Context {F : Type}.
Implicit Types s : Inner F.

Lemma each_block_sound X X' op l : block_safe X X' op → ∀ s,
  enc_model (in_model s) → Forall (rcb_sound X) l →
  ∃ l' s', each_block op l s = Ok (l', s') ∧ engine_only s s' ∧ enc_model (in_model s') ∧ Forall (rcb_sound X') l'.
Proof.
  intros Hop. induction l as [|[key [rs rt]] l IH]; intros s Hm Hl.
  { exists [], s. split; [done|]. split; [apply engine_only_refl|]. by split. }
  apply Forall_cons in Hl as [[He Hh] Hl]. cbn [each_block].
  destruct (Hop rs (block_world s rt)) as (w & -> & [Hm' He'] & Hh'); [by split|done|]. rewrite bind_Ok.
  destruct (IH (absorb s key w)) as (l' & s' & -> & Hs' & Hm'' & Hl'); [done|done|]. rewrite bind_Ok.
  eexists _, s'. split; [done|]. split; [|split; [done|by constructor]].
  eapply engine_only_trans; [|exact Hs']. by eexists _, _, _.
Qed.

Lemma all_blocks_sound X X' Y op s : block_safe X X' op → sound X Y s →
  ∃ s', all_blocks op s = Ok s' ∧ engine_only (put_rcbs s (in_rcbs s')) s' ∧ enc_model (in_model s') ∧ Forall (rcb_sound X') (in_rcbs s').
Proof.
  intros Hop Hs. unfold all_blocks.
  destruct (each_block_sound X X' op (in_rcbs s) Hop s (sd_model _ _ _ Hs) (sd_rcbs _ _ _ Hs)) as (l & s' & -> & (m & n & o & ->) & Hm & Hl).
  rewrite bind_Ok. eexists. split; [done|]. split; [|by split]. by exists m, n, o.
Qed.

Lemma at_block_sound X Y key op s : block_safe X X op → sound X Y s → ∃ s', at_block key op s = Ok s' ∧ sound X Y s' ∧ in_conns s' = in_conns s.
Proof.
  intros Hop Hs. unfold at_block. destruct (bt_get (in_rcbs s) key) as [[rs rt]|] eqn:E; [|by exists s].
  pose proof (bt_get_Forall (λ b, held_entries b.2 ∧ held_in X b.2) _ _ _ (sd_rcbs _ _ _ Hs) E) as [He Hh].
  destruct (Hop rs (block_world s rt)) as (w & -> & [Hm' He'] & Hh'); [split; [apply Hs|done]|done|]. rewrite bind_Ok.
  eexists. split; [done|]. split; [|done]. destruct Hs. split; try done. simpl.
  apply (bt_alter_Forall (λ b, held_entries b.2 ∧ held_in X b.2)); [done|]. by intros b _.
Qed.
End engine.

Lemma decode_oper_value r v conn peer : value_wf v → encodable (ctx_value (decode_oper r v conn peer)).
Proof.
  intros Hv. unfold decode_oper. destruct (decide _); [by apply plain_encodable|]. cbn [ctx_value].
  destruct (Value_index v 0) as [w|] eqn:E; [|by apply plain_encodable]. by eapply wf_encodable, Value_index_wf.
Qed.

(** An encoding does not depend on the errors around it. *)
Definition whatever {E A} (m : outcome Empty_set A) : outcome E A :=
  match m with Ok a => Ok a | Err e => match e with end | Panic => Panic | NoFuel => NoFuel end.

Lemma data_element_any {E} v : data_element (E:=E) v = whatever (data_element v).
Proof.
  assert (∀ cs, Forall (λ v, data_element (E:=E) v = whatever (data_element v)) cs →
    filter_map_outcome (data_element (E:=E)) cs = whatever (filter_map_outcome data_element cs)) as Hcs.
  { induction 1 as [|x cs Hx _ IH]; [done|]. rewrite !filter_map_cons, Hx, IH. destruct (data_element (E:=Empty_set) x) as [b|[]| |]; try done.
    cbn [whatever]. rewrite !bind_Ok. by destruct (filter_map_outcome (data_element (E:=Empty_set)) cs) as [bs|[]| |]. }
  induction v as [cs IH|cs IH|v Hv] using Value_ind'.
  1,2: cbn [data_element]; rewrite (Hcs cs IH); by destruct (filter_map_outcome (data_element (E:=Empty_set)) cs) as [bs|[]| |].
  destruct v as [| | | |bs| | | | | | | | | | |]; try done. cbn [data_element]. unfold bit_string_elem, append_bit_string, usub. by case_decide.
Qed.

Lemma encodable_any {E} v : encodable v → ∃ el, data_element (E:=E) v = Ok el.
Proof.
  rewrite data_element_any. intros [el ->]. by exists el.
Qed.

Section safe.
Context {F : Type} `{FileSystem F}.
Context (display : Value → list Z) (entry_seed capacity : Z) (running : bool) (writable : gset Fc)
  (hook : option (DataAttribute → Value → option DataAccessError)) (controls : gmap ObjectReference (ControlCtx → AddCause * bool))
  (tracker : Tracker).
Context (X Y : ConnId → Prop).
Implicit Types s : Inner F.

Lemma clock_now_sound s : sound X Y s → let '(now, s') := clock_now s in encodable now ∧ sound X Y s' ∧ in_conns s' = in_conns s.
Proof. intros []. simpl. split; [unfold Clock_now, utc_time; destruct (unix_parts _); by apply plain_encodable|]. by split. Qed.

Lemma report_changes_sound s changes :
  sound X Y s → ∃ s', report_changes display entry_seed capacity running s changes = Ok s' ∧ sound X Y s' ∧ in_conns s' = in_conns s.
Proof.
  intros Hs. unfold report_changes. case_decide; [by exists s|].
  destruct (all_blocks_sound X X Y (λ rs w, on_update display rs entry_seed true running w changes) s) as (s1 & -> & (m & n & o & E) & Hm & Hr);
    [apply on_update_blocks|done|]. rewrite bind_Ok. eexists. split; [done|]. rewrite E in *.
  destruct (log_on_update_enc display (next_entry_id entry_seed) capacity (mkLogWorld m (in_logs s) n (ou_clock o)) changes) as [Hm' Hl'];
    [done|apply Hs|]. split; [|done]. destruct Hs. split; simpl; try done.
Qed.

Definition kept s s' : Prop := sound X Y s' ∧ in_conns s' = in_conns s.

Lemma kept_refl s : sound X Y s → kept s s.
Proof. by split. Qed.

Lemma kept_trans s1 s2 s3 : kept s1 s2 → kept s2 s3 → kept s1 s3.
Proof. intros [_ H1] [H2 H3]. split; [done|congruence]. Qed.

Lemma track_write_sound s changes domain item v res :
  sound X Y s → encodable v → kept s (track_write display tracker s changes domain item v res).1.
Proof.
  intros Hs Hv. unfold track_write. pose proof (clock_now_sound s Hs) as Hc. destruct (clock_now s) as [now s1]. destruct Hc as (Hn & Hs1 & Hcn).
  pose proof (track_cb_write_enc display tracker (in_model s1) changes domain item v (match res with None => inl () | Some e => inr e end) now
    (sd_model _ _ _ Hs1) Hv Hn) as Hm.
  destruct (track_cb_write _ _ _ _ _ _ _ _ _) as [m cs]. split; [|done]. by apply sound_model.
Qed.

(** What a write is to is there. *)
Definition target_there s (domain : list Z) (t : Target) : Prop :=
  match t with TSgcb mgr _ => bt_get (in_groups s) domain = Some mgr | _ => True end.

Lemma write_target_there s domain item : target_there s domain (write_target s domain item).
Proof.
  unfold write_target. destruct (rcb_key domain item) as [[k a]|]; [done|].
  destruct (attr ← is_sgcb_write item; _) as [[mgr attr]|] eqn:E.
  - apply bind_Some in E as (a & _ & E). by apply bind_Some in E as (mgr' & E & [= <- <-]).
  - destruct (lcb_key _ _ _) as [[k a]|]; [done|]. by destruct (svcb_key _ _ _) as [[k a]|].
Qed.

Lemma target_apply_sound before s t domain v conn ip :
  sound X Y s → X conn → encodable v → target_there s domain t →
  ∃ s' evs, target_apply display entry_seed running before s t domain v conn ip = Ok (s', evs) ∧ kept s s'.
Proof.
  intros Hs Hc Hv Ht. destruct t as [key attr|mgr attr|key attr|key attr|]; cbn [target_apply target_there] in *.
  - destruct (at_block_sound X Y key (λ rs w, on_rcb_write display rs entry_seed true running w attr v conn ip) s) as (s' & -> & Hs' & Hcn);
      [by apply on_rcb_write_blocks|done|]. rewrite bind_Ok. by eexists _, _.
  - assert (let '(now, s') := if decide (attr = txt "ActSG") then clock_now s else (VNone, s) in
      encodable now ∧ kept s s' ∧ in_groups s' = in_groups s) as Hn.
    { case_decide; [|by split; [apply plain_encodable|]; split; [apply kept_refl|]].
      pose proof (clock_now_sound s Hs) as Hn. unfold clock_now in *. destruct (read_clock s) as [t s1] eqn:E.
      destruct Hn as (Hn & Hs1 & Hcn). split; [done|]. split; [by split|]. by injection E as _ <-. }
    destruct (if decide (attr = txt "ActSG") then clock_now s else (VNone, s)) as [now s1]. destruct Hn as (Hn & [Hs1 Hcn] & Hg).
    pose proof (bt_get_Forall group_enc _ _ _ (sd_groups _ _ _ Hs) Ht) as Hge.
    destruct (on_sgcb_write_enc (E:=Empty_set) mgr (in_model s1) attr v now Hge (sd_model _ _ _ Hs1) Hn) as (mgr' & m' & -> & Hg' & Hm').
    rewrite bind_Ok. eexists _, _. split; [done|]. split; [|done]. destruct Hs1. split; try done. simpl. by apply (bt_alter_Forall group_enc).
  - eexists _, _. split; [done|]. split; [|done]. destruct Hs. split; try done. simpl. by apply on_lcb_write_enc.
  - destruct (svcb_on_write _ _ _ _ _ _) as [r ev] eqn:E. eexists _, _. split; [done|]. split; [|done].
    destruct Hs as [? ? ? ? Hb ?]. split; try done. simpl. revert E. unfold svcb_on_write.
    destruct (bt_get _ key) as [st|]; [|by intros [= <- _]]. case_decide; [by intros [= <- _]|]. case_decide; [|by intros [= <- _]].
    intros [= <- _]. apply (bt_alter_Forall (λ st, owner_in X (sb_owner st))); [done|]. intros _ _ c. simpl.
    destruct (sv_flag _ _ _); [|done]. by intros [= <-].
  - by eexists _, _; split; [|apply kept_refl].
Qed.

Lemma write_one_sound s changes conn ip domain item v :
  sound X Y s → X conn → encodable v →
  ∃ res s' changes' evs, write_one display entry_seed running writable hook tracker s changes conn ip domain item v = Ok (res, s', changes', evs) ∧
    kept s s'.
Proof.
  intros Hs Hc Hv. unfold write_one. set (t := write_target s domain item).
  assert (∃ res s' changes' evs,
    match target_check display s t v conn ip with
    | Some e => Ok (Some e, s, changes, [])
    | None =>
        match store writable (editing s) hook (in_model s) changes domain item v (is_control_block t) with
        | inr e => Ok (Some e, s, changes, [])
        | inl (m, changes) =>
            '(s', evs) ← target_apply display entry_seed running s (put_model s m) t domain v conn ip; Ok (None, s', changes, evs)
        end
    end = Ok (res, s', changes', evs) ∧ kept s s') as (res & s' & changes' & evs & -> & Hk).
  { destruct (target_check _ _ _ _ _ _); [by do 4 eexists; split; [|apply kept_refl]|].
    destruct (store _ _ _ _ _ _ _ _ _) as [[m cs]|e] eqn:E; [|by do 4 eexists; split; [|apply kept_refl]].
    apply store_enc in E; [|apply Hs|done].
    destruct (target_apply_sound s (put_model s m) t domain v conn ip) as (s' & evs & -> & Hk);
      [by apply sound_model|done|done|exact (write_target_there s domain item)|]. rewrite bind_Ok. do 4 eexists. split; [done|].
    eapply kept_trans; [|exact Hk]. split; [by apply sound_model|done]. }
  rewrite bind_Ok. destruct (_ || _); [|by do 4 eexists].
  pose proof (track_write_sound s' changes' domain item v res (proj1 Hk) Hv) as Ht. destruct (track_write _ _ _ _ _ _ _ _) as [s2 cs2].
  do 4 eexists. split; [done|]. by eapply kept_trans.
Qed.

(** *** Controls *)

Definition ctl_sound (srv : Server) : Prop :=
  enc_model (sv_model srv) ∧ map_Forall (λ _ sel, Y (sel_conn sel)) (sv_selections srv).

(** The answer of a control write, and what it leaves. *)
Definition ctl_done (a : outcome DataAccessError () * Server) : Prop := settled a.1 ∧ ctl_sound a.2.

Lemma emit_ctl_sound srv es : ctl_sound srv → ctl_sound (Control.emit srv es).
Proof. done. Qed.

Lemma refuse_done b srv phase item ctx cause : ctl_sound srv → ctl_done (refuse_control b srv phase item ctx cause).
Proof. by split. Qed.

Lemma reserve_in srv r conn n timeout now :
  Y conn → ctl_sound srv → ctl_sound (set_selections srv (reserve (sv_selections srv) r conn n timeout now).2).
Proof.
  intros Hc [Hm Hs]. split; [done|]. simpl. unfold reserve. destruct (sv_selections srv !! r); [case_decide; [done|]|];
    by apply map_Forall_insert_2.
Qed.

Lemma clear_in srv r : ctl_sound srv → ctl_sound (set_selections srv (clear (sv_selections srv) r)).
Proof. intros [Hm Hs]. split; [done|]. by apply map_Forall_delete. Qed.

Lemma control_write_sound conn now srv domain item v :
  Y conn → ctl_sound srv → value_wf v → ctl_done (control_write (control_handlers controls) conn now srv domain item v).
Proof.
  intros Hc Hs Hv. unfold control_write. destruct (control_request item v) as [[base phase]|e] eqn:Hreq; [|by split].
  destruct (control_request_ref (E:=DataAccessError) domain _ _ _ _ Hreq) as [r ->]. destruct (attribute _ _ _) as [oper|]; [|by split].
  cbn zeta. set (ctx1 := set_select _ _).
  assert (encodable (ctx_value ctx1)) as Hval.
  { unfold ctx1. destruct (set_select_fields (decode_oper r v conn (mjoin (sv_conns srv !! conn))) (bool_decide (phase = Sbow))) as (_ & -> & _).
    by apply decode_oper_value. }
  destruct (decide (control_model_cause _ _ _ ≠ _)); [by apply refuse_done|].
  destruct (decide (phase = Cancel)).
  { unfold control_cancel. destruct (decide _); [by apply refuse_done|]. split; [done|]. by apply emit_ctl_sound, clear_in. }
  match goal with |- context [decide (?c ≠ AC.NONE)] => destruct (decide (c ≠ AC.NONE)); [by apply refuse_done|] end.
  set (ctx2 := set_term ctx1 _).
  assert (∃ cause deferred, match control_handlers controls !! r with Some h => h ctx2 srv | None => ((AC.NONE, false), srv) end = ((cause, deferred), srv))
    as (cause & deferred & ->).
  { unfold control_handlers. rewrite lookup_fmap. destruct (controls !! r) as [h|]; simpl; [destruct (h ctx2)|]; by eexists _, _. }
  destruct (decide (cause ≠ AC.NONE)); [apply refuse_done; by destruct (ctx_term ctx2)|].
  destruct (ctx_select ctx2).
  { unfold control_select. set (t := if decide _ then _ else _).
    pose proof (reserve_in srv r conn (Some (ctx_ctl_num ctx2)) t now Hc Hs) as Hr. destruct (reserve _ _ _ _ _ _) as [[] sel]; [by split|by apply refuse_done]. }
  unfold control_operate. assert (encodable (ctx_value ctx2)) as Hval2.
  { unfold ctx2. destruct (set_term_fields ctx1 (bool_decide (phase = Oper) &&
      match declared_ctl_model (sv_model srv) r with Some cm => is_enhanced cm | None => false end &&
      match sv_conns srv !! conn with Some _ => true | None => false end)) as (_ & -> & _). done. }
  pose proof (apply_control_enc (sv_model srv) r (ctx_value ctx2) (sv_changes srv) (proj1 Hs) Hval2) as Hm.
  destruct (apply_control _ _ _ _) as [m cs]. split; [done|]. assert (ctl_sound (Control.set_model srv m cs)) as Hs1 by (split; [done|apply Hs]).
  pose proof (clear_in (Control.set_model srv m cs) r Hs1). destruct (ctx_term ctx2); [destruct deferred|]; done.
Qed.

Lemma control_one_sound s changes conn domain item v :
  sound X Y s → Y conn → value_wf v →
  let '(r, (s', _)) := control_one display controls tracker s changes conn domain item v in settled r ∧ kept s s'.
Proof.
  intros Hs Hc Hv. unfold control_one, read_instant. set (s1 := put_outside s _). assert (sound X Y s1) as Hs1 by (destruct Hs; by split).
  pose proof (control_write_sound conn (hd 0 (ou_instants (in_outside s))) (control_server s1 changes) domain item v Hc) as Hw.
  destruct (control_write _ _ _ _ _ _ _) as [r srv]. destruct Hw as [Hr [Hm Hsel]]; [by split; [apply Hs1|apply Hs1]|done|].
  set (ctx := decode_oper _ _ _ _). set (s2 := note_effects _ _).
  assert (kept s (foldl (track_effect display tracker (control_reference domain item) ctx v) (s2, sv_changes srv) (sv_effects srv)).1) as Hk.
  { apply (foldl_keeps (λ a, kept s a.1)); [split; [|done]; destruct Hs1; by split|]. intros [s3 cs] e _ [Hs3 Hcn]. unfold track_effect. destruct e; try done.
    destruct (Tracker_is_empty tracker); [done|]. pose proof (clock_now_sound s3 Hs3) as Hn. destruct (clock_now s3) as [now s4].
    destruct Hn as (Hn & Hs4 & Hcn4). match goal with |- context [track_control ?d ?t ?m ?cs ?r ?sv ?er ?cx ?op ?ca ?nw] =>
      pose proof (track_control_enc d t m cs r sv er cx op ca nw (sd_model _ _ _ Hs4)) as Ht; destruct (track_control d t m cs r sv er cx op ca nw) as [m' cs'] end.
    split; [|simpl in *; congruence]. apply sound_model; [done|]. apply Ht; [intros ? [= <-]; by apply decode_oper_value|by intros ? [= <-]|done]. }
  by destruct (foldl _ _ _) as [s3 cs3].
Qed.

(** *** Writes *)

Lemma no_error_Ok {A} (m : outcome Empty_set A) a : m = Ok a → no_error m = Ok a.
Proof. by intros ->. Qed.

Lemma write_item_sound s changes conn ip domain item v :
  sound X Y s → X conn → Y conn → value_wf v →
  ∃ res s' changes' evs,
    write_item display entry_seed running writable hook controls tracker s changes conn ip domain item v = Ok (res, s', changes', evs) ∧ kept s s'.
Proof.
  intros Hs Hx Hy Hv. unfold write_item. destruct (is_control item).
  - pose proof (control_one_sound s changes conn domain item v Hs Hy Hv) as Hc. destruct (control_one _ _ _ _ _ _ _ _ _) as [r [s' cs]].
    destruct Hc as [Hr Hk]. destruct r; [by do 4 eexists|by do 4 eexists|done|done].
  - destruct (write_one_sound s changes conn ip domain item v Hs Hx (wf_encodable v Hv)) as (res & s' & cs & evs & E & Hk).
    do 4 eexists. split; [by apply no_error_Ok|done].
Qed.

Lemma write_each_sound conn ip values : X conn → Y conn → ∀ targets s changes,
  sound X Y s → Forall value_wf values →
  ∃ els s' changes' evs,
    write_each display entry_seed running writable hook controls tracker conn ip values targets s changes = Ok (els, s', changes', evs) ∧ kept s s'.
Proof.
  intros Hx Hy. induction values as [|v values IH]; intros targets s changes Hs Hv; cbn [write_each].
  { do 4 eexists. split; [done|by apply kept_refl]. }
  apply Forall_cons in Hv as [Hv Hvs].
  assert (∃ res s' cs evs, match mjoin (head targets) with
    | Some (domain, item) => write_item display entry_seed running writable hook controls tracker s changes conn ip domain item v
    | None => Ok (Some ObjectNonExistent, s, changes, [])
    end = Ok (res, s', cs, evs) ∧ kept s s') as (res & s1 & cs & evs & -> & Hk).
  { destruct (mjoin _) as [[domain item]|]; [by apply write_item_sound|]. do 4 eexists. split; [done|by apply kept_refl]. }
  rewrite bind_Ok. cbv beta iota. destruct (IH (tail targets) s1 cs (proj1 Hk) Hvs) as (els & s2 & cs2 & evs2 & -> & Hk2).
  rewrite bind_Ok. do 4 eexists. split; [done|by eapply kept_trans].
Qed.

(** A service that changes the server once it is through. *)
Definition through s (m : outcome MmsError (Element * Inner F)) : Prop := returns (λ a, kept s a.2) m.

Lemma write_handler_sound conn ip s content :
  sound X Y s → X conn → Y conn → octets content →
  through s (write_handler display entry_seed capacity running writable hook controls tracker conn ip s content).
Proof.
  intros Hs Hx Hy Ho. unfold through, write_handler. eapply returns_bind; [by apply write_args_returns|]. intros [targets values] Hv.
  destruct (write_each_sound conn ip values Hx Hy targets s ∅ Hs Hv) as (els & s1 & cs & evs & -> & Hk). rewrite bind_Ok. cbv beta iota.
  destruct (report_changes_sound s1 cs (proj1 Hk)) as (s2 & -> & Hs2 & Hcn). simpl.
  eapply kept_trans; [exact Hk|]. split; [destruct Hs2; by split|exact Hcn].
Qed.
(** *** Reads *)

Lemma value_element_sound {E} v e : encodable v → ∃ el, value_element (E:=E) v e = Ok el.
Proof. intros [el Hel]%(encodable_any (E:=E)). unfold value_element. rewrite Hel. by eexists. Qed.

Lemma model_node_enc m domain n ln : enc_model m → (ld ← device m domain; node ld n) = Some ln → enc_node ln.
Proof.
  intros Hm (ld & Hd & Hn)%bind_Some. eapply enc_find; [|exact Hn]. unfold device in Hd. by apply (enc_find _ _ _ _ Hm) in Hd.
Qed.

Lemma select_by_read_sound conn now srv r : Y conn → ctl_sound srv → ctl_sound (select_by_read conn now srv r).2.
Proof.
  intros Hc Hs. unfold select_by_read. destruct (match declared_ctl_model _ _ with Some cm => _ | None => _ end); [done|].
  set (t := if decide (cf_millis _ _ _ = 0) then _ else _).
  pose proof (reserve_in srv r conn None t now Hc Hs) as Hr. by destruct (reserve _ _ _ _ _ _).
Qed.

Lemma read_one_sound {E} conn now srv pending domain item : Y conn → ctl_sound srv →
  ∃ e srv' pending', read_one (E:=E) conn now srv pending domain item = Ok (e, srv', pending') ∧ ctl_sound srv'.
Proof.
  intros Hc Hs. unfold read_one.
  assert (∃ e srv' pending', match (ld ← device (sv_model srv) domain; node ld (hd [] (split DOLLAR item))) with
    | None => Ok (E:=E) (access_failure ObjectNonExistent, srv, pending)
    | Some ln => e ← match resolve_read_err ln item with inl v => value_element v TypeInconsistent | inr code => Ok (access_failure code) end;
        Ok (e, srv, pending) end = Ok (e, srv', pending') ∧ ctl_sound srv') as Hread.
  { destruct (ld ← _; _) as [ln|] eqn:Hln; [|by do 3 eexists]. apply model_node_enc in Hln; [|apply Hs].
    destruct (resolve_read_err ln item) as [v|code] eqn:Hr; [|by do 3 eexists].
    destruct (value_element_sound (E:=E) v TypeInconsistent) as [el ->]; [|by do 3 eexists].
    eapply resolve_read_encodable; [exact Hln|]. unfold resolve_read. by rewrite Hr. }
  destruct (split_control item) as [[base []]|] eqn:Hsplit; try exact Hread.
  destruct (control_ref_total (E:=E) domain _ _ _ Hsplit) as [r ->]. rewrite bind_Ok. pose proof (select_by_read_sound conn now srv r Hc Hs) as Hsel.
  destruct (select_by_read conn now srv r) as [[name err] srv']. destruct (value_element_sound (E:=E) (VVisibleString name) ObjectNonExistent) as [el ->];
    [by apply plain_encodable|]. by do 3 eexists.
Qed.

Lemma read_each_sound {E} conn now targets : Y conn → ∀ srv pending, ctl_sound srv →
  ∃ es srv' pending', read_each (E:=E) conn now srv pending targets = Ok (es, srv', pending') ∧ ctl_sound srv'.
Proof.
  intros Hc. induction targets as [|t targets IH]; intros srv pending Hs; cbn [read_each]; [by do 3 eexists|].
  assert (∃ e srv' pending', match t with Some (domain, item) => read_one (E:=E) conn now srv pending domain item
    | None => Ok (access_failure ObjectNonExistent, srv, pending) end = Ok (e, srv', pending') ∧ ctl_sound srv') as (e & srv1 & p1 & -> & Hs1).
  { destruct t as [[domain item]|]; [by apply read_one_sound|by do 3 eexists]. }
  rewrite bind_Ok. cbv beta iota. destruct (IH srv1 p1 Hs1) as (es & srv2 & p2 & -> & Hs2). rewrite bind_Ok. by do 3 eexists.
Qed.

Lemma track_select_sound s acc p : kept s acc.1 → kept s (track_select display tracker acc p).1.
Proof.
  destruct acc as [s1 cs]. intros [Hs1 Hcn]. unfold track_select. pose proof (clock_now_sound s1 Hs1) as Hn. destruct (clock_now s1) as [now s2].
  destruct Hn as (Hn & Hs2 & Hcn2).
  pose proof (track_control_enc display tracker (in_model s2) cs (ps_reference p) ServiceType.SELECT (ps_err p) None None AC.NONE now (sd_model _ _ _ Hs2))
    as Ht. destruct (track_control _ _ _ _ _ _ _ _ _ _ _) as [m' cs']. split; [|simpl in *; congruence]. apply sound_model; [done|].
  by apply Ht.
Qed.

Lemma read_service_sound conn s content : sound X Y s → Y conn → octets content →
  through s (read_service display entry_seed capacity running tracker conn s content).
Proof.
  intros Hs Hc Ho. unfold through, read_service, read_instant. set (s1 := put_outside s _).
  assert (kept s s1) as Hk1 by (split; [destruct Hs; by split|done]). eapply returns_bind; [by apply read_targets_returns|]. intros targets _.
  destruct (read_each_sound (E:=MmsError) conn (hd 0 (ou_instants (in_outside s))) targets Hc (control_server s1 ∅) []) as (es & srv & p & -> & [_ Hsel]);
    [split; apply Hk1|]. rewrite bind_Ok. cbv beta iota. set (s2 := put_selections _ _).
  assert (kept s s2) as Hk2 by (split; [destruct Hk1 as [[] _]; by split|apply Hk1]).
  assert (∃ s3, flush_read_tracking display entry_seed capacity running tracker s2 p = Ok s3 ∧ kept s s3) as (s3 & E & Hk3).
  { unfold flush_read_tracking. case_match; [by exists s2|]. assert (kept s (foldl (track_select display tracker) (s2, ∅) p).1) as Hk.
    { apply (foldl_keeps (λ a, kept s a.1)); [done|]. intros a b _ Ha. by apply track_select_sound. }
    destruct (foldl _ _ _) as [s3 cs]. destruct (report_changes_sound s3 cs (proj1 Hk)) as (s4 & E & Hs4 & Hcn). exists s4. split; [exact E|].
    eapply kept_trans; [exact Hk|by split]. }
  rewrite (no_error_Ok _ _ E), bind_Ok. exact Hk3.
Qed.

(** *** Data sets and logs *)

Lemma set_data_sets_enc m domain n ln put l :
  enc_model m → node_at_mut m domain n = Some (ln, put) → enc_model (put (set_data_sets ln l)).
Proof.
  intros Hm ([ld pld] & Hd & ([n' pln] & Hn & [= <- <-])%bind_Some)%bind_Some. destruct (node_mut_enc m domain n ld pld n' pln) as [Hln Hput]; [done..|].
  by apply Hput.
Qed.

Lemma define_nvl_sound m content : enc_model m → octets content → settled (define_nvl m content).1 ∧ enc_model (define_nvl m content).2.
Proof.
  intros Hm Ho. unfold define_nvl. pose proof (define_args_returns content Ho) as Hr. destruct (define_args content) as [[[[domain n] ds] entries]|?| |];
    try done. destruct (node_at_mut m domain n) as [[ln put]|] eqn:E; [|done]. destruct (data_set ln ds); [done|]. split; [done|].
  by eapply set_data_sets_enc.
Qed.

Lemma delete_dataset_enc rcbs logs m domain l : enc_model m → enc_model (delete_dataset display rcbs logs m domain l).2.
Proof.
  intros Hm. unfold delete_dataset. destruct (split_once DOLLAR l) as [[n ds]|]; [|done]. destruct (lookup_dataset m domain l) as [d|]; [|done].
  destruct (ds_deletable d); [|done]. destruct (data_set_in_use _ _ _ _ _ _ _); [done|].
  destruct (node_at_mut m domain n) as [[ln put]|] eqn:E; [|done]. by eapply set_data_sets_enc.
Qed.

Lemma delete_nvl_sound rcbs logs m content :
  enc_model m → octets content → settled (delete_nvl display rcbs logs m content).1 ∧ enc_model (delete_nvl display rcbs logs m content).2.
Proof.
  intros Hm Ho. unfold delete_nvl.
  assert (returns (λ r, enc_model r.1.1) (l ← delete_args content; match l with
    | Some c => delete_loop display rcbs logs (S (length c)) (Decoder_new c) m 0 0 | None => Ok (m, 0, 0) end)) as Hr.
  { eapply returns_bind; [by apply delete_args_returns|]. intros [c|] Hc; [|done].
    apply delete_loop_returns; [intros; by apply delete_dataset_enc|by apply Decoder_new_wf|simpl; unfold zlen; lia|done]. }
  cbv zeta. destruct (l ← delete_args content; _) as [[[m' a] b]|?| |]; by try split.
Qed.

Lemma journal_page_sound {E} q entries max_pdu : Forall log_entry_enc entries → ∃ el, journal_page (E:=E) q entries max_pdu = Ok el.
Proof.
  intros He. unfold journal_page. assert (∀ l out, Forall log_entry_enc out → Forall log_entry_enc l → Forall log_entry_enc (select_loop q out l)) as Hsel.
  { induction l as [|e l IH]; intros out Ho Hl; cbn [select_loop]; [done|]. apply Forall_cons in Hl as [? ?].
    do 2 (match goal with |- context [if ?b then out else _] => destruct b; [done|] end). apply IH; [|done]. apply Forall_app. split; [done|by constructor]. }
  assert (Forall log_entry_enc (select q entries)) as Hs.
  { unfold select. destruct (query_from q entries); [|done]. apply Hsel; [done|]. by apply Forall_drop. }
  assert (∀ vars b, Forall (λ p, encodable p.2) vars → ∃ es, variable_elements (E:=E) (kept_vars q b vars) = Ok es) as Hvars.
  { induction vars as [|[t v] vars IH]; intros b Hv; cbn [kept_vars variable_elements]; [by eexists|]. apply Forall_cons in Hv as [Hv Hvs].
    set (k := if decide (t ≠ _) then _ else _). cbv zeta. destruct k; [|by apply IH]. cbn [variable_elements].
    destruct (encodable_any (E:=E) v Hv) as [el Hel]. unfold variable_element. cbn [fst snd]. rewrite Hel, !bind_Ok.
    destruct (IH true Hvs) as [es ->]. by eexists. }
  assert (∀ l, Forall log_entry_enc l → ∃ es, entry_elements (E:=E) q l = Ok es) as Hall.
  { induction 1 as [|e l Hentry _ [es IH]]; cbn [entry_elements]; [by eexists|]. unfold entry_element. destruct (Hvars _ true Hentry) as [vs ->].
    rewrite !bind_Ok, IH. by eexists. }
  destruct (Hall _ Hs) as [els ->]. rewrite bind_Ok. destruct (fill_page _ _). by eexists.
Qed.

Lemma read_journal_sound st content max_pdu : logs_enc st → octets content → settled (read_journal_handler st content max_pdu).
Proof.
  intros Hl Ho. unfold read_journal_handler. apply (returns_settled (λ _, True)). eapply returns_bind; [by apply parse_journal_query_returns|].
  intros q _. destruct (bt_get _ _) as [entries|] eqn:E; [|done]. apply (bt_get_Forall (Forall log_entry_enc)) in E; [|done].
  by destruct (journal_page_sound (E:=MmsError) q entries max_pdu E) as [el ->].
Qed.

Lemma initialize_journal_sound deletable st m content : logs_enc st → enc_model m → octets content →
  let '(r, (st', m')) := initialize_journal deletable st m content in settled r ∧ logs_enc st' ∧ enc_model m'.
Proof.
  intros Hl Hm Ho. unfold initialize_journal. pose proof (initialize_args_returns content Ho) as Hr.
  destruct (initialize_args content) as [[[j limit] limit_entry]|?| |]; try done. destruct (bt_get _ j) as [entries|]; [|done].
  destruct deletable; [|done]. split; [done|]. split; [|by apply sync_enc].
  apply (bt_alter_Forall (Forall log_entry_enc)); [done|]. intros l Hent. by apply Forall_drop.
Qed.
End safe.

(** ** SetFile, which calls the client back *)

Section obtaining.
Context {F : Type} `{FilesReturn F} (X Y : ConnId → Prop).
Implicit Types s : Inner F.
#[local] Set Default Proof Using "Type*".

(** What may go on forever, but does not panic, and keeps the server in order. *)
Definition calm {A} s (r : outcome MmsError A * Inner F) : Prop := r.1 ≠ Panic ∧ kept X Y s r.2.

(** A call of the client comes back with octets, or fails. *)
Definition calls (call : Element → Call (Inner F) (list Z)) : Prop :=
  ∀ e s, sound X Y s → calm s (call e s) ∧ ∀ b, (call e s).1 = Ok b → octets b.

Lemma calm_bind {A B} (m : Call (Inner F) A) (f : A → Call (Inner F) B) s :
  calm s (m s) → (∀ a s', m s = (Ok a, s') → sound X Y s' → calm s' (f a s')) → calm s ((m ≫= f) s).
Proof.
  intros [Hp Hk] Hf. unfold mbind, Call_bind. destruct (m s) as [[a|e| |] s'] eqn:E; try (by split).
  destruct (Hf a s' eq_refl (proj1 Hk)) as [Hp' Hk']. split; [done|]. by eapply kept_trans.
Qed.

Lemma calm_lift {A} (r : outcome MmsError A) s : sound X Y s → r ≠ Panic → calm s (lift r s).
Proof. intros Hs Hr. split; [done|]. by apply kept_refl. Qed.

Lemma returns_calm {A} (P : A → Prop) (r : outcome MmsError A) : returns P r → r ≠ Panic.
Proof. by destruct r. Qed.

Lemma kept_store s f : sound X Y s → kept X Y s (put_store s f).
Proof. intros []. split; [by split|done]. Qed.

Lemma calm_fs {A} (op : F → io A * F) err s :
  sound X Y s → (∀ f, settled (op f).1) → calm s (on_fs in_files put_store op err s).
Proof.
  intros Hs Hop. unfold on_fs. specialize (Hop (fw_fs (in_files s))). destruct (op _) as [r f]. split; [by destruct r|]. by apply kept_store.
Qed.

Lemma calm_attempt {A} (m : Call (Inner F) A) s : calm s (m s) → calm s (attempt m s).
Proof. intros [Hp Hk]. unfold attempt. by destruct (m s) as [[a|e| |] s']. Qed.

Context (call : Element → Call (Inner F) (list Z)) (Hcall : calls call).

Lemma copied_chunk_returns resp : octets resp → returns (λ _, True) (copied_chunk resp).
Proof. intros Ho. unfold copied_chunk. d_step. intros c d Hc _. d_step. intros x d' _ Hd'. d_step. done. Qed.

Lemma copy_loop_calm fuel : ∀ out frsm n s, sound X Y s → calm s (copy_loop call in_files put_store fuel out frsm n s).
Proof.
  induction fuel as [|fuel IH]; intros out frsm n s Hs; cbn [copy_loop]; [by apply calm_lift|].
  apply calm_bind; [by apply Hcall|]. intros resp s1 E1 Hs1. destruct (Hcall (int_elem (context_primitive SVC_FILE_READ) frsm) s Hs) as [_ Ho].
  rewrite E1 in Ho. specialize (Ho resp eq_refl). apply calm_bind; [by eapply calm_lift, returns_calm, copied_chunk_returns|].
  intros [data more] s2 _ Hs2. cbv zeta. case_decide; [by apply calm_lift|].
  apply calm_bind; [apply calm_fs; [done|intros; apply fs_write_all_settled]|]. intros _ s3 _ Hs3. destruct more; [by apply IH|]. split; [done|by apply kept_refl].
Qed.

Lemma opened_frsm_returns resp : octets resp → returns (λ _, True) (opened_frsm resp).
Proof.
  intros Ho. unfold opened_frsm. d_step. intros c d Hc _. d_step. intros x d' Hx _. apply returns_map_err. eapply returns_True. by apply decode_int_returns.
Qed.

Lemma fetch_file_calm fuel st src dst s : sound X Y s → calm s (fetch_file call in_files put_store fuel st src dst s).
Proof.
  intros Hs. unfold fetch_file. apply calm_bind; [by apply Hcall|]. intros resp s1 E1 Hs1.
  destruct (Hcall (file_open_request src) s Hs) as [_ Ho]. rewrite E1 in Ho. specialize (Ho resp eq_refl).
  apply calm_bind; [by eapply calm_lift, returns_calm, opened_frsm_returns|]. intros frsm s2 _ Hs2.
  apply calm_bind.
  { apply calm_attempt. unfold copy_file. apply calm_bind; [apply calm_fs; [done|intros; apply create_new_settled]|]. intros out s3 _ Hs3.
    apply calm_bind; [by apply copy_loop_calm|]. intros _ s4 _ Hs4. apply calm_fs; [done|]. intros; apply fs_flush_settled. }
  intros res s3 _ Hs3. apply calm_bind; [by apply calm_attempt, Hcall|]. intros _ s4 _ Hs4.
  destruct res; [split; [done|by apply kept_refl]|by apply calm_lift].
Qed.

Lemma obtain_file_sound fuel content s : sound X Y s → octets content →
  settled (obtain_file_service call in_files put_store fuel content s).1 ∧
  kept X Y s (obtain_file_service call in_files put_store fuel content s).2.
Proof.
  intros Hs Ho. unfold obtain_file_service. pose proof (obtain_args_returns (in_files s) content Ho) as Hr.
  destruct (obtain_args (in_files s) content) as [[[st src] dst]|?| |]; try done.
  destruct (fetch_file_calm fuel st src dst s Hs) as [Hp Hk]. unfold in_time.
  assert (∀ s1 e, kept X Y s s1 → let '(_, f) := delete_file st (fw_fs (in_files s1)) dst in
    settled (Err (A:=Element) (obtain_failure e)) ∧ kept X Y s (put_store s1 (set_fs (in_files s1) f))) as Hdel.
  { intros s1 e Hk1. destruct (delete_file _ _ _) as [r f]. split; [done|]. eapply kept_trans; [exact Hk1|]. apply kept_store, Hk1. }
  destruct (fetch_file _ _ _ _ _ _ _ s) as [[a|e| |] s1]; try done.
  - specialize (Hdel s1 e Hk). by destruct (delete_file _ _ _).
  - specialize (Hdel s1 (file_error FILE_ACCESS_DENIED) Hk). by destruct (delete_file _ _ _).
Qed.
End obtaining.

(** ** Every service *)

Lemma handle_sound {F} `{FilesReturn F} (display : Value → list Z) (entry_seed capacity : Z) (running : bool) (writable : gset Fc)
    (hook : option (DataAttribute → Value → option DataAccessError)) (controls : gmap ObjectReference (ControlCtx → AddCause * bool))
    (tracker : Tracker) (identity : ServerIdentity) (deletable_logs : bool) (call : Element → Call (Inner F) (list Z)) (fuel : nat)
    (X Y : ConnId → Prop) (conn : ConnId) (peer : option (IpAddr * Z)) (max_pdu service : Z) (content : list Z) (s : Inner F) :
  calls X Y call → sound X Y s → X conn → Y conn → octets content →
  let '(r, s') := handle display entry_seed capacity running writable hook controls tracker identity deletable_logs call fuel conn peer max_pdu service
    content s in
  settled r ∧ kept X Y s s'.
Proof.
  intros Hcall Hs Hx Hy Ho.
  assert (∀ m : outcome MmsError Element, settled m → settled m ∧ kept X Y s s) as Hasks by (by split; [|apply kept_refl]).
  assert (∀ m, through X Y s m → let '(r, s') := makes s m in settled r ∧ kept X Y s s') as Hmakes.
  { intros m Hm. unfold through in Hm. destruct m as [[e s']|e| |]; done. }
  unfold handle. destruct (decide _); [by apply Hasks|]. destruct (decide _); [by apply Hasks, name_list_settled|].
  destruct (decide _); [apply Hmakes; by apply read_service_sound|]. destruct (decide _); [apply Hmakes; by apply write_handler_sound|].
  destruct (decide _); [by apply Hasks, variable_access_settled|]. destruct (decide _); [by apply Hasks, nvl_attrs_settled|].
  destruct (decide _).
  { destruct (define_nvl_sound (in_model s) content (sd_model _ _ _ Hs) Ho) as [Hr Hm]. destruct (define_nvl _ _) as [r m]. split; [done|].
    split; [by apply sound_model|done]. }
  destruct (decide _).
  { destruct (delete_nvl_sound display (map (λ b, b.2.1) (in_rcbs s)) (in_logs s) (in_model s) content (sd_model _ _ _ Hs) Ho) as [Hr Hm].
    destruct (delete_nvl _ _ _ _ _) as [r m]. split; [done|]. split; [by apply sound_model|done]. }
  destruct (decide _); [by apply Hasks|]. destruct (decide _); [by apply Hasks, read_journal_sound; [apply Hs|]|].
  destruct (decide _); [by apply Hasks, journal_status_settled|]. destruct (decide _).
  { pose proof (initialize_journal_sound deletable_logs (in_logs s) (in_model s) content (sd_logs _ _ _ Hs) (sd_model _ _ _ Hs) Ho) as Hi.
    destruct (initialize_journal _ _ _ _) as [r [l m]]. destruct Hi as (Hr & Hl & Hm). split; [done|]. split; [|done]. destruct Hs. by split. }
  destruct (decide _).
  { pose proof (file_delete_settled (in_files s) content Ho). destruct (file_delete_service _ _) as [r f]. split; [done|by apply kept_store]. }
  destruct (decide _).
  { pose proof (file_rename_settled (in_files s) content Ho). destruct (file_rename_service _ _) as [r f]. split; [done|by apply kept_store]. }
  destruct (decide _).
  { destruct (obtain_file_sound X Y call Hcall fuel content s Hs Ho). by destruct (obtain_file_service _ _ _ _ _ _). }
  destruct (decide _); [|by apply Hasks].
  pose proof (file_service_settled (in_files s) service content max_pdu Ho). destruct (file_service _ _ _ _) as [r f]. split; [done|by apply kept_store].
Qed.
