(* ===== verification/ServerNew.v ===== *)
(** A server is made (src/src/server/server.rs, [Server::new]): its control blocks go
    into the model, its registries are built, and what it starts with is in order. *)

From stdpp Require Import gmap.
From S2P Require Import Prelude Ber BerDecoder BerPrim TimeUtil Utf8 Text Errors MmsValue MmsCodec TypeSpec.
From S2P Require Import ObjRef Quality BTree Nodes Blocks Access Tx Handler BlockStore Selections SettingGroup InfoReport Services Wire.
From S2P Require Import NameList Control Rcb ControlBlocks Svcb ReportPdu ReadService Journal Tracking DataSets.
From S2P Require Import FileStore FileService SetFile Reporting ReportOwner ReportSafe ModelSafe ServerState RequestSafe ServerSafe.
Local Open Scope string_scope.
Local Open Scope list_scope.
Local Open Scope Z_scope.

(** ** Options *)

(** Without the authenticator and TLS, which have their part before there is an
    association. *)
Record Options := mkOptions {
  op_identity : option ServerIdentity;
  op_file_store : option Path;
  op_max_connections : Z;
  op_report_buffer_size : Z;
  op_setting_groups : Z;
  op_writable_fcs : option (list Fc);
  op_file_store_read_only : bool;
  op_deletable_logs : bool;
  op_log_capacity : Z;
  op_time_quality : option Z;
}.

Definition Options_default : Options := mkOptions None None 0 0 0 None false false 0 None.

Definition writable_fcs (fcs : list Fc) : gset Fc := list_to_set (filter (λ fc, fc ∉ [St; Mx; Or; Ex; Sg]) fcs).

Section new.
Context {F : Type}.
(** [CARGO_PKG_VERSION]; whether there is a runtime for timers. *)
Context (version : list Z) (running : bool).

Definition Identity_default : ServerIdentity := mkServerIdentity (txt "rs-iec61850") [] version.

Definition server_identity (opts : Options) (m : Model) : ServerIdentity :=
  let id := default Identity_default (op_identity opts) in
  if decide (si_model_name id = []) then mkServerIdentity (si_vendor id) (model_name m) (si_revision id) else id.

Definition server_writable (opts : Options) : gset Fc := writable_fcs (default [Sp; Sv; Se] (op_writable_fcs opts)).

Definition server_clock (opts : Options) : Z := match op_time_quality opts with Some q => Clock_set q | None => Clock_default end.

(** The model as it is served, its setting groups and its report control blocks. *)
Definition served_model (opts : Options) (m : Model) (t : Z)
    : Model * BTreeMap (list Z) SettingGroupManager * list (list Z * (RcbState * RcbRuntime)) :=
  let '(m, groups) := materialise_sgcbs_with m (op_setting_groups opts) (Clock_now (server_clock opts) t) in
  let '(m, rcbs) := materialise_rcbs (materialise_control_blocks m) (op_report_buffer_size opts) in
  (m, groups, rcbs).

Definition server_files (opts : Options) : option FileStore :=
  (λ root, if op_file_store_read_only opts then FileStore_read_only root else FileStore_new root) <$> op_file_store opts.

(** [Server::new], at the time [t], with the file system and the rest of the world as
    they are. *)
Definition Server_new (opts : Options) (m : Model) (t : Z) (fs : F) (o : Outside) : Inner F :=
  let '(m, groups, rcbs) := served_model opts m t in
  mkInner m rcbs 0 (logs_start true running (LogManager_new m) m) (SvcbRegistry_build m) groups Selections_default ∅ [] 0
    (server_clock opts) (mkFileWorld (server_files opts) fs) o.
End new.

(** ** The blocks that are built *)

Lemma cb_attr_enc fc name v : encodable v → enc_attr (cb_attr fc name v).
Proof. intros Hv. constructor; [constructor|]. by intros w [= <-]. Qed.

Lemma leaves_enc name cdc l : Forall enc_attr l → enc_object (mkDO name cdc [] l).
Proof. intros Hl. by constructor; [|constructor]. Qed.

Lemma dst_address_enc fc mac pri vid app : enc_attr (dst_address fc mac pri vid app).
Proof. constructor; [|done]. repeat (apply Forall_cons_2; [apply cb_attr_enc; by apply plain_encodable|]). apply Forall_nil_2. Qed.

#[local] Opaque to_bits binary_time txt.

Lemma sv_opt_flds_encodable o : encodable (sv_opt_flds o).
Proof.
  assert (∃ bs, sv_opt_flds o = VBitString bs ∧ bs_wf bs) as (bs & -> & Hbs); [|by apply bits_encodable].
  unfold sv_opt_flds. apply (foldl_keeps (λ v, ∃ bs, v = VBitString bs ∧ bs_wf bs)).
  - eexists. split; [done|]. by apply BitString_new_wf.
  - intros v [i b] _ (bs & -> & Hbs). destruct (put_at_spec bs (Z.of_nat i) b Hbs) as (bs' & E & Hbs' & _); [lia|]. cbn [fst snd]. rewrite E. by eexists.
Qed.

(** Closes the encoding of a list of attributes with values that have one. *)
Ltac leaves :=
  repeat (apply Forall_cons_2; [first [apply dst_address_enc | apply cb_attr_enc]|]); try apply Forall_nil_2;
  first [apply binary_time_encodable | apply to_bits_encodable; lia | apply sv_opt_flds_encodable | by apply plain_encodable].

Lemma node_blocks_enc ld ln : Forall enc_object (node_blocks ld ln).
Proof.
  unfold node_blocks. rewrite !Forall_app, !Forall_map. split_and!; apply Forall_forall; intros b _.
  - unfold build_gocb_object. destruct (gc_kind b); apply leaves_enc; leaves.
  - unfold build_svcb_object. destruct (is_unicast b); apply leaves_enc; simpl; leaves.
  - unfold build_lcb_object. cbn zeta. apply leaves_enc. leaves.
Qed.

Lemma control_blocks_enc m : enc_model m → enc_model (materialise_control_blocks m).
Proof.
  intros Hm. unfold enc_model, materialise_control_blocks. cbn [model_devices set_devices]. rewrite Forall_map.
  eapply Forall_impl; [exact Hm|]. intros ld Hld. simpl. rewrite Forall_map. eapply Forall_impl; [exact Hld|].
  intros ln Hln. unfold enc_node. simpl. apply Forall_app_2; [done|apply node_blocks_enc].
Qed.

Lemma new_rcbs_sound X m d : Forall (rcb_sound X) (materialise_rcbs m d).2.
Proof.
  unfold materialise_rcbs. cbn [snd]. apply Forall_forall. intros b Hin%list_elem_of_In. apply in_flat_map in Hin as (ld & _ & Hin).
  apply in_flat_map in Hin as (ln & _ & Hin%list_elem_of_In). apply list_elem_of_fmap in Hin as ([o b'] & -> & Hin%list_elem_of_In).
  apply in_flat_map in Hin as (rc & _ & Hin%list_elem_of_In). apply elem_of_lookup_imap in Hin as (i & n & E & _).
  unfold materialise_one in E. destruct (r ← mjoin _; cr_ip r) as [ip|]; injection E as _ ->; (split; [by split; [|constructor]|by split]).
Qed.

(** ** Setting groups *)

Definition enc_device (ld : LogicalDevice) : Prop := Forall enc_node (ld_nodes ld).

(** The values the configuration gives its setting groups. *)
Definition enc_seeds (l : list SettingGroup) : Prop := Forall (λ g, Forall (λ p, encodable p.2) (sg_values g)) l.

Lemma node_put_enc ld n ln put ln' : enc_device ld → node_mut ld n = Some (ln, put) → enc_node ln ∧ (enc_node ln' → enc_device (put ln')).
Proof.
  intros Hld ([l pl] & Hf & [= -> <-])%bind_Some. pose proof (find_mut_Forall _ _ _ _ _ Hf Hld) as [Hl Hput]. split; [done|]. intros Hl'. by apply Hput.
Qed.

Lemma lookup_value_encodable ld r fc v : enc_device ld → lookup_value ld r fc = Some v → encodable v.
Proof.
  intros Hld. unfold lookup_value. destruct (ref_path r) as [|n [|d rest]]; [done..|].
  intros (ln & Hn & (o & Ho & H)%bind_Some)%bind_Some. apply (enc_find _ _ _ _ Hld) in Hn. apply (enc_find _ _ _ _ Hn) in Ho.
  destruct (descend_objects o rest) as [s rest'] eqn:Hs. apply descend_objects_enc in Hs; [|done]. apply bind_Some in H as (a & Ha & Hv).
  destruct rest' as [|n' names]; [done|]. cbn [attribute_in] in Ha. apply bind_Some in Ha as (a0 & Hf & Hd).
  eapply enc_attr_value; [|exact Hv]. eapply descend_members_enc; [|exact Hd]. inversion Hs as [? Hat _]; subst. by eapply enc_find.
Qed.

Lemma seed_group_enc mgr g : group_enc mgr → Forall (λ p, encodable p.2) (sg_values g) → group_enc (seed_group mgr g).
Proof.
  intros [Hn Hs] Hg. unfold seed_group. case_decide as Hd; [done|]. split; [done|]. simpl. rewrite Forall_map. eapply Forall_impl; [exact Hs|].
  intros s [Hl He]. destruct (bt_get (sg_values g) (st_sg s)) as [v|] eqn:E; [|done]. split; simpl.
  - unfold zlen in *. by rewrite length_insert.
  - apply Forall_insert; [done|]. exact (bt_get_Forall encodable _ _ _ Hg E).
Qed.

Lemma seed_groups_enc l : ∀ mgr, group_enc mgr → enc_seeds l → group_enc (seed_groups mgr l).
Proof.
  induction l as [|g l IH]; intros mgr Hm Hl; [done|]. apply Forall_cons in Hl as [Hg Hl]. simpl. apply IH; [|done]. by apply seed_group_enc.
Qed.

Lemma build_sgcb_enc n resv now : encodable now → enc_object (build_sgcb n resv now).
Proof.
  intros Hn. unfold build_sgcb. apply leaves_enc. apply Forall_app. split.
  - repeat (apply Forall_cons_2; [apply cb_attr_enc; first [done | by apply plain_encodable]|]). apply Forall_nil_2.
  - case_decide; [|constructor]. constructor; [apply cb_attr_enc; by apply plain_encodable|constructor].
Qed.

Lemma build_manager_enc ld n resv now declared mgr ld' :
  0 ≤ n → enc_device ld → encodable now → build_manager ld n resv now declared = Some (mgr, ld') → group_enc mgr ∧ enc_device ld'.
Proof.
  intros Hn0 Hld Hn. unfold build_manager. case_decide; [done|]. intros ([ln put] & Hm & [= <- <-])%bind_Some.
  destruct (node_put_enc ld _ ln put (set_ln_objects ln (ln_objects ln ++ [build_sgcb n resv now])) Hld Hm) as [Hln Hput]. split.
  - split; [done|]. simpl. unfold build_settings. rewrite Forall_map. apply Forall_forall. intros [key sg] _. split; simpl.
    + unfold zlen. rewrite length_replicate. lia.
    + apply Forall_replicate. destruct (lookup_value ld sg Sg) as [v|] eqn:E; [by eapply lookup_value_encodable|by apply plain_encodable].
  - apply Hput. unfold enc_node. simpl. apply Forall_app_2; [done|]. constructor; [by apply build_sgcb_enc|constructor].
Qed.

Lemma put_sgcb_enc ld attr v : enc_device ld → encodable v → enc_device (put_sgcb ld attr v).
Proof.
  intros Hld Hv. unfold put_sgcb. destruct ('(ln, put_ln) ← node_mut ld (txt "LLN0"); _) as [ld'|] eqn:E; [|done].
  apply bind_Some in E as ([ln pln] & Hn & ([o po] & Ho & ([a pa] & Ha & [= <-])%bind_Some)%bind_Some).
  destruct (node_put_enc ld _ ln pln (po (pa (set_value a (Some v)))) Hld Hn) as [Hln Hput]. apply Hput.
  apply bind_Some in Ho as ([o' po'] & Hfo & [= -> <-]). pose proof (find_mut_Forall _ _ _ _ _ Hfo Hln) as [Henc Hpo].
  apply bind_Some in Ha as ([a' pa'] & Hfa & [= -> <-]). apply Hpo.
  destruct (put_attribute_enc _ o a pa' (set_value a (Some v)) Henc Hfa) as [Hea Hpa]. by apply Hpa, set_value_enc.
Qed.

Lemma materialise_sgcb_enc seeds n now ld :
  0 ≤ n → match declared_setting_groups ld with Some d => 0 ≤ sc_num_of_sgs d | None => True end →
  enc_device ld → encodable now → enc_seeds seeds →
  enc_device (materialise_sgcb seeds n now ld).1 ∧ ∀ mgr, (materialise_sgcb seeds n now ld).2 = Some mgr → group_enc mgr.
Proof.
  intros Hn Hdecl Hld Hnow Hseeds. unfold materialise_sgcb. set (k := match declared_setting_groups ld with Some d => if decide _ then _ else _ | None => n end).
  assert (0 ≤ k) as Hk by (unfold k; destruct (declared_setting_groups ld); [case_decide|]; lia). clearbody k.
  case_decide; [by split|]. destruct (build_manager _ _ _ _ _) as [[mgr ld']|] eqn:E; [|by split].
  apply build_manager_enc in E as [Hm Hld']; [|done..]. pose proof (seed_groups_enc seeds mgr Hm Hseeds) as Hs.
  destruct (declared_setting_groups ld) as [d|]; [|by split; [|intros ? [= <-]]]. case_decide; [|by split; [|intros ? [= <-]]].
  split; [by apply put_sgcb_enc; [|apply plain_encodable]|]. intros ? [= <-]. exact Hs.
Qed.

Lemma bt_insert_Forall {K V} `{Ordered K} (P : V → Prop) k v (m : BTreeMap K V) :
  P v → Forall (λ e, P e.2) m → Forall (λ e, P e.2) (bt_insert k v m).
Proof.
  intros Hv. induction 1 as [|[k' v'] m Hk Hm IH]; cbn [bt_insert]; [by constructor|].
  destruct (cmp k k'); (apply Forall_cons; split; [done|]); [done|by apply Forall_cons|done].
Qed.

(** Numbers of groups are octets. *)
Definition groups_ok (m : Model) : Prop :=
  enc_seeds (model_setting_groups m) ∧
  Forall (λ ld, match declared_setting_groups ld with Some d => 0 ≤ sc_num_of_sgs d | None => True end) (model_devices m).

Lemma materialise_sgcbs_enc m n now : 0 ≤ n → groups_ok m → enc_model m → encodable now →
  enc_model (materialise_sgcbs_with m n now).1 ∧ Forall (λ g, group_enc g.2) (materialise_sgcbs_with m n now).2.
Proof.
  intros Hn [Hseeds Hdecl] Hm Hnow. unfold materialise_sgcbs_with. cbn [fst snd].
  assert (Forall (λ b : LogicalDevice * option SettingGroupManager, enc_device b.1 ∧ ∀ mgr, b.2 = Some mgr → group_enc mgr)
    (map (materialise_sgcb (model_setting_groups m) n now) (model_devices m))) as Hb.
  { rewrite Forall_map. pose proof (conj Hm Hdecl) as Hboth. apply Forall_and in Hboth. eapply Forall_impl; [exact Hboth|].
    intros ld [Hld Hd]. by apply materialise_sgcb_enc. }
  split.
  - unfold enc_model. cbn [model_devices set_devices]. rewrite Forall_map. eapply Forall_impl; [exact Hb|]. by intros b [? _].
  - revert Hb. generalize (map (materialise_sgcb (model_setting_groups m) n now) (model_devices m)). intros l Hl.
    apply (foldl_keeps (Forall (λ g : list Z * SettingGroupManager, group_enc g.2))); [constructor|]. intros out b Hin Hout.
    rewrite Forall_forall in Hl. destruct (Hl b Hin) as [_ Hg]. destruct b.2 as [mgr|]; [|done]. apply (bt_insert_Forall group_enc); [|done]. by apply Hg.
Qed.

(** ** What a server starts with *)

Lemma LogManager_new_enc m : logs_enc (LogManager_new m).
Proof.
  unfold LogManager_new.
  assert (∀ j js, Forall (λ j : (list Z * list Z) * list LogEntry, Forall log_entry_enc j.2) js → Forall (λ j, Forall log_entry_enc j.2) (bt_or_insert j [] js)) as Hor.
  { intros j js Hjs. unfold bt_or_insert. destruct (bt_contains js j); [done|]. by apply (bt_insert_Forall (Forall log_entry_enc)); [constructor|]. }
  apply (foldl_keeps logs_enc).
  - unfold logs_enc. cbn [lg_journals]. apply (foldl_keeps (Forall (λ j : (list Z * list Z) * list LogEntry, Forall log_entry_enc j.2))); [constructor|].
    intros js j _ Hjs. by apply Hor.
  - intros st ld _ Hst. apply (foldl_keeps logs_enc); [done|]. intros st1 ln _ Hst1. apply (foldl_keeps logs_enc); [done|].
    intros st2 lc _ Hst2. unfold add_lcb. destruct (cb_object _ _ _ _); [|done]. unfold logs_enc. cbn [lg_journals].
    destruct (log_target _ _ _); [by apply Hor|done].
Qed.

Lemma new_svcbs_free X m : Forall (λ b, owner_in X (sb_owner b.2)) (SvcbRegistry_build m).
Proof.
  unfold SvcbRegistry_build. apply (foldl_keeps (Forall (λ b : list Z * SvcbState, owner_in X (sb_owner b.2)))); [constructor|].
  intros r [k st] Hin Hr. apply (bt_insert_Forall (λ st, owner_in X (sb_owner st))); [|done]. simpl. apply list_elem_of_In in Hin. apply in_flat_map in Hin as (ld & _ & Hin).
  apply in_flat_map in Hin as (ln & _ & Hin%list_elem_of_In). apply list_elem_of_omap in Hin as (sc & _ & (o & _ & [= _ <-])%bind_Some). done.
Qed.

Lemma Server_new_sound {F} running opts m t (fs : F) o X Y :
  0 ≤ op_setting_groups opts → groups_ok m → enc_model m → sound X Y (Server_new running opts m t fs o).
Proof.
  intros Hn Hg Hm. unfold Server_new, served_model.
  assert (encodable (Clock_now (server_clock opts) t)) as Hnow by (unfold Clock_now, utc_time; destruct (unix_parts t); by apply plain_encodable).
  destruct (materialise_sgcbs_enc m (op_setting_groups opts) _ Hn Hg Hm Hnow) as [Hm1 Hg1].
  destruct (materialise_sgcbs_with _ _ _) as [m1 groups]. pose proof (materialise_enc (materialise_control_blocks m1) (op_report_buffer_size opts)
    (control_blocks_enc m1 Hm1)) as Hm2. pose proof (new_rcbs_sound X (materialise_control_blocks m1) (op_report_buffer_size opts)) as Hr.
  destruct (materialise_rcbs _ _) as [m2 rcbs]. split; try done; simpl.
  - apply (LogManager_new_enc m2).
  - apply new_svcbs_free.
Qed.
