(* ===== verification/ServerLife.v ===== *)
(** The life of a server (src/src/server/server.rs): clients that connect and leave,
    slots, requests, updates of the process, timers, and the end of everything an
    association held. The tasks of the server take turns: a step is what one of them does
    between the locks it takes. A request is one step, also a SetFile, whose calls of the
    client keep the server in order. *)

From stdpp Require Import gmap.
From S2P Require Import Prelude Ber BerDecoder BerPrim TimeUtil Utf8 Text Errors MmsValue MmsCodec TypeSpec.
From S2P Require Import ObjRef Quality BTree Nodes Blocks Access Tx Handler BlockStore Selections SettingGroup InfoReport Services Wire.
From S2P Require Import NameList Control Rcb ControlBlocks Svcb ReportPdu ReadService Journal Tracking DataSets.
From S2P Require Import FileStore FileService SetFile Reporting ReportOwner ReportSafe ModelSafe ServerState RequestSafe ServerSafe ServerNew.
Local Open Scope string_scope.
Local Open Scope list_scope.
Local Open Scope Z_scope.

(** ** State *)

Abbreviation Peer := (option (IpAddr * Z)).

Inductive ConnectionState := ConnOpened | ConnClosed | ConnRefused.

Record ConnectionEvent := mkConnEvent {
  ce_peer : Peer;
  ce_state : ConnectionState;
  ce_open : Z;
  ce_conn : option ConnId;
}.

(** The slots in use, the next id, and where the tasks of [serve_transport] are: setting
    up an association, past its end with the slot still taken, or with the slot free and
    the selections still there. The associations being served are those of [in_conns]. *)
Record Hub (F : Type) := mkHub {
  hb_inner : Inner F;
  hb_open : Z;
  hb_next : Z;
  hb_setup : list Peer;
  hb_ended : list (ConnId * Peer);
  hb_parting : list (ConnId * Peer * Z);
  hb_events : list ConnectionEvent;
}.
Arguments mkHub {F}.
Arguments hb_inner {F}.
Arguments hb_open {F}.
Arguments hb_next {F}.
Arguments hb_setup {F}.
Arguments hb_ended {F}.
Arguments hb_parting {F}.
Arguments hb_events {F}.

Inductive HubOp :=
| Arrive (peer : Peer)
| SetupFails (i : nat)
| Establish (i : nat) (max_pdu : Z)
| Request (c : ConnId) (service : Z) (content : list Z)
| Leave (c : ConnId)
| FreeSlot (i : nat)
| Forget (i : nat)
| Process (sets : list (ObjectReference * Fc * Value))
| Window (key : list Z) (generation : Z)
| Period (key : list Z) (generation : Z)
| Reservation (key : list Z) (generation : Z)
| LogPeriod (key : list Z) (generation : Z)
| SetQuality (q : Z)
| SetStatus (logical physical : Z)
| Stop.

Definition put_quality {F} (s : Inner F) (q : Z) : Inner F :=
  mkInner (in_model s) (in_rcbs s) (in_counter s) (in_logs s) (in_svcbs s) (in_groups s) (in_selections s) (in_conns s) (in_sv_queue s)
    (in_status s) q (in_files s) (in_outside s).

(** ** Steps *)

Section life.
Context {F : Type} `{FileSystem F}.
Context (display : Value → list Z) (entry_seed capacity : Z) (running : bool) (writable : gset Fc)
  (hook : option (DataAttribute → Value → option DataAccessError)) (controls : gmap ObjectReference (ControlCtx → AddCause * bool))
  (tracker : Tracker) (identity : ServerIdentity) (deletable_logs : bool) (call : Element → Call (Inner F) (list Z)) (fuel : nat)
  (max_conns : Z).
Implicit Types h : Hub F.

Definition put_inner h (s : Inner F) : Hub F := mkHub s (hb_open h) (hb_next h) (hb_setup h) (hb_ended h) (hb_parting h) (hb_events h).

Definition notify h (e : ConnectionEvent) : Hub F :=
  mkHub (hb_inner h) (hb_open h) (hb_next h) (hb_setup h) (hb_ended h) (hb_parting h) (hb_events h ++ [e]).

(** [take_slot]: the slots in use, and whether one was free. *)
Definition take_slot (open : Z) : outcome Empty_set (Z * bool) :=
  if decide (0 < max_conns ∧ max_conns ≤ open) then Ok (open, false)
  else if decide (open = 2 ^ 64 - 1) then Panic
  else Ok (open + 1, true).

Definition release_slot (open : Z) : Z := saturating_sub open 1.

Definition arrive h (peer : Peer) : outcome Empty_set (Hub F) :=
  '(open, allowed) ← take_slot (hb_open h);
  Ok (if (allowed : bool)
      then mkHub (hb_inner h) open (hb_next h) (hb_setup h ++ [peer]) (hb_ended h) (hb_parting h) (hb_events h)
      else notify h (mkConnEvent peer ConnRefused open None)).

Definition setup_fails h (i : nat) : Hub F :=
  mkHub (hb_inner h) (release_slot (hb_open h)) (hb_next h) (delete i (hb_setup h)) (hb_ended h) (hb_parting h) (hb_events h).

Definition establish h (i : nat) (max_pdu : Z) : Hub F :=
  match hb_setup h !! i with
  | None => h
  | Some peer =>
      let id := hb_next h in
      let conns := <[id := (peer, max_pdu)]> (in_conns (hb_inner h)) in
      notify
        (mkHub (put_conns (hb_inner h) conns) (hb_open h) (u64 (hb_next h + 1)) (delete i (hb_setup h)) (hb_ended h) (hb_parting h) (hb_events h))
        (mkConnEvent peer ConnOpened (Z.of_nat (size conns)) (Some id))
  end.

(** What the association held goes, but for its slot and its selections. *)
Definition association_ends (s : Inner F) (c : ConnId) : outcome Empty_set (Inner F) :=
  let s := put_conns s (delete c (in_conns s)) in
  s ← all_blocks (λ rs w, disable_conn display rs entry_seed true running w c) s;
  let '(r, (m, evs)) := svcb_release_conn c (in_svcbs s) (in_model s, []) in
  Ok (flush_sv (queue_sv (put_svcbs (put_model s m) r) evs)).

Definition leave h (c : ConnId) : outcome Empty_set (Hub F) :=
  match in_conns (hb_inner h) !! c with
  | None => Ok h
  | Some (peer, _) =>
      s ← association_ends (hb_inner h) c;
      Ok (mkHub s (hb_open h) (hb_next h) (hb_setup h) (hb_ended h ++ [(c, peer)]) (hb_parting h) (hb_events h))
  end.

Definition free_slot h (i : nat) : Hub F :=
  match hb_ended h !! i with
  | None => h
  | Some (c, peer) =>
      let open := release_slot (hb_open h) in
      mkHub (hb_inner h) open (hb_next h) (hb_setup h) (delete i (hb_ended h)) (hb_parting h ++ [(c, peer, open)]) (hb_events h)
  end.

Definition forget h (i : nat) : Hub F :=
  match hb_parting h !! i with
  | None => h
  | Some (c, peer, open) =>
      notify
        (mkHub (put_selections (hb_inner h) (release_conn (in_selections (hb_inner h)) c)) (hb_open h) (hb_next h) (hb_setup h) (hb_ended h)
           (delete i (hb_parting h)) (hb_events h))
        (mkConnEvent peer ConnClosed open (Some c))
  end.

Definition request h (c : ConnId) (service : Z) (content : list Z) : outcome Empty_set (Hub F) :=
  match in_conns (hb_inner h) !! c with
  | None => Ok h
  | Some (peer, max_pdu) =>
      match handle display entry_seed capacity running writable hook controls tracker identity deletable_logs call fuel c peer max_pdu
              service content (hb_inner h) with
      | (Ok _, s) | (Err _, s) => Ok (put_inner h s)
      | (Panic, _) => Panic
      | (NoFuel, _) => NoFuel
      end
  end.

Definition on_inner h (m : outcome Empty_set (Inner F)) : outcome Empty_set (Hub F) := s ← m; Ok (put_inner h s).

(** [Server::close]; the associations end in their own time. *)
Definition stop (s : Inner F) : outcome Empty_set (Inner F) :=
  s ← all_blocks (λ rs w, Ok (shutdown w)) s; Ok (put_logs s (logs_close (in_logs s))).

Definition hub_do h (op : HubOp) : outcome Empty_set (Hub F) :=
  let s := hb_inner h in
  match op with
  | Arrive peer => arrive h peer
  | SetupFails i => Ok (setup_fails h i)
  | Establish i max_pdu => Ok (establish h i max_pdu)
  | Request c service content => request h c service content
  | Leave c => leave h c
  | FreeSlot i => Ok (free_slot h i)
  | Forget i => Ok (forget h i)
  | Process sets => on_inner h ('(_, s) ← update display entry_seed capacity running s (λ tx, ((), tx_run sets tx)); Ok s)
  | Window key g => on_inner h (at_block key (λ rs w, window_fires display rs entry_seed w g) s)
  | Period key g => on_inner h (at_block key (λ rs w, integrity_fires display rs entry_seed w g) s)
  | Reservation key g => on_inner h (at_block key (λ rs w, Ok (resv_fires rs w g)) s)
  | LogPeriod key g => Ok (put_inner h (log_step s (λ w, (log_all display (next_entry_id entry_seed) capacity w key g).1)))
  | SetQuality q => Ok (put_inner h (put_quality s (Clock_set q)))
  | SetStatus l p => Ok (put_inner h (set_status s l p))
  | Stop => on_inner h (stop s)
  end.

(** What can come next: the tasks that are there go on; requests are octets, the process
    sets values that have an encoding, and neither the slots nor the ids run out. *)
Definition hub_op_ok h (op : HubOp) : Prop :=
  match op with
  | Arrive _ => hb_open h < 2 ^ 64 - 1
  | SetupFails i => is_Some (hb_setup h !! i)
  | Establish i _ => is_Some (hb_setup h !! i) ∧ hb_next h < 2 ^ 64 - 1
  | Request c _ content => is_Some (in_conns (hb_inner h) !! c) ∧ octets content
  | Leave c => is_Some (in_conns (hb_inner h) !! c)
  | FreeSlot i => is_Some (hb_ended h !! i)
  | Forget i => is_Some (hb_parting h !! i)
  | Process sets => Forall (λ p, encodable p.2) sets
  | _ => True
  end.

Definition hub_step h h' : Prop := ∃ op, hub_op_ok h op ∧ hub_do h op = Ok h'.
End life.

Definition Hub_new {F} (s : Inner F) : Hub F := mkHub s 0 1 [] [] [] [].

(** ** What is kept *)

Section kept.
Context {F : Type} (X Y : ConnId → Prop).
Implicit Types s : Inner F.

Lemma sound_impl (X' Y' : ConnId → Prop) s : (∀ c, X c → X' c) → (∀ c, Y c → Y' c) → sound X Y s → sound X' Y' s.
Proof.
  intros HX HY []. split; try done.
  - eapply Forall_impl; [exact sd_rcbs|]. intros b [He Hh]. split; [done|by eapply held_in_impl].
  - eapply Forall_impl; [exact sd_svcbs|]. intros b Ho c Hc. by apply HX, Ho.
  - intros r sel Hl. by apply HY, (sd_selections r sel).
Qed.

Lemma tx_run_enc sets : ∀ tx, enc_model (tx_model tx) → Forall (λ p, encodable p.2) sets → enc_model (tx_model (tx_run sets tx)).
Proof.
  induction sets as [|[[r fc] v] sets IH]; intros tx Hm Hs; [done|]. apply Forall_cons in Hs as [Hv Hs]. simpl. apply IH; [|done].
  unfold tx_set. simpl. destruct (attribute_mut (tx_model tx) r fc) as [[a put]|] eqn:E; [|done]. case_decide; [done|]. simpl.
  destruct (attribute_mut_enc _ _ _ _ _ Hm E) as [Ha Hput]. by apply Hput, set_value_enc.
Qed.

Lemma update_sound display entry_seed capacity running s sets :
  sound X Y s → Forall (λ p, encodable p.2) sets →
  ∃ s', update display entry_seed capacity running s (λ tx, ((), tx_run sets tx)) = Ok ((), s') ∧ kept X Y s s'.
Proof.
  intros Hs Hv. unfold update. pose proof (tx_run_enc sets (with_clock (in_model s) (in_quality s)) (sd_model _ _ _ Hs) Hv) as Hm.
  destruct (report_changes_sound display entry_seed capacity running X Y (put_model s (tx_model (tx_run sets (with_clock (in_model s) (in_quality s)))))
    (tx_changed (tx_run sets (with_clock (in_model s) (in_quality s)))) (sound_model _ _ _ _ Hs Hm)) as (s' & -> & Hs' & Hc).
  rewrite bind_Ok. by exists s'.
Qed.

Lemma log_all_sound display entry_id capacity s key g :
  sound X Y s → kept X Y s (log_step s (λ w, (log_all display entry_id capacity w key g).1)).
Proof.
  intros Hs. unfold log_step. set (w := mkLogWorld _ _ _ _).
  assert (enc_model (lw_model (log_all display entry_id capacity w key g).1) ∧ logs_enc (lw_logs (log_all display entry_id capacity w key g).1)) as [Hm Hl].
  { assert (enc_model (lw_model w) ∧ logs_enc (lw_logs w)) as [Hm Hl] by (split; apply Hs). unfold log_all.
    destruct (bt_get _ key) as [lcb|]; [|done]. case_decide; [done|]. destruct (lb_journal lcb) as [j|]; [|done]. cbn [fst].
    apply append_entry_enc; [done|done|]. apply foldl_keeps; [constructor|]. intros vs mb _ Hvs. by apply append_member_enc. }
  split; [|done]. destruct Hs. by split.
Qed.

(** The timers of a report control block. *)
Lemma window_blocks display entry_seed g : block_safe X X (λ rs w, window_fires display rs entry_seed w g).
Proof.
  intros rs w Hs Hh. unfold window_fires. case_decide; [|by exists w].
  set (w1 := with_st w _). assert (sane w1) as Hs1 by (apply sane_st; [done|..]; by destruct (w_st w)).
  destruct (flush_goes_on display rs entry_seed w1 Hs1) as (w' & E & Hs'). exists w'. split; [done|]. split; [done|].
  apply flush_pending_holder in E. eapply held_in_holder; [exact E|]. eapply held_in_holder; [|exact Hh]. apply holder_set_pending.
Qed.

Lemma period_blocks display entry_seed g : block_safe X X (λ rs w, integrity_fires display rs entry_seed w g).
Proof.
  intros rs w Hs Hh. unfold integrity_fires. case_decide; [by exists w|].
  destruct (report_all_safe display rs entry_seed w (trg INTEGRITY) Hs) as (w' & E & Hs'). exists w'. split; [done|]. split; [done|].
  apply report_all_holder in E. by eapply held_in_holder.
Qed.

Lemma reservation_blocks g : block_safe X X (λ rs w, Ok (resv_fires rs w g)).
Proof.
  intros rs w Hs [Ho Hc]. eexists. split; [done|]. unfold resv_fires. case_decide; [|by split].
  split; [apply sync_resv_sane, sane_st; [done|..]; by destruct (w_st w)|]. rewrite sync_resv_st. simpl. by destruct (w_st w).
Qed.

Lemma shutdown_blocks : block_safe X X (λ rs w, Ok (shutdown w)).
Proof.
  intros rs w Hs [Ho Hc]. eexists. split; [done|]. split; [apply (sane_st w); [done|..]; by destruct (w_st w)|].
  unfold shutdown. simpl. by destruct (w_st w).
Qed.

Lemma at_block_kept key op s : block_safe X X op → sound X Y s → ∃ s', at_block key op s = Ok s' ∧ kept X Y s s'.
Proof. intros Hop Hs. destruct (at_block_sound X Y key op s Hop Hs) as (s' & E & Hk). by exists s'. Qed.

Lemma all_blocks_kept op s : block_safe X X op → sound X Y s → ∃ s', all_blocks op s = Ok s' ∧ kept X Y s s'.
Proof.
  intros Hop Hs. destruct (all_blocks_sound X X Y op s Hop Hs) as (s' & E & (m & n & o & Es') & Hm & Hr). exists s'. split; [done|].
  rewrite Es' in *. split; [|done]. destruct Hs. by split.
Qed.

Lemma stop_sound s : sound X Y s → ∃ s', stop s = Ok s' ∧ kept X Y s s'.
Proof.
  intros Hs. unfold stop. destruct (all_blocks_kept (λ _ w, Ok (shutdown w)) s shutdown_blocks Hs) as (s1 & -> & [Hs1 Hc]).
  rewrite bind_Ok. eexists. split; [done|]. split; [|done]. destruct Hs1. by split.
Qed.

Lemma sv_release_sound c r m evs :
  enc_model m → Forall (λ b, owner_in X (sb_owner b.2)) r →
  let '(r', (m', _)) := svcb_release_conn c r (m, evs) in enc_model m' ∧ Forall (λ b, owner_in (λ x, X x ∧ x ≠ c) (sb_owner b.2)) r'.
Proof.
  revert m evs. induction r as [|[k st] r IH]; intros m evs Hm Hr; [by split|]. apply Forall_cons in Hr as [Ho Hr]. cbn [svcb_release_conn].
  assert (let '(st', (m', _)) := release_svcb c (m, evs) st in enc_model m' ∧ owner_in (λ x, X x ∧ x ≠ c) (sb_owner st')) as Hone.
  { unfold release_svcb. case_decide as Hd; [|split; [done|]; intros x Hx; split; [by apply Ho|congruence]]. simpl. split; [|done].
    by repeat (apply block_put_enc; [|by apply plain_encodable]). }
  destruct (release_svcb c (m, evs) st) as [st' [m1 evs1]]. destruct Hone as [Hm1 Ho1]. specialize (IH m1 evs1 Hm1 Hr).
  destruct (svcb_release_conn c r (m1, evs1)) as [r' [m2 evs2]]. destruct IH as [Hm2 Hr2]. split; [done|]. by constructor.
Qed.

(** An association that ends leaves no block behind. *)
Lemma association_ends_sound display entry_seed running s c :
  sound X Y s → ∃ s', association_ends display entry_seed running s c = Ok s' ∧ sound (λ x, X x ∧ x ≠ c) Y s' ∧ in_conns s' = delete c (in_conns s).
Proof.
  intros Hs. unfold association_ends. set (s0 := put_conns s _). assert (sound X Y s0) as Hs0 by (destruct Hs; by split).
  destruct (all_blocks_sound X (λ x, X x ∧ x ≠ c) Y (λ rs w, disable_conn display rs entry_seed true running w c) s0) as
    (s1 & -> & (m & n & o & E) & Hm & Hr); [apply disable_conn_blocks|done|]. rewrite bind_Ok.
  assert (Forall (λ b, owner_in X (sb_owner b.2)) (in_svcbs s1)) as Hv by (rewrite E; apply Hs).
  pose proof (sv_release_sound c (in_svcbs s1) (in_model s1) [] Hm Hv) as Hrel. destruct (svcb_release_conn _ _ _) as [r [m' evs]]. destruct Hrel as [Hm' Hr'].
  eexists. split; [done|]. split; [|by rewrite E]. destruct Hs. split; simpl; try done; by rewrite E.
Qed.
End kept.

(** ** The invariant *)

Section invariant.
Context {F : Type} `{FilesReturn F}.
Context (display : Value → list Z) (entry_seed capacity : Z) (running : bool) (writable : gset Fc)
  (hook : option (DataAttribute → Value → option DataAccessError)) (controls : gmap ObjectReference (ControlCtx → AddCause * bool))
  (tracker : Tracker) (identity : ServerIdentity) (deletable_logs : bool) (call : Element → Call (Inner F) (list Z)) (fuel : nat)
  (max_conns : Z).
Context (Hcall : ∀ X Y, calls X Y call).
Implicit Types h : Hub F.
#[local] Set Default Proof Using "Type*".

(** The associations being served, and those that have ended and still have selections. *)
Definition live h (c : ConnId) : Prop := is_Some (in_conns (hb_inner h) !! c).
Definition leaving h (c : ConnId) : Prop := c ∈ (hb_ended h).*1 ∨ c ∈ (hb_parting h).*1.*1.
Definition around h (c : ConnId) : Prop := live h c ∨ leaving h c.

Record hub_inv h : Prop := {
  hi_slots : hb_open h = zlen (hb_setup h) + Z.of_nat (size (in_conns (hb_inner h))) + zlen (hb_ended h);
  hi_max : 0 < max_conns → hb_open h ≤ max_conns;
  hi_next : 1 ≤ hb_next h < 2 ^ 64;
  hi_ids : ∀ c, around h c → 1 ≤ c < hb_next h;
  hi_sound : sound (live h) (around h) (hb_inner h);
}.

(** Ids are not given out again. *)
Definition only_new h h' : Prop := hb_next h ≤ hb_next h' ∧ ∀ c, around h' c → around h c ∨ hb_next h ≤ c.

Definition goes_well h (m : outcome Empty_set (Hub F)) : Prop := ∃ h', m = Ok h' ∧ hub_inv h' ∧ only_new h h'.

Lemma inner_well h s : hub_inv h → kept (live h) (around h) (hb_inner h) s → goes_well h (Ok (put_inner h s)).
Proof.
  intros [] [Hs Hc]. eexists. split; [done|]. assert (∀ c, live (put_inner h s) c ↔ live h c) as Hl by (intros c; unfold live; simpl; by rewrite Hc).
  assert (∀ c, around (put_inner h s) c ↔ around h c) as Ha by (intros c; unfold around; by rewrite Hl).
  split; [|split; [done|]; intros c Hc'; left; by apply Ha]. split; try done.
  - simpl. by rewrite Hc.
  - intros c Hc'. by apply hi_ids0, Ha.
  - eapply sound_impl; [..|exact Hs]; intros c Hc'; [by apply Hl|by apply Ha].
Qed.

Lemma on_inner_well h m : hub_inv h → (∃ s, m = Ok s ∧ kept (live h) (around h) (hb_inner h) s) → goes_well h (on_inner h m).
Proof. intros Hi (s & -> & Hk). by apply inner_well. Qed.

Lemma zlen_delete {A} (l : list A) i : is_Some (l !! i) → zlen (delete i l) = zlen l - 1.
Proof. intros [x Hx]. pose proof (lookup_lt_Some _ _ _ Hx). unfold zlen. rewrite length_delete by eauto. lia. Qed.

(** Who is left when one of a list goes. *)
Lemma fmap_delete_elem {A} (f : A → ConnId) (l : list A) i x c : l !! i = Some x → c ∈ f <$> l ↔ c = f x ∨ c ∈ f <$> delete i l.
Proof. intros Hx. rewrite (delete_Permutation l i x Hx) at 1. by rewrite fmap_cons, elem_of_cons. Qed.

Lemma arrive_well h peer : hub_inv h → hb_open h < 2 ^ 64 - 1 → goes_well h (arrive max_conns h peer).
Proof.
  intros [] Ho. unfold arrive, take_slot. case_decide as Hd; [|rewrite decide_False by lia]; rewrite bind_Ok; eexists; (split; [done|]).
  - split; [by split|]. split; [done|by left].
  - split; [|split; [done|by left]]. split; try done; simpl; [unfold zlen in *; rewrite length_app; simpl; lia|lia].
Qed.

Lemma setup_fails_well h i : hub_inv h → is_Some (hb_setup h !! i) → goes_well h (Ok (setup_fails h i)).
Proof.
  intros [] Hi. eexists. split; [done|]. pose proof (zlen_delete _ _ Hi) as Hz.
  assert (release_slot (hb_open h) = hb_open h - 1) as Hr by (unfold release_slot, saturating_sub, zlen in *; lia).
  split; [|split; [done|by left]]. split; try done; simpl; rewrite Hr; [|lia]. lia.
Qed.

Lemma establish_well h i max_pdu :
  hub_inv h → is_Some (hb_setup h !! i) → hb_next h < 2 ^ 64 - 1 → goes_well h (Ok (establish h i max_pdu)).
Proof.
  intros [] Hi Hn. pose proof (zlen_delete _ _ Hi) as Hz. unfold establish. destruct Hi as [peer ->]. eexists. split; [done|].
  assert (u64 (hb_next h + 1) = hb_next h + 1) as Hu by (unfold u64; apply wrap_id; unfold in_u; lia). cbn zeta. rewrite Hu.
  set (s := put_conns _ _). set (h' := notify _ _).
  assert (in_conns (hb_inner h) !! hb_next h = None) as Hfree.
  { destruct (in_conns (hb_inner h) !! hb_next h) eqn:E; [|done]. assert (around h (hb_next h)) as Ha%hi_ids0 by (left; by eexists). lia. }
  assert (∀ c, live h' c ↔ c = hb_next h ∨ live h c) as Hl.
  { intros c. unfold live. simpl. destruct (decide (c = hb_next h)) as [->|Hne].
    - rewrite lookup_insert_eq. naive_solver.
    - rewrite lookup_insert_ne by done. naive_solver. }
  assert (∀ c, around h' c ↔ c = hb_next h ∨ around h c) as Ha by (intros c; unfold around; rewrite Hl; unfold leaving; simpl; tauto).
  split; [|split; [simpl; lia|]; intros c [->|Hc]%Ha; [by right|by left]].
  split; simpl; try lia; try done.
  - rewrite map_size_insert_None by done. lia.
  - intros c [->|Hc]%Ha; [lia|]. apply hi_ids0 in Hc. lia.
  - assert (sound (live h) (around h) s) as Hs by (destruct hi_sound0; by split).
    eapply sound_impl; [..|exact Hs]; intros c Hc; [apply Hl|apply Ha]; by right.
Qed.

Lemma leave_well h c : hub_inv h → goes_well h (leave display entry_seed running h c).
Proof.
  intros Hi. unfold leave. destruct (in_conns (hb_inner h) !! c) as [[peer p]|] eqn:Hc; [|by exists h; split; [|split; [|split; [|by left]]]]. destruct Hi.
  destruct (association_ends_sound (live h) (around h) display entry_seed running (hb_inner h) c hi_sound0) as (s & -> & Hs & Hcn). rewrite bind_Ok.
  eexists. split; [done|]. set (h' := mkHub _ _ _ _ _ _ _).
  assert (∀ x, live h' x ↔ live h x ∧ x ≠ c) as Hl.
  { intros x. unfold live. simpl. rewrite Hcn. destruct (decide (x = c)) as [->|Hne].
    - rewrite lookup_delete_eq. split; [by intros [??]|by intros [_ []]].
    - rewrite lookup_delete_ne by done. tauto. }
  assert (∀ x, leaving h' x ↔ leaving h x ∨ x = c) as Hlv.
  { intros x. unfold leaving. simpl. rewrite fmap_app, elem_of_app. simpl. rewrite list_elem_of_singleton. tauto. }
  assert (∀ x, around h' x ↔ around h x) as Ha.
  { intros x. unfold around. rewrite Hl, Hlv. assert (live h c) by (by eexists). destruct (decide (x = c)) as [->|]; tauto. }
  split; [|split; [simpl; lia|]; intros x Hx; left; by apply Ha]. split; try done.
  - simpl. rewrite Hcn, map_size_delete_Some by (by eexists). assert (size (in_conns (hb_inner h)) ≠ 0%nat).
    { intros E%map_size_empty_inv. by rewrite E in Hc. }
    unfold zlen in *. rewrite length_app. simpl. lia.
  - intros x Hx%Ha. by apply hi_ids0.
  - eapply sound_impl; [..|exact Hs]; intros x Hx; [by apply Hl|by apply Ha].
Qed.

Lemma free_slot_well h i : hub_inv h → is_Some (hb_ended h !! i) → goes_well h (Ok (free_slot h i)).
Proof.
  intros [] Hi. pose proof (zlen_delete _ _ Hi) as Hz. unfold free_slot. destruct Hi as [[c peer] Hc]. rewrite Hc. eexists. split; [done|]. cbn zeta.
  assert (release_slot (hb_open h) = hb_open h - 1) as -> by (unfold release_slot, saturating_sub, zlen in *; lia). set (h' := mkHub _ _ _ _ _ _ _).
  assert (∀ x, around h' x ↔ around h x) as Ha.
  { intros x. unfold around, leaving. simpl. rewrite !fmap_app, elem_of_app. simpl. rewrite list_elem_of_singleton, (fmap_delete_elem fst _ _ _ x Hc).
    unfold live. simpl. tauto. }
  split; [|split; [simpl; lia|]; intros x Hx; left; by apply Ha]. split; simpl; try lia; try done.
  - intros x Hx%Ha. by apply hi_ids0.
  - eapply sound_impl; [..|exact hi_sound0]; intros x Hx; [done|by apply Ha].
Qed.

Lemma forget_well h i : hub_inv h → goes_well h (Ok (forget h i)).
Proof.
  intros Hi. unfold forget. destruct (hb_parting h !! i) as [[[c peer] open]|] eqn:Hc; [|by exists h; split; [|split; [|split; [|by left]]]]. destruct Hi.
  eexists. split; [done|]. set (h' := notify _ _).
  assert (∀ x, around h x ↔ x = c ∨ around h' x) as Ha.
  { intros x. unfold around, leaving. simpl. rewrite <-!list_fmap_compose, (fmap_delete_elem (fst ∘ fst) _ _ _ x Hc).
    unfold live. simpl. tauto. }
  split; [|split; [simpl; lia|]; intros x Hx; left; apply Ha; by right]. split; try done.
  - intros x Hx. apply hi_ids0, Ha. by right.
  - destruct hi_sound0. split; try done. simpl. unfold release_conn. intros r sel [Hsel Hne]%map_lookup_filter_Some.
    apply sd_selections, Ha in Hsel as [Hsel|Hsel]; [done|exact Hsel].
Qed.

Lemma request_well h c service content : hub_inv h → octets content →
  goes_well h (request display entry_seed capacity running writable hook controls tracker identity deletable_logs call fuel h c service content).
Proof.
  intros Hi Ho. unfold request. destruct (in_conns (hb_inner h) !! c) as [[peer max_pdu]|] eqn:Hc; [|by exists h; split; [|split; [|split; [|by left]]]].
  assert (live h c) as Hl by (by eexists).
  pose proof (handle_sound display entry_seed capacity running writable hook controls tracker identity deletable_logs call fuel (live h) (around h) c peer max_pdu
    service content (hb_inner h) (Hcall _ _) (hi_sound h Hi) Hl (or_introl Hl) Ho) as Hh.
  destruct (handle _ _ _ _ _ _ _ _ _ _ _ _ _ _ _ _ _) as [[e|e| |] s]; destruct Hh as [Hset Hk]; [by apply inner_well..|done|done].
Qed.

Lemma hub_do_well h op : hub_inv h → hub_op_ok h op →
  goes_well h (hub_do display entry_seed capacity running writable hook controls tracker identity deletable_logs call fuel max_conns h op).
Proof.
  intros Hi Hop. pose proof (hi_sound h Hi) as Hs. destruct op as [peer|i|i mp|c svc content|c|i|i|sets|key g|key g|key g|key g|q|l p|]; cbn [hub_do hub_op_ok] in *.
  - by apply arrive_well.
  - by apply setup_fails_well.
  - destruct Hop. by apply establish_well.
  - destruct Hop. by apply request_well.
  - by apply leave_well.
  - by apply free_slot_well.
  - by apply forget_well.
  - apply on_inner_well; [done|]. destruct (update_sound (live h) (around h) display entry_seed capacity running (hb_inner h) sets Hs Hop) as (s & -> & Hk). by exists s.
  - apply on_inner_well; [done|]. apply at_block_kept; [apply window_blocks|done].
  - apply on_inner_well; [done|]. apply at_block_kept; [apply period_blocks|done].
  - apply on_inner_well; [done|]. apply at_block_kept; [apply reservation_blocks|done].
  - apply inner_well; [done|]. by apply log_all_sound.
  - apply inner_well; [done|]. split; [|done]. destruct Hs. by split.
  - apply inner_well; [done|]. split; [|done]. destruct Hs. by split.
  - apply on_inner_well; [done|]. by apply stop_sound.
Qed.
End invariant.

(** ** A server from its start *)

Section served.
Context {F : Type} `{FilesReturn F}.
Context (display : Value → list Z) (version : list Z) (entry_seed : Z) (running : bool)
  (hook : option (DataAttribute → Value → option DataAccessError)) (controls : gmap ObjectReference (ControlCtx → AddCause * bool))
  (call : Element → Call (Inner F) (list Z)) (fuel : nat) (opts : Options) (m : Model) (t : Z) (fs : F) (o : Outside).

Definition serve_do : Hub F → HubOp → outcome Empty_set (Hub F) :=
  hub_do display entry_seed (log_capacity (op_log_capacity opts)) running (server_writable opts) hook controls
    (Tracker_build (served_model opts m t).1.1) (server_identity version opts m) (op_deletable_logs opts) call fuel (op_max_connections opts).

Definition serve_step (h h' : Hub F) : Prop := ∃ op, hub_op_ok h op ∧ serve_do h op = Ok h'.

(** The states a server comes to. *)
Definition served (h : Hub F) : Prop := rtc serve_step (Hub_new (Server_new running opts m t fs o)) h.

(** What the server is given, and what it calls. *)
Record given : Prop := {
  gv_groups : 0 ≤ op_setting_groups opts ∧ groups_ok m;
  gv_max : 0 ≤ op_max_connections opts;
  gv_model : enc_model m;
  gv_call : ∀ X Y, calls X Y call;
}.

#[local] Set Default Proof Using "Type*".

Lemma new_inv : given → hub_inv (op_max_connections opts) (Hub_new (Server_new running opts m t fs o)).
Proof.
  intros [[Hn Hg] Hmax Hm _]. assert (in_conns (Server_new running opts m t fs o) = ∅) as Hc.
  { unfold Server_new. by destruct (served_model opts m t) as [[? ?] ?]. }
  pose proof (λ X Y, Server_new_sound running opts m t fs o X Y Hn Hg Hm) as Hs. revert Hc Hs. generalize (Server_new running opts m t fs o). intros s Hc Hs.
  split; simpl; try lia.
  - by rewrite Hc.
  - intros c [[x Hx]|[Hx|Hx]]; [simpl in Hx; by rewrite Hc in Hx|by apply not_elem_of_nil in Hx..].
  - apply Hs.
Qed.

Lemma serve_step_inv h h' : given → hub_inv (op_max_connections opts) h → serve_step h h' → hub_inv (op_max_connections opts) h' ∧ only_new h h'.
Proof.
  intros Hgv Hi (op & Hop & E). destruct (hub_do_well display entry_seed (log_capacity (op_log_capacity opts)) running (server_writable opts) hook controls
    (Tracker_build (served_model opts m t).1.1) (server_identity version opts m) (op_deletable_logs opts) call fuel (op_max_connections opts)
    (gv_call Hgv) h op Hi Hop) as (h'' & E' & Hi' & Hnew). unfold serve_do in E. rewrite E' in E. by apply Ok_inj in E as <-.
Qed.

Lemma served_inv h : given → served h → hub_inv (op_max_connections opts) h.
Proof.
  intros Hgv. revert h. apply rtc_ind_r; [by apply new_inv|]. intros h h' _ Hstep Hi. by apply serve_step_inv in Hstep as [? _].
Qed.

Lemma later_inv h h' : given → hub_inv (op_max_connections opts) h → rtc serve_step h h' → hub_inv (op_max_connections opts) h' ∧ only_new h h'.
Proof.
  intros Hgv Hi. revert h'. apply rtc_ind_r.
  - split; [done|]. split; [done|by left].
  - intros h1 h2 _ Hstep [Hi1 [Hn Ha]]. apply serve_step_inv in Hstep as [Hi2 [Hn2 Ha2]]; [|done..]. split; [done|]. split; [lia|].
    intros c [Hc|Hc]%Ha2; [by apply Ha|right; lia].
Qed.
End served.

(** ** Claims *)

(** The control blocks of an association, and its selections. *)
Definition holds {F} (h : Hub F) (c : ConnId) : Prop :=
  (∃ b, b ∈ in_rcbs (hb_inner h) ∧ (rt_owner b.2.2 = Some c ∨ rt_conn b.2.2 = Some c)) ∨
  (∃ b, b ∈ in_svcbs (hb_inner h) ∧ sb_owner b.2 = Some c).
Definition selects {F} (h : Hub F) (c : ConnId) : Prop := ∃ r sel, in_selections (hb_inner h) !! r = Some sel ∧ sel_conn sel = c.

Lemma holds_live {F} `{FilesReturn F} max (h : Hub F) c : hub_inv max h → holds h c → live h c.
Proof.
  intros Hi Hc. destruct (hi_sound _ h Hi) as [_ Hr _ _ Hv _]. rewrite Forall_forall in Hr. rewrite Forall_forall in Hv.
  destruct Hc as [(b & Hb & Hc)|(b & Hb & Hc)]; [|by apply (Hv b Hb)]. destruct (Hr b Hb) as [_ [Ho Hs]]. destruct Hc; [by apply Ho|by apply Hs].
Qed.

Lemma selects_around {F} `{FilesReturn F} max (h : Hub F) c : hub_inv max h → selects h c → around h c.
Proof. intros Hi (r & sel & Hr & <-). apply (sd_selections _ _ _ (hi_sound _ h Hi) r sel Hr). Qed.



(** C10: An association that has ended is gone for good. Once its task is through with it,
    in no state the server comes to afterwards does it hold a control block or a selection,
    and its id is not given to another. *)
Theorem gone_for_good {F} `{FilesReturn F} (display : Value → list Z) (version : list Z) (entry_seed : Z) (running : bool)
    (hook : option (DataAttribute → Value → option DataAccessError)) (controls : gmap ObjectReference (ControlCtx → AddCause * bool))
    (call : Element → Call (Inner F) (list Z)) (fuel : nat) (opts : Options) (m : Model) (t : Z) (fs : F) (o : Outside) (h h' : Hub F) (c : ConnId) :
  given call opts m → served display version entry_seed running hook controls call fuel opts m t fs o h →
  c < hb_next h → ¬ live h c ∧ ¬ leaving h c →
  rtc (serve_step display version entry_seed running hook controls call fuel opts m t) h h' →
  ¬ holds h' c ∧ ¬ selects h' c ∧ ¬ live h' c.
Proof.
  intros Hg Hs Hc [Hl Hlv] Hr. apply later_inv in Hr as [Hi [_ Hnew]]; [|exact fs|exact Hg|by eapply served_inv].
  assert (¬ around h' c) as Ha by (intros [[?|?]|?]%Hnew; [done|done|lia]).
  split; [intros Hh; apply Ha; left; by eapply holds_live|]. split; [intros Hh; by eapply Ha, selects_around|]. intros Hh. by apply Ha; left.
Qed.

(** ** A day of a server *)

(** A client nobody can be called back at. *)
Definition no_client {F} (e : Element) : Call (Inner F) (list Z) := lift (Err MmsTimeout).

Lemma no_client_calls {F} X Y : calls (F:=F) X Y no_client.
Proof. intros e s Hs. split; [|done]. split; [done|by apply kept_refl]. Qed.

Definition day_options : Options := mkOptions None (Some [txt "srv"]) 1 4 2 None false true 0 None.
Definition day_start : Hub Disk := Hub_new (Server_new true day_options sample_device 0 example_disk (mkOutside [] [] [] [] [] [])).
Definition day_do : Hub Disk → HubOp → outcome Empty_set (Hub Disk) :=
  serve_do (λ _, []) (txt "1.0") 7 true None ∅ no_client 0 day_options sample_device 0.

Lemma day_given : given (F:=Disk) no_client day_options sample_device.
Proof. split; [|done|exact sample_enc|exact no_client_calls]. split; [done|]. split; [constructor|]. by repeat constructor. Qed.

#[export] Instance encodable_dec v : Decision (encodable v).
Proof. unfold encodable. destruct (data_element (E:=Empty_set) v) as [el|[]| |]; [left; by eexists|right; by intros [??]..]. Defined.

#[export] Instance hub_op_ok_dec {F} (h : Hub F) op : Decision (hub_op_ok h op).
Proof. destruct op; unfold hub_op_ok, octets; apply _. Defined.

(** The operations in order, as long as each is one that can come. *)
Definition day (ops : list HubOp) : outcome Empty_set (Hub Disk) :=
  foldl (λ m op, h ← m; if decide (hub_op_ok h op) then day_do h op else NoFuel) (Ok day_start) ops.

Lemma day_steps ops2 ops1 h h' : day ops1 = Ok h → day (ops1 ++ ops2) = Ok h' →
  rtc (serve_step (λ _, []) (txt "1.0") 7 true None ∅ no_client 0 day_options sample_device 0) h h'.
Proof.
  unfold day. rewrite foldl_app. intros ->. revert h. induction ops2 as [|op ops IH]; intros h; simpl; [by intros [= <-]|].
  destruct (decide (hub_op_ok h op)) as [Hop|Hop].
  - destruct (day_do h op) as [h1|[]| |] eqn:E.
    + intros Hr%IH. eapply rtc_l; [|exact Hr]. by exists op.
    + clear. by induction ops.
    + clear. by induction ops.
  - clear. by induction ops.
Qed.

Lemma day_served ops h : day ops = Ok h →
  served (λ _, []) (txt "1.0") 7 true None ∅ no_client 0 day_options sample_device 0 example_disk (mkOutside [] [] [] [] [] []) h.
Proof. intros Hd. by apply (day_steps ops [] day_start h). Qed.

(** RptEna is written true, as a client's stack puts it. *)
Definition enable_request : list Z := Eval vm_compute in
  match write_request (E:=Empty_set) (txt "LD0") [txt "LLN0$BR$brcb$RptEna"] [VBoolean true] with
  | Ok e => match read_tlv (Decoder_new (Element_encode e)) with Ok ((_, c), _) => c | _ => [] end
  | _ => []
  end.

(** A client subscribes, another is turned away, the process changes a value; then the
    client leaves and the next one comes. *)
Definition morning : list HubOp :=
  [Arrive None; Arrive None; Establish 0 1000; Request 1 SVC_WRITE enable_request; Process [((txt "LD0/GGIO1.Ind1.stVal", St), VBoolean true)]].
Definition noon : list HubOp := [Leave 1; FreeSlot 0; Arrive None; Forget 0].
Definition evening : list HubOp := [Establish 0 1000; Request 2 SVC_WRITE enable_request].

(** What a run leads to, and whether it has some property there. *)
Definition leads (ops : list HubOp) (p : Hub Disk → bool) : bool := match day ops with Ok h => p h | _ => false end.

Lemma leads_to ops p : leads ops p = true → ∃ h, day ops = Ok h ∧ p h = true.
Proof. unfold leads. destruct (day ops) as [h|[]| |]; [|done..]. by exists h. Qed.

(** A read whose content breaks off. *)
Definition broken_read : HubOp := Request 1 SVC_READ [161; 3; 160].


Definition owns (c : ConnId) (h : Hub Disk) : bool := existsb (λ b, bool_decide (rt_owner b.2.2 = Some c)) (in_rcbs (hb_inner h)).

Lemma owns_holds c h : owns c h = true → holds h c.
Proof.
  intros (b & Hb%list_elem_of_In & Ho%bool_decide_eq_true)%existsb_exists. left. exists b. split; [done|by left].
Qed.


Lemma gone_for_good_witness : ∃ h h', day (morning ++ noon) = Ok h ∧ day ((morning ++ noon) ++ evening) = Ok h' ∧ holds h' 2 ∧ ¬ holds h' 1.
Proof.
  destruct (leads_to (morning ++ noon) (λ h, bool_decide (1 < hb_next h) && bool_decide (¬ live h 1 ∧ ¬ leaving h 1))) as (h & Hd & Hp);
    [vm_compute; reflexivity|].
  apply andb_true_iff in Hp as [Hn%bool_decide_eq_true Ha%bool_decide_eq_true].
  destruct (leads_to ((morning ++ noon) ++ evening) (owns 2)) as (h' & Hd' & Ho%owns_holds); [vm_compute; reflexivity|].
  exists h, h'. split; [exact Hd|]. split; [exact Hd'|]. split; [exact Ho|].
  apply (gone_for_good (λ _, []) (txt "1.0") 7 true None ∅ no_client 0 day_options sample_device 0 example_disk (mkOutside [] [] [] [] [] []) h h' 1
    day_given (day_served _ h Hd) Hn Ha (day_steps evening _ h h' Hd Hd')).
Defined.

(** The number of connections an [Opened] event carries leaves out those still being set
    up, which are counted when the event is of another kind. *)
Lemma opened_leaves_out_setup h i max_pdu peer :
  hb_setup h !! i = Some peer → ∃ ev, hb_events (establish (F:=Disk) h i max_pdu) = hb_events h ++ [ev] ∧ ce_state ev = ConnOpened ∧
    ce_open ev = Z.of_nat (size (in_conns (hb_inner (establish h i max_pdu)))).
Proof. intros Hi. unfold establish. rewrite Hi. by eexists. Qed.
